(* ===== verification/_CoqProject ===== *)
-Q . S2P
Prelude.v
Decimal.v
External.v
OrderBook.v
RawLog.v
RawLogSafety.v
Replay.v
Boundary.v
Transport.v
Handover.v
Ownership.v
LiveRotation.v
HotRedundancy.v
DurabilityProgress.v
SegmentChain.v
Follower.v
Generations.v
IdentityLog.v
TradeUnion.v
JournalAudit.v
CanonicalOutput.v
Observations.v
MarketReplay.v
TransportJournal.v
GenerationArtifact.v
GenerationHandover.v
CompleteReplay.v
QualifiedCache.v
CacheCheckpoints.v
CampaignArtifact.v
