(* ===== verification/Prelude.v ===== *)
(** * Verification of the lob-replay crate

    [src/rust/lob-replay] captures the public depth and trade streams of an exchange,
    makes every frame durable before it is acknowledged, rebuilds the local order book
    from what was stored, and hands the publication of one canonical stream from
    connection to connection without a gap. This library models its logic, from the
    decimals up to the arbitration of two capture lanes, and proves what the parts promise
    to one another.

    ** How the program works, and where each part is modelled

    Foundations.
    - [Prelude.v]: outcomes of Rust functions, machine integers, byte strings, JSON
      lines, the durable sink of all writers; shared lemmas, tactics and hints.
    - [Decimal.v]: [FixedDecimal] of [lib.rs].
    - [External.v]: SHA-256, [serde_json], base64 as classes of operations, with their
      documented laws as separate classes. Concrete instances for the witnesses.

    Storage and replay.
    - [OrderBook.v]: [LocalOrderBook] of [lib.rs].
    - [RawLog.v], [RawLogSafety.v]: the raw log of [lib.rs] with writer, readers, scans
      and recovery.
    - [Replay.v]: [replay_session], [audit_session], [monitor_session] of [lib.rs].
    - [Observations.v]: [observations.rs], neutral observations from raw records.
    - [SegmentChain.v]: [segment_chain.rs], the manifest of sealed raw segments.
    - [DurabilityProgress.v], [Follower.v]: [durability_progress.rs] and
      [durability_follower.rs], the journal of acknowledgements and its reader.
    - [MarketReplay.v]: [market_replay.rs], the replay of a sealed segment prefix.
    - [GenerationArtifact.v]: [generation_artifact.rs], the verifier of a finished session
      directory (a "generation"), over a value for the directory tree.
    - [CampaignArtifact.v]: [campaign_artifact.rs], the verifier of a finished campaign: its
      journal, the life of its generations, and all the files of its directory.
    - [CompleteReplay.v]: [complete_replay.rs], the replay of a finished run over the chain
      of its generations, the receipt of an audited replay and the replay qualified by it.
    - [QualifiedCache.v], [CacheCheckpoints.v]: [qualified_cache.rs], the binary cache of
      the records a qualified replay selects, and the store of book checkpoints from which
      windows of the cache are replayed.

    Connections.
    - [Transport.v]: [transport.rs] and [liveness.rs], session and watchdog.
    - [TransportJournal.v]: [transport_journal.rs], the journal of a connection's life.
    - [Generations.v]: [generation_supervisor.rs].
    - [HotRedundancy.v]: [hot_redundancy.rs], two lanes with backoff and gap accounting.

    Handover of publication.
    - [Boundary.v]: [boundary.rs] and [splice.rs].
    - [Handover.v]: [handover.rs] and [orchestrator.rs].
    - [Ownership.v]: [ownership.rs], ledger and source pointer.
    - [LiveRotation.v]: [live_rotation.rs], which joins the previous two.
    - [GenerationHandover.v]: [generation_handover.rs], the proof that two generations
      overlap, derived from their files and verified again from them.
    - [CanonicalOutput.v]: [canonical_output.rs], the journal consumers read.

    Arbitration of the lanes ([live_arbitration.rs]).
    - [IdentityLog.v], [TradeUnion.v], [JournalAudit.v].

    Data flows upwards: a session ([Transport]) drains frames into a raw log ([RawLog]),
    whose acknowledgements go to the progress journal and its follower; segments are sealed
    into the manifest; observations are extracted from durable records, compared to find a
    boundary, and published under the ownership ledger; two lanes are merged by the trade
    union and the depth decisions into the live journal, which is audited. A finished run
    is verified generation by generation and handover by handover, replayed as one stream
    ([CompleteReplay]), cached and checkpointed.

    ** Conventions

    A [Result] is [res], whose third outcome is the abort of the process (the release
    profile has [overflow-checks = true] and [panic = "abort"]). A method on [&mut self]
    is a function [SE S A], whose state survives an error. Machine integers are [Z] with
    the checked operations of [Prelude]; no operation wraps silently because the profile
    forbids it. A [BTreeMap] is the list of its entries in key order. Files are byte lists;
    a sink ([Sink]) separates the bytes written from the bytes made stable by [sync], and a
    crash keeps any file that begins with the stable bytes. The file of the identity log,
    which is read and written in place, carries the outcomes of the calls to come: any of
    them may fail, a write behind any part of its bytes. Where a function walks
    directories the file system is a value given to it. Error texts are kept where the code
    compares them and abbreviated otherwise.

    ** What the theorems show

    - Durability: after any history of calls, failed ones included, and any crash, the
      acknowledged records of a journal are read back exactly
      ([acked_records_survive_crash], [ownership_survives_crash],
      [manifest_survives_crash], [output_survives_crash], [boundary_commit_atomic],
      [identity_log_exact], [sealed_journal_is_acknowledged]).
    - Scanners and verifiers are total on arbitrary bytes and accept exactly the journals
      their specification describes ([scan_finds_longest_prefix], [ownership_scan_sound],
      [transport_scan_exact], [closed_audit_exact], [canonical_output_gapless],
      [raw_log_tamper_evident], [follower_audit_sound], [verified_generation_sound],
      [verified_campaign_sound]).
    - A verified campaign lost no authority, no time and no announcement: the events of its
      journal are one complete life in order ([campaign_life_in_order]), the windows of its
      generations cover the requested duration ([campaign_time_covered]), every shutdown of
      the venue has one consequence ([shutdowns_disposed_once]).
    - The order book and its replays refine maps from prices to quantities and lose no
      update ([apply_depth_refines_map], [replay_refines_reference],
      [replay_loses_no_update], [market_report_exact],
      [checkpoints_are_prefix_replays]), also over a chain of generations joined by proven
      handovers ([complete_depth_exact], [complete_trades_exact]).
    - The faster ways to the same result give the same result: one pass instead of the
      audited reading ([qualified_replay_reproduces]), the cache instead of the raw logs
      ([cache_stream_round_trip], [cached_replay_reproduces]), a stored book instead of the
      replay from the snapshot ([built_store_validates], [windows_replay_exactly]).
    - Publication has no gap and no duplicate, and the authority moves as the ledger says,
      with the one exception that [activation_authority_exact] names
      ([activation_authority_exact], [rotation_publishes_gapless],
      [canonical_selection_gapless], [trade_union_publishes_union],
      [trade_union_exactly_once], [trade_splice_exact], [proven_handover_verifies]).
    - State machines: invariants over every history, and recovery where the code promises
      it ([generation_history_inv], [gap_recovers], [gap_accounting_exact],
      [session_loses_no_frame], [session_pong_rate_bounded]).
    - Incremental readers equal the reader of the whole ([follower_incremental_exact],
      [cursor_resumes_window], [durable_resume_exact]).

    ** Fuel

    The scanners over byte strings recurse with the length of the input as fuel; every
    step consumes at least one byte, and the theorems are about the function with that fuel
    already supplied, so none of them is about a run that was cut short. The other loops
    are structural over lists. The identity log's binary search has 64 turns,
    which is enough for any range of [u64] positions. The walk over the source tree of a run has the number of
    directories as fuel, which is enough for every tree whose entries have plain names
    ([collect_fuel_enough]). Loops that count to a number read from a file recurse on that
    number.

    ** Hypotheses

    Besides the laws of the classes in [External], the theorems on the cache assume that a
    directory holds what was written into it ([directory_holds], [same_directory]) and that
    payloads of the source fit the readers of the cache ([source_fits]): the writer does not
    test this bound, the raw log keeps it. [CompleteReplay] takes the campaign verifier as a
    parameter, which [profile_raw_campaign] of [CampaignArtifact] instantiates; both leave
    out the durations that are measured. [activation_authority_exact] assumes that a failed
    write leaves a part of its bytes in the file ([TornWrites]). [output_survives_crash] holds
    while the fencing tokens fit [u64], [cache_stream_round_trip] for records within the
    limit of the reader, and [trade_union_publishes_union] for an identity log whose calls
    succeed; [trade_union_exactly_once] and [identity_log_exact] hold with any failures. The theorems on the life of a campaign number its
    generations as the verifier does ([indexed]).

    ** Not modelled

    Creating files and resolving names, apart from the checks of paths that the code makes;
    wall clocks (an argument); threads, sockets, process control, argument parsing and
    printing of the executables under [src/bin]; the foreign-function calls of
    [windows_etw.rs], [windows_tcp.rs], [windows_time.rs]; the environment variables of
    [capture_config.rs].

    [hot_redundancy_artifact.rs]: it compares the reports of both lanes with what the
    campaign verifier, which is modelled, recomputes. *)

From stdpp Require Import base list strings gmap option numbers sorting.
From Stdlib Require Import ZArith Lia.
From Stdlib Require Import Strings.Byte.
Local Open Scope Z_scope.

(** ** Outcomes of Rust functions

    [Result<T, String>] with a third outcome: the release profile sets
    [overflow-checks = true] and [panic = "abort"], so an arithmetic overflow
    or a failed [expect] ends the process. *)
Inductive res (A : Type) : Type :=
  | Ok (a : A)
  | Err (msg : string)
  | Panic.
Arguments Ok {A} a.
Arguments Err {A} msg.
Arguments Panic {A}.

#[global] Instance res_ret : MRet res := λ A a, Ok a.
#[global] Instance res_bind : MBind res := λ A B f m,
  match m with Ok a => f a | Err e => Err e | Panic => Panic end.

(** A method taking [&mut self]: what it does to [self] survives an [Err]. *)
Definition SE (S A : Type) : Type := S → S * res A.

#[global] Instance SE_ret S : MRet (SE S) := λ A a s, (s, Ok a).
#[global] Instance SE_bind S : MBind (SE S) := λ A B f m s,
  match m s with
  | (s', Ok a) => f a s'
  | (s', Err e) => (s', Err e)
  | (s', Panic) => (s', Panic)
  end.

Definition get {S} : SE S S := λ s, (s, Ok s).
Definition put {S} (s : S) : SE S unit := λ _, (s, Ok ()).
Definition modify {S} (f : S → S) : SE S unit := λ s, (f s, Ok ()).
Definition lift {S A} (r : res A) : SE S A := λ s, (s, r).
Definition throw {S A} (msg : string) : SE S A := λ s, (s, Err msg).

(** [if c { return Err(msg) }] *)
Definition reject (c : bool) (msg : string) : res unit :=
  if c then Err msg else Ok ().
(** [option.ok_or_else(|| msg)] *)
Definition ok_or {A} (o : option A) (msg : string) : res A :=
  match o with Some a => Ok a | None => Err msg end.
(** [option.expect(..)] *)
Definition expect {A} (o : option A) : res A :=
  match o with Some a => Ok a | None => Panic end.

Definition is_ok {A} (r : res A) : bool := match r with Ok _ => true | _ => false end.

(** [iter.map(f).collect::<Result<Vec<_>>>()] *)
Fixpoint try_map {A B} (f : A → res B) (l : list A) : res (list B) :=
  match l with
  | [] => Ok []
  | x :: l => y ← f x; ys ← try_map f l; Ok (y :: ys)
  end.

(** [iter.try_fold(init, f)] *)
Fixpoint try_fold {A B} (f : B → A → res B) (b : B) (l : list A) : res B :=
  match l with
  | [] => Ok b
  | x :: l => b' ← f b x; try_fold f b' l
  end.

Lemma res_bind_Ok {A B} (m : res A) (f : A → res B) b :
  (m ≫= f) = Ok b ↔ ∃ a, m = Ok a ∧ f a = Ok b.
Proof. destruct m; naive_solver. Qed.

Section outcome_lemmas.
Context {A B : Type}.

Lemma reject_Ok c msg u : reject c msg = Ok u ↔ c = false.
Proof. destruct u, c; unfold reject; naive_solver. Qed.

Lemma ok_or_Ok (o : option A) msg a : ok_or o msg = Ok a ↔ o = Some a.
Proof. destruct o; naive_solver. Qed.

Lemma SE_bind_Ok {S} (m : SE S A) (f : A → SE S B) s s' b :
  (m ≫= f) s = (s', Ok b) ↔ ∃ a s1, m s = (s1, Ok a) ∧ f a s1 = (s', Ok b).
Proof.
  unfold mbind, SE_bind. destruct (m s) as [s1 [a|e|]]; naive_solver.
Qed.

Lemma try_map_Ok_Forall2 (f : A → res B) l k :
  try_map f l = Ok k ↔ Forall2 (λ x y, f x = Ok y) l k.
Proof.
  revert k. induction l as [|x l IH]; intros k; simpl.
  - split; [intros [= <-]; constructor|by inversion 1].
  - split.
    + intros (y & Hy & (ys & Hys & [= <-])%res_bind_Ok)%res_bind_Ok.
      constructor; [done|by apply IH].
    + inversion 1 as [|? y ? ys Hy Hys]; subst.
      rewrite Hy; simpl. apply IH in Hys. by rewrite Hys.
Qed.

Lemma try_map_ext (f g : A → res B) l : Forall (λ x, f x = g x) l → try_map f l = try_map g l.
Proof. induction 1 as [|x l H _ IH]; [done|]. cbn [try_map]. rewrite H. destruct (g x); cbn [mbind res_bind]; [|done..]. by rewrite IH. Qed.
Lemma try_map_id (f : A → res A) l : Forall (λ x, f x = Ok x) l → try_map f l = Ok l.
Proof. induction 1 as [|x l Hx _ IH]; [done|]. cbn [try_map]. rewrite Hx. cbn [mbind res_bind]. by rewrite IH. Qed.

Lemma try_fold_app (f : B → A → res B) b l k :
  try_fold f b (l ++ k) = (b' ← try_fold f b l; try_fold f b' k).
Proof.
  revert b. induction l as [|x l IH]; intros b; [done|]; simpl.
  destruct (f b x) as [b'| |]; simpl; [apply IH|done|done].
Qed.

(** An invariant of the accumulator of a [try_fold]. *)
Lemma try_fold_inv (P : B → Prop) (f : B → A → res B) b l b' :
  P b → (∀ b x b', x ∈ l → P b → f b x = Ok b' → P b') →
  try_fold f b l = Ok b' → P b'.
Proof.
  revert b. induction l as [|x l IH]; intros b Hb Hf; simpl.
  - by intros [= <-].
  - intros (b1 & H1 & H2)%res_bind_Ok.
    eapply IH; [| |exact H2]; [eapply Hf; [|exact Hb|exact H1]; set_solver|].
    intros ? ? ? ?. apply Hf. set_solver.
Qed.

(** The same for an invariant that speaks of the elements taken so far. *)
Lemma try_fold_prefix (P : list A → B → Prop) (f : B → A → res B) b pre l b' :
  P pre b → (∀ pre x b b', x ∈ l → P pre b → f b x = Ok b' → P (pre ++ [x]) b') →
  try_fold f b l = Ok b' → P (pre ++ l) b'.
Proof.
  revert b pre. induction l as [|x l IH]; intros b pre Hb Hf; simpl.
  - intros [= <-]. by rewrite app_nil_r.
  - intros (b1 & H1 & H2)%res_bind_Ok. rewrite cons_middle, (assoc_L (++)).
    eapply IH; [| |exact H2]; [eapply Hf; [|exact Hb|exact H1]; set_solver|].
    intros ? ? ? ? ?. apply Hf. set_solver.
Qed.
End outcome_lemmas.

(** ** Programs that cannot panic *)
Create HintDb nopanic.

Section nopanic.
Context {A B : Type}.

Lemma bind_nopanic (m : res A) (f : A → res B) :
  m ≠ Panic → (∀ a, f a ≠ Panic) → (m ≫= f) ≠ Panic.
Proof. destruct m; simpl; auto. Qed.
Lemma reject_nopanic c msg : reject c msg ≠ Panic.
Proof. by destruct c. Qed.
Lemma ok_or_nopanic (o : option A) msg : ok_or o msg ≠ Panic.
Proof. by destruct o. Qed.
Lemma Ok_nopanic (a : A) : Ok a ≠ Panic.
Proof. done. Qed.
Lemma Err_nopanic msg : @Err A msg ≠ Panic.
Proof. done. Qed.
Lemma try_map_nopanic (f : A → res B) l : (∀ x, f x ≠ Panic) → try_map f l ≠ Panic.
Proof.
  intros Hf. induction l as [|x l IH]; simpl; [done|].
  specialize (Hf x). destruct (f x); [|done|done]. simpl.
  by destruct (try_map f l).
Qed.
Lemma try_fold_nopanic (f : B → A → res B) b l :
  (∀ b x, f b x ≠ Panic) → try_fold f b l ≠ Panic.
Proof.
  intros Hf. revert b. induction l as [|x l IH]; intros b; simpl; [done|].
  specialize (Hf b x). destruct (f b x); [apply IH|done|done].
Qed.
End nopanic.
#[export] Hint Resolve reject_nopanic ok_or_nopanic Ok_nopanic Err_nopanic try_map_nopanic
  try_fold_nopanic : nopanic.
(** Walk down a program, leaving the calls the database does not know. *)
Ltac nopanic :=
  repeat first
    [ apply bind_nopanic; [solve [auto with nopanic]|intros ?]
    | solve [auto with nopanic]
    | case_match ].

(** Close a goal whose context has a call that panics and cannot. *)
Ltac no_panic_here :=
  match goal with
  | H : ?x = Panic |- _ =>
      exfalso; refine ((_ : x ≠ Panic) H); clear; solve [auto with nopanic | nopanic]
  end.

(** Invert every successful bind in hypothesis [H]. *)
Ltac inv_ok H :=
  repeat match type of H with
  | Ok _ = Ok _ => injection H as H
  | (_, Ok _) = (_, Ok _) => injection H as H
  | Err _ = Ok _ => discriminate H
  | Panic = Ok _ => discriminate H
  | (_ ≫= _) = Ok _ =>
      let x := fresh "x" in let Hx := fresh "Hx" in
      apply res_bind_Ok in H as (x & Hx & H); inv_ok Hx
  | reject _ _ = Ok _ => apply reject_Ok in H
  | ok_or _ _ = Ok _ => apply ok_or_Ok in H
  end.

(** Split a [false] disjunction of guards into its conjuncts. *)
Ltac split_orb :=
  repeat match goal with
  | H : _ || _ = false |- _ => apply orb_false_iff in H as [? ?]
  | H : _ && _ = true |- _ => apply andb_true_iff in H as [? ?]
  | H : negb _ = false |- _ => apply negb_false_iff in H
  | H : negb _ = true |- _ => apply negb_true_iff in H
  end.

(** ** Machine integers

    [u64], [usize] (64-bit target) and [i128] values are [Z]; an operation that
    the code writes with a plain operator panics when it leaves the range, the
    [checked_] and [saturating_] forms are what their names say. *)
Definition u64_max : Z := 18446744073709551615.
Definition u32_max : Z := 4294967295.
Definition i128_max : Z := 170141183460469231731687303715884105727.
Definition i128_min : Z := -170141183460469231731687303715884105728.
Definition i64_max : Z := 9223372036854775807.
Definition i64_min : Z := -9223372036854775808.

Definition in_u64 (z : Z) : Prop := 0 ≤ z ≤ u64_max.
Definition in_i128 (z : Z) : Prop := i128_min ≤ z ≤ i128_max.

Definition checked_add (a b : Z) : option Z :=
  if a + b <=? u64_max then Some (a + b) else None.
Definition checked_sub (a b : Z) : option Z :=
  if b <=? a then Some (a - b) else None.
Definition checked_mul (a b : Z) : option Z :=
  if a * b <=? u64_max then Some (a * b) else None.
Definition saturating_add (a b : Z) : Z := Z.min (a + b) u64_max.
Definition saturating_sub (a b : Z) : Z := Z.max (a - b) 0.
Definition saturating_mul (a b : Z) : Z := Z.min (a * b) u64_max.
(** [a + b] and [a - b] on [u64] *)
Definition add_u64 (a b : Z) : res Z := expect (checked_add a b).
Definition sub_u64 (a b : Z) : res Z := expect (checked_sub a b).

Definition i128_checked (z : Z) : option Z :=
  if (i128_min <=? z) && (z <=? i128_max) then Some z else None.
(** [a * b] on [i128] *)
Definition mul_i128 (a b : Z) : res Z := expect (i128_checked (a * b)).

Definition len {A} (l : list A) : Z := Z.of_nat (length l).

Lemma checked_add_Some a b c :
  checked_add a b = Some c ↔ a + b ≤ u64_max ∧ c = a + b.
Proof. unfold checked_add. case_match; split; intros; simplify_eq; try lia; f_equal; lia. Qed.

Lemma existsb_none {A} (p : A → bool) l : Forall (λ x, p x = false) l → existsb p l = false.
Proof. induction 1 as [|x l Hx _ IH]; cbn; [done|by rewrite Hx]. Qed.
Lemma existsb_none_inv {A} (p : A → bool) l : existsb p l = false → Forall (λ x, p x = false) l.
Proof. induction l as [|x l IH]; cbn; [done|]. intros [H1 H2]%orb_false_iff. constructor; auto. Qed.

Lemma checked_add_fits a b : a + b ≤ u64_max → checked_add a b = Some (a + b).
Proof. intros. by apply checked_add_Some. Qed.

Lemma checked_sub_Some a b c : checked_sub a b = Some c ↔ b ≤ a ∧ c = a - b.
Proof. unfold checked_sub. case_match; split; intros; simplify_eq; try lia; f_equal; lia. Qed.

Lemma checked_mul_fits a b : a * b ≤ u64_max → checked_mul a b = Some (a * b).
Proof. intros. unfold checked_mul. by rewrite (proj2 (Z.leb_le _ _)). Qed.
Lemma checked_sub_fits a b : b ≤ a → checked_sub a b = Some (a - b).
Proof. intros. by apply checked_sub_Some. Qed.
Lemma sub_u64_fits a b : b ≤ a → sub_u64 a b = Ok (a - b).
Proof. intros. unfold sub_u64. by rewrite checked_sub_fits. Qed.

Lemma add_u64_Ok a b c : add_u64 a b = Ok c ↔ a + b ≤ u64_max ∧ c = a + b.
Proof.
  unfold add_u64. rewrite <-checked_add_Some.
  destruct (checked_add a b); naive_solver.
Qed.

Lemma add_u64_fits a b : a + b ≤ u64_max → add_u64 a b = Ok (a + b).
Proof. intros. unfold add_u64. by rewrite checked_add_fits. Qed.
Lemma add_u64_cases a b :
  (add_u64 a b = Ok (a + b) ∧ a + b ≤ u64_max) ∨ (add_u64 a b = Panic ∧ u64_max < a + b).
Proof. unfold add_u64, checked_add. destruct (_ <=? _) eqn:E; [left|right]; (split; [done|lia]). Qed.

Lemma mul_i128_exact a b : in_i128 (a * b) → mul_i128 a b = Ok (a * b).
Proof.
  intros [??]. unfold mul_i128, i128_checked. by rewrite !(proj2 (Z.leb_le _ _)) by lia.
Qed.

(** ** Bytes and fixed-width encodings *)
Abbreviation bytes := (list Byte.byte).

Definition byte_of_Z (z : Z) : Byte.byte :=
  match Byte.of_N (Z.to_N (z mod 256)) with Some b => b | None => Byte.x00 end.
Definition Z_of_byte (b : Byte.byte) : Z := Z.of_N (Byte.to_N b).

#[global] Instance byte_eq_decision : EqDecision Byte.byte.
Proof. intros x y. destruct (Byte.byte_eq_dec x y); [left|right]; assumption. Defined.

(** [to_le_bytes] on [n] bytes (two's complement for negative values) and
    [from_le_bytes]; the big-endian forms reverse them. *)
Fixpoint to_le_bytes (n : nat) (z : Z) : bytes :=
  match n with
  | O => []
  | S n => byte_of_Z z :: to_le_bytes n (z / 256)
  end.
Fixpoint from_le_bytes (b : bytes) : Z :=
  match b with [] => 0 | x :: b => Z_of_byte x + 256 * from_le_bytes b end.
Definition to_be_bytes (n : nat) (z : Z) : bytes := rev (to_le_bytes n z).
Definition from_be_bytes (b : bytes) : Z := from_le_bytes (rev b).

Lemma Z_of_byte_range b : 0 ≤ Z_of_byte b < 256.
Proof.
  unfold Z_of_byte. pose proof (Byte.to_N_bounded b). lia.
Qed.

Lemma Z_of_byte_of_Z z : Z_of_byte (byte_of_Z z) = z mod 256.
Proof.
  unfold Z_of_byte, byte_of_Z. pose proof (Z.mod_pos_bound z 256 ltac:(lia)).
  destruct (Byte.of_N _) as [b|] eqn:E.
  - apply Byte.to_of_N in E. rewrite E. lia.
  - apply Byte.of_N_None_iff in E. lia.
Qed.

Lemma length_to_le_bytes n z : length (to_le_bytes n z) = n.
Proof. revert z. induction n; intros; simpl; auto. Qed.

Lemma from_to_le_bytes n z : from_le_bytes (to_le_bytes n z) = z mod 256 ^ Z.of_nat n.
Proof.
  revert z. induction n as [|n IH]; intros z; simpl to_le_bytes; simpl from_le_bytes.
  - by rewrite Z.mod_1_r.
  - rewrite IH, Z_of_byte_of_Z, Nat2Z.inj_succ, Z.pow_succ_r by lia.
    rewrite Z.rem_mul_r by (try apply Z.pow_nonzero; lia). lia.
Qed.

Lemma length_to_be_bytes n z : length (to_be_bytes n z) = n.
Proof. unfold to_be_bytes. by rewrite length_rev, length_to_le_bytes. Qed.

Lemma from_to_be_bytes n z :
  0 ≤ z < 256 ^ Z.of_nat n → from_be_bytes (to_be_bytes n z) = z.
Proof.
  intros. unfold from_be_bytes, to_be_bytes.
  rewrite rev_involutive, from_to_le_bytes. by apply Z.mod_small.
Qed.

Lemma from_le_bytes_range b : 0 ≤ from_le_bytes b < 256 ^ len b.
Proof.
  unfold len. induction b as [|x b IH]; simpl from_le_bytes; [done|].
  rewrite length_cons, Nat2Z.inj_succ, Z.pow_succ_r by lia.
  pose proof (Z_of_byte_range x). lia.
Qed.

(** ** Strings

    A Rust [str] is its UTF-8 bytes, held as a [string]. *)
Abbreviation chars := (list Ascii.ascii).
Definition str_chars (s : string) : chars := String.list_ascii_of_string s.
Definition str_of (l : chars) : string := String.string_of_list_ascii l.
Definition str_bytes (s : string) : bytes := String.list_byte_of_string s.

Definition code (c : Ascii.ascii) : Z := Z.of_N (Ascii.N_of_ascii c).

(** Unicode [White_Space], by the number of UTF-8 bytes of the character. *)
Definition ws1 (a : Z) : bool := ((9 <=? a) && (a <=? 13)) || (a =? 32).
Definition ws2 (a b : Z) : bool := (a =? 194) && ((b =? 133) || (b =? 160)).
Definition ws3 (a b c : Z) : bool :=
  ((a =? 225) && (b =? 154) && (c =? 128))
  || ((a =? 226) && (b =? 128)
      && (((128 <=? c) && (c <=? 138)) || (c =? 168) || (c =? 169) || (c =? 175)))
  || ((a =? 226) && (b =? 129) && (c =? 159))
  || ((a =? 227) && (b =? 128) && (c =? 128)).

Fixpoint blank (l : chars) : bool :=
  match l with
  | [] => true
  | a :: l1 =>
    if ws1 (code a) then blank l1 else
    match l1 with
    | [] => false
    | b :: l2 =>
      if ws2 (code a) (code b) then blank l2 else
      match l2 with
      | [] => false
      | c :: l3 => if ws3 (code a) (code b) (code c) then blank l3 else false
      end
    end
  end.
(** [s.trim().is_empty()] *)
Definition is_blank (s : string) : bool := blank (str_chars s).

Definition is_digit (c : Ascii.ascii) : bool := (48 <=? code c) && (code c <=? 57).
Definition is_lower_hex (c : Ascii.ascii) : bool :=
  is_digit c || ((97 <=? code c) && (code c <=? 102)).
(** [value.len() == 64 && all bytes in 0-9a-f]: the test of every
    [validate_digest] / [validate_sha256] of the crate. *)
Definition is_digest (s : string) : bool :=
  (String.length s =? 64)%nat && forallb is_lower_hex (str_chars s).

(** [u8::is_ascii_hexdigit] *)
Definition is_hexdigit (c : Ascii.ascii) : bool :=
  is_digit c || ((97 <=? code c) && (code c <=? 102)) || ((65 <=? code c) && (code c <=? 70)).

Definition ascii_of_Z (z : Z) : Ascii.ascii := Ascii.ascii_of_N (Z.to_N z).
Definition hex_digit (d : Z) : Ascii.ascii :=
  ascii_of_Z (if d <? 10 then 48 + d else 87 + d).
(** [write!(&mut output, "{byte:02x}")] for every byte *)
Definition hex_chars (b : bytes) : chars :=
  b ≫= λ x, [hex_digit (Z_of_byte x / 16); hex_digit (Z_of_byte x mod 16)].
Definition hex (b : bytes) : string := str_of (hex_chars b).

Definition ZERO_DIGEST : string :=
  "0000000000000000000000000000000000000000000000000000000000000000".

(** [Display] of an unsigned integer. *)
Definition digit_char (d : Z) : Ascii.ascii := ascii_of_Z (48 + d).
Fixpoint digits_aux (fuel : nat) (n : Z) (acc : chars) : chars :=
  match fuel with
  | O => acc
  | S fuel =>
    let acc := digit_char (n mod 10) :: acc in
    if n / 10 =? 0 then acc else digits_aux fuel (n / 10) acc
  end.
Definition dec_chars (n : Z) : chars := digits_aux (S (Z.to_nat (Z.log2 n))) n [].
Definition u_to_string (n : Z) : string := str_of (dec_chars n).

(** Value of a string of decimal digits. *)
Definition digit_val (c : Ascii.ascii) : Z := code c - 48.
Definition dec_value (l : chars) : Z := foldl (λ v c, 10 * v + digit_val c) 0 l.

Lemma str_chars_of l : str_chars (str_of l) = l.
Proof. apply String.list_ascii_of_string_of_list_ascii. Qed.
Lemma str_of_chars s : str_of (str_chars s) = s.
Proof. apply String.string_of_list_ascii_of_string. Qed.
Lemma str_chars_inj s t : str_chars s = str_chars t → s = t.
Proof. intros H. by rewrite <-(str_of_chars s), H, str_of_chars. Qed.
Lemma length_str_chars s : length (str_chars s) = String.length s.
Proof. induction s; simpl; auto. Qed.
Lemma str_chars_app s t : str_chars (s ++ t)%string = str_chars s ++ str_chars t.
Proof. induction s; simpl; [done|]. by f_equal. Qed.

Lemma code_ascii_of_Z z : 0 ≤ z < 256 → code (ascii_of_Z z) = z.
Proof.
  intros. unfold code, ascii_of_Z. rewrite Ascii.N_ascii_embedding by lia. lia.
Qed.
Lemma code_inj a b : code a = code b → a = b.
Proof.
  unfold code. intros H%N2Z.inj.
  by rewrite <-(Ascii.ascii_N_embedding a), H, Ascii.ascii_N_embedding.
Qed.

Lemma code_hex_digit d : 0 ≤ d < 16 → code (hex_digit d) = if d <? 10 then 48 + d else 87 + d.
Proof. intros. unfold hex_digit. apply code_ascii_of_Z. case_match; lia. Qed.

Lemma hex_digit_inj d e : 0 ≤ d < 16 → 0 ≤ e < 16 → hex_digit d = hex_digit e → d = e.
Proof.
  intros Hd He H%(f_equal code). rewrite !code_hex_digit in H by done.
  repeat case_match; lia.
Qed.

Lemma hex_inj a b : hex a = hex b → a = b.
Proof.
  intros H%(f_equal str_chars). unfold hex in H. rewrite !str_chars_of in H.
  revert b H. induction a as [|x a IH]; intros [|y b]; try done; intros H.
  unfold hex_chars in H; simpl in H. injection H as H1 H2 H3.
  pose proof (Z_of_byte_range x); pose proof (Z_of_byte_range y).
  apply hex_digit_inj in H1; [|split; [apply Z.div_pos|apply Z.div_lt_upper_bound]; lia..].
  apply hex_digit_inj in H2; [|apply Z.mod_pos_bound; lia..].
  f_equal; [|by apply IH].
  assert (Z_of_byte x = Z_of_byte y) as E.
  { rewrite (Z.div_mod (Z_of_byte x) 16), (Z.div_mod (Z_of_byte y) 16) by lia. lia. }
  unfold Z_of_byte in E. apply N2Z.inj, (f_equal Byte.of_N) in E.
  rewrite !Byte.of_to_N in E. by injection E.
Qed.

Lemma hex_chars_cons x b :
  hex_chars (x :: b)
  = hex_digit (Z_of_byte x / 16) :: hex_digit (Z_of_byte x mod 16) :: hex_chars b.
Proof. done. Qed.

Lemma length_hex b : String.length (hex b) = (2 * length b)%nat.
Proof.
  rewrite <-length_str_chars. unfold hex. rewrite str_chars_of.
  induction b as [|x b IH]; [done|]. rewrite hex_chars_cons. cbn [length]. lia.
Qed.

Lemma is_lower_hex_digit d : 0 ≤ d < 16 → is_lower_hex (hex_digit d) = true.
Proof.
  intros. unfold is_lower_hex, is_digit. rewrite code_hex_digit by done.
  case_match eqn:E; [apply Z.ltb_lt in E|apply Z.ltb_ge in E];
    apply orb_true_iff; [left|right]; apply andb_true_iff; lia.
Qed.

(** A 32-byte digest printed by [hex] passes every digest check. *)
Lemma is_digest_hex b : length b = 32%nat → is_digest (hex b) = true.
Proof.
  intros Hb. unfold is_digest. rewrite length_hex, Hb. simpl.
  unfold hex. rewrite str_chars_of. clear Hb. apply forallb_forall. intros c Hc.
  apply list_elem_of_In, list_elem_of_bind in Hc as (x & Hc & _).
  pose proof (Z_of_byte_range x).
  rewrite !elem_of_cons in Hc. destruct Hc as [->|[->|[]%not_elem_of_nil]];
    apply is_lower_hex_digit; [split; [apply Z.div_pos|apply Z.div_lt_upper_bound]; lia|].
  apply Z.mod_pos_bound; lia.
Qed.

Definition all_digits (l : chars) : bool := forallb is_digit l.

Lemma code_digit_char d : 0 ≤ d < 10 → code (digit_char d) = 48 + d.
Proof. intros. apply code_ascii_of_Z. lia. Qed.
Lemma is_digit_digit_char d : 0 ≤ d < 10 → is_digit (digit_char d) = true.
Proof. intros. unfold is_digit. rewrite code_digit_char by done. lia. Qed.

Lemma dec_value_foldl v l :
  foldl (λ v c, 10 * v + digit_val c) v l = v * 10 ^ len l + dec_value l.
Proof.
  unfold dec_value, len. revert v. induction l as [|c l IH]; intros v; simpl foldl.
  - simpl. lia.
  - rewrite IH, (IH (10 * 0 + _)), length_cons, Nat2Z.inj_succ, Z.pow_succ_r by lia. lia.
Qed.
Lemma dec_value_app l k : dec_value (l ++ k) = dec_value l * 10 ^ len k + dec_value k.
Proof. unfold dec_value at 1. rewrite foldl_app. apply dec_value_foldl. Qed.
Lemma dec_value_nonneg l : all_digits l = true → 0 ≤ dec_value l.
Proof.
  unfold all_digits. induction l as [|c l IH] using rev_ind; [done|].
  rewrite forallb_app, dec_value_app. intros [? Hc]%andb_true_iff. simpl in Hc.
  unfold is_digit in Hc. specialize (IH ltac:(done)).
  unfold dec_value at 2; simpl; unfold digit_val, len; simpl. lia.
Qed.

Lemma digits_aux_spec fuel n acc :
  0 ≤ n < 10 ^ Z.of_nat fuel → fuel ≠ O →
  ∃ l, digits_aux fuel n acc = l ++ acc ∧ dec_value l = n ∧ all_digits l = true ∧
       ∃ d r, l = digit_char d :: r ∧ 0 ≤ d < 10 ∧ (d = 0 → r = []).
Proof.
  revert n acc. induction fuel as [|fuel IH]; intros n acc Hn Hf; [done|].
  simpl. pose proof (Z.mod_pos_bound n 10 ltac:(lia)).
  pose proof (Z.div_mod n 10 ltac:(lia)) as Hdm.
  rewrite Nat2Z.inj_succ, Z.pow_succ_r in Hn by lia.
  destruct (n / 10 =? 0) eqn:E.
  - exists [digit_char (n mod 10)]. split_and!; [done| | |].
    + unfold dec_value; simpl. unfold digit_val. rewrite code_digit_char by done. lia.
    + simpl. by rewrite is_digit_digit_char.
    + by eexists _, [].
  - assert (0 ≤ n / 10 < 10 ^ Z.of_nat fuel) as Hq.
    { split; [apply Z.div_pos; lia|apply Z.div_lt_upper_bound; lia]. }
    assert (fuel ≠ O) as Hf' by (intros ->; simpl in Hq; lia).
    destruct (IH (n / 10) (digit_char (n mod 10) :: acc) Hq Hf')
      as (l & -> & Hv & Hl & d & r & -> & Hd & Hr).
    exists ((digit_char d :: r) ++ [digit_char (n mod 10)]).
    split_and!; [by rewrite <-app_assoc| | |].
    + rewrite dec_value_app, Hv. unfold dec_value, len; simpl. unfold digit_val.
      rewrite code_digit_char by done. lia.
    + unfold all_digits in *. rewrite forallb_app, Hl; simpl. by rewrite is_digit_digit_char.
    + exists d, (r ++ [digit_char (n mod 10)]). split_and!; try done; [lia..|].
      intros ->. rewrite (Hr eq_refl) in Hv. unfold dec_value in Hv; simpl in Hv.
      unfold digit_val in Hv. rewrite code_digit_char in Hv by lia. lia.
Qed.

(** [Display] of an unsigned integer: the digits, no leading zero. *)
Lemma dec_chars_spec n :
  0 ≤ n →
  dec_value (dec_chars n) = n ∧ all_digits (dec_chars n) = true ∧
  ∃ d r, dec_chars n = digit_char d :: r ∧ 0 ≤ d < 10 ∧ (d = 0 → r = []).
Proof.
  intros Hn. unfold dec_chars.
  assert (n < 10 ^ Z.of_nat (S (Z.to_nat (Z.log2 n)))) as Hlt.
  { pose proof (Z.log2_nonneg n). rewrite Nat2Z.inj_succ, Z2Nat.id by done.
    apply Z.lt_le_trans with (2 ^ Z.succ (Z.log2 n)).
    - destruct (decide (n = 0)) as [->|]; [done|]. apply Z.log2_spec. lia.
    - apply Z.pow_le_mono_l. lia. }
  destruct (digits_aux_spec (S (Z.to_nat (Z.log2 n))) n [] ltac:(lia) ltac:(done))
    as (l & -> & Hv & Hl & Hd). rewrite app_nil_r. naive_solver.
Qed.

Lemma dec_chars_nonempty n : 0 ≤ n → (0 < length (dec_chars n))%nat.
Proof. intros Hn. destruct (dec_chars_spec n Hn) as (_ & _ & d & r & -> & _). simpl; lia. Qed.

(** Iteration of a [BTreeMap] with string keys, in key order. *)
Definition str_leb (a b : string) : bool :=
  match String.compare a b with Gt => false | _ => true end.
Definition btree_list {V} (m : gmap string V) : list (string * V) :=
  merge_sort (λ x y, str_leb x.1 y.1) (map_to_list m).

Lemma elem_of_btree_list {V} (m : gmap string V) k v : (k, v) ∈ btree_list m ↔ m !! k = Some v.
Proof. unfold btree_list. rewrite merge_sort_Permutation. apply elem_of_map_to_list. Qed.

(** Execute a state-and-error program in hypothesis [H], splitting every test. *)
Ltac step_se H :=
  cbv beta iota delta [mbind SE_bind res_bind mret SE_ret res_ret get put modify lift throw
    reject ok_or] in H.
Ltac run_se H :=
  step_se H;
  repeat (first
    [ progress simplify_eq
    | match type of H with
      | context [match ?x with _ => _ end] =>
          lazymatch x with
          | context [match _ with _ => _ end] => fail
          | _ => destruct x eqn:?
          end
      end ]; step_se H; simplify_eq).

Lemma byte_of_Z_of_byte b : byte_of_Z (Z_of_byte b) = b.
Proof.
  assert (Z_of_byte (byte_of_Z (Z_of_byte b)) = Z_of_byte b) as E.
  { rewrite Z_of_byte_of_Z. apply Z.mod_small, Z_of_byte_range. }
  unfold Z_of_byte in E at 1 3. apply N2Z.inj, (f_equal Byte.of_N) in E.
  rewrite !Byte.of_to_N in E. by injection E.
Qed.

Lemma byte_of_Z_mod z : byte_of_Z (z mod 256) = byte_of_Z z.
Proof. unfold byte_of_Z. by rewrite Z.mod_mod. Qed.

Lemma to_from_le_bytes b : to_le_bytes (length b) (from_le_bytes b) = b.
Proof.
  induction b as [|x b IH]; [done|]. simpl. pose proof (Z_of_byte_range x). f_equal.
  - rewrite <-byte_of_Z_mod.
    replace (_ mod 256) with (Z_of_byte x); [apply byte_of_Z_of_byte|].
    symmetry. rewrite Z.mul_comm, Z.mod_add by lia. apply Z.mod_small. lia.
  - replace (_ / 256) with (from_le_bytes b); [done|]. symmetry.
    rewrite Z.mul_comm, Z.div_add by lia. rewrite Z.div_small by lia. lia.
Qed.

Lemma to_from_be_bytes b : to_be_bytes (length b) (from_be_bytes b) = b.
Proof.
  unfold to_be_bytes, from_be_bytes. rewrite <-length_rev, to_from_le_bytes.
  apply rev_involutive.
Qed.

Lemma from_be_bytes_range b : 0 ≤ from_be_bytes b < 256 ^ len b.
Proof.
  unfold from_be_bytes, len. rewrite <-length_rev. apply from_le_bytes_range.
Qed.

Lemma len_nonneg {A} (l : list A) : 0 ≤ len l.
Proof. unfold len. lia. Qed.
Lemma len_app {A} (l k : list A) : len (l ++ k) = len l + len k.
Proof. unfold len. rewrite length_app. lia. Qed.
Lemma len_fmap {A B} (f : A → B) l : len (f <$> l) = len l.
Proof. unfold len. by rewrite length_fmap. Qed.
Lemma len_cons {A} (x : A) l : len (x :: l) = 1 + len l.
Proof. unfold len. simpl length. lia. Qed.

(** ** Lines *)

(** The bytes before the first newline and those after it. *)
Fixpoint split_line (b : bytes) : option (bytes * bytes) :=
  match b with
  | [] => None
  | x :: b => if bool_decide (x = x0a) then Some ([], b)
              else '(line, rest) ← split_line b; Some (x :: line, rest)
  end.

Lemma split_line_inv b line rest : split_line b = Some (line, rest) → b = line ++ x0a :: rest.
Proof.
  revert line. induction b as [|x b IH]; intros line; cbn; [done|].
  case_bool_decide; [intros [= <- <-]; by subst|].
  destruct (split_line b) as [[l r]|]; cbn; [|done]. intros [= <- <-]. cbn. f_equal. by apply IH.
Qed.

Lemma split_line_encoded line rest : x0a ∉ line → split_line (line ++ x0a :: rest) = Some (line, rest).
Proof.
  induction line as [|x line IH]; intros H; cbn; [done|].
  rewrite bool_decide_eq_false_2 by (intros ->; set_solver). rewrite IH by set_solver. done.
Qed.
