(* ===== verification/Decimal.v ===== *)
(** * Exact decimals ([FixedDecimal] of lib.rs)

    The price and quantity type: an [i128] coefficient and a decimal scale.
    Parsing, canonical form, alignment, comparison, checked arithmetic, the
    parts-per-million ratios of the monitor, and [Display]. *)

From stdpp Require Import base list strings option numbers sets.
From Stdlib Require Import ZArith Lia Ascii.
From S2P Require Import Prelude.
Local Open Scope Z_scope.

Definition POW10_18 : Z := 1000000000000000000.
Definition MAX_SAFE_COEFFICIENT : Z := i128_max ÷ POW10_18.

(** [scale] is a [u8] in the code; [parse] bounds it by 18. *)
Record FixedDecimal := mkDecimal { coefficient : Z; scale : nat }.

#[global] Instance FixedDecimal_eq_decision : EqDecision FixedDecimal.
Proof. solve_decision. Defined.

(** [10_i128.pow(n)] *)
Definition pow10 (n : nat) : res Z := expect (i128_checked (10 ^ Z.of_nat n)).

Fixpoint canonical_loop (c : Z) (s : nat) : FixedDecimal :=
  match s with
  | O => mkDecimal c O
  | S s' => if Z.rem c 10 =? 0 then canonical_loop (Z.quot c 10) s' else mkDecimal c s
  end.
Definition decimal_canonical (d : FixedDecimal) : FixedDecimal :=
  canonical_loop (coefficient d) (scale d).

(** [text.split(sep)] *)
Fixpoint split_on (sep : Ascii.ascii) (l : chars) : list chars :=
  match l with
  | [] => [[]]
  | c :: l =>
    if bool_decide (c = sep) then [] :: split_on sep l else
    match split_on sep l with
    | [] => [[c]]
    | p :: ps => (c :: p) :: ps
    end
  end.

Definition contains_char (c : Ascii.ascii) (l : chars) : bool := bool_decide (c ∈ l).
Definition starts_with (c : Ascii.ascii) (l : chars) : bool :=
  match l with x :: _ => bool_decide (x = c) | [] => false end.

(** [i128::from_str] on a string of decimal digits *)
Definition i128_from_digits (l : chars) : res Z :=
  if dec_value l <=? i128_max then Ok (dec_value l) else Err "decimal coefficient overflow".

Definition decimal_parse_chars (text : chars) : res FixedDecimal :=
  _ ← reject (bool_decide (text = []) || starts_with "+"%char text
              || contains_char "e"%char text || contains_char "E"%char text)
        "invalid plain decimal";
  let '(negative, unsigned) :=
    if starts_with "-"%char text then (true, tail text) else (false, text) in
  let parts := split_on "."%char unsigned in
  whole ← ok_or (parts !! 0%nat) "missing whole part";
  let fraction := parts !! 1%nat in
  _ ← reject (bool_decide (is_Some (parts !! 2%nat)) || bool_decide (whole = [])
              || negb (all_digits whole)
              || ((1 <? length whole)%nat && starts_with "0"%char whole))
        "invalid plain decimal";
  let fraction := default [] fraction in
  _ ← reject ((18 <? length fraction)%nat
              || (contains_char "."%char text && bool_decide (fraction = []))
              || negb (all_digits fraction))
        "invalid decimal scale";
  coefficient ← i128_from_digits (whole ++ fraction);
  _ ← reject (MAX_SAFE_COEFFICIENT <? coefficient) "decimal outside comparison-safe range";
  let coefficient := if negative : bool then - coefficient else coefficient in
  Ok (decimal_canonical (mkDecimal coefficient (length fraction))).

Definition decimal_parse (text : string) : res FixedDecimal :=
  decimal_parse_chars (str_chars text).

Definition decimal_is_zero (d : FixedDecimal) : bool := coefficient d =? 0.
Definition decimal_is_negative (d : FixedDecimal) : bool := coefficient d <? 0.

Definition decimal_aligned (a b : FixedDecimal) : res (Z * Z) :=
  let s := (scale a `max` scale b)%nat in
  pa ← pow10 (s - scale a);
  l ← mul_i128 (coefficient a) pa;
  pb ← pow10 (s - scale b);
  r ← mul_i128 (coefficient b) pb;
  Ok (l, r).

Definition decimal_checked_sub (a b : FixedDecimal) : res FixedDecimal :=
  let s := (scale a `max` scale b)%nat in
  '(l, r) ← decimal_aligned a b;
  c ← ok_or (i128_checked (l - r)) "decimal subtraction overflow";
  Ok (decimal_canonical (mkDecimal c s)).

Definition decimal_checked_add (a b : FixedDecimal) : res FixedDecimal :=
  let s := (scale a `max` scale b)%nat in
  '(l, r) ← decimal_aligned a b;
  c ← ok_or (i128_checked (l + r)) "decimal addition overflow";
  Ok (decimal_canonical (mkDecimal c s)).

(** [Ord::cmp] *)
Definition decimal_cmp (a b : FixedDecimal) : res comparison :=
  '(l, r) ← decimal_aligned a b; Ok (l ?= r).

Definition decimal_fmt_chars (d : FixedDecimal) : chars :=
  let sign := if coefficient d <? 0 then ["-"%char] else [] in
  let digits := dec_chars (Z.abs (coefficient d)) in
  if (scale d =? 0)%nat then sign ++ digits else
  let minimum := (scale d + 1)%nat in
  let digits :=
    if (length digits <? minimum)%nat
    then replicate (minimum - length digits) "0"%char ++ digits else digits in
  let split := (length digits - scale d)%nat in
  sign ++ take split digits ++ ["."%char] ++ drop split digits.

(** [Display for FixedDecimal] *)
Definition decimal_to_string (d : FixedDecimal) : string := str_of (decimal_fmt_chars d).

Definition PPM_SCALE : Z := 1000000.

Definition sum_decimals (values : list FixedDecimal) : res FixedDecimal :=
  try_fold decimal_checked_add (mkDecimal 0 0) values.

Definition ratio_ppm (numerator denominator : FixedDecimal) : res Z :=
  _ ← reject (coefficient denominator <=? 0) "ratio denominator must be positive";
  let s := (scale numerator `max` scale denominator)%nat in
  pn ← pow10 (s - scale numerator);
  n ← ok_or (i128_checked (coefficient numerator * pn) ≫= λ v, i128_checked (v * PPM_SCALE))
        "ppm numerator overflow";
  pd ← pow10 (s - scale denominator);
  d ← mul_i128 (coefficient denominator) pd;
  let q := Z.quot n d in
  if (i64_min <=? q) && (q <=? i64_max) then Ok q else Err "ppm result outside i64".

Definition imbalance_ppm (l r : FixedDecimal) : res Z :=
  difference ← decimal_checked_sub l r;
  total ← decimal_checked_add l r;
  ratio_ppm difference total.

Example decimal_parse_ex :
  decimal_parse "60000.10000000" = Ok (mkDecimal 600001 1)
  ∧ decimal_to_string (mkDecimal 600001 1) = "60000.1"
  ∧ decimal_parse "1e-8" = Err "invalid plain decimal"
  ∧ decimal_parse "01.0" = Err "invalid plain decimal"
  ∧ decimal_to_string (mkDecimal (-5) 3) = "-0.005".
Proof. vm_compute. done. Qed.

(** ** Well-formed decimals *)

Definition canon (d : FixedDecimal) : Prop :=
  scale d = O ∨ Z.rem (coefficient d) 10 ≠ 0.
Definition safe (d : FixedDecimal) : Prop :=
  (scale d ≤ 18)%nat ∧ Z.abs (coefficient d) ≤ MAX_SAFE_COEFFICIENT.
(** What [parse] guarantees of every price and quantity of the system. *)
Definition wf_decimal (d : FixedDecimal) : Prop := canon d ∧ safe d.

(** The number a decimal denotes, in units of [10^-18]. *)
Definition num (d : FixedDecimal) : Z := coefficient d * 10 ^ (18 - Z.of_nat (scale d)).

(** The comparison without the width check of [aligned]. *)
Definition decimal_compare (a b : FixedDecimal) : comparison :=
  let s := (scale a `max` scale b)%nat in
  coefficient a * 10 ^ Z.of_nat (s - scale a)
  ?= coefficient b * 10 ^ Z.of_nat (s - scale b).

Create HintDb decimal.

Lemma pow10_pos n : 0 < 10 ^ n ∨ n < 0.
Proof. destruct (Z.le_gt_cases 0 n); [left; apply Z.pow_pos_nonneg; lia|right; lia]. Qed.

Lemma canonical_loop_spec c s :
  let d := canonical_loop c s in
  canon d ∧ (scale d ≤ s)%nat ∧ c = coefficient d * 10 ^ Z.of_nat (s - scale d).
Proof.
  revert c. induction s as [|s IH]; intros c; simpl.
  - split_and!; [by left|done|simpl; lia].
  - destruct (Z.rem c 10 =? 0) eqn:E.
    + destruct (IH (Z.quot c 10)) as (Hc & Hs & Heq). split_and!; [done|lia|].
      set (d := canonical_loop _ _) in *. clearbody d.
      pose proof (Z.quot_rem' c 10).
      replace (Z.of_nat (S s - scale d)) with (1 + Z.of_nat (s - scale d)) by lia.
      rewrite Z.pow_add_r by lia. lia.
    + split_and!; [right; simpl; lia|done|]. simpl. rewrite Nat.sub_diag. simpl. lia.
Qed.

Lemma canonical_canon d : canon (decimal_canonical d).
Proof. apply canonical_loop_spec. Qed.

Lemma canonical_safe d : safe d → safe (decimal_canonical d).
Proof.
  intros [Hs Hc]. destruct (canonical_loop_spec (coefficient d) (scale d)) as (_ & Hs' & Heq).
  unfold safe, decimal_canonical. set (e := canonical_loop _ _) in *. clearbody e.
  split; [lia|]. rewrite Heq, Z.abs_mul in Hc.
  pose proof (pow10_pos (Z.of_nat (scale d - scale e))).
  rewrite (Z.abs_eq (10 ^ _)) in Hc by lia. nia.
Qed.

Lemma canonical_wf d : safe d → wf_decimal (decimal_canonical d).
Proof. intros. split; [apply canonical_canon|by apply canonical_safe]. Qed.

(** Removing trailing zeros does not change the number. *)
Lemma canonical_num d : (scale d ≤ 18)%nat → num (decimal_canonical d) = num d.
Proof.
  intros Hs. destruct (canonical_loop_spec (coefficient d) (scale d)) as (_ & Hs' & Heq).
  unfold num, decimal_canonical.
  set (e := canonical_loop _ _) in *. clearbody e. rewrite Heq.
  rewrite <-Z.mul_assoc, <-Z.pow_add_r by lia. f_equal. f_equal. lia.
Qed.

Lemma canonical_id d : canon d → decimal_canonical d = d.
Proof.
  destruct d as [c [|s]]; [done|]. intros [?|Hr]; [done|].
  unfold decimal_canonical; simpl in *. by rewrite (proj2 (Z.eqb_neq _ _) Hr).
Qed.

Lemma compare_num a b :
  (scale a ≤ 18)%nat → (scale b ≤ 18)%nat →
  decimal_compare a b = (num a ?= num b).
Proof.
  intros Ha Hb. unfold decimal_compare, num.
  set (s := (scale a `max` scale b)%nat).
  rewrite (Zmult_compare_compat_r _ _ (10 ^ (18 - Z.of_nat s))).
  2: { pose proof (pow10_pos (18 - Z.of_nat s)). lia. }
  rewrite <-!Z.mul_assoc, <-!Z.pow_add_r by lia. f_equal; f_equal; f_equal; lia.
Qed.

(** A canonical decimal is determined by its number: [Eq] (field by field) and
    [Ord] agree on parsed decimals. *)
Lemma num_inj a b :
  canon a → canon b → (scale a ≤ 18)%nat → (scale b ≤ 18)%nat → num a = num b → a = b.
Proof.
  assert (∀ a b, canon b → (scale a ≤ scale b ≤ 18)%nat → num a = num b → a = b) as W.
  { clear a b. intros [c s] [c' s'] Hb Hs H. unfold num, canon in *; simpl in *.
    replace (18 - Z.of_nat s) with (Z.of_nat (s' - s) + (18 - Z.of_nat s')) in H by lia.
    rewrite Z.pow_add_r, Z.mul_assoc in H by lia.
    apply Z.mul_cancel_r in H; [|pose proof (pow10_pos (18 - Z.of_nat s')); lia].
    destruct (decide (s = s')) as [->|].
    { rewrite Nat.sub_diag in H. simpl in H. f_equal; lia. }
    exfalso. destruct Hb as [->|Hr]; [lia|]. apply Hr. subst c'.
    replace (Z.of_nat (s' - s)) with (1 + Z.of_nat (s' - s - 1)) by lia.
    rewrite Z.pow_add_r by lia. apply Z.rem_divide; [lia|].
    exists (c * 10 ^ Z.of_nat (s' - s - 1)). lia. }
  intros. destruct (decide (scale a ≤ scale b)%nat); [by apply W|].
  symmetry. apply W; [done|lia|done].
Qed.

Lemma compare_Eq a b : wf_decimal a → wf_decimal b → decimal_compare a b = Eq ↔ a = b.
Proof.
  intros [Ca [Sa _]] [Cb [Sb _]]. rewrite compare_num, Z.compare_eq_iff by done.
  split; [by apply num_inj|by intros ->].
Qed.

(** On decimals in the range [parse] accepts, [aligned] never overflows. *)
Lemma aligned_exact a b :
  safe a → safe b →
  decimal_aligned a b =
    Ok (coefficient a * 10 ^ Z.of_nat ((scale a `max` scale b) - scale a),
        coefficient b * 10 ^ Z.of_nat ((scale a `max` scale b) - scale b)).
Proof.
  intros [Sa Ca] [Sb Cb]. unfold decimal_aligned.
  assert (∀ n, (n ≤ 18)%nat → 0 < 10 ^ Z.of_nat n ≤ POW10_18) as Hp.
  { intros n Hn. change POW10_18 with (10 ^ 18). split; [apply Z.pow_pos_nonneg; lia|].
    apply Z.pow_le_mono_r; lia. }
  assert (∀ n, (n ≤ 18)%nat → pow10 n = Ok (10 ^ Z.of_nat n)) as Hpow.
  { intros n Hn%Hp. unfold pow10, i128_checked, i128_min, i128_max, POW10_18 in *.
    by rewrite !(proj2 (Z.leb_le _ _)) by lia. }
  assert (∀ c n, Z.abs c ≤ MAX_SAFE_COEFFICIENT → (n ≤ 18)%nat → in_i128 (c * 10 ^ Z.of_nat n))
    as Hm.
  { intros c n Hc Hn%Hp. unfold in_i128.
    change i128_max with 170141183460469231731687303715884105727.
    change i128_min with (-170141183460469231731687303715884105728).
    change MAX_SAFE_COEFFICIENT with 170141183460469231731 in Hc.
    unfold POW10_18 in Hn. nia. }
  rewrite !Hpow by lia. simpl. rewrite !mul_i128_exact by (apply Hm; [done|lia]). done.
Qed.

Lemma decimal_cmp_exact a b : safe a → safe b → decimal_cmp a b = Ok (decimal_compare a b).
Proof. intros. unfold decimal_cmp. by rewrite aligned_exact. Qed.

(** ** Parsing *)

Lemma split_on_none sep w : sep ∉ w → split_on sep w = [w].
Proof.
  induction w as [|c w IH]; [done|]. rewrite not_elem_of_cons. intros [? ?]. simpl.
  rewrite bool_decide_eq_false_2 by done. by rewrite IH.
Qed.

Lemma split_on_one sep w f : sep ∉ w → sep ∉ f → split_on sep (w ++ sep :: f) = [w; f].
Proof.
  intros Hw Hf. induction w as [|c w IH]; simpl.
  - rewrite bool_decide_eq_true_2 by done. by rewrite split_on_none.
  - apply not_elem_of_cons in Hw as [? ?]. rewrite bool_decide_eq_false_2 by done.
    by rewrite IH.
Qed.

Lemma digit_not c l : all_digits l = true → is_digit c = false → c ∉ l.
Proof.
  intros Hl Hc Hin. apply list_elem_of_In in Hin.
  apply (proj1 (forallb_forall _ _) Hl) in Hin. congruence.
Qed.

(** The text of a plain decimal: sign, whole part, fraction. *)
Definition plain (negative : bool) (w f : chars) : chars :=
  (if negative then ["-"%char] else []) ++ w ++ (if f is [] then [] else "."%char :: f).

Definition whole_ok (w : chars) : Prop :=
  all_digits w = true ∧ w ≠ [] ∧ (starts_with "0"%char w = true → length w = 1%nat).

Lemma plain_chars c negative w f :
  all_digits w = true → all_digits f = true → is_digit c = false →
  c ≠ "-"%char → c ≠ "."%char → c ∉ plain negative w f.
Proof.
  intros Hw Hf Hc ??. pose proof (digit_not c w Hw Hc). pose proof (digit_not c f Hf Hc).
  unfold plain. destruct negative, f; set_solver.
Qed.

Lemma plain_starts c negative w f :
  w ≠ [] → starts_with c (plain negative w f)
         = if negative then bool_decide ("-"%char = c) else starts_with c w.
Proof. destruct negative, w; done. Qed.

Lemma starts_with_digit c w : all_digits w = true → is_digit c = false → starts_with c w = false.
Proof.
  destruct w as [|x w]; [done|]. simpl. intros [Hx _]%andb_true_iff Hc.
  apply bool_decide_eq_false_2. congruence.
Qed.

Lemma parse_plain negative w f :
  whole_ok w → all_digits f = true → (length f ≤ 18)%nat →
  dec_value (w ++ f) ≤ MAX_SAFE_COEFFICIENT →
  decimal_parse_chars (plain negative w f) =
    Ok (decimal_canonical
          (mkDecimal (if negative then - dec_value (w ++ f) else dec_value (w ++ f)) (length f))).
Proof.
  intros (Hw & Hne & Hz) Hf Hlen Hv. unfold decimal_parse_chars.
  rewrite (bool_decide_eq_false_2 (plain _ _ _ = [])) by (destruct negative, w; done).
  rewrite (plain_starts "+"%char), (plain_starts "-"%char) by done.
  rewrite !(starts_with_digit _ w) by done.
  unfold contains_char.
  rewrite (bool_decide_eq_false_2 ("e"%char ∈ _)) by by apply plain_chars.
  rewrite (bool_decide_eq_false_2 ("E"%char ∈ _)) by by apply plain_chars.
  assert ("."%char ∉ w) as Dw by by apply digit_not.
  assert ("."%char ∉ f) as Df by by apply digit_not.
  set (body := w ++ (if f is [] then [] else "."%char :: f)).
  assert ((if (if negative then bool_decide ("-"%char = "-"%char) else false)
           then (true, tail (plain negative w f)) else (false, plain negative w f))
          = (negative, body)) as -> by by destruct negative.
  replace (if negative then bool_decide (_ = _) else false) with false by by destruct negative.
  assert (split_on "."%char body = w :: (if f is [] then [] else [f])) as Hsplit.
  { unfold body. destruct f; [rewrite app_nil_r; by apply split_on_none|by apply split_on_one]. }
  assert (contains_char "."%char (plain negative w f) && bool_decide (f = []) = false) as Hdot.
  { destruct f; [|by rewrite (bool_decide_eq_false_2 (_ :: _ = [])), andb_false_r by done].
    unfold contains_char, plain. rewrite bool_decide_eq_false_2; [done|].
    destruct negative; set_solver. }
  assert ((1 <? length w)%nat && starts_with "0"%char w = false) as Hzero.
  { destruct (starts_with "0"%char w); [|apply andb_false_r]. by rewrite Hz. }
  assert (default [] (split_on "."%char body !! 1%nat) = f) as Hfrac.
  { rewrite Hsplit. by destruct f. }
  assert (bool_decide (is_Some (split_on "."%char body !! 2%nat)) = false) as Hthird.
  { rewrite Hsplit. apply bool_decide_eq_false_2. destruct f; simpl; intros [? ?]; done. }
  simpl reject. cbn [mbind res_bind]. rewrite Hfrac, Hthird, Hsplit.
  simpl lookup; cbn [ok_or mbind res_bind].
  rewrite (bool_decide_eq_false_2 (w = [])), Hw, Hzero by done.
  unfold contains_char in Hdot. rewrite Hdot, Hf.
  rewrite (proj2 (Nat.ltb_ge _ _) Hlen). simpl.
  unfold i128_from_digits.
  rewrite (proj2 (Z.leb_le _ _)) by (change MAX_SAFE_COEFFICIENT with 170141183460469231731 in Hv;
    unfold i128_max; lia).
  simpl. rewrite (proj2 (Z.ltb_ge _ _)) by done. done.
Qed.

Lemma split_on_cons_inv sep l w ps :
  split_on sep l = w :: ps →
  (ps = [] ∧ l = w) ∨ (∃ l', l = w ++ sep :: l' ∧ split_on sep l' = ps).
Proof.
  revert w ps. induction l as [|c l IH]; intros w ps; simpl.
  - intros [= <- <-]. by left.
  - case_bool_decide as Hc.
    + subst. intros [= <- <-]. right. by exists l.
    + destruct (split_on sep l) as [|p ps'] eqn:E.
      * intros [= <- <-]. destruct l as [|x l]; simpl in E; [done|].
        repeat case_match; done.
      * intros [= <- <-]. destruct (IH _ _ eq_refl) as [[-> ->]|(l' & -> & Hl')];
          [by left|right]. by exists l'.
Qed.

Lemma parse_inv text d :
  decimal_parse_chars text = Ok d →
  ∃ negative w f,
    text = plain negative w f ∧ whole_ok w ∧ all_digits f = true ∧ (length f ≤ 18)%nat ∧
    dec_value (w ++ f) ≤ MAX_SAFE_COEFFICIENT ∧
    d = decimal_canonical
          (mkDecimal (if negative then - dec_value (w ++ f) else dec_value (w ++ f)) (length f)).
Proof.
  unfold decimal_parse_chars. intros H. inv_ok H.
  destruct (if starts_with "-"%char text then _ else _) as [negative body] eqn:Hsign.
  cbv zeta in H. inv_ok H. rename x0 into w.
  remember (default [] (split_on "."%char body !! 1%nat)) as f eqn:Hfrac.
  apply orb_false_iff in Hx1 as [[[Hthird Hne]%orb_false_iff Hw]%orb_false_iff Hzero].
  apply orb_false_iff in Hx2 as [[Hlen Hdot]%orb_false_iff Hf].
  apply negb_false_iff in Hw, Hf. apply bool_decide_eq_false in Hthird, Hne.
  apply Nat.ltb_ge in Hlen.
  assert (x3 = dec_value (w ++ f)) as ->.
  { unfold i128_from_digits in Hx3. by destruct (_ <=? _); [injection Hx3|]. }
  apply Z.ltb_ge in Hx4.
  assert (text = (if negative then ["-"%char] else []) ++ body) as Htext.
  { destruct text as [|c text]; simpl in Hsign; [by simplify_eq|].
    clear -Hsign. case_bool_decide; by simplify_eq. }
  assert (body = w ++ (if f is [] then [] else "."%char :: f)) as Hbody.
  { destruct (split_on "."%char body) as [|w' ps] eqn:Esp; [done|].
    simpl in Hx0. injection Hx0 as ->.
    destruct (split_on_cons_inv _ _ _ _ Esp) as [[-> ->]|(l & Hl & Hps)];
      [subst f; by rewrite app_nil_r|].
    destruct ps as [|f' ps]; [by destruct l; simpl in Hps; repeat case_match|].
    simpl in Hfrac. subst f'.
    destruct (split_on_cons_inv _ _ _ _ Hps) as [[-> ->]|(l' & -> & Hl')].
    - destruct f as [|y f]; [|done]. exfalso.
      apply andb_false_iff in Hdot as [Hdot|Hdot];
        apply bool_decide_eq_false in Hdot; [|done].
      apply Hdot. subst text body. set_solver.
    - destruct ps; [by destruct l'; simpl in Hl'; repeat case_match|].
      exfalso. apply Hthird. by eexists. }
  exists negative, w, f. split_and!; try done; [by rewrite Htext, Hbody|].
  split_and!; try done. intros Hz. rewrite Hz, andb_true_r in Hzero.
  apply Nat.ltb_ge in Hzero. destruct w; simpl in *; [done|lia].
Qed.

(** [parse] accepts exactly the plain decimals in range, and returns the
    canonical form of the number they denote. *)
Lemma parse_iff text d :
  decimal_parse_chars text = Ok d ↔
  ∃ negative w f,
    text = plain negative w f ∧ whole_ok w ∧ all_digits f = true ∧ (length f ≤ 18)%nat ∧
    dec_value (w ++ f) ≤ MAX_SAFE_COEFFICIENT ∧
    d = decimal_canonical
          (mkDecimal (if negative then - dec_value (w ++ f) else dec_value (w ++ f)) (length f)).
Proof.
  split; [apply parse_inv|]. intros (n & w & f & -> & ? & ? & ? & ? & ->).
  by apply parse_plain.
Qed.

Lemma all_digits_app l k : all_digits (l ++ k) = all_digits l && all_digits k.
Proof. apply forallb_app. Qed.

Lemma parse_wf text d : decimal_parse text = Ok d → wf_decimal d.
Proof.
  intros (n & w & f & _ & [Hw _] & Hf & Hlen & Hv & ->)%parse_iff.
  apply canonical_wf. split; [done|]; simpl.
  pose proof (dec_value_nonneg (w ++ f) ltac:(by rewrite all_digits_app, Hw, Hf)).
  destruct n; lia.
Qed.

Lemma decimal_parse_nopanic text : decimal_parse text ≠ Panic.
Proof. unfold decimal_parse, decimal_parse_chars, i128_from_digits. nopanic. Qed.
#[export] Hint Resolve decimal_parse_nopanic : nopanic.

(** ** Display and the round trip *)

Lemma dec_value_zeros n : dec_value (replicate n "0"%char) = 0.
Proof.
  induction n as [|n IH]; [done|].
  change (replicate (S n) "0"%char) with (["0"%char] ++ replicate n "0"%char).
  rewrite dec_value_app, IH. done.
Qed.
Lemma all_digits_zeros n : all_digits (replicate n "0"%char) = true.
Proof. induction n; done. Qed.

Lemma digit_char_0 d : 0 ≤ d < 10 → digit_char d = "0"%char → d = 0.
Proof.
  intros Hd H%(f_equal code). rewrite code_digit_char in H by done.
  change (code "0"%char) with 48 in H. lia.
Qed.

Lemma dec_chars_whole_ok n : 0 ≤ n → whole_ok (dec_chars n).
Proof.
  intros Hn. destruct (dec_chars_spec n Hn) as (_ & Hd & d & r & E & Hr & Hz).
  split_and!; [done|by rewrite E|]. rewrite E. simpl.
  intros ->%bool_decide_eq_true%digit_char_0; [by rewrite Hz|done].
Qed.

(** The digits [Display] splits: zero-padded to at least one whole digit. *)
Definition padded (n : Z) (s : nat) : chars :=
  let digits := dec_chars n in
  if (length digits <? s + 1)%nat
  then replicate (s + 1 - length digits) "0"%char ++ digits else digits.

Lemma padded_spec n s :
  0 ≤ n →
  dec_value (padded n s) = n ∧ all_digits (padded n s) = true ∧ (s < length (padded n s))%nat ∧
  whole_ok (take (length (padded n s) - s) (padded n s)).
Proof.
  intros Hn. destruct (dec_chars_spec n Hn) as (Hv & Hd & _).
  pose proof (dec_chars_nonempty n Hn). unfold padded.
  case_match eqn:E.
  - apply Nat.ltb_lt in E. set (k := (s + 1 - length (dec_chars n))%nat).
    rewrite dec_value_app, dec_value_zeros, Hv, all_digits_app, all_digits_zeros, Hd.
    rewrite length_app, length_replicate.
    replace (k + length (dec_chars n) - s)%nat with 1%nat by lia.
    split_and!; [lia|done|lia|]. destruct k as [|k'] eqn:Ek; [lia|].
    simpl. rewrite take_0. by split_and!.
  - apply Nat.ltb_ge in E. split_and!; [done|done|lia|].
    destruct (dec_chars_spec n Hn) as (_ & _ & d & r & Edr & Hr & Hz).
    rewrite <-(take_drop (length (dec_chars n) - s) (dec_chars n)), all_digits_app in Hd.
    apply andb_true_iff in Hd as [Hd _]. split_and!; [done| |].
    + intros Hnil%(f_equal length). rewrite length_take in Hnil. simpl in Hnil. lia.
    + intros Hst. rewrite length_take.
      rewrite Edr in Hst |- *. destruct (length (_ :: r) - s)%nat eqn:El; [done|].
      simpl in Hst. apply bool_decide_eq_true, digit_char_0 in Hst; [|done].
      rewrite (Hz Hst) in *. simpl in *. lia.
Qed.

Lemma fmt_plain d :
  decimal_fmt_chars d =
  let n := Z.abs (coefficient d) in
  plain (coefficient d <? 0)
    (take (length (padded n (scale d)) - scale d) (padded n (scale d)))
    (drop (length (padded n (scale d)) - scale d) (padded n (scale d))).
Proof.
  unfold decimal_fmt_chars, plain. destruct (scale d) as [|s] eqn:Es.
  - assert (padded (Z.abs (coefficient d)) 0 = dec_chars (Z.abs (coefficient d))) as ->.
    { unfold padded. rewrite (proj2 (Nat.ltb_ge _ _)); [done|].
      pose proof (dec_chars_nonempty (Z.abs (coefficient d)) ltac:(lia)). lia. }
    simpl. rewrite Nat.sub_0_r, drop_all, firstn_all, app_nil_r. done.
  - change ((S s =? 0)%nat) with false. cbv zeta iota.
    fold (padded (Z.abs (coefficient d)) (S s)).
    destruct (padded_spec (Z.abs (coefficient d)) (S s)) as (_ & _ & Hl & _); [lia|].
    destruct (drop _ _) as [|c l] eqn:Edrop; [|done].
    apply (f_equal length) in Edrop. rewrite length_drop in Edrop. simpl in Edrop. lia.
Qed.

(** Printing a well-formed decimal and parsing the text gives it back. *)
Lemma parse_to_string d : wf_decimal d → decimal_parse (decimal_to_string d) = Ok d.
Proof.
  intros [Hc [Hs Hr]]. unfold decimal_parse, decimal_to_string.
  rewrite str_chars_of, fmt_plain. cbv zeta.
  set (n := Z.abs (coefficient d)) in *.
  destruct (padded_spec n (scale d)) as (Hv & Hd & Hl & Hw); [lia|].
  set (p := padded n (scale d)) in *. set (k := (length p - scale d)%nat) in *.
  rewrite <-(take_drop k p), all_digits_app in Hd. apply andb_true_iff in Hd as [_ Hd].
  rewrite parse_plain; rewrite ?take_drop, ?length_drop, ?Hv; [|done|done|lia|done].
  replace (length p - k)%nat with (scale d) by lia.
  f_equal. trans (decimal_canonical d); [|by apply canonical_id].
  f_equal. destruct d as [c s]; simpl in *. f_equal. unfold n. destruct (c <? 0) eqn:E; lia.
Qed.

(** ** Checked arithmetic *)

Lemma num_scaled a s :
  (scale a ≤ s)%nat → (s ≤ 18)%nat →
  num (mkDecimal (coefficient a * 10 ^ Z.of_nat (s - scale a)) s) = num a.
Proof.
  intros. unfold num; simpl. rewrite <-Z.mul_assoc, <-Z.pow_add_r by lia.
  f_equal. f_equal. lia.
Qed.

Lemma i128_checked_Some z c : i128_checked z = Some c ↔ in_i128 z ∧ c = z.
Proof.
  unfold i128_checked, in_i128.
  destruct (i128_min <=? z) eqn:E1, (z <=? i128_max) eqn:E2; simpl; naive_solver lia.
Qed.

Lemma pow10_Ok n p : pow10 n = Ok p → p = 10 ^ Z.of_nat n.
Proof.
  unfold pow10. destruct (i128_checked (10 ^ Z.of_nat n)) eqn:E; [|done].
  apply i128_checked_Some in E as [_ ->]. by intros [= <-].
Qed.

Lemma mul_i128_Ok x y z : mul_i128 x y = Ok z → z = x * y.
Proof.
  unfold mul_i128. destruct (i128_checked (x * y)) eqn:E; [|done].
  apply i128_checked_Some in E as [_ ->]. by intros [= <-].
Qed.

Lemma aligned_Ok a b l r :
  decimal_aligned a b = Ok (l, r) →
  l = coefficient a * 10 ^ Z.of_nat ((scale a `max` scale b) - scale a) ∧
  r = coefficient b * 10 ^ Z.of_nat ((scale a `max` scale b) - scale b).
Proof.
  unfold decimal_aligned. intros H. inv_ok H.
  apply pow10_Ok in Hx as ->. apply pow10_Ok in Hx1 as ->.
  apply mul_i128_Ok in Hx0 as ->. apply mul_i128_Ok in Hx2 as ->.
  done.
Qed.

Lemma checked_combine (op : Z → Z → Z) msg a b d :
  (∀ x y k, op x y * k = op (x * k) (y * k)) →
  (scale a ≤ 18)%nat → (scale b ≤ 18)%nat →
  (let s := (scale a `max` scale b)%nat in
   '(l, r) ← decimal_aligned a b;
   c ← ok_or (i128_checked (op l r)) msg;
   Ok (decimal_canonical (mkDecimal c s))) = Ok d →
  canon d ∧ (scale d ≤ 18)%nat ∧ num d = op (num a) (num b).
Proof.
  intros Hop Sa Sb. cbv zeta. intros H. inv_ok H. destruct x as [l r]. inv_ok H.
  apply aligned_Ok in Hx as [-> ->]. apply i128_checked_Some in Hx0 as [_ ->]. subst d.
  set (s := (scale a `max` scale b)%nat) in *.
  pose proof (canonical_loop_spec
    (op (coefficient a * 10 ^ Z.of_nat (s - scale a)) (coefficient b * 10 ^ Z.of_nat (s - scale b))) s)
    as (? & ? & _).
  split_and!; [done|unfold decimal_canonical; simpl; lia|].
  rewrite canonical_num by (simpl; lia).
  rewrite <-(num_scaled a s), <-(num_scaled b s) by lia. unfold num; simpl. apply Hop.
Qed.

Lemma checked_add_exact a b d :
  (scale a ≤ 18)%nat → (scale b ≤ 18)%nat → decimal_checked_add a b = Ok d →
  canon d ∧ (scale d ≤ 18)%nat ∧ num d = num a + num b.
Proof. apply (checked_combine Z.add). intros; lia. Qed.

Lemma checked_sub_exact a b d :
  (scale a ≤ 18)%nat → (scale b ≤ 18)%nat → decimal_checked_sub a b = Ok d →
  canon d ∧ (scale d ≤ 18)%nat ∧ num d = num a - num b.
Proof. apply (checked_combine Z.sub). intros; lia. Qed.

Definition sum_num (l : list FixedDecimal) : Z := foldr (λ d t, num d + t) 0 l.

Lemma sum_decimals_spec values d :
  Forall (λ v, scale v ≤ 18)%nat values → sum_decimals values = Ok d →
  canon d ∧ (scale d ≤ 18)%nat ∧ num d = sum_num values.
Proof.
  unfold sum_decimals.
  assert (∀ acc, canon acc → (scale acc ≤ 18)%nat → Forall (λ v, scale v ≤ 18)%nat values →
    try_fold decimal_checked_add acc values = Ok d →
    canon d ∧ (scale d ≤ 18)%nat ∧ num d = num acc + sum_num values) as W.
  { induction values as [|v values IH]; intros acc Ca Sa HF; simpl.
    - intros [= <-]. split_and!; [done|done|lia].
    - apply Forall_cons in HF as [? ?]. intros (acc' & H1 & H2)%res_bind_Ok.
      apply checked_add_exact in H1 as (? & ? & Hn); [|done..].
      destruct (IH acc') as (? & ? & ->); try done. split_and!; [done|done|lia]. }
  intros HF H. apply W in H as (? & ? & ->); [done|by left|simpl; lia|done].
Qed.

Lemma ratio_ppm_Ok n d q :
  (scale n ≤ 18)%nat → (scale d ≤ 18)%nat → ratio_ppm n d = Ok q →
  0 < num d ∧ q = Z.quot (num n * PPM_SCALE) (num d) ∧ i64_min ≤ q ≤ i64_max.
Proof.
  intros Sn Sd. unfold ratio_ppm. cbv zeta. intros H. inv_ok H.
  set (s := (scale n `max` scale d)%nat) in *.
  apply pow10_Ok in Hx0 as ->. apply pow10_Ok in Hx2 as ->. apply mul_i128_Ok in Hx3 as ->.
  apply Z.leb_gt in Hx.
  apply bind_Some in Hx1 as (v & [_ ->]%i128_checked_Some & [_ ->]%i128_checked_Some).
  case_match eqn:Hq; [|done]. injection H as <-. apply andb_true_iff in Hq as [Hq1 Hq2].
  pose proof (pow10_pos (18 - Z.of_nat s)). pose proof (pow10_pos (18 - Z.of_nat (scale d))).
  split_and!; [clear Hq1 Hq2; unfold num; nia| |by apply Z.leb_le|by apply Z.leb_le]. clear Hq1 Hq2.
  rewrite <-(num_scaled n s), <-(num_scaled d s) by lia. unfold num; simpl.
  set (u := 10 ^ (18 - Z.of_nat s)).
  rewrite <-(Z.quot_mul_cancel_r _ (coefficient d * _) u) by
    (pose proof (pow10_pos (Z.of_nat (s - scale d))); nia).
  f_equal; lia.
Qed.

(** ** Claims *)

(** A decimal that [parse] accepts is canonical, has at most 18 fractional
    digits and a comparison-safe coefficient; printing it and parsing the
    printed text gives the same decimal. *)
Theorem decimal_text_roundtrip text d :
  decimal_parse text = Ok d →
  wf_decimal d ∧ decimal_parse (decimal_to_string d) = Ok d.
Proof. intros H%parse_wf. split; [done|by apply parse_to_string]. Qed.

Lemma decimal_text_roundtrip_witness :
  decimal_parse "60000.10000000" = Ok (mkDecimal 600001 1) ∧
  (wf_decimal (mkDecimal 600001 1) ∧
   decimal_parse (decimal_to_string (mkDecimal 600001 1)) = Ok (mkDecimal 600001 1)).
Proof.
  split; [vm_compute; reflexivity|].
  apply (decimal_text_roundtrip "60000.10000000"). vm_compute. reflexivity.
Defined.

(** [parse] accepts exactly an optional minus sign, a whole part without
    superfluous leading zero and, after a point, one to eighteen digits, whose
    value does not exceed the comparison-safe bound, and returns the canonical
    form of that number; every other text is an error. *)
Theorem decimal_parse_exact text d :
  decimal_parse text = Ok d ↔
  ∃ negative w f,
    str_chars text = plain negative w f ∧ whole_ok w ∧ all_digits f = true ∧
    (length f ≤ 18)%nat ∧ dec_value (w ++ f) ≤ MAX_SAFE_COEFFICIENT ∧
    d = decimal_canonical
          (mkDecimal (if negative then - dec_value (w ++ f) else dec_value (w ++ f)) (length f)).
Proof. apply parse_iff. Qed.

(** On parsed decimals [Ord::cmp] never overflows, is the order of the
    denoted numbers, and returns [Equal] exactly on equal decimals, so the
    derived [Eq] and the hand-written [Ord] are consistent. *)
Theorem decimal_order_exact ta tb a b :
  decimal_parse ta = Ok a → decimal_parse tb = Ok b →
  decimal_cmp a b = Ok (num a ?= num b) ∧ (decimal_cmp a b = Ok Eq ↔ a = b).
Proof.
  intros Wa%parse_wf Wb%parse_wf.
  rewrite decimal_cmp_exact by (apply Wa || apply Wb).
  rewrite <-(compare_Eq a b) by done.
  rewrite compare_num by (apply Wa || apply Wb). split; [done|].
  split; [by intros [= ->]|by intros ->].
Qed.

Lemma decimal_order_exact_witness :
  decimal_cmp (mkDecimal 12 1) (mkDecimal 115 2) = Ok Gt ∧
  (decimal_cmp (mkDecimal 12 1) (mkDecimal 115 2) = Ok (num (mkDecimal 12 1) ?= num (mkDecimal 115 2))
   ∧ (decimal_cmp (mkDecimal 12 1) (mkDecimal 115 2) = Ok Eq ↔ mkDecimal 12 1 = mkDecimal 115 2)).
Proof.
  split; [vm_compute; reflexivity|].
  apply (decimal_order_exact "1.20" "1.15"); vm_compute; reflexivity.
Defined.

(** Whenever [sum_decimals] returns a value it is the exact sum of the
    addends, in canonical form: no rounding and no wrap-around. *)
Theorem sum_decimals_exact texts values d :
  try_map decimal_parse texts = Ok values → sum_decimals values = Ok d →
  canon d ∧ num d = foldr (λ v t, num v + t) 0 values.
Proof.
  intros HF%try_map_Ok_Forall2 H. apply sum_decimals_spec in H as (? & _ & ?); [done|].
  apply Forall_forall. intros v Hv. apply list_elem_of_lookup in Hv as [i Hi].
  destruct (Forall2_lookup_r _ _ _ _ _ HF Hi) as (t & _ & Ht).
  apply parse_wf in Ht. apply Ht.
Qed.

Lemma sum_decimals_exact_witness :
  sum_decimals [mkDecimal 25 2; mkDecimal 175 2] = Ok (mkDecimal 2 0) ∧
  (canon (mkDecimal 2 0) ∧
   num (mkDecimal 2 0) = foldr (λ v t, num v + t) 0 [mkDecimal 25 2; mkDecimal 175 2]).
Proof.
  split; [vm_compute; reflexivity|].
  apply (sum_decimals_exact ["0.25"; "1.75"]); vm_compute; reflexivity.
Defined.

(** [imbalance_ppm] of two non-negative quantities is the truncated quotient
    of difference by sum in parts per million, and lies in [-1000000, 1000000]. *)
Theorem imbalance_ppm_exact_bounded l r q :
  wf_decimal l → wf_decimal r → decimal_is_negative l = false → decimal_is_negative r = false →
  imbalance_ppm l r = Ok q →
  q = Z.quot ((num l - num r) * PPM_SCALE) (num l + num r) ∧ -PPM_SCALE ≤ q ≤ PPM_SCALE.
Proof.
  intros [_ [Sl _]] [_ [Sr _]] Hl%Z.ltb_ge Hr%Z.ltb_ge. unfold imbalance_ppm. intros H. inv_ok H.
  apply checked_sub_exact in Hx as (_ & ? & Hd); [|done..].
  apply checked_add_exact in Hx0 as (_ & ? & Ht); [|done..].
  apply ratio_ppm_Ok in H as (Hpos & -> & _); [|done..]. rewrite Hd, Ht in *.
  split; [done|].
  assert (0 ≤ num l ∧ 0 ≤ num r) as [Hnl Hnr].
  { unfold num. pose proof (pow10_pos (18 - Z.of_nat (scale l))).
    pose proof (pow10_pos (18 - Z.of_nat (scale r))). nia. }
  split.
  - trans (Z.quot (- PPM_SCALE * (num l + num r)) (num l + num r)).
    + rewrite Z.quot_mul; lia.
    + apply Z.quot_le_mono; unfold PPM_SCALE; lia.
  - trans (Z.quot (PPM_SCALE * (num l + num r)) (num l + num r)).
    + apply Z.quot_le_mono; unfold PPM_SCALE; lia.
    + rewrite Z.quot_mul; lia.
Qed.

Lemma imbalance_ppm_exact_bounded_witness :
  imbalance_ppm (mkDecimal 1 0) (mkDecimal 3 0) = Ok (-500000) ∧
  (-500000 = Z.quot ((num (mkDecimal 1 0) - num (mkDecimal 3 0)) * PPM_SCALE)
               (num (mkDecimal 1 0) + num (mkDecimal 3 0))
   ∧ -PPM_SCALE ≤ -500000 ≤ PPM_SCALE).
Proof.
  split; [vm_compute; reflexivity|].
  apply (imbalance_ppm_exact_bounded (mkDecimal 1 0) (mkDecimal 3 0));
    [by apply (parse_wf "1")|by apply (parse_wf "3")|vm_compute; reflexivity..].
Defined.

(** [checked_add] reports an overflow of the addition as an error, but the
    multiplication inside [aligned] is not checked: three texts that [parse]
    accepts have a sum that aborts the process instead of returning [Err]. *)
Theorem sum_decimals_can_panic :
  ∃ texts values,
    try_map decimal_parse texts = Ok values ∧ sum_decimals values = Panic.
Proof.
  exists ["170141183460469231731"; "170141183460469231731"; "0.000000000000000001"],
    [mkDecimal 170141183460469231731 0; mkDecimal 170141183460469231731 0; mkDecimal 1 18].
  vm_compute. done.
Qed.
