(* ===== verification/External.v ===== *)
(** * Code the crate calls and does not contain

    SHA-256 ([sha2]), JSON values and serialisation ([serde_json]) and base64
    are parameters of the development. Each is a class with the functions the
    crate calls and, apart from it, a class of the documented laws a theorem
    may use. The concrete functions below are instances at which the
    theorems are exercised; no model of the crate refers to them. *)

From stdpp Require Import base list strings option numbers.
From Stdlib Require Import ZArith Lia Ascii Strings.Byte.
From S2P Require Import Prelude.
Local Open Scope Z_scope.

(** [Sha256::digest] *)
Class Sha256 := sha256 : bytes → bytes.
Class Sha256Laws (H : Sha256) : Prop := length_sha256 : ∀ b, length (sha256 b) = 32%nat.

(** [serde_json::Value]: parsing, [value[field]] ([Null] when absent) and the
    [as_] accessors. *)
Class SerdeValue := {
  Value : Type;
  value_from_slice : bytes → string + Value;
  value_index : Value → string → Value;
  as_str : Value → option string;
  as_u64 : Value → option Z;
  as_i64 : Value → option Z;
  as_bool : Value → option bool;
  as_array : Value → option (list Value)
}.
Class SerdeValueLaws (H : SerdeValue) : Prop :=
  as_u64_range : ∀ v n, as_u64 v = Some n → in_u64 n.

(** [Value::get] with a field name *)
Class SerdeGet `{SerdeValue} := value_get : Value → string → option Value.
Definition get_str `{SerdeGet} (v : Value) (f : string) : option string := value_get v f ≫= as_str.
Definition get_u64 `{SerdeGet} (v : Value) (f : string) : option Z := value_get v f ≫= as_u64.

(** [Value::as_object]: the entries of a map in the order of their keys *)
Class SerdeObject `{SerdeValue} := as_object : Value → option (list (string * Value)).
Definition is_object `{SerdeObject} (v : Value) : bool :=
  match as_object v with Some _ => true | None => false end.

(** [serde_json::Map::get], and that indexing a map by one of its keys finds the entry *)
Fixpoint map_get {A} (o : list (string * A)) (field : string) : option A :=
  match o with
  | [] => None
  | (k, v) :: o => if String.eqb k field then Some v else map_get o field
  end.
Class SerdeObjectLaws `(H : SerdeObject) : Prop :=
  index_object : ∀ v o field x,
    as_object v = Some o → map_get o field = Some x → value_index v field = x.

(** [Value::is_null] *)
Class SerdeNull `{SerdeValue} := is_null : Value → bool.

(** [serde_json::to_vec] and [serde_json::from_slice] at a type deriving
    [Serialize] and [Deserialize]. *)
Class Serde (A : Type) := {
  to_vec : A → string + bytes;
  from_slice : bytes → string + A
}.
Class SerdeLaws (A : Type) (H : Serde A) : Prop :=
  from_to_vec : ∀ (a : A) b, to_vec a = inr b → from_slice b = inr a.

(** Serialising strings, integers and structs of them to a [Vec] cannot fail,
    and compact JSON escapes the control characters. *)
Class SerdeTotal (A : Type) (H : Serde A) : Prop := to_vec_total : ∀ a : A, ∃ b, to_vec a = inr b.
Class SerdeLine (A : Type) (H : Serde A) : Prop :=
  to_vec_line : ∀ (a : A) b, to_vec a = inr b → x0a ∉ b.

(** No bytes are not a JSON value. *)
Class SerdeNonempty (A : Type) (H : Serde A) : Prop := from_slice_nil : ∀ a : A, from_slice [] ≠ inr a.

(** [serde_json::to_vec_pretty], whose text parses to the value also with a final newline. *)
Class SerdePretty (A : Type) := to_vec_pretty : A → string + bytes.
Class SerdePrettyLaws (A : Type) (H : Serde A) (P : SerdePretty A) : Prop :=
  from_pretty : ∀ (a : A) b, to_vec_pretty a = inr b → from_slice (b ++ [x0a]) = inr a.

(** [BASE64.encode] and [BASE64.decode] *)
Class Base64 := {
  base64_encode : bytes → string;
  base64_decode : string → string + bytes
}.
Class Base64Laws (H : Base64) : Prop :=
  base64_decode_encode : ∀ b, base64_decode (base64_encode b) = inr b.

(** [result.map_err(|error| format!("{prefix}: {error}"))?] *)
Definition map_err {A} (prefix : string) (r : string + A) : res A :=
  match r with inl e => Err (prefix ++ e) | inr a => Ok a end.

Definition required_str `{SerdeValue} (value : Value) (field : string) : res string :=
  ok_or (as_str (value_index value field)) ("missing/invalid string field " ++ field).
Definition required_u64 `{SerdeValue} (value : Value) (field : string) : res Z :=
  ok_or (as_u64 (value_index value field)) ("missing/invalid integer field " ++ field).

Lemma map_err_Ok {A} prefix (r : string + A) a : map_err prefix r = Ok a ↔ r = inr a.
Proof. destruct r; naive_solver. Qed.

Lemma map_err_nopanic {A} prefix (r : string + A) : map_err prefix r ≠ Panic.
Proof. by destruct r. Qed.
Lemma required_str_nopanic `{SerdeValue} v f : required_str v f ≠ Panic.
Proof. apply ok_or_nopanic. Qed.
Lemma required_u64_nopanic `{SerdeValue} v f : required_u64 v f ≠ Panic.
Proof. apply ok_or_nopanic. Qed.
#[export] Hint Resolve map_err_nopanic required_str_nopanic required_u64_nopanic : nopanic.

(** ** Instances at which the theorems are exercised *)

(** A 32-byte hash of 16 significant bits. *)
Definition toy_sha256 : Sha256 := λ b,
  to_be_bytes 32 (foldl (λ a x, (a * 31 + Z_of_byte x + 1) mod 65536) 5381 b).

Lemma toy_sha256_laws : Sha256Laws toy_sha256.
Proof. intros b. apply length_to_be_bytes. Qed.

(** A reader for JSON without string escapes, fractions or exponents. *)
Module Json.
Inductive json :=
  | JNull | JBool (b : bool) | JNum (z : Z) | JStr (s : chars)
  | JArr (l : list json) | JObj (l : list (chars * json)).

Definition json_eq_dec : ∀ a b : json, {a = b} + {a ≠ b}.
Proof.
  fix IH 1. intros [|x|x|x|l|l] [|y|y|y|k|k]; try (right; discriminate).
  - by left.
  - destruct (Bool.bool_dec x y) as [->|]; [by left|right; congruence].
  - destruct (Z.eq_dec x y) as [->|]; [by left|right; congruence].
  - destruct (List.list_eq_dec Ascii.ascii_dec x y) as [->|]; [by left|right; congruence].
  - destruct (List.list_eq_dec IH l k) as [->|]; [by left|right; congruence].
  - assert (∀ p q : chars * json, {p = q} + {p ≠ q}) as Hp.
    { intros [s v] [t w]. destruct (List.list_eq_dec Ascii.ascii_dec s t) as [->|]; [|right; congruence].
      destruct (IH v w) as [->|]; [by left|right; congruence]. }
    destruct (List.list_eq_dec Hp l k) as [->|]; [by left|right; congruence].
Defined.
#[export] Instance json_eq_decision : EqDecision json := json_eq_dec.

Fixpoint span (p : ascii → bool) (l : chars) : chars * chars :=
  match l with
  | c :: l' => if p c then let '(a, b) := span p l' in (c :: a, b) else ([], l)
  | [] => ([], [])
  end.

Definition quote : ascii := ascii_of_nat 34.

Fixpoint value (fuel : nat) (l : chars) : option (json * chars) :=
  match fuel with
  | O => None
  | S fuel =>
    match l with
    | "n"%char :: "u"%char :: "l"%char :: "l"%char :: l => Some (JNull, l)
    | "t"%char :: "r"%char :: "u"%char :: "e"%char :: l => Some (JBool true, l)
    | "f"%char :: "a"%char :: "l"%char :: "s"%char :: "e"%char :: l => Some (JBool false, l)
    | "["%char :: "]"%char :: l => Some (JArr [], l)
    | "["%char :: l =>
        '(items, l) ← elements fuel l; Some (JArr items, l)
    | "{"%char :: "}"%char :: l => Some (JObj [], l)
    | "{"%char :: l => '(fields, l) ← members fuel l; Some (JObj fields, l)
    | c :: l' =>
      if bool_decide (c = quote) then
        let '(s, l) := span (λ c, negb (bool_decide (c = quote))) l' in
        match l with _ :: l => Some (JStr s, l) | [] => None end
      else
        let '(d, l) := span is_digit l in
        if bool_decide (d = []) then None else Some (JNum (dec_value d), l)
    | [] => None
    end
  end
with elements (fuel : nat) (l : chars) : option (list json * chars) :=
  match fuel with
  | O => None
  | S fuel =>
    '(v, l) ← value fuel l;
    match l with
    | ","%char :: l => '(vs, l) ← elements fuel l; Some (v :: vs, l)
    | "]"%char :: l => Some ([v], l)
    | _ => None
    end
  end
with members (fuel : nat) (l : chars) : option (list (chars * json) * chars) :=
  match fuel with
  | O => None
  | S fuel =>
    '(k, l) ← value fuel l;
    match k, l with
    | JStr k, ":"%char :: l =>
      '(v, l) ← value fuel l;
      match l with
      | ","%char :: l => '(vs, l) ← members fuel l; Some ((k, v) :: vs, l)
      | "}"%char :: l => Some ([(k, v)], l)
      | _ => None
      end
    | _, _ => None
    end
  end.

Definition parse (b : bytes) : string + json :=
  let l := Ascii.ascii_of_byte <$> b in
  match value (S (length l)) l with
  | Some (v, []) => inr v
  | _ => inl "syntax"
  end.

Fixpoint assoc (k : chars) (l : list (chars * json)) : json :=
  match l with
  | [] => JNull
  | (k', v) :: l => if bool_decide (k = k') then v else assoc k l
  end.

#[export] Instance serde : SerdeValue := {|
  Value := json;
  value_from_slice := parse;
  value_index v f := match v with JObj l => assoc (str_chars f) l | _ => JNull end;
  as_str v := match v with JStr s => Some (str_of s) | _ => None end;
  as_u64 v := match v with
              | JNum z => if (0 <=? z) && (z <=? u64_max) then Some z else None
              | _ => None end;
  as_i64 v := match v with
              | JNum z => if (i64_min <=? z) && (z <=? i64_max) then Some z else None
              | _ => None end;
  as_bool v := match v with JBool b => Some b | _ => None end;
  as_array v := match v with JArr l => Some l | _ => None end
|}.

#[export] Instance serde_object : SerdeObject := λ v,
  match v with JObj l => Some ((λ '(k, v), (str_of k, v)) <$> l) | _ => None end.

Lemma serde_object_laws : SerdeObjectLaws serde_object.
Proof.
  intros v o field x. destruct v as [| | | | |l]; try done. intros [= <-].
  induction l as [|[k w] l IH]; cbn; [done|]. destruct (String.eqb_spec (str_of k) field) as [<-|Hne].
  - rewrite str_chars_of, bool_decide_eq_true_2 by done. by intros [= <-].
  - rewrite bool_decide_eq_false_2; [apply IH|]. intros <-. by rewrite str_of_chars in Hne.
Qed.

#[export] Instance serde_null : SerdeNull := λ v, match v with JNull => true | _ => false end.

Lemma serde_laws : SerdeValueLaws serde.
Proof.
  intros [] n; simpl; try done. unfold in_u64.
  destruct (_ && _) eqn:E; [|done]. intros [= <-]. apply andb_true_iff in E. lia.
Qed.

(** JSON text with [']'] for the double quote. *)
Definition text (s : string) : bytes :=
  (λ c, Ascii.byte_of_ascii (if bool_decide (c = "'"%char) then quote else c)) <$> str_chars s.
End Json.

(** A list of strings as bytes: every character escaped by [x01], every string
    ended by [x00]. *)
Module Wire.
Definition escape (b : bytes) : bytes := concat ((λ c, [x01; c]) <$> b) ++ [x00].
Definition encode (l : list string) : bytes := concat ((λ s, escape (str_bytes s)) <$> l).

Fixpoint decode_from (cur : bytes) (b : bytes) : option (list string) :=
  match b with
  | [] => if bool_decide (cur = []) then Some [] else None
  | x00 :: b =>
      rest ← decode_from [] b; Some (String.string_of_list_byte (rev cur) :: rest)
  | x01 :: c :: b => decode_from (c :: cur) b
  | _ => None
  end.
Definition decode (b : bytes) : option (list string) := decode_from [] b.

Lemma decode_escape cur b rest :
  decode_from cur (escape b ++ rest) =
  (l ← decode_from [] rest; Some (String.string_of_list_byte (rev cur ++ b) :: l)).
Proof.
  revert cur. induction b as [|c b IH]; intros cur.
  - simpl. by rewrite app_nil_r.
  - change (decode_from (c :: cur) (escape b ++ rest) =
      (l ← decode_from [] rest; Some (String.string_of_list_byte (rev cur ++ c :: b) :: l))).
    rewrite IH. simpl rev. by rewrite <-app_assoc.
Qed.

Lemma decode_encode l : decode (encode l) = Some l.
Proof.
  unfold decode, encode. induction l as [|s l IH]; [done|].
  rewrite fmap_cons. cbn [concat]. rewrite decode_escape, IH. cbn [mbind option_bind rev app].
  unfold str_bytes. by rewrite String.string_of_list_byte_of_string.
Qed.

(** Objects with the given field names, all fields text. *)
Inductive wire := WObject (names values : list string) | WText (s : string) | WNull.

Fixpoint field (names values : list string) (f : string) : wire :=
  match names, values with
  | n :: names, v :: values => if String.eqb n f then WText v else field names values f
  | _, _ => WNull
  end.

Definition read_number (s : string) : option Z :=
  let l := str_chars s in
  if negb (bool_decide (l = [])) && all_digits l && (dec_value l <=? u64_max)
  then Some (dec_value l) else None.

Lemma read_number_print n : in_u64 n → read_number (u_to_string n) = Some n.
Proof.
  intros [H0 H1]. unfold read_number, u_to_string. rewrite str_chars_of.
  pose proof (dec_chars_nonempty n H0).
  rewrite bool_decide_eq_false_2 by (intros E; rewrite E in *; simpl in *; lia).
  destruct (dec_chars_spec n H0) as (-> & -> & _). by rewrite (proj2 (Z.leb_le _ _)).
Qed.

Definition serde (names : list string) : SerdeValue := {|
  Value := wire;
  value_from_slice b :=
    match decode b with Some l => inr (WObject names l) | None => inl "syntax" end;
  value_index v f := match v with WObject names l => field names l f | _ => WNull end;
  as_str v := match v with WText s => Some s | _ => None end;
  as_u64 v := match v with WText s => read_number s | _ => None end;
  as_i64 _ := None;
  as_bool _ := None;
  as_array _ := None
|}.
End Wire.

Definition plain_base64 : Base64 := {|
  base64_encode b := String.string_of_list_byte b;
  base64_decode s := inr (str_bytes s)
|}.
Lemma plain_base64_laws : Base64Laws plain_base64.
Proof. intros b. simpl. unfold str_bytes. by rewrite String.list_byte_of_string_of_list_byte. Qed.

(** A codec for the values of a list: a value is written as its index in unary. *)
Definition table_serde {A} `{EqDecision A} (table : list A) : Serde A := {|
  to_vec a := match list_find (a =.) table with
              | Some (i, _) => inr (replicate i x2a)
              | None => inl "not representable"
              end;
  from_slice b := match table !! length b with Some a => inr a | None => inl "unknown" end
|}.
Lemma table_serde_laws {A} `{EqDecision A} (table : list A) : SerdeLaws A (table_serde table).
Proof.
  intros a b. simpl. destruct (list_find _ _) as [[i a']|] eqn:E; [|done].
  intros [= <-]. apply list_find_Some in E as (E & <- & _). by rewrite length_replicate, E.
Qed.
Lemma table_serde_line {A} `{EqDecision A} (table : list A) : SerdeLine A (table_serde table).
Proof.
  intros a b. simpl. destruct (list_find _ _) as [[i a']|]; [|done].
  intros [= <-]. intros [E _]%elem_of_replicate. done.
Qed.

(** The same codec without the empty text. *)
Definition text_serde {A} `{EqDecision A} (table : list A) : Serde A := {|
  to_vec a := match to_vec (Serde := table_serde table) a with
              | inr b => inr (x2a :: b) | inl e => inl e
              end;
  from_slice b := match b with [] => inl "empty" | _ :: b => from_slice (Serde := table_serde table) b end
|}.
Lemma text_serde_laws {A} `{EqDecision A} (table : list A) : SerdeLaws A (text_serde table).
Proof.
  intros a b. cbn [to_vec text_serde]. destruct (to_vec (Serde := table_serde table) a) eqn:E; [done|].
  intros [= <-]. by apply table_serde_laws.
Qed.
Lemma text_serde_nonempty {A} `{EqDecision A} (table : list A) : SerdeNonempty A (text_serde table).
Proof. done. Qed.
