(* ===== verification/OrderBook.v ===== *)
(** * The local order book ([LocalOrderBook] of lib.rs)

    Snapshot, depth updates, checkpoints and digests. A [BTreeMap] keyed by
    [FixedDecimal] is the list of its entries in ascending key order; its
    operations compare keys with [decimal_compare], which is what [Ord::cmp]
    returns on the decimals a book holds ([decimal_cmp_exact], with the
    invariant [side_ok] below). *)

From stdpp Require Import base list strings option numbers sets gmap countable sorting.
From Stdlib Require Import ZArith Lia Ascii Strings.Byte.
From S2P Require Import Prelude Decimal External.
Local Open Scope Z_scope.

Inductive BookState := BookEmpty | BookSyncing | BookLive | BookGap | BookInvalid.
#[global] Instance BookState_eq_decision : EqDecision BookState.
Proof. solve_decision. Defined.

Abbreviation level := (FixedDecimal * FixedDecimal)%type.
(** [BTreeMap<FixedDecimal, FixedDecimal>] *)
Abbreviation side := (list level).

(** [[u64; 4]] *)
Record fp4 := mkFp { fp0 : Z; fp1 : Z; fp2 : Z; fp3 : Z }.
#[global] Instance fp4_eq_decision : EqDecision fp4.
Proof. solve_decision. Defined.
Definition fp_zero : fp4 := mkFp 0 0 0 0.

Record OrderBookCheckpointV1 := mkCheckpoint {
  ck_schema : string;
  ck_symbol : string;
  ck_last_update_id : Z;
  ck_bids : list (string * string);
  ck_asks : list (string * string);
  ck_state_sha256 : string
}.

Record LocalOrderBook := mkBook {
  bk_symbol : string;
  bk_state : BookState;
  bk_last_update_id : option Z;
  bk_bids : side;
  bk_asks : side;
  bk_fingerprint : fp4
}.

Definition set_state (s : BookState) (b : LocalOrderBook) : LocalOrderBook :=
  mkBook (bk_symbol b) s (bk_last_update_id b) (bk_bids b) (bk_asks b) (bk_fingerprint b).
Definition set_last_update_id (u : option Z) (b : LocalOrderBook) : LocalOrderBook :=
  mkBook (bk_symbol b) (bk_state b) u (bk_bids b) (bk_asks b) (bk_fingerprint b).
Definition set_bids (l : side) (b : LocalOrderBook) : LocalOrderBook :=
  mkBook (bk_symbol b) (bk_state b) (bk_last_update_id b) l (bk_asks b) (bk_fingerprint b).
Definition set_asks (l : side) (b : LocalOrderBook) : LocalOrderBook :=
  mkBook (bk_symbol b) (bk_state b) (bk_last_update_id b) (bk_bids b) l (bk_fingerprint b).
Definition set_fingerprint (f : fp4) (b : LocalOrderBook) : LocalOrderBook :=
  mkBook (bk_symbol b) (bk_state b) (bk_last_update_id b) (bk_bids b) (bk_asks b) f.

Inductive ApplyOutcome := Applied | Old.

Inductive PreparedDepthUpdate :=
  | PreparedOld (first_id final_id : Z)
  | PreparedApply (first_id final_id : Z) (bids asks : list level).

(** ** [BTreeMap] *)

Fixpoint side_get (k : FixedDecimal) (m : side) : option FixedDecimal :=
  match m with
  | [] => None
  | (k', v) :: m =>
    match decimal_compare k k' with
    | Lt => None
    | Eq => Some v
    | Gt => side_get k m
    end
  end.

(** [insert]: on an equal key the value is replaced and the old key kept. *)
Fixpoint side_insert (k v : FixedDecimal) (m : side) : side :=
  match m with
  | [] => [(k, v)]
  | (k', v') :: m' =>
    match decimal_compare k k' with
    | Lt => (k, v) :: m
    | Eq => (k', v) :: m'
    | Gt => (k', v') :: side_insert k v m'
    end
  end.

Fixpoint side_remove (k : FixedDecimal) (m : side) : side :=
  match m with
  | [] => []
  | (k', v') :: m' =>
    match decimal_compare k k' with
    | Lt => m
    | Eq => m'
    | Gt => (k', v') :: side_remove k m'
    end
  end.

(** ** Operations *)

Definition decimal_geb (a b : FixedDecimal) : bool :=
  match decimal_compare a b with Lt => false | _ => true end.
Definition decimal_leb (a b : FixedDecimal) : bool :=
  match decimal_compare a b with Gt => false | _ => true end.

Definition in_scope (symbol : string) : bool :=
  String.eqb symbol "BTCUSDT" || String.eqb symbol "ETHUSDT".

Definition book_new (symbol : string) : res LocalOrderBook :=
  _ ← reject (negb (in_scope symbol)) ("symbol outside scope: " ++ symbol);
  Ok (mkBook symbol BookEmpty None [] [] fp_zero).

Definition xor_level_fingerprint (target value : fp4) : fp4 :=
  mkFp (Z.lxor (fp0 target) (fp0 value)) (Z.lxor (fp1 target) (fp1 value))
       (Z.lxor (fp2 target) (fp2 value)) (Z.lxor (fp3 target) (fp3 value)).

Section book.
Context `{Hsha : Sha256} `{Hval : SerdeValue}.

Definition parse_level (value : Value) (sd : string) : res level :=
  items ← ok_or (items ← as_array value;
                 if (length items =? 2)%nat then Some items else None)
            ("invalid " ++ sd ++ " level");
  price_text ← ok_or (items !! 0%nat ≫= as_str) ("invalid " ++ sd ++ " price");
  price ← decimal_parse price_text;
  quantity_text ← ok_or (items !! 1%nat ≫= as_str) ("invalid " ++ sd ++ " quantity");
  quantity ← decimal_parse quantity_text;
  _ ← reject (decimal_is_zero price || decimal_is_negative price
              || decimal_is_negative quantity) ("invalid " ++ sd ++ " price/quantity");
  Ok (price, quantity).

(** One step of the loop of [load_side]. *)
Definition load_level (sd : string) (result : side) (value : Value) : res side :=
  '(price, quantity) ← parse_level value sd;
  if decimal_is_zero quantity then Ok result else
  match side_get price result with
  | Some _ => Err ("duplicate " ++ sd ++ " price")
  | None => Ok (side_insert price quantity result)
  end.

Definition load_side (value : Value) (sd : string) : res side :=
  levels ← ok_or (as_array value) ("snapshot " ++ sd ++ " side is not array");
  result ← try_fold (load_level sd) [] levels;
  _ ← reject (bool_decide (result = [])) ("empty " ++ sd ++ " side");
  Ok result.

Definition u64_le_chunk (b : bytes) (index : nat) : Z :=
  from_le_bytes (take 8 (drop (index * 8) b)).

Definition level_fingerprint (side_tag : Byte.byte) (price quantity : FixedDecimal) : fp4 :=
  let bytes := sha256 ([side_tag]
    ++ to_le_bytes 16 (coefficient price) ++ to_le_bytes 1 (Z.of_nat (scale price))
    ++ to_le_bytes 16 (coefficient quantity) ++ to_le_bytes 1 (Z.of_nat (scale quantity))) in
  mkFp (u64_le_chunk bytes 0) (u64_le_chunk bytes 1) (u64_le_chunk bytes 2) (u64_le_chunk bytes 3).

(** The loop that folds every level of a side into a fingerprint. *)
Definition xor_side (side_tag : Byte.byte) (fp : fp4) (m : side) : fp4 :=
  foldl (λ fp '(price, quantity),
           xor_level_fingerprint fp (level_fingerprint side_tag price quantity)) fp m.

Definition best_bid (b : LocalOrderBook) : res FixedDecimal :=
  ok_or (fst <$> last (bk_bids b)) "empty bid side".
Definition best_ask (b : LocalOrderBook) : res FixedDecimal :=
  ok_or (fst <$> head (bk_asks b)) "empty ask side".

Definition check_invariants : SE LocalOrderBook unit :=
  book ← get;
  bid ← lift (best_bid book);
  ask ← lift (best_ask book);
  if decimal_geb bid ask then
    modify (set_state BookInvalid);;
    throw ("crossed/locked book: bid=" ++ decimal_to_string bid
           ++ ", ask=" ++ decimal_to_string ask)
  else mret ().

Definition load_snapshot (payload : bytes) : SE LocalOrderBook Z :=
  book ← get;
  lift (reject (negb (bool_decide (bk_state book = BookEmpty))) "snapshot requires empty book");;
  value ← lift (map_err "invalid snapshot JSON: " (value_from_slice payload));
  update_id ← lift (required_u64 value "lastUpdateId");
  bids ← lift (load_side (value_index value "bids") "bid");
  modify (set_bids bids);;
  asks ← lift (load_side (value_index value "asks") "ask");
  modify (set_asks asks);;
  modify (set_fingerprint (xor_side x61 (xor_side x62 fp_zero bids) asks));;
  modify (set_last_update_id (Some update_id));;
  modify (set_state BookSyncing);;
  check_invariants;;
  mret update_id.

Definition render_levels (m : side) : list (string * string) :=
  (λ '(price, quantity), (decimal_to_string price, decimal_to_string quantity)) <$> m.

Definition quote : string := String (ascii_of_nat 34) EmptyString.
Definition render_level (l : string * string) : string :=
  "[" ++ quote ++ l.1 ++ quote ++ "," ++ quote ++ l.2 ++ quote ++ "]".
Definition join_levels (m : side) : string := String.concat "," (render_level <$> render_levels m).

(** The text [state_digest] hashes. *)
Definition state_text (b : LocalOrderBook) : string :=
  "{" ++ quote ++ "asks" ++ quote ++ ":[" ++ join_levels (bk_asks b)
  ++ "]," ++ quote ++ "bids" ++ quote ++ ":[" ++ join_levels (reverse (bk_bids b))
  ++ "]," ++ quote ++ "last_update_id" ++ quote ++ ":"
  ++ u_to_string (default 0 (bk_last_update_id b))
  ++ "," ++ quote ++ "symbol" ++ quote ++ ":" ++ quote ++ bk_symbol b ++ quote ++ "}".
Definition state_digest (b : LocalOrderBook) : string := hex (sha256 (str_bytes (state_text b))).

Definition checkpoint (b : LocalOrderBook) : res OrderBookCheckpointV1 :=
  _ ← reject (negb (bool_decide (bk_state b = BookLive))) "checkpoint requires a live book";
  last_update_id ← ok_or (bk_last_update_id b) "checkpoint book has no update ID";
  Ok (mkCheckpoint "OrderBookCheckpointV1" (bk_symbol b) last_update_id
        (render_levels (reverse (bk_bids b))) (render_levels (bk_asks b)) (state_digest b)).

(** One step of the loop of [checkpoint_side]. *)
Definition checkpoint_level (sd : string) (descending : bool)
    (acc : side * option FixedDecimal) (lvl : string * string)
    : res (side * option FixedDecimal) :=
  let '(result, previous) := acc in
  price ← decimal_parse lvl.1;
  quantity ← decimal_parse lvl.2;
  _ ← reject (decimal_is_zero price || decimal_is_negative price
              || decimal_is_zero quantity || decimal_is_negative quantity)
        ("invalid checkpoint " ++ sd ++ " price/quantity");
  _ ← reject (match previous with
              | Some old => if descending then decimal_leb old price else decimal_geb old price
              | None => false
              end) ("checkpoint " ++ sd ++ " levels are not canonically ordered");
  match side_get price result with
  | Some _ => Err ("duplicate checkpoint " ++ sd ++ " price")
  | None => Ok (side_insert price quantity result, Some price)
  end.

Definition checkpoint_side (levels : list (string * string)) (sd : string) (descending : bool)
    : res side :=
  _ ← reject (bool_decide (levels = [])) ("book checkpoint has empty " ++ sd ++ " side");
  '(result, _) ← try_fold (checkpoint_level sd descending) ([], None) levels;
  Ok result.

Definition from_checkpoint (ck : OrderBookCheckpointV1) : res LocalOrderBook :=
  _ ← reject (negb (String.eqb (ck_schema ck) "OrderBookCheckpointV1")
              || negb (is_digest (ck_state_sha256 ck))) "book checkpoint identity is invalid";
  book ← book_new (ck_symbol ck);
  bids ← checkpoint_side (ck_bids ck) "bid" true;
  asks ← checkpoint_side (ck_asks ck) "ask" false;
  let book := mkBook (bk_symbol book) BookLive (Some (ck_last_update_id ck)) bids asks
                (xor_side x61 (xor_side x62 (bk_fingerprint book) bids) asks) in
  match check_invariants book with
  | (book, Ok _) =>
    _ ← reject (negb (String.eqb (state_digest book) (ck_state_sha256 ck)))
          "book checkpoint state digest is invalid";
    Ok book
  | (_, Err e) => Err e
  | (_, Panic) => Panic
  end.

Definition accepts_depth (s : BookState) : bool :=
  bool_decide (s = BookSyncing) || bool_decide (s = BookLive).

Definition prepare_depth_value (value : Value) : SE LocalOrderBook PreparedDepthUpdate :=
  book ← get;
  lift (reject (negb (accepts_depth (bk_state book)))
          "book cannot accept depth in current state");;
  e ← lift (required_str value "e");
  mismatch ← lift (if negb (String.eqb e "depthUpdate") then Ok true else
                   s ← required_str value "s"; Ok (negb (String.eqb s (bk_symbol book))));
  lift (reject mismatch "unexpected depth type/symbol");;
  first_id ← lift (required_u64 value "U");
  final_id ← lift (required_u64 value "u");
  lift (reject (final_id <? first_id) "invalid depth IDs");;
  last ← lift (ok_or (bk_last_update_id book) "snapshot not loaded");
  expected ← lift (ok_or (checked_add last 1) "update ID overflow");
  if final_id <? expected then mret (PreparedOld first_id final_id) else
  if (expected <? first_id) || (final_id <? expected) then
    modify (set_state BookGap);;
    throw ("depth gap: expected bridge " ++ u_to_string expected ++ ", received U="
           ++ u_to_string first_id ++ ", u=" ++ u_to_string final_id)
  else
  bids ← lift (ok_or (as_array (value_index value "b")) "depth bids not array");
  asks ← lift (ok_or (as_array (value_index value "a")) "depth asks not array");
  bid_updates ← lift (try_map (λ lvl, parse_level lvl "bid") bids);
  ask_updates ← lift (try_map (λ lvl, parse_level lvl "ask") asks);
  mret (PreparedApply first_id final_id bid_updates ask_updates).

(** The body of the loop of [apply_side]. *)
Definition apply_level (side_tag : Byte.byte) (acc : side * fp4) (u : level) : side * fp4 :=
  let '(m, fp) := acc in
  let '(price, quantity) := u in
  let fp := match side_get price m with
            | Some old => xor_level_fingerprint fp (level_fingerprint side_tag price old)
            | None => fp
            end in
  if decimal_is_zero quantity then (side_remove price m, fp) else
  (side_insert price quantity m,
   xor_level_fingerprint fp (level_fingerprint side_tag price quantity)).

Definition apply_side (side_tag : Byte.byte) (m : side) (updates : list level) (fp : fp4)
    : side * fp4 :=
  foldl (apply_level side_tag) (m, fp) updates.

Definition apply_prepared_depth (update : PreparedDepthUpdate) : SE LocalOrderBook ApplyOutcome :=
  book ← get;
  lift (reject (negb (accepts_depth (bk_state book)))
          "book cannot accept prepared depth in current state");;
  last ← lift (ok_or (bk_last_update_id book) "snapshot not loaded");
  expected ← lift (ok_or (checked_add last 1) "update ID overflow");
  match update with
  | PreparedOld first_id final_id =>
    if (final_id <? first_id) || (expected <=? final_id) then
      modify (set_state BookGap);;
      throw "prepared old depth no longer matches book position"
    else mret Old
  | PreparedApply first_id final_id bids asks =>
    if (final_id <? first_id) || (expected <? first_id) || (final_id <? expected) then
      modify (set_state BookGap);;
      throw "prepared depth does not bridge book position"
    else
      let '(new_bids, fp) := apply_side x62 (bk_bids book) bids (bk_fingerprint book) in
      let '(new_asks, fp) := apply_side x61 (bk_asks book) asks fp in
      put (mkBook (bk_symbol book)
             (if bool_decide (bk_state book = BookSyncing) then BookLive else bk_state book)
             (Some final_id) new_bids new_asks fp);;
      check_invariants;;
      mret Applied
  end.

Definition apply_depth_value (value : Value) : SE LocalOrderBook ApplyOutcome :=
  prepared ← prepare_depth_value value; apply_prepared_depth prepared.

Definition apply_depth (payload : bytes) : SE LocalOrderBook ApplyOutcome :=
  value ← lift (map_err "invalid depth JSON: " (value_from_slice payload));
  apply_depth_value value.

Definition same_state (a b : LocalOrderBook) : bool :=
  String.eqb (bk_symbol a) (bk_symbol b) && bool_decide (bk_state a = bk_state b)
  && bool_decide (bk_last_update_id a = bk_last_update_id b)
  && bool_decide (bk_bids a = bk_bids b) && bool_decide (bk_asks a = bk_asks b).

Definition same_state_fingerprint (a b : LocalOrderBook) : bool :=
  bool_decide (bk_last_update_id a = bk_last_update_id b)
  && (length (bk_bids a) =? length (bk_bids b))%nat
  && (length (bk_asks a) =? length (bk_asks b))%nat
  && bool_decide (bk_fingerprint a = bk_fingerprint b).

Definition is_live (b : LocalOrderBook) : bool := bool_decide (bk_state b = BookLive).
Definition level_counts (b : LocalOrderBook) : nat * nat :=
  (length (bk_bids b), length (bk_asks b)).
End book.

(** ** Sides as finite maps *)

#[global] Instance FixedDecimal_countable : Countable FixedDecimal.
Proof.
  refine (inj_countable' (λ d, (coefficient d, scale d)) (λ p, mkDecimal p.1 p.2) _).
  by intros [].
Defined.

Definition level_ok (l : level) : Prop :=
  wf_decimal l.1 ∧ 0 < coefficient l.1 ∧ wf_decimal l.2 ∧ 0 < coefficient l.2.
Definition key_lt (a b : level) : Prop := num a.1 < num b.1.
(** Ascending prices, every level a positive price and quantity. *)
Definition side_ok (m : side) : Prop := StronglySorted key_lt m ∧ Forall level_ok m.

(** What a side means: the quantity at each price. *)
Definition side_map (m : side) : gmap FixedDecimal FixedDecimal := list_to_map m.

Lemma side_ok_nil : side_ok [].
Proof. split; constructor. Qed.

Lemma side_ok_cons_inv l m :
  side_ok (l :: m) → level_ok l ∧ side_ok m ∧ Forall (key_lt l) m.
Proof.
  intros [HS HF]. apply StronglySorted_inv in HS as [? ?]. apply Forall_cons in HF as [? ?].
  done.
Qed.

Lemma side_ok_cons l m : level_ok l → side_ok m → Forall (key_lt l) m → side_ok (l :: m).
Proof. intros ? [? ?] ?. split; constructor; done. Qed.

Lemma side_lookup_below k m : Forall (key_lt k) m → side_map m !! k.1 = None.
Proof.
  intros HF. apply not_elem_of_list_to_map_1. intros (l & Hl & Hin)%list_elem_of_fmap.
  rewrite Forall_forall in HF. apply HF in Hin. unfold key_lt in Hin. rewrite <-Hl in Hin. lia.
Qed.

Lemma compare_cases k k' :
  wf_decimal k → wf_decimal k' →
  match decimal_compare k k' with
  | Lt => num k < num k'
  | Eq => k = k'
  | Gt => num k' < num k
  end.
Proof.
  intros Wk Wk'. pose proof (compare_Eq k k' Wk Wk') as HE.
  rewrite compare_num in * by (apply Wk || apply Wk').
  destruct (Z.compare_spec (num k) (num k')); [by apply HE|done|done].
Qed.

Lemma key_lt_trans_Forall a b m : key_lt a b → Forall (key_lt b) m → Forall (key_lt a) m.
Proof. intros Hab HF. eapply Forall_impl; [exact HF|]. unfold key_lt in *. intros; lia. Qed.

Lemma side_get_lookup k m : wf_decimal k → side_ok m → side_get k m = side_map m !! k.
Proof.
  intros Wk. induction m as [|[k' v'] m IH]; [done|].
  intros (Hl & Hm & HF)%side_ok_cons_inv. simpl.
  pose proof (compare_cases k k' Wk (proj1 Hl)) as HC.
  unfold side_map; simpl. destruct (decimal_compare k k').
  - subst. by rewrite lookup_insert_eq.
  - rewrite lookup_insert_ne by (intros ->; lia). symmetry.
    apply (side_lookup_below (k, k)). eapply key_lt_trans_Forall; [|exact HF]. done.
  - rewrite lookup_insert_ne by (intros ->; lia). by apply IH.
Qed.

Lemma side_insert_Forall P k v m :
  (∀ k' v', P (k', v') → P (k', v)) → P (k, v) → Forall P m → Forall P (side_insert k v m).
Proof.
  intros HP Hk. induction m as [|[k' v'] m IH]; simpl; [by constructor|].
  intros [? ?]%Forall_cons. destruct (decimal_compare k k'); constructor; eauto.
Qed.

Lemma side_insert_ok k v m : level_ok (k, v) → side_ok m → side_ok (side_insert k v m).
Proof.
  intros Hk. induction m as [|[k' v'] m IH]; [intros _; apply side_ok_cons; [done|apply side_ok_nil|done]|].
  intros Hc. pose proof Hc as (Hl & Hm & HF)%side_ok_cons_inv. simpl.
  pose proof (compare_cases k k' (proj1 Hk) (proj1 Hl)) as HC.
  destruct (decimal_compare k k').
  - subst. by apply side_ok_cons.
  - apply side_ok_cons; [done|done|]. constructor; [done|].
    eapply key_lt_trans_Forall; [|exact HF]. done.
  - apply side_ok_cons; [done|by apply IH|].
    apply side_insert_Forall; [done|done|done].
Qed.

Lemma side_insert_map k v m :
  level_ok (k, v) → side_ok m → side_map (side_insert k v m) = <[k:=v]> (side_map m).
Proof.
  intros Hk. unfold side_map. induction m as [|[k' v'] m IH]; [done|].
  intros (Hl & Hm & HF)%side_ok_cons_inv. simpl.
  pose proof (compare_cases k k' (proj1 Hk) (proj1 Hl)) as HC.
  destruct (decimal_compare k k'); simpl.
  - subst. by rewrite insert_insert_eq.
  - done.
  - rewrite IH by done. rewrite insert_insert_ne; [done|]. intros ->. lia.
Qed.

Lemma side_remove_Forall P k m : Forall P m → Forall P (side_remove k m).
Proof.
  induction m as [|[k' v'] m IH]; simpl; [done|]. intros [? ?]%Forall_cons.
  destruct (decimal_compare k k'); [done|by constructor|constructor; eauto].
Qed.

Lemma side_remove_ok k m : side_ok m → side_ok (side_remove k m).
Proof.
  induction m as [|[k' v'] m IH]; [done|]. intros Hc.
  pose proof Hc as (Hl & Hm & HF)%side_ok_cons_inv. simpl.
  destruct (decimal_compare k k'); [done|done|].
  apply side_ok_cons; [done|by apply IH|by apply side_remove_Forall].
Qed.

Lemma side_remove_map k m :
  wf_decimal k → side_ok m → side_map (side_remove k m) = delete k (side_map m).
Proof.
  intros Wk. unfold side_map. induction m as [|[k' v'] m IH]; [intros; simpl; by rewrite delete_empty|].
  intros (Hl & Hm & HF)%side_ok_cons_inv. simpl.
  pose proof (compare_cases k k' Wk (proj1 Hl)) as HC.
  destruct (decimal_compare k k'); simpl.
  - subst. rewrite delete_insert_eq. symmetry. apply delete_id.
    by apply (side_lookup_below (k', v')).
  - symmetry. apply delete_id. rewrite lookup_insert_ne by (intros ->; lia).
    apply (side_lookup_below (k, k)). eapply key_lt_trans_Forall; [|exact HF]. done.
  - rewrite IH by done. rewrite delete_insert_ne; [done|]. intros ->. lia.
Qed.

(** Two ordered sides with the same meaning are the same list. *)
Lemma side_map_inj m m' : side_ok m → side_ok m' → side_map m = side_map m' → m = m'.
Proof.
  assert (∀ m, side_ok m → NoDup m.*1) as ND.
  { clear m m'. induction m as [|l m IH]; simpl; [constructor|].
    intros (_ & Hm & HF)%side_ok_cons_inv. constructor; [|by apply IH].
    intros (l' & Hl & Hin)%list_elem_of_fmap. rewrite Forall_forall in HF.
    apply HF in Hin. unfold key_lt in Hin. rewrite Hl in Hin. lia. }
  intros Hm Hm' Heq.
  assert (m ≡ₚ m') as HP by (apply list_to_map_inj; auto).
  apply (StronglySorted_unique_strong key_lt); [|apply Hm|apply Hm'|done].
  intros x y _ _ Hxy Hyx. unfold key_lt in *. lia.
Qed.

(** ** The incremental fingerprint *)

Ltac fp_bits :=
  intros; repeat match goal with f : fp4 |- _ => destruct f end;
  unfold xor_level_fingerprint, fp_zero; simpl; f_equal;
  apply Z.bits_inj; intros ?; rewrite ?Z.lxor_spec, ?Z.bits_0;
  repeat destruct (Z.testbit _ _); reflexivity.

Lemma xor_fp_assoc a b c :
  xor_level_fingerprint (xor_level_fingerprint a b) c
  = xor_level_fingerprint a (xor_level_fingerprint b c).
Proof. fp_bits. Qed.
Lemma xor_fp_comm a b : xor_level_fingerprint a b = xor_level_fingerprint b a.
Proof. fp_bits. Qed.
Lemma xor_fp_cancel a b : xor_level_fingerprint (xor_level_fingerprint a b) b = a.
Proof. fp_bits. Qed.
Lemma xor_fp_zero_l a : xor_level_fingerprint fp_zero a = a.
Proof. fp_bits. Qed.
Lemma xor_fp_swap a b c :
  xor_level_fingerprint a (xor_level_fingerprint b c)
  = xor_level_fingerprint b (xor_level_fingerprint a c).
Proof. fp_bits. Qed.

(** Replacing the contributions [a], [c] of the two sides by [a'], [c']. *)
Lemma xor_fp_replace a a' c c' f1 f2 :
  xor_level_fingerprint f1 a' = xor_level_fingerprint (xor_level_fingerprint a c) a →
  xor_level_fingerprint f2 c' = xor_level_fingerprint f1 c →
  f2 = xor_level_fingerprint a' c'.
Proof.
  intros H1%(f_equal (λ f, xor_level_fingerprint f a')) H2%(f_equal (λ f, xor_level_fingerprint f c')).
  rewrite xor_fp_cancel in H1, H2. subst f1 f2. fp_bits.
Qed.

Section book_theory.
Context `{Hsha : Sha256} `{Hval : SerdeValue} `{Hlaw : !SerdeValueLaws Hval}.

Implicit Types (b : LocalOrderBook) (m : side).

(** The fingerprint of a side computed from scratch. *)
Definition side_fp (tag : Byte.byte) (m : side) : fp4 :=
  foldr (λ l fp, xor_level_fingerprint (level_fingerprint tag l.1 l.2) fp) fp_zero m.

Lemma xor_side_fp tag fp m : xor_side tag fp m = xor_level_fingerprint fp (side_fp tag m).
Proof.
  unfold xor_side. revert fp. induction m as [|[p q] m IH]; intros fp; simpl.
  - by rewrite xor_fp_comm, xor_fp_zero_l.
  - rewrite IH. by rewrite xor_fp_assoc.
Qed.

Lemma side_fp_insert tag k v m :
  wf_decimal k → side_ok m →
  side_fp tag (side_insert k v m) =
  xor_level_fingerprint (level_fingerprint tag k v)
    (match side_get k m with
     | Some old => xor_level_fingerprint (side_fp tag m) (level_fingerprint tag k old)
     | None => side_fp tag m
     end).
Proof.
  intros Wk. induction m as [|[k' v'] m IH]; [done|].
  intros (Hl & Hm & HF)%side_ok_cons_inv. simpl.
  pose proof (compare_cases k k' Wk (proj1 Hl)) as HC.
  destruct (decimal_compare k k'); simpl; [|done|].
  - subst. f_equal. rewrite (xor_fp_comm (level_fingerprint tag k' v')). by rewrite xor_fp_cancel.
  - rewrite IH by done. rewrite xor_fp_swap. f_equal.
    destruct (side_get k m); [by rewrite xor_fp_assoc|done].
Qed.

Lemma side_fp_remove tag k m :
  wf_decimal k → side_ok m →
  side_fp tag (side_remove k m) =
  match side_get k m with
  | Some old => xor_level_fingerprint (side_fp tag m) (level_fingerprint tag k old)
  | None => side_fp tag m
  end.
Proof.
  intros Wk. induction m as [|[k' v'] m IH]; [done|].
  intros (Hl & Hm & HF)%side_ok_cons_inv. simpl.
  pose proof (compare_cases k k' Wk (proj1 Hl)) as HC.
  destruct (decimal_compare k k'); simpl; [|done|].
  - subst. rewrite (xor_fp_comm (level_fingerprint tag k' v')). by rewrite xor_fp_cancel.
  - rewrite IH by done. destruct (side_get k m); [by rewrite xor_fp_assoc|done].
Qed.

(** An update as [parse_level] returns it: a positive price, a quantity that
    is zero (delete) or positive (replace). *)
Definition update_ok (u : level) : Prop :=
  wf_decimal u.1 ∧ 0 < coefficient u.1 ∧ wf_decimal u.2 ∧ 0 ≤ coefficient u.2.

(** The abstract update of a side: delete on zero, replace otherwise. *)
Definition map_update (M : gmap FixedDecimal FixedDecimal) (u : level)
    : gmap FixedDecimal FixedDecimal :=
  if decimal_is_zero u.2 then delete u.1 M else <[u.1:=u.2]> M.

Lemma update_ok_level u : update_ok u → decimal_is_zero u.2 = false → level_ok u.
Proof. intros (? & ? & ? & ?) Hz%Z.eqb_neq. split_and!; [done|done|done|lia]. Qed.

Lemma apply_level_spec tag m fp u :
  side_ok m → update_ok u →
  let '(m', fp') := apply_level tag (m, fp) u in
  side_ok m' ∧ side_map m' = map_update (side_map m) u ∧
  xor_level_fingerprint fp' (side_fp tag m') = xor_level_fingerprint fp (side_fp tag m).
Proof.
  intros Hm Hu. destruct u as [p q]. unfold apply_level, map_update; simpl.
  pose proof (proj1 Hu : wf_decimal p) as Wp.
  destruct (decimal_is_zero q) eqn:Hz.
  - split_and!; [by apply side_remove_ok|by apply side_remove_map|].
    rewrite side_fp_remove by done. destruct (side_get p m); [|done].
    rewrite (xor_fp_comm (side_fp tag m)), <-xor_fp_assoc, xor_fp_cancel. done.
  - pose proof (update_ok_level _ Hu Hz) as Hl.
    split_and!; [by apply side_insert_ok|by apply side_insert_map|].
    rewrite side_fp_insert by done.
    rewrite <-xor_fp_assoc, xor_fp_cancel. destruct (side_get p m); [|done].
    rewrite (xor_fp_comm (side_fp tag m)), <-xor_fp_assoc, xor_fp_cancel. done.
Qed.

Lemma apply_side_spec tag m updates fp :
  side_ok m → Forall update_ok updates →
  let '(m', fp') := apply_side tag m updates fp in
  side_ok m' ∧ side_map m' = foldl map_update (side_map m) updates ∧
  xor_level_fingerprint fp' (side_fp tag m') = xor_level_fingerprint fp (side_fp tag m).
Proof.
  unfold apply_side. revert m fp. induction updates as [|u us IH]; intros m fp Hm; [done|].
  intros [Hu Hus]%Forall_cons. cbn [foldl].
  pose proof (apply_level_spec tag m fp u Hm Hu) as Hs.
  destruct (apply_level tag (m, fp) u) as [m1 fp1]. destruct Hs as (Hm1 & Hmap & Hfp).
  specialize (IH m1 fp1 Hm1 Hus).
  destruct (foldl (apply_level tag) (m1, fp1) us) as [m2 fp2].
  destruct IH as (? & -> & ->). by rewrite Hmap.
Qed.

(** ** The book invariant *)

Definition book_fp (b : LocalOrderBook) : fp4 :=
  xor_level_fingerprint (side_fp x62 (bk_bids b)) (side_fp x61 (bk_asks b)).
Definition uncrossed (b : LocalOrderBook) : Prop :=
  ∀ bid ask, last (bk_bids b) = Some bid → head (bk_asks b) = Some ask → num bid.1 < num ask.1.

(** Both sides ordered with positive levels; once a snapshot is loaded the
    incremental fingerprint is that of the levels and there is an update ID;
    while the book accepts depth or has stopped at a gap it is not crossed. *)
Definition book_ok (b : LocalOrderBook) : Prop :=
  side_ok (bk_bids b) ∧ side_ok (bk_asks b) ∧
  (bk_state b ≠ BookEmpty →
   bk_fingerprint b = book_fp b ∧ ∃ id, bk_last_update_id b = Some id ∧ in_u64 id) ∧
  (bk_state b ≠ BookEmpty → bk_state b ≠ BookInvalid → uncrossed b).

Lemma book_ok_set_state b s :
  book_ok b → bk_state b ≠ BookEmpty → bk_state b ≠ BookInvalid → book_ok (set_state s b).
Proof. intros (? & ? & Hf & Hu) He Hi. split_and!; [done|done|intros _; by apply Hf|]. intros _ _.
  by apply Hu. Qed.

Lemma parse_level_ok value sd u : parse_level value sd = Ok u → update_ok u.
Proof.
  unfold parse_level. intros H. inv_ok H. apply parse_wf in Hx1, Hx3. subst u.
  apply orb_false_iff in Hx4 as [[Hz Hn]%orb_false_iff Hq].
  unfold decimal_is_zero, decimal_is_negative in *. split_and!; simpl; [done|lia|done|lia].
Qed.

Lemma parse_level_nopanic value sd : parse_level value sd ≠ Panic.
Proof. unfold parse_level. nopanic. Qed.
Hint Resolve parse_level_nopanic : nopanic.

Lemma try_map_parse_ok l sd us :
  try_map (λ v, parse_level v sd) l = Ok us → Forall update_ok us.
Proof.
  intros HF%try_map_Ok_Forall2. induction HF as [|? ? ? ? H]; constructor; [|done].
  by eapply parse_level_ok.
Qed.

Lemma load_side_ok value sd m : load_side value sd = Ok m → side_ok m ∧ m ≠ [].
Proof.
  unfold load_side. intros H. inv_ok H. subst m. apply bool_decide_eq_false in Hx1.
  split; [|done]. revert Hx0. apply try_fold_inv; [apply side_ok_nil|].
  intros m v m' _ Hm H. unfold load_level in H.
  apply res_bind_Ok in H as ([p q] & Hp%parse_level_ok & H). case_match eqn:Hz; [by injection H as <-|].
  case_match; [done|]. injection H as <-. apply side_insert_ok; [|done].
  by apply update_ok_level.
Qed.

Lemma check_invariants_cases b b' r :
  side_ok (bk_bids b) → side_ok (bk_asks b) → check_invariants b = (b', r) →
  (b' = b ∧ r = Ok () ∧ bk_bids b ≠ [] ∧ bk_asks b ≠ [] ∧ uncrossed b) ∨
  (b' = b ∧ (bk_bids b = [] ∨ bk_asks b = []) ∧ ∃ e, r = Err e) ∨
  (b' = set_state BookInvalid b ∧ ∃ e, r = Err e).
Proof.
  intros Hb Ha. unfold check_invariants, best_bid, best_ask. intros H. step_se H.
  destruct (last (bk_bids b)) as [[bid bq]|] eqn:Eb; simpl in H.
  2: { simplify_eq. right; left. apply last_None in Eb. naive_solver. }
  destruct (head (bk_asks b)) as [[ask aq]|] eqn:Ea; simpl in H.
  2: { simplify_eq. right; left. apply head_None in Ea. naive_solver. }
  assert (wf_decimal bid) as Wb.
  { apply last_Some_elem_of in Eb. destruct Hb as [_ Hb]. rewrite Forall_forall in Hb.
    by apply Hb in Eb as [? _]. }
  assert (wf_decimal ask) as Wa.
  { destruct (bk_asks b); [done|]. simplify_eq/=. destruct Ha as [_ Ha].
    apply Forall_cons in Ha as [[? _] _]. done. }
  pose proof (compare_cases bid ask Wb Wa) as HC. unfold decimal_geb in H.
  run_se H; [naive_solver| |naive_solver].
  left. split_and!; [done|done| | |].
  - intros E. by rewrite E in Eb.
  - intros E. by rewrite E in Ea.
  - intros ? ? E1 E2. rewrite Eb in E1. rewrite Ea in E2. simplify_eq. done.
Qed.

Lemma check_invariants_pass b :
  side_ok (bk_bids b) → side_ok (bk_asks b) → bk_bids b ≠ [] → bk_asks b ≠ [] → uncrossed b →
  check_invariants b = (b, Ok ()).
Proof.
  intros Ob Oa Nb Na Hu. unfold check_invariants, best_bid, best_ask.
  cbv [mbind SE_bind get lift ok_or mret SE_ret].
  destruct (last (bk_bids b)) as [bid|] eqn:Eb; [|by apply last_None in Eb].
  destruct (head (bk_asks b)) as [ask|] eqn:Ea; [|by apply head_None in Ea].
  specialize (Hu bid ask Eb Ea). cbn. unfold decimal_geb.
  destruct Ob as [_ Ob], Oa as [_ Oa]. rewrite Forall_forall in Ob, Oa.
  apply last_Some_elem_of, Ob in Eb as (Wb & _). apply head_Some_elem_of, Oa in Ea as (Wa & _).
  pose proof (compare_cases bid.1 ask.1 Wb Wa) as HC.
  destruct (decimal_compare bid.1 ask.1); [rewrite HC in Hu; lia|done|lia].
Qed.

(** After a check of a well-formed live or syncing book the invariant holds,
    whatever the outcome. *)
Lemma check_invariants_ok b b' r :
  side_ok (bk_bids b) → side_ok (bk_asks b) → bk_fingerprint b = book_fp b →
  (∃ id, bk_last_update_id b = Some id ∧ in_u64 id) →
  check_invariants b = (b', r) → book_ok b'.
Proof.
  intros Hb Ha Hf Hid H.
  destruct (check_invariants_cases b b' r Hb Ha H)
    as [(-> & _ & _ & _ & Hu)|[(-> & He & _)|(-> & _)]].
  - by split_and!.
  - split_and!; [done|done|done|]. intros _ _ bid ask E1 E2.
    destruct He as [E|E]; rewrite E in *; done.
  - split_and!; [done|done|done|]. by intros _ [].
Qed.

(** ** Behaviour of the depth path *)

Definition prepared_ok (u : PreparedDepthUpdate) : Prop :=
  match u with
  | PreparedOld _ _ => True
  | PreparedApply _ final_id bids asks =>
      in_u64 final_id ∧ Forall update_ok bids ∧ Forall update_ok asks
  end.
(** Where a prepared update stands relative to the book's position [last]. *)
Definition prepared_at (last : Z) (u : PreparedDepthUpdate) : Prop :=
  match u with
  | PreparedOld first_id final_id => first_id ≤ final_id ≤ last
  | PreparedApply first_id final_id _ _ => first_id ≤ last + 1 ≤ final_id
  end.

(** The fields of the event a prepared update was read from. *)
Definition prepared_from (value : Value) (u : PreparedDepthUpdate) : Prop :=
  match u with
  | PreparedOld first_id final_id =>
      required_u64 value "U" = Ok first_id ∧ required_u64 value "u" = Ok final_id
  | PreparedApply first_id final_id bids asks =>
      required_u64 value "U" = Ok first_id ∧ required_u64 value "u" = Ok final_id ∧
      ∃ vb va, as_array (value_index value "b") = Some vb ∧
               as_array (value_index value "a") = Some va ∧
               try_map (λ v, parse_level v "bid") vb = Ok bids ∧
               try_map (λ v, parse_level v "ask") va = Ok asks
  end.

Lemma required_u64_range v f n : required_u64 v f = Ok n → in_u64 n.
Proof. unfold required_u64. intros H%ok_or_Ok. by eapply as_u64_range. Qed.

Lemma prepare_spec value b b' r :
  prepare_depth_value value b = (b', r) →
  match r with
  | Ok u => b' = b ∧ accepts_depth (bk_state b) = true ∧ prepared_ok u ∧ prepared_from value u ∧
            ∃ last, bk_last_update_id b = Some last ∧ last + 1 ≤ u64_max ∧ prepared_at last u
  | Err _ => b' = b ∨
      (b' = set_state BookGap b ∧ accepts_depth (bk_state b) = true ∧
       ∃ last first_id final_id, bk_last_update_id b = Some last ∧
         required_u64 value "U" = Ok first_id ∧ required_u64 value "u" = Ok final_id ∧
         last + 1 < first_id ≤ final_id)
  | Panic => False
  end.
Proof.
  unfold prepare_depth_value. intros H.
  destruct (required_u64 value "U") as [U| |] eqn:EU;
  destruct (required_u64 value "u") as [u| |] eqn:Eu;
  run_se H; try (by left); try no_panic_here.
  - apply checked_add_Some in Heqo0 as [? ->]. apply negb_false_iff in Heqb0.
    split_and!; [done|done|done|done|]. eexists; split_and!; [done|done|]. simpl. lia.
  - right. apply checked_add_Some in Heqo0 as [? ->]. apply negb_false_iff in Heqb0.
    split_and!; [done|done|]. do 3 eexists. split_and!; [done..|lia|lia].
  - apply checked_add_Some in Heqo0 as [? ->]. apply negb_false_iff in Heqb0.
    split_and!; [done|done| | |].
    + split_and!; [by apply required_u64_range in Eu|by eapply try_map_parse_ok..].
    + split_and!; [done|done|]. eexists _, _. by split_and!.
    + eexists; split_and!; [done|done|]. simpl. lia.
Qed.

Lemma accepts_depth_states s :
  accepts_depth s = true → s ≠ BookEmpty ∧ s ≠ BookInvalid ∧ s ≠ BookGap.
Proof. by destruct s. Qed.

Lemma book_ok_accepting b :
  book_ok b → accepts_depth (bk_state b) = true →
  side_ok (bk_bids b) ∧ side_ok (bk_asks b) ∧ bk_fingerprint b = book_fp b ∧ uncrossed b ∧
  ∃ id, bk_last_update_id b = Some id ∧ in_u64 id.
Proof. intros (? & ? & Hf & Hu) (? & ? & ?)%accepts_depth_states. naive_solver. Qed.

(** The book after a bridging update, before its invariants are checked. *)
Definition updated (b : LocalOrderBook) (final_id : Z) (bids asks : list level)
    (b1 : LocalOrderBook) : Prop :=
  bk_symbol b1 = bk_symbol b ∧ bk_state b1 = BookLive ∧
  bk_last_update_id b1 = Some final_id ∧
  side_ok (bk_bids b1) ∧ side_ok (bk_asks b1) ∧
  side_map (bk_bids b1) = foldl map_update (side_map (bk_bids b)) bids ∧
  side_map (bk_asks b1) = foldl map_update (side_map (bk_asks b)) asks ∧
  bk_fingerprint b1 = book_fp b1.

Lemma apply_prepared_spec u b b' r :
  book_ok b → prepared_ok u → apply_prepared_depth u b = (b', r) →
  book_ok b' ∧
  match r with
  | Ok Old => b' = b
  | Ok Applied => accepts_depth (bk_state b) = true ∧
      ∃ first_id final_id bids asks last, u = PreparedApply first_id final_id bids asks ∧
        bk_last_update_id b = Some last ∧ first_id ≤ last + 1 ≤ final_id ∧
        updated b final_id bids asks b' ∧ bk_bids b' ≠ [] ∧ bk_asks b' ≠ [] ∧ uncrossed b'
  | Err _ => True
  | Panic => False
  end.
Proof.
  intros Hb Hu H. unfold apply_prepared_depth in H. step_se H.
  destruct (accepts_depth (bk_state b)) eqn:Hacc; simpl in H; [|by simplify_eq].
  pose proof (book_ok_accepting b Hb Hacc) as (Hbids & Hasks & Hfp & _ & id & Hid & Hrange).
  pose proof (accepts_depth_states _ Hacc) as (He & Hi & _).
  rewrite Hid in H. destruct (checked_add id 1) as [expected|] eqn:Ex; [|by simplify_eq].
  apply checked_add_Some in Ex as [Hmax ->].
  destruct u as [first_id final_id|first_id final_id bids asks]; simpl in H.
  - destruct (_ || _) eqn:Eg; simplify_eq; [|done].
    split; [by apply book_ok_set_state|done].
  - destruct Hu as (Hfin & Hub & Hua).
    destruct ((final_id <? first_id) || _ || _) eqn:Eg; simplify_eq.
    { split; [by apply book_ok_set_state|done]. }
    apply orb_false_iff in Eg as [[Eg1 Eg2]%orb_false_iff Eg3].
    pose proof (apply_side_spec x62 _ bids (bk_fingerprint b) Hbids Hub) as S1.
    destruct (apply_side x62 _ bids _) as [nb fp1] eqn:E1. destruct S1 as (Onb & Mnb & Fnb).
    pose proof (apply_side_spec x61 _ asks fp1 Hasks Hua) as S2.
    destruct (apply_side x61 _ asks _) as [na fp2] eqn:E2. destruct S2 as (Ona & Mna & Fna).
    set (b1 := mkBook _ _ _ _ _ _) in H.
    assert (updated b final_id bids asks b1) as Hupd.
    { split_and!; try done; simpl.
      - destruct (bk_state b); done.
      - unfold book_fp in *; simpl.
        eapply xor_fp_replace; [|exact Fna]. by rewrite Fnb, Hfp. }
    destruct Hupd as (Hsym & Hst & Hlast & Ob & Oa & Mb & Ma & Hf1).
    destruct (check_invariants b1) as [b2 r2] eqn:Hci.
    split.
    { enough (book_ok b2) by (destruct r2; by simplify_eq).
      eapply check_invariants_ok; [..|exact Hci]; try done. by exists final_id. }
    destruct (check_invariants_cases b1 b2 r2 Ob Oa Hci)
      as [(-> & -> & ? & ? & ?)|[(-> & _ & e & ->)|(-> & e & ->)]]; simplify_eq; [|done|done].
    split; [done|]. exists first_id, final_id, bids, asks, id.
    split_and!; try done; lia.
Qed.

Lemma prepare_ok value b b' r :
  book_ok b → prepare_depth_value value b = (b', r) → book_ok b'.
Proof.
  intros Hb H%prepare_spec. destruct r as [u|e|]; [by destruct H as [-> _]| |done].
  destruct H as [->|(-> & Hacc & _)]; [done|].
  apply accepts_depth_states in Hacc as (? & ? & _). by apply book_ok_set_state.
Qed.

Lemma apply_depth_value_ok value b b' r :
  book_ok b → apply_depth_value value b = (b', r) → book_ok b' ∧ r ≠ Panic.
Proof.
  intros Hb H. unfold apply_depth_value in H. step_se H.
  destruct (prepare_depth_value value b) as [b1 r1] eqn:E1.
  pose proof (prepare_ok _ _ _ _ Hb E1) as Hb1. apply prepare_spec in E1.
  destruct r1 as [u|e|]; [|by simplify_eq|done]. destruct E1 as (-> & _ & Hu & _).
  apply apply_prepared_spec in H as [? Hr]; [|done..]. split; [done|]. by intros ->.
Qed.

Lemma apply_depth_ok payload b b' r :
  book_ok b → apply_depth payload b = (b', r) → book_ok b' ∧ r ≠ Panic.
Proof.
  intros Hb H. unfold apply_depth in H. step_se H.
  destruct (map_err _ _) as [v| |] eqn:E; [by eapply apply_depth_value_ok|by simplify_eq|].
  no_panic_here.
Qed.

Lemma load_snapshot_ok payload b b' r :
  book_ok b → load_snapshot payload b = (b', r) → book_ok b'.
Proof.
  intros Hb H. unfold load_snapshot in H. step_se H.
  destruct (bool_decide (bk_state b = BookEmpty)) eqn:Es; simpl in H; [|by simplify_eq].
  apply bool_decide_eq_true in Es.
  destruct (map_err _ _) as [v| |]; [|by simplify_eq..].
  destruct (required_u64 v "lastUpdateId") as [id| |] eqn:Eid; [|by simplify_eq..].
  destruct (load_side (value_index v "bids") "bid") as [bids| |] eqn:Eb; [|by simplify_eq..].
  apply load_side_ok in Eb as [Ob _].
  destruct (load_side (value_index v "asks") "ask") as [asks| |] eqn:Ea.
  2,3: destruct Hb as (_ & ? & _); simplify_eq; split_and!; by try intros [].
  apply load_side_ok in Ea as [Oa _].
  set (b1 := set_state _ _) in H. destruct (check_invariants b1) as [b2 r2] eqn:Hci.
  assert (book_ok b2) as Hb2.
  { eapply check_invariants_ok; [..|exact Hci]; [done|done| |].
    - simpl. unfold book_fp; simpl. rewrite !xor_side_fp. by rewrite xor_fp_zero_l.
    - simpl. exists id. split; [done|]. by eapply required_u64_range. }
  destruct r2; by simplify_eq.
Qed.

Lemma book_new_ok symbol b : book_new symbol = Ok b → book_ok b.
Proof.
  unfold book_new. intros H. inv_ok H. subst b.
  split_and!; simpl; [apply side_ok_nil..|done|done].
Qed.

(** ** Every history of a book

    The operations a caller may perform, in any order and with any outcome. *)
Inductive book_step (b b' : LocalOrderBook) : Prop :=
  | step_snapshot payload r : load_snapshot payload b = (b', r) → book_step b b'
  | step_depth payload r : apply_depth payload b = (b', r) → book_step b b'
  | step_prepare value r : prepare_depth_value value b = (b', r) → book_step b b'
  | step_prepared value b0 b1 u r :
      prepare_depth_value value b0 = (b1, Ok u) →
      apply_prepared_depth u b = (b', r) → book_step b b'.

Inductive book_reachable (symbol : string) : LocalOrderBook → Prop :=
  | reach_new b : book_new symbol = Ok b → book_reachable symbol b
  | reach_step b b' : book_reachable symbol b → book_step b b' → book_reachable symbol b'.

Lemma book_step_ok b b' : book_ok b → book_step b b' → book_ok b'.
Proof.
  intros Hb [payload r H|payload r H|value r H|value b0 b1 u r Hp H].
  - by eapply load_snapshot_ok.
  - by eapply apply_depth_ok.
  - by eapply prepare_ok.
  - apply prepare_spec in Hp as (_ & _ & Hu & _). by eapply apply_prepared_spec.
Qed.

Lemma book_reachable_inv symbol b : book_reachable symbol b → book_ok b.
Proof. induction 1; [by eapply book_new_ok|by eapply book_step_ok]. Qed.

(** ** Checkpoints *)

Lemma side_ok_app m1 m2 :
  side_ok (m1 ++ m2) ↔
  side_ok m1 ∧ side_ok m2 ∧ (∀ x y, x ∈ m1 → y ∈ m2 → key_lt x y).
Proof.
  unfold side_ok. rewrite StronglySorted_app, Forall_app. naive_solver.
Qed.

Lemma side_beyond k v m :
  level_ok (k, v) → side_ok m → (∀ x, x ∈ m → key_lt x (k, v)) →
  side_get k m = None ∧ side_insert k v m = m ++ [(k, v)].
Proof.
  intros Hk. induction m as [|[k' v'] m IH]; [done|].
  intros (Hl & Hm & HF)%side_ok_cons_inv Hlt. simpl.
  pose proof (compare_cases k k' (proj1 Hk) (proj1 Hl)) as HC.
  pose proof (Hlt (k', v') ltac:(set_solver)) as Hkk. unfold key_lt in Hkk; simpl in Hkk.
  destruct (IH Hm ltac:(set_solver)) as [-> ->].
  destruct (decimal_compare k k'); [subst; lia|lia|done].
Qed.

Lemma side_before k v m :
  level_ok (k, v) → side_ok m → (∀ x, x ∈ m → key_lt (k, v) x) →
  side_get k m = None ∧ side_insert k v m = (k, v) :: m.
Proof.
  intros Hk. destruct m as [|[k' v'] m]; [done|].
  intros (Hl & Hm & HF)%side_ok_cons_inv Hlt. simpl.
  pose proof (compare_cases k k' (proj1 Hk) (proj1 Hl)) as HC.
  pose proof (Hlt (k', v') ltac:(set_solver)) as Hkk. unfold key_lt in Hkk; simpl in Hkk.
  destruct (decimal_compare k k'); [subst; lia|done|lia].
Qed.

(** A rendered level is read back, whatever the pass has accumulated. *)
Lemma checkpoint_level_render sd descending m previous k v :
  level_ok (k, v) →
  match previous with
  | Some old => if descending : bool then decimal_leb old k = false else decimal_geb old k = false
  | None => True
  end →
  side_get k m = None →
  checkpoint_level sd descending (m, previous) (decimal_to_string k, decimal_to_string v)
  = Ok (side_insert k v m, Some k).
Proof.
  intros (Wk & Pk & Wv & Pv) Hprev Hget. simpl in Wk, Pk, Wv, Pv. unfold checkpoint_level; simpl.
  rewrite !parse_to_string by done. simpl. unfold decimal_is_zero, decimal_is_negative.
  rewrite !(proj2 (Z.eqb_neq _ _)), !(proj2 (Z.ltb_ge _ _)) by lia. simpl.
  replace (match previous with Some old => _ | None => false end) with false.
  - simpl. by rewrite Hget.
  - destruct previous; [|done]. by destruct descending.
Qed.

Lemma checkpoint_pass_asc sd m1 m2 :
  side_ok (m1 ++ m2) →
  try_fold (checkpoint_level sd false) (m1, fst <$> last m1) (render_levels m2)
  = Ok (m1 ++ m2, fst <$> last (m1 ++ m2)).
Proof.
  revert m1. induction m2 as [|[k v] m2 IH]; intros m1 Hok; [by rewrite app_nil_r|].
  pose proof Hok as (O1 & O2 & Hlt)%side_ok_app.
  apply side_ok_cons_inv in O2 as (Hl & O2 & HF).
  destruct (side_beyond k v m1 Hl O1) as [Hget Hins]; [intros; apply Hlt; set_solver|].
  change (render_levels ((k, v) :: m2))
    with ((decimal_to_string k, decimal_to_string v) :: render_levels m2).
  cbn [try_fold]. rewrite checkpoint_level_render; [|done| |done].
  - cbn [mbind res_bind]. rewrite Hins. replace (Some k) with (fst <$> last (m1 ++ [(k, v)]))
      by by rewrite last_snoc.
    rewrite (IH (m1 ++ [(k, v)])), <-app_assoc; [done|by rewrite <-app_assoc].
  - destruct (last m1) as [[k' v']|] eqn:El; simpl; [|done].
    apply last_Some_elem_of in El. unfold decimal_geb.
    assert (wf_decimal k') as W'.
    { destruct O1 as [_ O1]. rewrite Forall_forall in O1. by apply O1 in El as [? _]. }
    pose proof (compare_cases k' k W' (proj1 Hl)) as HC.
    assert (key_lt (k', v') (k, v)) as Hkk by (apply Hlt; set_solver).
    unfold key_lt in Hkk; simpl in Hkk.
    destruct (decimal_compare k' k); [subst; lia|done|lia].
Qed.

Lemma checkpoint_pass_desc sd m1 m2 :
  side_ok (m2 ++ m1) →
  try_fold (checkpoint_level sd true) (m1, fst <$> head m1) (render_levels (reverse m2))
  = Ok (m2 ++ m1, fst <$> head (m2 ++ m1)).
Proof.
  revert m1. induction m2 as [|[k v] m2 IH] using rev_ind; intros m1 Hok; [done|].
  rewrite <-app_assoc in Hok; simpl in Hok.
  pose proof Hok as (_ & O1 & _)%side_ok_app. apply side_ok_cons_inv in O1 as (Hl & O1 & HF).
  rewrite Forall_forall in HF. destruct (side_before k v m1 Hl O1 HF) as [Hget Hins].
  rewrite reverse_snoc.
  change (render_levels ((k, v) :: reverse m2))
    with ((decimal_to_string k, decimal_to_string v) :: render_levels (reverse m2)).
  cbn [try_fold]. rewrite checkpoint_level_render; [|done| |done].
  - cbn [mbind res_bind]. rewrite Hins. change (Some k) with (fst <$> head ((k, v) :: m1)).
    rewrite (IH ((k, v) :: m1) Hok), <-app_assoc. done.
  - destruct m1 as [|[k' v'] m1]; simpl; [done|]. unfold decimal_leb.
    apply side_ok_cons_inv in O1 as (Hl' & _ & _).
    pose proof (compare_cases k' k (proj1 Hl') (proj1 Hl)) as HC.
    assert (key_lt (k, v) (k', v')) as Hkk by (apply HF; set_solver).
    unfold key_lt in Hkk; simpl in Hkk.
    destruct (decimal_compare k' k); [subst; lia|lia|done].
Qed.

Lemma checkpoint_side_render m sd (descending : bool) :
  side_ok m → m ≠ [] →
  checkpoint_side (render_levels (if descending then reverse m else m)) sd descending = Ok m.
Proof.
  intros Hm Hne. unfold checkpoint_side.
  rewrite bool_decide_eq_false_2.
  - simpl. destruct descending.
    + pose proof (checkpoint_pass_desc sd [] m) as Hp. rewrite app_nil_r in Hp.
      simpl in Hp. by rewrite Hp.
    + pose proof (checkpoint_pass_asc sd [] m) as Hp. simpl in Hp. by rewrite Hp.
  - unfold render_levels. intros E%fmap_nil_inv. destruct descending; [|done].
    apply Hne. rewrite <-(reverse_involutive m), E. done.
Qed.
End book_theory.

Section book_claims.
Context `{Hsha : Sha256} `{Hval : SerdeValue}.

(** C8: in every history of an order book (snapshots and depth updates in any
    order, failing ones included) both sides are strictly ordered by price
    with positive prices and quantities, the incrementally maintained
    fingerprint equals the one computed from the levels, and a book that
    accepts depth or stopped at a gap is never crossed or locked. *)
Theorem book_invariant_all_histories `{!SerdeValueLaws Hval} symbol b :
  book_reachable symbol b → book_ok b.
Proof. apply book_reachable_inv. Qed.

(** C2: an applied depth event bridges the book's position
    ([U <= last + 1 <= u]), moves it to [u], leaves the book LIVE, non-empty
    and uncrossed, and changes each side exactly as the abstract map update:
    a zero quantity deletes the price, any other replaces its quantity. *)
Theorem apply_depth_refines_map `{!SerdeValueLaws Hval} symbol payload b b' :
  book_reachable symbol b → apply_depth payload b = (b', Ok Applied) →
  ∃ value first_id final_id bids asks last,
    value_from_slice payload = inr value ∧
    prepared_from value (PreparedApply first_id final_id bids asks) ∧
    bk_last_update_id b = Some last ∧ first_id ≤ last + 1 ≤ final_id ∧
    bk_last_update_id b' = Some final_id ∧ bk_state b' = BookLive ∧
    side_map (bk_bids b') = foldl map_update (side_map (bk_bids b)) bids ∧
    side_map (bk_asks b') = foldl map_update (side_map (bk_asks b)) asks ∧
    bk_bids b' ≠ [] ∧ bk_asks b' ≠ [] ∧ uncrossed b'.
Proof.
  intros Hb%book_reachable_inv H. unfold apply_depth, apply_depth_value in H. step_se H.
  destruct (map_err _ _) as [value| |] eqn:Ev; [|done..]. apply map_err_Ok in Ev.
  destruct (prepare_depth_value value b) as [b1 [u|e|]] eqn:Ep; [|done..].
  apply prepare_spec in Ep as (-> & _ & Hu & Hfrom & _).
  apply apply_prepared_spec in H as [_ (_ & first_id & final_id & bids & asks & last & -> & Hl &
    Hbr & (_ & Hst & Hid & _ & _ & Mb & Ma & _) & ? & ? & ?)]; [|done..].
  exists value, first_id, final_id, bids, asks, last. repeat (split; [done|]). done.
Qed.

(** A depth event that starts after the next expected update ID is
    reported as a gap: the call fails, the book keeps its levels and position
    and enters GAP, and from then on every depth payload is refused and
    changes nothing. *)
Theorem depth_gap_detected_and_final payload value first_id final_id last b :
  accepts_depth (bk_state b) = true → value_from_slice payload = inr value →
  required_str value "e" = Ok "depthUpdate" → required_str value "s" = Ok (bk_symbol b) →
  required_u64 value "U" = Ok first_id → required_u64 value "u" = Ok final_id →
  bk_last_update_id b = Some last → last + 1 < first_id ≤ final_id → in_u64 first_id →
  (∃ e, apply_depth payload b = (set_state BookGap b, Err e)) ∧
  ∀ payload', ∃ e, apply_depth payload' (set_state BookGap b) = (set_state BookGap b, Err e).
Proof.
  intros Hacc Hv He Hs HU Hu Hlast [H1 H2] [_ H3]. split.
  - eexists. unfold apply_depth, apply_depth_value, prepare_depth_value.
    cbv [mbind SE_bind get lift mret SE_ret reject]. rewrite Hv; cbv [map_err].
    rewrite Hacc; simpl. rewrite He; simpl. rewrite Hs; simpl. rewrite String.eqb_refl; simpl.
    rewrite HU, Hu. rewrite (proj2 (Z.ltb_ge _ _)) by lia. rewrite Hlast. simpl.
    unfold checked_add. rewrite (proj2 (Z.leb_le _ _)) by lia. simpl.
    rewrite (proj2 (Z.ltb_ge _ _)), (proj2 (Z.ltb_lt _ _)) by lia. simpl. reflexivity.
  - intros payload'. unfold apply_depth, apply_depth_value.
    cbv [mbind SE_bind lift]. destruct (value_from_slice payload'); simpl; by eexists.
Qed.

(** The checkpoint of a reachable LIVE book with two non-empty sides
    restores exactly that book: levels, position, state and fingerprint. *)
Theorem checkpoint_roundtrip `{!SerdeValueLaws Hval, !Sha256Laws Hsha} symbol b ck :
  book_reachable symbol b → in_scope (bk_symbol b) = true →
  bk_bids b ≠ [] → bk_asks b ≠ [] →
  checkpoint b = Ok ck → from_checkpoint ck = Ok b.
Proof.
  intros (Ob & Oa & Hf & Hu)%book_reachable_inv Hsym Nb Na H.
  unfold checkpoint in H. inv_ok H. subst ck.
  apply negb_false_iff, bool_decide_eq_true in Hx.
  assert (bk_fingerprint b = book_fp b) as Hfp by (apply Hf; by rewrite Hx).
  assert (uncrossed b) as Hun by (apply Hu; by rewrite Hx).
  unfold from_checkpoint.
  cbn [ck_schema ck_symbol ck_last_update_id ck_bids ck_asks ck_state_sha256].
  assert (is_digest (state_digest b) = true) as -> by apply is_digest_hex, length_sha256.
  simpl. unfold book_new. rewrite Hsym; simpl.
  pose proof (checkpoint_side_render (bk_bids b) "bid" true Ob Nb) as ->.
  pose proof (checkpoint_side_render (bk_asks b) "ask" false Oa Na) as ->. simpl.
  rewrite !xor_side_fp, xor_fp_zero_l. fold (book_fp b). rewrite <-Hfp, <-Hx, <-Hx0.
  replace (mkBook _ _ _ _ _ _) with b by by destruct b.
  rewrite (check_invariants_pass b Ob Oa Nb Na Hun). by rewrite String.eqb_refl.
Qed.

(** Two books in the same state pass the constant-time fingerprint comparison. *)
Lemma same_state_fingerprint_ok a b :
  book_ok a → book_ok b → bk_state a ≠ BookEmpty →
  same_state a b = true → same_state_fingerprint a b = true.
Proof.
  intros (_ & _ & Ha & _) (_ & _ & Hb & _) He Hs.
  unfold same_state in Hs. split_orb.
  repeat match goal with H : bool_decide _ = true |- _ => apply bool_decide_eq_true in H end.
  destruct (Ha He) as [Fa _]. destruct Hb as [Fb _]; [congruence|].
  assert (bk_fingerprint a = bk_fingerprint b) as Hf.
  { rewrite Fa, Fb. unfold book_fp. congruence. }
  unfold same_state_fingerprint. rewrite Hf.
  repeat match goal with H : _ a = _ b |- _ => rewrite H; clear H end.
  rewrite !bool_decide_eq_true_2, !Nat.eqb_refl by done. done.
Qed.

(** Two reachable books in the same state always pass the constant-time
    fingerprint comparison, so the comparison never reports a difference
    that is not there. *)
Theorem same_state_implies_same_fingerprint `{!SerdeValueLaws Hval} symbol symbol' a b :
  book_reachable symbol a → book_reachable symbol' b → bk_state a ≠ BookEmpty →
  same_state a b = true → same_state_fingerprint a b = true.
Proof. intros Ha%book_reachable_inv Hb%book_reachable_inv. by apply same_state_fingerprint_ok. Qed.
End book_claims.

(** ** A concrete book: the snapshot and updates of the crate's own tests *)

Module BookDemo.
#[export] Existing Instance toy_sha256.
#[export] Existing Instance toy_sha256_laws.
#[export] Existing Instance Json.serde.
#[export] Existing Instance Json.serde_laws.

Definition snapshot : bytes := Json.text
  "{'lastUpdateId':99,'bids':[['60000.1','0.25'],['59999.9','1']],'asks':[['60000.2','0.1'],['60000.3','2']]}".
Definition update : bytes := Json.text
  "{'e':'depthUpdate','s':'BTCUSDT','U':100,'u':102,'b':[['59999.9','0.5']],'a':[['60000.3','0']]}".
Definition gap_update : bytes := Json.text
  "{'e':'depthUpdate','s':'BTCUSDT','U':104,'u':104,'b':[],'a':[]}".
Definition wipe_update : bytes := Json.text
  "{'e':'depthUpdate','s':'BTCUSDT','U':103,'u':103,'b':[['60000.1','0'],['59999.9','0']],'a':[]}".

Definition fresh : LocalOrderBook := mkBook "BTCUSDT" BookEmpty None [] [] fp_zero.
Definition synced : LocalOrderBook := Eval vm_compute in (load_snapshot snapshot fresh).1.
Definition live : LocalOrderBook := Eval vm_compute in (apply_depth update synced).1.
Definition saved : OrderBookCheckpointV1 :=
  Eval vm_compute in (match checkpoint live with Ok ck => ck | _ => mkCheckpoint "" "" 0 [] [] "" end).

Lemma synced_reachable : book_reachable "BTCUSDT" synced.
Proof.
  eapply reach_step; [by apply (reach_new _ fresh)|].
  apply (step_snapshot _ _ snapshot (Ok 99)). vm_compute. reflexivity.
Qed.
Lemma live_reachable : book_reachable "BTCUSDT" live.
Proof.
  eapply reach_step; [apply synced_reachable|].
  apply (step_depth _ _ update (Ok Applied)). vm_compute. reflexivity.
Qed.
End BookDemo.

Section book_witnesses.
Import BookDemo.

Lemma book_invariant_witness : book_reachable "BTCUSDT" live ∧ book_ok live.
Proof.
  split; [apply live_reachable|].
  apply (book_invariant_all_histories "BTCUSDT"). apply live_reachable.
Defined.

Lemma apply_depth_refines_witness :
  apply_depth update synced = (live, Ok Applied) ∧
  ∃ value first_id final_id bids asks last,
    value_from_slice update = inr value ∧
    prepared_from value (PreparedApply first_id final_id bids asks) ∧
    bk_last_update_id synced = Some last ∧ first_id ≤ last + 1 ≤ final_id ∧
    bk_last_update_id live = Some final_id ∧ bk_state live = BookLive ∧
    side_map (bk_bids live) = foldl map_update (side_map (bk_bids synced)) bids ∧
    side_map (bk_asks live) = foldl map_update (side_map (bk_asks synced)) asks ∧
    bk_bids live ≠ [] ∧ bk_asks live ≠ [] ∧ uncrossed live.
Proof.
  split; [vm_compute; reflexivity|].
  apply (apply_depth_refines_map "BTCUSDT" update synced live);
    [apply synced_reachable|vm_compute; reflexivity].
Defined.

Lemma depth_gap_witness :
  (∃ e, apply_depth gap_update live = (set_state BookGap live, Err e)) ∧
  ∀ payload', ∃ e,
    apply_depth payload' (set_state BookGap live) = (set_state BookGap live, Err e).
Proof.
  destruct (value_from_slice gap_update) as [|value] eqn:E; [vm_compute in E; discriminate|].
  apply (depth_gap_detected_and_final gap_update value 104 104 102);
    try (vm_compute in E; injection E as <-; vm_compute; reflexivity);
    [lia|unfold in_u64, u64_max; lia].
Defined.

Lemma checkpoint_roundtrip_witness :
  checkpoint live = Ok saved ∧ from_checkpoint saved = Ok live.
Proof.
  split; [vm_compute; reflexivity|].
  apply (checkpoint_roundtrip "BTCUSDT"); [apply live_reachable|vm_compute; reflexivity| | |];
    [vm_compute; discriminate..|vm_compute; reflexivity].
Defined.

Lemma same_fingerprint_witness :
  same_state live live = true ∧ same_state_fingerprint live live = true.
Proof.
  split; [vm_compute; reflexivity|].
  apply (same_state_implies_same_fingerprint "BTCUSDT" "BTCUSDT");
    [apply live_reachable|apply live_reachable|vm_compute; discriminate|vm_compute; reflexivity].
Defined.

(** [check_invariants] marks a crossed book INVALID but only returns an error
    for an empty side: after an update that removes every bid the book has
    advanced, is still LIVE and [checkpoint] still succeeds, with a
    checkpoint that [from_checkpoint] refuses. *)
Theorem empty_side_stays_live :
  ∃ b ck, apply_depth wipe_update live = (b, Err "empty bid side") ∧
    bk_state b = BookLive ∧ bk_last_update_id b = Some 103 ∧ bk_bids b = [] ∧
    checkpoint b = Ok ck ∧ from_checkpoint ck = Err "book checkpoint has empty bid side".
Proof.
  eexists _, _. split; [vm_compute; reflexivity|].
  repeat (split; [vm_compute; reflexivity|]). vm_compute. reflexivity.
Qed.
End book_witnesses.
