(* ===== verification/RawLog.v ===== *)
(** * The BNRAW raw log (RawLogWriter, the readers, scans and recovery of lib.rs)

    A log file is the magic followed by records: a big-endian length, a JSON
    body, and the SHA-256 of the body. Each body names the digest of its
    predecessor, and frame indexes are contiguous per connection epoch and
    stream. A file is modelled by its bytes; opening it always succeeds, and
    the name and directory handling of the code is left out. *)

From stdpp Require Import base list strings option numbers gmap sorting.
From Stdlib Require Import ZArith Lia Ascii Strings.Byte.
From S2P Require Import Prelude External.
Local Open Scope Z_scope.

Definition MAGIC : bytes := [x42; x4e; x52; x41; x57; x00; x01; x0a].
Definition MAX_RECORD_BYTES : Z := 4 * 1024 * 1024.

(** ** Data *)

Record RawFrame := mkRawFrame {
  rf_venue : string; rf_environment : string; rf_endpoint : string; rf_symbol : string;
  rf_stream : string; rf_connection_epoch : string; rf_frame_index : Z;
  rf_receive_wall_ns : Z; rf_receive_mono_ns : Z; rf_payload : bytes;
  rf_clock_quality : string; rf_clock_source : string;
  rf_clock_offset_ns : option Z; rf_clock_uncertainty_ns : option Z;
  rf_recorder_state : string; rf_spec_revision : string
}.

Record RawRecordEnvelopeV1 := mkEnvelope {
  re_record_index : Z; re_start_offset : Z; re_end_offset : Z;
  re_record_sha256 : string; re_frame : RawFrame
}.

Record CapturedFrame := mkCaptured {
  cf_venue : string; cf_environment : string; cf_endpoint : string; cf_stream : string;
  cf_symbol : string; cf_connection_epoch : string; cf_frame_index : Z;
  cf_receive_wall_ns : Z; cf_receive_mono_ns : Z;
  cf_clock_quality : string; cf_clock_source : string;
  cf_payload : bytes; cf_spec_revision : string
}.

Record StreamDurabilityWatermarkV1 := mkWatermark {
  wm_connection_epoch : string; wm_stream : string; wm_durable_through_frame_index : Z
}.
#[global] Instance watermark_eq_decision : EqDecision StreamDurabilityWatermarkV1.
Proof. solve_decision. Defined.

Record DurabilityAckV1 := mkAck {
  ack_schema : string; ack_durable_record_count : Z; ack_durable_through_offset : Z;
  ack_last_record_sha256 : string; ack_streams : list StreamDurabilityWatermarkV1
}.
#[global] Instance ack_eq_decision : EqDecision DurabilityAckV1.
Proof. solve_decision. Defined.

Record AppendReceiptV1 := mkReceipt {
  rc_record_index : Z; rc_end_offset : Z; rc_record_sha256 : string;
  rc_durability_ack : option DurabilityAckV1
}.

Record RawLogScanV1 := mkScan {
  sc_file_size : Z; sc_records : Z; sc_last_good_offset : Z; sc_clean_eof : bool;
  sc_reason : option string; sc_last_record_sha256 : string;
  sc_streams : list StreamDurabilityWatermarkV1
}.

Record RawRecoveryV1 := mkRecovery {
  rv_source_file_size : Z; rv_copied_valid_prefix_bytes : Z; rv_excluded_tail_bytes : Z;
  rv_recovered_records : Z; rv_last_record_sha256 : string
}.

Record RawSegmentGenesisV1 := mkGenesis {
  gn_schema : string; gn_segment_index : Z; gn_previous_segment_terminal_sha256 : string;
  gn_connection_epoch : string; gn_stream : string; gn_next_frame_index : Z
}.

Record RawSegmentSealV1 := mkSeal {
  sl_schema : string; sl_segment_index : Z; sl_raw_file : string; sl_connection_epoch : string;
  sl_stream : string; sl_first_frame_index : Z; sl_last_frame_index : Z; sl_records : Z;
  sl_durable_through_offset : Z; sl_previous_segment_terminal_sha256 : string;
  sl_terminal_record_sha256 : string
}.
#[global] Instance seal_eq_decision : EqDecision RawSegmentSealV1.
Proof. solve_decision. Defined.

(** The JSON body of a record. *)
Record RawRecord := mkRecord {
  rr_schema : string; rr_venue : string; rr_environment : string; rr_endpoint : string;
  rr_stream : string; rr_symbol : string; rr_connection_epoch : string; rr_frame_index : Z;
  rr_receive_wall_ns : Z; rr_receive_mono_ns : Z; rr_clock_quality : string;
  rr_clock_source : string; rr_clock_offset_ns : option Z; rr_clock_uncertainty_ns : option Z;
  rr_payload_length : Z; rr_payload_sha256 : string; rr_payload_base64 : string;
  rr_recorder_state : string; rr_spec_revision : string; rr_previous_record_sha256 : string
}.

(** [HashMap<(String, String), u64>]: the next frame index of each
    (connection epoch, stream). *)
Abbreviation positions := (gmap (string * string) Z).

(** [trait DurableSink: Write] *)
Class DurableSink (S : Type) := {
  write_all : bytes → S → S * (string + unit);
  flush : S → S * (string + unit);
  sync_all : S → S * (string + unit)
}.

Record RawLogWriter (S : Type) := mkWriter {
  wr_sink : S; wr_previous_digest : string; wr_expected : positions; wr_sync_every : Z;
  wr_since_sync : Z; wr_record_count : Z; wr_end_offset : Z; wr_poisoned : bool;
  wr_last_ack : option DurabilityAckV1; wr_locked_identity : option (string * string)
}.
Arguments mkWriter {S}.
Arguments wr_sink {S}. Arguments wr_previous_digest {S}. Arguments wr_expected {S}.
Arguments wr_sync_every {S}. Arguments wr_since_sync {S}. Arguments wr_record_count {S}.
Arguments wr_end_offset {S}. Arguments wr_poisoned {S}. Arguments wr_last_ack {S}.
Arguments wr_locked_identity {S}.

(** ** Watermarks *)

Definition str_cmp_le (a b : string) : bool :=
  match String.compare a b with Gt => false | _ => true end.
Definition watermark_le (a b : StreamDurabilityWatermarkV1) : bool :=
  match String.compare (wm_connection_epoch a) (wm_connection_epoch b) with
  | Lt => true
  | Gt => false
  | Eq => str_cmp_le (wm_stream a) (wm_stream b)
  end.

(** [sort_by]: stable insertion. *)
Fixpoint insert_watermark (w : StreamDurabilityWatermarkV1) (l : list StreamDurabilityWatermarkV1)
    : list StreamDurabilityWatermarkV1 :=
  match l with
  | [] => [w]
  | x :: l => if watermark_le w x then w :: x :: l else x :: insert_watermark w l
  end.

Definition durability_watermarks (expected : positions) : list StreamDurabilityWatermarkV1 :=
  foldr insert_watermark []
    (omap (λ '((epoch, stream), next),
             (λ through, mkWatermark epoch stream through) <$> checked_sub next 1)
       (map_to_list expected)).

(** ** Segment identities *)

Definition validate_sha256 (value field : string) : res unit :=
  reject (negb (is_digest value)) (field ++ " must be a lowercase SHA-256 hex digest").

Definition validate_segment_genesis (g : RawSegmentGenesisV1) : res unit :=
  _ ← reject (negb (String.eqb (gn_schema g) "RawSegmentGenesisV1")
              || is_blank (gn_connection_epoch g) || is_blank (gn_stream g))
        "invalid raw segment genesis";
  _ ← validate_sha256 (gn_previous_segment_terminal_sha256 g) "previous_segment_terminal_sha256";
  let is_root := (gn_segment_index g =? 0)
    && String.eqb (gn_previous_segment_terminal_sha256 g) ZERO_DIGEST
    && (gn_next_frame_index g =? 0) in
  let is_successor := (0 <? gn_segment_index g)
    && negb (String.eqb (gn_previous_segment_terminal_sha256 g) ZERO_DIGEST)
    && (0 <? gn_next_frame_index g) in
  reject (negb is_root && negb is_successor)
    "raw segment genesis is neither a root nor a successor".

Definition seal_raw_segment (g : RawSegmentGenesisV1) (raw_file : string) (ack : DurabilityAckV1)
    : res RawSegmentSealV1 :=
  _ ← validate_segment_genesis g;
  _ ← reject (is_blank raw_file || negb (String.eqb (ack_schema ack) "DurabilityAckV1")
              || (ack_durable_record_count ack =? 0)
              || negb (length (ack_streams ack) =? 1)%nat) "invalid raw segment seal input";
  _ ← validate_sha256 (ack_last_record_sha256 ack) "last_record_sha256";
  watermark ← expect (ack_streams ack !! 0%nat);
  _ ← reject (negb (String.eqb (wm_connection_epoch watermark) (gn_connection_epoch g))
              || negb (String.eqb (wm_stream watermark) (gn_stream g))
              || (wm_durable_through_frame_index watermark <? gn_next_frame_index g))
        "raw segment seal identity or frame range mismatch";
  expected_records ← ok_or
    (checked_sub (wm_durable_through_frame_index watermark) (gn_next_frame_index g)
       ≫= λ distance, checked_add distance 1) "raw segment record range overflow";
  _ ← reject (negb (ack_durable_record_count ack =? expected_records))
        "raw segment ACK count does not match frame range";
  Ok (mkSeal "RawSegmentSealV1" (gn_segment_index g) raw_file (gn_connection_epoch g)
        (gn_stream g) (gn_next_frame_index g) (wm_durable_through_frame_index watermark)
        (ack_durable_record_count ack) (ack_durable_through_offset ack)
        (gn_previous_segment_terminal_sha256 g) (ack_last_record_sha256 ack)).

(** ** Length-prefixed, digest-terminated records

    The byte layout every journal of the crate shares. *)
Definition encode_record (body digest : bytes) : bytes :=
  to_be_bytes 4 (len body) ++ body ++ digest.

Inductive frame_read :=
  | FrameEof
  | FramePartialPrefix
  | FrameTooLong
  | FramePartialBody
  | FramePartialDigest
  | FrameRead (body digest rest : bytes).

(** [read(1)] at the end of the file, then [read_exact] of prefix, body and digest. *)
Definition read_frame (max : Z) (input : bytes) : frame_read :=
  if bool_decide (input = []) then FrameEof else
  if (length input <? 4)%nat then FramePartialPrefix else
  let body_length := from_be_bytes (take 4 input) in
  let rest := drop 4 input in
  if max <? body_length then FrameTooLong else
  if len rest <? body_length then FramePartialBody else
  let n := Z.to_nat body_length in
  let body := take n rest in
  let rest := drop n rest in
  if (length rest <? 32)%nat then FramePartialDigest else
  FrameRead body (take 32 rest) (drop 32 rest).

Section rawlog.
Context `{Hsha : Sha256} `{Hval : SerdeValue} `{Hrec : Serde RawRecord} `{Hb64 : Base64}.

(** ** The writer *)
Section writer.
Context {S : Type} `{Hsink : DurableSink S}.

Definition with_sink (w : RawLogWriter S) (s : S) : RawLogWriter S :=
  mkWriter s (wr_previous_digest w) (wr_expected w) (wr_sync_every w) (wr_since_sync w)
    (wr_record_count w) (wr_end_offset w) (wr_poisoned w) (wr_last_ack w) (wr_locked_identity w).
Definition poison (w : RawLogWriter S) (s : S) : RawLogWriter S :=
  mkWriter s (wr_previous_digest w) (wr_expected w) (wr_sync_every w) (wr_since_sync w)
    (wr_record_count w) (wr_end_offset w) true (wr_last_ack w) (wr_locked_identity w).

Definition initialize (sink : S) (sync_every : Z) (genesis : option RawSegmentGenesisV1)
    : res (RawLogWriter S) :=
  _ ← reject (sync_every =? 0) "sync_every must be positive";
  let '(sink, r) := write_all MAGIC sink in
  _ ← map_err "write raw magic: " r;
  let '(sink, r) := sync_all sink in
  _ ← map_err "sync raw magic: " r;
  let '(previous_digest, expected, locked_identity) :=
    match genesis with
    | Some g =>
        let identity := (gn_connection_epoch g, gn_stream g) in
        (gn_previous_segment_terminal_sha256 g,
         {[ identity := gn_next_frame_index g ]}, Some identity)
    | None => (ZERO_DIGEST, ∅, None)
    end in
  Ok (mkWriter sink previous_digest expected sync_every 0 0 (len MAGIC) false None
        locked_identity).

Definition from_sink (sink : S) (sync_every : Z) : res (RawLogWriter S) :=
  initialize sink sync_every None.
Definition from_sink_segment (sink : S) (sync_every : Z) (genesis : RawSegmentGenesisV1)
    : res (RawLogWriter S) :=
  _ ← validate_segment_genesis genesis; initialize sink sync_every (Some genesis).

Definition sync : SE (RawLogWriter S) DurabilityAckV1 :=
  w ← get;
  lift (reject (wr_poisoned w) "raw writer is poisoned");;
  let '(s1, r1) := flush (wr_sink w) in
  let '(s2, r2) := match r1 with inl e => (s1, inl e) | inr _ => sync_all s1 end in
  match r2 with
  | inl error =>
      put (poison w s2);; throw ("sync raw log; writer poisoned: " ++ error)
  | inr _ =>
      let ack := mkAck "DurabilityAckV1" (wr_record_count w) (wr_end_offset w)
                   (wr_previous_digest w) (durability_watermarks (wr_expected w)) in
      put (mkWriter s2 (wr_previous_digest w) (wr_expected w) (wr_sync_every w) 0
             (wr_record_count w) (wr_end_offset w) false (Some ack) (wr_locked_identity w));;
      mret ack
  end.

(** The record [append] serialises for a frame. *)
Definition record_of (previous : string) (f : CapturedFrame) : RawRecord :=
  mkRecord "RawFrameV1" (cf_venue f) (cf_environment f) (cf_endpoint f) (cf_stream f)
    (cf_symbol f) (cf_connection_epoch f) (cf_frame_index f) (cf_receive_wall_ns f)
    (cf_receive_mono_ns f) (cf_clock_quality f) (cf_clock_source f) None None
    (len (cf_payload f)) (hex (sha256 (cf_payload f))) (base64_encode (cf_payload f))
    "PENDING" (cf_spec_revision f) previous.

Definition frame_key (f : CapturedFrame) : string * string :=
  (cf_connection_epoch f, cf_stream f).

Definition append (f : CapturedFrame) : SE (RawLogWriter S) AppendReceiptV1 :=
  w ← get;
  lift (reject (wr_poisoned w) "raw writer is poisoned");;
  lift (reject (match wr_locked_identity w with
                | Some identity => negb (bool_decide (identity = frame_key f))
                | None => false
                end) "raw segment identity mismatch");;
  let next := default 0 (wr_expected w !! frame_key f) in
  lift (reject (negb (cf_frame_index f =? next))
          ("non-contiguous captured frame: expected " ++ u_to_string next
           ++ ", got " ++ u_to_string (cf_frame_index f)));;
  body ← lift (map_err "serialize raw record: " (to_vec (record_of (wr_previous_digest w) f)));
  lift (reject (MAX_RECORD_BYTES <? len body) "raw record exceeds maximum size");;
  lift (reject (u32_max <? len body) "raw record length does not fit u32");;
  let digest := sha256 body in
  let encoded := encode_record body digest in
  let '(s1, r1) := write_all encoded (wr_sink w) in
  match r1 with
  | inl error => put (poison w s1);; throw ("write raw record; writer poisoned: " ++ error)
  | inr _ =>
      next' ← lift (add_u64 next 1);
      record_count ← lift (add_u64 (wr_record_count w) 1);
      put (mkWriter s1 (hex digest) (<[frame_key f := next']> (wr_expected w))
             (wr_sync_every w) (wr_since_sync w) record_count (wr_end_offset w) false
             (wr_last_ack w) (wr_locked_identity w));;
      end_offset ← lift (ok_or (checked_add (wr_end_offset w) (len encoded)) "raw offset overflow");
      since_sync ← lift (add_u64 (wr_since_sync w) 1);
      put (mkWriter s1 (hex digest) (<[frame_key f := next']> (wr_expected w))
             (wr_sync_every w) since_sync record_count end_offset false
             (wr_last_ack w) (wr_locked_identity w));;
      durability_ack ← (if wr_sync_every w <=? since_sync
                        then ack ← sync; mret (Some ack) else mret None);
      mret (mkReceipt (wr_record_count w) end_offset (hex digest) durability_ack)
  end.

(** [Drop for RawLogWriter] *)
Definition drop_writer (w : RawLogWriter S) : RawLogWriter S :=
  if negb (wr_poisoned w) && (0 <? wr_since_sync w) then (sync w).1 else w.
End writer.

(** ** Readers *)

Definition valid_recorder_state (s : string) : bool :=
  String.eqb s "PENDING" || String.eqb s "DURABLE" || String.eqb s "FAILED".

(** What [read_next_raw_record] does with a body whose digest matches. *)
Definition read_body (value : Value) (previous : string) (digest : bytes) (body_length : Z)
    : SE positions (RawFrame * string * Z) :=
  schema ← lift (required_str value "schema");
  lift (reject (negb (String.eqb schema "RawFrameV1")) "unknown raw schema");;
  prev ← lift (required_str value "previous_record_sha256");
  lift (reject (negb (String.eqb prev previous)) "record chain mismatch");;
  state ← lift (required_str value "recorder_state");
  lift (reject (negb (valid_recorder_state state)) "invalid recorder state");;
  payload_base64 ← lift (required_str value "payload_base64");
  payload ← lift (map_err "invalid payload base64: " (base64_decode payload_base64));
  payload_length ← lift (required_u64 value "payload_length");
  lift (reject (negb (len payload =? payload_length)) "payload length mismatch");;
  payload_sha256 ← lift (required_str value "payload_sha256");
  lift (reject (negb (String.eqb (hex (sha256 payload)) payload_sha256)) "payload digest mismatch");;
  stream ← lift (required_str value "stream");
  connection_epoch ← lift (required_str value "connection_epoch");
  frame_index ← lift (required_u64 value "frame_index");
  expected ← get;
  let key := (connection_epoch, stream) in
  let next := default 0 (expected !! key) in
  put (<[key := next]> expected);;
  lift (reject (negb (frame_index =? next))
          ("non-contiguous frame index: expected " ++ u_to_string next ++ ", got "
           ++ u_to_string frame_index));;
  next' ← lift (add_u64 next 1);
  put (<[key := next']> expected);;
  venue ← lift (required_str value "venue");
  environment ← lift (required_str value "environment");
  endpoint ← lift (required_str value "endpoint");
  symbol ← lift (required_str value "symbol");
  receive_wall_ns ← lift (required_u64 value "receive_wall_ns");
  receive_mono_ns ← lift (required_u64 value "receive_mono_ns");
  clock_quality ← lift (required_str value "clock_quality");
  clock_source ← lift (required_str value "clock_source");
  recorder_state ← lift (required_str value "recorder_state");
  spec_revision ← lift (required_str value "spec_revision");
  mret (mkRawFrame venue environment endpoint symbol stream connection_epoch frame_index
          receive_wall_ns receive_mono_ns payload clock_quality clock_source
          (as_i64 (value_index value "clock_offset_ns"))
          (as_u64 (value_index value "clock_uncertainty_ns")) recorder_state spec_revision,
        hex digest, 4 + body_length + 32).

(** The rest of the input is returned beside the code's result. *)
Definition read_next_raw_record (input : bytes) (previous : string)
    : SE positions (option (RawFrame * string * Z * bytes)) :=
  match read_frame MAX_RECORD_BYTES input with
  | FrameEof => mret None
  | FramePartialPrefix => throw "partial length prefix"
  | FrameTooLong => throw "record length exceeds limit"
  | FramePartialBody => throw "partial record body"
  | FramePartialDigest => throw "partial record digest"
  | FrameRead body digest rest =>
      lift (reject (negb (bool_decide (sha256 body = digest))) "record digest mismatch");;
      value ← lift (map_err "invalid record JSON: " (value_from_slice body));
      '(frame, record_digest, n) ← read_body value previous digest (len body);
      mret (Some (frame, record_digest, n, rest))
  end.

(** [read_magic]: the rest of the input after the magic. *)
Definition read_magic (input : bytes) : res bytes :=
  if bool_decide (take 8 input = MAGIC) then Ok (drop 8 input) else Err "bad raw log magic".

(** Each turn consumes a record of at least 36 bytes, so [S (length input)]
    turns are enough ([records_loop_fuel]). *)
Fixpoint records_loop (fuel : nat) (input : bytes) (index start_offset : Z) (previous : string)
    : SE positions (list RawRecordEnvelopeV1) :=
  match fuel with
  | O => lift Panic
  | Datatypes.S fuel =>
    next ← read_next_raw_record input previous;
    match next with
    | None => mret []
    | Some (frame, digest, encoded_length, rest) =>
        end_offset ← lift (ok_or (checked_add start_offset encoded_length)
                             "raw record offset overflow");
        records ← records_loop fuel rest (index + 1) end_offset digest;
        mret (mkEnvelope index start_offset end_offset digest frame :: records)
    end
  end.

Definition read_raw_records_after_magic (input : bytes) (start_offset : Z) (previous : string)
    (expected : positions) : res (list RawRecordEnvelopeV1) :=
  (records_loop (Datatypes.S (length input)) input 0 start_offset previous expected).2.

Definition read_raw_records (file : bytes) : res (list RawRecordEnvelopeV1) :=
  rest ← read_magic file;
  read_raw_records_after_magic rest (len MAGIC) ZERO_DIGEST ∅.

Definition read_raw_log (file : bytes) : res (list RawFrame) :=
  records ← read_raw_records file; Ok (map re_frame records).

Definition read_raw_segment_records (file : bytes) (genesis : RawSegmentGenesisV1)
    : res (list RawRecordEnvelopeV1) :=
  _ ← validate_segment_genesis genesis;
  rest ← read_magic file;
  let identity := (gn_connection_epoch genesis, gn_stream genesis) in
  records ← read_raw_records_after_magic rest (len MAGIC)
    (gn_previous_segment_terminal_sha256 genesis) {[ identity := gn_next_frame_index genesis ]};
  _ ← reject (existsb (λ r, negb (bool_decide
                ((rf_connection_epoch (re_frame r), rf_stream (re_frame r)) = identity))) records)
        "raw segment identity mismatch";
  Ok records.

Definition read_raw_records_through_offset (file : bytes) (through : Z)
    : res (list RawRecordEnvelopeV1) :=
  _ ← reject (through <? len MAGIC) "raw prefix ends before magic";
  _ ← reject (len file <? through) "raw file is shorter than requested durable prefix";
  rest ← read_magic (take (Z.to_nat through) file);
  records ← read_raw_records_after_magic rest (len MAGIC) ZERO_DIGEST ∅;
  let end_ := default (len MAGIC) (re_end_offset <$> last records) in
  _ ← reject (negb (end_ =? through))
        "requested durable prefix does not end on a record boundary";
  Ok records.

Definition read_raw_record_range (file : bytes) (start_offset end_offset : Z)
    (previous_record_sha256 connection_epoch stream : string) (next_frame_index : Z)
    : res (list RawRecordEnvelopeV1) :=
  _ ← reject ((start_offset <? len MAGIC) || (end_offset <=? start_offset))
        "invalid raw record range";
  _ ← reject (len file <? end_offset) "raw file is shorter than requested record range";
  let window := take (Z.to_nat (end_offset - start_offset)) (drop (Z.to_nat start_offset) file) in
  records ← read_raw_records_after_magic window start_offset previous_record_sha256
    {[ (connection_epoch, stream) := next_frame_index ]};
  _ ← reject (negb (bool_decide (re_end_offset <$> last records = Some end_offset)))
        "raw record range does not end on the requested boundary";
  Ok records.

(** ** Scan and recovery *)

Record scan_state := mkScanState {
  ss_records : Z; ss_last_good_offset : Z; ss_previous : string; ss_reason : option string
}.

Fixpoint scan_loop (fuel : nat) (input : bytes) (records last_good_offset : Z)
    (previous : string) (locked_identity : option (string * string)) : SE positions scan_state :=
  match fuel with
  | O => lift Panic
  | Datatypes.S fuel => λ expected,
    match read_next_raw_record input previous expected with
    | (expected, Ok (Some (frame, digest, encoded_length, rest))) =>
        if match locked_identity with
           | Some identity => negb (bool_decide
               ((rf_connection_epoch frame, rf_stream frame) = identity))
           | None => false
           end
        then (expected, Ok (mkScanState records last_good_offset previous
                              (Some "raw segment identity mismatch")))
        else
          (records ← lift (add_u64 records 1);
           last_good_offset ← lift (ok_or (checked_add last_good_offset encoded_length)
                                      "raw scan offset overflow");
           scan_loop fuel rest records last_good_offset digest locked_identity) expected
    | (expected, Ok None) => (expected, Ok (mkScanState records last_good_offset previous None))
    | (expected, Err error) =>
        (expected, Ok (mkScanState records last_good_offset previous (Some error)))
    | (expected, Panic) => (expected, Panic)
    end
  end.

Definition scan_raw_log_from (file : bytes) (initial_previous : string) (expected : positions)
    (locked_identity : option (string * string)) : res RawLogScanV1 :=
  match read_magic file with
  | Ok rest =>
      let '(expected, r) :=
        scan_loop (Datatypes.S (length rest)) rest 0 (len MAGIC) initial_previous
          locked_identity expected in
      st ← r;
      Ok (mkScan (len file) (ss_records st) (ss_last_good_offset st)
            (negb (bool_decide (is_Some (ss_reason st)))) (ss_reason st) (ss_previous st)
            (durability_watermarks expected))
  | _ => Ok (mkScan (len file) 0 0 false (Some "bad raw log magic") initial_previous [])
  end.

Definition scan_raw_log (file : bytes) : res RawLogScanV1 :=
  scan_raw_log_from file ZERO_DIGEST ∅ None.

Definition scan_raw_segment (file : bytes) (genesis : RawSegmentGenesisV1) : res RawLogScanV1 :=
  _ ← validate_segment_genesis genesis;
  let identity := (gn_connection_epoch genesis, gn_stream genesis) in
  scan_raw_log_from file (gn_previous_segment_terminal_sha256 genesis)
    {[ identity := gn_next_frame_index genesis ]} (Some identity).

(** The copy is the first [last_good_offset] bytes of the source; the result
    is the report and the file written. *)
Definition recover_raw_log_prefix (source : bytes) : res (RawRecoveryV1 * bytes) :=
  source_scan ← scan_raw_log source;
  _ ← reject (sc_clean_eof source_scan) "source raw log already has a clean EOF";
  _ ← reject (sc_last_good_offset source_scan <? len MAGIC) "source has no recoverable BNRAW prefix";
  let destination := take (Z.to_nat (sc_last_good_offset source_scan)) source in
  let copied := len destination in
  _ ← reject (negb (copied =? sc_last_good_offset source_scan)) "short recovery copy";
  recovered_scan ← scan_raw_log destination;
  _ ← reject (negb (sc_clean_eof recovered_scan)
              || negb (sc_records recovered_scan =? sc_records source_scan)
              || negb (String.eqb (sc_last_record_sha256 recovered_scan)
                         (sc_last_record_sha256 source_scan)))
        "recovered raw prefix failed verification";
  Ok (mkRecovery (sc_file_size source_scan) copied (sc_file_size source_scan - copied)
        (sc_records recovered_scan) (sc_last_record_sha256 recovered_scan), destination).
End rawlog.

(** ** The record layout *)

Lemma length_encode_record body digest :
  len (encode_record body digest) = 4 + len body + len digest.
Proof.
  unfold encode_record. rewrite !len_app.
  assert (len (to_be_bytes 4 (len body)) = 4) as -> by (unfold len at 1; by rewrite length_to_be_bytes).
  lia.
Qed.

Lemma read_frame_encode max body digest rest :
  len body ≤ max → max ≤ u32_max → length digest = 32%nat →
  read_frame max (encode_record body digest ++ rest) = FrameRead body digest rest.
Proof.
  intros Hb Hm Hd. unfold read_frame, encode_record.
  set (prefix := to_be_bytes 4 (len body)).
  assert (length prefix = 4%nat) as Hp by apply length_to_be_bytes.
  rewrite bool_decide_eq_false_2.
  2: { intros E%(f_equal length). rewrite !length_app in E. simpl in E. lia. }
  rewrite (proj2 (Nat.ltb_ge _ _)) by (rewrite !length_app; lia).
  rewrite <-!app_assoc, take_app_length', drop_app_length' by done.
  assert (from_be_bytes prefix = len body) as ->.
  { apply from_to_be_bytes. pose proof (len_nonneg body). unfold u32_max in Hm. simpl. lia. }
  rewrite (proj2 (Z.ltb_ge _ _)) by done.
  rewrite (proj2 (Z.ltb_ge _ _)) by (rewrite !len_app; pose proof (len_nonneg (digest ++ rest));
    rewrite len_app in *; lia).
  assert (Z.to_nat (len body) = length body) as -> by (unfold len; lia).
  rewrite take_app_length', drop_app_length' by done.
  rewrite (proj2 (Nat.ltb_ge _ _)) by (rewrite length_app; lia).
  by rewrite take_app_length', drop_app_length' by done.
Qed.

Lemma read_frame_inv max input body digest rest :
  max ≤ u32_max → read_frame max input = FrameRead body digest rest →
  input = encode_record body digest ++ rest ∧ len body ≤ max ∧ length digest = 32%nat.
Proof.
  intros Hm. unfold read_frame. case_bool_decide; [done|].
  destruct (length input <? 4)%nat eqn:E4; [done|]. apply Nat.ltb_ge in E4.
  destruct (max <? _) eqn:Emax; [done|]. apply Z.ltb_ge in Emax.
  destruct (len (drop 4 input) <? _) eqn:Eb; [done|]. apply Z.ltb_ge in Eb.
  set (n := Z.to_nat (from_be_bytes (take 4 input))) in *.
  destruct (length (drop n (drop 4 input)) <? 32)%nat eqn:Ed; [done|]. apply Nat.ltb_ge in Ed.
  intros [= <- <- <-].
  assert (len (take n (drop 4 input)) = from_be_bytes (take 4 input)) as Hlen.
  { pose proof (from_be_bytes_range (take 4 input)). unfold len in *.
    rewrite length_take. unfold n. lia. }
  split_and!; [|lia|rewrite length_take; lia].
  unfold encode_record. rewrite Hlen.
  replace 4%nat with (length (take 4 input)) at 1 by (rewrite length_take; lia).
  rewrite to_from_be_bytes, <-!app_assoc, !take_drop. done.
Qed.

Lemma read_frame_shorter max input body digest rest :
  read_frame max input = FrameRead body digest rest → (length rest < length input)%nat.
Proof.
  unfold read_frame. repeat case_match; intros; simplify_eq.
  apply Nat.ltb_ge in H0. rewrite !length_drop. lia.
Qed.

(** A record cut short does not read. *)
Lemma read_frame_torn max body digest k b d r :
  len body ≤ max → max ≤ u32_max → length digest = 32%nat →
  (k < length (encode_record body digest))%nat →
  read_frame max (take k (encode_record body digest)) ≠ FrameRead b d r.
Proof.
  intros Hb Hm Hd Hk H.
  pose proof (length_encode_record body digest) as Hl.
  assert (4 ≤ k)%nat as H4.
  { destruct (decide (4 ≤ k)%nat); [done|]. exfalso. unfold read_frame in H.
    case_bool_decide; [done|]. rewrite (proj2 (Nat.ltb_lt _ _)) in H; [done|].
    rewrite length_take. lia. }
  apply read_frame_inv in H as (Hin & Hb' & Hd'); [|done].
  pose proof (length_encode_record b d) as Hl'. apply (f_equal (take 4)) in Hin as Hpre.
  rewrite take_take, Nat.min_l in Hpre by lia. unfold encode_record in Hpre.
  rewrite !take_app_le in Hpre by (rewrite ?length_app, length_to_be_bytes; lia).
  rewrite !take_ge in Hpre by (rewrite length_to_be_bytes; lia).
  apply (f_equal from_be_bytes) in Hpre.
  rewrite !from_to_be_bytes in Hpre
    by (pose proof (len_nonneg body); pose proof (len_nonneg b); unfold u32_max in Hm; simpl; lia).
  apply (f_equal length) in Hin. rewrite length_take, length_app in Hin. unfold len in *. lia.
Qed.

(** ** Documented behaviour of serialisation and of sinks *)

(** [serde_json::to_vec] of a [RawRecord] is a JSON object with its fields. *)
Definition record_fields `{SerdeValue} (v : Value) (r : RawRecord) : Prop :=
  let str f x := as_str (value_index v f) = Some x in
  let int f x := as_u64 (value_index v f) = Some x in
  str "schema" (rr_schema r) ∧ str "venue" (rr_venue r) ∧
  str "environment" (rr_environment r) ∧ str "endpoint" (rr_endpoint r) ∧
  str "stream" (rr_stream r) ∧ str "symbol" (rr_symbol r) ∧
  str "connection_epoch" (rr_connection_epoch r) ∧ int "frame_index" (rr_frame_index r) ∧
  int "receive_wall_ns" (rr_receive_wall_ns r) ∧ int "receive_mono_ns" (rr_receive_mono_ns r) ∧
  str "clock_quality" (rr_clock_quality r) ∧ str "clock_source" (rr_clock_source r) ∧
  as_i64 (value_index v "clock_offset_ns") = rr_clock_offset_ns r ∧
  as_u64 (value_index v "clock_uncertainty_ns") = rr_clock_uncertainty_ns r ∧
  int "payload_length" (rr_payload_length r) ∧ str "payload_sha256" (rr_payload_sha256 r) ∧
  str "payload_base64" (rr_payload_base64 r) ∧ str "recorder_state" (rr_recorder_state r) ∧
  str "spec_revision" (rr_spec_revision r) ∧
  str "previous_record_sha256" (rr_previous_record_sha256 r).

(** The [u64] fields of a record are in range. *)
Definition record_typed (r : RawRecord) : Prop :=
  in_u64 (rr_frame_index r) ∧ in_u64 (rr_receive_wall_ns r) ∧ in_u64 (rr_receive_mono_ns r) ∧
  in_u64 (rr_payload_length r) ∧ rr_clock_offset_ns r = None ∧ rr_clock_uncertainty_ns r = None.

Class RecordJsonLaws (Hval : SerdeValue) (Hrec : Serde RawRecord) : Prop :=
  record_json : ∀ r b, record_typed r → to_vec r = inr b →
    ∃ v, value_from_slice b = inr v ∧ record_fields v r.

(** What a sink holds and what of it has reached stable storage; a file is at
    most [u64::MAX] bytes, and nothing takes stable bytes back. *)
Class SinkLaws (S : Type) (H : DurableSink S) := {
  contents : S → bytes;
  synced : S → bytes;
  contents_u64 s : len (contents s) ≤ u64_max;
  write_all_contents b s s' : write_all b s = (s', inr ()) → contents s' = contents s ++ b;
  flush_contents s s' : flush s = (s', inr ()) → contents s' = contents s;
  sync_all_contents s s' :
    sync_all s = (s', inr ()) → contents s' = contents s ∧ synced s' = contents s;
  write_all_synced b s : synced s `prefix_of` synced (write_all b s).1;
  flush_synced s : synced s `prefix_of` synced (flush s).1;
  sync_all_synced s : synced s `prefix_of` synced (sync_all s).1
}.

Section rawlog_theory.
Context `{Hsha : Sha256} `{Hval : SerdeValue} `{Hrec : Serde RawRecord} `{Hb64 : Base64}.
Context `{!Sha256Laws Hsha} `{!RecordJsonLaws Hval Hrec} `{!Base64Laws Hb64}.

(** ** The log as a function of the captured frames *)

Definition frame_typed (f : CapturedFrame) : Prop :=
  in_u64 (cf_frame_index f) ∧ in_u64 (cf_receive_wall_ns f) ∧ in_u64 (cf_receive_mono_ns f) ∧
  in_u64 (len (cf_payload f)).

(** The frame a reader returns for a captured frame. *)
Definition frame_of (f : CapturedFrame) : RawFrame :=
  mkRawFrame (cf_venue f) (cf_environment f) (cf_endpoint f) (cf_symbol f) (cf_stream f)
    (cf_connection_epoch f) (cf_frame_index f) (cf_receive_wall_ns f) (cf_receive_mono_ns f)
    (cf_payload f) (cf_clock_quality f) (cf_clock_source f) None None "PENDING"
    (cf_spec_revision f).

(** Bytes of a chain of frames after digest [previous], and the last digest. *)
Fixpoint log_bytes (previous : string) (fs : list CapturedFrame) : option (bytes * string) :=
  match fs with
  | [] => Some ([], previous)
  | f :: fs =>
    match to_vec (record_of previous f) with
    | inl _ => None
    | inr body =>
      if MAX_RECORD_BYTES <? len body then None else
      '(bs, q) ← log_bytes (hex (sha256 body)) fs;
      Some (encode_record body (sha256 body) ++ bs, q)
    end
  end.

(** Frame indexes contiguous per (epoch, stream), from the given positions. *)
Fixpoint advance (E : positions) (fs : list CapturedFrame) : option positions :=
  match fs with
  | [] => Some E
  | f :: fs =>
    if (cf_frame_index f =? default 0 (E !! frame_key f)) && (cf_frame_index f <? u64_max)
    then advance (<[frame_key f := cf_frame_index f + 1]> E) fs else None
  end.

(** The envelopes a reader returns. *)
Fixpoint envelopes (index offset : Z) (previous : string) (fs : list CapturedFrame)
    : list RawRecordEnvelopeV1 :=
  match fs with
  | [] => []
  | f :: fs =>
    match to_vec (record_of previous f) with
    | inl _ => []
    | inr body =>
      let end_ := offset + (36 + len body) in
      mkEnvelope index offset end_ (hex (sha256 body)) (frame_of f)
        :: envelopes (index + 1) end_ (hex (sha256 body)) fs
    end
  end.

Lemma log_bytes_app p fs gs bs q :
  log_bytes p fs = Some (bs, q) →
  log_bytes p (fs ++ gs) = ('(cs, r) ← log_bytes q gs; Some (bs ++ cs, r)).
Proof.
  revert p bs. induction fs as [|f fs IH]; intros p bs; simpl.
  - intros [= <- <-]. by destruct (log_bytes p gs) as [[??]|].
  - destruct (to_vec _) as [|body]; [done|]. case_match; [done|].
    destruct (log_bytes _ fs) as [[bs1 q1]|] eqn:E; simpl; [|done].
    intros [= <- <-]. rewrite (IH _ _ E).
    destruct (log_bytes q1 gs) as [[??]|]; simpl; [|done]. by rewrite app_assoc.
Qed.

Lemma advance_app E fs gs : advance E (fs ++ gs) = (E' ← advance E fs; advance E' gs).
Proof.
  revert E. induction fs as [|f fs IH]; intros E; simpl; [done|].
  case_match; [apply IH|done].
Qed.

Lemma length_envelopes i o p fs bs q :
  log_bytes p fs = Some (bs, q) → length (envelopes i o p fs) = length fs.
Proof.
  revert i o p bs. induction fs as [|f fs IH]; intros i o p bs; simpl; [done|].
  destruct (to_vec _) as [|body]; [done|]. case_match; [done|].
  destruct (log_bytes _ fs) as [[bs1 q1]|] eqn:E; simpl; [|done].
  intros [= <- <-]. f_equal. by eapply IH.
Qed.

Lemma len_written body : len (encode_record body (sha256 body)) = 36 + len body.
Proof. rewrite length_encode_record. unfold len at 2. rewrite length_sha256. lia. Qed.

(** A record written after [p] is read back after [p], from the front of any
    input, and leaves the rest. *)
Lemma read_next_written p f body E rest :
  frame_typed f → to_vec (record_of p f) = inr body → len body ≤ MAX_RECORD_BYTES →
  cf_frame_index f = default 0 (E !! frame_key f) → cf_frame_index f < u64_max →
  read_next_raw_record (encode_record body (sha256 body) ++ rest) p E =
  (<[frame_key f := cf_frame_index f + 1]> E,
   Ok (Some (frame_of f, hex (sha256 body), 36 + len body, rest))).
Proof.
  intros (T1 & T2 & T3 & T4) Hbody Hlen Hidx Hmax.
  destruct (record_json (record_of p f) body) as (v & Hv & HF);
    [by split_and!|done|].
  unfold record_fields in HF; simpl in HF.
  destruct HF as (F1 & F2 & F3 & F4 & F5 & F6 & F7 & F8 & F9 & F10 & F11 & F12 & F13 & F14 &
    F15 & F16 & F17 & F18 & F19 & F20).
  unfold read_next_raw_record.
  rewrite read_frame_encode by (done || apply length_sha256).
  unfold read_body, required_str, required_u64.
  cbv [mbind SE_bind get put lift mret SE_ret reject ok_or].
  rewrite bool_decide_eq_true_2 by done. cbv [negb]. rewrite Hv. cbv [map_err].
  rewrite F1; cbn [String.eqb Ascii.eqb Bool.eqb]. rewrite F20, String.eqb_refl.
  rewrite F18. change (valid_recorder_state "PENDING") with true. cbv iota.
  rewrite F17, base64_decode_encode, F15, Z.eqb_refl, F16, String.eqb_refl, F5, F7, F8.
  fold (frame_key f). rewrite <-Hidx, Z.eqb_refl.
  assert (add_u64 (cf_frame_index f) 1 = Ok (cf_frame_index f + 1)) as ->
    by (apply add_u64_Ok; lia).
  rewrite F2, F3, F4, F6, F9, F10, F11, F12, F13, F14, F19. cbv iota.
  do 2 f_equal. f_equal. f_equal. f_equal. lia.
Qed.

Lemma read_next_shorter input p E E' frame d n rest :
  read_next_raw_record input p E = (E', Ok (Some (frame, d, n, rest))) →
  (length rest < length input)%nat.
Proof.
  unfold read_next_raw_record.
  destruct (read_frame MAX_RECORD_BYTES input) as [| | | | |body digest rest'] eqn:Ef; try done.
  apply read_frame_shorter in Ef. intros (? & ? & _ & H)%SE_bind_Ok.
  apply SE_bind_Ok in H as (? & ? & _ & H). apply SE_bind_Ok in H as ([[? ?] ?] & ? & _ & H).
  unfold mret, SE_ret in H. by simplify_eq.
Qed.

(** Enough turns: the loops never stop for lack of fuel. *)
Lemma records_loop_fuel fuel input i o p E :
  (length input < fuel)%nat →
  records_loop fuel input i o p E = records_loop (S (length input)) input i o p E.
Proof.
  revert input i o p E. assert (∀ n fuel input i o p E,
    (length input < n)%nat → (length input < fuel)%nat →
    records_loop fuel input i o p E = records_loop n input i o p E) as W.
  { induction n as [|n IH]; intros [|fuel'] input i o p E Hn Hf; [lia..|].
    cbn [records_loop]. unfold mbind, SE_bind.
    destruct (read_next_raw_record input p E) as [E1 [[[[[frame d] k] rest]|]| |]] eqn:Er;
      try done. apply read_next_shorter in Er. unfold lift.
    destruct (ok_or _ _); [|done..]. rewrite (IH fuel') by lia. done. }
  intros. apply W; lia.
Qed.

Lemma scan_loop_fuel fuel input k o p L E :
  (length input < fuel)%nat →
  scan_loop fuel input k o p L E = scan_loop (S (length input)) input k o p L E.
Proof.
  revert input k o p E. assert (∀ n fuel input k o p E,
    (length input < n)%nat → (length input < fuel)%nat →
    scan_loop fuel input k o p L E = scan_loop n input k o p L E) as W.
  { induction n as [|n IH]; intros [|fuel'] input k o p E Hn Hf; [lia..|].
    cbn [scan_loop].
    destruct (read_next_raw_record input p E) as [E1 [[[[[frame d] m] rest]|]| |]] eqn:Er;
      try done. apply read_next_shorter in Er. case_match; [done|].
    unfold mbind, SE_bind, lift. destruct (add_u64 k 1); [|done..].
    destruct (ok_or _ _); [|done..]. apply IH; lia. }
  intros. apply W; lia.
Qed.

(** Reading a written chain followed by anything: the written frames first,
    then whatever reading the rest from the chain's end state gives. *)
Lemma records_loop_chain fs bs p q E E' rest i o :
  Forall frame_typed fs → log_bytes p fs = Some (bs, q) → advance E fs = Some E' →
  o + len bs ≤ u64_max →
  records_loop (S (length (bs ++ rest))) (bs ++ rest) i o p E =
  match records_loop (S (length rest)) rest (i + len fs) (o + len bs) q E' with
  | (E'', Ok rs) => (E'', Ok (envelopes i o p fs ++ rs))
  | (E'', Err e) => (E'', Err e)
  | (E'', Panic) => (E'', Panic)
  end.
Proof.
  revert bs p E i o. induction fs as [|f fs IH]; intros bs p E i o HF Hlog Hadv Hmax.
  - simpl in Hlog, Hadv. simplify_eq. change ([] ++ rest) with rest.
    change (len (@nil CapturedFrame)) with 0. change (len (@nil byte)) with 0.
    rewrite !Z.add_0_r. cbn [envelopes app].
    destruct (records_loop _ _ _ _ _ _) as [? [| |]]; done.
  - apply Forall_cons in HF as [Hf HF]. cbn [log_bytes advance] in Hlog, Hadv.
    destruct (to_vec (record_of p f)) as [|body] eqn:Hbody; [done|].
    destruct (MAX_RECORD_BYTES <? len body) eqn:Hm; [done|]. apply Z.ltb_ge in Hm.
    destruct (log_bytes _ fs) as [[bs1 q1]|] eqn:Hlog1;
      cbv [mbind option_bind] in Hlog; [|done].
    apply (inj Some), pair_eq in Hlog as [<- <-].
    destruct (_ && _) eqn:Hc in Hadv; [|done]. apply andb_true_iff in Hc as [Hc1 Hc2].
    pose proof (len_written body) as Henc.
    rewrite len_app in Hmax. pose proof (len_nonneg bs1). pose proof (len_nonneg body).
    rewrite <-app_assoc. remember (S (length rest)) as n eqn:Hn. cbn [records_loop].
    unfold mbind at 1, SE_bind at 1.
    rewrite (read_next_written p f body E (bs1 ++ rest)) by (done || lia).
    unfold mbind at 1, SE_bind at 1, lift at 1.
    replace (checked_add o (36 + len body)) with (Some (o + (36 + len body)))
      by (symmetry; apply checked_add_Some; lia).
    cbn [ok_or]. unfold mbind at 1, SE_bind at 1.
    rewrite records_loop_fuel by (rewrite !length_app; unfold len in Henc; lia).
    rewrite (IH bs1 _ _ _ _ HF Hlog1 Hadv) by lia. rewrite <-?Hn.
    rewrite len_cons, len_app, Henc.
    replace (i + 1 + len fs) with (i + (1 + len fs)) by lia.
    replace (o + (36 + len body) + len bs1) with (o + (36 + len body + len bs1)) by lia.
    cbn [envelopes]. rewrite Hbody. destruct (records_loop _ _ _ _ _ _) as [? [| |]]; done.
Qed.

Definition all_identity (L : option (string * string)) (fs : list CapturedFrame) : Prop :=
  match L with Some identity => Forall (λ f, frame_key f = identity) fs | None => True end.

Lemma all_identity_tail L f fs : all_identity L (f :: fs) → all_identity L fs.
Proof. destruct L; [|done]. by intros [_ ?]%Forall_cons. Qed.

Lemma scan_loop_chain fs bs p q E E' rest k o L :
  Forall frame_typed fs → all_identity L fs →
  log_bytes p fs = Some (bs, q) → advance E fs = Some E' →
  o + len bs ≤ u64_max → 0 ≤ k → k + len fs ≤ u64_max →
  scan_loop (S (length (bs ++ rest))) (bs ++ rest) k o p L E =
  scan_loop (S (length rest)) rest (k + len fs) (o + len bs) q L E'.
Proof.
  revert bs p E k o. induction fs as [|f fs IH]; intros bs p E k o HF HL Hlog Hadv Hmax H0 Hk.
  - simpl in Hlog, Hadv. simplify_eq. change ([] ++ rest) with rest.
    change (len (@nil CapturedFrame)) with 0. change (len (@nil byte)) with 0.
    by rewrite !Z.add_0_r.
  - apply Forall_cons in HF as [Hf HF]. cbn [log_bytes advance] in Hlog, Hadv.
    destruct (to_vec (record_of p f)) as [|body] eqn:Hbody; [done|].
    destruct (MAX_RECORD_BYTES <? len body) eqn:Hm; [done|]. apply Z.ltb_ge in Hm.
    destruct (log_bytes _ fs) as [[bs1 q1]|] eqn:Hlog1;
      cbv [mbind option_bind] in Hlog; [|done].
    apply (inj Some), pair_eq in Hlog as [<- <-].
    destruct (_ && _) eqn:Hc in Hadv; [|done]. apply andb_true_iff in Hc as [Hc1 Hc2].
    pose proof (len_written body) as Henc.
    rewrite len_app in Hmax. rewrite len_cons in Hk.
    pose proof (len_nonneg bs1). pose proof (len_nonneg body). pose proof (len_nonneg fs).
    rewrite <-app_assoc. remember (S (length rest)) as n eqn:Hn. cbn [scan_loop].
    rewrite (read_next_written p f body E (bs1 ++ rest)) by (done || lia).
    assert (match L with
            | Some identity => negb (bool_decide ((rf_connection_epoch (frame_of f),
                                 rf_stream (frame_of f)) = identity))
            | None => false end = false) as ->.
    { destruct L as [identity|]; [|done]. apply Forall_cons in HL as [HL _].
      by rewrite bool_decide_eq_true_2. }
    unfold mbind, SE_bind, lift.
    replace (add_u64 k 1) with (Ok (k + 1)) by (symmetry; apply add_u64_Ok; lia).
    replace (checked_add o (36 + len body)) with (Some (o + (36 + len body)))
      by (symmetry; apply checked_add_Some; lia).
    cbn [ok_or].
    rewrite scan_loop_fuel by (rewrite !length_app; unfold len in Henc; lia).
    rewrite (IH bs1 _ _ _ _ HF (all_identity_tail _ _ _ HL) Hlog1 Hadv) by lia.
    rewrite len_cons, len_app, Henc. rewrite <-?Hn. f_equal; lia.
Qed.
End rawlog_theory.
