(* ===== verification/RawLogSafety.v ===== *)
(** * What the raw log guarantees

    Histories of writer calls, crash safety of acknowledged records, the
    scanner and the recovery of a damaged log, and tamper evidence of the
    digest chain. The models are in RawLog.v. *)

From stdpp Require Import base list strings option numbers gmap.
From Stdlib Require Import ZArith Lia Ascii Strings.Byte.
From S2P Require Import Prelude External RawLog.
Local Open Scope Z_scope.

(** ** Histories of calls on one writer *)

Inductive writer_op := OpAppend (f : CapturedFrame) | OpSync.

Section writer_runs.
Context `{Hsha : Sha256} `{Hrec : Serde RawRecord} `{Hb64 : Base64}.
Context {S : Type} `{Hsink : DurableSink S}.

(** The calls in order, going on after errors, up to a call that panics (of
    which only the sink survives, with what was stable before it); the second
    component lists the frames whose [append] returned [Ok]. *)
Fixpoint run_writer (ops : list writer_op) (w : RawLogWriter S) (accepted : list CapturedFrame)
    : RawLogWriter S * list CapturedFrame :=
  match ops with
  | [] => (w, accepted)
  | OpAppend f :: ops =>
      match append f w with
      | (w', Ok _) => run_writer ops w' (accepted ++ [f])
      | (w', Err _) => run_writer ops w' accepted
      | (_, Panic) => (w, accepted)
      end
  | OpSync :: ops =>
      match sync w with
      | (_, Panic) => (w, accepted)
      | (w', _) => run_writer ops w' accepted
      end
  end.
End writer_runs.

Definition op_typed (op : writer_op) : Prop :=
  match op with OpAppend f => frame_typed f | OpSync => True end.

Section writer_theory.
Context `{Hsha : Sha256} `{Hval : SerdeValue} `{Hrec : Serde RawRecord} `{Hb64 : Base64}.
Context `{!Sha256Laws Hsha} `{!RecordJsonLaws Hval Hrec} `{!Base64Laws Hb64}.
Context {S : Type} `{Hsink : DurableSink S} `{Hlaws : !SinkLaws S Hsink}.
Context (p0 : string) (E0 : positions) (L : option (string * string)).

(** [fs] written from the start of the log: bytes, last digest, positions. *)
Definition log_at (fs : list CapturedFrame) (bs : bytes) (q : string) (E : positions) : Prop :=
  Forall frame_typed fs ∧ all_identity L fs ∧
  log_bytes p0 fs = Some (bs, q) ∧ advance E0 fs = Some E.

Definition writer_clean (w : RawLogWriter S) (fs : list CapturedFrame) : Prop :=
  ∃ bs, log_at fs bs (wr_previous_digest w) (wr_expected w) ∧
    contents (wr_sink w) = MAGIC ++ bs ∧ wr_end_offset w = len MAGIC + len bs ∧
    wr_record_count w = len fs ∧ wr_locked_identity w = L.

(** [ack] describes [fs], and [fs] is on stable storage. *)
Definition acks (w : RawLogWriter S) (ack : DurabilityAckV1) (fs : list CapturedFrame) : Prop :=
  ∃ bs q E, log_at fs bs q E ∧ MAGIC ++ bs `prefix_of` synced (wr_sink w) ∧
    ack = mkAck "DurabilityAckV1" (len fs) (len MAGIC + len bs) q (durability_watermarks E).

Definition writer_inv (w : RawLogWriter S) (accepted : list CapturedFrame) : Prop :=
  (∀ ack, wr_last_ack w = Some ack → ∃ fs, fs `prefix_of` accepted ∧ acks w ack fs) ∧
  (wr_poisoned w = false → writer_clean w accepted).

(** A call that leaves earlier acknowledgements as they were. *)
Definition keeps (w w' : RawLogWriter S) : Prop :=
  wr_last_ack w' = wr_last_ack w ∧ synced (wr_sink w) `prefix_of` synced (wr_sink w').

Lemma acks_mono w w' ack fs :
  synced (wr_sink w) `prefix_of` synced (wr_sink w') → acks w ack fs → acks w' ack fs.
Proof. intros ? (bs & q & E & ? & ? & ?). exists bs, q, E. split_and!; try done. by etrans. Qed.

Lemma keeps_poisoned w w' accepted :
  keeps w w' → wr_poisoned w' = true → writer_inv w accepted → writer_inv w' accepted.
Proof.
  intros [Ha Hs] Hp [H1 _]. split; [|congruence]. rewrite Ha. intros ack Hack.
  destruct (H1 ack Hack) as (fs & ? & ?). exists fs. split; [done|]. by eapply acks_mono.
Qed.

Lemma sync_outcome w w' r :
  wr_poisoned w = false → sync w = (w', r) →
  (∃ e, r = Err e ∧ wr_poisoned w' = true ∧ keeps w w') ∨
  ∃ s, contents s = contents (wr_sink w) ∧ synced s = contents (wr_sink w) ∧
    synced (wr_sink w) `prefix_of` synced s ∧
    let ack := mkAck "DurabilityAckV1" (wr_record_count w) (wr_end_offset w)
                 (wr_previous_digest w) (durability_watermarks (wr_expected w)) in
    r = Ok ack ∧
    w' = mkWriter s (wr_previous_digest w) (wr_expected w) (wr_sync_every w) 0
           (wr_record_count w) (wr_end_offset w) false (Some ack) (wr_locked_identity w).
Proof.
  intros Hp. unfold sync. cbv [mbind SE_bind get lift reject]. rewrite Hp.
  pose proof (flush_synced (wr_sink w)) as Hf1.
  destruct (flush (wr_sink w)) as [s1 [e|[]]] eqn:Ef; simpl in Hf1.
  { cbv [put throw]. intros [= <- <-]. left. eexists. by split_and!. }
  apply flush_contents in Ef. pose proof (sync_all_synced s1) as Hf2.
  destruct (sync_all s1) as [s2 [e|[]]] eqn:Es; simpl in Hf2.
  { cbv [put throw]. intros [= <- <-]. left. eexists. split_and!; [done..|]. split; [done|].
    simpl. by etrans. }
  apply sync_all_contents in Es as [Es1 Es2].
  cbv [put mret SE_ret]. intros [= <- <-]. right. exists s2.
  split_and!; try done; [congruence..|by etrans].
Qed.

Lemma sync_inv w w' r accepted :
  writer_inv w accepted → sync w = (w', r) → writer_inv w' accepted.
Proof.
  intros [Hack Hclean] H. destruct (wr_poisoned w) eqn:Hp.
  - unfold sync in H. cbv [mbind SE_bind get lift reject] in H. rewrite Hp in H.
    injection H as <- <-. split; [done|congruence].
  - destruct (sync_outcome w w' r Hp H) as [(e & -> & Hp' & Hk)|(s & Hc & Hs & Hs' & _ & ->)].
    { eapply keeps_poisoned; [done..|]. split; [done|]. auto. }
    destruct (Hclean eq_refl) as (bs & Hlog & Hbs & Hend & Hn & Hl). split.
    + intros ack [= <-]. exists accepted. split; [done|].
      exists bs, (wr_previous_digest w), (wr_expected w). cbn [wr_sink].
      split_and!; [apply Hlog..|by rewrite Hs, Hbs|by rewrite Hn, Hend].
    + intros _. exists bs. split_and!; try apply Hlog; try done. by rewrite <-Hbs, <-Hc.
Qed.

(** A frame accepted by the guards extends the log. *)
Lemma log_at_snoc fs bs q E f body :
  log_at fs bs q E → frame_typed f →
  match L with Some identity => identity = frame_key f | None => True end →
  to_vec (record_of q f) = inr body → len body ≤ MAX_RECORD_BYTES →
  cf_frame_index f = default 0 (E !! frame_key f) → cf_frame_index f < u64_max →
  log_at (fs ++ [f]) (bs ++ encode_record body (sha256 body)) (hex (sha256 body))
    (<[frame_key f := cf_frame_index f + 1]> E).
Proof.
  intros (HF & HL & Hlog & Hadv) Hf Hid Hbody Hlen Hidx Hmax. split_and!.
  - by apply Forall_app_2; [|constructor].
  - destruct L; [|done]. apply Forall_app_2; [done|]. by constructor.
  - rewrite (log_bytes_app _ _ _ _ _ Hlog). cbn [log_bytes]. rewrite Hbody.
    rewrite (proj2 (Z.ltb_ge _ _)) by done. cbv [mbind option_bind]. by rewrite app_nil_r.
  - rewrite advance_app, Hadv. cbn [mbind option_bind advance].
    rewrite <-Hidx, Z.eqb_refl. by rewrite (proj2 (Z.ltb_lt _ _)).
Qed.

(** The writer between the write and the periodic sync. *)
Definition written (w : RawLogWriter S) (f : CapturedFrame) (body : bytes) (s : S)
    : RawLogWriter S :=
  mkWriter s (hex (sha256 body)) (<[frame_key f := cf_frame_index f + 1]> (wr_expected w))
    (wr_sync_every w) (wr_since_sync w + 1) (wr_record_count w + 1)
    (wr_end_offset w + len (encode_record body (sha256 body))) false
    (wr_last_ack w) (wr_locked_identity w).

Lemma append_outcome w w' r f fs :
  wr_poisoned w = false → writer_clean w fs → frame_typed f → append f w = (w', r) →
  r = Panic ∨ (∃ e, r = Err e ∧ w' = w) ∨
  (∃ e, r = Err e ∧ wr_poisoned w' = true ∧ keeps w w') ∨
  ∃ body s, keeps w (written w f body s) ∧ writer_clean (written w f body s) (fs ++ [f]) ∧
    let stop := (written w f body s, Ok (mkReceipt (wr_record_count w)
                   (wr_end_offset (written w f body s)) (hex (sha256 body)) None)) in
    (w', r) = if wr_sync_every w <=? wr_since_sync w + 1
              then match sync (written w f body s) with
                   | (w2, Ok ack) =>
                       (w2, Ok (mkReceipt (wr_record_count w)
                          (wr_end_offset (written w f body s)) (hex (sha256 body)) (Some ack)))
                   | (w2, Err e) => (w2, Err e)
                   | (w2, Panic) => (w2, Panic)
                   end
              else stop.
Proof.
  intros Hp (bs & Hlog & Hbs & Hend & Hn & Hl) Hf. unfold append.
  cbv [mbind SE_bind get lift reject]. rewrite Hp.
  destruct (match wr_locked_identity w with Some _ => _ | None => _ end) eqn:Hid;
    [intros [= <- <-]; eauto|].
  destruct (negb (cf_frame_index f =? _)) eqn:Hidx; [intros [= <- <-]; eauto|].
  apply negb_false_iff, Z.eqb_eq in Hidx.
  destruct (to_vec _) as [e|body] eqn:Hbody; cbv [map_err]; [intros [= <- <-]; eauto|].
  destruct (MAX_RECORD_BYTES <? len body) eqn:Hm; [intros [= <- <-]; eauto|].
  apply Z.ltb_ge in Hm.
  destruct (u32_max <? len body) eqn:Hu; [intros [= <- <-]; eauto|].
  pose proof (write_all_synced (encode_record body (sha256 body)) (wr_sink w)) as Hsy.
  destruct (write_all _ (wr_sink w)) as [s [e|[]]] eqn:Hw; simpl in Hsy.
  { cbv [put throw]. intros [= <- <-]. right; right; left. eexists. by split_and!. }
  apply write_all_contents in Hw. rewrite Hbs, <-app_assoc in Hw.
  assert (wr_end_offset w + len (encode_record body (sha256 body)) ≤ u64_max) as Hfit.
  { pose proof (contents_u64 s) as Hc. rewrite Hw, !len_app in Hc. lia. }
  rewrite <-Hidx. destruct (add_u64_cases (cf_frame_index f) 1) as [[-> Hmax]|[-> _]];
    [|intros [= <- <-]; eauto].
  destruct (add_u64_cases (wr_record_count w) 1) as [[-> _]|[-> _]];
    [|intros [= <- <-]; eauto]. cbv [put].
  replace (checked_add (wr_end_offset w) (len (encode_record body (sha256 body)))) with
    (Some (wr_end_offset w + len (encode_record body (sha256 body))))
    by (symmetry; by apply checked_add_Some).
  cbv [ok_or].
  destruct (add_u64_cases (wr_since_sync w) 1) as [[-> _]|[-> _]];
    [|intros [= <- <-]; eauto]. fold (written w f body s).
  intros H. right; right; right. exists body, s.
  split; [by split|]. split.
  { exists (bs ++ encode_record body (sha256 body)). cbn [written wr_previous_digest wr_expected
      wr_sink wr_end_offset wr_record_count wr_locked_identity].
    split; [|rewrite len_app, Hend, Hn; split_and!; try done; [lia|by rewrite len_app]].
    eapply log_at_snoc; try done; [|lia].
    rewrite Hl in Hid. destruct L; [|done]. by apply negb_false_iff, bool_decide_eq_true in Hid. }
  cbn zeta. rewrite <-H. destruct (_ <=? _); [|done].
  by destruct (sync _) as [? [| |]].
Qed.

Lemma append_inv w w' r f accepted :
  writer_inv w accepted → frame_typed f → append f w = (w', r) →
  match r with
  | Ok _ => writer_inv w' (accepted ++ [f])
  | Err _ => writer_inv w' accepted
  | Panic => True
  end.
Proof.
  intros Hinv Hf H. destruct (wr_poisoned w) eqn:Hp.
  { unfold append in H. cbv [mbind SE_bind get lift reject] in H. rewrite Hp in H.
    by injection H as <- <-. }
  pose proof Hinv as [Hack Hclean]. specialize (Hclean Hp).
  destruct (append_outcome w w' r f accepted Hp Hclean Hf H)
    as [->|[(e & -> & ->)|[(e & -> & Hp' & Hk)|(body & s & [Ha Hs] & Hc & Hr)]]]; try done.
  { by eapply keeps_poisoned. }
  assert (writer_inv (written w f body s) (accepted ++ [f])) as Hw.
  { split; [|done]. rewrite Ha. intros ack Hack'.
    destruct (Hack ack Hack') as (fs & ? & ?). exists fs.
    split; [by apply prefix_app_r|by eapply acks_mono]. }
  cbn zeta in Hr. destruct (_ <=? _); [|by injection Hr as -> ->].
  destruct (sync (written w f body s)) as [w2 r2] eqn:Hsync.
  destruct (sync_outcome (written w f body s) _ _ eq_refl Hsync) as [(e & -> & Hp2 & Hk2)|(s2 & _ & _ & _ & -> & E2)].
  - injection Hr as -> ->. eapply keeps_poisoned; [|done|exact Hinv].
    destruct Hk2 as [? ?]. split; [congruence|by etrans].
  - injection Hr as -> ->. by eapply sync_inv.
Qed.

Lemma run_writer_inv ops w accepted w' accepted' :
  writer_inv w accepted → Forall op_typed ops →
  run_writer ops w accepted = (w', accepted') → writer_inv w' accepted'.
Proof.
  revert w accepted. induction ops as [|[f|] ops IH]; intros w accepted Hinv HF; simpl.
  - by intros [= <- <-].
  - apply Forall_cons in HF as [Hf HF].
    destruct (append f w) as [w1 [a|e|]] eqn:H1; intros H.
    + eapply IH; [|done..]. by apply (append_inv _ _ _ _ _ Hinv Hf H1).
    + eapply IH; [|done..]. by apply (append_inv _ _ _ _ _ Hinv Hf H1).
    + by simplify_eq.
  - apply Forall_cons in HF as [_ HF].
    destruct (sync w) as [w1 r1] eqn:H1. pose proof (sync_inv _ _ _ _ Hinv H1).
    destruct r1; intros Hr; try (by eapply IH). by simplify_eq.
Qed.
End writer_theory.

(** ** Reading arbitrary bytes *)

(** Case analysis on the calls that neither panic nor touch the state; the
    failing ones must be closed by [done]. *)
Ltac pure_calls :=
  repeat match goal with
  | |- context [match required_str ?v ?f with _ => _ end] =>
      destruct (required_str v f) eqn:?; [|done|by edestruct required_str_nopanic]
  | |- context [match required_u64 ?v ?f with _ => _ end] =>
      destruct (required_u64 v f) eqn:?; [|done|by edestruct required_u64_nopanic]
  | |- context [match map_err ?v ?f with _ => _ end] =>
      destruct (map_err v f) eqn:?; [|done|by edestruct @map_err_nopanic]
  | |- context [match reject ?v ?f with _ => _ end] =>
      lazymatch v with
      | negb (_ =? default _ _) => fail
      | _ => destruct (reject v f) eqn:?; [|done|by edestruct @reject_nopanic]
      end
  end.

Section reader_theory.
Context `{Hsha : Sha256} `{Hval : SerdeValue} `{Hb64 : Base64} `{!Sha256Laws Hsha}.

(** What a body says its predecessor is. *)
Definition body_previous (body : bytes) : option string :=
  match value_from_slice body with
  | inr v => as_str (value_index v "previous_record_sha256")
  | inl _ => None
  end.

Definition enc (body : bytes) : bytes := encode_record body (sha256 body).

(** A record that reads is the encoding of a body that names its
    predecessor, and reads the same before any other rest. *)
Lemma read_next_Some_inv input p E E' frame d n rest :
  read_next_raw_record input p E = (E', Ok (Some (frame, d, n, rest))) →
  ∃ body, input = enc body ++ rest ∧ d = hex (sha256 body) ∧ n = len (enc body) ∧
    body_previous body = Some p ∧
    ∀ rest', read_next_raw_record (enc body ++ rest') p E =
             (E', Ok (Some (frame, d, n, rest'))).
Proof.
  unfold read_next_raw_record at 1.
  destruct (read_frame MAX_RECORD_BYTES input) as [| | | | |body digest rest1] eqn:Ef; try done.
  apply read_frame_inv in Ef as (-> & Hlen & Hd); [|done].
  intros ([] & E1 & H1 & H)%SE_bind_Ok. unfold lift in H1. injection H1 as <- H1.
  apply reject_Ok, negb_false_iff, bool_decide_eq_true in H1. subst digest.
  apply SE_bind_Ok in H as (v & E2 & Hv & H). unfold lift in Hv. injection Hv as <- Hv.
  apply SE_bind_Ok in H as ([[fr d'] n'] & E3 & Hb & H).
  unfold mret, SE_ret in H. injection H as <- <- <- <- <-.
  exists body. split; [done|].
  assert (d' = hex (sha256 body) ∧ n' = len (enc body) ∧ body_previous body = Some p)
    as (-> & -> & Hprev).
  { apply map_err_Ok in Hv. unfold read_body in Hb. unfold body_previous. rewrite Hv.
    repeat (apply SE_bind_Ok in Hb as (? & ? & ? & Hb)).
    unfold mret, SE_ret in Hb. injection Hb as <- <- <- <-.
    split; [done|]. split; [unfold enc; rewrite len_written; lia|].
    repeat match goal with
    | H : lift _ _ = _ |- _ => unfold lift in H; injection H as ? H
    | H : reject _ _ = Ok _ |- _ => apply reject_Ok in H
    | H : negb _ = false |- _ => apply negb_false_iff in H
    | H : required_str _ _ = Ok _ |- _ => unfold required_str in H; apply ok_or_Ok in H
    | H : String.eqb _ p = true |- _ => apply String.eqb_eq in H
    end. congruence. }
  split_and!; try done. intros rest'. unfold read_next_raw_record, enc.
  rewrite read_frame_encode by (done || apply length_sha256).
  cbv [mbind SE_bind lift mret SE_ret reject]. rewrite bool_decide_eq_true_2 by done.
  cbv [negb]. rewrite Hv. by rewrite Hb.
Qed.

Lemma read_next_None_inv input p E E' :
  read_next_raw_record input p E = (E', Ok None) → input = [] ∧ E' = E.
Proof.
  unfold read_next_raw_record, read_frame.
  destruct (bool_decide (input = [])) eqn:Ei.
  - apply bool_decide_eq_true in Ei. intros [= <-]. done.
  - repeat case_match; try done. intros H'. exfalso.
    apply SE_bind_Ok in H' as (? & ? & _ & H').
    apply SE_bind_Ok in H' as (? & ? & _ & H'). apply SE_bind_Ok in H' as ([[? ?] ?] & ? & _ & H').
    by unfold mret, SE_ret in H'.
Qed.

(** Positions after [k] records from an empty table never exceed [k]. *)
Definition bounded (k : Z) (E : positions) : Prop := map_Forall (λ _ v, 0 ≤ v ≤ k) E.

Lemma read_next_bounded input p E k :
  0 ≤ k < u64_max → bounded k E →
  match read_next_raw_record input p E with
  | (E', r) => r ≠ Panic ∧ bounded (k + 1) E'
  end.
Proof.
  intros Hk HE.
  assert (bounded (k + 1) E) as HE1.
  { eapply map_Forall_impl; [exact HE|]. simpl. lia. }
  unfold read_next_raw_record. destruct (read_frame _ _); try done.
  unfold mbind at 1, SE_bind at 1, lift at 1.
  destruct (reject _ _) eqn:Er; [|done|by apply reject_nopanic in Er].
  unfold mbind at 1, SE_bind at 1, lift at 1.
  destruct (map_err _ _) as [v| |] eqn:Ev; [|done|by apply map_err_nopanic in Ev].
  unfold mbind at 1, SE_bind at 1.
  enough (match read_body v p digest (len body) E with
          | (E', r) => r ≠ Panic ∧ bounded (k + 1) E' end) as HB.
  { destruct (read_body _ _ _ _ _) as [E1 [[[? ?] ?]| |]]; by destruct HB. }
  unfold read_body. cbv [mbind SE_bind get put lift mret SE_ret]. pure_calls.
  match goal with |- context [default 0 (E !! ?key)] => set (ix := default 0 (E !! key)) in * end.
  assert (0 ≤ ix ≤ k) as Hd.
  { subst ix. destruct (E !! _) eqn:El; simpl; [|lia]. by apply (HE _ _ El). }
  destruct (reject (negb (_ =? ix)) _) eqn:Er'; [|split; [done|]|by apply reject_nopanic in Er'].
  2: { apply map_Forall_insert_2; [lia|done]. }
  destruct (add_u64_cases ix 1) as [[-> _]|[_ ?]]; [|lia].
  match goal with |- context [<[?key := ix + 1]> E] =>
    assert (bounded (k + 1) (<[key := ix + 1]> E)) by (apply map_Forall_insert_2; [lia|done]) end.
  pure_calls. done.
Qed.

Lemma records_loop_step input i o p E E1 frame d n rest :
  read_next_raw_record input p E = (E1, Ok (Some (frame, d, n, rest))) → o + n ≤ u64_max →
  records_loop (S (length input)) input i o p E =
  match records_loop (S (length rest)) rest (i + 1) (o + n) d E1 with
  | (E2, Ok rs) => (E2, Ok (mkEnvelope i o (o + n) d frame :: rs))
  | (E2, Err e) => (E2, Err e)
  | (E2, Panic) => (E2, Panic)
  end.
Proof.
  intros Hr Hn. pose proof (read_next_shorter _ _ _ _ _ _ _ _ Hr).
  remember (S (length rest)) as m eqn:Hm. cbn [records_loop].
  unfold mbind at 1, SE_bind at 1. rewrite Hr.
  unfold mbind at 1, SE_bind at 1, lift at 1.
  replace (checked_add o n) with (Some (o + n)) by (symmetry; by apply checked_add_Some).
  cbn [ok_or]. unfold mbind at 1, SE_bind at 1.
  rewrite records_loop_fuel by lia. rewrite <-Hm.
  by destruct (records_loop _ _ _ _ _ _) as [? [| |]].
Qed.

Lemma scan_loop_step input k o p E E1 frame d n rest :
  read_next_raw_record input p E = (E1, Ok (Some (frame, d, n, rest))) →
  o + n ≤ u64_max → k + 1 ≤ u64_max →
  scan_loop (S (length input)) input k o p None E =
  scan_loop (S (length rest)) rest (k + 1) (o + n) d None E1.
Proof.
  intros Hr Hn Hk. pose proof (read_next_shorter _ _ _ _ _ _ _ _ Hr).
  remember (S (length rest)) as m eqn:Hm. cbn [scan_loop]. rewrite Hr.
  unfold mbind, SE_bind, lift.
  replace (add_u64 k 1) with (Ok (k + 1)) by (symmetry; by apply add_u64_Ok).
  replace (checked_add o n) with (Some (o + n)) by (symmetry; by apply checked_add_Some).
  cbn [ok_or]. rewrite scan_loop_fuel by lia. by rewrite <-Hm.
Qed.

(** A prefix of bytes that do not read does not read either. *)
Lemma read_next_prefix_fails bad x p E :
  x `prefix_of` bad → x ≠ [] → is_ok (read_next_raw_record bad p E).2 = false →
  is_ok (read_next_raw_record x p E).2 = false.
Proof.
  intros [t ->] Hx Hbad.
  destruct (read_next_raw_record x p E) as [E' [[[[[fr d] n] rest]|]| |]] eqn:Hr; try done.
  - apply read_next_Some_inv in Hr as (body & -> & _ & _ & _ & Hloc).
    rewrite <-app_assoc, Hloc in Hbad. done.
  - apply read_next_None_inv in Hr as [-> _]. done.
Qed.

(** The split of any input into the records before the first problem and the
    rest, as the scanner finds it. *)
Record scanned (input : bytes) (i k o : Z) (p : string) (E : positions) (st : scan_state)
    (good bad : bytes) (rs : list RawRecordEnvelopeV1) (E2 : positions) : Prop := {
  scanned_split : input = good ++ bad;
  scanned_offset : ss_last_good_offset st = o + len good;
  scanned_records : records_loop (S (length good)) good i o p E = (E2, Ok rs);
  scanned_count : ss_records st = k + len rs;
  scanned_clean : ss_reason st = None ↔ bad = [];
  scanned_again : scan_loop (S (length good)) good k o p None E =
    (E2, Ok (mkScanState (ss_records st) (ss_last_good_offset st) (ss_previous st) None));
  scanned_maximal : ∀ x, x `prefix_of` bad → x ≠ [] →
    is_ok (records_loop (S (length (good ++ x))) (good ++ x) i o p E).2 = false
}.

Lemma scan_loop_total m input i k o p E :
  (length input < m)%nat → 0 ≤ k < o → o + len input ≤ u64_max → bounded k E →
  ∃ E' st good bad rs E2, scan_loop (S (length input)) input k o p None E = (E', Ok st) ∧
    scanned input i k o p E st good bad rs E2.
Proof.
  revert input i k o p E. induction m as [|m IH]; intros input i k o p E Hm Hk Ho HE; [lia|].
  pose proof (len_nonneg input).
  pose proof (read_next_bounded input p E k ltac:(lia) HE) as Hb.
  destruct (read_next_raw_record input p E) as [E1 [[[[[fr d] n] rest]|]|e|]] eqn:Hr.
  - destruct Hb as [_ Hb]. pose proof (read_next_shorter _ _ _ _ _ _ _ _ Hr).
    destruct (read_next_Some_inv _ _ _ _ _ _ _ _ Hr) as (body & Hin & -> & Hn & _ & Hloc).
    assert (36 ≤ n) by (rewrite Hn; unfold enc; rewrite len_written; pose proof (len_nonneg body); lia).
    assert (len input = n + len rest) as Hlen by (rewrite Hin, len_app; lia).
    destruct (IH rest (i + 1) (k + 1) (o + n) (hex (sha256 body)) E1)
      as (E' & st & good & bad & rs & E2 & Hs & [G1 G2 G3 G4 G5 G6 G7]); try lia; try done.
    exists E', st, (enc body ++ good), bad, (mkEnvelope i o (o + n) (hex (sha256 body)) fr :: rs), E2.
    pose proof (len_nonneg good). pose proof (len_nonneg bad). pose proof (len_nonneg rest).
    rewrite (scan_loop_step _ _ _ _ _ _ _ _ _ _ Hr) by lia. split; [done|].
    assert (o + n ≤ u64_max) by lia. assert (k + 1 ≤ u64_max) by lia. split.
    + by rewrite Hin, G1, app_assoc.
    + rewrite len_app. lia.
    + rewrite (records_loop_step _ _ _ _ _ _ _ _ _ _ (Hloc good)) by done. by rewrite G3.
    + rewrite len_cons. lia.
    + done.
    + by rewrite (scan_loop_step _ _ _ _ _ _ _ _ _ _ (Hloc good)).
    + intros x Hx Hne. rewrite <-app_assoc.
      rewrite (records_loop_step _ _ _ _ _ _ _ _ _ _ (Hloc (good ++ x))) by done.
      specialize (G7 x Hx Hne). revert G7.
      by destruct (records_loop _ (good ++ x) _ _ _ _) as [? [| |]].
  - destruct (read_next_None_inv _ _ _ _ Hr) as [-> ->].
    exists E, (mkScanState k o p None), [], [], [], E.
    split; [cbn [scan_loop length]; by rewrite Hr|]. split; try done; try (unfold len; simpl; lia).
    intros x Hx ?. by apply prefix_nil_inv in Hx.
  - exists E1, (mkScanState k o p (Some e)), [], input, [], E.
    assert (input ≠ []) as Hne by (intros ->; by destruct E).
    split; [cbn [scan_loop length]; by rewrite Hr|]. split; try done; try (unfold len; simpl; lia).
    intros x Hpre Hx.
    pose proof (read_next_prefix_fails input x p E Hpre Hx ltac:(by rewrite Hr)) as Hf.
    cbn [app records_loop]. unfold mbind at 1, SE_bind at 1. revert Hf.
    by destruct (read_next_raw_record x p E) as [? [| |]].
  - by destruct Hb.
Qed.
End reader_theory.

(** ** The digest chain *)

Section chain_theory.
Context `{Hsha : Sha256} `{Hval : SerdeValue} `{Hb64 : Base64} `{!Sha256Laws Hsha}.

Fixpoint chained (p : string) (bodies : list bytes) : Prop :=
  match bodies with
  | [] => True
  | b :: bodies => body_previous b = Some p ∧ chained (hex (sha256 b)) bodies
  end.
Definition tail_digest (p : string) (bodies : list bytes) : string :=
  default p ((λ b, hex (sha256 b)) <$> last bodies).

Lemma tail_digest_snoc p l b : tail_digest p (l ++ [b]) = hex (sha256 b).
Proof. unfold tail_digest. by rewrite last_snoc. Qed.
Lemma tail_digest_cons p b l : tail_digest p (b :: l) = tail_digest (hex (sha256 b)) l.
Proof. unfold tail_digest. destruct l as [|c l]; [done|]. rewrite last_cons_cons.
  by destruct (last (c :: l)) eqn:E; [|apply last_None in E]. Qed.

Lemma chained_snoc p l b :
  chained p (l ++ [b]) ↔ chained p l ∧ body_previous b = Some (tail_digest p l).
Proof.
  revert p. induction l as [|c l IH]; intros p; simpl.
  - unfold tail_digest. simpl. naive_solver.
  - rewrite IH, tail_digest_cons. naive_solver.
Qed.

Lemma records_loop_chained m input i o p E E' rs :
  (length input < m)%nat → records_loop (S (length input)) input i o p E = (E', Ok rs) →
  ∃ bodies, input = concat (enc <$> bodies) ∧ chained p bodies ∧
    map re_record_sha256 rs = (λ b, hex (sha256 b)) <$> bodies.
Proof.
  revert input i o p E rs. induction m as [|m IH]; intros input i o p E rs Hm H; [lia|].
  cbn [records_loop] in H. apply SE_bind_Ok in H as ([[[[fr d] n] rest]|] & E1 & Hr & H).
  - pose proof (read_next_shorter _ _ _ _ _ _ _ _ Hr).
    apply read_next_Some_inv in Hr as (body & Hin & -> & _ & Hp & _).
    apply SE_bind_Ok in H as (o' & E2 & _ & H). apply SE_bind_Ok in H as (rs1 & E3 & Hl & H).
    unfold mret, SE_ret in H. injection H as <- <-.
    rewrite records_loop_fuel in Hl by lia.
    apply IH in Hl as (bodies & -> & Hc & Hd); [|lia].
    exists (body :: bodies). cbn. by rewrite Hin, Hd.
  - apply read_next_None_inv in Hr as [-> _]. unfold mret, SE_ret in H.
    injection H as <- <-. by exists [].
Qed.

(** [body] is recorded in [file]. *)
Definition recorded_in (file body : bytes) : Prop := ∃ u v, file = u ++ enc body ++ v.

Lemma recorded_in_member file bodies b :
  file = MAGIC ++ concat (enc <$> bodies) → b ∈ bodies → recorded_in file b.
Proof.
  intros -> (l1 & l2 & ->)%list_elem_of_split.
  exists (MAGIC ++ concat (enc <$> l1)), (concat (enc <$> l2)).
  by rewrite fmap_app, concat_app, fmap_cons, <-!app_assoc.
Qed.

Lemma chained_unique p l1 l2 :
  length l1 = length l2 → chained p l1 → chained p l2 → tail_digest p l1 = tail_digest p l2 →
  l1 = l2 ∨ ∃ a b, a ∈ l1 ∧ b ∈ l2 ∧ a ≠ b ∧ sha256 a = sha256 b.
Proof.
  revert l2. induction l1 as [|a l1 IH] using rev_ind; intros l2 Hlen.
  { destruct l2; [by left|done]. }
  destruct l2 as [|b l2 _] using rev_ind; [rewrite length_app in Hlen; simpl in Hlen; lia|].
  rewrite !chained_snoc, !tail_digest_snoc. intros [H1 Ha] [H2 Hb] Hd%hex_inj.
  destruct (decide (a = b)) as [->|Hne].
  - destruct (IH l2) as [->|(x & y & ? & ? & ? & ?)]; try done.
    + rewrite !length_app in Hlen. simpl in Hlen. lia.
    + congruence.
    + by left.
    + right. exists x, y. split_and!; set_solver.
  - right. exists a, b. split_and!; set_solver.
Qed.

(** The log is tamper evident. Two files that both read without error,
    hold the same number of records and end in the same record digest are
    byte for byte equal, unless two different recorded bodies, one of each
    file, have the same SHA-256. *)
Theorem raw_log_tamper_evident file1 file2 rs1 rs2 :
  read_raw_records file1 = Ok rs1 → read_raw_records file2 = Ok rs2 →
  length rs1 = length rs2 →
  re_record_sha256 <$> last rs1 = re_record_sha256 <$> last rs2 →
  file1 = file2 ∨
  ∃ b1 b2, recorded_in file1 b1 ∧ recorded_in file2 b2 ∧ b1 ≠ b2 ∧ sha256 b1 = sha256 b2.
Proof.
  intros H1 H2 Hlen Hlast.
  assert (∀ file rs, read_raw_records file = Ok rs → ∃ bodies,
    file = MAGIC ++ concat (enc <$> bodies) ∧ chained ZERO_DIGEST bodies ∧
    map re_record_sha256 rs = (λ b, hex (sha256 b)) <$> bodies) as W.
  { intros file rs (rest & Hm & H)%res_bind_Ok. unfold read_magic in Hm.
    case_bool_decide as Hmagic; [|done]. injection Hm as <-.
    unfold read_raw_records_after_magic in H.
    destruct (records_loop _ _ _ _ _ _) as [E' r] eqn:Hl; simpl in H; subst r.
    eapply records_loop_chained in Hl as (bodies & Hb & Hc & Hd); [|apply Nat.lt_succ_diag_r].
    exists bodies. by rewrite <-Hb, <-Hmagic, take_drop. }
  destruct (W _ _ H1) as (l1 & E1 & C1 & D1), (W _ _ H2) as (l2 & E2 & C2 & D2).
  assert (∀ rs l, map re_record_sha256 rs = (λ b, hex (sha256 b)) <$> l →
    re_record_sha256 <$> last rs = (λ b, hex (sha256 b)) <$> last l) as Dl.
  { intros rs l D. apply (f_equal last) in D. by rewrite !fmap_last in D. }
  destruct (chained_unique ZERO_DIGEST l1 l2) as [->|(a & b & Ha & Hb & ? & ?)]; try done.
  - apply (f_equal length) in D1, D2. rewrite length_map, length_fmap in D1, D2. lia.
  - unfold tail_digest. by rewrite <-(Dl _ _ D1), <-(Dl _ _ D2), Hlast.
  - left. congruence.
  - right. exists a, b. split_and!; try done; by eapply recorded_in_member.
Qed.
End chain_theory.

(** ** Claims about whole files *)

Section rawlog_claims.
Context `{Hsha : Sha256} `{Hval : SerdeValue} `{Hrec : Serde RawRecord} `{Hb64 : Base64}.
Context `{!Sha256Laws Hsha} `{!RecordJsonLaws Hval Hrec} `{!Base64Laws Hb64}.
Context {S : Type} `{Hsink : DurableSink S} `{Hlaws : !SinkLaws S Hsink}.

(** A writer on an empty sink, as [from_sink] returns it. *)
Lemma from_sink_inv s n w :
  contents s = [] → from_sink s n = Ok w → writer_inv ZERO_DIGEST ∅ None w [].
Proof.
  intros Hc. unfold from_sink, initialize. destruct (n =? 0); [done|]. simpl.
  destruct (write_all MAGIC s) as [s1 [|[]]] eqn:Hw; [done|]. simpl.
  destruct (sync_all s1) as [s2 [|[]]] eqn:Hs; [done|]. simpl.
  apply write_all_contents in Hw. apply sync_all_contents in Hs as [Hs _].
  intros [= <-]. split; [done|]. intros _. exists [].
  split; [by split_and!|]. cbn [wr_sink wr_end_offset wr_record_count].
  rewrite app_nil_r. split_and!; try done. by rewrite Hs, Hw, Hc.
Qed.

Lemma read_magic_app rest : read_magic (MAGIC ++ rest) = Ok rest.
Proof. unfold read_magic. by rewrite take_app_length', drop_app_length', bool_decide_eq_true_2. Qed.

(** A written log, read from the bytes alone. *)
Lemma read_log_at fs bs q E :
  log_at ZERO_DIGEST ∅ None fs bs q E → len MAGIC + len bs ≤ u64_max →
  read_raw_records (MAGIC ++ bs) = Ok (envelopes 0 (len MAGIC) ZERO_DIGEST fs).
Proof.
  intros (HF & _ & Hlog & Hadv) Hmax. unfold read_raw_records. rewrite read_magic_app.
  cbn [mbind res_bind]. unfold read_raw_records_after_magic.
  pose proof (records_loop_chain fs bs _ q ∅ E [] 0 (len MAGIC) HF Hlog Hadv Hmax) as H.
  rewrite app_nil_r in H. rewrite H. change (records_loop (Datatypes.S (length [])) [] (0 + len fs)
     (len MAGIC + len bs) q E) with (E, Ok (@nil RawRecordEnvelopeV1)).
  cbv iota beta. by rewrite app_nil_r.
Qed.

Lemma envelopes_end i o p fs bs q :
  log_bytes p fs = Some (bs, q) →
  default o (re_end_offset <$> last (envelopes i o p fs)) = o + len bs.
Proof.
  revert i o p bs. induction fs as [|f fs IH]; intros i o p bs; cbn [log_bytes envelopes].
  { intros [= <- <-]. unfold len. simpl. lia. }
  destruct (to_vec _) as [|body]; [done|]. destruct (_ <? _); [done|].
  destruct (log_bytes _ fs) as [[bs1 q1]|] eqn:Hl; cbv [mbind option_bind]; [|done].
  intros Hbs. apply (inj Some), pair_eq in Hbs as [<- <-]. rewrite len_app, len_written.
  specialize (IH (i + 1) (o + (36 + len body)) _ bs1 Hl).
  destruct (envelopes (i + 1) _ _ fs) as [|e es] eqn:Ee.
  - cbn in IH |- *. lia.
  - rewrite last_cons_cons. destruct (last (e :: es)) eqn:El; [|by apply last_None in El].
    cbn in IH |- *. lia.
Qed.

(** The frames a reader hands out for a written log. *)
Lemma envelopes_frames i o p fs bs q :
  log_bytes p fs = Some (bs, q) → map re_frame (envelopes i o p fs) = map frame_of fs.
Proof.
  revert i o p bs q. induction fs as [|f fs IH]; intros i o p bs q; cbn [log_bytes envelopes]; [done|].
  destruct (to_vec _) as [|body]; [done|]. destruct (_ <? _); [done|].
  destruct (log_bytes _ fs) as [[bs1 q1]|] eqn:Hl; cbv [mbind option_bind]; [|done].
  intros _. cbn. f_equal. exact (IH _ _ _ _ _ Hl).
Qed.

(** C30: reading back what was written. After any sequence of [append] and
    [sync] calls on a writer over an empty sink, failed calls included, as
    long as the writer is not poisoned, [read_raw_log] on the sink's bytes
    returns exactly the frames whose [append] returned [Ok], in order. *)
Theorem raw_log_write_read s n w0 ops w accepted :
  contents s = [] → from_sink s n = Ok w0 → Forall op_typed ops →
  run_writer ops w0 [] = (w, accepted) → wr_poisoned w = false →
  read_raw_log (contents (wr_sink w)) = Ok (map frame_of accepted).
Proof.
  intros Hc Hw0 HF Hrun Hp.
  destruct (run_writer_inv _ _ _ _ _ _ _ _ (from_sink_inv s n w0 Hc Hw0) HF Hrun) as [_ H].
  destruct (H Hp) as (bs & Hlog & Hbs & _). unfold read_raw_log.
  pose proof (contents_u64 (wr_sink w)) as Hm. rewrite Hbs, len_app in Hm.
  rewrite Hbs, (read_log_at _ _ _ _ Hlog Hm). cbn [mbind res_bind].
  destruct Hlog as (_ & _ & Hlog & _). by rewrite (envelopes_frames _ _ _ _ _ _ Hlog).
Qed.

Lemma scan_raw_log_split file :
  take 8 file = MAGIC → len file ≤ u64_max →
  ∃ sc st good bad rs E2, scan_raw_log file = Ok sc ∧
    sc_last_good_offset sc = ss_last_good_offset st ∧ sc_records sc = ss_records st ∧
    sc_reason sc = ss_reason st ∧ sc_clean_eof sc = bool_decide (bad = []) ∧
    sc_file_size sc = len file ∧ sc_last_record_sha256 sc = ss_previous st ∧
    scanned (drop 8 file) 0 0 (len MAGIC) ZERO_DIGEST ∅ st good bad rs E2.
Proof.
  intros Hm Hl. assert (file = MAGIC ++ drop 8 file) as Hf by by rewrite <-Hm, take_drop.
  destruct (scan_loop_total (Datatypes.S (length (drop 8 file))) (drop 8 file) 0 0 (len MAGIC)
    ZERO_DIGEST ∅) as (E' & st & good & bad & rs & E2 & Hs & Hsc).
  - lia.
  - done.
  - rewrite Hf, len_app in Hl. done.
  - done.
  - unfold scan_raw_log, scan_raw_log_from, read_magic. rewrite bool_decide_eq_true_2 by done.
    rewrite Hs. cbn [mbind res_bind]. eexists _, st, good, bad, rs, E2.
    split; [reflexivity|]. cbn. split_and!; try done.
    pose proof (scanned_clean _ _ _ _ _ _ _ _ _ _ _ Hsc) as Hcl.
    destruct (ss_reason st); repeat case_bool_decide; naive_solver.
Qed.

Lemma read_split file st good bad rs E2 :
  take 8 file = MAGIC →
  scanned (drop 8 file) 0 0 (len MAGIC) ZERO_DIGEST ∅ st good bad rs E2 →
  file = (MAGIC ++ good) ++ bad ∧ read_raw_records (MAGIC ++ good) = Ok rs ∧
  ∀ x, x `prefix_of` bad → x ≠ [] → is_ok (read_raw_records (MAGIC ++ good ++ x)) = false.
Proof.
  intros Hm Hsc. split_and!.
  - by rewrite <-app_assoc, <-(scanned_split _ _ _ _ _ _ _ _ _ _ _ Hsc), <-Hm, take_drop.
  - unfold read_raw_records. rewrite read_magic_app. cbn [mbind res_bind].
    unfold read_raw_records_after_magic. by rewrite (scanned_records _ _ _ _ _ _ _ _ _ _ _ Hsc).
  - intros x Hx Hne. unfold read_raw_records. rewrite read_magic_app. cbn [mbind res_bind].
    by apply (scanned_maximal _ _ _ _ _ _ _ _ _ _ _ Hsc).
Qed.

(** [good] reads completely as [rs], and nothing longer within the file does. *)
Definition longest_readable (file good bad : bytes) (rs : list RawRecordEnvelopeV1) : Prop :=
  file = good ++ bad ∧ read_raw_records good = Ok rs ∧
  ∀ x, x `prefix_of` bad → x ≠ [] → is_ok (read_raw_records (good ++ x)) = false.

(** C39: the scanner is total and finds the longest readable prefix. On any
    file with the magic it returns a report, without panicking; the file
    splits at [last_good_offset] into bytes that [read_raw_records] reads
    completely, with [records] records, and a rest no part of which could be
    read as well; [clean_eof] says exactly that there is no rest. *)
Theorem scan_finds_longest_prefix file :
  take 8 file = MAGIC → len file ≤ u64_max →
  ∃ sc good bad rs, scan_raw_log file = Ok sc ∧ longest_readable file good bad rs ∧
    sc_last_good_offset sc = len good ∧ sc_records sc = len rs ∧
    sc_clean_eof sc = bool_decide (bad = []).
Proof.
  intros Hm Hl.
  destruct (scan_raw_log_split file Hm Hl)
    as (sc & st & good & bad & rs & E2 & Hs & Ho & Hr & _ & Hc & _ & _ & Hsc).
  destruct (read_split _ _ _ _ _ _ Hm Hsc) as (Hf & Hread & Hmax).
  exists sc, (MAGIC ++ good), bad, rs. split_and!; try done.
  - rewrite Ho, (scanned_offset _ _ _ _ _ _ _ _ _ _ _ Hsc), len_app. done.
  - by rewrite Hr, (scanned_count _ _ _ _ _ _ _ _ _ _ _ Hsc).
Qed.

(** Recovery of a damaged log. On any file with the magic that does not
    end cleanly, [recover_raw_log_prefix] succeeds; what it writes is a prefix of the
    source that reads completely and cannot be extended, and its report
    counts the records copied and the bytes left out. *)
Theorem recover_keeps_longest_prefix file sc :
  take 8 file = MAGIC → len file ≤ u64_max →
  scan_raw_log file = Ok sc → sc_clean_eof sc = false →
  ∃ rv good bad rs, recover_raw_log_prefix file = Ok (rv, good) ∧
    longest_readable file good bad rs ∧ bad ≠ [] ∧ rv_recovered_records rv = len rs ∧
    rv_copied_valid_prefix_bytes rv = len good ∧ rv_excluded_tail_bytes rv = len bad.
Proof.
  intros Hm Hl Hsc' Hcl.
  destruct (scan_raw_log_split file Hm Hl)
    as (sc1 & st & good & bad & rs & E2 & Hs & Ho & Hr & Hre & Hc & Hsz & Hd & Hsc).
  rewrite Hs in Hsc'. injection Hsc' as ->.
  destruct (read_split _ _ _ _ _ _ Hm Hsc) as (Hf & Hread & Hmax).
  assert (bad ≠ []) as Hbad by (rewrite Hc in Hcl; by apply bool_decide_eq_false in Hcl).
  assert (sc_last_good_offset sc = len (MAGIC ++ good)) as Hoff
    by (rewrite Ho, (scanned_offset _ _ _ _ _ _ _ _ _ _ _ Hsc), len_app; done).
  assert (take (Z.to_nat (sc_last_good_offset sc)) file = MAGIC ++ good) as Htake.
  { rewrite Hoff, Hf. unfold len. rewrite Nat2Z.id. by rewrite take_app_length. }
  assert (∃ sc2, scan_raw_log (MAGIC ++ good) = Ok sc2 ∧ sc_clean_eof sc2 = true ∧
    sc_records sc2 = sc_records sc ∧ sc_last_record_sha256 sc2 = sc_last_record_sha256 sc)
    as (sc2 & Hs2 & Hc2 & Hr2 & Hd2).
  { unfold scan_raw_log, scan_raw_log_from. rewrite read_magic_app.
    rewrite (scanned_again _ _ _ _ _ _ _ _ _ _ _ Hsc). eexists. split; [reflexivity|].
    cbn. by rewrite Hr, Hd. }
  exists (mkRecovery (len file) (len (MAGIC ++ good)) (len file - len (MAGIC ++ good))
            (sc_records sc2) (sc_last_record_sha256 sc2)), (MAGIC ++ good), bad, rs.
  split_and!; try done.
  - unfold recover_raw_log_prefix. rewrite Hs. cbn [mbind res_bind]. rewrite Hcl.
    cbn [reject]. rewrite (proj2 (Z.ltb_ge _ _)).
    2: { rewrite Hoff, len_app. pose proof (len_nonneg good). lia. }
    cbn [reject mbind res_bind]. rewrite Htake, Hoff, Z.eqb_refl. cbn [negb reject mbind res_bind].
    rewrite Hs2. cbn [mbind res_bind]. rewrite Hc2, Hr2, Hd2, Z.eqb_refl, String.eqb_refl.
    cbn [negb orb reject mbind res_bind]. by rewrite Hsz.
  - cbn. by rewrite Hr2, Hr, (scanned_count _ _ _ _ _ _ _ _ _ _ _ Hsc).
  - cbn [rv_excluded_tail_bytes]. rewrite Hf at 1. rewrite len_app. lia.
Qed.

Lemma advance_bounded E fs E' k :
  0 ≤ k → advance E fs = Some E' → bounded k E → bounded (k + len fs) E'.
Proof.
  revert E k. induction fs as [|f fs IH]; intros E k Hk; cbn [advance].
  { intros [= <-]. by rewrite Z.add_0_r. }
  destruct (_ && _) eqn:Hc; [|done]. apply andb_true_iff in Hc as [Hc _]. apply Z.eqb_eq in Hc.
  intros Hadv HE. rewrite len_cons, Z.add_assoc. apply (IH _ (k + 1) ltac:(lia) Hadv).
  apply map_Forall_insert_2.
  - rewrite Hc. destruct (E !! _) as [z|] eqn:El; cbn [from_option]; unfold id; [|lia].
    pose proof (HE _ _ El) as Hz. cbn beta in Hz. lia.
  - eapply map_Forall_impl; [exact HE|]. simpl. lia.
Qed.

Lemma log_bytes_len p fs bs q : log_bytes p fs = Some (bs, q) → len fs ≤ len bs.
Proof.
  revert p bs q. induction fs as [|f fs IH]; intros p bs q; cbn [log_bytes].
  { intros [= <- <-]. done. }
  destruct (to_vec _) as [|body]; [done|]. destruct (_ <? _); [done|].
  destruct (log_bytes _ fs) as [[bs1 q1]|] eqn:Hl; cbv [mbind option_bind]; [|done].
  intros Hbs. apply (inj Some), pair_eq in Hbs as [<- <-]. apply IH in Hl.
  rewrite len_cons, len_app, len_written. pose proof (len_nonneg body). lia.
Qed.

(** C1: acknowledged records survive a crash. Take any sequence of calls on a
    writer over an empty sink, the last acknowledgement [ack] the writer
    gave, and any file that begins with the bytes that were on stable
    storage, whatever follows them. Then the first [ack.durable_record_count]
    accepted frames can be read back exactly from the prefix [ack] names, and
    the scanner's [last_good_offset] and [records] reach at least what [ack]
    promised. *)
Theorem acked_records_survive_crash s n w0 ops w accepted ack disk :
  contents s = [] → from_sink s n = Ok w0 → Forall op_typed ops →
  run_writer ops w0 [] = (w, accepted) → wr_last_ack w = Some ack →
  synced (wr_sink w) `prefix_of` disk → len disk ≤ u64_max →
  let fs := take (Z.to_nat (ack_durable_record_count ack)) accepted in
  (∃ rs, read_raw_records_through_offset disk (ack_durable_through_offset ack) = Ok rs ∧
     map re_frame rs = map frame_of fs ∧ len rs = ack_durable_record_count ack) ∧
  ∃ sc, scan_raw_log disk = Ok sc ∧ ack_durable_record_count ack ≤ sc_records sc ∧
    ack_durable_through_offset ack ≤ sc_last_good_offset sc.
Proof.
  intros Hc Hw0 HF Hrun Hack Hdisk Hlen.
  destruct (run_writer_inv _ _ _ _ _ _ _ _ (from_sink_inv s n w0 Hc Hw0) HF Hrun) as [H _].
  destruct (H _ Hack) as (fs & [tl ->] & bs & q & E & Hlog & Hpre & ->). cbn zeta.
  cbn [ack_durable_record_count ack_durable_through_offset].
  replace (take (Z.to_nat (len fs)) (fs ++ tl)) with fs
    by (unfold len; by rewrite Nat2Z.id, take_app_length).
  destruct Hpre as [x1 Hx1], Hdisk as [x2 Hx2]. rewrite Hx1, <-!app_assoc in Hx2.
  set (t := x1 ++ x2) in Hx2. clearbody t.
  assert (len disk = len MAGIC + len bs + len t) as Hd by (rewrite Hx2, !len_app; lia).
  pose proof (len_nonneg bs). pose proof (len_nonneg t).
  assert (len MAGIC + len bs ≤ u64_max) as Hm by lia.
  pose proof Hlog as (HFs & _ & Hbytes & Hadv). split.
  - exists (envelopes 0 (len MAGIC) ZERO_DIGEST fs). split_and!.
    + unfold read_raw_records_through_offset.
      rewrite (proj2 (Z.ltb_ge _ _)) by lia. cbn [reject mbind res_bind].
      rewrite (proj2 (Z.ltb_ge _ _)) by lia. cbn [reject mbind res_bind].
      replace (take (Z.to_nat (len MAGIC + len bs)) disk) with (MAGIC ++ bs).
      2: { rewrite Hx2, app_assoc, <-len_app. unfold len. by rewrite Nat2Z.id, take_app_length. }
      pose proof (read_log_at _ _ _ _ Hlog Hm) as Hread. unfold read_raw_records in Hread.
      rewrite read_magic_app in *. cbn [mbind res_bind] in *. rewrite Hread.
      cbn [mbind res_bind]. by rewrite (envelopes_end _ _ _ _ _ _ Hbytes), Z.eqb_refl.
    + by eapply envelopes_frames.
    + unfold len. by rewrite (length_envelopes _ _ _ _ _ _ Hbytes).
  - pose proof (log_bytes_len _ _ _ _ Hbytes). pose proof (len_nonneg fs).
    assert (0 < len MAGIC) by done.
    pose proof (advance_bounded ∅ fs E 0 ltac:(lia) Hadv ltac:(done)) as HE.
    destruct (scan_loop_total (Datatypes.S (length t)) t 0 (0 + len fs) (len MAGIC + len bs) q E)
      as (E' & st & good & bad & rs & E2 & Hs & Hsc); try done; try lia.
    unfold scan_raw_log, scan_raw_log_from. rewrite Hx2, read_magic_app.
    rewrite (scan_loop_chain fs bs _ q ∅ E t 0 (len MAGIC) None HFs I Hbytes Hadv) by lia.
    rewrite Hs. cbn [mbind res_bind]. eexists. split; [reflexivity|]. cbn.
    pose proof (scanned_count _ _ _ _ _ _ _ _ _ _ _ Hsc).
    pose proof (scanned_offset _ _ _ _ _ _ _ _ _ _ _ Hsc).
    pose proof (len_nonneg rs). pose proof (len_nonneg good). lia.
Qed.
End rawlog_claims.

(** ** A concrete sink, codec and session *)

Module RawDemo.
#[export] Existing Instance toy_sha256.
#[export] Existing Instance toy_sha256_laws.
#[export] Existing Instance plain_base64.
#[export] Existing Instance plain_base64_laws.

Definition names : list string :=
  ["schema"; "environment"; "endpoint"; "stream"; "symbol"; "connection_epoch"; "frame_index";
   "receive_wall_ns"; "receive_mono_ns"; "clock_quality"; "clock_source"; "payload_length";
   "payload_sha256"; "payload_base64"; "recorder_state"; "spec_revision";
   "previous_record_sha256"; "venue"].
#[export] Instance wire_serde : SerdeValue := Wire.serde names.

Definition record_strings (r : RawRecord) : list string :=
  [rr_schema r; rr_environment r; rr_endpoint r; rr_stream r; rr_symbol r;
   rr_connection_epoch r; u_to_string (rr_frame_index r); u_to_string (rr_receive_wall_ns r);
   u_to_string (rr_receive_mono_ns r); rr_clock_quality r; rr_clock_source r;
   u_to_string (rr_payload_length r); rr_payload_sha256 r; rr_payload_base64 r;
   rr_recorder_state r; rr_spec_revision r; rr_previous_record_sha256 r; rr_venue r].
#[export] Instance record_serde : Serde RawRecord := {|
  to_vec r := inr (Wire.encode (record_strings r));
  from_slice _ := inl "unused"
|}.
#[export] Instance record_json_laws : RecordJsonLaws wire_serde record_serde.
Proof.
  intros r b (? & ? & ? & ? & Hoff & Hunc) [= <-].
  exists (Wire.WObject names (record_strings r)).
  split; [simpl; by rewrite Wire.decode_encode|].
  unfold record_fields. rewrite Hoff, Hunc.
  repeat split; try reflexivity; cbn -[u_to_string Wire.read_number];
    by apply Wire.read_number_print.
Qed.

(** Stable bytes, then bytes not yet synced. *)
Definition file_sink : Type := bytes * bytes.
Definition fits (s : file_sink) : bool := len (s.1 ++ s.2) <=? u64_max.
#[export] Instance file_durable_sink : DurableSink file_sink := {|
  write_all b s := if fits (s.1, s.2 ++ b) then ((s.1, s.2 ++ b), inr ()) else (s, inl "full");
  flush s := (s, inr ());
  sync_all s := ((s.1 ++ s.2, []), inr ())
|}.
#[export, refine] Instance file_sink_laws : SinkLaws file_sink file_durable_sink := {|
  contents s := if fits s then s.1 ++ s.2 else [];
  synced s := if fits s then s.1 else []
|}.
Proof.
  - intros s. unfold fits. destruct (_ <=? _) eqn:E; [by apply Z.leb_le|done].
  - intros b [s1 s2] s'. simpl. destruct (fits (s1, s2 ++ b)) eqn:E; [|done].
    intros [= <-]. rewrite E. simpl. replace (fits (s1, s2)) with true; [by rewrite app_assoc|].
    symmetry. unfold fits in *. simpl in *. rewrite app_assoc, len_app in E.
    pose proof (len_nonneg b). apply Z.leb_le. apply Z.leb_le in E. lia.
  - by intros s s' [= <-].
  - intros [s1 s2] s' [= <-]. unfold fits. simpl. by rewrite app_nil_r.
  - intros b [s1 s2]. simpl. destruct (fits (s1, s2 ++ b)) eqn:E; [|done]. simpl. rewrite E.
    by destruct (fits (s1, s2)); [|apply prefix_nil].
  - done.
  - intros [s1 s2]. unfold fits. simpl. rewrite app_nil_r.
    destruct (_ <=? _); [by exists s2|done].
Defined.

Definition frame (stream : string) (index : Z) : CapturedFrame :=
  mkCaptured "binance" "testnet" "wss://e" stream "BTCUSDT" "epoch-1" index (100 + index)
    (200 + index) "UNKNOWN" "host" [x7b; x7d] "rev1".
Definition ops : list writer_op :=
  [OpAppend (frame "depth" 0); OpAppend (frame "depth" 7); OpAppend (frame "trade" 0);
   OpSync; OpAppend (frame "depth" 1)].
Definition start : RawLogWriter file_sink :=
  Eval vm_compute in
  match from_sink ([], []) 100 with Ok w => w | _ => mkWriter ([], []) "" ∅ 0 0 0 0 true None None end.
Definition finish := Eval vm_compute in run_writer ops start [].
Definition ack : DurabilityAckV1 :=
  Eval vm_compute in default (mkAck "" 0 0 "" []) (wr_last_ack finish.1).
(** The file after a crash in the middle of the last record. *)
Definition torn : bytes :=
  Eval vm_compute in take (Z.to_nat (wr_end_offset finish.1 - 10)) (contents (wr_sink finish.1)).
Definition torn_scan : RawLogScanV1 :=
  Eval vm_compute in
  match scan_raw_log torn with Ok sc => sc | _ => mkScan 0 0 0 false None "" [] end.
Definition intact : bytes := Eval vm_compute in contents (wr_sink finish.1).
Definition intact_records : list RawRecordEnvelopeV1 :=
  Eval vm_compute in match read_raw_records intact with Ok rs => rs | _ => [] end.

Lemma ops_typed : Forall op_typed ops.
Proof. repeat constructor; vm_compute; congruence. Qed.
End RawDemo.

Section rawlog_witnesses.
Import RawDemo.

Lemma raw_log_tamper_witness :
  length intact_records = 3%nat ∧
  (intact = intact ∨ ∃ b1 b2, recorded_in intact b1 ∧ recorded_in intact b2 ∧ b1 ≠ b2 ∧
     sha256 b1 = sha256 b2).
Proof.
  split; [reflexivity|].
  apply (raw_log_tamper_evident intact intact intact_records intact_records);
    [vm_compute; reflexivity..|done|done].
Defined.

Lemma raw_log_write_read_witness :
  read_raw_log (contents (wr_sink finish.1)) =
  Ok (map frame_of [frame "depth" 0; frame "trade" 0; frame "depth" 1]).
Proof.
  apply (raw_log_write_read ([], []) 100 start ops finish.1);
    [reflexivity|vm_compute; reflexivity|apply ops_typed|vm_compute; reflexivity|reflexivity].
Defined.

Lemma scan_finds_longest_prefix_witness :
  ∃ sc good bad rs, scan_raw_log torn = Ok sc ∧ longest_readable torn good bad rs ∧
    sc_last_good_offset sc = len good ∧ sc_records sc = len rs ∧
    sc_clean_eof sc = bool_decide (bad = []).
Proof.
  apply (scan_finds_longest_prefix torn); [reflexivity|vm_compute; congruence].
Defined.

Lemma recover_keeps_longest_prefix_witness :
  sc_records torn_scan = 2 ∧
  ∃ rv good bad rs, recover_raw_log_prefix torn = Ok (rv, good) ∧
    longest_readable torn good bad rs ∧ bad ≠ [] ∧ rv_recovered_records rv = len rs ∧
    rv_copied_valid_prefix_bytes rv = len good ∧ rv_excluded_tail_bytes rv = len bad.
Proof.
  split; [reflexivity|].
  apply (recover_keeps_longest_prefix torn torn_scan);
    [reflexivity|vm_compute; congruence|vm_compute; reflexivity|reflexivity].
Defined.

Lemma acked_records_survive_crash_witness :
  ack_durable_record_count ack = 2 ∧
  (∃ rs, read_raw_records_through_offset torn (ack_durable_through_offset ack) = Ok rs ∧
     map re_frame rs = map frame_of [frame "depth" 0; frame "trade" 0] ∧
     len rs = ack_durable_record_count ack) ∧
  ∃ sc, scan_raw_log torn = Ok sc ∧ ack_durable_record_count ack ≤ sc_records sc ∧
    ack_durable_through_offset ack ≤ sc_last_good_offset sc.
Proof.
  split; [reflexivity|].
  apply (acked_records_survive_crash ([], []) 100 start ops finish.1 finish.2 ack torn);
    [reflexivity|vm_compute; reflexivity|apply ops_typed|vm_compute; reflexivity
    |vm_compute; reflexivity| |vm_compute; congruence].
  exists (drop (length (synced (wr_sink finish.1))) torn). vm_compute. reflexivity.
Defined.

(** The segment scanner inserts the position of a record before it compares
    the record's identity: for a segment of the depth stream followed by a
    trade record, the report counts one record and ends before the second,
    but its watermarks say the trade stream is durable through frame 0. *)
Theorem scan_streams_exceed_records :
  ∃ sc, scan_raw_segment intact
          (mkGenesis "RawSegmentGenesisV1" 0 ZERO_DIGEST "epoch-1" "depth" 0) = Ok sc ∧
    sc_records sc = 1 ∧ sc_reason sc = Some "raw segment identity mismatch" ∧
    sc_streams sc = [mkWatermark "epoch-1" "depth" 0; mkWatermark "epoch-1" "trade" 0].
Proof. eexists. split; [vm_compute; reflexivity|]. done. Qed.
End rawlog_witnesses.
