(* ===== verification/Replay.v ===== *)
(** * Session replay, audit and monitoring (the session functions of lib.rs)

    A session directory is modelled by the bytes of its three raw logs. The
    reports the code builds as JSON objects are records of the values it puts
    into them; the constant texts of the reports are left out. *)

From stdpp Require Import base list strings option numbers gmap sorting.
From Stdlib Require Import ZArith Lia Ascii Strings.Byte.
From S2P Require Import Prelude Decimal External OrderBook RawLog.
Local Open Scope Z_scope.

Record Session := mkSession {
  snapshot_bnraw : bytes; depth_bnraw : bytes; trade_bnraw : bytes
}.

Record ReplayResult := mkReplayResult {
  rp_symbol : string; rp_snapshot_last_update_id : Z; rp_final_update_id : Z;
  rp_depth_records : Z; rp_applied_records : Z; rp_old_records : Z;
  rp_first_applied_frame_index : Z; rp_bid_levels : Z; rp_ask_levels : Z;
  rp_best_bid : string; rp_best_ask : string; rp_spread : string; rp_state_sha256 : string
}.

(** Locals of the depth loops. *)
Record depth_acc := mkDepthAcc {
  da_book : LocalOrderBook; da_applied : Z; da_old : Z; da_first_applied : option Z
}.

(** [first_id], [previous_id] and the three counters of the trade loops. *)
Record trade_ids := mkTradeIds {
  ti_first : option Z; ti_previous : option Z;
  ti_missing : Z; ti_duplicate : Z; ti_out_of_order : Z
}.
Definition no_trades : trade_ids := mkTradeIds None None 0 0 0.

Record TradeIdentity := mkTradeIdentity { tr_records : Z; tr_ids : trade_ids }.

(** [qualities], [sources] and [permits_event_age]. *)
Record clock_acc := mkClock {
  ca_qualities : gset string; ca_sources : gset string; ca_permits_event_age : bool
}.
Definition clock_start : clock_acc := mkClock ∅ ∅ true.

Record DatasetAudit := mkAudit {
  au_symbol : string; au_snapshot_epoch : string;
  au_depth_epochs : gset string; au_trade_epochs : gset string; au_clock : clock_acc;
  au_replay : ReplayResult; au_trade_ids_contiguous : bool; au_validity : list string;
  au_trades : TradeIdentity
}.

Record TradeReport := mkTradeReport {
  tp_identity : TradeIdentity; tp_buyer_count : Z; tp_seller_count : Z;
  tp_buyer_qty : FixedDecimal; tp_seller_qty : FixedDecimal; tp_imbalance_ppm : Z
}.

Record MicrostructureReport := mkMonitor {
  mo_symbol : string; mo_snapshot_epoch : string;
  mo_depth_epochs : gset string; mo_trade_epochs : gset string; mo_clock : clock_acc;
  mo_snapshot_last_update_id : Z; mo_final_update_id : Z; mo_depth_records : Z;
  mo_applied : Z; mo_old : Z; mo_first_applied : Z;
  mo_trade_ids_contiguous : bool; mo_validity : list string;
  mo_bid_levels : Z; mo_ask_levels : Z; mo_best_bid : string; mo_best_ask : string;
  mo_spread : string; mo_top_bid_qty : string; mo_top_ask_qty : string;
  mo_top_imbalance_ppm : Z; mo_microprice_position_ppm : Z;
  mo_bid_5_qty : string; mo_ask_5_qty : string; mo_depth_5_imbalance_ppm : Z;
  mo_bid_20_qty : string; mo_ask_20_qty : string; mo_depth_20_imbalance_ppm : Z;
  mo_state_sha256 : string; mo_trades : TradeReport
}.

Definition clock_permits_one_way (frame : RawFrame) : bool :=
  String.eqb (rf_clock_quality frame) "SYNCHRONIZED"
  && bool_decide (is_Some (rf_clock_offset_ns frame))
  && bool_decide (is_Some (rf_clock_uncertainty_ns frame)).

Definition add_clock (acc : clock_acc) (frame : RawFrame) : clock_acc :=
  mkClock ({[rf_clock_quality frame]} ∪ ca_qualities acc)
    ({[rf_clock_source frame]} ∪ ca_sources acc)
    (ca_permits_event_age acc && clock_permits_one_way frame).

(** [first.get_or_insert(value)] *)
Definition get_or_insert {A} (o : option A) (a : A) : option A :=
  match o with Some _ => o | None => Some a end.

(** One trade ID: the part the two trade loops share. *)
Definition observe_trade_id (ids : trade_ids) (trade_id : Z) : res trade_ids :=
  let first := get_or_insert (ti_first ids) trade_id in
  match ti_previous ids with
  | None => Ok (mkTradeIds first (Some trade_id) (ti_missing ids) (ti_duplicate ids)
                  (ti_out_of_order ids))
  | Some previous =>
      if trade_id =? previous then
        duplicate ← add_u64 (ti_duplicate ids) 1;
        Ok (mkTradeIds first (Some trade_id) (ti_missing ids) duplicate (ti_out_of_order ids))
      else if trade_id <? previous then
        out_of_order ← add_u64 (ti_out_of_order ids) 1;
        Ok (mkTradeIds first (Some trade_id) (ti_missing ids) (ti_duplicate ids) out_of_order)
      else
        after ← add_u64 previous 1;
        if after <? trade_id then
          distance ← sub_u64 trade_id previous;
          skipped ← sub_u64 distance 1;
          missing ← ok_or (checked_add (ti_missing ids) skipped) "missing trade ID count overflow";
          Ok (mkTradeIds first (Some trade_id) missing (ti_duplicate ids) (ti_out_of_order ids))
        else
          Ok (mkTradeIds first (Some trade_id) (ti_missing ids) (ti_duplicate ids)
                (ti_out_of_order ids))
  end.

Definition ids_contiguous (ids : trade_ids) : bool :=
  (ti_missing ids =? 0) && (ti_duplicate ids =? 0) && (ti_out_of_order ids =? 0).
Definition validity_of (contiguous : bool) : list string :=
  ["RAW_INTEGRITY"; "BOOK_LIVE"] ++ (if contiguous then ["TRADE_IDS_CONTIGUOUS"] else []).
Definition epochs_of (frames : list RawFrame) : gset string :=
  list_to_set (map rf_connection_epoch frames).

Section replay.
Context `{Hsha : Sha256} `{Hval : SerdeValue} `{Hb64 : Base64}.
Context `{Haudit : Serde DatasetAudit} `{Hmonitor : Serde MicrostructureReport}.

(** One turn of the depth loop of [replay_session] and [monitor_session]. *)
Definition depth_step (acc : depth_acc) (frame : RawFrame) : res depth_acc :=
  let '(book, r) := apply_depth (rf_payload frame) (da_book acc) in
  outcome ← r;
  Ok match outcome with
     | Old => mkDepthAcc book (da_applied acc) (da_old acc + 1) (da_first_applied acc)
     | Applied => mkDepthAcc book (da_applied acc + 1) (da_old acc)
                    (get_or_insert (da_first_applied acc) (rf_frame_index frame))
     end.

Definition replay_session (session : Session) : res ReplayResult :=
  snapshots ← read_raw_log (snapshot_bnraw session);
  _ ← reject (negb (length snapshots =? 1)%nat) "session must contain exactly one snapshot";
  depth ← read_raw_log (depth_bnraw session);
  snapshot ← expect (snapshots !! 0%nat);
  book ← book_new (rf_symbol snapshot);
  let '(book, r) := load_snapshot (rf_payload snapshot) book in
  snapshot_id ← r;
  acc ← try_fold depth_step (mkDepthAcc book 0 0 None) depth;
  let book := da_book acc in
  _ ← reject (negb (bool_decide (bk_state book = BookLive))) "replay did not reach LIVE";
  bid ← best_bid book;
  ask ← best_ask book;
  final_update_id ← ok_or (bk_last_update_id book) "missing final ID";
  first_applied ← ok_or (da_first_applied acc) "no applied frame";
  spread ← decimal_checked_sub ask bid;
  Ok (mkReplayResult (bk_symbol book) snapshot_id final_update_id (len depth) (da_applied acc)
        (da_old acc) first_applied (len (bk_bids book)) (len (bk_asks book))
        (decimal_to_string bid) (decimal_to_string ask) (decimal_to_string spread)
        (state_digest book)).

(** The type and symbol checks of the trade loops. *)
Definition trade_value (frame : RawFrame) (expected_symbol : string) : res Value :=
  value ← map_err "invalid trade JSON: " (value_from_slice (rf_payload frame));
  e ← required_str value "e";
  _ ← reject (negb (String.eqb e "trade")) "unexpected trade type/symbol";
  s ← required_str value "s";
  _ ← reject (negb (String.eqb s expected_symbol)
              || negb (String.eqb (rf_symbol frame) expected_symbol))
        "unexpected trade type/symbol";
  Ok value.

Definition identity_step (expected_symbol : string) (ids : trade_ids) (frame : RawFrame)
    : res trade_ids :=
  value ← trade_value frame expected_symbol;
  trade_id ← required_u64 value "t";
  observe_trade_id ids trade_id.

Definition trade_identity_report (frames : list RawFrame) (expected_symbol : string)
    : res TradeIdentity :=
  _ ← reject (bool_decide (frames = [])) "trade log is empty";
  ids ← try_fold (identity_step expected_symbol) no_trades frames;
  Ok (mkTradeIdentity (len frames) ids).

Definition audit_session (session : Session) : res (DatasetAudit * string) :=
  snapshot_frames ← read_raw_log (snapshot_bnraw session);
  depth_frames ← read_raw_log (depth_bnraw session);
  trade_frames ← read_raw_log (trade_bnraw session);
  _ ← reject (negb (length snapshot_frames =? 1)%nat)
        "session must contain exactly one snapshot";
  snapshot ← expect (snapshot_frames !! 0%nat);
  let symbol := rf_symbol snapshot in
  replay ← replay_session session;
  trades ← trade_identity_report trade_frames symbol;
  let clock := foldl add_clock clock_start (snapshot_frames ++ depth_frames ++ trade_frames) in
  let contiguous := ids_contiguous (tr_ids trades) in
  let audit := mkAudit symbol (rf_connection_epoch snapshot) (epochs_of depth_frames)
                 (epochs_of trade_frames) clock replay contiguous (validity_of contiguous)
                 trades in
  canonical ← map_err "serialize canonical audit: " (to_vec audit);
  Ok (audit, hex (sha256 canonical)).

(** Locals of the loop of [trade_report]. *)
Record trade_acc := mkTradeAcc {
  ta_ids : trade_ids; ta_buyer_quantities : list FixedDecimal;
  ta_seller_quantities : list FixedDecimal; ta_clock : clock_acc; ta_epochs : gset string
}.

Definition trade_step (expected_symbol : string) (acc : trade_acc) (frame : RawFrame)
    : res trade_acc :=
  let epochs := {[rf_connection_epoch frame]} ∪ ta_epochs acc in
  let clock := add_clock (ta_clock acc) frame in
  value ← trade_value frame expected_symbol;
  trade_id ← required_u64 value "t";
  q ← required_str value "q";
  quantity ← decimal_parse q;
  _ ← reject (decimal_is_zero quantity || decimal_is_negative quantity)
        "trade quantity must be positive";
  buyer_is_maker ← ok_or (as_bool (value_index value "m")) "missing/invalid boolean field m";
  ids ← observe_trade_id (ta_ids acc) trade_id;
  Ok (if buyer_is_maker : bool
      then mkTradeAcc ids (ta_buyer_quantities acc) (ta_seller_quantities acc ++ [quantity])
             clock epochs
      else mkTradeAcc ids (ta_buyer_quantities acc ++ [quantity]) (ta_seller_quantities acc)
             clock epochs).

Definition trade_report (file : bytes) (expected_symbol : string) (clock : clock_acc)
    : res (TradeReport * gset string * clock_acc) :=
  frames ← read_raw_log file;
  _ ← reject (bool_decide (frames = [])) "trade log is empty";
  acc ← try_fold (trade_step expected_symbol) (mkTradeAcc no_trades [] [] clock ∅) frames;
  buyer_qty ← sum_decimals (ta_buyer_quantities acc);
  seller_qty ← sum_decimals (ta_seller_quantities acc);
  imbalance ← imbalance_ppm buyer_qty seller_qty;
  Ok (mkTradeReport (mkTradeIdentity (len frames) (ta_ids acc))
        (len (ta_buyer_quantities acc)) (len (ta_seller_quantities acc))
        buyer_qty seller_qty imbalance, ta_epochs acc, ta_clock acc).

Definition monitor_step (symbol : string) (acc : depth_acc * clock_acc) (frame : RawFrame)
    : res (depth_acc * clock_acc) :=
  _ ← reject (negb (String.eqb (rf_symbol frame) symbol)) "unexpected depth symbol";
  depth ← depth_step acc.1 frame;
  Ok (depth, add_clock acc.2 frame).

Definition monitor_session (session : Session) : res (MicrostructureReport * string) :=
  snapshots ← read_raw_log (snapshot_bnraw session);
  _ ← reject (negb (length snapshots =? 1)%nat) "session must contain exactly one snapshot";
  snapshot ← expect (snapshots !! 0%nat);
  let symbol := rf_symbol snapshot in
  book ← book_new symbol;
  let '(book, r) := load_snapshot (rf_payload snapshot) book in
  snapshot_id ← r;
  depth ← read_raw_log (depth_bnraw session);
  '(acc, clock) ← try_fold (monitor_step symbol)
    (mkDepthAcc book 0 0 None, add_clock clock_start snapshot) depth;
  let book := da_book acc in
  _ ← reject (negb (bool_decide (bk_state book = BookLive))) "replay did not reach LIVE";
  let top_bids := take 20 (reverse (bk_bids book)) in
  let top_asks := take 20 (bk_asks book) in
  _ ← reject ((length top_bids <? 20)%nat || (length top_asks <? 20)%nat)
        "book has fewer than 20 levels on one side";
  '(best_bid, top_bid_qty) ← expect (top_bids !! 0%nat);
  '(best_ask, top_ask_qty) ← expect (top_asks !! 0%nat);
  bid_5_qty ← sum_decimals (map snd (take 5 top_bids));
  ask_5_qty ← sum_decimals (map snd (take 5 top_asks));
  bid_20_qty ← sum_decimals (map snd top_bids);
  ask_20_qty ← sum_decimals (map snd top_asks);
  '(trades, trade_epochs, clock) ← trade_report (trade_bnraw session) symbol clock;
  let contiguous := ids_contiguous (tr_ids (tp_identity trades)) in
  final_update_id ← ok_or (bk_last_update_id book) "missing final ID";
  first_applied ← ok_or (da_first_applied acc) "no applied frame";
  spread ← decimal_checked_sub best_ask best_bid;
  top_imbalance ← imbalance_ppm top_bid_qty top_ask_qty;
  top_qty ← decimal_checked_add top_bid_qty top_ask_qty;
  microprice ← ratio_ppm top_bid_qty top_qty;
  depth_5 ← imbalance_ppm bid_5_qty ask_5_qty;
  depth_20 ← imbalance_ppm bid_20_qty ask_20_qty;
  let report := mkMonitor symbol (rf_connection_epoch snapshot) (epochs_of depth) trade_epochs
    clock snapshot_id final_update_id (len depth) (da_applied acc) (da_old acc) first_applied
    contiguous (validity_of contiguous) (len (bk_bids book)) (len (bk_asks book))
    (decimal_to_string best_bid) (decimal_to_string best_ask) (decimal_to_string spread)
    (decimal_to_string top_bid_qty) (decimal_to_string top_ask_qty) top_imbalance microprice
    (decimal_to_string bid_5_qty) (decimal_to_string ask_5_qty) depth_5
    (decimal_to_string bid_20_qty) (decimal_to_string ask_20_qty) depth_20
    (state_digest book) trades in
  canonical ← map_err "serialize canonical report: " (to_vec report);
  Ok (report, hex (sha256 canonical)).
End replay.

(** ** Reference semantics of a replay *)

Section replay_spec.
Context `{Hval : SerdeValue}.

(** First and final update ID of a depth frame. *)
Definition update_ids (frame : RawFrame) : option (Z * Z) :=
  match value_from_slice (rf_payload frame) with
  | inr value =>
      first ← as_u64 (value_index value "U"); final ← as_u64 (value_index value "u");
      Some (first, final)
  | inl _ => None
  end.

(** Following a stream of update ID ranges from position [last]: a range that
    ends at or before it is old, one that reaches it is applied and moves
    the position to its end, any other is a gap. *)
Fixpoint follow (last : Z) (ids : list (Z * Z)) : option (Z * Z * Z) :=
  match ids with
  | [] => Some (last, 0, 0)
  | (first, final) :: ids =>
      if final <=? last then '(l, a, o) ← follow last ids; Some (l, a, o + 1)
      else if first <=? last + 1 then '(l, a, o) ← follow final ids; Some (l, a + 1, o)
      else None
  end.

(** A book as two maps from price to quantity and a position. *)
Record spec_book := mkSpec {
  sp_last : Z; sp_bids : gmap FixedDecimal FixedDecimal; sp_asks : gmap FixedDecimal FixedDecimal
}.

Definition spec_depth (st : spec_book) (frame : RawFrame) : option spec_book :=
  match value_from_slice (rf_payload frame), update_ids frame with
  | inr value, Some (first, final) =>
      if final <=? sp_last st then Some st
      else if first <=? sp_last st + 1 then
        vb ← as_array (value_index value "b"); va ← as_array (value_index value "a");
        match try_map (λ v, parse_level v "bid") vb, try_map (λ v, parse_level v "ask") va with
        | Ok bids, Ok asks =>
            Some (mkSpec final (foldl map_update (sp_bids st) bids)
                    (foldl map_update (sp_asks st) asks))
        | _, _ => None
        end
      else None
  | _, _ => None
  end.
Definition spec_replay (st : spec_book) (frames : list RawFrame) : option spec_book :=
  foldl (λ o frame, st ← o; spec_depth st frame) (Some st) frames.
End replay_spec.

Definition represents (b : LocalOrderBook) (st : spec_book) : Prop :=
  bk_last_update_id b = Some (sp_last st) ∧
  side_map (bk_bids b) = sp_bids st ∧ side_map (bk_asks b) = sp_asks st.

Section replay_theory.
Context `{Hsha : Sha256} `{Hval : SerdeValue} `{Hb64 : Base64} `{!SerdeValueLaws Hval}.

Lemma spec_replay_None frames :
  foldl (λ o frame, st ← o; spec_depth st frame) None frames = None.
Proof. by induction frames. Qed.

Lemma depth_step_inv acc frame acc' st :
  book_ok (da_book acc) → represents (da_book acc) st → depth_step acc frame = Ok acc' →
  ∃ ids st', update_ids frame = Some ids ∧ spec_depth st frame = Some st' ∧
    book_ok (da_book acc') ∧ represents (da_book acc') st' ∧
    bk_symbol (da_book acc') = bk_symbol (da_book acc) ∧
    if ids.2 <=? sp_last st
    then da_applied acc' = da_applied acc ∧ da_old acc' = da_old acc + 1 ∧
         da_first_applied acc' = da_first_applied acc ∧ da_book acc' = da_book acc
    else ids.1 ≤ sp_last st + 1 ∧ sp_last st' = ids.2 ∧
         da_applied acc' = da_applied acc + 1 ∧ da_old acc' = da_old acc ∧
         da_first_applied acc' = get_or_insert (da_first_applied acc) (rf_frame_index frame) ∧
         bk_state (da_book acc') = BookLive ∧ uncrossed (da_book acc').
Proof.
  intros Hb (Hlast & Mb & Ma) H. unfold depth_step, apply_depth, apply_depth_value in H.
  cbv [mbind SE_bind lift res_bind] in H.
  destruct (map_err _ _) as [value| |] eqn:Ev; [|done..]. apply map_err_Ok in Ev.
  destruct (prepare_depth_value value (da_book acc)) as [b1 [u|e|]] eqn:Ep; [|done..].
  apply prepare_spec in Ep as (-> & Hacc & Hu & Hfrom & last & Hl & Hmax & Hat).
  rewrite Hlast in Hl. injection Hl as <-.
  destruct (apply_prepared_depth u (da_book acc)) as [b2 [o|e|]] eqn:Ea; [|done..].
  pose proof (apply_prepared_spec _ _ _ _ Hb Hu Ea) as [Hb2 Ho].
  injection H as <-. unfold update_ids, spec_depth. rewrite Ev.
  destruct u as [U u|U u bids asks].
  - destruct Hfrom as [HU Hu']. unfold required_u64 in HU, Hu'. apply ok_or_Ok in HU, Hu'.
    destruct Hat as [? ?]. exists (U, u), st. unfold update_ids. rewrite Ev, HU, Hu'.
    cbn [mbind option_bind snd]. rewrite (proj2 (Z.leb_le _ _)) by done.
    destruct o.
    + destruct Ho as (_ & ? & ? & ? & ? & ? & ? & _). done.
    + subst b2. by destruct acc.
  - destruct Hfrom as (HU & Hu' & vb & va & Hvb & Hva & Hpb & Hpa).
    unfold required_u64 in HU, Hu'. apply ok_or_Ok in HU, Hu'.
    destruct Hat as [? ?].
    destruct o.
    2: { exfalso. unfold apply_prepared_depth in Ea. step_se Ea. rewrite Hacc in Ea. simpl in Ea.
         rewrite Hlast in Ea. unfold checked_add in Ea. rewrite (proj2 (Z.leb_le _ _)) in Ea by lia.
         simpl in Ea. destruct (_ || _) in Ea; [done|].
         destruct (apply_side _ _ bids _) in Ea. destruct (apply_side _ _ asks _) in Ea.
         by destruct (check_invariants _) as [? [| |]] in Ea. }
    destruct Ho as (_ & ? & ? & ? & ? & last & [= <- <- <- <-] & Hl & _ &
      (Hsym & Hst & Hid & _ & _ & Mb' & Ma' & _) & _ & _ & Hun).
    exists (U, u), (mkSpec u (foldl map_update (sp_bids st) bids)
                      (foldl map_update (sp_asks st) asks)).
    unfold update_ids. rewrite Ev, HU, Hu'. cbn [mbind option_bind fst snd].
    rewrite (proj2 (Z.leb_gt _ _)) by lia. rewrite (proj2 (Z.leb_le _ _)) by lia.
    rewrite Hvb, Hva. cbn [mbind option_bind]. rewrite Hpb, Hpa.
    split_and!; try done. by rewrite <-Mb, <-Ma.
Qed.

Lemma depth_loop_inv frames acc acc' st :
  book_ok (da_book acc) → represents (da_book acc) st →
  try_fold depth_step acc frames = Ok acc' →
  ∃ ids st' a o, Forall2 (λ f i, update_ids f = Some i) frames ids ∧
    spec_replay st frames = Some st' ∧ follow (sp_last st) ids = Some (sp_last st', a, o) ∧
    book_ok (da_book acc') ∧ represents (da_book acc') st' ∧
    bk_symbol (da_book acc') = bk_symbol (da_book acc) ∧
    da_applied acc' = da_applied acc + a ∧ da_old acc' = da_old acc + o ∧
    0 ≤ a ∧ 0 ≤ o ∧ a + o = len frames.
Proof.
  revert acc st. induction frames as [|f frames IH]; intros acc st Hb Hr H; cbn [try_fold] in H.
  - injection H as <-. exists [], st, 0, 0. split_and!; try done; lia.
  - apply res_bind_Ok in H as (acc1 & H1 & H).
    destruct (depth_step_inv _ _ _ _ Hb Hr H1)
      as ([U u] & st1 & Hids & Hsp & Hb1 & Hr1 & Hsym & Hcase).
    destruct (IH _ _ Hb1 Hr1 H)
      as (ids & st' & a & o & HF & Hrep & Hfol & ? & ? & ? & Ha & Ho & ? & ? & ?).
    assert (spec_replay st (f :: frames) = Some st') as Hrep'.
    { unfold spec_replay in *. cbn [foldl mbind option_bind]. by rewrite Hsp. }
    cbn [fst snd] in Hcase. rewrite len_cons.
    destruct (u <=? sp_last st) eqn:Eu.
    + destruct Hcase as (Ha1 & Ho1 & _ & Hbk).
      assert (st1 = st) as -> by (revert Hsp; unfold spec_depth; rewrite Hids; simpl;
        rewrite Eu; destruct (value_from_slice _); naive_solver).
      exists ((U, u) :: ids), st', a, (o + 1). split_and!; try done; try lia; try congruence.
      * by constructor.
      * cbn [follow]. by rewrite Eu, Hfol.
    + destruct Hcase as (HU & Hst1 & Ha1 & Ho1 & _). rewrite Hst1 in Hfol.
      exists ((U, u) :: ids), st', (a + 1), o. split_and!; try done; try lia; try congruence.
      * by constructor.
      * cbn [follow]. rewrite Eu, (proj2 (Z.leb_le _ _)), Hfol by done. done.
Qed.

(** No update ID between the two positions is skipped. *)
Lemma follow_covers last ids final a o :
  follow last ids = Some (final, a, o) →
  last ≤ final ∧ ∀ n, last < n ≤ final → ∃ i, i ∈ ids ∧ i.1 ≤ n ≤ i.2.
Proof.
  revert last a o. induction ids as [|[U u] ids IH]; intros last a o; cbn [follow].
  { intros [= -> _ _]. split; lia. }
  destruct (u <=? last) eqn:Eu.
  - destruct (follow last ids) as [[[l a'] o']|] eqn:Ef; cbv [mbind option_bind]; [|done].
    intros [= -> _ _]. destruct (IH _ _ _ Ef) as [? IH']. split; [done|]. intros n Hn.
    destruct (IH' n Hn) as (i & ? & ?). exists i. split; [set_solver|done].
  - apply Z.leb_gt in Eu. destruct (U <=? last + 1) eqn:EU; [|done]. apply Z.leb_le in EU.
    destruct (follow u ids) as [[[l a'] o']|] eqn:Ef; cbv [mbind option_bind]; [|done].
    intros [= -> _ _]. destruct (IH _ _ _ Ef) as [? IH']. split; [lia|]. intros n Hn.
    destruct (decide (n ≤ u)).
    + exists (U, u). split; [set_solver|simpl; lia].
    + destruct (IH' n ltac:(lia)) as (i & ? & ?). exists i. split; [set_solver|done].
Qed.
End replay_theory.

(** ** Trade identities *)

Definition trade_id_of `{SerdeValue} (frame : RawFrame) : option Z :=
  match value_from_slice (rf_payload frame) with
  | inr value => as_u64 (value_index value "t")
  | inl _ => None
  end.

Section trade_theory.
Context `{Hval : SerdeValue}.

Fixpoint rising (p : Z) (ts : list Z) : Prop :=
  match ts with [] => True | t :: ts => p < t ∧ rising t ts end.

Lemma trade_value_parsed frame symbol v :
  trade_value frame symbol = Ok v → value_from_slice (rf_payload frame) = inr v.
Proof. intros H. unfold trade_value in H. inv_ok H. subst v. by eapply map_err_Ok. Qed.

Lemma identity_fold_ids symbol frames ids ids' :
  try_fold (identity_step symbol) ids frames = Ok ids' →
  ∃ ts, Forall2 (λ f t, trade_id_of f = Some t) frames ts ∧
    try_fold observe_trade_id ids ts = Ok ids'.
Proof.
  revert ids. induction frames as [|f frames IH]; intros ids H; cbn [try_fold] in H.
  - by exists [].
  - apply res_bind_Ok in H as (ids1 & H1 & H).
    apply res_bind_Ok in H1 as (v & Hv%trade_value_parsed & H1).
    apply res_bind_Ok in H1 as (t & Ht%ok_or_Ok & H1).
    destruct (IH _ H) as (ts & HF & Hts). exists (t :: ts). split.
    + constructor; [|done]. unfold trade_id_of. by rewrite Hv.
    + cbn [try_fold]. by rewrite H1.
Qed.

Lemma observe_cases ids p t ids' :
  ti_previous ids = Some p → observe_trade_id ids t = Ok ids' →
  ti_first ids' = get_or_insert (ti_first ids) t ∧ ti_previous ids' = Some t ∧
  ((t = p ∧ ti_duplicate ids' = ti_duplicate ids + 1 ∧
    ti_out_of_order ids' = ti_out_of_order ids ∧ ti_missing ids' = ti_missing ids) ∨
   (t < p ∧ ti_duplicate ids' = ti_duplicate ids ∧
    ti_out_of_order ids' = ti_out_of_order ids + 1 ∧ ti_missing ids' = ti_missing ids) ∨
   (p < t ∧ ti_duplicate ids' = ti_duplicate ids ∧
    ti_out_of_order ids' = ti_out_of_order ids ∧ ti_missing ids' = ti_missing ids + (t - p - 1))).
Proof.
  intros Hp H. unfold observe_trade_id in H. rewrite Hp in H.
  destruct (t =? p) eqn:E1.
  { inv_ok H. subst ids'. apply add_u64_Ok in Hx as [_ ->]. simpl. split_and!; try done.
    left. split_and!; try done. lia. }
  destruct (t <? p) eqn:E2.
  { inv_ok H. subst ids'. apply add_u64_Ok in Hx as [_ ->]. simpl. split_and!; try done.
    right; left. split_and!; try done. lia. }
  apply Z.eqb_neq in E1. apply Z.ltb_ge in E2.
  apply res_bind_Ok in H as (after & Ha & H). apply add_u64_Ok in Ha as [_ ->].
  destruct (p + 1 <? t) eqn:E3.
  - unfold sub_u64, checked_sub in H. rewrite (proj2 (Z.leb_le _ _)) in H by lia.
    cbn [expect mbind res_bind] in H. apply Z.ltb_lt in E3.
    rewrite (proj2 (Z.leb_le _ _)) in H by lia. cbn [expect mbind res_bind] in H.
    inv_ok H. subst ids'. apply checked_add_Some in Hx as [_ ->]. simpl.
    split_and!; try done. right; right. split_and!; try done. lia.
  - injection H as <-. apply Z.ltb_ge in E3. simpl. split_and!; try done.
    right; right. split_and!; try done; lia.
Qed.

Lemma observe_fold ids p f ts ids' :
  ti_previous ids = Some p → ti_first ids = Some f →
  try_fold observe_trade_id ids ts = Ok ids' →
  ti_first ids' = Some f ∧ ti_previous ids' = Some (default p (last ts)) ∧
  ti_duplicate ids ≤ ti_duplicate ids' ∧ ti_out_of_order ids ≤ ti_out_of_order ids' ∧
  ti_missing ids ≤ ti_missing ids' ∧
  (ti_duplicate ids' = ti_duplicate ids ∧ ti_out_of_order ids' = ti_out_of_order ids ↔
   rising p ts) ∧
  (rising p ts → ti_missing ids' = ti_missing ids + (default p (last ts) - p - len ts)).
Proof.
  revert ids p. induction ts as [|t ts IH]; intros ids p Hp Hf H; cbn [try_fold] in H.
  - injection H as <-. simpl. split_and!; try done. intros _. unfold len. simpl. lia.
  - apply res_bind_Ok in H as (ids1 & H1 & H).
    destruct (observe_cases _ _ _ _ Hp H1) as (Hf1 & Hp1 & Hc). rewrite Hf in Hf1.
    destruct (IH _ _ Hp1 Hf1 H) as (? & Hprev & ? & ? & ? & Hiff & Hmiss).
    rewrite len_cons. replace (default p (last (t :: ts))) with (default t (last ts))
      by (destruct ts; [done|]; rewrite last_cons_cons; by destruct (last (z :: ts)) eqn:E;
          [|apply last_None in E]).
    cbn [rising]. split_and!; try done; try lia.
    + destruct Hc as [?|[?|?]]; [split; intros; lia..|].
      rewrite <-Hiff. split; [intros; split; lia|]. intros. lia.
    + intros [? ?]. rewrite Hmiss by done. destruct Hc as [?|[?|?]]; lia.
Qed.

Lemma rising_bound p ts : rising p ts → len ts ≤ default p (last ts) - p.
Proof.
  revert p. induction ts as [|t ts IH]; intros p; [simpl; unfold len; simpl; lia|].
  cbn [rising]. intros [? Hr]. specialize (IH t Hr). rewrite len_cons.
  destruct ts; [simpl in *; unfold len in *; simpl in *; lia|]. rewrite last_cons_cons in *.
  destruct (last (z :: ts)) eqn:E; [|by apply last_None in E]. simpl in *. lia.
Qed.

(** Rising with no room to skip means consecutive. *)
Lemma rising_consecutive p ts :
  rising p ts ∧ default p (last ts) - p = len ts ↔ ts = seqZ (p + 1) (len ts).
Proof.
  revert p. induction ts as [|t ts IH]; intros p.
  { split; [done|]. intros _. simpl. unfold len. simpl. split; [done|lia]. }
  rewrite len_cons. replace (default p (last (t :: ts))) with (default t (last ts))
    by (destruct ts; [done|]; rewrite last_cons_cons; by destruct (last (z :: ts)) eqn:E;
        [|apply last_None in E]).
  pose proof (len_nonneg ts). rewrite seqZ_cons by lia.
  replace (Z.pred (1 + len ts)) with (len ts) by lia. cbn [rising]. split.
  - intros [[? Hr] ?]. pose proof (rising_bound _ _ Hr).
    assert (t = p + 1) as -> by lia. f_equal. apply IH. split; [done|lia].
  - intros [= -> E]. replace (Z.succ (p + 1)) with (p + 1 + 1) in E by lia.
    apply IH in E as [? ?]. split; [split; [lia|done]|lia].
Qed.

(** The trade identity report is exact. Its first and last IDs are those
    of the log; it calls the IDs contiguous exactly when every ID is one more
    than the one before it; and when nothing is duplicated or out of order,
    the missing count is exactly the number of IDs between first and last
    that no frame carries. *)
Theorem trade_identity_exact frames symbol report :
  trade_identity_report frames symbol = Ok report →
  ∃ t ts, Forall2 (λ f i, trade_id_of f = Some i) frames (t :: ts) ∧
    tr_records report = len frames ∧
    ti_first (tr_ids report) = Some t ∧
    ti_previous (tr_ids report) = Some (default t (last ts)) ∧
    (ids_contiguous (tr_ids report) = true ↔ t :: ts = seqZ t (len frames)) ∧
    (ti_duplicate (tr_ids report) = 0 → ti_out_of_order (tr_ids report) = 0 →
     ti_missing (tr_ids report) = default t (last ts) - t + 1 - len frames).
Proof.
  intros H. unfold trade_identity_report in H. inv_ok H. subst report.
  destruct (identity_fold_ids _ _ _ _ Hx0) as ([|t ts] & HF & Hts).
  { apply Forall2_nil_inv_r in HF. by subst frames. }
  cbn [try_fold] in Hts. cbn [observe_trade_id ti_previous no_trades mbind res_bind] in Hts.
  apply observe_fold with (p := t) (f := t) in Hts as (Hf & Hl & ? & ? & ? & Hiff & Hm); try done.
  cbn [ti_duplicate ti_out_of_order ti_missing no_trades] in *.
  assert (len frames = 1 + len ts) as Hlen.
  { apply Forall2_length in HF. unfold len. rewrite HF. simpl. lia. }
  exists t, ts. cbn [tr_records tr_ids]. split_and!; try done.
  - unfold ids_contiguous. rewrite Hlen, seqZ_cons by (pose proof (len_nonneg ts); lia).
    replace (Z.pred (1 + len ts)) with (len ts) by lia. rewrite !andb_true_iff, !Z.eqb_eq.
    replace (Z.succ t) with (t + 1) by lia. pose proof (rising_consecutive t ts) as HC.
    split.
    + intros [[? ?] ?]. f_equal. apply HC. assert (rising t ts) as Hr by (apply Hiff; lia).
      specialize (Hm Hr). split; [done|]. lia.
    + intros [= E]. apply HC in E as [Hr ?]. specialize (Hm Hr). apply Hiff in Hr. lia.
  - intros ? ?. rewrite Hm by (apply Hiff; lia). lia.
Qed.
End trade_theory.

(** ** Claims about whole sessions *)

Lemma side_last_max m l k :
  side_ok m → last m = Some l → k ∈ dom (side_map m) → num k ≤ num l.1.
Proof.
  intros [HS _] Hl Hk. unfold side_map in Hk. rewrite dom_list_to_map in Hk.
  apply elem_of_list_to_set, list_elem_of_fmap in Hk as ([k' v] & -> & Hin).
  apply last_Some in Hl as [m' ->]. apply StronglySorted_app in HS as (Hlt & _ & _).
  apply elem_of_app in Hin as [Hin|Hin]; [|apply list_elem_of_singleton in Hin; by subst].
  specialize (Hlt _ l Hin ltac:(set_solver)). unfold key_lt in Hlt. simpl in *. lia.
Qed.

Lemma side_head_min m l k :
  side_ok m → head m = Some l → k ∈ dom (side_map m) → num l.1 ≤ num k.
Proof.
  intros Hm Hl Hk. destruct m as [|l' m]; [done|]. injection Hl as ->.
  apply side_ok_cons_inv in Hm as (_ & _ & HF). rewrite Forall_forall in HF.
  unfold side_map in Hk. rewrite dom_list_to_map in Hk.
  apply elem_of_list_to_set, list_elem_of_fmap in Hk as ([k' v] & -> & Hin).
  apply elem_of_cons in Hin as [<-|Hin]; [done|]. specialize (HF _ Hin). unfold key_lt in HF.
  simpl in *. lia.
Qed.

Lemma side_map_size m : side_ok m → Z.of_nat (size (side_map m)) = len m.
Proof.
  intros Hm. unfold len. f_equal. induction m as [|l m IH]; [done|].
  apply side_ok_cons_inv in Hm as (_ & Hm & HF). pose proof (side_lookup_below l m HF) as Hn.
  unfold side_map in *. cbn [list_to_map]. destruct l. simpl in *.
  rewrite map_size_insert_None by done. by rewrite IH.
Qed.

(** [p] is the highest ([lowest]) price of the map. *)
Definition is_best_bid (M : gmap FixedDecimal FixedDecimal) (p : FixedDecimal) : Prop :=
  p ∈ dom M ∧ ∀ k, k ∈ dom M → num k ≤ num p.
Definition is_best_ask (M : gmap FixedDecimal FixedDecimal) (p : FixedDecimal) : Prop :=
  p ∈ dom M ∧ ∀ k, k ∈ dom M → num p ≤ num k.

Lemma side_elem_dom m l : l ∈ m → l.1 ∈ dom (side_map m).
Proof.
  intros Hin. unfold side_map. rewrite dom_list_to_map. apply elem_of_list_to_set.
  by apply list_elem_of_fmap_2.
Qed.

Section replay_claims.
Context `{Hsha : Sha256} `{Hval : SerdeValue} `{Hb64 : Base64} `{!SerdeValueLaws Hval}.
Context `{Haudit : Serde DatasetAudit} `{Hmonitor : Serde MicrostructureReport}.

Lemma load_snapshot_start symbol b payload b0 id :
  book_new symbol = Ok b → load_snapshot payload b = (b0, Ok id) →
  book_ok b0 ∧ bk_symbol b0 = symbol ∧
  represents b0 (mkSpec id (side_map (bk_bids b0)) (side_map (bk_asks b0))).
Proof.
  intros Hn Hl. pose proof (load_snapshot_ok _ _ _ _ (book_new_ok _ _ Hn) Hl) as Hok.
  unfold book_new in Hn. inv_ok Hn. subst b. split; [done|].
  unfold load_snapshot in Hl. step_se Hl.
  destruct (map_err _ _) as [v| |]; [|done..].
  destruct (required_u64 v _) as [i| |]; [|done..].
  destruct (load_side (value_index v "bids") "bid") as [bids| |]; [|done..].
  destruct (load_side (value_index v "asks") "ask") as [asks| |]; [|done..].
  cbn in Hl. destruct (check_invariants _) as [b2 [[]|e|]] eqn:Hc; simplify_eq.
  unfold check_invariants in Hc. step_se Hc. repeat case_match; simplify_eq. done.
Qed.

(** What a successful replay went through. *)
Lemma replay_session_inv session r :
  replay_session session = Ok r →
  ∃ snap depth b b0 acc bid ask spread,
    read_raw_log (snapshot_bnraw session) = Ok [snap] ∧
    read_raw_log (depth_bnraw session) = Ok depth ∧ book_new (rf_symbol snap) = Ok b ∧
    load_snapshot (rf_payload snap) b = (b0, Ok (rp_snapshot_last_update_id r)) ∧
    try_fold depth_step (mkDepthAcc b0 0 0 None) depth = Ok acc ∧
    bk_state (da_book acc) = BookLive ∧ best_bid (da_book acc) = Ok bid ∧
    best_ask (da_book acc) = Ok ask ∧
    bk_last_update_id (da_book acc) = Some (rp_final_update_id r) ∧
    da_first_applied acc = Some (rp_first_applied_frame_index r) ∧
    decimal_checked_sub ask bid = Ok spread ∧
    r = mkReplayResult (bk_symbol (da_book acc)) (rp_snapshot_last_update_id r)
          (rp_final_update_id r) (len depth) (da_applied acc) (da_old acc)
          (rp_first_applied_frame_index r) (len (bk_bids (da_book acc)))
          (len (bk_asks (da_book acc))) (decimal_to_string bid) (decimal_to_string ask)
          (decimal_to_string spread) (state_digest (da_book acc)).
Proof.
  intros H. unfold replay_session in H.
  apply res_bind_Ok in H as (snaps & Hs & H). apply res_bind_Ok in H as ([] & Hone & H).
  apply reject_Ok, negb_false_iff, Nat.eqb_eq in Hone.
  destruct snaps as [|snap [|? ?]]; [done| |done]. clear Hone.
  apply res_bind_Ok in H as (depth & Hd & H). cbn [expect lookup list_lookup mbind res_bind] in H.
  apply res_bind_Ok in H as (b & Hb & H).
  destruct (load_snapshot (rf_payload snap) b) as [b0 r0] eqn:Hl.
  apply res_bind_Ok in H as (id & -> & H). apply res_bind_Ok in H as (acc & Hacc & H).
  apply res_bind_Ok in H as ([] & Hlive & H).
  apply reject_Ok, negb_false_iff, bool_decide_eq_true in Hlive.
  apply res_bind_Ok in H as (bid & Hbid & H). apply res_bind_Ok in H as (ask & Hask & H).
  apply res_bind_Ok in H as (fin & Hfin%ok_or_Ok & H).
  apply res_bind_Ok in H as (fst & Hfst%ok_or_Ok & H).
  apply res_bind_Ok in H as (spread & Hsp & H). injection H as <-.
  exists snap, depth, b, b0, acc, bid, ask, spread. by split_and!.
Qed.

(** C3: a successful replay lost no update. Every depth frame carries a range
    of update IDs; following the ranges from the snapshot's ID, as the feed's
    procedure prescribes, ends at the reported final ID with the reported
    numbers of applied and old records; and every update ID after the
    snapshot up to the final one lies in the range of some frame. *)
Theorem replay_loses_no_update session r :
  replay_session session = Ok r →
  ∃ depth ids, read_raw_log (depth_bnraw session) = Ok depth ∧
    Forall2 (λ f i, update_ids f = Some i) depth ids ∧
    follow (rp_snapshot_last_update_id r) ids =
      Some (rp_final_update_id r, rp_applied_records r, rp_old_records r) ∧
    rp_depth_records r = len depth ∧
    rp_applied_records r + rp_old_records r = rp_depth_records r ∧
    ∀ n, rp_snapshot_last_update_id r < n ≤ rp_final_update_id r →
      ∃ i, i ∈ ids ∧ i.1 ≤ n ≤ i.2.
Proof.
  intros (snap & depth & b & b0 & acc & bid & ask & spread & _ & Hd & Hb & Hl & Hacc & _ & _ & _ &
    Hfin & _ & _ & Er)%replay_session_inv.
  destruct (load_snapshot_start _ _ _ _ _ Hb Hl) as (Hok & _ & Hrep).
  destruct (depth_loop_inv _ (mkDepthAcc b0 0 0 None) _ _ Hok Hrep Hacc)
    as (ids & st' & a & o & HF & _ & Hfol & _ & (Hlast & _ & _) & _ & Ha & Ho & _ & _ & Hsum).
  cbn [da_applied da_old sp_last] in *. rewrite Hlast in Hfin. injection Hfin as Hfin.
  exists depth, ids. rewrite Hfin in Hfol. rewrite Er.
  cbn [rp_snapshot_last_update_id rp_final_update_id rp_applied_records rp_old_records
       rp_depth_records]. rewrite Ha, Ho, !Z.add_0_l.
  split_and!; try done. by apply (follow_covers _ _ _ _ _ Hfol).
Qed.

(** A successful replay computes the reference book. Replaying the depth
    frames on the abstract maps of the snapshot's levels succeeds, and the
    report describes the resulting maps: level counts, the highest bid and
    lowest ask, which do not cross, their exact difference, and the final
    update ID. *)
Theorem replay_refines_reference session r :
  replay_session session = Ok r →
  ∃ snap depth b b0 st bid ask spread,
    read_raw_log (snapshot_bnraw session) = Ok [snap] ∧
    read_raw_log (depth_bnraw session) = Ok depth ∧
    book_new (rf_symbol snap) = Ok b ∧
    load_snapshot (rf_payload snap) b = (b0, Ok (rp_snapshot_last_update_id r)) ∧
    spec_replay (mkSpec (rp_snapshot_last_update_id r) (side_map (bk_bids b0))
                   (side_map (bk_asks b0))) depth = Some st ∧
    rp_final_update_id r = sp_last st ∧
    rp_bid_levels r = Z.of_nat (size (sp_bids st)) ∧
    rp_ask_levels r = Z.of_nat (size (sp_asks st)) ∧
    is_best_bid (sp_bids st) bid ∧ is_best_ask (sp_asks st) ask ∧ num bid < num ask ∧
    num spread = num ask - num bid ∧
    rp_best_bid r = decimal_to_string bid ∧ rp_best_ask r = decimal_to_string ask ∧
    rp_spread r = decimal_to_string spread.
Proof.
  intros (snap & depth & b & b0 & acc & bid & ask & spread & Hs & Hd & Hb & Hl & Hacc & Hlive &
    Hbid & Hask & Hfin & _ & Hsp & Er)%replay_session_inv.
  destruct (load_snapshot_start _ _ _ _ _ Hb Hl) as (Hok & _ & Hrep).
  destruct (depth_loop_inv _ (mkDepthAcc b0 0 0 None) _ _ Hok Hrep Hacc)
    as (ids & st & a & o & _ & Hspec & _ & Hok' & (Hlast & Mb & Ma) & _).
  destruct Hok' as (Ob & Oa & _ & Hun).
  specialize (Hun ltac:(by rewrite Hlive) ltac:(by rewrite Hlive)).
  unfold best_bid in Hbid. unfold best_ask in Hask. apply ok_or_Ok in Hbid, Hask.
  apply fmap_Some in Hbid as (lb & Hlb & ->). apply fmap_Some in Hask as (la & Hla & ->).
  assert (lb ∈ bk_bids (da_book acc)) as Inb by (by apply last_Some_elem_of).
  assert (la ∈ bk_asks (da_book acc)) as Ina by (by apply head_Some_elem_of).
  assert (wf_decimal lb.1 ∧ wf_decimal la.1) as [Wb Wa].
  { destruct Ob as [_ Fb], Oa as [_ Fa]. rewrite Forall_forall in Fb, Fa.
    split; [by apply Fb|by apply Fa]. }
  exists snap, depth, b, b0, st, lb.1, la.1, spread. rewrite Er.
  cbn [rp_snapshot_last_update_id rp_final_update_id rp_bid_levels rp_ask_levels rp_best_bid
       rp_best_ask rp_spread].
  rewrite <-!Mb, <-!Ma, !side_map_size by done. split_and!; try done; try congruence.
  - split; [by apply side_elem_dom|]. intros k. by apply side_last_max.
  - split; [by apply side_elem_dom|]. intros k. by apply side_head_min.
  - by apply Hun.
  - apply checked_sub_exact in Hsp as (_ & _ & ?); [done|apply Wa|apply Wb].
Qed.

Lemma monitor_fold symbol frames acc clock acc' clock' :
  try_fold (monitor_step symbol) (acc, clock) frames = Ok (acc', clock') →
  try_fold depth_step acc frames = Ok acc' ∧ clock' = foldl add_clock clock frames.
Proof.
  revert acc clock. induction frames as [|f frames IH]; intros acc clock H; cbn [try_fold] in H.
  - by injection H as <- <-.
  - apply res_bind_Ok in H as ([acc1 clock1] & H1 & H). unfold monitor_step in H1.
    apply res_bind_Ok in H1 as ([] & _ & H1). apply res_bind_Ok in H1 as (a & Ha & H1).
    injection H1 as -> <-. cbn [try_fold foldl]. cbn [fst snd] in *. rewrite Ha. by apply IH.
Qed.

(** The monitor and the replay agree. Whenever [monitor_session] produces
    a report for a session, [replay_session] succeeds on it, and every value
    both of them report is the same. *)
Theorem monitor_agrees_with_replay session m digest :
  monitor_session session = Ok (m, digest) →
  ∃ r, replay_session session = Ok r ∧ mo_symbol m = rp_symbol r ∧
    mo_snapshot_last_update_id m = rp_snapshot_last_update_id r ∧
    mo_final_update_id m = rp_final_update_id r ∧ mo_depth_records m = rp_depth_records r ∧
    mo_applied m = rp_applied_records r ∧ mo_old m = rp_old_records r ∧
    mo_first_applied m = rp_first_applied_frame_index r ∧
    mo_bid_levels m = rp_bid_levels r ∧ mo_ask_levels m = rp_ask_levels r ∧
    mo_best_bid m = rp_best_bid r ∧ mo_best_ask m = rp_best_ask r ∧
    mo_spread m = rp_spread r ∧ mo_state_sha256 m = rp_state_sha256 r.
Proof.
  intros H. unfold monitor_session in H.
  apply res_bind_Ok in H as (snaps & Hs & H). apply res_bind_Ok in H as ([] & Hone & H).
  pose proof Hone as Hlen. apply reject_Ok, negb_false_iff, Nat.eqb_eq in Hlen.
  destruct snaps as [|snap [|? ?]]; [done| |done]. clear Hlen.
  cbn [expect lookup list_lookup mbind res_bind] in H. apply res_bind_Ok in H as (b & Hb & H).
  destruct (load_snapshot (rf_payload snap) b) as [b0 r0] eqn:Hl.
  apply res_bind_Ok in H as (id & -> & H). apply res_bind_Ok in H as (depth & Hd & H).
  apply res_bind_Ok in H as ([acc clock] & [Hacc _]%monitor_fold & H).
  apply res_bind_Ok in H as ([] & Hlive & H). apply res_bind_Ok in H as ([] & _ & H).
  apply res_bind_Ok in H as ([bid bq] & Hbid & H). apply res_bind_Ok in H as ([ask aq] & Hask & H).
  do 4 apply res_bind_Ok in H as (? & _ & H).
  apply res_bind_Ok in H as ([[trades epochs] clock2] & _ & H).
  apply res_bind_Ok in H as (fin & Hfin & H). apply res_bind_Ok in H as (fi & Hfi & H).
  apply res_bind_Ok in H as (spread & Hsp & H). do 5 apply res_bind_Ok in H as (? & _ & H).
  apply res_bind_Ok in H as (? & _ & H). injection H as <- _.
  assert (best_bid (da_book acc) = Ok bid) as Hbb.
  { unfold best_bid. destruct (bk_bids (da_book acc)) as [|lv l] using rev_ind; [done|].
    rewrite last_snoc. rewrite reverse_snoc in Hbid. injection Hbid as ->. done. }
  assert (best_ask (da_book acc) = Ok ask) as Hba.
  { unfold best_ask. destruct (bk_asks (da_book acc)); [done|]. by injection Hask as ->. }
  assert (bk_symbol (da_book acc) = rf_symbol snap) as Hsym.
  { destruct (load_snapshot_start _ _ _ _ _ Hb Hl) as (Hok & <- & Hrep).
    by destruct (depth_loop_inv _ (mkDepthAcc b0 0 0 None) _ _ Hok Hrep Hacc)
      as (? & ? & ? & ? & _ & _ & _ & _ & _ & ? & _). }
  eexists. split.
  { unfold replay_session. rewrite Hs. cbn [mbind res_bind]. rewrite Hone. cbn [mbind res_bind].
    rewrite Hd. cbn [expect lookup list_lookup mbind res_bind]. rewrite Hb. cbn [mbind res_bind].
    rewrite Hl. cbn [mbind res_bind]. rewrite Hacc. cbn [mbind res_bind]. rewrite Hlive.
    cbn [mbind res_bind]. rewrite Hbb. cbn [mbind res_bind]. rewrite Hba. cbn [mbind res_bind].
    rewrite Hfin. cbn [mbind res_bind]. rewrite Hfi. cbn [mbind res_bind]. rewrite Hsp.
    cbn [mbind res_bind]. reflexivity. }
  by rewrite Hsym.
Qed.
End replay_claims.

(** ** A concrete session: twenty levels on each side, an old and an applied
    update, and three trades of which one ID is missing *)

Module SessionDemo.
#[export] Existing Instance toy_sha256.
#[export] Existing Instance Json.serde.
#[export] Existing Instance Json.serde_laws.
(** Payload text with a back quote for the double quote. *)
#[export] Instance text_base64 : Base64 := {|
  base64_encode b := String.string_of_list_byte b;
  base64_decode s := inr ((λ c, if bool_decide (c = x60) then x22 else c) <$> str_bytes s)
|}.
#[export] Instance audit_serde : Serde DatasetAudit :=
  {| to_vec _ := inr [x7b; x7d]; from_slice _ := inl "unused" |}.
#[export] Instance monitor_serde : Serde MicrostructureReport :=
  {| to_vec _ := inr [x7b; x7d]; from_slice _ := inl "unused" |}.

Definition payload_of (text : string) : bytes :=
  match base64_decode text with inr b => b | inl _ => [] end.
Definition body_of (stream : string) (index : Z) (previous text : string) : bytes :=
  Json.text ("{'schema':'RawFrameV1','venue':'v','environment':'e','endpoint':'p','stream':'"
    ++ stream ++ "','symbol':'BTCUSDT','connection_epoch':'c1','frame_index':" ++ u_to_string index
    ++ ",'receive_wall_ns':1,'receive_mono_ns':2,'clock_quality':'UNKNOWN','clock_source':'h',"
    ++ "'payload_length':" ++ u_to_string (len (payload_of text)) ++ ",'payload_sha256':'"
    ++ hex (sha256 (payload_of text)) ++ "','payload_base64':'" ++ text
    ++ "','recorder_state':'PENDING','spec_revision':'r','previous_record_sha256':'"
    ++ previous ++ "'}").
Fixpoint records_of (stream : string) (index : Z) (previous : string) (texts : list string)
    : bytes :=
  match texts with
  | [] => []
  | text :: texts =>
      let body := body_of stream index previous text in
      encode_record body (sha256 body)
      ++ records_of stream (index + 1) (hex (sha256 body)) texts
  end.
Definition log_of (stream : string) (texts : list string) : bytes :=
  MAGIC ++ records_of stream 0 ZERO_DIGEST texts.

Definition levels (prices : list Z) : string :=
  String.concat "," (map (λ p, "[`" ++ u_to_string p ++ "`,`1`]")%string prices).
Definition session : Session := Eval vm_compute in mkSession
  (log_of "snapshot" [("{`lastUpdateId`:9,`bids`:[" ++ levels (seqZ 10 20) ++ "],`asks`:["
                       ++ levels (seqZ 40 20) ++ "]}")%string])
  (log_of "depth" ["{`e`:`depthUpdate`,`s`:`BTCUSDT`,`U`:7,`u`:9,`b`:[],`a`:[]}";
                   "{`e`:`depthUpdate`,`s`:`BTCUSDT`,`U`:10,`u`:12,`b`:[[`30`,`2`]],`a`:[]}"])
  (log_of "trade" ["{`e`:`trade`,`s`:`BTCUSDT`,`t`:5,`q`:`1`,`m`:true}";
                   "{`e`:`trade`,`s`:`BTCUSDT`,`t`:6,`q`:`1`,`m`:false}";
                   "{`e`:`trade`,`s`:`BTCUSDT`,`t`:8,`q`:`2`,`m`:false}"]).
Definition trade_frames : list RawFrame :=
  Eval vm_compute in match read_raw_log (trade_bnraw session) with Ok l => l | _ => [] end.
Definition trades : TradeIdentity :=
  mkTradeIdentity 3 (mkTradeIds (Some 5) (Some 8) 1 0 0).
Definition result : ReplayResult :=
  Eval vm_compute in match replay_session session with
  | Ok r => r | _ => mkReplayResult "" 0 0 0 0 0 0 0 0 "" "" "" "" end.
End SessionDemo.

Section replay_witnesses.
Import SessionDemo.

Lemma trade_identity_exact_witness :
  trade_identity_report trade_frames "BTCUSDT" = Ok trades ∧
  ∃ t ts, Forall2 (λ f i, trade_id_of f = Some i) trade_frames (t :: ts) ∧
    tr_records trades = len trade_frames ∧ ti_first (tr_ids trades) = Some t ∧
    ti_previous (tr_ids trades) = Some (default t (last ts)) ∧
    (ids_contiguous (tr_ids trades) = true ↔ t :: ts = seqZ t (len trade_frames)) ∧
    (ti_duplicate (tr_ids trades) = 0 → ti_out_of_order (tr_ids trades) = 0 →
     ti_missing (tr_ids trades) = default t (last ts) - t + 1 - len trade_frames).
Proof.
  split; [vm_compute; reflexivity|].
  apply (trade_identity_exact trade_frames "BTCUSDT"). vm_compute. reflexivity.
Defined.

Lemma replay_loses_no_update_witness :
  replay_session session = Ok result ∧
  ∃ depth ids, read_raw_log (depth_bnraw session) = Ok depth ∧
    Forall2 (λ f i, update_ids f = Some i) depth ids ∧ follow 9 ids = Some (12, 1, 1) ∧
    2 = len depth ∧ 1 + 1 = 2 ∧ ∀ n, 9 < n ≤ 12 → ∃ i, i ∈ ids ∧ i.1 ≤ n ≤ i.2.
Proof.
  split; [vm_compute; reflexivity|].
  apply (replay_loses_no_update session result). vm_compute. reflexivity.
Defined.

Lemma replay_refines_reference_witness :
  ∃ snap depth b b0 st bid ask spread,
    read_raw_log (snapshot_bnraw session) = Ok [snap] ∧
    read_raw_log (depth_bnraw session) = Ok depth ∧
    book_new (rf_symbol snap) = Ok b ∧ load_snapshot (rf_payload snap) b = (b0, Ok 9) ∧
    spec_replay (mkSpec 9 (side_map (bk_bids b0)) (side_map (bk_asks b0))) depth = Some st ∧
    12 = sp_last st ∧ 21 = Z.of_nat (size (sp_bids st)) ∧ 20 = Z.of_nat (size (sp_asks st)) ∧
    is_best_bid (sp_bids st) bid ∧ is_best_ask (sp_asks st) ask ∧ num bid < num ask ∧
    num spread = num ask - num bid ∧ "30" = decimal_to_string bid ∧
    "40" = decimal_to_string ask ∧ "10" = decimal_to_string spread.
Proof. apply (replay_refines_reference session result). vm_compute. reflexivity. Defined.

Lemma monitor_agrees_with_replay_witness :
  ∃ m digest, monitor_session session = Ok (m, digest) ∧
  ∃ r, replay_session session = Ok r ∧ mo_symbol m = rp_symbol r ∧
    mo_snapshot_last_update_id m = rp_snapshot_last_update_id r ∧
    mo_final_update_id m = rp_final_update_id r ∧ mo_depth_records m = rp_depth_records r ∧
    mo_applied m = rp_applied_records r ∧ mo_old m = rp_old_records r ∧
    mo_first_applied m = rp_first_applied_frame_index r ∧
    mo_bid_levels m = rp_bid_levels r ∧ mo_ask_levels m = rp_ask_levels r ∧
    mo_best_bid m = rp_best_bid r ∧ mo_best_ask m = rp_best_ask r ∧
    mo_spread m = rp_spread r ∧ mo_state_sha256 m = rp_state_sha256 r.
Proof.
  destruct (monitor_session session) as [[m digest]| |] eqn:E.
  - exists m, digest. split; [done|]. by apply (monitor_agrees_with_replay session m digest).
  - exfalso. revert E. vm_compute. discriminate.
  - exfalso. revert E. vm_compute. discriminate.
Defined.
End replay_witnesses.
