(* ===== verification/Boundary.v ===== *)
(** * Handover boundaries (boundary.rs and splice.rs)

    A boundary names the last record taken from the predecessor connection and
    the first taken from its successor. [select_canonical] splices the two
    observation sequences at it, [derive_handover_boundary] finds one, and the
    boundary journal makes it durable with a proposal and a commit record. *)

From stdpp Require Import base list strings option numbers gmap.
From Stdlib Require Import ZArith Lia Ascii Strings.Byte.
From S2P Require Import Prelude External RawLog RawLogSafety.
Local Open Scope Z_scope.

Definition BOUNDARY_MAGIC : bytes := [x42; x4e; x48; x4e; x44; x00; x01; x0a].
Definition BOUNDARY_MAX_RECORD_BYTES : Z := 256 * 1024.

(** ** Data *)

Inductive BoundaryStreamKind := Depth | Trade.
#[global] Instance stream_kind_eq_decision : EqDecision BoundaryStreamKind.
Proof. solve_decision. Defined.

Record RawPositionV1 := mkPosition {
  ps_connection_epoch : string; ps_stream : string; ps_frame_index : Z; ps_record_sha256 : string
}.
#[global] Instance position_eq_decision : EqDecision RawPositionV1.
Proof. solve_decision. Defined.

Record BoundaryDurabilityV1 := mkBoundaryDurability {
  bd_durable_through_frame_index : Z; bd_durable_through_offset : Z; bd_last_record_sha256 : string
}.
#[global] Instance boundary_durability_eq_decision : EqDecision BoundaryDurabilityV1.
Proof. solve_decision. Defined.

Record HandoverBoundaryV1 := mkBoundary {
  hb_schema : string; hb_boundary_id : string; hb_environment : string; hb_symbol : string;
  hb_stream_kind : BoundaryStreamKind; hb_stream : string;
  hb_predecessor_epoch : string; hb_successor_epoch : string;
  hb_boundary_sequence : Z; hb_boundary_sha256 : string;
  hb_predecessor_last_selected : RawPositionV1;
  hb_successor_boundary_observation : RawPositionV1;
  hb_successor_first_selected : RawPositionV1;
  hb_predecessor_durability : BoundaryDurabilityV1;
  hb_successor_durability : BoundaryDurabilityV1;
  hb_spec_revision : string; hb_selector_version : string
}.
#[global] Instance boundary_eq_decision : EqDecision HandoverBoundaryV1.
Proof. solve_decision. Defined.

Record CanonicalObservationV1 := mkObservation {
  co_symbol : string; co_stream_kind : BoundaryStreamKind; co_stream : string;
  co_connection_epoch : string; co_frame_index : Z; co_first_sequence : Z;
  co_final_sequence : Z; co_record_sha256 : string; co_observation_sha256 : string
}.
#[global] Instance observation_eq_decision : EqDecision CanonicalObservationV1.
Proof. solve_decision. Defined.

Record SelectedObservationV1 := mkSelected {
  so_connection_epoch : string; so_frame_index : Z; so_first_sequence : Z;
  so_final_sequence : Z; so_record_sha256 : string
}.
#[global] Instance selected_eq_decision : EqDecision SelectedObservationV1.
Proof. solve_decision. Defined.

Record SelectionDigestMaterial := mkMaterial {
  sm_boundary_id : string; sm_symbol : string; sm_stream_kind : BoundaryStreamKind;
  sm_boundary_sequence : Z; sm_selected : list SelectedObservationV1
}.

Record CanonicalSelectionV1 := mkSelection {
  cs_boundary_id : string; cs_symbol : string; cs_stream_kind : BoundaryStreamKind;
  cs_boundary_sequence : Z; cs_selected : list SelectedObservationV1;
  cs_excluded_overlap_records : Z; cs_excluded_duplicate_records : Z;
  cs_first_sequence : Z; cs_final_sequence : Z; cs_selection_sha256 : string
}.

Inductive BoundaryJournalAction := Proposed | Committed.
#[global] Instance journal_action_eq_decision : EqDecision BoundaryJournalAction.
Proof. solve_decision. Defined.

Record BoundaryJournalRecordV1 := mkJournalRecord {
  jr_schema : string; jr_record_index : Z; jr_action : BoundaryJournalAction;
  jr_boundary_id : string; jr_boundary : option HandoverBoundaryV1;
  jr_proposal_record_sha256 : option string; jr_previous_record_sha256 : string
}.

Record BoundaryJournalAckV1 := mkJournalAck {
  ja_action : BoundaryJournalAction; ja_boundary_id : string; ja_durable_record_count : Z;
  ja_durable_through_offset : Z; ja_last_record_sha256 : string
}.

Record BoundaryJournalScanV1 := mkJournalScan {
  js_file_size : Z; js_records : Z; js_last_good_offset : Z; js_clean_eof : bool;
  js_reason : option string; js_proposal : option HandoverBoundaryV1;
  js_committed : option HandoverBoundaryV1; js_last_record_sha256 : string
}.

Record BoundaryJournalWriter (S : Type) := mkJournal {
  jw_sink : S; jw_end_offset : Z; jw_previous_digest : string;
  jw_proposal : option (HandoverBoundaryV1 * string); jw_committed : bool; jw_poisoned : bool
}.
Arguments mkJournal {S}.
Arguments jw_sink {S}. Arguments jw_end_offset {S}. Arguments jw_previous_digest {S}.
Arguments jw_proposal {S}. Arguments jw_committed {S}. Arguments jw_poisoned {S}.

(** ** Validation *)

Definition validate_digest (digest : string) : res unit :=
  reject (negb (is_digest digest)) "digest must be 64 lowercase hexadecimal characters".

Definition boundary_validate (b : HandoverBoundaryV1) : res unit :=
  _ ← reject (negb (String.eqb (hb_schema b) "HandoverBoundaryV1")
      || is_blank (hb_boundary_id b)
      || negb (String.eqb (hb_environment b) "production-public-market-data")
      || negb (String.eqb (hb_symbol b) "BTCUSDT" || String.eqb (hb_symbol b) "ETHUSDT")
      || is_blank (hb_predecessor_epoch b)
      || is_blank (hb_successor_epoch b)
      || String.eqb (hb_predecessor_epoch b) (hb_successor_epoch b)
      || is_blank (hb_spec_revision b)
      || is_blank (hb_selector_version b)) "invalid handover boundary identity/scope";
  _ ← validate_digest (hb_boundary_sha256 b);
  _ ← try_map validate_digest
        [ps_record_sha256 (hb_predecessor_last_selected b);
         ps_record_sha256 (hb_successor_boundary_observation b);
         ps_record_sha256 (hb_successor_first_selected b);
         bd_last_record_sha256 (hb_predecessor_durability b);
         bd_last_record_sha256 (hb_successor_durability b)];
  _ ← reject (negb (String.eqb (ps_connection_epoch (hb_predecessor_last_selected b)) (hb_predecessor_epoch b))
      || negb (String.eqb (ps_connection_epoch (hb_successor_boundary_observation b)) (hb_successor_epoch b))
      || negb (String.eqb (ps_connection_epoch (hb_successor_first_selected b)) (hb_successor_epoch b))
      || negb (String.eqb (ps_stream (hb_predecessor_last_selected b)) (hb_stream b))
      || negb (String.eqb (ps_stream (hb_successor_boundary_observation b)) (hb_stream b))
      || negb (String.eqb (ps_stream (hb_successor_first_selected b)) (hb_stream b)))
      "raw position does not match boundary epoch/stream";
  _ ← reject (ps_frame_index (hb_successor_first_selected b)
              <=? ps_frame_index (hb_successor_boundary_observation b))
      "successor first-selected position must follow overlap boundary";
  reject ((bd_durable_through_frame_index (hb_predecessor_durability b)
           <? ps_frame_index (hb_predecessor_last_selected b))
      || (bd_durable_through_frame_index (hb_successor_durability b)
          <? ps_frame_index (hb_successor_first_selected b)))
      "boundary references a raw position beyond durable watermark".

Definition validate_observation (b : HandoverBoundaryV1) (expected_epoch : string)
    (previous_frame : option Z) (o : CanonicalObservationV1) : res (option Z) :=
  _ ← reject (negb (String.eqb (co_symbol o) (hb_symbol b))
      || negb (bool_decide (co_stream_kind o = hb_stream_kind b))
      || negb (String.eqb (co_stream o) (hb_stream b))
      || negb (String.eqb (co_connection_epoch o) expected_epoch)
      || (co_final_sequence o <? co_first_sequence o))
      "observation identity/range does not match boundary";
  _ ← validate_digest (co_record_sha256 o);
  _ ← validate_digest (co_observation_sha256 o);
  _ ← match previous_frame with
      | Some previous =>
          next ← add_u64 previous 1;
          reject (negb (co_frame_index o =? next)) "raw frame index gap/reorder in canonical source"
      | None => Ok ()
      end;
  Ok (Some (co_frame_index o)).

Definition validate_observations (b : HandoverBoundaryV1) (observations : list CanonicalObservationV1)
    (expected_epoch : string) : res unit :=
  _ ← reject (bool_decide (observations = [])) "canonical source observations are empty";
  _ ← try_fold (validate_observation b expected_epoch) None observations;
  Ok ().

Definition find_position (observations : list CanonicalObservationV1) (position : RawPositionV1)
    : res CanonicalObservationV1 :=
  o ← ok_or (List.find (λ item, co_frame_index item =? ps_frame_index position) observations)
        "committed raw position is absent from observations";
  _ ← reject (negb (String.eqb (co_connection_epoch o) (ps_connection_epoch position))
      || negb (String.eqb (co_stream o) (ps_stream position))
      || negb (String.eqb (co_record_sha256 o) (ps_record_sha256 position)))
      "committed raw position digest/identity mismatch";
  Ok o.

Definition validate_boundary_observations (b : HandoverBoundaryV1)
    (predecessor successor_boundary successor_first : CanonicalObservationV1) : res unit :=
  _ ← reject (negb (co_final_sequence predecessor =? hb_boundary_sequence b)
      || negb (co_final_sequence successor_boundary =? hb_boundary_sequence b)
      || negb (String.eqb (co_observation_sha256 predecessor) (hb_boundary_sha256 b))
      || negb (String.eqb (co_observation_sha256 successor_boundary) (hb_boundary_sha256 b)))
      "A/B observations do not prove the committed convergence";
  next ← ok_or (checked_add (hb_boundary_sequence b) 1) "boundary sequence overflow";
  match hb_stream_kind b with
  | Depth =>
      reject ((next <? co_first_sequence successor_first)
              || (co_final_sequence successor_first <? next))
        "successor depth frame does not bridge K+1"
  | Trade =>
      reject (negb (co_first_sequence predecessor =? hb_boundary_sequence b)
              || negb (co_first_sequence successor_boundary =? hb_boundary_sequence b)
              || negb (co_first_sequence successor_first =? next)
              || negb (co_final_sequence successor_first =? next))
        "successor trade does not continue at T+1"
  end.

(** ** Canonical selection *)

(** One candidate of [validate_and_select_sequence]. *)
Definition select_step (kind : BoundaryStreamKind) (acc : list CanonicalObservationV1 * Z)
    (o : CanonicalObservationV1) : res (list CanonicalObservationV1 * Z) :=
  let '(selected, duplicates) := acc in
  match last selected with
  | None => Ok (selected ++ [o], duplicates)
  | Some previous =>
      next ← ok_or (checked_add (co_final_sequence previous) 1) "canonical sequence overflow";
      if co_final_sequence o <? next then
        if (co_final_sequence o =? co_final_sequence previous)
           && String.eqb (co_observation_sha256 o) (co_observation_sha256 previous)
        then duplicates ← add_u64 duplicates 1; Ok (selected, duplicates)
        else Err "stale/conflicting canonical observation"
      else
        _ ← reject (next <? co_first_sequence o) "gap in canonical observation sequence";
        _ ← reject (bool_decide (kind = Trade)
                    && (negb (co_first_sequence o =? next) || negb (co_final_sequence o =? next)))
              "trade sequence is not exactly contiguous";
        Ok (selected ++ [o], duplicates)
  end.

Definition validate_and_select_sequence (kind : BoundaryStreamKind)
    (candidates : list CanonicalObservationV1) : res (list CanonicalObservationV1 * Z) :=
  try_fold (select_step kind) ([], 0) candidates.

Definition selected_ref (item : CanonicalObservationV1) : SelectedObservationV1 :=
  mkSelected (co_connection_epoch item) (co_frame_index item) (co_first_sequence item)
    (co_final_sequence item) (co_record_sha256 item).

Section selection.
Context `{Hsha : Sha256} `{Hmat : Serde SelectionDigestMaterial}.

Definition select_canonical (b : HandoverBoundaryV1)
    (predecessor successor : list CanonicalObservationV1) : res CanonicalSelectionV1 :=
  _ ← boundary_validate b;
  _ ← validate_observations b predecessor (hb_predecessor_epoch b);
  _ ← validate_observations b successor (hb_successor_epoch b);
  predecessor_boundary ← find_position predecessor (hb_predecessor_last_selected b);
  successor_boundary ← find_position successor (hb_successor_boundary_observation b);
  successor_first ← find_position successor (hb_successor_first_selected b);
  _ ← validate_boundary_observations b predecessor_boundary successor_boundary successor_first;
  let last_index := ps_frame_index (hb_predecessor_last_selected b) in
  let first_index := ps_frame_index (hb_successor_first_selected b) in
  let candidates :=
    List.filter (λ o, co_frame_index o <=? last_index) predecessor
    ++ List.filter (λ o, first_index <=? co_frame_index o) successor in
  let excluded_overlap_records :=
    len (List.filter (λ o, last_index <? co_frame_index o) predecessor)
    + len (List.filter (λ o, co_frame_index o <? first_index) successor) in
  '(selected, excluded_duplicate_records) ←
    validate_and_select_sequence (hb_stream_kind b) candidates;
  _ ← reject (bool_decide (selected = [])) "canonical selection is empty";
  last_predecessor ← ok_or
    (List.find (λ o, String.eqb (co_connection_epoch o) (hb_predecessor_epoch b)) (reverse selected))
    "canonical selection has no predecessor boundary";
  first_successor ← ok_or
    (List.find (λ o, String.eqb (co_connection_epoch o) (hb_successor_epoch b)) selected)
    "canonical selection has no successor continuation";
  _ ← reject (negb (co_final_sequence last_predecessor =? hb_boundary_sequence b)
              || negb (co_frame_index first_successor =? first_index))
        "canonical splice does not match committed boundary";
  let selected_refs := map selected_ref selected in
  first_ref ← expect (selected_refs !! 0%nat);
  last_ref ← expect (last selected_refs);
  canonical ← map_err "serialize canonical selection digest: "
    (to_vec (mkMaterial (hb_boundary_id b) (hb_symbol b) (hb_stream_kind b)
               (hb_boundary_sequence b) selected_refs));
  Ok (mkSelection (hb_boundary_id b) (hb_symbol b) (hb_stream_kind b) (hb_boundary_sequence b)
        selected_refs excluded_overlap_records excluded_duplicate_records
        (so_first_sequence first_ref) (so_final_sequence last_ref) (hex (sha256 canonical))).
End selection.

(** ** Deriving a boundary (splice.rs) *)

Definition SELECTOR_VERSION : string := "CanonicalSelectorV1".

Definition position (o : CanonicalObservationV1) : RawPositionV1 :=
  mkPosition (co_connection_epoch o) (co_stream o) (co_frame_index o) (co_record_sha256 o).

(** [predecessor.iter().map(..).collect::<HashMap<_, _>>()]: the last of equal keys. *)
Definition by_sequence (predecessor : list CanonicalObservationV1)
    : gmap Z CanonicalObservationV1 :=
  foldl (λ m item, <[co_final_sequence item := item]> m) ∅ predecessor.

Abbreviation splice := (CanonicalObservationV1 * CanonicalObservationV1 * CanonicalObservationV1)%type.

Definition splice_continues (kind : BoundaryStreamKind) (next : Z)
    (predecessor_boundary boundary continuation : CanonicalObservationV1) : bool :=
  match kind with
  | Depth => (co_first_sequence continuation <=? next) && (next <=? co_final_sequence continuation)
  | Trade =>
      (co_first_sequence predecessor_boundary =? co_final_sequence boundary)
      && (co_first_sequence boundary =? co_final_sequence boundary)
      && (co_first_sequence continuation =? next) && (co_final_sequence continuation =? next)
  end.

(** One window of [successor.windows(2)]. *)
Definition splice_window (kind : BoundaryStreamKind) (m : gmap Z CanonicalObservationV1)
    (selected : option splice) (boundary continuation : CanonicalObservationV1)
    : res (option splice) :=
  match m !! co_final_sequence boundary with
  | None => Ok selected
  | Some predecessor_boundary =>
      if negb (String.eqb (co_observation_sha256 predecessor_boundary)
                 (co_observation_sha256 boundary))
      then Ok selected else
      next ← ok_or (checked_add (co_final_sequence boundary) 1) "boundary sequence overflow";
      Ok (if splice_continues kind next predecessor_boundary boundary continuation
             && match selected with
                | None => true
                | Some (old, _, _) =>
                    co_final_sequence old <? co_final_sequence predecessor_boundary
                end
          then Some (predecessor_boundary, boundary, continuation) else selected)
  end.

Fixpoint splice_windows (kind : BoundaryStreamKind) (m : gmap Z CanonicalObservationV1)
    (selected : option splice) (successor : list CanonicalObservationV1) : res (option splice) :=
  match successor with
  | boundary :: (continuation :: _) as rest =>
      selected ← splice_window kind m selected boundary continuation;
      splice_windows kind m selected rest
  | _ => Ok selected
  end.

Definition derive_handover_boundary (boundary_id : string) (kind : BoundaryStreamKind)
    (predecessor successor : list CanonicalObservationV1)
    (predecessor_durability successor_durability : BoundaryDurabilityV1) (spec_revision : string)
    : res HandoverBoundaryV1 :=
  _ ← reject (is_blank boundary_id) "boundary ID is required";
  first_predecessor ← ok_or (head predecessor) "predecessor observations are empty";
  first_successor ← ok_or (head successor) "successor observations are empty";
  _ ← reject (negb (String.eqb (co_symbol first_predecessor) (co_symbol first_successor))
      || negb (String.eqb (co_stream first_predecessor) (co_stream first_successor))
      || negb (bool_decide (co_stream_kind first_predecessor = kind))
      || negb (bool_decide (co_stream_kind first_successor = kind))
      || String.eqb (co_connection_epoch first_predecessor) (co_connection_epoch first_successor))
      "A/B observation identity does not define independent matching epochs";
  selected ← splice_windows kind (by_sequence predecessor) None successor;
  '(predecessor_boundary, successor_boundary, successor_continuation) ←
    ok_or selected "no converged A/B boundary with a venue-valid B continuation";
  let b := mkBoundary "HandoverBoundaryV1" boundary_id "production-public-market-data"
    (co_symbol first_predecessor) kind (co_stream first_predecessor)
    (co_connection_epoch first_predecessor) (co_connection_epoch first_successor)
    (co_final_sequence predecessor_boundary) (co_observation_sha256 predecessor_boundary)
    (position predecessor_boundary) (position successor_boundary) (position successor_continuation)
    predecessor_durability successor_durability spec_revision SELECTOR_VERSION in
  _ ← boundary_validate b;
  Ok b.

(** ** The boundary journal *)

Section journal.
Context `{Hsha : Sha256} `{Hjr : Serde BoundaryJournalRecordV1}.

Section journal_writer.
Context {S : Type} `{Hsink : DurableSink S}.

Definition journal_from_sink (sink : S) : res (BoundaryJournalWriter S) :=
  let '(sink, r) := write_all BOUNDARY_MAGIC sink in
  _ ← map_err "write boundary magic: " r;
  let '(sink, r) := sync_all sink in
  _ ← map_err "sync boundary magic: " r;
  Ok (mkJournal sink (len BOUNDARY_MAGIC) ZERO_DIGEST None false false).

(** [write_all(..).and_then(flush).and_then(sync_all)] *)
Definition write_flush_sync (b : bytes) (s : S) : S * (string + unit) :=
  let '(s, r) := write_all b s in
  match r with
  | inl e => (s, inl e)
  | inr _ => let '(s, r) := flush s in
             match r with inl e => (s, inl e) | inr _ => sync_all s end
  end.

Definition append_and_sync (record : BoundaryJournalRecordV1)
    : SE (BoundaryJournalWriter S) BoundaryJournalAckV1 :=
  w ← get;
  lift (reject (jw_poisoned w) "boundary journal is poisoned");;
  body ← lift (map_err "serialize boundary record: " (to_vec record));
  lift (reject (BOUNDARY_MAX_RECORD_BYTES <? len body)
          "boundary journal record exceeds maximum size");;
  lift (reject (u32_max <? len body) "boundary record length does not fit u32");;
  let digest := sha256 body in
  let encoded := encode_record body digest in
  let '(s, r) := write_flush_sync encoded (jw_sink w) in
  match r with
  | inl error =>
      put (mkJournal s (jw_end_offset w) (jw_previous_digest w) (jw_proposal w)
             (jw_committed w) true);;
      throw ("sync boundary record; journal poisoned: " ++ error)
  | inr _ =>
      put (mkJournal s (jw_end_offset w) (jw_previous_digest w) (jw_proposal w)
             (jw_committed w) false);;
      end_offset ← lift (ok_or (checked_add (jw_end_offset w) (len encoded))
                           "boundary journal offset overflow");
      count ← lift (add_u64 (jr_record_index record) 1);
      put (mkJournal s end_offset (hex digest) (jw_proposal w) (jw_committed w) false);;
      mret (mkJournalAck (jr_action record) (jr_boundary_id record) count end_offset (hex digest))
  end.

Definition propose (boundary : HandoverBoundaryV1)
    : SE (BoundaryJournalWriter S) BoundaryJournalAckV1 :=
  w ← get;
  lift (reject (bool_decide (is_Some (jw_proposal w)) || jw_committed w)
          "boundary journal already has a proposal");;
  lift (boundary_validate boundary);;
  ack ← append_and_sync (mkJournalRecord "BoundaryJournalRecordV1" 0 Proposed
          (hb_boundary_id boundary) (Some boundary) None (jw_previous_digest w));
  modify (λ w, mkJournal (jw_sink w) (jw_end_offset w) (jw_previous_digest w)
                 (Some (boundary, ja_last_record_sha256 ack)) (jw_committed w) (jw_poisoned w));;
  mret ack.

Definition commit (boundary_id : string)
    : SE (BoundaryJournalWriter S) BoundaryJournalAckV1 :=
  w ← get;
  lift (reject (jw_committed w) "boundary journal is already committed");;
  '(boundary, proposal_digest) ← lift (ok_or (jw_proposal w)
                                  "boundary cannot commit before durable proposal");
  lift (reject (negb (String.eqb (hb_boundary_id boundary) boundary_id))
          "commit boundary ID does not match proposal");;
  ack ← append_and_sync (mkJournalRecord "BoundaryJournalRecordV1" 1 Committed boundary_id
          None (Some proposal_digest) (jw_previous_digest w));
  modify (λ w, mkJournal (jw_sink w) (jw_end_offset w) (jw_previous_digest w)
                 (jw_proposal w) true (jw_poisoned w));;
  mret ack.
End journal_writer.

Definition validate_scanned_record (record : BoundaryJournalRecordV1) (expected_index : Z)
    (previous : string) (proposal : option (HandoverBoundaryV1 * string))
    (already_committed : bool) : res unit :=
  _ ← reject (negb (String.eqb (jr_schema record) "BoundaryJournalRecordV1")
      || negb (jr_record_index record =? expected_index)
      || negb (String.eqb (jr_previous_record_sha256 record) previous))
      "boundary journal chain/index mismatch";
  match jr_action record with
  | Proposed =>
      _ ← reject (negb (expected_index =? 0) || bool_decide (is_Some proposal)
                  || already_committed) "illegal duplicate boundary proposal";
      boundary ← ok_or (jr_boundary record) "proposal missing boundary";
      _ ← boundary_validate boundary;
      reject (negb (String.eqb (hb_boundary_id boundary) (jr_boundary_id record))
              || bool_decide (is_Some (jr_proposal_record_sha256 record)))
        "proposal identity/reference mismatch"
  | Committed =>
      '(boundary, proposal_digest) ← ok_or proposal "commit has no valid proposal";
      reject (negb (expected_index =? 1) || already_committed
              || bool_decide (is_Some (jr_boundary record))
              || negb (String.eqb (jr_boundary_id record) (hb_boundary_id boundary))
              || negb (bool_decide (jr_proposal_record_sha256 record = Some proposal_digest)))
        "commit identity/reference mismatch"
  end.

Record journal_state := mkJournalState {
  jt_records : Z; jt_last_good_offset : Z; jt_previous : string;
  jt_proposal : option (HandoverBoundaryV1 * string);
  jt_committed : option HandoverBoundaryV1; jt_reason : option string
}.
Definition stop_scan (st : journal_state) (reason : string) : journal_state :=
  mkJournalState (jt_records st) (jt_last_good_offset st) (jt_previous st) (jt_proposal st)
    (jt_committed st) (Some reason).

(** The loop of [scan_boundary_journal]; [S (length input)] turns are enough
    ([journal_loop_fuel]). *)
Fixpoint journal_loop (fuel : nat) (input : bytes) (st : journal_state) : res journal_state :=
  match fuel with
  | O => Panic
  | Datatypes.S fuel =>
    match read_frame BOUNDARY_MAX_RECORD_BYTES input with
    | FrameEof => Ok st
    | FramePartialPrefix => Ok (stop_scan st "partial boundary length prefix")
    | FrameTooLong => Ok (stop_scan st "boundary record length exceeds limit")
    | FramePartialBody => Ok (stop_scan st "partial boundary record body")
    | FramePartialDigest => Ok (stop_scan st "partial boundary record digest")
    | FrameRead body digest rest =>
        if negb (bool_decide (sha256 body = digest))
        then Ok (stop_scan st "boundary record digest mismatch") else
        match from_slice body with
        | inl error => Ok (stop_scan st ("invalid boundary record JSON: " ++ error))
        | inr record =>
            match validate_scanned_record record (jt_records st) (jt_previous st)
                    (jt_proposal st) (bool_decide (is_Some (jt_committed st))) with
            | Panic => Panic
            | Err error => Ok (stop_scan st error)
            | Ok _ =>
                '(proposal, committed) ←
                  match jr_action record with
                  | Proposed =>
                      boundary ← expect (jr_boundary record);
                      Ok (Some (boundary, hex digest), jt_committed st)
                  | Committed => Ok (jt_proposal st, fst <$> jt_proposal st)
                  end;
                records ← add_u64 (jt_records st) 1;
                last_good_offset ← add_u64 (jt_last_good_offset st) (4 + len body + 32);
                journal_loop fuel rest
                  (mkJournalState records last_good_offset (hex digest) proposal committed None)
            end
        end
    end
  end.

Definition scan_failure (file_size records last_good_offset : Z) (reason : string)
    : BoundaryJournalScanV1 :=
  mkJournalScan file_size records last_good_offset false (Some reason) None None ZERO_DIGEST.

Definition scan_boundary_journal (file : bytes) : res BoundaryJournalScanV1 :=
  if negb (bool_decide (take 8 file = BOUNDARY_MAGIC))
  then Ok (scan_failure (len file) 0 0 "bad boundary journal magic") else
  st ← journal_loop (Datatypes.S (length (drop 8 file))) (drop 8 file)
         (mkJournalState 0 (len BOUNDARY_MAGIC) ZERO_DIGEST None None None);
  Ok (mkJournalScan (len file) (jt_records st) (jt_last_good_offset st)
        (negb (bool_decide (is_Some (jt_reason st)))) (jt_reason st) (fst <$> jt_proposal st)
        (jt_committed st) (jt_previous st)).
End journal.

(** ** Theory of the selection *)

(** [y] may follow [x]: it reaches the next sequence number and starts no later. *)
Definition bridges (x y : CanonicalObservationV1) : Prop :=
  co_first_sequence y ≤ co_final_sequence x + 1 ≤ co_final_sequence y.

Fixpoint linked (l : list CanonicalObservationV1) : Prop :=
  match l with
  | x :: (y :: _) as rest => bridges x y ∧ linked rest
  | _ => True
  end.

Definition ranged (o : CanonicalObservationV1) : Prop := co_first_sequence o ≤ co_final_sequence o.

Lemma linked_snoc l y :
  linked l → (∀ x, last l = Some x → bridges x y) → linked (l ++ [y]).
Proof.
  induction l as [|x [|z l] IH]; intros Hl Hy; simpl in *; [done|by auto|].
  destruct Hl as [? Hl]. split; [done|]. apply IH; [done|]. intros x0. apply Hy.
Qed.

Lemma linked_covers x l z n :
  linked (x :: l) → Forall ranged (x :: l) → last (x :: l) = Some z →
  co_first_sequence x ≤ n ≤ co_final_sequence z →
  ∃ o, o ∈ x :: l ∧ co_first_sequence o ≤ n ≤ co_final_sequence o.
Proof.
  revert x. induction l as [|y l IH]; intros x Hl HF Hz Hn.
  - injection Hz as <-. exists x. split; [set_solver|done].
  - destruct (decide (n ≤ co_final_sequence x)).
    + exists x. split; [set_solver|lia].
    + destruct Hl as [[? ?] Hl]. apply Forall_cons in HF as [_ HF]. rewrite last_cons_cons in Hz.
      destruct (IH y Hl HF Hz) as (o & Ho & ?); [lia|]. exists o. split; [set_solver|done].
Qed.

Lemma select_fold kind cs sel0 d0 sel d :
  linked sel0 → try_fold (select_step kind) (sel0, d0) cs = Ok (sel, d) →
  ∃ added, sel = sel0 ++ added ∧ added `sublist_of` cs ∧ linked sel ∧
    d + len added = d0 + len cs.
Proof.
  revert sel0 d0. induction cs as [|o cs IH]; intros sel0 d0 Hl H; cbn [try_fold] in H.
  { injection H as <- <-. exists []. rewrite app_nil_r. done. }
  apply res_bind_Ok in H as ([sel1 d1] & H1 & H). rewrite len_cons.
  assert ((sel1 = sel0 ++ [o] ∧ d1 = d0 ∧ linked sel1) ∨ (sel1 = sel0 ∧ d1 = d0 + 1)) as Hc.
  { unfold select_step in H1. destruct (last sel0) as [p|] eqn:Hp.
    - apply res_bind_Ok in H1 as (next & Hn%ok_or_Ok & H1).
      apply checked_add_Some in Hn as [_ ->]. destruct (_ <? _) eqn:E1.
      + destruct (_ && _); [|done]. apply res_bind_Ok in H1 as (d' & Hd & H1).
        apply add_u64_Ok in Hd as [_ ->]. injection H1 as <- <-. by right.
      + apply res_bind_Ok in H1 as ([] & H2%reject_Ok & H1).
        apply res_bind_Ok in H1 as ([] & _ & H1). injection H1 as <- <-. left.
        split_and!; try done. apply linked_snoc; [done|]. intros x Hx. rewrite Hp in Hx.
        injection Hx as <-. unfold bridges. lia.
    - injection H1 as <- <-. left. split_and!; try done. apply linked_snoc; [done|].
      intros x Hx. congruence. }
  destruct Hc as [(-> & -> & Hl1)|(-> & ->)].
  - destruct (IH _ _ Hl1 H) as (added & -> & ? & ? & ?). exists (o :: added).
    rewrite <-app_assoc. split_and!; try done; [by constructor| |rewrite len_cons; lia].
    by rewrite <-app_assoc in *.
  - destruct (IH _ _ Hl H) as (added & -> & ? & ? & ?). exists added.
    split_and!; try done; [by constructor|lia].
Qed.

Lemma validate_observations_inv b os epoch :
  validate_observations b os epoch = Ok () →
  Forall (λ o, ranged o ∧ co_connection_epoch o = epoch) os.
Proof.
  unfold validate_observations. intros H. apply res_bind_Ok in H as ([] & _ & H).
  apply res_bind_Ok in H as (x & H & _). revert H. generalize (@None Z).
  induction os as [|o os IH]; intros prev H; [constructor|]. cbn [try_fold] in H.
  apply res_bind_Ok in H as (p1 & H1 & H). constructor; [|by eapply IH].
  unfold validate_observation in H1. apply res_bind_Ok in H1 as ([] & H1%reject_Ok & _).
  split_orb. split; [unfold ranged; lia|by apply String.eqb_eq].
Qed.

Lemma len_filter_split {A} (p q : A → bool) l :
  (∀ x, q x = negb (p x)) → len (List.filter p l) + len (List.filter q l) = len l.
Proof.
  intros Hq. induction l as [|x l IH]; [done|]. simpl. rewrite Hq.
  destruct (p x); simpl; rewrite !len_cons; lia.
Qed.

Lemma find_reverse_app {A} (p : A → bool) l1 l2 :
  Forall (λ x, p x = false) l2 → Forall (λ x, p x = true) l1 →
  List.find p (reverse (l1 ++ l2)) = last l1.
Proof.
  intros H2 H1. rewrite reverse_app. induction l2 as [|x l2 IH] using rev_ind.
  - rewrite reverse_nil. simpl. destruct l1 as [|x l1] using rev_ind; [done|].
    rewrite reverse_snoc, last_snoc. simpl. apply Forall_app in H1 as [_ H1].
    apply Forall_cons in H1 as [-> _]. done.
  - apply Forall_app in H2 as [H2 Hx]. apply Forall_cons in Hx as [Hx _].
    rewrite reverse_snoc. simpl. rewrite Hx. by apply IH.
Qed.

Lemma find_app_head {A} (p : A → bool) l1 l2 :
  Forall (λ x, p x = false) l1 → Forall (λ x, p x = true) l2 →
  List.find p (l1 ++ l2) = head l2.
Proof.
  intros H1 H2. induction H1 as [|x l1 Hx H1 IH]; simpl; [|by rewrite Hx].
  destruct l2; [done|]. apply Forall_cons in H2 as [Hp _]. simpl. by rewrite Hp.
Qed.

Lemma filter_Forall {A} (p : A → bool) (P : A → Prop) l :
  Forall P l → Forall (λ x, p x = true ∧ P x) (List.filter p l).
Proof.
  induction 1 as [|x l Hx Hl IH]; [constructor|]. simpl. destruct (p x) eqn:E; [by constructor|done].
Qed.

Lemma Forall_sublist {A} (P : A → Prop) l k : Forall P k → l `sublist_of` k → Forall P l.
Proof. intros HF Hs. induction Hs; [done|inversion HF; subst; constructor; auto..|]. inversion HF; auto. Qed.

Definition ref_covers (n : Z) (r : SelectedObservationV1) : Prop :=
  so_first_sequence r ≤ n ≤ so_final_sequence r.

Section selection_claims.
Context `{Hsha : Sha256} `{Hmat : Serde SelectionDigestMaterial}.

(** The observations behind a selection, before they are abbreviated. *)
Lemma select_canonical_parts b predecessor successor sel :
  select_canonical b predecessor successor = Ok sel →
  ∃ l1 l2 lp fs, cs_selected sel = map selected_ref (l1 ++ l2) ∧ linked (l1 ++ l2) ∧
    Forall (λ o, ranged o ∧ co_connection_epoch o = hb_predecessor_epoch b ∧
      co_frame_index o ≤ ps_frame_index (hb_predecessor_last_selected b)) l1 ∧
    Forall (λ o, ranged o ∧ co_connection_epoch o = hb_successor_epoch b ∧
      ps_frame_index (hb_successor_first_selected b) ≤ co_frame_index o) l2 ∧
    hb_predecessor_epoch b ≠ hb_successor_epoch b ∧
    List.find (λ o, String.eqb (co_connection_epoch o) (hb_predecessor_epoch b))
      (reverse (l1 ++ l2)) = Some lp ∧ co_final_sequence lp = hb_boundary_sequence b ∧
    List.find (λ o, String.eqb (co_connection_epoch o) (hb_successor_epoch b)) (l1 ++ l2) = Some fs ∧
    co_frame_index fs = ps_frame_index (hb_successor_first_selected b) ∧
    so_first_sequence <$> head (cs_selected sel) = Some (cs_first_sequence sel) ∧
    so_final_sequence <$> last (cs_selected sel) = Some (cs_final_sequence sel) ∧
    len (cs_selected sel) + cs_excluded_overlap_records sel + cs_excluded_duplicate_records sel =
    len predecessor + len successor.
Proof.
  unfold select_canonical. intros H.
  apply res_bind_Ok in H as ([] & Hval & H). apply res_bind_Ok in H as ([] & HP & H).
  apply res_bind_Ok in H as ([] & HS & H). do 3 apply res_bind_Ok in H as (? & _ & H).
  apply res_bind_Ok in H as ([] & _ & H). apply res_bind_Ok in H as ([selected dups] & Hsel & H).
  apply res_bind_Ok in H as ([] & _ & H). apply res_bind_Ok in H as (lp & Hlp%ok_or_Ok & H).
  apply res_bind_Ok in H as (fs & Hfs%ok_or_Ok & H). apply res_bind_Ok in H as ([] & Hk%reject_Ok & H).
  apply res_bind_Ok in H as (fr & Hfr & H). apply res_bind_Ok in H as (lr & Hlr & H).
  apply res_bind_Ok in H as (canon & _ & H). injection H as <-.
  cbn [cs_selected cs_first_sequence cs_final_sequence cs_excluded_overlap_records
       cs_excluded_duplicate_records].
  apply validate_observations_inv in HP, HS.
  destruct (select_fold _ _ [] 0 _ _ I Hsel) as (added & Hadd & Hsub & Hlink & Hcount).
  change ([] ++ added) with added in Hadd. subst added.
  apply sublist_app_r in Hsub as (l1 & l2 & -> & S1 & S2).
  exists l1, l2, lp, fs. split_orb. split_and!; try done; try lia.
  - eapply Forall_sublist; [|exact S1]; [].
    eapply Forall_impl; [by apply filter_Forall|].
    simpl. intros o [? [? ?]]. split_and!; [done..|lia].
  - eapply Forall_sublist; [|exact S2]; [].
    eapply Forall_impl; [by apply filter_Forall|].
    simpl. intros o [? [? ?]]. split_and!; [done..|lia].
  - unfold boundary_validate in Hval. apply res_bind_Ok in Hval as ([] & Hv%reject_Ok & _).
    split_orb. by apply String.eqb_neq.
  - destruct (map selected_ref (l1 ++ l2)); [done|]. by injection Hfr as ->.
  - destruct (last (map selected_ref (l1 ++ l2))); [|done]. by injection Hlr as ->.
  - rewrite !len_app in Hcount.
    rewrite <-(len_filter_split (λ o, co_frame_index o <=? ps_frame_index (hb_predecessor_last_selected b))
      (λ o, ps_frame_index (hb_predecessor_last_selected b) <? co_frame_index o) predecessor) by (intros; cbn beta; lia).
    rewrite <-(len_filter_split (λ o, ps_frame_index (hb_successor_first_selected b) <=? co_frame_index o)
      (λ o, co_frame_index o <? ps_frame_index (hb_successor_first_selected b)) successor) by (intros; cbn beta; lia).
    unfold len in *. rewrite length_map, length_app. lia.
Qed.

(** C5: the canonical selection is a gapless splice. It takes records of the
    predecessor connection up to the boundary position, ending exactly at
    the boundary sequence, and then records of the successor from its first
    selected position on; every sequence number from the first to the last
    is covered by a selected record; and every observation is accounted for
    as selected, excluded overlap or excluded duplicate. *)
Theorem canonical_selection_gapless b predecessor successor sel :
  select_canonical b predecessor successor = Ok sel →
  (∃ l1 l2 k s, cs_selected sel = l1 ++ l2 ∧
     Forall (λ r, so_connection_epoch r = hb_predecessor_epoch b ∧
                  so_frame_index r ≤ ps_frame_index (hb_predecessor_last_selected b)) l1 ∧
     Forall (λ r, so_connection_epoch r = hb_successor_epoch b ∧
                  ps_frame_index (hb_successor_first_selected b) ≤ so_frame_index r) l2 ∧
     last l1 = Some k ∧ so_final_sequence k = hb_boundary_sequence b ∧
     head l2 = Some s ∧ so_frame_index s = ps_frame_index (hb_successor_first_selected b)) ∧
  (∀ n, cs_first_sequence sel ≤ n ≤ cs_final_sequence sel →
     ∃ r, r ∈ cs_selected sel ∧ ref_covers n r) ∧
  len (cs_selected sel) + cs_excluded_overlap_records sel + cs_excluded_duplicate_records sel =
  len predecessor + len successor.
Proof.
  intros (l1 & l2 & lp & fs & Hsel & Hlink & F1 & F2 & Hdiff & Hlp & Hk & Hfs & Hf & Hh & Hl &
    Hcount)%select_canonical_parts. rewrite Hsel in *. split_and!; [| |done].
  - rewrite find_reverse_app in Hlp.
    2: { eapply Forall_impl; [exact F2|]. simpl. intros o (_ & -> & _).
         apply String.eqb_neq. congruence. }
    2: { eapply Forall_impl; [exact F1|]. simpl. intros o (_ & -> & _). apply String.eqb_refl. }
    rewrite find_app_head in Hfs.
    2: { eapply Forall_impl; [exact F1|]. simpl. intros o (_ & -> & _). by apply String.eqb_neq. }
    2: { eapply Forall_impl; [exact F2|]. simpl. intros o (_ & -> & _). apply String.eqb_refl. }
    exists (map selected_ref l1), (map selected_ref l2), (selected_ref lp), (selected_ref fs).
    rewrite map_app. split_and!; try done.
    + apply Forall_map; eapply Forall_impl; [exact F1|]; by intros o (_ & ? & ?).
    + apply Forall_map; eapply Forall_impl; [exact F2|]; by intros o (_ & ? & ?).
    + change (map selected_ref l1) with (selected_ref <$> l1). by rewrite fmap_last, Hlp.
    + by destruct l2; [|injection Hfs as ->].
  - intros n Hn. change (map selected_ref (l1 ++ l2)) with (selected_ref <$> (l1 ++ l2)) in *.
    assert (Forall ranged (l1 ++ l2)) as HR
      by (apply Forall_app_2; eapply Forall_impl; [exact F1| |exact F2|]; by intros o [? _]).
    rewrite fmap_last in Hl. destruct (l1 ++ l2) as [|x l]; [done|].
    destruct (last (x :: l)) as [z|] eqn:Ez; [|done].
    injection Hh as Hh. injection Hl as Hl. rewrite <-Hh, <-Hl in Hn.
    destruct (linked_covers x l z n Hlink HR Ez Hn) as (o & Ho & ?).
    exists (selected_ref o). split; [by apply list_elem_of_fmap_2|done].
Qed.
End selection_claims.

(** ** Theory of the derivation *)

(** A window of the successor that converges with the predecessor and
    continues past the convergence. *)
Definition window_ok (kind : BoundaryStreamKind) (m : gmap Z CanonicalObservationV1)
    (w : splice) : Prop :=
  let '(p, s, c) := w in
  m !! co_final_sequence s = Some p ∧ co_observation_sha256 p = co_observation_sha256 s ∧
  splice_continues kind (co_final_sequence s + 1) p s c = true.

Definition window_at (l : list CanonicalObservationV1) (w : splice) : Prop :=
  ∃ i, l !! i = Some w.1.2 ∧ l !! S i = Some w.2.

Definition reached (w : splice) : Z := co_final_sequence w.1.1.

Lemma by_sequence_lookup l k p : by_sequence l !! k = Some p → p ∈ l ∧ co_final_sequence p = k.
Proof.
  unfold by_sequence.
  assert (∀ m : gmap Z CanonicalObservationV1, foldl (λ m item, <[co_final_sequence item := item]> m) m l !! k = Some p →
    m !! k = Some p ∨ (p ∈ l ∧ co_final_sequence p = k)) as W.
  { induction l as [|x l IH]; intros m H; [by left|]. cbn [foldl] in H.
    destruct (IH _ H) as [H1|[? ?]]; [|right; set_solver].
    apply lookup_insert_Some in H1 as [[? ->]|[_ ?]]; [right; set_solver|by left]. }
  intros H. apply W in H as [H|H]; [by rewrite lookup_empty in H|done].
Qed.

Lemma splice_window_cases kind l sel s c sel' :
  splice_window kind (by_sequence l) sel s c = Ok sel' →
  (sel' = sel ∧ ∀ p, window_ok kind (by_sequence l) (p, s, c) →
     ∃ w, sel = Some w ∧ reached (p, s, c) ≤ reached w) ∨
  ∃ p, sel' = Some (p, s, c) ∧ window_ok kind (by_sequence l) (p, s, c) ∧
    (∀ w, sel = Some w → reached w < reached (p, s, c)) ∧
    co_final_sequence s + 1 ≤ u64_max.
Proof.
  unfold splice_window. destruct (by_sequence l !! co_final_sequence s) as [p|] eqn:Hm.
  2: { intros [= <-]. left. split; [done|]. intros p (Hp & _). congruence. }
  destruct (negb _) eqn:Hd.
  { intros [= <-]. left. split; [done|]. intros p' (Hp & Hd' & _).
    assert (p' = p) as -> by congruence. rewrite Hd', String.eqb_refl in Hd. done. }
  apply negb_false_iff, String.eqb_eq in Hd. intros (next & Hn%ok_or_Ok & H)%res_bind_Ok.
  apply checked_add_Some in Hn as [Hmax ->].
  destruct (splice_continues _ _ _ _ _) eqn:Hc; simpl in H.
  - destruct sel as [[[old os] oc]|].
    + destruct (_ <? _) eqn:Hlt in H; injection H as <-.
      * right. exists p. split_and!; try done. intros w [= <-]. unfold reached. simpl. lia.
      * left. split; [done|]. intros p' (Hp & _). exists (old, os, oc). split; [done|].
        unfold reached. simpl. assert (p' = p) as -> by congruence. lia.
    + injection H as <-. right. exists p. by split_and!.
  - injection H as <-. left. split; [done|]. intros p' (Hp & _ & Hc').
    assert (p' = p) as -> by congruence. congruence.
Qed.

Lemma splice_windows_spec kind l sel successor sel' :
  splice_windows kind (by_sequence l) sel successor = Ok sel' →
  (sel' = sel ∨ ∃ w, sel' = Some w ∧ window_ok kind (by_sequence l) w ∧
     window_at successor w ∧ reached w + 1 ≤ u64_max) ∧
  (∀ w, sel = Some w → ∃ w', sel' = Some w' ∧ reached w ≤ reached w') ∧
  ∀ w, window_ok kind (by_sequence l) w → window_at successor w →
    ∃ w', sel' = Some w' ∧ reached w ≤ reached w'.
Proof.
  revert sel. induction successor as [|s [|c rest] IH]; intros sel H; cbn [splice_windows] in H.
  1,2: injection H as <-; split_and!; [by left|intros w ->; by exists w|].
  1: intros [[p ?] ?] _ (i & Hi & _); by rewrite lookup_nil in Hi.
  1: intros [[p ?] ?] _ (i & _ & Hi); destruct i; simpl in Hi; by rewrite ?lookup_nil in Hi.
  apply res_bind_Ok in H as (sel1 & H1 & H). destruct (IH _ H) as (I1 & I2 & I3).
  assert (∀ w, window_at (c :: rest) w → window_at (s :: c :: rest) w) as Hshift
    by (intros w (i & ? & ?); by exists (S i)).
  assert (∀ w, window_at (s :: c :: rest) w →
    (w.1.2 = s ∧ w.2 = c) ∨ window_at (c :: rest) w) as Hcases.
  { intros w ([|i] & Hi & Hj); simpl in Hi, Hj; [left; split; congruence|right; by exists i]. }
  destruct (splice_window_cases _ _ _ _ _ _ H1) as [[-> Hskip]|(p & -> & Hok & Hold & Hmax)].
  - split_and!; [|done|].
    + destruct I1 as [->|(w & ? & ? & ? & ?)]; [by left|]. right. exists w. by auto.
    + intros [[p s'] c'] Hw [[? ?]|?]%Hcases; [|by apply I3]. simpl in *. subst s' c'.
      destruct (Hskip p Hw) as (w & -> & ?). destruct (I2 w eq_refl) as (w' & ? & ?).
      exists w'. split; [done|lia].
  - split_and!.
    + right. destruct I1 as [->|(w & ? & ? & ? & ?)]; [|exists w; by auto].
      exists (p, s, c). split_and!; try done; [by exists 0%nat|].
      destruct Hok as (Hp & _). apply by_sequence_lookup in Hp as [_ Hp]. unfold reached. simpl. lia.
    + intros w Hw. destruct (I2 _ eq_refl) as (w' & ? & ?). specialize (Hold w Hw).
      exists w'. split; [done|lia].
    + intros [[p' s'] c'] Hw [[? ?]|?]%Hcases; [|by apply I3]. simpl in *. subst s' c'.
      assert (p' = p) as -> by (destruct Hok as (? & _), Hw as (? & _); congruence).
      by apply I2.
Qed.

(** A derived boundary is the latest convergence of the two connections.
    Its records are a predecessor observation and two adjacent successor
    observations that satisfy every check the selection repeats, and no other
    adjacent pair of the successor that converges with the predecessor and
    continues past it reaches a later sequence number. *)
Theorem derived_boundary_is_latest id kind predecessor successor dp ds rev b :
  derive_handover_boundary id kind predecessor successor dp ds rev = Ok b →
  boundary_validate b = Ok () ∧
  (∃ p s c, p ∈ predecessor ∧ window_at successor (p, s, c) ∧
     hb_predecessor_last_selected b = position p ∧
     hb_successor_boundary_observation b = position s ∧
     hb_successor_first_selected b = position c ∧
     validate_boundary_observations b p s c = Ok ()) ∧
  ∀ w, window_ok kind (by_sequence predecessor) w → window_at successor w →
    reached w ≤ hb_boundary_sequence b.
Proof.
  unfold derive_handover_boundary. intros H. apply res_bind_Ok in H as ([] & _ & H).
  apply res_bind_Ok in H as (fp & _ & H). apply res_bind_Ok in H as (fs & _ & H).
  apply res_bind_Ok in H as ([] & _ & H). apply res_bind_Ok in H as (sel & Hw & H).
  apply res_bind_Ok in H as ([[p s] c] & Hsel%ok_or_Ok & H). subst sel.
  apply res_bind_Ok in H as ([] & Hval & H). injection H as <-.
  destruct (splice_windows_spec _ _ _ _ _ Hw) as (I1 & _ & I3).
  destruct I1 as [|(w & [= <-] & (Hp & Hd & Hc) & Hat & Hmax)]; [done|].
  apply by_sequence_lookup in Hp as [Hin Hfin]. unfold reached in Hmax. simpl in Hmax.
  split_and!; [done| |].
  - exists p, s, c. split_and!; try done. unfold validate_boundary_observations.
    cbn [hb_boundary_sequence hb_boundary_sha256 hb_stream_kind].
    rewrite Hfin, Z.eqb_refl, Hd, String.eqb_refl. cbn [negb orb reject mbind res_bind].
    replace (checked_add (co_final_sequence s) 1) with (Some (co_final_sequence s + 1))
      by (symmetry; apply checked_add_Some; lia).
    cbn [ok_or mbind res_bind]. unfold splice_continues in Hc.
    destruct kind; split_orb.
    + by rewrite !(proj2 (Z.ltb_ge _ _)) by lia.
    + by repeat match goal with E : (_ =? _) = true |- _ => rewrite E; clear E end.
  - intros w Hok Hat'. destruct (I3 w Hok Hat') as (w' & [= <-] & ?). done.
Qed.

(** ** Theory of the journal *)

Lemma validate_digest_nopanic d : validate_digest d ≠ Panic.
Proof. apply reject_nopanic. Qed.
#[export] Hint Resolve validate_digest_nopanic : nopanic.
Lemma boundary_validate_nopanic b : boundary_validate b ≠ Panic.
Proof. unfold boundary_validate. nopanic. Qed.
#[export] Hint Resolve boundary_validate_nopanic : nopanic.

Section journal_theory.
Context `{Hsha : Sha256} `{Hjr : Serde BoundaryJournalRecordV1}.

Lemma validate_scanned_nopanic record i p prop c : validate_scanned_record record i p prop c ≠ Panic.
Proof. unfold validate_scanned_record. nopanic. Qed.

Definition journal_inv (st : journal_state) : Prop :=
  match jt_proposal st, jt_committed st with
  | None, None => jt_records st = 0
  | Some (b, _), None => jt_records st = 1 ∧ boundary_validate b = Ok ()
  | Some (b, _), Some c => jt_records st = 2 ∧ b = c ∧ boundary_validate b = Ok ()
  | None, Some _ => False
  end.

(** The state after a record that passes validation. *)
Lemma validate_scanned_inv record st :
  journal_inv st →
  validate_scanned_record record (jt_records st) (jt_previous st) (jt_proposal st)
    (bool_decide (is_Some (jt_committed st))) = Ok () →
  match jr_action record with
  | Proposed => ∃ b, jr_boundary record = Some b ∧ boundary_validate b = Ok () ∧
      jt_proposal st = None ∧ jt_committed st = None ∧ jt_records st = 0
  | Committed => ∃ b d', jt_proposal st = Some (b, d') ∧ boundary_validate b = Ok () ∧
      jt_committed st = None ∧ jt_records st = 1
  end.
Proof.
  intros Hinv H. unfold validate_scanned_record in H.
  apply res_bind_Ok in H as ([] & _ & H). unfold journal_inv in Hinv.
  destruct (jr_action record).
  - apply res_bind_Ok in H as ([] & H1%reject_Ok & H).
    apply res_bind_Ok in H as (b & Hb%ok_or_Ok & H). apply res_bind_Ok in H as ([] & Hv & _).
    exists b. destruct (jt_proposal st), (jt_committed st); [by rewrite orb_true_r in H1..| |]; [done|].
    by split_and!.
  - apply res_bind_Ok in H as ([b d'] & Hb%ok_or_Ok & H). apply reject_Ok in H.
    rewrite Hb in *. exists b, d'. destruct (jt_committed st); [|naive_solver].
    exfalso. rewrite orb_true_r in H. done.
Qed.

Lemma journal_loop_sound fuel input st :
  (length input < fuel)%nat → journal_inv st →
  0 ≤ jt_last_good_offset st → jt_last_good_offset st + len input ≤ u64_max →
  ∃ st', journal_loop fuel input st = Ok st' ∧ journal_inv st'.
Proof.
  revert input st. induction fuel as [|fuel IH]; intros input st Hf Hinv Ho Hmax; [lia|].
  cbn [journal_loop]. destruct (read_frame _ input) as [| | | | |body digest rest] eqn:Er;
    try (by eexists).
  pose proof (read_frame_shorter _ _ _ _ _ Er) as Hshort.
  apply read_frame_inv in Er as (-> & _ & Hd); [|done].
  rewrite len_app, length_encode_record in Hmax. pose proof (len_nonneg body).
  pose proof (len_nonneg rest). unfold len in Hmax at 2. rewrite Hd in Hmax.
  destruct (negb _); [by eexists|]. destruct (from_slice body) as [e|record]; [by eexists|].
  destruct (validate_scanned_record _ _ _ _ _) as [[]|e|] eqn:Hv;
    [|by eexists|by apply validate_scanned_nopanic in Hv].
  apply validate_scanned_inv in Hv; [|done].
  assert (jt_records st = 0 ∨ jt_records st = 1) as Hrec
    by (destruct (jr_action record); naive_solver).
  destruct (jr_action record).
  - destruct Hv as (b & -> & Hb & Hp & Hc & Hr). cbn [expect mbind res_bind].
    destruct (add_u64_cases (jt_records st) 1) as [[-> _]|[_ ?]]; [|lia].
    destruct (add_u64_cases (jt_last_good_offset st) (4 + len body + 32)) as [[-> _]|[_ ?]]; [|lia].
    cbn [mbind res_bind]. apply IH; [lia| |cbn; lia|cbn; lia].
    unfold journal_inv. cbn. rewrite Hc. split; [lia|done].
  - destruct Hv as (b & d' & Hp & Hb & Hc & Hr). cbn [mbind res_bind].
    destruct (add_u64_cases (jt_records st) 1) as [[-> _]|[_ ?]]; [|lia].
    destruct (add_u64_cases (jt_last_good_offset st) (4 + len body + 32)) as [[-> _]|[_ ?]]; [|lia].
    cbn [mbind res_bind]. apply IH; [lia| |cbn; lia|cbn; lia].
    unfold journal_inv. cbn. rewrite Hp. cbn. split; [lia|done].
Qed.

(** The journal scanner is total and sound on arbitrary bytes. It always
    returns a report, and whatever the file holds, a boundary it reports as
    committed is the boundary of the one valid proposal before it, passes
    validation, and comes with exactly two accepted records. *)
Theorem journal_scan_sound file :
  len file ≤ u64_max →
  ∃ sc, scan_boundary_journal file = Ok sc ∧
    (∀ b, js_committed sc = Some b →
       js_proposal sc = Some b ∧ boundary_validate b = Ok () ∧ js_records sc = 2) ∧
    (∀ b, js_proposal sc = Some b → boundary_validate b = Ok ()).
Proof.
  intros Hlen. unfold scan_boundary_journal.
  destruct (bool_decide _) eqn:Hm; cbn [negb]; [|by eexists].
  apply bool_decide_eq_true in Hm.
  destruct (journal_loop_sound (S (length (drop 8 file))) (drop 8 file)
    (mkJournalState 0 (len BOUNDARY_MAGIC) ZERO_DIGEST None None None)) as (st & Hst & Hinv);
    [lia|done|done| |].
  { cbn [jt_last_good_offset]. rewrite <-Hm, <-len_app, take_drop. done. }
  rewrite Hst. cbn [mbind res_bind]. eexists. split; [reflexivity|]. cbn.
  unfold journal_inv in Hinv. split; intros b Hb.
  - rewrite Hb in Hinv. destruct (jt_proposal st) as [[? ?]|]; [|done]. cbn. naive_solver.
  - destruct (jt_proposal st) as [[? ?]|]; [|done]. cbn in Hb.
    destruct (jt_committed st); naive_solver.
Qed.

Context `{!Sha256Laws Hsha} `{!SerdeLaws BoundaryJournalRecordV1 Hjr}.

(** The bytes of a record's body on disk. *)
Definition journal_entry (body : bytes) : bytes := encode_record body (sha256 body).

Lemma journal_entry_loop fuel body record rest st st' proposal committed :
  to_vec record = inr body → len body ≤ BOUNDARY_MAX_RECORD_BYTES →
  validate_scanned_record record (jt_records st) (jt_previous st) (jt_proposal st)
    (bool_decide (is_Some (jt_committed st))) = Ok () →
  (match jr_action record with
   | Proposed => jr_boundary record = (fst <$> proposal) ∧ is_Some proposal ∧
       snd <$> proposal = Some (hex (sha256 body)) ∧ committed = jt_committed st
   | Committed => proposal = jt_proposal st ∧ committed = fst <$> jt_proposal st
   end) →
  jt_records st + 1 ≤ u64_max → jt_last_good_offset st + (4 + len body + 32) ≤ u64_max →
  st' = mkJournalState (jt_records st + 1) (jt_last_good_offset st + (4 + len body + 32))
          (hex (sha256 body)) proposal committed None →
  journal_loop (S fuel) (journal_entry body ++ rest) st = journal_loop fuel rest st'.
Proof.
  intros Hvec Hlen Hval Hact Hr Ho ->. cbn [journal_loop]. unfold journal_entry.
  rewrite read_frame_encode by (done || apply length_sha256).
  rewrite bool_decide_eq_true_2 by done. cbn [negb]. rewrite (from_to_vec _ _ Hvec), Hval.
  destruct (add_u64_cases (jt_records st) 1) as [[-> _]|[_ ?]]; [|lia].
  destruct (add_u64_cases (jt_last_good_offset st) (4 + len body + 32)) as [[-> _]|[_ ?]]; [|lia].
  destruct (jr_action record).
  - destruct Hact as (-> & [[b d] ->] & [= ->] & ->). done.
  - by destruct Hact as [-> ->].
Qed.

(** A torn entry leaves the position, proposal and commitment as they were. *)
Lemma journal_torn_loop fuel body k st :
  len body ≤ BOUNDARY_MAX_RECORD_BYTES → (k < length (journal_entry body))%nat →
  ∃ st', journal_loop (S fuel) (take k (journal_entry body)) st = Ok st' ∧
    jt_proposal st' = jt_proposal st ∧ jt_committed st' = jt_committed st.
Proof.
  intros Hlen Hk. cbn [journal_loop].
  destruct (read_frame _ _) as [| | | | |b d r] eqn:Er; try (by eexists).
  exfalso. by eapply (read_frame_torn _ body (sha256 body) k b d r); [..|exact Er];
    [done|done|apply length_sha256|].
Qed.

Lemma length_journal_entry body : Z.of_nat (length (journal_entry body)) = 36 + len body.
Proof. apply len_written. Qed.

(** A prefix of a journal of one proposal and its commitment. *)
Lemma journal_two_entries b body1 body2 n :
  let r1 := mkJournalRecord "BoundaryJournalRecordV1" 0 Proposed (hb_boundary_id b) (Some b) None
              ZERO_DIGEST in
  let r2 := mkJournalRecord "BoundaryJournalRecordV1" 1 Committed (hb_boundary_id b) None
              (Some (hex (sha256 body1))) (hex (sha256 body1)) in
  let e1 := journal_entry body1 in let e2 := journal_entry body2 in
  boundary_validate b = Ok () → to_vec r1 = inr body1 → to_vec r2 = inr body2 →
  len body1 ≤ BOUNDARY_MAX_RECORD_BYTES → len body2 ≤ BOUNDARY_MAX_RECORD_BYTES → (8 ≤ n)%nat →
  ∃ sc, scan_boundary_journal (take n (BOUNDARY_MAGIC ++ e1 ++ e2)) = Ok sc ∧
    js_proposal sc = (if 8 + len e1 <=? Z.of_nat n then Some b else None) ∧
    js_committed sc = (if 8 + len e1 + len e2 <=? Z.of_nat n then Some b else None).
Proof.
  intros r1 r2 e1 e2 Hb V1 V2 L1 L2 Hn.
  pose proof (length_journal_entry body1) as Hl1. pose proof (length_journal_entry body2) as Hl2.
  fold e1 in Hl1. fold e2 in Hl2. unfold BOUNDARY_MAX_RECORD_BYTES in L1, L2.
  pose proof (len_nonneg body1). pose proof (len_nonneg body2). unfold len in Hl1, Hl2.
  assert (∃ k, n = (8 + k)%nat) as [k ->] by (exists (n - 8)%nat; lia).
  unfold scan_boundary_journal. change (take (8 + k) (BOUNDARY_MAGIC ++ e1 ++ e2))
    with (BOUNDARY_MAGIC ++ take k (e1 ++ e2)).
  rewrite take_app_length', drop_app_length' by done. rewrite bool_decide_eq_true_2 by done.
  cbn [negb]. change (len BOUNDARY_MAGIC) with 8.
  set (st0 := mkJournalState 0 _ _ _ _ _).
  assert (len e1 = Z.of_nat (length e1) ∧ len e2 = Z.of_nat (length e2)) as [E1 E2] by done.
  destruct (decide (k < length e1)%nat) as [Hk|Hk].
  { rewrite take_app_le by lia.
    destruct (journal_torn_loop (length (take k e1)) body1 k st0) as (st' & H' & Hp & Hc); [done..|].
    fold e1 in H'. rewrite H'. eexists. split; [reflexivity|]. cbn [js_proposal js_committed]. rewrite Hp, Hc.
    by rewrite !(proj2 (Z.leb_gt _ _)) by lia. }
  rewrite take_app_ge by lia. set (t := take (k - length e1) e2).
  assert (∃ m, length (e1 ++ t) = S (S m)) as [m ->].
  { exists (length (e1 ++ t) - 2)%nat. rewrite length_app. lia. }
  set (st1 := mkJournalState 1 (8 + (4 + len body1 + 32)) (hex (sha256 body1))
                (Some (b, hex (sha256 body1))) None None).
  change (e1 ++ t) with (journal_entry body1 ++ t).
  rewrite (journal_entry_loop _ body1 r1 t st0 st1 (Some (b, hex (sha256 body1))) None);
    [|done|done| |by split_and!|unfold u64_max; simpl; lia|
     unfold u64_max; cbn [jt_last_good_offset st0 st1]; lia|done].
  2: { unfold validate_scanned_record. cbn. rewrite Hb. cbn. by rewrite String.eqb_refl. }
  destruct (decide (k - length e1 < length e2)%nat) as [Hk2|Hk2].
  { destruct (journal_torn_loop (S m) body2 (k - length e1) st1) as (st' & H' & Hp & Hc); [done..|].
    fold e2 t in H'. rewrite H'. eexists. split; [reflexivity|]. cbn [js_proposal js_committed]. rewrite Hp, Hc.
    by rewrite (proj2 (Z.leb_le _ _)), (proj2 (Z.leb_gt _ _)) by lia. }
  assert (t = e2 ++ []) as -> by (rewrite app_nil_r; apply take_ge; lia).
  set (st2 := mkJournalState 2 (8 + (4 + len body1 + 32) + (4 + len body2 + 32))
                (hex (sha256 body2)) (Some (b, hex (sha256 body1))) (Some b) None).
  change (e2 ++ []) with (journal_entry body2 ++ []).
  rewrite (journal_entry_loop _ body2 r2 [] st1 st2 (Some (b, hex (sha256 body1))) (Some b));
    [|done|done| |done|unfold u64_max; simpl; lia|
     unfold u64_max; cbn [jt_last_good_offset st0 st1]; lia|done].
  2: { unfold validate_scanned_record. cbn. rewrite String.eqb_refl. cbn.
       by rewrite String.eqb_refl, bool_decide_eq_true_2. }
  eexists. split; [reflexivity|]. cbn [js_proposal js_committed].
  by rewrite !(proj2 (Z.leb_le _ _)) by lia.
Qed.

Section with_sink.
Context {S : Type} `{Hsink : DurableSink S} `{Hlaws : !SinkLaws S Hsink}.

Lemma write_flush_sync_Ok b (s s' : S) :
  write_flush_sync b s = (s', inr ()) → contents s' = contents s ++ b ∧ synced s' = contents s'.
Proof.
  unfold write_flush_sync. destruct (write_all b s) as [s1 [|[]]] eqn:E1; [done|].
  destruct (flush s1) as [s2 [|[]]] eqn:E2; [done|]. intros E3.
  apply write_all_contents in E1. apply flush_contents in E2.
  apply sync_all_contents in E3 as [E3 E4]. split; congruence.
Qed.

Lemma write_flush_sync_synced b (s : S) : synced s `prefix_of` synced (write_flush_sync b s).1.
Proof.
  unfold write_flush_sync. pose proof (write_all_synced b s) as H1.
  destruct (write_all b s) as [s1 [|[]]]; [done|]. pose proof (flush_synced s1) as H2.
  destruct (flush s1) as [s2 [|[]]]; cbn [fst] in *; [by trans (synced s1)|].
  pose proof (sync_all_synced s2). trans (synced s1); [done|]. by trans (synced s2).
Qed.

Lemma append_and_sync_Ok record (w w' : BoundaryJournalWriter S) ack :
  append_and_sync record w = (w', Ok ack) →
  ∃ body, to_vec record = inr body ∧ len body ≤ BOUNDARY_MAX_RECORD_BYTES ∧
    contents (jw_sink w') = contents (jw_sink w) ++ journal_entry body ∧
    synced (jw_sink w') = contents (jw_sink w') ∧
    jw_end_offset w' = jw_end_offset w + len (journal_entry body) ∧
    jw_previous_digest w' = hex (sha256 body) ∧ jw_proposal w' = jw_proposal w ∧
    ja_durable_through_offset ack = jw_end_offset w' ∧
    ja_last_record_sha256 ack = hex (sha256 body).
Proof.
  unfold append_and_sync. cbv [mbind SE_bind get lift reject put mret SE_ret throw].
  destruct (jw_poisoned w); [done|]. destruct (to_vec record) as [|body]; [done|].
  cbn [map_err]. destruct (_ <? _) eqn:Hm; [done|]. apply Z.ltb_ge in Hm.
  destruct (_ <? _); [done|]. destruct (write_flush_sync _ _) as [s [|[]]] eqn:Hw; [done|].
  apply write_flush_sync_Ok in Hw as [Hw Hs].
  destruct (checked_add _ _) as [eo|] eqn:Ho; [|done]. apply checked_add_Some in Ho as [_ ->].
  cbn [ok_or]. destruct (add_u64 _ _); [|done..]. intros [= <- <-]. exists body. by split_and!.
Qed.

(** The commit of a boundary is atomic under crashes. After a
    successful [propose] and [commit] on an empty sink everything is on
    stable storage; and whatever prefix of the journal a crash leaves, a
    scan of it reports the proposal exactly when the prefix reaches the
    offset the first acknowledgement named, and the commitment exactly when
    it reaches the offset of the second. *)
Theorem boundary_commit_atomic (s : S) w0 w1 w2 b id a1 a2 :
  contents s = [] → journal_from_sink s = Ok w0 →
  propose b w0 = (w1, Ok a1) → commit id w1 = (w2, Ok a2) →
  synced (jw_sink w2) = contents (jw_sink w2) ∧
  ∀ n, (8 ≤ n)%nat → ∃ sc,
    scan_boundary_journal (take n (contents (jw_sink w2))) = Ok sc ∧
    js_proposal sc =
      (if ja_durable_through_offset a1 <=? Z.of_nat n then Some b else None) ∧
    js_committed sc =
      (if ja_durable_through_offset a2 <=? Z.of_nat n then Some b else None).
Proof.
  intros Hs Hw0 H1 H2. unfold journal_from_sink in Hw0.
  destruct (write_all BOUNDARY_MAGIC s) as [s1 [|[]]] eqn:Ew; [done|]. cbn in Hw0.
  destruct (sync_all s1) as [s2 [|[]]] eqn:Es; [done|]. injection Hw0 as <-.
  apply write_all_contents in Ew. apply sync_all_contents in Es as [Es _].
  rewrite Hs in Ew. rewrite Ew in Es. unfold propose in H1.
  apply SE_bind_Ok in H1 as (? & ? & [= <- <-] & H1).
  apply SE_bind_Ok in H1 as (? & ? & [= <- _] & H1).
  apply SE_bind_Ok in H1 as ([] & ? & [= <- Hb] & H1).
  apply SE_bind_Ok in H1 as (ack1 & w1' & A1 & [= <- <-]).
  apply append_and_sync_Ok in A1 as (body1 & V1 & L1 & C1 & _ & O1 & P1 & _ & Ha1 & Hd1).
  cbn in C1, O1. rewrite Es in C1. unfold commit in H2.
  apply SE_bind_Ok in H2 as (? & ? & [= <- <-] & H2).
  apply SE_bind_Ok in H2 as (? & ? & [= <- _] & H2).
  apply SE_bind_Ok in H2 as ([b' d'] & ? & [= <- <- <-] & H2).
  apply SE_bind_Ok in H2 as ([] & ? & [= <- Hid%reject_Ok] & H2).
  apply SE_bind_Ok in H2 as (ack2 & w2' & A2 & [= <- <-]).
  apply negb_false_iff, String.eqb_eq in Hid. subst id.
  apply append_and_sync_Ok in A2 as (body2 & V2 & L2 & C2 & S2 & O2 & _ & _ & Ha2 & _).
  cbn in C2, O2, V2. rewrite P1, Hd1 in V2.
  assert (contents (jw_sink w2') = BOUNDARY_MAGIC ++ journal_entry body1 ++ journal_entry body2)
    as Hc by (by rewrite C2, C1, <-app_assoc).
  split; [done|]. intros n Hn. cbn [jw_sink]. rewrite Hc, Ha1, Ha2, O2, O1.
  by apply journal_two_entries.
Qed.
End with_sink.
End journal_theory.

(** ** A concrete handover *)

Module BoundaryDemo.
#[export] Existing Instance toy_sha256.
#[export] Existing Instance toy_sha256_laws.
#[export] Existing Instance RawDemo.file_durable_sink.
#[export] Existing Instance RawDemo.file_sink_laws.
#[export] Instance material_serde : Serde SelectionDigestMaterial :=
  {| to_vec _ := inr [x7b; x7d]; from_slice _ := inl "unused" |}.

Definition sha (n : Z) : string := hex (to_be_bytes 32 n).
Definition observation (epoch : string) (frame first final : Z) : CanonicalObservationV1 :=
  mkObservation "BTCUSDT" Depth "depth" epoch frame first final
    (hex (sha256 (str_bytes epoch ++ to_be_bytes 8 frame))) (sha final).
Definition predecessor : list CanonicalObservationV1 :=
  [observation "A" 7 1 3; observation "A" 8 4 4; observation "A" 9 4 4; observation "A" 10 5 8;
   observation "A" 11 9 9].
Definition successor : list CanonicalObservationV1 :=
  [observation "B" 0 3 4; observation "B" 1 5 8; observation "B" 2 8 10; observation "B" 3 11 11].
Definition durability (frame : Z) : BoundaryDurabilityV1 := mkBoundaryDurability frame 1000 (sha 1).
Definition boundary : HandoverBoundaryV1 :=
  Eval vm_compute in
  match derive_handover_boundary "b-1" Depth predecessor successor (durability 11) (durability 3)
          "rev1" with
  | Ok b => b
  | _ => mkBoundary "" "" "" "" Depth "" "" "" 0 "" (mkPosition "" "" 0 "") (mkPosition "" "" 0 "")
           (mkPosition "" "" 0 "") (durability 0) (durability 0) "" ""
  end.

Definition proposal : BoundaryJournalRecordV1 :=
  mkJournalRecord "BoundaryJournalRecordV1" 0 Proposed "b-1" (Some boundary) None ZERO_DIGEST.
Definition commitment : BoundaryJournalRecordV1 :=
  mkJournalRecord "BoundaryJournalRecordV1" 1 Committed "b-1" None (Some (hex (sha256 [])))
    (hex (sha256 [])).
#[export] Instance journal_record_eq_decision : EqDecision BoundaryJournalRecordV1.
Proof. solve_decision. Defined.
#[export] Instance journal_serde : Serde BoundaryJournalRecordV1 :=
  table_serde [proposal; commitment].
#[export] Instance journal_serde_laws : SerdeLaws BoundaryJournalRecordV1 journal_serde.
Proof. apply table_serde_laws. Qed.

Definition empty : RawDemo.file_sink := ([], []).
Definition no_ack : BoundaryJournalAckV1 := mkJournalAck Proposed "" 0 0 "".
Definition opened : BoundaryJournalWriter RawDemo.file_sink :=
  mkJournal (BOUNDARY_MAGIC, []) 8 ZERO_DIGEST None false false.
Definition proposed := Eval vm_compute in propose boundary opened.
Definition committed := Eval vm_compute in commit "b-1" proposed.1.
Definition ack_of (r : res BoundaryJournalAckV1) : BoundaryJournalAckV1 :=
  match r with Ok a => a | _ => no_ack end.
End BoundaryDemo.

Section boundary_witnesses.
Import BoundaryDemo.

Lemma canonical_selection_gapless_witness :
  ∃ sel, select_canonical boundary predecessor successor = Ok sel ∧
    cs_first_sequence sel = 1 ∧ cs_final_sequence sel = 11 ∧
    ∀ n, 1 ≤ n ≤ 11 → ∃ r, r ∈ cs_selected sel ∧ ref_covers n r.
Proof.
  destruct (select_canonical boundary predecessor successor) as [sel| |] eqn:E;
    [|exfalso; revert E; vm_compute; discriminate..].
  exists sel. split; [done|].
  assert (cs_first_sequence sel = 1 ∧ cs_final_sequence sel = 11) as [E1 E2].
  { revert E. vm_compute. intros [= <-]. done. }
  split_and!; [done..|]. rewrite <-E1, <-E2.
  apply (canonical_selection_gapless boundary predecessor successor sel E).
Defined.

Lemma derived_boundary_is_latest_witness :
  hb_boundary_sequence boundary = 8 ∧
  ∀ w, window_ok Depth (by_sequence predecessor) w → window_at successor w → reached w ≤ 8.
Proof.
  split; [reflexivity|].
  apply (derived_boundary_is_latest "b-1" Depth predecessor successor (durability 11)
           (durability 3) "rev1" boundary).
  vm_compute. reflexivity.
Defined.

Lemma journal_scan_sound_witness :
  ∃ sc, scan_boundary_journal (contents (jw_sink committed.1)) = Ok sc ∧
    (∀ b, js_committed sc = Some b →
       js_proposal sc = Some b ∧ boundary_validate b = Ok () ∧ js_records sc = 2) ∧
    (∀ b, js_proposal sc = Some b → boundary_validate b = Ok ()).
Proof. apply (journal_scan_sound (contents (jw_sink committed.1))). vm_compute. congruence. Defined.

Lemma boundary_commit_atomic_witness :
  synced (jw_sink committed.1) = contents (jw_sink committed.1) ∧
  ∀ n, (8 ≤ n)%nat → ∃ sc,
    scan_boundary_journal (take n (contents (jw_sink committed.1))) = Ok sc ∧
    js_proposal sc = (if 44 <=? Z.of_nat n then Some boundary else None) ∧
    js_committed sc = (if 81 <=? Z.of_nat n then Some boundary else None).
Proof.
  apply (boundary_commit_atomic empty opened proposed.1 committed.1 boundary "b-1"
           (ack_of proposed.2) (ack_of committed.2)); [reflexivity..|].
  vm_compute. reflexivity.
Defined.
End boundary_witnesses.
