(* ===== verification/Transport.v ===== *)
(** * The WebSocket session model and the progress watchdog
    (transport.rs and liveness.rs) *)

From stdpp Require Import base list strings option numbers gmap.
From Stdlib Require Import ZArith Lia Ascii Strings.Byte.
From S2P Require Import Prelude External.
Local Open Scope Z_scope.

Definition ONE_SECOND_NS : Z := 1000000000.
Definition MAX_CLIENT_CONTROL_PER_SECOND : Z := 5.
Definition MAX_CONTROL_PAYLOAD_BYTES : Z := 125.
Definition MAX_DATA_PAYLOAD_BYTES : Z := 4 * 1024 * 1024.

(** ** Data *)

Inductive WsInput :=
  | WsData (payload : bytes)
  | WsPing (payload : bytes)
  | WsPong (payload : bytes)
  | WsClose (code : option Z) (reason : string)
  | WsTransportError (reason : string).

Inductive TransportState := TsOpen | TsShutdownAnnounced | TsClosed | TsFailed.
#[global] Instance transport_state_eq_decision : EqDecision TransportState.
Proof. solve_decision. Defined.

Inductive TransportAction :=
  | RawEnqueued (frame_index : Z)
  | RespondPong (expected_payload : bytes)
  | SendPing (payload : bytes)
  | BeginHandover (reason : string)
  | EpochClosed (reason : string)
  | InvalidateEpoch (reason : string).
#[global] Instance transport_action_eq_decision : EqDecision TransportAction.
Proof. solve_decision. Defined.

Record QueuedRawFrame := mkQueued {
  qf_frame_index : Z; qf_receive_mono_ns : Z; qf_payload : bytes
}.

Record BoundedRawSink := mkRawSink {
  rs_capacity : Z; rs_queue : list QueuedRawFrame; rs_enqueued : Z; rs_drained : Z;
  rs_max_depth : Z; rs_local_drops : Z
}.

Record PublicWsSession := mkSession {
  ws_epoch : string; ws_state : TransportState; ws_raw_sink : BoundedRawSink;
  ws_next_frame_index : Z; ws_last_receive_mono_ns : option Z;
  ws_outbound_control_ns : list Z; ws_last_ping_sent_mono_ns : option Z;
  ws_awaiting_pong : bool; ws_last_pong_mono_ns : option Z; ws_last_ping_rtt_ns : option Z;
  ws_last_watchdog_tick_mono_ns : option Z
}.

Definition set_ws_state (x : TransportState) (s : PublicWsSession) : PublicWsSession :=
  mkSession (ws_epoch s) x (ws_raw_sink s) (ws_next_frame_index s) (ws_last_receive_mono_ns s)
    (ws_outbound_control_ns s) (ws_last_ping_sent_mono_ns s) (ws_awaiting_pong s)
    (ws_last_pong_mono_ns s) (ws_last_ping_rtt_ns s) (ws_last_watchdog_tick_mono_ns s).
Definition set_sink (x : BoundedRawSink) (s : PublicWsSession) : PublicWsSession :=
  mkSession (ws_epoch s) (ws_state s) x (ws_next_frame_index s) (ws_last_receive_mono_ns s)
    (ws_outbound_control_ns s) (ws_last_ping_sent_mono_ns s) (ws_awaiting_pong s)
    (ws_last_pong_mono_ns s) (ws_last_ping_rtt_ns s) (ws_last_watchdog_tick_mono_ns s).
Definition set_next_frame (x : Z) (s : PublicWsSession) : PublicWsSession :=
  mkSession (ws_epoch s) (ws_state s) (ws_raw_sink s) x (ws_last_receive_mono_ns s)
    (ws_outbound_control_ns s) (ws_last_ping_sent_mono_ns s) (ws_awaiting_pong s)
    (ws_last_pong_mono_ns s) (ws_last_ping_rtt_ns s) (ws_last_watchdog_tick_mono_ns s).
Definition set_last_receive (x : Z) (s : PublicWsSession) : PublicWsSession :=
  mkSession (ws_epoch s) (ws_state s) (ws_raw_sink s) (ws_next_frame_index s) (Some x)
    (ws_outbound_control_ns s) (ws_last_ping_sent_mono_ns s) (ws_awaiting_pong s)
    (ws_last_pong_mono_ns s) (ws_last_ping_rtt_ns s) (ws_last_watchdog_tick_mono_ns s).
Definition set_outbound (x : list Z) (s : PublicWsSession) : PublicWsSession :=
  mkSession (ws_epoch s) (ws_state s) (ws_raw_sink s) (ws_next_frame_index s)
    (ws_last_receive_mono_ns s) x (ws_last_ping_sent_mono_ns s) (ws_awaiting_pong s)
    (ws_last_pong_mono_ns s) (ws_last_ping_rtt_ns s) (ws_last_watchdog_tick_mono_ns s).
Definition set_pong_received (mono_ns : Z) (rtt : option Z) (s : PublicWsSession) : PublicWsSession :=
  mkSession (ws_epoch s) (ws_state s) (ws_raw_sink s) (ws_next_frame_index s)
    (ws_last_receive_mono_ns s) (ws_outbound_control_ns s) (ws_last_ping_sent_mono_ns s) false
    (Some mono_ns) rtt (ws_last_watchdog_tick_mono_ns s).
Definition set_ping_sent (now : Z) (s : PublicWsSession) : PublicWsSession :=
  mkSession (ws_epoch s) (ws_state s) (ws_raw_sink s) (ws_next_frame_index s)
    (ws_last_receive_mono_ns s) (ws_outbound_control_ns s) (Some now) true
    (ws_last_pong_mono_ns s) (ws_last_ping_rtt_ns s) (ws_last_watchdog_tick_mono_ns s).
Definition set_last_tick (now : Z) (s : PublicWsSession) : PublicWsSession :=
  mkSession (ws_epoch s) (ws_state s) (ws_raw_sink s) (ws_next_frame_index s)
    (ws_last_receive_mono_ns s) (ws_outbound_control_ns s) (ws_last_ping_sent_mono_ns s)
    (ws_awaiting_pong s) (ws_last_pong_mono_ns s) (ws_last_ping_rtt_ns s) (Some now).

(** ** The bounded sink *)

Definition sink_new (capacity : Z) : res BoundedRawSink :=
  _ ← reject (capacity =? 0) "raw sink capacity must be positive";
  Ok (mkRawSink capacity [] 0 0 0 0).

Definition drain_one : SE BoundedRawSink (option QueuedRawFrame) := λ s,
  match rs_queue s with
  | [] => (s, Ok None)
  | frame :: queue =>
      (drained ← lift (add_u64 (rs_drained s) 1);
       put (mkRawSink (rs_capacity s) queue (rs_enqueued s) drained (rs_max_depth s)
              (rs_local_drops s));;
       mret (Some frame)) s
  end.

(** [true] when the frame was queued. *)
Definition enqueue (frame : QueuedRawFrame) : SE BoundedRawSink bool := λ s,
  if rs_capacity s <=? len (rs_queue s) then
    (drops ← lift (add_u64 (rs_local_drops s) 1);
     put (mkRawSink (rs_capacity s) (rs_queue s) (rs_enqueued s) (rs_drained s)
            (rs_max_depth s) drops);;
     mret false) s
  else
    (enqueued ← lift (add_u64 (rs_enqueued s) 1);
     put (mkRawSink (rs_capacity s) (rs_queue s ++ [frame]) enqueued (rs_drained s)
            (Z.max (rs_max_depth s) (len (rs_queue s ++ [frame]))) (rs_local_drops s));;
     mret true) s.

(** ** The session *)

Definition session_new (epoch : string) (raw_capacity : Z) : res PublicWsSession :=
  _ ← reject (is_blank epoch) "transport epoch must not be empty";
  sink ← sink_new raw_capacity;
  Ok (mkSession epoch TsOpen sink 0 None [] None false None None None).

Definition terminal (s : TransportState) : bool :=
  bool_decide (s = TsClosed) || bool_decide (s = TsFailed).

Definition state_debug (s : TransportState) : string :=
  match s with
  | TsOpen => "Open" | TsShutdownAnnounced => "ShutdownAnnounced"
  | TsClosed => "Closed" | TsFailed => "Failed"
  end.

Definition invalidate (reason : string) : SE PublicWsSession (list TransportAction) :=
  modify (set_ws_state TsFailed);; mret [InvalidateEpoch reason].

Section session.
Context `{Hval : SerdeValue}.

(** [value[field] == text] *)
Definition value_is (v : Value) (text : string) : bool := bool_decide (as_str v = Some text).

Definition classify_server_shutdown (payload : bytes) : res bool :=
  match value_from_slice payload with
  | inl _ => Ok false
  | inr value =>
      let raw_shutdown := value_is (value_index value "e") "serverShutdown" in
      let data := value_index value "data" in
      let combined_shutdown := value_is (value_index value "stream") "!serverShutdown"
                               && value_is (value_index data "e") "serverShutdown" in
      if negb raw_shutdown && negb combined_shutdown then Ok false else
      let event := if raw_shutdown then value else data in
      _ ← reject (negb (bool_decide (is_Some (as_u64 (value_index event "E")))))
            "serverShutdown event has invalid event time";
      Ok true
  end.

Definition handle_data (payload : bytes) (mono_ns : Z)
    : SE PublicWsSession (list TransportAction) :=
  if MAX_DATA_PAYLOAD_BYTES <? len payload
  then invalidate "websocket data payload exceeds 4 MiB" else
  s ← get;
  match checked_add (ws_next_frame_index s) 1 with
  | None => invalidate "transport frame index overflow"
  | Some next_frame_index =>
      let frame_index := ws_next_frame_index s in
      let '(sink, r) := enqueue (mkQueued frame_index mono_ns payload) (ws_raw_sink s) in
      modify (set_sink sink);;
      queued ← lift r;
      if negb queued
      then invalidate "bounded raw sink overflow; received frame was not durable" else
      modify (set_next_frame next_frame_index);;
      match classify_server_shutdown payload with
      | Err error =>
          more ← invalidate error; mret ([RawEnqueued frame_index] ++ more)
      | Panic => lift Panic
      | Ok shutdown =>
          s ← get;
          if shutdown && bool_decide (ws_state s = TsOpen) then
            modify (set_ws_state TsShutdownAnnounced);;
            mret [RawEnqueued frame_index; BeginHandover "official serverShutdown event"]
          else mret [RawEnqueued frame_index]
      end
  end.

(** [while front.is_some_and(..) { pop_front() }] *)
Fixpoint expire_control (mono_ns : Z) (l : list Z) : list Z :=
  match l with
  | oldest :: rest =>
      if ONE_SECOND_NS <=? saturating_sub mono_ns oldest then expire_control mono_ns rest else l
  | [] => []
  end.

Definition handle_ping (payload : bytes) (mono_ns : Z)
    : SE PublicWsSession (list TransportAction) :=
  if MAX_CONTROL_PAYLOAD_BYTES <? len payload
  then invalidate "ping payload exceeds WebSocket control-frame limit" else
  s ← get;
  let control := expire_control mono_ns (ws_outbound_control_ns s) in
  modify (set_outbound control);;
  if MAX_CLIENT_CONTROL_PER_SECOND <=? len control
  then invalidate "client control-message rate would exceed 5 per second" else
  modify (set_outbound (control ++ [mono_ns]));;
  mret [RespondPong payload].

Definition option_text (code : option Z) : string :=
  match code with None => "None" | Some n => "Some(" ++ u_to_string n ++ ")" end.

Definition ws_handle (input : WsInput) (mono_ns : Z)
    : SE PublicWsSession (list TransportAction) :=
  s ← get;
  lift (reject (terminal (ws_state s)) ("transport epoch is terminal: " ++ state_debug (ws_state s)));;
  if match ws_last_receive_mono_ns s with Some previous => mono_ns <? previous | None => false end
  then invalidate "monotonic receive time regressed" else
  modify (set_last_receive mono_ns);;
  match input with
  | WsData payload => handle_data payload mono_ns
  | WsPing payload => handle_ping payload mono_ns
  | WsPong _ =>
      (if ws_awaiting_pong s then
         modify (set_pong_received mono_ns
           (match ws_last_ping_sent_mono_ns s with
            | Some sent => Some (saturating_sub mono_ns sent)
            | None => ws_last_ping_rtt_ns s
            end))
       else mret ());;
      mret []
  | WsClose code reason =>
      modify (set_ws_state TsClosed);;
      mret [EpochClosed ("websocket close code=" ++ option_text code ++ " reason=" ++ reason)]
  | WsTransportError reason => invalidate ("websocket transport error: " ++ reason)
  end.

Definition watchdog_tick (now_mono_ns ping_interval_ns pong_deadline_ns : Z)
    : SE PublicWsSession (list TransportAction) :=
  s ← get;
  lift (reject (terminal (ws_state s)) ("transport epoch is terminal: " ++ state_debug (ws_state s)));;
  lift (reject ((ping_interval_ns =? 0) || (pong_deadline_ns =? 0))
          "watchdog ping interval and pong deadline must be positive");;
  lift (reject (match ws_last_watchdog_tick_mono_ns s with
                | Some previous => now_mono_ns <? previous | None => false end)
          "watchdog monotonic tick time regressed");;
  modify (set_last_tick now_mono_ns);;
  if ws_awaiting_pong s then
    if match ws_last_ping_sent_mono_ns s with
       | Some sent => pong_deadline_ns <=? saturating_sub now_mono_ns sent
       | None => false
       end
    then invalidate "watchdog pong deadline exceeded: transport dead"
    else mret []
  else
    if match ws_last_ping_sent_mono_ns s with
       | Some sent => ping_interval_ns <=? saturating_sub now_mono_ns sent
       | None => true
       end
    then modify (set_ping_sent now_mono_ns);; mret [SendPing []]
    else mret [].

(** [FakeWebSocket::run]: inputs until one fails or the session is terminal;
    the inputs left are returned with the actions. *)
Fixpoint fake_run (inputs : list (Z * WsInput)) (actions : list TransportAction)
    : SE PublicWsSession (list TransportAction * list (Z * WsInput)) :=
  match inputs with
  | [] => mret (actions, [])
  | (mono_ns, input) :: inputs =>
      more ← ws_handle input mono_ns;
      s ← get;
      if terminal (ws_state s) then mret (actions ++ more, inputs)
      else fake_run inputs (actions ++ more)
  end.
End session.

(** ** Progress watchdog (liveness.rs) *)

Record ProgressState := mkProgress { pg_value : Z; pg_last_advance_ns : Z }.
Record ProgressWatchdog := mkWatchdog { wd_deadline_ns : Z; wd_streams : gmap string ProgressState }.

Definition watchdog_new (deadline_ns : Z) : res ProgressWatchdog :=
  _ ← reject (deadline_ns =? 0) "progress watchdog deadline must be positive";
  Ok (mkWatchdog deadline_ns ∅).

Definition check_one (deadline_ns : Z) (name : string) (state : ProgressState) (now_ns : Z)
    : res unit :=
  age ← ok_or (checked_sub now_ns (pg_last_advance_ns state))
          ("monotonic watchdog time regressed for " ++ name);
  reject (deadline_ns <=? age)
    ("progress stalled for " ++ name ++ ": value=" ++ u_to_string (pg_value state)
     ++ " age_ns=" ++ u_to_string age ++ " deadline_ns=" ++ u_to_string deadline_ns).

Definition watchdog_observe (name : string) (value now_ns : Z) : SE ProgressWatchdog unit :=
  w ← get;
  lift (reject (is_blank name) "progress watchdog stream name must not be empty");;
  match wd_streams w !! name with
  | None => put (mkWatchdog (wd_deadline_ns w) (<[name := mkProgress value now_ns]> (wd_streams w)))
  | Some previous =>
      lift (reject (value <? pg_value previous)
              ("progress regressed for " ++ name ++ ": " ++ u_to_string (pg_value previous)
               ++ " -> " ++ u_to_string value));;
      lift (reject (now_ns <? pg_last_advance_ns previous)
              ("monotonic watchdog time regressed for " ++ name));;
      if pg_value previous <? value then
        put (mkWatchdog (wd_deadline_ns w) (<[name := mkProgress value now_ns]> (wd_streams w)))
      else lift (check_one (wd_deadline_ns w) name previous now_ns)
  end.

Definition watchdog_check (w : ProgressWatchdog) (now_ns : Z) : res unit :=
  try_fold (λ _ '(name, state), check_one (wd_deadline_ns w) name state now_ns) ()
    (btree_list (wd_streams w)).

(** ** Histories of a session *)

Inductive session_op :=
  | SHandle (input : WsInput) (mono_ns : Z)
  | STick (now interval deadline : Z)
  | SDrain.

(** A session with what left it: the frames drained, the receive time and
    payload of every [RawEnqueued] frame, and the times of the [RespondPong]s. *)
Record session_trace := mkTrace {
  tc_session : PublicWsSession; tc_drained : list QueuedRawFrame;
  tc_accepted : list (Z * bytes); tc_pongs : list Z
}.

Definition accepted_by (input : WsInput) (mono_ns : Z) (actions : list TransportAction)
    : list (Z * bytes) :=
  match input, actions with
  | WsData payload, RawEnqueued _ :: _ => [(mono_ns, payload)]
  | _, _ => []
  end.
Definition pongs_by (mono_ns : Z) (actions : list TransportAction) : list Z :=
  match actions with RespondPong _ :: _ => [mono_ns] | _ => [] end.

Section session_runs.
Context `{Hval : SerdeValue}.

(** [None] when the call panics. *)
Definition trace_step (op : session_op) (t : session_trace) : option session_trace :=
  match op with
  | SHandle input mono_ns =>
      match ws_handle input mono_ns (tc_session t) with
      | (s, Ok actions) =>
          Some (mkTrace s (tc_drained t) (tc_accepted t ++ accepted_by input mono_ns actions)
                  (tc_pongs t ++ pongs_by mono_ns actions))
      | (s, Err _) => Some (mkTrace s (tc_drained t) (tc_accepted t) (tc_pongs t))
      | (_, Panic) => None
      end
  | STick now interval deadline =>
      match watchdog_tick now interval deadline (tc_session t) with
      | (_, Panic) => None
      | (s, _) => Some (mkTrace s (tc_drained t) (tc_accepted t) (tc_pongs t))
      end
  | SDrain =>
      match drain_one (ws_raw_sink (tc_session t)) with
      | (sink, Ok frame) =>
          Some (mkTrace (set_sink sink (tc_session t)) (tc_drained t ++ option_list frame)
                  (tc_accepted t) (tc_pongs t))
      | (_, _) => None
      end
  end.

Inductive session_reachable (epoch : string) (capacity : Z) : session_trace → Prop :=
  | sr_new s : session_new epoch capacity = Ok s →
      session_reachable epoch capacity (mkTrace s [] [] [])
  | sr_step op t t' : session_reachable epoch capacity t → trace_step op t = Some t' →
      session_reachable epoch capacity t'.
End session_runs.

Definition numbered (l : list (Z * bytes)) : list QueuedRawFrame :=
  imap (λ i x, mkQueued (Z.of_nat i) x.1 x.2) l.

Lemma numbered_snoc l m p : numbered (l ++ [(m, p)]) = numbered l ++ [mkQueued (len l) m p].
Proof. unfold numbered. rewrite imap_app. simpl. by rewrite Nat.add_0_r. Qed.

Section session_theory.
Context `{Hval : SerdeValue}.

Definition later (o o' : option Z) : Prop :=
  ∀ x, o = Some x → ∃ y, o' = Some y ∧ x ≤ y.

(** Everything a call to [handle] can do to the queue and the control window. *)
Inductive handled (s : PublicWsSession) (input : WsInput) (mono : Z)
    : PublicWsSession → res (list TransportAction) → Prop :=
  | handled_quiet s' r :
      ws_raw_sink s' = ws_raw_sink s → ws_next_frame_index s' = ws_next_frame_index s →
      ws_outbound_control_ns s' = ws_outbound_control_ns s →
      later (ws_last_receive_mono_ns s) (ws_last_receive_mono_ns s') →
      (∀ actions, r = Ok actions →
         accepted_by input mono actions = [] ∧ pongs_by mono actions = []) →
      (terminal (ws_state s) = true → ws_state s' = ws_state s) →
      (∀ p, input = WsData p → terminal (ws_state s) = false → ws_state s' = TsFailed) →
      r ≠ Panic → handled s input mono s' r
  | handled_queued p s' more :
      input = WsData p → len (rs_queue (ws_raw_sink s)) < rs_capacity (ws_raw_sink s) →
      ws_raw_sink s' = mkRawSink (rs_capacity (ws_raw_sink s))
        (rs_queue (ws_raw_sink s) ++ [mkQueued (ws_next_frame_index s) mono p])
        (rs_enqueued (ws_raw_sink s) + 1) (rs_drained (ws_raw_sink s))
        (Z.max (rs_max_depth (ws_raw_sink s)) (len (rs_queue (ws_raw_sink s)) + 1))
        (rs_local_drops (ws_raw_sink s)) →
      ws_next_frame_index s' = ws_next_frame_index s + 1 →
      ws_outbound_control_ns s' = ws_outbound_control_ns s →
      later (ws_last_receive_mono_ns s) (ws_last_receive_mono_ns s') →
      terminal (ws_state s) = false →
      handled s input mono s' (Ok (RawEnqueued (ws_next_frame_index s) :: more))
  | handled_dropped p s' reason :
      input = WsData p →
      ws_raw_sink s' = mkRawSink (rs_capacity (ws_raw_sink s)) (rs_queue (ws_raw_sink s))
        (rs_enqueued (ws_raw_sink s)) (rs_drained (ws_raw_sink s))
        (rs_max_depth (ws_raw_sink s)) (rs_local_drops (ws_raw_sink s) + 1) →
      ws_next_frame_index s' = ws_next_frame_index s →
      ws_outbound_control_ns s' = ws_outbound_control_ns s →
      later (ws_last_receive_mono_ns s) (ws_last_receive_mono_ns s') →
      terminal (ws_state s) = false → ws_state s' = TsFailed →
      handled s input mono s' (Ok [InvalidateEpoch reason])
  | handled_ping p s' (answered : bool) actions :
      input = WsPing p → ws_raw_sink s' = ws_raw_sink s →
      ws_next_frame_index s' = ws_next_frame_index s →
      ws_last_receive_mono_ns s' = Some mono →
      later (ws_last_receive_mono_ns s) (Some mono) → terminal (ws_state s) = false →
      let control := expire_control mono (ws_outbound_control_ns s) in
      ws_outbound_control_ns s' = (if answered then control ++ [mono] else control) →
      (answered = true → len control < MAX_CLIENT_CONTROL_PER_SECOND) →
      pongs_by mono actions = (if answered then [mono] else []) →
      accepted_by input mono actions = [] →
      handled s input mono s' (Ok actions)
  | handled_panic s' : handled s input mono s' Panic.

Ltac quiet :=
  apply handled_quiet; cbn; try done; try congruence;
  try (intros ? [= <-]; done); try (by intros ? ? ?; congruence).

Lemma classify_nopanic payload : classify_server_shutdown payload ≠ Panic.
Proof. unfold classify_server_shutdown. nopanic. Qed.

Lemma handle_data_cases p mono s s0 s' r :
  terminal (ws_state s0) = false → ws_raw_sink s = ws_raw_sink s0 →
  ws_next_frame_index s = ws_next_frame_index s0 →
  ws_outbound_control_ns s = ws_outbound_control_ns s0 →
  later (ws_last_receive_mono_ns s0) (ws_last_receive_mono_ns s) →
  handle_data p mono s = (s', r) → handled s0 (WsData p) mono s' r.
Proof.
  intros Ht Hsink Hnext Hout Hrecv H. unfold handle_data in H.
  cbv [mbind SE_bind get lift modify mret SE_ret invalidate] in H.
  destruct (_ <? _); [injection H as <- <-; quiet|].
  destruct (checked_add _ _) as [next|] eqn:Hn;
    [|injection H as <- <-; quiet].
  apply checked_add_Some in Hn as [_ ->]. unfold enqueue in H.
  cbv [mbind SE_bind lift put mret SE_ret] in H. rewrite Hsink in H.
  destruct (rs_capacity (ws_raw_sink s0) <=? len (rs_queue (ws_raw_sink s0))) eqn:Hfull.
  - destruct (add_u64_cases (rs_local_drops (ws_raw_sink s0)) 1) as [[E _]|[E _]];
      rewrite E in H; cbn in H; injection H as <- <-; [|apply handled_panic].
    by eapply handled_dropped.
  - destruct (add_u64_cases (rs_enqueued (ws_raw_sink s0)) 1) as [[E _]|[E _]];
      rewrite E in H; [|injection H as <- <-; apply handled_panic].
    apply Z.leb_gt in Hfull. cbn [negb] in H.
    assert (∀ x n, len (rs_queue (ws_raw_sink s0) ++ [x]) = n → n = len (rs_queue (ws_raw_sink s0)) + 1)
      as Hlen by (intros x n <-; by rewrite len_app).
    destruct (classify_server_shutdown p) as [sh|e|] eqn:Hc;
      [|cbn in H; injection H as <- <-|by apply classify_nopanic in Hc].
    + destruct (sh && _) in H; cbn in H; injection H as <- <-; rewrite Hnext;
        eapply handled_queued; try done; cbn; by rewrite ?Hnext, ?len_app.
    + rewrite Hnext. eapply handled_queued; try done; cbn; by rewrite ?Hnext, ?len_app.
Qed.

Lemma ws_handle_cases input mono s s' r :
  ws_handle input mono s = (s', r) → handled s input mono s' r.
Proof.
  intros H. unfold ws_handle in H. cbv [mbind SE_bind get lift reject] in H.
  destruct (terminal (ws_state s)) eqn:Ht.
  { injection H as <- <-. quiet. intros x ->. by exists x. }
  destruct (match ws_last_receive_mono_ns s with Some _ => _ | None => _ end) eqn:Hreg.
  { cbv [invalidate mbind SE_bind modify mret SE_ret] in H. injection H as <- <-.
    quiet; [intros x ->; by exists x|]. intros ? [= <-]. by destruct input. }
  assert (later (ws_last_receive_mono_ns s) (Some mono)) as Hl.
  { intros x Hx. rewrite Hx in Hreg. exists mono. split; [done|lia]. }
  cbv [modify] in H. destruct input as [p|p|p|code reason|reason].
  - by eapply handle_data_cases in H.
  - unfold handle_ping in H. cbv [mbind SE_bind get modify mret SE_ret invalidate] in H.
    destruct (_ <? _).
    { injection H as <- <-. quiet. }
    cbn [ws_outbound_control_ns set_last_receive] in H.
    destruct (_ <=? _) eqn:Hc; injection H as <- <-.
    + eapply (handled_ping _ _ _ p _ false); try done.
    + apply Z.leb_gt in Hc. by eapply (handled_ping _ _ _ p _ true).
  - cbv [mbind SE_bind modify mret SE_ret] in H.
    destruct (ws_awaiting_pong s); injection H as <- <-; quiet.
  - cbv [mbind SE_bind modify mret SE_ret] in H. injection H as <- <-.
    quiet.
  - cbv [invalidate mbind SE_bind modify mret SE_ret] in H. injection H as <- <-.
    quiet.
Qed.

(** Six pongs never fall within one second. *)
Definition spaced (pongs : list Z) : Prop :=
  ∀ i a b, pongs !! i = Some a → pongs !! (i + 5)%nat = Some b → a + ONE_SECOND_NS ≤ b.

Record trace_ok (capacity : Z) (t : session_trace) : Prop := {
  tk_frames : tc_drained t ++ rs_queue (ws_raw_sink (tc_session t)) = numbered (tc_accepted t);
  tk_next : ws_next_frame_index (tc_session t) = len (tc_accepted t);
  tk_enqueued : rs_enqueued (ws_raw_sink (tc_session t)) = len (tc_accepted t);
  tk_drained : rs_drained (ws_raw_sink (tc_session t)) = len (tc_drained t);
  tk_capacity : rs_capacity (ws_raw_sink (tc_session t)) = capacity;
  tk_depth : len (rs_queue (ws_raw_sink (tc_session t))) ≤ capacity;
  tk_max : len (rs_queue (ws_raw_sink (tc_session t))) ≤ rs_max_depth (ws_raw_sink (tc_session t))
           ≤ capacity;
  tk_drops : rs_local_drops (ws_raw_sink (tc_session t)) ≠ 0 →
             ws_state (tc_session t) = TsFailed;
  tk_window : ∃ expired, tc_pongs t = expired ++ ws_outbound_control_ns (tc_session t) ∧
    ∀ x, x ∈ expired → ∃ now, ws_last_receive_mono_ns (tc_session t) = Some now ∧
                              x + ONE_SECOND_NS ≤ now;
  tk_spaced : spaced (tc_pongs t)
}.

Lemma expire_control_split mono l :
  ∃ gone, l = gone ++ expire_control mono l ∧ ∀ x, x ∈ gone → x + ONE_SECOND_NS ≤ mono.
Proof.
  induction l as [|y l (gone & IH & Hg)]; [exists []; split; [done|set_solver]|].
  cbn [expire_control]. destruct (_ <=? _) eqn:E.
  - exists (y :: gone). split; [by rewrite IH at 1|]. unfold saturating_sub in E.
    intros x [->|Hx]%elem_of_cons; [|by apply Hg]. unfold ONE_SECOND_NS in *. lia.
  - exists []. split; [done|set_solver].
Qed.

Lemma spaced_snoc expired window now :
  spaced (expired ++ window) → len window < MAX_CLIENT_CONTROL_PER_SECOND →
  (∀ x, x ∈ expired → x + ONE_SECOND_NS ≤ now) → spaced ((expired ++ window) ++ [now]).
Proof.
  intros Hs Hw He i a b Ha Hb. unfold len, MAX_CLIENT_CONTROL_PER_SECOND in Hw.
  destruct (decide (i + 5 < length (expired ++ window))%nat) as [Hlt|Hge].
  { rewrite lookup_app_l in Ha, Hb by lia. by eapply Hs. }
  apply lookup_snoc_Some in Hb as [[? ?]|[Hi <-]]; [lia|].
  rewrite length_app in Hi. rewrite lookup_app_l in Ha by (rewrite length_app; lia).
  rewrite lookup_app_l in Ha by lia. apply He. by eapply list_elem_of_lookup_2.
Qed.

Lemma window_later (expired : list Z) s s' :
  later (ws_last_receive_mono_ns s) (ws_last_receive_mono_ns s') →
  (∀ x, x ∈ expired → ∃ now, ws_last_receive_mono_ns s = Some now ∧ x + ONE_SECOND_NS ≤ now) →
  ∀ x : Z, x ∈ expired → ∃ now, ws_last_receive_mono_ns s' = Some now ∧ x + ONE_SECOND_NS ≤ now.
Proof.
  intros Hl He x Hx. destruct (He x Hx) as (now & Hnow & ?).
  destruct (Hl now Hnow) as (now' & ? & ?). exists now'. split; [done|lia].
Qed.

Lemma handle_trace_ok capacity t input mono s' r t' :
  trace_ok capacity t → handled (tc_session t) input mono s' r →
  match r with
  | Ok actions =>
      t' = mkTrace s' (tc_drained t) (tc_accepted t ++ accepted_by input mono actions)
             (tc_pongs t ++ pongs_by mono actions)
  | Err _ => t' = mkTrace s' (tc_drained t) (tc_accepted t) (tc_pongs t)
  | Panic => False
  end → trace_ok capacity t'.
Proof.
  intros [K1 K2 K3 K4 K5 K6 K7 K8 (expired & K9 & K9') K10] Hh Ht'.
  destruct Hh as [s' r Hs Hn Ho Hl Hq Hterm _ Hp|p s' more -> Hroom Hs Hn Ho Hl Hterm
    |p s' reason -> Hs Hn Ho Hl Hterm Hf|p s' answered actions -> Hs Hn Hl' Hl Hterm control Ho Hc Hpb Hab
    |s']; [..|done].
  - assert (t' = mkTrace s' (tc_drained t) (tc_accepted t) (tc_pongs t)) as ->.
    { destruct r as [actions|e|]; [|done|done]. destruct (Hq _ eq_refl) as [Ea Ep].
      by rewrite Ea, Ep, !app_nil_r in Ht'. }
    split; cbn [tc_session tc_drained tc_accepted tc_pongs]; rewrite ?Hs, ?Hn, ?Ho; try done.
    + intros Hd. rewrite Hterm; [by apply K8|]. by rewrite K8.
    + exists expired. split; [done|]. by eapply window_later.
  - subst t'. cbn [accepted_by pongs_by]. rewrite app_nil_r.
    split; cbn [tc_session tc_drained tc_accepted tc_pongs]; rewrite ?Hs, ?Hn, ?Ho; cbn; try done.
    + rewrite app_assoc, K1, K2. by rewrite numbered_snoc.
    + rewrite len_app. unfold len at 2. simpl. lia.
    + rewrite len_app. unfold len at 2. simpl. lia.
    + rewrite len_app. unfold len at 2. simpl. lia.
    + rewrite len_app. unfold len at 2. simpl. lia.
    + intros Hd. exfalso. rewrite K8 in Hterm by done. done.
    + exists expired. split; [done|]. by eapply window_later.
  - subst t'. cbn [accepted_by pongs_by]. rewrite !app_nil_r.
    split; cbn [tc_session tc_drained tc_accepted tc_pongs]; rewrite ?Hs, ?Hn, ?Ho; cbn; try done.
    exists expired. split; [done|]. by eapply window_later.
  - subst t'. rewrite Hab, Hpb, app_nil_r.
    destruct (expire_control_split mono (ws_outbound_control_ns (tc_session t))) as (gone & Hg & Hg').
    fold control in Hg. assert (∀ x, x ∈ expired ++ gone → x + ONE_SECOND_NS ≤ mono) as He.
    { intros x [Hx|Hx]%elem_of_app; [|by apply Hg'].
      destruct (K9' x Hx) as (now & Hnow & ?). destruct (Hl now Hnow) as (y & [= <-] & ?). lia. }
    rewrite Hg, app_assoc in K9.
    split; cbn [tc_session tc_drained tc_accepted tc_pongs]; rewrite ?Hs, ?Hn, ?Ho; try done.
    + intros Hd. exfalso. rewrite K8 in Hterm by done. done.
    + exists (expired ++ gone). rewrite K9, Hl'. split; [|intros x Hx; exists mono; by auto].
      destruct answered; by rewrite ?app_nil_r, <-?app_assoc.
    + rewrite K9 in *. destruct answered; [|by rewrite app_nil_r]. by apply spaced_snoc; auto.
Qed.
End session_theory.

Section session_claims.
Context `{Hval : SerdeValue}.

Lemma tick_cases now interval deadline s s' r :
  watchdog_tick now interval deadline s = (s', r) →
  ws_raw_sink s' = ws_raw_sink s ∧ ws_next_frame_index s' = ws_next_frame_index s ∧
  ws_outbound_control_ns s' = ws_outbound_control_ns s ∧
  ws_last_receive_mono_ns s' = ws_last_receive_mono_ns s ∧
  (terminal (ws_state s) = true → s' = s) ∧ r ≠ Panic.
Proof.
  unfold watchdog_tick. cbv [mbind SE_bind get lift reject modify mret SE_ret invalidate].
  intros H. repeat case_match; simplify_eq; by split_and!.
Qed.

Lemma reachable_ok epoch capacity t :
  0 ≤ capacity → session_reachable epoch capacity t → trace_ok capacity t.
Proof.
  intros Hcap. induction 1 as [s Hs|op t t' _ IH Hstep].
  { unfold session_new, sink_new in Hs.
    apply res_bind_Ok in Hs as (? & _ & Hs). apply res_bind_Ok in Hs as (sink & Hsink & Hs).
    apply res_bind_Ok in Hsink as (? & _ & [= <-]). injection Hs as <-.
    split; cbn; try done. exists []. split; [done|set_solver]. }
  destruct op as [input mono|now interval deadline|]; cbn [trace_step] in Hstep.
  - destruct (ws_handle input mono (tc_session t)) as [s' r] eqn:Hh. apply ws_handle_cases in Hh.
    eapply handle_trace_ok; [exact IH|exact Hh|]. destruct r; by simplify_eq.
  - destruct (watchdog_tick _ _ _ _) as [s' r] eqn:Ht.
    apply tick_cases in Ht as (Hs & Hn & Ho & Hl & Hterm & Hp).
    assert (t' = mkTrace s' (tc_drained t) (tc_accepted t) (tc_pongs t)) as -> by by destruct r; simplify_eq.
    destruct IH as [K1 K2 K3 K4 K5 K6 K7 K8 K9 K10].
    split; cbn [tc_session tc_drained tc_accepted tc_pongs]; rewrite ?Hs, ?Hn, ?Ho, ?Hl; try done.
    intros Hd. specialize (K8 Hd). by rewrite Hterm by by rewrite K8.
  - destruct IH as [K1 K2 K3 K4 K5 K6 K7 K8 K9 K10]. unfold drain_one in Hstep.
    destruct (rs_queue (ws_raw_sink (tc_session t))) as [|frame queue] eqn:Hq.
    + injection Hstep as <-. rewrite app_nil_r. split; cbn; try done; by rewrite ?Hq.
    + cbv [mbind SE_bind lift put mret SE_ret] in Hstep.
      destruct (add_u64_cases (rs_drained (ws_raw_sink (tc_session t))) 1) as [[E _]|[E _]];
        rewrite E in Hstep; [|done]. injection Hstep as <-.
      rewrite len_cons in K6, K7. pose proof (len_nonneg queue).
      split; cbn; try done; try lia.
      * by rewrite <-app_assoc.
      * rewrite len_app. unfold len at 2. simpl. lia.
Qed.

(** C37: no received frame is lost silently. In every history of a session
    (inputs, watchdog ticks and drains in any order), the frames drained and
    those still queued are, together and in order, exactly the payloads
    reported as [RawEnqueued], with their receive times and with consecutive
    frame indexes; the queue never exceeds its capacity; a dropped frame means the session
    has failed; and a data input on a session that is not terminal is either
    enqueued under the next index or fails the session. *)
Theorem session_loses_no_frame epoch capacity t :
  0 ≤ capacity → session_reachable epoch capacity t →
  tc_drained t ++ rs_queue (ws_raw_sink (tc_session t)) = numbered (tc_accepted t) ∧
  ws_next_frame_index (tc_session t) = len (tc_accepted t) ∧
  len (rs_queue (ws_raw_sink (tc_session t))) ≤ rs_max_depth (ws_raw_sink (tc_session t))
    ≤ capacity ∧
  (rs_local_drops (ws_raw_sink (tc_session t)) ≠ 0 → ws_state (tc_session t) = TsFailed) ∧
  ∀ p mono s' actions, ws_handle (WsData p) mono (tc_session t) = (s', Ok actions) →
    (∃ more, actions = RawEnqueued (len (tc_accepted t)) :: more) ∨ ws_state s' = TsFailed.
Proof.
  intros Hcap Ht. destruct (reachable_ok _ _ _ Hcap Ht) as [K1 K2 K3 K4 K5 K6 K7 K8 K9 K10].
  split_and!; try done; try lia. intros p mono s' actions H.
  destruct (terminal (ws_state (tc_session t))) eqn:Hterm.
  { exfalso. unfold ws_handle in H. cbv [mbind SE_bind get lift reject] in H.
    by rewrite Hterm in H. }
  apply ws_handle_cases in H. inversion H; subst; try done; [|rewrite <-K2; eauto|by right].
  right. by eapply H6.
Qed.

(** C40: pong replies respect the venue's limit. In every history of a session
    any six [RespondPong] actions span at least one second. *)
Theorem session_pong_rate_bounded epoch capacity t i a b :
  0 ≤ capacity → session_reachable epoch capacity t →
  tc_pongs t !! i = Some a → tc_pongs t !! (i + 5)%nat = Some b → a + ONE_SECOND_NS ≤ b.
Proof. intros Hcap Ht. apply (tk_spaced _ _ (reachable_ok _ _ _ Hcap Ht)). Qed.

(** Operations during which no pong arrives. *)
Definition no_pong (op : session_op) : Prop :=
  match op with SHandle (WsPong _) _ => False | _ => True end.

Lemma awaiting_step op t t' sent :
  no_pong op → ws_awaiting_pong (tc_session t) = true →
  ws_last_ping_sent_mono_ns (tc_session t) = Some sent → trace_step op t = Some t' →
  ws_awaiting_pong (tc_session t') = true ∧ ws_last_ping_sent_mono_ns (tc_session t') = Some sent.
Proof.
  intros Hop Ha Hs H. destruct op as [input mono|now interval deadline|]; cbn [trace_step] in H.
  - destruct (ws_handle input mono (tc_session t)) as [s' r] eqn:Hh.
    enough (ws_awaiting_pong s' = true ∧ ws_last_ping_sent_mono_ns s' = Some sent)
      by (destruct r; by simplify_eq).
    unfold ws_handle, handle_data, handle_ping, invalidate in Hh.
    cbv [mbind SE_bind get lift reject modify mret SE_ret] in Hh.
    destruct input; try done; repeat case_match; simplify_eq; done.
  - destruct (watchdog_tick now interval deadline (tc_session t)) as [s' r] eqn:Ht.
    enough (ws_awaiting_pong s' = true ∧ ws_last_ping_sent_mono_ns s' = Some sent)
      by (destruct r; by simplify_eq).
    unfold watchdog_tick, invalidate in Ht.
    cbv [mbind SE_bind get lift reject modify mret SE_ret] in Ht. rewrite Ha in Ht.
    repeat case_match; simplify_eq; done.
  - destruct (drain_one _) as [? [| |]]; by simplify_eq.
Qed.

(** The trace after a list of operations. *)
Fixpoint trace_run (ops : list session_op) (t : session_trace) : option session_trace :=
  match ops with [] => Some t | op :: ops => t' ← trace_step op t; trace_run ops t' end.

(** A dead transport is detected. After the watchdog sent a ping at time
    [sent], whatever happens except a pong, the first accepted tick at or
    after [sent + deadline] fails the session and asks to invalidate the
    epoch, and no earlier tick does. *)
Theorem watchdog_detects_dead_transport t ops t' sent now interval deadline :
  ws_awaiting_pong (tc_session t) = true →
  ws_last_ping_sent_mono_ns (tc_session t) = Some sent →
  Forall no_pong ops → trace_run ops t = Some t' →
  terminal (ws_state (tc_session t')) = false → 0 < interval → 0 < deadline → sent ≤ now →
  (∀ previous, ws_last_watchdog_tick_mono_ns (tc_session t') = Some previous → previous ≤ now) →
  ∃ s actions, watchdog_tick now interval deadline (tc_session t') = (s, Ok actions) ∧
    if sent + deadline <=? now
    then ws_state s = TsFailed ∧
         actions = [InvalidateEpoch "watchdog pong deadline exceeded: transport dead"]
    else ws_state s = ws_state (tc_session t') ∧ actions = [].
Proof.
  intros Ha Hs HF Hrun Hterm Hi Hd Hnow Hprev.
  assert (ws_awaiting_pong (tc_session t') = true ∧
          ws_last_ping_sent_mono_ns (tc_session t') = Some sent) as [Ha' Hs'].
  { revert t Ha Hs Hrun. induction HF as [|op ops Hop HF IH]; intros t Ha Hs Hrun; cbn in Hrun;
      [by injection Hrun as <-|].
    destruct (trace_step op t) as [t1|] eqn:E; [|done]. cbn in Hrun.
    destruct (awaiting_step _ _ _ _ Hop Ha Hs E) as [? ?]. by eapply IH. }
  unfold watchdog_tick, invalidate. cbv [mbind SE_bind get lift reject modify mret SE_ret].
  rewrite Hterm, Ha', Hs'. rewrite !(proj2 (Z.eqb_neq _ _)) by lia. cbn [orb].
  replace (match ws_last_watchdog_tick_mono_ns (tc_session t') with
           | Some previous => now <? previous | None => false end) with false
    by (destruct (ws_last_watchdog_tick_mono_ns _) as [p|]; [specialize (Hprev p eq_refl); lia|done]).
  unfold saturating_sub. destruct (sent + deadline <=? now) eqn:E.
  - rewrite (proj2 (Z.leb_le _ _)) by lia. eauto.
  - rewrite (proj2 (Z.leb_gt _ _)) by lia. eauto.
Qed.
End session_claims.

(** The progress watchdog is exact: a check at [now] passes if and only if
    every observed stream last advanced at most [deadline - 1] nanoseconds ago
    and not in the future. *)
Theorem watchdog_check_exact w now :
  watchdog_check w now = Ok () ↔
  ∀ name st, wd_streams w !! name = Some st →
    0 ≤ now - pg_last_advance_ns st < wd_deadline_ns w.
Proof.
  assert (∀ name st, check_one (wd_deadline_ns w) name st now = Ok () ↔
    0 ≤ now - pg_last_advance_ns st < wd_deadline_ns w) as Hone.
  { intros name st. unfold check_one, checked_sub. destruct (_ <=? _) eqn:E;
      cbn [ok_or mbind res_bind].
    - rewrite reject_Ok. lia.
    - split; [done|lia]. }
  unfold watchdog_check. setoid_rewrite <-elem_of_btree_list.
  induction (btree_list (wd_streams w)) as [|[name st] l IH]; cbn [try_fold].
  { split; [intros _ ? ? H; by apply not_elem_of_nil in H|done]. }
  rewrite res_bind_Ok. split.
  - intros ([] & H1 & H2) n s [[= -> ->]|Hin]%elem_of_cons; [by apply (Hone name)|].
    by eapply (proj1 IH H2).
  - intros H. exists (). split; [apply Hone; apply (H name); set_solver|].
    apply IH. intros n s Hin. apply (H n). set_solver.
Qed.

Module SessionWsDemo.
#[export] Existing Instance Json.serde.

Definition start : PublicWsSession :=
  mkSession "e1" TsOpen (mkRawSink 2 [] 0 0 0 0) 0 None [] None false None None None.
Definition ops : list session_op :=
  [SHandle (WsData (Json.text "{'a':1}")) 10; SHandle (WsPing []) 20; SDrain;
   SHandle (WsPing []) 21; SHandle (WsPing []) 22; SHandle (WsPing []) 23;
   SHandle (WsPing []) 24; SHandle (WsPing []) 1000000030;
   SHandle (WsData (Json.text "{'e':'serverShutdown','E':5}")) 1000000031].
Definition trace : session_trace :=
  Eval vm_compute in default (mkTrace start [] [] []) (trace_run ops (mkTrace start [] [] [])).
Definition pinged : session_trace :=
  Eval vm_compute in default (mkTrace start [] [] []) (trace_step (STick 100 50 30) trace).

Lemma ws_run_reachable ops' t t' :
  session_reachable "e1" 2 t → trace_run ops' t = Some t' → session_reachable "e1" 2 t'.
Proof.
  revert t. induction ops' as [|op ops' IH]; intros t Ht H; cbn in H; [by injection H as <-|].
  destruct (trace_step op t) as [t1|] eqn:E; [|done]. eapply IH; [|exact H].
  by eapply sr_step.
Qed.
Lemma trace_reachable : session_reachable "e1" 2 trace.
Proof.
  apply (ws_run_reachable ops (mkTrace start [] [] [])); [by apply sr_new|vm_compute; reflexivity].
Qed.
End SessionWsDemo.

Section transport_witnesses.
Import SessionWsDemo.

Lemma session_loses_no_frame_witness :
  len (tc_accepted trace) = 2 ∧
  tc_drained trace ++ rs_queue (ws_raw_sink (tc_session trace)) = numbered (tc_accepted trace) ∧
  ws_next_frame_index (tc_session trace) = len (tc_accepted trace) ∧
  len (rs_queue (ws_raw_sink (tc_session trace))) ≤ rs_max_depth (ws_raw_sink (tc_session trace))
    ≤ 2 ∧
  (rs_local_drops (ws_raw_sink (tc_session trace)) ≠ 0 → ws_state (tc_session trace) = TsFailed) ∧
  ∀ p mono s' actions, ws_handle (WsData p) mono (tc_session trace) = (s', Ok actions) →
    (∃ more, actions = RawEnqueued (len (tc_accepted trace)) :: more) ∨ ws_state s' = TsFailed.
Proof.
  split; [reflexivity|].
  apply (session_loses_no_frame "e1" 2 trace); [lia|apply trace_reachable].
Defined.

Lemma session_pong_rate_bounded_witness : 20 + ONE_SECOND_NS ≤ 1000000030.
Proof.
  apply (session_pong_rate_bounded "e1" 2 trace 0); [lia|apply trace_reachable| |];
    vm_compute; reflexivity.
Defined.

Lemma watchdog_detects_dead_transport_witness :
  ∃ s actions, watchdog_tick 130 50 30 (tc_session pinged) = (s, Ok actions) ∧
    if 100 + 30 <=? 130
    then ws_state s = TsFailed ∧
         actions = [InvalidateEpoch "watchdog pong deadline exceeded: transport dead"]
    else ws_state s = ws_state (tc_session pinged) ∧ actions = [].
Proof.
  apply (watchdog_detects_dead_transport pinged [] pinged); try reflexivity; try lia.
  - constructor.
  - intros p [= <-]. lia.
Defined.

(** The five-per-second limit on client control messages counts pong replies
    only: six watchdog pings, each answered, go out within six nanoseconds. *)
Theorem watchdog_pings_not_rate_limited :
  foldl (λ '(s, n) now,
           let '(s1, r) := watchdog_tick now 1 10 s in
           ((ws_handle (WsPong []) now s1).1,
            n + match r with Ok [SendPing _] => 1 | _ => 0 end))
    (start, 0) [0; 1; 2; 3; 4; 5]
  = (mkSession "e1" TsOpen (mkRawSink 2 [] 0 0 0 0) 0 (Some 5) [] (Some 5) false (Some 5)
       (Some 0) (Some 5), 6).
Proof. vm_compute. reflexivity. Qed.
End transport_witnesses.
