(* ===== verification/Handover.v ===== *)
(** * Connection-epoch handover (handover.rs and orchestrator.rs)

    A controller owns an active epoch, at most one candidate that may replace
    it, and at most one retired epoch that is draining. *)

From stdpp Require Import base list strings option numbers gmap.
From Stdlib Require Import ZArith Lia Ascii Strings.Byte.
From S2P Require Import Prelude External Transport.
Local Open Scope Z_scope.

(** ** Data *)

Inductive EpochState :=
  | EsConnecting | EsBuffering | EsSnapshotting | EsSyncing | EsLive | EsActive | EsDraining
  | EsClosed | EsFailed.
#[global] Instance epoch_state_eq_decision : EqDecision EpochState.
Proof. solve_decision. Defined.

Inductive PublicationState := PubUnavailable | PubLive | PubHandover | PubGap.
#[global] Instance publication_eq_decision : EqDecision PublicationState.
Proof. solve_decision. Defined.

Record EpochStatus := mkEpoch {
  ep_epoch : string; ep_state : EpochState; ep_final_update_id : option Z;
  ep_state_sha256 : option string
}.

Record HandoverEvent := mkEvent {
  ev_event_index : Z; ev_action : string; ev_epoch : string; ev_from : option EpochState;
  ev_to : option EpochState; ev_reason : option string
}.

Record EpochFailure := mkFailure {
  fl_epoch : string; fl_prior_state : EpochState; fl_reason : string
}.

Record HandoverController := mkController {
  hc_symbol : string; hc_publication : PublicationState; hc_active : EpochStatus;
  hc_candidate : option EpochStatus; hc_draining : option EpochStatus;
  hc_failures : list EpochFailure; hc_events : list HandoverEvent;
  hc_used_epochs : gset string; hc_next_event_index : Z
}.

Definition set_publication (x : PublicationState) (c : HandoverController) : HandoverController :=
  mkController (hc_symbol c) x (hc_active c) (hc_candidate c) (hc_draining c) (hc_failures c)
    (hc_events c) (hc_used_epochs c) (hc_next_event_index c).
Definition set_active (x : EpochStatus) (c : HandoverController) : HandoverController :=
  mkController (hc_symbol c) (hc_publication c) x (hc_candidate c) (hc_draining c) (hc_failures c)
    (hc_events c) (hc_used_epochs c) (hc_next_event_index c).
Definition set_candidate (x : option EpochStatus) (c : HandoverController) : HandoverController :=
  mkController (hc_symbol c) (hc_publication c) (hc_active c) x (hc_draining c) (hc_failures c)
    (hc_events c) (hc_used_epochs c) (hc_next_event_index c).
Definition set_draining (x : option EpochStatus) (c : HandoverController) : HandoverController :=
  mkController (hc_symbol c) (hc_publication c) (hc_active c) (hc_candidate c) x (hc_failures c)
    (hc_events c) (hc_used_epochs c) (hc_next_event_index c).
Definition push_failure (x : EpochFailure) (c : HandoverController) : HandoverController :=
  mkController (hc_symbol c) (hc_publication c) (hc_active c) (hc_candidate c) (hc_draining c)
    (hc_failures c ++ [x]) (hc_events c) (hc_used_epochs c) (hc_next_event_index c).
Definition use_epoch (x : string) (c : HandoverController) : HandoverController :=
  mkController (hc_symbol c) (hc_publication c) (hc_active c) (hc_candidate c) (hc_draining c)
    (hc_failures c) (hc_events c) ({[x]} ∪ hc_used_epochs c) (hc_next_event_index c).

Definition set_epoch_state (x : EpochState) (e : EpochStatus) : EpochStatus :=
  mkEpoch (ep_epoch e) x (ep_final_update_id e) (ep_state_sha256 e).
Definition set_epoch_book (update_id : Z) (digest : string) (e : EpochStatus) : EpochStatus :=
  mkEpoch (ep_epoch e) (ep_state e) (Some update_id) (Some digest).

(** ** Operations *)

Definition epoch_connecting (epoch : string) : res EpochStatus :=
  _ ← reject (is_blank epoch) "connection epoch must not be empty";
  Ok (mkEpoch epoch EsConnecting None None).

Definition record_event (action epoch : string) (from to : option EpochState)
    (reason : option string) : SE HandoverController unit :=
  c ← get;
  next ← lift (add_u64 (hc_next_event_index c) 1);
  put (mkController (hc_symbol c) (hc_publication c) (hc_active c) (hc_candidate c) (hc_draining c)
         (hc_failures c) (hc_events c ++ [mkEvent (hc_next_event_index c) action epoch from to reason])
         (hc_used_epochs c) next).

Definition controller_new (symbol initial_epoch : string) : res HandoverController :=
  _ ← reject (negb (String.eqb symbol "BTCUSDT" || String.eqb symbol "ETHUSDT"))
        ("symbol outside scope: " ++ symbol);
  active ← epoch_connecting initial_epoch;
  let '(c, r) := record_event "BEGIN_INITIAL_EPOCH" initial_epoch None (Some EsConnecting) None
    (mkController symbol PubUnavailable active None None [] [] {[initial_epoch]} 0) in
  _ ← r;
  Ok c.

Definition named (epoch : string) (o : option EpochStatus) : option EpochStatus :=
  match o with
  | Some e => if String.eqb (ep_epoch e) epoch then Some e else None
  | None => None
  end.

(** [epoch(&self, ..)] *)
Definition find_epoch (c : HandoverController) (epoch : string) : res EpochStatus :=
  if String.eqb (ep_epoch (hc_active c)) epoch then Ok (hc_active c) else
  match named epoch (hc_candidate c) with
  | Some candidate => Ok candidate
  | None =>
      match named epoch (hc_draining c) with
      | Some draining => Ok draining
      | None => Err ("unknown connection epoch: " ++ epoch)
      end
  end.

(** [epoch_mut(..)? ] followed by an assignment through the reference. *)
Definition update_epoch (epoch : string) (f : EpochStatus → EpochStatus)
    : SE HandoverController unit :=
  c ← get;
  if String.eqb (ep_epoch (hc_active c)) epoch then put (set_active (f (hc_active c)) c) else
  match named epoch (hc_candidate c) with
  | Some candidate => put (set_candidate (Some (f candidate)) c)
  | None =>
      match named epoch (hc_draining c) with
      | Some draining => put (set_draining (Some (f draining)) c)
      | None => throw ("unknown connection epoch: " ++ epoch)
      end
  end.

Definition transition_allowed (current target : EpochState) : bool :=
  match current, target with
  | EsConnecting, EsBuffering | EsBuffering, EsSnapshotting | EsSnapshotting, EsSyncing => true
  | _, _ => false
  end.

Definition epoch_state_debug (s : EpochState) : string :=
  match s with
  | EsConnecting => "Connecting" | EsBuffering => "Buffering" | EsSnapshotting => "Snapshotting"
  | EsSyncing => "Syncing" | EsLive => "Live" | EsActive => "Active" | EsDraining => "Draining"
  | EsClosed => "Closed" | EsFailed => "Failed"
  end.

Definition transition_epoch (epoch : string) (target : EpochState) : SE HandoverController unit :=
  c ← get;
  status ← lift (find_epoch c epoch);
  let current := ep_state status in
  lift (reject (negb (transition_allowed current target))
          ("illegal epoch transition for " ++ epoch ++ ": " ++ epoch_state_debug current ++ " -> "
           ++ epoch_state_debug target));;
  update_epoch epoch (set_epoch_state target);;
  record_event "TRANSITION" epoch (Some current) (Some target) None.

Definition validate_state_digest (digest : string) : res unit :=
  reject (negb (is_digest digest)) "state digest must be 64 lowercase hexadecimal characters".

Definition mark_live (epoch : string) (update_id : Z) (digest : string) : SE HandoverController unit :=
  lift (validate_state_digest digest);;
  c ← get;
  status ← lift (find_epoch c epoch);
  let current := ep_state status in
  lift (reject (negb (bool_decide (current = EsSyncing)))
          ("epoch " ++ epoch ++ " cannot become LIVE from " ++ epoch_state_debug current));;
  update_epoch epoch (λ e, set_epoch_book update_id digest (set_epoch_state EsLive e));;
  record_event "BOOK_LIVE" epoch (Some current) (Some EsLive) None.

Definition activate_initial : SE HandoverController unit :=
  c ← get;
  lift (reject (negb (bool_decide (hc_publication c = PubUnavailable))
                || bool_decide (is_Some (hc_candidate c))
                || bool_decide (is_Some (hc_draining c))
                || negb (bool_decide (ep_state (hc_active c) = EsLive)))
          "initial epoch is not ready for activation");;
  modify (λ c, set_active (set_epoch_state EsActive (hc_active c)) c);;
  modify (set_publication PubLive);;
  record_event "ACTIVATE_INITIAL" (ep_epoch (hc_active c)) (Some EsLive) (Some EsActive) None.

Definition epoch_was_used (c : HandoverController) (epoch : string) : bool :=
  bool_decide (epoch ∈ hc_used_epochs c).

Definition begin_handover (candidate_epoch : string) : SE HandoverController unit :=
  c ← get;
  lift (reject (negb (bool_decide (hc_publication c = PubLive))
                || negb (bool_decide (ep_state (hc_active c) = EsActive)))
          "handover requires an active LIVE publication");;
  lift (reject (bool_decide (is_Some (hc_candidate c)) || bool_decide (is_Some (hc_draining c)))
          "another candidate or draining epoch already exists");;
  lift (reject (epoch_was_used c candidate_epoch)
          ("connection epoch cannot be reused: " ++ candidate_epoch));;
  candidate ← lift (epoch_connecting candidate_epoch);
  modify (set_candidate (Some candidate));;
  modify (use_epoch candidate_epoch);;
  modify (set_publication PubHandover);;
  record_event "BEGIN_CANDIDATE_EPOCH" candidate_epoch None (Some EsConnecting) None.

Definition failed_event (action epoch : string) (prior : EpochState) (reason : string)
    : SE HandoverController unit :=
  record_event action epoch (Some prior) (Some EsFailed) (Some reason).

Definition fail_epoch (epoch reason : string) : SE HandoverController unit :=
  lift (reject (is_blank reason) "failure reason must not be empty");;
  c ← get;
  if String.eqb (ep_epoch (hc_active c)) epoch then
    let prior := ep_state (hc_active c) in
    lift (reject (bool_decide (prior = EsFailed) || bool_decide (prior = EsClosed))
            ("active epoch is already terminal: " ++ epoch_state_debug prior));;
    modify (λ c, set_active (set_epoch_state EsFailed (hc_active c)) c);;
    modify (set_publication PubGap);;
    modify (push_failure (mkFailure epoch prior reason));;
    failed_event "ACTIVE_FAILED" epoch prior reason
  else
  match named epoch (hc_draining c) with
  | Some draining =>
      let prior := ep_state draining in
      modify (set_draining None);;
      modify (push_failure (mkFailure epoch prior reason));;
      failed_event "DRAINING_FAILED" epoch prior reason
  | None =>
      match named epoch (hc_candidate c) with
      | Some candidate =>
          let prior := ep_state candidate in
          modify (set_candidate None);;
          modify (push_failure (mkFailure epoch prior reason));;
          modify (set_publication PubLive);;
          failed_event "CANDIDATE_FAILED" epoch prior reason
      | None => throw ("unknown or non-failable epoch: " ++ epoch)
      end
  end.

Definition observes_book (s : EpochState) : bool :=
  match s with EsLive | EsActive | EsDraining => true | _ => false end.

Definition observe_book (epoch : string) (update_id : Z) (digest : string)
    : SE HandoverController unit :=
  lift (validate_state_digest digest);;
  c ← get;
  status ← lift (find_epoch c epoch);
  lift (reject (negb (observes_book (ep_state status)))
          ("epoch " ++ epoch ++ " cannot publish book observations while "
           ++ epoch_state_debug (ep_state status)));;
  let advance :=
    update_epoch epoch (set_epoch_book update_id digest);;
    record_event "BOOK_ADVANCE" epoch None None None in
  match ep_final_update_id status with
  | Some previous_id =>
      if update_id <? previous_id then
        let reason := ("book update ID regressed from " ++ u_to_string previous_id ++ " to "
                       ++ u_to_string update_id)%string in
        fail_epoch epoch reason;; throw reason
      else if update_id =? previous_id then
        if bool_decide (ep_state_sha256 status = Some digest) then mret ()
        else
          let reason := ("same update ID " ++ u_to_string update_id
                         ++ " produced a different digest")%string in
          fail_epoch epoch reason;; throw reason
      else advance
  | None => advance
  end.

Definition candidate_converged (c : HandoverController) : bool :=
  match hc_candidate c with
  | None => false
  | Some candidate =>
      bool_decide (ep_state candidate = EsLive)
      && bool_decide (ep_state (hc_active c) = EsActive)
      && bool_decide (ep_final_update_id candidate = ep_final_update_id (hc_active c))
      && bool_decide (ep_state_sha256 candidate = ep_state_sha256 (hc_active c))
      && bool_decide (is_Some (ep_final_update_id candidate))
  end.

Definition promote_candidate : SE HandoverController unit :=
  c ← get;
  lift (reject (negb (bool_decide (hc_publication c = PubHandover)) || negb (candidate_converged c))
          "candidate cannot be promoted without exact convergence");;
  candidate ← lift (ok_or (hc_candidate c) "candidate disappeared");
  modify (set_candidate None);;
  modify (set_active (set_epoch_state EsActive candidate));;
  modify (set_draining (Some (set_epoch_state EsDraining (hc_active c))));;
  modify (set_publication PubLive);;
  record_event "PROMOTE_CANDIDATE" (ep_epoch candidate) (Some EsLive) (Some EsActive)
    (Some ("replaced " ++ ep_epoch (hc_active c) ++ " after exact convergence")%string).

Definition close_draining : SE HandoverController unit :=
  c ← get;
  draining ← lift (ok_or (hc_draining c) "no draining epoch");
  modify (set_draining None);;
  lift (reject (negb (bool_decide (ep_state draining = EsDraining)))
          "retired epoch is not draining");;
  record_event "CLOSE_DRAINING" (ep_epoch draining) (Some EsDraining) (Some EsClosed) None.

Definition rotation_deadline_expired (reason : string) : SE HandoverController unit :=
  c ← get;
  lift (reject (negb (bool_decide (hc_publication c = PubHandover)))
          "rotation deadline applies only during handover");;
  fail_epoch (ep_epoch (hc_active c)) reason.

(** ** Transport actions (orchestrator.rs) *)

Definition apply_transport_action (source_epoch : string) (candidate_epoch : option string)
    (action : TransportAction) : SE HandoverController unit :=
  let closed (is_closed : bool) (reason : string) : SE HandoverController unit :=
    c ← get;
    if bool_decide (is_Some (named source_epoch (hc_draining c))) && is_closed
    then close_draining else fail_epoch source_epoch reason in
  match action with
  | RawEnqueued _ | RespondPong _ | SendPing _ => mret ()
  | BeginHandover _ =>
      c ← get;
      lift (reject (negb (String.eqb (ep_epoch (hc_active c)) source_epoch))
              "only the active epoch may initiate handover");;
      epoch ← lift (ok_or candidate_epoch "handover action requires a fresh candidate epoch");
      begin_handover epoch
  | EpochClosed reason => closed true reason
  | InvalidateEpoch reason => closed false reason
  end.

Fixpoint apply_transport_actions (source_epoch : string) (actions : list TransportAction)
    (candidate_epoch : option string) : SE HandoverController unit :=
  match actions with
  | [] => mret ()
  | action :: actions =>
      apply_transport_action source_epoch candidate_epoch action;;
      apply_transport_actions source_epoch actions candidate_epoch
  end.

(** ** Histories *)

Inductive handover_op :=
  | HTransition (epoch : string) (target : EpochState)
  | HMarkLive (epoch : string) (update_id : Z) (digest : string)
  | HActivate
  | HBegin (epoch : string)
  | HObserve (epoch : string) (update_id : Z) (digest : string)
  | HPromote
  | HCloseDraining
  | HFail (epoch reason : string)
  | HDeadline (reason : string)
  | HTransport (source : string) (actions : list TransportAction) (candidate : option string).

Definition handover_exec (op : handover_op) : SE HandoverController unit :=
  match op with
  | HTransition epoch target => transition_epoch epoch target
  | HMarkLive epoch update_id digest => mark_live epoch update_id digest
  | HActivate => activate_initial
  | HBegin epoch => begin_handover epoch
  | HObserve epoch update_id digest => observe_book epoch update_id digest
  | HPromote => promote_candidate
  | HCloseDraining => close_draining
  | HFail epoch reason => fail_epoch epoch reason
  | HDeadline reason => rotation_deadline_expired reason
  | HTransport source actions candidate => apply_transport_actions source actions candidate
  end.

(** Any calls in any order, the failing ones included. *)
Inductive handover_reachable (symbol initial : string) : HandoverController → Prop :=
  | hr_new c : controller_new symbol initial = Ok c → handover_reachable symbol initial c
  | hr_step op c c' r : handover_reachable symbol initial c → handover_exec op c = (c', r) →
      handover_reachable symbol initial c'.

(** ** Invariants *)

Definition before_live (s : EpochState) : bool :=
  match s with EsConnecting | EsBuffering | EsSnapshotting | EsSyncing => true | _ => false end.

Definition status_ok (e : EpochStatus) : Prop :=
  before_live (ep_state e) = true → ep_final_update_id e = None.

Record core_ok (c : HandoverController) : Prop := {
  ok_active : status_ok (hc_active c) ∧ ep_epoch (hc_active c) ∈ hc_used_epochs c;
  ok_candidate : ∀ e, hc_candidate c = Some e →
    status_ok e ∧ ep_epoch e ∈ hc_used_epochs c ∧ ep_epoch e ≠ ep_epoch (hc_active c) ∧
    (before_live (ep_state e) = true ∨ ep_state e = EsLive) ∧ hc_draining c = None ∧
    (hc_publication c = PubHandover ∨ hc_publication c = PubGap);
  ok_draining : ∀ e, hc_draining c = Some e →
    ep_state e = EsDraining ∧ ep_epoch e ∈ hc_used_epochs c ∧ ep_epoch e ≠ ep_epoch (hc_active c);
  ok_publication :
    match hc_publication c with
    | PubUnavailable => before_live (ep_state (hc_active c)) = true ∨ ep_state (hc_active c) = EsLive
    | PubLive => ep_state (hc_active c) = EsActive ∨ ep_state (hc_active c) = EsFailed
    | PubHandover => ep_state (hc_active c) = EsActive ∧ is_Some (hc_candidate c)
    | PubGap => ep_state (hc_active c) = EsFailed
    end
}.

(** Everything but the event log. *)
Definition same_core (c c' : HandoverController) : Prop :=
  hc_publication c' = hc_publication c ∧ hc_active c' = hc_active c ∧
  hc_candidate c' = hc_candidate c ∧ hc_draining c' = hc_draining c ∧
  hc_used_epochs c' = hc_used_epochs c.

Lemma core_ok_same c c' : same_core c c' → core_ok c → core_ok c'.
Proof.
  intros (E1 & E2 & E3 & E4 & E5) [H1 H2 H3 H4]. split; rewrite ?E1, ?E2, ?E3, ?E4, ?E5; done.
Qed.

Lemma record_event_core action epoch from to reason c c' r :
  record_event action epoch from to reason c = (c', r) → same_core c c'.
Proof.
  unfold record_event. cbv [mbind SE_bind get lift put]. destruct (add_u64 _ _);
    intros [= <- <-]; done.
Qed.

Lemma named_Some epoch o e : named epoch o = Some e → o = Some e ∧ ep_epoch e = epoch.
Proof. unfold named. destruct o; [|done]. case_match; [|done]. intros [= <-]. by apply String.eqb_eq in H. Qed.

(** Where [epoch] is, and what an update through [epoch_mut] does there. *)
Inductive located (c : HandoverController) (epoch : string) (e : EpochStatus)
    : ((EpochStatus → EpochStatus) → HandoverController) → Prop :=
  | located_active : e = hc_active c → located c epoch e (λ f, set_active (f e) c)
  | located_candidate : hc_candidate c = Some e →
      located c epoch e (λ f, set_candidate (Some (f e)) c)
  | located_draining : hc_draining c = Some e →
      located c epoch e (λ f, set_draining (Some (f e)) c).

Lemma find_epoch_located c epoch e :
  find_epoch c epoch = Ok e → ep_epoch e = epoch ∧
  ∃ put_back, located c epoch e put_back ∧ ∀ f, update_epoch epoch f c = (put_back f, Ok ()).
Proof.
  unfold find_epoch, update_epoch. cbv [mbind SE_bind get put].
  destruct (String.eqb _ _) eqn:Ea; [|destruct (named epoch (hc_candidate c)) as [e1|] eqn:E1;
    [|destruct (named epoch (hc_draining c)) as [e2|] eqn:E2; [|done]]]; intros [= <-].
  - split; [by apply String.eqb_eq|]. eexists. by split; [apply located_active|].
  - apply named_Some in E1 as [??]. split; [done|]. eexists. by split; [apply located_candidate|].
  - apply named_Some in E2 as [??]. split; [done|]. eexists. by split; [apply located_draining|].
Qed.

(** A change of one status that keeps its place in the protocol. *)
Lemma located_core c epoch e put_back f :
  core_ok c → located c epoch e put_back → ep_epoch (f e) = ep_epoch e → status_ok (f e) →
  (ep_state (f e) = ep_state e ∨
   before_live (ep_state e) = true ∧ (before_live (ep_state (f e)) = true ∨ ep_state (f e) = EsLive)) →
  core_ok (put_back f).
Proof.
  intros [[H1 H1'] H2 H3 H4] Hloc He Hs Hst. destruct Hloc as [->|Hc|Hd].
  - split; cbn; rewrite ?He; try done.
    destruct Hst as [->|[Hb Hb']]; [done|].
    destruct (hc_publication c); [done|..]; exfalso; destruct (ep_state (hc_active c)); naive_solver.
  - destruct (H2 e Hc) as (? & ? & ? & Hbl & ? & ?). split; cbn; try done.
    + intros e' [= <-]. rewrite He. split_and!; try done.
      destruct Hst as [->|[_ ?]]; [|naive_solver]. done.
    + destruct (hc_publication c); try done. destruct H4. split; [done|by eexists].
  - destruct (H3 e Hd) as (Hdr & ? & ?). split; cbn; try done.
    + intros e' He'. destruct (H2 e' He') as (? & ? & ? & ? & ? & ?). congruence.
    + intros e' [= <-]. rewrite He. split_and!; try done.
      destruct Hst as [->|[Hb _]]; [done|]. by rewrite Hdr in Hb.
Qed.

(** Invert the calls of a program that are not state updates. *)
Ltac run_handover H :=
  cbv [mbind SE_bind get lift reject modify put mret SE_ret throw ok_or] in H.

Lemma transition_core epoch target c c' r :
  core_ok c → transition_epoch epoch target c = (c', r) → core_ok c'.
Proof.
  intros Hc H. unfold transition_epoch in H. run_handover H.
  destruct (find_epoch c epoch) as [e| |] eqn:He; [|by simplify_eq..].
  destruct (transition_allowed (ep_state e) target) eqn:Ha; cbn in H; [|by simplify_eq].
  destruct (find_epoch_located _ _ _ He) as (_ & put_back & Hloc & Hup). rewrite Hup in H.
  apply record_event_core in H. eapply core_ok_same; [exact H|].
  eapply located_core; [done|done|done| |].
  - intros _. cbn. assert (status_ok e) as Hs.
    { destruct Hc as [[??] H2 H3 _]. destruct Hloc as [->|?|Hd]; [done|by eapply H2|].
      intros Hb. destruct (H3 _ Hd) as [E _]. by rewrite E in Hb. }
    apply Hs. by destruct (ep_state e), target.
  - right. cbn. by destruct (ep_state e), target; try done; (split; [|left]).
Qed.

Lemma mark_live_core epoch id digest c c' r :
  core_ok c → mark_live epoch id digest c = (c', r) → core_ok c'.
Proof.
  intros Hc H. unfold mark_live in H. run_handover H.
  destruct (validate_state_digest digest); [|by simplify_eq..].
  destruct (find_epoch c epoch) as [e| |] eqn:He; [|by simplify_eq..].
  destruct (bool_decide _) eqn:Ha; cbn in H; [|by simplify_eq]. apply bool_decide_eq_true in Ha.
  destruct (find_epoch_located _ _ _ He) as (_ & put_back & Hloc & Hup). rewrite Hup in H.
  apply record_event_core in H. eapply core_ok_same; [exact H|].
  eapply located_core; [done|done|done|done|]. right. rewrite Ha. cbn. auto.
Qed.

Lemma fail_epoch_core epoch reason c c' r :
  core_ok c → fail_epoch epoch reason c = (c', r) → core_ok c'.
Proof.
  intros Hc H. unfold fail_epoch, failed_event in H. run_handover H.
  destruct (is_blank reason); [by simplify_eq|]. destruct Hc as [[H1 H1'] H2 H3 H4].
  destruct (String.eqb _ _).
  { destruct (_ || _); [by simplify_eq|]. apply record_event_core in H.
    eapply core_ok_same; [exact H|]. split; cbn; try done.
    intros e He. destruct (H2 e He) as (? & ? & ? & ? & ? & ?). by split_and!; auto. }
  destruct (named epoch (hc_draining c)) as [d|] eqn:Hd.
  { apply named_Some in Hd as [Hd _]. apply record_event_core in H.
    eapply core_ok_same; [exact H|]. split; cbn; try done.
    intros e He. destruct (H2 e He) as (? & ? & ? & ? & ? & ?). by split_and!; auto. }
  destruct (named epoch (hc_candidate c)) as [d|] eqn:Hd'; [|by simplify_eq].
  apply named_Some in Hd' as [Hd' _]. apply record_event_core in H.
  destruct (H2 d Hd') as (_ & _ & _ & _ & _ & Hpub).
  eapply core_ok_same; [exact H|]. split; cbn; try done.
  destruct Hpub as [E|E]; rewrite E in H4; [left; apply H4|by right].
Qed.

Lemma observe_book_core epoch id digest c c' r :
  core_ok c → observe_book epoch id digest c = (c', r) → core_ok c'.
Proof.
  intros Hc H. unfold observe_book in H. run_handover H.
  destruct (validate_state_digest digest); [|by simplify_eq..].
  destruct (find_epoch c epoch) as [e| |] eqn:He; [|by simplify_eq..].
  destruct (observes_book (ep_state e)) eqn:Ho; cbn in H; [|by simplify_eq].
  destruct (find_epoch_located _ _ _ He) as (_ & put_back & Hloc & Hup).
  assert (∀ c', same_core (put_back (set_epoch_book id digest)) c' → core_ok c') as Hadv.
  { intros c1 H1. eapply core_ok_same; [exact H1|]. eapply located_core; [done|done|done| |by left].
    intros Hb. cbn in Hb. by destruct (ep_state e). }
  assert (∀ reason msg, (let (s', r) := fail_epoch epoch reason c in
    match r with Ok _ => (s', Err msg) | Err e => (s', Err e) | Panic => (s', Panic) end) = (c', r) →
    core_ok c') as Hfail.
  { intros reason msg Hf. destruct (fail_epoch epoch reason c) as [c1 [[]| |]] eqn:Hf1;
      simplify_eq; by eapply fail_epoch_core. }
  destruct (ep_final_update_id e) as [previous|].
  - destruct (id <? previous); [by eapply Hfail|]. destruct (id =? previous).
    + destruct (bool_decide _); [by simplify_eq|by eapply Hfail].
    + rewrite Hup in H. apply Hadv. by eapply record_event_core.
  - rewrite Hup in H. apply Hadv. by eapply record_event_core.
Qed.

Lemma activate_core c c' r : core_ok c → activate_initial c = (c', r) → core_ok c'.
Proof.
  intros [[H1 H1'] H2 H3 H4] H. unfold activate_initial in H. run_handover H.
  destruct (_ || _) eqn:Hg; [by simplify_eq|]. apply record_event_core in H.
  eapply core_ok_same; [exact H|]. split_orb.
  repeat match goal with
  | E : bool_decide _ = true |- _ => apply bool_decide_eq_true in E
  | E : bool_decide _ = false |- _ => apply bool_decide_eq_false in E
  end.
  split; cbn; try done; [|by left].
  intros e He. exfalso. eauto.
Qed.

Lemma begin_handover_core epoch c c' r : core_ok c → begin_handover epoch c = (c', r) → core_ok c'.
Proof.
  intros [[H1 H1'] H2 H3 H4] H. unfold begin_handover, epoch_connecting, epoch_was_used in H.
  run_handover H. destruct (_ || _) eqn:Hg; [by simplify_eq|].
  destruct (bool_decide _ || _) eqn:Hg2; [by simplify_eq|].
  destruct (bool_decide (epoch ∈ _)) eqn:Hu; [by simplify_eq|].
  destruct (is_blank epoch); cbn [res_bind] in H; [by simplify_eq|]. apply record_event_core in H.
  eapply core_ok_same; [exact H|]. split_orb.
  repeat match goal with
  | E : bool_decide _ = true |- _ => apply bool_decide_eq_true in E
  | E : bool_decide _ = false |- _ => apply bool_decide_eq_false in E
  end.
  split; cbn; try done.
  - split; [done|set_solver].
  - intros e [= <-]. cbn. split_and!; try done; [set_solver|set_solver|by left| |by left].
    by apply eq_None_not_Some.
  - intros e He. exfalso. eauto.
Qed.

Lemma promote_core c c' r : core_ok c → promote_candidate c = (c', r) → core_ok c'.
Proof.
  intros Hc H. unfold promote_candidate, candidate_converged in H. run_handover H.
  destruct (hc_candidate c) as [e|] eqn:He;
    [|cbn [negb] in H; rewrite orb_true_r in H; by injection H as <- <-].
  destruct (_ || _) eqn:Hg; [by simplify_eq|]. apply record_event_core in H.
  eapply core_ok_same; [exact H|]. destruct Hc as [[H1 H1'] H2 H3 H4].
  destruct (H2 e He) as (? & ? & ? & ? & ? & ?).
  split; cbn; try done; [|by left].
  intros e' [= <-]. cbn. split_and!; done.
Qed.

Lemma close_draining_core c c' r : core_ok c → close_draining c = (c', r) → core_ok c'.
Proof.
  intros Hc H. unfold close_draining in H. run_handover H.
  assert (core_ok (set_draining None c)) as Hc'.
  { destruct Hc as [[H1 H1'] H2 H3 H4]. split; cbn; try done. intros e He.
    destruct (H2 e He) as (? & ? & ? & ? & ? & ?). by split_and!. }
  destruct (hc_draining c) as [d|]; [|by injection H as <- <-].
  destruct (negb _); [by injection H as <- <-|]. apply record_event_core in H. by eapply core_ok_same.
Qed.

Lemma transport_action_core source candidate action c c' r :
  core_ok c → apply_transport_action source candidate action c = (c', r) → core_ok c'.
Proof.
  intros Hc H. unfold apply_transport_action in H. run_handover H.
  destruct action; try (by simplify_eq).
  - destruct (negb _); [by simplify_eq|]. destruct candidate; [|by simplify_eq].
    by eapply begin_handover_core.
  - destruct (_ && _); [by eapply close_draining_core|by eapply fail_epoch_core].
  - destruct (_ && _); [by eapply close_draining_core|by eapply fail_epoch_core].
Qed.

Lemma exec_core op c c' r : core_ok c → handover_exec op c = (c', r) → core_ok c'.
Proof.
  intros Hc H. destruct op; cbn [handover_exec] in H.
  - by eapply transition_core.
  - by eapply mark_live_core.
  - by eapply activate_core.
  - by eapply begin_handover_core.
  - by eapply observe_book_core.
  - by eapply promote_core.
  - by eapply close_draining_core.
  - by eapply fail_epoch_core.
  - unfold rotation_deadline_expired in H. run_handover H.
    destruct (negb _); [by simplify_eq|]. by eapply fail_epoch_core.
  - revert c Hc H. induction actions as [|a actions IH]; intros c Hc H;
      cbn [apply_transport_actions] in H; [by injection H as <- <-|].
    run_handover H. destruct (apply_transport_action source candidate a c) as [c1 [[]| |]] eqn:Ha;
      [|simplify_eq; by eapply transport_action_core..].
    eapply IH; [|exact H]. by eapply transport_action_core.
Qed.

Lemma reachable_core symbol initial c : handover_reachable symbol initial c → core_ok c.
Proof.
  induction 1 as [c H|op c c' r _ IH H]; [|by eapply exec_core].
  unfold controller_new, epoch_connecting in H. apply res_bind_Ok in H as (? & _ & H).
  apply res_bind_Ok in H as (e & He & H). apply res_bind_Ok in He as (? & _ & [= <-]).
  destruct (record_event _ _ _ _ _ _) as [c1 r1] eqn:Hr. apply record_event_core in Hr.
  apply res_bind_Ok in H as (? & _ & [= <-]). eapply core_ok_same; [exact Hr|].
  split; cbn; try done; [split; [done|set_solver]|by left].
Qed.

(** ** The published position *)

Definition position_le (c c' : HandoverController) : Prop :=
  ∀ id, ep_final_update_id (hc_active c) = Some id →
  ∃ id', ep_final_update_id (hc_active c') = Some id' ∧ id ≤ id'.

Lemma position_le_refl c c' :
  ep_final_update_id (hc_active c') = ep_final_update_id (hc_active c) → position_le c c'.
Proof. intros E id Hid. exists id. split; [congruence|lia]. Qed.
Lemma position_le_same c c1 c' : position_le c c1 → same_core c1 c' → position_le c c'.
Proof. intros H (_ & E & _) id Hid. rewrite E. by apply H. Qed.
Lemma position_le_trans c c1 c2 : position_le c c1 → position_le c1 c2 → position_le c c2.
Proof.
  intros H1 H2 id Hid. destruct (H1 id Hid) as (id1 & E1 & ?). destruct (H2 id1 E1) as (id2 & ? & ?).
  exists id2. split; [done|lia].
Qed.
#[local] Hint Resolve position_le_refl : core.

(** An update of one status that keeps or raises its position. *)
Lemma located_position c epoch e put_back f :
  located c epoch e put_back →
  (∀ id, ep_final_update_id e = Some id → ∃ id', ep_final_update_id (f e) = Some id' ∧ id ≤ id') →
  position_le c (put_back f).
Proof. intros [->|?|?] Hf; [exact Hf|by apply position_le_refl..]. Qed.

Lemma fail_epoch_position epoch reason c c' r :
  fail_epoch epoch reason c = (c', r) → position_le c c'.
Proof.
  intros H. unfold fail_epoch, failed_event in H. run_handover H.
  repeat case_match; simplify_eq; try (by apply position_le_refl);
    (apply record_event_core in H; eapply position_le_same; [|exact H]; by apply position_le_refl).
Qed.

Lemma observe_book_position epoch id digest c c' r :
  observe_book epoch id digest c = (c', r) → position_le c c'.
Proof.
  intros H. unfold observe_book in H. run_handover H.
  destruct (validate_state_digest digest); [|by simplify_eq; apply position_le_refl..].
  destruct (find_epoch c epoch) as [e| |] eqn:He; [|by simplify_eq; apply position_le_refl..].
  destruct (observes_book (ep_state e)); cbn in H; [|by simplify_eq; apply position_le_refl].
  destruct (find_epoch_located _ _ _ He) as (_ & put_back & Hloc & Hup).
  assert (∀ c', same_core (put_back (set_epoch_book id digest)) c' →
    (∀ p, ep_final_update_id e = Some p → p ≤ id) → position_le c c') as Hadv.
  { intros c1 H1 Hp. eapply position_le_same; [|exact H1]. eapply located_position; [done|].
    intros p Hp'. exists id. split; [done|by apply Hp]. }
  assert (∀ reason, (let (s', r) := fail_epoch epoch reason c in
    match r with Ok _ => (s', Err reason) | Err e => (s', Err e) | Panic => (s', Panic) end)
    = (c', r) → position_le c c') as Hfail.
  { intros reason Hf. destruct (fail_epoch epoch reason c) as [c1 [[]| |]] eqn:Hf1;
      simplify_eq; by eapply fail_epoch_position. }
  destruct (ep_final_update_id e) as [p|] eqn:Ep.
  - destruct (id <? p) eqn:E1; [by eapply Hfail|]. destruct (id =? p).
    + destruct (bool_decide _); [by simplify_eq; apply position_le_refl|by eapply Hfail].
    + rewrite Hup in H. apply record_event_core in H. apply Hadv; [done|]. intros ? [= <-]. lia.
  - rewrite Hup in H. apply record_event_core in H. by apply Hadv.
Qed.

Lemma transport_action_position source candidate action c c' r :
  apply_transport_action source candidate action c = (c', r) → position_le c c'.
Proof.
  intros H. unfold apply_transport_action in H. run_handover H.
  assert (∀ c', close_draining c = (c', r) → position_le c c') as Hclose.
  { intros c1 H1. unfold close_draining in H1. run_handover H1.
    repeat case_match; simplify_eq; try (by apply position_le_refl);
      (apply record_event_core in H1; eapply position_le_same; [|exact H1]; by apply position_le_refl). }
  destruct action; try (simplify_eq; by apply position_le_refl).
  - unfold begin_handover, epoch_connecting in H. run_handover H.
    repeat case_match; simplify_eq; try (by apply position_le_refl);
      (apply record_event_core in H; eapply position_le_same; [|exact H]; by apply position_le_refl).
  - destruct (_ && _); [by apply Hclose|by eapply fail_epoch_position].
  - destruct (_ && _); [by apply Hclose|by eapply fail_epoch_position].
Qed.

Lemma exec_position op c c' r :
  core_ok c → handover_exec op c = (c', r) → position_le c c'.
Proof.
  intros Hc H. destruct op; cbn [handover_exec] in H.
  - unfold transition_epoch in H. run_handover H.
    destruct (find_epoch c epoch) as [e| |] eqn:He; [|by simplify_eq; apply position_le_refl..].
    destruct (negb _); [by simplify_eq; apply position_le_refl|].
    destruct (find_epoch_located _ _ _ He) as (_ & put_back & Hloc & Hup). rewrite Hup in H.
    apply record_event_core in H. eapply position_le_same; [|exact H].
    eapply located_position; [done|]. intros id Hid. exists id. split; [done|lia].
  - unfold mark_live in H. run_handover H.
    destruct (validate_state_digest digest); [|by simplify_eq; apply position_le_refl..].
    destruct (find_epoch c epoch) as [e| |] eqn:He; [|by simplify_eq; apply position_le_refl..].
    destruct (bool_decide _) eqn:Hst; cbn in H; [|by simplify_eq; apply position_le_refl].
    apply bool_decide_eq_true in Hst.
    destruct (find_epoch_located _ _ _ He) as (_ & put_back & Hloc & Hup). rewrite Hup in H.
    apply record_event_core in H. eapply position_le_same; [|exact H].
    destruct Hloc as [->|?|?]; [|by apply position_le_refl..].
    intros id Hid. destruct Hc as [[Hs _] _ _ _]. rewrite Hs in Hid; [done|by rewrite Hst].
  - unfold activate_initial in H. run_handover H.
    destruct (_ || _); [by simplify_eq; apply position_le_refl|].
    apply record_event_core in H. eapply position_le_same; [|exact H]. by apply position_le_refl.
  - eapply (transport_action_position (ep_epoch (hc_active c)) (Some epoch) (BeginHandover "") c c' r).
    unfold apply_transport_action. cbv [mbind SE_bind get lift reject ok_or].
    by rewrite String.eqb_refl.
  - by eapply observe_book_position.
  - unfold promote_candidate, candidate_converged in H. run_handover H.
    destruct (hc_candidate c) as [e|];
      [|rewrite orb_true_r in H; simplify_eq; by apply position_le_refl].
    destruct (_ || _) eqn:Hg; [by simplify_eq; apply position_le_refl|]. split_orb.
    repeat match goal with E : bool_decide _ = true |- _ => apply bool_decide_eq_true in E end.
    apply record_event_core in H. eapply position_le_same; [|exact H]. by apply position_le_refl.
  - unfold close_draining in H. run_handover H.
    repeat case_match; simplify_eq; try (by apply position_le_refl);
      (apply record_event_core in H; eapply position_le_same; [|exact H]; by apply position_le_refl).
  - by eapply fail_epoch_position.
  - unfold rotation_deadline_expired in H. run_handover H.
    destruct (negb _); [by simplify_eq; apply position_le_refl|]. by eapply fail_epoch_position.
  - clear Hc. revert c H. induction actions as [|a actions IH]; intros c H;
      cbn [apply_transport_actions] in H; [injection H as <- <-; by apply position_le_refl|].
    run_handover H. destruct (apply_transport_action source candidate a c) as [c1 [[]| |]] eqn:Ha;
      [|simplify_eq; by eapply transport_action_position..].
    eapply position_le_trans; [by eapply transport_action_position|by apply IH].
Qed.

(** ** Claims *)

(** The protocol invariant of every history. The active, candidate and
    draining epochs are distinct and have been used; there is never a candidate
    beside a draining epoch; a draining epoch is in state DRAINING and a
    candidate is no further than LIVE; HANDOVER means an ACTIVE active epoch and a
    candidate, and GAP means the active epoch failed. *)
Theorem handover_invariant symbol initial c : handover_reachable symbol initial c → core_ok c.
Proof. apply reachable_core. Qed.

(** A promotion does not move the published book. It happens only when the
    candidate is LIVE, the active epoch ACTIVE, and both books have the same
    update ID and digest; then the candidate becomes the active epoch, the old
    one drains, and the published update ID and digest are what they were. *)
Theorem promotion_preserves_published_book symbol initial c c' :
  handover_reachable symbol initial c → promote_candidate c = (c', Ok ()) →
  ∃ candidate id, hc_candidate c = Some candidate ∧ ep_state candidate = EsLive ∧
    ep_state (hc_active c) = EsActive ∧ ep_final_update_id candidate = Some id ∧
    hc_active c' = set_epoch_state EsActive candidate ∧
    ep_final_update_id (hc_active c') = ep_final_update_id (hc_active c) ∧
    ep_state_sha256 (hc_active c') = ep_state_sha256 (hc_active c) ∧
    hc_draining c' = Some (set_epoch_state EsDraining (hc_active c)) ∧
    hc_candidate c' = None ∧ hc_publication c' = PubLive ∧
    ep_epoch (hc_active c') ≠ ep_epoch (hc_active c).
Proof.
  intros Hr H. apply reachable_core in Hr as [_ H2 _ _].
  unfold promote_candidate, candidate_converged in H. run_handover H.
  destruct (hc_candidate c) as [e|]; [|by rewrite orb_true_r in H].
  destruct (_ || _) eqn:Hg; [done|]. split_orb.
  repeat match goal with E : bool_decide _ = true |- _ => apply bool_decide_eq_true in E end.
  apply record_event_core in H as (E1 & E2 & E3 & E4 & _). rewrite E1, E2, E3, E4. cbn.
  destruct (H2 e eq_refl) as (_ & _ & ? & _).
  match goal with E : is_Some _ |- _ => destruct E as [id ?] end.
  exists e, id. by split_and!.
Qed.

(** The published position never goes back. In every history no call,
    successful or not, promotions included, lowers the update ID of the active
    epoch or forgets it. *)
Theorem published_position_never_regresses symbol initial op c c' r id :
  handover_reachable symbol initial c → handover_exec op c = (c', r) →
  ep_final_update_id (hc_active c) = Some id →
  ∃ id', ep_final_update_id (hc_active c') = Some id' ∧ id ≤ id'.
Proof. intros Hr H. exact (exec_position op c c' r (reachable_core _ _ _ Hr) H id). Qed.

(** Contradictory books are never published. An observation of the active
    epoch that goes back, or that repeats the update ID with another digest,
    fails the epoch and puts the publication into GAP with the reason kept; the
    published update ID and digest stay what they were. *)
Theorem contradictory_book_fails_active c id digest previous d :
  ep_state (hc_active c) = EsActive → ep_final_update_id (hc_active c) = Some previous →
  ep_state_sha256 (hc_active c) = Some d → is_digest digest = true →
  id < previous ∨ (id = previous ∧ digest ≠ d) → hc_next_event_index c < u64_max →
  ∃ c' reason, observe_book (ep_epoch (hc_active c)) id digest c = (c', Err reason) ∧
    hc_publication c' = PubGap ∧ hc_active c' = set_epoch_state EsFailed (hc_active c) ∧
    hc_failures c' = hc_failures c ++ [mkFailure (ep_epoch (hc_active c)) EsActive reason].
Proof.
  intros Hst Hid Hd Hdig Hbad Hev.
  assert (∀ reason, is_blank reason = false → ∃ c',
    fail_epoch (ep_epoch (hc_active c)) reason c = (c', Ok ()) ∧
    hc_publication c' = PubGap ∧ hc_active c' = set_epoch_state EsFailed (hc_active c) ∧
    hc_failures c' = hc_failures c ++ [mkFailure (ep_epoch (hc_active c)) EsActive reason]) as Hfail.
  { intros reason Hb. unfold fail_epoch, failed_event, record_event.
    cbv [mbind SE_bind get lift reject modify put]. rewrite Hb, String.eqb_refl, Hst. cbn.
    destruct (add_u64_cases (hc_next_event_index c) 1) as [[-> _]|[_ ?]]; [|lia].
    eexists. split; [reflexivity|]. done. }
  unfold observe_book, find_epoch, validate_state_digest.
  cbv [mbind SE_bind get lift reject throw mret SE_ret].
  rewrite Hdig, String.eqb_refl. cbn [negb]. rewrite Hst, Hid, Hd. cbn [negb observes_book].
  destruct Hbad as [Hlt|[-> Hne]].
  - rewrite (proj2 (Z.ltb_lt _ _)) by done.
    match goal with |- context [fail_epoch _ ?reason c] => destruct (Hfail reason) as (c' & -> & ?) end.
    { reflexivity. }
    eexists _, _. by split.
  - rewrite Z.ltb_irrefl, Z.eqb_refl, bool_decide_eq_false_2 by congruence.
    match goal with |- context [fail_epoch _ ?reason c] => destruct (Hfail reason) as (c' & -> & ?) end.
    { reflexivity. }
    eexists _, _. by split.
Qed.

(** ** A concrete rotation *)

Module HandoverDemo.
Definition digest (n : Z) : string := hex (to_be_bytes 32 n).
Definition fallback : HandoverController :=
  mkController "" PubUnavailable (mkEpoch "" EsConnecting None None) None None [] [] ∅ 0.
Definition start : HandoverController :=
  Eval vm_compute in match controller_new "BTCUSDT" "A" with Ok c => c | _ => fallback end.
Definition run (ops : list handover_op) (c : HandoverController) : HandoverController :=
  foldl (λ c op, (handover_exec op c).1) c ops.

Definition to_live (epoch : string) (id : Z) : list handover_op :=
  [HTransition epoch EsBuffering; HTransition epoch EsSnapshotting; HTransition epoch EsSyncing;
   HMarkLive epoch id (digest id)].
Definition active : HandoverController :=
  Eval vm_compute in run (to_live "A" 5 ++ [HActivate; HBegin "B"]) start.
Definition converged : HandoverController :=
  Eval vm_compute in run (to_live "B" 7 ++ [HObserve "A" 7 (digest 7)]) active.
Definition promoted : HandoverController := Eval vm_compute in (promote_candidate converged).1.

Lemma handover_run_reachable ops c :
  handover_reachable "BTCUSDT" "A" c → handover_reachable "BTCUSDT" "A" (run ops c).
Proof.
  unfold run. revert c. induction ops as [|op ops IH]; intros c Hc; [done|]. cbn. apply IH.
  destruct (handover_exec op c) as [c' r] eqn:E. by eapply hr_step.
Qed.
Lemma start_reachable : handover_reachable "BTCUSDT" "A" start.
Proof. apply hr_new. vm_compute. reflexivity. Qed.
Lemma converged_reachable : handover_reachable "BTCUSDT" "A" converged.
Proof.
  change converged with (run (to_live "B" 7 ++ [HObserve "A" 7 (digest 7)])
    (run (to_live "A" 5 ++ [HActivate; HBegin "B"]) start)).
  apply handover_run_reachable, handover_run_reachable, start_reachable.
Qed.
End HandoverDemo.

Section handover_witnesses.
Import HandoverDemo.

Lemma handover_invariant_witness : hc_publication converged = PubHandover ∧ core_ok converged.
Proof.
  split; [reflexivity|]. apply (handover_invariant "BTCUSDT" "A"). apply converged_reachable.
Defined.

Lemma promotion_preserves_published_book_witness :
  ∃ candidate id, hc_candidate converged = Some candidate ∧ ep_state candidate = EsLive ∧
    ep_state (hc_active converged) = EsActive ∧ ep_final_update_id candidate = Some id ∧
    hc_active promoted = set_epoch_state EsActive candidate ∧
    ep_final_update_id (hc_active promoted) = ep_final_update_id (hc_active converged) ∧
    ep_state_sha256 (hc_active promoted) = ep_state_sha256 (hc_active converged) ∧
    hc_draining promoted = Some (set_epoch_state EsDraining (hc_active converged)) ∧
    hc_candidate promoted = None ∧ hc_publication promoted = PubLive ∧
    ep_epoch (hc_active promoted) ≠ ep_epoch (hc_active converged).
Proof.
  apply (promotion_preserves_published_book "BTCUSDT" "A" converged promoted);
    [apply converged_reachable|vm_compute; reflexivity].
Defined.

Lemma published_position_never_regresses_witness :
  ∃ id', ep_final_update_id (hc_active promoted) = Some id' ∧ 7 ≤ id'.
Proof.
  apply (published_position_never_regresses "BTCUSDT" "A" HPromote converged promoted (Ok ()) 7);
    [apply converged_reachable|vm_compute; reflexivity|reflexivity].
Defined.

Lemma contradictory_book_fails_active_witness :
  ∃ c' reason, observe_book "A" 7 (digest 8) converged = (c', Err reason) ∧
    hc_publication c' = PubGap ∧
    hc_active c' = set_epoch_state EsFailed (hc_active converged) ∧
    hc_failures c' = hc_failures converged ++ [mkFailure "A" EsActive reason].
Proof.
  apply (contradictory_book_fails_active converged 7 (digest 8) 7 (digest 7));
    try reflexivity. right. split; [reflexivity|]. vm_compute. discriminate.
Defined.

(** When the active epoch fails during a handover the publication is GAP;
    when the candidate then fails too, [fail_epoch] reports the publication
    as LIVE although the active epoch is FAILED. *)
Theorem candidate_failure_hides_gap :
  let gap := (fail_epoch "A" "socket lost" converged).1 in
  let after := (fail_epoch "B" "socket lost" gap).1 in
  hc_publication gap = PubGap ∧ hc_publication after = PubLive ∧
  ep_state (hc_active after) = EsFailed.
Proof. vm_compute. done. Qed.
End handover_witnesses.
