(* ===== verification/Ownership.v ===== *)
(** * Ownership of the canonical source (ownership.rs)

    The ownership ledger is an append-only journal that names the connection
    generation allowed to publish. A transfer is two records, PREPARED and
    ACTIVATED, each synced before it is acknowledged, and carries a fencing
    token one above its predecessor's. [CanonicalSourcePointer] is the owner in
    memory: recovered from a scan of the ledger, it accepts the observations
    that continue its streams and fences everybody else. A ledger file is its
    bytes; creating and opening files is left out. *)

From stdpp Require Import base list strings option numbers gmap.
From Stdlib Require Import ZArith Lia Strings.Byte Sorting.Sorted.
From S2P Require Import Prelude External OrderBook RawLog RawLogSafety Boundary.
Local Open Scope Z_scope.

Definition LEDGER_MAGIC : bytes := [x42; x4e; x4f; x57; x4e; x00; x01; x0a].
Definition LEDGER_MAX_RECORD_BYTES : Z := 256 * 1024.

(** ** Data *)

Record SourcePointerSnapshotV1 := mkSnapshot {
  sp_schema : string; sp_symbol : string; sp_generation_id : string; sp_depth_epoch : string;
  sp_trade_epoch : string; sp_fencing_token : Z; sp_depth_last_sequence : Z;
  sp_trade_last_sequence : Z
}.
#[global] Instance snapshot_eq_decision : EqDecision SourcePointerSnapshotV1.
Proof. solve_decision. Defined.

(** The struct [digest] serialises. *)
Record PointerDigestMaterial := mkPointerMaterial {
  pm_depth_epoch : string; pm_depth_last_sequence : Z; pm_fencing_token : Z;
  pm_generation_id : string; pm_schema : string; pm_symbol : string; pm_trade_epoch : string;
  pm_trade_last_sequence : Z
}.

Record CommittedBoundaryProofV1 := mkProof {
  cp_boundary : HandoverBoundaryV1; cp_commit_record_sha256 : string
}.

Record OwnershipActivationV1 := mkActivation {
  ac_schema : string; ac_activation_id : string; ac_symbol : string;
  ac_predecessor_generation : string; ac_successor_generation : string;
  ac_predecessor_depth_epoch : string; ac_predecessor_trade_epoch : string;
  ac_successor_depth_epoch : string; ac_successor_trade_epoch : string;
  ac_depth_boundary_id : string; ac_trade_boundary_id : string;
  ac_depth_commit_record_sha256 : string; ac_trade_commit_record_sha256 : string;
  ac_depth_boundary_sequence : Z; ac_trade_boundary_sequence : Z; ac_fencing_token : Z
}.
#[global] Instance activation_eq_decision : EqDecision OwnershipActivationV1.
Proof. solve_decision. Defined.

Inductive OwnershipAction := Initialized | Prepared | Activated.
#[global] Instance ownership_action_eq_decision : EqDecision OwnershipAction.
Proof. solve_decision. Defined.

Record OwnershipRecordV1 := mkOwnershipRecord {
  or_schema : string; or_record_index : Z; or_action : OwnershipAction;
  or_initial_owner : option SourcePointerSnapshotV1; or_activation : option OwnershipActivationV1;
  or_prepared_record_sha256 : option string; or_previous_record_sha256 : string
}.
#[global] Instance ownership_record_eq_decision : EqDecision OwnershipRecordV1.
Proof. solve_decision. Defined.

Record OwnershipLedgerAckV1 := mkLedgerAck {
  la_action : OwnershipAction; la_durable_record_count : Z; la_durable_through_offset : Z;
  la_last_record_sha256 : string
}.

Record OwnershipLedgerScanV1 := mkLedgerScan {
  ls_file_size : Z; ls_records : Z; ls_last_good_offset : Z; ls_clean_eof : bool;
  ls_reason : option string; ls_active_owner : option SourcePointerSnapshotV1;
  ls_pending_activation : option OwnershipActivationV1;
  ls_last_activation : option OwnershipActivationV1; ls_last_record_sha256 : string
}.

Record OwnershipLedgerWriter (S : Type) := mkLedger {
  ow_sink : S; ow_end_offset : Z; ow_previous_digest : string; ow_record_count : Z;
  ow_active_owner : SourcePointerSnapshotV1;
  ow_pending : option (OwnershipActivationV1 * string); ow_poisoned : bool
}.
Arguments mkLedger {S}.
Arguments ow_sink {S}. Arguments ow_end_offset {S}. Arguments ow_previous_digest {S}.
Arguments ow_record_count {S}. Arguments ow_active_owner {S}. Arguments ow_pending {S}.
Arguments ow_poisoned {S}.

Inductive LivePublicationState := LpLive | LpGap.
#[global] Instance live_publication_eq_decision : EqDecision LivePublicationState.
Proof. solve_decision. Defined.

Record CanonicalSourcePointer := mkPointer {
  pt_owner : SourcePointerSnapshotV1; pt_state : LivePublicationState;
  pt_fenced_rejections : Z; pt_gap_reason : option string
}.

(** ** Validation *)

Definition snapshot_validate (s : SourcePointerSnapshotV1) : res unit :=
  reject (negb (String.eqb (sp_schema s) "SourcePointerSnapshotV1")
          || negb (in_scope (sp_symbol s)) || is_blank (sp_generation_id s)
          || is_blank (sp_depth_epoch s) || is_blank (sp_trade_epoch s)
          || (sp_fencing_token s =? 0)) "invalid source pointer snapshot".

Definition activation_validate (a : OwnershipActivationV1) : res unit :=
  _ ← reject (negb (String.eqb (ac_schema a) "OwnershipActivationV1")
      || is_blank (ac_activation_id a) || negb (in_scope (ac_symbol a))
      || is_blank (ac_predecessor_generation a) || is_blank (ac_successor_generation a)
      || String.eqb (ac_predecessor_generation a) (ac_successor_generation a)
      || is_blank (ac_predecessor_depth_epoch a) || is_blank (ac_predecessor_trade_epoch a)
      || is_blank (ac_successor_depth_epoch a) || is_blank (ac_successor_trade_epoch a)
      || String.eqb (ac_predecessor_depth_epoch a) (ac_successor_depth_epoch a)
      || String.eqb (ac_predecessor_trade_epoch a) (ac_successor_trade_epoch a)
      || is_blank (ac_depth_boundary_id a) || is_blank (ac_trade_boundary_id a)
      || String.eqb (ac_depth_boundary_id a) (ac_trade_boundary_id a)
      || (ac_fencing_token a =? 0)) "invalid ownership activation identity";
  _ ← validate_digest (ac_depth_commit_record_sha256 a);
  _ ← validate_digest (ac_trade_commit_record_sha256 a);
  Ok ().

Definition successor_snapshot (a : OwnershipActivationV1) : SourcePointerSnapshotV1 :=
  mkSnapshot "SourcePointerSnapshotV1" (ac_symbol a) (ac_successor_generation a)
    (ac_successor_depth_epoch a) (ac_successor_trade_epoch a) (ac_fencing_token a)
    (ac_depth_boundary_sequence a) (ac_trade_boundary_sequence a).

Definition kind_is (kind : BoundaryStreamKind) (p : CommittedBoundaryProofV1) : bool :=
  bool_decide (hb_stream_kind (cp_boundary p) = kind).

Definition validate_activation_proofs (a : OwnershipActivationV1)
    (depth trade : CommittedBoundaryProofV1) : res unit :=
  let db := cp_boundary depth in let tb := cp_boundary trade in
  _ ← boundary_validate db;
  _ ← boundary_validate tb;
  reject (negb (kind_is Depth depth) || negb (kind_is Trade trade)
      || negb (String.eqb (ac_symbol a) (hb_symbol db))
      || negb (String.eqb (ac_symbol a) (hb_symbol tb))
      || negb (String.eqb (ac_predecessor_depth_epoch a) (hb_predecessor_epoch db))
      || negb (String.eqb (ac_predecessor_trade_epoch a) (hb_predecessor_epoch tb))
      || negb (String.eqb (ac_successor_depth_epoch a) (hb_successor_epoch db))
      || negb (String.eqb (ac_successor_trade_epoch a) (hb_successor_epoch tb))
      || negb (String.eqb (ac_depth_boundary_id a) (hb_boundary_id db))
      || negb (String.eqb (ac_trade_boundary_id a) (hb_boundary_id tb))
      || negb (ac_depth_boundary_sequence a =? hb_boundary_sequence db)
      || negb (ac_trade_boundary_sequence a =? hb_boundary_sequence tb)
      || negb (String.eqb (ac_depth_commit_record_sha256 a) (cp_commit_record_sha256 depth))
      || negb (String.eqb (ac_trade_commit_record_sha256 a) (cp_commit_record_sha256 trade)))
    "ownership activation does not match committed boundary proofs".

Definition derive_ownership_activation (activation_id successor_generation : string)
    (current : SourcePointerSnapshotV1) (depth trade : CommittedBoundaryProofV1)
    : res OwnershipActivationV1 :=
  let db := cp_boundary depth in let tb := cp_boundary trade in
  _ ← snapshot_validate current;
  _ ← boundary_validate db;
  _ ← boundary_validate tb;
  _ ← validate_digest (cp_commit_record_sha256 depth);
  _ ← validate_digest (cp_commit_record_sha256 trade);
  _ ← reject (negb (kind_is Depth depth) || negb (kind_is Trade trade)
      || negb (String.eqb (hb_symbol db) (sp_symbol current))
      || negb (String.eqb (hb_symbol tb) (sp_symbol current))
      || negb (String.eqb (hb_predecessor_epoch db) (sp_depth_epoch current))
      || negb (String.eqb (hb_predecessor_epoch tb) (sp_trade_epoch current))
      || negb (hb_boundary_sequence db =? sp_depth_last_sequence current)
      || negb (hb_boundary_sequence tb =? sp_trade_last_sequence current))
      "boundary proofs do not continue the active source generation";
  fencing_token ← ok_or (checked_add (sp_fencing_token current) 1) "fencing token overflow";
  let activation := mkActivation "OwnershipActivationV1" activation_id (sp_symbol current)
    (sp_generation_id current) successor_generation (sp_depth_epoch current)
    (sp_trade_epoch current) (hb_successor_epoch db) (hb_successor_epoch tb)
    (hb_boundary_id db) (hb_boundary_id tb) (cp_commit_record_sha256 depth)
    (cp_commit_record_sha256 trade) (hb_boundary_sequence db) (hb_boundary_sequence tb)
    fencing_token in
  _ ← activation_validate activation;
  _ ← validate_activation_proofs activation depth trade;
  Ok activation.

Definition validate_activation_predecessor (active : SourcePointerSnapshotV1)
    (a : OwnershipActivationV1) : res unit :=
  _ ← snapshot_validate active;
  _ ← activation_validate a;
  reject (negb (String.eqb (ac_symbol a) (sp_symbol active))
      || negb (String.eqb (ac_predecessor_generation a) (sp_generation_id active))
      || negb (String.eqb (ac_predecessor_depth_epoch a) (sp_depth_epoch active))
      || negb (String.eqb (ac_predecessor_trade_epoch a) (sp_trade_epoch active))
      || negb (ac_fencing_token a =? default 0 (checked_add (sp_fencing_token active) 1)))
    "ownership activation does not exactly continue active owner".

Section ownership.
Context `{Hsha : Sha256} `{Hor : Serde OwnershipRecordV1} `{Hpm : Serde PointerDigestMaterial}.

Definition snapshot_digest (s : SourcePointerSnapshotV1) : res string :=
  _ ← snapshot_validate s;
  encoded ← map_err "serialize source pointer digest: "
    (to_vec (mkPointerMaterial (sp_depth_epoch s) (sp_depth_last_sequence s) (sp_fencing_token s)
       (sp_generation_id s) (sp_schema s) (sp_symbol s) (sp_trade_epoch s)
       (sp_trade_last_sequence s)));
  Ok (hex (sha256 encoded)).

Definition load_committed_boundary_proof `{Serde BoundaryJournalRecordV1} (file : bytes)
    : res CommittedBoundaryProofV1 :=
  scan ← scan_boundary_journal file;
  _ ← reject (negb (js_clean_eof scan) || negb (js_records scan =? 2))
        "boundary journal lacks one complete committed boundary";
  boundary ← ok_or (js_committed scan) "boundary journal is not committed";
  _ ← validate_digest (js_last_record_sha256 scan);
  Ok (mkProof boundary (js_last_record_sha256 scan)).

(** ** The ledger writer *)
Section ledger_writer.
Context {S : Type} `{Hsink : DurableSink S}.

Definition set_owner_pending (owner : SourcePointerSnapshotV1)
    (pending : option (OwnershipActivationV1 * string)) (w : OwnershipLedgerWriter S)
    : OwnershipLedgerWriter S :=
  mkLedger (ow_sink w) (ow_end_offset w) (ow_previous_digest w) (ow_record_count w) owner pending
    (ow_poisoned w).

Definition ledger_append_and_sync (record : OwnershipRecordV1)
    : SE (OwnershipLedgerWriter S) OwnershipLedgerAckV1 :=
  w ← get;
  lift (reject (ow_poisoned w) "ownership ledger is poisoned");;
  body ← lift (map_err "serialize ownership record: " (to_vec record));
  lift (reject (LEDGER_MAX_RECORD_BYTES <? len body) "ownership record exceeds maximum size");;
  let digest := sha256 body in
  lift (reject (u32_max <? len body) "ownership record length does not fit u32");;
  let encoded := encode_record body digest in
  let '(s, r) := write_flush_sync encoded (ow_sink w) in
  match r with
  | inl error =>
      put (mkLedger s (ow_end_offset w) (ow_previous_digest w) (ow_record_count w)
             (ow_active_owner w) (ow_pending w) true);;
      throw ("sync ownership record; ledger poisoned: " ++ error)
  | inr _ =>
      put (mkLedger s (ow_end_offset w) (ow_previous_digest w) (ow_record_count w)
             (ow_active_owner w) (ow_pending w) false);;
      record_count ← lift (add_u64 (ow_record_count w) 1);
      put (mkLedger s (ow_end_offset w) (ow_previous_digest w) record_count
             (ow_active_owner w) (ow_pending w) false);;
      end_offset ← lift (ok_or (checked_add (ow_end_offset w) (len encoded))
                           "ownership offset overflow");
      put (mkLedger s end_offset (hex digest) record_count (ow_active_owner w) (ow_pending w)
             false);;
      mret (mkLedgerAck (or_action record) record_count end_offset (hex digest))
  end.

Definition ledger_from_sink (sink : S) (initial : SourcePointerSnapshotV1)
    : res (OwnershipLedgerWriter S) :=
  _ ← snapshot_validate initial;
  let '(sink, r) := write_all LEDGER_MAGIC sink in
  _ ← map_err "write ownership magic: " r;
  let '(sink, r) := sync_all sink in
  _ ← map_err "sync ownership magic: " r;
  let '(writer, r) := ledger_append_and_sync
    (mkOwnershipRecord "OwnershipRecordV1" 0 Initialized (Some initial) None None ZERO_DIGEST)
    (mkLedger sink (len LEDGER_MAGIC) ZERO_DIGEST 0 initial None false) in
  _ ← r;
  Ok writer.

Definition prepare (a : OwnershipActivationV1)
    : SE (OwnershipLedgerWriter S) OwnershipLedgerAckV1 :=
  w ← get;
  lift (reject (bool_decide (is_Some (ow_pending w)))
          "ownership ledger already has a pending activation");;
  lift (validate_activation_predecessor (ow_active_owner w) a);;
  ack ← ledger_append_and_sync (mkOwnershipRecord "OwnershipRecordV1" (ow_record_count w) Prepared
          None (Some a) None (ow_previous_digest w));
  modify (λ w, set_owner_pending (ow_active_owner w) (Some (a, la_last_record_sha256 ack)) w);;
  mret ack.

Definition activate (activation_id : string)
    : SE (OwnershipLedgerWriter S) OwnershipLedgerAckV1 :=
  w ← get;
  '(a, prepared_digest) ← lift (ok_or (ow_pending w)
      "ownership cannot activate before durable prepare");
  lift (reject (negb (String.eqb (ac_activation_id a) activation_id))
          "ownership activation ID does not match prepared record");;
  ack ← ledger_append_and_sync (mkOwnershipRecord "OwnershipRecordV1" (ow_record_count w) Activated
          None None (Some prepared_digest) (ow_previous_digest w));
  w ← get;
  '(a, _) ← lift (expect (ow_pending w));
  modify (set_owner_pending (successor_snapshot a) None);;
  mret ack.
End ledger_writer.

(** ** The ledger scan *)

Record ledger_state := mkLedgerState {
  lt_records : Z; lt_last_good_offset : Z; lt_previous : string;
  lt_active_owner : option SourcePointerSnapshotV1;
  lt_pending : option (OwnershipActivationV1 * string);
  lt_last_activation : option OwnershipActivationV1; lt_reason : option string
}.
Definition set_ownership (owner : option SourcePointerSnapshotV1)
    (pending : option (OwnershipActivationV1 * string)) (last : option OwnershipActivationV1)
    (st : ledger_state) : ledger_state :=
  mkLedgerState (lt_records st) (lt_last_good_offset st) (lt_previous st) owner pending last
    (lt_reason st).
Definition stop_ledger (reason : string) (st : ledger_state) : ledger_state :=
  mkLedgerState (lt_records st) (lt_last_good_offset st) (lt_previous st) (lt_active_owner st)
    (lt_pending st) (lt_last_activation st) (Some reason).

(** The closure of [scan_ownership_ledger] that takes one record. *)
Definition apply_ownership_record (record : OwnershipRecordV1) (digest : bytes)
    : SE ledger_state unit :=
  st ← get;
  lift (reject (negb (String.eqb (or_schema record) "OwnershipRecordV1")
                || negb (or_record_index record =? lt_records st)
                || negb (String.eqb (or_previous_record_sha256 record) (lt_previous st)))
          "ownership ledger chain/index mismatch");;
  match or_action record with
  | Initialized =>
      lift (reject (negb (lt_records st =? 0) || bool_decide (is_Some (lt_active_owner st))
                    || bool_decide (is_Some (lt_pending st))) "illegal ownership initialization");;
      owner ← lift (ok_or (or_initial_owner record) "ownership initialization lacks owner");
      lift (reject (bool_decide (is_Some (or_activation record))
                    || bool_decide (is_Some (or_prepared_record_sha256 record)))
              "ownership initialization has illegal fields");;
      lift (snapshot_validate owner);;
      modify (set_ownership (Some owner) (lt_pending st) (lt_last_activation st))
  | Prepared =>
      owner ← lift (ok_or (lt_active_owner st) "ownership prepare precedes initialization");
      lift (reject (bool_decide (is_Some (lt_pending st))
                    || bool_decide (is_Some (or_initial_owner record))
                    || bool_decide (is_Some (or_prepared_record_sha256 record)))
              "illegal ownership prepare");;
      a ← lift (ok_or (or_activation record) "ownership prepare lacks activation");
      lift (validate_activation_predecessor owner a);;
      modify (set_ownership (lt_active_owner st) (Some (a, hex digest)) (lt_last_activation st))
  | Activated =>
      modify (set_ownership (lt_active_owner st) None (lt_last_activation st));;
      '(a, prepared_digest) ← lift (ok_or (lt_pending st)
          "ownership activation has no prepared record");
      lift (reject (bool_decide (is_Some (or_initial_owner record))
                    || bool_decide (is_Some (or_activation record))
                    || negb (bool_decide (or_prepared_record_sha256 record
                                          = Some prepared_digest)))
              "ownership activation reference mismatch");;
      modify (set_ownership (Some (successor_snapshot a)) None (Some a))
  end.

(** The loop of [scan_ownership_ledger]; a turn consumes a record, so
    [S (length input)] turns are enough ([ledger_loop_sound]). *)
Fixpoint ledger_loop (fuel : nat) (input : bytes) (st : ledger_state) : res ledger_state :=
  match fuel with
  | O => Panic
  | Datatypes.S fuel =>
    match read_frame LEDGER_MAX_RECORD_BYTES input with
    | FrameEof => Ok st
    | FramePartialPrefix => Ok (stop_ledger "partial ownership length prefix" st)
    | FrameTooLong => Ok (stop_ledger "ownership record length exceeds limit" st)
    | FramePartialBody => Ok (stop_ledger "partial ownership record body" st)
    | FramePartialDigest => Ok (stop_ledger "partial ownership record digest" st)
    | FrameRead body digest rest =>
        if negb (bool_decide (sha256 body = digest))
        then Ok (stop_ledger "ownership record digest mismatch" st) else
        match from_slice body with
        | inl error => Ok (stop_ledger ("invalid ownership record JSON: " ++ error) st)
        | inr record =>
            match apply_ownership_record record digest st with
            | (_, Panic) => Panic
            | (st, Err error) => Ok (stop_ledger error st)
            | (st, Ok _) =>
                records ← add_u64 (lt_records st) 1;
                last_good_offset ← ok_or (checked_add (lt_last_good_offset st)
                  (4 + len body + 32)) "ownership scan offset overflow";
                ledger_loop fuel rest
                  (mkLedgerState records last_good_offset (hex digest) (lt_active_owner st)
                     (lt_pending st) (lt_last_activation st) (lt_reason st))
            end
        end
    end
  end.

Definition scan_ownership_ledger (file : bytes) : res OwnershipLedgerScanV1 :=
  if negb (bool_decide (take 8 file = LEDGER_MAGIC))
  then Ok (mkLedgerScan (len file) 0 0 false (Some "bad ownership ledger magic") None None None
             ZERO_DIGEST) else
  st ← ledger_loop (Datatypes.S (length (drop 8 file))) (drop 8 file)
         (mkLedgerState 0 (len LEDGER_MAGIC) ZERO_DIGEST None None None None);
  Ok (mkLedgerScan (len file) (lt_records st) (lt_last_good_offset st)
        (negb (bool_decide (is_Some (lt_reason st)))) (lt_reason st) (lt_active_owner st)
        (fst <$> lt_pending st) (lt_last_activation st) (lt_previous st)).
End ownership.

(** ** The pointer *)

Definition recover (scan : OwnershipLedgerScanV1)
    (committed_proofs : option (CommittedBoundaryProofV1 * CommittedBoundaryProofV1))
    : res CanonicalSourcePointer :=
  _ ← reject (negb (ls_clean_eof scan) || (ls_records scan =? 0))
        "ownership ledger is not a clean recoverable authority";
  owner ← ok_or (ls_active_owner scan) "ownership ledger has no active owner";
  _ ← snapshot_validate owner;
  _ ← match ls_last_activation scan, committed_proofs with
      | None, None => Ok ()
      | Some a, Some (depth, trade) =>
          _ ← validate_activation_proofs a depth trade;
          reject (negb (bool_decide (successor_snapshot a = owner)))
            "active owner does not match last durable activation"
      | Some _, None => Err "activated ownership recovery requires both boundary proofs"
      | None, Some _ => Err "initial ownership recovery received unexpected boundary proofs"
      end;
  Ok (mkPointer owner LpLive 0 None).

Definition owner_epoch (kind : BoundaryStreamKind) (o : SourcePointerSnapshotV1) : string :=
  match kind with Depth => sp_depth_epoch o | Trade => sp_trade_epoch o end.
Definition owner_last (kind : BoundaryStreamKind) (o : SourcePointerSnapshotV1) : Z :=
  match kind with Depth => sp_depth_last_sequence o | Trade => sp_trade_last_sequence o end.
Definition set_owner_last (kind : BoundaryStreamKind) (n : Z) (o : SourcePointerSnapshotV1)
    : SourcePointerSnapshotV1 :=
  mkSnapshot (sp_schema o) (sp_symbol o) (sp_generation_id o) (sp_depth_epoch o)
    (sp_trade_epoch o) (sp_fencing_token o)
    (match kind with Depth => n | Trade => sp_depth_last_sequence o end)
    (match kind with Depth => sp_trade_last_sequence o | Trade => n end).

Definition set_gap (reason : string) (p : CanonicalSourcePointer) : CanonicalSourcePointer :=
  mkPointer (pt_owner p) LpGap (pt_fenced_rejections p) (Some reason).
Definition set_fenced (n : Z) (p : CanonicalSourcePointer) : CanonicalSourcePointer :=
  mkPointer (pt_owner p) (pt_state p) n (pt_gap_reason p).

Definition accept_observation (kind : BoundaryStreamKind) (epoch : string)
    (fencing_token first_sequence final_sequence : Z) : SE CanonicalSourcePointer unit :=
  p ← get;
  lift (reject (negb (bool_decide (pt_state p = LpLive))) "canonical publication is GAP");;
  let owner := pt_owner p in
  if negb (String.eqb epoch (owner_epoch kind owner))
     || negb (fencing_token =? sp_fencing_token owner)
  then
    n ← lift (add_u64 (pt_fenced_rejections p) 1);
    modify (set_fenced n);;
    throw "publication rejected by active ownership fence"
  else
  expected ← lift (ok_or (checked_add (owner_last kind owner) 1) "canonical sequence overflow");
  let valid := match kind with
               | Depth => (first_sequence <=? expected) && (expected <=? final_sequence)
               | Trade => (first_sequence =? expected) && (final_sequence =? expected)
               end in
  if negb valid then
    let reason := ("active canonical sequence gap: expected " ++ u_to_string expected ++ ", got "
                   ++ u_to_string first_sequence ++ ".." ++ u_to_string final_sequence)%string in
    modify (set_gap reason);; throw reason
  else
    modify (λ p, mkPointer (set_owner_last kind final_sequence (pt_owner p)) (pt_state p)
                   (pt_fenced_rejections p) (pt_gap_reason p)).

Definition fail_active (epoch reason : string) : SE CanonicalSourcePointer unit :=
  lift (reject (is_blank reason) "active failure reason is required");;
  p ← get;
  if negb (String.eqb epoch (sp_depth_epoch (pt_owner p)))
     && negb (String.eqb epoch (sp_trade_epoch (pt_owner p)))
  then
    n ← lift (add_u64 (pt_fenced_rejections p) 1);
    modify (set_fenced n);;
    throw "failure source is not the active owner"
  else modify (set_gap reason).

(** ** Theory of transfers *)

Lemma snapshot_validate_nopanic s : snapshot_validate s ≠ Panic.
Proof. apply reject_nopanic. Qed.
Lemma activation_validate_nopanic a : activation_validate a ≠ Panic.
Proof. unfold activation_validate. nopanic. Qed.
#[export] Hint Resolve snapshot_validate_nopanic activation_validate_nopanic : nopanic.
Lemma activation_predecessor_nopanic o a : validate_activation_predecessor o a ≠ Panic.
Proof. unfold validate_activation_predecessor. nopanic. Qed.
Lemma activation_proofs_nopanic a d t : validate_activation_proofs a d t ≠ Panic.
Proof. unfold validate_activation_proofs. nopanic. Qed.
#[export] Hint Resolve activation_predecessor_nopanic activation_proofs_nopanic : nopanic.

(** [owner_chain initial acts owner]: the validated transfers [acts] lead from
    [initial] to [owner]. *)
Inductive owner_chain (initial : SourcePointerSnapshotV1)
    : list OwnershipActivationV1 → SourcePointerSnapshotV1 → Prop :=
  | chain_initial : snapshot_validate initial = Ok () → owner_chain initial [] initial
  | chain_transfer acts owner a :
      owner_chain initial acts owner → validate_activation_predecessor owner a = Ok () →
      owner_chain initial (acts ++ [a]) (successor_snapshot a).

(** A valid transfer keeps the symbol, changes the epochs of both streams and
    raises the token by one, below the overflow. *)
Lemma transfer_continues o a :
  validate_activation_predecessor o a = Ok () →
  sp_fencing_token (successor_snapshot a) = sp_fencing_token o + 1 ∧
  sp_symbol (successor_snapshot a) = sp_symbol o ∧
  ac_predecessor_generation a = sp_generation_id o ∧
  sp_depth_epoch (successor_snapshot a) ≠ sp_depth_epoch o ∧
  sp_trade_epoch (successor_snapshot a) ≠ sp_trade_epoch o.
Proof.
  unfold validate_activation_predecessor. intros H.
  apply res_bind_Ok in H as ([] & _ & H). apply res_bind_Ok in H as ([] & Ha & H).
  apply reject_Ok in H. unfold activation_validate in Ha.
  apply res_bind_Ok in Ha as ([] & Ha%reject_Ok & _). split_orb.
  repeat match goal with
  | E : String.eqb _ _ = true |- _ => apply String.eqb_eq in E
  | E : String.eqb _ _ = false |- _ => apply String.eqb_neq in E
  | E : (_ =? _) = true |- _ => apply Z.eqb_eq in E
  | E : (_ =? _) = false |- _ => apply Z.eqb_neq in E
  end.
  unfold successor_snapshot. cbn. destruct (checked_add _ _) as [n|] eqn:Hc; cbn in *; [|done].
  apply checked_add_Some in Hc as [_ ->]. split_and!; congruence.
Qed.

(** Tokens along a chain: the number of transfers, never repeated. *)
Lemma owner_chain_tokens initial acts owner :
  owner_chain initial acts owner →
  sp_symbol owner = sp_symbol initial ∧
  sp_fencing_token owner = sp_fencing_token initial + len acts ∧
  NoDup (sp_fencing_token initial :: map ac_fencing_token acts) ∧
  Forall (λ t, t ≤ sp_fencing_token owner) (sp_fencing_token initial :: map ac_fencing_token acts).
Proof.
  induction 1 as [H|acts o a Hc (IHs & IHt & IHn & IHf) Ha].
  - split_and!; [done|unfold len; simpl; lia|apply NoDup_singleton|by repeat constructor].
  - apply transfer_continues in Ha as (Ht & Hs & _).
    assert (sp_fencing_token (successor_snapshot a) = ac_fencing_token a) as Et by done.
    split_and!; [congruence|rewrite Ht, IHt, len_app; unfold len; simpl; lia| |].
    + rewrite map_app, app_comm_cons. apply NoDup_app. split_and!; [done| |apply NoDup_singleton].
      intros x Hx Hx'. apply list_elem_of_singleton in Hx'. subst x.
      rewrite Forall_forall in IHf. apply IHf in Hx. lia.
    + rewrite map_app, app_comm_cons. apply Forall_app. split.
      * eapply Forall_impl; [exact IHf|]. intros x. cbn beta. lia.
      * repeat constructor. lia.
Qed.

(** [o'] is [o] or a later owner. *)
Definition owner_advances (o o' : SourcePointerSnapshotV1) : Prop :=
  o' = o ∨ sp_fencing_token o < sp_fencing_token o'.
#[global] Instance owner_advances_preorder : PreOrder owner_advances.
Proof. split; [by left|]. unfold owner_advances. intros a b c [->|?] [->|?]; auto; right; lia. Qed.

Section ownership_theory.
Context `{Hsha : Sha256} `{Hor : Serde OwnershipRecordV1}.

Definition ledger_inv (st : ledger_state) : Prop :=
  match lt_active_owner st with
  | None => lt_pending st = None ∧ lt_last_activation st = None ∧ lt_records st = 0
  | Some owner => ∃ initial acts,
      owner_chain initial acts owner ∧ lt_last_activation st = last acts ∧
      ∀ a d, lt_pending st = Some (a, d) → validate_activation_predecessor owner a = Ok ()
  end.

Definition ledger_advances (st st' : ledger_state) : Prop :=
  ∀ o, lt_active_owner st = Some o → ∃ o', lt_active_owner st' = Some o' ∧ owner_advances o o'.
#[local] Instance ledger_advances_preorder : PreOrder ledger_advances.
Proof.
  split; [intros st o Ho; by exists o|]. intros st1 st2 st3 H1 H2 o Ho.
  destruct (H1 o Ho) as (o2 & Ho2 & ?). destruct (H2 o2 Ho2) as (o3 & ? & ?).
  exists o3. split; [done|]. by transitivity o2.
Qed.

Lemma ledger_advances_same st st' :
  lt_active_owner st' = lt_active_owner st → ledger_advances st st'.
Proof. intros E o Ho. exists o. rewrite E. by split; [|left]. Qed.

(** One record keeps the invariant whether it is accepted or not. *)
Lemma apply_ownership_inv record digest st st' r :
  ledger_inv st → apply_ownership_record record digest st = (st', r) →
  r ≠ Panic ∧ ledger_inv st' ∧ ledger_advances st st' ∧
  (r = Ok () → is_Some (lt_active_owner st')) ∧ lt_records st' = lt_records st ∧
  lt_last_good_offset st' = lt_last_good_offset st.
Proof.
  intros Hinv. unfold apply_ownership_record.
  cbv [mbind SE_bind get lift reject modify ok_or].
  destruct (_ || _ || _); [intros [= <- <-]; by split_and!|].
  pose proof Hinv as Hinv0. unfold ledger_inv in Hinv.
  destruct (or_action record).
  - destruct (_ || _ || _) eqn:Hg; [intros [= <- <-]; by split_and!|]. split_orb.
    destruct (or_initial_owner record) as [owner|]; [|intros [= <- <-]; by split_and!].
    destruct (_ || _); [intros [= <- <-]; by split_and!|].
    destruct (snapshot_validate owner) as [[]|e|] eqn:Hv; intros [= <- <-];
      [|by split_and!|by apply snapshot_validate_nopanic in Hv].
    destruct (lt_active_owner st) eqn:Ho; [done|]. destruct Hinv as (Hp & Hl & Hr).
    split_and!; try done; [|by intros ? Ho'; rewrite Ho in Ho'].
    exists owner, []. split_and!; [by constructor|done|]. cbn. by rewrite Hp.
  - destruct (lt_active_owner st) as [owner|] eqn:Ho; [|intros [= <- <-]; by split_and!].
    destruct (_ || _ || _) eqn:Hg; [intros [= <- <-]; by split_and!|].
    destruct (or_activation record) as [a|]; [|intros [= <- <-]; by split_and!].
    destruct (validate_activation_predecessor owner a) as [[]|e|] eqn:Hv; intros [= <- <-];
      [|by split_and!|by apply activation_predecessor_nopanic in Hv].
    destruct Hinv as (i & acts & Hc & Hl & _).
    split_and!; try done; [|apply ledger_advances_same; by rewrite Ho].
    exists i, acts. split_and!; [done..|]. cbn. by intros ? ? [= <- _].
  - destruct (lt_pending st) as [[a d]|] eqn:Hp.
    2: { intros [= <- <-]. split_and!; try done. by apply ledger_advances_same. }
    destruct (lt_active_owner st) as [owner|] eqn:Ho; [|by destruct Hinv].
    destruct Hinv as (i & acts & Hc & Hl & Hpre). specialize (Hpre _ _ eq_refl).
    destruct (_ || _ || _).
    + intros [= <- <-]. split_and!; try done; [by exists i, acts|].
      apply ledger_advances_same. by rewrite Ho.
    + intros [= <- <-]. split_and!; try done.
      * exists i, (acts ++ [a]). split_and!; [by econstructor|by rewrite last_snoc|done].
      * intros o Ho'. rewrite Ho in Ho'. injection Ho' as <-.
        eexists. split; [done|]. right. apply transfer_continues in Hpre as (? & _). lia.
Qed.

Lemma ledger_loop_sound fuel input st :
  (length input < fuel)%nat → ledger_inv st → 0 ≤ lt_records st ≤ lt_last_good_offset st →
  lt_last_good_offset st + len input ≤ u64_max →
  ∃ st', ledger_loop fuel input st = Ok st' ∧ ledger_inv st' ∧ ledger_advances st st' ∧
    lt_records st ≤ lt_records st' ∧ lt_last_good_offset st ≤ lt_last_good_offset st'.
Proof.
  revert input st. induction fuel as [|fuel IH]; intros input st Hf Hinv Hr Hmax; [lia|].
  cbn [ledger_loop].
  assert (∀ e st', lt_records st' = lt_records st →
    lt_last_good_offset st' = lt_last_good_offset st → ledger_inv st' → ledger_advances st st' →
    ∃ st'', Ok (stop_ledger e st') = Ok st'' ∧ ledger_inv st'' ∧ ledger_advances st st'' ∧
      lt_records st ≤ lt_records st'' ∧ lt_last_good_offset st ≤ lt_last_good_offset st'') as Hstop.
  { intros e st' Hr' Ho' Hi Ha. exists (stop_ledger e st').
    split_and!; [done..|cbn; lia|cbn; lia]. }
  destruct (read_frame _ input) as [| | | | |body digest rest] eqn:Er;
    [by exists st|by apply Hstop..|].
  pose proof (read_frame_shorter _ _ _ _ _ Er) as Hshort.
  apply read_frame_inv in Er as (-> & _ & Hd); [|done].
  rewrite len_app, length_encode_record in Hmax. pose proof (len_nonneg body).
  pose proof (len_nonneg rest). unfold len in Hmax at 2. rewrite Hd in Hmax.
  destruct (negb _); [by apply Hstop|]. destruct (from_slice body) as [e|record]; [by apply Hstop|].
  destruct (apply_ownership_record record digest st) as [st1 r] eqn:Ha.
  apply apply_ownership_inv in Ha as (Hp & Hi & Hadv & Hsome & Hr1 & Ho1); [|done].
  destruct r as [[]|e|]; [|by apply Hstop|done]. destruct (Hsome eq_refl) as [o Ho].
  destruct (add_u64_cases (lt_records st1) 1) as [[-> _]|[_ ?]]; [|lia]. cbn [mbind res_bind].
  rewrite checked_add_fits by lia. cbn [ok_or mbind res_bind].
  destruct (IH rest (mkLedgerState (lt_records st1 + 1)
      (lt_last_good_offset st1 + (4 + len body + 32)) (hex digest) (lt_active_owner st1)
      (lt_pending st1) (lt_last_activation st1) (lt_reason st1)))
    as (st' & -> & Hi' & Hadv' & Hr' & Ho'); [lia| |cbn; lia|cbn; lia|].
  { unfold ledger_inv in *. cbn. by rewrite Ho in *. }
  cbn in Hr', Ho'. exists st'. split_and!; [done..| |lia|lia].
  transitivity st1; [done|]. exact Hadv'.
Qed.

Definition ledger_start : ledger_state :=
  mkLedgerState 0 (len LEDGER_MAGIC) ZERO_DIGEST None None None None.
Lemma ledger_start_inv : ledger_inv ledger_start.
Proof. by split_and!. Qed.

(** C38: the ledger scanner is total and sound on arbitrary bytes. It always
    returns a report, and the owner it reports descends from one initial owner
    by transfers each validated against the owner before it: the symbol never
    changes, the fencing token counts the transfers and no token is given out
    twice. A pending activation continues the reported owner. *)
Theorem ownership_scan_sound file :
  len file ≤ u64_max →
  ∃ sc, scan_ownership_ledger file = Ok sc ∧
  match ls_active_owner sc with
  | None => ls_pending_activation sc = None ∧ ls_last_activation sc = None ∧ ls_records sc = 0
  | Some owner => ∃ initial acts,
      owner_chain initial acts owner ∧ ls_last_activation sc = last acts ∧
      sp_symbol owner = sp_symbol initial ∧
      sp_fencing_token owner = sp_fencing_token initial + len acts ∧
      NoDup (sp_fencing_token initial :: map ac_fencing_token acts) ∧
      ∀ a, ls_pending_activation sc = Some a → validate_activation_predecessor owner a = Ok ()
  end.
Proof.
  intros Hlen. unfold scan_ownership_ledger.
  destruct (bool_decide _) eqn:Hm; cbn [negb]; [|by eexists]. apply bool_decide_eq_true in Hm.
  destruct (ledger_loop_sound (S (length (drop 8 file))) (drop 8 file) ledger_start)
    as (st & Hst & Hinv & _); [lia|apply ledger_start_inv|done| |].
  { cbn [lt_last_good_offset ledger_start]. rewrite <-Hm, <-len_app, take_drop. done. }
  fold ledger_start. rewrite Hst. cbn [mbind res_bind]. eexists. split; [reflexivity|].
  cbn [ls_active_owner ls_pending_activation ls_last_activation ls_records].
  unfold ledger_inv in Hinv. destruct (lt_active_owner st) as [owner|].
  - destruct Hinv as (i & acts & Hc & Hl & Hp).
    destruct (owner_chain_tokens _ _ _ Hc) as (Hs & Ht & Hn & _).
    exists i, acts. split_and!; [done..|].
    intros a Ha. destruct (lt_pending st) as [[a' d]|]; [|done]. injection Ha as ->. by eapply Hp.
  - destruct Hinv as (-> & -> & ->). done.
Qed.

Context `{!Sha256Laws Hsha} `{!SerdeLaws OwnershipRecordV1 Hor}.

(** Reading [bs] takes the scan from [st] to [st'], whatever follows. *)
Definition ledger_runs (bs : bytes) (st st' : ledger_state) : Prop :=
  ∀ rest fuel, (length (bs ++ rest) < fuel)%nat →
  ∃ fuel', (length rest < fuel')%nat ∧ ledger_loop fuel (bs ++ rest) st = ledger_loop fuel' rest st'.

Lemma ledger_runs_nil st : ledger_runs [] st st.
Proof. intros rest fuel H. by exists fuel. Qed.
Lemma ledger_runs_app bs cs st1 st2 st3 :
  ledger_runs bs st1 st2 → ledger_runs cs st2 st3 → ledger_runs (bs ++ cs) st1 st3.
Proof.
  intros H1 H2 rest fuel Hf. rewrite <-app_assoc in *.
  destruct (H1 (cs ++ rest) fuel Hf) as (f1 & Hf1 & ->). by apply H2.
Qed.

(** The state after a record that was accepted. *)
Definition next_state (body : bytes) (st : ledger_state) : ledger_state :=
  mkLedgerState (lt_records st + 1) (lt_last_good_offset st + (36 + len body)) (hex (sha256 body))
    (lt_active_owner st) (lt_pending st) (lt_last_activation st) (lt_reason st).

Lemma ledger_runs_record record body st st' :
  to_vec record = inr body → len body ≤ LEDGER_MAX_RECORD_BYTES →
  apply_ownership_record record (sha256 body) st = (st', Ok ()) →
  lt_records st' < u64_max → lt_last_good_offset st' + (36 + len body) ≤ u64_max →
  ledger_runs (encode_record body (sha256 body)) st (next_state body st').
Proof.
  intros Hv Hl Ha Hr Ho rest [|fuel] Hf; [lia|]. exists fuel.
  rewrite length_app in Hf. pose proof (length_encode_record body (sha256 body)) as He.
  unfold len in He at 1. pose proof (len_nonneg body).
  pose proof (len_nonneg (sha256 body)). split; [lia|]. cbn [ledger_loop].
  rewrite read_frame_encode by (done || apply length_sha256).
  rewrite bool_decide_eq_true_2 by done. cbn [negb]. rewrite (from_to_vec _ _ Hv), Ha.
  destruct (add_u64_cases (lt_records st') 1) as [[-> _]|[_ ?]]; [|lia]. cbn [mbind res_bind].
  rewrite checked_add_fits by lia. cbn [ok_or mbind res_bind].
  unfold next_state. do 2 f_equal. lia.
Qed.

(** *** The writer *)
Section with_sink.
Context {S : Type} `{Hsink : DurableSink S} `{Hlaws : !SinkLaws S Hsink}.

(** What the file of a healthy writer holds: the records in [bs], which take
    the scan to [st]; nothing is waiting to be synced. *)
Definition ledger_holds (w : OwnershipLedgerWriter S) (bs : bytes) (st : ledger_state) : Prop :=
  ledger_runs bs ledger_start st ∧ lt_records st = ow_record_count w ∧
  lt_last_good_offset st = ow_end_offset w ∧ lt_previous st = ow_previous_digest w ∧
  lt_reason st = None ∧
  ow_end_offset w = len LEDGER_MAGIC + len bs ∧ 0 ≤ ow_record_count w ≤ len bs.

Definition on_disk (w : OwnershipLedgerWriter S) (bs : bytes) : Prop :=
  LEDGER_MAGIC ++ bs `prefix_of` synced (ow_sink w) ∧
  (ow_poisoned w = false →
   contents (ow_sink w) = LEDGER_MAGIC ++ bs ∧ synced (ow_sink w) = contents (ow_sink w)).

(** A failed append leaves the records and what the writer knows of them. *)
Definition same_records (w w' : OwnershipLedgerWriter S) : Prop :=
  ow_end_offset w' = ow_end_offset w ∧ ow_previous_digest w' = ow_previous_digest w ∧
  ow_record_count w' = ow_record_count w ∧ ow_active_owner w' = ow_active_owner w ∧
  ow_pending w' = ow_pending w.

Lemma ledger_append_cases record w w' r bs st :
  ledger_holds w bs st → on_disk w bs →
  (∀ digest, ∃ st', apply_ownership_record record digest st = (st', Ok ()) ∧
     lt_records st' = lt_records st ∧ lt_last_good_offset st' = lt_last_good_offset st ∧
     lt_reason st' = None) →
  ledger_append_and_sync record w = (w', r) →
  (∃ e, r = Err e ∧ same_records w w' ∧ on_disk w' bs) ∨
  (∃ body st' cs, apply_ownership_record record (sha256 body) st = (st', Ok ()) ∧
     ledger_holds w' (bs ++ cs) (next_state body st') ∧ on_disk w' (bs ++ cs) ∧
     ow_active_owner w' = ow_active_owner w ∧ ow_pending w' = ow_pending w ∧
     ow_poisoned w' = false ∧ r = Ok (mkLedgerAck (or_action record) (ow_record_count w')
                                      (ow_end_offset w') (hex (sha256 body)))).
Proof.
  intros (Hrun & Hrec & Hoff & Hprev & Hrea & Hend & Hcount) Hdisk Happ.
  unfold ledger_append_and_sync. cbv [mbind SE_bind get lift reject put mret SE_ret throw].
  destruct (ow_poisoned w) eqn:Hp; [intros [= <- <-]; left; by eexists|].
  destruct (to_vec record) as [|body] eqn:Hv; cbn [map_err]; [intros [= <- <-]; left; by eexists|].
  destruct (_ <? _) eqn:Hm; [intros [= <- <-]; left; by eexists|]. apply Z.ltb_ge in Hm.
  destruct (_ <? _); [intros [= <- <-]; left; by eexists|].
  destruct Hdisk as [Hd1 Hd2]. destruct (Hd2 Hp) as [Hc Hs].
  pose proof (write_flush_sync_synced (encode_record body (sha256 body)) (ow_sink w)) as Hmono.
  destruct (write_flush_sync _ _) as [s [e|[]]] eqn:Hw; cbn [fst] in Hmono.
  { intros [= <- <-]. left. eexists. split_and!; [done..|]. split; [|done]. cbn. by trans (synced (ow_sink w)). }
  apply write_flush_sync_Ok in Hw as [Hw1 Hw2].
  set (cs := encode_record body (sha256 body)) in *.
  assert (len cs = 36 + len body) as Hcs by apply len_written.
  pose proof (contents_u64 s) as Hu. rewrite Hw1, Hc, !len_app in Hu.
  pose proof (len_nonneg body). change (len LEDGER_MAGIC) with 8 in *.
  destruct (add_u64_cases (ow_record_count w) 1) as [[-> _]|[_ ?]]; [|lia].
  rewrite checked_add_fits by lia. cbn [ok_or]. intros [= <- <-]. right.
  destruct (Happ (sha256 body)) as (st' & Ha & Hr' & Ho' & Hn').
  exists body, st', cs. split_and!; try done.
  - unfold ledger_holds, next_state.
    cbn [lt_records lt_last_good_offset lt_previous lt_reason ow_record_count ow_end_offset
         ow_previous_digest]. rewrite len_app. change (len LEDGER_MAGIC) with 8.
    split_and!; [|lia|lia|done|done|lia|lia|lia].
    eapply ledger_runs_app; [exact Hrun|]. eapply ledger_runs_record; [done..|lia|lia].
  - unfold on_disk. cbn. rewrite Hw2, Hw1, Hc, <-app_assoc. done.
Qed.

Definition ledger_writer_inv (w : OwnershipLedgerWriter S) : Prop :=
  ∃ bs st, ledger_holds w bs st ∧ on_disk w bs ∧ ledger_inv st ∧
    lt_active_owner st = Some (ow_active_owner w) ∧ lt_pending st = ow_pending w.

Lemma same_records_inv w w' bs st :
  ledger_holds w bs st → on_disk w' bs → same_records w w' → ledger_inv st →
  lt_active_owner st = Some (ow_active_owner w) → lt_pending st = ow_pending w →
  ledger_writer_inv w'.
Proof.
  unfold ledger_holds. intros Hh Hd (E1 & E2 & E3 & E4 & E5) Hi Ho Hp. exists bs, st.
  unfold ledger_holds. rewrite E1, E2, E3, E4, E5.
  split_and!; tauto.
Qed.

Lemma next_state_inv body st :
  is_Some (lt_active_owner st) → ledger_inv st → ledger_inv (next_state body st).
Proof. unfold ledger_inv, next_state. cbn. intros [o ->]. done. Qed.

(** The scan takes the records of [prepare] and [activate] as the writer means them. *)
Lemma prepared_applies (w : OwnershipLedgerWriter S) bs st a digest :
  ledger_holds w bs st → lt_active_owner st = Some (ow_active_owner w) → lt_pending st = None →
  validate_activation_predecessor (ow_active_owner w) a = Ok () →
  apply_ownership_record (mkOwnershipRecord "OwnershipRecordV1" (ow_record_count w) Prepared None (Some a) None
    (ow_previous_digest w)) digest st
  = (set_ownership (Some (ow_active_owner w)) (Some (a, hex digest)) (lt_last_activation st) st, Ok ()).
Proof.
  intros (_ & Hr & _ & Hpr & _) Ho Hn Hv. unfold apply_ownership_record.
  cbv [mbind SE_bind get lift reject modify ok_or].
  cbn [or_schema or_record_index or_previous_record_sha256 or_action or_activation].
  by rewrite Hr, Hpr, Z.eqb_refl, !String.eqb_refl, Ho, Hn, Hv.
Qed.
Lemma activated_applies (w : OwnershipLedgerWriter S) bs st a d digest :
  ledger_holds w bs st → lt_pending st = Some (a, d) →
  apply_ownership_record (mkOwnershipRecord "OwnershipRecordV1" (ow_record_count w) Activated None None (Some d)
    (ow_previous_digest w)) digest st
  = (set_ownership (Some (successor_snapshot a)) None (Some a)
       (set_ownership (lt_active_owner st) None (lt_last_activation st) st), Ok ()).
Proof.
  intros (_ & Hr & _ & Hpr & _) Hp. unfold apply_ownership_record.
  cbv [mbind SE_bind get lift reject modify ok_or].
  cbn [or_schema or_record_index or_previous_record_sha256 or_action or_activation
       or_prepared_record_sha256 or_initial_owner].
  rewrite Hr, Hpr, Z.eqb_refl, !String.eqb_refl, Hp. cbn. by rewrite bool_decide_eq_true_2.
Qed.

Lemma prepare_inv a w w' r :
  ledger_writer_inv w → prepare a w = (w', r) → r ≠ Panic ∧ ledger_writer_inv w'.
Proof.
  intros (bs & st & Hh & Hd & Hi & Ho & Hpend) H. unfold prepare in H.
  assert (ledger_writer_inv w) as Hw by (by exists bs, st).
  cbv [mbind SE_bind get lift reject modify mret SE_ret] in H.
  destruct (bool_decide _) eqn:Hb in H; [by simplify_eq|]. apply bool_decide_eq_false in Hb.
  destruct (validate_activation_predecessor _ a) as [[]|e|] eqn:Hv;
    [|by simplify_eq|by apply activation_predecessor_nopanic in Hv].
  assert (ow_pending w = None) as Hn by (by destruct (ow_pending w); [destruct Hb|]).
  pose proof Hh as (_ & _ & _ & _ & Hre & _).
  set (rec := mkOwnershipRecord _ _ _ _ _ _ _) in *.
  assert (∀ digest, apply_ownership_record rec digest st =
    (set_ownership (Some (ow_active_owner w)) (Some (a, hex digest)) (lt_last_activation st) st,
     Ok ())) as Happ by (intros digest; eapply prepared_applies; [done..|congruence|done]).
  destruct (ledger_append_and_sync rec w) as [w1 r1] eqn:Ha.
  destruct (ledger_append_cases rec w w1 r1 bs st Hh Hd)
    as [(e & -> & Hs & Hd')|(body & st' & cs & Happ' & Hh' & Hd' & Eo & Ep & Eq & ->)];
    [intros digest; eexists; by split; [apply Happ|]|exact Ha|..].
  - simplify_eq. split; [done|]. by eapply same_records_inv.
  - simplify_eq. split; [done|]. pose proof Happ' as Happ0.
    apply apply_ownership_inv in Happ' as (_ & Hi' & _ & Hsome & _); [|done].
    rewrite Happ in Happ0. injection Happ0 as <-.
    exists (bs ++ cs). eexists.
    split_and!; [exact Hh'|done|apply next_state_inv; auto|cbn; congruence|done].
Qed.

Lemma prepare_owner a w w' r :
  prepare a w = (w', r) →
  ow_active_owner w' = ow_active_owner w ∧
  (is_ok r = true → validate_activation_predecessor (ow_active_owner w) a = Ok () ∧
     fst <$> ow_pending w' = Some a).
Proof.
  unfold prepare, ledger_append_and_sync.
  cbv [mbind SE_bind get lift reject put modify mret SE_ret throw ok_or].
  destruct (bool_decide _); [by intros [= <- <-]|].
  destruct (validate_activation_predecessor _ _) as [[]|e|] eqn:Hv; [|by intros [= <- <-]..].
  destruct (ow_poisoned w); [by intros [= <- <-]|].
  destruct (to_vec _); cbn [map_err]; [by intros [= <- <-]|].
  destruct (_ <? _); [by intros [= <- <-]|]. destruct (_ <? _); [by intros [= <- <-]|].
  destruct (write_flush_sync _ _) as [s [|]]; [by intros [= <- <-]|].
  destruct (add_u64 _ _); [|by intros [= <- <-]..].
  destruct (checked_add _ _); by intros [= <- <-].
Qed.

Lemma activate_cases id w w' r :
  ledger_writer_inv w → activate id w = (w', r) →
  (∃ e, r = Err e ∧ ledger_writer_inv w' ∧ ow_active_owner w' = ow_active_owner w) ∨
  (∃ ack a d bs st, r = Ok ack ∧ ow_pending w = Some (a, d) ∧ ledger_holds w' bs st ∧
     on_disk w' bs ∧ ledger_inv st ∧ lt_active_owner st = Some (ow_active_owner w') ∧
     lt_pending st = ow_pending w' ∧ ow_active_owner w' = successor_snapshot a ∧
     lt_last_activation st = Some a ∧ ow_poisoned w' = false ∧ 0 < ow_record_count w').
Proof.
  intros (bs & st & Hh & Hd & Hi & Ho & Hpend) H. unfold activate in H.
  assert (ledger_writer_inv w) as Hw by (by exists bs, st).
  cbv [mbind SE_bind get lift reject modify mret SE_ret ok_or] in H.
  destruct (ow_pending w) as [[a d]|] eqn:Hp; [|simplify_eq; left; by eexists].
  destruct (negb _) eqn:Hb in H; [simplify_eq; left; by eexists|].
  pose proof Hh as (_ & _ & _ & _ & Hre & _).
  set (rec := mkOwnershipRecord _ _ _ _ _ _ _) in *.
  assert (∀ digest, apply_ownership_record rec digest st =
    (set_ownership (Some (successor_snapshot a)) None (Some a)
       (set_ownership (lt_active_owner st) None (lt_last_activation st) st), Ok ())) as Happ
    by (intros digest; eapply activated_applies; [done|congruence]).
  destruct (ledger_append_and_sync rec w) as [w1 r1] eqn:Ha.
  destruct (ledger_append_cases rec w w1 r1 bs st Hh Hd)
    as [(e & -> & Hs & Hd')|(body & st' & cs & Happ' & Hh' & Hd' & Eo & Ep & Eq & ->)];
    [intros digest; eexists; by split; [apply Happ|]|exact Ha|..].
  - simplify_eq. left. eexists. split_and!; [done|..|by destruct Hs as (_ & _ & _ & ? & _)].
    eapply same_records_inv; [done..|congruence].
  - rewrite Ep, Hp in H. cbn [expect] in H. simplify_eq. right.
    pose proof Happ' as Happ0.
    apply apply_ownership_inv in Happ' as (_ & Hi' & _ & Hsome & _); [|done].
    rewrite Happ in Happ0. injection Happ0 as <-.
    eexists _, a, d, (bs ++ cs), _. split_and!; [done|done|exact Hh'|done| |done..|].
    + apply next_state_inv; auto.
    + destruct Hh' as (_ & Hc & _). destruct Hh as (_ & Hc0 & _ & _ & _ & _ & Hn).
      cbn in Hc |- *. lia.
Qed.

Lemma activate_inv id w w' r :
  ledger_writer_inv w → activate id w = (w', r) → r ≠ Panic ∧ ledger_writer_inv w'.
Proof.
  intros Hw H. destruct (activate_cases _ _ _ _ Hw H)
    as [(e & -> & ? & _)|(ack & a & d & bs & st & -> & _ & ? & ? & ? & ? & ? & _)]; [done|].
  split; [done|]. by exists bs, st.
Qed.

Lemma ledger_from_sink_inv (s : S) initial w :
  contents s = [] → ledger_from_sink s initial = Ok w → ledger_writer_inv w.
Proof.
  intros Hs. unfold ledger_from_sink. intros H. apply res_bind_Ok in H as ([] & Hv & H).
  destruct (write_all LEDGER_MAGIC s) as [s1 [|[]]] eqn:Ew; [done|]. cbn [map_err mbind res_bind] in H.
  destruct (sync_all s1) as [s2 [|[]]] eqn:Es; [done|]. cbn [map_err mbind res_bind] in H.
  apply write_all_contents in Ew. apply sync_all_contents in Es as [Ec Es].
  set (w0 := mkLedger s2 _ _ _ _ _ _) in H.
  set (rec := mkOwnershipRecord _ _ _ _ _ _ _) in *.
  destruct (ledger_append_and_sync rec w0) as [w1 r1] eqn:Ha.
  assert (∀ digest, apply_ownership_record rec digest ledger_start =
    (set_ownership (Some initial) None None ledger_start, Ok ())) as Happ.
  { intros digest. unfold apply_ownership_record.
    cbv [mbind SE_bind get lift reject modify ok_or]. cbn. by rewrite Hv. }
  destruct (ledger_append_cases rec w0 w1 r1 [] ledger_start)
    as [(e & -> & _)|(body & st' & cs & Happ' & Hh' & Hd' & Eo & Ep & Eq & ->)];
    [| | |exact Ha|done|]; subst rec.
  - by split_and!; [apply ledger_runs_nil|..].
  - unfold on_disk, w0. cbn [ow_sink ow_poisoned]. rewrite app_nil_r, Es, Ec, Ew, Hs. done.
  - intros digest. eexists. by split; [apply Happ|].
  - injection H as <-. pose proof Happ' as Happ0.
    apply apply_ownership_inv in Happ' as (_ & Hi' & _ & Hsome & _); [|apply ledger_start_inv].
    rewrite Happ in Happ0. injection Happ0 as <-.
    exists ([] ++ cs). eexists. split_and!; [exact Hh'|done|apply next_state_inv; auto|by rewrite Eo|by rewrite Ep].
Qed.

(** The scan of a healthy writer's file. *)
Lemma ledger_holds_scan w bs st :
  ledger_holds w bs st → contents (ow_sink w) = LEDGER_MAGIC ++ bs →
  scan_ownership_ledger (contents (ow_sink w)) =
  Ok (mkLedgerScan (len (contents (ow_sink w))) (ow_record_count w) (ow_end_offset w) true None
        (lt_active_owner st) (fst <$> lt_pending st) (lt_last_activation st)
        (ow_previous_digest w)).
Proof.
  intros (Hrun & Hr & Hoff & Hprev & Hrea & _) Hc. unfold scan_ownership_ledger. rewrite Hc.
  rewrite take_app_length', drop_app_length' by done. rewrite bool_decide_eq_true_2 by done.
  cbn [negb]. destruct (Hrun [] (Datatypes.S (length bs))) as (fuel & Hf & Hloop);
    [rewrite app_nil_r; lia|]. rewrite app_nil_r in Hloop. fold ledger_start. rewrite Hloop.
  destruct fuel as [|fuel]; [simpl in Hf; lia|]. cbn [ledger_loop].
  change (read_frame LEDGER_MAX_RECORD_BYTES []) with FrameEof. cbn [mbind res_bind].
  by rewrite Hr, Hoff, Hprev, Hrea.
Qed.

Inductive ledger_op := OpPrepare (a : OwnershipActivationV1) | OpActivate (id : string).
Definition ledger_exec (op : ledger_op) : SE (OwnershipLedgerWriter S) OwnershipLedgerAckV1 :=
  match op with OpPrepare a => prepare a | OpActivate id => activate id end.
(** Any sequence of calls; the writer survives failed calls. *)
Fixpoint run_ledger (ops : list ledger_op) (w : OwnershipLedgerWriter S)
    : OwnershipLedgerWriter S :=
  match ops with [] => w | op :: ops => run_ledger ops (ledger_exec op w).1 end.

Lemma run_ledger_inv ops w : ledger_writer_inv w → ledger_writer_inv (run_ledger ops w).
Proof.
  revert w. induction ops as [|op ops IH]; intros w Hw; [done|]. apply IH.
  destruct (ledger_exec op w) as [w' r] eqn:H.
  destruct op; [by eapply prepare_inv|by eapply activate_inv].
Qed.

(** C10: ownership survives a crash. Take any sequence of [prepare] and
    [activate] calls, failed ones included, on a ledger over an empty sink, and
    any file that begins with the bytes on stable storage. A scan of it accepts
    every record the writer knows to be durable; the owner it finds is the
    writer's or one with a higher fencing token, so an acknowledged transfer is
    never undone and two owners never share a token. When the writer is healthy
    and nothing follows its bytes, the scan is clean and finds exactly the
    writer's owner and pending activation. *)
Theorem ownership_survives_crash (s : S) initial w0 ops disk :
  contents s = [] → ledger_from_sink s initial = Ok w0 →
  let w := run_ledger ops w0 in
  synced (ow_sink w) `prefix_of` disk → len disk ≤ u64_max →
  ∃ sc owner, scan_ownership_ledger disk = Ok sc ∧ ls_active_owner sc = Some owner ∧
    ow_record_count w ≤ ls_records sc ∧ ow_end_offset w ≤ ls_last_good_offset sc ∧
    (owner = ow_active_owner w ∨ sp_fencing_token (ow_active_owner w) < sp_fencing_token owner) ∧
    (ow_poisoned w = false → disk = synced (ow_sink w) →
     ls_clean_eof sc = true ∧ owner = ow_active_owner w ∧
     ls_pending_activation sc = fst <$> ow_pending w ∧ ls_records sc = ow_record_count w).
Proof.
  intros Hs Hw0 w Hpre Hlen.
  destruct (run_ledger_inv ops w0 (ledger_from_sink_inv _ _ _ Hs Hw0))
    as (bs & st & Hh & [Hd Hd'] & Hi & Ho & Hpend). fold w in Hh, Hd, Hd', Ho, Hpend.
  destruct Hd as [x1 Hx1], Hpre as [x2 Hx2]. rewrite Hx1, <-!app_assoc in Hx2.
  pose proof Hh as (Hrun & Hr & Hoff & _ & Hrea & Hend & Hc).
  rewrite Hx2, !len_app in Hlen. change (len LEDGER_MAGIC) with 8 in *. rewrite <-len_app in Hlen.
  destruct (Hrun (x1 ++ x2) (Datatypes.S (length (bs ++ x1 ++ x2))) ltac:(lia))
    as (fuel & Hf & Hloop).
  destruct (ledger_loop_sound fuel (x1 ++ x2) st)
    as (st' & Hst' & Hi' & Hadv & Hr' & Ho'); [done|done|pose proof (len_nonneg bs); lia|lia|].
  destruct (Hadv _ Ho) as (owner & Howner & Hown).
  unfold scan_ownership_ledger. rewrite Hx2.
  rewrite take_app_length', drop_app_length' by done. rewrite bool_decide_eq_true_2 by done.
  cbn [negb]. fold ledger_start. rewrite Hloop, Hst'. cbn [mbind res_bind].
  eexists. exists owner. split; [reflexivity|].
  cbn [ls_active_owner ls_records ls_last_good_offset ls_clean_eof ls_pending_activation].
  split_and!; [done|lia|lia|done|]. intros Hp Hdisk. destruct (Hd' Hp) as [Hcont Hsync].
  assert (x1 ++ x2 = []) as E.
  { rewrite Hsync, Hcont in Hdisk.
    apply (f_equal length) in Hdisk. rewrite !length_app in Hdisk. apply nil_length_inv.
    rewrite length_app. lia. }
  rewrite E in Hst'. destruct fuel as [|fuel]; [lia|]. cbn in Hst'. injection Hst' as <-.
  rewrite Ho in Howner. injection Howner as <-. by rewrite Hrea, Hpend.
Qed.
End with_sink.
End ownership_theory.

(** ** Theory of the pointer *)

Record publication := mkPublication {
  pb_kind : BoundaryStreamKind; pb_epoch : string; pb_token : Z; pb_first : Z; pb_final : Z
}.
Inductive pointer_op :=
  | PoObserve (x : publication)
  | PoFail (epoch reason : string).

Definition publish (x : publication) : SE CanonicalSourcePointer unit :=
  accept_observation (pb_kind x) (pb_epoch x) (pb_token x) (pb_first x) (pb_final x).

(** Calls on a pointer until one aborts the process, with the observations it
    accepted. *)
Fixpoint run_pointer (ops : list pointer_op) (p : CanonicalSourcePointer)
    : CanonicalSourcePointer * list publication :=
  match ops with
  | [] => (p, [])
  | PoObserve x :: ops =>
      match publish x p with
      | (p, Ok _) => let '(p, l) := run_pointer ops p in (p, x :: l)
      | (p, Err _) => run_pointer ops p
      | (p, Panic) => (p, [])
      end
  | PoFail epoch reason :: ops =>
      match fail_active epoch reason p with
      | (p, Panic) => (p, [])
      | (p, _) => run_pointer ops p
      end
  end.

Definition same_source (o o' : SourcePointerSnapshotV1) : Prop :=
  sp_generation_id o' = sp_generation_id o ∧ sp_fencing_token o' = sp_fencing_token o ∧
  ∀ kind, owner_epoch kind o' = owner_epoch kind o.
#[global] Instance same_source_preorder : PreOrder same_source.
Proof.
  split; [done|]. intros a b c (E1 & E2 & E3) (F1 & F2 & F3).
  split_and!; [congruence..|]. intros k. by rewrite F3.
Qed.

Lemma set_owner_last_same kind n o : same_source o (set_owner_last kind n o).
Proof. split_and!; [done..|]. by intros []. Qed.

Lemma owner_last_set kind kind' n o :
  owner_last kind (set_owner_last kind' n o) = if decide (kind = kind') then n else owner_last kind o.
Proof. by destruct kind, kind'. Qed.

(** An accepted observation continues its stream from the active source; a
    refused one leaves the owner as it was, and a pointer in GAP stays there. *)
Lemma publish_cases x p p' r :
  publish x p = (p', r) →
  (r = Ok () ∧ pt_state p = LpLive ∧ pt_state p' = LpLive ∧
   pb_epoch x = owner_epoch (pb_kind x) (pt_owner p) ∧
   pb_token x = sp_fencing_token (pt_owner p) ∧
   pb_first x ≤ owner_last (pb_kind x) (pt_owner p) + 1 ≤ pb_final x ∧
   (pb_kind x = Trade → pb_first x = pb_final x) ∧
   pt_owner p' = set_owner_last (pb_kind x) (pb_final x) (pt_owner p)) ∨
  (r ≠ Ok () ∧ pt_owner p' = pt_owner p ∧ (pt_state p = LpGap → pt_state p' = LpGap)).
Proof.
  unfold publish, accept_observation.
  cbv [mbind SE_bind get lift reject modify throw ok_or].
  destruct (bool_decide _) eqn:Hl; [apply bool_decide_eq_true in Hl|]; cbn [negb];
    [|intros [= <- <-]; by right].
  destruct (_ || _) eqn:Hg.
  { destruct (add_u64 _ _); intros [= <- <-]; right; by split_and!. }
  split_orb. destruct (checked_add _ _) as [e|] eqn:He; [|intros [= <- <-]; by right].
  apply checked_add_Some in He as [_ ->]. destruct (negb _) eqn:Hv.
  { intros [= <- <-]. by right. }
  intros [= <- <-]. left. cbn [pt_state pt_owner].
  destruct (pb_kind x); split_orb;
    repeat match goal with E : String.eqb _ _ = true |- _ => apply String.eqb_eq in E end;
    split_and!; try done; try lia.
Qed.

Lemma fail_active_cases epoch reason p p' r :
  fail_active epoch reason p = (p', r) →
  pt_owner p' = pt_owner p ∧ (pt_state p = LpGap → pt_state p' = LpGap).
Proof.
  unfold fail_active. cbv [mbind SE_bind get lift reject modify throw].
  destruct (is_blank _); [by intros [= <- <-]|]. destruct (_ && _); [|by intros [= <- <-]].
  destruct (add_u64 _ _); by intros [= <- <-].
Qed.

Definition of_kind (kind : BoundaryStreamKind) (x : publication) : Prop := pb_kind x = kind.
#[global] Instance of_kind_dec kind x : Decision (of_kind kind x).
Proof. unfold of_kind. apply _. Defined.

(** [published_from o l o']: publishing [l] takes the owner from [o] to [o'].
    A change of owner keeps both positions and never lowers the token. *)
Inductive published_from
    : SourcePointerSnapshotV1 → list publication → SourcePointerSnapshotV1 → Prop :=
  | published_none o : published_from o [] o
  | published_skip o o1 l o' :
      (∀ kind, owner_last kind o1 = owner_last kind o) →
      sp_fencing_token o ≤ sp_fencing_token o1 → published_from o1 l o' → published_from o l o'
  | published_one o x l o' :
      pb_epoch x = owner_epoch (pb_kind x) o → pb_token x = sp_fencing_token o →
      pb_first x ≤ owner_last (pb_kind x) o + 1 ≤ pb_final x →
      (pb_kind x = Trade → pb_first x = pb_final x) →
      published_from (set_owner_last (pb_kind x) (pb_final x) o) l o' →
      published_from o (x :: l) o'.

Lemma published_from_positions o l o' :
  published_from o l o' →
  (∀ kind, owner_last kind o ≤ owner_last kind o') ∧
  (∀ kind n, owner_last kind o < n ≤ owner_last kind o' →
     ∃ x, x ∈ l ∧ pb_kind x = kind ∧ pb_first x ≤ n ≤ pb_final x).
Proof.
  induction 1 as [o|o o1 l o' Hl _ _ [IHm IHc]|o x l o' _ _ Hr _ _ [IHm IHc]].
  - split; intros; lia.
  - split; intros kind; [rewrite <-Hl; auto|]. intros n. rewrite <-(Hl kind). auto.
  - split; intros kind; specialize (IHm kind); rewrite owner_last_set in IHm.
    + case_decide; [subst kind|]; lia.
    + intros n Hn. specialize (IHc kind n). rewrite owner_last_set in IHc. case_decide as Hk.
      * destruct (decide (n ≤ pb_final x)).
        -- exists x. subst kind. split_and!; [set_solver|done|lia|lia].
        -- destruct IHc as (y & ? & ? & ?); [lia|]. exists y. split_and!; [set_solver|done|lia..].
      * destruct IHc as (y & ? & ? & ?); [lia|]. exists y. split_and!; [set_solver|done|lia..].
Qed.

(** Trades are published once each, in order. *)
Lemma published_from_trades o l o' :
  published_from o l o' →
  map pb_final (filter (of_kind Trade) l) =
    seqZ (owner_last Trade o + 1) (owner_last Trade o' - owner_last Trade o).
Proof.
  induction 1 as [o|o o1 l o' Hl _ _ IH|o x l o' _ _ Hr Htr H IH].
  - by rewrite Z.sub_diag.
  - by rewrite IH, Hl.
  - apply published_from_positions in H as [Hm _]. specialize (Hm Trade).
    rewrite owner_last_set in IH, Hm. destruct (decide (Trade = pb_kind x)) as [Hk|Hk].
    + rewrite filter_cons_True by done. cbn [map]. specialize (Htr (eq_sym Hk)).
      rewrite <-Hk in Hr. rewrite IH, (seqZ_cons (owner_last Trade o + 1)) by lia.
      f_equal; [lia|]. f_equal; lia.
    + rewrite filter_cons_False; [done|]. unfold of_kind. congruence.
Qed.

(** Tokens never go back. *)
Lemma published_from_tokens o l o' :
  published_from o l o' →
  sp_fencing_token o ≤ sp_fencing_token o' ∧
  Forall (λ x, sp_fencing_token o ≤ pb_token x ≤ sp_fencing_token o') l ∧
  StronglySorted (λ x y, pb_token x ≤ pb_token y) l.
Proof.
  induction 1 as [o|o o1 l o' _ Ht H (IHt & IHf & IHs)|o x l o' _ Ht _ _ H (IHt & IHf & IHs)].
  - split_and!; [lia|constructor..].
  - split_and!; [lia| |done]. eapply Forall_impl; [exact IHf|]. cbn beta. lia.
  - change (sp_fencing_token (set_owner_last _ _ o)) with (sp_fencing_token o) in *.
    split_and!; [done| |].
    + constructor; [lia|done].
    + constructor; [done|]. eapply Forall_impl; [exact IHf|]. cbn beta. lia.
Qed.

(** The canonical publication has no gap and one source. In every
    sequence of observations and failures, whatever other writers send, each
    accepted observation carries the epoch and the fencing token of the owner;
    the accepted depth ranges cover every sequence number from the owner's
    position to the final one, and the accepted trades are exactly the
    consecutive numbers, once each and in order. A pointer in GAP accepts
    nothing and never leaves it. *)
Theorem pointer_publishes_gapless ops p p' published :
  run_pointer ops p = (p', published) →
  same_source (pt_owner p) (pt_owner p') ∧
  Forall (λ x, pb_epoch x = owner_epoch (pb_kind x) (pt_owner p) ∧
               pb_token x = sp_fencing_token (pt_owner p)) published ∧
  (∀ kind, owner_last kind (pt_owner p) ≤ owner_last kind (pt_owner p')) ∧
  (∀ kind n, owner_last kind (pt_owner p) < n ≤ owner_last kind (pt_owner p') →
     ∃ x, x ∈ published ∧ pb_kind x = kind ∧ pb_first x ≤ n ≤ pb_final x) ∧
  map pb_final (filter (of_kind Trade) published) =
    seqZ (owner_last Trade (pt_owner p) + 1)
      (owner_last Trade (pt_owner p') - owner_last Trade (pt_owner p)) ∧
  (pt_state p = LpGap → published = [] ∧ pt_state p' = LpGap).
Proof.
  intros Hrun.
  assert (published_from (pt_owner p) published (pt_owner p') ∧
    same_source (pt_owner p) (pt_owner p') ∧
    Forall (λ x, pb_epoch x = owner_epoch (pb_kind x) (pt_owner p) ∧
                 pb_token x = sp_fencing_token (pt_owner p)) published ∧
    (pt_state p = LpGap → published = [] ∧ pt_state p' = LpGap)) as (H & Hs & HF & Hg).
  { revert p published Hrun.
    induction ops as [|[x|epoch reason] ops IH]; intros p published; cbn [run_pointer].
    - intros [= <- <-]. split_and!; [constructor|done..].
    - destruct (publish x p) as [p1 r] eqn:Hx.
      destruct (publish_cases _ _ _ _ Hx)
        as [(-> & Hl & Hl' & He & Ht & Hr & Htr & Ho)|(Hr & Ho & Hgap)].
      + destruct (run_pointer ops p1) as [p2 l] eqn:Hrun. intros [= <- <-].
        destruct (IH _ _ Hrun) as (H & Hs & HF & _). rewrite Ho in *.
        pose proof (set_owner_last_same (pb_kind x) (pb_final x) (pt_owner p)) as Hsame.
        split_and!; [by constructor|by etrans| |congruence]. constructor; [done|].
        eapply Forall_impl; [exact HF|]. cbn beta. intros y.
        destruct Hsame as (_ & -> & Hep). by rewrite Hep.
      + destruct r as [[]|e|]; [done| |].
        * intros Hrun. specialize (IH _ _ Hrun). rewrite Ho in IH. naive_solver.
        * intros [= <- <-]. rewrite Ho. split_and!; [constructor|done..|auto].
    - destruct (fail_active epoch reason p) as [p1 r] eqn:Hx.
      destruct (fail_active_cases _ _ _ _ _ Hx) as [Ho Hgap].
      destruct r as [[]|e|].
      1,2: intros Hrun; specialize (IH _ _ Hrun); rewrite Ho in IH; naive_solver.
      intros [= <- <-]. rewrite Ho. split_and!; [constructor|done..|auto]. }
  destruct (published_from_positions _ _ _ H). pose proof (published_from_trades _ _ _ H). auto 10.
Qed.

(** ** A concrete transfer *)

Module OwnershipDemo.
#[export] Existing Instance toy_sha256.
#[export] Existing Instance toy_sha256_laws.
#[export] Existing Instance RawDemo.file_durable_sink.
#[export] Existing Instance RawDemo.file_sink_laws.

Definition trade (epoch : string) (frame n : Z) : CanonicalObservationV1 :=
  mkObservation "BTCUSDT" Trade "trade" epoch frame n n
    (hex (sha256 (str_bytes epoch ++ to_be_bytes 8 frame))) (BoundaryDemo.sha n).
Definition trade_boundary : HandoverBoundaryV1 :=
  Eval vm_compute in
  match derive_handover_boundary "b-2" Trade [trade "TA" 0 40; trade "TA" 1 41]
          [trade "TB" 0 41; trade "TB" 1 42] (BoundaryDemo.durability 1) (BoundaryDemo.durability 1)
          "rev1" with
  | Ok b => b
  | _ => BoundaryDemo.boundary
  end.
Definition depth_proof : CommittedBoundaryProofV1 := mkProof BoundaryDemo.boundary (BoundaryDemo.sha 2).
Definition trade_proof : CommittedBoundaryProofV1 := mkProof trade_boundary (BoundaryDemo.sha 3).

Definition owner : SourcePointerSnapshotV1 :=
  mkSnapshot "SourcePointerSnapshotV1" "BTCUSDT" "gen-A" "A" "TA" 1 8 41.
Definition activation : OwnershipActivationV1 :=
  Eval vm_compute in
  match derive_ownership_activation "act-1" "gen-B" owner depth_proof trade_proof with
  | Ok a => a
  | _ => mkActivation "" "" "" "" "" "" "" "" "" "" "" "" "" 0 0 0
  end.

(** The three records of the transfer, with the digests they have. *)
Definition digest_of (n : nat) : string := hex (sha256 (replicate n x2a)).
#[export] Instance ownership_serde : Serde OwnershipRecordV1 :=
  table_serde
    [mkOwnershipRecord "OwnershipRecordV1" 0 Initialized (Some owner) None None ZERO_DIGEST;
     mkOwnershipRecord "OwnershipRecordV1" 1 Prepared None (Some activation) None (digest_of 0);
     mkOwnershipRecord "OwnershipRecordV1" 2 Activated None None (Some (digest_of 1))
       (digest_of 1)].
#[export] Instance ownership_serde_laws : SerdeLaws OwnershipRecordV1 ownership_serde.
Proof. apply table_serde_laws. Qed.

Definition fallback : OwnershipLedgerWriter RawDemo.file_sink :=
  mkLedger ([], []) 0 "" 0 owner None true.
Definition opened : OwnershipLedgerWriter RawDemo.file_sink :=
  Eval vm_compute in match ledger_from_sink ([], []) owner with Ok w => w | _ => fallback end.
Definition transfer : list ledger_op := [OpPrepare activation; OpActivate "act-1"].
Definition transferred : OwnershipLedgerWriter RawDemo.file_sink :=
  Eval vm_compute in run_ledger transfer opened.

Definition pointer : CanonicalSourcePointer := mkPointer (successor_snapshot activation) LpLive 0 None.
Definition traffic : list pointer_op :=
  [PoObserve (mkPublication Depth "B" 2 7 11); PoObserve (mkPublication Depth "A" 1 9 9);
   PoObserve (mkPublication Trade "TB" 2 42 42); PoObserve (mkPublication Trade "TB" 2 43 43);
   PoObserve (mkPublication Depth "B" 2 12 14)].
End OwnershipDemo.

Section ownership_witnesses.
Import OwnershipDemo.

Lemma ownership_survives_crash_witness :
  let w := run_ledger transfer opened in
  sp_generation_id (ow_active_owner w) = "gen-B" ∧ ow_record_count w = 3 ∧
  ∃ sc owner, scan_ownership_ledger (synced (ow_sink w) ++ [x00]) = Ok sc ∧
    ls_active_owner sc = Some owner ∧ ow_record_count w ≤ ls_records sc ∧
    ow_end_offset w ≤ ls_last_good_offset sc ∧
    (owner = ow_active_owner w ∨ sp_fencing_token (ow_active_owner w) < sp_fencing_token owner) ∧
    (ow_poisoned w = false → synced (ow_sink w) ++ [x00] = synced (ow_sink w) →
     ls_clean_eof sc = true ∧ owner = ow_active_owner w ∧
     ls_pending_activation sc = fst <$> ow_pending w ∧ ls_records sc = ow_record_count w).
Proof.
  split; [vm_compute; reflexivity|]. split; [vm_compute; reflexivity|].
  apply (ownership_survives_crash ([], []) OwnershipDemo.owner opened transfer);
    [reflexivity|vm_compute; reflexivity|by eexists|vm_compute; congruence].
Defined.

Lemma ownership_scan_sound_witness :
  ∃ sc, scan_ownership_ledger (contents (ow_sink transferred)) = Ok sc ∧
  match ls_active_owner sc with
  | None => ls_pending_activation sc = None ∧ ls_last_activation sc = None ∧ ls_records sc = 0
  | Some owner => ∃ initial acts,
      owner_chain initial acts owner ∧ ls_last_activation sc = last acts ∧
      sp_symbol owner = sp_symbol initial ∧
      sp_fencing_token owner = sp_fencing_token initial + len acts ∧
      NoDup (sp_fencing_token initial :: map ac_fencing_token acts) ∧
      ∀ a, ls_pending_activation sc = Some a → validate_activation_predecessor owner a = Ok ()
  end.
Proof. apply (ownership_scan_sound (contents (ow_sink transferred))). vm_compute. congruence. Defined.

Lemma pointer_publishes_gapless_witness :
  ∃ p published, run_pointer traffic pointer = (p, published) ∧
    length published = 4%nat ∧ pt_fenced_rejections p = 1 ∧
    map pb_final (filter (of_kind Trade) published) = [42; 43] ∧
    ∀ n, 8 < n ≤ 14 → ∃ x, x ∈ published ∧ pb_kind x = Depth ∧ pb_first x ≤ n ≤ pb_final x.
Proof.
  destruct (run_pointer traffic pointer) as [p published] eqn:E. exists p, published.
  assert (length published = 4%nat ∧ pt_fenced_rejections p = 1 ∧
    owner_last Trade (pt_owner p) = 43 ∧ owner_last Depth (pt_owner p) = 14) as (E1 & E2 & E3 & E4)
    by (revert E; vm_compute; intros [= <- <-]; done).
  destruct (pointer_publishes_gapless traffic pointer p published E)
    as (_ & _ & _ & Hc & Ht & _).
  split_and!; [done..| |].
  - rewrite Ht, E3. reflexivity.
  - intros n Hn. apply (Hc Depth). rewrite E4. exact Hn.
Defined.
End ownership_witnesses.
