(* ===== verification/LiveRotation.v ===== *)
(** * Live rotation (live_rotation.rs)

    [LiveRotationCoordinator] joins the handover controller, which knows when
    two books converged, with the canonical pointer, which says who publishes.
    [activate_committed] moves the authority: it checks the committed boundary
    proofs against both, makes the transfer durable in the ownership ledger,
    rescans the ledger file, and only then switches the pointer and promotes
    the candidate. The file at [ledger_path] is a function of the ledger's sink
    ([ledger_file]), which may differ from what the sink wrote. *)

From stdpp Require Import base list strings option numbers gmap.
From Stdlib Require Import ZArith Lia Strings.Byte Sorting.Sorted.
From S2P Require Import Prelude External RawLog RawLogSafety Boundary Transport Handover Ownership.
Local Open Scope Z_scope.

Record LiveActivationReportV1 := mkActivationReport {
  ar_depth_boundary_commit_sha256 : string; ar_trade_boundary_commit_sha256 : string;
  ar_prepare_ack : OwnershipLedgerAckV1; ar_activate_ack : OwnershipLedgerAckV1;
  ar_active_owner_sha256 : string; ar_active_generation : string; ar_fencing_token : Z
}.

Record LiveRotationCoordinator := mkCoordinator {
  lc_handover : HandoverController; lc_pointer : CanonicalSourcePointer
}.
Definition set_pointer (p : CanonicalSourcePointer) (c : LiveRotationCoordinator)
    : LiveRotationCoordinator := mkCoordinator (lc_handover c) p.
Definition set_handover (h : HandoverController) (c : LiveRotationCoordinator)
    : LiveRotationCoordinator := mkCoordinator h (lc_pointer c).

(** A call on one part of the state. *)
Definition on_pointer {A} (m : SE CanonicalSourcePointer A) : SE LiveRotationCoordinator A := λ c,
  let '(p, r) := m (lc_pointer c) in (set_pointer p c, r).
Definition on_handover {A} (m : SE HandoverController A) : SE LiveRotationCoordinator A := λ c,
  let '(h, r) := m (lc_handover c) in (set_handover h c, r).
Definition on_fst {S T A} (m : SE S A) : SE (S * T) A := λ '(s, t),
  let '(s, r) := m s in ((s, t), r).
Definition on_snd {S T A} (m : SE T A) : SE (S * T) A := λ '(s, t),
  let '(t, r) := m t in ((s, t), r).

Definition coordinator_new (handover : HandoverController) (pointer : CanonicalSourcePointer)
    : res LiveRotationCoordinator :=
  _ ← reject (negb (bool_decide (hc_publication handover = PubLive)
                    || bool_decide (hc_publication handover = PubHandover))
              || negb (bool_decide (ep_state (hc_active handover) = EsActive))
              || negb (bool_decide (pt_state pointer = LpLive))
              || negb (String.eqb (hc_symbol handover) (sp_symbol (pt_owner pointer)))
              || negb (String.eqb (ep_epoch (hc_active handover))
                         (sp_depth_epoch (pt_owner pointer))))
        "handover and source pointer do not describe the same active publication";
  Ok (mkCoordinator handover pointer).

Section activation.
Context `{Hsha : Sha256} `{Hor : Serde OwnershipRecordV1} `{Hpm : Serde PointerDigestMaterial}.
Context {S : Type} `{Hsink : DurableSink S}.
(** [File::open(ledger_path)] and what it reads *)
Context (ledger_file : S → string + bytes).

Definition rotation_state : Type := LiveRotationCoordinator * OwnershipLedgerWriter S.

Definition activate_committed (activation_id successor_generation : string)
    (depth trade : CommittedBoundaryProofV1) : SE rotation_state LiveActivationReportV1 :=
  '(c, _) ← get;
  let h := lc_handover c in let owner := pt_owner (lc_pointer c) in
  let db := cp_boundary depth in let tb := cp_boundary trade in
  lift (reject (negb (candidate_converged h))
          "live ownership activation requires exact candidate convergence");;
  candidate ← lift (ok_or (hc_candidate h) "converged candidate disappeared");
  lift (reject (negb (kind_is Depth depth) || negb (kind_is Trade trade)
      || negb (String.eqb (hb_predecessor_epoch db) (ep_epoch (hc_active h)))
      || negb (String.eqb (hb_successor_epoch db) (ep_epoch candidate))
      || negb (bool_decide (ep_final_update_id (hc_active h) = Some (hb_boundary_sequence db)))
      || negb (bool_decide (ep_final_update_id candidate = Some (hb_boundary_sequence db)))
      || negb (bool_decide (ep_state_sha256 (hc_active h) = Some (hb_boundary_sha256 db)))
      || negb (bool_decide (ep_state_sha256 candidate = Some (hb_boundary_sha256 db))))
      "committed depth proof does not match converged live books");;
  lift (reject (negb (String.eqb (sp_depth_epoch owner) (hb_predecessor_epoch db))
      || negb (String.eqb (sp_trade_epoch owner) (hb_predecessor_epoch tb))
      || negb (sp_depth_last_sequence owner =? hb_boundary_sequence db)
      || negb (sp_trade_last_sequence owner =? hb_boundary_sequence tb))
      "committed proofs do not continue the current canonical pointer");;
  activation ← lift (derive_ownership_activation activation_id successor_generation owner
                       depth trade);
  prepare_ack ← on_snd (prepare activation);
  activate_ack ← on_snd (activate (ac_activation_id activation));
  on_fst (on_pointer (modify (set_gap "durable activation awaiting verified rescan")));;
  '(_, ledger) ← get;
  file ← lift (map_err "open " (ledger_file (ow_sink ledger)));
  scan ← lift (scan_ownership_ledger file);
  recovered ← lift (recover scan (Some (depth, trade)));
  let other := negb (String.eqb (sp_depth_epoch (pt_owner recovered)) (ep_epoch candidate))
    || negb (String.eqb (sp_trade_epoch (pt_owner recovered)) (hb_successor_epoch tb)) in
  next ← lift (if other then Ok 0 else add_u64 (sp_fencing_token owner) 1);
  lift (reject (other || negb (sp_fencing_token (pt_owner recovered) =? next))
          "durable ownership rescan did not recover the expected successor");;
  on_fst (on_pointer (put recovered));;
  '(c, _) ← get;
  match promote_candidate (lc_handover c) with
  | (h, Panic) => on_fst (on_handover (put h));; lift Panic
  | (h, Err error) =>
      on_fst (on_handover (put h));;
      let reason := ("controller promotion failed after durable activation: " ++ error)%string in
      '(c, ledger) ← get;
      match fail_active (hb_successor_epoch db) reason (lc_pointer c) with
      | (_, Panic) => lift Panic
      | (p, _) => put (set_pointer p c, ledger);; throw reason
      end
  | (h, Ok _) =>
      on_fst (on_handover (put h));;
      active_owner_sha256 ← lift (snapshot_digest (pt_owner recovered));
      mret (mkActivationReport (cp_commit_record_sha256 depth) (cp_commit_record_sha256 trade)
              prepare_ack activate_ack active_owner_sha256
              (sp_generation_id (pt_owner recovered)) (sp_fencing_token (pt_owner recovered)))
  end.
End activation.

Definition coordinator_accept (kind : BoundaryStreamKind) (epoch : string)
    (fencing_token first_sequence final_sequence : Z) : SE LiveRotationCoordinator unit :=
  c ← get;
  let accept := on_pointer (accept_observation kind epoch fencing_token first_sequence
                              final_sequence) in
  if bool_decide (kind = Depth) then
    lift (reject (negb (bool_decide (hc_publication (lc_handover c) = PubLive))
                  || negb (bool_decide (ep_state (hc_active (lc_handover c)) = EsActive)))
            "depth publication controller is not LIVE");;
    if negb (String.eqb (ep_epoch (hc_active (lc_handover c))) epoch) then accept else accept
  else accept.

Definition coordinator_fail_active (kind : BoundaryStreamKind) (reason : string)
    : SE LiveRotationCoordinator unit :=
  c ← get;
  let epoch := owner_epoch kind (pt_owner (lc_pointer c)) in
  on_pointer (fail_active epoch reason);;
  if bool_decide (kind = Depth) && String.eqb (ep_epoch (hc_active (lc_handover c))) epoch
  then on_handover (fail_epoch epoch reason) else mret ().

(** ** Theory *)

(** What a failed call leaves in a file: a part of the bytes of a failed write, and
    nothing new where a flush or sync fails. *)
Class TornWrites (S : Type) (H : DurableSink S) (L : SinkLaws S H) : Prop := {
  write_all_torn b s s' e : write_all b s = (s', inl e) → ∃ k, contents s' = contents s ++ take k b;
  flush_torn s s' e : flush s = (s', inl e) → contents s' = contents s;
  sync_all_torn s s' e : sync_all s = (s', inl e) → contents s' = contents s
}.

Lemma derive_activation_nopanic id gen o d t : derive_ownership_activation id gen o d t ≠ Panic.
Proof. unfold derive_ownership_activation. nopanic. Qed.
Lemma recover_nopanic sc proofs : recover sc proofs ≠ Panic.
Proof.
  unfold recover. do 3 (apply bind_nopanic; [auto with nopanic|intros ?]).
  apply bind_nopanic; [|done].
  destruct (ls_last_activation sc), proofs as [[]|]; auto with nopanic. nopanic.
Qed.

Ltac eqb_facts :=
  repeat match goal with
  | E : String.eqb _ _ = true |- _ => apply String.eqb_eq in E
  | E : String.eqb _ _ = false |- _ => apply String.eqb_neq in E
  | E : (_ =? _) = true |- _ => apply Z.eqb_eq in E
  | E : (_ =? _) = false |- _ => apply Z.eqb_neq in E
  | E : bool_decide _ = true |- _ => apply bool_decide_eq_true in E
  end.

(** What a derived activation is, and that it is valid. *)
Lemma derive_activation_Ok id gen o depth trade a :
  derive_ownership_activation id gen o depth trade = Ok a →
  validate_activation_proofs a depth trade = Ok () ∧ activation_validate a = Ok () ∧
  ac_activation_id a = id ∧ ac_fencing_token a = sp_fencing_token o + 1 ∧
  sp_fencing_token o + 1 ≤ u64_max ∧
  ac_successor_depth_epoch a = hb_successor_epoch (cp_boundary depth) ∧
  ac_successor_trade_epoch a = hb_successor_epoch (cp_boundary trade) ∧
  ac_successor_depth_epoch a ≠ sp_depth_epoch o ∧ ac_successor_trade_epoch a ≠ sp_trade_epoch o.
Proof.
  unfold derive_ownership_activation. intros H.
  do 6 apply res_bind_Ok in H as ([] & _ & H).
  apply res_bind_Ok in H as (t & Ht%ok_or_Ok & H). apply checked_add_Some in Ht as [Hle ->].
  apply res_bind_Ok in H as ([] & Hv & H). apply res_bind_Ok in H as ([] & Hp & [= <-]).
  split_and!; try done; cbn.
  all: unfold activation_validate in Hv; apply res_bind_Ok in Hv as ([] & Hv%reject_Ok & _);
    cbn in Hv; split_orb; eqb_facts; congruence.
Qed.

Lemma successor_snapshot_valid a :
  activation_validate a = Ok () → snapshot_validate (successor_snapshot a) = Ok ().
Proof.
  unfold activation_validate. intros (? & Hv%reject_Ok & _)%res_bind_Ok. split_orb.
  unfold snapshot_validate, successor_snapshot.
  cbn [sp_schema sp_symbol sp_generation_id sp_depth_epoch sp_trade_epoch sp_fencing_token].
  repeat match goal with E : _ = true |- _ => rewrite E; clear E
                       | E : _ = false |- _ => rewrite E; clear E end. done.
Qed.

(** The proofs given to a recovery determine the recovered positions. *)
Lemma recover_positions sc depth trade p :
  recover sc (Some (depth, trade)) = Ok p →
  pt_state p = LpLive ∧ snapshot_validate (pt_owner p) = Ok () ∧
  sp_depth_epoch (pt_owner p) = hb_successor_epoch (cp_boundary depth) ∧
  sp_trade_epoch (pt_owner p) = hb_successor_epoch (cp_boundary trade) ∧
  sp_depth_last_sequence (pt_owner p) = hb_boundary_sequence (cp_boundary depth) ∧
  sp_trade_last_sequence (pt_owner p) = hb_boundary_sequence (cp_boundary trade).
Proof.
  unfold recover. intros H. apply res_bind_Ok in H as ([] & _ & H).
  apply res_bind_Ok in H as (o & _ & H). apply res_bind_Ok in H as ([] & Hv & H).
  apply res_bind_Ok in H as ([] & Hm & [= <-]).
  destruct (ls_last_activation sc) as [a|]; [|done].
  apply res_bind_Ok in Hm as ([] & Hp & Ho%reject_Ok). split_orb. eqb_facts. subst o.
  unfold validate_activation_proofs in Hp. apply res_bind_Ok in Hp as ([] & _ & Hp).
  apply res_bind_Ok in Hp as ([] & _ & Hp%reject_Ok). split_orb. eqb_facts. by split_and!.
Qed.

(** A converged candidate is promoted; only the event counter can stop it. *)
Lemma promote_converged symbol first c candidate :
  handover_reachable symbol first c → candidate_converged c = true →
  hc_candidate c = Some candidate →
  ∃ c' r, promote_candidate c = (c', r) ∧ hc_active c' = set_epoch_state EsActive candidate ∧
    hc_publication c' = PubLive ∧ (r = Ok () ∨ r = Panic ∧ u64_max ≤ hc_next_event_index c).
Proof.
  intros Hr Hconv Hc. apply reachable_core in Hr as [_ H2 _ H4].
  destruct (H2 _ Hc) as (_ & _ & _ & _ & _ & Hpub).
  assert (hc_publication c = PubHandover) as Hp.
  { destruct Hpub as [|Hg]; [done|]. rewrite Hg in H4. unfold candidate_converged in Hconv.
    rewrite Hc, H4 in Hconv. cbn in Hconv. by rewrite andb_false_r in Hconv. }
  unfold promote_candidate, record_event.
  cbv [mbind SE_bind get lift reject modify put ok_or]. rewrite Hp, Hconv, Hc. cbn.
  destruct (add_u64_cases (hc_next_event_index c) 1) as [[-> _]|[-> ?]].
  - eexists _, _. split_and!; [done..|by left].
  - eexists _, _. split_and!; [done..|right; split; [done|lia]].
Qed.

Section rotation_theory.
Context `{Hsha : Sha256} `{Hor : Serde OwnershipRecordV1} `{Hpm : Serde PointerDigestMaterial}.
Context `{!Sha256Laws Hsha} `{!SerdeLaws OwnershipRecordV1 Hor}.
Context {S : Type} `{Hsink : DurableSink S} `{Hlaws : !SinkLaws S Hsink}.
Context (ledger_file : S → string + bytes).
(** A file is at most [u64::MAX] bytes, and strings and integers always
    serialise. *)
Context (file_size : ∀ s b, ledger_file s = inr b → len b ≤ u64_max).
Context (material_json : ∀ m : PointerDigestMaterial, ∃ b, to_vec m = inr b).

Lemma scan_ledger_total file : len file ≤ u64_max → ∃ sc, scan_ownership_ledger file = Ok sc.
Proof.
  intros Hlen. unfold scan_ownership_ledger.
  destruct (bool_decide _) eqn:Hm; cbn [negb]; [|by eexists]. apply bool_decide_eq_true in Hm.
  destruct (ledger_loop_sound (Datatypes.S (length (drop 8 file))) (drop 8 file) ledger_start)
    as (st & Hst & _); [lia|apply ledger_start_inv|done| |].
  { cbn [lt_last_good_offset ledger_start]. rewrite <-Hm, <-len_app, take_drop. done. }
  fold ledger_start. rewrite Hst. by eexists.
Qed.

Lemma snapshot_digest_total o : snapshot_validate o = Ok () → ∃ d, snapshot_digest o = Ok d.
Proof.
  intros Hv. unfold snapshot_digest. rewrite Hv. cbn [mbind res_bind].
  destruct (material_json (mkPointerMaterial (sp_depth_epoch o) (sp_depth_last_sequence o)
    (sp_fencing_token o) (sp_generation_id o) (sp_schema o) (sp_symbol o) (sp_trade_epoch o)
    (sp_trade_last_sequence o))) as [b ->]. by eexists.
Qed.

(** The rescan of the ledger's own file recovers the activated owner. *)
Lemma faithful_rescan (w : OwnershipLedgerWriter S) bs st a depth trade :
  ledger_holds w bs st → contents (ow_sink w) = LEDGER_MAGIC ++ bs → 0 < ow_record_count w →
  lt_active_owner st = Some (successor_snapshot a) → lt_last_activation st = Some a →
  activation_validate a = Ok () → validate_activation_proofs a depth trade = Ok () →
  ∃ sc, scan_ownership_ledger (contents (ow_sink w)) = Ok sc ∧
    recover sc (Some (depth, trade)) = Ok (mkPointer (successor_snapshot a) LpLive 0 None).
Proof.
  intros Hh Hc Hn Ho Hl Hv Hp. rewrite (ledger_holds_scan _ _ _ Hh Hc), Ho, Hl.
  eexists. split; [reflexivity|]. unfold recover. cbn [ls_clean_eof ls_records ls_active_owner
    ls_last_activation]. rewrite (proj2 (Z.eqb_neq _ _)) by lia.
  cbn [negb orb reject ok_or mbind res_bind]. rewrite successor_snapshot_valid by done.
  cbn [mbind res_bind]. rewrite Hp. cbn [mbind res_bind]. by rewrite bool_decide_eq_true_2.
Qed.

(** The pointer and the ledger after the transfer. *)
Record authority_moved (c c' : LiveRotationCoordinator) (w' : OwnershipLedgerWriter S) : Prop := {
  am_live : pt_state (lc_pointer c') = LpLive;
  am_epochs kind :
    owner_epoch kind (pt_owner (lc_pointer c')) ≠ owner_epoch kind (pt_owner (lc_pointer c));
  am_positions kind :
    owner_last kind (pt_owner (lc_pointer c')) = owner_last kind (pt_owner (lc_pointer c));
  am_token : sp_fencing_token (pt_owner (lc_pointer c'))
             = sp_fencing_token (pt_owner (lc_pointer c)) + 1;
  am_ledger_token : sp_fencing_token (ow_active_owner w')
                    = sp_fencing_token (pt_owner (lc_pointer c'));
  am_ledger : ledger_file (ow_sink w') = inr (contents (ow_sink w')) →
              pt_owner (lc_pointer c') = ow_active_owner w'
}.

Record book_handed_over (h h' : HandoverController) : Prop := {
  bh_candidate : ∃ candidate, hc_candidate h = Some candidate ∧
    hc_active h' = set_epoch_state EsActive candidate;
  bh_publication : hc_publication h' = PubLive;
  bh_update_id : ep_final_update_id (hc_active h') = ep_final_update_id (hc_active h);
  bh_digest : ep_state_sha256 (hc_active h') = ep_state_sha256 (hc_active h)
}.

Definition activation_outcome (c : LiveRotationCoordinator) (w : OwnershipLedgerWriter S)
    (c' : LiveRotationCoordinator) (w' : OwnershipLedgerWriter S)
    (r : res LiveActivationReportV1) : Prop :=
  match r with
  | Ok _ => authority_moved c c' w' ∧ book_handed_over (lc_handover c) (lc_handover c') ∧
      ep_epoch (hc_active (lc_handover c')) = sp_depth_epoch (pt_owner (lc_pointer c'))
  | Err _ => lc_handover c' = lc_handover c ∧
      (lc_pointer c' = lc_pointer c ∧ ow_active_owner w' = ow_active_owner w ∨
       pt_owner (lc_pointer c') = pt_owner (lc_pointer c) ∧ pt_state (lc_pointer c') = LpGap ∧
       ledger_file (ow_sink w') ≠ inr (contents (ow_sink w')))
  | Panic => False
  end.

Lemma activate_committed_outcome symbol first c w id gen depth trade c' w' r :
  handover_reachable symbol first (lc_handover c) →
  hc_next_event_index (lc_handover c) < u64_max ∨ r ≠ Panic → ledger_writer_inv w →
  activate_committed ledger_file id gen depth trade (c, w) = ((c', w'), r) →
  activation_outcome c w c' w' r ∧ ledger_writer_inv w' ∧
  handover_reachable symbol first (lc_handover c').
Proof.
  intros Hr Hi Hw H. unfold activate_committed in H.
  cbv [mbind SE_bind get lift reject modify put mret SE_ret throw on_fst on_snd on_pointer] in H.
  destruct (candidate_converged (lc_handover c)) eqn:Hconv; cbn [negb] in H;
    [|simplify_eq; split; [split; [done|by left]|done]].
  destruct (hc_candidate (lc_handover c)) as [candidate|] eqn:Hcand; cbn [ok_or] in H;
    [|simplify_eq; split; [split; [done|by left]|done]].
  destruct (_ || _) eqn:Hg1 in H; [simplify_eq; split; [split; [done|by left]|done]|].
  destruct (_ || _) eqn:Hg2 in H; [simplify_eq; split; [split; [done|by left]|done]|].
  destruct (derive_ownership_activation _ _ _ _ _) as [a|e|] eqn:Hder;
    [|simplify_eq; split; [split; [done|by left]|done]|by apply derive_activation_nopanic in Hder].
  apply derive_activation_Ok in Hder as (Hproofs & Hav & <- & Htok & Hmax & Hsd & Hst & Hnd & Hnt).
  destruct (prepare a w) as [w1 r1] eqn:Hprep.
  destruct (prepare_inv _ _ _ _ Hw Hprep) as [Hnp Hw1].
  destruct (prepare_owner _ _ _ _ Hprep) as [Ho1 Hok1].
  destruct r1 as [ack1|e|]; [|simplify_eq; split; [split; [done|by left]|done]|done].
  destruct (Hok1 eq_refl) as [Hpred Hpend].
  destruct (activate (ac_activation_id a) w1) as [w2 r2] eqn:Hact.
  destruct (activate_inv _ _ _ _ Hw1 Hact) as [_ Hw2].
  destruct (activate_cases _ _ _ _ Hw1 Hact) as
    [(e & -> & _ & Ho2)|(ack2 & a' & d & bs & st & -> & Hp' & Hh & Hd & _ & Hao & _ & Ho2 & Hl & Hpo & Hn)].
  { simplify_eq. split; [split; [done|left; split; [done|congruence]]|done]. }
  rewrite Hp' in Hpend. cbn in Hpend. injection Hpend as ->.
  destruct Hd as [_ Hd]. destruct (Hd Hpo) as [Hcont _]. rewrite Ho2 in Hao.
  assert (ep_epoch candidate = hb_successor_epoch (cp_boundary depth)) as Hep
    by (split_orb; eqb_facts; done).
  cbn beta iota zeta in H.
  assert (∀ e, (ledger_file (ow_sink w2) = inr (contents (ow_sink w2)) → False) →
    activation_outcome c w (set_pointer (set_gap "durable activation awaiting verified rescan"
      (lc_pointer c)) c) w2 (Err e)) as Hgap by (intros e Hne; split; [done|by right]).
  assert (ledger_file (ow_sink w2) = inr (contents (ow_sink w2)) → ∃ sc,
    scan_ownership_ledger (contents (ow_sink w2)) = Ok sc ∧
    recover sc (Some (depth, trade)) = Ok (mkPointer (successor_snapshot a) LpLive 0 None)) as Hfaith
    by (intros _; by eapply faithful_rescan).
  destruct (ledger_file (ow_sink w2)) as [e|file] eqn:Hfile; cbn [map_err] in H;
    [simplify_eq; split; [by apply Hgap|done]|].
  destruct (scan_ledger_total file) as [sc Hsc]; [by eapply file_size|]. rewrite Hsc in H.
  destruct (recover sc _) as [p|e|] eqn:Hrec; [| |by apply recover_nopanic in Hrec].
  2: { simplify_eq. split; [apply Hgap|done]. intros [= ->].
       destruct (Hfaith eq_refl) as (sc' & ? & ?). congruence. }
  destruct (recover_positions _ _ _ _ Hrec) as (Hlive & Hval & E1 & E2 & E3 & E4).
  rewrite E1, E2, Hep, !String.eqb_refl in H. cbn [negb orb] in H.
  destruct (add_u64_cases (sp_fencing_token (pt_owner (lc_pointer c))) 1) as [[Ha _]|[_ ?]]; [|lia].
  rewrite Ha in H. destruct (_ =? _) eqn:Htk in H; cbn [negb] in H.
  2: { simplify_eq. split; [apply Hgap|done]. intros [= ->].
       destruct (Hfaith eq_refl) as (sc' & ? & ?). apply Z.eqb_neq in Htk.
       assert (p = mkPointer (successor_snapshot a) LpLive 0 None) as -> by congruence. done. }
  destruct (promote_converged symbol first (lc_handover c) candidate)
    as (h & rp & Hprom & Hactive & Hpub & Hrp); [done..|].
  cbn [lc_handover set_pointer] in H. rewrite Hprom in H.
  destruct Hrp as [->|[-> ?]]; [|cbn in H; simplify_eq; destruct Hi; [lia|done]].
  destruct (snapshot_digest_total (pt_owner p)) as [dg Hdg]; [done|].
  rewrite Hdg in H. cbn in H. simplify_eq.
  assert (ep_final_update_id candidate = ep_final_update_id (hc_active (lc_handover c)) ∧
    ep_state_sha256 candidate = ep_state_sha256 (hc_active (lc_handover c))) as [Eu Ed].
  { unfold candidate_converged in Hconv. rewrite Hcand in Hconv. split_orb. by eqb_facts. }
  split_orb. eqb_facts. split_and!; [split_and!; [split|split|]|done|].
  - done.
  - intros []; cbn; congruence.
  - intros []; cbn; congruence.
  - done.
  - cbn. rewrite Ho2. cbn. congruence.
  - intros E. rewrite Hfile in E. injection E as ->. cbn.
    destruct (Hfaith eq_refl) as (sc' & ? & ?). rewrite Ho2.
    assert (p = mkPointer (successor_snapshot a) LpLive 0 None) as -> by congruence. done.
  - by exists candidate.
  - done.
  - cbn. by rewrite Hactive.
  - cbn. by rewrite Hactive.
  - cbn. rewrite Hactive. cbn. congruence.
  - cbn. apply (hr_step symbol first HPromote (lc_handover c) h (Ok ())); [done|]. cbn. by rewrite Hprom.
Qed.

Definition ledger_reachable (w : OwnershipLedgerWriter S) : Prop :=
  ∃ s initial ops w0, contents s = [] ∧ ledger_from_sink s initial = Ok w0 ∧ w = run_ledger ops w0.
Lemma ledger_reachable_inv w : ledger_reachable w → ledger_writer_inv w.
Proof.
  intros (s & i & ops & w0 & Hs & Hw0 & ->). by eapply run_ledger_inv, ledger_from_sink_inv.
Qed.

(** *** What the ledger's own file says *)
Section torn.
Context `{Htorn : !TornWrites S Hsink Hlaws}.

(** A scan of what the ledger wrote finds this owner. *)
Definition file_names (w : OwnershipLedgerWriter S) (o : SourcePointerSnapshotV1) : Prop :=
  ∃ sc, scan_ownership_ledger (contents (ow_sink w)) = Ok sc ∧ ls_active_owner sc = Some o.

Lemma writer_names w : ledger_writer_inv w → ow_poisoned w = false → file_names w (ow_active_owner w).
Proof.
  intros (bs & st & Hh & [_ Hd] & _ & Ho & _) Hp. destruct (Hd Hp) as [Hc _].
  eexists. split; [by apply (ledger_holds_scan w bs st)|done].
Qed.

Lemma write_flush_sync_torn b (s s' : S) e :
  write_flush_sync b s = (s', inl e) → ∃ k, contents s' = contents s ++ take k b.
Proof.
  unfold write_flush_sync. destruct (write_all b s) as [s1 [e1|[]]] eqn:E1.
  { intros [= <- _]. by eapply write_all_torn. }
  apply write_all_contents in E1. destruct (flush s1) as [s2 [e2|[]]] eqn:E2; intros H; exists (length b);
    rewrite take_ge, <-E1 by done.
  - injection H as <- _. by eapply flush_torn.
  - apply flush_contents in E2. rewrite <-E2. by eapply sync_all_torn.
Qed.

(** The scan of a file whose last record may be cut short. *)
Lemma torn_record_scan bs st record body st' k file :
  ledger_runs bs ledger_start st → to_vec record = inr body → len body ≤ LEDGER_MAX_RECORD_BYTES →
  apply_ownership_record record (sha256 body) st = (st', Ok ()) →
  lt_records st' ≤ len bs → lt_last_good_offset st' = len LEDGER_MAGIC + len bs →
  file = LEDGER_MAGIC ++ bs ++ take k (encode_record body (sha256 body)) → len file ≤ u64_max →
  ∃ sc, scan_ownership_ledger file = Ok sc ∧
    (ls_active_owner sc = lt_active_owner st ∨ ls_active_owner sc = lt_active_owner st').
Proof.
  intros Hrun Hv Hmax Happ Hr Ho -> Hsize. set (cs := encode_record body (sha256 body)) in *.
  unfold scan_ownership_ledger. rewrite take_app_length', drop_app_length' by done.
  rewrite bool_decide_eq_true_2 by done. cbn [negb]. fold ledger_start.
  destruct (decide (k < length cs)%nat) as [Hk|Hk].
  - destruct (Hrun (take k cs) (Datatypes.S (length (bs ++ take k cs)))) as (fuel & Hf & ->); [lia|].
    destruct fuel as [|fuel]; [lia|]. cbn [ledger_loop].
    destruct (read_frame _ _) as [| | | | |b d r] eqn:Hrd; try (eexists; split; [reflexivity|by left]).
    apply read_frame_torn in Hrd; try done; apply length_sha256.
  - rewrite take_ge in * by lia. unfold cs in Hsize. rewrite !len_app, len_written in Hsize.
    change (len LEDGER_MAGIC) with 8 in *. pose proof (len_nonneg body). pose proof (len_nonneg bs).
    destruct (ledger_runs_app _ _ _ _ _ Hrun (ledger_runs_record _ _ _ _ Hv Hmax Happ ltac:(lia) ltac:(lia)) []
      (Datatypes.S (length (bs ++ cs)))) as (fuel & Hf & Hloop); [unfold cs; rewrite app_nil_r; lia|].
    rewrite app_nil_r in Hloop. fold cs in Hloop. rewrite Hloop.
    destruct fuel as [|fuel]; [cbn in Hf; lia|]. eexists. split; [reflexivity|by right].
Qed.

(** An append that fails wrote nothing, or the ledger is poisoned and its file names the owner
    in front of the record or the one behind it. *)
Lemma append_torn record w w' e bs st st' :
  ledger_holds w bs st → on_disk w bs →
  (∀ digest, ∃ x, apply_ownership_record record digest st = (x, Ok ()) ∧ lt_active_owner x = st' ∧
     lt_records x = lt_records st ∧ lt_last_good_offset x = lt_last_good_offset st) →
  ledger_append_and_sync record w = (w', Err e) →
  ow_sink w' = ow_sink w ∨
  (ow_poisoned w' = true ∧ ∃ sc, scan_ownership_ledger (contents (ow_sink w')) = Ok sc ∧
     (ls_active_owner sc = lt_active_owner st ∨ ls_active_owner sc = st')).
Proof.
  intros (Hrun & Hrec & Hoff & Hprev & Hrea & Hend & Hcount) [_ Hdisk] Happ.
  unfold ledger_append_and_sync. cbv [mbind SE_bind get lift reject put mret SE_ret throw].
  destruct (ow_poisoned w) eqn:Hp; [intros [= <- _]; by left|]. destruct (Hdisk eq_refl) as [Hc _].
  destruct (to_vec record) as [|body] eqn:Hv; cbn [map_err]; [intros [= <- _]; by left|].
  destruct (_ <? _) eqn:Hm; [intros [= <- _]; by left|]. apply Z.ltb_ge in Hm.
  destruct (_ <? _); [intros [= <- _]; by left|].
  destruct (write_flush_sync _ _) as [s [er|[]]] eqn:Hw.
  - intros [= <- _]. right. split; [done|]. cbn [ow_sink].
    destruct (write_flush_sync_torn _ _ _ _ Hw) as [k Hk]. rewrite Hc, <-app_assoc in Hk.
    destruct (Happ (sha256 body)) as (x & Ha & <- & Hr & Ho).
    apply (torn_record_scan bs st record body x k); try done; [lia|lia|apply contents_u64].
  - apply write_flush_sync_Ok in Hw as [Hw1 _]. pose proof (contents_u64 s) as Hu.
    rewrite Hw1, Hc, !len_app, len_written in Hu. change (len LEDGER_MAGIC) with 8 in *.
    pose proof (len_nonneg body). pose proof (len_written body) as Hl.
    destruct (add_u64_cases (ow_record_count w) 1) as [[-> _]|[_ ?]]; [|lia].
    rewrite checked_add_fits by lia. done.
Qed.
Lemma prepare_torn a w w' e :
  ledger_writer_inv w → prepare a w = (w', Err e) →
  ow_sink w' = ow_sink w ∨ file_names w' (ow_active_owner w).
Proof.
  intros (bs & st & Hh & Hd & Hi & Ho & Hpend) H. unfold prepare in H.
  cbv [mbind SE_bind get lift reject modify mret SE_ret] in H.
  destruct (bool_decide _) eqn:Hb in H; [left; by simplify_eq|]. apply bool_decide_eq_false in Hb.
  destruct (validate_activation_predecessor _ a) as [[]|er|] eqn:Hv; [|left; by simplify_eq|done].
  assert (ow_pending w = None) as Hn by (by destruct (ow_pending w); [destruct Hb|]).
  destruct (ledger_append_and_sync _ w) as [w1 [ack|er|]] eqn:Ha; simplify_eq.
  eapply (append_torn _ _ _ _ bs st (Some (ow_active_owner w))) in Ha as [?|(_ & sc & Hsc & Howner)]; [by left| |done|done|].
  - right. exists sc. split; [done|]. destruct Howner; congruence.
  - intros digest. eexists. split; [eapply prepared_applies; [done..|congruence|done]|]. done.
Qed.

Lemma activate_torn id w w' e a d :
  ledger_writer_inv w → ow_pending w = Some (a, d) → ow_poisoned w = false → activate id w = (w', Err e) →
  file_names w' (ow_active_owner w) ∨ (ow_poisoned w' = true ∧ file_names w' (successor_snapshot a)).
Proof.
  intros Hw Hp Hpo H. pose proof (writer_names w Hw Hpo) as Hnames.
  pose proof Hw as (bs & st & Hh & Hd & Hi & Ho & Hpend). unfold activate in H.
  cbv [mbind SE_bind get lift reject modify mret SE_ret ok_or] in H. rewrite Hp in H.
  destruct (negb _) in H; [left; by simplify_eq|].
  destruct (ledger_append_and_sync _ w) as [w1 [ack|er|]] eqn:Ha; [|simplify_eq|done].
  { destruct (ow_pending w1) as [[]|]; cbn [expect] in H; by simplify_eq. }
  eapply (append_torn _ _ _ _ bs st (Some (successor_snapshot a))) in Ha
    as [Hs|(? & sc & Hsc & Howner)]; [| |done|done|].
  - left. unfold file_names. by rewrite Hs.
  - destruct Howner; [left|right; split; [done|]]; exists sc; split; congruence.
  - intros digest. eexists. split; [apply (activated_applies w bs st a d); [done|congruence]|]. done.
Qed.

Lemma poisoned_refuses op w : ow_poisoned w = true → is_ok (ledger_exec op w).2 = false.
Proof.
  intros Hp. destruct op as [a|id]; cbn [ledger_exec]; unfold prepare, activate, ledger_append_and_sync;
    cbv [mbind SE_bind get lift reject modify mret SE_ret ok_or].
  - destruct (bool_decide _); [done|]. destruct (validate_activation_predecessor _ _) as [[]| |]; [|done..]. by rewrite Hp.
  - destruct (ow_pending w) as [[a d]|]; [|done]. destruct (negb _); [done|]. by rewrite Hp.
Qed.

Lemma prepare_healthy a (w w' : OwnershipLedgerWriter S) ack : prepare a w = (w', Ok ack) → ow_poisoned w' = false.
Proof.
  unfold prepare, ledger_append_and_sync. cbv [mbind SE_bind get lift reject put modify mret SE_ret throw ok_or].
  destruct (bool_decide _); [done|]. destruct (validate_activation_predecessor _ _) as [[]|e|]; [|done..].
  destruct (ow_poisoned w); [done|]. destruct (to_vec _); cbn [map_err]; [done|].
  destruct (_ <? _); [done|]. destruct (_ <? _); [done|]. destruct (write_flush_sync _ _) as [s [|]]; [done|].
  destruct (add_u64 _ _); [|done..]. destruct (checked_add _ _); by intros [= <- _].
Qed.

(** The calls on the ledger behind a failed activation. *)
Lemma activate_committed_calls id gen depth trade c w c' w' e :
  activate_committed ledger_file id gen depth trade (c, w) = ((c', w'), Err e) →
  (c' = c ∧ w' = w) ∨
  ∃ a, derive_ownership_activation id gen (pt_owner (lc_pointer c)) depth trade = Ok a ∧
    ((c' = c ∧ prepare a w = (w', Err e)) ∨
     ∃ w1 ack, prepare a w = (w1, Ok ack) ∧
       ((c' = c ∧ activate (ac_activation_id a) w1 = (w', Err e)) ∨
        ∃ ack2, activate (ac_activation_id a) w1 = (w', Ok ack2))).
Proof.
  unfold activate_committed.
  cbv [mbind SE_bind get lift reject modify put mret SE_ret throw on_fst on_snd on_pointer on_handover].
  destruct (negb (candidate_converged _)); [intros [= <- <- _]; by left|].
  destruct (ok_or (hc_candidate _) _) as [candidate|er|]; [|intros [= <- <- _]; by left|done].
  destruct (_ || _); [intros [= <- <- _]; by left|]. destruct (_ || _); [intros [= <- <- _]; by left|].
  destruct (derive_ownership_activation _ _ _ _ _) as [a|er|]; [|intros [= <- <- _]; by left|done].
  destruct (prepare a w) as [w1 [ack|er|]] eqn:Hp; [|intros [= <- <- <-]; right|done].
  2: { exists a. split; [done|]. by left. }
  destruct (activate (ac_activation_id a) w1) as [w2 [ack2|er|]] eqn:Ha; [|intros [= <- <- <-]; right|done].
  2: { exists a. split; [done|]. right. exists w1, ack. split; [done|]. by left. }
  intros H. right. exists a. split; [done|]. right. exists w1, ack. split; [done|]. right. exists ack2.
  enough (w' = w2) as -> by done. revert H.
  repeat (case_match; try (by intros [= _ <- _]); try done).
Qed.

Lemma activate_committed_Ok id gen depth trade c w c' w' report :
  activate_committed ledger_file id gen depth trade (c, w) = ((c', w'), Ok report) →
  ∃ a w1 ack ack2, prepare a w = (w1, Ok ack) ∧ activate (ac_activation_id a) w1 = (w', Ok ack2).
Proof.
  unfold activate_committed.
  cbv [mbind SE_bind get lift reject modify put mret SE_ret throw on_fst on_snd on_pointer on_handover].
  destruct (negb (candidate_converged _)); [done|].
  destruct (ok_or (hc_candidate _) _) as [candidate|er|]; [|done..].
  destruct (_ || _); [done|]. destruct (_ || _); [done|].
  destruct (derive_ownership_activation _ _ _ _ _) as [a|er|]; [|done..].
  destruct (prepare a w) as [w1 [ack|er|]] eqn:Hp; [|done..].
  destruct (activate (ac_activation_id a) w1) as [w2 [ack2|er|]] eqn:Ha; [|done..].
  intros H. exists a, w1, ack, ack2. split; [done|]. enough (w' = w2) as -> by done. revert H.
  repeat (case_match; try (by intros [= _ <- _]); try done).
Qed.

(** What an activation leaves. *)
Definition activation_exact (id gen : string) (depth trade : CommittedBoundaryProofV1)
    (c : LiveRotationCoordinator) (w : OwnershipLedgerWriter S)
    (c' : LiveRotationCoordinator) (w' : OwnershipLedgerWriter S) (r : res LiveActivationReportV1) : Prop :=
  match r with
  | Ok _ => authority_moved c c' w' ∧ book_handed_over (lc_handover c) (lc_handover c') ∧
      ep_epoch (hc_active (lc_handover c')) = sp_depth_epoch (pt_owner (lc_pointer c')) ∧
      file_names w' (ow_active_owner w')
  | Err _ => lc_handover c' = lc_handover c ∧
      ((lc_pointer c' = lc_pointer c ∧ ow_active_owner w' = ow_active_owner w ∧
        (ow_sink w' = ow_sink w ∨ file_names w' (ow_active_owner w) ∨
         ∃ a, derive_ownership_activation id gen (pt_owner (lc_pointer c)) depth trade = Ok a ∧
           file_names w' (successor_snapshot a) ∧ ∀ op, is_ok (ledger_exec op w').2 = false)) ∨
       (pt_owner (lc_pointer c') = pt_owner (lc_pointer c) ∧ pt_state (lc_pointer c') = LpGap ∧
        file_names w' (ow_active_owner w') ∧ ledger_file (ow_sink w') ≠ inr (contents (ow_sink w'))))
  | Panic => False
  end.

Lemma activate_names id w w' ack :
  ledger_writer_inv w → activate id w = (w', Ok ack) → file_names w' (ow_active_owner w').
Proof.
  intros Hw H. destruct (activate_inv _ _ _ _ Hw H) as [_ Hw'].
  destruct (activate_cases _ _ _ _ Hw H) as [(e & [=] & _)|(? & ? & ? & ? & ? & _ & _ & _ & _ & _ & _ & _ & _ & _ & Hpo & _)].
  by apply writer_names.
Qed.

(** C4: what an activation does to the authority, in memory and in the ledger's file. Take
    a controller and a ledger from any history and any content of the file at
    [ledger_path]. A successful activation moves the pointer to new epochs on both
    streams, at the positions it had, with the next fencing token, which is the ledger's,
    hands the unchanged published book over to the candidate, and a scan of what the
    ledger wrote names its owner; when the file is the ledger's, the pointer's owner is
    the ledger's. The process never aborts. A failed activation does not touch the
    controller. Either it changed neither the pointer nor the owner the ledger knows, and
    then what the ledger wrote is as before, or names that owner, or the write of the
    ACTIVATED record failed with the whole record in the file: then the file names the
    successor beside the unchanged pointer, and the ledger refuses every further call. Or
    the transfer is durable, and the pointer is in GAP with a file that is not what the
    ledger wrote. *)
Theorem activation_authority_exact symbol first c w id gen depth trade c' w' r :
  handover_reachable symbol first (lc_handover c) →
  hc_next_event_index (lc_handover c) < u64_max → ledger_reachable w →
  activate_committed ledger_file id gen depth trade (c, w) = ((c', w'), r) →
  activation_exact id gen depth trade c w c' w' r.
Proof.
  intros Hr Hi Hw%ledger_reachable_inv H.
  destruct (activate_committed_outcome _ _ _ _ _ _ _ _ _ _ _ Hr (or_introl Hi) Hw H) as (Hout & Hw' & _).
  destruct r as [rep|e|]; [| |done].
  - destruct Hout as (H1 & H2 & H3). split; [done|]. split; [done|]. split; [done|].
    destruct (activate_committed_Ok _ _ _ _ _ _ _ _ _ H) as (a & w1 & ack & ack2 & Hp & Ha).
    destruct (prepare_inv _ _ _ _ Hw Hp) as [_ Hw1]. by eapply activate_names.
  - destruct Hout as [Hh Hout]. split; [done|].
    destruct (activate_committed_calls _ _ _ _ _ _ _ _ _ H) as [[-> ->]|(a & Hder & [[-> Hp]|(w1 & ack & Hp & Hrest)])].
    + left. split; [done|]. split; [done|]. by left.
    + left. destruct (prepare_owner _ _ _ _ Hp) as [Ho _]. split; [done|]. split; [done|].
      destruct (prepare_torn _ _ _ _ Hw Hp); [by left|by right; left].
    + destruct (prepare_inv _ _ _ _ Hw Hp) as [_ Hw1]. destruct (prepare_owner _ _ _ _ Hp) as [Ho1 Hok].
      destruct (Hok eq_refl) as [Hpred Hpend]. destruct (ow_pending w1) as [[a' d]|] eqn:Hpd; [|done]. injection Hpend as ->.
      destruct Hrest as [[-> Ha]|(ack2 & Ha)].
      * left. destruct (activate_cases _ _ _ _ Hw1 Ha) as [(? & _ & _ & Ho2)|(? & ? & ? & ? & ? & [=] & _)].
        split; [done|]. split; [congruence|]. right. rewrite <-Ho1.
        destruct (activate_torn _ _ _ _ _ _ Hw1 Hpd (prepare_healthy _ _ _ _ Hp) Ha) as [?|[Hpo Hn]]; [by left|].
        right. exists a. split; [done|]. split; [done|]. intros op. by apply poisoned_refuses.
      * right. destruct Hout as [[_ Hsame]|(G1 & G2 & G3)].
        { exfalso. destruct (activate_cases _ _ _ _ Hw1 Ha)
            as [(? & [=] & _)|(? & a2 & d2 & ? & ? & _ & Hp2 & _ & _ & _ & _ & _ & Ho2 & _)].
          rewrite Hpd in Hp2. injection Hp2 as <- <-. rewrite Ho2 in Hsame.
          apply derive_activation_Ok in Hder as (_ & _ & _ & Htok & _).
          apply transfer_continues in Hpred as (Ht & _). rewrite <-Hsame in Ht. cbn in Ht. lia. }
        split; [done|]. split; [done|]. split; [|done]. by eapply activate_names.
Qed.
End torn.

(** *** Histories of a coordinator *)

Inductive rotation_op :=
  | RoObserve (x : publication)
  | RoFail (kind : BoundaryStreamKind) (reason : string)
  | RoHandover (op : handover_op)
  | RoActivate (id gen : string) (depth trade : CommittedBoundaryProofV1).

Definition rotation_publish (x : publication) : SE LiveRotationCoordinator unit :=
  coordinator_accept (pb_kind x) (pb_epoch x) (pb_token x) (pb_first x) (pb_final x).

(** A call, and the observation it published. *)
Definition rotation_exec (op : rotation_op)
    : SE (rotation_state (S := S)) (option publication) :=
  match op with
  | RoObserve x => on_fst (rotation_publish x);; mret (Some x)
  | RoFail kind reason => on_fst (coordinator_fail_active kind reason);; mret None
  | RoHandover op => on_fst (on_handover (handover_exec op));; mret None
  | RoActivate id gen depth trade => activate_committed ledger_file id gen depth trade;; mret None
  end.

(** Calls until one aborts the process. *)
Fixpoint run_rotation (ops : list rotation_op) (st : rotation_state (S := S))
    : rotation_state (S := S) * list publication :=
  match ops with
  | [] => (st, [])
  | op :: ops =>
      match rotation_exec op st with
      | (_, Panic) => (st, [])
      | (st, Err _) => run_rotation ops st
      | (st, Ok o) => let '(st, l) := run_rotation ops st in (st, option_list o ++ l)
      end
  end.

Lemma rotation_publish_cases x c c' r :
  rotation_publish x c = (c', r) →
  lc_handover c' = lc_handover c ∧
  (publish x (lc_pointer c) = (lc_pointer c', r) ∨ r ≠ Ok () ∧ lc_pointer c' = lc_pointer c).
Proof.
  unfold rotation_publish, coordinator_accept, publish.
  cbv [mbind SE_bind get lift reject on_pointer set_pointer].
  destruct (bool_decide _).
  - destruct (_ || _); [intros [= <- <-]; split; [done|by right]|].
    destruct (negb _), (accept_observation _ _ _ _ _ _) as [p rp]; intros [= <- <-];
      (split; [done|by left]).
  - destruct (accept_observation _ _ _ _ _ _) as [p rp]; intros [= <- <-].
    split; [done|by left].
Qed.

Lemma coordinator_fail_cases symbol first kind reason c c' r :
  handover_reachable symbol first (lc_handover c) →
  coordinator_fail_active kind reason c = (c', r) →
  handover_reachable symbol first (lc_handover c') ∧ pt_owner (lc_pointer c') = pt_owner (lc_pointer c).
Proof.
  intros Hr. unfold coordinator_fail_active.
  cbv [mbind SE_bind get on_pointer on_handover set_pointer set_handover mret SE_ret].
  destruct (fail_active _ _ _) as [p rp] eqn:Hp. apply fail_active_cases in Hp as [Ho _].
  destruct rp as [[]|e|]; [|by intros [= <- <-]..].
  destruct (_ && _); [|by intros [= <- <-]]. cbn [lc_handover].
  destruct (fail_epoch _ _ _) as [h rh] eqn:Hh. intros [= <- <-]. split; [|done].
  by eapply (hr_step _ _ (HFail _ reason)).
Qed.

Lemma run_rotation_published symbol first ops c w c' w' published :
  handover_reachable symbol first (lc_handover c) → ledger_writer_inv w →
  run_rotation ops (c, w) = ((c', w'), published) →
  published_from (pt_owner (lc_pointer c)) published (pt_owner (lc_pointer c')).
Proof.
  revert c w published. induction ops as [|op ops IH]; intros c w published Hr Hw; cbn [run_rotation].
  { intros [= -> -> <-]. constructor. }
  destruct (rotation_exec op (c, w)) as [[c1 w1] r] eqn:Hop.
  assert (r = Panic ∨ handover_reachable symbol first (lc_handover c1) ∧ ledger_writer_inv w1 ∧
    ∀ l o', published_from (pt_owner (lc_pointer c1)) l o' →
      published_from (pt_owner (lc_pointer c))
        ((match r with Ok o => option_list o | _ => [] end) ++ l) o') as Hstep.
  { destruct op as [x|kind reason|hop|id gen depth trade];
      unfold rotation_exec in Hop; cbv [mbind SE_bind mret SE_ret on_fst on_handover set_handover] in Hop.
    - destruct (rotation_publish x c) as [c2 r2] eqn:Hx.
      destruct (rotation_publish_cases _ _ _ _ Hx) as [Hh [Hp|[Hne Hp]]].
      + destruct (publish_cases _ _ _ _ Hp)
          as [(-> & _ & _ & He & Ht & Hrg & Htr & Ho)|(Hne & Ho & _)].
        * simplify_eq. right. split_and!; [by rewrite Hh|done|]. intros l o'. rewrite Ho.
          by constructor.
        * destruct r2 as [[]|e|]; simplify_eq; [|by left]. right.
          split_and!; [by rewrite Hh|done|]. by rewrite Ho.
      + destruct r2 as [[]|e|]; simplify_eq; [|by left]. right.
        split_and!; [by rewrite Hh|done|]. by rewrite Hp.
    - destruct (coordinator_fail_active kind reason c) as [c2 r2] eqn:Hf.
      destruct (coordinator_fail_cases _ _ _ _ _ _ _ Hr Hf) as [Hh Ho].
      destruct r2 as [[]|e|]; simplify_eq; [..|by left]; right; (split_and!; [done..|]); by rewrite Ho.
    - destruct (handover_exec hop (lc_handover c)) as [h rh] eqn:Hh.
      destruct rh as [[]|e|]; simplify_eq; [..|by left]; right;
        (split_and!; [by eapply hr_step|done|done]).
    - destruct (activate_committed _ _ _ _ _ _) as [[c2 w2] r2] eqn:Ha.
      destruct r2 as [rep|e|]; simplify_eq; [..|by left]; right.
      + edestruct activate_committed_outcome with (4 := Ha)
          as ([Hm _] & Hw1 & Hh1); [exact Hr|by right|exact Hw|]. split_and!; [done..|]. intros l o' Hl.
        eapply published_skip; [apply Hm| |exact Hl]. destruct Hm as [_ _ _ -> _ _]. lia.
      + edestruct activate_committed_outcome with (4 := Ha)
          as ([_ Ho] & Hw1 & Hh1); [exact Hr|by right|exact Hw|]. split_and!; [done..|]. intros l o'.
        by destruct Ho as [[-> _]|[-> _]]. }
  destruct r as [o|e|].
  - destruct Hstep as [|(Hr1 & Hw1 & Hst)]; [done|].
    destruct (run_rotation ops (c1, w1)) as [[c2 w2] l] eqn:Hrun. intros [= <- <- <-].
    by eapply Hst, IH.
  - destruct Hstep as [|(Hr1 & Hw1 & Hst)]; [done|]. intros Hrun.
    change published with ([] ++ published). by eapply Hst, IH.
  - intros [= -> -> <-]. constructor.
Qed.

(** C9: publication stays gapless across rotations. In every sequence of
    observations, failures, handover steps and activations on a coordinator,
    successful or not, the accepted depth ranges cover every sequence number
    between the first and the last position, the accepted trades are exactly
    the consecutive numbers, once each and in order, over all generations, and
    the fencing tokens of the accepted observations never go back. *)
Theorem rotation_publishes_gapless symbol first ops c w c' w' published :
  handover_reachable symbol first (lc_handover c) → ledger_reachable w →
  run_rotation ops (c, w) = ((c', w'), published) →
  let o := pt_owner (lc_pointer c) in let o' := pt_owner (lc_pointer c') in
  (∀ kind n, owner_last kind o < n ≤ owner_last kind o' →
     ∃ x, x ∈ published ∧ pb_kind x = kind ∧ pb_first x ≤ n ≤ pb_final x) ∧
  map pb_final (filter (of_kind Trade) published) =
    seqZ (owner_last Trade o + 1) (owner_last Trade o' - owner_last Trade o) ∧
  Forall (λ x, sp_fencing_token o ≤ pb_token x ≤ sp_fencing_token o') published ∧
  StronglySorted (λ x y, pb_token x ≤ pb_token y) published.
Proof.
  intros Hr Hw H o o'.
  pose proof (run_rotation_published _ _ _ _ _ _ _ _ Hr (ledger_reachable_inv _ Hw) H) as Hp.
  destruct (published_from_positions _ _ _ Hp) as [_ Hc].
  destruct (published_from_tokens _ _ _ Hp) as (_ & Hf & Hs).
  split_and!; [done|by apply published_from_trades|done..].
Qed.
End rotation_theory.

(** ** A concrete rotation *)

Module RotationDemo.
#[export] Existing Instance toy_sha256.
#[export] Existing Instance toy_sha256_laws.
#[export] Existing Instance RawDemo.file_durable_sink.
#[export] Existing Instance RawDemo.file_sink_laws.
#[export] Existing Instance OwnershipDemo.ownership_serde.
#[export] Existing Instance OwnershipDemo.ownership_serde_laws.
#[export] Instance material_serde : Serde PointerDigestMaterial :=
  {| to_vec _ := inr [x7b; x7d]; from_slice _ := inl "unused" |}.

Definition ledger_file (s : RawDemo.file_sink) : string + bytes := inr (contents s).
Lemma ledger_file_size s b : ledger_file s = inr b → len b ≤ u64_max.
Proof. intros [= <-]. exact (contents_u64 s). Qed.
Lemma material_total (m : PointerDigestMaterial) : ∃ b, to_vec m = inr b.
Proof. by eexists. Qed.

(** Epochs A and B converged at update ID 8. *)
Definition converged_ops : list handover_op :=
  HandoverDemo.to_live "A" 5 ++ [HActivate; HBegin "B"] ++ HandoverDemo.to_live "B" 8
  ++ [HObserve "A" 8 (HandoverDemo.digest 8)].
Definition handover : HandoverController :=
  Eval vm_compute in HandoverDemo.run converged_ops HandoverDemo.start.
Lemma handover_demo_reachable : handover_reachable "BTCUSDT" "A" handover.
Proof.
  change handover with (HandoverDemo.run converged_ops HandoverDemo.start).
  apply HandoverDemo.handover_run_reachable, HandoverDemo.start_reachable.
Qed.

Definition coordinator : LiveRotationCoordinator :=
  mkCoordinator handover (mkPointer OwnershipDemo.owner LpLive 0 None).
Definition ledger : OwnershipLedgerWriter RawDemo.file_sink := OwnershipDemo.opened.
Lemma ledger_demo_reachable : ledger_reachable ledger.
Proof. exists ([], []), OwnershipDemo.owner, [], ledger. split_and!; [done| |done]. vm_compute. reflexivity. Qed.

Definition rotate : rotation_op :=
  RoActivate "act-1" "gen-B" OwnershipDemo.depth_proof OwnershipDemo.trade_proof.
Definition history : list rotation_op :=
  [RoObserve (mkPublication Trade "TB" 2 42 42); rotate;
   RoObserve (mkPublication Depth "A" 1 9 9); RoObserve (mkPublication Depth "B" 2 7 11);
   RoObserve (mkPublication Trade "TB" 2 42 42); RoFail Depth "socket closed";
   RoObserve (mkPublication Depth "B" 2 12 12)].

#[export] Instance file_sink_torn : TornWrites RawDemo.file_sink RawDemo.file_durable_sink RawDemo.file_sink_laws.
Proof.
  split; [|done|done]. intros b s s' e. cbn. destruct (RawDemo.fits _); [done|]. intros [= <- _]. exists 0%nat.
  by rewrite take_0, app_nil_r.
Qed.

(** A file whose [sync_all] fails after a number of calls. *)
Definition flaky_sink : Type := RawDemo.file_sink * nat.
#[export] Instance flaky_durable_sink : DurableSink flaky_sink := {|
  write_all b s := let '(f, r) := write_all b s.1 in ((f, s.2), r);
  flush s := let '(f, r) := flush s.1 in ((f, s.2), r);
  sync_all s := match s.2 with
                | O => (s, inl "device error")
                | Datatypes.S n => let '(f, r) := sync_all s.1 in ((f, n), r)
                end
|}.
#[export, refine] Instance flaky_sink_laws : SinkLaws flaky_sink flaky_durable_sink := {|
  contents s := contents s.1;
  synced s := synced s.1
|}.
Proof.
  - intros s. exact (contents_u64 s.1).
  - intros b [f n] s' E.
    change (write_all b (f, n)) with (let '(f', r) := write_all b f in ((f', n), r)) in E.
    destruct (write_all b f) as [f' r] eqn:E'. injection E as <- ->.
    exact (write_all_contents _ _ _ E').
  - intros s s' [= <-]. done.
  - intros [f [|n]] s' E; [done|]. injection E as <-. exact (sync_all_contents f _ eq_refl).
  - intros b [f n].
    change (write_all b (f, n)) with (let '(f', r) := write_all b f in ((f', n), r)).
    pose proof (write_all_synced b f) as H. destruct (write_all b f). exact H.
  - intros s. done.
  - intros [f [|n]]; [done|]. exact (sync_all_synced f).
Defined.

#[export] Instance flaky_sink_torn : TornWrites flaky_sink flaky_durable_sink flaky_sink_laws.
Proof.
  split.
  - intros b [f n] s' e E.
    change (write_all b (f, n)) with (let '(f', r) := write_all b f in ((f', n), r)) in E.
    destruct (write_all b f) as [f' r] eqn:E'. injection E as <- ->. exact (write_all_torn b f f' e E').
  - done.
  - intros [f [|n]] s' e E; [by injection E as <- _|done].
Qed.

Definition flaky_ledger : OwnershipLedgerWriter flaky_sink :=
  Eval vm_compute in
  match ledger_from_sink (([], []), 3%nat) OwnershipDemo.owner with
  | Ok w => w
  | _ => mkLedger (([], []), O) 0 "" 0 OwnershipDemo.owner None true
  end.
Lemma flaky_file_size (s : flaky_sink) b : inr (contents s) = (inr b : string + bytes) → len b ≤ u64_max.
Proof. intros [= <-]. exact (contents_u64 s). Qed.
Lemma flaky_demo_reachable : ledger_reachable flaky_ledger.
Proof. exists (([], []), 3%nat), OwnershipDemo.owner, [], flaky_ledger. split; [done|]. split; [vm_compute; reflexivity|done]. Qed.
End RotationDemo.

Section rotation_witnesses.
Import RotationDemo.

(** A transfer that succeeds, and one whose last sync fails. *)
Lemma activation_authority_exact_witness :
  (∃ c w report,
    activate_committed RotationDemo.ledger_file "act-1" "gen-B" OwnershipDemo.depth_proof
      OwnershipDemo.trade_proof (coordinator, ledger) = ((c, w), Ok report) ∧
    ar_fencing_token report = 2 ∧
    authority_moved RotationDemo.ledger_file coordinator c w ∧
    book_handed_over (lc_handover coordinator) (lc_handover c) ∧
    ep_epoch (hc_active (lc_handover c)) = sp_depth_epoch (pt_owner (lc_pointer c)) ∧
    file_names w (ow_active_owner w)) ∧
  ∃ c w e, activate_committed (λ s, inr (contents s)) "act-1" "gen-B" OwnershipDemo.depth_proof
      OwnershipDemo.trade_proof (coordinator, flaky_ledger) = ((c, w), Err e) ∧
    activation_exact (λ s, inr (contents s)) "act-1" "gen-B" OwnershipDemo.depth_proof OwnershipDemo.trade_proof
      coordinator flaky_ledger c w (Err e).
Proof.
  split.
  - destruct (activate_committed RotationDemo.ledger_file "act-1" "gen-B" OwnershipDemo.depth_proof
      OwnershipDemo.trade_proof (coordinator, ledger)) as [[c w] r] eqn:E.
    pose proof (activation_authority_exact RotationDemo.ledger_file ledger_file_size
      material_total "BTCUSDT" "A" coordinator ledger "act-1" "gen-B" OwnershipDemo.depth_proof
      OwnershipDemo.trade_proof c w r handover_demo_reachable eq_refl ledger_demo_reachable E) as H.
    assert (∃ report, r = Ok report ∧ ar_fencing_token report = 2) as (report & -> & Ht)
      by (revert E; vm_compute; intros [= _ _ <-]; by eexists).
    exists c, w, report. split; [reflexivity|]. split; [exact Ht|exact H].
  - destruct (activate_committed (λ s, inr (contents s)) "act-1" "gen-B" OwnershipDemo.depth_proof
      OwnershipDemo.trade_proof (coordinator, flaky_ledger)) as [[c w] r] eqn:E.
    pose proof (activation_authority_exact (λ s, inr (contents s)) flaky_file_size
      material_total "BTCUSDT" "A" coordinator flaky_ledger "act-1" "gen-B" OwnershipDemo.depth_proof
      OwnershipDemo.trade_proof c w r handover_demo_reachable eq_refl flaky_demo_reachable E) as H.
    assert (∃ e, r = Err e) as (e & ->) by (revert E; vm_compute; intros [= _ _ <-]; by eexists).
    exists c, w, e. split; [reflexivity|exact H].
Defined.

Lemma rotation_publishes_gapless_witness :
  ∃ c w published,
    run_rotation RotationDemo.ledger_file history (coordinator, ledger) = ((c, w), published) ∧
    map pb_token published = [2; 2] ∧
    map pb_final (filter (of_kind Trade) published) = [42] ∧
    ∀ n, 8 < n ≤ 11 → ∃ x, x ∈ published ∧ pb_kind x = Depth ∧ pb_first x ≤ n ≤ pb_final x.
Proof.
  destruct (run_rotation RotationDemo.ledger_file history (coordinator, ledger))
    as [[c w] published] eqn:E. exists c, w, published.
  assert (map pb_token published = [2; 2] ∧ owner_last Trade (pt_owner (lc_pointer c)) = 42 ∧
    owner_last Depth (pt_owner (lc_pointer c)) = 11) as (E1 & E2 & E3)
    by (revert E; vm_compute; intros [= <- _ <-]; done).
  destruct (rotation_publishes_gapless RotationDemo.ledger_file ledger_file_size material_total
    "BTCUSDT" "A" history coordinator ledger c w published handover_demo_reachable
    ledger_demo_reachable E) as (Hc & Ht & _).
  split; [reflexivity|]. split; [exact E1|]. split.
  - rewrite Ht, E2. reflexivity.
  - intros n Hn. apply (Hc Depth). rewrite E3. exact Hn.
Defined.

(** When the sync of the ACTIVATED record reports an error after the bytes
    reached the file, [activate_committed] returns the error before it blocks
    the pointer: the predecessor stays live in memory while a scan of the
    ledger already names the successor. This is the exception that
    the theorem on activations states. *)
Theorem failed_activation_leaves_old_owner_live :
  let '((c, w), r) :=
    activate_committed (λ s, inr (contents s)) "act-1" "gen-B" OwnershipDemo.depth_proof
      OwnershipDemo.trade_proof (coordinator, flaky_ledger) in
  is_ok r = false ∧ lc_pointer c = lc_pointer coordinator ∧ pt_state (lc_pointer c) = LpLive ∧
  ∃ sc, scan_ownership_ledger (contents (ow_sink w)) = Ok sc ∧ ls_clean_eof sc = true ∧
    sp_generation_id <$> ls_active_owner sc = Some "gen-B".
Proof. vm_compute. split_and!; [done..|]. eexists. by split_and!. Qed.
End rotation_witnesses.
