(* ===== verification/HotRedundancy.v ===== *)
(** * Hot redundancy (hot_redundancy.rs)

    The availability state machine of two independent capture lanes: starts,
    readiness, failures with exponential backoff and a circuit breaker per
    lane, and the intervals in which no lane was ready. The map of lanes always
    holds both, so it is two fields. *)

From stdpp Require Import base list strings option numbers gmap.
From Stdlib Require Import ZArith Lia Strings.Byte.
From S2P Require Import Prelude External.
Local Open Scope Z_scope.

(** ** Data *)

Inductive CaptureLane := Primary | Shadow.
#[global] Instance capture_lane_eq_decision : EqDecision CaptureLane.
Proof. solve_decision. Defined.
Definition lane_as_str (l : CaptureLane) : string :=
  match l with Primary => "PRIMARY" | Shadow => "SHADOW" end.
Definition ALL_LANES : list CaptureLane := [Primary; Shadow].

Inductive LaneState := LsAbsent | LsStarting | LsReady | LsBackoff | LsTerminal.
#[global] Instance lane_state_eq_decision : EqDecision LaneState.
Proof. solve_decision. Defined.
Inductive CircuitState := CsClosed | CsOpen | CsHalfOpen.
#[global] Instance circuit_state_eq_decision : EqDecision CircuitState.
Proof. solve_decision. Defined.
Inductive CoverageState := CvStarting | CvRedundant | CvDegraded | CvGap | CvTerminal.
#[global] Instance coverage_state_eq_decision : EqDecision CoverageState.
Proof. solve_decision. Defined.

Record HotRedundancyConfig := mkHotConfig {
  cfg_backoff_initial_ns : Z; cfg_backoff_max_ns : Z; cfg_jitter_max_ns : Z;
  cfg_backoff_reset_after_ns : Z; cfg_circuit_failure_threshold : Z;
  cfg_circuit_reset_cooldown_ns : Z
}.

Record LaneStatus := mkLane {
  ln_lane : CaptureLane; ln_state : LaneState; ln_run_token : option string;
  ln_launch_attempt : Z; ln_consecutive_failures : Z; ln_started_mono_ns : option Z;
  ln_ready_mono_ns : option Z; ln_restart_not_before_mono_ns : option Z;
  ln_last_failure_reason : option string; ln_circuit_state : CircuitState;
  ln_circuit_open_mono_ns : option Z
}.
Definition lane_absent (lane : CaptureLane) : LaneStatus :=
  mkLane lane LsAbsent None 0 0 None None None None CsClosed None.

Record GapInterval := mkGap {
  gp_gap_id : Z; gp_opened_mono_ns : Z; gp_closed_mono_ns : option Z; gp_unavailable_ns : option Z
}.
Record RestartRequest := mkRestart {
  rq_lane : CaptureLane; rq_not_before_mono_ns : Z; rq_next_launch_attempt : Z
}.
Record CoverageTransition := mkTransition {
  tr_previous : CoverageState; tr_current : CoverageState; tr_opened_gap : option GapInterval;
  tr_closed_gap : option GapInterval
}.

Record HotRedundantSupervisor := mkSupervisor {
  hs_config : HotRedundancyConfig; hs_primary : LaneStatus; hs_shadow : LaneStatus;
  hs_used_run_tokens : gset string; hs_coverage : CoverageState; hs_ever_ready : bool;
  hs_open_gap : option GapInterval; hs_next_gap_id : Z; hs_last_mono_ns : Z; hs_terminal : bool
}.

(** ** Field updates *)

Definition lane (l : CaptureLane) (s : HotRedundantSupervisor) : LaneStatus :=
  match l with Primary => hs_primary s | Shadow => hs_shadow s end.
Definition set_lane (l : CaptureLane) (x : LaneStatus) (s : HotRedundantSupervisor)
    : HotRedundantSupervisor :=
  mkSupervisor (hs_config s)
    (match l with Primary => x | Shadow => hs_primary s end)
    (match l with Primary => hs_shadow s | Shadow => x end)
    (hs_used_run_tokens s) (hs_coverage s) (hs_ever_ready s) (hs_open_gap s) (hs_next_gap_id s)
    (hs_last_mono_ns s) (hs_terminal s).
Definition set_tokens (t : gset string) (s : HotRedundantSupervisor) : HotRedundantSupervisor :=
  mkSupervisor (hs_config s) (hs_primary s) (hs_shadow s) t (hs_coverage s) (hs_ever_ready s)
    (hs_open_gap s) (hs_next_gap_id s) (hs_last_mono_ns s) (hs_terminal s).
Definition set_ever_ready (s : HotRedundantSupervisor) : HotRedundantSupervisor :=
  mkSupervisor (hs_config s) (hs_primary s) (hs_shadow s) (hs_used_run_tokens s) (hs_coverage s)
    true (hs_open_gap s) (hs_next_gap_id s) (hs_last_mono_ns s) (hs_terminal s).
Definition set_coverage (c : CoverageState) (s : HotRedundantSupervisor) : HotRedundantSupervisor :=
  mkSupervisor (hs_config s) (hs_primary s) (hs_shadow s) (hs_used_run_tokens s) c
    (hs_ever_ready s) (hs_open_gap s) (hs_next_gap_id s) (hs_last_mono_ns s) (hs_terminal s).
Definition set_gaps (g : option GapInterval) (next : Z) (s : HotRedundantSupervisor)
    : HotRedundantSupervisor :=
  mkSupervisor (hs_config s) (hs_primary s) (hs_shadow s) (hs_used_run_tokens s) (hs_coverage s)
    (hs_ever_ready s) g next (hs_last_mono_ns s) (hs_terminal s).
Definition set_clock (now : Z) (s : HotRedundantSupervisor) : HotRedundantSupervisor :=
  mkSupervisor (hs_config s) (hs_primary s) (hs_shadow s) (hs_used_run_tokens s) (hs_coverage s)
    (hs_ever_ready s) (hs_open_gap s) (hs_next_gap_id s) now (hs_terminal s).
Definition set_terminal (s : HotRedundantSupervisor) : HotRedundantSupervisor :=
  mkSupervisor (hs_config s) (hs_primary s) (hs_shadow s) (hs_used_run_tokens s) (hs_coverage s)
    (hs_ever_ready s) (hs_open_gap s) (hs_next_gap_id s) (hs_last_mono_ns s) true.

(** ** Policy *)

Definition config_validate (c : HotRedundancyConfig) : res unit :=
  _ ← reject ((cfg_backoff_initial_ns c =? 0) || (cfg_backoff_max_ns c =? 0)
              || (cfg_backoff_reset_after_ns c =? 0)
              || (cfg_backoff_max_ns c <? cfg_backoff_initial_ns c)
              || (cfg_backoff_max_ns c <? cfg_jitter_max_ns c))
        "invalid hot-redundancy reconnect policy";
  reject ((0 <? cfg_circuit_failure_threshold c) && (cfg_circuit_reset_cooldown_ns c =? 0))
    "circuit breaker reset cooldown must be positive when the breaker is enabled".

(** [1_u64.checked_shl(shift).unwrap_or(u64::MAX)] *)
Definition shl_one (shift : Z) : Z :=
  if shift <? 64 then Z.land (Z.shiftl 1 shift) u64_max else u64_max.

Definition reconnect_delay_ns `{Sha256} (config : HotRedundancyConfig) (l : CaptureLane)
    (launch_attempt consecutive_failures : Z) (run_token : string) : Z :=
  let shift := Z.min (saturating_sub consecutive_failures 1) 63 in
  let multiplier := shl_one shift in
  let base := Z.min (saturating_mul (cfg_backoff_initial_ns config) multiplier)
                (cfg_backoff_max_ns config) in
  if cfg_jitter_max_ns config =? 0 then base else
  let digest := sha256 (str_bytes (lane_as_str l) ++ to_le_bytes 8 launch_attempt
                        ++ to_le_bytes 4 consecutive_failures ++ str_bytes run_token) in
  let sample := from_le_bytes (take 8 digest) in
  let jitter := sample mod (saturating_add (cfg_jitter_max_ns config) 1) in
  Z.min (saturating_add base jitter) (cfg_backoff_max_ns config).

(** ** The supervisor *)

Definition supervisor_new (config : HotRedundancyConfig) (now_mono_ns : Z)
    : res HotRedundantSupervisor :=
  _ ← config_validate config;
  Ok (mkSupervisor config (lane_absent Primary) (lane_absent Shadow) ∅ CvStarting false None 0
        now_mono_ns false).

Definition advance_clock (now_mono_ns : Z) : SE HotRedundantSupervisor unit :=
  s ← get;
  lift (reject (now_mono_ns <? hs_last_mono_ns s)
          ("hot-redundancy monotonic time regressed: " ++ u_to_string (hs_last_mono_ns s)
           ++ " -> " ++ u_to_string now_mono_ns));;
  modify (set_clock now_mono_ns).

Definition is_ready (x : LaneStatus) : bool := bool_decide (ln_state x = LsReady).
Definition ready_lanes (s : HotRedundantSupervisor) : nat :=
  length (List.filter is_ready [hs_primary s; hs_shadow s]).

Definition coverage_of (s : HotRedundantSupervisor) : CoverageState :=
  if hs_terminal s then CvTerminal else
  match ready_lanes s with
  | 2%nat => CvRedundant
  | 1%nat => CvDegraded
  | _ => if hs_ever_ready s then CvGap else CvStarting
  end.

Definition recompute_coverage (now_mono_ns : Z) : SE HotRedundantSupervisor CoverageTransition :=
  s ← get;
  let previous := hs_coverage s in
  let ready := ready_lanes s in
  let current := coverage_of s in
  '(opened_gap, closed_gap) ←
    (if bool_decide (current = CvGap) && negb (bool_decide (is_Some (hs_open_gap s))) then
       let gap := mkGap (hs_next_gap_id s) now_mono_ns None None in
       next ← lift (ok_or (checked_add (hs_next_gap_id s) 1) "gap identity overflow");
       modify (set_gaps (Some gap) next);;
       mret (Some gap, None)
     else if negb (ready =? 0)%nat then
       match hs_open_gap s with
       | Some gap =>
           modify (λ s, set_gaps None (hs_next_gap_id s) s);;
           mret (None, Some (mkGap (gp_gap_id gap) (gp_opened_mono_ns gap) (Some now_mono_ns)
                               (Some (saturating_sub now_mono_ns (gp_opened_mono_ns gap)))))
       | None => mret (None, None)
       end
     else mret (None, None));
  modify (set_coverage current);;
  mret (mkTransition previous current opened_gap closed_gap).

(** [status.circuit_open_mono_ns.is_some_and(..)] while the circuit is open *)
Definition circuit_blocked (c : HotRedundancyConfig) (x : LaneStatus) (now : Z) : bool :=
  bool_decide (ln_circuit_state x = CsOpen)
  && match ln_circuit_open_mono_ns x with
     | Some opened => saturating_sub now opened <? cfg_circuit_reset_cooldown_ns c
     | None => false
     end.

Definition start_lane (l : CaptureLane) (run_token : string) (now_mono_ns : Z)
    : SE HotRedundantSupervisor CoverageTransition :=
  advance_clock now_mono_ns;;
  s ← get;
  lift (reject (hs_terminal s) "cannot start a lane after supervisor termination");;
  (if is_blank run_token then mret () else modify (set_tokens ({[run_token]} ∪ hs_used_run_tokens s)));;
  lift (reject (is_blank run_token || bool_decide (run_token ∈ hs_used_run_tokens s))
          "capture lane run token must be non-empty and never reused");;
  let x := lane l s in
  lift (reject (negb (bool_decide (ln_state x = LsAbsent) || bool_decide (ln_state x = LsBackoff)))
          (lane_as_str l ++ " lane is not eligible to start"));;
  lift (reject (match ln_restart_not_before_mono_ns x with
                | Some deadline => now_mono_ns <? deadline
                | None => false
                end) (lane_as_str l ++ " lane reconnect backoff has not elapsed"));;
  lift (reject (circuit_blocked (hs_config s) x now_mono_ns)
          (lane_as_str l ++ " lane circuit breaker is open"));;
  let circuit := if bool_decide (ln_circuit_state x = CsOpen) then CsHalfOpen
                 else ln_circuit_state x in
  modify (set_lane l (mkLane (ln_lane x) LsStarting (Some run_token) (ln_launch_attempt x)
    (ln_consecutive_failures x) (ln_started_mono_ns x) (ln_ready_mono_ns x)
    (ln_restart_not_before_mono_ns x) (ln_last_failure_reason x) circuit
    (ln_circuit_open_mono_ns x)));;
  attempt ← lift (ok_or (checked_add (ln_launch_attempt x) 1) "lane launch-attempt overflow");
  modify (set_lane l (mkLane (ln_lane x) LsStarting (Some run_token) attempt
    (ln_consecutive_failures x) (Some now_mono_ns) None None None circuit
    (ln_circuit_open_mono_ns x)));;
  recompute_coverage now_mono_ns.

Definition mark_ready (l : CaptureLane) (run_token : string) (now_mono_ns : Z)
    : SE HotRedundantSupervisor CoverageTransition :=
  advance_clock now_mono_ns;;
  s ← get;
  let x := lane l s in
  lift (reject (negb (bool_decide (ln_run_token x = Some run_token)))
          (lane_as_str l ++ " readiness references a stale run token"));;
  if bool_decide (ln_state x = LsReady) then recompute_coverage now_mono_ns else
  lift (reject (negb (bool_decide (ln_state x = LsStarting)))
          (lane_as_str l ++ " readiness is illegal from its current state"));;
  modify (set_lane l (mkLane (ln_lane x) LsReady (ln_run_token x) (ln_launch_attempt x)
    (ln_consecutive_failures x) (ln_started_mono_ns x) (Some now_mono_ns)
    (ln_restart_not_before_mono_ns x) (ln_last_failure_reason x) CsClosed None));;
  modify set_ever_ready;;
  recompute_coverage now_mono_ns.

(** The circuit after one more failure: reopened by a failed probe, opened at
    the threshold. *)
Definition failed_circuit (c : HotRedundancyConfig) (x : LaneStatus) (failures now : Z)
    : CircuitState * option Z :=
  if 0 <? cfg_circuit_failure_threshold c then
    if bool_decide (ln_circuit_state x = CsHalfOpen) then (CsOpen, Some now)
    else if bool_decide (ln_circuit_state x = CsClosed)
            && (cfg_circuit_failure_threshold c <=? failures) then (CsOpen, Some now)
    else (ln_circuit_state x, ln_circuit_open_mono_ns x)
  else (ln_circuit_state x, ln_circuit_open_mono_ns x).

Definition fail_lane `{Sha256} (l : CaptureLane) (run_token reason : string) (now_mono_ns : Z)
    : SE HotRedundantSupervisor CoverageTransition :=
  advance_clock now_mono_ns;;
  lift (reject (is_blank reason) "lane failure reason must not be empty");;
  s ← get;
  let x := lane l s in
  lift (reject (negb (bool_decide (ln_run_token x = Some run_token)))
          (lane_as_str l ++ " failure references a stale run token"));;
  lift (reject (negb (bool_decide (ln_state x = LsStarting) || bool_decide (ln_state x = LsReady)))
          (lane_as_str l ++ " failure is duplicate or illegal"));;
  let failures := Z.min (ln_consecutive_failures x + 1) u32_max in
  let '(circuit, opened) := failed_circuit (hs_config s) x failures now_mono_ns in
  let delay := reconnect_delay_ns (hs_config s) l (ln_launch_attempt x) failures run_token in
  modify (set_lane l (mkLane (ln_lane x) LsBackoff (ln_run_token x) (ln_launch_attempt x) failures
    (ln_started_mono_ns x) None (Some (saturating_add now_mono_ns delay)) (Some reason) circuit
    opened));;
  recompute_coverage now_mono_ns.

Definition retire_lane (l : CaptureLane) (run_token : string) (now_mono_ns : Z)
    : SE HotRedundantSupervisor CoverageTransition :=
  advance_clock now_mono_ns;;
  s ← get;
  let x := lane l s in
  lift (reject (negb (bool_decide (ln_run_token x = Some run_token)))
          (lane_as_str l ++ " retirement references a stale run token"));;
  lift (reject (negb (bool_decide (ln_state x = LsReady)))
          (lane_as_str l ++ " retirement requires a ready lane"));;
  modify (set_lane l (mkLane (ln_lane x) LsBackoff (ln_run_token x) (ln_launch_attempt x) 0
    (ln_started_mono_ns x) None (Some now_mono_ns) None CsClosed None));;
  recompute_coverage now_mono_ns.

Definition restart_request (c : HotRedundancyConfig) (now : Z) (l : CaptureLane) (x : LaneStatus)
    : list RestartRequest :=
  if bool_decide (ln_state x = LsBackoff)
     && match ln_restart_not_before_mono_ns x with Some deadline => deadline <=? now | None => false end
     && negb (circuit_blocked c x now)
  then [mkRestart l (default now (ln_restart_not_before_mono_ns x))
          (saturating_add (ln_launch_attempt x) 1)]
  else [].

Definition restart_requests (now_mono_ns : Z)
    : SE HotRedundantSupervisor (list RestartRequest) :=
  advance_clock now_mono_ns;;
  s ← get;
  mret (if hs_terminal s then []
        else ALL_LANES ≫= λ l, restart_request (hs_config s) now_mono_ns l (lane l s)).

Definition settle_lane (c : HotRedundancyConfig) (now : Z) (x : LaneStatus) : LaneStatus :=
  if bool_decide (ln_state x = LsReady)
     && match ln_ready_mono_ns x with
        | Some ready => cfg_backoff_reset_after_ns c <=? saturating_sub now ready
        | None => false
        end
  then mkLane (ln_lane x) (ln_state x) (ln_run_token x) (ln_launch_attempt x) 0
         (ln_started_mono_ns x) (ln_ready_mono_ns x) (ln_restart_not_before_mono_ns x)
         (ln_last_failure_reason x) (ln_circuit_state x) (ln_circuit_open_mono_ns x)
  else x.

Definition advance_time (now_mono_ns : Z) : SE HotRedundantSupervisor CoverageTransition :=
  advance_clock now_mono_ns;;
  modify (λ s, set_lane Primary (settle_lane (hs_config s) now_mono_ns (hs_primary s)) s);;
  modify (λ s, set_lane Shadow (settle_lane (hs_config s) now_mono_ns (hs_shadow s)) s);;
  recompute_coverage now_mono_ns.

Definition terminal_lane (x : LaneStatus) : LaneStatus :=
  mkLane (ln_lane x) LsTerminal (ln_run_token x) (ln_launch_attempt x) (ln_consecutive_failures x)
    (ln_started_mono_ns x) (ln_ready_mono_ns x) None (ln_last_failure_reason x)
    (ln_circuit_state x) (ln_circuit_open_mono_ns x).

Definition terminate (now_mono_ns : Z) : SE HotRedundantSupervisor CoverageTransition :=
  advance_clock now_mono_ns;;
  s ← get;
  let previous := hs_coverage s in
  modify set_terminal;;
  modify (set_lane Primary (terminal_lane (hs_primary s)));;
  modify (set_lane Shadow (terminal_lane (hs_shadow s)));;
  modify (set_coverage CvTerminal);;
  mret (mkTransition previous CvTerminal None None).

(** ** Histories *)

Inductive hot_op :=
  | HoStart (l : CaptureLane) (run_token : string)
  | HoReady (l : CaptureLane) (run_token : string)
  | HoFail (l : CaptureLane) (run_token reason : string)
  | HoRetire (l : CaptureLane) (run_token : string)
  | HoRequests
  | HoAdvance
  | HoTerminate.

Section hot.
Context `{Hsha : Sha256}.

Definition hot_exec (op : hot_op) (now : Z) : SE HotRedundantSupervisor (option CoverageTransition) :=
  match op with
  | HoStart l t => tr ← start_lane l t now; mret (Some tr)
  | HoReady l t => tr ← mark_ready l t now; mret (Some tr)
  | HoFail l t reason => tr ← fail_lane l t reason now; mret (Some tr)
  | HoRetire l t => tr ← retire_lane l t now; mret (Some tr)
  | HoRequests => _ ← restart_requests now; mret None
  | HoAdvance => tr ← advance_time now; mret (Some tr)
  | HoTerminate => tr ← terminate now; mret (Some tr)
  end.

Definition closed_gap_of (r : res (option CoverageTransition)) : list GapInterval :=
  match r with Ok (Some tr) => option_list (tr_closed_gap tr) | _ => [] end.

(** A history: the calls with their times, whatever they return; the gaps that
    were reported closed; the time that passed between calls while the coverage
    was GAP; and, as a termination ends the record, the last coverage before it
    and the time up to which the supervisor was live. *)
Record hot_run := mkHotRun {
  hr_supervisor : HotRedundantSupervisor; hr_closed : list GapInterval; hr_dark_ns : Z;
  hr_live_coverage : CoverageState; hr_until : Z
}.
Definition hot_step (h : hot_run) (call : hot_op * Z) : hot_run :=
  let s := hr_supervisor h in
  let '(s', r) := hot_exec call.1 call.2 s in
  mkHotRun s' (hr_closed h ++ closed_gap_of r)
    (hr_dark_ns h + if bool_decide (hs_coverage s = CvGap)
                    then hs_last_mono_ns s' - hs_last_mono_ns s else 0)
    (if hs_terminal s' then hr_live_coverage h else hs_coverage s')
    (if hs_terminal s then hr_until h else hs_last_mono_ns s').
Definition run_hot (calls : list (hot_op * Z)) (s : HotRedundantSupervisor) : hot_run :=
  foldl hot_step (mkHotRun s [] 0 (hs_coverage s) (hs_last_mono_ns s)) calls.

(** ** Accounting *)

Definition gap_ns (g : GapInterval) : Z := default 0 (gp_unavailable_ns g).
Definition total_ns (l : list GapInterval) : Z := foldr Z.add 0 (map gap_ns l).

(** Closed gaps one after the other between two times. *)
Fixpoint gaps_between (lo : Z) (l : list GapInterval) (hi : Z) : Prop :=
  match l with
  | [] => lo ≤ hi
  | g :: l => ∃ c, gp_closed_mono_ns g = Some c ∧ lo ≤ gp_opened_mono_ns g ≤ c ∧
      gp_unavailable_ns g = Some (c - gp_opened_mono_ns g) ∧ gaps_between c l hi
  end.

Lemma gaps_between_mono lo l hi hi' : hi ≤ hi' → gaps_between lo l hi → gaps_between lo l hi'.
Proof.
  intros H. revert lo. induction l as [|g l IH]; intros lo; cbn; [lia|].
  intros (c & ? & ? & ? & ?). exists c. auto.
Qed.
Lemma gaps_between_snoc lo l g c :
  gp_closed_mono_ns g = Some c → gp_unavailable_ns g = Some (c - gp_opened_mono_ns g) →
  gp_opened_mono_ns g ≤ c → gaps_between lo l (gp_opened_mono_ns g) → gaps_between lo (l ++ [g]) c.
Proof.
  intros Hc Hu Ho. revert lo. induction l as [|g' l IH]; intros lo; cbn.
  - intros. exists c. split_and!; [done|lia|lia|done|lia].
  - intros (c' & ? & ? & ? & ?). exists c'. auto.
Qed.
Lemma total_ns_snoc l g : total_ns (l ++ [g]) = total_ns l + gap_ns g.
Proof. unfold total_ns. induction l as [|g' l IH]; cbn in *; lia. Qed.

(** What the gap fields say about the history so far. *)
Definition accounted (t0 : Z) (s : HotRedundantSupervisor) (closed : list GapInterval) (dark : Z)
    : Prop :=
  (is_Some (hs_open_gap s) ↔ hs_coverage s = CvGap) ∧
  (is_Some (hs_open_gap s) → hs_ever_ready s = true) ∧ 0 ≤ hs_next_gap_id s ∧
  map gp_gap_id closed = seqZ 0 (len closed) ∧
  match hs_open_gap s with
  | Some g => gp_gap_id g = len closed ∧ hs_next_gap_id s = len closed + 1 ∧
      gaps_between t0 closed (gp_opened_mono_ns g) ∧ gp_opened_mono_ns g ≤ hs_last_mono_ns s ∧
      dark = total_ns closed + (hs_last_mono_ns s - gp_opened_mono_ns g)
  | None => hs_next_gap_id s = len closed ∧ gaps_between t0 closed (hs_last_mono_ns s) ∧
      dark = total_ns closed
  end.

(** Changes that leave the accounting alone. *)
Definition lanes_only (s s' : HotRedundantSupervisor) : Prop :=
  hs_coverage s' = hs_coverage s ∧ hs_open_gap s' = hs_open_gap s ∧
  hs_next_gap_id s' = hs_next_gap_id s ∧ hs_last_mono_ns s' = hs_last_mono_ns s ∧
  hs_terminal s' = hs_terminal s ∧ (hs_ever_ready s = true → hs_ever_ready s' = true).

Lemma accounted_lanes t0 s s' closed dark :
  lanes_only s s' → accounted t0 s closed dark → accounted t0 s' closed dark.
Proof.
  intros (E1 & E2 & E3 & E4 & _ & E6) (H1 & H2 & H3 & H4 & H5). unfold accounted.
  rewrite E1, E2, E3, E4. split_and!; auto.
Qed.

Lemma accounted_clock t0 now s closed dark :
  hs_last_mono_ns s ≤ now → accounted t0 s closed dark →
  accounted t0 (set_clock now s) closed
    (dark + if bool_decide (hs_coverage s = CvGap) then now - hs_last_mono_ns s else 0).
Proof.
  intros Hn (H1 & H2 & H3 & H4 & H5). unfold accounted, set_clock. cbn.
  split_and!; [apply H1|done..|]. destruct (hs_open_gap s) as [g|].
  - rewrite bool_decide_eq_true_2 by (by apply H1). destruct H5 as (? & ? & ? & ? & ->).
    split_and!; [done..|lia|lia].
  - rewrite bool_decide_eq_false_2 by (intros E; by apply H1 in E as []).
    destruct H5 as (? & ? & ->). split_and!; [done|by eapply gaps_between_mono|lia].
Qed.

Lemma ready_lanes_le s : (ready_lanes s ≤ 2)%nat.
Proof. unfold ready_lanes. cbn. repeat destruct (is_ready _); cbn; lia. Qed.

(** [recompute_coverage] restores the coverage and books the gap. *)
Lemma recompute_spec t0 now s s' r closed dark :
  accounted t0 s closed dark → hs_last_mono_ns s = now → hs_terminal s = false →
  hs_next_gap_id s < u64_max → recompute_coverage now s = (s', r) →
  ∃ tr, r = Ok tr ∧ accounted t0 s' (closed ++ option_list (tr_closed_gap tr)) dark ∧
    hs_coverage s' = coverage_of s' ∧ hs_terminal s' = false ∧ hs_last_mono_ns s' = now ∧
    hs_next_gap_id s' ≤ hs_next_gap_id s + 1.
Proof.
  intros (H1 & H2 & H3 & H4 & H5) <- Ht Hid. unfold recompute_coverage.
  cbv [mbind SE_bind get lift modify mret SE_ret].
  pose proof (ready_lanes_le s) as Hle.
  destruct (hs_open_gap s) as [g|] eqn:Hg.
  - rewrite andb_false_r. destruct H5 as (Hgid & Hnext & Hb & Ho & ->).
    destruct (ready_lanes s =? 0)%nat eqn:Hr; cbn [negb]; intros [= <- <-].
    + apply Nat.eqb_eq in Hr. eexists. split; [done|]. cbn [tr_closed_gap option_list].
      assert (coverage_of s = CvGap) as Hc
        by (unfold coverage_of; by rewrite Ht, Hr, H2).
      rewrite app_nil_r. unfold accounted, set_coverage.
      cbn [hs_open_gap hs_coverage hs_ever_ready hs_next_gap_id hs_last_mono_ns hs_terminal].
      rewrite Hg, Hc. split_and!; try done; lia.
    + apply Nat.eqb_neq in Hr. eexists. split; [done|]. cbn [tr_closed_gap option_list].
      unfold saturating_sub. rewrite Z.max_l by lia.
      assert (coverage_of s ≠ CvGap) as Hc.
      { unfold coverage_of. rewrite Ht. destruct (ready_lanes s) as [|[|[|]]]; [done..|lia]. }
      unfold accounted. cbn. split_and!; try done; try lia.
      * rewrite map_app, H4, len_app. cbn. rewrite Hgid. change (len [_]) with 1.
        rewrite seqZ_app by (unfold len; lia). f_equal.
      * rewrite len_app. change (len [_]) with 1. lia.
      * apply gaps_between_snoc; cbn; [done..|lia|done].
      * rewrite total_ns_snoc. cbn. lia.
  - rewrite (bool_decide_eq_false_2 (is_Some None)) by (by intros []). cbn [negb].
    rewrite andb_true_r. destruct H5 as (Hnext & Hb & ->). case_bool_decide as Hc.
    + unfold ok_or. rewrite checked_add_fits by lia. intros [= <- <-]. eexists. split; [done|].
      cbn [tr_closed_gap option_list]. rewrite app_nil_r. unfold accounted. cbn.
      split_and!; try done; try lia.
      intros _. unfold coverage_of in Hc. rewrite Ht in Hc.
      destruct (ready_lanes s) as [|[|[|]]], (hs_ever_ready s); done.
    + destruct (negb _); intros [= <- <-]; eexists; (split; [done|]);
        cbn [tr_closed_gap option_list]; rewrite app_nil_r; unfold accounted; cbn; rewrite Hg;
        (split_and!; try done; try lia; (split; [by intros []|done])).
Qed.

Definition quiet (s s' : HotRedundantSupervisor) : Prop :=
  lanes_only s s' ∧ coverage_of s' = coverage_of s.
Lemma quiet_refl s : quiet s s.
Proof. by split_and!. Qed.
Lemma lanes_only_set_lane l x s : lanes_only s (set_lane l x s).
Proof. by split_and!. Qed.
Lemma lanes_only_trans s1 s2 s3 : lanes_only s1 s2 → lanes_only s2 s3 → lanes_only s1 s3.
Proof.
  intros (A1 & A2 & A3 & A4 & A5 & A6) (B1 & B2 & B3 & B4 & B5 & B6).
  split_and!; try congruence. auto.
Qed.
Lemma quiet_tokens t s : quiet s (set_tokens t s).
Proof. by split_and!. Qed.
Lemma quiet_set_lane l x s : is_ready x = is_ready (lane l s) → quiet s (set_lane l x s).
Proof.
  intros H. split; [apply lanes_only_set_lane|]. unfold coverage_of.
  replace (ready_lanes (set_lane l x s)) with (ready_lanes s); [done|].
  unfold ready_lanes. destruct l; cbn [set_lane hs_primary hs_shadow List.filter lane] in *;
    rewrite H; by repeat destruct (is_ready _).
Qed.
#[local] Hint Resolve quiet_refl quiet_tokens lanes_only_set_lane : core.

(** What a termination leaves. *)
Definition terminated (s : HotRedundantSupervisor) : HotRedundantSupervisor :=
  set_coverage CvTerminal (set_lane Shadow (terminal_lane (hs_shadow s))
    (set_lane Primary (terminal_lane (hs_primary s)) (set_terminal s))).

(** A call that got past the clock: it changed nothing that counts, or ended
    with [recompute_coverage], or ended the supervisor. *)
Inductive call_end (now : Z) (s1 s' : HotRedundantSupervisor) : res (option CoverageTransition) → Prop :=
  | end_quiet r : quiet s1 s' → closed_gap_of r = [] → call_end now s1 s' r
  | end_recompute s2 tr : lanes_only s1 s2 → recompute_coverage now s2 = (s', Ok tr) →
      call_end now s1 s' (Ok (Some tr))
  | end_overflow s2 e r : lanes_only s1 s2 → recompute_coverage now s2 = (s', Err e) →
      call_end now s1 s' r
  | end_terminal tr : s' = terminated s1 → tr_closed_gap tr = None → call_end now s1 s' (Ok (Some tr)).

Lemma recompute_end now s1 s2 s' r :
  lanes_only s1 s2 →
  (tr ← recompute_coverage now; mret (Some tr)) s2 = (s', r) → call_end now s1 s' r.
Proof.
  intros Hl. unfold mbind at 1, SE_bind at 1. destruct (recompute_coverage now s2) as [s3 [tr|e|]] eqn:E.
  - intros [= <- <-]. by eapply end_recompute.
  - intros [= <- <-]. by eapply end_overflow.
  - exfalso. revert E. unfold recompute_coverage.
    cbv [mbind SE_bind get lift modify mret SE_ret ok_or].
    destruct (_ && _); [by destruct (checked_add _ _)|]. destruct (negb _); [|done].
    by destruct (hs_open_gap s2).
Qed.

(** A guard that fails leaves the state as it is. *)
Ltac end_here := simplify_eq; apply end_quiet; [by auto|done].

Lemma start_end l t now s s' r :
  (tr ← start_lane l t now; mret (Some tr)) s = (s', r) → hs_last_mono_ns s ≤ now →
  call_end now (set_clock now s) s' r.
Proof.
  intros H Hn. unfold start_lane, advance_clock in H.
  cbv [mbind SE_bind get lift reject modify mret SE_ret ok_or] in H.
  rewrite (proj2 (Z.ltb_ge _ _)) in H by done.
  destruct (hs_terminal (set_clock now s)); [end_here|].
  destruct (is_blank t); cbn [orb] in H; [end_here|].
  destruct (bool_decide (t ∈ _)); [end_here|].
  set (s1 := set_clock now s) in *. set (s2 := set_tokens _ s1) in *.
  destruct (negb _) eqn:Hst in H; [end_here|].
  destruct (match ln_restart_not_before_mono_ns (lane l s1) with Some _ => _ | None => _ end);
    [end_here|].
  destruct (circuit_blocked _ _ _); [end_here|].
  destruct (checked_add _ _).
  - eapply (recompute_end now s1 _ s' r); [|unfold mbind at 1, SE_bind at 1; exact H].
    eapply lanes_only_trans; [|eapply lanes_only_trans; apply lanes_only_set_lane].
    apply quiet_tokens.
  - simplify_eq. apply end_quiet; [|done].
    destruct (quiet_tokens ({[t]} ∪ hs_used_run_tokens s1) s1) as [Q1 Q2]. fold s2 in Q1, Q2.
    destruct (quiet_set_lane l (mkLane (ln_lane (lane l s1)) LsStarting (Some t)
      (ln_launch_attempt (lane l s1)) (ln_consecutive_failures (lane l s1))
      (ln_started_mono_ns (lane l s1)) (ln_ready_mono_ns (lane l s1))
      (ln_restart_not_before_mono_ns (lane l s1)) (ln_last_failure_reason (lane l s1))
      (if bool_decide (ln_circuit_state (lane l s1) = CsOpen) then CsHalfOpen
       else ln_circuit_state (lane l s1)) (ln_circuit_open_mono_ns (lane l s1))) s2) as [Q3 Q4].
    { change (lane l s2) with (lane l s1). unfold is_ready. cbn [ln_state].
      apply negb_false_iff, orb_true_iff in Hst.
      destruct Hst as [E|E]; apply bool_decide_eq_true in E; by rewrite E. }
    split; [by eapply lanes_only_trans|]. by rewrite Q4, Q2.
Qed.

Lemma clock_regressed {A B} (m : SE HotRedundantSupervisor A) (f : A → B) now s s' r :
  now < hs_last_mono_ns s → (x ← (advance_clock now;; m); mret (f x)) s = (s', r) →
  s' = s ∧ ∃ e, r = Err e.
Proof.
  intros Hn. unfold advance_clock. cbv [mbind SE_bind get lift reject].
  rewrite (proj2 (Z.ltb_lt _ _)) by done. intros [= <- <-]. by eauto.
Qed.

Lemma clock_advanced {A B} (m : SE HotRedundantSupervisor A) (f : A → B) now s :
  hs_last_mono_ns s ≤ now →
  (x ← (advance_clock now;; m); mret (f x)) s = (x ← m; mret (f x)) (set_clock now s).
Proof.
  intros Hn. unfold advance_clock. cbv [mbind SE_bind get lift reject modify].
  by rewrite (proj2 (Z.ltb_ge _ _)).
Qed.

(** The calls after the clock. *)
Ltac open_call H :=
  rewrite clock_advanced in H by done;
  set (s1 := set_clock _ _) in *; clearbody s1;
  cbv [mbind SE_bind get lift reject modify mret SE_ret ok_or] in H.
Ltac close_call H :=
  eapply recompute_end; [|unfold mbind at 1, SE_bind at 1; exact H].

Lemma ready_end l t now s s' r :
  (tr ← mark_ready l t now; mret (Some tr)) s = (s', r) → hs_last_mono_ns s ≤ now →
  call_end now (set_clock now s) s' r.
Proof.
  intros H Hn. unfold mark_ready in H. open_call H.
  destruct (negb _); [end_here|]. destruct (bool_decide (ln_state _ = LsReady)).
  { close_call H. apply quiet_refl. }
  destruct (negb _); [end_here|]. close_call H.
  by split_and!.
Qed.

Lemma fail_end l t reason now s s' r :
  (tr ← fail_lane l t reason now; mret (Some tr)) s = (s', r) → hs_last_mono_ns s ≤ now →
  call_end now (set_clock now s) s' r.
Proof.
  intros H Hn. unfold fail_lane in H. open_call H.
  destruct (is_blank _); [end_here|]. destruct (negb _); [end_here|].
  destruct (negb _); [end_here|]. destruct (failed_circuit _ _ _ _) as [circuit opened].
  close_call H. apply lanes_only_set_lane.
Qed.

Lemma retire_end l t now s s' r :
  (tr ← retire_lane l t now; mret (Some tr)) s = (s', r) → hs_last_mono_ns s ≤ now →
  call_end now (set_clock now s) s' r.
Proof.
  intros H Hn. unfold retire_lane in H. open_call H.
  destruct (negb _); [end_here|]. destruct (negb _); [end_here|].
  close_call H. apply lanes_only_set_lane.
Qed.

Lemma advance_end now s s' r :
  (tr ← advance_time now; mret (Some tr)) s = (s', r) → hs_last_mono_ns s ≤ now →
  call_end now (set_clock now s) s' r.
Proof.
  intros H Hn. unfold advance_time in H. open_call H. close_call H.
  eapply lanes_only_trans; apply lanes_only_set_lane.
Qed.

Lemma hot_exec_end op now s s' r :
  hot_exec op now s = (s', r) →
  (now < hs_last_mono_ns s ∧ s' = s ∧ closed_gap_of r = []) ∨
  (hs_last_mono_ns s ≤ now ∧ call_end now (set_clock now s) s' r).
Proof.
  intros H. destruct (decide (now < hs_last_mono_ns s)) as [Hn|Hn].
  - left. split; [done|].
    destruct op; eapply clock_regressed in H as (-> & e & ->); done.
  - right. split; [lia|]. apply Z.nlt_ge in Hn.
    destruct op; [by eapply start_end|by eapply ready_end|by eapply fail_end|by eapply retire_end
      | |by eapply advance_end|].
    + cbn in H. unfold restart_requests in H. open_call H. end_here.
    + cbn in H. unfold terminate in H. open_call H. simplify_eq. by apply end_terminal.
Qed.

(** One call keeps the books. *)
Lemma hot_step_accounted t0 h call :
  let s := hr_supervisor h in let h' := hot_step h call in let s' := hr_supervisor h' in
  accounted t0 s (hr_closed h) (hr_dark_ns h) → hs_coverage s = coverage_of s →
  hs_terminal s = false → hs_next_gap_id s < u64_max → hs_terminal s' = false →
  accounted t0 s' (hr_closed h') (hr_dark_ns h') ∧ hs_coverage s' = coverage_of s' ∧
  hs_next_gap_id s' ≤ hs_next_gap_id s + 1.
Proof.
  destruct call as [op now]. unfold hot_step. cbn [fst snd].
  destruct (hot_exec op now (hr_supervisor h)) as [s' r] eqn:E. set (s := hr_supervisor h) in *.
  cbn [hr_supervisor hr_closed hr_dark_ns]. intros Ha Hc Ht Hid Ht'.
  apply hot_exec_end in E as [(_ & -> & ->)|[Hn Hend]].
  { rewrite app_nil_r, Z.sub_diag.
    assert ((if bool_decide (hs_coverage s = CvGap) then 0 else 0) = 0) as -> by by destruct (bool_decide _).
    rewrite Z.add_0_r. split_and!; [done..|lia]. }
  apply (accounted_clock t0 now s) in Ha; [|done].
  destruct Hend as [r Hq Hr|s2 tr Hl Hrec|s2 e r Hl Hrec|tr -> _]; [..|discriminate Ht'].
  - destruct Hq as [Hl Hcov]. rewrite Hr, app_nil_r. pose proof Hl as (E1 & E2 & E3 & E4 & _).
    cbn in E1, E3, E4. rewrite E4, E3. split_and!; [by eapply accounted_lanes| |lia].
    rewrite E1, Hcov. exact Hc.
  - pose proof Hl as (_ & _ & E3 & E4 & E5 & _). cbn in E3, E4, E5.
    destruct (recompute_spec t0 now s2 s' (Ok tr) (hr_closed h) _ (accounted_lanes _ _ _ _ _ Hl Ha))
      as (tr' & [= <-] & Ha' & Hc' & _ & Hl' & Hi'); [congruence|congruence|lia|done|].
    rewrite Hl'. split_and!; [done..|lia].
  - pose proof Hl as (_ & _ & E3 & E4 & E5 & _). cbn in E3, E4, E5.
    destruct (recompute_spec t0 now s2 s' (Err e) (hr_closed h) _ (accounted_lanes _ _ _ _ _ Hl Ha))
      as (tr' & ? & _); [congruence|congruence|lia|done|done].
Qed.

Lemma recompute_terminal now s s' r :
  recompute_coverage now s = (s', r) → hs_terminal s' = hs_terminal s.
Proof.
  unfold recompute_coverage. cbv [mbind SE_bind get lift modify mret SE_ret ok_or].
  destruct (_ && _); [by destruct (checked_add _ _); intros [= <- <-]|].
  destruct (negb _); [|by intros [= <- <-]]. by destruct (hs_open_gap s); intros [= <- <-].
Qed.

(** A terminated supervisor: no lane is ready or can become it. *)
Definition ended (s : HotRedundantSupervisor) : Prop :=
  hs_terminal s = true ∧ hs_coverage s = CvTerminal ∧
  ln_state (hs_primary s) = LsTerminal ∧ ln_state (hs_shadow s) = LsTerminal.
Definition frozen (s s' : HotRedundantSupervisor) : Prop :=
  ended s' ∧ hs_open_gap s' = hs_open_gap s ∧ hs_next_gap_id s' = hs_next_gap_id s ∧
  hs_ever_ready s' = hs_ever_ready s.

Lemma ended_lane l s : ended s → ln_state (lane l s) = LsTerminal.
Proof. intros (_ & _ & H1 & H2). by destruct l. Qed.
Lemma ended_coverage s : ended s → coverage_of s = CvTerminal.
Proof. intros (H & _). unfold coverage_of. by rewrite H. Qed.
Lemma frozen_refl s : ended s → frozen s s.
Proof. intros H. by split. Qed.
Lemma frozen_trans s1 s2 s3 : frozen s1 s2 → frozen s2 s3 → frozen s1 s3.
Proof. intros (_ & A2 & A3 & A4) (B1 & B2 & B3 & B4). split; [done|]. split_and!; congruence. Qed.
Lemma terminated_frozen s : frozen s (terminated s).
Proof. split; [by split|done]. Qed.

Lemma ended_recompute now s s' r :
  ended s → recompute_coverage now s = (s', r) →
  frozen s s' ∧ ∃ tr, r = Ok tr ∧ tr_closed_gap tr = None.
Proof.
  intros He. pose proof (ended_coverage _ He) as Hc. destruct He as (Ht & Hcov & H1 & H2).
  assert (ready_lanes s = 0%nat) as Hr
    by (unfold ready_lanes; cbn; unfold is_ready; by rewrite H1, H2).
  unfold recompute_coverage. cbv [mbind SE_bind get lift modify mret SE_ret].
  rewrite Hc, Hr. cbn. intros [= <- <-]. split; [by split_and!|by eexists].
Qed.

Ltac stays := simplify_eq/=; split; [assumption|reflexivity].

(** Behind a termination no call changes the gap record. *)
Lemma ended_exec op now s s' r :
  ended s → hot_exec op now s = (s', r) → frozen s s' ∧ closed_gap_of r = [].
Proof.
  intros He H. destruct (decide (now < hs_last_mono_ns s)) as [Hn|Hn].
  { destruct op; (eapply clock_regressed in H as (-> & e & ->); [|done]);
      (split; [by apply frozen_refl|done]). }
  apply Z.nlt_ge in Hn. assert (ended (set_clock now s)) as He1 by exact He.
  assert (frozen s (set_clock now s)) as Hf by (by split).
  assert (bool_decide (LsTerminal = LsReady) = false) as B1 by done.
  assert (bool_decide (LsTerminal = LsStarting) = false) as B2 by done.
  destruct op as [l t|l t|l t reason|l t| | |]; cbn [hot_exec] in H;
    unfold start_lane, mark_ready, fail_lane, retire_lane, restart_requests, advance_time, terminate in H;
    rewrite clock_advanced in H by done; set (s1 := set_clock now s) in *; clearbody s1;
    cbv [mbind SE_bind get lift reject modify mret SE_ret ok_or] in H.
  - rewrite (proj1 He1) in H. stays.
  - rewrite (ended_lane l s1 He1), ?B1, ?B2 in H. destruct (negb _) in H; stays.
  - rewrite (ended_lane l s1 He1), ?B1, ?B2 in H. destruct (is_blank reason) in H; [stays|]. destruct (negb _) in H; stays.
  - rewrite (ended_lane l s1 He1), ?B1, ?B2 in H. destruct (negb _) in H; stays.
  - stays.
  - assert (∀ x, ln_state x = LsTerminal → settle_lane (hs_config s1) now x = x) as Hsettle
      by (intros x Hx; unfold settle_lane; by rewrite Hx).
    pose proof He1 as (_ & _ & H1 & H2). cbn beta in H. rewrite (Hsettle _ H1) in H.
    replace (set_lane Primary (hs_primary s1) s1) with s1 in H by (by destruct s1).
    rewrite (Hsettle _ H2) in H. replace (set_lane Shadow (hs_shadow s1) s1) with s1 in H by (by destruct s1).
    destruct (recompute_coverage now s1) as [s2 r2] eqn:Hrec.
    destruct (ended_recompute _ _ _ _ He1 Hrec) as [Hf2 (tr & -> & Htr)]. simplify_eq.
    split; [by eapply frozen_trans|]. cbn. by rewrite Htr.
  - simplify_eq. split; [|done]. eapply frozen_trans; [exact Hf|apply terminated_frozen].
Qed.

(** The supervisor at the end of its life: with the coverage and the clock it had. *)
Definition at_end (h : hot_run) : HotRedundantSupervisor :=
  set_coverage (hr_live_coverage h) (set_clock (hr_until h) (hr_supervisor h)).
(** The books of a history, live or terminated. *)
Record booked (t0 : Z) (h : hot_run) : Prop := {
  bk_coverage : hs_coverage (hr_supervisor h) = coverage_of (hr_supervisor h);
  bk_accounted : accounted t0 (at_end h) (hr_closed h) (hr_dark_ns h);
  bk_live : hs_terminal (hr_supervisor h) = false →
    hr_live_coverage h = hs_coverage (hr_supervisor h) ∧ hr_until h = hs_last_mono_ns (hr_supervisor h);
  bk_ended : hs_terminal (hr_supervisor h) = true → ended (hr_supervisor h)
}.

Lemma accounted_eq t0 s s' closed dark :
  hs_open_gap s' = hs_open_gap s → hs_coverage s' = hs_coverage s → hs_ever_ready s' = hs_ever_ready s →
  hs_next_gap_id s' = hs_next_gap_id s → hs_last_mono_ns s' = hs_last_mono_ns s →
  accounted t0 s closed dark → accounted t0 s' closed dark.
Proof. intros E1 E2 E3 E4 E5. unfold accounted. by rewrite E1, E2, E3, E4, E5. Qed.

Lemma hot_step_booked t0 h call :
  booked t0 h → hs_next_gap_id (hr_supervisor h) < u64_max →
  booked t0 (hot_step h call) ∧
  hs_next_gap_id (hr_supervisor (hot_step h call)) ≤ hs_next_gap_id (hr_supervisor h) + 1.
Proof.
  intros [Hc Ha Hl He] Hid. set (s := hr_supervisor h) in *.
  destruct (hs_terminal s) eqn:Ht.
  { clear Hl. specialize (He eq_refl). unfold hot_step. fold s.
    destruct (hot_exec call.1 call.2 s) as [s' r] eqn:E.
    destruct (ended_exec _ _ _ _ _ He E) as [(G1 & G2 & G3 & G4) Hr]. rewrite Hr, app_nil_r, Ht.
    rewrite (proj1 (proj2 He)). cbn. rewrite Z.add_0_r, (proj1 G1). split; [|lia].
    split; cbn [hr_supervisor hr_closed hr_dark_ns hr_live_coverage hr_until].
    - by rewrite (ended_coverage _ G1), (proj1 (proj2 G1)).
    - by apply (accounted_eq t0 (at_end h)).
    - by rewrite (proj1 G1).
    - done. }
  destruct (Hl eq_refl) as [Hcov Hunt]. clear Hl He.
  assert (accounted t0 s (hr_closed h) (hr_dark_ns h)) as Has.
  { revert Ha. unfold at_end. rewrite Hcov, Hunt. by apply accounted_eq. }
  destruct (hs_terminal (hr_supervisor (hot_step h call))) eqn:Ht'.
  - unfold hot_step in *. fold s in Ht' |- *. destruct (hot_exec call.1 call.2 s) as [s' r] eqn:E.
    cbn [hr_supervisor] in Ht' |- *. rewrite Ht', Ht, Hcov.
    apply hot_exec_end in E as [(_ & -> & _)|[Hn Hend]]; [congruence|].
    assert (s' = terminated (set_clock call.2 s) ∧ closed_gap_of r = []) as [-> Hr].
    { destruct Hend as [r [(_ & _ & _ & _ & E & _) _] _|s2 tr (_ & _ & _ & _ & E & _) Hrec
        |s2 e r (_ & _ & _ & _ & E & _) Hrec|tr -> Htr].
      - cbn in E. congruence.
      - apply recompute_terminal in Hrec. cbn in E. congruence.
      - apply recompute_terminal in Hrec. cbn in E. congruence.
      - split; [done|]. cbn. by rewrite Htr. }
    rewrite Hr, app_nil_r. split; [|cbn; lia]. split; cbn [hr_supervisor]; [done| |done|by intros _].
    apply (accounted_clock t0 call.2 s) in Has; [|done]. revert Has. by apply accounted_eq.
  - assert (hs_terminal s = false) as Ht2 by done.
    destruct (hot_step_accounted t0 h call) as (Ha1 & Hc1 & Hi1); [done..|].
    split; [|done]. split; [done| |intros _|by rewrite Ht'].
    + revert Ha1. unfold at_end, hot_step in *. fold s in Ht' |- *.
      destruct (hot_exec call.1 call.2 s) as [s' r]. cbn [hr_supervisor hr_closed hr_dark_ns hr_live_coverage hr_until] in *.
      rewrite Ht', Ht. by apply accounted_eq.
    + unfold hot_step in *. fold s in Ht' |- *. destruct (hot_exec call.1 call.2 s) as [s' r].
      cbn [hr_supervisor hr_live_coverage hr_until] in *. by rewrite Ht', Ht.
Qed.

Lemma run_hot_booked t0 calls h :
  booked t0 h → hs_next_gap_id (hr_supervisor h) + len calls ≤ u64_max → booked t0 (foldl hot_step h calls).
Proof.
  revert h. induction calls as [|call calls IH]; intros h Hb Hid; [done|].
  rewrite len_cons in Hid. pose proof (len_nonneg calls). cbn [foldl].
  destruct (hot_step_booked t0 h call Hb) as [Hb' Hi]; [lia|]. apply IH; [done|lia].
Qed.

(** C29: the gap record is exact. In every history of calls on the supervisor of
    two lanes, failed calls, clock regressions and terminations included, the
    coverage is the one the lane states give. Up to the termination, or up to now
    where there was none, a gap is open exactly while no lane is ready after the
    first readiness, the closed gaps are numbered without a hole and follow each
    other without overlap, and their lengths with the running gap add up to the time
    the history spent in GAP. A termination closes nothing: a gap that is open then
    stays open, with the number behind the closed ones. *)
Theorem gap_accounting_exact config t0 s0 calls h :
  supervisor_new config t0 = Ok s0 → len calls ≤ u64_max → run_hot calls s0 = h →
  let s := hr_supervisor h in
  hs_coverage s = coverage_of s ∧
  (hs_terminal s = false → hr_live_coverage h = hs_coverage s ∧ hr_until h = hs_last_mono_ns s) ∧
  (is_Some (hs_open_gap s) ↔ hr_live_coverage h = CvGap) ∧
  map gp_gap_id (hr_closed h) = seqZ 0 (len (hr_closed h)) ∧
  (∀ g, hs_open_gap s = Some g → gp_gap_id g = len (hr_closed h) ∧ gp_opened_mono_ns g ≤ hr_until h) ∧
  gaps_between t0 (hr_closed h) (from_option gp_opened_mono_ns (hr_until h) (hs_open_gap s)) ∧
  hr_dark_ns h = total_ns (hr_closed h)
    + from_option (λ g, hr_until h - gp_opened_mono_ns g) 0 (hs_open_gap s).
Proof.
  intros Hnew Hlen Hrun s. unfold supervisor_new in Hnew. apply res_bind_Ok in Hnew as ([] & _ & [= <-]).
  assert (booked t0 h) as [Hc (H1 & _ & _ & H4 & H5) Hl _].
  { subst h. apply run_hot_booked; [|cbn; lia].
    split; [done| |done|done]. split_and!; cbn; try done. }
  clear Hrun. change (hs_open_gap (at_end h)) with (hs_open_gap s) in H1, H5.
  change (hs_last_mono_ns (at_end h)) with (hr_until h) in H5.
  split_and!; [done|done|done|done|..]; destruct (hs_open_gap s) as [g|]; cbn.
  - intros ? [= <-]. tauto.
  - done.
  - tauto.
  - tauto.
  - destruct H5 as (_ & _ & _ & _ & ->). lia.
  - destruct H5 as (_ & _ & ->). lia.
Qed.

(** ** Backoff *)

(** The ranges of the configuration's integer types. *)
Definition config_typed (c : HotRedundancyConfig) : Prop :=
  in_u64 (cfg_backoff_initial_ns c) ∧ in_u64 (cfg_backoff_max_ns c) ∧
  in_u64 (cfg_jitter_max_ns c).

Lemma shl_one_pos shift : 0 ≤ shift ≤ 63 → 1 ≤ shl_one shift.
Proof.
  intros H. unfold shl_one. rewrite (proj2 (Z.ltb_lt _ _)) by lia.
  change u64_max with (Z.ones 64). rewrite Z.land_ones, Z.shiftl_1_l by lia.
  rewrite Z.mod_small; [pose proof (Z.pow_pos_nonneg 2 shift); lia|].
  split; [apply Z.pow_nonneg; lia|apply Z.pow_lt_mono_r; lia].
Qed.

Lemma reconnect_delay_bounds c l attempt failures t :
  config_typed c → config_validate c = Ok () → 0 ≤ failures →
  cfg_backoff_initial_ns c ≤ reconnect_delay_ns c l attempt failures t ≤ cfg_backoff_max_ns c.
Proof.
  intros (Hi & Hm & Hj) Hv Hf. unfold config_validate in Hv.
  apply res_bind_Ok in Hv as ([] & Hv%reject_Ok & _). split_orb. unfold in_u64 in *.
  repeat match goal with E : (_ <? _) = false |- _ => apply Z.ltb_ge in E end.
  unfold reconnect_delay_ns. set (m := shl_one _).
  assert (1 ≤ m) as Hm1 by (apply shl_one_pos; unfold saturating_sub; lia).
  assert (cfg_backoff_initial_ns c ≤ saturating_mul (cfg_backoff_initial_ns c) m) as Hb
    by (unfold saturating_mul; nia).
  destruct (cfg_jitter_max_ns c =? 0); [lia|].
  match goal with |- context [?a mod ?b] => assert (0 ≤ a mod b) as Hj0; [|set (j := a mod b) in *] end.
  { apply Z.mod_pos_bound. unfold saturating_add. unfold u64_max in *. lia. }
  clearbody j. unfold saturating_add. lia.
Qed.

Lemma recompute_ok now s :
  hs_next_gap_id s < u64_max → is_ok (recompute_coverage now s).2 = true.
Proof.
  intros H. unfold recompute_coverage. cbv [mbind SE_bind get lift modify mret SE_ret ok_or].
  destruct (_ && _); [by rewrite checked_add_fits by lia|].
  destruct (negb _); [|done]. by destruct (hs_open_gap s).
Qed.

Lemma recompute_frame now s s' r :
  recompute_coverage now s = (s', r) →
  (∀ l, lane l s' = lane l s) ∧ hs_config s' = hs_config s ∧
  hs_used_run_tokens s' = hs_used_run_tokens s ∧ hs_last_mono_ns s' = hs_last_mono_ns s ∧
  hs_next_gap_id s' ≤ hs_next_gap_id s + 1.
Proof.
  unfold recompute_coverage. cbv [mbind SE_bind get lift modify mret SE_ret ok_or].
  destruct (_ && _).
  - destruct (checked_add _ _) as [n|] eqn:E; intros [= <- <-]; [|(split_and!; try done; cbn; lia)].
    apply checked_add_Some in E as [_ ->]. (split_and!; try done; cbn; lia).
  - destruct (negb _); [|intros [= <- <-]; (split_and!; try done; cbn; lia)].
    destruct (hs_open_gap s); intros [= <- <-]; (split_and!; try done; cbn; lia).
Qed.

(** A lane in backoff starts, with a fresh token, exactly when its deadline
    has passed and its breaker lets it. *)
Lemma start_lane_ok l t now s deadline :
  hs_last_mono_ns s ≤ now → hs_terminal s = false → is_blank t = false →
  t ∉ hs_used_run_tokens s → ln_state (lane l s) = LsBackoff →
  ln_restart_not_before_mono_ns (lane l s) = Some deadline →
  ln_launch_attempt (lane l s) < u64_max → hs_next_gap_id s < u64_max →
  is_ok (start_lane l t now s).2 =
  (deadline <=? now) && negb (circuit_blocked (hs_config s) (lane l s) now).
Proof.
  intros Hn Ht Hb Hf Hs Hd Ha Hg. unfold start_lane, advance_clock.
  cbv [mbind SE_bind get lift reject modify ok_or mret SE_ret].
  rewrite (proj2 (Z.ltb_ge _ _)) by done.
  change (hs_terminal (set_clock now s)) with (hs_terminal s).
  change (lane l (set_clock now s)) with (lane l s).
  change (hs_used_run_tokens (set_clock now s)) with (hs_used_run_tokens s).
  change (hs_config (set_clock now s)) with (hs_config s).
  rewrite Ht, Hb, bool_decide_eq_false_2 by done. cbn [orb].
  rewrite Hs, Hd. cbn [bool_decide]. rewrite orb_true_r. cbn [negb].
  rewrite Z.ltb_antisym. destruct (deadline <=? now); [|done]. cbn [negb andb].
  destruct (circuit_blocked _ _ _); [done|]. rewrite checked_add_fits by lia.
  by apply recompute_ok.
Qed.

Lemma restart_request_lane c now l l' x :
  l ∈ map rq_lane (restart_request c now l' x) ↔
  l = l' ∧ ln_state x = LsBackoff ∧
  (∃ d, ln_restart_not_before_mono_ns x = Some d ∧ d ≤ now) ∧ circuit_blocked c x now = false.
Proof.
  unfold restart_request. destruct (_ && _) eqn:E; cbn.
  - rewrite list_elem_of_singleton. split_orb.
    repeat match goal with H : bool_decide _ = true |- _ => apply bool_decide_eq_true in H end.
    destruct (ln_restart_not_before_mono_ns x) as [d|]; [|done]. split; [|naive_solver].
    intros ->. split_and!; [done..| |done]. exists d. split; [done|lia].
  - split; [by rewrite elem_of_nil|]. intros (_ & Hs & (d & Hd & Hle) & Hb).
    rewrite Hs, Hd, Hb in E. cbn in E.
    rewrite (proj2 (Z.leb_le _ _)) in E by done. done.
Qed.

(** A failed lane restarts exactly when it may. After a failure at [now],
    the lane's deadline lies between [now] plus the initial backoff and [now]
    plus the maximum (capped at [u64::MAX]); a later [restart_requests] names
    the lane, and a [start_lane] with a fresh token succeeds, exactly when the
    deadline has passed and the breaker does not block; and the breaker that a
    failed half-open probe opened blocks for exactly the cooldown. *)
Theorem failed_lane_restart_timing l run_token reason now s s1 tr :
  config_typed (hs_config s) → config_validate (hs_config s) = Ok () → in_u64 now →
  0 ≤ ln_consecutive_failures (lane l s) → hs_terminal s = false →
  ln_launch_attempt (lane l s) < u64_max → hs_next_gap_id s < u64_max - 1 →
  fail_lane l run_token reason now s = (s1, Ok tr) →
  ∃ deadline, ln_restart_not_before_mono_ns (lane l s1) = Some deadline ∧
    Z.min (now + cfg_backoff_initial_ns (hs_config s)) u64_max ≤ deadline
      ≤ Z.min (now + cfg_backoff_max_ns (hs_config s)) u64_max ∧
    (ln_circuit_state (lane l s) = CsHalfOpen → 0 < cfg_circuit_failure_threshold (hs_config s) →
     ∀ t, now ≤ t → circuit_blocked (hs_config s) (lane l s1) t
                    = (t <? now + cfg_circuit_reset_cooldown_ns (hs_config s))) ∧
    ∀ t fresh, now ≤ t → fresh ∉ hs_used_run_tokens s1 → is_blank fresh = false →
      let may := deadline ≤ t ∧ circuit_blocked (hs_config s) (lane l s1) t = false in
      (is_ok (start_lane l fresh t s1).2 = true ↔ may) ∧
      ∃ s2 requests, restart_requests t s1 = (s2, Ok requests) ∧
        (l ∈ map rq_lane requests ↔ may).
Proof.
  intros Hct Hcv Hnow Hf Ht Hatt Hgap H. unfold fail_lane, advance_clock in H.
  cbv [mbind SE_bind get lift reject modify] in H.
  destruct (now <? hs_last_mono_ns s) eqn:Hclk; [done|]. destruct (is_blank reason); [done|].
  destruct (negb _); [done|]. destruct (negb _); [done|].
  change (hs_config (set_clock now s)) with (hs_config s) in H.
  change (lane l (set_clock now s)) with (lane l s) in H.
  set (failures := Z.min _ _) in H.
  destruct (failed_circuit _ _ _ _) as [circuit opened] eqn:Hcirc.
  set (delay := reconnect_delay_ns _ _ _ _ _) in H.
  assert (cfg_backoff_initial_ns (hs_config s) ≤ delay ≤ cfg_backoff_max_ns (hs_config s)) as Hdel
    by (apply reconnect_delay_bounds; [done..|unfold failures, u32_max; lia]).
  set (x := mkLane _ _ _ _ _ _ _ _ _ _ _) in H.
  pose proof (recompute_terminal _ _ _ _ H) as Ht1.
  apply recompute_frame in H as (Hl1 & Hc1 & Hu1 & Hm1 & Hg1).
  assert (lane l s1 = x) as Hx by (rewrite Hl1; by destruct l). clear Hl1.
  change (hs_config (set_lane l x (set_clock now s))) with (hs_config s) in Hc1.
  change (hs_terminal (set_lane l x (set_clock now s))) with (hs_terminal s) in Ht1.
  change (hs_last_mono_ns (set_lane l x (set_clock now s))) with now in Hm1.
  change (hs_next_gap_id (set_lane l x (set_clock now s))) with (hs_next_gap_id s) in Hg1.
  exists (saturating_add now delay). rewrite Hx. unfold in_u64, saturating_add in *.
  split_and!; [done|lia|lia| |].
  - intros Hh Hthr t Hnt. unfold failed_circuit in Hcirc.
    rewrite (proj2 (Z.ltb_lt _ _)), Hh in Hcirc by done. cbn in Hcirc. injection Hcirc as <- <-.
    unfold circuit_blocked, x, saturating_sub. cbn [ln_circuit_state ln_circuit_open_mono_ns].
    rewrite bool_decide_eq_true_2 by done. cbn [andb].
    destruct (_ <? _) eqn:E1, (_ <? _) eqn:E2; try done; lia.
  - intros t fresh Hnt Hfr Hbl. split.
    + rewrite (start_lane_ok l fresh t s1 (saturating_add now delay)), Hc1, Hx;
        [|lia|congruence|done|done|by rewrite Hx|by rewrite Hx|by rewrite Hx|lia].
      unfold saturating_add. rewrite andb_true_iff, negb_true_iff, Z.leb_le. done.
    + unfold restart_requests, advance_clock.
      cbv [mbind SE_bind get lift reject modify mret SE_ret].
      rewrite (proj2 (Z.ltb_ge _ _)) by lia. eexists _, _. split; [done|].
      change (hs_terminal (set_clock t s1)) with (hs_terminal s1). rewrite Ht1, Ht.
      change (hs_config (set_clock t s1)) with (hs_config s1). rewrite Hc1.
      unfold ALL_LANES. cbn [mbind list_bind]. rewrite app_nil_r, map_app, elem_of_app.
      rewrite !restart_request_lane.
      change (lane Primary (set_clock t s1)) with (lane Primary s1).
      change (lane Shadow (set_clock t s1)) with (lane Shadow s1).
      assert ((∃ d, ln_restart_not_before_mono_ns x = Some d ∧ d ≤ t)
              ↔ Z.min (now + delay) u64_max ≤ t) as Hd.
      { split; [by intros (d & [= <-] & ?)|]. intros ?. by eexists. }
      change (Z.min (now + delay) u64_max) with (saturating_add now delay) in *.
      assert (ln_state x = LsBackoff) by done.
      destruct l; rewrite Hx, Hd; naive_solver.
Qed.
End hot.

(** ** A concrete session *)

Module HotDemo.
#[export] Existing Instance toy_sha256.

Definition config : HotRedundancyConfig := mkHotConfig 100 1000 50 5000 2 700.
Definition new : HotRedundantSupervisor :=
  mkSupervisor config (lane_absent Primary) (lane_absent Shadow) ∅ CvStarting false None 0 10 false.
(** Both lanes up, both lost, one back, lost again. *)
Definition calls : list (hot_op * Z) :=
  [(HoStart Primary "p1", 11); (HoStart Shadow "s1", 12); (HoReady Primary "p1", 20);
   (HoReady Shadow "s1", 25); (HoFail Primary "p1" "reset", 30); (HoFail Shadow "s1" "reset", 40);
   (HoStart Primary "p2", 60); (HoStart Primary "p3", 400); (HoReady Primary "p3", 440);
   (HoFail Primary "p3" "reset", 500); (HoAdvance, 520)].
Definition session : hot_run := Eval vm_compute in run_hot calls new.
(** The end of the session in the middle of a gap, and a call behind it. *)
Definition ending : list (hot_op * Z) := calls ++ [(HoTerminate, 560); (HoAdvance, 600)].
Definition ended_session : hot_run := Eval vm_compute in run_hot ending new.

(** The second failure of the primary lane opened its breaker; the probe at
    1500 fails at 1600. *)
Definition probing : HotRedundantSupervisor :=
  Eval vm_compute in hr_supervisor (run_hot (calls ++ [(HoStart Primary "p4", 1500)]) new).
End HotDemo.

Section hot_witnesses.
Import HotDemo.

Lemma gap_accounting_exact_witness :
  length (hr_closed ended_session) = 1%nat ∧ is_Some (hs_open_gap (hr_supervisor ended_session)) ∧
  hs_coverage (hr_supervisor ended_session) = CvTerminal ∧ hr_live_coverage ended_session = CvGap ∧
  hr_until ended_session = 560 ∧ hr_dark_ns ended_session = 460 ∧
  hr_dark_ns ended_session = total_ns (hr_closed ended_session)
    + from_option (λ g, hr_until ended_session - gp_opened_mono_ns g) 0
        (hs_open_gap (hr_supervisor ended_session)).
Proof.
  split; [reflexivity|]. split; [by eexists|]. do 4 (split; [reflexivity|]).
  apply (gap_accounting_exact config 10 new ending ended_session);
    [reflexivity|vm_compute; congruence|vm_compute; reflexivity].
Defined.

Lemma failed_lane_restart_timing_witness :
  ∃ s1 tr deadline, fail_lane Primary "p4" "reset" 1600 probing = (s1, Ok tr) ∧
    ln_restart_not_before_mono_ns (lane Primary s1) = Some deadline ∧
    1700 ≤ deadline ≤ 2600 ∧
    ∀ t, 1600 ≤ t → circuit_blocked config (lane Primary s1) t = (t <? 2300).
Proof.
  destruct (fail_lane Primary "p4" "reset" 1600 probing) as [s1 r] eqn:E.
  assert (∃ tr, r = Ok tr) as [tr ->] by (revert E; vm_compute; intros [= _ <-]; by eexists).
  destruct (failed_lane_restart_timing Primary "p4" "reset" 1600 probing s1 tr)
    as (deadline & Hd & Hb & Hc & _);
    [vm_compute; intuition congruence|reflexivity|vm_compute; intuition congruence
    |vm_compute; congruence|reflexivity|reflexivity|reflexivity|exact E|].
  exists s1, tr, deadline. split; [reflexivity|]. split; [exact Hd|].
  split; [exact Hb|]. intros t Ht. exact (Hc eq_refl eq_refl t Ht).
Defined.
End hot_witnesses.
