(* ===== verification/DurabilityProgress.v ===== *)
(** * Durability progress (durability_progress.rs)

    The progress journal publishes the acknowledgements of a raw log, one JSON
    line each, hash-chained and strictly increasing. Readers use it to freeze
    the durable prefix of the raw log, to read what one acknowledgement added
    to another, and to find the place of a published observation again. Files
    are their bytes; creating files and resolving paths is left out. *)

From stdpp Require Import base list strings option numbers gmap.
From Stdlib Require Import ZArith Lia Ascii Strings.Byte Sorting.Sorted.
From S2P Require Import Prelude External RawLog RawLogSafety Boundary.
Local Open Scope Z_scope.

(** ** Data *)

Record ProgressBodyV1 := mkProgressBody {
  pg_schema : string; pg_record_index : Z; pg_raw_path : string; pg_ack : DurabilityAckV1;
  pg_previous_record_sha256 : string
}.
#[global] Instance progress_body_eq_decision : EqDecision ProgressBodyV1.
Proof. solve_decision. Defined.
Record ProgressEnvelopeV1 := mkProgressEnvelope {
  pe_body : ProgressBodyV1; pe_record_sha256 : string
}.
#[global] Instance progress_envelope_eq_decision : EqDecision ProgressEnvelopeV1.
Proof. solve_decision. Defined.

Record DurabilityProgressScanV1 := mkProgressScan {
  px_records : Z; px_clean_eof : bool; px_reason : option string;
  px_latest_ack : option DurabilityAckV1; px_last_record_sha256 : string;
  px_acknowledgements : list DurabilityAckV1
}.

Record DurabilityProgressWriter (S : Type) := mkProgressWriter {
  pw_file : S; pw_raw_path : string; pw_record_count : Z; pw_previous_digest : string;
  pw_latest_ack : option DurabilityAckV1; pw_poisoned : bool
}.
Arguments mkProgressWriter {S}.
Arguments pw_file {S}. Arguments pw_raw_path {S}. Arguments pw_record_count {S}.
Arguments pw_previous_digest {S}. Arguments pw_latest_ack {S}. Arguments pw_poisoned {S}.

(** ** Validation *)

Definition validate_ack (ack : DurabilityAckV1) : res unit :=
  reject (negb (String.eqb (ack_schema ack) "DurabilityAckV1")
          || (ack_durable_record_count ack =? 0) || (ack_durable_through_offset ack =? 0)
          || negb (String.length (ack_last_record_sha256 ack) =? 64)%nat
          || negb (forallb is_hexdigit (str_chars (ack_last_record_sha256 ack)))
          || negb (length (ack_streams ack) =? 1)%nat) "invalid durability ACK".

(** [s.trim() != s]: a white-space character at the front or at the end. *)
Definition leading_space (l : chars) : bool :=
  match l with
  | a :: b :: c :: _ => ws1 (code a) || ws2 (code a) (code b) || ws3 (code a) (code b) (code c)
  | a :: b :: _ => ws1 (code a) || ws2 (code a) (code b)
  | a :: _ => ws1 (code a)
  | [] => false
  end.
Definition trailing_space (l : chars) : bool :=
  match rev l with
  | c :: b :: a :: _ => ws1 (code c) || ws2 (code b) (code c) || ws3 (code a) (code b) (code c)
  | c :: b :: _ => ws1 (code c) || ws2 (code b) (code c)
  | c :: _ => ws1 (code c)
  | [] => false
  end.

(** [Path::components] of a path without backslash and colon: the pieces
    between slashes; empty pieces and dots after the first piece are skipped. *)
Inductive path_component := RootDir | CurDir | ParentDir | Normal (s : string).

Fixpoint split_slash (l : chars) (cur : chars) : list chars :=
  match l with
  | [] => [rev cur]
  | c :: l => if code c =? 47 then rev cur :: split_slash l [] else split_slash l (c :: cur)
  end.
Definition later_component (piece : chars) : option path_component :=
  let s := str_of piece in
  if String.eqb s "" || String.eqb s "." then None
  else if String.eqb s ".." then Some ParentDir else Some (Normal s).
Definition path_components (s : string) : list path_component :=
  match split_slash (str_chars s) [] with
  | [] => []
  | first :: rest =>
      (if String.eqb (str_of first) "" then (if bool_decide (rest = []) then [] else [RootDir])
       else if String.eqb (str_of first) "." then [CurDir]
       else option_list (later_component first))
      ++ omap later_component rest
  end.

Definition is_normal (c : path_component) : bool :=
  match c with Normal _ => true | _ => false end.

(** The absolute-path test of the code only repeats what a leading slash gives
    in the loop over the components, with another message. *)
Definition validate_portable_raw_reference (raw_reference : string) : res unit :=
  let l := str_chars raw_reference in
  _ ← reject (String.eqb raw_reference "" || leading_space l || trailing_space l
              || existsb (λ c, (code c =? 92) || (code c =? 58) || (code c =? 0)) l)
        "raw reference must be a portable safe relative path";
  let components := path_components raw_reference in
  _ ← reject (match components with RootDir :: _ => true | _ => false end)
        "raw reference must be a portable safe relative path";
  _ ← reject (negb (forallb is_normal components))
        "raw reference must contain only normal path components";
  reject (bool_decide (components = [])) "raw reference must contain a file path".

Section progress.
Context `{Hsha : Sha256} `{Hpb : Serde ProgressBodyV1} `{Hpe : Serde ProgressEnvelopeV1}.

(** ** The writer *)
Section progress_writer.
Context {S : Type} `{Hsink : DurableSink S}.

(** [create_with_raw_identity], given the created file *)
Definition progress_writer_new (file : S) (raw_identity : string) : DurabilityProgressWriter S :=
  mkProgressWriter file raw_identity 0 ZERO_DIGEST None false.

(** [ack] does not advance on [previous] in both count and offset. *)
Definition not_advancing (previous : option DurabilityAckV1) (ack : DurabilityAckV1) : bool :=
  match previous with
  | Some old => (ack_durable_record_count ack <=? ack_durable_record_count old)
                || (ack_durable_through_offset ack <=? ack_durable_through_offset old)
  | None => false
  end.

Definition progress_append (ack : DurabilityAckV1) : SE (DurabilityProgressWriter S) unit :=
  w ← get;
  lift (reject (pw_poisoned w) "durability progress writer is poisoned");;
  lift (validate_ack ack);;
  lift (reject (not_advancing (pw_latest_ack w) ack)
          "durability progress must advance record count and offset");;
  let body := mkProgressBody "RawDurabilityProgressV1" (pw_record_count w) (pw_raw_path w) ack
                (pw_previous_digest w) in
  body_bytes ← lift (map_err "serialize durability progress: " (to_vec body));
  let digest := hex (sha256 body_bytes) in
  encoded ← lift (map_err "serialize progress envelope: "
                    (to_vec (mkProgressEnvelope body digest)));
  let '(s, r) := write_flush_sync (encoded ++ [x0a]) (pw_file w) in
  match r with
  | inl error =>
      put (mkProgressWriter s (pw_raw_path w) (pw_record_count w) (pw_previous_digest w)
             (pw_latest_ack w) true);;
      throw ("sync durability progress; writer poisoned: " ++ error)
  | inr _ =>
      put (mkProgressWriter s (pw_raw_path w) (pw_record_count w) (pw_previous_digest w)
             (pw_latest_ack w) false);;
      record_count ← lift (add_u64 (pw_record_count w) 1);
      put (mkProgressWriter s (pw_raw_path w) record_count digest (Some ack) false)
  end.
End progress_writer.

(** ** The scan *)

Record progress_state := mkProgressState {
  pt_records : Z; pt_previous : string; pt_acks : list DurabilityAckV1; pt_reason : option string
}.
Definition stop_progress (reason : string) (st : progress_state) : progress_state :=
  mkProgressState (pt_records st) (pt_previous st) (pt_acks st) (Some reason).

(** The loop of [scan_durability_progress]; a turn consumes a line, so
    [S (length input)] turns are enough ([progress_loop_sound]). *)
Fixpoint progress_loop (fuel : nat) (input : bytes) (st : progress_state) : res progress_state :=
  match fuel with
  | O => Panic
  | Datatypes.S fuel =>
    if bool_decide (input = []) then Ok st else
    match split_line input with
    | None => Ok (stop_progress "partial durability progress tail" st)
    | Some (line, rest) =>
        match from_slice line with
        | inl error => Ok (stop_progress ("invalid durability progress JSON: " ++ error) st)
        | inr envelope =>
            let body := pe_body envelope in
            body_bytes ← map_err "reserialize durability progress: " (to_vec body);
            let digest := hex (sha256 body_bytes) in
            if negb (String.eqb (pg_schema body) "RawDurabilityProgressV1")
               || negb (pg_record_index body =? pt_records st)
               || negb (String.eqb (pg_previous_record_sha256 body) (pt_previous st))
               || negb (String.eqb (pe_record_sha256 envelope) digest)
               || negb (is_ok (validate_ack (pg_ack body)))
            then Ok (stop_progress "invalid durability progress chain/record" st)
            else if not_advancing (last (pt_acks st)) (pg_ack body)
            then Ok (stop_progress "non-monotonic durability progress" st)
            else
              records ← add_u64 (pt_records st) 1;
              progress_loop fuel rest
                (mkProgressState records digest (pt_acks st ++ [pg_ack body]) (pt_reason st))
        end
    end
  end.

(** [latest_ack] is the last element of [acknowledgements]. *)
Definition scan_durability_progress (file : bytes) : res DurabilityProgressScanV1 :=
  st ← progress_loop (Datatypes.S (length file)) file (mkProgressState 0 ZERO_DIGEST [] None);
  Ok (mkProgressScan (pt_records st) (negb (bool_decide (is_Some (pt_reason st)))) (pt_reason st)
        (last (pt_acks st)) (pt_previous st) (pt_acks st)).
End progress.

(** ** Reading the raw log by acknowledgements *)
Section raw_readers.
Context `{Hsha : Sha256} `{Hval : SerdeValue} `{Hb64 : Base64}.

(** The record an acknowledgement must end on. *)
Definition ack_ends_on (ack : DurabilityAckV1) (last_record : RawRecordEnvelopeV1) : bool :=
  (re_end_offset last_record =? ack_durable_through_offset ack)
  && String.eqb (re_record_sha256 last_record) (ack_last_record_sha256 ack)
  && match ack_streams ack with
     | [stream] =>
         String.eqb (wm_connection_epoch stream) (rf_connection_epoch (re_frame last_record))
         && String.eqb (wm_stream stream) (rf_stream (re_frame last_record))
         && (wm_durable_through_frame_index stream =? rf_frame_index (re_frame last_record))
     | _ => false
     end.

Definition verify_progress_against_raw (scan : DurabilityProgressScanV1) (raw : bytes)
    : res DurabilityAckV1 :=
  ack ← ok_or (px_latest_ack scan) "durability progress has no complete ACK";
  records ← read_raw_records raw;
  let count := Z.to_nat (ack_durable_record_count ack) in
  _ ← reject ((count =? 0)%nat || (length records <? count)%nat)
        "raw file does not contain the durable progress prefix";
  last_record ← expect (records !! (count - 1)%nat);
  _ ← reject (negb (ack_ends_on ack last_record))
        "durability progress does not match the exact raw prefix";
  Ok ack.

(** The file written is returned beside the code's result. *)
Definition freeze_durable_raw_prefix (scan : DurabilityProgressScanV1) (raw : bytes)
    : res (DurabilityAckV1 * bytes) :=
  ack ← ok_or (px_latest_ack scan) "durability progress has no complete ACK";
  _ ← reject (len raw <? ack_durable_through_offset ack)
        "live raw is shorter than its durable watermark";
  let destination := take (Z.to_nat (ack_durable_through_offset ack)) raw in
  _ ← reject (negb (len destination =? ack_durable_through_offset ack))
        "short copy while freezing durable raw prefix";
  frozen ← read_raw_records destination;
  let count := Z.to_nat (ack_durable_record_count ack) in
  last_record ← ok_or (last frozen) "frozen durable prefix has no records";
  _ ← reject (negb (length frozen =? count)%nat || negb (ack_ends_on ack last_record))
        "frozen raw prefix does not match durability progress";
  Ok (ack, destination).

Definition read_durable_raw_delta (raw : bytes) (previous next : DurabilityAckV1)
    : res (list RawRecordEnvelopeV1) :=
  _ ← validate_ack previous;
  _ ← validate_ack next;
  old ← expect (ack_streams previous !! 0%nat);
  new ← expect (ack_streams next !! 0%nat);
  _ ← reject (negb (String.eqb (wm_connection_epoch old) (wm_connection_epoch new))
      || negb (String.eqb (wm_stream old) (wm_stream new))
      || (ack_durable_record_count next <=? ack_durable_record_count previous)
      || (ack_durable_through_offset next <=? ack_durable_through_offset previous)
      || (wm_durable_through_frame_index new <=? wm_durable_through_frame_index old))
      "durability delta does not strictly continue one raw stream";
  next_frame ← ok_or (checked_add (wm_durable_through_frame_index old) 1)
    "durability frame index overflow";
  records ← read_raw_record_range raw (ack_durable_through_offset previous)
    (ack_durable_through_offset next) (ack_last_record_sha256 previous)
    (wm_connection_epoch old) (wm_stream old) next_frame;
  expected_count ← sub_u64 (ack_durable_record_count next) (ack_durable_record_count previous);
  last_record ← ok_or (last records) "durability delta produced no records";
  _ ← reject (negb (len records =? expected_count)
      || negb (String.eqb (re_record_sha256 last_record) (ack_last_record_sha256 next))
      || negb (rf_frame_index (re_frame last_record) =? wm_durable_through_frame_index new)
      || negb (String.eqb (rf_connection_epoch (re_frame last_record)) (wm_connection_epoch new))
      || negb (String.eqb (rf_stream (re_frame last_record)) (wm_stream new)))
      "durability delta does not match its terminal ACK";
  Ok records.

(** The record a canonical observation was derived from. *)
Definition lineage_matches (o : CanonicalObservationV1) (r : RawRecordEnvelopeV1) : bool :=
  String.eqb (rf_connection_epoch (re_frame r)) (co_connection_epoch o)
  && String.eqb (rf_stream (re_frame r)) (co_stream o)
  && (rf_frame_index (re_frame r) =? co_frame_index o)
  && String.eqb (re_record_sha256 r) (co_record_sha256 o).

Definition durable_cursor_at_observation (raw : bytes) (terminal : DurabilityAckV1)
    (o : CanonicalObservationV1) : res DurabilityAckV1 :=
  _ ← validate_ack terminal;
  terminal_stream ← expect (ack_streams terminal !! 0%nat);
  _ ← reject (negb (String.eqb (co_connection_epoch o) (wm_connection_epoch terminal_stream))
      || negb (String.eqb (co_stream o) (wm_stream terminal_stream))
      || (wm_durable_through_frame_index terminal_stream <? co_frame_index o))
      "canonical observation is outside the durable raw stream";
  records ← read_raw_records_through_offset raw (ack_durable_through_offset terminal);
  _ ← reject (negb (len records =? ack_durable_record_count terminal))
        "terminal ACK count differs from durable raw prefix";
  terminal_record ← ok_or (last records) "durable raw prefix is empty";
  _ ← reject (negb (String.eqb (re_record_sha256 terminal_record) (ack_last_record_sha256 terminal))
      || negb (re_end_offset terminal_record =? ack_durable_through_offset terminal))
      "terminal ACK differs from durable raw prefix";
  let matches := List.filter (lineage_matches o) records in
  record ← ok_or (head matches) "canonical observation lineage is absent from durable raw";
  _ ← reject (1 <? length matches)%nat
        "canonical observation lineage is not unique in durable raw";
  count ← add_u64 (re_record_index record) 1;
  Ok (mkAck "DurabilityAckV1" count (re_end_offset record) (re_record_sha256 record)
        [mkWatermark (rf_connection_epoch (re_frame record)) (rf_stream (re_frame record))
           (rf_frame_index (re_frame record))]).
End raw_readers.

(** ** Theory of the journal *)

Definition advancing (a b : DurabilityAckV1) : Prop :=
  ack_durable_record_count a < ack_durable_record_count b ∧
  ack_durable_through_offset a < ack_durable_through_offset b.
#[global] Instance advancing_transitive : Transitive advancing.
Proof. intros a b c [??] [??]. split; lia. Qed.

Lemma not_advancing_false acks ack :
  not_advancing (last acks) ack = false → StronglySorted advancing acks →
  StronglySorted advancing (acks ++ [ack]).
Proof.
  intros H Hs. destruct (last acks) as [old|] eqn:Hl.
  2: { apply last_None in Hl as ->. apply SSorted_cons; constructor. }
  apply last_Some in Hl as [l ->]. cbn in H. apply orb_false_iff in H as [H1 H2].
  assert (advancing old ack) as Ha by (split; lia). clear H1 H2.
  induction l as [|x l IH]; cbn in *.
  - constructor; [by apply SSorted_cons; constructor|by apply Forall_singleton].
  - apply StronglySorted_inv in Hs as [Hs HF]. constructor; [by apply IH|].
    apply Forall_app. split; [done|]. apply Forall_singleton.
    apply Forall_app in HF as [_ HF]. apply Forall_inv in HF. by transitivity old.
Qed.

Lemma validate_ack_nopanic ack : validate_ack ack ≠ Panic.
Proof. apply reject_nopanic. Qed.
#[export] Hint Resolve validate_ack_nopanic : nopanic.

Section progress_theory.
Context `{Hsha : Sha256} `{Hpb : Serde ProgressBodyV1} `{Hpe : Serde ProgressEnvelopeV1}.
Context `{!SerdeTotal ProgressBodyV1 Hpb}.

(** The scan is total, extends what it has, and keeps the order. *)
Lemma progress_loop_sound fuel input st :
  (length input < fuel)%nat → 0 ≤ pt_records st → pt_records st + len input ≤ u64_max →
  StronglySorted advancing (pt_acks st) →
  ∃ st' more, progress_loop fuel input st = Ok st' ∧ pt_acks st' = pt_acks st ++ more ∧
    StronglySorted advancing (pt_acks st').
Proof.
  revert input st. induction fuel as [|fuel IH]; intros input st Hf Hr Hmax Hs; [lia|].
  cbn [progress_loop].
  assert (∀ reason, ∃ st' more, Ok (stop_progress reason st) = Ok st' ∧
    pt_acks st' = pt_acks st ++ more ∧ StronglySorted advancing (pt_acks st')) as Hstop.
  { intros reason. eexists _, []. by rewrite app_nil_r. }
  case_bool_decide; [eexists _, []; by rewrite app_nil_r|].
  destruct (split_line input) as [[line rest]|] eqn:Hl; [|by apply Hstop].
  apply split_line_inv in Hl as ->. rewrite len_app, len_cons in Hmax.
  rewrite length_app in Hf. cbn [length] in Hf. pose proof (len_nonneg line). pose proof (len_nonneg rest).
  destruct (from_slice line) as [e|envelope]; [by apply Hstop|].
  destruct (to_vec_total (pe_body envelope)) as [bytes ->]. cbn [map_err mbind res_bind].
  destruct (_ || _); [by apply Hstop|]. destruct (not_advancing _ _) eqn:Hadv; [by apply Hstop|].
  destruct (add_u64_cases (pt_records st) 1) as [[-> _]|[_ ?]]; [|lia]. cbn [mbind res_bind].
  destruct (IH rest (mkProgressState (pt_records st + 1) (hex (sha256 bytes))
    (pt_acks st ++ [pg_ack (pe_body envelope)]) (pt_reason st))) as (st' & more & -> & Hm & Hs');
    [lia|cbn; lia|cbn; lia|by apply not_advancing_false|].
  cbn in Hm. exists st', (pg_ack (pe_body envelope) :: more).
  split_and!; [done|by rewrite Hm, <-app_assoc|done].
Qed.

Context `{!Sha256Laws Hsha} `{!SerdeLaws ProgressEnvelopeV1 Hpe} `{!SerdeLine ProgressEnvelopeV1 Hpe}.

Definition progress_runs (bs : bytes) (st st' : progress_state) : Prop :=
  ∀ rest fuel, (length (bs ++ rest) < fuel)%nat →
  ∃ fuel', (length rest < fuel')%nat ∧
    progress_loop fuel (bs ++ rest) st = progress_loop fuel' rest st'.

Lemma progress_runs_snoc bs st st' encoded body body_bytes :
  progress_runs bs st st' →
  to_vec body = inr body_bytes →
  to_vec (mkProgressEnvelope body (hex (sha256 body_bytes))) = inr encoded →
  pg_schema body = "RawDurabilityProgressV1" → pg_record_index body = pt_records st' →
  pg_previous_record_sha256 body = pt_previous st' → validate_ack (pg_ack body) = Ok () →
  not_advancing (last (pt_acks st')) (pg_ack body) = false → pt_records st' < u64_max →
  progress_runs (bs ++ encoded ++ [x0a]) st
    (mkProgressState (pt_records st' + 1) (hex (sha256 body_bytes))
       (pt_acks st' ++ [pg_ack body]) (pt_reason st')).
Proof.
  intros Hrun Hb He Hs Hi Hp Hv Ha Hr rest fuel Hf. rewrite <-!app_assoc in *.
  destruct (Hrun _ _ Hf) as ([|fuel'] & Hf' & ->); [lia|]. exists fuel'.
  cbn [app] in *. rewrite length_app in Hf'. cbn [length] in Hf'. split; [lia|].
  cbn [progress_loop]. rewrite bool_decide_eq_false_2 by (by destruct encoded).
  rewrite split_line_encoded by (by eapply to_vec_line).
  rewrite (from_to_vec _ _ He). cbn [pe_body pe_record_sha256]. rewrite Hb. cbn [map_err mbind res_bind].
  rewrite Hs, Hi, Hp, Hv, !String.eqb_refl, Z.eqb_refl. cbn [negb orb is_ok]. rewrite Ha.
  by destruct (add_u64_cases (pt_records st') 1) as [[-> _]|[_ ?]]; [|lia].
Qed.

Section with_file.
Context {S : Type} `{Hsink : DurableSink S} `{Hlaws : !SinkLaws S Hsink}.

Fixpoint run_progress (acks : list DurabilityAckV1) (w : DurabilityProgressWriter S)
    (accepted : list DurabilityAckV1) : DurabilityProgressWriter S * list DurabilityAckV1 :=
  match acks with
  | [] => (w, accepted)
  | ack :: acks =>
      match progress_append ack w with
      | (w, Ok _) => run_progress acks w (accepted ++ [ack])
      | (w, _) => run_progress acks w accepted
      end
  end.

Definition progress_start : progress_state := mkProgressState 0 ZERO_DIGEST [] None.

Definition progress_inv (w : DurabilityProgressWriter S) (accepted : list DurabilityAckV1) : Prop :=
  ∃ bs, progress_runs bs progress_start
      (mkProgressState (pw_record_count w) (pw_previous_digest w) accepted None) ∧
    last accepted = pw_latest_ack w ∧ StronglySorted advancing accepted ∧
    0 ≤ pw_record_count w ≤ len bs ∧ bs `prefix_of` synced (pw_file w) ∧
    (pw_poisoned w = false → contents (pw_file w) = bs ∧
       (synced (pw_file w) = contents (pw_file w))).

Lemma progress_append_inv ack w w' r accepted :
  progress_inv w accepted → progress_append ack w = (w', r) →
  r ≠ Panic ∧ progress_inv w' (accepted ++ if is_ok r then [ack] else []).
Proof.
  intros Hinv H. unfold progress_append in H.
  cbv [mbind SE_bind get lift reject put mret SE_ret throw] in H.
  destruct (pw_poisoned w) eqn:Hp; [simplify_eq; by rewrite app_nil_r|].
  destruct (validate_ack ack) as [[]|e|] eqn:Hv;
    [|simplify_eq; by rewrite app_nil_r|by apply validate_ack_nopanic in Hv].
  destruct (not_advancing _ _) eqn:Hadv; [simplify_eq; by rewrite app_nil_r|].
  destruct (to_vec (mkProgressBody _ _ _ _ _)) as [|bb] eqn:Hb; cbn [map_err] in H;
    [simplify_eq; by rewrite app_nil_r|].
  destruct (to_vec (mkProgressEnvelope _ _)) as [|encoded] eqn:He; cbn [map_err] in H;
    [simplify_eq; by rewrite app_nil_r|].
  destruct Hinv as (bs & Hrun & Hlast & Hs & Hc & Hpre & Hok). destruct (Hok Hp) as [Hcont Hsync].
  pose proof (write_flush_sync_synced (encoded ++ [x0a]) (pw_file w)) as Hmono.
  destruct (write_flush_sync _ _) as [f [e|[]]] eqn:Hw; cbn [fst] in Hmono.
  { injection H as <- <-. rewrite app_nil_r. split; [done|]. exists bs.
    split_and!; cbn; try done || lia. by trans (synced (pw_file w)). }
  apply write_flush_sync_Ok in Hw as [Hw1 Hw2].
  pose proof (contents_u64 f) as Hu. rewrite Hw1, Hcont, !len_app in Hu. pose proof (len_nonneg encoded).
  change (len [x0a]) with 1 in Hu.
  destruct (add_u64_cases (pw_record_count w) 1) as [[Ha _]|[_ ?]]; [|lia]. rewrite Ha in H.
  injection H as <- <-. split; [done|]. cbn [is_ok]. rewrite <-Hlast in Hadv.
  exists (bs ++ encoded ++ [x0a]). split_and!; cbn [pw_record_count pw_previous_digest pw_latest_ack pw_file pw_poisoned].
  - pose proof (progress_runs_snoc bs _ _ encoded _ bb Hrun Hb He) as Hnext.
    apply Hnext; [done..|cbn; lia].
  - by rewrite last_snoc.
  - by apply not_advancing_false.
  - lia.
  - rewrite !len_app. change (len [x0a]) with 1. lia.
  - by rewrite Hw2, Hw1, Hcont.
  - intros _. by rewrite Hw1, Hcont, Hw2, Hw1, Hcont.
Qed.

Lemma run_progress_inv acks w accepted w' accepted' :
  progress_inv w accepted → run_progress acks w accepted = (w', accepted') →
  progress_inv w' accepted'.
Proof.
  revert w accepted. induction acks as [|ack acks IH]; intros w accepted Hinv; cbn.
  - by intros [= <- <-].
  - destruct (progress_append ack w) as [w1 r] eqn:H.
    destruct (progress_append_inv _ _ _ _ _ Hinv H) as [Hn H1].
    destruct r; cbn in H1; rewrite ?app_nil_r in H1; [by apply IH..|done].
Qed.

(** Published acknowledgements survive a crash. Take any sequence of
    [append] calls, failed ones included, on an empty journal, and any file that
    begins with the bytes on stable storage. A scan of it returns a report whose
    acknowledgements begin with exactly the accepted ones, in order, and
    strictly increase in record count and offset, whatever follows; with nothing
    following a healthy writer's bytes the scan is clean and reports no other. *)
Theorem progress_survives_crash (s : S) raw acks w accepted disk :
  contents s = [] → synced s = [] →
  run_progress acks (progress_writer_new s raw) [] = (w, accepted) →
  synced (pw_file w) `prefix_of` disk → len disk ≤ u64_max →
  ∃ sc more, scan_durability_progress disk = Ok sc ∧
    px_acknowledgements sc = accepted ++ more ∧ px_latest_ack sc = last (accepted ++ more) ∧
    StronglySorted advancing (accepted ++ more) ∧
    (pw_poisoned w = false → disk = synced (pw_file w) →
     more = [] ∧ px_clean_eof sc = true ∧ px_records sc = pw_record_count w).
Proof.
  intros Hs Hy Hrun Hpre Hlen.
  assert (progress_inv (progress_writer_new s raw) []) as H0.
  { exists []. split_and!; cbn; try done; [|constructor|apply prefix_nil|].
    - intros rest fuel Hf. by exists fuel.
    - intros _. by rewrite Hs. }
  destruct (run_progress_inv _ _ _ _ _ H0 Hrun) as (bs & Hruns & Hlast & Hsort & Hc & [x1 Hx1] & Hok).
  destruct Hpre as [x2 Hx2]. rewrite Hx1, <-app_assoc in Hx2. rewrite Hx2, len_app in Hlen.
  destruct (Hruns (x1 ++ x2) (Datatypes.S (length (bs ++ x1 ++ x2))) ltac:(lia)) as (fuel & Hf & Hloop).
  destruct (progress_loop_sound fuel (x1 ++ x2)
    (mkProgressState (pw_record_count w) (pw_previous_digest w) accepted None))
    as (st & more & Hst & Hm & Hs'); [done|cbn; lia..|done|].
  unfold scan_durability_progress. rewrite Hx2. fold progress_start. rewrite Hloop, Hst.
  cbn [mbind res_bind]. cbn in Hm. eexists. exists more. split; [reflexivity|]. cbn.
  rewrite Hm in *. split_and!; try done. intros Hp Hd.
  destruct (Hok Hp) as [Hcont Hsync]. rewrite Hsync, Hcont in Hd.
  apply (f_equal length) in Hd. rewrite length_app in Hd.
  destruct (x1 ++ x2) eqn:Hx; [|cbn in Hd; lia].
  destruct fuel as [|fuel]; [cbn in Hf; lia|]. cbn in Hst. injection Hst as <-. cbn in *.
  assert (more = []) as -> by (by apply (app_inv_head accepted); rewrite app_nil_r). done.
Qed.
End with_file.
End progress_theory.

(** ** Theory of the raw readers *)
Section reader_theory.
Context `{Hsha : Sha256} `{Hval : SerdeValue} `{Hb64 : Base64}.

Definition record_key (f : RawFrame) : string * string := (rf_connection_epoch f, rf_stream f).

(** What a body decodes to does not depend on the expected positions; they
    only decide whether its frame index is accepted. *)
Lemma read_body_cases value p digest n :
  (∀ E, is_ok (read_body value p digest n E).2 = false) ∨
  ∃ f, ∀ E E' x, read_body value p digest n E = (E', Ok x) ↔
    x = (f, hex digest, 4 + n + 32) ∧ default 0 (E !! record_key f) = rf_frame_index f ∧
    rf_frame_index f + 1 ≤ u64_max ∧ E' = <[record_key f := rf_frame_index f + 1]> E.
Proof.
  unfold read_body. cbv [mbind SE_bind get lift reject put mret SE_ret].
  repeat match goal with
  | |- context [match required_str ?v ?k with _ => _ end] =>
      destruct (required_str v k); [|by left..]
  | |- context [match required_u64 ?v ?k with _ => _ end] =>
      destruct (required_u64 v k); [|by left..]
  | |- context [match map_err ?s ?r with _ => _ end] => destruct (map_err s r); [|by left..]
  | |- context [if negb (String.eqb ?a ?b) then _ else _] => destruct (String.eqb a b); [cbn [negb]|by left]
  | |- context [if negb (valid_recorder_state ?a) then _ else _] =>
      destruct (valid_recorder_state a); [cbn [negb]|by left]
  | |- context [if negb (len ?a =? ?b) then _ else _] => destruct (len a =? b); [cbn [negb]|by left]
  end.
  repeat match goal with
  | |- context [match required_str ?v ?k with _ => _ end] =>
      destruct (required_str v k); [|by left; intros E; destruct (_ =? _), (add_u64 _ _)..]
  | |- context [match required_u64 ?v ?k with _ => _ end] =>
      destruct (required_u64 v k); [|by left; intros E; destruct (_ =? _), (add_u64 _ _)..]
  end.
  right. eexists (mkRawFrame _ _ _ _ _ _ _ _ _ _ _ _ _ _ _ _). intros E E' x.
  unfold record_key. cbn [rf_connection_epoch rf_stream rf_frame_index].
  destruct (_ =? default _ _) eqn:He; cbn [negb].
  2: { apply Z.eqb_neq in He. split; [done|]. intros (_ & Hd & _). by destruct He. }
  apply Z.eqb_eq in He as <-.
  destruct (add_u64_cases a8 1) as [[-> ?]|[-> ?]]; split.
  - by intros [= <- <-].
  - by intros (-> & _ & _ & ->).
  - done.
  - intros (_ & _ & ? & _). lia.
Qed.

(** A record that is read does not depend on the positions either. *)
Lemma read_next_agree input p E E1 f d n rest :
  read_next_raw_record input p E = (E1, Ok (Some (f, d, n, rest))) →
  (default 0 (E !! record_key f) = rf_frame_index f ∧ rf_frame_index f + 1 ≤ u64_max) ∧
  E1 = <[record_key f := rf_frame_index f + 1]> E ∧
  (∀ F, default 0 (F !! record_key f) = rf_frame_index f → ∃ F1,
    F1 = <[record_key f := rf_frame_index f + 1]> F ∧
    read_next_raw_record input p F = (F1, Ok (Some (f, d, n, rest)))) ∧
  (∀ F F1 x, read_next_raw_record input p F = (F1, Ok x) → x = Some (f, d, n, rest)).
Proof.
  unfold read_next_raw_record. destruct (read_frame _ _) as [| | | | |body digest rest']; try done.
  intros ([] & E0 & H0 & H)%SE_bind_Ok. apply SE_bind_Ok in H as (v & E2 & Hv & H).
  unfold lift in H0, Hv. injection H0 as -> Hd. injection Hv as -> Hv.
  apply SE_bind_Ok in H as ([[f' d'] n'] & E3 & Hb & H).
  unfold mret, SE_ret in H. injection H as -> -> -> -> ->.
  destruct (read_body_cases v p digest (len body)) as [Hno|[g Hg]].
  { specialize (Hno E2). by rewrite Hb in Hno. }
  pose proof Hb as (Heq & Hi & Hm & HE)%Hg. injection Heq as -> Hd' Hn'. split_and!; [done..| |].
  - intros F HF. eexists. split; [done|]. unfold mbind, SE_bind, lift. rewrite Hd, Hv.
    destruct (read_body v p digest (len body) F) as [F1 r] eqn:HbF.
    assert (read_body v p digest (len body) F =
      (<[record_key g:=rf_frame_index g + 1]> F, Ok (g, d, n))) as Hb2.
    { apply Hg. by rewrite Hd', Hn'. }
    rewrite Hb2 in HbF. by injection HbF as <- <-.
  - intros F F1 x. unfold mbind, SE_bind, lift. rewrite Hd, Hv.
    destruct (read_body v p digest (len body) F) as [F2 [y|e|]] eqn:HbF; [|done..].
    apply Hg in HbF as (-> & _). unfold mret, SE_ret. intros [= <- <-]. by rewrite Hd', Hn'.
Qed.

(** Two records that differ at most in their index in the list they were read into. *)
Definition same_record (a b : RawRecordEnvelopeV1) : Prop :=
  re_start_offset a = re_start_offset b ∧ re_end_offset a = re_end_offset b ∧
  re_record_sha256 a = re_record_sha256 b ∧ re_frame a = re_frame b.

(** The first turn of a successful read. *)
Context `{!Sha256Laws Hsha}.
Lemma records_loop_inv input i o p E E' rs :
  records_loop (S (length input)) input i o p E = (E', Ok rs) →
  (input = [] ∧ rs = [] ∧ E' = E) ∨
  ∃ f body rest rs' E1,
    let d := hex (sha256 body) in let n := len (enc body) in
    read_next_raw_record input p E = (E1, Ok (Some (f, d, n, rest))) ∧
    input = enc body ++ rest ∧ o + n ≤ u64_max ∧ rs = mkEnvelope i o (o + n) d f :: rs' ∧
    records_loop (S (length rest)) rest (i + 1) (o + n) d E1 = (E', Ok rs').
Proof.
  cbn [records_loop]. intros ([[[[f d] n] rest]|] & E1 & Hr & H)%SE_bind_Ok.
  - right. pose proof (read_next_shorter _ _ _ _ _ _ _ _ Hr).
    pose proof Hr as (body & Hin & -> & -> & _)%read_next_Some_inv.
    apply SE_bind_Ok in H as (o' & E2 & Ho & H). unfold lift in Ho. injection Ho as -> Ho.
    apply SE_bind_Ok in H as (rs1 & E3 & Hl & H). unfold mret, SE_ret in H. injection H as -> <-.
    rewrite records_loop_fuel in Hl by lia.
    destruct (checked_add o _) as [o''|] eqn:Hc; cbn in Ho; [|done]. injection Ho as ->.
    apply checked_add_Some in Hc as [Hc ->]. by exists f, body, rest, rs1, E2.
  - left. apply read_next_None_inv in Hr as [-> ->]. unfold mret, SE_ret in H. by injection H as <- <-.
Qed.

(** Reading up to a record leaves the state the range reader starts from. *)
Lemma records_loop_split rs1 r rs2 input i o p E E' :
  records_loop (S (length input)) input i o p E = (E', Ok (rs1 ++ r :: rs2)) →
  ∃ in1 in2 E1, input = in1 ++ in2 ∧ o + len in1 = re_end_offset r ∧ o < re_end_offset r ∧
    re_record_index r = i + len rs1 ∧
    (∃ body, re_record_sha256 r = hex (sha256 body)) ∧
    rf_frame_index (re_frame r) + 1 ≤ u64_max ∧
    E1 !! record_key (re_frame r) = Some (rf_frame_index (re_frame r) + 1) ∧
    records_loop (S (length in2)) in2 (re_record_index r + 1) (re_end_offset r)
      (re_record_sha256 r) E1 = (E', Ok rs2).
Proof.
  revert input i o p E. induction rs1 as [|a rs1 IH]; intros input i o p E H;
    apply records_loop_inv in H as [(_ & ? & _)|(f & body & rest & rs' & E1 & H)]; try done;
    cbn zeta in H; destruct H as (Hr & -> & Ho & Hrs & Hl);
    pose proof (len_nonneg body); assert (36 ≤ len (enc body)) by (unfold enc; rewrite len_written; lia).
  - injection Hrs as -> ->.
    cbn [re_end_offset re_record_index re_record_sha256 re_frame]. apply read_next_agree in Hr as ([Hi Hmax] & -> & _).
    exists (enc body), rest, (<[record_key f := rf_frame_index f + 1]> E).
    change (len []) with 0. rewrite Z.add_0_r.
    split_and!; try done; [lia|by eexists|by rewrite lookup_insert_eq].
  - injection Hrs as -> <-. apply IH in Hl as (in1 & in2 & E2 & -> & Hl & Hlt & Hi & Hrest).
    exists (enc body ++ in1), in2, E2. rewrite len_app, len_cons, <-app_assoc.
    split; [done|]. split; [lia|]. split; [lia|]. split; [lia|done].
Qed.

Lemma records_loop_agree rs input i j o p E E' F F' rs' :
  records_loop (S (length input)) input i o p E = (E', Ok rs) →
  records_loop (S (length input)) input j o p F = (F', Ok rs') →
  Forall2 same_record rs' rs.
Proof.
  revert input i j o p E F rs'. induction rs as [|a rs IH]; intros input i j o p E F rs' H H'.
  - apply records_loop_inv in H as [(-> & _ & _)|(?&?&?&?&?&_&_&_&?&_)]; [|done].
    cbn in H'. injection H' as _ <-. constructor.
  - apply records_loop_inv in H as [(_ & ? & _)|(f & body & rest & rs1 & E1 & H)]; [done|].
    cbn zeta in H. destruct H as (Hr & -> & Ho & Hrs & Hl). injection Hrs as -> <-.
    apply records_loop_inv in H' as [(Hn & _ & _)|(g & body' & rest' & rs2 & F1 & H')].
    { apply (f_equal len) in Hn. unfold enc in Hn. rewrite len_app, len_written in Hn.
      pose proof (len_nonneg body). pose proof (len_nonneg rest). change (len []) with 0 in Hn. lia. }
    cbn zeta in H'. destruct H' as (Hr' & _ & _ & -> & Hl').
    apply read_next_agree in Hr as (_ & _ & _ & Hsame). apply Hsame in Hr'.
    assert (g = f ∧ rest' = rest ∧ hex (sha256 body') = hex (sha256 body) ∧
      len (enc body') = len (enc body)) as (-> & -> & Hd & Hn) by (split_and!; congruence).
    rewrite Hd, Hn in Hl' |- *. constructor; [done|]. by eapply IH.
Qed.

Lemma records_loop_reread k rs input i j o p E E' F :
  records_loop (S (length input)) input i o p E = (E', Ok rs) →
  Forall (λ r, record_key (re_frame r) = k) rs → default 0 (E !! k) = default 0 (F !! k) →
  ∃ F' rs', records_loop (S (length input)) input j o p F = (F', Ok rs').
Proof.
  revert input i j o p E F. induction rs as [|a rs IH]; intros input i j o p E F H Hk HE.
  - apply records_loop_inv in H as [(-> & _ & _)|(?&?&?&?&?&_&_&_&?&_)]; [|done]. cbn. eauto.
  - apply records_loop_inv in H as [(_ & ? & _)|(f & body & rest & rs1 & E1 & H)]; [done|].
    cbn zeta in H. destruct H as (Hr & -> & Ho & Hrs & Hl). injection Hrs as -> <-.
    apply Forall_cons in Hk as [Hf Hk]. cbn in Hf.
    apply read_next_agree in Hr as ([Hi _] & -> & Hsucc & _).
    destruct (Hsucc F) as (F1 & -> & HF); [by rewrite Hf, <-HE, <-Hf|].
    destruct (IH rest (i + 1) (j + 1) _ _ _ (<[record_key f:=rf_frame_index f + 1]> F) Hl Hk)
      as (F' & rs' & HF').
    { by rewrite Hf, !lookup_insert_eq. }
    rewrite (records_loop_step _ _ _ _ _ _ _ _ _ _ HF Ho), HF'. eauto.
Qed.

(** The frame indices of records of one stream count up from the expected one. *)
Lemma records_loop_frames k rs input i o p E E' x :
  records_loop (S (length input)) input i o p E = (E', Ok rs) →
  Forall (λ r, record_key (re_frame r) = k) rs → last rs = Some x →
  rf_frame_index (re_frame x) = default 0 (E !! k) + len rs - 1 ∧ re_end_offset x = o + len input.
Proof.
  revert input i o p E. induction rs as [|a rs IH]; intros input i o p E H Hk Hx; [done|].
  apply records_loop_inv in H as [(_ & ? & _)|(f & body & rest & rs1 & E1 & H)]; [done|].
  cbn zeta in H. destruct H as (Hr & -> & Ho & Hrs & Hl). injection Hrs as -> <-.
  apply Forall_cons in Hk as [Hf Hk]. cbn [re_frame] in Hf.
  apply read_next_agree in Hr as ([Hi _] & -> & _). rewrite len_app, len_cons, <-Hf, Hi.
  destruct rs as [|b rs].
  - cbn [last] in Hx. injection Hx as <-. apply records_loop_inv in Hl as [(-> & _ & _)|(?&?&?&?&?&_&_&_&?&_)];
      [|done]. cbn [re_frame re_end_offset]. change (len (@nil RawRecordEnvelopeV1)) with 0.
    change (len (@nil byte)) with 0. lia.
  - rewrite last_cons_cons in Hx. apply IH in Hl as [-> ->]; [|done..].
    rewrite <-Hf, lookup_insert_eq. unfold default, id. lia.
Qed.

(** The window of the file behind a record of a durable prefix. *)
Lemma resume_window raw through before r after :
  read_raw_records_through_offset raw through = Ok (before ++ r :: after) →
  ∃ E1 E', let window := take (Z.to_nat (through - re_end_offset r))
      (drop (Z.to_nat (re_end_offset r)) raw) in
    E1 !! record_key (re_frame r) = Some (rf_frame_index (re_frame r) + 1) ∧
    records_loop (S (length window)) window (re_record_index r + 1) (re_end_offset r)
      (re_record_sha256 r) E1 = (E', Ok after) ∧
    len MAGIC < re_end_offset r ∧ re_end_offset r + len window = through ∧ through ≤ len raw ∧
    re_record_index r = len before ∧ rf_frame_index (re_frame r) + 1 ≤ u64_max ∧
    ∃ body, re_record_sha256 r = hex (sha256 body).
Proof.
  unfold read_raw_records_through_offset.
  intros ([] & H1%reject_Ok & H)%res_bind_Ok. apply res_bind_Ok in H as ([] & H2%reject_Ok & H).
  apply res_bind_Ok in H as (rest & Hm & H). apply res_bind_Ok in H as (rs & Hr & H).
  apply res_bind_Ok in H as ([] & H3%reject_Ok & H). injection H as ->.
  unfold read_magic in Hm. case_bool_decide; [|done]. injection Hm as <-.
  unfold read_raw_records_after_magic in Hr.
  destruct (records_loop _ _ _ _ _ _) as [E' res] eqn:Hl. cbn [snd] in Hr. subst res.
  apply records_loop_split in Hl as (in1 & in2 & E1 & Hin & Hend & Hlt & Hi & Hb & Hmax & HE & Hl).
  pose proof (len_nonneg in1). pose proof (len_nonneg in2). change (len MAGIC) with 8 in *.
  assert (8 + len in1 + len in2 = through) as Hthrough.
  { apply (f_equal len) in Hin. rewrite len_app in Hin. unfold len in Hin at 1.
    rewrite length_drop, length_take in Hin. unfold len in H2. lia. }
  assert (take (Z.to_nat (through - re_end_offset r)) (drop (Z.to_nat (re_end_offset r)) raw) = in2)
    as Hw.
  { rewrite take_drop_commute.
    replace (Z.to_nat (re_end_offset r) + Z.to_nat (through - re_end_offset r))%nat
      with (Z.to_nat through) by lia.
    replace (Z.to_nat (re_end_offset r)) with (8 + length in1)%nat by (unfold len in *; lia).
    rewrite <-drop_drop, Hin. apply drop_app_length. }
  exists E1, E'. cbn zeta. rewrite Hw. split_and!; try done; lia.
Qed.

Lemma validate_ack_record count off body key :
  0 < count → 0 < off →
  validate_ack (mkAck "DurabilityAckV1" count off (hex (sha256 body)) [key]) = Ok ().
Proof.
  intros Hc Ho. unfold validate_ack. apply reject_Ok. cbn [ack_schema ack_durable_record_count
    ack_durable_through_offset ack_last_record_sha256 ack_streams].
  pose proof (is_digest_hex (sha256 body) (length_sha256 body)) as Hd. unfold is_digest in Hd.
  apply andb_prop in Hd as [-> Hd].
  rewrite (proj2 (forallb_forall _ _)).
  - cbn. rewrite !orb_false_r. apply orb_false_iff. split; by apply Z.eqb_neq; lia.
  - intros c Hc'. apply (proj1 (forallb_forall _ _) Hd) in Hc'. unfold is_hexdigit.
    unfold is_lower_hex in Hc'. by rewrite Hc'.
Qed.

(** The acknowledgement that ends on a record. *)
Definition cursor_of (r : RawRecordEnvelopeV1) : DurabilityAckV1 :=
  mkAck "DurabilityAckV1" (re_record_index r + 1) (re_end_offset r) (re_record_sha256 r)
    [mkWatermark (rf_connection_epoch (re_frame r)) (rf_stream (re_frame r))
       (rf_frame_index (re_frame r))].

Lemma durable_cursor_Ok raw terminal o cursor :
  durable_cursor_at_observation raw terminal o = Ok cursor →
  ∃ before r after stream,
    read_raw_records_through_offset raw (ack_durable_through_offset terminal)
      = Ok (before ++ r :: after) ∧
    List.filter (lineage_matches o) (before ++ r :: after) = [r] ∧
    validate_ack terminal = Ok () ∧ ack_streams terminal !! 0%nat = Some stream ∧
    wm_connection_epoch stream = rf_connection_epoch (re_frame r) ∧
    wm_stream stream = rf_stream (re_frame r) ∧
    ack_durable_record_count terminal = len (before ++ r :: after) ∧
    cursor = cursor_of r.
Proof.
  unfold durable_cursor_at_observation. intros ([] & Hv & H)%res_bind_Ok.
  apply res_bind_Ok in H as (stream & Hst & H). apply res_bind_Ok in H as ([] & Hg%reject_Ok & H).
  apply res_bind_Ok in H as (rs & Hr & H). apply res_bind_Ok in H as ([] & Hc%reject_Ok & H).
  apply res_bind_Ok in H as (t & _ & H). apply res_bind_Ok in H as ([] & _ & H).
  cbn zeta in H. apply res_bind_Ok in H as (r & Hh%ok_or_Ok & H).
  apply res_bind_Ok in H as ([] & Hu%reject_Ok & H). apply res_bind_Ok in H as (n & Hn & H).
  injection H as <-. apply add_u64_Ok in Hn as [_ ->].
  destruct (List.filter _ rs) as [|r' [|]] eqn:Hf; [done| |done]. injection Hh as ->.
  assert (List.In r (List.filter (lineage_matches o) rs)) as Hin by (rewrite Hf; by left).
  apply filter_In in Hin as [Hin Hm]. apply list_elem_of_In, list_elem_of_split in Hin as (b & a & ->).
  destruct (ack_streams terminal !! 0%nat) as [st|] eqn:Hs; cbn in Hst; [|done]. injection Hst as ->.
  unfold lineage_matches in Hm. split_orb. exists b, r, a, stream.
  repeat match goal with H : String.eqb _ _ = true |- _ => apply String.eqb_eq in H end.
  split_and!; try done; [congruence..|lia].
Qed.

Lemma Forall2_last {A B} (R : A → B → Prop) l k x :
  Forall2 R l k → last k = Some x → ∃ y, last l = Some y ∧ R y x.
Proof.
  intros H [k' ->]%last_Some. apply Forall2_app_inv_r in H as (l1 & l2 & _ & H & ->).
  apply Forall2_cons_inv_r in H as (y & l3 & Hy & ->%Forall2_nil_inv_r & ->).
  exists y. by rewrite last_snoc.
Qed.

Lemma durable_delta_exact raw terminal stream before r after rs :
  read_raw_records_through_offset raw (ack_durable_through_offset terminal)
    = Ok (before ++ r :: after) →
  validate_ack terminal = Ok () → ack_streams terminal !! 0%nat = Some stream →
  read_durable_raw_delta raw (cursor_of r) terminal = Ok rs → Forall2 same_record rs after.
Proof.
  intros Hr Hv Hs.
  destruct (resume_window _ _ _ _ _ Hr) as (E1 & E' & Hk & Hw & Ho & Hlen & Hraw & Hi & Hmax & body & Hd).
  set (window := take _ _) in *.
  unfold read_durable_raw_delta, cursor_of. rewrite Hv, Hs.
  cbn [ack_streams list_lookup lookup expect mbind res_bind].
  cbn [ack_durable_record_count ack_durable_through_offset ack_last_record_sha256
    wm_connection_epoch wm_stream wm_durable_through_frame_index].
  rewrite (checked_add_fits _ _ Hmax). cbn [ok_or mbind res_bind].
  unfold read_raw_record_range, read_raw_records_after_magic. fold window.
  intros (_ & _ & H)%res_bind_Ok. apply res_bind_Ok in H as (_ & _ & H).
  apply res_bind_Ok in H as (rs' & Hrs & H). apply res_bind_Ok in H as (n & _ & H).
  apply res_bind_Ok in H as (l & _ & H). apply res_bind_Ok in H as (_ & _ & H). injection H as ->.
  apply res_bind_Ok in Hrs as (_ & _ & H). apply res_bind_Ok in H as (_ & _ & H).
  cbn zeta in H. apply res_bind_Ok in H as (rs' & Hrs & H).
  apply res_bind_Ok in H as (_ & _ & H). injection H as ->.
  destruct (records_loop _ _ 0 _ _ _) as [F' res] eqn:Hl. cbn [snd] in Hrs. subst res.
  by eapply records_loop_agree.
Qed.

Lemma durable_delta_total raw terminal stream before r after x :
  read_raw_records_through_offset raw (ack_durable_through_offset terminal)
    = Ok (before ++ r :: after) →
  validate_ack terminal = Ok () → ack_streams terminal !! 0%nat = Some stream →
  wm_connection_epoch stream = rf_connection_epoch (re_frame r) →
  wm_stream stream = rf_stream (re_frame r) →
  ack_durable_record_count terminal = len (before ++ r :: after) →
  last after = Some x → ack_ends_on terminal x = true →
  Forall (λ a, record_key (re_frame a) = record_key (re_frame r)) after →
  ∃ rs, read_durable_raw_delta raw (cursor_of r) terminal = Ok rs.
Proof.
  intros Hr Hv Hs He Hst Hc Hx Hend Hkey.
  destruct (resume_window _ _ _ _ _ Hr) as (E1 & E' & Hk & Hw & Ho & Hlen & Hraw & Hi & Hmax & body & Hd).
  set (window := take _ _) in *.
  unfold read_durable_raw_delta, cursor_of. rewrite Hv, Hs.
  cbn [ack_streams list_lookup lookup expect mbind res_bind].
  cbn [ack_durable_record_count ack_durable_through_offset ack_last_record_sha256
    wm_connection_epoch wm_stream wm_durable_through_frame_index].
  rewrite (checked_add_fits _ _ Hmax). cbn [ok_or mbind res_bind].
  unfold read_raw_record_range, read_raw_records_after_magic. fold window.
  destruct (records_loop_frames _ _ _ _ _ _ _ _ x Hw Hkey Hx) as [Hfi Hxe].
  rewrite Hk in Hfi. unfold default, id in Hfi.
  destruct (records_loop_reread _ _ _ _ 0 _ _ _ _
    {[ record_key (re_frame r) := rf_frame_index (re_frame r) + 1 ]} Hw Hkey) as (F' & rs & Hl).
  { by rewrite lookup_singleton_eq, Hk. }
  pose proof (records_loop_agree _ _ _ _ _ _ _ _ _ _ _ Hw Hl) as Hsame. unfold record_key in Hl.
  assert (re_end_offset r < re_end_offset x) as Hlt.
  { apply last_Some in Hx as [l ->].
    by apply records_loop_split in Hw as (? & ? & ? & _ & _ & ? & _). }
  destruct (Forall2_last _ _ _ _ Hsame Hx) as (y & Hy & _ & Hye & Hyd & Hyf).
  unfold ack_ends_on in Hend. destruct (ack_streams terminal) as [|s []] eqn:Hss;
    [by rewrite andb_false_r in Hend| |by rewrite andb_false_r in Hend].
  injection Hs as ->. apply Forall2_length in Hsame. rewrite Hc, len_app, len_cons in *.
  pose proof (len_nonneg before). pose proof (len_nonneg after).
  assert (0 < len after) by (destruct after; [done|rewrite len_cons; pose proof (len_nonneg after); lia]).
  change (len MAGIC) with 8 in *. split_orb.
  repeat match goal with H : String.eqb _ _ = true |- _ => apply String.eqb_eq in H end.
  repeat match goal with H : (_ =? _) = true |- _ => apply Z.eqb_eq in H end.
  exists rs. rewrite Hd, validate_ack_record, <-Hd by lia. cbn [mbind res_bind].
  assert (∀ c msg, c = false → reject c msg = Ok ()) as pass by (intros; by apply reject_Ok).
  rewrite (pass _ "durability delta does not strictly continue one raw stream")
    by (rewrite He, Hst, !String.eqb_refl; cbn [negb orb]; lia).
  rewrite (pass _ "invalid raw record range"),
    (pass _ "raw file is shorter than requested record range") by lia.
  cbn [mbind res_bind]. rewrite Hl. cbn [snd mbind res_bind]. rewrite Hy.
  cbn [fmap option_fmap option_map].
  rewrite (pass _ "raw record range does not end on the requested boundary")
    by (rewrite bool_decide_eq_true_2; [done|f_equal; lia]).
  cbn [mbind res_bind]. unfold sub_u64. rewrite (proj2 (checked_sub_Some _ _ (len after))) by lia.
  cbn [expect mbind res_bind]. rewrite Hy. cbn [ok_or mbind res_bind]. rewrite pass; [done|].
  rewrite Hyf, Hyd. unfold len at 1. rewrite Hsame.
  apply orb_false_iff; split; [|by apply negb_false_iff, String.eqb_eq; congruence].
  apply orb_false_iff; split; [|by apply negb_false_iff, String.eqb_eq; congruence].
  apply orb_false_iff; split; [|by apply negb_false_iff, Z.eqb_eq; congruence].
  apply orb_false_iff; split; [|by apply negb_false_iff, String.eqb_eq; congruence].
  apply negb_false_iff, Z.eqb_eq. done.
Qed.

(** Resuming behind a published observation repeats and loses nothing. When
    the cursor of an observation is found, the durable prefix of the raw log holds
    exactly one record of that lineage, the cursor ends on it, and what is read
    from the cursor to the terminal acknowledgement is exactly the records behind
    it, in order. That read succeeds when there are any, they are of the same
    stream, and the terminal acknowledgement ends on the last of them. *)
Theorem durable_resume_exact raw terminal o cursor :
  durable_cursor_at_observation raw terminal o = Ok cursor →
  ∃ before r after,
    read_raw_records_through_offset raw (ack_durable_through_offset terminal)
      = Ok (before ++ r :: after) ∧
    List.filter (lineage_matches o) (before ++ r :: after) = [r] ∧
    ack_ends_on cursor r = true ∧ ack_durable_record_count cursor = len before + 1 ∧
    (∀ rs, read_durable_raw_delta raw cursor terminal = Ok rs → Forall2 same_record rs after) ∧
    (∀ x, last after = Some x → ack_ends_on terminal x = true →
     Forall (λ a, record_key (re_frame a) = record_key (re_frame r)) after →
     ∃ rs, read_durable_raw_delta raw cursor terminal = Ok rs).
Proof.
  intros (before & r & after & stream & Hr & Hf & Hv & Hs & He & Hst & Hc & ->)%durable_cursor_Ok.
  destruct (resume_window _ _ _ _ _ Hr) as (_ & _ & _ & _ & _ & _ & _ & Hi & _).
  exists before, r, after. split_and!; [done..| |cbn; lia| |].
  - unfold ack_ends_on. cbn. by rewrite !String.eqb_refl, !Z.eqb_refl.
  - intros rs. by eapply durable_delta_exact.
  - intros x Hx Hend Hkey. by eapply durable_delta_total.
Qed.
End reader_theory.

(** ** Instances: two published acknowledgements, and a raw log to resume in *)
Module ProgressDemo.
#[export] Existing Instance toy_sha256.
#[export] Existing Instance toy_sha256_laws.
#[export] Existing Instance plain_base64.
#[export] Existing Instance RawDemo.wire_serde.
#[export] Existing Instance RawDemo.record_serde.
#[export] Existing Instance RawDemo.file_durable_sink.
#[export] Existing Instance RawDemo.file_sink_laws.

#[export] Instance body_serde : Serde ProgressBodyV1 := {|
  to_vec b := inr (to_be_bytes 8 (pg_record_index b));
  from_slice _ := inl "unused"
|}.
#[export] Instance body_serde_total : SerdeTotal ProgressBodyV1 body_serde.
Proof. intros b. by eexists. Qed.

Definition ack (count offset frame : Z) : DurabilityAckV1 :=
  mkAck "DurabilityAckV1" count offset ZERO_DIGEST [mkWatermark "epoch-1" "depth" frame].
Definition digest (n : Z) : string := hex (sha256 (to_be_bytes 8 n)).
Definition body (n : Z) (a : DurabilityAckV1) (previous : string) : ProgressBodyV1 :=
  mkProgressBody "RawDurabilityProgressV1" n "raw.bnraw" a previous.
#[export] Instance envelope_serde : Serde ProgressEnvelopeV1 :=
  table_serde
    [mkProgressEnvelope (body 0 (ack 2 80 1) ZERO_DIGEST) (digest 0);
     mkProgressEnvelope (body 1 (ack 3 120 2) (digest 0)) (digest 1)].
#[export] Instance envelope_serde_laws : SerdeLaws ProgressEnvelopeV1 envelope_serde.
Proof. apply table_serde_laws. Qed.
#[export] Instance envelope_serde_line : SerdeLine ProgressEnvelopeV1 envelope_serde.
Proof. apply table_serde_line. Qed.

(** The second acknowledgement repeats the first and is refused. *)
Definition acks : list DurabilityAckV1 := [ack 2 80 1; ack 2 80 1; ack 3 120 2].
Definition published := Eval vm_compute in
  run_progress acks (progress_writer_new (([], []) : RawDemo.file_sink) "raw.bnraw") [].

(** A depth log of three frames, its last acknowledgement, and the observation
    derived from its first record. *)
Definition log : RawLogWriter RawDemo.file_sink :=
  Eval vm_compute in
  (run_writer [OpAppend (RawDemo.frame "depth" 0); OpAppend (RawDemo.frame "depth" 1);
               OpAppend (RawDemo.frame "depth" 2); OpSync] RawDemo.start []).1.
Definition raw : bytes := Eval vm_compute in contents (wr_sink log).
Definition terminal : DurabilityAckV1 :=
  Eval vm_compute in default (mkAck "" 0 0 "" []) (wr_last_ack log).
Definition records : list RawRecordEnvelopeV1 :=
  Eval vm_compute in match read_raw_records raw with Ok rs => rs | _ => [] end.
Definition first_digest : string :=
  Eval vm_compute in default "" (re_record_sha256 <$> head records).
Definition observation : CanonicalObservationV1 :=
  mkObservation "BTCUSDT" Depth "depth" "epoch-1" 0 1 1 first_digest ZERO_DIGEST.
Definition cursor : DurabilityAckV1 :=
  Eval vm_compute in
  match durable_cursor_at_observation raw terminal observation with
  | Ok c => c | _ => mkAck "" 0 0 "" []
  end.
End ProgressDemo.

Section progress_witnesses.
Import ProgressDemo.

Lemma progress_survives_crash_witness :
  published.2 = [ack 2 80 1; ack 3 120 2] ∧
  ∃ sc more, scan_durability_progress (synced (pw_file published.1) ++ [x2a]) = Ok sc ∧
    px_acknowledgements sc = published.2 ++ more ∧ px_latest_ack sc = last (published.2 ++ more) ∧
    StronglySorted advancing (published.2 ++ more) ∧
    (pw_poisoned published.1 = false →
     synced (pw_file published.1) ++ [x2a] = synced (pw_file published.1) →
     more = [] ∧ px_clean_eof sc = true ∧ px_records sc = pw_record_count published.1).
Proof.
  split; [reflexivity|].
  apply (progress_survives_crash ([], []) "raw.bnraw" acks published.1 published.2);
    [reflexivity|reflexivity|vm_compute; reflexivity|by eexists|vm_compute; congruence].
Defined.

Lemma durable_resume_exact_witness :
  ack_durable_record_count cursor = 1 ∧
  (∃ a b, read_durable_raw_delta raw cursor terminal = Ok [a; b]) ∧
  ∃ before r after,
    read_raw_records_through_offset raw (ack_durable_through_offset terminal)
      = Ok (before ++ r :: after) ∧
    List.filter (lineage_matches observation) (before ++ r :: after) = [r] ∧
    ack_ends_on cursor r = true ∧ ack_durable_record_count cursor = len before + 1 ∧
    (∀ rs, read_durable_raw_delta raw cursor terminal = Ok rs → Forall2 same_record rs after) ∧
    (∀ x, last after = Some x → ack_ends_on terminal x = true →
     Forall (λ a, record_key (re_frame a) = record_key (re_frame r)) after →
     ∃ rs, read_durable_raw_delta raw cursor terminal = Ok rs).
Proof.
  split; [reflexivity|]. split; [do 2 eexists; vm_compute; reflexivity|].
  apply (durable_resume_exact raw terminal observation cursor). vm_compute. reflexivity.
Defined.
End progress_witnesses.
