(* ===== verification/SegmentChain.v ===== *)
(** * Segment manifest (segment_chain.rs)

    A raw capture is cut into segments. A segment becomes part of the capture
    when its file has been checked against its terminal acknowledgement and its
    seal has been appended to the manifest, a hash-chained journal. The file
    system is a map from paths to bytes; it is an argument of every operation,
    because it can change between two calls. *)

From stdpp Require Import base list strings option numbers gmap sets.
From Stdlib Require Import ZArith Lia Ascii Strings.Byte.
From S2P Require Import Prelude External RawLog RawLogSafety Boundary DurabilityProgress.
Local Open Scope Z_scope.

Notation files := (gmap string bytes).
Definition open_file (fs : files) (path : string) : res bytes :=
  ok_or (fs !! path) ("open " ++ path).

(** ** Data *)

Definition MANIFEST_MAGIC : bytes := [x42; x4e; x53; x45; x47; x00; x01; x0a].
Definition MAX_MANIFEST_RECORD_BYTES : Z := 1024 * 1024.

Record ManifestBodyV1 := mkManifestBody {
  mb_schema : string; mb_record_index : Z; mb_previous_manifest_record_sha256 : string;
  mb_seal : RawSegmentSealV1
}.
#[global] Instance manifest_body_eq_decision : EqDecision ManifestBodyV1.
Proof. solve_decision. Defined.

Record RawSegmentManifestEntryV1 := mkManifestEntry {
  me_record_index : Z; me_previous_manifest_record_sha256 : string;
  me_manifest_record_sha256 : string; me_seal : RawSegmentSealV1
}.
#[global] Instance manifest_entry_eq_decision : EqDecision RawSegmentManifestEntryV1.
Proof. solve_decision. Defined.

Record RawSegmentManifestAckV1 := mkManifestAck {
  ma_record_index : Z; ma_segment_index : Z; ma_durable_through_offset : Z;
  ma_record_sha256 : string
}.

Record RawSegmentManifestScanV1 := mkManifestScan {
  ms_path : string; ms_file_size : Z; ms_records : Z; ms_last_good_offset : Z;
  ms_clean_eof : bool; ms_reason : option string; ms_last_record_sha256 : string;
  ms_entries : list RawSegmentManifestEntryV1
}.
#[global] Instance manifest_scan_eq_decision : EqDecision RawSegmentManifestScanV1.
Proof. solve_decision. Defined.

Record RawSegmentManifestRecoveryV1 := mkManifestRecovery {
  mr_source : string; mr_destination : string; mr_source_file_size : Z;
  mr_copied_valid_prefix_bytes : Z; mr_excluded_tail_bytes : Z; mr_recovered_records : Z;
  mr_last_record_sha256 : string
}.

Record VerifiedRawSegmentV1 := mkVerified {
  vr_raw_path : string; vr_genesis : RawSegmentGenesisV1; vr_ack : DurabilityAckV1;
  vr_seal : RawSegmentSealV1
}.

Record RawSegmentManifestWriter (S : Type) := mkManifestWriter {
  mw_sink : S; mw_record_count : Z; mw_end_offset : Z; mw_previous_digest : string;
  mw_last_seal : option RawSegmentSealV1; mw_raw_files : gset string; mw_poisoned : bool
}.
Arguments mkManifestWriter {S}.
Arguments mw_sink {S}. Arguments mw_record_count {S}. Arguments mw_end_offset {S}.
Arguments mw_previous_digest {S}. Arguments mw_last_seal {S}. Arguments mw_raw_files {S}.
Arguments mw_poisoned {S}.

(** ** Validation *)

Definition validate_relative_file (raw_file : string) : res unit :=
  reject (is_blank raw_file
          || negb (match path_components raw_file with [Normal _] => true | _ => false end))
    "raw segment file must be one relative file name".

(** [Path::file_name] and [Path::join] of paths with slashes *)
Definition file_name (path : string) : option string :=
  match last (path_components path) with Some (Normal s) => Some s | _ => None end.
Definition path_join (base file : string) : string :=
  let ends_with_slash (s : string) :=
    match rev (str_chars s) with c :: _ => code c =? 47 | [] => true end in
  match str_chars file with
  | c :: _ => if code c =? 47 then file
              else if ends_with_slash base then base ++ file else base ++ "/" ++ file
  | [] => if ends_with_slash base then base else base ++ "/"
  end.

Definition validate_seal_digest (value field : string) : res unit :=
  reject (negb (is_digest value)) (field ++ " must be a lowercase SHA-256 digest").

Definition validate_seal_shape (seal : RawSegmentSealV1) : res unit :=
  _ ← reject (negb (String.eqb (sl_schema seal) "RawSegmentSealV1")
      || is_blank (sl_connection_epoch seal) || is_blank (sl_stream seal)
      || (sl_records seal =? 0) || (sl_durable_through_offset seal <=? len MANIFEST_MAGIC)
      || (sl_last_frame_index seal <? sl_first_frame_index seal)) "invalid raw segment seal";
  _ ← validate_relative_file (sl_raw_file seal);
  _ ← validate_seal_digest (sl_previous_segment_terminal_sha256 seal)
        "previous_segment_terminal_sha256";
  _ ← validate_seal_digest (sl_terminal_record_sha256 seal) "terminal_record_sha256";
  expected_records ← ok_or
    (checked_sub (sl_last_frame_index seal) (sl_first_frame_index seal)
       ≫= λ value, checked_add value 1) "raw segment seal frame range overflow";
  _ ← reject (negb (sl_records seal =? expected_records))
        "raw segment seal count does not match frame range";
  let root := (sl_segment_index seal =? 0) && (sl_first_frame_index seal =? 0)
              && String.eqb (sl_previous_segment_terminal_sha256 seal) ZERO_DIGEST in
  let successor := (0 <? sl_segment_index seal) && (0 <? sl_first_frame_index seal)
                   && negb (String.eqb (sl_previous_segment_terminal_sha256 seal) ZERO_DIGEST) in
  reject (negb root && negb successor) "raw segment seal is neither root nor successor".

Definition validate_manifest_transition (record_index : Z) (previous : option RawSegmentSealV1)
    (raw_files : gset string) (seal : RawSegmentSealV1) : res unit :=
  _ ← validate_seal_shape seal;
  _ ← reject (negb (sl_segment_index seal =? record_index)
              || bool_decide (sl_raw_file seal ∈ raw_files))
        "segment index/file is duplicate or out of order";
  match previous with
  | None =>
      reject (negb (sl_segment_index seal =? 0) || negb (sl_first_frame_index seal =? 0)
              || negb (String.eqb (sl_previous_segment_terminal_sha256 seal) ZERO_DIGEST))
        "segment manifest must begin at the exact root"
  | Some old =>
      expected_segment ← ok_or (checked_add (sl_segment_index old) 1) "segment index overflow";
      expected_frame ← ok_or (checked_add (sl_last_frame_index old) 1)
                         "segment frame index overflow";
      reject (negb (sl_segment_index seal =? expected_segment)
              || negb (String.eqb (sl_connection_epoch seal) (sl_connection_epoch old))
              || negb (String.eqb (sl_stream seal) (sl_stream old))
              || negb (sl_first_frame_index seal =? expected_frame)
              || negb (String.eqb (sl_previous_segment_terminal_sha256 seal)
                         (sl_terminal_record_sha256 old)))
        "segment manifest transition is not exactly contiguous"
  end.

Definition root_segment_genesis (connection_epoch stream : string) : res RawSegmentGenesisV1 :=
  _ ← reject (is_blank connection_epoch || is_blank stream)
        "root segment identity must not be empty";
  Ok (mkGenesis "RawSegmentGenesisV1" 0 ZERO_DIGEST connection_epoch stream 0).

Definition successor_segment_genesis (previous : RawSegmentSealV1) : res RawSegmentGenesisV1 :=
  _ ← validate_seal_shape previous;
  segment_index ← ok_or (checked_add (sl_segment_index previous) 1) "raw segment index overflow";
  next_frame_index ← ok_or (checked_add (sl_last_frame_index previous) 1)
    "raw segment frame index overflow";
  Ok (mkGenesis "RawSegmentGenesisV1" segment_index (sl_terminal_record_sha256 previous)
        (sl_connection_epoch previous) (sl_stream previous) next_frame_index).

Definition ack_from_seal (seal : RawSegmentSealV1) : DurabilityAckV1 :=
  mkAck "DurabilityAckV1" (sl_records seal) (sl_durable_through_offset seal)
    (sl_terminal_record_sha256 seal)
    [mkWatermark (sl_connection_epoch seal) (sl_stream seal) (sl_last_frame_index seal)].
(** The genesis a seal of the manifest says its segment has. *)
Definition genesis_from_seal (seal : RawSegmentSealV1) : RawSegmentGenesisV1 :=
  mkGenesis "RawSegmentGenesisV1" (sl_segment_index seal)
    (sl_previous_segment_terminal_sha256 seal) (sl_connection_epoch seal) (sl_stream seal)
    (sl_first_frame_index seal).

Section segments.
Context `{Hsha : Sha256} `{Hval : SerdeValue} `{Hb64 : Base64} `{Hmb : Serde ManifestBodyV1}.

Definition verify_and_seal_raw_segment (fs : files) (raw_path raw_file : string)
    (genesis : RawSegmentGenesisV1) (ack : DurabilityAckV1) : res VerifiedRawSegmentV1 :=
  _ ← validate_relative_file raw_file;
  _ ← reject (negb (bool_decide (file_name raw_path = Some raw_file)))
        "raw segment path does not match manifest file name";
  raw ← open_file fs raw_path;
  scan ← scan_raw_segment raw genesis;
  _ ← reject (negb (sc_clean_eof scan))
        ("raw segment has no clean EOF: " ++ default "unknown error" (sc_reason scan));
  _ ← reject (negb (String.eqb (ack_schema ack) "DurabilityAckV1")
              || negb (length (ack_streams ack) =? 1)%nat) "invalid raw segment terminal ACK";
  watermark ← expect (ack_streams ack !! 0%nat);
  _ ← reject (negb (sc_file_size scan =? ack_durable_through_offset ack)
      || negb (sc_last_good_offset scan =? ack_durable_through_offset ack)
      || negb (sc_records scan =? ack_durable_record_count ack)
      || negb (String.eqb (sc_last_record_sha256 scan) (ack_last_record_sha256 ack))
      || negb (bool_decide (sc_streams scan = ack_streams ack))
      || negb (String.eqb (wm_connection_epoch watermark) (gn_connection_epoch genesis))
      || negb (String.eqb (wm_stream watermark) (gn_stream genesis)))
      "terminal ACK does not match the exact raw segment";
  seal ← seal_raw_segment genesis raw_file ack;
  _ ← validate_seal_shape seal;
  Ok (mkVerified raw_path genesis ack seal).

(** ** The manifest writer *)
Section manifest_writer.
Context {S : Type} `{Hsink : DurableSink S}.

Definition manifest_from_sink (sink : S) : res (RawSegmentManifestWriter S) :=
  let '(sink, r) := write_all MANIFEST_MAGIC sink in
  _ ← map_err "write segment manifest magic: " r;
  let '(sink, r) := sync_all sink in
  _ ← map_err "sync segment manifest magic: " r;
  Ok (mkManifestWriter sink 0 (len MANIFEST_MAGIC) ZERO_DIGEST None ∅ false).

Definition append_verified (fs : files) (verified : VerifiedRawSegmentV1)
    : SE (RawSegmentManifestWriter S) RawSegmentManifestAckV1 :=
  w ← get;
  lift (reject (mw_poisoned w) "raw segment manifest writer is poisoned");;
  current ← lift (verify_and_seal_raw_segment fs (vr_raw_path verified)
    (sl_raw_file (vr_seal verified)) (vr_genesis verified) (vr_ack verified));
  lift (reject (negb (bool_decide (vr_seal current = vr_seal verified)))
          "raw segment changed after verification");;
  lift (validate_manifest_transition (mw_record_count w) (mw_last_seal w) (mw_raw_files w)
          (vr_seal current));;
  let body := mkManifestBody "RawSegmentManifestRecordV1" (mw_record_count w)
                (mw_previous_digest w) (vr_seal current) in
  body_bytes ← lift (map_err "serialize segment manifest record: " (to_vec body));
  lift (reject (MAX_MANIFEST_RECORD_BYTES <? len body_bytes)
          "segment manifest record exceeds maximum size");;
  lift (reject (u32_max <? len body_bytes) "segment manifest record length does not fit u32");;
  let digest := sha256 body_bytes in
  let encoded := encode_record body_bytes digest in
  next_record_count ← lift (ok_or (checked_add (mw_record_count w) 1)
    "segment manifest record index overflow");
  next_end_offset ← lift (ok_or (checked_add (mw_end_offset w) (len encoded))
    "segment manifest offset overflow");
  let '(s, r) := write_flush_sync encoded (mw_sink w) in
  match r with
  | inl error =>
      put (mkManifestWriter s (mw_record_count w) (mw_end_offset w) (mw_previous_digest w)
             (mw_last_seal w) (mw_raw_files w) true);;
      throw ("sync raw segment manifest; writer poisoned: " ++ error)
  | inr _ =>
      put (mkManifestWriter s next_record_count next_end_offset (hex digest)
             (Some (vr_seal current)) ({[ sl_raw_file (vr_seal current) ]} ∪ mw_raw_files w)
             (mw_poisoned w));;
      mret (mkManifestAck (mw_record_count w) (sl_segment_index (vr_seal current))
              next_end_offset (hex digest))
  end.
End manifest_writer.

(** ** The scan *)

(** The records of this journal cannot be empty: a zero length is refused with
    the lengths over the limit, before the body is read. *)
Definition read_manifest_frame (input : bytes) : frame_read :=
  if (4 <=? length input)%nat && (from_be_bytes (take 4 input) =? 0) then FrameTooLong
  else read_frame MAX_MANIFEST_RECORD_BYTES input.

Record manifest_state := mkManifestState {
  mt_entries : list RawSegmentManifestEntryV1; mt_previous_digest : string;
  mt_last_good_offset : Z; mt_last_seal : option RawSegmentSealV1; mt_raw_files : gset string;
  mt_reason : option string
}.
Definition stop_manifest (reason : string) (st : manifest_state) : manifest_state :=
  mkManifestState (mt_entries st) (mt_previous_digest st) (mt_last_good_offset st)
    (mt_last_seal st) (mt_raw_files st) (Some reason).

(** The loop of [scan_segment_manifest]; a turn consumes a record, so
    [S (length input)] turns are enough ([manifest_loop_sound]). *)
Fixpoint manifest_loop (fuel : nat) (input : bytes) (st : manifest_state) : res manifest_state :=
  match fuel with
  | O => Panic
  | Datatypes.S fuel =>
    match read_manifest_frame input with
    | FrameEof => Ok st
    | FramePartialPrefix => Ok (stop_manifest "partial segment manifest length prefix" st)
    | FrameTooLong => Ok (stop_manifest "segment manifest record length exceeds limit" st)
    | FramePartialBody => Ok (stop_manifest "partial segment manifest body" st)
    | FramePartialDigest => Ok (stop_manifest "partial segment manifest digest" st)
    | FrameRead body_bytes stored_digest rest =>
        if negb (bool_decide (sha256 body_bytes = stored_digest))
        then Ok (stop_manifest "segment manifest record digest mismatch" st) else
        match from_slice body_bytes with
        | inl error => Ok (stop_manifest ("invalid segment manifest JSON: " ++ error) st)
        | inr body =>
            if negb (String.eqb (mb_schema body) "RawSegmentManifestRecordV1")
               || negb (mb_record_index body =? len (mt_entries st))
               || negb (String.eqb (mb_previous_manifest_record_sha256 body)
                          (mt_previous_digest st))
               || negb (is_ok (validate_manifest_transition (mb_record_index body)
                                 (mt_last_seal st) (mt_raw_files st) (mb_seal body)))
            then Ok (stop_manifest "invalid segment manifest chain/record" st)
            else
              let digest := hex stored_digest in
              last_good_offset ← ok_or (checked_add (mt_last_good_offset st)
                (4 + len body_bytes + 32)) "segment manifest scan offset overflow";
              manifest_loop fuel rest
                (mkManifestState
                   (mt_entries st ++ [mkManifestEntry (mb_record_index body)
                      (mb_previous_manifest_record_sha256 body) digest (mb_seal body)])
                   digest last_good_offset (Some (mb_seal body))
                   ({[ sl_raw_file (mb_seal body) ]} ∪ mt_raw_files st) (mt_reason st))
        end
    end
  end.

Definition manifest_start : manifest_state :=
  mkManifestState [] ZERO_DIGEST (len MANIFEST_MAGIC) None ∅ None.

(** [scan_segment_manifest] of the bytes of the file *)
Definition scan_manifest_bytes (path : string) (file : bytes) : res RawSegmentManifestScanV1 :=
  if negb (bool_decide (take 8 file = MANIFEST_MAGIC))
  then Ok (mkManifestScan path (len file) 0 0 false (Some "bad segment manifest magic")
             ZERO_DIGEST []) else
  st ← manifest_loop (Datatypes.S (length (drop 8 file))) (drop 8 file) manifest_start;
  Ok (mkManifestScan path (len file) (len (mt_entries st)) (mt_last_good_offset st)
        (negb (bool_decide (is_Some (mt_reason st)))) (mt_reason st) (mt_previous_digest st)
        (mt_entries st)).
Definition scan_segment_manifest (fs : files) (path : string) : res RawSegmentManifestScanV1 :=
  file ← open_file fs path; scan_manifest_bytes path file.

(** ** Verification of the files, and recovery *)

(** The body of the loops of [verify_segment_manifest_files] and
    [verify_segment_manifest_prefix_files] *)
Definition verify_manifest_entry (fs : files) (base_directory : string)
    (entry : RawSegmentManifestEntryV1) : res VerifiedRawSegmentV1 :=
  let seal := me_seal entry in
  artifact ← verify_and_seal_raw_segment fs (path_join base_directory (sl_raw_file seal))
    (sl_raw_file seal) (genesis_from_seal seal) (ack_from_seal seal);
  _ ← reject (negb (bool_decide (vr_seal artifact = seal)))
        "manifest seal differs from verified raw segment";
  Ok artifact.

Definition verify_segment_manifest_files (fs : files) (scan : RawSegmentManifestScanV1)
    (base_directory : string) : res (list VerifiedRawSegmentV1) :=
  _ ← reject (negb (ms_clean_eof scan)) "cannot verify files from an unclean segment manifest";
  current_scan ← scan_segment_manifest fs (ms_path scan);
  _ ← reject (negb (bool_decide (current_scan = scan)))
        "segment manifest changed after it was scanned";
  try_map (verify_manifest_entry fs base_directory) (ms_entries scan).

Definition verify_segment_manifest_prefix_files (fs : files) (scan : RawSegmentManifestScanV1)
    (base_directory : string) (through_segment_index : Z) : res (list VerifiedRawSegmentV1) :=
  _ ← reject (negb (ms_clean_eof scan)) "cannot verify files from an unclean segment manifest";
  current_scan ← scan_segment_manifest fs (ms_path scan);
  _ ← reject (negb (bool_decide (current_scan = scan)))
        "segment manifest changed after it was scanned";
  count ← ok_or (checked_add through_segment_index 1) "segment prefix index overflow";
  _ ← reject (len (ms_entries scan) <? count)
        ("segment manifest has " ++ u_to_string (len (ms_entries scan))
         ++ " entries, cannot select through " ++ u_to_string through_segment_index);
  try_map (verify_manifest_entry fs base_directory) (take (Z.to_nat count) (ms_entries scan)).

(** The files after the call are returned beside the report. *)
Definition recover_segment_manifest_prefix (fs : files) (source destination : string)
    : res (RawSegmentManifestRecoveryV1 * files) :=
  source_scan ← scan_segment_manifest fs source;
  _ ← reject (ms_clean_eof source_scan) "source segment manifest already has a clean EOF";
  _ ← reject (ms_last_good_offset source_scan <? len MANIFEST_MAGIC)
        "source has no recoverable segment manifest prefix";
  input ← open_file fs source;
  _ ← reject (bool_decide (is_Some (fs !! destination)))
        ("create recovered segment manifest " ++ destination);
  let output := take (Z.to_nat (ms_last_good_offset source_scan)) input in
  let copied := len output in
  _ ← reject (negb (copied =? ms_last_good_offset source_scan))
        "short copy while recovering segment manifest";
  let fs := <[destination := output]> fs in
  recovered ← scan_segment_manifest fs destination;
  _ ← reject (negb (ms_clean_eof recovered)
      || negb (bool_decide (ms_entries recovered = ms_entries source_scan))
      || negb (String.eqb (ms_last_record_sha256 recovered) (ms_last_record_sha256 source_scan)))
      "recovered segment manifest prefix failed verification";
  excluded ← sub_u64 (ms_file_size source_scan) copied;
  Ok (mkManifestRecovery source destination (ms_file_size source_scan) copied excluded
        (ms_records recovered) (ms_last_record_sha256 recovered), fs).
End segments.

(** ** The chain of seals *)

(** Seals every one of which passes the transition check after those before it. *)
Inductive manifest_chain : list RawSegmentSealV1 → Prop :=
  | chain_nil : manifest_chain []
  | chain_snoc seals s :
      manifest_chain seals →
      validate_manifest_transition (len seals) (last seals) (list_to_set (sl_raw_file <$> seals)) s
        = Ok () →
      manifest_chain (seals ++ [s]).

(** What the check means: [old] is directly followed by [s]. *)
Definition seal_follows (old s : RawSegmentSealV1) : Prop :=
  sl_segment_index s = sl_segment_index old + 1 ∧
  sl_first_frame_index s = sl_last_frame_index old + 1 ∧
  sl_connection_epoch s = sl_connection_epoch old ∧ sl_stream s = sl_stream old ∧
  sl_previous_segment_terminal_sha256 s = sl_terminal_record_sha256 old.

Lemma validate_seal_shape_Ok s :
  validate_seal_shape s = Ok () →
  sl_records s = sl_last_frame_index s - sl_first_frame_index s + 1 ∧ 0 < sl_records s.
Proof.
  unfold validate_seal_shape. intros ([] & Hg%reject_Ok & H)%res_bind_Ok.
  apply res_bind_Ok in H as (_ & _ & H). apply res_bind_Ok in H as (_ & _ & H).
  apply res_bind_Ok in H as (_ & _ & H). apply res_bind_Ok in H as (n & Hn%ok_or_Ok & H).
  apply res_bind_Ok in H as ([] & Hr%reject_Ok & _). split_orb.
  apply bind_Some in Hn as (m & [? ->]%checked_sub_Some & [? ->]%checked_add_Some). lia.
Qed.

Lemma transition_Ok n previous used s :
  validate_manifest_transition n previous used s = Ok () →
  sl_segment_index s = n ∧ sl_raw_file s ∉ used ∧ validate_seal_shape s = Ok () ∧
  match previous with
  | None => sl_first_frame_index s = 0 ∧ sl_previous_segment_terminal_sha256 s = ZERO_DIGEST
  | Some old => seal_follows old s
  end.
Proof.
  unfold validate_manifest_transition. intros ([] & Hs & H)%res_bind_Ok.
  apply res_bind_Ok in H as ([] & Hg%reject_Ok & H). split_orb.
  match goal with H : bool_decide _ = false |- _ => apply bool_decide_eq_false in H end.
  split; [lia|]. split; [done|]. split; [done|]. destruct previous as [old|].
  - apply res_bind_Ok in H as (a & [_ ->]%ok_or_Ok%checked_add_Some & H).
    apply res_bind_Ok in H as (b & [_ ->]%ok_or_Ok%checked_add_Some & H%reject_Ok). split_orb.
    repeat match goal with H : String.eqb _ _ = true |- _ => apply String.eqb_eq in H end.
    unfold seal_follows. split_and!; (done || lia).
  - apply reject_Ok in H. split_orb.
    repeat match goal with H : String.eqb _ _ = true |- _ => apply String.eqb_eq in H end.
    split; [lia|done].
Qed.

(** A chain counts its segments and frames from zero without a gap, keeps one
    identity, links the digests and uses every file once. *)
Lemma manifest_chain_spec seals :
  manifest_chain seals →
  NoDup (sl_raw_file <$> seals) ∧
  (∀ i s, seals !! i = Some s → sl_segment_index s = Z.of_nat i ∧ validate_seal_shape s = Ok ()) ∧
  (∀ s, seals !! 0%nat = Some s → sl_first_frame_index s = 0 ∧
     sl_previous_segment_terminal_sha256 s = ZERO_DIGEST) ∧
  (∀ i s t, seals !! i = Some s → seals !! S i = Some t → seal_follows s t).
Proof.
  induction 1 as [|seals s Hc (IH1 & IH2 & IH3 & IH4) (Hn & Hf & Hs & Hp)%transition_Ok].
  { split_and!; [constructor|done..]. }
  rewrite fmap_app. split_and!.
  - apply NoDup_app. split; [done|]. split; [|apply NoDup_singleton].
    intros f Hin ->%list_elem_of_singleton. by apply Hf, elem_of_list_to_set.
  - intros i t [?|[Hle Ht]]%lookup_app_Some; [by apply IH2|].
    apply list_lookup_singleton_Some in Ht as [Hi <-]. split; [|done].
    rewrite Hn. unfold len. f_equal. lia.
  - intros t [?|[Hle Ht]]%lookup_app_Some; [by apply IH3|].
    apply list_lookup_singleton_Some in Ht as [Hi <-].
    destruct seals; [done|cbn in *; lia].
  - intros i t u Ht Hu. apply lookup_app_Some in Hu as [Hu|[Hle Hu]].
    + apply lookup_lt_Some in Hu as Hlt. rewrite lookup_app_l in Ht by lia. by eapply IH4.
    + apply list_lookup_singleton_Some in Hu as [Hi <-].
      rewrite lookup_app_l in Ht by lia. rewrite last_lookup in Hp.
      replace (Nat.pred (length seals)) with i in Hp by lia. by rewrite Ht in Hp.
Qed.

(** ** Theory of the journal *)
Section manifest_theory.
Context `{Hsha : Sha256} `{Hmb : Serde ManifestBodyV1}.

Definition manifest_inv (st : manifest_state) : Prop :=
  manifest_chain (me_seal <$> mt_entries st) ∧ mt_last_seal st = last (me_seal <$> mt_entries st) ∧
  mt_raw_files st = list_to_set (sl_raw_file <$> (me_seal <$> mt_entries st)).

Definition next_manifest (body : ManifestBodyV1) (bytes : bytes) (st : manifest_state)
    : manifest_state :=
  mkManifestState
    (mt_entries st ++ [mkManifestEntry (mb_record_index body)
       (mb_previous_manifest_record_sha256 body) (hex (sha256 bytes)) (mb_seal body)])
    (hex (sha256 bytes)) (mt_last_good_offset st + (4 + len bytes + 32)) (Some (mb_seal body))
    ({[ sl_raw_file (mb_seal body) ]} ∪ mt_raw_files st) (mt_reason st).
Definition manifest_accepts (body : ManifestBodyV1) (st : manifest_state) : bool :=
  String.eqb (mb_schema body) "RawSegmentManifestRecordV1"
  && (mb_record_index body =? len (mt_entries st))
  && String.eqb (mb_previous_manifest_record_sha256 body) (mt_previous_digest st)
  && is_ok (validate_manifest_transition (mb_record_index body) (mt_last_seal st)
              (mt_raw_files st) (mb_seal body)).
Definition clear_reason (st : manifest_state) : manifest_state :=
  mkManifestState (mt_entries st) (mt_previous_digest st) (mt_last_good_offset st)
    (mt_last_seal st) (mt_raw_files st) None.

Lemma next_manifest_inv body bytes st :
  manifest_inv st → manifest_accepts body st = true → manifest_inv (next_manifest body bytes st).
Proof.
  intros (Hc & Hl & Hf) Ha. unfold manifest_accepts in Ha. split_orb.
  assert (mb_record_index body = len (me_seal <$> mt_entries st)) as Hi.
  { unfold len. rewrite length_fmap. fold (len (mt_entries st)). lia. }
  assert (validate_manifest_transition (mb_record_index body) (mt_last_seal st) (mt_raw_files st)
    (mb_seal body) = Ok ()) as Ht by (by destruct (validate_manifest_transition _ _ _ _) as [[]| |]).
  unfold manifest_inv, next_manifest. cbn [mt_entries mt_last_seal mt_raw_files].
  rewrite fmap_app. cbn [fmap list_fmap me_seal]. split_and!.
  - apply chain_snoc; [done|]. by rewrite <-Hi, <-Hl, <-Hf.
  - by rewrite last_snoc.
  - rewrite fmap_app, list_to_set_app_L, Hf. cbn. set_solver.
Qed.

Lemma encoded_length body digest rest :
  len body ≤ u32_max →
  (4 <=? length (encode_record body digest ++ rest))%nat = true ∧
  from_be_bytes (take 4 (encode_record body digest ++ rest)) = len body.
Proof.
  intros Hm. unfold encode_record. rewrite <-!app_assoc, take_app_length'.
  - split; [apply Nat.leb_le; rewrite !length_app, length_to_be_bytes; lia|].
    apply from_to_be_bytes. pose proof (len_nonneg body). unfold u32_max in Hm. simpl. lia.
  - by rewrite length_to_be_bytes.
Qed.

Lemma read_manifest_frame_inv input body digest rest :
  read_manifest_frame input = FrameRead body digest rest →
  input = encode_record body digest ++ rest ∧ 0 < len body ≤ MAX_MANIFEST_RECORD_BYTES ∧
  length digest = 32%nat.
Proof.
  unfold read_manifest_frame. destruct (_ && _) eqn:Hz; [done|].
  intros (-> & Hm & Hd)%read_frame_inv; [|done]. pose proof (len_nonneg body).
  destruct (encoded_length body digest rest) as [H4 Hlen].
  { unfold MAX_MANIFEST_RECORD_BYTES, u32_max in *. lia. }
  rewrite H4, Hlen in Hz. cbn [andb] in Hz. split_and!; (done || lia).
Qed.

Lemma read_manifest_frame_encode body digest rest :
  0 < len body ≤ MAX_MANIFEST_RECORD_BYTES → length digest = 32%nat →
  read_manifest_frame (encode_record body digest ++ rest) = FrameRead body digest rest.
Proof.
  intros [H0 H1] Hd. unfold read_manifest_frame.
  destruct (encoded_length body digest rest) as [-> ->].
  { unfold MAX_MANIFEST_RECORD_BYTES, u32_max in *. lia. }
  rewrite (proj2 (Z.eqb_neq _ _)) by lia. by apply read_frame_encode.
Qed.

Context `{!Sha256Laws Hsha}.

(** One turn of the scan on a record that is accepted. *)
Lemma manifest_loop_step fuel body bytes rest st :
  0 < len bytes ≤ MAX_MANIFEST_RECORD_BYTES → from_slice bytes = inr body →
  manifest_accepts body st = true →
  mt_last_good_offset st + (4 + len bytes + 32) ≤ u64_max →
  manifest_loop (Datatypes.S fuel) (encode_record bytes (sha256 bytes) ++ rest) st =
  manifest_loop fuel rest (next_manifest body bytes st).
Proof.
  intros Hl Hs Ha Ho. cbn [manifest_loop].
  rewrite read_manifest_frame_encode by (done || apply length_sha256).
  rewrite bool_decide_eq_true_2 by done. cbn [negb]. rewrite Hs.
  unfold manifest_accepts in Ha. apply andb_prop in Ha as [Ha ->].
  apply andb_prop in Ha as [Ha ->]. apply andb_prop in Ha as [-> ->]. cbn [negb orb].
  by rewrite checked_add_fits.
Qed.

Lemma read_manifest_frame_eof input : read_manifest_frame input = FrameEof → input = [].
Proof.
  unfold read_manifest_frame, read_frame. destruct (_ && _); [done|].
  case_bool_decide; [done|]. by repeat case_match.
Qed.

(** What a scan from [st] leaves: the records before the first problem. *)
Definition manifest_scanned (st : manifest_state) (input : bytes) (st' : manifest_state) : Prop :=
  ∃ more good bad, manifest_inv st' ∧ mt_entries st' = mt_entries st ++ more ∧
    input = good ++ bad ∧ mt_last_good_offset st' = mt_last_good_offset st + len good ∧
    (mt_reason st' = None ↔ bad = []) ∧
    ∀ fuel, (length good < fuel)%nat → manifest_loop fuel good st = Ok (clear_reason st').

Lemma manifest_scanned_here input st st' :
  manifest_inv st → mt_reason st = None → clear_reason st' = clear_reason st →
  (mt_reason st' = None ↔ input = []) → manifest_scanned st input st'.
Proof.
  intros Hinv Hr Hst Hin. exists [], [], input. rewrite app_nil_r. destruct st, st'.
  injection Hst as -> -> -> -> ->. cbn in *. subst. split_and!; try done.
  - change (len []) with 0. lia.
  - intros [|fuel] ?; [lia|done].
Qed.

Lemma manifest_scanned_next body bytes rest st st' :
  0 < len bytes ≤ MAX_MANIFEST_RECORD_BYTES → from_slice bytes = inr body →
  manifest_accepts body st = true →
  mt_last_good_offset st + (4 + len bytes + 32) ≤ u64_max →
  manifest_scanned (next_manifest body bytes st) rest st' →
  manifest_scanned st (encode_record bytes (sha256 bytes) ++ rest) st'.
Proof.
  intros Hb Hs Ha Ho (more & good & bad & Hi & He & -> & Ho' & Hc & Hre).
  eexists (_ :: more), (encode_record bytes (sha256 bytes) ++ good), bad. split_and!; try done.
  - rewrite He. cbn. by rewrite <-app_assoc.
  - by rewrite app_assoc.
  - rewrite Ho'. cbn [next_manifest mt_last_good_offset].
    rewrite len_app, length_encode_record. unfold len at 4. rewrite length_sha256. lia.
  - intros [|fuel'] Hf'; [lia|]. rewrite length_app in Hf'.
    rewrite (manifest_loop_step _ body) by (done || lia). apply Hre.
    pose proof (length_encode_record bytes (sha256 bytes)) as Hlen. unfold len in Hlen at 1.
    pose proof (len_nonneg (sha256 bytes)). lia.
Qed.

(** The scan is total. *)
Lemma manifest_loop_sound fuel input st :
  (length input < fuel)%nat → manifest_inv st → mt_reason st = None →
  mt_last_good_offset st + len input ≤ u64_max →
  ∃ st', manifest_loop fuel input st = Ok st' ∧ manifest_scanned st input st'.
Proof.
  revert input st. induction fuel as [|fuel IH]; intros input st Hf Hinv Hr Hmax; [lia|].
  assert (read_manifest_frame input ≠ FrameEof → ∀ reason, ∃ st',
    Ok (stop_manifest reason st) = Ok st' ∧ manifest_scanned st input st') as Hstop.
  { intros Hne reason. eexists. split; [done|]. apply manifest_scanned_here; try done.
    split; [done|]. by intros ->. }
  cbn [manifest_loop].
  destruct (read_manifest_frame input) as [| | | | |bytes digest rest] eqn:Er;
    [clear Hstop|by apply Hstop..|specialize (Hstop ltac:(done))].
  { apply read_manifest_frame_eof in Er as ->. exists st. split; [done|].
    by apply manifest_scanned_here. }
  apply read_manifest_frame_inv in Er as (-> & Hb & Hd).
  rewrite length_app in Hf. pose proof (length_encode_record bytes digest) as Hlen.
  rewrite len_app, Hlen in Hmax. unfold len in Hlen at 1. unfold len in Hmax at 2.
  rewrite Hd in Hmax. pose proof (len_nonneg rest). pose proof (len_nonneg digest).
  case_bool_decide as Hsha'; cbn [negb]; [subst digest|by apply Hstop].
  destruct (from_slice bytes) as [e|body] eqn:Hs; [by apply Hstop|].
  destruct (_ || _) eqn:Hg; [by apply Hstop|].
  assert (manifest_accepts body st = true) as Ha.
  { unfold manifest_accepts. split_orb. by repeat (apply andb_true_iff; split). }
  rewrite checked_add_fits by lia. cbn [ok_or mbind res_bind]. fold (next_manifest body bytes st).
  destruct (IH rest (next_manifest body bytes st)) as (st' & -> & Hscan);
    [lia|by apply next_manifest_inv|done|cbn [next_manifest mt_last_good_offset]; lia|].
  exists st'. split; [done|]. apply (manifest_scanned_next body); (done || lia).
Qed.

Lemma manifest_start_inv : manifest_inv manifest_start.
Proof. split_and!; [constructor|done..]. Qed.

Lemma scan_manifest_spec path file :
  len file ≤ u64_max →
  ∃ sc, scan_manifest_bytes path file = Ok sc ∧ manifest_chain (me_seal <$> ms_entries sc) ∧
    ms_path sc = path.
Proof.
  intros Hlen. unfold scan_manifest_bytes. case_bool_decide as Hm; cbn [negb].
  - destruct (manifest_loop_sound (Datatypes.S (length (drop 8 file))) (drop 8 file) manifest_start)
      as (st & -> & _ & _ & _ & (Hc & _) & _); [lia|apply manifest_start_inv|done| |].
    { rewrite <-(take_drop 8 file), Hm, len_app in Hlen. done. }
    cbn [mbind res_bind]. by eexists.
  - eexists. split; [done|]. split; [constructor|done].
Qed.

(** What a scan of a file with the magic reports, and what it would report of
    the prefix it accepts. *)
Lemma scan_manifest_split path file sc :
  len file ≤ u64_max → take 8 file = MANIFEST_MAGIC → scan_manifest_bytes path file = Ok sc →
  ∃ good bad, file = good ++ bad ∧ ms_last_good_offset sc = len good ∧ len MANIFEST_MAGIC ≤ len good ∧
    ms_file_size sc = len file ∧ ms_clean_eof sc = bool_decide (bad = []) ∧
    ms_records sc = len (ms_entries sc) ∧ manifest_chain (me_seal <$> ms_entries sc) ∧
    ∀ path', scan_manifest_bytes path' good =
      Ok (mkManifestScan path' (len good) (ms_records sc) (len good) true None
            (ms_last_record_sha256 sc) (ms_entries sc)).
Proof.
  intros Hlen Hm Hscan. unfold scan_manifest_bytes in Hscan.
  rewrite bool_decide_eq_true_2 in Hscan by done. cbn [negb] in Hscan.
  assert (file = MANIFEST_MAGIC ++ drop 8 file) as Hfile by (by rewrite <-Hm, take_drop).
  assert (8 + len (drop 8 file) = len file) as Hsize by (rewrite Hfile at 2; by rewrite len_app).
  destruct (manifest_loop_sound (Datatypes.S (length (drop 8 file))) (drop 8 file) manifest_start)
    as (st & Hst & more & good & bad & Hi & He & Hin & Ho & Hc & Hre);
    [lia|apply manifest_start_inv|done|change (8 + len (drop 8 file) ≤ u64_max); lia|].
  rewrite Hst in Hscan. injection Hscan as <-.
  change (mt_last_good_offset manifest_start) with 8 in Ho. pose proof (len_nonneg good).
  exists (MANIFEST_MAGIC ++ good), bad. rewrite len_app. change (len MANIFEST_MAGIC) with 8.
  cbn [ms_last_good_offset ms_entries ms_last_record_sha256 ms_records ms_file_size ms_clean_eof].
  split_and!; [by rewrite <-app_assoc, <-Hin|lia|lia|done| |done|apply Hi|].
  - destruct (mt_reason st); cbn.
    + rewrite bool_decide_eq_false_2; [done|]. intros E. by apply Hc in E.
    + by rewrite bool_decide_eq_true_2 by (by apply Hc).
  - intros path'. unfold scan_manifest_bytes. rewrite take_app_length', drop_app_length' by done.
    rewrite bool_decide_eq_true_2 by done. cbn [negb]. rewrite Hre by lia. cbn [mbind res_bind].
    rewrite len_app. change (len MANIFEST_MAGIC) with 8. by rewrite <-Ho.
Qed.

(** Recovery of a damaged manifest keeps everything that can be kept. For any
    file that begins with the magic and does not scan cleanly, recovery into a new
    file succeeds; it writes the first [last_good_offset] bytes of the source, and
    a scan of them is clean and finds the same chain of segments. The source and
    every other file stay as they are. *)
Theorem manifest_recovery_exact fs source destination file sc :
  fs !! source = Some file → fs !! destination = None → len file ≤ u64_max →
  take 8 file = MANIFEST_MAGIC → scan_segment_manifest fs source = Ok sc →
  ms_clean_eof sc = false →
  ∃ rv good bad sc', recover_segment_manifest_prefix fs source destination
      = Ok (rv, <[destination := good]> fs) ∧
    file = good ++ bad ∧ bad ≠ [] ∧ mr_copied_valid_prefix_bytes rv = len good ∧
    mr_excluded_tail_bytes rv = len bad ∧
    scan_segment_manifest (<[destination := good]> fs) destination = Ok sc' ∧
    ms_clean_eof sc' = true ∧ ms_entries sc' = ms_entries sc ∧
    mr_recovered_records rv = ms_records sc ∧ manifest_chain (me_seal <$> ms_entries sc).
Proof.
  intros Hs Hd Hlen Hm Hscan Hclean.
  unfold recover_segment_manifest_prefix. rewrite Hscan. cbn [mbind res_bind]. rewrite Hclean.
  unfold scan_segment_manifest, open_file in Hscan |- *. rewrite Hs in Hscan |- *.
  cbn [ok_or mbind res_bind] in Hscan.
  destruct (scan_manifest_split source file sc Hlen Hm Hscan)
    as (good & bad & -> & Ho & Hmin & Hsize & Hc & Hrec & Hchain & Hre).
  rewrite Hclean in Hc. symmetry in Hc. apply bool_decide_eq_false in Hc.
  rewrite Ho, Hd, Hsize. assert (Z.to_nat (len good) = length good) as -> by (unfold len; lia).
  assert (∀ c msg, c = false → reject c msg = Ok ()) as pass by (intros; by apply reject_Ok).
  rewrite (pass false "source segment manifest already has a clean EOF") by done.
  rewrite (pass _ "source has no recoverable segment manifest prefix") by lia.
  cbn [ok_or mbind res_bind]. rewrite take_app_length.
  rewrite (pass (bool_decide _)) by (apply bool_decide_eq_false_2; by intros []).
  rewrite (pass _ "short copy while recovering segment manifest") by (by rewrite Z.eqb_refl).
  cbn [mbind res_bind]. rewrite lookup_insert_eq. cbn [ok_or mbind res_bind]. rewrite Hre.
  cbn [mbind res_bind ms_clean_eof ms_entries ms_last_record_sha256 ms_records].
  rewrite bool_decide_eq_true_2, String.eqb_refl by done. cbn [negb orb].
  unfold sub_u64. rewrite len_app in *. pose proof (len_nonneg bad).
  rewrite (proj2 (checked_sub_Some _ _ (len bad))) by lia. cbn [expect mbind res_bind].
  eexists _, good, bad, _. split; [reflexivity|]. rewrite lookup_insert_eq.
  cbn [ok_or mbind res_bind]. rewrite Hre.
  split_and!; try done.
Qed.

(** *** The writer *)
Context `{!SerdeLaws ManifestBodyV1 Hmb} `{!SerdeNonempty ManifestBodyV1 Hmb}.

Definition manifest_runs (bs : bytes) (st : manifest_state) : Prop :=
  ∀ rest fuel, (length (bs ++ rest) < fuel)%nat →
  ∃ fuel', (length rest < fuel')%nat ∧
    manifest_loop fuel (bs ++ rest) manifest_start = manifest_loop fuel' rest st.

Lemma manifest_runs_snoc bs st body bytes :
  manifest_runs bs st → to_vec body = inr bytes → len bytes ≤ MAX_MANIFEST_RECORD_BYTES →
  manifest_accepts body st = true → mt_last_good_offset st + (4 + len bytes + 32) ≤ u64_max →
  manifest_runs (bs ++ encode_record bytes (sha256 bytes)) (next_manifest body bytes st).
Proof.
  intros Hrun Hv Hl Ha Ho rest fuel Hf. rewrite <-app_assoc in *.
  destruct (Hrun _ _ Hf) as ([|fuel'] & Hf' & ->); [lia|]. exists fuel'.
  pose proof (length_encode_record bytes (sha256 bytes)) as Hlen. unfold len in Hlen at 1.
  rewrite length_app in Hf'. pose proof (len_nonneg (sha256 bytes)). pose proof (len_nonneg bytes).
  split; [lia|]. apply from_to_vec in Hv as Hs. apply manifest_loop_step; [|done..].
  split; [|done]. destruct bytes; [by apply from_slice_nil in Hs|]. rewrite len_cons.
  pose proof (len_nonneg bytes). lia.
Qed.

Context `{Hval : SerdeValue} `{Hb64 : Base64}.
Section with_sink.
Context {S : Type} `{Hsink : DurableSink S} `{Hlaws : !SinkLaws S Hsink}.

(** A history of [append_verified] calls, each with the files it finds; the
    seals of the calls that returned an acknowledgement are collected. *)
Fixpoint run_manifest (ops : list (files * VerifiedRawSegmentV1)) (w : RawSegmentManifestWriter S)
    (acked : list RawSegmentSealV1) : RawSegmentManifestWriter S * list RawSegmentSealV1 :=
  match ops with
  | [] => (w, acked)
  | (fs, v) :: ops =>
      match append_verified fs v w with
      | (w, Ok _) => run_manifest ops w (acked ++ [vr_seal v])
      | (w, _) => run_manifest ops w acked
      end
  end.

Definition manifest_writer_inv (w : RawSegmentManifestWriter S) (acked : list RawSegmentSealV1)
    : Prop :=
  ∃ bs st, manifest_runs bs st ∧ manifest_inv st ∧ mt_reason st = None ∧
    me_seal <$> mt_entries st = acked ∧ len (mt_entries st) = mw_record_count w ∧
    mt_previous_digest st = mw_previous_digest w ∧ mt_last_good_offset st = mw_end_offset w ∧
    mt_last_seal st = mw_last_seal w ∧ mt_raw_files st = mw_raw_files w ∧
    mw_end_offset w = len MANIFEST_MAGIC + len bs ∧
    MANIFEST_MAGIC ++ bs `prefix_of` synced (mw_sink w) ∧
    (mw_poisoned w = false →
     contents (mw_sink w) = MANIFEST_MAGIC ++ bs ∧ synced (mw_sink w) = MANIFEST_MAGIC ++ bs).

(** A seal that passes the transition check and is written. *)
Lemma manifest_written_inv w s seal bytes acked :
  manifest_writer_inv w acked → mw_poisoned w = false →
  validate_manifest_transition (mw_record_count w) (mw_last_seal w) (mw_raw_files w) seal = Ok () →
  to_vec (mkManifestBody "RawSegmentManifestRecordV1" (mw_record_count w) (mw_previous_digest w) seal)
    = inr bytes →
  len bytes ≤ MAX_MANIFEST_RECORD_BYTES →
  mw_end_offset w + len (encode_record bytes (sha256 bytes)) ≤ u64_max →
  contents s = contents (mw_sink w) ++ encode_record bytes (sha256 bytes) → synced s = contents s →
  manifest_writer_inv (mkManifestWriter s (mw_record_count w + 1)
    (mw_end_offset w + len (encode_record bytes (sha256 bytes))) (hex (sha256 bytes)) (Some seal)
    ({[ sl_raw_file seal ]} ∪ mw_raw_files w) false) (acked ++ [seal]).
Proof.
  intros (bs & st & Hrun & Hi & Hre & Hs & Hc & Hd & Ho & Hl & Hf & Hend & Hpre & Hok) Hp Ht Hv Hmax
    He Hw1 Hw2.
  set (body := mkManifestBody _ _ _ _) in *. destruct (Hok Hp) as [Hcont _].
  rewrite len_written in He |- *.
  assert (manifest_accepts body st = true) as Ha.
  { unfold manifest_accepts. cbn. by rewrite Hc, Hd, Hl, Hf, Ht, String.eqb_refl, Z.eqb_refl. }
  exists (bs ++ encode_record bytes (sha256 bytes)), (next_manifest body bytes st).
  assert (MANIFEST_MAGIC ++ bs ++ encode_record bytes (sha256 bytes) = contents s) as Hall
    by (by rewrite Hw1, Hcont, <-app_assoc).
  split_and!; cbn [next_manifest mt_reason mt_entries mt_previous_digest mt_last_good_offset
    mt_last_seal mt_raw_files mw_record_count mw_previous_digest mw_end_offset mw_last_seal
    mw_raw_files mw_sink mw_poisoned].
  - apply manifest_runs_snoc; [done..|lia].
  - by apply next_manifest_inv.
  - done.
  - by rewrite fmap_app, Hs.
  - rewrite len_app, Hc. done.
  - done.
  - rewrite Ho. lia.
  - done.
  - by rewrite Hf.
  - rewrite Hend, len_app, len_written. lia.
  - by rewrite Hw2, Hall.
  - intros _. by rewrite Hw2, Hall.
Qed.

Lemma append_verified_inv fs v w w' r acked :
  manifest_writer_inv w acked → append_verified fs v w = (w', r) →
  manifest_writer_inv w' (acked ++ if is_ok r then [vr_seal v] else []).
Proof.
  intros Hinv H. unfold append_verified in H.
  cbv [mbind SE_bind get lift reject put mret SE_ret throw] in H.
  assert (∀ e, (w, e) = (w', r) → is_ok e = false →
    manifest_writer_inv w' (acked ++ if is_ok r then [vr_seal v] else [])) as Hsame.
  { intros e [= <- <-] ->. by rewrite app_nil_r. }
  destruct (mw_poisoned w) eqn:Hp; [by eapply Hsame|].
  destruct (verify_and_seal_raw_segment _ _ _ _ _) as [c|e|]; [|by eapply Hsame..].
  case_bool_decide as Hseal; cbn [negb] in H; [|by eapply Hsame].
  destruct (validate_manifest_transition _ _ _ _) as [[]|e|] eqn:Ht; [|by eapply Hsame..].
  destruct (to_vec _) as [e|bytes] eqn:Hv; cbn [map_err] in H; [by eapply Hsame|].
  destruct (MAX_MANIFEST_RECORD_BYTES <? len bytes) eqn:Hmax; [by eapply Hsame|].
  destruct (u32_max <? len bytes); [by eapply Hsame|].
  destruct (checked_add (mw_record_count w) 1) eqn:Hn; cbn [ok_or] in H; [|by eapply Hsame].
  destruct (checked_add (mw_end_offset w) _) eqn:He; cbn [ok_or] in H; [|by eapply Hsame].
  apply checked_add_Some in Hn as [_ ->]. apply checked_add_Some in He as [He ->]. clear Hsame.
  rewrite Hseal in *.
  pose proof (write_flush_sync_synced (encode_record bytes (sha256 bytes)) (mw_sink w)) as Hmono.
  destruct (write_flush_sync _ _) as [s [e|[]]] eqn:Hw; cbn [fst] in Hmono.
  { destruct Hinv as (bs & st & Hrun & Hi & Hre & Hs & Hc & Hd & Ho & Hl & Hf & Hend & Hpre & Hok).
    injection H as <- <-. cbn [is_ok]. rewrite app_nil_r. exists bs, st.
    split_and!; cbn; try done. by trans (synced (mw_sink w)). }
  injection H as <- <-. apply write_flush_sync_Ok in Hw as [Hw1 Hw2].
  apply manifest_written_inv; (done || lia).
Qed.

Lemma run_manifest_inv ops w acked w' acked' :
  manifest_writer_inv w acked → run_manifest ops w acked = (w', acked') →
  manifest_writer_inv w' acked'.
Proof.
  revert w acked. induction ops as [|[fs v] ops IH]; intros w acked Hinv; cbn.
  - by intros [= <- <-].
  - destruct (append_verified fs v w) as [w1 r] eqn:H.
    apply (append_verified_inv _ _ _ _ _ _ Hinv) in H.
    destruct r; cbn in H; rewrite ?app_nil_r in H; by apply IH.
Qed.

Lemma manifest_from_sink_inv (s : S) w :
  contents s = [] → manifest_from_sink s = Ok w → manifest_writer_inv w [].
Proof.
  intros Hs H. unfold manifest_from_sink in H.
  destruct (write_all MANIFEST_MAGIC s) as [s1 [|[]]] eqn:Ew; [done|]. cbn [map_err mbind res_bind] in H.
  destruct (sync_all s1) as [s2 [|[]]] eqn:Es; [done|]. cbn [map_err mbind res_bind] in H.
  injection H as <-. apply write_all_contents in Ew. apply sync_all_contents in Es as [Ec Es].
  rewrite Hs in Ew. exists [], manifest_start.
  split_and!; try done; cbn [mw_sink mw_poisoned]; [|apply manifest_start_inv| |].
  - intros rest fuel Hf. by exists fuel.
  - by rewrite Es, Ew.
  - intros _. by rewrite Ec, Es, Ew.
Qed.

(** C33: published segments survive a crash. Take any history of [append_verified]
    calls on a new manifest, failed ones included, and any file that begins with
    the bytes on stable storage. Its scan returns a report; the segments in it
    begin with exactly those whose append was acknowledged, in order, and form a
    chain: contiguous indexes and frame ranges, linked digests, one stream, no file
    twice. With nothing behind a healthy writer's bytes the scan is clean and finds
    no other segment. *)
Theorem manifest_survives_crash (s : S) w0 ops w acked disk path :
  contents s = [] → manifest_from_sink s = Ok w0 → run_manifest ops w0 [] = (w, acked) →
  synced (mw_sink w) `prefix_of` disk → len disk ≤ u64_max →
  ∃ sc more, scan_manifest_bytes path disk = Ok sc ∧
    me_seal <$> ms_entries sc = acked ++ more ∧ manifest_chain (acked ++ more) ∧
    mw_end_offset w ≤ ms_last_good_offset sc ∧
    (mw_poisoned w = false → disk = synced (mw_sink w) → more = [] ∧ ms_clean_eof sc = true).
Proof.
  intros Hs Hw0 Hrun Hpre Hlen.
  destruct (run_manifest_inv _ _ _ _ _ (manifest_from_sink_inv _ _ Hs Hw0) Hrun)
    as (bs & st & Hruns & Hi & Hre & Hacked & Hc & Hd & Ho & Hl & Hf & Hend & [x1 Hx1] & Hok).
  destruct Hpre as [x2 Hx2]. rewrite Hx1, <-!app_assoc in Hx2. rewrite Hx2, !len_app in Hlen.
  destruct (Hruns (x1 ++ x2) (Datatypes.S (length (bs ++ x1 ++ x2))) ltac:(lia)) as (fuel & Hfuel & Hloop).
  destruct (manifest_loop_sound fuel (x1 ++ x2) st)
    as (st' & Hst' & more & good & bad & Hi' & He & Hin & Ho' & Hclean & _);
    [done|done|done|rewrite Ho, Hend, len_app; lia|].
  unfold scan_manifest_bytes. rewrite Hx2, take_app_length', drop_app_length' by done.
  rewrite bool_decide_eq_true_2 by done. cbn [negb]. rewrite Hloop, Hst'. cbn [mbind res_bind].
  eexists. exists (me_seal <$> more). split; [reflexivity|].
  cbn [ms_entries ms_last_good_offset ms_clean_eof].
  destruct Hi' as (Hchain & _). rewrite He, fmap_app, Hacked in Hchain |- *.
  split_and!; [done..|pose proof (len_nonneg good); lia|]. intros Hp Hdisk.
  destruct (Hok Hp) as [_ Hsync]. rewrite Hsync in Hdisk. apply app_inv_head in Hdisk.
  apply (f_equal length) in Hdisk. rewrite length_app in Hdisk.
  destruct (x1 ++ x2) eqn:Hx; [|cbn in Hdisk; lia].
  destruct fuel as [|fuel]; [cbn in Hfuel; lia|]. cbn in Hst'. injection Hst' as <-.
  split; [|by rewrite Hre].
  apply (f_equal length) in He. rewrite length_app in He. destruct more; [done|cbn in He; lia].
Qed.
End with_sink.
End manifest_theory.

(** ** The segments as one stream *)
Section segment_theory.
Context `{Hsha : Sha256} `{Hval : SerdeValue} `{Hb64 : Base64} `{!Sha256Laws Hsha}.

Definition frame_indexes (rs : list RawRecordEnvelopeV1) : list Z :=
  (λ r, rf_frame_index (re_frame r)) <$> rs.

(** A clean scan locked to a stream has read the whole input, records of that
    stream only. *)
Lemma scan_locked_records m input i k o p id E E' st :
  (length input < m)%nat →
  scan_loop (S (length input)) input k o p (Some id) E = (E', Ok st) → ss_reason st = None →
  ∃ rs, records_loop (S (length input)) input i o p E = (E', Ok rs) ∧
    ss_records st = k + len rs ∧ Forall (λ r, record_key (re_frame r) = id) rs ∧
    ss_last_good_offset st = default o (re_end_offset <$> last rs) ∧
    ss_previous st = default p (re_record_sha256 <$> last rs).
Proof.
  revert input i k o p E. induction m as [|m IH]; intros input i k o p E Hm Hs Hr; [lia|].
  cbn [scan_loop] in Hs.
  destruct (read_next_raw_record input p E) as [E1 [[[[[f d] n] rest]|]|e|]] eqn:Hn.
  - pose proof (read_next_shorter _ _ _ _ _ _ _ _ Hn).
    case_bool_decide as Hid; cbn [negb] in Hs; [|by injection Hs as <- <-].
    apply SE_bind_Ok in Hs as (k' & E2 & Hk & Hs). unfold lift in Hk. injection Hk as <- Hk.
    apply add_u64_Ok in Hk as [_ ->].
    apply SE_bind_Ok in Hs as (o' & E3 & Ho & Hs). unfold lift in Ho. injection Ho as <- Ho.
    destruct (checked_add o n) eqn:Hc; cbn in Ho; [|done]. injection Ho as ->.
    apply checked_add_Some in Hc as [Hc ->]. rewrite scan_loop_fuel in Hs by lia.
    apply (IH rest (i + 1)) in Hs as (rs & Hl & Hrec & Hkey & Hoff & Hprev); [|lia|done].
    rewrite (records_loop_step _ _ _ _ _ _ _ _ _ _ Hn Hc), Hl. eexists. split; [done|].
    rewrite len_cons, last_cons, Hoff, Hprev. split; [lia|]. split; [by constructor|].
    by destruct (last rs).
  - apply read_next_None_inv in Hn as [-> ->]. injection Hs as <- <-. exists [].
    change (len []) with 0. split_and!; [done|cbn; lia|constructor|done|done].
  - by injection Hs as <- <-.
  - done.
Qed.

Lemma records_loop_indexes k rs input i o p E E' :
  records_loop (S (length input)) input i o p E = (E', Ok rs) →
  Forall (λ r, record_key (re_frame r) = k) rs →
  frame_indexes rs = seqZ (default 0 (E !! k)) (len rs).
Proof.
  revert input i o p E. induction rs as [|a rs IH]; intros input i o p E H Hk; [done|].
  apply records_loop_inv in H as [(_ & ? & _)|(f & body & rest & rs1 & E1 & H)]; [done|].
  cbn zeta in H. destruct H as (Hr & -> & Ho & Hrs & Hl). injection Hrs as -> <-.
  apply Forall_cons in Hk as [Hf Hk]. cbn [re_frame] in Hf.
  apply read_next_agree in Hr as ([Hi _] & -> & _). pose proof (len_nonneg rs).
  rewrite len_cons, seqZ_cons by lia. rewrite <-Hf, Hi.
  unfold frame_indexes in IH |- *. rewrite fmap_cons, (IH _ _ _ _ _ Hl Hk). cbn [re_frame].
  rewrite <-Hf, lookup_insert_eq. unfold default, id. do 2 f_equal; lia.
Qed.

(** What a sealed segment's file holds. *)
Definition segment_holds (fs : files) (v : VerifiedRawSegmentV1) (rs : list RawRecordEnvelopeV1)
    : Prop :=
  (∃ raw, fs !! vr_raw_path v = Some raw ∧ read_raw_segment_records raw (vr_genesis v) = Ok rs ∧
     len raw = sl_durable_through_offset (vr_seal v)) ∧
  len rs = sl_records (vr_seal v) ∧
  frame_indexes rs = seqZ (sl_first_frame_index (vr_seal v)) (len rs) ∧
  Forall (λ r, record_key (re_frame r)
               = (sl_connection_epoch (vr_seal v), sl_stream (vr_seal v))) rs.

Lemma seal_raw_segment_Ok g file ack seal :
  seal_raw_segment g file ack = Ok seal →
  sl_records seal = ack_durable_record_count ack ∧ sl_first_frame_index seal = gn_next_frame_index g ∧
  sl_connection_epoch seal = gn_connection_epoch g ∧ sl_stream seal = gn_stream g ∧
  sl_durable_through_offset seal = ack_durable_through_offset ack ∧
  sl_terminal_record_sha256 seal = ack_last_record_sha256 ack ∧ 0 < sl_records seal.
Proof.
  unfold seal_raw_segment. intros H. do 3 apply res_bind_Ok in H as (_ & _ & H).
  apply res_bind_Ok in H as (wm & _ & H). apply res_bind_Ok in H as (_ & _ & H).
  apply res_bind_Ok in H as (n & Hn%ok_or_Ok & H). apply res_bind_Ok in H as ([] & Hc%reject_Ok & H).
  injection H as <-. cbn [sl_records]. split_and!; try done.
  apply bind_Some in Hn as (d & [? ->]%checked_sub_Some & [? ->]%checked_add_Some). lia.
Qed.

(** The last record of a sealed segment is the one the seal names. *)
Definition segment_ends (v : VerifiedRawSegmentV1) (rs : list RawRecordEnvelopeV1) : Prop :=
  ∃ r, last rs = Some r ∧ re_end_offset r = sl_durable_through_offset (vr_seal v) ∧
    re_record_sha256 r = sl_terminal_record_sha256 (vr_seal v).

Lemma verified_segment_sealed fs path file g ack v :
  verify_and_seal_raw_segment fs path file g ack = Ok v → ∃ rs, segment_holds fs v rs ∧ segment_ends v rs.
Proof.
  unfold verify_and_seal_raw_segment. intros H. apply res_bind_Ok in H as (_ & _ & H).
  apply res_bind_Ok in H as (_ & _ & H). apply res_bind_Ok in H as (raw & Hraw%ok_or_Ok & H).
  apply res_bind_Ok in H as (sc & Hscan & H). apply res_bind_Ok in H as ([] & Hc%reject_Ok & H).
  apply res_bind_Ok in H as (_ & _ & H). apply res_bind_Ok in H as (wm & _ & H).
  apply res_bind_Ok in H as ([] & Hm%reject_Ok & H). apply res_bind_Ok in H as (seal & Hs & H).
  apply res_bind_Ok in H as (_ & _ & H). injection H as <-.
  apply seal_raw_segment_Ok in Hs as (H1 & H2 & H3 & H4 & H5 & H6 & H7).
  unfold scan_raw_segment in Hscan. apply res_bind_Ok in Hscan as ([] & Hg & Hscan).
  unfold scan_raw_log_from in Hscan. destruct (read_magic raw) as [rest| |] eqn:Hmagic;
    [|by injection Hscan as <-..].
  destruct (scan_loop _ _ _ _ _ _ _) as [E' [st| |]] eqn:Hloop; [|done..].
  cbn [mbind res_bind] in Hscan. injection Hscan as <-. cbn in Hc, Hm. split_orb.
  assert (ss_reason st = None) as Hreason.
  { destruct (ss_reason st); [|done]. cbn in Hc. done. }
  eapply (scan_locked_records _ _ 0) in Hloop as (rs & Hl & Hrec & Hkey & Hoff & Hprev);
    [|apply Nat.lt_succ_diag_r|done].
  pose proof (records_loop_indexes _ _ _ _ _ _ _ _ Hl Hkey) as Hidx.
  rewrite lookup_singleton_eq in Hidx. unfold default, id in Hidx.
  exists rs. unfold segment_holds, segment_ends. cbn [vr_raw_path vr_genesis vr_seal].
  rewrite H1, H2, H3, H4, H5, H6. split_and!; [|lia|done|done|].
  2: { destruct (last rs) as [r|] eqn:Hlast.
       - exists r. cbn [fmap option_fmap option_map default] in Hoff, Hprev.
         repeat match goal with H : String.eqb _ _ = true |- _ => apply String.eqb_eq in H end.
         unfold id in *. split_and!; [done|lia|congruence].
       - apply last_None in Hlast as ->. change (len []) with 0 in Hrec. lia. }
  exists raw. split; [done|]. split; [|lia]. unfold read_raw_segment_records.
  rewrite Hg, Hmagic. cbn [mbind res_bind]. unfold read_raw_records_after_magic. rewrite Hl.
  cbn [snd mbind res_bind]. rewrite (proj2 (reject_Ok _ _ ())); [done|].
  apply existsb_none. apply (Forall_impl _ _ _ Hkey). intros r Hr.
  by rewrite bool_decide_eq_true_2.
Qed.

Lemma verified_segment_holds fs path file g ack v :
  verify_and_seal_raw_segment fs path file g ack = Ok v → ∃ rs, segment_holds fs v rs.
Proof. intros (rs & ? & _)%verified_segment_sealed. by exists rs. Qed.

Lemma manifest_chain_prefix l1 l2 : manifest_chain (l1 ++ l2) → manifest_chain l1.
Proof.
  induction l2 as [|s l2 IH] using rev_ind; [by rewrite app_nil_r|].
  rewrite app_assoc. inversion 1 as [Hnil|l s' Hc Ht Heq].
  - by destruct (l1 ++ l2).
  - apply app_inj_tail in Heq as [-> _]. by apply IH.
Qed.

(** The records of a chain of segments, one after another. *)
Lemma chain_records seals rss :
  manifest_chain seals →
  Forall2 (λ s rs, len rs = sl_records s ∧
    frame_indexes rs = seqZ (sl_first_frame_index s) (len rs) ∧
    Forall (λ r, record_key (re_frame r) = (sl_connection_epoch s, sl_stream s)) rs) seals rss →
  frame_indexes (concat rss) = seqZ 0 (len (concat rss)) ∧
  ∀ s, last seals = Some s → len (concat rss) = sl_last_frame_index s + 1 ∧
    Forall (λ r, record_key (re_frame r) = (sl_connection_epoch s, sl_stream s)) (concat rss).
Proof.
  intros Hc. revert rss. induction Hc as [|seals s Hc IH Ht]; intros rss Hrs.
  { apply Forall2_nil_inv_l in Hrs as ->. done. }
  apply Forall2_app_inv_l in Hrs as (rss1 & rss2 & Hrs & H2 & ->).
  apply Forall2_cons_inv_l in H2 as (rs & rss3 & (Hlen & Hidx & Hkey) & ->%Forall2_nil_inv_l & ->).
  destruct (IH _ Hrs) as [IHi IHl]. apply transition_Ok in Ht as (_ & _ & Hshape & Hprev).
  apply validate_seal_shape_Ok in Hshape as [Hrec _].
  rewrite concat_app. cbn [concat]. rewrite app_nil_r.
  assert (sl_first_frame_index s = len (concat rss1) ∧
    Forall (λ r, record_key (re_frame r) = (sl_connection_epoch s, sl_stream s)) (concat rss1))
    as [Hfirst Hkeys].
  { destruct (last seals) as [old|] eqn:Hold.
    - destruct (IHl _ eq_refl) as [-> Hk]. by destruct Hprev as (_ & ? & -> & -> & _).
    - apply last_None in Hold as ->. apply Forall2_nil_inv_l in Hrs as ->.
      destruct Hprev as [-> _]. split; [done|constructor]. }
  unfold frame_indexes in *. rewrite fmap_app, IHi, Hidx, len_app, Hfirst.
  rewrite seqZ_app by apply len_nonneg. split; [done|].
  intros t Hs. rewrite last_snoc in Hs. injection Hs as <-.
  split; [lia|]. by apply Forall_app.
Qed.

Context `{Hmb : Serde ManifestBodyV1}.

Lemma verify_manifest_entries_Ok fs base entries vs :
  try_map (verify_manifest_entry fs base) entries = Ok vs →
  vr_seal <$> vs = me_seal <$> entries ∧ ∃ rss, Forall2 (segment_holds fs) vs rss.
Proof.
  rewrite try_map_Ok_Forall2. induction 1 as [|e v entries vs H _ (IH & rss & IHr)].
  { split; [done|]. by exists []. }
  unfold verify_manifest_entry in H. apply res_bind_Ok in H as (a & Ha & H).
  apply res_bind_Ok in H as ([] & Hs%reject_Ok & H). injection H as ->.
  apply negb_false_iff, bool_decide_eq_true in Hs.
  apply verified_segment_holds in Ha as [rs Hrs].
  split; [cbn; by f_equal|]. exists (rs :: rss). by constructor.
Qed.

Lemma verify_manifest_selected fs scan base vs :
  map_Forall (λ _ f, len f ≤ u64_max) fs →
  (verify_segment_manifest_files fs scan base = Ok vs ∨
   ∃ through, verify_segment_manifest_prefix_files fs scan base through = Ok vs) →
  ∃ n, vr_seal <$> vs = take n (me_seal <$> ms_entries scan) ∧
    manifest_chain (me_seal <$> ms_entries scan) ∧ ∃ rss, Forall2 (segment_holds fs) vs rss.
Proof.
  intros Hfs H.
  assert (∀ sc, scan_segment_manifest fs (ms_path scan) = Ok sc → manifest_chain (me_seal <$> ms_entries sc))
    as Hchain.
  { intros sc (file & Hf%ok_or_Ok & Hsc)%res_bind_Ok. apply Hfs in Hf.
    destruct (scan_manifest_spec (ms_path scan) file Hf) as (sc' & Hsc' & ? & _). congruence. }
  destruct H as [H|[through H]]; apply res_bind_Ok in H as (_ & _ & H);
    apply res_bind_Ok in H as (sc & Hsc & H); apply res_bind_Ok in H as ([] & Heq%reject_Ok & H);
    apply negb_false_iff, bool_decide_eq_true in Heq as ->.
  - apply verify_manifest_entries_Ok in H as [Hs Hr]. exists (length (me_seal <$> ms_entries scan)).
    rewrite firstn_all. auto.
  - apply res_bind_Ok in H as (n & _ & H). apply res_bind_Ok in H as (_ & _ & H).
    apply verify_manifest_entries_Ok in H as [Hs Hr]. exists (Z.to_nat n).
    rewrite <-fmap_take. auto.
Qed.

Lemma segments_contiguous fs scan base vs :
  map_Forall (λ _ f, len f ≤ u64_max) fs →
  (verify_segment_manifest_files fs scan base = Ok vs ∨
   ∃ through, verify_segment_manifest_prefix_files fs scan base through = Ok vs) →
  ∃ rss, Forall2 (segment_holds fs) vs rss ∧
    frame_indexes (concat rss) = seqZ 0 (len (concat rss)) ∧
    (∀ a b, a ∈ concat rss → b ∈ concat rss → record_key (re_frame a) = record_key (re_frame b)) ∧
    vr_seal <$> vs `prefix_of` me_seal <$> ms_entries scan ∧ manifest_chain (vr_seal <$> vs).
Proof.
  intros Hfs H. destruct (verify_manifest_selected _ _ _ _ Hfs H) as (n & Hs & Hc & rss & Hr).
  assert (vr_seal <$> vs `prefix_of` me_seal <$> ms_entries scan) as Hpre
    by (rewrite Hs; exists (drop n (me_seal <$> ms_entries scan)); by rewrite take_drop).
  assert (manifest_chain (vr_seal <$> vs)) as Hchain
    by (destruct Hpre as [x Hx]; rewrite Hx in Hc; by apply manifest_chain_prefix in Hc).
  destruct (chain_records (vr_seal <$> vs) rss Hchain) as [Hidx Hlast].
  { apply Forall2_fmap_l. eapply Forall2_impl; [exact Hr|]. by intros v rs (_ & ? & ? & ?). }
  exists rss. split_and!; try done. intros a b Ha Hb.
  destruct (last (vr_seal <$> vs)) as [s|] eqn:Hl.
  - destruct (Hlast _ eq_refl) as [_ Hk]. rewrite Forall_forall in Hk.
    by rewrite (Hk a Ha), (Hk b Hb).
  - apply last_None, fmap_nil_inv in Hl as ->. apply Forall2_nil_inv_l in Hr as ->.
    by apply not_elem_of_nil in Ha.
Qed.

(** A verified manifest is one gapless stream. When the files of a manifest,
    or of a prefix of it, are verified, every file named by the selected entries
    can be read; the records of these files, one after another, are all of one
    connection and stream and their frame indexes are 0, 1, 2, ... without a gap
    or a repetition. The segments verified are the selected entries of the manifest
    and form a chain. *)
Theorem verified_segments_contiguous fs scan base vs :
  map_Forall (λ _ f, len f ≤ u64_max) fs →
  (verify_segment_manifest_files fs scan base = Ok vs ∨
   ∃ through, verify_segment_manifest_prefix_files fs scan base through = Ok vs) →
  ∃ rss, Forall2 (segment_holds fs) vs rss ∧
    frame_indexes (concat rss) = seqZ 0 (len (concat rss)) ∧
    (∀ a b, a ∈ concat rss → b ∈ concat rss → record_key (re_frame a) = record_key (re_frame b)) ∧
    vr_seal <$> vs `prefix_of` me_seal <$> ms_entries scan ∧ manifest_chain (vr_seal <$> vs).
Proof. apply segments_contiguous. Qed.
End segment_theory.

(** ** Instances: a capture of two segments *)
Module SegmentDemo.
#[export] Existing Instance toy_sha256.
#[export] Existing Instance toy_sha256_laws.
#[export] Existing Instance plain_base64.
#[export] Existing Instance RawDemo.wire_serde.
#[export] Existing Instance RawDemo.record_serde.
#[export] Existing Instance RawDemo.file_durable_sink.
#[export] Existing Instance RawDemo.file_sink_laws.

Definition no_ack : DurabilityAckV1 := mkAck "" 0 0 "" [].
Definition no_seal : RawSegmentSealV1 := mkSeal "" 0 "" "" "" 0 0 0 0 "" "".

(** A segment file and its terminal acknowledgement. *)
Definition capture (g : RawSegmentGenesisV1) (indexes : list Z) : bytes * DurabilityAckV1 :=
  match from_sink_segment (([], []) : RawDemo.file_sink) 100 g with
  | Ok w =>
      let w := (run_writer (((λ i, OpAppend (RawDemo.frame "depth" i)) <$> indexes) ++ [OpSync]) w []).1 in
      (contents (wr_sink w), default no_ack (wr_last_ack w))
  | _ => ([], no_ack)
  end.
Definition genesis0 : RawSegmentGenesisV1 :=
  mkGenesis "RawSegmentGenesisV1" 0 ZERO_DIGEST "epoch-1" "depth" 0.
Definition segment0 := Eval vm_compute in capture genesis0 [0; 1].
Definition seal0 : RawSegmentSealV1 := Eval vm_compute in
  match seal_raw_segment genesis0 "s0.bnraw" segment0.2 with Ok s => s | _ => no_seal end.
Definition genesis1 : RawSegmentGenesisV1 := Eval vm_compute in
  match successor_segment_genesis seal0 with Ok g => g | _ => genesis0 end.
Definition segment1 := Eval vm_compute in capture genesis1 [2; 3; 4].
Definition seal1 : RawSegmentSealV1 := Eval vm_compute in
  match seal_raw_segment genesis1 "s1.bnraw" segment1.2 with Ok s => s | _ => no_seal end.

Definition body (n : Z) (previous : string) (seal : RawSegmentSealV1) : ManifestBodyV1 :=
  mkManifestBody "RawSegmentManifestRecordV1" n previous seal.
#[export] Instance manifest_serde : Serde ManifestBodyV1 :=
  text_serde [body 0 ZERO_DIGEST seal0; body 1 (hex (sha256 [x2a])) seal1].
#[export] Instance manifest_serde_laws : SerdeLaws ManifestBodyV1 manifest_serde.
Proof. apply text_serde_laws. Qed.
#[export] Instance manifest_serde_nonempty : SerdeNonempty ManifestBodyV1 manifest_serde.
Proof. apply text_serde_nonempty. Qed.

Definition raws : files := {[ "cap/s0.bnraw" := segment0.1; "cap/s1.bnraw" := segment1.1 ]}.
Definition verified0 : VerifiedRawSegmentV1 := mkVerified "cap/s0.bnraw" genesis0 segment0.2 seal0.
Definition verified1 : VerifiedRawSegmentV1 := mkVerified "cap/s1.bnraw" genesis1 segment1.2 seal1.
Definition opened : RawSegmentManifestWriter RawDemo.file_sink := Eval vm_compute in
  match manifest_from_sink (([], []) : RawDemo.file_sink) with
  | Ok w => w | _ => mkManifestWriter ([], []) 0 0 "" None ∅ true end.
(** The second segment cannot be published before the first, nor twice. *)
Definition history : list (files * VerifiedRawSegmentV1) :=
  [(raws, verified1); (raws, verified0); (raws, verified1); (raws, verified1)].
Definition published := Eval vm_compute in run_manifest history opened [].
Definition manifest : bytes := Eval vm_compute in contents (mw_sink published.1).
Definition disk : files := <["cap/torn" := manifest ++ [x00]]> (<["cap/manifest" := manifest]> raws).
Definition scan : RawSegmentManifestScanV1 := Eval vm_compute in
  match scan_segment_manifest disk "cap/manifest" with
  | Ok sc => sc | _ => mkManifestScan "" 0 0 0 false None "" [] end.
Definition torn_scan : RawSegmentManifestScanV1 := Eval vm_compute in
  match scan_segment_manifest disk "cap/torn" with Ok sc => sc | _ => scan end.
Definition verified : list VerifiedRawSegmentV1 := Eval vm_compute in
  match verify_segment_manifest_files disk scan "cap" with Ok vs => vs | _ => [] end.
End SegmentDemo.

Section segment_witnesses.
Import SegmentDemo.

Lemma manifest_survives_crash_witness :
  published.2 = [seal0; seal1] ∧
  ∃ sc more, scan_manifest_bytes "cap/manifest" (synced (mw_sink published.1) ++ [x00]) = Ok sc ∧
    me_seal <$> ms_entries sc = published.2 ++ more ∧ manifest_chain (published.2 ++ more) ∧
    mw_end_offset published.1 ≤ ms_last_good_offset sc ∧
    (mw_poisoned published.1 = false →
     synced (mw_sink published.1) ++ [x00] = synced (mw_sink published.1) →
     more = [] ∧ ms_clean_eof sc = true).
Proof.
  split; [reflexivity|].
  apply (manifest_survives_crash ([], []) opened history published.1 published.2);
    [reflexivity|reflexivity|vm_compute; reflexivity|by eexists|vm_compute; congruence].
Defined.

Lemma disk_sizes : map_Forall (λ _ f, len f ≤ u64_max) disk.
Proof.
  unfold disk, raws. apply map_Forall_insert_2; [vm_compute; congruence|].
  apply map_Forall_insert_2; [vm_compute; congruence|].
  apply map_Forall_insert_2; [vm_compute; congruence|].
  apply map_Forall_singleton. vm_compute. congruence.
Qed.

Lemma manifest_recovery_exact_witness :
  ms_records torn_scan = 2 ∧
  ∃ rv good bad sc', recover_segment_manifest_prefix disk "cap/torn" "cap/new"
      = Ok (rv, <["cap/new" := good]> disk) ∧
    manifest ++ [x00] = good ++ bad ∧ bad ≠ [] ∧ mr_copied_valid_prefix_bytes rv = len good ∧
    mr_excluded_tail_bytes rv = len bad ∧
    scan_segment_manifest (<["cap/new" := good]> disk) "cap/new" = Ok sc' ∧
    ms_clean_eof sc' = true ∧ ms_entries sc' = ms_entries torn_scan ∧
    mr_recovered_records rv = ms_records torn_scan ∧
    manifest_chain (me_seal <$> ms_entries torn_scan).
Proof.
  split; [reflexivity|].
  apply (manifest_recovery_exact disk "cap/torn" "cap/new" (manifest ++ [x00]) torn_scan);
    [reflexivity|reflexivity|vm_compute; congruence|reflexivity|vm_compute; reflexivity|reflexivity].
Defined.

Lemma verified_segments_contiguous_witness :
  length verified = 2%nat ∧
  ∃ rss, Forall2 (segment_holds disk) verified rss ∧
    frame_indexes (concat rss) = seqZ 0 (len (concat rss)) ∧
    (∀ a b, a ∈ concat rss → b ∈ concat rss → record_key (re_frame a) = record_key (re_frame b)) ∧
    vr_seal <$> verified `prefix_of` me_seal <$> ms_entries scan ∧
    manifest_chain (vr_seal <$> verified).
Proof.
  split; [reflexivity|]. apply (verified_segments_contiguous disk scan "cap" verified).
  - exact disk_sizes.
  - left. vm_compute. reflexivity.
Defined.
End segment_witnesses.
