(* ===== verification/Follower.v ===== *)
(** * Durability follower (durability_follower.rs)

    The follower audits a progress journal while it grows: it keeps a cursor,
    reads the bytes behind it, and checks every complete line against the hash
    chain and against the range of the raw segment it acknowledges. A [world] is
    what the file system shows during one poll: the file each path names, by its
    identity, and the bytes of each file. *)

From stdpp Require Import base list strings option numbers gmap.
From Stdlib Require Import ZArith Lia Ascii Strings.Byte Sorting.Sorted.
From S2P Require Import Prelude External RawLog RawLogSafety Boundary DurabilityProgress.
Local Open Scope Z_scope.

(** ** Data *)

Definition MAX_PROGRESS_RECORD_BYTES : Z := 1024 * 1024.
Definition READ_CHUNK_BYTES : nat := Z.to_nat (64 * 1024).

Record DurabilityFollowerCursorV1 := mkCursor {
  fc_journal_offset : Z; fc_next_record_index : Z; fc_previous_progress_record_sha256 : string;
  fc_latest_ack : option DurabilityAckV1; fc_raw_record_count : Z; fc_raw_offset : Z;
  fc_raw_previous_record_sha256 : string; fc_raw_next_frame_index : Z
}.

Record VerifiedDurabilityProgressV1 := mkVerifiedProgress {
  vp_record_index : Z; vp_journal_start_offset : Z; vp_journal_end_offset : Z;
  vp_progress_record_sha256 : string; vp_acknowledged_records : Z; vp_ack : DurabilityAckV1
}.

Record DurabilityFollowerPollV1 := mkPoll {
  po_records : list VerifiedDurabilityProgressV1; po_pending_tail_bytes : Z;
  po_journal_read_offset : Z; po_cursor : DurabilityFollowerCursorV1
}.

Record FileIdentityV1 := mkIdentity { fi_first : Z; fi_second : Z }.
#[global] Instance identity_eq_decision : EqDecision FileIdentityV1.
Proof. solve_decision. Defined.
#[global] Instance identity_countable : Countable FileIdentityV1.
Proof.
  refine (inj_countable' (λ i, (fi_first i, fi_second i)) (λ p, mkIdentity p.1 p.2) _).
  by intros [].
Defined.

Record world := mkWorld {
  wd_paths : gmap string FileIdentityV1; wd_data : gmap FileIdentityV1 bytes
}.
(** Opening a path: the identity and the bytes of the file. *)
Definition open_path (w : world) (path : string) : res (FileIdentityV1 * bytes) :=
  identity ← ok_or (wd_paths w !! path) ("open " ++ path);
  file ← ok_or (wd_data w !! identity) ("open " ++ path);
  Ok (identity, file).

Record SegmentDurabilityFollower := mkFollower {
  fo_progress_path : string; fo_raw_path : string; fo_expected_raw_path : string;
  fo_genesis : RawSegmentGenesisV1; fo_progress_identity : FileIdentityV1;
  fo_raw_identity : FileIdentityV1; fo_read_offset : Z; fo_pending : bytes;
  fo_cursor : DurabilityFollowerCursorV1; fo_poisoned : bool
}.
Definition set_input (read_offset : Z) (pending : bytes) (f : SegmentDurabilityFollower)
    : SegmentDurabilityFollower :=
  mkFollower (fo_progress_path f) (fo_raw_path f) (fo_expected_raw_path f) (fo_genesis f)
    (fo_progress_identity f) (fo_raw_identity f) read_offset pending (fo_cursor f) (fo_poisoned f).
Definition set_cursor (c : DurabilityFollowerCursorV1) (f : SegmentDurabilityFollower)
    : SegmentDurabilityFollower :=
  mkFollower (fo_progress_path f) (fo_raw_path f) (fo_expected_raw_path f) (fo_genesis f)
    (fo_progress_identity f) (fo_raw_identity f) (fo_read_offset f) (fo_pending f) c
    (fo_poisoned f).
Definition set_poisoned (f : SegmentDurabilityFollower) : SegmentDurabilityFollower :=
  mkFollower (fo_progress_path f) (fo_raw_path f) (fo_expected_raw_path f) (fo_genesis f)
    (fo_progress_identity f) (fo_raw_identity f) (fo_read_offset f) (fo_pending f) (fo_cursor f)
    true.

(** ** Validation *)

Definition validate_follower_digest (value field : string) : res unit :=
  reject (negb (is_digest value)) (field ++ " must be a lowercase SHA-256 digest").

Definition validate_genesis (g : RawSegmentGenesisV1) : res unit :=
  _ ← reject (negb (String.eqb (gn_schema g) "RawSegmentGenesisV1")
              || is_blank (gn_connection_epoch g) || is_blank (gn_stream g))
        "invalid durability follower segment genesis";
  _ ← validate_follower_digest (gn_previous_segment_terminal_sha256 g)
        "previous_segment_terminal_sha256";
  let root := (gn_segment_index g =? 0) && (gn_next_frame_index g =? 0)
              && String.eqb (gn_previous_segment_terminal_sha256 g) ZERO_DIGEST in
  let successor := (0 <? gn_segment_index g) && (0 <? gn_next_frame_index g)
                   && negb (String.eqb (gn_previous_segment_terminal_sha256 g) ZERO_DIGEST) in
  reject (negb root && negb successor)
    "durability follower genesis is neither root nor successor".

Definition validate_follower_ack (ack : DurabilityAckV1) (g : RawSegmentGenesisV1) : res unit :=
  _ ← reject (negb (String.eqb (ack_schema ack) "DurabilityAckV1")
      || (ack_durable_record_count ack =? 0) || (ack_durable_through_offset ack <=? len MAGIC)
      || negb (length (ack_streams ack) =? 1)%nat) "invalid durability follower ACK";
  _ ← validate_follower_digest (ack_last_record_sha256 ack) "last_record_sha256";
  watermark ← expect (ack_streams ack !! 0%nat);
  _ ← reject (negb (String.eqb (wm_connection_epoch watermark) (gn_connection_epoch g))
      || negb (String.eqb (wm_stream watermark) (gn_stream g)))
      "durability follower ACK identity drift";
  before ← sub_u64 (ack_durable_record_count ack) 1;
  expected_frame ← ok_or (checked_add (gn_next_frame_index g) before)
    "durability follower ACK frame range overflow";
  reject (negb (wm_durable_through_frame_index watermark =? expected_frame))
    "durability follower ACK count/frame mismatch".

Section follower.
Context `{Hsha : Sha256} `{Hval : SerdeValue} `{Hb64 : Base64}.
Context `{Hpb : Serde ProgressBodyV1} `{Hpe : Serde ProgressEnvelopeV1}.

Definition open_with_raw_identity (w : world) (progress_path raw_path : string)
    (genesis : RawSegmentGenesisV1) (expected_raw_path : string) : res SegmentDurabilityFollower :=
  _ ← validate_genesis genesis;
  '(raw_identity, raw) ← open_path w raw_path;
  _ ← reject (negb (bool_decide (take 8 raw = MAGIC))) "bad raw segment magic";
  '(progress_identity, _) ← open_path w progress_path;
  Ok (mkFollower progress_path raw_path expected_raw_path genesis progress_identity raw_identity
        0 [] (mkCursor 0 0 ZERO_DIGEST None 0 (len MAGIC)
                (gn_previous_segment_terminal_sha256 genesis) (gn_next_frame_index genesis)) false).

Definition check_file_identity_and_length (w : world) (f : SegmentDurabilityFollower) : res unit :=
  '(progress_identity, progress) ← open_path w (fo_progress_path f);
  _ ← reject (negb (bool_decide (progress_identity = fo_progress_identity f)))
        "durability progress file was replaced";
  _ ← reject ((len progress <? fo_read_offset f)
              || (len progress <? fc_journal_offset (fo_cursor f)))
        "durability progress file was truncated";
  '(raw_identity, raw) ← open_path w (fo_raw_path f);
  _ ← reject (negb (bool_decide (raw_identity = fo_raw_identity f)))
        "raw segment file was replaced";
  reject (len raw <? fc_raw_offset (fo_cursor f))
    "raw segment file was truncated below verified cursor".

(** The acknowledgement advances on the one before it. *)
Definition check_ack_advances (previous : option DurabilityAckV1) (ack : DurabilityAckV1)
    : res unit :=
  match previous with
  | None => Ok ()
  | Some previous =>
      let msg := "durability progress ACK regressed or did not advance" in
      _ ← reject ((ack_durable_record_count ack <=? ack_durable_record_count previous)
                  || (ack_durable_through_offset ack <=? ack_durable_through_offset previous)) msg;
      new ← expect (ack_streams ack !! 0%nat);
      old ← expect (ack_streams previous !! 0%nat);
      reject (wm_durable_through_frame_index new <=? wm_durable_through_frame_index old) msg
  end.

Definition verify_ack_against_raw (w : world) (ack : DurabilityAckV1)
    : SE SegmentDurabilityFollower Z :=
  f ← get;
  let c := fo_cursor f in
  let g := fo_genesis f in
  lift (validate_follower_ack ack g);;
  lift (check_ack_advances (fc_latest_ack c) ack);;
  lift (reject ((ack_durable_record_count ack <=? fc_raw_record_count c)
                || (ack_durable_through_offset ack <=? fc_raw_offset c))
          "durability progress ACK does not advance raw cursor");;
  '(_, raw) ← lift (open_path w (fo_raw_path f));
  lift (reject (len raw <? ack_durable_through_offset ack)
          "raw segment is shorter than durability ACK");;
  records ← lift (read_raw_record_range raw (fc_raw_offset c) (ack_durable_through_offset ack)
    (fc_raw_previous_record_sha256 c) (gn_connection_epoch g) (gn_stream g)
    (fc_raw_next_frame_index c));
  acknowledged_records ← lift (ok_or
    (checked_sub (ack_durable_record_count ack) (fc_raw_record_count c))
    "durability ACK record count regressed");
  last_record ← lift (ok_or (last records) "durability ACK produced no raw records");
  watermark ← lift (expect (ack_streams ack !! 0%nat));
  lift (reject (negb (len records =? acknowledged_records)
      || existsb (λ r, negb (String.eqb (rf_connection_epoch (re_frame r)) (gn_connection_epoch g))
                       || negb (String.eqb (rf_stream (re_frame r)) (gn_stream g))) records
      || negb (re_end_offset last_record =? ack_durable_through_offset ack)
      || negb (String.eqb (re_record_sha256 last_record) (ack_last_record_sha256 ack))
      || negb (rf_frame_index (re_frame last_record) =? wm_durable_through_frame_index watermark))
      "durability ACK does not match exact raw segment range");;
  put (set_cursor (mkCursor (fc_journal_offset c) (fc_next_record_index c)
         (fc_previous_progress_record_sha256 c) (fc_latest_ack c) (ack_durable_record_count ack)
         (ack_durable_through_offset ack) (ack_last_record_sha256 ack)
         (fc_raw_next_frame_index c)) f);;
  raw_next_frame_index ← lift (ok_or (checked_add (wm_durable_through_frame_index watermark) 1)
    "durability raw frame cursor overflow");
  put (set_cursor (mkCursor (fc_journal_offset c) (fc_next_record_index c)
         (fc_previous_progress_record_sha256 c) (fc_latest_ack c) (ack_durable_record_count ack)
         (ack_durable_through_offset ack) (ack_last_record_sha256 ack) raw_next_frame_index) f);;
  mret acknowledged_records.

(** The body of the loop of [consume_complete_records] for the first line of
    the pending bytes; [rest] is what follows its newline. *)
Definition consume_record (w : world) (line rest : bytes)
    : SE SegmentDurabilityFollower VerifiedDurabilityProgressV1 :=
  f ← get;
  let line_length := len line in
  lift (reject ((line_length =? 0) || (MAX_PROGRESS_RECORD_BYTES <? line_length))
          "invalid durability progress record length");;
  envelope ← lift (map_err "invalid durability progress JSON: " (from_slice line));
  let body := pe_body envelope in
  body_bytes ← lift (map_err "reserialize durability progress: " (to_vec body));
  let digest := hex (sha256 body_bytes) in
  lift (reject (negb (String.eqb (pg_schema body) "RawDurabilityProgressV1")
      || negb (pg_record_index body =? fc_next_record_index (fo_cursor f))
      || negb (String.eqb (pg_previous_record_sha256 body)
                 (fc_previous_progress_record_sha256 (fo_cursor f)))
      || negb (String.eqb (pe_record_sha256 envelope) digest))
      "durability progress fork or invalid hash chain");;
  lift (reject (negb (String.eqb (pg_raw_path body) (fo_expected_raw_path f)))
          "durability progress raw_path drift");;
  lift (check_file_identity_and_length w f);;
  acknowledged_records ← verify_ack_against_raw w (pg_ack body);
  f ← get;
  let c := fo_cursor f in
  encoded_length ← lift (ok_or (checked_add line_length 1)
    "durability progress line length overflow");
  end_offset ← lift (ok_or (checked_add (fc_journal_offset c) encoded_length)
    "durability progress cursor overflow");
  put (set_cursor (mkCursor end_offset (fc_next_record_index c)
         (fc_previous_progress_record_sha256 c) (fc_latest_ack c) (fc_raw_record_count c)
         (fc_raw_offset c) (fc_raw_previous_record_sha256 c) (fc_raw_next_frame_index c)) f);;
  next_record_index ← lift (ok_or (checked_add (fc_next_record_index c) 1)
    "durability progress record index overflow");
  put (set_input (fo_read_offset f) rest
        (set_cursor (mkCursor end_offset next_record_index digest (Some (pg_ack body))
           (fc_raw_record_count c) (fc_raw_offset c) (fc_raw_previous_record_sha256 c)
           (fc_raw_next_frame_index c)) f));;
  mret (mkVerifiedProgress (pg_record_index body) (fc_journal_offset c) end_offset digest
          acknowledged_records (pg_ack body)).

(** A turn consumes a line of the pending bytes, so [S (length pending)] turns
    are enough ([consume_loop_fuel]). *)
Fixpoint consume_loop (fuel : nat) (w : world)
    : SE SegmentDurabilityFollower (list VerifiedDurabilityProgressV1) :=
  match fuel with
  | O => lift Panic
  | Datatypes.S fuel =>
      f ← get;
      match split_line (fo_pending f) with
      | None => mret []
      | Some (line, rest) =>
          v ← consume_record w line rest;
          vs ← consume_loop fuel w;
          mret (v :: vs)
      end
  end.
Definition consume_complete_records (w : world)
    : SE SegmentDurabilityFollower (list VerifiedDurabilityProgressV1) :=
  f ← get; consume_loop (Datatypes.S (length (fo_pending f))) w.

(** The loop of [poll_inner] over the bytes not read yet; a read of a regular
    file fills the chunk or reaches the end. *)
Fixpoint read_loop (fuel : nat) (w : world) (remaining : bytes)
    : SE SegmentDurabilityFollower (list VerifiedDurabilityProgressV1) :=
  match fuel with
  | O => lift Panic
  | Datatypes.S fuel =>
      if bool_decide (remaining = []) then mret [] else
      f ← get;
      let chunk := take READ_CHUNK_BYTES remaining in
      read_offset ← lift (ok_or (checked_add (fo_read_offset f) (len chunk))
        "durability progress read offset overflow");
      put (set_input read_offset (fo_pending f ++ chunk) f);;
      verified ← consume_complete_records w;
      f ← get;
      lift (reject (MAX_PROGRESS_RECORD_BYTES <? len (fo_pending f))
              "durability progress record exceeds maximum size");;
      more ← read_loop fuel w (drop READ_CHUNK_BYTES remaining);
      mret (verified ++ more)
  end.

Definition poll_inner (w : world) : SE SegmentDurabilityFollower DurabilityFollowerPollV1 :=
  f ← get;
  lift (check_file_identity_and_length w f);;
  let file := default [] (wd_data w !! fo_progress_identity f) in
  let remaining := drop (Z.to_nat (fo_read_offset f)) file in
  verified ← read_loop (Datatypes.S (length remaining)) w remaining;
  f ← get;
  mret (mkPoll verified (len (fo_pending f)) (fo_read_offset f) (fo_cursor f)).

Definition poll (w : world) : SE SegmentDurabilityFollower DurabilityFollowerPollV1 := λ f,
  if fo_poisoned f then (f, Err "durability follower is poisoned") else
  match poll_inner w f with
  | (f, Err e) => (set_poisoned f, Err e)
  | r => r
  end.

Definition require_clean_eof (w : world) : SE SegmentDurabilityFollower DurabilityFollowerCursorV1 :=
  p ← poll w;
  f ← get;
  (if negb (po_pending_tail_bytes p =? 0)
   then put (set_poisoned f);; throw "partial durability progress tail at final audit"
   else mret (fo_cursor f)).
End follower.

(** ** Theory *)
Section follower_theory.
Context `{Hsha : Sha256} `{Hval : SerdeValue} `{Hb64 : Base64}.
Context `{Hpb : Serde ProgressBodyV1} `{Hpe : Serde ProgressEnvelopeV1}.

(** What one line does to the cursor, given the bytes of the raw segment. *)
Definition ack_step (raw : bytes) (g : RawSegmentGenesisV1) (ack : DurabilityAckV1)
    (c : DurabilityFollowerCursorV1) : res (Z * DurabilityFollowerCursorV1) :=
  _ ← validate_follower_ack ack g;
  _ ← check_ack_advances (fc_latest_ack c) ack;
  _ ← reject ((ack_durable_record_count ack <=? fc_raw_record_count c)
              || (ack_durable_through_offset ack <=? fc_raw_offset c)) "";
  _ ← reject (len raw <? ack_durable_through_offset ack) "";
  records ← read_raw_record_range raw (fc_raw_offset c) (ack_durable_through_offset ack)
    (fc_raw_previous_record_sha256 c) (gn_connection_epoch g) (gn_stream g)
    (fc_raw_next_frame_index c);
  n ← ok_or (checked_sub (ack_durable_record_count ack) (fc_raw_record_count c)) "";
  r ← ok_or (last records) "";
  wm ← expect (ack_streams ack !! 0%nat);
  _ ← reject (negb (len records =? n)
      || existsb (λ r, negb (String.eqb (rf_connection_epoch (re_frame r)) (gn_connection_epoch g))
                       || negb (String.eqb (rf_stream (re_frame r)) (gn_stream g))) records
      || negb (re_end_offset r =? ack_durable_through_offset ack)
      || negb (String.eqb (re_record_sha256 r) (ack_last_record_sha256 ack))
      || negb (rf_frame_index (re_frame r) =? wm_durable_through_frame_index wm)) "";
  next ← ok_or (checked_add (wm_durable_through_frame_index wm) 1) "";
  Ok (n, mkCursor (fc_journal_offset c) (fc_next_record_index c)
           (fc_previous_progress_record_sha256 c) (fc_latest_ack c) (ack_durable_record_count ack)
           (ack_durable_through_offset ack) (ack_last_record_sha256 ack) next).

Definition record_step (raw : bytes) (g : RawSegmentGenesisV1) (expected : string) (line : bytes)
    (c : DurabilityFollowerCursorV1)
    : res (VerifiedDurabilityProgressV1 * DurabilityFollowerCursorV1) :=
  _ ← reject ((len line =? 0) || (MAX_PROGRESS_RECORD_BYTES <? len line)) "";
  envelope ← map_err "" (from_slice line);
  let body := pe_body envelope in
  body_bytes ← map_err "" (to_vec body);
  let digest := hex (sha256 body_bytes) in
  _ ← reject (negb (String.eqb (pg_schema body) "RawDurabilityProgressV1")
      || negb (pg_record_index body =? fc_next_record_index c)
      || negb (String.eqb (pg_previous_record_sha256 body) (fc_previous_progress_record_sha256 c))
      || negb (String.eqb (pe_record_sha256 envelope) digest)) "";
  _ ← reject (negb (String.eqb (pg_raw_path body) expected)) "";
  '(n, c) ← ack_step raw g (pg_ack body) c;
  encoded_length ← ok_or (checked_add (len line) 1) "";
  end_offset ← ok_or (checked_add (fc_journal_offset c) encoded_length) "";
  next ← ok_or (checked_add (fc_next_record_index c) 1) "";
  Ok (mkVerifiedProgress (pg_record_index body) (fc_journal_offset c) end_offset digest n
        (pg_ack body),
      mkCursor end_offset next digest (Some (pg_ack body)) (fc_raw_record_count c)
        (fc_raw_offset c) (fc_raw_previous_record_sha256 c) (fc_raw_next_frame_index c)).

(** Case analysis of the guards of two programs in step; a failing case has no
    result on either side. *)
Ltac same_guards :=
  repeat (match goal with
  | |- context [match (if ?b then _ else _) with Ok _ => _ | Err _ => _ | Panic => _ end] =>
      destruct b
  | |- context [match (match ?o with Some _ => _ | None => _ end) with
                Ok _ => _ | Err _ => _ | Panic => _ end] => destruct o
  | |- context [match (match ?r with inl _ => _ | inr _ => _ end) with
                Ok _ => _ | Err _ => _ | Panic => _ end] => destruct r
  | |- context [match ?r with Ok _ => _ | Err _ => _ | Panic => _ end] =>
      lazymatch r with
      | Ok _ => fail
      | context [match _ with _ => _ end] => fail
      | _ => destruct r
      end
  end; try (split; [done|by intros (? & ? & ?)])).

Lemma verify_ack_Ok w ack f f' n id raw :
  open_path w (fo_raw_path f) = Ok (id, raw) →
  verify_ack_against_raw w ack f = (f', Ok n) ↔
  ∃ c, ack_step raw (fo_genesis f) ack (fo_cursor f) = Ok (n, c) ∧ f' = set_cursor c f.
Proof.
  intros Ho. unfold verify_ack_against_raw, ack_step.
  cbv [mbind SE_bind res_bind get lift put mret SE_ret reject ok_or]. rewrite Ho.
  same_guards.
  split; [intros [= <- <-]; by eexists|by intros (c & [= <- <-] & ->)].
Qed.

Lemma consume_record_Ok w line rest f f' v id raw :
  check_file_identity_and_length w f = Ok () → open_path w (fo_raw_path f) = Ok (id, raw) →
  consume_record w line rest f = (f', Ok v) ↔
  ∃ c, record_step raw (fo_genesis f) (fo_expected_raw_path f) line (fo_cursor f) = Ok (v, c) ∧
    f' = set_input (fo_read_offset f) rest (set_cursor c f).
Proof.
  intros Hc Ho. unfold consume_record, record_step.
  cbv [mbind SE_bind res_bind get lift put mret SE_ret reject ok_or map_err]. rewrite Hc.
  destruct (_ || _); [split; [done|by intros (? & ? & ?)]|].
  destruct (from_slice line) as [|e]; [split; [done|by intros (? & ? & ?)]|].
  destruct (to_vec _) as [|b]; [split; [done|by intros (? & ? & ?)]|].
  destruct (_ || _); [split; [done|by intros (? & ? & ?)]|].
  destruct (negb _); [split; [done|by intros (? & ? & ?)]|].
  destruct (verify_ack_against_raw w (pg_ack (pe_body e)) f) as [f1 r] eqn:E.
  destruct (ack_step raw (fo_genesis f) (pg_ack (pe_body e)) (fo_cursor f)) as [[n c]|m|] eqn:E2.
  - assert (verify_ack_against_raw w (pg_ack (pe_body e)) f = (set_cursor c f, Ok n)) as E3
      by (apply (verify_ack_Ok _ _ _ _ _ _ _ Ho); by exists c).
    rewrite E3 in E. injection E as <- <-. cbn [set_cursor fo_cursor fo_read_offset].
    same_guards. split; [intros [= <- <-]; by eexists|by intros (c' & [= <- <-] & ->)].
  - destruct r as [n| |]; [|split; [done|by intros (? & ? & ?)]..].
    apply (verify_ack_Ok _ _ _ _ _ _ _ Ho) in E as (c & E & _). congruence.
  - destruct r as [n| |]; [|split; [done|by intros (? & ? & ?)]..].
    apply (verify_ack_Ok _ _ _ _ _ _ _ Ho) in E as (c & E & _). congruence.
Qed.

Lemma check_Ok w f :
  check_file_identity_and_length w f = Ok () ↔
  ∃ progress raw, open_path w (fo_progress_path f) = Ok (fo_progress_identity f, progress) ∧
    open_path w (fo_raw_path f) = Ok (fo_raw_identity f, raw) ∧
    fo_read_offset f ≤ len progress ∧ fc_journal_offset (fo_cursor f) ≤ len progress ∧
    fc_raw_offset (fo_cursor f) ≤ len raw.
Proof.
  unfold check_file_identity_and_length. split.
  - intros ([i p] & Hp & H)%res_bind_Ok. apply res_bind_Ok in H as ([] & H1%reject_Ok & H).
    apply res_bind_Ok in H as ([] & H2%reject_Ok & H).
    apply res_bind_Ok in H as ([j r] & Hr & H). apply res_bind_Ok in H as ([] & H3%reject_Ok & H).
    apply reject_Ok in H. apply negb_false_iff, bool_decide_eq_true in H1 as ->.
    apply negb_false_iff, bool_decide_eq_true in H3 as ->. split_orb.
    exists p, r. split_and!; (done || lia).
  - intros (p & r & -> & -> & H1 & H2 & H3). cbn [mbind res_bind].
    rewrite !bool_decide_eq_true_2 by done. cbn [negb reject mbind res_bind].
    rewrite (proj2 (Z.ltb_ge _ _) H1), (proj2 (Z.ltb_ge _ _) H2), (proj2 (Z.ltb_ge _ _) H3). done.
Qed.

Lemma consume_record_checked w line rest f f' v :
  consume_record w line rest f = (f', Ok v) → check_file_identity_and_length w f = Ok ().
Proof.
  unfold consume_record. cbv [mbind SE_bind res_bind get lift put mret SE_ret reject].
  destruct (_ || _); [done|]. destruct (map_err _ _); [|done..]. destruct (map_err _ _); [|done..].
  destruct (_ || _); [done|]. destruct (negb _); [done|].
  by destruct (check_file_identity_and_length w f) as [[]| |].
Qed.

(** *** Growing files *)

Lemma raw_range_grows raw raw' a b p e s n rs :
  raw `prefix_of` raw' → 0 ≤ a → read_raw_record_range raw a b p e s n = Ok rs →
  read_raw_record_range raw' a b p e s n = Ok rs.
Proof.
  intros [x ->] Ha. unfold read_raw_record_range. cbv [reject mbind res_bind].
  destruct (_ || _) eqn:H1; [done|]. destruct (len raw <? b) eqn:H2; [done|]. split_orb.
  rewrite (proj2 (Z.ltb_ge _ _)) by (rewrite len_app; pose proof (len_nonneg x); lia).
  unfold len in *. by rewrite !take_drop_commute, take_app_le by lia.
Qed.

Lemma ack_step_grows raw raw' g ack c x :
  raw `prefix_of` raw' → 0 ≤ fc_raw_offset c → ack_step raw g ack c = Ok x →
  ack_step raw' g ack c = Ok x.
Proof.
  intros Hpre Hoff. unfold ack_step. cbv [mbind res_bind reject].
  destruct (validate_follower_ack ack g); [|done..]. destruct (check_ack_advances _ _); [|done..].
  destruct (_ || _); [done|]. destruct (len raw <? _) eqn:Hlen; [done|].
  rewrite (proj2 (Z.ltb_ge _ _)) by (apply prefix_length in Hpre; unfold len in *; lia).
  destruct (read_raw_record_range raw _ _ _ _ _ _) eqn:E; [|done..].
  by rewrite (raw_range_grows _ _ _ _ _ _ _ _ _ Hpre Hoff E).
Qed.

Lemma record_step_grows raw raw' g e line c x :
  raw `prefix_of` raw' → 0 ≤ fc_raw_offset c → record_step raw g e line c = Ok x →
  record_step raw' g e line c = Ok x.
Proof.
  intros Hpre Hoff. unfold record_step. cbv [mbind res_bind reject].
  destruct (_ || _); [done|]. destruct (map_err _ _); [|done..]. destruct (map_err _ _); [|done..].
  destruct (_ || _); [done|]. destruct (negb _); [done|].
  destruct (ack_step raw _ _ _) as [y| |] eqn:E; [|done..].
  by rewrite (ack_step_grows _ _ _ _ _ _ Hpre Hoff E).
Qed.

Lemma record_step_cursor raw g e line c v c' :
  record_step raw g e line c = Ok (v, c') → 0 ≤ fc_journal_offset c → 0 ≤ fc_raw_offset c →
  0 < len line ≤ MAX_PROGRESS_RECORD_BYTES ∧
  fc_journal_offset c' = fc_journal_offset c + len line + 1 ∧
  fc_raw_offset c < fc_raw_offset c' ≤ len raw.
Proof.
  unfold record_step. intros ([] & Hg%reject_Ok & H)%res_bind_Ok.
  apply res_bind_Ok in H as (en & _ & H). cbn zeta in H. apply res_bind_Ok in H as (b & _ & H).
  apply res_bind_Ok in H as (_ & _ & H). apply res_bind_Ok in H as (_ & _ & H).
  apply res_bind_Ok in H as ([n c1] & Ha & H).
  apply res_bind_Ok in H as (l & [_ ->]%ok_or_Ok%checked_add_Some & H).
  apply res_bind_Ok in H as (o & [_ ->]%ok_or_Ok%checked_add_Some & H).
  apply res_bind_Ok in H as (k & [_ ->]%ok_or_Ok%checked_add_Some & H). injection H as _ <-.
  unfold ack_step in Ha. apply res_bind_Ok in Ha as (_ & _ & Ha). apply res_bind_Ok in Ha as (_ & _ & Ha).
  apply res_bind_Ok in Ha as ([] & H1%reject_Ok & Ha). apply res_bind_Ok in Ha as ([] & H2%reject_Ok & Ha).
  do 4 apply res_bind_Ok in Ha as (? & _ & Ha). apply res_bind_Ok in Ha as ([] & _ & Ha).
  apply res_bind_Ok in Ha as (next & _ & Ha). injection Ha as _ <-.
  pose proof (len_nonneg line). split_orb. cbn [fc_journal_offset fc_raw_offset]. lia.
Qed.

(** *** Lines *)

(** [consumes] takes the complete lines of a buffer and leaves the rest. *)
Inductive consumes (raw : bytes) (g : RawSegmentGenesisV1) (e : string)
    : DurabilityFollowerCursorV1 → bytes → list VerifiedDurabilityProgressV1 →
      DurabilityFollowerCursorV1 → bytes → Prop :=
  | consumes_none c buf : split_line buf = None → consumes raw g e c buf [] c buf
  | consumes_line c buf line rest v c1 vs c2 buf2 :
      split_line buf = Some (line, rest) → record_step raw g e line c = Ok (v, c1) →
      consumes raw g e c1 rest vs c2 buf2 → consumes raw g e c buf (v :: vs) c2 buf2.

Lemma split_line_app_Some a b line rest :
  split_line a = Some (line, rest) → split_line (a ++ b) = Some (line, rest ++ b).
Proof.
  revert line. induction a as [|x a IH]; intros line; cbn; [done|].
  case_bool_decide; [by intros [= <- <-]|].
  destruct (split_line a) as [[l r]|]; cbn; [|done]. intros [= <- <-]. by rewrite (IH l eq_refl).
Qed.
Lemma split_line_app_None a b line rest :
  split_line a = None → split_line (a ++ b) = Some (line, rest) → len a ≤ len line.
Proof.
  revert line. induction a as [|x a IH]; intros line; cbn [split_line app].
  { intros _ _. apply len_nonneg. }
  case_bool_decide; [done|]. destruct (split_line a) as [[l r]|]; [done|]. intros _.
  destruct (split_line (a ++ b)) as [[l r]|]; cbn; [|done]. intros [= <- <-].
  rewrite !len_cons. specialize (IH l eq_refl eq_refl). lia.
Qed.

Lemma consumes_app raw g e c buf vs c1 buf1 b vs2 c2 buf2 :
  consumes raw g e c buf vs c1 buf1 → consumes raw g e c1 (buf1 ++ b) vs2 c2 buf2 →
  consumes raw g e c (buf ++ b) (vs ++ vs2) c2 buf2.
Proof.
  induction 1 as [|c buf line rest v c' vs c1 buf1 Hs Hr _ IH]; intros H2; [done|].
  econstructor; [by apply split_line_app_Some|done|]. by apply IH.
Qed.

Lemma consumes_split raw g e c a b vs c2 buf2 :
  0 ≤ fc_journal_offset c → 0 ≤ fc_raw_offset c →
  consumes raw g e c (a ++ b) vs c2 buf2 → len buf2 ≤ MAX_PROGRESS_RECORD_BYTES →
  ∃ vs1 c1 buf1 vs2, consumes raw g e c a vs1 c1 buf1 ∧ consumes raw g e c1 (buf1 ++ b) vs2 c2 buf2 ∧
    vs = vs1 ++ vs2 ∧ len buf1 ≤ MAX_PROGRESS_RECORD_BYTES.
Proof.
  intros Hj Ho H Hmax. remember (a ++ b) as buf eqn:Hbuf. revert a Hj Ho Hbuf.
  induction H as [c buf Hs|c buf line rest v c1 vs c2 buf2 Hs Hr Hc IH]; intros a Hj Ho ->.
  - destruct (split_line a) as [[l r]|] eqn:Ha; [by rewrite (split_line_app_Some _ b _ _ Ha) in Hs|].
    exists [], c, a, []. split_and!; [by constructor|by constructor|done|].
    rewrite len_app in Hmax. pose proof (len_nonneg b). lia.
  - destruct (record_step_cursor _ _ _ _ _ _ _ Hr Hj Ho) as (Hl & Hj' & Ho').
    destruct (split_line a) as [[l r]|] eqn:Ha.
    + rewrite (split_line_app_Some _ b _ _ Ha) in Hs. injection Hs as -> <-.
      destruct (IH Hmax r) as (vs1 & c' & buf1 & vs2 & H1 & H2 & -> & H4); [lia|lia|done|].
      exists (v :: vs1), c', buf1, vs2. split_and!; [by econstructor|done..].
    + exists [], c, a, (v :: vs). split_and!; [by constructor|by econstructor|done|].
      pose proof (split_line_app_None _ _ _ _ Ha Hs). lia.
Qed.

Lemma consumes_grows raw raw' g e c buf vs c' buf' :
  raw `prefix_of` raw' → 0 ≤ fc_journal_offset c → 0 ≤ fc_raw_offset c →
  consumes raw g e c buf vs c' buf' → consumes raw' g e c buf vs c' buf'.
Proof.
  intros Hpre Hj Ho H. induction H as [|c buf line rest v c1 vs c2 buf2 Hs Hr Hc IH]; [by constructor|].
  destruct (record_step_cursor _ _ _ _ _ _ _ Hr Hj Ho) as (Hl & Hj' & Ho').
  econstructor; [done|by eapply record_step_grows|]. apply IH; lia.
Qed.

(** The cursor counts the bytes it has consumed. *)
Lemma consumes_cursor raw g e c buf vs c' buf' :
  0 ≤ fc_journal_offset c → 0 ≤ fc_raw_offset c → consumes raw g e c buf vs c' buf' →
  fc_journal_offset c' + len buf' = fc_journal_offset c + len buf ∧
  fc_journal_offset c ≤ fc_journal_offset c' ∧ fc_raw_offset c ≤ fc_raw_offset c' ∧
  (vs ≠ [] → fc_raw_offset c' ≤ len raw).
Proof.
  intros Hj Ho H. induction H as [|c buf line rest v c1 vs c2 buf2 Hs Hr Hc IH]; [split_and!; done || lia|].
  destruct (record_step_cursor _ _ _ _ _ _ _ Hr Hj Ho) as (Hl & Hj' & Ho').
  apply split_line_inv in Hs as ->. rewrite len_app, len_cons.
  destruct IH as (IH1 & IH2 & IH3 & IH4); [lia|lia|]. split_and!; [lia..|].
  intros _. destruct vs; [inversion Hc; subst; lia|by apply IH4].
Qed.

(** *** Polls *)

(** What the follower's paths show in [w]. *)
Definition sees (w : world) (f : SegmentDurabilityFollower) (progress raw : bytes) : Prop :=
  open_path w (fo_progress_path f) = Ok (fo_progress_identity f, progress) ∧
  open_path w (fo_raw_path f) = Ok (fo_raw_identity f, raw) ∧ len progress ≤ u64_max.
Definition in_files (f : SegmentDurabilityFollower) (progress raw : bytes) : Prop :=
  0 ≤ fc_journal_offset (fo_cursor f) ∧
  fc_journal_offset (fo_cursor f) + len (fo_pending f) = fo_read_offset f ∧
  fo_read_offset f ≤ len progress ∧ 0 ≤ fc_raw_offset (fo_cursor f) ≤ len raw.
Definition settled (f : SegmentDurabilityFollower) : Prop :=
  split_line (fo_pending f) = None ∧ len (fo_pending f) ≤ MAX_PROGRESS_RECORD_BYTES.

Lemma consumes_rest raw g e c buf vs c' buf' :
  consumes raw g e c buf vs c' buf' → split_line buf' = None.
Proof. by induction 1. Qed.

Lemma in_files_checked w f progress raw :
  sees w f progress raw → in_files f progress raw → check_file_identity_and_length w f = Ok ().
Proof.
  intros (Hp & Hr & _) (H1 & H2 & H3 & H4). apply check_Ok. exists progress, raw.
  pose proof (len_nonneg (fo_pending f)). split_and!; (done || lia).
Qed.

Lemma consume_loop_Ok fuel w f f' vs progress raw :
  sees w f progress raw → in_files f progress raw → (length (fo_pending f) < fuel)%nat →
  consume_loop fuel w f = (f', Ok vs) ↔
  ∃ c buf, consumes raw (fo_genesis f) (fo_expected_raw_path f) (fo_cursor f) (fo_pending f) vs c buf ∧
    f' = set_input (fo_read_offset f) buf (set_cursor c f).
Proof.
  revert f f' vs. induction fuel as [|fuel IH]; intros f f' vs Hsee Hin Hf; [lia|].
  cbn [consume_loop]. rewrite SE_bind_Ok. unfold get. split.
  - intros (f0 & s & [= <- <-] & H). destruct (split_line (fo_pending f)) as [[line rest]|] eqn:Hs.
    + apply SE_bind_Ok in H as (v & f1 & Hv & H). apply SE_bind_Ok in H as (vs1 & f2 & Hvs & H).
      unfold mret, SE_ret in H. injection H as <- <-.
      apply (consume_record_Ok _ _ _ _ _ _ _ _ (in_files_checked _ _ _ _ Hsee Hin) (proj1 (proj2 Hsee)))
        in Hv as (c & Hstep & ->).
      destruct Hin as (I1 & I2 & I3 & I4).
      destruct (record_step_cursor _ _ _ _ _ _ _ Hstep I1 ltac:(lia)) as (Hl & Hj & Ho).
      apply split_line_inv in Hs as Hp. rewrite Hp, len_app, len_cons in I2.
      rewrite Hp, length_app in Hf. cbn [length] in Hf.
      apply IH in Hvs as (c2 & buf & Hc & ->); [|done|unfold in_files; cbn; lia|cbn; lia].
      exists c2, buf. split; [by econstructor|done].
    + unfold mret, SE_ret in H. injection H as <- <-. exists (fo_cursor f), (fo_pending f).
      split; [by constructor|by destruct f].
  - intros (c & buf & Hc & ->). exists f, f. split; [done|].
    inversion Hc as [c0 b0 Hs|c0 b0 line rest v c1 vs1 c2 b2 Hs Hstep Hrest]; subst; rewrite Hs.
    + by destruct f.
    + destruct Hin as (I1 & I2 & I3 & I4).
      destruct (record_step_cursor _ _ _ _ _ _ _ Hstep I1 ltac:(lia)) as (Hl & Hj & Ho).
      apply SE_bind_Ok. exists v. eexists. split.
      { apply (consume_record_Ok _ _ _ _ _ _ _ raw
          (in_files_checked _ _ _ _ Hsee ltac:(done)) (proj1 (proj2 Hsee))). by exists c1. }
      apply split_line_inv in Hs as Hp. rewrite Hp, len_app, len_cons in I2.
      rewrite Hp, length_app in Hf. cbn [length] in Hf.
      apply SE_bind_Ok. exists vs1. eexists. split; [|done].
      apply IH; [done|unfold in_files; cbn; lia|cbn; lia|]. by exists c, buf.
Qed.

(** After a chunk has been appended to the pending bytes. *)
Lemma in_files_chunk f progress raw chunk :
  in_files f progress raw → fo_read_offset f + len chunk ≤ len progress →
  in_files (set_input (fo_read_offset f + len chunk) (fo_pending f ++ chunk) f) progress raw.
Proof.
  intros (I1 & I2 & I3 & I4) H. unfold in_files. cbn [set_input fo_cursor fo_pending fo_read_offset].
  rewrite len_app. lia.
Qed.
Lemma in_files_consumed f progress raw c buf vs :
  in_files f progress raw →
  consumes raw (fo_genesis f) (fo_expected_raw_path f) (fo_cursor f) (fo_pending f) vs c buf →
  in_files (set_input (fo_read_offset f) buf (set_cursor c f)) progress raw.
Proof.
  intros (I1 & I2 & I3 & I4) H.
  destruct (consumes_cursor _ _ _ _ _ _ _ _ I1 ltac:(lia) H) as (H1 & H2 & H3 & H4).
  unfold in_files. cbn [set_input set_cursor fo_cursor fo_pending fo_read_offset].
  split_and!; [lia..|]. destruct vs; [inversion H; subst; lia|by apply H4].
Qed.

(** One turn of [read_loop] on a chunk that is not empty. *)
Lemma read_chunk_Ok w f f' vs progress raw chunk :
  sees w f progress raw → in_files f progress raw → fo_read_offset f + len chunk ≤ len progress →
  let f1 := set_input (fo_read_offset f + len chunk) (fo_pending f ++ chunk) f in
  consume_complete_records w f1 = (f', Ok vs) ↔
  ∃ c buf, consumes raw (fo_genesis f) (fo_expected_raw_path f) (fo_cursor f)
      (fo_pending f ++ chunk) vs c buf ∧
    f' = set_input (fo_read_offset f + len chunk) buf (set_cursor c f).
Proof.
  intros Hsee Hin Hlen f1. unfold consume_complete_records. rewrite SE_bind_Ok. unfold get.
  split.
  - intros (f0 & s & [= <- <-] & H).
    by apply (consume_loop_Ok _ _ _ _ _ progress raw) in H; [|done|by apply in_files_chunk|lia].
  - intros H. exists f1, f1. split; [done|].
    by apply (consume_loop_Ok _ _ _ _ _ progress raw); [done|by apply in_files_chunk|lia|].
Qed.

Lemma chunk_nonempty (remaining : bytes) : remaining ≠ [] → 0 < len (take READ_CHUNK_BYTES remaining).
Proof.
  intros Hr. destruct remaining as [|x l]; [done|]. unfold READ_CHUNK_BYTES.
  replace (Z.to_nat (64 * 1024)) with (S (Z.to_nat (64 * 1024 - 1))) by lia. cbn [take].
  rewrite len_cons. pose proof (len_nonneg (take (Z.to_nat (64 * 1024 - 1)) l)). lia.
Qed.

Lemma read_loop_step fuel w f (remaining : bytes) :
  remaining ≠ [] → fo_read_offset f + len remaining ≤ u64_max →
  ∃ chunk rest, remaining = chunk ++ rest ∧ 0 < len chunk ∧
    ∀ f' vs, read_loop (S fuel) w remaining f = (f', Ok vs) ↔
    ∃ f2 v1 v2, consume_complete_records w
        (set_input (fo_read_offset f + len chunk) (fo_pending f ++ chunk) f) = (f2, Ok v1) ∧
      len (fo_pending f2) ≤ MAX_PROGRESS_RECORD_BYTES ∧
      read_loop fuel w rest f2 = (f', Ok v2) ∧ vs = v1 ++ v2.
Proof.
  intros Hr Hu. exists (take READ_CHUNK_BYTES remaining), (drop READ_CHUNK_BYTES remaining).
  split; [by rewrite take_drop|]. split; [by apply chunk_nonempty|]. intros f' vs.
  cbn [read_loop]. rewrite bool_decide_eq_false_2 by done.
  rewrite <-(take_drop READ_CHUNK_BYTES remaining), len_app in Hu.
  pose proof (len_nonneg (drop READ_CHUNK_BYTES remaining)).
  generalize dependent (drop READ_CHUNK_BYTES remaining). intros rest.
  generalize (take READ_CHUNK_BYTES remaining). intros chunk Hu Hrest.
  cbv [mbind SE_bind get lift put mret SE_ret reject].
  rewrite checked_add_fits by lia. cbn [ok_or].
  destruct (consume_complete_records w _) as [f2 [v1| |]] eqn:E1;
    [|split; [done|by intros (? & ? & ? & ? & _)]..].
  destruct (MAX_PROGRESS_RECORD_BYTES <? len (fo_pending f2)) eqn:E2.
  { split; [done|]. intros (f3 & ? & ? & [= <- <-] & ? & _). lia. }
  destruct (read_loop fuel w _ f2) as [f3 [v2| |]] eqn:E3.
  - split; [intros [= <- <-]; exists f2, v1, v2; split_and!; (done || lia)|].
    intros (f4 & x & y & [= <- <-] & _ & E & ->). rewrite E3 in E. by injection E as -> ->.
  - split; [done|]. intros (f4 & x & y & [= <- <-] & _ & E & _). by rewrite E3 in E.
  - split; [done|]. intros (f4 & x & y & [= <- <-] & _ & E & _). by rewrite E3 in E.
Qed.

Lemma read_loop_Ok fuel w f f' vs progress raw remaining :
  sees w f progress raw → in_files f progress raw → settled f →
  fo_read_offset f + len remaining = len progress → (length remaining < fuel)%nat →
  read_loop fuel w remaining f = (f', Ok vs) ↔
  ∃ c buf, consumes raw (fo_genesis f) (fo_expected_raw_path f) (fo_cursor f)
      (fo_pending f ++ remaining) vs c buf ∧ len buf ≤ MAX_PROGRESS_RECORD_BYTES ∧
    f' = set_input (fo_read_offset f + len remaining) buf (set_cursor c f).
Proof.
  revert f f' vs remaining.
  induction fuel as [|fuel IH]; intros f f' vs remaining Hsee Hin [Hs1 Hs2] Hlen Hf; [lia|].
  destruct (decide (remaining = [])) as [->|Hr].
  { cbn [read_loop]. rewrite bool_decide_eq_true_2 by done. rewrite app_nil_r. change (len []) with 0. rewrite Z.add_0_r. split.
    - intros [= <- <-]. exists (fo_cursor f), (fo_pending f).
      split_and!; [by constructor|done|by destruct f].
    - intros (c & buf & Hc & _ & ->). inversion Hc; subst; [by destruct f|congruence]. }
  destruct (read_loop_step fuel w f remaining Hr) as (chunk & rest & -> & Hpos & Hstep);
    [destruct Hsee as (_ & _ & ?); lia|].
  pose proof (len_nonneg rest). rewrite len_app in Hlen. rewrite length_app in Hf.
  assert (0 < length chunk)%nat by (unfold len in Hpos; lia).
  assert (fo_read_offset f + len chunk ≤ len progress) as Hle by lia.
  rewrite Hstep. clear Hstep Hr.
  setoid_rewrite (read_chunk_Ok _ _ _ _ _ _ _ Hsee Hin Hle). rewrite app_assoc, len_app.
  assert (∀ c buf v1, consumes raw (fo_genesis f) (fo_expected_raw_path f) (fo_cursor f)
      (fo_pending f ++ chunk) v1 c buf → len buf ≤ MAX_PROGRESS_RECORD_BYTES →
    let f2 := set_input (fo_read_offset f + len chunk) buf (set_cursor c f) in
    in_files f2 progress raw ∧ settled f2) as Hnext.
  { intros c buf v1 Hc Hb f2. split; [|split; [by eapply consumes_rest|done]].
    exact (in_files_consumed _ _ _ _ _ v1 (in_files_chunk _ _ _ _ Hin Hle) Hc). }
  split.
  - intros (f2 & v1 & v2 & (c & buf & Hc & ->) & Hb & Hrest & ->).
    destruct (Hnext _ _ _ Hc Hb) as [Hin2 Hset2].
    apply IH in Hrest as (c2 & buf2 & Hc2 & Hb2 & ->); [|done..|cbn; lia|lia].
    exists c2, buf2. split_and!; [by eapply consumes_app|done|]. cbn. by rewrite Z.add_assoc.
  - intros (c & buf & Hc & Hb & ->). destruct Hin as (I1 & I2 & I3 & I4).
    destruct (consumes_split _ _ _ _ _ _ _ _ _ I1 ltac:(lia) Hc Hb)
      as (v1 & c1 & buf1 & v2 & H1 & H2 & -> & Hb1).
    destruct (Hnext _ _ _ H1 Hb1) as [Hin2 Hset2].
    eexists _, v1, v2. split; [by exists c1, buf1|]. split; [done|]. split; [|done].
    apply IH; [done..|cbn; lia|lia|]. exists c, buf. split_and!; [done..|]. cbn. by rewrite Z.add_assoc.
Qed.

Definition follower_inv (f : SegmentDurabilityFollower) : Prop :=
  0 ≤ fc_journal_offset (fo_cursor f) ∧
  fc_journal_offset (fo_cursor f) + len (fo_pending f) = fo_read_offset f ∧
  0 ≤ fc_raw_offset (fo_cursor f) ∧ settled f ∧ fo_poisoned f = false.
Definition small (w : world) : Prop := map_Forall (λ _ b, len b ≤ u64_max) (wd_data w).

Lemma poll_sees w f f' p :
  small w → follower_inv f → poll w f = (f', Ok p) →
  ∃ progress raw, sees w f progress raw ∧ in_files f progress raw.
Proof.
  intros Hw (I1 & I2 & I3 & _ & Hp) H. unfold poll in H. rewrite Hp in H.
  destruct (poll_inner w f) as [f1 [q| |]] eqn:E; [|done..]. unfold poll_inner in E.
  apply SE_bind_Ok in E as (f0 & s & Hg & E). unfold get in Hg. injection Hg as <- <-.
  apply SE_bind_Ok in E as ([] & s & Hc & _). unfold lift in Hc. injection Hc as _ Hc.
  apply check_Ok in Hc as (progress & raw & H1 & H2 & H3 & H4 & H5).
  exists progress, raw. split; [|unfold in_files; lia]. split_and!; try done.
  unfold open_path in H1. apply res_bind_Ok in H1 as (i & _ & H1).
  apply res_bind_Ok in H1 as (b & Hb%ok_or_Ok & H1). injection H1 as -> ->. by apply Hw in Hb.
Qed.

Lemma poll_reads w f f' p progress raw :
  sees w f progress raw → in_files f progress raw → fo_poisoned f = false →
  let remaining := drop (Z.to_nat (fo_read_offset f)) progress in
  poll w f = (f', Ok p) ↔
  ∃ vs, read_loop (S (length remaining)) w remaining f = (f', Ok vs) ∧
    p = mkPoll vs (len (fo_pending f')) (fo_read_offset f') (fo_cursor f').
Proof.
  intros Hsee Hin Hp remaining. unfold poll, poll_inner. rewrite Hp.
  cbv [mbind SE_bind get lift put mret SE_ret]. rewrite (in_files_checked _ _ _ _ Hsee Hin).
  assert (wd_data w !! fo_progress_identity f = Some progress) as ->.
  { destruct Hsee as (H & _). unfold open_path in H. apply res_bind_Ok in H as (i & _ & H).
    apply res_bind_Ok in H as (b & Hb%ok_or_Ok & H). by injection H as -> ->. }
  cbn [default from_option id]. fold remaining.
  destruct (read_loop _ w remaining f) as [f1 [vs| |]].
  - split; [intros [= <- <-]; by exists vs|by intros (? & [= <- <-] & ->)].
  - split; [done|by intros (? & ? & _)].
  - split; [done|by intros (? & ? & _)].
Qed.

Lemma poll_Ok w f f' p progress raw :
  sees w f progress raw → in_files f progress raw → settled f → fo_poisoned f = false →
  poll w f = (f', Ok p) ↔
  ∃ c buf vs, consumes raw (fo_genesis f) (fo_expected_raw_path f) (fo_cursor f)
      (fo_pending f ++ drop (Z.to_nat (fo_read_offset f)) progress) vs c buf ∧
    len buf ≤ MAX_PROGRESS_RECORD_BYTES ∧
    f' = set_input (len progress) buf (set_cursor c f) ∧ p = mkPoll vs (len buf) (len progress) c.
Proof.
  intros Hsee Hin Hset Hp. rewrite (poll_reads _ _ _ _ _ _ Hsee Hin Hp).
  assert (fo_read_offset f + len (drop (Z.to_nat (fo_read_offset f)) progress) = len progress) as Hlen.
  { destruct Hin as (H1 & H2 & H3 & _). pose proof (len_nonneg (fo_pending f)).
    unfold len in *. rewrite length_drop. lia. }
  setoid_rewrite (λ f' vs, read_loop_Ok _ _ _ f' vs _ _ _ Hsee Hin Hset Hlen (Nat.lt_succ_diag_r _)).
  rewrite Hlen. split.
  - intros (vs & (c & buf & Hc & Hb & ->) & ->). by exists c, buf, vs.
  - intros (c & buf & vs & Hc & Hb & -> & ->). exists vs. split; [by exists c, buf|done].
Qed.

(** Files that only grow, under the same names. *)
Definition grows (w w' : world) : Prop :=
  (∀ path i, wd_paths w !! path = Some i → wd_paths w' !! path = Some i) ∧
  (∀ i b, wd_data w !! i = Some b → ∃ b', wd_data w' !! i = Some b' ∧ b `prefix_of` b').
#[local] Instance grows_transitive : Transitive grows.
Proof.
  intros a b c [P1 D1] [P2 D2]. split; [eauto|]. intros i x (y & Hy & H1)%D1.
  apply D2 in Hy as (z & Hz & H2). exists z. split; [done|]. by trans y.
Qed.

Lemma open_path_grows w w' path i b :
  grows w w' → open_path w path = Ok (i, b) → ∃ b', open_path w' path = Ok (i, b') ∧ b `prefix_of` b'.
Proof.
  intros [P D]. unfold open_path. intros (j & Hj%ok_or_Ok & H)%res_bind_Ok.
  apply res_bind_Ok in H as (x & Hx%ok_or_Ok & H). injection H as -> ->.
  apply D in Hx as (b' & Hb' & Hpre). exists b'. by rewrite (P _ _ Hj); cbn; rewrite Hb'.
Qed.

Lemma poll_inv w f f' p :
  small w → follower_inv f → poll w f = (f', Ok p) → follower_inv f'.
Proof.
  intros Hw Hinv H. pose proof (poll_sees _ _ _ _ Hw Hinv H) as (progress & raw & Hsee & Hin).
  destruct Hinv as (I1 & I2 & I3 & Hset & Hp).
  destruct (proj1 (poll_Ok _ _ _ _ _ _ Hsee Hin Hset Hp) H) as (c & buf & vs & Hc & Hb & -> & _).
  destruct (consumes_cursor _ _ _ _ _ _ _ _ I1 I3 Hc) as (H1 & H2 & H3 & _).
  unfold follower_inv, settled.
  cbn [set_input set_cursor fo_cursor fo_pending fo_read_offset fo_poisoned].
  split_and!; try done; try lia; [|by eapply consumes_rest].
  rewrite H1, len_app. destruct Hin as (_ & _ & H5 & _). pose proof (len_nonneg (fo_pending f)).
  unfold len in *. rewrite length_drop. lia.
Qed.

(** Two polls of growing files are one poll of the later files. *)
Lemma polls_merge w1 w2 f f1 f2 p1 p2 :
  small w1 → small w2 → grows w1 w2 → follower_inv f →
  poll w1 f = (f1, Ok p1) → poll w2 f1 = (f2, Ok p2) →
  ∃ p, poll w2 f = (f2, Ok p) ∧ po_records p = po_records p1 ++ po_records p2.
Proof.
  intros Hw1 Hw2 Hg Hinv H1 H2.
  pose proof (poll_sees _ _ _ _ Hw1 Hinv H1) as (P1 & R1 & Hsee1 & Hin1).
  pose proof (poll_inv _ _ _ _ Hw1 Hinv H1) as Hinv1.
  pose proof (poll_sees _ _ _ _ Hw2 Hinv1 H2) as (P2 & R2 & Hsee2 & Hin2).
  destruct Hinv as (I1 & I2 & I3 & Hset & Hp), Hinv1 as (_ & _ & _ & Hset1 & Hp1).
  destruct (proj1 (poll_Ok _ _ _ _ _ _ Hsee1 Hin1 Hset Hp) H1)
    as (c1 & buf1 & vs1 & Hc1 & Hb1 & Hf1 & Hq1).
  destruct (proj1 (poll_Ok _ _ _ _ _ _ Hsee2 Hin2 Hset1 Hp1) H2)
    as (c2 & buf2 & vs2 & Hc2 & Hb2 & Hf2 & Hq2). subst f1 f2 p1 p2.
  assert (P1 `prefix_of` P2 ∧ R1 `prefix_of` R2) as [HP HR].
  { destruct Hsee1 as (Ho1 & Ho2 & _), Hsee2 as (Ho3 & Ho4 & _). cbn in Ho3, Ho4.
    destruct (open_path_grows _ _ _ _ _ Hg Ho1) as (x & Hx & ?).
    destruct (open_path_grows _ _ _ _ _ Hg Ho2) as (y & Hy & ?). split; congruence. }
  assert (in_files f P2 R2) as Hin.
  { destruct Hin1 as (_ & _ & A3 & A4). apply prefix_length in HP, HR.
    unfold in_files, len in *. lia. }
  assert (sees w2 f P2 R2) as Hsee by exact Hsee2.
  exists (mkPoll (vs1 ++ vs2) (len buf2) (len P2) c2). split; [|done].
  apply (poll_Ok _ _ _ _ _ _ Hsee Hin Hset Hp). exists c2, buf2, (vs1 ++ vs2). split_and!; try done.
  cbn [set_input set_cursor fo_cursor fo_pending fo_read_offset fo_genesis fo_expected_raw_path] in Hc2.
  destruct HP as [x ->]. destruct Hin1 as (_ & _ & A3 & _). pose proof (len_nonneg (fo_pending f)).
  rewrite drop_app_le by (unfold len in *; lia). rewrite app_assoc.
  replace (Z.to_nat (len P1)) with (length P1) in Hc2 by (unfold len; lia).
  rewrite drop_app_length in Hc2. eapply consumes_app; [|done]. by eapply consumes_grows.
Qed.

(** A sequence of polls, one per world, that all succeed. *)
Fixpoint run_polls (ws : list world) (f : SegmentDurabilityFollower)
    : res (list VerifiedDurabilityProgressV1 * SegmentDurabilityFollower) :=
  match ws with
  | [] => Ok ([], f)
  | w :: ws =>
      match poll w f with
      | (f, Ok p) => '(vs, f) ← run_polls ws f; Ok (po_records p ++ vs, f)
      | (_, Err e) => Err e
      | (_, Panic) => Panic
      end
  end.
Fixpoint growing (w : world) (ws : list world) : Prop :=
  match ws with [] => True | w' :: ws => grows w w' ∧ growing w' ws end.

Lemma run_polls_merge w ws f vs f' :
  follower_inv f → growing w ws → Forall small (w :: ws) → run_polls (w :: ws) f = Ok (vs, f') →
  ∃ p, poll (default w (last ws)) f = (f', Ok p) ∧ po_records p = vs.
Proof.
  revert w f vs. induction ws as [|w2 ws IH]; intros w f vs Hinv Hg Hsmall H.
  - cbn in H. destruct (poll w f) as [f1 [p| |]] eqn:Hp; [|done..]. cbn in H. injection H as <- <-.
    exists p. by rewrite app_nil_r.
  - cbn [run_polls] in H. destruct (poll w f) as [f1 [p1| |]] eqn:H1; [|done..].
    destruct (poll w2 f1) as [f2 [p2| |]] eqn:H2; [|done..]. destruct Hg as [Hg Hgs].
    apply Forall_cons in Hsmall as [Hs1 Hs]. apply Forall_cons in Hs as [Hs2 Hs].
    destruct (polls_merge _ _ _ _ _ _ _ Hs1 Hs2 Hg Hinv H1 H2) as (p & Hp & Hrec).
    apply res_bind_Ok in H as ([vs1 f3] & H & Hvs). apply res_bind_Ok in H as ([vs2 f4] & Hrun & H).
    injection H as <- <-. injection Hvs as <- <-.
    assert (default w (last (w2 :: ws)) = default w2 (last ws)) as ->
      by (by destruct ws as [|w3 ws]; [|rewrite last_cons_cons; destruct (last (w3 :: ws)) eqn:E; [|apply last_None in E]]).
    apply IH; [done|done|by constructor|]. cbn [run_polls]. rewrite Hp, Hrun. cbn.
    by rewrite Hrec, app_assoc.
Qed.

Lemma open_inv w pp rp g e f :
  open_with_raw_identity w pp rp g e = Ok f →
  follower_inv f ∧ validate_genesis g = Ok () ∧ fo_genesis f = g ∧ fo_expected_raw_path f = e ∧
  fo_raw_path f = rp ∧ fo_pending f = [] ∧ fo_read_offset f = 0 ∧
  fo_cursor f = mkCursor 0 0 ZERO_DIGEST None 0 (len MAGIC)
    (gn_previous_segment_terminal_sha256 g) (gn_next_frame_index g) ∧
  ∃ i raw, open_path w rp = Ok (i, raw) ∧ take 8 raw = MAGIC.
Proof.
  unfold open_with_raw_identity. intros ([] & Hg & H)%res_bind_Ok.
  apply res_bind_Ok in H as ([i raw] & Hr & H). apply res_bind_Ok in H as ([] & Hm%reject_Ok & H).
  apply res_bind_Ok in H as ([j progress] & _ & H). injection H as <-.
  apply negb_false_iff, bool_decide_eq_true in Hm.
  split; [split_and!; done|]. split_and!; try done. by exists i, raw.
Qed.

(** Following a journal while it grows verifies the same as one audit of the
    result. Open a follower and poll it at any moments while files only grow, all
    polls successful. Then one poll of the newly opened follower at the last moment
    succeeds as well, returns the records of all these polls in order, and leaves
    the follower in the same state: no record is skipped, repeated or judged
    differently for where the reads happened to end. *)
Theorem follower_incremental_exact w0 pp rp g e f0 w ws f vs :
  open_with_raw_identity w0 pp rp g e = Ok f0 → growing w ws → Forall small (w :: ws) →
  run_polls (w :: ws) f0 = Ok (vs, f) →
  ∃ p, poll (default w (last ws)) f0 = (f, Ok p) ∧ po_records p = vs.
Proof. intros (Hinv & _)%open_inv Hg Hs H. by eapply run_polls_merge. Qed.

(** *** The audit against the raw segment *)
Context `{!Sha256Laws Hsha}.

Definition tail_sha (p : string) (rs : list RawRecordEnvelopeV1) : string :=
  default p (re_record_sha256 <$> last rs).
Lemma tail_sha_cons p r rs : tail_sha p (r :: rs) = tail_sha (re_record_sha256 r) rs.
Proof.
  unfold tail_sha. destruct rs as [|b rs]; [done|]. rewrite last_cons_cons.
  by destruct (last (b :: rs)) eqn:E; [|apply last_None in E].
Qed.
Lemma tail_sha_app p a b : tail_sha p (a ++ b) = tail_sha (tail_sha p a) b.
Proof. revert p. induction a as [|x a IH]; intros p; cbn [app]; [done|]. by rewrite !tail_sha_cons. Qed.
Lemma tail_sha_same p a b : Forall2 same_record a b → tail_sha p a = tail_sha p b.
Proof.
  intros H. revert p. induction H as [|x y a b (_ & _ & Hs & _) _ IH]; intros p; [done|].
  by rewrite !tail_sha_cons, Hs, IH.
Qed.

Lemma records_loop_index input i j o p E E' rs :
  records_loop (S (length input)) input i o p E = (E', Ok rs) →
  ∃ rs', records_loop (S (length input)) input j o p E = (E', Ok rs') ∧ Forall2 same_record rs' rs.
Proof.
  revert input i j o p E. induction rs as [|a rs IH]; intros input i j o p E H.
  - apply records_loop_inv in H as [(-> & _ & ->)|(?&?&?&?&?&_&_&_&?&_)]; [|done].
    exists []. split; [done|constructor].
  - apply records_loop_inv in H as [(_ & ? & _)|(f & body & rest & rs1 & E1 & H)]; [done|].
    cbn zeta in H. destruct H as (Hr & -> & Ho & Hrs & Hl). injection Hrs as -> <-.
    destruct (IH _ _ (j + 1) _ _ _ Hl) as (rs' & Hl' & Hs). eexists.
    rewrite (records_loop_step _ _ _ _ _ _ _ _ _ _ Hr Ho), Hl'. split; [done|]. by constructor.
Qed.

Lemma records_loop_app in1 in2 i j o p E E1 E2 rs1 rs2 :
  records_loop (S (length in1)) in1 i o p E = (E1, Ok rs1) →
  records_loop (S (length in2)) in2 j (o + len in1) (tail_sha p rs1) E1 = (E2, Ok rs2) →
  ∃ rs2', records_loop (S (length (in1 ++ in2))) (in1 ++ in2) i o p E = (E2, Ok (rs1 ++ rs2')) ∧
    Forall2 same_record rs2' rs2.
Proof.
  revert in1 i o p E. induction rs1 as [|a rs1 IH]; intros in1 i o p E H H2.
  - apply records_loop_inv in H as [(-> & _ & ->)|(?&?&?&?&?&_&_&_&?&_)]; [|done].
    change (len []) with 0 in H2. rewrite Z.add_0_r in H2. by eapply records_loop_index in H2.
  - apply records_loop_inv in H as [(_ & ? & _)|(f & body & rest & rs & E3 & H)]; [done|].
    cbn zeta in H. destruct H as (Hr & -> & Ho & Hrs & Hl). injection Hrs as -> <-.
    rewrite tail_sha_cons, len_app, Z.add_assoc in H2. cbn [re_record_sha256] in H2.
    destruct (IH _ _ _ _ _ Hl H2) as (rs2' & Hl2 & Hs).
    apply read_next_Some_inv in Hr as (body' & Hin & Hd & Hn & _ & Hloc).
    apply app_inj_1 in Hin as [Hin _]; [|unfold len in Hn; lia].
    rewrite <-Hin in Hloc. exists rs2'. rewrite <-app_assoc.
    rewrite (records_loop_step _ _ _ _ _ _ _ _ _ _ (Hloc (rest ++ in2)) Ho), Hl2. done.
Qed.

Lemma records_loop_singleton k n rs input i o p E' :
  records_loop (S (length input)) input i o p {[k := n]} = (E', Ok rs) →
  Forall (λ r, record_key (re_frame r) = k) rs → E' = {[k := n + len rs]}.
Proof.
  revert input i o p n. induction rs as [|a rs IH]; intros input i o p n H Hk.
  - apply records_loop_inv in H as [(_ & _ & ->)|(?&?&?&?&?&_&_&_&?&_)]; [|done].
    change (len []) with 0. by rewrite Z.add_0_r.
  - apply records_loop_inv in H as [(_ & ? & _)|(f & body & rest & rs1 & E1 & H)]; [done|].
    cbn zeta in H. destruct H as (Hr & -> & Ho & Hrs & Hl). injection Hrs as -> <-.
    apply Forall_cons in Hk as [Hf Hk]. cbn [re_frame] in Hf.
    apply read_next_agree in Hr as ([Hi _] & -> & _).
    rewrite Hf, lookup_singleton_eq in Hi. unfold default, id in Hi. subst n.
    rewrite Hf, insert_singleton_eq in Hl. apply IH in Hl as ->; [|done].
    rewrite len_cons. f_equal. lia.
Qed.

Definition segment_key (g : RawSegmentGenesisV1) : string * string :=
  (gn_connection_epoch g, gn_stream g).
(** The first [n] bytes of the raw segment without the magic. *)
Definition raw_window (raw : bytes) (n : Z) : bytes := take (Z.to_nat (n - 8)) (drop 8 raw).

(** The cursor stands behind the records [rs], which are everything before it. *)
Definition audited (g : RawSegmentGenesisV1) (raw : bytes) (c : DurabilityFollowerCursorV1)
    (rs : list RawRecordEnvelopeV1) : Prop :=
  8 ≤ fc_raw_offset c ≤ len raw ∧
  records_loop (S (length (raw_window raw (fc_raw_offset c)))) (raw_window raw (fc_raw_offset c))
    0 8 (gn_previous_segment_terminal_sha256 g) {[ segment_key g := gn_next_frame_index g ]}
    = ({[ segment_key g := fc_raw_next_frame_index c ]}, Ok rs) ∧
  Forall (λ r, record_key (re_frame r) = segment_key g) rs ∧
  len rs = fc_raw_record_count c ∧
  tail_sha (gn_previous_segment_terminal_sha256 g) rs = fc_raw_previous_record_sha256 c.

(** The acknowledgement of a verified record ends on the record it counts to. *)
Definition ack_exact (rs : list RawRecordEnvelopeV1) (ack : DurabilityAckV1) : Prop :=
  ∃ r, rs !! Z.to_nat (ack_durable_record_count ack - 1) = Some r ∧ ack_ends_on ack r = true ∧
    0 < ack_durable_record_count ack ≤ len rs.

Lemma ack_exact_app rs more ack : ack_exact rs ack → ack_exact (rs ++ more) ack.
Proof.
  intros (r & Hr & He & Hn). exists r. split; [by apply lookup_app_l_Some|].
  rewrite len_app. pose proof (len_nonneg more). split; [done|lia].
Qed.

Lemma raw_window_app raw a b :
  8 ≤ a ≤ b → b ≤ len raw →
  raw_window raw b = raw_window raw a ++ take (Z.to_nat (b - a)) (drop (Z.to_nat a) raw) ∧
  8 + len (raw_window raw a) = a.
Proof.
  intros Ha Hb. unfold raw_window, len in *. rewrite length_take, length_drop.
  split; [|lia]. replace (Z.to_nat (b - 8)) with (Z.to_nat (a - 8) + Z.to_nat (b - a))%nat by lia.
  rewrite <-take_take_drop, drop_drop. do 3 f_equal. lia.
Qed.

Lemma same_record_keys k rs rs' :
  Forall2 same_record rs rs' → Forall (λ r, record_key (re_frame r) = k) rs' →
  Forall (λ r, record_key (re_frame r) = k) rs.
Proof.
  induction 1 as [|x y rs rs' (_ & _ & _ & Hf) _ IH]; intros Hk; [constructor|].
  apply Forall_cons in Hk as [Hy Hk]. constructor; [by rewrite Hf|by apply IH].
Qed.

(** Reading on from the cursor extends what has been read. *)
Lemma audited_extend g raw c rs b rs2 :
  audited g raw c rs → fc_raw_offset c < b ≤ len raw →
  read_raw_record_range raw (fc_raw_offset c) b (fc_raw_previous_record_sha256 c)
    (gn_connection_epoch g) (gn_stream g) (fc_raw_next_frame_index c) = Ok rs2 →
  Forall (λ r, record_key (re_frame r) = segment_key g) rs2 →
  ∃ more, Forall2 same_record more rs2 ∧
    records_loop (S (length (raw_window raw b))) (raw_window raw b) 0 8
      (gn_previous_segment_terminal_sha256 g) {[ segment_key g := gn_next_frame_index g ]}
      = ({[ segment_key g := fc_raw_next_frame_index c + len rs2 ]}, Ok (rs ++ more)) ∧
    (∀ r, last rs2 = Some r →
       rf_frame_index (re_frame r) = fc_raw_next_frame_index c + len rs2 - 1).
Proof.
  intros (Ho & Hl & Hk & Hn & Ht) Hb Hr Hk2. unfold read_raw_record_range in Hr.
  apply res_bind_Ok in Hr as (_ & _ & Hr). apply res_bind_Ok in Hr as (_ & _ & Hr). cbn zeta in Hr.
  apply res_bind_Ok in Hr as (rs' & Hrec & Hr). apply res_bind_Ok in Hr as (_ & _ & Hr).
  injection Hr as ->. unfold read_raw_records_after_magic in Hrec. fold (segment_key g) in Hrec.
  destruct (raw_window_app raw (fc_raw_offset c) b) as [Hw Hlen]; [lia..|].
  set (w2 := take (Z.to_nat (b - fc_raw_offset c)) (drop (Z.to_nat (fc_raw_offset c)) raw)) in *.
  destruct (records_loop (S (length w2)) w2 0 _ _ _) as [E' res] eqn:Hl2. cbn [snd] in Hrec. subst res.
  pose proof (records_loop_singleton _ _ _ _ _ _ _ _ Hl2 Hk2) as ->.
  rewrite <-Ht in Hl2. rewrite <-Hlen in Hl2 at 1.
  destruct (records_loop_app _ _ _ _ _ _ _ _ _ _ _ Hl Hl2) as (more & Hl3 & Hsame).
  exists more. rewrite Hw. split_and!; [done..|]. intros r Hlast.
  destruct (records_loop_frames _ _ _ _ _ _ _ _ r Hl2 Hk2 Hlast) as [-> _].
  by rewrite lookup_singleton_eq.
Qed.

Lemma validate_follower_ack_Ok ack g wm :
  validate_follower_ack ack g = Ok () → expect (ack_streams ack !! 0%nat) = Ok wm →
  ack_streams ack = [wm] ∧ (wm_connection_epoch wm, wm_stream wm) = segment_key g ∧
  0 < ack_durable_record_count ack.
Proof.
  unfold validate_follower_ack. intros ([] & Hg%reject_Ok & H)%res_bind_Ok Hwm.
  apply res_bind_Ok in H as (_ & _ & H). rewrite Hwm in H. cbn [mbind res_bind] in H.
  apply res_bind_Ok in H as ([] & Hid%reject_Ok & H).
  apply res_bind_Ok in H as (n & Hn & _). split_orb.
  unfold sub_u64 in Hn. destruct (checked_sub _ 1) eqn:Hs; [|done].
  apply checked_sub_Some in Hs as [Hs _].
  repeat match goal with H : String.eqb _ _ = true |- _ => apply String.eqb_eq in H end.
  unfold segment_key. destruct (ack_streams ack) as [|w [|]]; [done| |done].
  injection Hwm as ->. split_and!; [done|congruence|lia].
Qed.

Lemma ack_step_audited g raw ack c n c' rs :
  audited g raw c rs → ack_step raw g ack c = Ok (n, c') →
  ∃ more, audited g raw c' (rs ++ more) ∧ ack_exact (rs ++ more) ack ∧
    fc_latest_ack c' = fc_latest_ack c ∧ not_advancing (fc_latest_ack c) ack = false.
Proof.
  intros Haud H. unfold ack_step in H.
  apply res_bind_Ok in H as ([] & Hv & H). apply res_bind_Ok in H as ([] & Hadv & H).
  apply res_bind_Ok in H as ([] & H1%reject_Ok & H). apply res_bind_Ok in H as ([] & H2%reject_Ok & H).
  apply res_bind_Ok in H as (rs2 & Hr & H).
  apply res_bind_Ok in H as (m & [Hle Hm]%ok_or_Ok%checked_sub_Some & H).
  apply res_bind_Ok in H as (r & Hlast%ok_or_Ok & H). apply res_bind_Ok in H as (wm & Hwm & H).
  apply res_bind_Ok in H as ([] & H3%reject_Ok & H).
  apply res_bind_Ok in H as (next & [_ Hnext]%ok_or_Ok%checked_add_Some & H). injection H as _ <-.
  destruct (validate_follower_ack_Ok _ _ _ Hv Hwm) as (Hst & Hid & Hpos).
  apply orb_false_iff in H3 as [H3 Hf]. apply orb_false_iff in H3 as [H3 Hsha'].
  apply orb_false_iff in H3 as [H3 Hend]. apply orb_false_iff in H3 as [Hcount Hkeys].
  split_orb. apply String.eqb_eq in Hsha'.
  assert (Forall (λ r, record_key (re_frame r) = segment_key g) rs2) as Hk2.
  { apply existsb_none_inv in Hkeys. eapply Forall_impl; [exact Hkeys|]. intros x Hx.
    apply orb_false_iff in Hx as [H3%negb_false_iff%String.eqb_eq H4%negb_false_iff%String.eqb_eq].
    unfold record_key, segment_key. congruence. }
  destruct (audited_extend g raw c rs (ack_durable_through_offset ack) rs2 Haud)
    as (more & Hsame & Hl & Hfi); [lia|done|done|].
  destruct Haud as (Ho & _ & Hk & Hn & Ht).
  destruct (Forall2_last _ _ _ _ Hsame Hlast) as (y & Hy & _ & Hye & Hys & Hyf).
  pose proof (Forall2_length _ _ _ Hsame) as Hlen. specialize (Hfi _ Hlast).
  exists more. split_and!.
  - unfold audited. cbn [fc_raw_offset fc_raw_next_frame_index fc_raw_record_count
      fc_raw_previous_record_sha256].
    split; [lia|]. split; [rewrite Hl; do 3 f_equal; lia|].
    split; [apply Forall_app; split; [done|by eapply same_record_keys]|].
    split; [rewrite len_app; unfold len in *; lia|].
    unfold tail_sha. rewrite last_app, Hy. cbn. congruence.
  - exists y. split_and!.
    + apply last_Some in Hy as [l ->]. rewrite app_assoc.
      apply list_lookup_middle. rewrite !length_app in *. cbn [length] in *. unfold len in *. lia.
    + assert (record_key (re_frame r) = (wm_connection_epoch wm, wm_stream wm)) as Hkr.
      { rewrite Hid. apply last_Some in Hlast as [l ->]. apply Forall_app in Hk2 as [_ Hk2].
        by apply Forall_inv in Hk2. }
      injection Hkr as He1 He2. unfold ack_ends_on. rewrite Hst, Hye, Hys, Hyf, He1, He2, Hsha', !String.eqb_refl.
      rewrite (Z.eqb_sym (wm_durable_through_frame_index wm)). lia.
    + lia.
    + rewrite len_app. unfold len in *. lia.
  - done.
  - destruct (fc_latest_ack c) as [old|]; [|done]. cbn. unfold check_ack_advances in Hadv.
    by apply res_bind_Ok in Hadv as ([] & Hx%reject_Ok & _).
Qed.

(** The acknowledgements verified so far are exact and increase. *)
Definition acks_audited (rs : list RawRecordEnvelopeV1) (acks : list DurabilityAckV1)
    (latest : option DurabilityAckV1) : Prop :=
  StronglySorted advancing acks ∧ last acks = latest ∧ Forall (ack_exact rs) acks.

Lemma record_step_audited g raw e line c v c' rs acks :
  audited g raw c rs → acks_audited rs acks (fc_latest_ack c) →
  record_step raw g e line c = Ok (v, c') →
  ∃ more, audited g raw c' (rs ++ more) ∧
    acks_audited (rs ++ more) (acks ++ [vp_ack v]) (fc_latest_ack c').
Proof.
  intros Haud (Hsort & Hlast & Hex) H. unfold record_step in H.
  apply res_bind_Ok in H as (_ & _ & H). apply res_bind_Ok in H as (en & _ & H). cbn zeta in H.
  apply res_bind_Ok in H as (b & _ & H). apply res_bind_Ok in H as (_ & _ & H).
  apply res_bind_Ok in H as (_ & _ & H). apply res_bind_Ok in H as ([n c1] & Ha & H).
  apply res_bind_Ok in H as (l & _ & H). apply res_bind_Ok in H as (o & _ & H).
  apply res_bind_Ok in H as (k & _ & H). injection H as <- <-.
  destruct (ack_step_audited _ _ _ _ _ _ _ Haud Ha) as (more & Haud' & Hack & _ & Hadv).
  exists more. split; [exact Haud'|]. cbn [vp_ack fc_latest_ack]. split_and!.
  - apply not_advancing_false; [by rewrite Hlast|done].
  - by rewrite last_snoc.
  - apply Forall_app. split; [|by apply Forall_singleton].
    eapply Forall_impl; [exact Hex|]. intros x. apply ack_exact_app.
Qed.

Lemma consumes_audited g raw e c buf vs c' buf' rs acks :
  audited g raw c rs → acks_audited rs acks (fc_latest_ack c) →
  consumes raw g e c buf vs c' buf' →
  ∃ more, audited g raw c' (rs ++ more) ∧
    acks_audited (rs ++ more) (acks ++ (vp_ack <$> vs)) (fc_latest_ack c').
Proof.
  intros Haud Hacks H. revert rs acks Haud Hacks.
  induction H as [|c buf line rest v c1 vs c2 buf2 Hs Hr Hc IH]; intros rs acks Haud Hacks.
  - exists []. by rewrite !app_nil_r.
  - destruct (record_step_audited _ _ _ _ _ _ _ _ _ Haud Hacks Hr) as (m1 & Ha1 & Hk1).
    destruct (IH _ _ Ha1 Hk1) as (m2 & Ha2 & Hk2). exists (m1 ++ m2).
    rewrite <-(app_assoc rs) in Ha2, Hk2. rewrite <-(app_assoc acks) in Hk2. exact (conj Ha2 Hk2).
Qed.

(** The follower's check of a genesis is that of the raw log. *)
Lemma validate_genesis_agrees g :
  is_ok (validate_genesis g) = is_ok (validate_segment_genesis g).
Proof.
  unfold validate_genesis, validate_segment_genesis, validate_follower_digest, validate_sha256.
  cbv [mbind res_bind reject]. destruct (_ || _); [done|]. destruct (is_digest _); [|done]. cbn [negb].
  destruct (gn_segment_index g =? 0), (gn_next_frame_index g =? 0), (String.eqb _ _),
    (0 <? gn_segment_index g), (0 <? gn_next_frame_index g); done.
Qed.

Lemma audited_reads g raw c rs :
  audited g raw c rs → take 8 raw = MAGIC → validate_segment_genesis g = Ok () →
  read_raw_segment_records (take (Z.to_nat (fc_raw_offset c)) raw) g = Ok rs.
Proof.
  intros (Ho & Hl & Hk & _) Hm Hg. unfold read_raw_segment_records, read_magic. rewrite Hg.
  cbn [mbind res_bind]. rewrite take_take, Nat.min_l by lia. rewrite bool_decide_eq_true_2 by done.
  cbn [mbind res_bind].
  assert (drop 8 (take (Z.to_nat (fc_raw_offset c)) raw) = raw_window raw (fc_raw_offset c)) as ->.
  { unfold raw_window. rewrite take_drop_commute. do 2 f_equal. lia. }
  unfold read_raw_records_after_magic. fold (segment_key g). change (len MAGIC) with 8.
  rewrite Hl. cbn [snd mbind res_bind].
  rewrite (proj2 (reject_Ok _ _ ())); [done|]. apply existsb_none.
  eapply Forall_impl; [exact Hk|]. intros r Hr. by rewrite bool_decide_eq_true_2.
Qed.

Lemma growing_last w0 w ws : grows w0 w → growing w ws → grows w0 (default w (last ws)).
Proof.
  revert w. induction ws as [|w2 ws IH]; intros w H Hg; [done|]. destruct Hg as [Hg1 Hg].
  assert (grows w0 w2) as H2 by (by trans w). specialize (IH _ H2 Hg).
  destruct ws as [|w3 ws]; [done|]. rewrite last_cons_cons.
  by destruct (last (w3 :: ws)) eqn:E; [|apply last_None in E].
Qed.

(** C34: what the follower has verified is what the raw segment holds. After any
    successful polls of growing files, the raw segment up to the cursor reads as a
    segment of the given genesis, with exactly as many records as the cursor counts;
    every verified acknowledgement ends, in offset, digest and stream position, on
    the record it counts to; and the acknowledgements strictly increase. *)
Theorem follower_audit_sound w0 pp rp g e f0 w ws f vs i raw :
  open_with_raw_identity w0 pp rp g e = Ok f0 → grows w0 w → growing w ws →
  Forall small (w :: ws) → run_polls (w :: ws) f0 = Ok (vs, f) →
  open_path (default w (last ws)) rp = Ok (i, raw) →
  ∃ rs, read_raw_segment_records (take (Z.to_nat (fc_raw_offset (fo_cursor f))) raw) g = Ok rs ∧
    len rs = fc_raw_record_count (fo_cursor f) ∧
    Forall (ack_exact rs) (vp_ack <$> vs) ∧ StronglySorted advancing (vp_ack <$> vs) ∧
    fc_latest_ack (fo_cursor f) = last (vp_ack <$> vs).
Proof.
  intros Hopen Hg0 Hg Hs Hrun Hraw.
  destruct (open_inv _ _ _ _ _ _ Hopen) as (Hinv & Hgen & Hfg & Hfe & Hfr & Hfp & Hfo & Hfc & j & raw0 & Hr0 & Hmagic).
  destruct (run_polls_merge _ _ _ _ _ Hinv Hg Hs Hrun) as (p & Hp & <-).
  assert (small (default w (last ws))) as Hsmall.
  { apply Forall_cons in Hs as [Hw Hs]. destruct (last ws) as [x|] eqn:E; [|done].
    apply last_Some in E as [l ->]. apply Forall_app in Hs as [_ Hs]. by apply Forall_inv in Hs. }
  pose proof (poll_sees _ _ _ _ Hsmall Hinv Hp) as (P & R & Hsee & Hin).
  assert (R = raw) as -> by (destruct Hsee as (_ & Hx & _); congruence).
  pose proof Hinv as (_ & _ & _ & Hset & Hpo).
  destruct (proj1 (poll_Ok _ _ _ _ _ _ Hsee Hin Hset Hpo) Hp) as (c & buf & vs & Hc & _ & -> & ->).
  assert (take 8 raw = MAGIC) as Hm.
  { destruct (open_path_grows _ _ _ _ _ (growing_last _ _ _ Hg0 Hg) Hr0) as (y & Hy & [z Hz]).
    assert (raw = raw0 ++ z) as -> by congruence.
    rewrite take_app_le; [done|]. apply (f_equal length) in Hmagic. rewrite length_take in Hmagic.
    change (length MAGIC) with 8%nat in Hmagic. lia. }
  assert (audited g raw (fo_cursor f0) []) as Haud.
  { destruct Hin as (_ & _ & _ & Hoff). unfold audited. rewrite Hfc in Hoff |- *.
    cbn [fc_raw_offset fc_raw_next_frame_index fc_raw_record_count
      fc_raw_previous_record_sha256] in Hoff |- *. change (len MAGIC) with 8 in *.
    split; [lia|]. split; [done|]. split; [constructor|done]. }
  rewrite Hfg, Hfe in Hc.
  destruct (consumes_audited _ _ _ _ _ _ _ _ _ [] Haud ltac:(rewrite Hfc; split_and!; [constructor|done|constructor]) Hc)
    as (rs & Haud' & Hsort & Hlast & Hex). cbn [app] in *.
  exists rs. cbn [po_records set_input set_cursor fo_cursor].
  split_and!; try done; [|by destruct Haud' as (_ & _ & _ & ? & _)].
  apply audited_reads; [done..|]. pose proof (validate_genesis_agrees g) as Hag.
  rewrite Hgen in Hag. by destruct (validate_segment_genesis g) as [[]| |].
Qed.
End follower_theory.

(** ** Instances: a journal of two acknowledgements, followed in two polls *)
Module FollowerDemo.
#[export] Existing Instance toy_sha256.
#[export] Existing Instance toy_sha256_laws.
#[export] Existing Instance plain_base64.
#[export] Existing Instance RawDemo.wire_serde.
#[export] Existing Instance RawDemo.record_serde.
#[export] Existing Instance RawDemo.file_durable_sink.
#[export] Existing Instance RawDemo.file_sink_laws.
#[export] Existing Instance ProgressDemo.body_serde.

Definition capture (ops : list writer_op) : RawLogWriter RawDemo.file_sink :=
  (run_writer ops RawDemo.start []).1.
Definition part : list writer_op := [OpAppend (RawDemo.frame "depth" 0); OpSync].
Definition whole : list writer_op :=
  part ++ [OpAppend (RawDemo.frame "depth" 1); OpAppend (RawDemo.frame "depth" 2); OpSync].
Definition raw0 : bytes := Eval vm_compute in contents (wr_sink (capture part)).
Definition raw1 : bytes := Eval vm_compute in contents (wr_sink (capture whole)).
Definition no_ack : DurabilityAckV1 := mkAck "" 0 0 "" [].
Definition ack0 : DurabilityAckV1 := Eval vm_compute in default no_ack (wr_last_ack (capture part)).
Definition ack1 : DurabilityAckV1 := Eval vm_compute in default no_ack (wr_last_ack (capture whole)).

#[export] Instance envelope_serde : Serde ProgressEnvelopeV1 :=
  text_serde
    [mkProgressEnvelope (ProgressDemo.body 0 ack0 ZERO_DIGEST) (ProgressDemo.digest 0);
     mkProgressEnvelope (ProgressDemo.body 1 ack1 (ProgressDemo.digest 0)) (ProgressDemo.digest 1)].

(** At the first poll the second line is only half written. *)
Definition journal0 : bytes := [x2a; x0a; x2a].
Definition journal1 : bytes := [x2a; x0a; x2a; x2a; x0a].
Definition id_raw : FileIdentityV1 := mkIdentity 1 10.
Definition id_journal : FileIdentityV1 := mkIdentity 1 11.
Definition names : gmap string FileIdentityV1 := {[ "raw.bnraw" := id_raw; "acks" := id_journal ]}.
Definition world0 : world := mkWorld names {[ id_raw := raw0; id_journal := journal0 ]}.
Definition world1 : world := mkWorld names {[ id_raw := raw1; id_journal := journal1 ]}.

Definition genesis : RawSegmentGenesisV1 :=
  mkGenesis "RawSegmentGenesisV1" 0 ZERO_DIGEST "epoch-1" "depth" 0.
Definition cursor0 : DurabilityFollowerCursorV1 := mkCursor 0 0 ZERO_DIGEST None 0 8 ZERO_DIGEST 0.
Definition opened : SegmentDurabilityFollower := Eval vm_compute in
  match open_with_raw_identity world0 "acks" "raw.bnraw" genesis "raw.bnraw" with
  | Ok f => f | _ => mkFollower "" "" "" genesis id_raw id_raw 0 [] cursor0 true end.
Definition followed := Eval vm_compute in
  match run_polls [world0; world1] opened with Ok r => r | _ => ([], opened) end.

Lemma worlds_small : Forall small [world0; world1].
Proof.
  repeat constructor; (apply map_Forall_insert_2; [vm_compute; congruence|]);
    apply map_Forall_singleton; vm_compute; congruence.
Qed.
Lemma worlds_grow : grows world0 world1.
Proof.
  split; [done|]. intros i b. cbn [wd_data world0]. rewrite lookup_insert_Some, lookup_singleton_Some.
  intros [[<- <-]|(_ & <- & <-)].
  - exists raw1. split; [done|]. exists (drop (length raw0) raw1). vm_compute. reflexivity.
  - exists journal1. split; [done|]. by exists [x2a; x0a].
Qed.
Lemma grows_refl w : grows w w.
Proof. split; [done|]. intros i b H. by exists b. Qed.
End FollowerDemo.

Section follower_witnesses.
Import FollowerDemo.

Lemma follower_incremental_exact_witness :
  map vp_acknowledged_records followed.1 = [1; 2] ∧
  ∃ p, poll world1 opened = (followed.2, Ok p) ∧ po_records p = followed.1.
Proof.
  split; [reflexivity|].
  apply (follower_incremental_exact world0 "acks" "raw.bnraw" genesis "raw.bnraw" opened world0 [world1]);
    [vm_compute; reflexivity|exact (conj worlds_grow I)|exact worlds_small|vm_compute; reflexivity].
Defined.

Lemma follower_audit_sound_witness :
  ∃ rs, read_raw_segment_records
      (take (Z.to_nat (fc_raw_offset (fo_cursor followed.2))) raw1) genesis = Ok rs ∧
    len rs = fc_raw_record_count (fo_cursor followed.2) ∧
    Forall (ack_exact rs) (vp_ack <$> followed.1) ∧
    StronglySorted advancing (vp_ack <$> followed.1) ∧
    fc_latest_ack (fo_cursor followed.2) = last (vp_ack <$> followed.1).
Proof.
  apply (follower_audit_sound world0 "acks" "raw.bnraw" genesis "raw.bnraw" opened world0 [world1]
    followed.2 followed.1 id_raw raw1);
    [vm_compute; reflexivity|apply grows_refl|exact (conj worlds_grow I)|exact worlds_small
    |vm_compute; reflexivity|vm_compute; reflexivity].
Defined.
End follower_witnesses.
