(* ===== verification/Generations.v ===== *)
(** * Generation supervisor (generation_supervisor.rs)

    The life cycle of the raw capture: one active generation, at most one
    candidate that takes over when its continuity is proven, generations that
    drain, and gaps when the active generation is lost. Sockets and files are
    elsewhere; the supervisor sees events with a monotonic time. *)

From stdpp Require Import base list strings option numbers gmap sets.
From Stdlib Require Import ZArith Lia Ascii.
From S2P Require Import Prelude.
Local Open Scope Z_scope.

(** ** Data *)

Inductive RawSupervisorState := SvLive | SvHandover | SvGap | SvRecovering.
#[global] Instance sv_state_eq_decision : EqDecision RawSupervisorState.
Proof. solve_decision. Defined.
Inductive GenerationRole := GrActive | GrCandidate | GrDraining.
Inductive CandidateReason := PlannedRotation | ServerShutdown | RetryAfterFailure | RecoveryAfterGap.
#[global] Instance candidate_reason_eq_decision : EqDecision CandidateReason.
Proof. solve_decision. Defined.
Inductive CandidateFact :=
  | DepthConnected | TradeConnected | SnapshotPersisted | DepthDurable | TradeDurable
  | DepthContinuityProven | TradeContinuityProven.

Record GenerationIdentity := mkGeneration {
  gi_generation_id : string; gi_depth_epoch : string; gi_trade_epoch : string
}.
Definition identity_validate (i : GenerationIdentity) : res unit :=
  reject (is_blank (gi_generation_id i) || is_blank (gi_depth_epoch i)
          || is_blank (gi_trade_epoch i)
          || String.eqb (gi_generation_id i) (gi_depth_epoch i)
          || String.eqb (gi_generation_id i) (gi_trade_epoch i)
          || String.eqb (gi_depth_epoch i) (gi_trade_epoch i))
    "generation ID and stream epochs must be distinct and non-empty".
Definition identity_new (generation_id depth_epoch trade_epoch : string) : res GenerationIdentity :=
  let identity := mkGeneration generation_id depth_epoch trade_epoch in
  _ ← identity_validate identity; Ok identity.
Definition contains_epoch (i : GenerationIdentity) (epoch : string) : bool :=
  String.eqb (gi_depth_epoch i) epoch || String.eqb (gi_trade_epoch i) epoch.

Record CandidateReadiness := mkReadiness {
  rd_depth_connected : bool; rd_trade_connected : bool; rd_snapshot_persisted : bool;
  rd_depth_durable : bool; rd_trade_durable : bool; rd_depth_continuity_proven : bool;
  rd_trade_continuity_proven : bool
}.
Definition readiness_empty : CandidateReadiness :=
  mkReadiness false false false false false false false.
Definition is_ready (r : CandidateReadiness) : bool :=
  rd_depth_connected r && rd_trade_connected r && rd_snapshot_persisted r && rd_depth_durable r
  && rd_trade_durable r && rd_depth_continuity_proven r && rd_trade_continuity_proven r.

(** The new readiness and whether the fact was new. *)
Definition readiness_observe (fact : CandidateFact) (r : CandidateReadiness)
    : res (CandidateReadiness * bool) :=
  let '(mkReadiness dc tc sp dd td dp tp) := r in
  match fact with
  | DepthConnected => Ok (mkReadiness true tc sp dd td dp tp, negb dc)
  | TradeConnected => Ok (mkReadiness dc true sp dd td dp tp, negb tc)
  | SnapshotPersisted =>
      _ ← reject (negb dc) "snapshot cannot be persisted before depth connects";
      Ok (mkReadiness dc tc true dd td dp tp, negb sp)
  | DepthDurable =>
      _ ← reject (negb dc) "depth cannot become durable before it connects";
      Ok (mkReadiness dc tc sp true td dp tp, negb dd)
  | TradeDurable =>
      _ ← reject (negb tc) "trade cannot become durable before it connects";
      Ok (mkReadiness dc tc sp dd true dp tp, negb td)
  | DepthContinuityProven =>
      _ ← reject (negb sp || negb dd)
            "depth continuity requires a durable snapshot-backed depth prefix";
      Ok (mkReadiness dc tc sp dd td true tp, negb dp)
  | TradeContinuityProven =>
      _ ← reject (negb td) "trade continuity requires a durable trade prefix";
      Ok (mkReadiness dc tc sp dd td dp true, negb tp)
  end.

Record GenerationStatus := mkStatus {
  gs_identity : GenerationIdentity; gs_role : GenerationRole; gs_opened_mono_ns : Z;
  gs_reason : CandidateReason; gs_readiness : CandidateReadiness
}.
Definition with_role (role : GenerationRole) (g : GenerationStatus) : GenerationStatus :=
  mkStatus (gs_identity g) role (gs_opened_mono_ns g) (gs_reason g) (gs_readiness g).
Definition with_readiness (r : CandidateReadiness) (g : GenerationStatus) : GenerationStatus :=
  mkStatus (gs_identity g) (gs_role g) (gs_opened_mono_ns g) (gs_reason g) r.

Record RawSupervisorConfig := mkSupervisorConfig {
  rc_segment_interval_ns : Z; rc_planned_rotation_age_ns : Z; rc_active_max_age_ns : Z;
  rc_candidate_timeout_ns : Z; rc_backoff_initial_ns : Z; rc_backoff_max_ns : Z
}.
Definition supervisor_config_validate (c : RawSupervisorConfig) : res unit :=
  reject ((rc_segment_interval_ns c =? 0) || (rc_planned_rotation_age_ns c =? 0)
          || (rc_active_max_age_ns c =? 0) || (rc_candidate_timeout_ns c =? 0)
          || (rc_backoff_initial_ns c =? 0) || (rc_backoff_max_ns c =? 0)
          || (rc_active_max_age_ns c <=? rc_planned_rotation_age_ns c)
          || (rc_backoff_max_ns c <? rc_backoff_initial_ns c))
    "invalid raw generation supervisor durations".

Record CandidateRequest := mkRequest {
  cq_reason : CandidateReason; cq_not_before_mono_ns : Z
}.
Record TimeAdvance := mkAdvance {
  ta_segment_rollovers : Z; ta_current_segment_index : Z;
  ta_candidate_request : option CandidateRequest; ta_candidate_timed_out : bool;
  ta_entered_gap : bool
}.
Inductive ServerShutdownOutcome :=
  | CandidateStarted | CandidateAlreadyInProgress | IgnoredNonActiveEpoch.
Inductive DisconnectOutcome := ActiveFailed | CandidateFailed | DrainingClosed | AlreadyTerminal.
Record Promotion := mkPromotion {
  pm_predecessor : option GenerationIdentity; pm_successor : GenerationIdentity;
  pm_gap_was_open : bool
}.

Record RawGenerationSupervisor := mkSupervisor {
  sv_config : RawSupervisorConfig; sv_state : RawSupervisorState; sv_clock_origin_ns : Z;
  sv_last_mono_ns : Z; sv_current_segment_index : Z; sv_active : option GenerationStatus;
  sv_candidate : option GenerationStatus; sv_draining : list GenerationStatus;
  sv_used_tokens : gset string; sv_pending_reason : option CandidateReason;
  sv_next_candidate_not_before_ns : option Z; sv_retry_attempt : Z; sv_gap_count : Z
}.

(** ** Updates of the state *)

Definition set_clock (now index : Z) (s : RawGenerationSupervisor) : RawGenerationSupervisor :=
  mkSupervisor (sv_config s) (sv_state s) (sv_clock_origin_ns s) now index (sv_active s)
    (sv_candidate s) (sv_draining s) (sv_used_tokens s) (sv_pending_reason s)
    (sv_next_candidate_not_before_ns s) (sv_retry_attempt s) (sv_gap_count s).
Definition set_generations (active candidate : option GenerationStatus)
    (draining : list GenerationStatus) (s : RawGenerationSupervisor) : RawGenerationSupervisor :=
  mkSupervisor (sv_config s) (sv_state s) (sv_clock_origin_ns s) (sv_last_mono_ns s)
    (sv_current_segment_index s) active candidate draining (sv_used_tokens s)
    (sv_pending_reason s) (sv_next_candidate_not_before_ns s) (sv_retry_attempt s) (sv_gap_count s).
Definition set_schedule (state : RawSupervisorState) (pending : option CandidateReason)
    (not_before : option Z) (attempt : Z) (s : RawGenerationSupervisor) : RawGenerationSupervisor :=
  mkSupervisor (sv_config s) state (sv_clock_origin_ns s) (sv_last_mono_ns s)
    (sv_current_segment_index s) (sv_active s) (sv_candidate s) (sv_draining s)
    (sv_used_tokens s) pending not_before attempt (sv_gap_count s).
Definition set_tokens (tokens : gset string) (s : RawGenerationSupervisor)
    : RawGenerationSupervisor :=
  mkSupervisor (sv_config s) (sv_state s) (sv_clock_origin_ns s) (sv_last_mono_ns s)
    (sv_current_segment_index s) (sv_active s) (sv_candidate s) (sv_draining s) tokens
    (sv_pending_reason s) (sv_next_candidate_not_before_ns s) (sv_retry_attempt s) (sv_gap_count s).
Definition set_gap_count (n : Z) (s : RawGenerationSupervisor) : RawGenerationSupervisor :=
  mkSupervisor (sv_config s) (sv_state s) (sv_clock_origin_ns s) (sv_last_mono_ns s)
    (sv_current_segment_index s) (sv_active s) (sv_candidate s) (sv_draining s)
    (sv_used_tokens s) (sv_pending_reason s) (sv_next_candidate_not_before_ns s)
    (sv_retry_attempt s) n.

(** ** Operations *)

Definition identity_tokens (i : GenerationIdentity) : list string :=
  [gi_generation_id i; gi_depth_epoch i; gi_trade_epoch i].

Definition generation_supervisor_new (config : RawSupervisorConfig) (initial : GenerationIdentity)
    (now : Z) : res RawGenerationSupervisor :=
  _ ← supervisor_config_validate config;
  _ ← identity_validate initial;
  Ok (mkSupervisor config SvLive now now 0
        (Some (mkStatus initial GrActive now RecoveryAfterGap
                 (mkReadiness true true true true true true true)))
        None [] (list_to_set (identity_tokens initial)) None None 0 0).

Definition validate_monotonic (now : Z) (s : RawGenerationSupervisor) : res unit :=
  reject (now <? sv_last_mono_ns s)
    ("supervisor monotonic time regressed: " ++ u_to_string (sv_last_mono_ns s) ++ " -> "
     ++ u_to_string now).

(** [1_u64.checked_shl(shift).unwrap_or(u64::MAX)] for a shift of at most 63 *)
Definition retry_delay (c : RawSupervisorConfig) (attempt : Z) : Z :=
  let shift := Z.min attempt 63 in
  let multiplier := Z.shiftl 1 shift in
  Z.min (saturating_mul (rc_backoff_initial_ns c) multiplier) (rc_backoff_max_ns c).

Definition schedule_retry (now : Z) (reason : CandidateReason) (s : RawGenerationSupervisor)
    : RawGenerationSupervisor :=
  set_schedule (sv_state s) (Some reason)
    (Some (saturating_add now (retry_delay (sv_config s) (sv_retry_attempt s))))
    (Z.min (sv_retry_attempt s + 1) u32_max) s.

Definition with_state (state : RawSupervisorState) (s : RawGenerationSupervisor)
    : RawGenerationSupervisor :=
  set_schedule state (sv_pending_reason s) (sv_next_candidate_not_before_ns s)
    (sv_retry_attempt s) s.

Definition fail_candidate (now : Z) : SE RawGenerationSupervisor unit :=
  s ← get;
  lift (reject (bool_decide (sv_candidate s = None)) "no candidate to fail");;
  modify (λ s, schedule_retry now RetryAfterFailure
                 (set_generations (sv_active s) None (sv_draining s) s));;
  modify (λ s, with_state (match sv_active s with Some _ => SvLive | None => SvGap end) s).

Definition enter_gap (now : Z) : SE RawGenerationSupervisor unit :=
  s ← get;
  lift (reject (match sv_active s with None => true | Some _ => false end)
          "cannot fail an absent active generation");;
  modify (λ s, set_generations None None (sv_draining s) s);;
  gap_count ← lift (ok_or (checked_add (sv_gap_count s) 1) "gap count overflow");
  modify (set_gap_count gap_count);;
  modify (λ s, with_state SvGap (schedule_retry now RecoveryAfterGap s)).

Definition candidate_request (now : Z) (s : RawGenerationSupervisor)
    : res (option CandidateRequest) :=
  match sv_candidate s with
  | Some _ => Ok None
  | None =>
      let not_before := default now (sv_next_candidate_not_before_ns s) in
      if now <? not_before then Ok None else
      match sv_active s with
      | None => Ok (Some (mkRequest RecoveryAfterGap not_before))
      | Some active =>
          match sv_pending_reason s with
          | Some reason => Ok (Some (mkRequest reason not_before))
          | None =>
              age ← sub_u64 now (gs_opened_mono_ns active);
              Ok (if rc_planned_rotation_age_ns (sv_config s) <=? age
                  then Some (mkRequest PlannedRotation now) else None)
          end
      end
  end.

(** The age of a generation reaches a limit. *)
Definition expired (now limit : Z) (g : option GenerationStatus) : res bool :=
  match g with
  | None => Ok false
  | Some g => age ← sub_u64 now (gs_opened_mono_ns g); Ok (limit <=? age)
  end.

Definition generation_advance_time (now : Z) : SE RawGenerationSupervisor TimeAdvance :=
  s ← get;
  lift (validate_monotonic now s);;
  put (set_clock now (sv_current_segment_index s) s);;
  elapsed ← lift (sub_u64 now (sv_clock_origin_ns s));
  lift (if rc_segment_interval_ns (sv_config s) =? 0 then Panic else Ok ());;
  let target_segment := elapsed / rc_segment_interval_ns (sv_config s) in
  segment_rollovers ← lift (ok_or (checked_sub target_segment (sv_current_segment_index s))
    "segment clock regressed");
  put (set_clock now target_segment s);;
  active_expired ← lift (expired now (rc_active_max_age_ns (sv_config s)) (sv_active s));
  '(timed_out, entered_gap) ←
    (if active_expired : bool then enter_gap now;; mret (false, true) else
     candidate_expired ← lift (expired now (rc_candidate_timeout_ns (sv_config s)) (sv_candidate s));
     if candidate_expired : bool then fail_candidate now;; mret (true, false)
     else mret (false, false));
  s ← get;
  request ← lift (candidate_request now s);
  mret (mkAdvance segment_rollovers (sv_current_segment_index s) request timed_out entered_gap).

Definition register_identity (i : GenerationIdentity) : SE RawGenerationSupervisor unit :=
  lift (identity_validate i);;
  s ← get;
  match List.find (λ token, bool_decide (token ∈ sv_used_tokens s)) (identity_tokens i) with
  | Some token => throw ("generation identity token cannot be reused: " ++ token)
  | None => put (set_tokens (list_to_set (identity_tokens i) ∪ sv_used_tokens s) s)
  end.

Definition start_candidate (i : GenerationIdentity) (reason : CandidateReason) (now : Z)
    : SE RawGenerationSupervisor unit :=
  s ← get;
  lift (reject (match sv_candidate s with Some _ => true | None => false end)
          "a candidate already exists");;
  register_identity i;;
  modify (λ s, set_generations (sv_active s)
                 (Some (mkStatus i GrCandidate now reason readiness_empty)) (sv_draining s) s);;
  modify (λ s, set_schedule (match sv_active s with Some _ => SvHandover | None => SvRecovering end)
                 None None (sv_retry_attempt s) s).

Definition start_due_candidate (i : GenerationIdentity) (now : Z)
    : SE RawGenerationSupervisor unit :=
  lift (identity_validate i);;
  report ← generation_advance_time now;
  request ← lift (ok_or (ta_candidate_request report) "no candidate is due");
  start_candidate i (cq_reason request) now.

Definition on_server_shutdown (source_epoch : string) (i : GenerationIdentity) (now : Z)
    : SE RawGenerationSupervisor ServerShutdownOutcome :=
  lift (identity_validate i);;
  generation_advance_time now;;
  s ← get;
  match sv_active s with
  | None => mret IgnoredNonActiveEpoch
  | Some active =>
      if negb (contains_epoch (gs_identity active) source_epoch) then mret IgnoredNonActiveEpoch
      else match sv_candidate s with
           | Some _ => mret CandidateAlreadyInProgress
           | None => start_candidate i ServerShutdown now;; mret CandidateStarted
           end
  end.

Definition observe_candidate_fact (fact : CandidateFact) (now : Z)
    : SE RawGenerationSupervisor bool :=
  generation_advance_time now;;
  s ← get;
  candidate ← lift (ok_or (sv_candidate s) "candidate fact observed without a candidate");
  '(readiness, new) ← lift (readiness_observe fact (gs_readiness candidate));
  put (set_generations (sv_active s) (Some (with_readiness readiness candidate)) (sv_draining s) s);;
  mret new.

Definition generation_promote_candidate (now : Z) : SE RawGenerationSupervisor Promotion :=
  generation_advance_time now;;
  s ← get;
  candidate ← lift (ok_or (sv_candidate s) "no candidate to promote");
  lift (reject (negb (is_ready (gs_readiness candidate)))
          "candidate lacks complete raw continuity evidence");;
  let successor := with_role GrActive candidate in
  put (set_schedule SvLive None None 0
        (set_generations (Some successor) None
           (sv_draining s ++ match sv_active s with
                             | Some predecessor => [with_role GrDraining predecessor]
                             | None => []
                             end) s));;
  mret (mkPromotion (gs_identity <$> sv_active s) (gs_identity successor)
          (match sv_active s with None => true | Some _ => false end)).

(** [position] and [remove] of the first generation that satisfies [p] *)
Fixpoint remove_first (p : GenerationStatus → bool) (l : list GenerationStatus)
    : option (list GenerationStatus) :=
  match l with
  | [] => None
  | g :: l => if p g then Some l else (g ::.) <$> remove_first p l
  end.

Definition generation_close_draining (generation_id : string) (now : Z)
    : SE RawGenerationSupervisor bool :=
  generation_advance_time now;;
  s ← get;
  match remove_first (λ g, String.eqb (gi_generation_id (gs_identity g)) generation_id)
          (sv_draining s) with
  | None => mret false
  | Some draining => put (set_generations (sv_active s) (sv_candidate s) draining s);; mret true
  end.

(** The rest of [disconnect_epoch] after the time has advanced. *)
Definition disconnect_advanced (epoch : string) (now : Z)
    : SE RawGenerationSupervisor DisconnectOutcome :=
  s ← get;
  let has (g : option GenerationStatus) :=
    match g with Some g => contains_epoch (gs_identity g) epoch | None => false end in
  if has (sv_active s) then enter_gap now;; mret ActiveFailed else
  if has (sv_candidate s) then fail_candidate now;; mret CandidateFailed else
  match remove_first (λ g, contains_epoch (gs_identity g) epoch) (sv_draining s) with
  | Some draining =>
      put (set_generations (sv_active s) (sv_candidate s) draining s);; mret DrainingClosed
  | None =>
      if bool_decide (epoch ∈ sv_used_tokens s) then mret AlreadyTerminal
      else throw ("disconnect references unknown epoch: " ++ epoch)
  end.

Definition disconnect_epoch (epoch reason : string) (now : Z)
    : SE RawGenerationSupervisor DisconnectOutcome :=
  lift (reject (is_blank reason) "disconnect reason must not be empty");;
  generation_advance_time now;;
  disconnect_advanced epoch now.

(** ** Theory *)

(** What a readiness can be: every fact after those it depends on. *)
Definition readiness_ordered (r : CandidateReadiness) : bool :=
  implb (rd_snapshot_persisted r) (rd_depth_connected r)
  && implb (rd_depth_durable r) (rd_depth_connected r)
  && implb (rd_trade_durable r) (rd_trade_connected r)
  && implb (rd_depth_continuity_proven r) (rd_snapshot_persisted r && rd_depth_durable r)
  && implb (rd_trade_continuity_proven r) (rd_trade_durable r).

Lemma readiness_observe_ordered fact r r' new :
  readiness_ordered r = true → readiness_observe fact r = Ok (r', new) → readiness_ordered r' = true.
Proof.
  destruct r as [[] [] [] [] [] [] []], fact; cbn; intros H1 H2; try done; by injection H2 as <- <-.
Qed.

(** An ordered readiness whose last two facts are proven is complete. *)
Lemma readiness_ready r :
  readiness_ordered r = true →
  is_ready r = rd_depth_continuity_proven r && rd_trade_continuity_proven r.
Proof. destruct r as [[] [] [] [] [] [] []]; done. Qed.

(** The generations alive in a state, and all their tokens. *)
Definition alive (s : RawGenerationSupervisor) : list GenerationStatus :=
  option_list (sv_active s) ++ option_list (sv_candidate s) ++ sv_draining s.
Definition alive_tokens (l : list GenerationStatus) : list string :=
  concat ((λ g, identity_tokens (gs_identity g)) <$> l).

Definition state_of (active candidate : option GenerationStatus) : RawSupervisorState :=
  match active, candidate with
  | Some _, None => SvLive | Some _, Some _ => SvHandover
  | None, None => SvGap | None, Some _ => SvRecovering
  end.

Record members_ok (s : RawGenerationSupervisor) : Prop := {
  mo_tokens : NoDup (alive_tokens (alive s));
  mo_used : Forall (λ t, t ∈ sv_used_tokens s) (alive_tokens (alive s));
  mo_opened : Forall (λ g, 0 ≤ gs_opened_mono_ns g ≤ sv_last_mono_ns s) (alive s);
  mo_active : ∀ g, sv_active s = Some g → gs_role g = GrActive ∧ is_ready (gs_readiness g) = true;
  mo_candidate : ∀ g, sv_candidate s = Some g →
    gs_role g = GrCandidate ∧ readiness_ordered (gs_readiness g) = true;
  mo_draining : Forall (λ g, gs_role g = GrDraining) (sv_draining s)
}.

Record clock_ok (s : RawGenerationSupervisor) : Prop := {
  co_config : supervisor_config_validate (sv_config s) = Ok ();
  co_typed : 0 ≤ rc_segment_interval_ns (sv_config s) ∧ 0 ≤ rc_backoff_initial_ns (sv_config s) ∧
    0 ≤ rc_backoff_max_ns (sv_config s) ∧ 0 ≤ rc_candidate_timeout_ns (sv_config s) ∧
    0 ≤ rc_active_max_age_ns (sv_config s) ∧ 0 ≤ rc_planned_rotation_age_ns (sv_config s);
  co_order : 0 ≤ sv_clock_origin_ns s ≤ sv_last_mono_ns s;
  co_last : sv_last_mono_ns s ≤ u64_max;
  co_segment : sv_current_segment_index s =
    (sv_last_mono_ns s - sv_clock_origin_ns s) / rc_segment_interval_ns (sv_config s)
}.

Record schedule_ok (s : RawGenerationSupervisor) : Prop := {
  so_state : sv_state s = state_of (sv_active s) (sv_candidate s);
  so_gap : 0 ≤ sv_gap_count s ∧ (sv_active s = None → 0 < sv_gap_count s);
  so_attempt : 0 ≤ sv_retry_attempt s ≤ u32_max;
  so_due : sv_active s = None → sv_candidate s = None →
    ∃ t, sv_next_candidate_not_before_ns s = Some t ∧
      t ≤ sv_last_mono_ns s + rc_backoff_max_ns (sv_config s)
}.

Definition generation_inv (s : RawGenerationSupervisor) : Prop :=
  members_ok s ∧ clock_ok s ∧ schedule_ok s.

Lemma retry_delay_bounds c attempt :
  0 ≤ rc_backoff_initial_ns c → 0 ≤ rc_backoff_max_ns c → 0 ≤ attempt →
  0 ≤ retry_delay c attempt ≤ rc_backoff_max_ns c.
Proof.
  intros H1 H2 H3. unfold retry_delay, saturating_mul.
  pose proof (proj2 (Z.shiftl_nonneg 1 (Z.min attempt 63)) ltac:(lia)).
  unfold u64_max. nia.
Qed.

(** Moving the clock forward keeps the invariant. *)
Lemma set_clock_inv now s :
  generation_inv s → sv_last_mono_ns s ≤ now ≤ u64_max →
  generation_inv (set_clock now
    ((now - sv_clock_origin_ns s) / rc_segment_interval_ns (sv_config s)) s) ∧
  sv_current_segment_index s ≤ (now - sv_clock_origin_ns s) / rc_segment_interval_ns (sv_config s) ∧
  0 < rc_segment_interval_ns (sv_config s).
Proof.
  intros ([M1 M2 M3 M4 M5 M6] & [C1 C2 C3 C4 C5] & [S1 S2 S3 S4]) Hnow.
  pose proof C1 as Hc%reject_Ok. split_orb.
  assert (0 < rc_segment_interval_ns (sv_config s)) as Hpos by lia.
  split; [|split; [rewrite C5; apply Z.div_le_mono; lia|done]]. split_and!; split; try done.
  - eapply Forall_impl; [exact M3|]. cbn. intros. lia.
  - cbn. lia.
  - cbn. lia.
  - intros Ha Hcand. destruct (S4 Ha Hcand) as (t & Ht & Hle). exists t. split; [done|].
    cbn [set_clock sv_last_mono_ns sv_config]. lia.
Qed.

(** *** Losing the active generation or the candidate *)

Lemma sublist_tokens l k : l `sublist_of` k → alive_tokens l `sublist_of` alive_tokens k.
Proof.
  unfold alive_tokens. induction 1 as [|g l k _ IH|g l k _ IH]; cbn; [done| |].
  - do 3 apply sublist_skip. exact IH.
  - do 3 apply sublist_cons. exact IH.
Qed.

(** Generations may leave: the rest of the invariant on members is kept. *)
Lemma members_leave active candidate draining s :
  members_ok s →
  option_list active ++ option_list candidate ++ draining `sublist_of` alive s →
  (∀ g, active = Some g → sv_active s = Some g) →
  (∀ g, candidate = Some g → sv_candidate s = Some g) →
  draining `sublist_of` sv_draining s →
  members_ok (set_generations active candidate draining s).
Proof.
  intros [M1 M2 M3 M4 M5 M6] Hsub Ha Hc Hd. pose proof (sublist_tokens _ _ Hsub) as Ht.
  split; cbn.
  - by eapply sublist_NoDup.
  - rewrite Forall_forall in *. intros t Hin. apply M2. by eapply elem_of_sublist.
  - rewrite Forall_forall in *. intros g Hin. apply M3. by eapply elem_of_sublist.
  - intros g Hg. by apply M4, Ha.
  - intros g Hg. by apply M5, Hc.
  - rewrite Forall_forall in *. intros g Hin. apply M6. by eapply elem_of_sublist.
Qed.

Lemma members_same s s' :
  sv_active s' = sv_active s → sv_candidate s' = sv_candidate s → sv_draining s' = sv_draining s →
  sv_used_tokens s' = sv_used_tokens s → sv_last_mono_ns s' = sv_last_mono_ns s →
  members_ok s → members_ok s'.
Proof.
  intros Ha Hc Hd Hu Hl [M1 M2 M3 M4 M5 M6].
  assert (alive s' = alive s) as He by (unfold alive; congruence).
  split; rewrite ?He, ?Ha, ?Hc, ?Hd, ?Hu, ?Hl; done.
Qed.

Definition same_clock (s s' : RawGenerationSupervisor) : Prop :=
  sv_config s' = sv_config s ∧ sv_clock_origin_ns s' = sv_clock_origin_ns s ∧
  sv_last_mono_ns s' = sv_last_mono_ns s ∧ sv_current_segment_index s' = sv_current_segment_index s.

Lemma enter_gap_inv now s g :
  generation_inv s → sv_last_mono_ns s = now → sv_active s = Some g → sv_gap_count s < u64_max →
  ∃ s', enter_gap now s = (s', Ok ()) ∧ generation_inv s' ∧ sv_gap_count s' = sv_gap_count s + 1 ∧
    sv_used_tokens s' = sv_used_tokens s ∧ same_clock s s' ∧ sv_active s' = None ∧
    sv_candidate s' = None.
Proof.
  intros (M & C & S) Hnow Ha Hgap. unfold enter_gap.
  cbv [mbind SE_bind get lift reject modify]. rewrite Ha.
  rewrite checked_add_fits by lia. cbn [ok_or]. eexists. split; [reflexivity|].
  split; [|done]. split_and!.
  - eapply members_same; [..|apply (members_leave None None (sv_draining s) s M)]; try done.
    unfold alive. cbn. by apply sublist_inserts_l, sublist_inserts_l.
  - destruct C as [C1 C2 C3 C4 C5]. split; done.
  - destruct C as [C1 C2 C3 C4 C5], S as [S1 S2 S3 S4].
    pose proof (retry_delay_bounds (sv_config s) (sv_retry_attempt s) ltac:(tauto) ltac:(tauto) ltac:(lia)).
    split; cbn.
    + done.
    + lia.
    + unfold u32_max in *. lia.
    + intros _ _. eexists. split; [done|]. unfold saturating_add. lia.
Qed.

Lemma fail_candidate_inv now s g :
  generation_inv s → sv_last_mono_ns s = now → sv_candidate s = Some g →
  ∃ s', fail_candidate now s = (s', Ok ()) ∧ generation_inv s' ∧ sv_gap_count s' = sv_gap_count s ∧
    sv_used_tokens s' = sv_used_tokens s ∧ same_clock s s' ∧ sv_active s' = sv_active s ∧
    sv_candidate s' = None.
Proof.
  intros (M & C & S) Hnow Ha. unfold fail_candidate.
  cbv [mbind SE_bind get lift reject modify]. rewrite bool_decide_eq_false_2 by (by rewrite Ha).
  eexists. split; [reflexivity|]. split; [|done]. split_and!.
  - eapply members_same; [..|apply (members_leave (sv_active s) None (sv_draining s) s M)]; try done.
    unfold alive. rewrite Ha. cbn. apply sublist_app; [done|]. by apply sublist_cons.
  - destruct C as [C1 C2 C3 C4 C5]. split; done.
  - destruct C as [C1 C2 C3 C4 C5], S as [S1 S2 S3 S4].
    pose proof (retry_delay_bounds (sv_config s) (sv_retry_attempt s) ltac:(tauto) ltac:(tauto) ltac:(lia)).
    split; cbn.
    + by destruct (sv_active s).
    + done.
    + unfold u32_max in *. lia.
    + intros _ _. eexists. split; [done|]. unfold saturating_add. lia.
Qed.

(** *** Time *)

Lemma expired_Ok now limit o s :
  generation_inv s → sv_last_mono_ns s ≤ now → (∀ g, o = Some g → g ∈ alive s) →
  ∃ b, expired now limit o = Ok b ∧ (b = true → ∃ g, o = Some g) ∧
    ∀ g, o = Some g → b = (limit <=? now - gs_opened_mono_ns g).
Proof.
  intros ([_ _ M3 _ _ _] & _) Hnow Ho. destruct o as [g|]; cbn; [|by exists false].
  rewrite Forall_forall in M3. specialize (M3 g (Ho g eq_refl)).
  rewrite sub_u64_fits by lia. cbn.
  eexists. split; [done|]. split; [by exists g|]. by intros h [= <-].
Qed.

Lemma candidate_request_Ok now s :
  generation_inv s → sv_last_mono_ns s ≤ now → ∃ r, candidate_request now s = Ok r.
Proof.
  intros ([_ _ M3 _ _ _] & _) Hnow. unfold candidate_request. destruct (sv_candidate s); [eauto|].
  cbn zeta. destruct (_ <? _); [eauto|]. destruct (sv_active s) as [g|] eqn:Ha; [|eauto].
  destruct (sv_pending_reason s); [eauto|]. rewrite Forall_forall in M3.
  specialize (M3 g). unfold alive in M3. rewrite Ha in M3. specialize (M3 ltac:(set_solver)).
  rewrite sub_u64_fits by lia. cbn. eauto.
Qed.

(** What [advance_time] does when time does not go back. *)
Record advanced (now : Z) (s s' : RawGenerationSupervisor) (a : TimeAdvance) : Prop := {
  ad_inv : generation_inv s';
  ad_config : sv_config s' = sv_config s ∧ sv_clock_origin_ns s' = sv_clock_origin_ns s;
  ad_now : sv_last_mono_ns s' = now;
  ad_tokens : sv_used_tokens s' = sv_used_tokens s;
  ad_segment : ta_segment_rollovers a = sv_current_segment_index s' - sv_current_segment_index s ∧
    ta_current_segment_index a = sv_current_segment_index s';
  ad_gap : sv_gap_count s' = sv_gap_count s + (if ta_entered_gap a then 1 else 0);
  ad_active : ∀ g, sv_active s' = Some g → sv_active s = Some g ∧
    now - gs_opened_mono_ns g < rc_active_max_age_ns (sv_config s);
  ad_kept : sv_active s' = sv_active s ∨ sv_active s' = None;
  ad_entered : ta_entered_gap a = true → sv_active s' = None;
  ad_candidate : ∀ g, sv_candidate s' = Some g → sv_candidate s = Some g;
  ad_request : candidate_request now s' = Ok (ta_candidate_request a)
}.

Lemma advance_time_Ok now s :
  generation_inv s → sv_gap_count s < u64_max → sv_last_mono_ns s ≤ now ≤ u64_max →
  ∃ s' a, generation_advance_time now s = (s', Ok a) ∧ advanced now s s' a.
Proof.
  intros Hinv Hgap Hnow. unfold generation_advance_time.
  cbv [mbind SE_bind get lift put mret SE_ret]. unfold validate_monotonic.
  rewrite (proj2 (Z.ltb_ge _ _)) by lia. cbn [reject].
  destruct (set_clock_inv now s Hinv ltac:(lia)) as (Hinv1 & Hseg & Hpos).
  set (s1 := set_clock now _ s) in *.
  pose proof Hinv as (_ & [_ _ C3 _ _] & _). rewrite sub_u64_fits by lia.
  rewrite (proj2 (Z.eqb_neq _ _)) by lia. rewrite checked_sub_fits by lia. cbn [ok_or]. fold s1.
  destruct (expired_Ok now (rc_active_max_age_ns (sv_config s)) (sv_active s) s Hinv ltac:(lia))
    as (b & -> & Hb & Hb2).
  { intros g Hg. unfold alive. rewrite Hg. set_solver. }
  destruct (expired_Ok now (rc_candidate_timeout_ns (sv_config s)) (sv_candidate s) s Hinv ltac:(lia))
    as (b' & -> & Hb' & _).
  { intros g Hg. unfold alive. rewrite Hg. set_solver. }
  assert (∀ g, b = false → sv_active s = Some g →
    now - gs_opened_mono_ns g < rc_active_max_age_ns (sv_config s)) as Hage.
  { intros g -> Hg. specialize (Hb2 g Hg). lia. }
  destruct b; [|destruct b'].
  - destruct (Hb eq_refl) as [g Hg].
    destruct (enter_gap_inv now s1 g Hinv1 eq_refl Hg Hgap) as (s2 & -> & Hinv2 & H1 & H2 & (H3 & H4 & H5 & H6) & H7 & H8).
    destruct (candidate_request_Ok now s2 Hinv2 ltac:(cbn in H5; lia)) as [r Hr]. rewrite Hr.
    eexists s2, _. split; [reflexivity|].
    split; cbn; try done; [by rewrite H6|by rewrite H7|by right|by rewrite H8].
  - destruct (Hb' eq_refl) as [g Hg].
    destruct (fail_candidate_inv now s1 g Hinv1 eq_refl Hg) as (s2 & -> & Hinv2 & H1 & H2 & (H3 & H4 & H5 & H6) & H7 & H8).
    destruct (candidate_request_Ok now s2 Hinv2 ltac:(cbn in H5; lia)) as [r Hr]. rewrite Hr.
    eexists s2, _. split; [reflexivity|].
    split; cbn; try done; [by rewrite H6|rewrite H1; cbn; lia| |by left|by rewrite H8].
    rewrite H7. cbn. auto.
  - destruct (candidate_request_Ok now s1 Hinv1 ltac:(done)) as [r Hr]. rewrite Hr.
    eexists s1, _. split; [reflexivity|]. split; cbn; try done; [lia|auto|by left].
Qed.

Lemma advance_time_late now s :
  now < sv_last_mono_ns s → ∃ e, generation_advance_time now s = (s, Err e).
Proof.
  intros H. unfold generation_advance_time. cbv [mbind SE_bind get lift]. unfold validate_monotonic.
  rewrite (proj2 (Z.ltb_lt _ _)) by lia. cbn. eauto.
Qed.

(** *** Candidates *)

Lemma find_used (tokens : gset string) l :
  List.find (λ t, bool_decide (t ∈ tokens)) l = None ↔ Forall (λ t, t ∉ tokens) l.
Proof.
  induction l as [|t l IH]; cbn; [by split|]. case_bool_decide as Ht.
  - split; [done|]. intros H%Forall_inv. done.
  - rewrite IH, Forall_cons. tauto.
Qed.

Lemma identity_validate_NoDup i : identity_validate i = Ok () → NoDup (identity_tokens i).
Proof.
  intros H%reject_Ok. split_orb.
  repeat match goal with H : String.eqb _ _ = false |- _ => apply String.eqb_neq in H end.
  unfold identity_tokens. repeat constructor; set_solver.
Qed.

Lemma alive_tokens_middle l g k :
  alive_tokens (l ++ g :: k) ≡ₚ identity_tokens (gs_identity g) ++ alive_tokens (l ++ k).
Proof.
  unfold alive_tokens. rewrite !fmap_app, !concat_app, fmap_cons. cbn [concat].
  rewrite !app_assoc. apply Permutation_app_tail. apply Permutation_app_comm.
Qed.

(** A candidate with unused tokens joins. *)
Lemma members_join s g :
  members_ok s → sv_candidate s = None → NoDup (identity_tokens (gs_identity g)) →
  Forall (λ t, t ∉ sv_used_tokens s) (identity_tokens (gs_identity g)) →
  0 ≤ gs_opened_mono_ns g ≤ sv_last_mono_ns s → gs_role g = GrCandidate →
  readiness_ordered (gs_readiness g) = true →
  members_ok (set_generations (sv_active s) (Some g) (sv_draining s)
    (set_tokens (list_to_set (identity_tokens (gs_identity g)) ∪ sv_used_tokens s) s)).
Proof.
  intros [M1 M2 M3 M4 M5 M6] Hc Hn Hf Ho Hr Hrd. unfold alive in *. rewrite Hc in *.
  change (option_list None ++ sv_draining s) with (sv_draining s) in *.
  rewrite Forall_forall in Hf, M2.
  assert (alive_tokens (option_list (sv_active s) ++ g :: sv_draining s) ≡ₚ
    identity_tokens (gs_identity g) ++ alive_tokens (option_list (sv_active s) ++ sv_draining s)) as Hp
    by apply alive_tokens_middle.
  split; cbn [sv_active sv_candidate sv_draining sv_used_tokens sv_last_mono_ns set_generations
    set_tokens]; unfold alive; cbn [sv_active sv_candidate sv_draining set_generations option_list app].
  - rewrite Hp. apply NoDup_app. split_and!; try done. intros t Ht1 Ht2. by apply (Hf t), M2.
  - rewrite Hp. apply Forall_app. split; apply Forall_forall; intros t Ht.
    + apply elem_of_union_l. by apply elem_of_list_to_set.
    + apply elem_of_union_r. by apply M2.
  - apply Forall_app in M3 as [??]. apply Forall_app. split; [done|]. by constructor.
  - done.
  - by intros h [= <-].
  - done.
Qed.

Lemma start_candidate_inv i reason now s s' r :
  generation_inv s → sv_last_mono_ns s = now → start_candidate i reason now s = (s', r) →
  r ≠ Panic ∧ generation_inv s' ∧ sv_gap_count s' = sv_gap_count s ∧ same_clock s s' ∧
  (is_ok r = false → s' = s) ∧
  (identity_validate i = Ok () → Forall (λ t, t ∉ sv_used_tokens s) (identity_tokens i) →
   sv_candidate s = None →
   r = Ok () ∧ sv_active s' = sv_active s ∧ sv_draining s' = sv_draining s ∧
   sv_candidate s' = Some (mkStatus i GrCandidate now reason readiness_empty)).
Proof.
  intros (M & C & S) Hnow H. unfold start_candidate, register_identity in H.
  cbv [mbind SE_bind get lift put modify throw] in H.
  assert (same_clock s s) as Hclock by done.
  destruct (sv_candidate s) as [g|] eqn:Hc; cbn [reject] in H.
  { injection H as <- <-. by split_and!. }
  destruct (identity_validate i) as [[]|e|] eqn:Hi; [| |by apply reject_nopanic in Hi].
  2: { injection H as <- <-. by split_and!. }
  destruct (List.find _ _) as [t|] eqn:Hf.
  { injection H as <- <-. split_and!; try done. intros _ Hfresh.
    apply find_used in Hfresh. congruence. }
  injection H as <- <-. apply find_used in Hf. split; [done|]. split; [|done].
  apply identity_validate_NoDup in Hi. destruct C as [C1 C2 C3 C4 C5], S as [S1 S2 S3 S4].
  split_and!.
  - eapply members_same; [..|apply (members_join s
      (mkStatus i GrCandidate now reason readiness_empty)); try done]; try done. cbn. lia.
  - split; done.
  - split; cbn; by try destruct (sv_active s).
Qed.

Lemma start_candidate_tokens i reason now s s' r :
  start_candidate i reason now s = (s', r) → is_ok r = true →
  identity_validate i = Ok () ∧ Forall (λ t, t ∉ sv_used_tokens s) (identity_tokens i) ∧
  sv_used_tokens s' = list_to_set (identity_tokens i) ∪ sv_used_tokens s.
Proof.
  unfold start_candidate, register_identity. cbv [mbind SE_bind get lift put modify throw].
  destruct (sv_candidate s); cbn [reject]; [by intros [= <- <-]|].
  destruct (identity_validate i) as [[]|e|]; [|by intros [= <- <-]..].
  destruct (List.find _ _) eqn:Hf; [by intros [= <- <-]|]. apply find_used in Hf.
  by intros [= <- <-].
Qed.

(** *** Every operation *)

Lemma alive_tokens_perm l k :
  gs_identity <$> l ≡ₚ gs_identity <$> k → alive_tokens l ≡ₚ alive_tokens k.
Proof.
  intros H. assert (∀ m, alive_tokens m = flat_map identity_tokens (gs_identity <$> m)) as E.
  { intros m. unfold alive_tokens. rewrite flat_map_concat_map.
    change (@List.map) with (@fmap list list_fmap). by rewrite <-list_fmap_compose. }
  rewrite !E. by apply Permutation_flat_map.
Qed.

Lemma promote_members s candidate :
  members_ok s → sv_candidate s = Some candidate → is_ready (gs_readiness candidate) = true →
  members_ok (set_generations (Some (with_role GrActive candidate)) None
    (sv_draining s ++ match sv_active s with
                      | Some predecessor => [with_role GrDraining predecessor] | None => [] end) s).
Proof.
  intros [M1 M2 M3 M4 M5 M6] Hc Hready. unfold alive in *. rewrite Hc in *.
  assert (alive_tokens (with_role GrActive candidate :: sv_draining s ++
      match sv_active s with Some p => [with_role GrDraining p] | None => [] end) ≡ₚ
    alive_tokens (option_list (sv_active s) ++ candidate :: sv_draining s)) as Hp.
  { apply alive_tokens_perm. destruct (sv_active s) as [p|]; cbn; rewrite ?fmap_app; cbn.
    - rewrite Permutation_app_comm. cbn. constructor.
    - by rewrite app_nil_r. }
  cbn in M1, M2, M3. split; unfold alive; cbn [sv_active sv_candidate sv_draining sv_used_tokens
    sv_last_mono_ns set_generations option_list app].
  - by rewrite Hp.
  - by rewrite Hp.
  - apply Forall_app in M3 as [Ha [Hg Hd]%Forall_cons]. constructor; [exact Hg|].
    cbn. apply Forall_app. split; [exact Hd|]. destruct (sv_active s); [|constructor].
    apply Forall_singleton. by apply Forall_inv in Ha.
  - by intros g [= <-].
  - done.
  - apply Forall_app. split; [done|]. destruct (sv_active s); [by apply Forall_singleton|constructor].
Qed.

Lemma remove_first_sublist p l k : remove_first p l = Some k → k `sublist_of` l.
Proof.
  revert k. induction l as [|g l IH]; intros k; cbn; [done|].
  destruct (p g); [intros [= <-]; by apply sublist_cons|].
  destruct (remove_first p l); cbn; [|done]. intros [= <-]. apply sublist_skip. by apply IH.
Qed.

(** A history of the supervisor: the calls its owner can make. *)
Inductive generation_op :=
  | GoAdvance (now : Z)
  | GoStart (i : GenerationIdentity) (now : Z)
  | GoShutdown (epoch : string) (i : GenerationIdentity) (now : Z)
  | GoFact (fact : CandidateFact) (now : Z)
  | GoPromote (now : Z)
  | GoClose (generation_id : string) (now : Z)
  | GoDisconnect (epoch reason : string) (now : Z).
Definition op_now (op : generation_op) : Z :=
  match op with
  | GoAdvance now | GoStart _ now | GoShutdown _ _ now | GoFact _ now | GoPromote now
  | GoClose _ now | GoDisconnect _ _ now => now
  end.

(** The outcome of a call, reduced to the identities it opened. *)
Definition opens {A} (f : A → list GenerationIdentity) (x : RawGenerationSupervisor * res A)
    : RawGenerationSupervisor * res (list GenerationIdentity) :=
  (x.1, match x.2 with Ok a => Ok (f a) | Err e => Err e | Panic => Panic end).
Definition opens_none {A} (_ : A) : list GenerationIdentity := [].
Definition opens_shutdown (i : GenerationIdentity) (o : ServerShutdownOutcome)
    : list GenerationIdentity :=
  match o with CandidateStarted => [i] | _ => [] end.
Definition generation_step (op : generation_op) (s : RawGenerationSupervisor)
    : RawGenerationSupervisor * res (list GenerationIdentity) :=
  match op with
  | GoAdvance now => opens opens_none (generation_advance_time now s)
  | GoStart i now => opens (λ _, [i]) (start_due_candidate i now s)
  | GoShutdown epoch i now => opens (opens_shutdown i) (on_server_shutdown epoch i now s)
  | GoFact fact now => opens opens_none (observe_candidate_fact fact now s)
  | GoPromote now => opens opens_none (generation_promote_candidate now s)
  | GoClose id now => opens opens_none (generation_close_draining id now s)
  | GoDisconnect epoch reason now => opens opens_none (disconnect_epoch epoch reason now s)
  end.

(** The owner goes on after an error; the identities opened are collected. *)
Fixpoint run_generations (ops : list generation_op) (s : RawGenerationSupervisor)
    : res (RawGenerationSupervisor * list GenerationIdentity) :=
  match ops with
  | [] => Ok (s, [])
  | op :: ops =>
      let '(s, r) := generation_step op s in
      match r with
      | Panic => Panic
      | Err _ => run_generations ops s
      | Ok opened => '(s, more) ← run_generations ops s; Ok (s, opened ++ more)
      end
  end.

(** What a call leaves: the invariant, no panic, at most one more gap, and only
    unused tokens taken. *)
Definition opened_tokens (l : list GenerationIdentity) : list string := concat (identity_tokens <$> l).
Definition opened (x : RawGenerationSupervisor * res (list GenerationIdentity))
    : list GenerationIdentity :=
  match x.2 with Ok l => l | _ => [] end.
Definition step_ok (s : RawGenerationSupervisor)
    (x : RawGenerationSupervisor * res (list GenerationIdentity)) : Prop :=
  x.2 ≠ Panic ∧ generation_inv x.1 ∧ sv_gap_count s ≤ sv_gap_count x.1 ≤ sv_gap_count s + 1 ∧
  NoDup (opened_tokens (opened x)) ∧ Forall (λ t, t ∉ sv_used_tokens s) (opened_tokens (opened x)) ∧
  sv_used_tokens x.1 = list_to_set (opened_tokens (opened x)) ∪ sv_used_tokens s.

(** A call that opens nothing. *)
Lemma step_quiet s s' (r : res (list GenerationIdentity)) :
  generation_inv s' → r ≠ Panic → (∀ l, r = Ok l → l = []) →
  sv_gap_count s ≤ sv_gap_count s' ≤ sv_gap_count s + 1 → sv_used_tokens s' = sv_used_tokens s →
  step_ok s (s', r).
Proof.
  intros Hi Hr Hl Hg Ht. assert (opened (s', r) = []) as E.
  { unfold opened. cbn. destruct r; auto. }
  unfold step_ok. rewrite E. cbn [fst snd opened_tokens]. split_and!; try done; try lia; try constructor.
  rewrite Ht. cbn. by rewrite union_empty_l_L.
Qed.

(** A call that validates its arguments first. *)
Lemma step_lifted {A} f s (c : res unit) (k : unit → SE RawGenerationSupervisor A) :
  c ≠ Panic → generation_inv s → (c = Ok () → step_ok s (opens f (k () s))) →
  step_ok s (opens f ((lift c ≫= k) s)).
Proof.
  intros Hc Hinv Hk. unfold mbind, SE_bind, lift. destruct c as [[]|e|]; [by apply Hk| |done].
  apply step_quiet; try done. cbn; lia.
Qed.

(** A call that advances the time first and then goes on. *)
Lemma step_after_advance {A} f now s (k : TimeAdvance → SE RawGenerationSupervisor A) :
  generation_inv s → sv_gap_count s < u64_max → 0 ≤ now ≤ u64_max →
  (∀ s' a, advanced now s s' a → step_ok s (opens f (k a s'))) →
  step_ok s (opens f ((generation_advance_time now ≫= k) s)).
Proof.
  intros Hinv Hgap Hnow Hk. unfold mbind, SE_bind.
  destruct (Z_lt_le_dec now (sv_last_mono_ns s)) as [Hlt|Hle].
  - destruct (advance_time_late _ _ Hlt) as [e ->]. apply step_quiet; try done. cbn; lia.
  - destruct (advance_time_Ok now s Hinv Hgap ltac:(lia)) as (s' & a & -> & Ha). by apply Hk.
Qed.

Lemma advanced_gap now s s' a :
  advanced now s s' a → sv_gap_count s ≤ sv_gap_count s' ≤ sv_gap_count s + 1.
Proof. intros []. destruct (ta_entered_gap a); lia. Qed.

(** After the time advanced, a call may stop without a further effect. *)
Lemma step_stop now s s' a (r : res (list GenerationIdentity)) :
  advanced now s s' a → r ≠ Panic → (∀ l, r = Ok l → l = []) → step_ok s (s', r).
Proof.
  intros Had Hr Hl. pose proof (advanced_gap _ _ _ _ Had). destruct Had. by apply step_quiet.
Qed.

Lemma step_started now s s' a i reason :
  advanced now s s' a → step_ok s (opens (λ _, [i]) (start_candidate i reason now s')).
Proof.
  intros Had. pose proof (advanced_gap _ _ _ _ Had) as Hgap. pose proof Had as [].
  destruct (start_candidate i reason now s') as [s2 r] eqn:H2.
  pose proof (start_candidate_tokens _ _ _ _ _ _ H2) as Htok.
  apply start_candidate_inv in H2 as (Hp & Hi & Hg & _ & Hno & _); [|done..].
  destruct r as [[]|e|]; [| |done].
  - destruct (Htok eq_refl) as (Hv & Hf & Hu). rewrite ad_tokens0 in *.
    unfold step_ok, opened, opened_tokens. cbn [opens fst snd fmap list_fmap concat].
    change (identity_tokens i ++ []) with (identity_tokens i).
    split_and!; try done; [lia..|]. by apply identity_validate_NoDup.
  - rewrite (Hno eq_refl). by apply (step_stop now s s' a).
Qed.

(** After the time advanced, a call changes generations but opens none. *)
Lemma step_changed now s s' a s2 (r : res (list GenerationIdentity)) :
  advanced now s s' a → generation_inv s2 → r ≠ Panic → (∀ l, r = Ok l → l = []) →
  sv_gap_count s2 = sv_gap_count s' → sv_used_tokens s2 = sv_used_tokens s' → step_ok s (s2, r).
Proof.
  intros Had Hi Hr Hl Hg Ht. pose proof (advanced_gap _ _ _ _ Had). destruct Had.
  apply step_quiet; try done; [lia|congruence].
Qed.

Lemma readiness_observe_nopanic fact r : readiness_observe fact r ≠ Panic.
Proof. by destruct r as [[] [] [] [] [] [] []], fact. Qed.

Lemma fact_inv s g fact rd new :
  generation_inv s → sv_candidate s = Some g → readiness_observe fact (gs_readiness g) = Ok (rd, new) →
  generation_inv (set_generations (sv_active s) (Some (with_readiness rd g)) (sv_draining s) s).
Proof.
  intros ([M1 M2 M3 M4 M5 M6] & [C1 C2 C3 C4 C5] & [S1 S2 S3 S4]) Hc Hr.
  unfold alive in *. rewrite Hc in *. destruct (M5 g eq_refl) as [Hrole Hord].
  apply readiness_observe_ordered in Hr; [|done].
  assert (alive_tokens (option_list (sv_active s) ++ with_readiness rd g :: sv_draining s) =
    alive_tokens (option_list (sv_active s) ++ g :: sv_draining s)) as E.
  { unfold alive_tokens. by rewrite !fmap_app. }
  cbn in M1, M2, M3. split_and!; split; unfold alive; cbn; rewrite ?E; try done.
  - apply Forall_app in M3 as [? [??]%Forall_cons]. apply Forall_app. split; [done|]. by constructor.
  - by intros h [= <-].
Qed.

Lemma promote_inv s g :
  generation_inv s → sv_candidate s = Some g → is_ready (gs_readiness g) = true →
  generation_inv (set_schedule SvLive None None 0
    (set_generations (Some (with_role GrActive g)) None
      (sv_draining s ++ match sv_active s with
                        | Some predecessor => [with_role GrDraining predecessor] | None => [] end) s)).
Proof.
  intros (M & [C1 C2 C3 C4 C5] & [S1 S2 S3 S4]) Hc Hr. split_and!.
  - by eapply members_same; [..|apply promote_members].
  - by split.
  - split; cbn; try done. by destruct S2.
Qed.

Lemma drained_inv s p k :
  generation_inv s → remove_first p (sv_draining s) = Some k →
  generation_inv (set_generations (sv_active s) (sv_candidate s) k s).
Proof.
  intros (M & [C1 C2 C3 C4 C5] & [S1 S2 S3 S4]) Hk%remove_first_sublist. split_and!; [|by split..].
  apply members_leave; try done. unfold alive. by repeat apply sublist_app.
Qed.

Lemma step_disconnected now s s' a epoch :
  sv_gap_count s < u64_max → advanced now s s' a →
  step_ok s (opens opens_none (disconnect_advanced epoch now s')).
Proof.
  intros Hgap Had. pose proof Had as [Hinv _ Hnow Htok _ Hcount _ _ Hent _ _].
  unfold disconnect_advanced. cbv [mbind SE_bind get put mret SE_ret throw].
  cbn zeta. destruct (match sv_active s' with Some _ => _ | None => _ end) eqn:Hact;
    [|destruct (match sv_candidate s' with Some _ => _ | None => _ end) eqn:Hcand;
      [|destruct (remove_first _ _) as [k|] eqn:Hk; [|case_bool_decide]]].
  - destruct (sv_active s') as [g|] eqn:Ha; [|done].
    assert (ta_entered_gap a = false) as E by (destruct (ta_entered_gap a); naive_solver).
    rewrite E in Hcount. rewrite Z.add_0_r in Hcount.
    destruct (enter_gap_inv now s' g Hinv Hnow Ha ltac:(lia)) as (s2 & -> & Hi & Hg & Ht & _).
    apply step_quiet; try done; [by intros l [= <-]|cbn; lia|cbn; congruence].
  - destruct (sv_candidate s') as [g|] eqn:Hc; [|done].
    destruct (fail_candidate_inv now s' g Hinv Hnow Hc) as (s2 & -> & Hi & Hg & Ht & _).
    apply (step_changed now s s' a); try done. by intros l [= <-].
  - apply (step_changed now s s' a); try done; [by eapply drained_inv|by intros l [= <-]].
  - apply (step_stop now s s' a); try done. by intros l [= <-].
  - by apply (step_stop now s s' a).
Qed.

Ltac opens_nothing := first [done | by intros ? [= <-]].
Ltac stopped Had := by apply (step_stop _ _ _ _ _ Had); opens_nothing.

(** Every call keeps the invariant, whatever it answers. *)
Lemma generation_step_ok op s :
  generation_inv s → sv_gap_count s < u64_max → 0 ≤ op_now op ≤ u64_max →
  step_ok s (generation_step op s).
Proof.
  intros Hinv Hgap Hnow. destruct op; cbn [op_now generation_step] in *.
  - replace (generation_advance_time now s) with ((generation_advance_time now ≫= mret) s)
      by (unfold mbind, SE_bind; by destruct (generation_advance_time now s) as [? []]).
    apply step_after_advance; try done. intros s' a Had. stopped Had.
  - unfold start_due_candidate. apply (step_lifted _ s); [apply reject_nopanic|done|]. intros _.
    apply step_after_advance; try done. intros s' a Had.
    destruct (ta_candidate_request a) as [q|]; [by apply (step_started now s s' a)|].
    stopped Had.
  - unfold on_server_shutdown. apply (step_lifted _ s); [apply reject_nopanic|done|]. intros _.
    apply step_after_advance; try done. intros s' a Had.
    cbv [mbind SE_bind get mret SE_ret].
    destruct (sv_active s') as [g|]; [|stopped Had].
    destruct (negb _); [stopped Had|].
    destruct (sv_candidate s'); [stopped Had|].
    pose proof (step_started now s s' a i ServerShutdown Had) as Hst.
    by destruct (start_candidate i ServerShutdown now s') as [s2 []].
  - apply step_after_advance; try done. intros s' a Had.
    cbv [mbind SE_bind get lift put mret SE_ret].
    destruct (sv_candidate s') as [g|] eqn:Hc; cbn [ok_or]; [|stopped Had].
    destruct (readiness_observe _ _) as [[rd new]|e|] eqn:Hr;
      [|stopped Had|by apply readiness_observe_nopanic in Hr].
    eapply step_changed; [done|..]; try opens_nothing; try done. eapply fact_inv; [by destruct Had|done..].
  - apply step_after_advance; try done. intros s' a Had.
    cbv [mbind SE_bind get lift put mret SE_ret].
    destruct (sv_candidate s') as [g|] eqn:Hc; cbn [ok_or]; [|stopped Had].
    destruct (is_ready (gs_readiness g)) eqn:Hr; cbn [negb reject];
      [|stopped Had].
    eapply step_changed; [done|..]; try opens_nothing; try done. apply promote_inv; try done. by destruct Had.
  - apply step_after_advance; try done. intros s' a Had.
    cbv [mbind SE_bind get put mret SE_ret].
    destruct (remove_first _ _) as [k|] eqn:Hk; [|stopped Had].
    eapply step_changed; [done|..]; try opens_nothing; try done. eapply drained_inv; [|done]. by destruct Had.
  - unfold disconnect_epoch. apply (step_lifted _ s); [apply reject_nopanic|done|]. intros _.
    apply step_after_advance; try done. intros s' a Had. by eapply step_disconnected.
Qed.

(** *** Histories *)

Lemma run_generations_ok ops s :
  generation_inv s → Forall (λ op, 0 ≤ op_now op ≤ u64_max) ops →
  sv_gap_count s + len ops < u64_max →
  ∃ s' l, run_generations ops s = Ok (s', l) ∧ generation_inv s' ∧
    sv_gap_count s' ≤ sv_gap_count s + len ops ∧
    NoDup (opened_tokens l) ∧ Forall (λ t, t ∉ sv_used_tokens s) (opened_tokens l) ∧
    sv_used_tokens s' = list_to_set (opened_tokens l) ∪ sv_used_tokens s.
Proof.
  revert s. induction ops as [|op ops IH]; intros s Hinv Hnow Hgap.
  - exists s, []. change (len []) with 0 in *. change (opened_tokens []) with (@nil string).
    split_and!; try done; [lia|constructor|]. cbn. by rewrite union_empty_l_L.
  - apply Forall_cons in Hnow as [Hop Hnow]. rewrite len_cons in *.
    pose proof (len_nonneg ops) as Hlen.
    destruct (generation_step_ok op s Hinv ltac:(lia) Hop) as (Hp & Hi & Hg & Hnd & Hf & Hu).
    cbn [run_generations]. destruct (generation_step op s) as [s1 r]. cbn [fst snd] in *.
    destruct (IH s1 Hi Hnow ltac:(lia)) as (s2 & l & -> & Hi2 & Hg2 & Hnd2 & Hf2 & Hu2).
    rewrite Hu in Hf2. rewrite Forall_forall in Hf2.
    assert (opened_tokens (opened (s1, r) ++ l) = opened_tokens (opened (s1, r)) ++ opened_tokens l) as E.
    { unfold opened_tokens. by rewrite fmap_app, concat_app. }
    exists s2, (opened (s1, r) ++ l). rewrite E. split_and!; [by destruct r|done|lia|..].
    + apply NoDup_app. split_and!; try done. intros t Ht Hin. specialize (Hf2 t Hin). set_solver.
    + apply Forall_app. split; [done|]. apply Forall_forall. set_solver.
    + rewrite Hu2, Hu, list_to_set_app_L. set_solver.
Qed.

Definition supervisor_config_typed (c : RawSupervisorConfig) : Prop :=
  0 ≤ rc_segment_interval_ns c ∧ 0 ≤ rc_backoff_initial_ns c ∧ 0 ≤ rc_backoff_max_ns c ∧
  0 ≤ rc_candidate_timeout_ns c ∧ 0 ≤ rc_active_max_age_ns c ∧ 0 ≤ rc_planned_rotation_age_ns c.

Lemma new_inv config initial now s :
  supervisor_config_typed config → 0 ≤ now ≤ u64_max →
  generation_supervisor_new config initial now = Ok s →
  generation_inv s ∧ sv_gap_count s = 0 ∧ NoDup (identity_tokens initial) ∧
  sv_used_tokens s = list_to_set (identity_tokens initial).
Proof.
  intros Ht Hnow H. apply res_bind_Ok in H as ([] & Hc & H). apply res_bind_Ok in H as ([] & Hi & H).
  injection H as <-. pose proof (identity_validate_NoDup _ Hi) as Hnd.
  split; [|done]. split_and!; split; cbn [sv_config sv_state sv_clock_origin_ns sv_last_mono_ns
    sv_current_segment_index sv_active sv_candidate sv_draining sv_used_tokens sv_gap_count
    sv_retry_attempt alive option_list app]; try done.
  - change (Forall (λ t, t ∈ (list_to_set (identity_tokens initial) : gset string))
      (identity_tokens initial)).
    apply Forall_forall. intros t Hin. by apply elem_of_list_to_set.
  - apply Forall_singleton. cbn. lia.
  - by intros g [= <-].
  - lia.
  - lia.
  - by rewrite Z.sub_diag.
Qed.

(** C35: Whatever calls the owner makes, in whatever order and at whatever
    times, no call of the supervisor panics; its state stays what its
    generations say (live, handover, gap, recovering), the active generation
    is one that was ready, a candidate's facts are in order, the segment index
    is the one of the clock, a gap always has a retry scheduled within the
    maximal backoff, and over the whole history no token of a generation or of
    a stream epoch is ever used twice. *)
Theorem generation_history_inv config initial now ops s0 :
  supervisor_config_typed config → 0 ≤ now ≤ u64_max →
  generation_supervisor_new config initial now = Ok s0 →
  Forall (λ op, 0 ≤ op_now op ≤ u64_max) ops → len ops < u64_max →
  ∃ s opened, run_generations ops s0 = Ok (s, opened) ∧ generation_inv s ∧
    NoDup (opened_tokens (initial :: opened)) ∧
    sv_used_tokens s = list_to_set (opened_tokens (initial :: opened)).
Proof.
  intros Ht Hnow Hnew Hops Hlen. apply new_inv in Hnew as (Hi & Hg & Hnd & Hu); [|done..].
  destruct (run_generations_ok ops s0 Hi Hops ltac:(lia)) as (s & l & Hr & Hinv & _ & Hn & Hf & Hl).
  exists s, l. change (opened_tokens (initial :: l)) with (identity_tokens initial ++ opened_tokens l).
  rewrite Hu in *. rewrite Forall_forall in Hf. split_and!; try done.
  - apply NoDup_app. split_and!; try done. intros t H1 H2. apply (Hf t H2). by apply elem_of_list_to_set.
  - rewrite Hl, list_to_set_app_L. set_solver.
Qed.

(** *** Recovery *)

(** While a recovering candidate is as old as the clock, the time advances
    without an effect. *)
Lemma advance_time_still now s g :
  generation_inv s → sv_last_mono_ns s = now → sv_active s = None → sv_candidate s = Some g →
  gs_opened_mono_ns g = now →
  ∃ a, generation_advance_time now s = (s, Ok a).
Proof.
  intros (_ & [C1 C2 C3 C4 C5] & _) Hnow Ha Hc Hg. apply reject_Ok in C1. split_orb.
  unfold generation_advance_time. cbv [mbind SE_bind get lift put mret SE_ret]. unfold validate_monotonic.
  rewrite (proj2 (Z.ltb_ge _ _)) by lia. cbn [reject].
  rewrite sub_u64_fits by lia. rewrite (proj2 (Z.eqb_neq _ _)) by lia.
  rewrite checked_sub_fits by (rewrite <-Hnow, <-C5; lia). cbn [ok_or].
  rewrite Ha, Hc. cbn [expired]. rewrite sub_u64_fits by lia. cbn [mbind res_bind].
  rewrite (proj2 (Z.leb_gt _ _)) by lia. unfold candidate_request. cbn. rewrite Hc.
  eexists. f_equal. rewrite <-Hnow, <-C5. by destruct s.
Qed.

Record recovering (now : Z) (s : RawGenerationSupervisor) (g : GenerationStatus) : Prop := {
  re_inv : generation_inv s;
  re_now : sv_last_mono_ns s = now;
  re_active : sv_active s = None;
  re_candidate : sv_candidate s = Some g;
  re_opened : gs_opened_mono_ns g = now
}.

Lemma recovering_fact now s g fact rd new :
  recovering now s g → readiness_observe fact (gs_readiness g) = Ok (rd, new) →
  ∃ s', generation_step (GoFact fact now) s = (s', Ok []) ∧
    recovering now s' (with_readiness rd g) ∧ sv_gap_count s' = sv_gap_count s ∧
    sv_draining s' = sv_draining s.
Proof.
  intros [Hi Hn Ha Hc Ho] Hr. cbn [generation_step]. unfold observe_candidate_fact.
  destruct (advance_time_still now s g Hi Hn Ha Hc Ho) as [a Hadv].
  cbv [mbind SE_bind get lift put mret SE_ret]. rewrite Hadv, Hc. cbn [ok_or]. rewrite Hr.
  eexists. split; [reflexivity|]. split; [|done]. split; try done. by eapply fact_inv.
Qed.

Lemma recovering_facts now s g facts rd :
  recovering now s g →
  try_fold (λ r f, x ← readiness_observe f r; Ok x.1) (gs_readiness g) facts = Ok rd →
  ∃ s', (∀ ops, run_generations (((λ f, GoFact f now) <$> facts) ++ ops) s = run_generations ops s') ∧
    recovering now s' (with_readiness rd g) ∧ sv_gap_count s' = sv_gap_count s ∧
    sv_draining s' = sv_draining s.
Proof.
  revert s g. induction facts as [|f facts IH]; intros s g Hre Hrd; cbn in Hrd.
  - injection Hrd as <-. exists s. by destruct g.
  - destruct (readiness_observe f (gs_readiness g)) as [[r' new]|e|] eqn:Ho; [|done..].
    destruct (recovering_fact _ _ _ _ _ _ Hre Ho) as (s1 & H1 & Hre1 & Hg1 & Hd1).
    destruct (IH s1 _ Hre1 Hrd) as (s2 & H2 & Hre2 & Hg2 & Hd2).
    exists s2. split_and!; [|done|congruence..]. intros ops. rewrite <-(H2 ops).
    cbn [fmap list_fmap app run_generations]. rewrite H1. cbn [mbind res_bind app].
    by destruct (run_generations _ s1) as [[]| |].
Qed.

Lemma recovering_promote now s g :
  recovering now s g → is_ready (gs_readiness g) = true →
  ∃ s', run_generations [GoPromote now] s = Ok (s', []) ∧
    sv_state s' = SvLive ∧ sv_retry_attempt s' = 0 ∧ sv_gap_count s' = sv_gap_count s ∧
    sv_active s' = Some (with_role GrActive g) ∧ sv_candidate s' = None ∧
    sv_draining s' = sv_draining s.
Proof.
  intros [Hi Hn Ha Hc Ho] Hr. cbn [run_generations generation_step].
  unfold generation_promote_candidate.
  destruct (advance_time_still now s g Hi Hn Ha Hc Ho) as [a Hadv].
  cbv [mbind SE_bind get lift put mret SE_ret]. rewrite Hadv, Hc. cbn [ok_or]. rewrite Hr, Ha.
  eexists. split; [reflexivity|]. cbn. by rewrite app_nil_r.
Qed.

(** Past the backoff of a gap, recovery is due. *)
Lemma advance_time_gap now s :
  generation_inv s → sv_active s = None → sv_candidate s = None →
  sv_last_mono_ns s + rc_backoff_max_ns (sv_config s) ≤ now ≤ u64_max →
  ∃ s' a q, generation_advance_time now s = (s', Ok a) ∧ generation_inv s' ∧
    ta_candidate_request a = Some q ∧ cq_reason q = RecoveryAfterGap ∧ sv_last_mono_ns s' = now ∧
    sv_active s' = None ∧ sv_candidate s' = None ∧ sv_gap_count s' = sv_gap_count s ∧
    sv_draining s' = sv_draining s ∧ sv_used_tokens s' = sv_used_tokens s.
Proof.
  intros Hinv Ha Hc Hnow. pose proof Hinv as (_ & [C1 C2 C3 C4 C5] & [S1 S2 S3 S4]).
  destruct (S4 Ha Hc) as (t & Ht & Hle).
  destruct (set_clock_inv now s Hinv ltac:(lia)) as (Hi & Hseg & Hpos).
  unfold generation_advance_time. cbv [mbind SE_bind get lift put mret SE_ret]. unfold validate_monotonic.
  rewrite (proj2 (Z.ltb_ge _ _)) by lia. cbn [reject].
  rewrite sub_u64_fits by lia. rewrite (proj2 (Z.eqb_neq _ _)) by lia.
  rewrite checked_sub_fits by lia. cbn [ok_or].
  rewrite Ha, Hc. cbn [expired]. unfold candidate_request.
  cbn [set_clock sv_candidate sv_active sv_next_candidate_not_before_ns].
  rewrite Ha, Hc, Ht. cbn [default].
  rewrite (proj2 (Z.ltb_ge _ _)) by (cbn; lia).
  eexists _, _, _. split; [reflexivity|]. by split_and!.
Qed.

(** From a gap, an unused identity starts once the backoff has passed. *)
Lemma gap_start now s i :
  generation_inv s → sv_gap_count s < u64_max → sv_active s = None → sv_candidate s = None →
  sv_last_mono_ns s + rc_backoff_max_ns (sv_config s) ≤ now ≤ u64_max →
  identity_validate i = Ok () → Forall (λ t, t ∉ sv_used_tokens s) (identity_tokens i) →
  ∃ s', generation_step (GoStart i now) s = (s', Ok [i]) ∧
    recovering now s' (mkStatus i GrCandidate now RecoveryAfterGap readiness_empty) ∧
    sv_gap_count s' = sv_gap_count s ∧ sv_draining s' = sv_draining s.
Proof.
  intros Hinv Hgap Ha Hc Hnow Hi Hf. cbn [generation_step]. unfold start_due_candidate.
  destruct (advance_time_gap now s Hinv Ha Hc Hnow)
    as (s1 & a & q & Hadv & Hi1 & Hq & Hreason & Hlast & Ha1 & Hc1 & Hg1 & Hd1 & Ht1).
  cbv [mbind SE_bind lift]. rewrite Hi, Hadv, Hq. cbn [ok_or]. rewrite Hreason.
  destruct (start_candidate i RecoveryAfterGap now s1) as [s2 r] eqn:H2.
  apply start_candidate_inv in H2 as (_ & Hi2 & Hg2 & (_ & _ & Hl2 & _) & _ & Hst); [|done..].
  destruct Hst as (-> & Ha2 & Hd2 & Hc2); [done|by rewrite Ht1|done|].
  exists s2. split_and!; [done| |congruence..]. split; try done; congruence.
Qed.

Definition recovery_facts : list CandidateFact :=
  [DepthConnected; TradeConnected; SnapshotPersisted; DepthDurable; TradeDurable;
   DepthContinuityProven; TradeContinuityProven].

(** C36: A gap is always recoverable: once the maximal backoff has passed, the
    owner who brings an unused identity, reports the seven facts of its
    candidate in order and promotes it succeeds, and the supervisor is live
    again on that generation with its retries reset. *)
Theorem gap_recovers config initial now0 ops s0 s l i now :
  supervisor_config_typed config → 0 ≤ now0 ≤ u64_max →
  generation_supervisor_new config initial now0 = Ok s0 →
  Forall (λ op, 0 ≤ op_now op ≤ u64_max) ops → len ops < u64_max →
  run_generations ops s0 = Ok (s, l) → sv_state s = SvGap →
  sv_last_mono_ns s + rc_backoff_max_ns (sv_config s) ≤ now ≤ u64_max →
  identity_validate i = Ok () → Forall (λ t, t ∉ opened_tokens (initial :: l)) (identity_tokens i) →
  ∃ s', run_generations ([GoStart i now] ++ ((λ f, GoFact f now) <$> recovery_facts) ++ [GoPromote now]) s
          = Ok (s', [i]) ∧
    sv_state s' = SvLive ∧ sv_retry_attempt s' = 0 ∧ sv_gap_count s' = sv_gap_count s ∧
    sv_active s' = Some (mkStatus i GrActive now RecoveryAfterGap
      (mkReadiness true true true true true true true)) ∧
    sv_candidate s' = None ∧ sv_draining s' = sv_draining s.
Proof.
  intros Ht Hnow0 Hnew Hops Hlen Hrun Hgap Hnow Hi Hf.
  apply new_inv in Hnew as (Hi0 & Hg0 & _ & Hu0); [|done..].
  destruct (run_generations_ok ops s0 Hi0 Hops ltac:(lia)) as (s1 & l1 & Hr & Hinv & Hg & _ & _ & Hu).
  rewrite Hrun in Hr. injection Hr as <- <-.
  pose proof Hinv as (_ & _ & [Hst _ _ _]). rewrite Hgap in Hst.
  destruct (sv_active s) as [?|] eqn:Ha, (sv_candidate s) as [?|] eqn:Hc; try done.
  destruct (gap_start now s i Hinv ltac:(lia) Ha Hc Hnow Hi) as (s2 & H2 & Hre & Hg2 & Hd2).
  { eapply Forall_impl; [exact Hf|]. intros t Hnot. rewrite Hu, Hu0, <-list_to_set_app_L.
    rewrite elem_of_list_to_set, elem_of_app. unfold opened_tokens in *. cbn in Hnot.
    set_solver. }
  destruct (recovering_facts now s2 _ recovery_facts (mkReadiness true true true true true true true)
    Hre eq_refl) as (s3 & H3 & Hre3 & Hg3 & Hd3).
  destruct (recovering_promote now s3 _ Hre3 eq_refl) as (s4 & H4 & H5 & H6 & H7 & H8 & H9 & H10).
  exists s4. split_and!; try done; [|congruence..].
  cbn [app run_generations]. rewrite H2.
  rewrite (H3 [GoPromote now]), H4. done.
Qed.

(** ** A history *)

Module GenerationDemo.
Local Open Scope string_scope.

Definition demo_config : RawSupervisorConfig := mkSupervisorConfig 100 1000 5000 300 10 80.
Definition first : GenerationIdentity := mkGeneration "g1" "d1" "t1".
Definition second : GenerationIdentity := mkGeneration "g2" "d2" "t2".
Definition third : GenerationIdentity := mkGeneration "g3" "d3" "t3".

(** A planned rotation, the loss of the new active generation, and a start
    with a used identity, which is refused. *)
Definition demo_ops : list generation_op :=
  [GoAdvance 500; GoStart second 1200] ++ ((λ f, GoFact f 1250) <$> recovery_facts) ++
  [GoPromote 1260; GoDisconnect "d1" "drained" 1300; GoDisconnect "t2" "reset" 1400;
   GoStart first 1500].
Definition demo_initial : RawGenerationSupervisor :=
  match generation_supervisor_new demo_config first 100 with
  | Ok s => s
  | _ => mkSupervisor demo_config SvGap 0 0 0 None None [] ∅ None None 0 0
  end.
Definition demo_final : RawGenerationSupervisor :=
  match run_generations demo_ops demo_initial with Ok (s, _) => s | _ => demo_initial end.

Lemma demo_new : generation_supervisor_new demo_config first 100 = Ok demo_initial.
Proof. vm_compute. reflexivity. Qed.
Lemma demo_run : run_generations demo_ops demo_initial = Ok (demo_final, [second]).
Proof. vm_compute. reflexivity. Qed.
Lemma demo_typed : supervisor_config_typed demo_config.
Proof. unfold supervisor_config_typed. cbn. lia. Qed.
Lemma demo_times : Forall (λ op, 0 ≤ op_now op ≤ u64_max)%Z demo_ops.
Proof. unfold demo_ops, u64_max. repeat constructor; cbn; lia. Qed.
End GenerationDemo.
Import GenerationDemo.

Lemma generation_history_inv_witness :
  sv_state demo_final = SvGap ∧
  ∃ s opened, run_generations demo_ops demo_initial = Ok (s, opened) ∧ generation_inv s ∧
    NoDup (opened_tokens (first :: opened)) ∧
    sv_used_tokens s = list_to_set (opened_tokens (first :: opened)).
Proof.
  split; [vm_compute; reflexivity|].
  apply (generation_history_inv demo_config first 100 demo_ops demo_initial demo_typed);
    [unfold u64_max; lia|exact demo_new|exact demo_times|vm_compute; reflexivity].
Defined.

Lemma gap_recovers_witness :
  ∃ s', run_generations ([GoStart third 1600] ++ ((λ f, GoFact f 1600) <$> recovery_facts)
          ++ [GoPromote 1600]) demo_final = Ok (s', [third]) ∧
    sv_state s' = SvLive ∧ sv_retry_attempt s' = 0 ∧ sv_gap_count s' = sv_gap_count demo_final ∧
    sv_active s' = Some (mkStatus third GrActive 1600 RecoveryAfterGap
      (mkReadiness true true true true true true true)) ∧
    sv_candidate s' = None ∧ sv_draining s' = sv_draining demo_final.
Proof.
  apply (gap_recovers demo_config first 100 demo_ops demo_initial demo_final [second] third 1600
    demo_typed); [unfold u64_max; lia|exact demo_new|exact demo_times|vm_compute; reflexivity
    |exact demo_run|vm_compute; reflexivity|vm_compute; split; discriminate|vm_compute; reflexivity|].
  apply (bool_decide_unpack _). vm_compute. exact I.
Defined.
