(* ===== verification/IdentityLog.v ===== *)
(** * The durable trade identity log (live_arbitration.rs)

    A file of fixed-size records, trade ID to observation digest, behind a
    header that counts the committed ones. IDs increase, so a lookup is a binary
    search. The file is its bytes and the outcomes of the calls to come: any read
    or write may fail, and a write that fails has written any part of its bytes. *)

From stdpp Require Import base list strings option numbers gmap sorting.
From Stdlib Require Import ZArith Lia Ascii Strings.Byte Sorting.Sorted.
From S2P Require Import Prelude External.
Local Open Scope Z_scope.

Definition IDENTITY_LOG_MAGIC : bytes := [x4c; x4f; x42; x49; x44; x4c; x4f; x47].
Definition IDENTITY_LOG_VERSION : Z := 1.
Definition IDENTITY_LOG_HEADER_BYTES : Z := 32.
Definition IDENTITY_LOG_RECORD_BYTES : Z := 40.

(** ** Digests *)

Definition nibble (c : ascii) : Z :=
  if is_digit c then code c - 48
  else if (97 <=? code c) && (code c <=? 102) then code c - 97 + 10
  else code c - 65 + 10.
Fixpoint hex_pairs (l : chars) : bytes :=
  match l with
  | high :: low :: l => byte_of_Z (Z.lor (Z.shiftl (nibble high) 4) (nibble low)) :: hex_pairs l
  | _ => []
  end.
Definition hex_decode_32 (s : string) : res bytes :=
  _ ← reject (negb (String.length s =? 64)%nat || negb (forallb is_hexdigit (str_chars s)))
        "trade identity digest is not a 64-character hex SHA-256";
  Ok (hex_pairs (str_chars s)).

(** ** The log *)

(** *** Its file

    A call on the file succeeds, or fails after some bytes of a write. The outcomes of
    the calls to come are part of the state; behind them every call succeeds. *)
Inductive io := IoOk | IoFail (written : nat).
Record disk_file := mkFile { df_bytes : bytes; df_outcomes : list io }.

Definition next_io : SE disk_file io :=
  f ← get;
  match df_outcomes f with
  | [] => mret IoOk
  | o :: rest => put (mkFile (df_bytes f) rest);; mret o
  end.
(** [metadata().len()] *)
Definition stat (context : string) : SE disk_file Z :=
  o ← next_io;
  f ← get;
  match o with IoOk => mret (len (df_bytes f)) | IoFail _ => throw (context ++ ": I/O error") end.
(** [seek(SeekFrom::Start(offset))] and [read_exact] *)
Definition read_exact_at (context : string) (offset n : Z) : SE disk_file bytes :=
  o ← next_io;
  f ← get;
  match o with
  | IoOk =>
      let read := take (Z.to_nat n) (drop (Z.to_nat offset) (df_bytes f)) in
      lift (reject (len read <? n) (context ++ ": failed to fill whole buffer"));;
      mret read
  | IoFail _ => throw (context ++ ": I/O error")
  end.
(** [seek(SeekFrom::End(0))] and [write_all] *)
Definition write_end (context : string) (b : bytes) : SE disk_file unit :=
  o ← next_io;
  f ← get;
  match o with
  | IoOk => put (mkFile (df_bytes f ++ b) (df_outcomes f))
  | IoFail n => put (mkFile (df_bytes f ++ take n b) (df_outcomes f));; throw (context ++ ": I/O error")
  end.
(** [seek(SeekFrom::Start(0))], [write_all], [flush] and [sync_all] *)
Definition write_start (context : string) (b : bytes) : SE disk_file unit :=
  o ← next_io;
  f ← get;
  let over (b : bytes) := put (mkFile (b ++ drop (length b) (df_bytes f)) (df_outcomes f)) in
  match o with
  | IoOk => over b
  | IoFail n => over (take n b);; throw (context ++ ": I/O error")
  end.

(** *** Operations *)

Record TradeIdentityLog := mkIdentityLog {
  il_file : disk_file; il_count : Z; il_last_id : option Z; il_dirty : bool
}.
Definition set_file (f : disk_file) (log : TradeIdentityLog) : TradeIdentityLog :=
  mkIdentityLog f (il_count log) (il_last_id log) (il_dirty log).
(** A call on the file of the log. *)
Definition on_file {A} (m : SE disk_file A) : SE TradeIdentityLog A := λ log,
  let '(f, r) := m (il_file log) in (set_file f log, r).

Definition header_bytes (count : Z) : bytes :=
  IDENTITY_LOG_MAGIC ++ to_le_bytes 4 IDENTITY_LOG_VERSION ++ to_le_bytes 8 count
  ++ replicate 12 x00.

(** [create] on a new file, with the outcomes of the calls on it. *)
Definition identity_log_create (outcomes : list io) : res TradeIdentityLog :=
  let '(file, r) := write_start "sync trade identity header" (header_bytes 0) (mkFile [] outcomes) in
  _ ← r;
  Ok (mkIdentityLog file 0 None false).

Definition read_record_at (index : Z) : SE disk_file (Z * bytes) :=
  relative ← lift (ok_or (checked_mul index IDENTITY_LOG_RECORD_BYTES)
                     "trade identity record offset overflow");
  offset ← lift (ok_or (checked_add IDENTITY_LOG_HEADER_BYTES relative)
                   "trade identity record offset overflow");
  record ← read_exact_at "read trade identity record" offset IDENTITY_LOG_RECORD_BYTES;
  mret (from_le_bytes (take 8 record), drop 8 record).

(** What [open] reads: the count of the header and the ID of the last record. *)
Definition read_head : SE disk_file (Z * option Z) :=
  length ← stat "stat";
  lift (reject (length <? IDENTITY_LOG_HEADER_BYTES) "trade identity log is shorter than its header");;
  header ← read_exact_at "read trade identity header" 0 IDENTITY_LOG_HEADER_BYTES;
  lift (reject (negb (bool_decide (take 8 header = IDENTITY_LOG_MAGIC))
                || negb (from_le_bytes (take 4 (drop 8 header)) =? IDENTITY_LOG_VERSION))
          "trade identity log carries an unknown header");;
  let count := from_le_bytes (take 8 (drop 12 header)) in
  expected ← lift (ok_or (checked_add IDENTITY_LOG_HEADER_BYTES
                            (saturating_mul count IDENTITY_LOG_RECORD_BYTES))
                     "trade identity log length overflow");
  lift (reject (length <? expected) "trade identity log is truncated");;
  last_id ← (if count =? 0 then mret None else
             index ← lift (sub_u64 count 1); '(id, _) ← read_record_at index; mret (Some id));
  mret (count, last_id).
Definition identity_log_open (file : disk_file) : res TradeIdentityLog :=
  let '(file, r) := read_head file in
  '(count, last_id) ← r;
  Ok (mkIdentityLog file count last_id false).

Definition identity_insert (id : Z) (digest_hex : string) : SE TradeIdentityLog unit :=
  log ← get;
  lift (reject (match il_last_id log with Some last => id <=? last | None => false end)
          "trade identity log insert regressed");;
  digest ← lift (hex_decode_32 digest_hex);
  on_file (write_end "write trade identity record" (to_le_bytes 8 id ++ digest));;
  log ← get;
  count ← lift (ok_or (checked_add (il_count log) 1) "trade identity log count overflow");
  put (mkIdentityLog (il_file log) count (Some id) true).

Definition identity_sync : SE TradeIdentityLog unit :=
  log ← get;
  if il_dirty log then
    on_file (write_start "sync trade identity header" (header_bytes (il_count log)));;
    modify (λ log, mkIdentityLog (il_file log) (il_count log) (il_last_id log) false)
  else mret ().

(** The binary search for the first record whose ID is not below [id]. An
    interval of [u64] positions halves at most 64 times. *)
Fixpoint lookup_loop (fuel : nat) (id low high : Z) : SE disk_file Z :=
  if high <=? low then mret low else
  match fuel with
  | O => lift Panic
  | S fuel =>
      let middle := low + (high - low) / 2 in
      '(candidate, _) ← read_record_at middle;
      if candidate <? id then lookup_loop fuel id (middle + 1) high
      else lookup_loop fuel id low middle
  end.
Definition identity_lookup (id : Z) : SE TradeIdentityLog (option string) :=
  log ← get;
  on_file (low ← lookup_loop 64 id 0 (il_count log);
           if low <? il_count log then
             '(candidate, digest) ← read_record_at low;
             mret (if candidate =? id then Some (hex digest) else None)
           else mret None).

Fixpoint identity_validate_loop (n : nat) (index : Z) (previous : option Z) : SE disk_file unit :=
  match n with
  | O => mret ()
  | S n =>
      '(id, digest) ← read_record_at index;
      lift (reject (match previous with Some last => id <=? last | None => false end)
              "trade identity log IDs are not strictly increasing");;
      lift (reject (bool_decide (digest = replicate 32 x00))
              "trade identity log record carries a zero digest");;
      identity_validate_loop n (index + 1) (Some id)
  end.
Definition identity_log_validate : SE TradeIdentityLog unit :=
  log ← get;
  on_file (length ← stat "stat trade identity log";
           lift (reject (length <? saturating_add IDENTITY_LOG_HEADER_BYTES
                           (saturating_mul (il_count log) IDENTITY_LOG_RECORD_BYTES))
                   "trade identity log is truncated");;
           identity_validate_loop (Z.to_nat (il_count log)) 0 None).

(** ** Rebuilding from the canonical journal *)

Section journal_records.
Context `{SerdeValue}.

Record LiveArbitrationJournalBodyV1 := mkArbitrationBody {
  lb_schema : string; lb_record_index : Z; lb_wall_ns : Z; lb_mono_ns : Z; lb_channel : string;
  lb_payload : Value; lb_previous_record_sha256 : string
}.
Record LiveArbitrationJournalEnvelopeV1 := mkArbitrationEnvelope {
  le_body : LiveArbitrationJournalBodyV1; le_record_sha256 : string
}.

(** The identity a record of the journal carries. *)
Definition trade_identity `{!SerdeGet} (e : LiveArbitrationJournalEnvelopeV1) : res (option (Z * string)) :=
  let payload := lb_payload (le_body e) in
  event ← ok_or (get_str payload "event") "arbitration journal record lacks an event";
  if String.eqb event "TRADE_OBSERVATION" then
    id ← ok_or (get_u64 payload "trade_id") "trade observation lacks an exact trade ID";
    digest ← ok_or (get_str payload "observation_sha256")
               "trade observation lacks its observation digest";
    Ok (Some (id, digest))
  else Ok None.

Context `{!SerdeGet} `{Serde LiveArbitrationJournalEnvelopeV1}.

Fixpoint rebuild_loop (fuel : nat) (input : bytes) (rebuilt : Z) : SE TradeIdentityLog Z :=
  match fuel with
  | O => lift Panic
  | S fuel =>
      match split_line input with
      | None => mret rebuilt
      | Some ([], rest) => rebuild_loop fuel rest rebuilt
      | Some (line, rest) =>
          envelope ← lift (map_err "invalid arbitration journal JSON: " (from_slice line));
          identity ← lift (trade_identity envelope);
          log ← get;
          match identity with
          | Some (id, digest) =>
              if match il_last_id log with Some last => last <? id | None => true end then
                identity_insert id digest;;
                rebuilt ← lift (add_u64 rebuilt 1);
                rebuild_loop fuel rest rebuilt
              else rebuild_loop fuel rest rebuilt
          | None => rebuild_loop fuel rest rebuilt
          end
      end
  end.
Definition rebuild_trade_identity_from_journal (journal : bytes) : SE TradeIdentityLog Z :=
  rebuilt ← rebuild_loop (S (length journal)) journal 0;
  identity_sync;;
  mret rebuilt.
End journal_records.

(** ** Theory *)

(** A digest in the text the log gives back. *)
Definition canonical_digest (s : string) : string := hex (hex_pairs (str_chars s)).

Lemma nibble_hex_digit c : is_lower_hex c = true → 0 ≤ nibble c < 16 ∧ hex_digit (nibble c) = c.
Proof.
  intros H. unfold is_lower_hex, nibble, is_digit in *.
  destruct ((48 <=? code c) && (code c <=? 57)) eqn:E1; [|cbn in H; rewrite H]; split_orb.
  - split; [lia|]. apply code_inj. rewrite code_hex_digit by lia. case_match; lia.
  - split; [lia|]. apply code_inj. rewrite code_hex_digit by lia. case_match; lia.
Qed.

Lemma hex_pairs_lower l n :
  length l = (2 * n)%nat → forallb is_lower_hex l = true →
  hex_chars (hex_pairs l) = l ∧ length (hex_pairs l) = n.
Proof.
  revert l. induction n as [|n IH]; intros [|a [|b l]] Hl Hh; try (cbn in Hl; lia); [done|].
  cbn in Hh. split_orb. cbn [hex_pairs]. rewrite hex_chars_cons. cbn in Hl.
  destruct (IH l) as [-> Hlen]; [lia|done|]. split; [|cbn; by rewrite Hlen].
  destruct (nibble_hex_digit a) as [Ha Ea]; [done|]. destruct (nibble_hex_digit b) as [Hb Eb]; [done|].
  assert (Z.lor (Z.shiftl (nibble a) 4) (nibble b) = 16 * nibble a + nibble b) as E.
  { rewrite <-Z.add_nocarry_lor.
    - rewrite Z.shiftl_mul_pow2 by lia. lia.
    - apply Z.bits_inj'. intros k Hk. rewrite Z.land_spec, Z.bits_0.
      destruct (Z_lt_le_dec k 4); [by rewrite Z.shiftl_spec_low|].
      rewrite (Z.bits_above_log2 (nibble b)), andb_false_r; [done|lia|].
      destruct (Z.eq_dec (nibble b) 0) as [->|?]; [cbn; lia|].
      assert (Z.log2 (nibble b) < 4) by (apply Z.log2_lt_pow2; lia). lia. }
  rewrite E, Z_of_byte_of_Z, Z.mod_small by lia.
  rewrite Z.mul_comm, Z.div_add_l, Z.div_small, Z.add_0_r by lia.
  rewrite Z.add_comm, Z.mod_add, Z.mod_small by lia. by rewrite Ea, Eb.
Qed.

Lemma canonical_digest_lower s : is_digest s = true → canonical_digest s = s.
Proof.
  unfold is_digest, canonical_digest, hex. intros [Hl Hh]%andb_true_iff. apply Nat.eqb_eq in Hl.
  destruct (hex_pairs_lower (str_chars s) 32) as [-> _]; [by rewrite length_str_chars|done|].
  apply str_of_chars.
Qed.

Lemma length_hex_pairs l n : length l = (2 * n)%nat → length (hex_pairs l) = n.
Proof.
  revert l. induction n as [|n IH]; intros [|a [|b l]] Hl; try (cbn in Hl; lia); [done|].
  cbn in *. by rewrite IH by lia.
Qed.

(** *** Calls that may fail *)

(** Every call to come succeeds. *)
Definition healthy (f : disk_file) : Prop := Forall (eq IoOk) (df_outcomes f).

(** [m] only reads: it answers [P], or fails because of the file. *)
Definition reads {A} (P : A → Prop) (f : disk_file) (m : SE disk_file A) : Prop :=
  df_bytes (m f).1 = df_bytes f ∧ (healthy f → healthy (m f).1) ∧
  match (m f).2 with Ok a => P a | Err _ => ¬ healthy f | Panic => False end.

Lemma reads_ret {A} (P : A → Prop) f a : P a → reads P f (mret a).
Proof. done. Qed.
Lemma reads_lift {A B} (Q : B → Prop) f (r : res A) a (k : A → SE disk_file B) :
  r = Ok a → reads Q f (k a) → reads Q f (lift r ≫= k).
Proof. by intros ->. Qed.
Lemma reads_bind {A B} (P : A → Prop) (Q : B → Prop) f (m : SE disk_file A) (k : A → SE disk_file B) :
  reads P f m → (∀ a f', P a → df_bytes f' = df_bytes f → reads Q f' (k a)) → reads Q f (m ≫= k).
Proof.
  unfold reads. cbv [mbind SE_bind]. destruct (m f) as [f' [a|e|]]; cbn [fst snd]; [|done..].
  intros (H1 & H2 & H3) Hk. destruct (Hk a f' H3 H1) as (K1 & K2 & K3). split_and!; [congruence|tauto|].
  destruct (k a f') as [f2 [b|e|]]; cbn [fst snd] in *; [done|tauto|done].
Qed.

Lemma next_io_cases f :
  ∃ o, next_io f = (mkFile (df_bytes f) (tail (df_outcomes f)), Ok o) ∧
    (healthy f → o = IoOk) ∧ (healthy f → healthy (mkFile (df_bytes f) (tail (df_outcomes f)))).
Proof.
  unfold next_io, healthy. cbv [mbind SE_bind get put mret SE_ret]. destruct f as [b [|o l]]; cbn [df_bytes df_outcomes tail].
  - by exists IoOk.
  - exists o. split_and!; [done|..]; by intros [<- ?]%Forall_cons.
Qed.

(** The next outcome [o] and the file [f1] behind it. *)
Local Ltac next_outcome f o f1 Ho Hf :=
  let H := fresh in destruct (next_io_cases f) as (o & H & Ho & Hf); cbv [mbind SE_bind get]; rewrite H; clear H;
  set (f1 := mkFile (df_bytes f) _) in *.

Lemma stat_reads context f : reads (λ n, n = len (df_bytes f)) f (stat context).
Proof.
  unfold reads, stat. next_outcome f o f1 Ho Hf1. destruct o as [|n]; cbn; split_and!; try done.
  intros Hh. by discriminate (Ho Hh).
Qed.
Lemma read_exact_reads context offset n f :
  let read := take (Z.to_nat n) (drop (Z.to_nat offset) (df_bytes f)) in
  n ≤ len read → reads (λ b, b = read) f (read_exact_at context offset n).
Proof.
  intros read Hn. unfold reads, read_exact_at. next_outcome f o f1 Ho Hf1. destruct o as [|k]; cbn [f1 df_bytes].
  - fold read. rewrite (proj2 (Z.ltb_ge _ _)) by done. cbn. by split_and!.
  - cbn. split_and!; try done. intros Hh. by discriminate (Ho Hh).
Qed.
(** A write at the end adds all its bytes, or fails and adds some of them. *)
Lemma write_end_cases context b f :
  ∃ f' r, write_end context b f = (f', r) ∧ (healthy f → healthy f' ∧ r = Ok ()) ∧
    ((r = Ok () ∧ df_bytes f' = df_bytes f ++ b) ∨
     (∃ e n, r = Err e ∧ df_bytes f' = df_bytes f ++ take n b)).
Proof.
  unfold write_end. next_outcome f o f1 Ho Hf1. destruct o as [|n].
  - eexists _, _. split; [reflexivity|]. split; [by split; [apply Hf1|]|by left].
  - eexists _, _. split; [reflexivity|]. split; [intros Hh; by discriminate (Ho Hh)|]. right. by eexists _, n.
Qed.
(** A write over the start replaces as many bytes as it writes. *)
Lemma write_start_cases context b f :
  ∃ f' r, write_start context b f = (f', r) ∧ (healthy f → healthy f' ∧ r = Ok ()) ∧
    ((r = Ok () ∧ df_bytes f' = b ++ drop (length b) (df_bytes f)) ∨
     (∃ e n, r = Err e ∧ df_bytes f' = take n b ++ drop (length (take n b)) (df_bytes f))).
Proof.
  unfold write_start. next_outcome f o f1 Ho Hf1. destruct o as [|n].
  - eexists _, _. split; [reflexivity|]. split; [by split; [apply Hf1|]|by left].
  - eexists _, _. split; [reflexivity|]. split; [intros Hh; by discriminate (Ho Hh)|]. right. by eexists _, n.
Qed.

(** *** Torn headers

    A header that was written in part counts no more records than were to be counted. *)

Lemma torn_count n k old new :
  0 ≤ old ≤ new → ∃ m, take k (to_le_bytes n new) ++ drop k (to_le_bytes n old) = to_le_bytes n m ∧ 0 ≤ m ≤ new.
Proof.
  revert k old new. induction n as [|n IH]; intros k old new Hle.
  { exists new. cbn [to_le_bytes]. rewrite take_nil, drop_nil. split; [done|lia]. }
  destruct k as [|k]; [by exists old|]. cbn [to_le_bytes take drop].
  destruct (IH k (old / 256) (new / 256)) as (m & E & Hm).
  { split; [apply Z.div_pos; lia|apply Z.div_le_mono; lia]. }
  exists (new mod 256 + 256 * m). split.
  - rewrite <-app_comm_cons, E. rewrite (Z.mul_comm 256), Z.div_add, Z.div_small by (try apply Z.mod_pos_bound; lia).
    f_equal. rewrite <-(byte_of_Z_mod (_ + _)), Z.mod_add, Z.mod_mod by lia. by rewrite byte_of_Z_mod.
  - pose proof (Z.mod_pos_bound new 256). pose proof (Z.div_mod new 256). lia.
Qed.

Lemma take_drop_app {A} k (a b c : list A) :
  take k (a ++ b) ++ drop k (a ++ c) = a ++ take (k - length a) b ++ drop (k - length a) c.
Proof.
  rewrite take_app, drop_app. destruct (decide (k ≤ length a)%nat) as [Hk|Hk].
  - replace (k - length a)%nat with 0%nat by lia. cbn. by rewrite app_nil_r, app_assoc, take_drop.
  - by rewrite take_ge, drop_ge, <-app_assoc by lia.
Qed.

Lemma torn_header k old new :
  0 ≤ old ≤ new → ∃ m, take k (header_bytes new) ++ drop k (header_bytes old) = header_bytes m ∧ 0 ≤ m ≤ new.
Proof.
  intros Hle. unfold header_bytes. rewrite !take_drop_app.
  set (k1 := (_ - _ - _)%nat). rewrite take_app, drop_app, !length_to_le_bytes.
  destruct (torn_count 8 k1 old new Hle) as (m & E & Hm). exists m. split; [|done]. do 2 f_equal.
  rewrite <-E, <-!app_assoc. f_equal. destruct (decide (k1 ≤ 8)%nat) as [Hk|Hk].
  - replace (k1 - 8)%nat with 0%nat by lia. done.
  - rewrite (drop_ge (to_le_bytes 8 old)) by (rewrite length_to_le_bytes; lia). cbn [app]. apply take_drop.
Qed.

(** *** What a log holds *)

Definition identity_bytes (r : Z * bytes) : bytes := to_le_bytes 8 r.1 ++ r.2.
Definition identity_ok (r : Z * bytes) : Prop := in_u64 r.1 ∧ length r.2 = 32%nat.
Definition below (x y : Z * bytes) : Prop := x.1 < y.1.

Record log_holds (log : TradeIdentityLog) (rs : list (Z * bytes)) (c : Z) (tail : bytes) : Prop := {
  lh_file : df_bytes (il_file log) = header_bytes c ++ concat (identity_bytes <$> rs) ++ tail;
  lh_count : il_count log = len rs;
  lh_last : il_last_id log = fst <$> last rs;
  lh_sorted : StronglySorted below rs;
  lh_records : Forall identity_ok rs;
  lh_size : 32 + 40 * len rs ≤ u64_max;
  lh_header : 0 ≤ c ≤ len rs ∧ (il_dirty log = false → c = len rs)
}.

Lemma log_holds_file log rs c tail f :
  log_holds log rs c tail → df_bytes f = df_bytes (il_file log) → log_holds (set_file f log) rs c tail.
Proof. intros [H1 H2 H3 H4 H5 H6 H7] Hf. split; try done. cbn. by rewrite Hf. Qed.

Lemma length_header c : length (header_bytes c) = 32%nat.
Proof. unfold header_bytes. by rewrite !length_app, !length_to_le_bytes, length_replicate. Qed.

Lemma length_identity_bytes r : identity_ok r → length (identity_bytes r) = 40%nat.
Proof. intros [_ H]. unfold identity_bytes. by rewrite length_app, length_to_le_bytes, H. Qed.

Lemma drop_identities rs i tail :
  Forall identity_ok rs → (i ≤ length rs)%nat →
  drop (40 * i) (concat (identity_bytes <$> rs) ++ tail)
  = concat (identity_bytes <$> drop i rs) ++ tail.
Proof.
  revert i. induction rs as [|r rs IH]; intros [|i] Hok Hi; try done; [cbn in Hi; lia|].
  apply Forall_cons in Hok as [Hr Hok]. cbn [fmap list_fmap concat drop].
  rewrite <-app_assoc. replace (40 * S i)%nat with (length (identity_bytes r) + 40 * i)%nat
    by (rewrite length_identity_bytes by done; lia).
  rewrite <-drop_drop, drop_app_length. apply IH; [done|cbn in Hi; lia].
Qed.

Lemma read_record_exact c rs tail i r f :
  Forall identity_ok rs → 32 + 40 * len rs ≤ u64_max → rs !! i = Some r →
  df_bytes f = header_bytes c ++ concat (identity_bytes <$> rs) ++ tail →
  reads (λ x, x = r) f (read_record_at (Z.of_nat i)).
Proof.
  intros Hok Hsize Hi Hf. pose proof (lookup_lt_Some _ _ _ Hi) as Hlt. unfold len in Hsize.
  unfold read_record_at, IDENTITY_LOG_RECORD_BYTES, IDENTITY_LOG_HEADER_BYTES.
  eapply reads_lift; [by rewrite checked_mul_fits by lia|]. eapply reads_lift; [by rewrite checked_add_fits by lia|].
  pose proof (proj1 (Forall_lookup _ _) Hok _ _ Hi) as Hr.
  assert (take (Z.to_nat 40) (drop (Z.to_nat (32 + Z.of_nat i * 40)) (df_bytes f)) = identity_bytes r) as E.
  { rewrite Hf. replace (Z.to_nat (32 + Z.of_nat i * 40)) with (length (header_bytes c) + 40 * i)%nat
      by (rewrite length_header; lia).
    rewrite <-drop_drop, drop_app_length, drop_identities by (done || lia).
    rewrite (drop_S _ _ _ Hi). cbn [fmap list_fmap concat]. rewrite <-app_assoc.
    by rewrite take_app_length' by (by rewrite length_identity_bytes). }
  eapply reads_bind; [apply read_exact_reads|]; rewrite E.
  { unfold len. by rewrite length_identity_bytes. }
  intros _ f3 -> _. apply reads_ret. destruct r as [id d], Hr as [Hid Hd]. cbn [fst snd] in *.
  unfold identity_bytes. cbn [fst snd].
  rewrite take_app_length', drop_app_length' by (by rewrite length_to_le_bytes).
  rewrite from_to_le_bytes. unfold in_u64, u64_max in Hid. by rewrite Z.mod_small by lia.
Qed.

(** *** Lookup *)

Lemma sorted_below rs i j x y :
  StronglySorted below rs → rs !! i = Some x → rs !! j = Some y → (i < j)%nat → x.1 < y.1.
Proof.
  intros Hs. revert i j. induction Hs as [|r rs Hs IH Hr]; intros i j Hi Hj Hij; [done|].
  destruct j as [|j]; [lia|]. cbn in Hj. destruct i as [|i]; cbn in Hi.
  - injection Hi as <-. rewrite Forall_forall in Hr. apply Hr. by eapply list_elem_of_lookup_2.
  - eapply IH; [done..|lia].
Qed.

(** The loop finds the number of IDs below [id]. *)
Lemma lookup_loop_exact c rs tail id fuel low high f :
  StronglySorted below rs → Forall identity_ok rs → 32 + 40 * len rs ≤ u64_max →
  df_bytes f = header_bytes c ++ concat (identity_bytes <$> rs) ++ tail →
  (low ≤ high ≤ length rs)%nat → Z.of_nat high - Z.of_nat low < 2 ^ Z.of_nat fuel →
  (∀ j r, rs !! j = Some r → (j < low)%nat → r.1 < id) →
  (∀ j r, rs !! j = Some r → (high ≤ j)%nat → id ≤ r.1) →
  reads (λ found, ∃ k, found = Z.of_nat k ∧ (k ≤ length rs)%nat ∧
    ∀ j r, rs !! j = Some r → r.1 < id ↔ (j < k)%nat) f
    (lookup_loop fuel id (Z.of_nat low) (Z.of_nat high)).
Proof.
  intros Hs Hok Hsize. revert low high f. induction fuel as [|fuel IH]; intros low high f Hf Hb Hfuel Hlo Hhi.
  - assert (low = high) as -> by (cbn in Hfuel; lia).
    cbn [lookup_loop]. rewrite (proj2 (Z.leb_le _ _)) by lia. apply reads_ret. exists high. split_and!; [done|lia|].
    intros j r Hj. specialize (Hlo j r Hj). specialize (Hhi j r Hj). lia.
  - rewrite Nat2Z.inj_succ, Z.pow_succ_r in Hfuel by lia. cbn [lookup_loop].
    destruct (Z.leb_spec (Z.of_nat high) (Z.of_nat low)) as [Hle|Hlt].
    { assert (low = high) as -> by lia. apply reads_ret. exists high. split_and!; [done|lia|].
      intros j r Hj. specialize (Hlo j r Hj). specialize (Hhi j r Hj). lia. }
    set (d := (Z.of_nat high - Z.of_nat low) / 2).
    assert (0 ≤ d ∧ 2 * d ≤ Z.of_nat high - Z.of_nat low < 2 * d + 2) as Hd.
    { unfold d. pose proof (Z.mul_div_le (Z.of_nat high - Z.of_nat low) 2).
      pose proof (Z.mul_succ_div_gt (Z.of_nat high - Z.of_nat low) 2).
      pose proof (Z.div_pos (Z.of_nat high - Z.of_nat low) 2). lia. }
    replace (Z.of_nat low + d) with (Z.of_nat (low + Z.to_nat d)) by lia.
    set (mid := (low + Z.to_nat d)%nat) in *.
    destruct (rs !! mid) as [r|] eqn:Hr; [|apply lookup_ge_None in Hr; lia].
    eapply reads_bind; [by eapply read_record_exact|]. intros _ f' -> Hf'. destruct r as [x dg].
    destruct (Z.ltb_spec x id) as [Hx|Hx].
    + replace (Z.of_nat mid + 1) with (Z.of_nat (S mid)) by lia. apply IH; [congruence|lia|lia| |done].
      intros j r Hj Hjm. destruct (decide (j = mid)) as [->|]; [by simplify_eq|].
      pose proof (sorted_below _ j mid _ _ Hs Hj Hr ltac:(lia)). cbn in *. lia.
    + apply IH; [congruence|lia|lia|done|]. intros j r Hj Hjm.
      destruct (decide (j = mid)) as [->|]; [by simplify_eq|].
      pose proof (sorted_below _ mid j _ _ Hs Hr Hj ltac:(lia)). cbn in *. lia.
Qed.

Lemma sorted_ids_NoDup rs : StronglySorted below rs → NoDup rs.*1.
Proof.
  induction 1 as [|r rs _ IH Hr]; cbn; constructor; [|done].
  rewrite Forall_forall in Hr. intros ((y & d) & E & Hy)%list_elem_of_fmap.
  apply Hr in Hy. unfold below in Hy. cbn in *. lia.
Qed.

Lemma on_file_reads {A} (P : A → Prop) (m : SE disk_file A) log :
  reads P (il_file log) m →
  ∃ f, (on_file m log).1 = set_file f log ∧ df_bytes f = df_bytes (il_file log) ∧
    (healthy (il_file log) → healthy f) ∧
    match (on_file m log).2 with Ok a => P a | Err _ => ¬ healthy (il_file log) | Panic => False end.
Proof. unfold reads, on_file. destruct (m (il_file log)) as [f r]. intros H. by exists f. Qed.

(** A lookup answers [o], or fails because of the file, and leaves the log as it is. *)
Definition answers (log : TradeIdentityLog) (id : Z) (o : option string) : Prop :=
  ∃ f, (identity_lookup id log).1 = set_file f log ∧ df_bytes f = df_bytes (il_file log) ∧
    (healthy (il_file log) → healthy f) ∧
    match (identity_lookup id log).2 with Ok found => found = o | Err _ => ¬ healthy (il_file log) | Panic => False end.

Lemma identity_lookup_exact log rs c tail id :
  log_holds log rs c tail → answers log id (hex <$> (list_to_map rs : gmap Z bytes) !! id).
Proof.
  intros [Hfile Hcount _ Hs Hok Hsize _].
  enough (reads (λ o, o = hex <$> (list_to_map rs : gmap Z bytes) !! id) (il_file log)
    (low ← lookup_loop 64 id 0 (il_count log);
     if low <? il_count log then
       '(candidate, digest) ← read_record_at low; mret (if candidate =? id then Some (hex digest) else None)
     else mret None)) as Hr.
  { exact (on_file_reads _ _ _ Hr). }
  eapply reads_bind.
  { rewrite Hcount. apply (lookup_loop_exact c rs tail id 64 0 (length rs)); try done; [lia| | |].
    - unfold len, u64_max in Hsize. cbn. lia.
    - lia.
    - intros j r Hj Hle. apply lookup_lt_Some in Hj. lia. }
  intros low f (k & -> & Hk & Hspec) Hf. rewrite Hcount. unfold len.
  destruct (Z.ltb_spec (Z.of_nat k) (Z.of_nat (length rs))) as [Hlt|Hge].
  - destruct (lookup_lt_is_Some_2 rs k ltac:(lia)) as [[x d] Hx].
    eapply reads_bind; [apply (read_record_exact c rs tail _ (x, d)); try done; congruence|]. intros _ f' -> _. apply reads_ret.
    destruct (Z.eqb_spec x id) as [->|Hne].
    + rewrite (elem_of_list_to_map_1 rs id d); [done|by apply sorted_ids_NoDup|].
      by eapply list_elem_of_lookup_2.
    + rewrite not_elem_of_list_to_map_1; [done|]. intros ((y & e) & E & [j Hj]%list_elem_of_lookup)%list_elem_of_fmap.
      cbn in E. subst y. pose proof (Hspec _ _ Hj) as Hj1. pose proof (Hspec _ _ Hx) as Hx1. cbn [fst] in Hj1, Hx1.
      destruct (decide (j = k)) as [->|]; [congruence|].
      pose proof (sorted_below _ k j _ _ Hs Hx Hj ltac:(lia)) as Hlt2. cbn [fst] in Hlt2. lia.
  - apply reads_ret. rewrite not_elem_of_list_to_map_1; [done|].
    intros ((y & e) & E & [j Hj]%list_elem_of_lookup)%list_elem_of_fmap.
    cbn in E. subst y. pose proof (proj2 (Hspec _ _ Hj)) as Hj1. apply lookup_lt_Some in Hj. cbn [fst] in Hj1. lia.
Qed.

(** *** Writing *)

Lemma last_below rs r last_id :
  StronglySorted below rs → fst <$> last rs = Some last_id → last_id < r.1 →
  StronglySorted below (rs ++ [r]).
Proof.
  intros Hs Hl Hlt. induction rs as [|x rs IH] using rev_ind; [done|].
  rewrite last_snoc in Hl. injection Hl as Hl. clear IH.
  assert (Forall (λ y, y.1 ≤ last_id) (rs ++ [x])) as Hall.
  { apply Forall_app. split; [|repeat constructor; lia]. apply Forall_forall. intros y [i Hi]%list_elem_of_lookup.
    assert (i < length rs)%nat by (by eapply lookup_lt_Some).
    enough (y.1 < x.1) by lia. eapply (sorted_below (rs ++ [x]) i (length rs)); [done| | |lia].
    - by rewrite lookup_app_l.
    - by rewrite lookup_app_r, Nat.sub_diag. }
  induction Hs as [|y l Hs IH2 Hy]; cbn; [by repeat constructor|].
  apply Forall_cons in Hall as [Hy1 Hall]. constructor; [by apply IH2|].
  apply Forall_app. split; [done|]. repeat constructor. unfold below. lia.
Qed.

Definition entry (x : Z * string) : Z * bytes := (x.1, hex_pairs (str_chars x.2)).

(** An insert is refused and changes nothing; or its write fails, which leaves the records
    as they are and some bytes behind them; or the record is there. *)
Lemma identity_insert_cases log rs c tail id d log' r :
  log_holds log rs c tail → in_u64 id → 32 + 40 * (len rs + 1) ≤ u64_max →
  identity_insert id d log = (log', r) →
  (healthy (il_file log) → healthy (il_file log')) ∧
  ((∃ e, r = Err e ∧ log' = log) ∨
   (∃ e n, r = Err e ∧ ¬ healthy (il_file log) ∧ il_count log' = il_count log ∧
      log_holds log' rs c (tail ++ take n (identity_bytes (entry (id, d))))) ∨
   (r = Ok () ∧ il_dirty log' = true ∧ il_count log' = il_count log + 1 ∧
    (∀ l, il_last_id log = Some l → l < id) ∧
    (tail = [] → log_holds log' (rs ++ [entry (id, d)]) c []))).
Proof.
  intros Hlog Hid Hfit. pose proof Hlog as [Hfile Hcount Hlast Hs Hok Hsize Hc]. unfold identity_insert.
  cbv [mbind SE_bind get lift put on_file].
  destruct (match il_last_id log with Some _ => _ | None => _ end) eqn:Hreg; cbn [reject].
  { intros [= <- <-]. split; [done|]. left. by eexists. }
  unfold hex_decode_32. destruct (_ || _) eqn:Hhex; cbn [reject mbind res_bind].
  { intros [= <- <-]. split; [done|]. left. by eexists. }
  destruct (write_end_cases "write trade identity record" (to_le_bytes 8 id ++ hex_pairs (str_chars d)) (il_file log))
    as (f' & r' & -> & Hheal & [(-> & Hf')|(e & n & -> & Hf')]).
  2: { intros [= <- <-]. cbn [set_file il_file il_count]. split; [tauto|]. right; left. exists e, n. split; [done|].
       split; [intros Hh; by destruct (Hheal Hh)|]. split; [done|].
       split; try done. cbn. by rewrite Hf', Hfile, <-!app_assoc. }
  pose proof (len_nonneg rs). cbn [set_file il_count il_file]. rewrite checked_add_fits by lia. cbn [ok_or].
  intros [= <- <-]. cbn [il_file il_dirty il_count]. split; [tauto|]. right; right. split; [done|]. split; [done|].
  split; [done|]. split; [intros l Hl; rewrite Hl in Hreg; lia|]. intros ->.
  apply orb_false_iff in Hhex as [Hlen%negb_false_iff%Nat.eqb_eq _].
  assert (identity_ok (entry (id, d))) as Hent.
  { split; [done|]. apply length_hex_pairs. by rewrite length_str_chars. }
  split; cbn [il_file il_count il_last_id il_dirty].
  - rewrite Hf', Hfile, fmap_app, concat_app, !app_nil_r, <-app_assoc. cbn. by rewrite app_nil_r.
  - rewrite len_app, Hcount. done.
  - by rewrite last_snoc.
  - destruct (fst <$> last rs) as [l|] eqn:Hl.
    + apply (last_below _ _ l); [done..|]. rewrite Hlast in Hreg. cbn. lia.
    + destruct (last rs) eqn:E; [done|]. apply last_None in E as ->. repeat constructor.
  - apply Forall_app. split; [done|]. by apply Forall_singleton.
  - rewrite len_app. change (len [entry (id, d)]) with 1. lia.
  - rewrite len_app. change (len [entry (id, d)]) with 1. split; [lia|done].
Qed.

(** A sync makes the header count the records. One that fails leaves a header that counts
    no more than the records. *)
Lemma identity_sync_cases log rs c tail :
  log_holds log rs c tail →
  ∃ log' r c', identity_sync log = (log', r) ∧ log_holds log' rs c' tail ∧
    (healthy (il_file log) → healthy (il_file log') ∧ r = Ok ()) ∧
    match r with Ok _ => c' = len rs | Err _ => True | Panic => False end.
Proof.
  intros Hlog. pose proof Hlog as [Hfile Hcount Hlast Hs Hok Hsize [Hc Hd]]. unfold identity_sync.
  cbv [mbind SE_bind get mret SE_ret modify on_file].
  destruct (il_dirty log) eqn:Hdirty; [|by exists log, (Ok ()), c; rewrite Hd in *].
  destruct (write_start_cases "sync trade identity header" (header_bytes (il_count log)) (il_file log))
    as (f' & r & -> & Hheal & [(-> & Hf')|(e & n & -> & Hf')]); cbn [set_file il_file il_count il_last_id il_dirty].
  - rewrite Hfile, drop_app_length' in Hf' by (by rewrite !length_header).
    eexists _, _, (len rs). split; [reflexivity|]. split; [|done].
    split; cbn [il_file il_count il_last_id il_dirty]; try done; [by rewrite Hf', Hcount|lia].
  - destruct (torn_header n c (len rs) ltac:(lia)) as (m & E & Hm).
    eexists _, _, m. split; [reflexivity|]. split; [|done].
    split; cbn [il_file il_count il_last_id il_dirty]; try done; [|split; [lia|cbn; by rewrite ?Hdirty]].
    cbn [set_file il_file]. rewrite Hf', Hfile, <-E, <-app_assoc, Hcount. f_equal. rewrite drop_app, length_take, !length_header.
    destruct (decide (n ≤ 32)%nat).
    + replace (n `min` 32)%nat with n by lia. by replace (n - 32)%nat with 0%nat by lia.
    + rewrite !(drop_ge (header_bytes c)) by (rewrite length_header; lia).
      by replace (n `min` 32 - 32)%nat with 0%nat by lia.
Qed.

Lemma len_identities rs : Forall identity_ok rs → len (concat (identity_bytes <$> rs)) = 40 * len rs.
Proof.
  induction 1 as [|r rs Hr _ IH]; [done|]. cbn [fmap list_fmap concat]. rewrite len_app, len_cons.
  unfold len at 1. rewrite length_identity_bytes by done. rewrite IH. lia.
Qed.

(** Opening a file that holds [rs] behind its header. *)
Lemma identity_open_exact rs tail f :
  StronglySorted below rs → Forall identity_ok rs → 32 + 40 * len rs ≤ u64_max →
  df_bytes f = header_bytes (len rs) ++ concat (identity_bytes <$> rs) ++ tail →
  match identity_log_open f with
  | Ok log => log_holds log rs (len rs) tail ∧ (healthy f → healthy (il_file log))
  | Err _ => ¬ healthy f
  | Panic => False
  end.
Proof.
  intros Hs Hok Hsize Hf.
  assert (32 + 40 * len rs ≤ len (df_bytes f)) as Hlen.
  { rewrite Hf, !len_app, len_identities by done. unfold len at 2. rewrite length_header.
    pose proof (len_nonneg tail). lia. }
  pose proof (len_nonneg rs).
  assert (reads (λ x, x = (len rs, fst <$> last rs)) f read_head) as Hr.
  { unfold read_head, IDENTITY_LOG_HEADER_BYTES, IDENTITY_LOG_RECORD_BYTES.
    eapply reads_bind; [apply stat_reads|]. intros _ f1 -> Hf1.
    eapply reads_lift; [by rewrite (proj2 (Z.ltb_ge _ _)); [|lia]|].
    assert (take (Z.to_nat 32) (drop (Z.to_nat 0) (df_bytes f1)) = header_bytes (len rs)) as Hh.
    { rewrite Hf1, Hf. change (Z.to_nat 0) with 0%nat. rewrite drop_0.
      by rewrite take_app_length' by (by rewrite length_header). }
    eapply reads_bind; [apply read_exact_reads|]; rewrite Hh; [by unfold len; rewrite length_header|].
    intros _ f2 -> Hf2.
    assert (from_le_bytes (take 8 (drop 12 (header_bytes (len rs)))) = len rs) as Hc.
    { change (drop 12 (header_bytes (len rs))) with (to_le_bytes 8 (len rs) ++ replicate 12 x00).
      rewrite take_app_length' by (by rewrite length_to_le_bytes).
      rewrite from_to_le_bytes. apply Z.mod_small. unfold u64_max in *. lia. }
    eapply reads_lift.
    { change (take 8 (header_bytes (len rs))) with IDENTITY_LOG_MAGIC.
      change (take 4 (drop 8 (header_bytes (len rs)))) with (to_le_bytes 4 1).
      by rewrite bool_decide_eq_true_2 by done. }
    rewrite Hc. eapply reads_lift.
    { unfold saturating_mul. rewrite Z.min_l by lia. by rewrite checked_add_fits by lia. }
    eapply reads_lift; [by rewrite (proj2 (Z.ltb_ge _ _)); [|lia]|].
    eapply (reads_bind (λ o, o = fst <$> last rs)); [|by intros _ f3 -> _].
    destruct (last rs) as [[x d]|] eqn:Hl.
    - assert (0 < len rs) by (destruct rs; [done|rewrite len_cons; pose proof (len_nonneg rs); lia]).
      rewrite (proj2 (Z.eqb_neq _ _)) by lia. eapply reads_lift; [by rewrite sub_u64_fits; [|lia]|].
      rewrite last_lookup in Hl. replace (len rs - 1) with (Z.of_nat (pred (length rs))) by (unfold len in *; lia).
      eapply reads_bind; [apply (read_record_exact (len rs) rs tail _ (x, d)); try done; congruence|]. by intros _ f3 -> _.
    - by apply last_None in Hl as ->. }
  unfold identity_log_open. destruct Hr as (H1 & H2 & H3). destruct (read_head f) as [f' [a|e|]]; cbn in *; [|done..].
  subst a. cbn. split; [|done]. split; cbn; try done. by rewrite H1, Hf.
Qed.

(** An identity the log does not have yet. *)
Definition newer (o : option Z) (x : Z * string) : Prop :=
  match o with Some last => last < x.1 | None => True end.
#[global] Instance newer_dec o x : Decision (newer o x).
Proof. destruct o; cbn; apply _. Defined.

Lemma is_digest_hexdigits d :
  is_digest d = true → String.length d = 64%nat ∧ forallb is_hexdigit (str_chars d) = true.
Proof.
  unfold is_digest. intros [Hl%Nat.eqb_eq Hh]%andb_true_iff. split; [done|].
  apply forallb_forall. intros c Hc. apply (proj1 (forallb_forall _ _) Hh) in Hc.
  unfold is_hexdigit, is_lower_hex in *. by rewrite Hc.
Qed.

(** The log holds exactly the identities [acc], in a file without torn bytes, and the calls
    to come succeed: what it promises to its owner. *)
Definition log_accepts (log : TradeIdentityLog) (acc : list (Z * string)) : Prop :=
  healthy (il_file log) ∧ ∃ c, log_holds log (entry <$> acc) c [].

Lemma identity_insert_Ok log acc id d :
  log_accepts log acc → in_u64 id → 32 + 40 * (len acc + 1) ≤ u64_max →
  newer (il_last_id log) (id, d) → is_digest d = true →
  ∃ log', identity_insert id d log = (log', Ok ()) ∧ log_accepts log' (acc ++ [(id, d)]) ∧ il_last_id log' = Some id.
Proof.
  intros (Hh & c & Hlog) Hid Hsize Hnew [Hl Hd]%is_digest_hexdigits.
  destruct (identity_insert id d log) as [log' r] eqn:Hi.
  destruct (identity_insert_cases _ _ _ _ _ _ _ _ Hlog Hid ltac:(rewrite len_fmap; done) Hi)
    as (Hheal & [(e & -> & ->)|[(e & n & _ & Hno & _)|(-> & _ & _ & _ & Hh')]]); [|done|].
  - exfalso. unfold identity_insert, hex_decode_32 in Hi.
    cbv [mbind SE_bind get lift put] in Hi. rewrite Hl, Hd in Hi. cbn [Nat.eqb negb orb reject res_bind] in Hi.
    rewrite (proj2 (reject_Ok _ _ ())) in Hi
      by (destruct (il_last_id log); cbn in *; [apply Z.leb_gt; lia|done]).
    unfold on_file in Hi. destruct (write_end_cases "write trade identity record" (to_le_bytes 8 id ++ hex_pairs (str_chars d)) (il_file log))
      as (f' & r' & E & Hw & _). destruct (Hw Hh) as [_ ->]. rewrite E in Hi. cbn [set_file il_count] in Hi.
    pose proof (lh_count _ _ _ _ Hlog) as Hc. rewrite len_fmap in Hc. pose proof (len_nonneg acc).
    by rewrite checked_add_fits in Hi by lia.
  - specialize (Hh' eq_refl). exists log'. split; [done|]. split.
    + split; [by apply Hheal|]. exists c. by rewrite fmap_app.
    + rewrite (lh_last _ _ _ _ Hh'). by rewrite last_snoc.
Qed.

Lemma lookup_accepted log acc c tail id :
  log_holds log (entry <$> acc) c tail →
  answers log id (canonical_digest <$> (list_to_map acc : gmap Z string) !! id).
Proof.
  intros Hh. replace (canonical_digest <$> _) with (hex <$> (list_to_map (entry <$> acc) : gmap Z bytes) !! id);
    [by eapply identity_lookup_exact|].
  change entry with (prod_map (@Datatypes.id Z) (λ s, hex_pairs (str_chars s))).
  rewrite list_to_map_fmap, lookup_fmap. by destruct (_ !! id).
Qed.

(** What the log promises to its owner: an insert above every ID succeeds, a sync
    succeeds, and a lookup is that of the map of the accepted identities. *)
Lemma log_accepts_insert log acc id d :
  log_accepts log acc → in_u64 id → 32 + 40 * (len acc + 1) ≤ u64_max →
  Forall (λ x, x.1 < id) acc → is_digest d = true →
  ∃ log', identity_insert id d log = (log', Ok ()) ∧ log_accepts log' (acc ++ [(id, d)]).
Proof.
  intros Hacc Hid Hsize Hbelow Hd.
  destruct (identity_insert_Ok log acc id d Hacc Hid Hsize) as (log' & Hi & Hacc' & _); [|done|by exists log'].
  destruct Hacc as (_ & c & Hh). rewrite (lh_last _ _ _ _ Hh), fmap_last.
  destruct (last acc) as [x|] eqn:Hx; [|done]. cbn. rewrite Forall_forall in Hbelow.
  apply (Hbelow x). by apply last_Some_elem_of.
Qed.
Lemma log_accepts_sync log acc :
  log_accepts log acc → ∃ log', identity_sync log = (log', Ok ()) ∧ log_accepts log' acc.
Proof.
  intros (Hh & c & Hlog). destruct (identity_sync_cases log _ c [] Hlog) as (log' & r & c' & Hs & Hlog' & Hheal & _).
  destruct (Hheal Hh) as [? ->]. exists log'. split; [done|]. split; [done|by exists c'].
Qed.
Lemma log_accepts_lookup log acc id :
  log_accepts log acc → Forall (λ x, is_digest x.2 = true) acc →
  ∃ log', identity_lookup id log = (log', Ok ((list_to_map acc : gmap Z string) !! id)) ∧ log_accepts log' acc.
Proof.
  intros (Hh & c & Hlog) Hd. destruct (lookup_accepted _ _ _ _ id Hlog) as (f & H1 & H2 & H3 & H4).
  destruct (identity_lookup id log) as [log' r]; cbn [fst snd] in *. subst log'. exists (set_file f log).
  assert (canonical_digest <$> (list_to_map acc : gmap Z string) !! id = (list_to_map acc : gmap Z string) !! id) as E.
  { destruct (_ !! id) as [d|] eqn:E; [|done]. cbn. f_equal. apply canonical_digest_lower.
    apply elem_of_list_to_map_2 in E. rewrite Forall_forall in Hd. apply (Hd _ E). }
  rewrite E in H4. destruct r as [o|e|]; [subst o|done..]. split; [done|]. split; [by apply H3|].
  exists c. by apply log_holds_file.
Qed.

Lemma identity_log_created outcomes log :
  identity_log_create outcomes = Ok log →
  log_holds log [] 0 [] ∧ (Forall (eq IoOk) outcomes → healthy (il_file log)).
Proof.
  unfold identity_log_create.
  destruct (write_start_cases "sync trade identity header" (header_bytes 0) (mkFile [] outcomes))
    as (f & r & -> & Hheal & [(-> & Hf)|(e & n & -> & _)]); [|done].
  intros [= <-]. cbn [df_bytes] in Hf. rewrite drop_nil, app_nil_r in Hf. split; [|by apply Hheal].
  split; cbn; try done; constructor.
Qed.
(** A new log on a file without failures. *)
Definition new_identity_log : TradeIdentityLog := mkIdentityLog (mkFile (header_bytes 0) []) 0 None false.
Lemma new_identity_log_created : identity_log_create [] = Ok new_identity_log.
Proof. vm_compute. reflexivity. Qed.
Lemma created_accepts : log_accepts new_identity_log [].
Proof. destruct (identity_log_created [] _ new_identity_log_created) as [Hh Hheal]. split; [by apply Hheal|by exists 0]. Qed.

Lemma sorted_entries acc : StronglySorted below (entry <$> acc) → StronglySorted Z.lt acc.*1.
Proof.
  induction acc as [|x acc IH]; intros H; [constructor|].
  rewrite fmap_cons in H. apply StronglySorted_inv in H as [Hs Hx].
  constructor; [by apply IH|]. apply Forall_fmap. rewrite Forall_fmap in Hx. exact Hx.
Qed.

(** *** Histories of a log *)

Inductive identity_op := IdInsert (id : Z) (digest : string) | IdSync | IdLookup (id : Z).

(** The records end where the file does. *)
Definition aligned (log : TradeIdentityLog) : bool :=
  len (df_bytes (il_file log)) =? IDENTITY_LOG_HEADER_BYTES + IDENTITY_LOG_RECORD_BYTES * il_count log.

(** Any calls, refused and failed ones included: the identities that were accepted, and
    whether each was written behind the last record. *)
Fixpoint run_identity (ops : list identity_op) (log : TradeIdentityLog)
    (accepted : list (Z * string)) : TradeIdentityLog * list (Z * string) * bool :=
  match ops with
  | [] => (log, accepted, true)
  | IdInsert id digest :: ops =>
      match identity_insert id digest log with
      | (log', Ok _) => let '(l, a, intact) := run_identity ops log' (accepted ++ [(id, digest)]) in
                        (l, a, aligned log && intact)
      | (log', _) => run_identity ops log' accepted
      end
  | IdSync :: ops => run_identity ops (identity_sync log).1 accepted
  | IdLookup id :: ops => run_identity ops (identity_lookup id log).1 accepted
  end.
Definition identity_op_typed (op : identity_op) : Prop :=
  match op with IdInsert id _ => in_u64 id | _ => True end.

Lemma aligned_tail log rs c tail : log_holds log rs c tail → aligned log = true ↔ tail = [].
Proof.
  intros [Hf Hc _ _ Hok _ _]. unfold aligned, IDENTITY_LOG_HEADER_BYTES, IDENTITY_LOG_RECORD_BYTES.
  rewrite Hf, Hc, !len_app, len_identities by done. unfold len at 1. rewrite length_header, Z.eqb_eq.
  pose proof (len_nonneg tail). split; [|intros ->; change (len []) with 0; lia].
  intros E. destruct tail as [|x tail]; [done|]. rewrite len_cons in E. pose proof (len_nonneg tail). lia.
Qed.


Lemma lookup_keeps log rs c tail id :
  log_holds log rs c tail → log_holds (identity_lookup id log).1 rs c tail ∧
    (healthy (il_file log) → healthy (il_file (identity_lookup id log).1)).
Proof.
  intros Hlog. destruct (identity_lookup_exact _ _ _ _ id Hlog) as (f & -> & Hf & Hheal & _).
  split; [by apply log_holds_file|done].
Qed.

Lemma run_identity_after ops log acc c tail log' acc' intact :
  log_holds log (entry <$> acc) c tail → Forall identity_op_typed ops →
  32 + 40 * (len acc + len ops) ≤ u64_max → run_identity ops log acc = (log', acc', intact) → intact = true →
  ∃ c' tail', log_holds log' (entry <$> acc') c' tail'.
Proof.
  revert log acc c tail intact. induction ops as [|op ops IH]; intros log acc c tail intact Hh Hty Hsize;
    cbn [run_identity].
  { intros [= <- <- <-] _. by exists c, tail. }
  apply Forall_cons in Hty as [Hop Hty]. rewrite len_cons in Hsize. pose proof (len_nonneg ops).
  destruct op as [id d| |id].
  - destruct (identity_insert id d log) as [log1 r] eqn:Hi.
    destruct (identity_insert_cases _ _ _ _ _ _ _ _ Hh Hop ltac:(rewrite len_fmap; lia) Hi)
      as (_ & [(e & -> & ->)|[(e & n & -> & _ & _ & Hh')|(-> & _ & _ & _ & Hh')]]).
    + by apply (IH _ _ c tail); [..|lia].
    + by eapply IH; [..|lia].
    + destruct (run_identity ops log1 _) as [[l a] i] eqn:Hrun. intros [= <- <- <-] [Hal ->]%andb_true_iff.
      apply (aligned_tail _ _ _ _ Hh) in Hal. apply (IH log1 (acc ++ [(id, d)]) c [] true); try done.
      * rewrite fmap_app. by apply Hh'.
      * rewrite len_app. change (len [(id, d)]) with 1. lia.
  - destruct (identity_sync_cases log _ c tail Hh) as (log1 & r & c1 & -> & Hh1 & _). cbn [fst].
    by eapply IH; [..|lia].
  - by eapply IH; [apply lookup_keeps|..|lia].
Qed.

(** Without failures nothing is torn. *)
Lemma run_identity_accepts ops log acc log' acc' intact :
  log_accepts log acc → Forall identity_op_typed ops →
  32 + 40 * (len acc + len ops) ≤ u64_max →
  run_identity ops log acc = (log', acc', intact) → intact = true ∧ log_accepts log' acc'.
Proof.
  revert log acc intact. induction ops as [|op ops IH]; intros log acc intact Hacc Hty Hsize;
    cbn [run_identity].
  { by intros [= <- <- <-]. }
  apply Forall_cons in Hty as [Hop Hty]. rewrite len_cons in Hsize. pose proof (len_nonneg ops).
  pose proof Hacc as (Hheal & c & Hh). destruct op as [id d| |id].
  - destruct (identity_insert id d log) as [log1 r] eqn:Hi.
    destruct (identity_insert_cases _ _ _ _ _ _ _ _ Hh Hop ltac:(rewrite len_fmap; lia) Hi)
      as (Hheal1 & [(e & -> & ->)|[(e & n & _ & Hno & _)|(-> & _ & _ & _ & Hh')]]); [|done|].
    + by apply IH; [..|lia].
    + destruct (run_identity ops log1 _) as [[l a] i] eqn:Hrun. intros [= <- <- <-].
      rewrite (proj2 (aligned_tail _ _ _ _ Hh) eq_refl). cbn [andb]. apply (IH log1 (acc ++ [(id, d)])); try done.
      * split; [by apply Hheal1|]. exists c. rewrite fmap_app. by apply Hh'.
      * rewrite len_app. change (len [(id, d)]) with 1. lia.
  - destruct (log_accepts_sync log acc Hacc) as (log1 & -> & Hacc1). cbn [fst]. by apply IH; [..|lia].
  - destruct (lookup_keeps log _ c [] id Hh) as [Hh1 Hheal1].
    apply IH; [split; [by apply Hheal1|by exists c]|done|lia].
Qed.

(** Reopening a file that begins with these bytes, whatever follows them and whatever
    fails later: it is refused only by a failure, and answers as [acc]. *)
Definition reopens (file : bytes) (acc : list (Z * string)) : Prop := ∀ tail outcomes,
  match identity_log_open (mkFile (file ++ tail) outcomes) with
  | Ok log => il_count log = len acc ∧
      ∀ id, answers log id (canonical_digest <$> (list_to_map acc : gmap Z string) !! id)
  | Err _ => ¬ Forall (eq IoOk) outcomes
  | Panic => False
  end.

Lemma holds_reopens log acc c torn :
  log_holds log (entry <$> acc) c torn → reopens (df_bytes (il_file log)) (take (Z.to_nat c) acc).
Proof.
  intros [Hf _ _ Hs Hok Hsize [Hc _]] tail outcomes. rewrite len_fmap in Hc, Hsize.
  set (acc1 := take (Z.to_nat c) acc). set (acc2 := drop (Z.to_nat c) acc).
  assert (acc = acc1 ++ acc2) as E by (symmetry; apply take_drop). rewrite E, fmap_app in Hs, Hok.
  assert (len acc1 = c) as Hlen by (unfold len, acc1 in *; rewrite length_take; lia).
  apply StronglySorted_app_1_l in Hs. apply Forall_app in Hok as [Hok _].
  pose proof (identity_open_exact (entry <$> acc1) (concat (identity_bytes <$> (entry <$> acc2)) ++ torn ++ tail)
    (mkFile (df_bytes (il_file log) ++ tail) outcomes) Hs Hok) as Hopen.
  rewrite !len_fmap, Hlen in Hopen. specialize (Hopen ltac:(lia)).
  destruct (identity_log_open _) as [log'|e|].
  - destruct Hopen as [Hh _].
    { cbn [df_bytes]. by rewrite Hf, E, !fmap_app, concat_app, <-!app_assoc. }
    split; [by rewrite (lh_count _ _ _ _ Hh), len_fmap|]. intros id. by eapply lookup_accepted.
  - apply Hopen. cbn [df_bytes]. by rewrite Hf, E, !fmap_app, concat_app, <-!app_assoc.
  - apply Hopen. cbn [df_bytes]. by rewrite Hf, E, !fmap_app, concat_app, <-!app_assoc.
Qed.

(** C32: the identity log answers exactly, also when its file fails. Take any inserts, syncs
    and lookups on a new log, with any failures of the calls on its file, partial
    writes included. When no failure happens, and as long as no identity is accepted
    behind the torn bytes of a failed insert, the accepted IDs increase, and a lookup of
    any ID either fails because of the file or finds the digest the ID was accepted
    with, or nothing when it was not. A sync succeeds unless the file fails, and after
    one that succeeds the file reopens as the same log, whatever a crash leaves behind
    the committed records. At any other moment, failed syncs included, it reopens as a
    log of some of the first accepted identities. *)
Theorem identity_log_exact outcomes ops log0 log acc intact :
  identity_log_create outcomes = Ok log0 → Forall identity_op_typed ops → 32 + 40 * len ops ≤ u64_max →
  run_identity ops log0 [] = (log, acc, intact) →
  (Forall (eq IoOk) outcomes → intact = true) ∧
  (intact = true →
   StronglySorted Z.lt acc.*1 ∧
   (∀ id, answers log id (canonical_digest <$> (list_to_map acc : gmap Z string) !! id)) ∧
   (∀ log' r, identity_sync log = (log', r) →
      (r = Ok () ∧ reopens (df_bytes (il_file log')) acc) ∨ (¬ healthy (il_file log) ∧ ∃ e, r = Err e)) ∧
   ∃ n, reopens (df_bytes (il_file log)) (take n acc)).
Proof.
  intros Hcreate Hty Hsize Hrun. destruct (identity_log_created _ _ Hcreate) as [Hh0 Hheal0]. split.
  - intros Hout. eapply (run_identity_accepts ops log0 []); [|done|change (len []) with 0; lia|exact Hrun].
    split; [by apply Hheal0|by exists 0].
  - intros ->. destruct (run_identity_after ops log0 [] 0 [] log acc true) as (c & tail & Hh); try done.
    split; [by apply sorted_entries; eapply lh_sorted|].
    split; [intros id; by eapply lookup_accepted|]. split; [|eexists; by eapply holds_reopens].
    intros log' r. destruct (identity_sync_cases log _ c tail Hh) as (l1 & r1 & c1 & -> & Hh1 & Hheal & Hr).
    intros [= <- <-]. destruct r1 as [[]|e|]; [left|right|done].
    + split; [done|]. rewrite <-(take_ge acc (Z.to_nat c1)); [by eapply holds_reopens|].
      rewrite Hr, len_fmap. unfold len. lia.
    + split; [intros Hh'; by destruct (Hheal Hh')|by eexists].
Qed.

(** *** Rebuilding *)
Section rebuild_theory.
Context `{Hval : SerdeValue} `{Hget : !SerdeGet} `{Hser : Serde LiveArbitrationJournalEnvelopeV1}.

(** The complete lines of a journal, and the identities they publish. *)
Fixpoint complete_lines (fuel : nat) (input : bytes) : list bytes :=
  match fuel with
  | O => []
  | S fuel => match split_line input with
              | None => []
              | Some (line, rest) => line :: complete_lines fuel rest
              end
  end.
Definition line_identity (line : bytes) : res (option (Z * string)) :=
  match line with
  | [] => Ok None
  | _ => envelope ← map_err "invalid arbitration journal JSON: " (from_slice line);
         trade_identity envelope
  end.
Fixpoint somes {A} (l : list (option A)) : list A :=
  match l with [] => [] | Some x :: l => x :: somes l | None :: l => somes l end.
Definition journal_identities (journal : bytes) : res (list (Z * string)) :=
  l ← try_map line_identity (complete_lines (S (length journal)) journal);
  Ok (somes l).

Lemma newer_rest o x ids :
  (∀ last, o = Some last → last ≤ x.1) → StronglySorted Z.lt (x :: ids).*1 →
  filter (newer o) ids = ids.
Proof.
  intros Ho H. rewrite fmap_cons in H. apply StronglySorted_inv in H as [_ H].
  rewrite Forall_fmap in H. induction H as [|y ids Hy _ IH]; [done|].
  rewrite filter_cons_True, IH; [done|].
  destruct o as [last|]; [|done]. specialize (Ho last eq_refl). cbn in *. lia.
Qed.

Lemma rebuild_loop_exact fuel input l log acc rebuilt :
  try_map line_identity (complete_lines fuel input) = Ok l → (length input < fuel)%nat →
  log_accepts log acc → StronglySorted Z.lt (somes l).*1 →
  Forall (λ x, in_u64 x.1 ∧ is_digest x.2 = true) (somes l) →
  32 + 40 * (len acc + len (somes l)) ≤ u64_max → 0 ≤ rebuilt →
  rebuilt + len (somes l) ≤ u64_max →
  ∃ log', rebuild_loop fuel input rebuilt log
      = (log', Ok (rebuilt + len (filter (newer (il_last_id log)) (somes l)))) ∧
    log_accepts log' (acc ++ filter (newer (il_last_id log)) (somes l)).
Proof.
  revert input l log acc rebuilt.
  induction fuel as [|fuel IH]; intros input l log acc rebuilt Hl Hf Hacc Hs Hok Hsize Hr Hmax; [lia|].
  cbn [complete_lines rebuild_loop] in *.
  destruct (split_line input) as [[line rest]|] eqn:Hline.
  2: { injection Hl as <-. exists log. cbn. rewrite app_nil_r, Z.add_0_r. done. }
  pose proof (split_line_inv _ _ _ Hline) as ->. rewrite length_app in Hf. cbn [length] in Hf.
  cbn [try_map] in Hl. apply res_bind_Ok in Hl as (o & Ho & Hl).
  apply res_bind_Ok in Hl as (l' & Hl' & Hl). injection Hl as <-.
  assert (o = None → ∃ log', rebuild_loop fuel rest rebuilt log
      = (log', Ok (rebuilt + len (filter (newer (il_last_id log)) (somes (o :: l'))))) ∧
    log_accepts log' (acc ++ filter (newer (il_last_id log)) (somes (o :: l')))) as Hskip.
  { intros ->. cbn [somes] in *. apply IH; (done || lia). }
  destruct line as [|b line]; [injection Ho as <-; by apply Hskip|].
  unfold line_identity in Ho. apply res_bind_Ok in Ho as (env & Henv & Hid).
  unfold mbind, SE_bind, lift, get. rewrite Henv, Hid.
  destruct o as [[x d]|]; [clear Hskip|by apply Hskip].
  change (somes (Some (x, d) :: l')) with ((x, d) :: somes l') in *.
  rewrite len_cons in Hsize, Hmax. apply Forall_cons in Hok as [[Hx Hd] Hok].
  pose proof (len_nonneg (somes l')). cbn [fst snd] in Hx, Hd.
  pose proof Hs as Hs'. rewrite fmap_cons in Hs'. apply StronglySorted_inv in Hs' as [Hs' _].
  destruct (match il_last_id log with Some _ => _ | None => _ end) eqn:Hnew.
  - assert (newer (il_last_id log) (x, d)) as Hnewer by (destruct (il_last_id log); cbn; [lia|done]).
    destruct (identity_insert_Ok log acc x d Hacc Hx ltac:(lia) Hnewer Hd) as (log1 & -> & Hacc1 & Hl1).
    destruct (add_u64_cases rebuilt 1) as [[-> _]|[_ ?]]; [|lia].
    destruct (IH rest l' log1 (acc ++ [(x, d)]) (rebuilt + 1)) as (log' & Hrun & Hacc');
      [done|lia|done|done|done|rewrite len_app; change (len [(x, d)]) with 1; lia|lia|lia|].
    rewrite Hl1, (newer_rest _ (x, d)) in Hrun, Hacc' by (done || by intros ? [= <-]).
    exists log'. rewrite filter_cons_True by done.
    rewrite (newer_rest _ (x, d)); [|intros last E; rewrite E in Hnewer; cbn in *; lia|done].
    rewrite len_cons, <-app_assoc in *. split; [|done]. rewrite Hrun. do 2 f_equal. lia.
  - rewrite filter_cons_False by (destruct (il_last_id log); cbn; [lia|done]).
    apply IH; (done || lia).
Qed.

Lemma newer_split log old new c :
  log_holds log (entry <$> old) c [] → StronglySorted Z.lt (old ++ new).*1 →
  filter (newer (il_last_id log)) (old ++ new) = new.
Proof.
  intros [_ _ Hlast _ _ _ _] Hs. destruct old as [|x old _] using rev_ind.
  { cbn in *. rewrite Hlast. by induction new as [|y new IH]; [|rewrite filter_cons_True, IH
      by (done || by apply StronglySorted_inv in Hs as [??])]. }
  rewrite fmap_app in Hlast. change (entry <$> [x]) with [entry x] in Hlast.
  rewrite last_snoc in Hlast. cbn in Hlast. rewrite Hlast. clear Hlast.
  assert (Forall (λ y, y.1 ≤ x.1) (old ++ [x])) as Hold.
  { clear -Hs. rewrite fmap_app, fmap_app, <-app_assoc in Hs. induction old as [|y old IH]; cbn in *.
    - by repeat constructor.
    - apply StronglySorted_inv in Hs as [Hs Hy]. constructor; [|by apply IH].
      apply Forall_app in Hy as [_ Hy]. apply Forall_inv in Hy. lia. }
  rewrite filter_app. replace (filter (newer (Some x.1)) (old ++ [x])) with (@nil (Z * string)).
  - apply (newer_rest _ x); [by intros ? [= <-]|]. rewrite <-app_assoc in Hs. clear Hold.
    induction old as [|y old IH]; [done|]. apply IH. by apply StronglySorted_inv in Hs as [??].
  - clear Hs. symmetry. induction Hold as [|y l Hy _ IH]; [done|]. rewrite filter_cons_False by (cbn in *; lia). exact IH.
Qed.

(** The journal restores what the identity log lost. Take a journal whose
    complete lines publish the trades [old ++ new] in increasing order, and a log
    that holds exactly [old] with no torn bytes behind it, in a file that does not
    fail. The rebuild succeeds and
    adds exactly [new]; afterwards, and after reopening the file, every trade of the
    journal is found with its digest and nothing else is. *)
Theorem rebuild_restores_identities journal old new log :
  journal_identities journal = Ok (old ++ new) → log_accepts log old →
  StronglySorted Z.lt (old ++ new).*1 →
  Forall (λ x, in_u64 x.1 ∧ is_digest x.2 = true) (old ++ new) →
  32 + 40 * (2 * len (old ++ new)) ≤ u64_max →
  ∃ log' log'', rebuild_trade_identity_from_journal journal log = (log', Ok (len new)) ∧
    identity_log_open (mkFile (df_bytes (il_file log')) []) = Ok log'' ∧
    ∀ id, (identity_lookup id log').2 = Ok ((list_to_map (old ++ new) : gmap Z string) !! id) ∧
      (identity_lookup id log'').2 = Ok ((list_to_map (old ++ new) : gmap Z string) !! id).
Proof.
  intros Hj Hacc Hs Hok Hsize. unfold journal_identities in Hj.
  apply res_bind_Ok in Hj as (l & Hl & [= Hj]).
  pose proof (len_nonneg old). pose proof (len_nonneg new). rewrite len_app in Hsize.
  destruct (rebuild_loop_exact _ _ l log old 0 Hl ltac:(lia) Hacc) as (log1 & Hrun & Hacc1);
    rewrite ?Hj, ?len_app; try done; [lia|lia|].
  pose proof Hacc as (_ & c0 & Hh0). rewrite Hj, (newer_split _ _ _ _ Hh0 Hs) in Hrun, Hacc1.
  destruct Hacc1 as (Hheal1 & c1 & Hh1).
  destruct (identity_sync_cases log1 _ c1 [] Hh1) as (log' & r & c & Hsync & Hh' & Hheal & Hc).
  destruct (Hheal Hheal1) as [Hheal' ->]. subst c. pose proof Hh' as [Hfile _ _ Hs' Hok' Hfit _].
  pose proof (identity_open_exact _ [] (mkFile (df_bytes (il_file log')) []) Hs' Hok' Hfit Hfile) as Hopen.
  destruct (identity_log_open (mkFile (df_bytes (il_file log')) [])) as [log''|e|] eqn:Hop; [|by destruct Hopen; constructor|done].
  destruct Hopen as [Hh'' Hheal'']. exists log', log''. split; [|split; [exact Hop|]].
  - unfold rebuild_trade_identity_from_journal. unfold mbind, SE_bind. by rewrite Hrun, Hsync.
  - intros id. assert (Forall (λ x, is_digest x.2 = true) (old ++ new)) as Hdig
      by (eapply Forall_impl; [exact Hok|]; by intros ? []).
    destruct (log_accepts_lookup log' (old ++ new) id) as (? & -> & _); [split; [exact Hheal'|by exists (len (entry <$> old ++ new))]|done|].
    destruct (log_accepts_lookup log'' (old ++ new) id) as (? & -> & _); [|done|done].
    split; [by apply Hheal''; constructor|by exists (len (entry <$> old ++ new))].
Qed.
End rebuild_theory.

(** ** Demonstrations *)

Module IdentityDemo.
Local Open Scope string_scope.
Definition digest_a : string := hex (replicate 32 x0a).
Definition digest_b : string := hex (replicate 32 x0b).
(** The first sync fails in the middle of the header, the second lookup fails, and so does
    the last insert, behind three bytes. *)
Definition demo_outcomes : list io := [IoOk; IoOk; IoOk; IoOk; IoFail 13; IoFail 0; IoOk; IoOk; IoFail 3].
Definition demo_ops : list identity_op :=
  [IdInsert 7 digest_a; IdInsert 5 digest_b; IdLookup 7; IdSync; IdLookup 7; IdSync; IdInsert 9 digest_b;
   IdInsert 11 "zz"; IdInsert 12 digest_a].
Definition demo_start : TradeIdentityLog :=
  match identity_log_create demo_outcomes with Ok log => log | _ => new_identity_log end.
Definition demo_log : TradeIdentityLog := (run_identity demo_ops demo_start []).1.1.
Lemma demo_created : identity_log_create demo_outcomes = Ok demo_start.
Proof. vm_compute. reflexivity. Qed.
Lemma demo_ops_run : run_identity demo_ops demo_start [] = (demo_log, [(7, digest_a); (9, digest_b)]%Z, true).
Proof. vm_compute. reflexivity. Qed.
Lemma identity_demo_typed : Forall identity_op_typed demo_ops.
Proof. unfold demo_ops, identity_op_typed, in_u64, u64_max. repeat constructor; lia. Qed.

(** A journal of two lines, each the index of an observation in a table. *)
#[local] Instance demo_value : SerdeValue := {|
  Value := Z * string;
  value_from_slice _ := inl "unused";
  value_index v f := v;
  as_str v := Some v.2; as_u64 v := Some v.1; as_i64 _ := None; as_bool _ := None; as_array _ := None
|}.
#[local] Instance demo_get : SerdeGet := λ v f,
  Some (if String.eqb f "trade_id" then v
        else if String.eqb f "event" then (0%Z, "TRADE_OBSERVATION") else (0%Z, v.2)).
Definition envelope_of (id : Z) (digest : string) : LiveArbitrationJournalEnvelopeV1 :=
  mkArbitrationEnvelope
    (mkArbitrationBody "LiveArbitrationJournalRecordV1" 0 0 0 "LIVE" (id, digest) ZERO_DIGEST) "".
#[local] Instance demo_serde : Serde LiveArbitrationJournalEnvelopeV1 := {|
  to_vec _ := inl "unused";
  from_slice b := match b with
                  | [x61] => inr (envelope_of 7 digest_a)
                  | [x62] => inr (envelope_of 9 digest_b)
                  | _ => inl "syntax"
                  end
|}.
Definition demo_journal : bytes := [x61; x0a; x0a; x62; x0a; x61].
Definition first_only : TradeIdentityLog := (run_identity [IdInsert 7 digest_a] new_identity_log []).1.1.
Lemma first_only_accepts : log_accepts first_only [(7%Z, digest_a)].
Proof.
  apply (run_identity_accepts [IdInsert 7 digest_a] new_identity_log [] _ _ true created_accepts);
    [repeat constructor; done|done|vm_compute; reflexivity].
Qed.

Lemma rebuild_restores_identities_witness :
  ∃ log' log'', rebuild_trade_identity_from_journal demo_journal first_only = (log', Ok 1%Z) ∧
    identity_log_open (mkFile (df_bytes (il_file log')) []) = Ok log'' ∧
    ∀ id, (identity_lookup id log').2
          = Ok ((list_to_map [(7, digest_a); (9, digest_b)]%Z : gmap Z string) !! id) ∧
      (identity_lookup id log'').2
          = Ok ((list_to_map [(7, digest_a); (9, digest_b)]%Z : gmap Z string) !! id).
Proof.
  apply (rebuild_restores_identities demo_journal [(7%Z, digest_a)] [(9%Z, digest_b)] first_only);
    [vm_compute; reflexivity|exact first_only_accepts| | |vm_compute; discriminate].
  - repeat constructor; lia.
  - unfold in_u64. apply (bool_decide_unpack _). vm_compute. exact I.
Defined.
End IdentityDemo.
Import IdentityDemo.

Lemma identity_log_exact_witness :
  aligned demo_log = false ∧ StronglySorted Z.lt [7; 9] ∧
  (∀ id, answers demo_log id (canonical_digest <$>
     (list_to_map [(7, digest_a); (9, digest_b)] : gmap Z string) !! id)) ∧
  ∃ log', identity_sync demo_log = (log', Ok ()) ∧
    reopens (df_bytes (il_file log')) [(7, digest_a); (9, digest_b)].
Proof.
  destruct (identity_log_exact demo_outcomes demo_ops demo_start demo_log [(7, digest_a); (9, digest_b)] true
    demo_created identity_demo_typed ltac:(vm_compute; discriminate) demo_ops_run) as (_ & H).
  destruct (H eq_refl) as (H1 & H2 & H3 & _).
  split; [vm_compute; reflexivity|]. split; [exact H1|]. split; [exact H2|].
  destruct (identity_sync demo_log) as [log' r] eqn:E. exists log'.
  destruct (H3 log' r eq_refl) as [[-> H4]|[Hno _]]; [split; [reflexivity|exact H4]|].
  destruct Hno. unfold healthy. replace (df_outcomes (il_file demo_log)) with (@nil io) by (vm_compute; reflexivity).
  constructor.
Defined.

(** A torn record behind the committed ones is not ignored: opening accepts the
    file, the next insert is written behind the torn bytes and counted as the
    record in front of it, and its lookup fails. *)
Lemma torn_tail_corrupts_next_insert :
  let file := df_bytes (il_file (identity_sync first_only).1) ++ [x01; x02; x03] in
  ∃ log, identity_log_open (mkFile file []) = Ok log ∧
    let log' := (identity_insert 9 digest_b log).1 in
    (identity_insert 9 digest_b log).2 = Ok () ∧ il_last_id log' = Some 9 ∧
    (identity_lookup 9 log').2 = Ok None.
Proof. eexists. split; [vm_compute; reflexivity|]. split_and!; vm_compute; reflexivity. Qed.

(** The torn bytes need not be from an earlier run: an insert whose write fails in part
    leaves them, and when the caller goes on the next accepted ID is not found. *)
Lemma torn_insert_corrupts_lookups :
  let log1 := identity_insert 7 digest_a (mkIdentityLog (mkFile (header_bytes 0) [IoFail 3]) 0 None false) in
  let log2 := identity_insert 9 digest_b log1.1 in
  log1.2 = Err "write trade identity record: I/O error" ∧ log2.2 = Ok () ∧ il_last_id log2.1 = Some 9 ∧
  (identity_lookup 9 log2.1).2 = Ok None.
Proof. cbv zeta. split_and!; vm_compute; reflexivity. Qed.

(** Neither need they be torn: a record that was written but not committed before a crash
    stays between the committed ones and those that are inserted after reopening, and the
    second of these is not found. *)
Lemma uncommitted_record_hides_next :
  let file := df_bytes (il_file (identity_insert 8 digest_a (identity_sync first_only).1).1) in
  ∃ log, identity_log_open (mkFile file []) = Ok log ∧ il_count log = 1 ∧
    let log' := (identity_insert 9 digest_b (identity_insert 8 digest_a log).1).1 in
    il_count log' = 3 ∧ il_last_id log' = Some 9 ∧ (identity_lookup 9 log').2 = Ok None.
Proof. eexists. split; [vm_compute; reflexivity|]. cbv zeta. split_and!; vm_compute; reflexivity. Qed.
