(* ===== verification/TradeUnion.v ===== *)
(** * Arbitration of the two capture lanes (live_arbitration.rs)

    The trade union buffers the trades of both lanes until every live lane has
    passed them and publishes them in increasing order of their IDs, each once;
    what arrives behind the published position is classified against the
    identity of what was published. Calls on the identity log may fail; the state
    such a call leaves is part of the model. The depth functions decide whether an
    observation continues the canonical sequence and whether a lane may be
    switched. The journal of the arbiter is elsewhere. *)

From stdpp Require Import base list strings option numbers gmap sorting.
From Stdlib Require Import ZArith Lia Sorting.Sorted.
From S2P Require Import Prelude Boundary HotRedundancy IdentityLog.
Local Open Scope Z_scope.

(** ** Ordered maps

    A [BTreeMap] with [u64] keys is the list of its entries in key order. *)
Section btree.
Context {A : Type}.
Fixpoint bt_get (k : Z) (m : list (Z * A)) : option A :=
  match m with
  | [] => None
  | (k', v) :: m => if k =? k' then Some v else bt_get k m
  end.
Fixpoint bt_insert (k : Z) (v : A) (m : list (Z * A)) : list (Z * A) :=
  match m with
  | [] => [(k, v)]
  | (k', v') :: m' =>
      if k <? k' then (k, v) :: m
      else if k =? k' then (k, v) :: m'
      else (k', v') :: bt_insert k v m'
  end.
End btree.

(** A [BTreeMap] keyed by the lane. *)
Record lane_map (A : Type) := mkLaneMap { lm_primary : option A; lm_shadow : option A }.
Arguments mkLaneMap {A}. Arguments lm_primary {A}. Arguments lm_shadow {A}.
Definition lane_get {A} (l : CaptureLane) (m : lane_map A) : option A :=
  match l with Primary => lm_primary m | Shadow => lm_shadow m end.
Definition lane_set {A} (l : CaptureLane) (o : option A) (m : lane_map A) : lane_map A :=
  match l with
  | Primary => mkLaneMap o (lm_shadow m)
  | Shadow => mkLaneMap (lm_primary m) o
  end.

(** ** Data *)

Inductive LateCorrectionKind := Duplicate | Unknown.
#[global] Instance late_kind_eq_decision : EqDecision LateCorrectionKind.
Proof. solve_decision. Defined.

Inductive TradeUnionDisposition :=
  | Publishable (batch : list (CaptureLane * CanonicalObservationV1))
  | Buffered
  | Late (observation : CanonicalObservationV1) (kind : LateCorrectionKind)
  | Conflict (trade_id : Z) (first_digest second_digest : string).

Record TradeUnionEntry := mkUnionEntry {
  ue_observation : CanonicalObservationV1; ue_lineages : list (CaptureLane * string)
}.

Definition PUBLISHED_CAP : Z := 65536.

Record TradeUnionState := mkUnion {
  tu_buffer : list (Z * TradeUnionEntry); tu_lane_next : lane_map Z;
  tu_last_published_id : option Z; tu_consumed_floor : option Z;
  tu_published : list (Z * string); tu_corrected : gmap Z string;
  tu_durable : option TradeIdentityLog; tu_emission_clamps : lane_map Z
}.

Definition union_new : TradeUnionState :=
  mkUnion [] (mkLaneMap None None) None None [] ∅ None (mkLaneMap None None).

Definition set_buffer (b : list (Z * TradeUnionEntry)) (s : TradeUnionState) : TradeUnionState :=
  mkUnion b (tu_lane_next s) (tu_last_published_id s) (tu_consumed_floor s) (tu_published s)
    (tu_corrected s) (tu_durable s) (tu_emission_clamps s).
Definition set_lane_next (m : lane_map Z) (s : TradeUnionState) : TradeUnionState :=
  mkUnion (tu_buffer s) m (tu_last_published_id s) (tu_consumed_floor s) (tu_published s)
    (tu_corrected s) (tu_durable s) (tu_emission_clamps s).
Definition set_published (last : option Z) (p : list (Z * string)) (s : TradeUnionState)
    : TradeUnionState :=
  mkUnion (tu_buffer s) (tu_lane_next s) last (tu_consumed_floor s) p (tu_corrected s)
    (tu_durable s) (tu_emission_clamps s).
Definition set_floor (floor : option Z) (s : TradeUnionState) : TradeUnionState :=
  mkUnion (tu_buffer s) (tu_lane_next s) (tu_last_published_id s) floor (tu_published s)
    (tu_corrected s) (tu_durable s) (tu_emission_clamps s).
Definition set_corrected (c : gmap Z string) (s : TradeUnionState) : TradeUnionState :=
  mkUnion (tu_buffer s) (tu_lane_next s) (tu_last_published_id s) (tu_consumed_floor s)
    (tu_published s) c (tu_durable s) (tu_emission_clamps s).
Definition set_durable (d : option TradeIdentityLog) (s : TradeUnionState) : TradeUnionState :=
  mkUnion (tu_buffer s) (tu_lane_next s) (tu_last_published_id s) (tu_consumed_floor s)
    (tu_published s) (tu_corrected s) d (tu_emission_clamps s).
Definition set_clamps (m : lane_map Z) (s : TradeUnionState) : TradeUnionState :=
  mkUnion (tu_buffer s) (tu_lane_next s) (tu_last_published_id s) (tu_consumed_floor s)
    (tu_published s) (tu_corrected s) (tu_durable s) m.

(** ** Operations of the union *)

Definition set_identity_log (log : TradeIdentityLog) : TradeUnionState → TradeUnionState :=
  set_durable (Some log).
Definition take_identity_log (s : TradeUnionState) : TradeUnionState * option TradeIdentityLog :=
  (set_durable None s, tu_durable s).
Definition restore_startup_floor (floor : Z) : TradeUnionState → TradeUnionState :=
  set_floor (Some floor).
Definition restore_corrected_identity (id : Z) (digest : string) : SE TradeUnionState unit :=
  s ← get;
  lift (reject (match tu_corrected s !! id with
                | Some previous => negb (String.eqb previous digest)
                | None => false end) "corrected trade identity conflicts on recovery");;
  put (set_corrected (<[id := digest]> (tu_corrected s)) s).

Definition some_min (a b : option Z) : option Z :=
  match a, b with
  | Some a, Some b => Some (Z.min a b) | Some a, None => Some a | None, b => b
  end.
Definition watermark (s : TradeUnionState) : option Z :=
  some_min (lm_primary (tu_lane_next s)) (lm_shadow (tu_lane_next s)).
Definition set_emission_clamp (lane : CaptureLane) (bound : Z) (s : TradeUnionState)
    : TradeUnionState :=
  set_clamps (lane_set lane (Some bound) (tu_emission_clamps s)) s.
Definition clear_emission_clamp (lane : CaptureLane) (s : TradeUnionState) : TradeUnionState :=
  set_clamps (lane_set lane None (tu_emission_clamps s)) s.

(** The bound of one lane: its position, below its clamp. *)
Definition lane_bound (lane : CaptureLane) (s : TradeUnionState) : option Z :=
  next ← lane_get lane (tu_lane_next s);
  Some (match lane_get lane (tu_emission_clamps s) with
        | Some clamp => Z.min next clamp
        | None => next
        end).
Definition emission_watermark (s : TradeUnionState) : option Z :=
  some_min (lane_bound Primary s) (lane_bound Shadow s).

Definition register_lane (lane : CaptureLane) (s : TradeUnionState) : TradeUnionState :=
  match lane_get lane (tu_lane_next s) with
  | Some _ => s
  | None => set_lane_next (lane_set lane (Some 0) (tu_lane_next s)) s
  end.
Definition exclude_lane (lane : CaptureLane) (s : TradeUnionState) : TradeUnionState :=
  set_lane_next (lane_set lane None (tu_lane_next s)) s.

(** The validation at the start of [fast_forward] and [observe]. *)
Definition trade_id (o : CanonicalObservationV1) : res Z :=
  _ ← reject (negb (bool_decide (co_stream_kind o = Trade)))
        "trade union received a non-trade observation";
  _ ← reject (negb (co_first_sequence o =? co_final_sequence o))
        "trade observation carries a range instead of one exact trade ID";
  Ok (co_final_sequence o).

Definition advance_lane (lane : CaptureLane) (id : Z) (s : TradeUnionState) : TradeUnionState :=
  let next := saturating_add id 1 in
  if match lane_get lane (tu_lane_next s) with Some current => current <? next | None => true end
  then set_lane_next (lane_set lane (Some next) (tu_lane_next s)) s else s.

Definition fast_forward (lane : CaptureLane) (o : CanonicalObservationV1)
    : SE TradeUnionState unit :=
  id ← lift (trade_id o);
  modify (advance_lane lane id);;
  modify (λ s, if match tu_consumed_floor s with Some floor => floor <? id | None => true end
               then set_floor (Some id) s else s).

Fixpoint evict (m : list (Z * string)) : list (Z * string) :=
  match m with
  | [] => []
  | _ :: rest => if PUBLISHED_CAP <? len m then evict rest else m
  end.

Definition restore_published_identity (id : Z) (digest : string) (s : TradeUnionState)
    : TradeUnionState :=
  set_published (tu_last_published_id s) (evict (bt_insert id digest (tu_published s))) s.
Definition restore_published_floor (floor : Z) : SE TradeUnionState unit :=
  s ← get;
  lift (reject (match tu_last_published_id s with Some last => floor <? last | None => false end)
          "trade union published floor regressed");;
  put (set_published (Some floor) (tu_published s) s).

(** [log.insert] through the option that holds the log. *)
Definition durable_insert (id : Z) (digest : string) : SE TradeUnionState bool :=
  s ← get;
  match tu_durable s with
  | None => mret false
  | Some log =>
      let '(log, r) := identity_insert id digest log in
      put (set_durable (Some log) s);;
      lift r;;
      mret true
  end.
Definition durable_sync : SE TradeUnionState unit :=
  s ← get;
  log ← lift (expect (tu_durable s));
  let '(log, r) := identity_sync log in
  put (set_durable (Some log) s);;
  lift r.

Definition durable_lookup (id : Z) : SE TradeUnionState (option string) :=
  s ← get;
  match tu_durable s with
  | None => mret None
  | Some log =>
      let '(log, r) := identity_lookup id log in
      put (set_durable (Some log) s);;
      lift r
  end.

(** The loop of [drain] over the entries in front of the watermark. *)
Fixpoint drain_loop (watermark : Z) (buffer : list (Z * TradeUnionEntry))
    (batch : list (CaptureLane * CanonicalObservationV1)) (inserted_identity : bool)
    : SE TradeUnionState (list (CaptureLane * CanonicalObservationV1) * bool) :=
  match buffer with
  | [] => mret (batch, inserted_identity)
  | (id, entry) :: rest =>
      if watermark <=? id then mret (batch, inserted_identity) else
      modify (set_buffer rest);;
      s ← get;
      lift (reject (match tu_last_published_id s with Some last => id <=? last | None => false end)
              "trade union emission order regressed");;
      let digest := co_observation_sha256 (ue_observation entry) in
      put (set_published (Some id) (bt_insert id digest (tu_published s)) s);;
      inserted ← durable_insert id digest;
      modify (λ s, set_published (tu_last_published_id s) (evict (tu_published s)) s);;
      let lane := match ue_lineages entry with (lane, _) :: _ => lane | [] => Primary end in
      drain_loop watermark rest (batch ++ [(lane, ue_observation entry)])
        (inserted_identity || inserted)
  end.
Definition drain : SE TradeUnionState TradeUnionDisposition :=
  s ← get;
  match emission_watermark s, lm_primary (tu_lane_next s), lm_shadow (tu_lane_next s) with
  | None, Some _, _ | None, _, Some _ => mret Buffered
  | w, _, _ =>
      '(batch, inserted_identity) ← drain_loop (default u64_max w) (tu_buffer s) [] false;
      (if inserted_identity : bool then durable_sync else mret ());;
      mret (match batch with [] => Buffered | _ => Publishable batch end)
  end.
Definition flush_union : SE TradeUnionState TradeUnionDisposition := drain.

(** The answer for an ID at or below the published position. *)
Definition classify_late (id : Z) (o : CanonicalObservationV1)
    : SE TradeUnionState TradeUnionDisposition :=
  s ← get;
  let digest := co_observation_sha256 o in
  let compare (known : string) :=
    if String.eqb known digest then Late o Duplicate else Conflict id known digest in
  match tu_corrected s !! id with
  | Some known => mret (compare known)
  | None =>
      durable_digest ← durable_lookup id;
      match bt_get id (tu_published s) with
      | Some known => mret (compare known)
      | None =>
          match durable_digest with
          | Some known => mret (compare known)
          | None =>
              modify (λ s, set_corrected (<[id := digest]> (tu_corrected s)) s);;
              mret (Late o Unknown)
          end
      end
  end.

Definition union_observe (lane : CaptureLane) (o : CanonicalObservationV1)
    : SE TradeUnionState TradeUnionDisposition :=
  id ← lift (trade_id o);
  s ← get;
  if match tu_consumed_floor s with Some floor => id <=? floor | None => false end
  then mret Buffered else
  if match tu_last_published_id s with Some last => id <=? last | None => false end
  then classify_late id o else
  let lineage := (lane, co_record_sha256 o) in
  match bt_get id (tu_buffer s) with
  | None =>
      put (set_buffer (bt_insert id (mkUnionEntry o [lineage]) (tu_buffer s)) s);;
      modify (advance_lane lane id);;
      drain
  | Some entry =>
      let known := co_observation_sha256 (ue_observation entry) in
      if negb (String.eqb known (co_observation_sha256 o))
      then mret (Conflict id known (co_observation_sha256 o)) else
      put (set_buffer (bt_insert id (mkUnionEntry (ue_observation entry)
                                       (ue_lineages entry ++ [lineage])) (tu_buffer s)) s);;
      modify (advance_lane lane id);;
      drain
  end.

(** ** Depth *)

Inductive DepthFrontierDisposition :=
  | Contiguous
  | FrontierMissing (expected first : Z)
  | Straddle (expected first final_sequence : Z)
  | Covered (expected final_sequence : Z).
Definition classify_depth_frontier (expected : option Z) (first final_sequence : Z)
    : res DepthFrontierDisposition :=
  _ ← reject ((first =? 0) || (final_sequence <? first))
        "depth observation carries an invalid update-ID range";
  match expected with
  | None => Ok (Straddle 0 first final_sequence)
  | Some expected =>
      Ok (if first =? expected then Contiguous
          else if expected <? first then FrontierMissing expected first
          else if expected <=? final_sequence then Straddle expected first final_sequence
          else Covered expected final_sequence)
  end.

Fixpoint trim_pending_depth (canonical_final : Z) (pending : list CanonicalObservationV1)
    : list CanonicalObservationV1 :=
  match pending with
  | o :: rest => if co_final_sequence o <=? canonical_final
                 then trim_pending_depth canonical_final rest else pending
  | [] => []
  end.

Inductive DepthWindowCoverage := Covers | Behind | Missing.
Definition evaluate_depth_window_coverage (canonical_next_expected sibling_first sibling_final : Z)
    : res DepthWindowCoverage :=
  _ ← reject ((sibling_first =? 0) || (sibling_final <? sibling_first) || (sibling_final =? 0))
        "sibling depth window carries an invalid update-ID range";
  _ ← reject (canonical_next_expected =? 0)
        "canonical next-expected update ID is not initialized";
  Ok (if sibling_final <? canonical_next_expected then Behind
      else if canonical_next_expected <? sibling_first then Missing
      else Covers).

Inductive DepthSwitchOutcome := ProvenSwitch | GapRequired.
Definition decide_depth_switch (coverage : DepthWindowCoverage) (digests_converge : bool)
    : DepthSwitchOutcome :=
  match coverage, digests_converge with
  | Covers, true => ProvenSwitch
  | _, _ => GapRequired
  end.

(** ** Theory of the union *)

Section btree_theory.
Context {A : Type}.
Implicit Type m : list (Z * A).

Lemma elem_of_bt_insert k v m x : x ∈ bt_insert k v m → x = (k, v) ∨ x ∈ m.
Proof.
  induction m as [|[k' v'] m IH]; cbn; [set_solver|].
  destruct (k <? k'); [set_solver|]. destruct (k =? k'); set_solver.
Qed.

Lemma bt_get_elem k v m : bt_get k m = Some v → (k, v) ∈ m.
Proof.
  induction m as [|[k' v'] m IH]; cbn; [done|].
  destruct (Z.eqb_spec k k') as [->|]; [intros [= <-]; set_solver|]. set_solver.
Qed.

Lemma bt_get_None k m : bt_get k m = None ↔ k ∉ m.*1.
Proof.
  induction m as [|[k' v'] m IH]; cbn; [set_solver|].
  destruct (Z.eqb_spec k k') as [->|]; [set_solver|]. rewrite IH. set_solver.
Qed.

Lemma bt_insert_keys k v m i : i ∈ (bt_insert k v m).*1 ↔ i = k ∨ i ∈ m.*1.
Proof.
  induction m as [|[k' v'] m IH]; cbn; [set_solver|].
  destruct (k <? k'); [set_solver|]. destruct (Z.eqb_spec k k') as [->|]; set_solver.
Qed.

Lemma bt_insert_Forall (P : Z * A → Prop) k v m : P (k, v) → Forall P m → Forall P (bt_insert k v m).
Proof.
  rewrite !Forall_forall. intros Hk Hm x [->|Hx]%elem_of_bt_insert; auto.
Qed.

Lemma bt_insert_sorted k v m :
  StronglySorted Z.lt m.*1 → StronglySorted Z.lt (bt_insert k v m).*1.
Proof.
  induction m as [|[k' v'] m IH]; cbn; intros H; [repeat constructor|].
  apply StronglySorted_inv in H as [Hs Hk'].
  destruct (Z.ltb_spec k k').
  - cbn. constructor; [by constructor|]. constructor; [done|].
    eapply Forall_impl; [exact Hk'|]. cbn. lia.
  - destruct (Z.eqb_spec k k') as [->|]; cbn; [by constructor|]. constructor; [by apply IH|].
    rewrite Forall_forall in *. intros i [->|Hi]%bt_insert_keys; [lia|]. by apply Hk'.
Qed.

Lemma len_bt_insert k v m : len (bt_insert k v m) ≤ len m + 1.
Proof.
  induction m as [|[k' v'] m IH]; cbn [bt_insert]; [done|].
  destruct (k <? k'); [rewrite !len_cons; lia|]. destruct (k =? k'); rewrite !len_cons; lia.
Qed.
End btree_theory.

Lemma elem_of_evict x m : x ∈ evict m → x ∈ m.
Proof. induction m as [|y m IH]; cbn [evict]; [done|]. destruct (_ <? _); set_solver. Qed.

Lemma sorted_snoc (l : list Z) x :
  StronglySorted Z.lt l → Forall (λ y, y < x) l → StronglySorted Z.lt (l ++ [x]).
Proof.
  rewrite Forall_forall. intros Hs Hx. apply StronglySorted_app_2; [|done|repeat constructor].
  intros y z Hy ->%list_elem_of_singleton. by apply Hx.
Qed.

Abbreviation arrival := (CaptureLane * CanonicalObservationV1)%type.
Definition arrival_id (p : arrival) : Z := co_final_sequence p.2.
Definition identity_of (p : arrival) : Z * string := (arrival_id p, co_observation_sha256 p.2).

(** An observation a lane can deliver. *)
Definition deliverable (p : arrival) : Prop :=
  in_u64 (arrival_id p) ∧ is_digest (co_observation_sha256 p.2) = true.

(** A buffered entry holds its first arrival. *)
Definition entry_ok (arrivals : list arrival) (e : Z * TradeUnionEntry) : Prop :=
  ∃ lane digest more, ue_lineages e.2 = (lane, digest) :: more ∧
    (lane, ue_observation e.2) ∈ arrivals ∧ arrival_id (lane, ue_observation e.2) = e.1 ∧
    deliverable (lane, ue_observation e.2).

(** The state after the trades [prior] of earlier runs, ending at [floor], and the
    trades [out] of this one. [arrivals] are the observations accepted so far. *)
Record union_inv (prior : list (Z * string)) (floor : option Z) (arrivals : list arrival)
    (s : TradeUnionState) (out : list arrival) : Prop := {
  ui_sorted : StronglySorted Z.lt (tu_buffer s).*1;
  ui_entries : Forall (entry_ok arrivals) (tu_buffer s);
  ui_above : ∀ l, tu_last_published_id s = Some l → Forall (λ e, l < e.1) (tu_buffer s);
  ui_known : StronglySorted Z.lt (prior ++ (identity_of <$> out)).*1;
  ui_valid : Forall (λ x, in_u64 x.1 ∧ is_digest x.2 = true) (prior ++ (identity_of <$> out));
  ui_last : tu_last_published_id s = match last out with Some p => Some (arrival_id p) | None => floor end;
  ui_floor : ∀ x, x ∈ prior → ∃ f, floor = Some f ∧ x.1 ≤ f;
  ui_out : Forall (λ p, p ∈ arrivals ∧ ∀ f, floor = Some f → f < arrival_id p) out;
  ui_published : Forall (λ x, x ∈ prior ++ (identity_of <$> out)) (tu_published s);
  ui_durable : ∀ log, tu_durable s = Some log → log_accepts log (prior ++ (identity_of <$> out));
  ui_corrected : is_Some (tu_durable s) → ∀ id d, tu_corrected s !! id = Some d →
    id ∉ (prior ++ (identity_of <$> out)).*1 ∧ ∃ l, tu_last_published_id s = Some l ∧ id ≤ l;
  ui_arrived : Forall (λ p, (∃ f, tu_consumed_floor s = Some f ∧ arrival_id p ≤ f) ∨
    arrival_id p ∈ (tu_buffer s).*1 ∨ arrival_id p ∈ arrival_id <$> out) arrivals
}.

Definition room (prior : list (Z * string)) (s : TradeUnionState) (out : list arrival) : Z :=
  len prior + len out + len (tu_buffer s).

Section union_theory.
Context (prior : list (Z * string)) (floor : option Z).

Abbreviation known out := (prior ++ (identity_of <$> out)).

(** Everything published is at or below the published position. *)
Lemma known_below arrivals s out l :
  union_inv prior floor arrivals s out → tu_last_published_id s = Some l →
  Forall (λ x, x.1 ≤ l) (known out).
Proof.
  intros [_ _ _ Hk _ Hl Hf _ _ _ _ _] Hlast. rewrite Hl in Hlast.
  destruct out as [|p out _] using rev_ind.
  - cbn in *. rewrite app_nil_r. apply Forall_forall. intros x Hx.
    destruct (Hf x Hx) as (f & -> & ?). by injection Hlast as <-.
  - rewrite last_snoc in Hlast. injection Hlast as <-.
    rewrite fmap_app, app_assoc in *. cbn [fmap list_fmap] in *.
    apply Forall_app. split; [|by apply Forall_singleton].
    apply Forall_forall. intros x Hx. rewrite fmap_app in Hk.
    apply (list_elem_of_fmap_2 fst) in Hx.
    pose proof (StronglySorted_app_1_elem_of _ _ _ _ _ Hk Hx (list_elem_of_here _ _)) as Hlt.
    cbn in Hlt. lia.
Qed.

Lemma known_none arrivals s out :
  union_inv prior floor arrivals s out → tu_last_published_id s = None → known out = [].
Proof.
  intros [_ _ _ _ _ Hl Hf _ _ _ _ _] Hlast. rewrite Hl in Hlast.
  destruct (last out) eqn:E; [done|]. apply last_None in E as ->. cbn. rewrite app_nil_r.
  destruct prior as [|x l]; [done|]. destruct (Hf x) as (f & ? & _); [set_solver|]. congruence.
Qed.

(** An ID above the position is above everything published. *)
Lemma known_lt arrivals s out id :
  union_inv prior floor arrivals s out →
  (∀ l, tu_last_published_id s = Some l → l < id) → Forall (λ x, x.1 < id) (known out).
Proof.
  intros Hinv Hid. destruct (tu_last_published_id s) as [l|] eqn:Hl.
  - eapply Forall_impl; [by eapply known_below|]. intros x. cbn. specialize (Hid l eq_refl). lia.
  - by erewrite known_none.
Qed.

Lemma known_snoc out p : known (out ++ [p]) = known out ++ [identity_of p].
Proof. by rewrite fmap_app, app_assoc. Qed.

(** The state in which the first buffered entry is published. *)
Definition emitted (id : Z) (digest : string) (rest : list (Z * TradeUnionEntry))
    (durable : option TradeIdentityLog) (s : TradeUnionState) : TradeUnionState :=
  mkUnion rest (tu_lane_next s) (Some id) (tu_consumed_floor s)
    (evict (bt_insert id digest (tu_published s))) (tu_corrected s) durable (tu_emission_clamps s).

Lemma emitted_inv arrivals s out id e rest durable :
  union_inv prior floor arrivals s out → tu_buffer s = (id, e) :: rest →
  let lane := match ue_lineages e with (lane, _) :: _ => lane | [] => Primary end in
  let p := (lane, ue_observation e) in
  (∀ log, durable = Some log → log_accepts log (known (out ++ [p]))) →
  (is_Some durable ↔ is_Some (tu_durable s)) →
  union_inv prior floor arrivals (emitted id (co_observation_sha256 (ue_observation e)) rest durable s)
    (out ++ [p]).
Proof.
  intros Hinv Hb lane p Hdur Hiff. pose proof Hinv as [H1 H2 H3 H4 H5 H6 H7 H8 H9 H10 H11 H12].
  rewrite Hb in *. apply Forall_cons in H2 as [(l0 & d0 & more & Hlin & Harr & Hid & Hdel) H2].
  rewrite fmap_cons in H1. apply StronglySorted_inv in H1 as [Hs Hgt]. cbn [fst snd] in *.
  assert (p = (l0, ue_observation e)) as Hp by (unfold p, lane; by rewrite Hlin).
  assert (identity_of p = (id, co_observation_sha256 (ue_observation e))) as Hident
    by (rewrite Hp; unfold identity_of; by rewrite Hid).
  assert (∀ l, tu_last_published_id s = Some l → l < id) as Habove.
  { intros l Hl. specialize (H3 l Hl). by apply Forall_inv in H3. }
  pose proof (known_lt _ _ _ _ Hinv Habove) as Hlt.
  rewrite known_snoc, Hident in *.
  split; cbn [emitted tu_buffer tu_lane_next tu_last_published_id tu_consumed_floor tu_published
    tu_corrected tu_durable tu_emission_clamps]; rewrite ?known_snoc, ?Hident; try done.
  - intros l [= <-]. by rewrite Forall_fmap in Hgt.
  - rewrite fmap_app. apply sorted_snoc; [done|]. by apply Forall_fmap.
  - apply Forall_app. split; [done|]. apply Forall_singleton. cbn.
    by destruct Hdel as [Hu ?]; rewrite Hid in Hu.
  - rewrite last_snoc. unfold arrival_id in *. rewrite Hp. cbn in *. by rewrite Hid.
  - apply Forall_app. split; [done|]. apply Forall_singleton. rewrite Hp. split; [done|].
    intros f Hf. rewrite Hid. destruct (last out) as [q|] eqn:Hq.
    + rewrite Forall_forall in H8. apply last_Some_elem_of in Hq as Hin.
      destruct (H8 _ Hin) as [_ Hgt']. specialize (Hgt' f Hf). specialize (Habove _ H6). lia.
    + apply Habove. congruence.
  - rewrite Forall_forall in *. intros x Hx%elem_of_evict.
    apply elem_of_bt_insert in Hx as [->|Hx]; [set_solver|]. specialize (H9 x Hx). set_solver.
  - intros Hsome i d Hi. destruct (H11 (proj1 Hiff Hsome) i d Hi) as (Hno & l & Hl & Hle). specialize (Habove l Hl).
    split; [|exists id; split; [done|lia]]. rewrite fmap_app, not_elem_of_app. split; [done|].
    cbn. rewrite not_elem_of_cons. split; [lia|apply not_elem_of_nil].
  - eapply Forall_impl; [exact H12|]. intros q [?|[Hin|?]]; [by left| |by right; right; set_solver].
    cbn in Hin. rewrite elem_of_cons in Hin. destruct Hin as [Hin|Hin]; [|by right; left].
    right; right. rewrite fmap_app, elem_of_app. right. cbn. rewrite Hp. unfold arrival_id in *.
    cbn in *. rewrite Hid. set_solver.
Qed.

Lemma durable_insert_Ok out s p :
  (∀ log, tu_durable s = Some log → log_accepts log (known out)) →
  Forall (λ x, x.1 < arrival_id p) (known out) → deliverable p →
  32 + 40 * (len (known out) + 1) ≤ u64_max →
  ∃ d b, durable_insert (arrival_id p) (co_observation_sha256 p.2) s = (set_durable d s, Ok b) ∧
    (∀ log, d = Some log → log_accepts log (known (out ++ [p]))) ∧
    (is_Some d ↔ is_Some (tu_durable s)) ∧ (b = true → is_Some d).
Proof.
  intros Hdur Hlt [Hu Hd] Hsize. unfold durable_insert. cbv [mbind SE_bind get put lift mret SE_ret].
  destruct (tu_durable s) as [log|] eqn:E.
  - destruct (log_accepts_insert log (known out) (arrival_id p) (co_observation_sha256 p.2)
      (Hdur log eq_refl) Hu Hsize Hlt Hd) as (log' & -> & Hacc).
    exists (Some log'), true. split; [done|]. split; [|done]. intros ? [= <-]. by rewrite known_snoc.
  - exists None, false. split_and!; try done. destruct s. cbn in *. by rewrite E.
Qed.

(** What emission leaves alone. *)
Definition same_lanes (s s' : TradeUnionState) : Prop :=
  tu_lane_next s' = tu_lane_next s ∧ tu_emission_clamps s' = tu_emission_clamps s ∧
  tu_consumed_floor s' = tu_consumed_floor s ∧ tu_corrected s' = tu_corrected s ∧
  (is_Some (tu_durable s') ↔ is_Some (tu_durable s)).

Lemma len_known out : len (known out) = len prior + len out.
Proof. rewrite len_app. unfold len at 2. by rewrite length_fmap. Qed.

Lemma drain_loop_Ok arrivals w buffer s out batch b :
  union_inv prior floor arrivals s out → tu_buffer s = buffer →
  32 + 40 * room prior s out ≤ u64_max →
  ∃ s' new b' moved, drain_loop w buffer batch b s = (s', Ok (batch ++ new, b')) ∧
    union_inv prior floor arrivals s' (out ++ new) ∧ same_lanes s s' ∧
    buffer = moved ++ tu_buffer s' ∧ arrival_id <$> new = moved.*1 ∧
    Forall (λ e, e.1 < w) moved ∧ Forall (λ e, w ≤ e.1) (tu_buffer s') ∧
    (b' = true → b = true ∨ is_Some (tu_durable s')).
Proof.
  revert s out batch b. induction buffer as [|[id e] rest IH]; intros s out batch b Hinv Hb Hroom.
  { exists s, [], b, []. rewrite !app_nil_r, Hb. split_and!; try done. by left. }
  cbn [drain_loop]. destruct (Z.leb_spec w id) as [Hw|Hw].
  { exists s, [], b, []. rewrite !app_nil_r, Hb. split_and!; try done; [|by left].
    constructor; [done|]. pose proof (ui_sorted _ _ _ _ _ Hinv) as Hs. rewrite Hb, fmap_cons in Hs.
    apply StronglySorted_inv in Hs as [_ Hs]. rewrite Forall_fmap in Hs.
    eapply Forall_impl; [exact Hs|]. cbn. lia. }
  assert (∀ l, tu_last_published_id s = Some l → l < id) as Habove.
  { intros l Hl. pose proof (ui_above _ _ _ _ _ Hinv l Hl) as H. rewrite Hb in H. by apply Forall_inv in H. }
  pose proof (ui_entries _ _ _ _ _ Hinv) as He. rewrite Hb in He. apply Forall_inv in He.
  destruct He as (lane & dg & more & Hlin & _ & Hid & Hdel). cbn [fst snd] in Hlin, Hid, Hdel.
  set (p := (lane, ue_observation e)) in *.
  unfold room in Hroom. rewrite Hb, len_cons in Hroom. pose proof (len_nonneg rest).
  cbv [mbind SE_bind get lift modify put].
  rewrite (proj2 (reject_Ok _ _ ())).
  2: { cbn. destruct (tu_last_published_id s); [|done]. apply Z.leb_gt. auto. }
  set (s1 := set_published (Some id) _ _).
  destruct (durable_insert_Ok out s1 p) as (d & b1 & Hins & Hd & Hiff & Hb1).
  { apply (ui_durable _ _ _ _ _ Hinv). }
  { rewrite Hid. by eapply known_lt. }
  { done. }
  { rewrite len_known. lia. }
  rewrite Hid in Hins. unfold p in Hins. cbn [snd] in Hins. rewrite Hins. rewrite Hlin.
  pose proof (emitted_inv arrivals s out id e rest d Hinv Hb) as Hem. cbv zeta in Hem.
  rewrite Hlin in Hem. specialize (Hem Hd Hiff).
  set (s2 := emitted _ _ _ _ _) in Hem.
  change (set_published _ (evict _) (set_durable d s1)) with s2. fold p.
  destruct (IH s2 (out ++ [p]) (batch ++ [p]) (b || b1) Hem eq_refl)
    as (s' & new & b' & moved & -> & Hinv' & (L1 & L2 & L3 & L4 & L5) & Hsplit & Hids & Hm & Hge & Hb').
  { unfold room. rewrite len_app. change (len [p]) with 1. cbn [s2 emitted tu_buffer]. lia. }
  exists s', (p :: new), b', ((id, e) :: moved).
  rewrite <-!app_assoc in *. cbn [app] in *. split_and!; try done.
  - split_and!; try done. rewrite L5. cbn. by rewrite Hiff.
  - by rewrite Hsplit.
  - rewrite !fmap_cons, Hids. by rewrite Hid.
  - by constructor.
  - intros Ht. destruct (Hb' Ht) as [Hor|?]; [|by right]. apply orb_true_iff in Hor as [?|Hx]; [by left|].
    right. rewrite L5. cbn. auto.
Qed.
(** The observations a call publishes. *)
Definition batch_of (d : TradeUnionDisposition) : list arrival :=
  match d with Publishable batch => batch | _ => [] end.
Definition accepted (d : TradeUnionDisposition) : bool :=
  match d with Publishable _ | Buffered => true | _ => false end.

Lemma set_durable_inv arrivals s out log :
  union_inv prior floor arrivals s out → is_Some (tu_durable s) → log_accepts log (known out) →
  union_inv prior floor arrivals (set_durable (Some log) s) out.
Proof.
  intros [H1 H2 H3 H4 H5 H6 H7 H8 H9 H10 H11 H12] Hsome Hlog. split; try done; [by intros ? [= <-]|].
  intros _. by apply H11.
Qed.

Lemma drain_Ok arrivals s out :
  union_inv prior floor arrivals s out → 32 + 40 * room prior s out ≤ u64_max →
  let w := default u64_max (emission_watermark s) in
  ∃ s' d moved, drain s = (s', Ok d) ∧ accepted d = true ∧
    union_inv prior floor arrivals s' (out ++ batch_of d) ∧ same_lanes s s' ∧
    tu_buffer s = moved ++ tu_buffer s' ∧ arrival_id <$> batch_of d = moved.*1 ∧
    Forall (λ e, e.1 < w) moved ∧ Forall (λ e, w ≤ e.1) (tu_buffer s').
Proof.
  intros Hinv Hroom w. unfold drain. unfold mbind at 1, SE_bind at 1, get.
  assert (match emission_watermark s, lm_primary (tu_lane_next s), lm_shadow (tu_lane_next s) with
    | None, Some _, _ | None, _, Some _ => false | _, _, _ => true end = true) as Hlanes.
  { unfold emission_watermark, lane_bound. cbn.
    by destruct (lm_primary (tu_lane_next s)), (lm_shadow (tu_lane_next s)). }
  destruct (drain_loop_Ok arrivals w (tu_buffer s) s out [] false Hinv eq_refl Hroom)
    as (s1 & new & b & moved & Hrun & Hinv1 & Hsame & Hsplit & Hids & Hlt & Hge & Hb).
  assert (∃ s', (if b then durable_sync else mret ()) s1 = (s', Ok ()) ∧
    union_inv prior floor arrivals s' (out ++ new) ∧ same_lanes s s' ∧ tu_buffer s' = tu_buffer s1)
    as (s' & Hsync & Hinv' & Hsame' & Hbuf).
  { destruct b; [|by exists s1]. destruct (Hb eq_refl) as [?|[log Hlog]]; [done|].
    destruct (log_accepts_sync log _ (ui_durable _ _ _ _ _ Hinv1 log Hlog)) as (log' & Hsy & Hacc).
    exists (set_durable (Some log') s1). unfold durable_sync.
    cbv [mbind SE_bind get put lift]. rewrite Hlog. cbn [expect]. rewrite Hsy.
    split_and!; [done|by apply set_durable_inv; [|eexists|]| |done].
    destruct Hsame as (L1 & L2 & L3 & L4 & L5). split_and!; try done. rewrite <-L5, Hlog. by split. }
  exists s', (match new with [] => Buffered | _ => Publishable new end), moved.
  assert (batch_of (match new with [] => Buffered | _ => Publishable new end) = new) as -> by (by destruct new).
  rewrite Hbuf. split_and!; try done; [|by destruct new].
  assert ((let '(batch, inserted_identity) := ([] ++ new, b) in
     (if inserted_identity : bool then durable_sync else mret ());;
     mret (match batch with [] => Buffered | _ => Publishable batch end) : SE TradeUnionState _) s1
    = (s', Ok (match new with [] => Buffered | _ => Publishable new end))) as Hend.
  { cbn [app]. unfold mbind, SE_bind. by rewrite Hsync. }
  destruct (emission_watermark s), (lm_primary (tu_lane_next s)), (lm_shadow (tu_lane_next s));
    try discriminate Hlanes; unfold mbind at 1, SE_bind at 1; unfold w in Hrun; rewrite Hrun; exact Hend.
Qed.

(** Moving the lanes, the clamps or the floor forward. *)
Lemma lanes_inv arrivals s s' out :
  union_inv prior floor arrivals s out →
  tu_buffer s' = tu_buffer s → tu_last_published_id s' = tu_last_published_id s →
  tu_published s' = tu_published s → tu_corrected s' = tu_corrected s →
  tu_durable s' = tu_durable s →
  (∀ f, tu_consumed_floor s = Some f → ∃ f', tu_consumed_floor s' = Some f' ∧ f ≤ f') →
  union_inv prior floor arrivals s' out.
Proof.
  intros [H1 H2 H3 H4 H5 H6 H7 H8 H9 H10 H11 H12] E1 E2 E3 E4 E5 Hf.
  split; rewrite ?E1, ?E2, ?E3, ?E4, ?E5; try done.
  eapply Forall_impl; [exact H12|]. intros p [(f & Hp & Hle)|?]; [|by right].
  left. destruct (Hf f Hp) as (f' & ? & ?). exists f'. split; [done|lia].
Qed.

(** A buffered observation, new or merged with its first arrival. *)
Lemma buffered_inv arrivals s out id e p :
  union_inv prior floor arrivals s out → arrival_id p = id →
  (∀ l, tu_last_published_id s = Some l → l < id) → entry_ok (arrivals ++ [p]) (id, e) →
  union_inv prior floor (arrivals ++ [p]) (set_buffer (bt_insert id e (tu_buffer s)) s) out.
Proof.
  intros [H1 H2 H3 H4 H5 H6 H7 H8 H9 H10 H11 H12] Hp Habove He.
  split; cbn [set_buffer tu_buffer tu_last_published_id tu_published tu_corrected tu_durable
    tu_consumed_floor]; try done.
  - by apply bt_insert_sorted.
  - apply bt_insert_Forall; [done|]. eapply Forall_impl; [exact H2|].
    intros x (lane & d & more & ? & ? & ?). exists lane, d, more. set_solver.
  - intros l Hl. apply bt_insert_Forall; [by apply Habove|]. by apply H3.
  - eapply Forall_impl; [exact H8|]. set_solver.
  - apply Forall_app. split.
    + eapply Forall_impl; [exact H12|]. intros q [?|[?|?]]; [by left| |by right; right].
      right; left. apply bt_insert_keys. by right.
    + apply Forall_singleton. right; left. rewrite Hp. apply bt_insert_keys. by left.
Qed.

(** How a late observation is to be answered, given all that was published. *)
Definition late_answer (published corrected : gmap Z string) (id : Z) (o : CanonicalObservationV1)
    : TradeUnionDisposition :=
  match corrected !! id, published !! id with
  | Some digest, _ | None, Some digest =>
      if String.eqb digest (co_observation_sha256 o) then Late o Duplicate
      else Conflict id digest (co_observation_sha256 o)
  | None, None => Late o Unknown
  end.

Lemma known_map out id d arrivals s :
  union_inv prior floor arrivals s out → (id, d) ∈ known out →
  (list_to_map (known out) : gmap Z string) !! id = Some d.
Proof.
  intros Hinv Hin. apply elem_of_list_to_map_1; [|done].
  pose proof (ui_known _ _ _ _ _ Hinv) as Hs. clear -Hs.
  induction Hs as [|x l _ IH Hx]; constructor; [|done]. rewrite Forall_forall in Hx.
  intros Hin. specialize (Hx x Hin). lia.
Qed.

Lemma classify_late_cases arrivals s out id o l :
  union_inv prior floor arrivals s out → tu_last_published_id s = Some l → id ≤ l →
  ∃ s' d, classify_late id o s = (s', Ok d) ∧ accepted d = false ∧ batch_of d = [] ∧
    union_inv prior floor arrivals s' out ∧ same_lanes s (set_corrected (tu_corrected s) s') ∧
    tu_buffer s' = tu_buffer s ∧
    (is_Some (tu_durable s) →
       d = late_answer (list_to_map (known out)) (tu_corrected s) id o ∧
       tu_corrected s' = match d with
                         | Late _ Unknown => <[id := co_observation_sha256 o]> (tu_corrected s)
                         | _ => tu_corrected s end).
Proof.
  intros Hinv Hl Hle. unfold classify_late. cbv [mbind SE_bind get lift put mret SE_ret].
  set (answer := λ known, if String.eqb known (co_observation_sha256 o) then Late o Duplicate
                          else Conflict id known (co_observation_sha256 o)).
  assert (∀ k, accepted (answer k) = false ∧ batch_of (answer k) = [] ∧
    match answer k with Late _ Unknown => False | _ => True end) as Hans.
  { intros k. unfold answer. by destruct (String.eqb _ _). }
  assert (∀ k, match answer k with
     | Late _ Unknown => <[id := co_observation_sha256 o]> (tu_corrected s)
     | _ => tu_corrected s end = tu_corrected s) as Hsame.
  { intros k. unfold answer. by destruct (String.eqb _ _). }
  destruct (tu_corrected s !! id) as [k|] eqn:Hc.
  { exists s, (answer k). destruct (Hans k) as (? & ? & _). split_and!; try done.
    intros _. unfold late_answer. rewrite Hc. by rewrite Hsame. }
  assert (∃ s1 o', durable_lookup id s = (s1, Ok o') ∧ union_inv prior floor arrivals s1 out ∧ same_lanes s s1 ∧
    tu_buffer s1 = tu_buffer s ∧ tu_last_published_id s1 = tu_last_published_id s ∧
    (is_Some (tu_durable s) → o' = (list_to_map (known out) : gmap Z string) !! id))
    as (s1 & o' & -> & Hinv1 & Hsame1 & Hbuf1 & Hlast1 & Ho').
  { unfold durable_lookup. cbv [mbind SE_bind get lift put mret SE_ret].
    destruct (tu_durable s) as [log|] eqn:Hlog; [|exists s, None; by split_and!; [..|intros []]].
    destruct (log_accepts_lookup log (known out) id) as (log' & -> & Hacc); [by apply (ui_durable _ _ _ _ _ Hinv)|..].
    { eapply Forall_impl; [apply (ui_valid _ _ _ _ _ Hinv)|]. by intros ? []. }
    eexists _, _. split; [reflexivity|]. split; [apply set_durable_inv; try done; by eexists|]. rewrite <-Hlog.
    by split_and!. }
  pose proof Hsame1 as (L1 & L2 & L3 & L4 & L5).
  destruct (bt_get id (tu_published s)) as [k|] eqn:Hb.
  { exists s1, (answer k). destruct (Hans k) as (? & ? & _). split_and!; try done.
    intros _. unfold late_answer. rewrite Hc, L4. split; [|by rewrite Hsame].
    apply bt_get_elem in Hb. pose proof (ui_published _ _ _ _ _ Hinv) as Hp. rewrite Forall_forall in Hp.
    by rewrite (known_map _ _ _ _ _ Hinv (Hp _ Hb)). }
  destruct o' as [k|].
  { exists s1, (answer k). destruct (Hans k) as (? & ? & _). split_and!; try done.
    intros Hsome. unfold late_answer. rewrite Hc, <-(Ho' Hsome), L4. by rewrite Hsame. }
  eexists _, _. split; [reflexivity|]. split_and!; try done.
  - destruct Hinv1 as [H1 H2 H3 H4 H5 H6 H7 H8 H9 H10 H11 H12]. split; try done.
    intros Hsome i d. cbn [set_corrected tu_corrected]. rewrite lookup_insert_Some.
    intros [[<- <-]|[_ Hi]]; [|by eapply H11]. split; [|exists l; split; [by cbn; rewrite Hlast1|done]].
    apply not_elem_of_list_to_map. rewrite <-Ho'; [done|by rewrite <-L5].
  - intros Hsome. unfold late_answer. cbn [set_corrected tu_corrected]. by rewrite Hc, <-Ho', L4.
Qed.

(** *** Observing *)

Definition behind (o : option Z) (id : Z) : bool := match o with Some x => id <=? x | None => false end.

Lemma not_behind o id : behind o id = false ↔ ∀ x, o = Some x → x < id.
Proof.
  unfold behind. destruct o as [y|]; split; try done.
  - intros H x [= <-]. lia.
  - intros H. specialize (H y eq_refl). lia.
Qed.

(** What a call leaves of an observation in front of the published position. *)
Record observed (arrivals : list arrival) (p : arrival) (s : TradeUnionState) (out : list arrival)
    (s' : TradeUnionState) (d : TradeUnionDisposition) : Prop := {
  ob_accepted : accepted d = true;
  ob_inv : union_inv prior floor (arrivals ++ [p]) s' (out ++ batch_of d);
  ob_lanes : tu_lane_next s' = tu_lane_next (advance_lane p.1 (arrival_id p) s);
  ob_clamps : tu_emission_clamps s' = tu_emission_clamps s;
  ob_floor : tu_consumed_floor s' = tu_consumed_floor s;
  ob_durable : is_Some (tu_durable s') ↔ is_Some (tu_durable s);
  ob_room : room prior s' (out ++ batch_of d) ≤ room prior s out + 1;
  ob_ids : ∀ i, i ∈ arrival_id <$> batch_of d ∨ i ∈ (tu_buffer s').*1 ↔
    i = arrival_id p ∨ i ∈ (tu_buffer s).*1;
  ob_below : Forall (λ q, arrival_id q < default u64_max (emission_watermark s')) (batch_of d);
  ob_above : Forall (λ e, default u64_max (emission_watermark s') ≤ e.1) (tu_buffer s')
}.

Lemma advance_lane_frame lane id s :
  tu_buffer (advance_lane lane id s) = tu_buffer s ∧
  tu_last_published_id (advance_lane lane id s) = tu_last_published_id s ∧
  tu_published (advance_lane lane id s) = tu_published s ∧
  tu_corrected (advance_lane lane id s) = tu_corrected s ∧
  tu_durable (advance_lane lane id s) = tu_durable s ∧
  tu_consumed_floor (advance_lane lane id s) = tu_consumed_floor s ∧
  tu_emission_clamps (advance_lane lane id s) = tu_emission_clamps s.
Proof. unfold advance_lane. by case_match. Qed.

Lemma advance_lane_buffer lane id b s :
  advance_lane lane id (set_buffer b s) = set_buffer b (advance_lane lane id s).
Proof. unfold advance_lane. cbn. by case_match. Qed.

Lemma observe_buffered arrivals s out p e :
  union_inv prior floor arrivals s out → 32 + 40 * (room prior s out + 1) ≤ u64_max →
  behind (tu_last_published_id s) (arrival_id p) = false →
  entry_ok (arrivals ++ [p]) (arrival_id p, e) →
  ∃ s' d, (put (set_buffer (bt_insert (arrival_id p) e (tu_buffer s)) s);;
           modify (advance_lane p.1 (arrival_id p));; drain) s = (s', Ok d) ∧
    observed arrivals p s out s' d.
Proof.
  intros Hinv Hroom Habove He. cbv [mbind SE_bind put modify].
  set (s1 := set_buffer _ s). set (s2 := advance_lane _ _ s1).
  pose proof (advance_lane_frame p.1 (arrival_id p) s1) as (F1 & F2 & F3 & F4 & F5 & F6 & F7).
  assert (union_inv prior floor (arrivals ++ [p]) s1 out) as Hinv1
    by (apply buffered_inv; try done; by apply not_behind).
  assert (union_inv prior floor (arrivals ++ [p]) s2 out) as Hinv2.
  { apply (lanes_inv _ s1); try done. intros f Hf. exists f. unfold s2. rewrite F6. split; [done|lia]. }
  assert (room prior s2 out ≤ room prior s out + 1) as Hroom2.
  { unfold room, s2. rewrite F1. cbn [s1 set_buffer tu_buffer].
    pose proof (len_bt_insert (arrival_id p) e (tu_buffer s)). lia. }
  destruct (drain_Ok (arrivals ++ [p]) s2 out Hinv2 ltac:(lia))
    as (s' & d & moved & Hd & Hacc & Hinv' & (L1 & L2 & L3 & L4 & L5) & Hsplit & Hids & Hlt & Hge).
  assert (emission_watermark s' = emission_watermark s2) as Hw
    by (unfold emission_watermark, lane_bound; by rewrite L1, L2).
  exists s', d. split; [exact Hd|]. split; try done.
  - rewrite L1. unfold s2, s1. by rewrite advance_lane_buffer.
  - by rewrite L2.
  - rewrite L3. unfold s2. by rewrite F6.
  - rewrite L5. unfold s2. by rewrite F5.
  - unfold room in *. apply (f_equal length) in Hids. rewrite !length_fmap in Hids.
    rewrite len_app. unfold len in *. rewrite Hsplit, length_app in Hroom2. lia.
  - intros i. rewrite Hids, <-elem_of_app, <-fmap_app, <-Hsplit. unfold s2. rewrite F1.
    apply bt_insert_keys.
  - rewrite Hw. apply Forall_forall. intros q Hq. rewrite Forall_forall in Hlt.
    assert (arrival_id q ∈ moved.*1) as Hin by (rewrite <-Hids; by apply list_elem_of_fmap_2).
    apply list_elem_of_fmap in Hin as (x & -> & Hx). by apply Hlt.
  - by rewrite Hw.
Qed.

(** An observation in front of the position, alone or in agreement with the one
    that is buffered. *)
Lemma observe_fresh arrivals s out p :
  union_inv prior floor arrivals s out → deliverable p →
  32 + 40 * (room prior s out + 1) ≤ u64_max →
  trade_id p.2 = Ok (arrival_id p) → behind (tu_consumed_floor s) (arrival_id p) = false →
  behind (tu_last_published_id s) (arrival_id p) = false →
  (∀ e, bt_get (arrival_id p) (tu_buffer s) = Some e →
     co_observation_sha256 (ue_observation e) = co_observation_sha256 p.2) →
  ∃ s' d, union_observe p.1 p.2 s = (s', Ok d) ∧ observed arrivals p s out s' d.
Proof.
  intros Hinv Hdel Hroom Hid Hfl Hlast Hagree. unfold union_observe.
  unfold mbind at 1 2, SE_bind at 1 2, lift, get. rewrite Hid.
  fold (behind (tu_consumed_floor s) (arrival_id p)). rewrite Hfl.
  fold (behind (tu_last_published_id s) (arrival_id p)). rewrite Hlast.
  destruct (bt_get (arrival_id p) (tu_buffer s)) as [e|] eqn:He.
  - rewrite (Hagree e eq_refl), String.eqb_refl. cbn [negb].
    apply observe_buffered; try done. apply bt_get_elem in He.
    pose proof (ui_entries _ _ _ _ _ Hinv) as Hents. rewrite Forall_forall in Hents.
    destruct (Hents _ He) as (lane & dg & more & Hlin & Harr & Hids & Hd2). cbn [fst snd] in *.
    eexists lane, dg, _. cbn [fst snd ue_lineages ue_observation]. rewrite Hlin.
    split; [done|]. split; [set_solver|done].
  - apply observe_buffered; try done. exists p.1, (co_record_sha256 p.2), [].
    cbn [fst snd ue_lineages ue_observation]. destruct p as [lane o]. split; [done|].
    split; [set_solver|done].
Qed.

Lemma arrived_floor_inv arrivals s out p :
  union_inv prior floor arrivals s out → behind (tu_consumed_floor s) (arrival_id p) = true →
  union_inv prior floor (arrivals ++ [p]) s out.
Proof.
  intros [H1 H2 H3 H4 H5 H6 H7 H8 H9 H10 H11 H12] Hb. split; try done.
  - eapply Forall_impl; [exact H2|]. intros x (lane & d & more & ? & ? & ?). exists lane, d, more. set_solver.
  - eapply Forall_impl; [exact H8|]. set_solver.
  - apply Forall_app. split; [done|]. apply Forall_singleton. left. unfold behind in Hb.
    destruct (tu_consumed_floor s) as [f|]; [|done]. exists f. split; [done|lia].
Qed.

(** Every observation of a trade is answered. *)
Lemma union_observe_cases arrivals s out p :
  union_inv prior floor arrivals s out → deliverable p →
  32 + 40 * (room prior s out + 1) ≤ u64_max → trade_id p.2 = Ok (arrival_id p) →
  ∃ s' d, union_observe p.1 p.2 s = (s', Ok d) ∧
    union_inv prior floor (if accepted d then arrivals ++ [p] else arrivals) s' (out ++ batch_of d) ∧
    room prior s' (out ++ batch_of d) ≤ room prior s out + 1 ∧
    (is_Some (tu_durable s') ↔ is_Some (tu_durable s)).
Proof.
  intros Hinv Hdel Hroom Hid.
  assert (behind (tu_consumed_floor s) (arrival_id p) = false →
    behind (tu_last_published_id s) (arrival_id p) = false →
    (∀ e, bt_get (arrival_id p) (tu_buffer s) = Some e →
       co_observation_sha256 (ue_observation e) = co_observation_sha256 p.2) →
    ∃ s' d, union_observe p.1 p.2 s = (s', Ok d) ∧
      union_inv prior floor (if accepted d then arrivals ++ [p] else arrivals) s' (out ++ batch_of d) ∧
      room prior s' (out ++ batch_of d) ≤ room prior s out + 1 ∧
      (is_Some (tu_durable s') ↔ is_Some (tu_durable s))) as Hfresh.
  { intros H1 H2 H3. destruct (observe_fresh arrivals s out p Hinv Hdel Hroom Hid H1 H2 H3)
      as (s' & d & Hrun & [Ha Hi _ _ _ Hd Hr _ _ _]). exists s', d. by rewrite Ha. }
  assert (union_inv prior floor arrivals s (out ++ [])) as Hinv0 by (by rewrite app_nil_r).
  assert (room prior s (out ++ []) ≤ room prior s out + 1) as Hroom0 by (rewrite app_nil_r; lia).
  destruct (behind (tu_consumed_floor s) (arrival_id p)) eqn:Hfl.
  { exists s, Buffered. unfold union_observe. unfold mbind, SE_bind, lift, get. rewrite Hid.
    unfold behind in Hfl. rewrite Hfl. cbn [accepted batch_of]. rewrite app_nil_r in *.
    split_and!; try done. by apply arrived_floor_inv. }
  destruct (behind (tu_last_published_id s) (arrival_id p)) eqn:Hl.
  { destruct (tu_last_published_id s) as [l|] eqn:El; [|done].
    destruct (classify_late_cases arrivals s out (arrival_id p) p.2 l Hinv El)
      as (s' & d & Hrun & Ha & Hb & Hi & Hsame & Hbuf & _); [unfold behind in Hl; lia|].
    exists s', d. unfold union_observe. unfold mbind at 1 2, SE_bind at 1 2, lift, get. rewrite Hid.
    unfold behind in Hfl, Hl. rewrite Hfl, El, Hl, Hrun, Ha, Hb, app_nil_r. unfold room. rewrite Hbuf.
    destruct Hsame as (_ & _ & _ & _ & Hd). split_and!; try done. lia. }
  destruct (bt_get (arrival_id p) (tu_buffer s)) as [e|] eqn:He; [|by apply Hfresh].
  destruct (String.eqb (co_observation_sha256 (ue_observation e)) (co_observation_sha256 p.2)) eqn:Heq.
  { apply Hfresh; try done. apply String.eqb_eq in Heq. by intros ? [= <-]. }
  exists s. eexists. unfold union_observe. unfold mbind at 1 2, SE_bind at 1 2, lift, get. rewrite Hid.
  unfold behind in Hfl, Hl. rewrite Hfl, Hl, He, Heq. cbn [negb]. split; [reflexivity|].
  cbn [accepted batch_of]. done.
Qed.

(** *** Histories *)

Inductive union_op :=
  | UoRegister (lane : CaptureLane) | UoExclude (lane : CaptureLane)
  | UoClamp (lane : CaptureLane) (bound : Z) | UoUnclamp (lane : CaptureLane)
  | UoForward (p : arrival) | UoObserve (p : arrival) | UoFlush.

(** One call: the observation it accepted and those it published. *)
Definition union_step (op : union_op) : SE TradeUnionState (list arrival * list arrival) :=
  match op with
  | UoRegister lane => modify (register_lane lane);; mret ([], [])
  | UoExclude lane => modify (exclude_lane lane);; mret ([], [])
  | UoClamp lane bound => modify (set_emission_clamp lane bound);; mret ([], [])
  | UoUnclamp lane => modify (clear_emission_clamp lane);; mret ([], [])
  | UoForward p => fast_forward p.1 p.2;; mret ([], [])
  | UoObserve p => d ← union_observe p.1 p.2; mret (if accepted d then [p] else [], batch_of d)
  | UoFlush => d ← flush_union; mret ([], batch_of d)
  end.
(** All calls, those behind a failed one included: what was accepted and published, and
    whether every call succeeded. *)
Fixpoint run_union (ops : list union_op) (s : TradeUnionState)
    : res (TradeUnionState * list arrival * list arrival * bool) :=
  match ops with
  | [] => Ok (s, [], [], true)
  | op :: ops =>
      match union_step op s with
      | (s, Ok (a, o)) => '(s, a', o', ok) ← run_union ops s; Ok (s, a ++ a', o ++ o', ok)
      | (s, Err _) => '(s, a', o', _) ← run_union ops s; Ok (s, a', o', false)
      | (_, Panic) => Panic
      end
  end.
Definition valid_trade (p : arrival) : Prop :=
  deliverable p ∧ trade_id p.2 = Ok (arrival_id p).
Definition union_op_valid (op : union_op) : Prop :=
  match op with UoForward p | UoObserve p => valid_trade p | _ => True end.

Lemma union_step_Ok op arrivals s out :
  union_inv prior floor arrivals s out → union_op_valid op →
  32 + 40 * (room prior s out + 1) ≤ u64_max →
  ∃ s' a o, union_step op s = (s', Ok (a, o)) ∧
    union_inv prior floor (arrivals ++ a) s' (out ++ o) ∧
    room prior s' (out ++ o) ≤ room prior s out + 1 ∧ (is_Some (tu_durable s') ↔ is_Some (tu_durable s)).
Proof.
  intros Hinv Hop Hroom.
  assert (∀ f, tu_consumed_floor s = Some f → ∃ f', tu_consumed_floor s = Some f' ∧ f ≤ f') as Hsame
    by (intros f Hf; exists f; split; [done|lia]).
  assert (∀ s', union_step op s = (s', Ok ([], [])) → union_inv prior floor arrivals s' out →
    tu_buffer s' = tu_buffer s → tu_durable s' = tu_durable s →
    ∃ s' a o, union_step op s = (s', Ok (a, o)) ∧ union_inv prior floor (arrivals ++ a) s' (out ++ o) ∧
      room prior s' (out ++ o) ≤ room prior s out + 1 ∧
      (is_Some (tu_durable s') ↔ is_Some (tu_durable s))) as Hquiet.
  { intros s' Hs Hi Hb Hd. exists s', [], []. rewrite !app_nil_r, Hd. unfold room. rewrite Hb.
    split_and!; try done. lia. }
  destruct op as [lane|lane|lane bound|lane|p|p|]; cbn [union_op_valid] in Hop.
  - eapply Hquiet; [reflexivity|eapply lanes_inv; [done|..]|..]; unfold register_lane; by case_match.
  - by eapply Hquiet; [reflexivity|eapply lanes_inv; [done|..]|..].
  - by eapply Hquiet; [reflexivity|eapply lanes_inv; [done|..]|..].
  - by eapply Hquiet; [reflexivity|eapply lanes_inv; [done|..]|..].
  - destruct Hop as [_ Hid]. eapply Hquiet.
    + cbn [union_step]. unfold fast_forward. cbv [mbind SE_bind lift modify mret SE_ret]. by rewrite Hid.
    + pose proof (advance_lane_frame p.1 (arrival_id p) s) as (F1 & F2 & F3 & F4 & F5 & F6 & F7).
      eapply lanes_inv; [done|..]; try (by case_match).
      intros f Hf. rewrite F6, Hf. destruct (Z.ltb_spec f (arrival_id p)); cbn.
      * eexists. split; [done|lia].
      * exists f. rewrite F6, Hf. split; [done|lia].
    + pose proof (advance_lane_frame p.1 (arrival_id p) s) as (F1 & _). by case_match.
    + pose proof (advance_lane_frame p.1 (arrival_id p) s) as (_ & _ & _ & _ & F5 & _). by case_match.
  - destruct Hop as [Hdel Hid].
    destruct (union_observe_cases arrivals s out p Hinv Hdel Hroom Hid) as (s' & d & Hrun & Hi & Hr & Hd).
    exists s', (if accepted d then [p] else []), (batch_of d).
    cbn [union_step]. unfold mbind, SE_bind. rewrite Hrun. split_and!; try done.
    by destruct (accepted d); [|rewrite app_nil_r].
  - destruct (drain_Ok arrivals s out Hinv ltac:(lia))
      as (s' & d & moved & Hd & Hacc & Hinv' & (_ & _ & _ & _ & L5) & Hsplit & Hids & _).
    exists s', [], (batch_of d). rewrite app_nil_r.
    cbn [union_step]. unfold flush_union, mbind, SE_bind. rewrite Hd. split_and!; try done; try apply L5.
    unfold room in *. apply (f_equal length) in Hids. rewrite !length_fmap in Hids.
    rewrite len_app. unfold len in *. rewrite Hsplit, length_app. lia.
Qed.

Lemma run_union_Ok ops arrivals s out :
  union_inv prior floor arrivals s out → Forall union_op_valid ops →
  32 + 40 * (room prior s out + len ops) ≤ u64_max →
  ∃ s' a o, run_union ops s = Ok (s', a, o, true) ∧ union_inv prior floor (arrivals ++ a) s' (out ++ o) ∧
    room prior s' (out ++ o) ≤ room prior s out + len ops ∧
    (is_Some (tu_durable s') ↔ is_Some (tu_durable s)).
Proof.
  revert arrivals s out. induction ops as [|op ops IH]; intros arrivals s out Hinv Hops Hroom.
  { exists s, [], []. rewrite !app_nil_r. split_and!; try done. unfold len; cbn; lia. }
  apply Forall_cons in Hops as [Hop Hops]. rewrite len_cons in *. pose proof (len_nonneg ops).
  destruct (union_step_Ok op arrivals s out Hinv Hop ltac:(lia)) as (s1 & a & o & Hst & Hi & Hr & Hd).
  destruct (IH _ _ _ Hi Hops ltac:(lia)) as (s2 & a2 & o2 & Hrun & Hi2 & Hr2 & Hd2).
  exists s2, (a ++ a2), (o ++ o2). cbn [run_union]. rewrite Hst, Hrun. rewrite !app_assoc.
  split_and!; try done; [lia|..]; by rewrite Hd2, Hd.
Qed.
End union_theory.

(** A union at the start of a run: new, or resumed at the published position
    [floor] with the identity log of the trades published before. *)
Definition union_start (log : option TradeIdentityLog) (floor : option Z) : TradeUnionState :=
  let s := match log with Some log => set_identity_log log union_new | None => union_new end in
  match floor with Some f => (restore_published_floor f s).1 | None => s end.
Record resumable (prior : list (Z * string)) (floor : option Z) (log : option TradeIdentityLog) : Prop := {
  rs_sorted : StronglySorted Z.lt prior.*1;
  rs_valid : Forall (λ x, in_u64 x.1 ∧ is_digest x.2 = true) prior;
  rs_floor : ∀ x, x ∈ prior → ∃ f, floor = Some f ∧ x.1 ≤ f;
  rs_log : ∀ l, log = Some l → ∃ c, log_holds l (entry <$> prior) c []
}.
(** No call on the log is going to fail. *)
Definition log_healthy (log : option TradeIdentityLog) : Prop := ∀ l, log = Some l → healthy (il_file l).

Lemma union_start_inv prior floor log :
  resumable prior floor log → log_healthy log → union_inv prior floor [] (union_start log floor) [].
Proof.
  intros [H1 H2 H3 H4] Hh.
  assert (union_start log floor = mkUnion [] (mkLaneMap None None) floor None [] ∅ log
    (mkLaneMap None None)) as -> by (by destruct log, floor).
  split; cbn; rewrite ?app_nil_r; try done; try constructor; try by apply Hh. by apply H4.
Qed.

Lemma room_start prior floor log : room prior (union_start log floor) [] = len prior.
Proof.
  unfold room. replace (tu_buffer (union_start log floor)) with (@nil (Z * TradeUnionEntry))
    by (by destruct log, floor). change (len (@nil arrival)) with 0.
  change (len (@nil (Z * TradeUnionEntry))) with 0. lia.
Qed.

(** ** The union on a log that fails

    A call on the identity log that fails ends the call of the union with an error, in
    the state it left. The order of what is published does not depend on it. *)

(** *** Failures that did not happen

    A call that succeeds does the same on a log whose later calls all succeed. *)
Definition mended_log (log : TradeIdentityLog) : TradeIdentityLog :=
  IdentityLog.set_file (mkFile (df_bytes (il_file log)) []) log.
Definition mended (s : TradeUnionState) : TradeUnionState := set_durable (mended_log <$> tu_durable s) s.

Definition mends {S A} (mend : S → S) (m : SE S A) : Prop :=
  ∀ s s' a, m s = (s', Ok a) → m (mend s) = (mend s', Ok a).

Lemma mends_bind {S A B} (mend : S → S) (m : SE S A) (k : A → SE S B) :
  mends mend m → (∀ a, mends mend (k a)) → mends mend (m ≫= k).
Proof.
  intros Hm Hk s s' b. cbv [mbind SE_bind]. destruct (m s) as [s1 [a|e|]] eqn:E; [|done..].
  rewrite (Hm _ _ _ E). apply Hk.
Qed.
Lemma mends_lift {S A} (mend : S → S) (r : res A) : mends mend (lift r).
Proof. intros s s' a. unfold lift. by intros [= <- ->]. Qed.
Lemma mends_ret {S A} (mend : S → S) (a : A) : mends mend (mret a).
Proof. intros s s' a'. cbv [mret SE_ret]. by intros [= <- <-]. Qed.
Lemma mends_modify {S} (mend f : S → S) : (∀ s, f (mend s) = mend (f s)) → mends mend (modify f).
Proof. intros H s s' a. unfold modify. intros [= <- <-]. by rewrite H. Qed.

(** A call that looks at the state first. *)
Lemma SE_get_bind {S B} (k : S → SE S B) s : (get ≫= k) s = k s s.
Proof. done. Qed.

Abbreviation mended_file := (λ f : disk_file, mkFile (df_bytes f) []).

Lemma mends_file {A} (m : io → SE disk_file A) :
  (∀ o s s' a, m o s = (s', Ok a) → o = IoOk) → mends mended_file (m IoOk) →
  mends mended_file (o ← next_io; m o).
Proof.
  intros Ho Hm f f' a. unfold next_io. cbv [mbind SE_bind get put mret SE_ret].
  destruct f as [b [|o l]]; cbn [df_outcomes df_bytes]; intros H.
  - exact (Hm _ _ _ H).
  - pose proof (Ho _ _ _ _ H) as ->. exact (Hm _ _ _ H).
Qed.

Lemma read_exact_mends context offset n : mends mended_file (read_exact_at context offset n).
Proof.
  apply mends_file.
  - by intros [|k] f f' a.
  - intros f f' a. cbv [mbind SE_bind get lift mret SE_ret]. cbn [df_bytes]. destruct (reject _ _); [|done..]. by intros [= <- <-].
Qed.
Lemma write_end_mends context b : mends mended_file (write_end context b).
Proof.
  apply mends_file.
  - by intros [|k] f f' a.
  - intros f f' a. cbv [mbind SE_bind get put]. by intros [= <- <-].
Qed.
Lemma write_start_mends context b : mends mended_file (write_start context b).
Proof.
  apply mends_file.
  - by intros [|k] f f' a.
  - intros f f' a. cbv [mbind SE_bind get put]. by intros [= <- <-].
Qed.
Lemma on_file_mends {A} (m : SE disk_file A) : mends mended_file m → mends mended_log (on_file m).
Proof.
  intros Hm log log' a. unfold on_file. destruct (m (il_file log)) as [f r] eqn:E. intros [= <- ->].
  cbn [mended_log IdentityLog.set_file il_file]. by rewrite (Hm _ _ _ E).
Qed.

Lemma read_record_mends i : mends mended_file (read_record_at i).
Proof.
  unfold read_record_at. repeat (apply mends_bind; [apply mends_lift|intros ?]).
  apply mends_bind; [apply read_exact_mends|]. intros ?. apply mends_ret.
Qed.
Lemma lookup_loop_mends fuel id low high : mends mended_file (lookup_loop fuel id low high).
Proof.
  revert low high. induction fuel as [|fuel IH]; intros low high; cbn [lookup_loop];
    (destruct (high <=? low); [apply mends_ret|]); [apply mends_lift|].
  apply mends_bind; [apply read_record_mends|]. intros [c d]. by destruct (c <? id).
Qed.
Lemma identity_lookup_mends id : mends mended_log (identity_lookup id).
Proof.
  intros log log' a. unfold identity_lookup. rewrite !SE_get_bind.
  apply (on_file_mends (low ← lookup_loop 64 id 0 (il_count log); _)).
  apply mends_bind; [apply lookup_loop_mends|]. intros low. destruct (_ <? _); [|apply mends_ret].
  apply mends_bind; [apply read_record_mends|]. intros [c d]. apply mends_ret.
Qed.
Lemma identity_insert_mends id d : mends mended_log (identity_insert id d).
Proof.
  intros log log' a. unfold identity_insert.
  change (il_last_id (mended_log log)) with (il_last_id log).
  cbv [mbind SE_bind get lift]. change (il_last_id (mended_log log)) with (il_last_id log).
  destruct (reject _ _); [|done..]. destruct (hex_decode_32 d) as [digest|e|]; [|done..].
  destruct (on_file _ log) as [log1 [[]|e|]] eqn:E; [|done..].
  rewrite (on_file_mends _ (write_end_mends _ _) _ _ _ E). cbn [mended_log IdentityLog.set_file il_count il_file].
  destruct (ok_or _ _); [|done..]. unfold put. by intros [= <- <-].
Qed.
Lemma identity_sync_mends : mends mended_log identity_sync.
Proof.
  intros log log' a. unfold identity_sync. cbv [mbind SE_bind get mret SE_ret].
  change (il_dirty (mended_log log)) with (il_dirty log). destruct (il_dirty log); [|by intros [= <- <-]].
  change (il_count (mended_log log)) with (il_count log).
  destruct (on_file _ log) as [log1 [[]|e|]] eqn:E; [|done..].
  rewrite (on_file_mends _ (write_start_mends _ _) _ _ _ E). unfold modify. by intros [= <- <-].
Qed.

Lemma durable_insert_mends id d : mends mended (durable_insert id d).
Proof.
  intros s s' a. unfold durable_insert. cbv [mbind SE_bind get put lift mret SE_ret].
  cbn [mended set_durable tu_durable]. destruct (tu_durable s) as [log|] eqn:Hd; cbn.
  - destruct (identity_insert id d log) as [log1 [[]|e|]] eqn:E; [|done..].
    rewrite (identity_insert_mends _ _ _ _ _ E). by intros [= <- <-].
  - intros [= <- <-]. unfold mended. by rewrite Hd.
Qed.
Lemma durable_sync_mends : mends mended durable_sync.
Proof.
  intros s s' a. unfold durable_sync. cbv [mbind SE_bind get put lift].
  cbn [mended set_durable tu_durable]. destruct (tu_durable s) as [log|] eqn:Hd; cbn; [|done].
  destruct (identity_sync log) as [log1 [[]|e|]] eqn:E; [|done..].
  rewrite (identity_sync_mends _ _ _ E). by intros [= <- <-].
Qed.
Lemma durable_lookup_mends id : mends mended (durable_lookup id).
Proof.
  intros s s' a. unfold durable_lookup. cbv [mbind SE_bind get put lift mret SE_ret].
  cbn [mended set_durable tu_durable]. destruct (tu_durable s) as [log|] eqn:Hd; cbn.
  - destruct (identity_lookup id log) as [log1 [o|e|]] eqn:E; [|done..].
    rewrite (identity_lookup_mends _ _ _ _ E). by intros [= <- <-].
  - intros [= <- <-]. unfold mended. by rewrite Hd.
Qed.

Lemma drain_loop_mends w buffer batch b : mends mended (drain_loop w buffer batch b).
Proof.
  revert batch b. induction buffer as [|[id e] rest IH]; intros batch b; cbn [drain_loop]; [apply mends_ret|].
  destruct (w <=? id); [apply mends_ret|]. apply mends_bind; [by apply mends_modify|]. intros _.
  intros s s' r. cbv [mbind SE_bind get lift put modify].
  change (tu_last_published_id (mended s)) with (tu_last_published_id s).
  destruct (reject _ _); [|done..]. set (s1 := set_published _ _ s).
  change (set_published (Some id) _ (mended s)) with (mended s1).
  destruct (durable_insert _ _ s1) as [s2 [i|er|]] eqn:E; [|done..].
  rewrite (durable_insert_mends _ _ _ _ _ E). apply IH.
Qed.
Lemma drain_mends : mends mended drain.
Proof.
  intros s s' d. unfold drain. rewrite !SE_get_bind.
  change (emission_watermark (mended s)) with (emission_watermark s). cbn [mended set_durable tu_lane_next tu_buffer].
  fold (mended s).
  assert (∀ w, mends mended ('(batch, inserted_identity) ← drain_loop w (tu_buffer s) [] false;
      (if inserted_identity : bool then durable_sync else mret ());;
      mret (match batch with [] => Buffered | _ => Publishable batch end))) as Hm.
  { intros w. apply mends_bind; [apply drain_loop_mends|]. intros [batch [|]].
    - apply mends_bind; [apply durable_sync_mends|]. intros _. apply mends_ret.
    - apply mends_bind; [apply mends_ret|]. intros _. apply mends_ret. }
  destruct (emission_watermark s), (lm_primary (tu_lane_next s)), (lm_shadow (tu_lane_next s)); try apply Hm; by apply (mends_ret mended Buffered).
Qed.
Lemma classify_late_mends id o : mends mended (classify_late id o).
Proof.
  intros s s' d. unfold classify_late. rewrite !SE_get_bind.
  change (tu_corrected (mended s)) with (tu_corrected s). change (tu_published (mended s)) with (tu_published s).
  destruct (tu_corrected s !! id); [apply mends_ret|].
  apply mends_bind; [apply durable_lookup_mends|]. intros k.
  destruct (bt_get id (tu_published s)); [apply mends_ret|]. destruct k; [apply mends_ret|].
  apply (mends_bind mended (modify _)); [by apply mends_modify|]. intros _. apply mends_ret.
Qed.
Lemma advance_lane_mended lane id s : advance_lane lane id (mended s) = mended (advance_lane lane id s).
Proof. unfold advance_lane. cbn [mended set_durable tu_lane_next]. by case_match. Qed.
Lemma union_observe_mends lane o : mends mended (union_observe lane o).
Proof.
  unfold union_observe. apply mends_bind; [apply mends_lift|]. intros id s s' d.
  rewrite !SE_get_bind.
  change (tu_consumed_floor (mended s)) with (tu_consumed_floor s).
  change (tu_last_published_id (mended s)) with (tu_last_published_id s).
  change (tu_buffer (mended s)) with (tu_buffer s).
  destruct (match tu_consumed_floor s with Some _ => _ | None => _ end); [apply mends_ret|].
  destruct (match tu_last_published_id s with Some _ => _ | None => _ end); [apply classify_late_mends|].
  assert (∀ b, (put (set_buffer b s);; modify (advance_lane lane id);; drain) s = (s', Ok d) →
    (put (set_buffer b (mended s));; modify (advance_lane lane id);; drain) (mended s) = (mended s', Ok d)) as Hput.
  { intros b. change (set_buffer b (mended s)) with (mended (set_buffer b s)).
    cbv [mbind SE_bind put modify]. rewrite advance_lane_mended. apply drain_mends. }
  destruct (bt_get id (tu_buffer s)) as [e|]; [|apply Hput].
  destruct (negb _); [apply mends_ret|apply Hput].
Qed.
Lemma union_step_mends op : mends mended (union_step op).
Proof.
  destruct op; cbn [union_step].
  1-4: apply mends_bind; [apply mends_modify|intros _; apply mends_ret].
  - intros s. unfold register_lane. cbn [mended set_durable tu_lane_next]. by case_match.
  - done.
  - done.
  - done.
  - apply mends_bind; [|intros _; apply mends_ret]. unfold fast_forward. apply mends_bind; [apply mends_lift|]. intros id.
    apply mends_bind; [apply mends_modify; intros s; apply advance_lane_mended|]. intros _. apply mends_modify.
    intros s. cbn [mended set_durable tu_consumed_floor]. by destruct (match tu_consumed_floor s with Some _ => _ | None => _ end).
  - apply mends_bind; [apply union_observe_mends|]. intros d. apply mends_ret.
  - apply mends_bind; [apply drain_mends|]. intros d. apply mends_ret.
Qed.
Lemma run_union_mends ops s s' a o : run_union ops s = Ok (s', a, o, true) → run_union ops (mended s) = Ok (mended s', a, o, true).
Proof.
  revert s s' a o. induction ops as [|op ops IH]; intros s s' a o; cbn [run_union]; [by intros [= <- <- <-]|].
  destruct (union_step op s) as [s1 [[a1 o1]|e|]] eqn:E; [| |done].
  - rewrite (union_step_mends _ _ _ _ E). intros ([[[s2 a2] o2] ok] & H & [= <- <- <- ->])%res_bind_Ok.
    by rewrite (IH _ _ _ _ H).
  - intros ([[[s2 a2] o2] ok] & H & [=])%res_bind_Ok.
Qed.

(** *** No call panics *)

Lemma read_record_calm i f : (read_record_at i f).2 ≠ Panic.
Proof.
  unfold read_record_at. cbv [mbind SE_bind lift]. destruct (checked_mul _ _); [|done]. cbn [ok_or].
  destruct (checked_add _ _); [|done]. cbn [ok_or]. unfold read_exact_at. cbv [mbind SE_bind].
  destruct (next_io_cases f) as ([|k] & -> & _); cbv [get lift throw mret SE_ret mbind SE_bind]; [|done].
  unfold reject. by destruct (_ <? _).
Qed.
Lemma lookup_loop_calm fuel id low high f : high - low < 2 ^ Z.of_nat fuel → (lookup_loop fuel id low high f).2 ≠ Panic.
Proof.
  revert low high f. induction fuel as [|fuel IH]; intros low high f Hf; cbn [lookup_loop];
    destruct (Z.leb_spec high low); try done; [cbn in Hf; lia|].
  rewrite Nat2Z.inj_succ, Z.pow_succ_r in Hf by lia. set (d := (high - low) / 2).
  assert (0 ≤ d ∧ 2 * d ≤ high - low < 2 * d + 2) as Hd.
  { unfold d. pose proof (Z.mul_div_le (high - low) 2). pose proof (Z.mul_succ_div_gt (high - low) 2).
    pose proof (Z.div_pos (high - low) 2). lia. }
  pose proof (read_record_calm (low + d) f) as Hr. unfold mbind, SE_bind.
  destruct (read_record_at (low + d) f) as [f1 [[c g]|e|]]; try done. destruct (c <? id); apply IH; lia.
Qed.

(** What a call on the log leaves: a log whose count is a [u64]. *)
Definition log_call {A} (m : SE TradeIdentityLog A) : Prop := ∀ log log' r, m log = (log', r) →
  in_u64 (il_count log) → in_u64 (il_count log') ∧ r ≠ Panic.

Lemma identity_lookup_call id : log_call (identity_lookup id).
Proof.
  intros log log' r. unfold identity_lookup. rewrite SE_get_bind. unfold on_file.
  match goal with |- context [let '(_, _) := ?x in _] => destruct x as [f r'] eqn:E end. intros [= <- <-] Hc. split; [done|]. intros ->.
  revert E. unfold mbind, SE_bind.
  pose proof (lookup_loop_calm 64 id 0 (il_count log) (il_file log)) as Hl.
  destruct (lookup_loop 64 id 0 (il_count log) (il_file log)) as [f1 [low|e|]]; [|done|].
  - destruct (_ <? _); [|done]. pose proof (read_record_calm low f1).
    by destruct (read_record_at low f1) as [f2 [[c d]|e|]].
  - intros _. apply Hl; [|done]. unfold in_u64, u64_max in Hc. cbn. lia.
Qed.
Lemma identity_insert_call id d : log_call (identity_insert id d).
Proof.
  intros log log' r. unfold identity_insert. cbv [mbind SE_bind get lift put on_file].
  unfold reject at 1. destruct (match il_last_id log with Some _ => _ | None => _ end); [by intros [= <- <-]|].
  unfold hex_decode_32. unfold reject. destruct (_ || _); cbn [mbind res_bind]; [by intros [= <- <-]|].
  destruct (write_end_cases "write trade identity record" (to_le_bytes 8 id ++ hex_pairs (str_chars d)) (il_file log))
    as (f & r' & -> & _ & [(-> & _)|(e & n & -> & _)]); [|by intros [= <- <-]].
  cbn [IdentityLog.set_file il_count il_file]. destruct (checked_add _ _) as [c|] eqn:E; cbn [ok_or]; [|by intros [= <- <-]].
  intros [= <- <-] Hc. apply checked_add_Some in E as [E ->]. split; [|done]. unfold in_u64 in *. cbn. lia.
Qed.
Lemma identity_sync_call : log_call identity_sync.
Proof.
  intros log log' r. unfold identity_sync. cbv [mbind SE_bind get lift modify mret SE_ret on_file].
  destruct (il_dirty log); [|by intros [= <- <-]].
  destruct (write_start_cases "sync trade identity header" (header_bytes (il_count log)) (il_file log))
    as (f & r' & -> & _ & [(-> & _)|(e & n & -> & _)]); by intros [= <- <-].
Qed.

Definition durable_ok (d : option TradeIdentityLog) : Prop := ∀ log, d = Some log → in_u64 (il_count log).

(** What a call on the log does to the union: nothing but to the log. *)
Definition durable_call {A} (m : SE TradeUnionState A) : Prop := ∀ s s' r, m s = (s', r) →
  durable_ok (tu_durable s) → is_Some (tu_durable s) →
  ∃ log, s' = set_durable (Some log) s ∧ in_u64 (il_count log) ∧ r ≠ Panic.
Lemma durable_insert_call id d : durable_call (durable_insert id d).
Proof.
  intros s s' r. unfold durable_insert. cbv [mbind SE_bind get put lift mret SE_ret].
  intros H Hok [log Hd]. rewrite Hd in H. destruct (identity_insert id d log) as [log1 r1] eqn:E.
  destruct (identity_insert_call _ _ _ _ _ E (Hok _ Hd)). exists log1. destruct r1; by injection H as <- <-.
Qed.
Lemma durable_sync_call : durable_call durable_sync.
Proof.
  intros s s' r. unfold durable_sync. cbv [mbind SE_bind get put lift].
  intros H Hok [log Hd]. rewrite Hd in H. cbn [expect] in H. destruct (identity_sync log) as [log1 r1] eqn:E.
  destruct (identity_sync_call _ _ _ E (Hok _ Hd)). exists log1. destruct r1; by injection H as <- <-.
Qed.
Lemma durable_lookup_call id : durable_call (durable_lookup id).
Proof.
  intros s s' r. unfold durable_lookup. cbv [mbind SE_bind get put lift mret SE_ret].
  intros H Hok [log Hd]. rewrite Hd in H. destruct (identity_lookup id log) as [log1 r1] eqn:E.
  destruct (identity_lookup_call _ _ _ _ E (Hok _ Hd)). exists log1. destruct r1; by injection H as <- <-.
Qed.

(** *** Order *)

(** What holds however the calls on the log end. [delivered] are all observations so far,
    [arrivals] the accepted ones. *)
Record order_inv (floor : option Z) (delivered arrivals : list arrival) (s : TradeUnionState)
    (out : list arrival) : Prop := {
  oi_sorted : StronglySorted Z.lt (tu_buffer s).*1;
  oi_entries : Forall (entry_ok delivered) (tu_buffer s);
  oi_above : ∀ l, tu_last_published_id s = Some l → Forall (λ e, l < e.1) (tu_buffer s);
  oi_published : StronglySorted Z.lt (arrival_id <$> out);
  oi_out : Forall (λ p, p ∈ delivered ∧ (∀ f, floor = Some f → f < arrival_id p) ∧
    ∃ l, tu_last_published_id s = Some l ∧ arrival_id p ≤ l) out;
  oi_floor : ∀ f, floor = Some f → ∃ l, tu_last_published_id s = Some l ∧ f ≤ l;
  oi_arrived : Forall (λ p, (∃ f, tu_consumed_floor s = Some f ∧ arrival_id p ≤ f) ∨
    arrival_id p ∈ (tu_buffer s).*1 ∨ ∃ l, tu_last_published_id s = Some l ∧ arrival_id p ≤ l) arrivals;
  oi_durable : durable_ok (tu_durable s)
}.

Section order_theory.
Context (floor : option Z).

Lemma order_prefix del arr arr2 s out out2 :
  order_inv floor del (arr ++ arr2) s (out ++ out2) → order_inv floor del arr s out.
Proof.
  intros [H1 H2 H3 H4 H5 H6 H7 H8]. split; try done.
  - rewrite fmap_app in H4. by eapply StronglySorted_app_1_l.
  - by apply Forall_app in H5 as [? _].
  - by apply Forall_app in H7 as [? _].
Qed.

Lemma order_more del p arr s out : order_inv floor del arr s out → order_inv floor (del ++ [p]) arr s out.
Proof.
  intros [H1 H2 H3 H4 H5 H6 H7 H8]. split; try done.
  - eapply Forall_impl; [exact H2|]. intros x (lane & d & more & ? & ? & ?). exists lane, d, more. set_solver.
  - eapply Forall_impl; [exact H5|]. set_solver.
Qed.

(** A change of the lanes, of the floor or of the log. *)
Lemma order_frame del arr s s' out :
  order_inv floor del arr s out → tu_buffer s' = tu_buffer s →
  tu_last_published_id s' = tu_last_published_id s → durable_ok (tu_durable s') →
  (∀ f, tu_consumed_floor s = Some f → ∃ f', tu_consumed_floor s' = Some f' ∧ f ≤ f') →
  order_inv floor del arr s' out.
Proof.
  intros [H1 H2 H3 H4 H5 H6 H7 H8] E1 E2 Hd Hf. split; rewrite ?E1, ?E2; try done.
  eapply Forall_impl; [exact H7|]. intros p [(f & Hp & Hle)|?]; [|by right].
  left. destruct (Hf f Hp) as (f' & ? & ?). exists f'. split; [done|lia].
Qed.

(** The first buffered entry becomes the last published one. *)
Lemma order_emitted del arr s s' out id e rest :
  order_inv floor del arr s out → tu_buffer s = (id, e) :: rest → tu_buffer s' = rest →
  tu_last_published_id s' = Some id → tu_consumed_floor s' = tu_consumed_floor s → durable_ok (tu_durable s') →
  let lane := match ue_lineages e with (lane, _) :: _ => lane | [] => Primary end in
  order_inv floor del arr s' (out ++ [(lane, ue_observation e)]).
Proof.
  intros [H1 H2 H3 H4 H5 H6 H7 H8] Hb E1 E2 E3 Hd lane. rewrite Hb in *.
  apply Forall_cons in H2 as [(l0 & d0 & more & Hlin & Harr & Hid & _) H2].
  rewrite fmap_cons in H1. apply StronglySorted_inv in H1 as [Hs Hgt]. cbn [fst snd] in *.
  assert ((lane, ue_observation e) = (l0, ue_observation e)) as -> by (unfold lane; by rewrite Hlin).
  assert (∀ l, tu_last_published_id s = Some l → l < id) as Habove.
  { intros l Hl. specialize (H3 l Hl). by apply Forall_inv in H3. }
  split; rewrite ?E1, ?E2, ?E3; try done.
  - intros l [= <-]. by rewrite Forall_fmap in Hgt.
  - rewrite fmap_app. apply sorted_snoc; [done|]. rewrite Forall_fmap. eapply Forall_impl; [exact H5|].
    intros p (_ & _ & l & Hl & Hle). specialize (Habove l Hl). cbn in *. rewrite Hid. lia.
  - apply Forall_app. split.
    + eapply Forall_impl; [exact H5|]. intros p (? & ? & l & Hl & Hle). specialize (Habove l Hl).
      split_and!; try done. exists id. split; [done|lia].
    + apply Forall_singleton. rewrite Hid. split_and!; [done| |by exists id; split; [|lia]].
      intros f Hf. destruct (H6 f Hf) as (l & Hl & ?). specialize (Habove l Hl). lia.
  - intros f Hf. destruct (H6 f Hf) as (l & Hl & ?). specialize (Habove l Hl). exists id. split; [done|lia].
  - eapply Forall_impl; [exact H7|]. intros p [?|[Hin|(l & Hl & Hle)]]; [by left| |].
    + cbn in Hin. rewrite elem_of_cons in Hin. destruct Hin as [->|Hin]; [|by right; left].
      right; right. exists id. split; [done|lia].
    + right; right. specialize (Habove l Hl). exists id. split; [done|lia].
Qed.

Lemma durable_insert_order id d s s' r :
  durable_insert id d s = (s', r) → durable_ok (tu_durable s) →
  (∃ dur, s' = set_durable dur s ∧ durable_ok dur) ∧ r ≠ Panic ∧ (is_Some (tu_durable s) → is_Some (tu_durable s')) ∧
  (r = Ok true → is_Some (tu_durable s')).
Proof.
  intros H Hok. destruct (tu_durable s) as [log|] eqn:Hd.
  - rewrite <-Hd in Hok. destruct (durable_insert_call _ _ _ _ _ H Hok) as (log' & -> & Hc & Hr); [by eexists|].
    split_and!; try done. exists (Some log'). split; [done|]. by intros ? [= <-].
  - unfold durable_insert in H. cbv [mbind SE_bind get mret SE_ret] in H. rewrite Hd in H. injection H as <- <-.
    split_and!; try done. exists None. split; [|done]. destruct s. cbn in *. by rewrite Hd.
Qed.

Lemma drain_loop_order del arr w buffer s out batch b s' r :
  order_inv floor del arr s (out ++ batch) → tu_buffer s = buffer → drain_loop w buffer batch b s = (s', r) →
  r ≠ Panic ∧ order_inv floor del arr s' out ∧ (is_Some (tu_durable s) → is_Some (tu_durable s')) ∧
  match r with
  | Ok (batch', b') => order_inv floor del arr s' (out ++ batch') ∧ (b' = true → b = true ∨ is_Some (tu_durable s'))
  | _ => True
  end.
Proof.
  revert s batch b. induction buffer as [|[id e] rest IH]; intros s batch b Hinv Hb;
    (assert (order_inv floor del arr s out) as Hinv0 by (apply (order_prefix _ _ [] _ _ batch); by rewrite app_nil_r));
    cbn [drain_loop].
  { cbv [mret SE_ret]. intros [= <- <-]. split_and!; try done. by left. }
  destruct (w <=? id). { cbv [mret SE_ret]. intros [= <- <-]. split_and!; try done. by left. }
  cbv [mbind SE_bind get lift modify put]. rewrite (proj2 (reject_Ok _ _ ())).
  2: { cbn. destruct (tu_last_published_id s) as [l|] eqn:Hl; [|done]. apply Z.leb_gt.
       pose proof (oi_above _ _ _ _ _ Hinv l Hl) as H. rewrite Hb in H. by apply Forall_inv in H. }
  set (s1 := set_published (Some id) _ _). destruct (durable_insert _ _ s1) as [s2 r2] eqn:E.
  destruct (durable_insert_order _ _ _ _ _ E) as ((dur & -> & Hdur) & Hr2 & Hsome & Hok); [apply Hinv|].
  assert (∀ pub, order_inv floor del arr (set_published (Some id) pub (set_durable dur s1))
    ((out ++ batch) ++ [(match ue_lineages e with (lane, _) :: _ => lane | [] => Primary end, ue_observation e)])) as Hem.
  { intros pub. by eapply order_emitted. }
  destruct r2 as [i|er|]; [|intros [= <- <-]|done].
  - intros H. apply IH in H; [|rewrite app_assoc; apply Hem|done]. destruct H as (H1 & H2 & H3 & H4).
    split_and!; try done; [tauto|]. destruct r as [[batch' b']|?|]; try done. destruct H4 as [H4 H5]. split; [done|].
    intros Ht. destruct (H5 Ht) as [Hor|?]; [|by right]. apply orb_true_iff in Hor as [?| ->]; [by left|].
    right. apply H3. by apply Hok.
  - split_and!; try done. specialize (Hem (tu_published s1)). rewrite <-app_assoc, <-(app_nil_r arr) in Hem.
    by apply order_prefix in Hem.
Qed.

Lemma drain_order del arr s out s' r :
  order_inv floor del arr s out → drain s = (s', r) →
  r ≠ Panic ∧ order_inv floor del arr s' (out ++ match r with Ok d => batch_of d | _ => [] end) ∧
  match r with Ok d => accepted d = true | _ => True end.
Proof.
  intros Hinv. unfold drain. rewrite SE_get_bind.
  assert (∀ w, ('(batch, inserted_identity) ← drain_loop w (tu_buffer s) [] false;
      (if inserted_identity : bool then durable_sync else mret ());;
      mret (match batch with [] => Buffered | _ => Publishable batch end)) s = (s', r) →
    r ≠ Panic ∧ order_inv floor del arr s' (out ++ match r with Ok d => batch_of d | _ => [] end) ∧
    match r with Ok d => accepted d = true | _ => True end) as Hrun.
  { intros w. unfold mbind at 1, SE_bind at 1. destruct (drain_loop w (tu_buffer s) [] false s) as [s1 r1] eqn:E.
    apply (drain_loop_order del arr _ _ _ out) in E as (H1 & H2 & _ & H4); [|by rewrite app_nil_r|done].
    destruct r1 as [[batch b]|e|]; [|intros [= <- <-]; by rewrite app_nil_r|done]. destruct H4 as [H4 H5].
    assert (∀ s2, order_inv floor del arr s2 (out ++ batch) → order_inv floor del arr s2 (out ++
      batch_of (match batch with [] => Buffered | _ => Publishable batch end))) as Hb by (by destruct batch).
    destruct b; cbv [mbind SE_bind mret SE_ret]; [|intros [= <- <-]; split_and!; [done|by apply Hb|by destruct batch]].
    destruct (durable_sync s1) as [s2 r2] eqn:Es.
    destruct (durable_sync_call _ _ _ Es) as (log & -> & Hc & Hr2); [apply H4|by destruct (H5 eq_refl)|].
    assert (∀ o, order_inv floor del arr s1 o → order_inv floor del arr (set_durable (Some log) s1) o) as Hset.
    { intros o Ho. apply (order_frame _ _ s1); try done; [by intros ? [= <-]|]. intros f Hf. exists f. split; [done|lia]. }
    destruct r2 as [[]|e|]; [intros [= <- <-]|intros [= <- <-]|done]; split_and!; try done.
    - by apply Hset, Hb.
    - by destruct batch.
    - rewrite app_nil_r. by apply Hset. }
  destruct (emission_watermark s), (lm_primary (tu_lane_next s)), (lm_shadow (tu_lane_next s)); try apply Hrun;
    (cbv [mret SE_ret]; intros [= <- <-]; by rewrite app_nil_r).
Qed.

Lemma classify_late_order del arr s out id o s' r :
  order_inv floor del arr s out → classify_late id o s = (s', r) →
  r ≠ Panic ∧ order_inv floor del arr s' out ∧ match r with Ok d => accepted d = false ∧ batch_of d = [] | _ => True end.
Proof.
  intros Hinv. unfold classify_late. rewrite SE_get_bind.
  assert (∀ k, accepted (if String.eqb k (co_observation_sha256 o) then Late o Duplicate
      else Conflict id k (co_observation_sha256 o)) = false ∧
    batch_of (if String.eqb k (co_observation_sha256 o) then Late o Duplicate
      else Conflict id k (co_observation_sha256 o)) = []) as Hans by (intros k; by destruct (String.eqb _ _)).
  destruct (tu_corrected s !! id); [cbv [mret SE_ret]; intros [= <- <-]; by split_and!; [..|apply Hans|apply Hans]|].
  assert (∀ s1 r1, durable_lookup id s = (s1, r1) → r1 ≠ Panic ∧ order_inv floor del arr s1 out) as Hlook.
  { intros s1 r1 E. destruct (tu_durable s) as [log|] eqn:Hd.
    - destruct (durable_lookup_call _ _ _ _ E) as (log' & -> & Hc & Hr); [apply Hinv|by eexists|]. split; [done|].
      apply (order_frame _ _ s); try done; [by intros ? [= <-]|]. intros f Hf. exists f. split; [done|lia].
    - unfold durable_lookup in E. cbv [mbind SE_bind get mret SE_ret] in E. rewrite Hd in E. by injection E as <- <-. }
  unfold mbind at 1, SE_bind at 1. destruct (durable_lookup id s) as [s1 r1]. destruct (Hlook _ _ eq_refl) as [Hr1 Hinv1].
  destruct r1 as [k|e|]; [|by intros [= <- <-]|done].
  destruct (bt_get id (tu_published s)); [cbv [mret SE_ret]; intros [= <- <-]; by split_and!; [..|apply Hans|apply Hans]|].
  destruct k; cbv [mret SE_ret mbind SE_bind modify]; intros [= <- <-]; [by split_and!; [..|apply Hans|apply Hans]|].
  split_and!; try done. apply (order_frame _ _ s1); try done; [apply Hinv1|]. intros f Hf. exists f. split; [done|lia].
Qed.

Lemma union_observe_order del arr s out p s' r :
  order_inv floor del arr s out → valid_trade p → union_observe p.1 p.2 s = (s', r) →
  r ≠ Panic ∧
  order_inv floor (del ++ [p]) (arr ++ match r with Ok d => if accepted d then [p] else [] | _ => [] end) s'
    (out ++ match r with Ok d => batch_of d | _ => [] end).
Proof.
  intros Hinv [Hdel Hid]. unfold union_observe. unfold mbind at 1, SE_bind at 1, lift. rewrite Hid, SE_get_bind.
  apply (order_more _ p) in Hinv. fold (behind (tu_consumed_floor s) (arrival_id p)).
  destruct (behind (tu_consumed_floor s) (arrival_id p)) eqn:Hfl.
  { cbv [mret SE_ret]. intros [= <- <-]. split; [done|]. cbn [accepted batch_of]. rewrite app_nil_r.
    destruct Hinv as [H1 H2 H3 H4 H5 H6 H7 H8]. split; try done. apply Forall_app. split; [done|].
    apply Forall_singleton. left. unfold behind in Hfl. destruct (tu_consumed_floor s) as [f|]; [|done].
    exists f. split; [done|lia]. }
  fold (behind (tu_last_published_id s) (arrival_id p)).
  destruct (behind (tu_last_published_id s) (arrival_id p)) eqn:Hl.
  { intros H. apply (classify_late_order _ _ _ _ _ _ _ _ Hinv) in H as (H1 & H2 & H3). split; [done|].
    destruct r as [d|e|]; [destruct H3 as [-> ->]|..]; by rewrite !app_nil_r. }
  assert (∀ e, entry_ok (del ++ [p]) (arrival_id p, e) →
    (put (set_buffer (bt_insert (arrival_id p) e (tu_buffer s)) s);;
     modify (advance_lane p.1 (arrival_id p));; drain) s = (s', r) →
    r ≠ Panic ∧
    order_inv floor (del ++ [p]) (arr ++ match r with Ok d => if accepted d then [p] else [] | _ => [] end) s'
      (out ++ match r with Ok d => batch_of d | _ => [] end)) as Hput.
  { intros e He. cbv [mbind SE_bind put modify]. set (s1 := set_buffer _ s). intros H.
    pose proof (advance_lane_frame p.1 (arrival_id p) s1) as (F1 & F2 & F3 & F4 & F5 & F6 & F7).
    assert (order_inv floor (del ++ [p]) (arr ++ [p]) s1 out) as Hinv1.
    { destruct Hinv as [H1 H2 H3 H4 H5 H6 H7 H8].
      split; cbn [s1 set_buffer tu_buffer tu_last_published_id tu_durable tu_consumed_floor]; try done.
      - by apply bt_insert_sorted.
      - by apply bt_insert_Forall.
      - intros l E. apply bt_insert_Forall; [by eapply not_behind|by apply H3].
      - apply Forall_app. split.
        + eapply Forall_impl; [exact H7|]. intros q [?|[?|?]]; [by left| |by right; right].
          right; left. apply bt_insert_keys. by right.
        + apply Forall_singleton. right; left. apply bt_insert_keys. by left. }
    apply (order_frame _ _ s1 (advance_lane p.1 (arrival_id p) s1)) in Hinv1;
      [|done|done|by rewrite F5; apply Hinv|intros f Hf; exists f; rewrite F6; split; [done|lia]].
    apply (drain_order _ _ _ _ _ _ Hinv1) in H as (H1 & H2 & H3). split; [done|].
    destruct r as [d|er|]; [by rewrite H3| |done]. apply (order_prefix _ _ [p] _ _ []). by rewrite !app_nil_r in *. }
  destruct (bt_get (arrival_id p) (tu_buffer s)) as [e|] eqn:He.
  - destruct (negb _).
    { cbv [mret SE_ret]. intros [= <- <-]. split; [done|]. cbn [accepted batch_of]. by rewrite !app_nil_r. }
    apply Hput. apply bt_get_elem in He. pose proof (oi_entries _ _ _ _ _ Hinv) as Hents. rewrite Forall_forall in Hents.
    destruct (Hents _ He) as (lane & dg & more & Hlin & Harr & Hids & Hd2). cbn [fst snd] in *.
    eexists lane, dg, _. cbn [fst snd ue_lineages ue_observation]. rewrite Hlin. by split_and!.
  - apply Hput. exists p.1, (co_record_sha256 p.2), []. cbn [fst snd ue_lineages ue_observation].
    destruct p as [lane o]. split_and!; try done. set_solver.
Qed.

(** The observation a call delivers. *)
Definition delivers (op : union_op) : list arrival := match op with UoObserve p => [p] | _ => [] end.

Lemma union_step_order op del arr s out s' r :
  order_inv floor del arr s out → union_op_valid op → union_step op s = (s', r) →
  r ≠ Panic ∧ order_inv floor (del ++ delivers op) (arr ++ match r with Ok (a, _) => a | _ => [] end) s'
    (out ++ match r with Ok (_, o) => o | _ => [] end).
Proof.
  intros Hinv Hop.
  assert (∀ s1, tu_buffer s1 = tu_buffer s → tu_last_published_id s1 = tu_last_published_id s →
    tu_durable s1 = tu_durable s →
    (∀ f, tu_consumed_floor s = Some f → ∃ f', tu_consumed_floor s1 = Some f' ∧ f ≤ f') →
    order_inv floor (del ++ []) (arr ++ []) s1 (out ++ [])) as Hquiet.
  { intros s1 E1 E2 E3 Hf. rewrite !app_nil_r. apply (order_frame _ _ s); try done. rewrite E3. apply Hinv. }
  assert (∀ s1, tu_consumed_floor s1 = tu_consumed_floor s →
    ∀ f, tu_consumed_floor s = Some f → ∃ f', tu_consumed_floor s1 = Some f' ∧ f ≤ f') as Hsame.
  { intros s1 E f Hf. exists f. rewrite E. split; [done|lia]. }
  destruct op as [lane|lane|lane bound|lane|p|p|]; cbn [union_step delivers union_op_valid] in *.
  1-4: cbv [mbind SE_bind modify mret SE_ret]; intros [= <- <-]; split; [done|]; apply Hquiet; try done;
    try (by apply Hsame).
  1-3: unfold register_lane; by case_match.
  - apply Hsame. unfold register_lane. by case_match.
  - destruct Hop as [_ Hid]. unfold fast_forward. cbv [mbind SE_bind lift modify mret SE_ret]. rewrite Hid.
    pose proof (advance_lane_frame p.1 (arrival_id p) s) as (F1 & F2 & F3 & F4 & F5 & F6 & F7).
    intros [= <- <-]. split; [done|]. apply Hquiet; try (by case_match).
    intros f Hf. rewrite F6, Hf. destruct (Z.ltb_spec f (arrival_id p)); cbn.
    + eexists. split; [done|lia].
    + exists f. rewrite F6, Hf. split; [done|lia].
  - unfold mbind, SE_bind. destruct (union_observe p.1 p.2 s) as [s1 r1] eqn:E.
    apply (union_observe_order _ _ _ _ _ _ _ Hinv Hop) in E as [Hr1 Hi].
    destruct r1 as [d|e|]; [intros [= <- <-]|intros [= <- <-]|done]; by split.
  - unfold flush_union, mbind, SE_bind. destruct (drain s) as [s1 r1] eqn:E.
    apply (drain_order _ _ _ _ _ _ Hinv) in E as (Hr1 & Hi & _).
    destruct r1 as [d|e|]; [intros [= <- <-]|intros [= <- <-]|done]; split; try done; by rewrite !app_nil_r in *.
Qed.

Lemma run_union_order ops del arr s out :
  order_inv floor del arr s out → Forall union_op_valid ops →
  ∃ s' a o ok, run_union ops s = Ok (s', a, o, ok) ∧
    order_inv floor (del ++ (ops ≫= delivers)) (arr ++ a) s' (out ++ o).
Proof.
  revert del arr s out. induction ops as [|op ops IH]; intros del arr s out Hinv Hops; cbn [run_union].
  { eexists _, _, _, _. split; [reflexivity|]. cbn. by rewrite !app_nil_r. }
  apply Forall_cons in Hops as [Hop Hops]. destruct (union_step op s) as [s1 r] eqn:E.
  apply (union_step_order _ _ _ _ _ _ _ Hinv Hop) in E as [Hr Hi].
  destruct (IH _ _ _ _ Hi Hops) as (s2 & a & o & ok & -> & Hi2). cbn [mbind res_bind list_bind].
  change (list_bind _ _ delivers (op :: ops)) with (delivers op ++ (ops ≫= delivers)).
  destruct r as [[a1 o1]|e|]; [| |done]; eexists _, _, _, _; (split; [reflexivity|]); rewrite ?app_nil_r, <-?app_assoc in *; exact Hi2.
Qed.
End order_theory.

Lemma union_start_order prior floor log :
  resumable prior floor log → order_inv floor [] [] (union_start log floor) [].
Proof.
  intros [_ _ _ Hlog].
  assert (union_start log floor = mkUnion [] (mkLaneMap None None) floor None [] ∅ log
    (mkLaneMap None None)) as -> by (by destruct log, floor).
  split; cbn; try done; try (by constructor).
  - intros f ->. exists f. split; [done|lia].
  - intros l Hl. destruct (Hlog l Hl) as (c & Hh). unfold in_u64. rewrite (lh_count _ _ _ _ Hh).
    pose proof (lh_size _ _ _ _ Hh). pose proof (len_nonneg (entry <$> prior)). lia.
Qed.

(** C31: over every history the union publishes each trade at most once and in order,
    and as long as its calls succeed it loses none. Take a new union, or one resumed
    behind the trades [prior], any sequence of observations, lane and clamp changes,
    fast-forwards and flushes, and any failures of the calls on the identity log, after
    which the caller goes on. Nothing panics; the published IDs increase strictly and
    lie beyond everything published before, each published observation is one that a
    lane delivered, the buffered ones lie beyond the published ones, and every accepted
    observation is covered by the declared start of the canonical window, still
    buffered, or at or behind the published position. When every call succeeded, each
    accepted observation is covered by the start, buffered or published; and every call
    succeeds when the log does not fail. *)
Theorem trade_union_exactly_once prior floor log ops :
  resumable prior floor log → Forall union_op_valid ops →
  32 + 40 * (len prior + len ops) ≤ u64_max →
  ∃ s arrived out ok, run_union ops (union_start log floor) = Ok (s, arrived, out, ok) ∧
    StronglySorted Z.lt (prior.*1 ++ (arrival_id <$> out)) ∧
    Forall (λ p, UoObserve p ∈ ops ∧ ∀ f, floor = Some f → f < arrival_id p) out ∧
    Forall (λ i, ∀ p, p ∈ out → arrival_id p < i) (tu_buffer s).*1 ∧
    Forall (λ p, (∃ f, tu_consumed_floor s = Some f ∧ arrival_id p ≤ f) ∨ arrival_id p ∈ (tu_buffer s).*1 ∨
      ∃ l, tu_last_published_id s = Some l ∧ arrival_id p ≤ l) arrived ∧
    (ok = true → Forall (λ p, p ∈ arrived) out ∧
      Forall (λ p, (∃ f, tu_consumed_floor s = Some f ∧ arrival_id p ≤ f) ∨
        arrival_id p ∈ (tu_buffer s).*1 ∨ arrival_id p ∈ arrival_id <$> out) arrived) ∧
    (log_healthy log → ok = true).
Proof.
  intros Hr Hops Hroom.
  destruct (run_union_order floor ops [] [] _ [] (union_start_order _ _ _ Hr) Hops) as (s & a & o & ok & Hrun & Hi).
  exists s, a, o, ok. cbn [app] in Hi. pose proof Hi as [_ _ H3 H4 H5 _ H7 _].
  assert (Forall (λ p, UoObserve p ∈ ops ∧ ∀ f, floor = Some f → f < arrival_id p) o) as Hout.
  { eapply Forall_impl; [exact H5|]. intros p (Hin & Hf & _). split; [|done].
    apply list_elem_of_bind in Hin as (op & Hin & Hop). by destruct op; cbn in Hin; set_solver. }
  split; [done|]. split_and!; try done.
  - apply StronglySorted_app_2; [|apply Hr|done]. intros x y Hx Hy.
    apply list_elem_of_fmap in Hx as (k & -> & Hk). apply list_elem_of_fmap in Hy as (p & -> & Hp).
    destruct (rs_floor _ _ _ Hr k Hk) as (f & Hf & ?). rewrite Forall_forall in Hout.
    destruct (Hout p Hp) as [_ Hlt]. specialize (Hlt f Hf). lia.
  - apply Forall_fmap, Forall_forall. intros e He p Hp. rewrite Forall_forall in H5. destruct (H5 p Hp) as (_ & _ & l & Hl & ?).
    specialize (H3 l Hl). rewrite Forall_forall in H3. specialize (H3 e He). cbn in *. lia.
  - intros ->. apply run_union_mends in Hrun.
    assert (mended (union_start log floor) = union_start (mended_log <$> log) floor) as E by (by destruct log, floor).
    rewrite E in Hrun. assert (union_inv prior floor [] (union_start (mended_log <$> log) floor) []) as Hinv.
    { apply union_start_inv.
      - destruct Hr as [R1 R2 R3 R4]. split; try done. intros l Hl. destruct log as [l0|]; [|done]. injection Hl as <-.
        destruct (R4 l0 eq_refl) as (c & Hh). exists c. by apply log_holds_file.
      - intros l Hl. destruct log as [l0|]; [|done]. injection Hl as <-. constructor. }
    pose proof (room_start prior floor (mended_log <$> log)) as Er.
    destruct (run_union_Ok prior floor ops [] _ [] Hinv Hops ltac:(lia)) as (s2 & a2 & o2 & Hrun2 & Hi2 & _).
    rewrite Hrun in Hrun2. injection Hrun2 as <- <- <-. cbn [app] in Hi2. destruct Hi2 as [_ _ _ _ _ _ _ I8 _ _ _ I12].
    split; [|exact I12]. eapply Forall_impl; [exact I8|]. by intros p [? _].
  - intros Hh. pose proof (union_start_inv _ _ _ Hr Hh) as Hinv. pose proof (room_start prior floor log) as Er.
    destruct (run_union_Ok prior floor ops [] _ [] Hinv Hops ltac:(lia)) as (s2 & a2 & o2 & Hrun2 & _). congruence.
Qed.

(** A late delivery is always judged against everything ever published. In any
    history with an identity log that does not fail, resumed or not, an observation at or behind the
    published position is answered as a duplicate when the trade was published (or
    corrected) with the same content, as a conflict when with another, and as
    unknown only when it was published never: the bound of the cache and restarts
    make no difference. *)
Theorem late_delivery_judged_exactly prior floor log ops s arrived out p l :
  resumable prior floor (Some log) → healthy (il_file log) → Forall union_op_valid ops →
  32 + 40 * (len prior + len ops + 1) ≤ u64_max →
  run_union ops (union_start (Some log) floor) = Ok (s, arrived, out, true) →
  valid_trade p → tu_last_published_id s = Some l → arrival_id p ≤ l →
  (∀ f, tu_consumed_floor s = Some f → f < arrival_id p) →
  ∃ s', union_observe p.1 p.2 s
    = (s', Ok (late_answer (list_to_map (prior ++ (identity_of <$> out))) (tu_corrected s)
                 (arrival_id p) p.2)).
Proof.
  intros Hr Hheal Hops Hroom Hrun [Hdel Hid] Hl Hle Hfl.
  pose proof (union_start_inv _ _ _ Hr ltac:(by intros ? [= <-])) as Hinv.
  pose proof (room_start prior floor (Some log)) as Er.
  destruct (run_union_Ok prior floor ops [] _ [] Hinv Hops ltac:(lia))
    as (s1 & a & o & Hrun' & Hi & _ & Hd).
  rewrite Hrun in Hrun'. injection Hrun' as <- <- <-. cbn [app] in Hi.
  destruct (classify_late_cases prior floor arrived s out (arrival_id p) p.2 l Hi Hl Hle)
    as (s' & d & Hc & _ & _ & _ & _ & _ & Hans).
  destruct Hans as [-> _]; [by apply Hd; destruct floor; eexists|].
  exists s'. unfold union_observe. unfold mbind at 1 2, SE_bind at 1 2, lift, get. rewrite Hid.
  apply not_behind in Hfl. unfold behind in Hfl. rewrite Hfl, Hl, (proj2 (Z.leb_le _ _)) by done.
  exact Hc.
Qed.

(** *** The union of two ordered lanes *)

Definition lane_events (lane : CaptureLane) (evs : list arrival) : list arrival :=
  filter (λ p, p.1 = lane) evs.
(** The first ID a lane has not passed. *)
Definition lane_position (lane : CaptureLane) (evs : list arrival) : Z :=
  match last (lane_events lane evs) with Some p => arrival_id p + 1 | None => 0 end.

(** What the venue guarantees: every lane delivers its trades in order, and both
    carry the same trade under the same ID. *)
Record venue_ordered (evs : list arrival) : Prop := {
  vo_valid : Forall (λ p, valid_trade p ∧ arrival_id p < u64_max) evs;
  vo_order : ∀ lane, StronglySorted Z.lt (arrival_id <$> lane_events lane evs);
  vo_agree : ∀ p q, p ∈ evs → q ∈ evs → arrival_id p = arrival_id q →
    co_observation_sha256 p.2 = co_observation_sha256 q.2
}.

Lemma venue_ordered_prefix evs evs2 : venue_ordered (evs ++ evs2) → venue_ordered evs.
Proof.
  intros [H1 H2 H3]. split.
  - by apply Forall_app in H1 as [? _].
  - intros lane. specialize (H2 lane). unfold lane_events in *. rewrite filter_app, fmap_app in H2.
    by eapply StronglySorted_app_1_l.
  - intros. apply H3; set_solver.
Qed.

Lemma lane_position_snoc lane evs p :
  lane_position lane (evs ++ [p]) = if decide (p.1 = lane) then arrival_id p + 1 else lane_position lane evs.
Proof.
  unfold lane_position, lane_events. rewrite filter_app. case_decide as H.
  - rewrite filter_cons_True by done. rewrite filter_nil. by rewrite last_snoc.
  - rewrite filter_cons_False by done. rewrite filter_nil. by rewrite app_nil_r.
Qed.

(** The next trade of a lane is at or beyond its position. *)
Lemma lane_position_next evs p :
  venue_ordered (evs ++ [p]) → lane_position p.1 evs ≤ arrival_id p.
Proof.
  intros [H1 H2 _]. specialize (H2 p.1). unfold lane_position, lane_events in *.
  apply Forall_app in H1 as [_ H1]. apply Forall_inv in H1 as [[[Hu _] _] _].
  destruct (last _) as [q|] eqn:Hq; [|by destruct Hu]. apply last_Some_elem_of in Hq.
  rewrite filter_app, fmap_app, filter_cons_True in H2 by done.
  enough (arrival_id q < arrival_id p) by lia.
  eapply StronglySorted_app_1_elem_of; [exact H2|by apply list_elem_of_fmap_2|set_solver].
Qed.

(** Both lanes are live, unclamped and at their positions. *)
Record at_positions (evs : list arrival) (s : TradeUnionState) (out : list arrival) : Prop := {
  ap_inv : union_inv [] None evs s out;
  ap_lane : ∀ lane, lane_get lane (tu_lane_next s) = Some (lane_position lane evs);
  ap_clamps : tu_emission_clamps s = mkLaneMap None None;
  ap_floor : tu_consumed_floor s = None;
  ap_room : room [] s out ≤ len evs;
  ap_out : Forall (λ p, arrival_id p < Z.min (lane_position Primary evs) (lane_position Shadow evs)) out;
  ap_buffer : Forall (λ e, Z.min (lane_position Primary evs) (lane_position Shadow evs) ≤ e.1)
    (tu_buffer s);
  ap_ids : ∀ i, i ∈ arrival_id <$> out ∨ i ∈ (tu_buffer s).*1 ↔ i ∈ arrival_id <$> evs
}.

Lemma at_positions_watermark evs s out :
  at_positions evs s out →
  emission_watermark s = Some (Z.min (lane_position Primary evs) (lane_position Shadow evs)).
Proof.
  intros [_ Hl Hc _ _ _ _ _]. unfold emission_watermark, lane_bound. rewrite Hc.
  by rewrite (Hl Primary), (Hl Shadow).
Qed.

Lemma lane_get_set {A} lane lane' o (m : lane_map A) :
  lane_get lane (lane_set lane' o m) = if decide (lane' = lane) then o else lane_get lane m.
Proof. by destruct lane, lane'. Qed.

Lemma observe_at_positions evs s out p :
  at_positions evs s out → venue_ordered (evs ++ [p]) → 32 + 40 * (len evs + 1) ≤ u64_max →
  ∃ s' d, union_observe p.1 p.2 s = (s', Ok d) ∧ accepted d = true ∧
    at_positions (evs ++ [p]) s' (out ++ batch_of d).
Proof.
  intros [Hinv Hlane Hcl Hfl Hroom Hout Hbuf Hids] Hv Hsize.
  pose proof (lane_position_next _ _ Hv) as Hnext. pose proof Hv as [Hval _ Hagree].
  apply Forall_app in Hval as [_ Hval]. apply Forall_inv in Hval as [[Hdel Hid] Hmax].
  assert (Z.min (lane_position Primary evs) (lane_position Shadow evs) ≤ arrival_id p) as Hw
    by (destruct p as [[] ?]; cbn in *; lia).
  destruct (observe_fresh [] None evs s out p) as (s' & d & Hrun & [Ha Hi Hl Hc Hf Hd Hr Hi2 Hb Hab]);
    [done|done|lia|done|by rewrite Hfl| | |].
  { apply not_behind. intros l Hlast. rewrite (ui_last _ _ _ _ _ Hinv) in Hlast.
    destruct (last out) as [q|] eqn:Hq; [|done]. injection Hlast as <-. apply last_Some_elem_of in Hq.
    rewrite Forall_forall in Hout. specialize (Hout q Hq). cbn in Hout. lia. }
  { intros e He%bt_get_elem. pose proof (ui_entries _ _ _ _ _ Hinv) as Hents. rewrite Forall_forall in Hents.
    destruct (Hents _ He) as (lane & dg & more & _ & Harr & Heid & _).
    apply (Hagree (lane, ue_observation e) p); [set_solver|set_solver|done]. }
  exists s', d. split; [done|]. split; [done|].
  assert (∀ lane, lane_get lane (tu_lane_next s') = Some (lane_position lane (evs ++ [p]))) as Hlane'.
  { intros lane. rewrite Hl, lane_position_snoc. unfold advance_lane. rewrite (Hlane p.1).
    unfold saturating_add. rewrite Z.min_l by lia. rewrite (proj2 (Z.ltb_lt _ _)) by lia.
    cbn [set_lane_next tu_lane_next]. rewrite lane_get_set. case_decide; [done|apply Hlane]. }
  assert (emission_watermark s' = Some (Z.min (lane_position Primary (evs ++ [p]))
    (lane_position Shadow (evs ++ [p])))) as Hw'.
  { unfold emission_watermark, lane_bound. rewrite Hc, Hcl. by rewrite (Hlane' Primary), (Hlane' Shadow). }
  rewrite Hw' in Hb, Hab. unfold default, id in Hb, Hab.
  assert (∀ lane, lane_position lane evs ≤ lane_position lane (evs ++ [p])) as Hmono.
  { intros lane. rewrite lane_position_snoc. case_decide as E; [rewrite <-E|]; lia. }
  split; try done; [by rewrite Hc|by rewrite Hf| | |].
  - rewrite len_app. change (len [p]) with 1. lia.
  - apply Forall_app. split; [|done]. eapply Forall_impl; [exact Hout|]. intros q. cbn.
    pose proof (Hmono Primary). pose proof (Hmono Shadow). lia.
  - intros i. rewrite !fmap_app, !elem_of_app. specialize (Hi2 i). specialize (Hids i).
    cbn. rewrite list_elem_of_singleton. tauto.
Qed.

Lemma run_at_positions evs evs2 s out :
  at_positions evs s out → venue_ordered (evs ++ evs2) → 32 + 40 * len (evs ++ evs2) ≤ u64_max →
  ∃ s' o, run_union (UoObserve <$> evs2) s = Ok (s', evs2, o, true) ∧
    at_positions (evs ++ evs2) s' (out ++ o).
Proof.
  revert evs s out. induction evs2 as [|p evs2 IH]; intros evs s out Hap Hv Hsize.
  { exists s, []. by rewrite !app_nil_r. }
  assert (evs ++ p :: evs2 = (evs ++ [p]) ++ evs2) as E by (by rewrite <-app_assoc).
  rewrite E in *. pose proof (len_nonneg evs2). rewrite !len_app in Hsize. change (len [p]) with 1 in Hsize.
  destruct (observe_at_positions evs s out p Hap) as (s1 & d & Hrun & Ha & Hap1);
    [by eapply venue_ordered_prefix|lia|].
  destruct (IH _ _ _ Hap1 Hv) as (s2 & o & Hrun2 & Hap2);
    [rewrite !len_app; change (len [p]) with 1; lia|].
  exists s2, (batch_of d ++ o). rewrite app_assoc. split; [|done].
  rewrite fmap_cons. cbn [run_union union_step]. unfold mbind at 1, SE_bind. rewrite Hrun, Ha.
  cbn [mret SE_ret]. by rewrite Hrun2.
Qed.

(** When the lanes are exhausted, the rest is published. *)
Lemma flush_at_positions evs s out :
  at_positions evs s out → venue_ordered evs → 32 + 40 * len evs ≤ u64_max →
  ∃ s' rest, run_union [UoExclude Primary; UoExclude Shadow; UoFlush] s = Ok (s', [], rest, true) ∧
    union_inv [] None evs s' (out ++ rest) ∧ tu_buffer s' = [] ∧
    (arrival_id <$> rest) = (tu_buffer s).*1.
Proof.
  intros [Hinv _ _ _ Hroom _ _ Hids] [Hval _ _] Hsize.
  set (s1 := exclude_lane Shadow (exclude_lane Primary s)).
  assert (union_inv [] None evs s1 out) as Hinv1.
  { apply (lanes_inv _ _ _ s); try done. intros f Hf. exists f. split; [done|lia]. }
  destruct (drain_Ok [] None evs s1 out Hinv1)
    as (s' & d & moved & Hd & _ & Hinv' & _ & Hsplit & Hmoved & _ & Hge).
  { change (room [] s1 out) with (room [] s out). lia. }
  assert (tu_buffer s' = []) as Hnil.
  { destruct (tu_buffer s') as [|e l] eqn:Hb; [done|]. exfalso.
    apply Forall_inv in Hge. change (emission_watermark s1) with (@None Z) in Hge. cbn in Hge.
    assert (e.1 ∈ arrival_id <$> evs) as Hin.
    { apply Hids. right. change (tu_buffer s) with (tu_buffer s1). rewrite Hsplit, fmap_app. set_solver. }
    apply list_elem_of_fmap in Hin as (q & Hq & Hin). rewrite Forall_forall in Hval.
    destruct (Hval q Hin) as [_ ?]. lia. }
  exists s', (batch_of d). cbn [run_union union_step]. cbv [modify mret SE_ret].
  unfold flush_union, mbind, SE_bind. fold s1. rewrite Hd. cbn [app res_bind].
  rewrite app_nil_r. split_and!; try done. rewrite Hmoved. change (tu_buffer s) with (tu_buffer s1).
  by rewrite Hsplit, Hnil, app_nil_r.
Qed.

(** C6: the canonical trades are the union of the two lanes, for every interleaving
    of their deliveries. Both lanes are registered and each delivers in the order
    of the venue. Then nothing is refused, late or in conflict; at any moment
    exactly the trades in front of both lanes' positions have been published; and
    when both streams are exhausted and flushed, the published IDs are exactly those
    delivered by either lane, each once, in increasing order. An identity log may be
    attached; its file does not fail. *)
Theorem trade_union_publishes_union log evs :
  (∀ l, log = Some l → log_accepts l []) → venue_ordered evs → 32 + 40 * len evs ≤ u64_max →
  let s0 := register_lane Shadow (register_lane Primary (union_start log None)) in
  ∃ s out s' rest, run_union (UoObserve <$> evs) s0 = Ok (s, evs, out, true) ∧
    (∀ i, i ∈ arrival_id <$> out ↔ i ∈ arrival_id <$> evs ∧
       i < Z.min (lane_position Primary evs) (lane_position Shadow evs)) ∧
    run_union [UoExclude Primary; UoExclude Shadow; UoFlush] s = Ok (s', [], rest, true) ∧
    StronglySorted Z.lt (arrival_id <$> out ++ rest) ∧
    (∀ i, i ∈ arrival_id <$> out ++ rest ↔ i ∈ arrival_id <$> evs) ∧
    Forall (λ p, p ∈ evs) (out ++ rest).
Proof.
  intros Hlog Hv Hsize s0.
  assert (at_positions [] s0 []) as Hap.
  { assert (union_inv [] None [] (union_start log None) []) as Hinv
      by (apply union_start_inv; [split; cbn; [constructor|constructor|set_solver|]|]; intros l Hl; by apply (Hlog l)).
    assert (s0 = mkUnion [] (mkLaneMap (Some 0) (Some 0)) None None [] ∅ log (mkLaneMap None None)) as Es
      by (unfold s0; by destruct log).
    rewrite Es. split; try done; [|by intros []|set_solver].
    apply (lanes_inv _ _ _ (union_start log None)); try done; by destruct log. }
  destruct (run_at_positions [] evs s0 [] Hap Hv Hsize) as (s & out & Hrun & Hap').
  cbn [app] in Hap'. destruct (flush_at_positions evs s out Hap' Hv Hsize)
    as (s' & rest & Hflush & Hinv & _ & Hrest).
  destruct Hap' as [_ _ _ _ _ Hout Hbuf Hids].
  exists s, out, s', rest. split_and!; try done.
  - intros i. rewrite <-Hids. rewrite Forall_forall in Hout. rewrite Forall_forall in Hbuf. split.
    + intros Hi. split; [by left|]. apply list_elem_of_fmap in Hi as (q & -> & Hq). by apply Hout.
    + intros [[?|Hi] Hlt]; [done|]. apply list_elem_of_fmap in Hi as (e & -> & He).
      specialize (Hbuf e He). cbn in Hbuf. lia.
  - pose proof (ui_known _ _ _ _ _ Hinv) as Hs. cbn [app] in Hs. rewrite <-list_fmap_compose in Hs. exact Hs.
  - intros i. by rewrite fmap_app, elem_of_app, Hrest, Hids.
  - eapply Forall_impl; [apply (ui_out _ _ _ _ _ Hinv)|]. by intros p [].
Qed.

(** ** Depth *)

(** The four answers partition the ranges: the observation starts at the expected
    ID, behind it, in front of it, or is covered by what was published. *)
Lemma classify_depth_frontier_spec expected first final d :
  classify_depth_frontier (Some expected) first final = Ok d →
  0 ≠ first ∧ first ≤ final ∧
  match d with
  | Contiguous => first = expected
  | FrontierMissing e f => e = expected ∧ f = first ∧ expected < first
  | Straddle e f l => e = expected ∧ f = first ∧ l = final ∧ first < expected ≤ final
  | Covered e l => e = expected ∧ l = final ∧ final < expected
  end.
Proof.
  unfold classify_depth_frontier. intros H. apply res_bind_Ok in H as ([] & Hr%reject_Ok & H).
  split_orb. injection H as <-. split; [lia|]. split; [lia|].
  destruct (Z.eqb_spec first expected); [done|]. destruct (Z.ltb_spec expected first); [done|].
  destruct (Z.leb_spec expected final); split_and!; (done || lia).
Qed.

(** Trimming a queue in order drops exactly what was published. *)
Lemma trim_pending_exact c pending :
  StronglySorted Z.lt (co_final_sequence <$> pending) →
  trim_pending_depth c pending = filter (λ o, c < co_final_sequence o) pending.
Proof.
  induction pending as [|o pending IH]; intros Hs; [done|]. cbn [trim_pending_depth].
  rewrite fmap_cons in Hs. apply StronglySorted_inv in Hs as [Hs Ho]. rewrite Forall_fmap in Ho.
  destruct (Z.leb_spec (co_final_sequence o) c).
  - rewrite filter_cons_False by lia. by apply IH.
  - rewrite filter_cons_True by lia. f_equal. clear IH Hs. induction Ho as [|x l Hx _ IH]; [done|].
    rewrite filter_cons_True by (cbn in *; lia). by f_equal.
Qed.

(** A switch is proven exactly when the window holds the expected ID and the books
    agree. *)
Lemma depth_switch_proven expected first final converge c :
  evaluate_depth_window_coverage expected first final = Ok c →
  decide_depth_switch c converge = ProvenSwitch ↔ first ≤ expected ≤ final ∧ converge = true.
Proof.
  unfold evaluate_depth_window_coverage. intros H.
  apply res_bind_Ok in H as ([] & _ & H). apply res_bind_Ok in H as ([] & _ & H). injection H as <-.
  destruct (Z.ltb_spec final expected); [cbn; split; [done|lia]|].
  destruct (Z.ltb_spec expected first); [cbn; split; [done|lia]|].
  destruct converge; cbn; split; try done; lia.
Qed.

(** ** Demonstrations *)

Module UnionDemo.
Local Open Scope string_scope.
Definition digest (b : Byte.byte) : string := hex (replicate 32 b).
Definition trade (lane : CaptureLane) (id : Z) (b : Byte.byte) : arrival :=
  (lane, mkObservation "BTCUSDT" Trade "btcusdt@trade" "epoch" 0 id id (digest b) (digest b)).
(** The lanes [100, 102] and [101, 102]. *)
Definition two_lanes : list arrival :=
  [trade Primary 100 Byte.x01; trade Primary 102 Byte.x03; trade Shadow 101 Byte.x02;
   trade Shadow 102 Byte.x03].

Lemma trade_valid lane id b : in_u64 id → valid_trade (trade lane id b).
Proof.
  intros H. split; [split; [done|]|].
  - by apply is_digest_hex.
  - unfold trade_id. cbn. by rewrite Z.eqb_refl.
Qed.

Lemma two_lanes_ordered : venue_ordered two_lanes.
Proof.
  split.
  - repeat constructor; try (apply trade_valid; unfold in_u64, u64_max; lia); cbn; unfold u64_max; lia.
  - intros []; cbn; repeat constructor; cbn; lia.
  - intros p q Hp Hq. unfold two_lanes in *. rewrite !elem_of_cons in Hp, Hq.
    destruct Hp as [->|[->|[->|[->|[]%not_elem_of_nil]]]], Hq as [->|[->|[->|[->|[]%not_elem_of_nil]]]];
      try done; cbn; lia.
Qed.

(** A run resumed behind trade 50; one lane falls back, is excluded, and delivers
    late. *)
Definition resumed_log : TradeIdentityLog := (run_identity [IdInsert 50 (digest Byte.x05)] new_identity_log []).1.1.
Definition resumed_ops : list union_op :=
  [UoRegister Primary; UoRegister Shadow; UoForward (trade Primary 90 Byte.x09);
   UoObserve (trade Primary 100 Byte.x01); UoExclude Shadow; UoFlush;
   UoObserve (trade Shadow 95 Byte.x08); UoObserve (trade Primary 102 Byte.x03);
   UoClamp Primary 110; UoObserve (trade Primary 120 Byte.x04)].
Lemma resumed_accepts : log_accepts resumed_log [(50%Z, digest Byte.x05)].
Proof.
  apply (run_identity_accepts [IdInsert 50 (digest Byte.x05)] new_identity_log [] _ _ true created_accepts);
    [repeat constructor; done|done|vm_compute; reflexivity].
Qed.
Lemma resumed_resumable : resumable [(50%Z, digest Byte.x05)] (Some 60%Z) (Some resumed_log).
Proof.
  split.
  - repeat constructor.
  - apply Forall_singleton. split; [unfold in_u64, u64_max; cbn; lia|by apply is_digest_hex].
  - intros x ->%list_elem_of_singleton. exists 60%Z. cbn. split; [done|lia].
  - intros l [= <-]. apply resumed_accepts.
Qed.
Lemma resumed_valid : Forall union_op_valid resumed_ops.
Proof. repeat constructor; apply trade_valid; unfold in_u64, u64_max; lia. Qed.
Definition resumed_state : TradeUnionState :=
  match run_union resumed_ops (union_start (Some resumed_log) (Some 60%Z)) with
  | Ok (s, _, _, _) => s | _ => union_new end.
Lemma resumed_run :
  run_union resumed_ops (union_start (Some resumed_log) (Some 60%Z))
  = Ok (resumed_state,
        [trade Primary 100 Byte.x01; trade Primary 102 Byte.x03; trade Primary 120 Byte.x04],
        [trade Primary 100 Byte.x01; trade Primary 102 Byte.x03], true).
Proof. vm_compute. reflexivity. Qed.

(** The same run on a log that fails when the late trade is looked up, and again when trade
    102 is inserted. *)
Definition failing_log : TradeIdentityLog :=
  IdentityLog.set_file (mkFile (df_bytes (il_file resumed_log)) [IoOk; IoOk; IoFail 0; IoFail 5]) resumed_log.
Lemma failing_resumable : resumable [(50%Z, digest Byte.x05)] (Some 60%Z) (Some failing_log).
Proof.
  destruct resumed_resumable as [H1 H2 H3 H4]. split; try done. intros l [= <-].
  destruct (H4 resumed_log eq_refl) as (c & Hh). exists c. by apply log_holds_file.
Qed.
Definition failing_state : TradeUnionState :=
  match run_union resumed_ops (union_start (Some failing_log) (Some 60%Z)) with
  | Ok (s, _, _, _) => s | _ => union_new end.
Lemma failing_run :
  run_union resumed_ops (union_start (Some failing_log) (Some 60%Z))
  = Ok (failing_state, [trade Primary 100 Byte.x01; trade Primary 120 Byte.x04], [trade Primary 100 Byte.x01], false).
Proof. vm_compute. reflexivity. Qed.
End UnionDemo.
Import UnionDemo.

Lemma trade_union_publishes_union_witness :
  let s0 := register_lane Shadow (register_lane Primary (union_start None None)) in
  ∃ s out s' rest, run_union (UoObserve <$> two_lanes) s0 = Ok (s, two_lanes, out, true) ∧
    (∀ i, i ∈ arrival_id <$> out ↔ i ∈ arrival_id <$> two_lanes ∧
       i < Z.min (lane_position Primary two_lanes) (lane_position Shadow two_lanes)) ∧
    run_union [UoExclude Primary; UoExclude Shadow; UoFlush] s = Ok (s', [], rest, true) ∧
    StronglySorted Z.lt (arrival_id <$> out ++ rest) ∧
    (∀ i, i ∈ arrival_id <$> out ++ rest ↔ i ∈ arrival_id <$> two_lanes) ∧
    Forall (λ p, p ∈ two_lanes) (out ++ rest).
Proof.
  apply (trade_union_publishes_union None two_lanes); [done|exact two_lanes_ordered|vm_compute; discriminate].
Defined.

(** A history in which two calls fail. *)
Lemma trade_union_exactly_once_witness :
  run_union resumed_ops (union_start (Some failing_log) (Some 60))
  = Ok (failing_state, [trade Primary 100 Byte.x01; trade Primary 120 Byte.x04], [trade Primary 100 Byte.x01], false) ∧
  StronglySorted Z.lt [50; 100] ∧
  Forall (λ p, UoObserve p ∈ resumed_ops ∧ ∀ f, Some 60 = Some f → f < arrival_id p) [trade Primary 100 Byte.x01] ∧
  Forall (λ i, ∀ p, p ∈ [trade Primary 100 Byte.x01] → arrival_id p < i) (tu_buffer failing_state).*1 ∧
  ∃ s, run_union resumed_ops (union_start (Some resumed_log) (Some 60)) = Ok (s,
      [trade Primary 100 Byte.x01; trade Primary 102 Byte.x03; trade Primary 120 Byte.x04],
      [trade Primary 100 Byte.x01; trade Primary 102 Byte.x03], true) ∧
    Forall (λ p, (∃ f, tu_consumed_floor s = Some f ∧ arrival_id p ≤ f) ∨
      arrival_id p ∈ (tu_buffer s).*1 ∨ arrival_id p ∈ [100; 102])
      [trade Primary 100 Byte.x01; trade Primary 102 Byte.x03; trade Primary 120 Byte.x04].
Proof.
  split; [exact failing_run|].
  destruct (trade_union_exactly_once [(50, digest Byte.x05)] (Some 60) (Some failing_log) resumed_ops failing_resumable
    resumed_valid ltac:(vm_compute; discriminate)) as (s1 & a1 & o1 & ok1 & E1 & H1 & H2 & H3 & _).
  rewrite failing_run in E1. injection E1 as <- <- <- <-.
  split; [exact H1|]. split; [exact H2|]. split; [exact H3|].
  destruct (trade_union_exactly_once [(50, digest Byte.x05)] (Some 60) (Some resumed_log) resumed_ops resumed_resumable
    resumed_valid ltac:(vm_compute; discriminate)) as (s2 & a2 & o2 & ok2 & E2 & _ & _ & _ & _ & K & _).
  rewrite resumed_run in E2. injection E2 as <- <- <- <-. exists resumed_state. split; [exact resumed_run|].
  exact (proj2 (K eq_refl)).
Defined.

(** An identity write that fails drops the trade: the entry has left the buffer and the
    position has passed it, so that a later flush publishes nothing and a repeated
    delivery is late. Its callers end the run on such an error. *)
Lemma failed_insert_drops_trade :
  let log := mkIdentityLog (mkFile (header_bytes 0) [IoFail 0]) 0 None false in
  let p := trade Primary 100 Byte.x01 in
  ∃ s, run_union [UoRegister Primary; UoRegister Shadow; UoObserve p; UoExclude Shadow; UoFlush; UoFlush]
      (union_start (Some log) None) = Ok (s, [p], [], false) ∧
    tu_buffer s = [] ∧ tu_last_published_id s = Some 100 ∧
    (union_observe Shadow p.2 s).2 = Ok (Late p.2 Duplicate).
Proof. cbv zeta. eexists. split; [vm_compute; reflexivity|]. split_and!; vm_compute; reflexivity. Qed.

Lemma late_delivery_judged_exactly_witness :
  ∃ s', union_observe Shadow (trade Shadow 100 Byte.x07).2 resumed_state
    = (s', Ok (Conflict 100 (digest Byte.x01) (digest Byte.x07))).
Proof.
  destruct (late_delivery_judged_exactly [(50, digest Byte.x05)] (Some 60) resumed_log resumed_ops
    resumed_state [trade Primary 100 Byte.x01; trade Primary 102 Byte.x03; trade Primary 120 Byte.x04]
    [trade Primary 100 Byte.x01; trade Primary 102 Byte.x03]
    (trade Shadow 100 Byte.x07) 102 resumed_resumable (proj1 resumed_accepts) resumed_valid) as [s' H];
    [vm_compute; discriminate|exact resumed_run|apply trade_valid; unfold in_u64, u64_max; lia
    |vm_compute; reflexivity|vm_compute; discriminate| |].
  - assert (tu_consumed_floor resumed_state = Some 90) as -> by (vm_compute; reflexivity).
    intros f [= <-]. vm_compute. reflexivity.
  - exists s'. assert (late_answer (list_to_map ([(50, digest Byte.x05)]
        ++ (identity_of <$> [trade Primary 100 Byte.x01; trade Primary 102 Byte.x03])))
      (tu_corrected resumed_state) (arrival_id (trade Shadow 100 Byte.x07)) (trade Shadow 100 Byte.x07).2
      = Conflict 100 (digest Byte.x01) (digest Byte.x07)) as E by (vm_compute; reflexivity).
    rewrite E in H. exact H.
Defined.
