(* ===== verification/JournalAudit.v ===== *)
(** * The canonical live journal and its audit (live_arbitration.rs)

    The arbiter appends one JSON line per event, hash-chained and synced. An audit
    walks the segments of a journal, each with its own chain, carries one state
    across them and refuses the first record that does not fit. Opening files is
    left out: a segment is its bytes. The wall clock is an argument of the append. *)

From stdpp Require Import base list strings option numbers gmap sorting.
From Stdlib Require Import ZArith Lia Ascii Strings.Byte Sorting.Sorted.
From S2P Require Import Prelude External RawLog Boundary IdentityLog.
Local Open Scope Z_scope.

Definition JOURNAL_SCHEMA : string := "LiveArbitrationJournalRecordV1".
Definition JOURNAL_MAX_RECORD_BYTES : Z := 1024 * 1024.

(** ** Data *)

Record LiveArbitrationScanV1 := mkArbitrationScan {
  lv_records : Z; lv_observations : Z; lv_trades : Z; lv_depth_frames : Z; lv_gaps : Z;
  lv_late_corrections : Z; lv_rebootstrap : Z; lv_status_records : Z;
  lv_last_record_sha256 : string; lv_last_trade_id : option Z; lv_last_depth_sequence : option Z;
  lv_published_trades : Z; lv_trade_floor : option Z; lv_symbol : option string;
  lv_segments : Z; lv_terminal_seen : bool
}.

Record JournalAuditState := mkAudit {
  au_previous : string; au_observations : Z; au_trades : Z; au_depth_frames : Z; au_gaps : Z;
  au_late_corrections : Z; au_rebootstrap : Z; au_status_records : Z; au_records : Z;
  au_last_trade_id : option Z; au_last_depth_sequence : option Z; au_exact_next_depth : option Z;
  au_published : gmap Z string; au_corrected : gmap Z string; au_started_seen : bool;
  au_terminal_seen : bool; au_trade_floor : option Z; au_symbol : option string;
  au_segments : Z; au_last_segment_sha : option string; au_last_segment_tail : Z;
  au_preset_context : bool; au_tail_depth_seeded : bool
}.
Definition audit_default : JournalAuditState :=
  mkAudit "" 0 0 0 0 0 0 0 0 None None None ∅ ∅ false false None None 0 None 0 false false.

(** ** Updates of the state *)

Definition au_set_start (symbol : option string) (floor : option Z) (started : bool)
    (a : JournalAuditState) : JournalAuditState :=
  mkAudit (au_previous a) (au_observations a) (au_trades a) (au_depth_frames a) (au_gaps a)
    (au_late_corrections a) (au_rebootstrap a) (au_status_records a) (au_records a)
    (au_last_trade_id a) (au_last_depth_sequence a) (au_exact_next_depth a) (au_published a)
    (au_corrected a) started (au_terminal_seen a) floor symbol (au_segments a)
    (au_last_segment_sha a) (au_last_segment_tail a) (au_preset_context a) (au_tail_depth_seeded a).
Definition au_set_terminal (terminal : bool) (a : JournalAuditState) : JournalAuditState :=
  mkAudit (au_previous a) (au_observations a) (au_trades a) (au_depth_frames a) (au_gaps a)
    (au_late_corrections a) (au_rebootstrap a) (au_status_records a) (au_records a)
    (au_last_trade_id a) (au_last_depth_sequence a) (au_exact_next_depth a) (au_published a)
    (au_corrected a) (au_started_seen a) terminal (au_trade_floor a) (au_symbol a) (au_segments a)
    (au_last_segment_sha a) (au_last_segment_tail a) (au_preset_context a) (au_tail_depth_seeded a).
Definition au_set_trade (last : option Z) (published : gmap Z string) (trades observations : Z)
    (a : JournalAuditState) : JournalAuditState :=
  mkAudit (au_previous a) observations trades (au_depth_frames a) (au_gaps a)
    (au_late_corrections a) (au_rebootstrap a) (au_status_records a) (au_records a)
    last (au_last_depth_sequence a) (au_exact_next_depth a) published
    (au_corrected a) (au_started_seen a) (au_terminal_seen a) (au_trade_floor a) (au_symbol a)
    (au_segments a) (au_last_segment_sha a) (au_last_segment_tail a) (au_preset_context a)
    (au_tail_depth_seeded a).
Definition au_set_late (corrected : gmap Z string) (late : Z) (a : JournalAuditState)
    : JournalAuditState :=
  mkAudit (au_previous a) (au_observations a) (au_trades a) (au_depth_frames a) (au_gaps a)
    late (au_rebootstrap a) (au_status_records a) (au_records a)
    (au_last_trade_id a) (au_last_depth_sequence a) (au_exact_next_depth a) (au_published a)
    corrected (au_started_seen a) (au_terminal_seen a) (au_trade_floor a) (au_symbol a)
    (au_segments a) (au_last_segment_sha a) (au_last_segment_tail a) (au_preset_context a)
    (au_tail_depth_seeded a).
Definition au_set_status (rebootstrap status : Z) (a : JournalAuditState) : JournalAuditState :=
  mkAudit (au_previous a) (au_observations a) (au_trades a) (au_depth_frames a) (au_gaps a)
    (au_late_corrections a) rebootstrap status (au_records a)
    (au_last_trade_id a) (au_last_depth_sequence a) (au_exact_next_depth a) (au_published a)
    (au_corrected a) (au_started_seen a) (au_terminal_seen a) (au_trade_floor a) (au_symbol a)
    (au_segments a) (au_last_segment_sha a) (au_last_segment_tail a) (au_preset_context a)
    (au_tail_depth_seeded a).
Definition au_set_depth (seeded : bool) (next last : option Z) (frames observations gaps : Z)
    (a : JournalAuditState) : JournalAuditState :=
  mkAudit (au_previous a) observations (au_trades a) frames gaps
    (au_late_corrections a) (au_rebootstrap a) (au_status_records a) (au_records a)
    (au_last_trade_id a) last next (au_published a)
    (au_corrected a) (au_started_seen a) (au_terminal_seen a) (au_trade_floor a) (au_symbol a)
    (au_segments a) (au_last_segment_sha a) (au_last_segment_tail a) (au_preset_context a) seeded.
Definition au_set_chain (previous : string) (records : Z) (a : JournalAuditState)
    : JournalAuditState :=
  mkAudit previous (au_observations a) (au_trades a) (au_depth_frames a) (au_gaps a)
    (au_late_corrections a) (au_rebootstrap a) (au_status_records a) records
    (au_last_trade_id a) (au_last_depth_sequence a) (au_exact_next_depth a) (au_published a)
    (au_corrected a) (au_started_seen a) (au_terminal_seen a) (au_trade_floor a) (au_symbol a)
    (au_segments a) (au_last_segment_sha a) (au_last_segment_tail a) (au_preset_context a)
    (au_tail_depth_seeded a).
Definition au_set_segment (segments : Z) (sha : option string) (tail : Z) (a : JournalAuditState)
    : JournalAuditState :=
  mkAudit (au_previous a) (au_observations a) (au_trades a) (au_depth_frames a) (au_gaps a)
    (au_late_corrections a) (au_rebootstrap a) (au_status_records a) (au_records a)
    (au_last_trade_id a) (au_last_depth_sequence a) (au_exact_next_depth a) (au_published a)
    (au_corrected a) (au_started_seen a) (au_terminal_seen a) (au_trade_floor a) (au_symbol a)
    segments sha tail (au_preset_context a) (au_tail_depth_seeded a).

Section audit.
Context `{Hval : SerdeValue} `{Hget : !SerdeGet} `{Hsha : Sha256}
  `{Hbody : Serde LiveArbitrationJournalBodyV1} `{Henv : Serde LiveArbitrationJournalEnvelopeV1}.

Definition payload_hex64 (payload : Value) (field record : string) : res string :=
  value ← ok_or (get_str payload field) (record ++ " lacks " ++ field);
  _ ← reject (negb (String.length value =? 64)%nat || negb (forallb is_hexdigit (str_chars value)))
        (record ++ " carries a non-hex-SHA-256 " ++ field);
  Ok value.

(** ** The events *)

Definition audit_started (payload : Value) (first_of_file : bool) : SE JournalAuditState unit :=
  a ← get;
  lift (reject (negb first_of_file || negb (au_segments a =? 0))
          "arbitration journal does not begin with ARBITRATION_STARTED");;
  symbol ← lift (ok_or (get_str payload "symbol") "ARBITRATION_STARTED lacks its symbol");
  put (au_set_start (Some symbol) (get_u64 payload "trade_floor") true a).

Definition audit_resumed (payload : Value) (first_of_file : bool) : SE JournalAuditState unit :=
  a ← get;
  lift (reject (negb first_of_file || (au_segments a =? 0))
          "ARBITRATION_RESUMED must open a later journal segment");;
  lift (reject (negb (au_started_seen a))
          "ARBITRATION_RESUMED lacks its ARBITRATION_STARTED segment");;
  symbol ← lift (ok_or (get_str payload "symbol") "ARBITRATION_RESUMED lacks its symbol");
  (if au_preset_context a
   then put (au_set_start (Some symbol) (au_trade_floor a) (au_started_seen a) a)
   else lift (reject (negb (bool_decide (au_symbol a = Some symbol)))
                "ARBITRATION_RESUMED changes the journal symbol"));;
  previous_journal_sha256 ← lift (payload_hex64 payload "previous_journal_sha256" "ARBITRATION_RESUMED");
  chained ← lift (ok_or (au_last_segment_sha a) "ARBITRATION_RESUMED has no previous segment to chain");
  lift (reject (negb (String.eqb previous_journal_sha256 chained))
          "ARBITRATION_RESUMED does not chain the previous journal segment");;
  floor ← lift (ok_or (get_u64 payload "trade_floor") "ARBITRATION_RESUMED lacks its trade_floor");
  let expected_floor := Z.max (default 0 (au_trade_floor a)) (default 0 (au_last_trade_id a)) in
  lift (reject (negb (floor =? expected_floor))
          "ARBITRATION_RESUMED trade floor does not equal the previous segment's effective trade floor");;
  lift (reject (bool_decide (get_str payload "mode" = None)) "ARBITRATION_RESUMED lacks its mode");;
  let declared_tail := default 0 (get_u64 payload "previous_tail_bytes") in
  lift (reject (negb (au_preset_context a) && negb (declared_tail =? au_last_segment_tail a))
          "ARBITRATION_RESUMED previous_tail_bytes does not match the measured torn tail");;
  if au_preset_context a
  then modify (λ a, au_set_segment (au_segments a) (au_last_segment_sha a) declared_tail a)
  else mret ().

Definition audit_terminal (payload : Value) : SE JournalAuditState unit :=
  a ← get;
  lift (reject (negb (au_started_seen a)) "arbitration journal has no ARBITRATION_STARTED");;
  status ← lift (ok_or (get_str payload "status") "ARBITRATION_TERMINAL lacks its status");
  lift (reject (negb (String.eqb status "COMPLETE"))
          ("arbitration journal terminal status is not COMPLETE: " ++ status));;
  let declared := (get_u64 payload "trades", get_u64 payload "depth_frames",
                   get_u64 payload "gaps", get_u64 payload "late_corrections") in
  lift (reject (negb (au_preset_context a)
          && negb (bool_decide (declared = (Some (au_trades a), Some (au_depth_frames a),
                                            Some (au_gaps a), Some (au_late_corrections a)))))
          "arbitration journal terminal counters do not match the audit");;
  put (au_set_terminal true a).

Definition audit_trade (payload : Value) : SE JournalAuditState unit :=
  a ← get;
  id ← lift (ok_or (get_u64 payload "trade_id") "trade observation lacks an exact trade ID");
  observation_sha256 ← lift (payload_hex64 payload "observation_sha256" "trade observation");
  lift (payload_hex64 payload "record_sha256" "trade observation");;
  lift (reject (match au_last_trade_id a with Some last => id <=? last | None => false end)
          "arbitration journal trade IDs are not strictly increasing");;
  lift (reject (match au_trade_floor a with Some floor => id <=? floor | None => false end)
          "arbitration journal publishes a trade at or below its declared floor");;
  trades ← lift (add_u64 (au_trades a) 1);
  observations ← lift (add_u64 (au_observations a) 1);
  put (au_set_trade (Some id) (<[id := observation_sha256]> (au_published a)) trades observations a).

Definition audit_late (payload : Value) : SE JournalAuditState unit :=
  a ← get;
  id ← lift (ok_or (get_u64 payload "trade_id") "trade late correction lacks an exact trade ID");
  lift (reject (match au_last_trade_id a with Some last => last <? id | None => true end)
          "trade late correction is not below the canonical position");;
  lift (reject (negb (au_preset_context a)
          && match au_trade_floor a with Some floor => id <=? floor | None => false end)
          "trade late correction is at or below the startup floor");;
  let kind := get_str payload "kind" in
  observation_sha256 ← lift (payload_hex64 payload "observation_sha256" "trade late correction");
  let known := match au_published a !! id with Some d => Some d | None => au_corrected a !! id end in
  corrected ← lift (
    if bool_decide (kind = Some "duplicate") then
      match known with
      | Some digest =>
          _ ← reject (negb (String.eqb digest observation_sha256))
                "trade late correction kind=duplicate contradicts the published identity";
          Ok (au_corrected a)
      | None => Err "trade late correction kind=duplicate references an unpublished identity"
      end
    else if bool_decide (kind = Some "unknown") then
      _ ← reject (match known with Some _ => true | None => false end)
            "trade late correction kind=unknown contradicts the published identity";
      Ok (<[id := observation_sha256]> (au_corrected a))
    else Err "trade late correction lacks its classification");
  late ← lift (add_u64 (au_late_corrections a) 1);
  put (au_set_late corrected late a).

(** The events that are only counted. *)
Definition audit_status (present : bool) (msg : string) : SE JournalAuditState unit :=
  lift (reject (negb present) msg);;
  a ← get;
  status ← lift (add_u64 (au_status_records a) 1);
  put (au_set_status (au_rebootstrap a) status a).

Definition audit_depth (payload : Value) : SE JournalAuditState unit :=
  a ← get;
  first ← lift (ok_or (get_u64 payload "first_sequence") "depth observation lacks first_sequence");
  final ← lift (ok_or (get_u64 payload "final_sequence") "depth observation lacks final_sequence");
  lift (reject ((first =? 0) || (final <? first)) "arbitration journal depth range is invalid");;
  lift (ok_or (get_str payload "lane") "depth observation lacks its lane");;
  lift (payload_hex64 payload "observation_sha256" "depth observation");;
  lift (payload_hex64 payload "record_sha256" "depth observation");;
  lift (match au_exact_next_depth a with
        | Some expected =>
            reject (negb (first =? expected))
              "arbitration journal depth ranges are not exactly contiguous"
        | None =>
            reject ((negb (au_preset_context a) || au_tail_depth_seeded a)
                    && match au_last_depth_sequence a with Some last => first <=? last | None => false end)
              "arbitration journal depth ranges regress outside a typed gap"
        end);;
  frames ← lift (add_u64 (au_depth_frames a) 1);
  observations ← lift (add_u64 (au_observations a) 1);
  put (au_set_depth true (Some (saturating_add final 1)) (Some final) frames observations
         (au_gaps a) a).

Definition audit_gap (payload : Value) : SE JournalAuditState unit :=
  a ← get;
  declared_last ← lift (ok_or (get_u64 payload "canonical_last_sequence")
                    "arbitration gap lacks its canonical boundary");
  '(seeded, last) ← lift (
    if au_preset_context a then Ok (false, Some declared_last)
    else _ ← reject (negb (declared_last =? default 0 (au_last_depth_sequence a)))
               "arbitration gap boundary does not equal the canonical cursor";
         Ok (au_tail_depth_seeded a, au_last_depth_sequence a));
  gaps ← lift (add_u64 (au_gaps a) 1);
  put (au_set_depth seeded None last (au_depth_frames a) (au_observations a) gaps a).

Definition audit_rebootstrap (payload : Value) : SE JournalAuditState unit :=
  a ← get;
  lift (reject ((au_gaps a =? 0) || bool_decide (is_Some (au_exact_next_depth a)))
          "DEPTH_REBOOTSTRAP must follow a typed gap");;
  lift (reject (existsb (λ field, bool_decide (value_get payload field = None))
          ["generation"; "snapshot_record_sha256"; "snapshot_last_update_id"])
          "DEPTH_REBOOTSTRAP lacks a field");;
  rebootstrap ← lift (add_u64 (au_rebootstrap a) 1);
  status ← lift (add_u64 (au_status_records a) 1);
  put (au_set_status rebootstrap status a).

Definition audit_event (event : string) (payload : Value) (first_of_file : bool)
    : SE JournalAuditState unit :=
  if String.eqb event "ARBITRATION_STARTED" then audit_started payload first_of_file
  else if String.eqb event "ARBITRATION_RESUMED" then audit_resumed payload first_of_file
  else if String.eqb event "ARBITRATION_TERMINAL" then audit_terminal payload
  else if String.eqb event "TRADE_OBSERVATION" then audit_trade payload
  else if String.eqb event "TRADE_LATE_CORRECTION" then audit_late payload
  else if String.eqb event "TRADE_LAG" then
    audit_status (bool_decide (is_Some (get_u64 payload "buffered"))) "TRADE_LAG lacks its buffered count"
  else if String.eqb event "TRADE_CONFLICT" then
    audit_status (bool_decide (is_Some (get_u64 payload "trade_id"))) "TRADE_CONFLICT lacks its trade ID"
  else if String.eqb event "DEPTH_OBSERVATION" then audit_depth payload
  else if String.eqb event "GAP" then audit_gap payload
  else if String.eqb event "DEPTH_REBOOTSTRAP" then audit_rebootstrap payload
  else if String.eqb event "DEPTH_SWITCH_PROVEN" then audit_status true ""
  else throw ("arbitration journal carries an unknown event: " ++ event).

Definition apply_audit_record (envelope : LiveArbitrationJournalEnvelopeV1) (file_index : Z)
    (first_of_file : bool) : SE JournalAuditState unit :=
  a ← get;
  let body := le_body envelope in
  body_bytes ← lift (map_err "serialize scanned arbitration journal body: " (to_vec body));
  let digest := hex (sha256 body_bytes) in
  lift (reject (negb (String.eqb (lb_schema body) JOURNAL_SCHEMA)
          || negb (lb_record_index body =? file_index)
          || negb (String.eqb (lb_channel body) "LIVE")
          || negb (String.eqb (lb_previous_record_sha256 body) (au_previous a))
          || negb (String.eqb (le_record_sha256 envelope) digest))
          "arbitration journal hash chain is invalid");;
  lift (reject (au_terminal_seen a) "arbitration journal carries records after its terminal");;
  event ← lift (ok_or (get_str (lb_payload body) "event") "arbitration journal record lacks an event");
  audit_event event (lb_payload body) first_of_file;;
  a ← get;
  records ← lift (add_u64 (au_records a) 1);
  put (au_set_chain digest records a).

(** ** Walking files *)

(** The loop over the lines: the number of records, and the torn bytes at the end
    when there are any. *)
Fixpoint audit_lines (fuel : nat) (tolerate : bool) (input : bytes) (file_index : Z)
    : SE JournalAuditState (Z * option Z) :=
  match fuel with
  | O => lift Panic
  | S fuel =>
      match input, split_line input with
      | [], _ => mret (file_index, None)
      | _, None =>
          if tolerate then mret (file_index, Some (len input))
          else throw "arbitration journal ends with a partial tail"
      | _, Some (line, rest) =>
          match line with
          | [] => audit_lines fuel tolerate rest file_index
          | _ =>
              lift (reject (JOURNAL_MAX_RECORD_BYTES <? len line)
                      "arbitration journal record exceeds its bound");;
              envelope ← lift (map_err "invalid arbitration journal JSON: " (from_slice line));
              apply_audit_record envelope file_index (file_index =? 0);;
              next ← lift (add_u64 file_index 1);
              audit_lines fuel tolerate rest next
          end
      end
  end.

Definition walk_audit_file_with_context (file : bytes) (incremental tolerate_tail preserve_context : bool)
    : SE JournalAuditState (bool * Z) :=
  modify (λ a, au_set_terminal false (au_set_chain ZERO_DIGEST (au_records a)
    (if (0 <? au_segments a) && negb preserve_context
     then au_set_segment (au_segments a) (Some (au_previous a)) (au_last_segment_tail a) a else a)));;
  '(file_index, tail) ← audit_lines (S (length file)) (incremental || tolerate_tail) file 0;
  lift (reject (file_index =? 0) "arbitration journal is empty");;
  a ← get;
  segments ← lift (add_u64 (au_segments a) 1);
  put (au_set_segment segments (au_last_segment_sha a) (default 0 tail) a);;
  mret (bool_decide (tail = None), default 0 tail).
Definition walk_audit_file (file : bytes) (incremental tolerate_tail : bool)
    : SE JournalAuditState (bool * Z) :=
  walk_audit_file_with_context file incremental tolerate_tail false.

Definition finish_audit (incremental : bool) (a : JournalAuditState) : res LiveArbitrationScanV1 :=
  _ ← reject (negb (au_started_seen a)) "arbitration journal lacks ARBITRATION_STARTED";
  _ ← reject (negb incremental && negb (au_terminal_seen a))
        "arbitration journal lacks a terminal record";
  Ok (mkArbitrationScan (au_records a) (au_observations a) (au_trades a) (au_depth_frames a)
        (au_gaps a) (au_late_corrections a) (au_rebootstrap a) (au_status_records a)
        (au_previous a) (au_last_trade_id a) (au_last_depth_sequence a)
        (Z.of_nat (size (au_published a))) (au_trade_floor a) (au_symbol a) (au_segments a)
        (au_terminal_seen a)).

Definition scan_live_arbitration_journal (file : bytes) : res LiveArbitrationScanV1 :=
  let '(a, r) := walk_audit_file file false false audit_default in
  '(clean_eof, _) ← r;
  _ ← reject (negb clean_eof) "arbitration journal ends with a partial tail";
  finish_audit false a.

Definition scan_live_arbitration_journal_incremental (file : bytes)
    : res (LiveArbitrationScanV1 * bool * Z) :=
  let '(a, r) := walk_audit_file file true true audit_default in
  '(clean_eof, tail_bytes) ← r;
  scan ← finish_audit true a;
  Ok (scan, clean_eof, tail_bytes).

(** The loop of the closed audit of a set: only the last file must be clean. *)
Fixpoint audit_set (files : list bytes) : SE JournalAuditState unit :=
  match files with
  | [] => mret ()
  | file :: rest =>
      let tolerate_tail := negb (bool_decide (rest = [])) in
      '(clean_eof, _) ← walk_audit_file file false tolerate_tail;
      lift (reject (negb clean_eof && negb tolerate_tail)
              "arbitration journal segment ends with a partial tail");;
      audit_set rest
  end.
Definition scan_live_arbitration_journal_set (files : list bytes) : res LiveArbitrationScanV1 :=
  _ ← reject (bool_decide (files = [])) "arbitration journal set is empty";
  let '(a, r) := audit_set files audit_default in
  _ ← r;
  finish_audit false a.

Fixpoint audit_set_incremental (files : list bytes) (final_tail : bool * Z)
    : SE JournalAuditState (bool * Z) :=
  match files with
  | [] => mret final_tail
  | file :: rest => tail ← walk_audit_file file true true; audit_set_incremental rest tail
  end.
Definition scan_live_arbitration_journal_set_incremental (files : list bytes)
    : res (LiveArbitrationScanV1 * bool * Z) :=
  _ ← reject (bool_decide (files = [])) "arbitration journal set is empty";
  let '(a, r) := audit_set_incremental files (true, 0) audit_default in
  '(clean_eof, tail_bytes) ← r;
  scan ← finish_audit true a;
  Ok (scan, clean_eof, tail_bytes).

(** The state of a tail audit. *)
Definition audit_preset (previous_segment_sha256 : string) (trade_floor : Z) : JournalAuditState :=
  mkAudit "" 0 0 0 0 0 0 0 0 (Some trade_floor) None None ∅ ∅ true false (Some trade_floor) None 1
    (Some previous_segment_sha256) 0 true false.
Definition scan_live_arbitration_journal_tail (file : bytes) (previous_segment_sha256 : string)
    (trade_floor : Z) : res LiveArbitrationScanV1 :=
  let '(a, r) := walk_audit_file_with_context file false false true
                   (audit_preset previous_segment_sha256 trade_floor) in
  '(clean_eof, _) ← r;
  _ ← reject (negb clean_eof) "arbitration journal tail segment ends with a partial tail";
  finish_audit false a.
Definition scan_live_arbitration_journal_tail_incremental (file : bytes)
    (previous_segment_sha256 : string) (trade_floor : Z) : res (LiveArbitrationScanV1 * bool * Z) :=
  let '(a, r) := walk_audit_file_with_context file true true true
                   (audit_preset previous_segment_sha256 trade_floor) in
  '(clean_eof, tail_bytes) ← r;
  scan ← finish_audit true a;
  Ok (scan, clean_eof, tail_bytes).

Fixpoint audit_set_recovery (files : list bytes) : SE JournalAuditState unit :=
  match files with
  | [] => mret ()
  | file :: rest =>
      walk_audit_file_with_context file true (bool_decide (rest = [])) false;;
      audit_set_recovery rest
  end.
Definition scan_live_arbitration_journal_set_recovery (files : list bytes)
    : res LiveArbitrationScanV1 :=
  _ ← reject (bool_decide (files = [])) "arbitration journal set is empty";
  let '(a, r) := audit_set_recovery files audit_default in
  _ ← r;
  finish_audit true a.

Definition verify_trade_identity (canonical_ids oracle_ids : list Z) : res unit :=
  reject (negb (bool_decide (canonical_ids = oracle_ids)))
    "canonical trade stream differs from the sibling oracle".

(** ** The writer *)
Section journal_writer.
Context {S : Type} `{Hsink : DurableSink S}.
Record LiveArbitrationJournalWriter := mkArbitrationWriter {
  lw_file : S; lw_next_index : Z; lw_previous : string
}.
Definition arbitration_writer_create (file : S) : LiveArbitrationJournalWriter :=
  mkArbitrationWriter file 0 ZERO_DIGEST.

Definition arbitration_append (wall_ns mono_ns : Z) (channel : string) (payload : Value)
    : SE LiveArbitrationJournalWriter string :=
  w ← get;
  let body := mkArbitrationBody JOURNAL_SCHEMA (lw_next_index w) wall_ns mono_ns channel payload
                (lw_previous w) in
  body_bytes ← lift (map_err "serialize arbitration journal body: " (to_vec body));
  let digest := hex (sha256 body_bytes) in
  line ← lift (map_err "serialize arbitration journal record: " (to_vec (mkArbitrationEnvelope body digest)));
  let '(s, r) := write_flush_sync (line ++ [x0a]) (lw_file w) in
  put (mkArbitrationWriter s (lw_next_index w) (lw_previous w));;
  lift (map_err "sync arbitration journal: " r);;
  next_index ← lift (ok_or (checked_add (lw_next_index w) 1) "arbitration journal index overflow");
  put (mkArbitrationWriter s next_index digest);;
  mret digest.
End journal_writer.
End audit.

(** ** What a journal says

    The events of a journal, and when an event may follow the events before it. *)
Inductive journal_event :=
  | JStarted (floor : option Z) | JResumed (floor : Z) | JTerminal (trades depths gaps late : Z)
  | JTrade (id : Z) (digest : string) | JLate (id : Z) (duplicate : bool) (digest : string)
  | JDepth (first final : Z) | JGap (last : Z) | JRebootstrap | JStatus.

Definition trades (l : list journal_event) : list (Z * string) :=
  omap (λ e, match e with JTrade id d => Some (id, d) | _ => None end) l.
Definition depths (l : list journal_event) : list (Z * Z) :=
  omap (λ e, match e with JDepth first final => Some (first, final) | _ => None end) l.
Definition unknowns (l : list journal_event) : list (Z * string) :=
  omap (λ e, match e with JLate id false d => Some (id, d) | _ => None end) l.
Definition lates (l : list journal_event) : list Z :=
  omap (λ e, match e with JLate id _ _ => Some id | _ => None end) l.
Definition gaps (l : list journal_event) : list Z :=
  omap (λ e, match e with JGap last => Some last | _ => None end) l.
(** The end of the last depth range, when no gap was declared since. *)
Definition frontier (l : list journal_event) : option Z :=
  foldl (λ o e, match e with JDepth _ final => Some final | JGap _ => None | _ => o end) None l.
Definition declared_floor (l : list journal_event) : option Z :=
  match l with JStarted floor :: _ => floor | _ => None end.

Definition begins_started (l : list journal_event) : bool :=
  match l with JStarted _ :: _ => true | _ => false end.

Definition event_fits (pre : list journal_event) (e : journal_event) : Prop :=
  match e with
  | JStarted _ => pre = []
  | JResumed floor =>
      floor = Z.max (default 0 (declared_floor pre)) (default 0 (fst <$> last (trades pre)))
  | JTerminal t d g c =>
      t = len (trades pre) ∧ d = len (depths pre) ∧ g = len (gaps pre) ∧ c = len (lates pre)
  | JTrade id d =>
      Forall (λ x, x.1 < id) (trades pre) ∧ (∀ f, declared_floor pre = Some f → f < id)
  | JLate id duplicate d =>
      (∃ x, last (trades pre) = Some x ∧ id ≤ x.1) ∧
      if duplicate : bool then (id, d) ∈ trades pre ++ unknowns pre
      else id ∉ (trades pre ++ unknowns pre).*1
  | JDepth first final =>
      first ≠ 0 ∧ first ≤ final ∧
      match frontier pre with
      | Some last => first = saturating_add last 1
      | None => ∀ x, last (depths pre) = Some x → x.2 < first
      end
  | JGap last_final => last_final = default 0 (snd <$> last (depths pre))
  | JRebootstrap => frontier pre = None ∧ gaps pre ≠ []
  | JStatus => True
  end.
(** A journal each of whose events fits the ones before it. *)
Definition journal_fits (l : list journal_event) : Prop :=
  ∀ pre e post, l = pre ++ e :: post → event_fits pre e.

Section audit_theory.
Context `{Hval : SerdeValue} `{Hget : !SerdeGet} `{Hsha : Sha256}
  `{Hbody : Serde LiveArbitrationJournalBodyV1} `{Henv : Serde LiveArbitrationJournalEnvelopeV1}.

(** The event a record states. *)
Definition event_of (payload : Value) : option journal_event :=
  event ← get_str payload "event";
  if String.eqb event "ARBITRATION_STARTED" then Some (JStarted (get_u64 payload "trade_floor"))
  else if String.eqb event "ARBITRATION_RESUMED" then JResumed <$> get_u64 payload "trade_floor"
  else if String.eqb event "ARBITRATION_TERMINAL" then
    t ← get_u64 payload "trades"; d ← get_u64 payload "depth_frames"; g ← get_u64 payload "gaps";
    c ← get_u64 payload "late_corrections"; Some (JTerminal t d g c)
  else if String.eqb event "TRADE_OBSERVATION" then
    id ← get_u64 payload "trade_id"; d ← get_str payload "observation_sha256"; Some (JTrade id d)
  else if String.eqb event "TRADE_LATE_CORRECTION" then
    id ← get_u64 payload "trade_id"; kind ← get_str payload "kind";
    d ← get_str payload "observation_sha256"; Some (JLate id (String.eqb kind "duplicate") d)
  else if String.eqb event "DEPTH_OBSERVATION" then
    f ← get_u64 payload "first_sequence"; l ← get_u64 payload "final_sequence"; Some (JDepth f l)
  else if String.eqb event "GAP" then JGap <$> get_u64 payload "canonical_last_sequence"
  else if String.eqb event "DEPTH_REBOOTSTRAP" then Some JRebootstrap
  else Some JStatus.

(** The audit state after the events [pre]. *)
Record audited (pre : list journal_event) (a : JournalAuditState) : Prop := {
  ad_trades : au_trades a = len (trades pre);
  ad_depths : au_depth_frames a = len (depths pre);
  ad_gaps : au_gaps a = len (gaps pre);
  ad_lates : au_late_corrections a = len (lates pre);
  ad_observations : au_observations a = len (trades pre) + len (depths pre);
  ad_last_trade : au_last_trade_id a = fst <$> last (trades pre);
  ad_below : ∀ x, last (trades pre) = Some x → Forall (λ y, y.1 ≤ x.1) (trades pre);
  ad_last_depth : au_last_depth_sequence a = snd <$> last (depths pre);
  ad_next : au_exact_next_depth a = (λ l, saturating_add l 1) <$> frontier pre;
  ad_published : ∀ id d, au_published a !! id = Some d ↔ (id, d) ∈ trades pre;
  ad_corrected : ∀ id d, au_corrected a !! id = Some d ↔ (id, d) ∈ unknowns pre;
  ad_floor : au_trade_floor a = declared_floor pre;
  ad_started : au_started_seen a = begins_started pre;
  ad_context : au_preset_context a = false;
  ad_fits : journal_fits pre
}.

Lemma journal_fits_snoc pre e : journal_fits pre → event_fits pre e → journal_fits (pre ++ [e]).
Proof.
  intros Hf He pre' e' post Heq. destruct post as [|x post _] using rev_ind.
  - apply app_inj_tail in Heq as [-> ->]. done.
  - rewrite app_comm_cons, app_assoc in Heq. apply app_inj_tail in Heq as [-> _]. by eapply Hf.
Qed.

Lemma payload_hex64_Ok payload field record v :
  payload_hex64 payload field record = Ok v → get_str payload field = Some v.
Proof.
  unfold payload_hex64. intros H. apply res_bind_Ok in H as (x & Hx%ok_or_Ok & H).
  apply res_bind_Ok in H as ([] & _ & H). by injection H as <-.
Qed.

(** The projections of a journal with one more event. *)
Ltac project_snoc :=
  unfold trades, depths, gaps, lates, unknowns; rewrite !omap_app; cbn; by rewrite ?app_nil_r.

(** What [audited] looks at. *)
Definition audit_view (a : JournalAuditState) :=
  (au_trades a, au_depth_frames a, au_gaps a, au_late_corrections a, au_observations a,
   au_last_trade_id a, au_last_depth_sequence a, au_exact_next_depth a, au_published a,
   au_corrected a, au_trade_floor a, au_started_seen a, au_preset_context a).
Lemma audited_view pre a a' : audited pre a → audit_view a' = audit_view a → audited pre a'.
Proof.
  intros [] E. unfold audit_view in E. injection E as E1 E2 E3 E4 E5 E6 E7 E8 E9 E10 E11 E12 E13.
  split; rewrite ?E1, ?E2, ?E3, ?E4, ?E5, ?E6, ?E7, ?E8, ?E9, ?E10, ?E11, ?E12, ?E13; done.
Qed.

Definition starts (e : journal_event) : bool := match e with JStarted _ => true | _ => false end.
Lemma floor_snoc pre e :
  starts e = false → declared_floor (pre ++ [e]) = declared_floor pre ∧
  begins_started (pre ++ [e]) = begins_started pre.
Proof. by destruct pre, e. Qed.

Lemma frontier_snoc pre e :
  frontier (pre ++ [e]) = match e with JDepth _ final => Some final | JGap _ => None | _ => frontier pre end.
Proof. unfold frontier. by rewrite foldl_app. Qed.

(** An event that only the order of the journal constrains. *)
Definition quiet (e : journal_event) : bool :=
  match e with JResumed _ | JTerminal _ _ _ _ | JRebootstrap | JStatus => true | _ => false end.
Lemma audited_quiet pre e a :
  audited pre a → quiet e = true → event_fits pre e → audited (pre ++ [e]) a.
Proof.
  intros [] Hq He. destruct (floor_snoc pre e) as [Ef Eb]; [by destruct e|].
  assert (trades (pre ++ [e]) = trades pre ∧ depths (pre ++ [e]) = depths pre ∧
    gaps (pre ++ [e]) = gaps pre ∧ lates (pre ++ [e]) = lates pre ∧ unknowns (pre ++ [e]) = unknowns pre ∧
    frontier (pre ++ [e]) = frontier pre) as (E1 & E2 & E3 & E4 & E5 & E6).
  { rewrite frontier_snoc. unfold trades, depths, gaps, lates, unknowns. rewrite !omap_app.
    destruct e; try done; cbn; by rewrite !app_nil_r. }
  split; rewrite ?E1, ?E2, ?E3, ?E4, ?E5, ?E6, ?Ef, ?Eb; try done. by apply journal_fits_snoc.
Qed.

(** *** The events one by one *)

Lemma audit_started_inv payload first a a' pre :
  audited pre a → (first = true → au_segments a = 0 → pre = []) →
  audit_started payload first a = (a', Ok ()) →
  audited (pre ++ [JStarted (get_u64 payload "trade_floor")]) a'.
Proof.
  intros Had Hfirst H. unfold audit_started in H. cbv [mbind SE_bind get lift put] in H.
  destruct (negb first || _) eqn:Hg; cbn [reject] in H; [done|].
  destruct (get_str payload "symbol"); cbn [ok_or] in H; [|done]. injection H as <-. split_orb.
  specialize (Hfirst ltac:(done) ltac:(lia)) as ->. destruct Had. split; try done.
  apply (journal_fits_snoc []); done.
Qed.

Lemma audit_resumed_inv payload first a a' pre :
  audited pre a → audit_resumed payload first a = (a', Ok ()) →
  ∃ floor, get_u64 payload "trade_floor" = Some floor ∧ audited (pre ++ [JResumed floor]) a'.
Proof.
  intros Had H. pose proof Had as []. unfold audit_resumed in H.
  cbv [mbind SE_bind get lift put modify mret SE_ret] in H.
  destruct (negb first || _); cbn [reject] in H; [done|].
  destruct (negb (au_started_seen a)); cbn [reject] in H; [done|].
  destruct (get_str payload "symbol"); cbn [ok_or] in H; [|done]. rewrite ad_context0 in H.
  destruct (negb (bool_decide (au_symbol a = _))); cbn [reject] in H; [done|].
  destruct (payload_hex64 _ _ _); [|done..]. destruct (au_last_segment_sha a); cbn [ok_or] in H; [|done].
  destruct (negb (String.eqb _ _)); cbn [reject] in H; [done|].
  destruct (get_u64 payload "trade_floor") as [floor|]; cbn [ok_or] in H; [|done].
  destruct (negb (floor =? _)) eqn:Hfl; cbn [reject] in H; [done|].
  destruct (bool_decide (get_str payload "mode" = None)); cbn [reject] in H; [done|].
  destruct (_ && _); cbn [reject] in H; [done|]. injection H as <-.
  exists floor. split; [done|]. apply audited_quiet; try done. cbn.
  split_orb. rewrite ad_floor0, ad_last_trade0 in Hfl. lia.
Qed.

Lemma audit_terminal_inv payload a a' pre :
  audited pre a → audit_terminal payload a = (a', Ok ()) →
  ∃ t d g c, get_u64 payload "trades" = Some t ∧ get_u64 payload "depth_frames" = Some d ∧
    get_u64 payload "gaps" = Some g ∧ get_u64 payload "late_corrections" = Some c ∧
    audited (pre ++ [JTerminal t d g c]) a' ∧ au_terminal_seen a' = true.
Proof.
  intros Had H. pose proof Had as []. unfold audit_terminal in H.
  cbv [mbind SE_bind get lift put] in H.
  destruct (negb (au_started_seen a)); cbn [reject] in H; [done|].
  destruct (get_str payload "status") as [st|]; cbn [ok_or] in H; [|done].
  destruct (negb (String.eqb st _)); cbn [reject] in H; [done|]. rewrite ad_context0 in H.
  destruct (bool_decide _) eqn:Hd; cbn [negb andb reject] in H; [|done]. injection H as <-.
  apply bool_decide_eq_true in Hd. injection Hd as -> -> -> ->.
  do 4 eexists. split_and!; try done.
  apply (audited_view _ a); [|done]. by apply audited_quiet.
Qed.

Lemma audit_status_inv present msg a a' pre :
  audited pre a → audit_status present msg a = (a', Ok ()) → audited (pre ++ [JStatus]) a'.
Proof.
  intros Had H. unfold audit_status in H. cbv [mbind SE_bind get lift put] in H.
  destruct (negb present); cbn [reject] in H; [done|]. destruct (add_u64 _ _); [|done..].
  injection H as <-. apply (audited_view _ a); [|done]. by apply audited_quiet.
Qed.

Lemma audit_rebootstrap_inv payload a a' pre :
  audited pre a → audit_rebootstrap payload a = (a', Ok ()) → audited (pre ++ [JRebootstrap]) a'.
Proof.
  intros Had H. pose proof Had as []. unfold audit_rebootstrap in H. cbv [mbind SE_bind get lift put] in H.
  destruct (_ || _) eqn:Hg; cbn [reject] in H; [done|]. destruct (existsb _ _); cbn [reject] in H; [done|].
  destruct (add_u64 _ _); [|done..]. destruct (add_u64 _ _); [|done..]. injection H as <-.
  apply (audited_view _ a); [|done]. apply audited_quiet; try done. cbn. split_orb.
  rewrite ad_next0 in *. split.
  - destruct (frontier pre); [|done]. by rewrite bool_decide_eq_true_2 in * by (by eexists).
  - intros E. rewrite E in ad_gaps0. change (len (@nil Z)) with 0 in ad_gaps0. lia.
Qed.

(** An ID above the last published one is above all of them. *)
Lemma trades_below pre a id :
  audited pre a → match au_last_trade_id a with Some last => id <=? last | None => false end = false →
  Forall (λ x, x.1 < id) (trades pre).
Proof.
  intros [] Hid. rewrite ad_last_trade0 in Hid. destruct (last (trades pre)) as [x|] eqn:Hl; cbn in Hid.
  - eapply Forall_impl; [by apply ad_below0|]. intros y. cbn. lia.
  - apply last_None in Hl as ->. constructor.
Qed.

Lemma insert_snoc (m : gmap Z string) l id d :
  (∀ i x, m !! i = Some x ↔ (i, x) ∈ l) → id ∉ l.*1 →
  ∀ i x, <[id := d]> m !! i = Some x ↔ (i, x) ∈ l ++ [(id, d)].
Proof.
  intros Hm Hid i x. rewrite lookup_insert_Some, elem_of_app, list_elem_of_singleton, Hm.
  split; [intros [[<- <-]|[_ ?]]; auto|]. intros [Hin|[= -> ->]]; [|by left]. right. split; [|done].
  intros <-. apply Hid. by apply (list_elem_of_fmap_2 fst) in Hin.
Qed.

Lemma audit_trade_inv payload a a' pre :
  audited pre a → audit_trade payload a = (a', Ok ()) →
  ∃ id d, get_u64 payload "trade_id" = Some id ∧ get_str payload "observation_sha256" = Some d ∧
    audited (pre ++ [JTrade id d]) a'.
Proof.
  intros Had H. unfold audit_trade in H. cbv [mbind SE_bind get lift put] in H.
  destruct (get_u64 payload "trade_id") as [id|]; cbn [ok_or] in H; [|done].
  destruct (payload_hex64 payload "observation_sha256" _) as [d| |] eqn:Hd; [|done..].
  apply payload_hex64_Ok in Hd. destruct (payload_hex64 payload "record_sha256" _); [|done..].
  destruct (match au_last_trade_id a with Some _ => _ | None => _ end) eqn:Hlast; cbn [reject] in H; [done|].
  destruct (match au_trade_floor a with Some _ => _ | None => _ end) eqn:Hfl; cbn [reject] in H; [done|].
  destruct (add_u64 (au_trades a) 1) as [t| |] eqn:Ht; [|done..]. apply add_u64_Ok in Ht as [_ ->].
  destruct (add_u64 (au_observations a) 1) as [t| |] eqn:Ht; [|done..]. apply add_u64_Ok in Ht as [_ ->].
  injection H as <-. exists id, d. split_and!; try done.
  pose proof (trades_below _ _ _ Had Hlast) as Hbelow. destruct Had.
  assert (trades (pre ++ [JTrade id d]) = trades pre ++ [(id, d)]) as E1
    by (unfold trades; by rewrite omap_app).
  assert (depths (pre ++ [JTrade id d]) = depths pre ∧ gaps (pre ++ [JTrade id d]) = gaps pre ∧
    lates (pre ++ [JTrade id d]) = lates pre ∧ unknowns (pre ++ [JTrade id d]) = unknowns pre)
    as (E2 & E3 & E4 & E5).
  { project_snoc. }
  destruct (floor_snoc pre (JTrade id d)) as [Ef Eb]; [done|].
  split; rewrite ?E1, ?E2, ?E3, ?E4, ?E5, ?Ef, ?Eb, ?frontier_snoc, ?len_app, ?last_snoc; try done.
  - cbn. change (len [(id, d)]) with 1. lia.
  - cbn. change (len [(id, d)]) with 1. lia.
  - intros x [= <-]. apply Forall_app. split; [|by apply Forall_singleton].
    eapply Forall_impl; [exact Hbelow|]. cbn. lia.
  - apply insert_snoc; [done|]. rewrite Forall_forall in Hbelow.
    intros (x & -> & Hx)%list_elem_of_fmap. specialize (Hbelow x Hx). lia.
  - apply journal_fits_snoc; [done|]. split; [done|]. intros f Hf. rewrite ad_floor0, Hf in Hfl. lia.
Qed.

Lemma audit_late_inv payload a a' pre :
  audited pre a → audit_late payload a = (a', Ok ()) →
  ∃ id kind d, get_u64 payload "trade_id" = Some id ∧ get_str payload "kind" = Some kind ∧
    get_str payload "observation_sha256" = Some d ∧
    audited (pre ++ [JLate id (String.eqb kind "duplicate") d]) a'.
Proof.
  intros Had H. unfold audit_late in H. cbv [mbind SE_bind get lift put] in H.
  destruct (get_u64 payload "trade_id") as [id|]; cbn [ok_or] in H; [|done].
  destruct (match au_last_trade_id a with Some _ => _ | None => _ end) eqn:Hlast; cbn [reject] in H; [done|].
  destruct (_ && _); cbn [reject] in H; [done|].
  destruct (payload_hex64 payload "observation_sha256" _) as [d| |] eqn:Hd; [|done..].
  apply payload_hex64_Ok in Hd.
  set (known := match au_published a !! id with Some _ => _ | None => _ end) in H.
  pose proof Had as [].
  assert (∀ x, known = Some x → (id, x) ∈ trades pre ++ unknowns pre) as Hknown.
  { intros x. unfold known. rewrite elem_of_app, <-ad_published0, <-ad_corrected0.
    destruct (au_published a !! id); auto. }
  assert (known = None → id ∉ (trades pre ++ unknowns pre).*1) as Hunknown.
  { unfold known. destruct (au_published a !! id) eqn:Hp; [done|]. intros Hc.
    intros ([i x] & E & Hin)%list_elem_of_fmap. cbn in E. subst i. rewrite elem_of_app in Hin.
    rewrite <-ad_published0, <-ad_corrected0, Hp, Hc in Hin. by destruct Hin. }
  assert (∃ x, last (trades pre) = Some x ∧ id ≤ x.1) as Hpos.
  { rewrite ad_last_trade0 in Hlast. destruct (last (trades pre)) as [x|]; [|done]. cbn in Hlast.
    exists x. split; [done|lia]. }
  match type of H with (match ?c with _ => _ end) = _ => destruct c as [corrected|e|] eqn:Hcorr; [|done..] end.
  destruct (add_u64 (au_late_corrections a) 1) as [n| |] eqn:Hn; [|done..]. apply add_u64_Ok in Hn as [_ ->].
  injection H as <-.
  assert (∃ kind, get_str payload "kind" = Some kind ∧
    event_fits pre (JLate id (String.eqb kind "duplicate") d) ∧
    ∀ i x, corrected !! i = Some x ↔ (i, x) ∈ unknowns (pre ++ [JLate id (String.eqb kind "duplicate") d]))
    as (kind & Hkind & Hfit & Hc).
  { destruct (bool_decide (get_str payload "kind" = Some "duplicate")) eqn:Hk.
    - apply bool_decide_eq_true in Hk. exists "duplicate"%string. split; [done|].
      destruct known as [x|]; [|done]. apply res_bind_Ok in Hcorr as ([] & Hx%reject_Ok & [= <-]).
      split_orb. apply String.eqb_eq in Hx as ->. split; [by split; [|apply Hknown]|].
      unfold unknowns. rewrite omap_app. cbn. by rewrite app_nil_r.
    - destruct (bool_decide (get_str payload "kind" = Some "unknown")) eqn:Hk2; [|done].
      apply bool_decide_eq_true in Hk2. exists "unknown"%string. split; [done|].
      apply res_bind_Ok in Hcorr as ([] & Hx%reject_Ok & [= <-]). destruct known; [done|].
      specialize (Hunknown eq_refl). split; [by split|].
      unfold unknowns. rewrite omap_app. cbn. apply insert_snoc; [done|].
      rewrite fmap_app, not_elem_of_app in Hunknown. tauto. }
  exists id, kind, d. split_and!; try done. set (e := JLate _ _ _) in *.
  assert (trades (pre ++ [e]) = trades pre ∧ depths (pre ++ [e]) = depths pre ∧
    gaps (pre ++ [e]) = gaps pre ∧ lates (pre ++ [e]) = lates pre ++ [id]) as (E1 & E2 & E3 & E4).
  { project_snoc. }
  destruct (floor_snoc pre e) as [Ef Eb]; [done|].
  split; rewrite ?E1, ?E2, ?E3, ?E4, ?Ef, ?Eb, ?frontier_snoc, ?len_app; try done.
  - cbn. change (len [id]) with 1. lia.
  - by apply journal_fits_snoc.
Qed.

Lemma audit_depth_inv payload a a' pre :
  audited pre a → audit_depth payload a = (a', Ok ()) →
  ∃ first final, get_u64 payload "first_sequence" = Some first ∧
    get_u64 payload "final_sequence" = Some final ∧ audited (pre ++ [JDepth first final]) a'.
Proof.
  intros Had H. unfold audit_depth in H. cbv [mbind SE_bind get lift put] in H.
  destruct (get_u64 payload "first_sequence") as [f|]; cbn [ok_or] in H; [|done].
  destruct (get_u64 payload "final_sequence") as [l|]; cbn [ok_or] in H; [|done].
  destruct (_ || _) eqn:Hr; cbn [reject] in H; [done|].
  destruct (get_str payload "lane"); cbn [ok_or] in H; [|done].
  destruct (payload_hex64 payload "observation_sha256" _); [|done..].
  destruct (payload_hex64 payload "record_sha256" _); [|done..]. pose proof Had as [].
  match type of H with (match ?c with _ => _ end) = _ => destruct c as [[]|e|] eqn:Hc; [|done..] end.
  destruct (add_u64 (au_depth_frames a) 1) as [t| |] eqn:Ht; [|done..]. apply add_u64_Ok in Ht as [_ ->].
  destruct (add_u64 (au_observations a) 1) as [t| |] eqn:Ht; [|done..]. apply add_u64_Ok in Ht as [_ ->].
  injection H as <-. exists f, l. split_and!; try done. set (e := JDepth f l) in *.
  assert (event_fits pre e) as Hfit.
  { split_orb. split; [lia|]. split; [lia|]. rewrite ad_next0, ad_context0, ad_last_depth0 in Hc.
    destruct (frontier pre) as [x|]; cbn in Hc; apply reject_Ok in Hc.
    - split_orb. lia.
    - intros x Hx. rewrite Hx in Hc. cbn in Hc. lia. }
  assert (trades (pre ++ [e]) = trades pre ∧ depths (pre ++ [e]) = depths pre ++ [(f, l)] ∧
    gaps (pre ++ [e]) = gaps pre ∧ lates (pre ++ [e]) = lates pre ∧
    unknowns (pre ++ [e]) = unknowns pre) as (E1 & E2 & E3 & E4 & E5).
  { project_snoc. }
  destruct (floor_snoc pre e) as [Ef Eb]; [done|].
  split; rewrite ?E1, ?E2, ?E3, ?E4, ?E5, ?Ef, ?Eb, ?frontier_snoc, ?len_app, ?last_snoc; try done.
  - cbn. change (len [(f, l)]) with 1. lia.
  - cbn. change (len [(f, l)]) with 1. lia.
  - by apply journal_fits_snoc.
Qed.

Lemma audit_gap_inv payload a a' pre :
  audited pre a → audit_gap payload a = (a', Ok ()) →
  ∃ b, get_u64 payload "canonical_last_sequence" = Some b ∧ audited (pre ++ [JGap b]) a'.
Proof.
  intros Had H. unfold audit_gap in H. cbv [mbind SE_bind get lift put] in H.
  destruct (get_u64 payload _) as [b|]; cbn [ok_or] in H; [|done]. pose proof Had as [].
  rewrite ad_context0 in H. destruct (negb _) eqn:Hb; cbn [reject mbind res_bind] in H; [done|].
  destruct (add_u64 (au_gaps a) 1) as [t| |] eqn:Ht; [|done..]. apply add_u64_Ok in Ht as [_ ->].
  injection H as <-. exists b. split; [done|]. set (e := JGap b) in *.
  assert (trades (pre ++ [e]) = trades pre ∧ depths (pre ++ [e]) = depths pre ∧
    gaps (pre ++ [e]) = gaps pre ++ [b] ∧ lates (pre ++ [e]) = lates pre ∧
    unknowns (pre ++ [e]) = unknowns pre) as (E1 & E2 & E3 & E4 & E5).
  { project_snoc. }
  destruct (floor_snoc pre e) as [Ef Eb]; [done|].
  split; rewrite ?E1, ?E2, ?E3, ?E4, ?E5, ?Ef, ?Eb, ?frontier_snoc, ?len_app; try done.
  - cbn. change (len [b]) with 1. lia.
  - apply journal_fits_snoc; [done|]. cbn. split_orb. rewrite <-ad_last_depth0. lia.
Qed.

(** What an event leaves alone; only a terminal closes the segment. *)
Definition audit_frame (event : string) (a a' : JournalAuditState) : Prop :=
  au_segments a' = au_segments a ∧ au_records a' = au_records a ∧
  au_terminal_seen a' = String.eqb event "ARBITRATION_TERMINAL" || au_terminal_seen a.
Lemma audit_event_frame event payload first a a' :
  audit_event event payload first a = (a', Ok ()) → audit_frame event a a'.
Proof.
  unfold audit_event, audit_frame. intros H.
  repeat match type of H with
  | (if String.eqb event ?c then _ else _) _ = _ =>
      let E := fresh "E" in
      destruct (String.eqb event c) eqn:E; [apply String.eqb_eq in E; subst event|]
  end; unfold audit_started, audit_resumed, audit_terminal, audit_trade, audit_late, audit_status,
    audit_depth, audit_gap, audit_rebootstrap in H;
  cbv [mbind SE_bind get lift put modify mret SE_ret throw] in H;
  repeat match type of H with
  | context [if au_preset_context a then _ else _] => destruct (au_preset_context a)
  | (match ?x with _ => _ end) = _ => destruct x; try discriminate H
  | (match ?x with _ => _ end) _ = _ => destruct x; try discriminate H
  end; injection H as <-; split_and!; cbn; auto.
Qed.

Definition is_terminal (e : journal_event) : bool :=
  match e with JTerminal _ _ _ _ => true | _ => false end.

Lemma audit_event_inv event payload first a a' pre :
  audited pre a → (first = true → au_segments a = 0 → pre = []) →
  get_str payload "event" = Some event → audit_event event payload first a = (a', Ok ()) →
  ∃ e, event_of payload = Some e ∧ audited (pre ++ [e]) a' ∧
    is_terminal e = String.eqb event "ARBITRATION_TERMINAL".
Proof.
  intros Had Hfirst Hev H. unfold audit_event in H. unfold event_of. rewrite Hev. cbn [mbind option_bind].
  repeat match type of H with
  | (if String.eqb event ?c then _ else _) _ = _ =>
      let E := fresh "E" in
      destruct (String.eqb event c) eqn:E; [apply String.eqb_eq in E; subst event; clear Hev|]
  end; cbn [String.eqb Ascii.eqb Bool.eqb].
  - eexists. split; [reflexivity|]. split; [by eapply audit_started_inv|done].
  - apply (audit_resumed_inv _ _ _ _ _ Had) in H as (floor & Hfl & H). rewrite Hfl. by eexists.
  - apply (audit_terminal_inv _ _ _ _ Had) in H as (t & d & g & c & -> & -> & -> & -> & H & _). by eexists.
  - apply (audit_trade_inv _ _ _ _ Had) in H as (id & d & -> & -> & H). by eexists.
  - apply (audit_late_inv _ _ _ _ Had) in H as (id & k & d & -> & -> & -> & H). by eexists.
  - apply (audit_status_inv _ _ _ _ _ Had) in H. by eexists.
  - apply (audit_status_inv _ _ _ _ _ Had) in H. by eexists.
  - apply (audit_depth_inv _ _ _ _ Had) in H as (f & l & -> & -> & H). by eexists.
  - apply (audit_gap_inv _ _ _ _ Had) in H as (b & -> & H). by eexists.
  - apply (audit_rebootstrap_inv _ _ _ _ Had) in H. by eexists.
  - apply (audit_status_inv _ _ _ _ _ Had) in H. by eexists.
  - done.
Qed.

(** *** Files *)

(** The hash chain of a segment from [previous] to [final]. *)
Fixpoint chained (previous : string) (index : Z) (envs : list LiveArbitrationJournalEnvelopeV1)
    (final : string) : Prop :=
  match envs with
  | [] => final = previous
  | env :: envs =>
      lb_previous_record_sha256 (le_body env) = previous ∧ lb_record_index (le_body env) = index ∧
      (∃ body, to_vec (le_body env) = inr body ∧ le_record_sha256 env = hex (sha256 body)) ∧
      chained (le_record_sha256 env) (index + 1) envs final
  end.

Definition record_lines (fuel : nat) (input : bytes) : list bytes :=
  filter (λ line, line ≠ []) (complete_lines fuel input).
Definition states (env : LiveArbitrationJournalEnvelopeV1) (e : journal_event) : Prop :=
  event_of (lb_payload (le_body env)) = Some e.
(** A terminal is the last event of its segment. *)
Definition terminal_last (evs : list journal_event) : Prop :=
  ∀ l e m, evs = l ++ e :: m → is_terminal e = true → m = [].
(** The file holds the events: its complete lines are records of one hash chain. *)
Definition file_holds (file : bytes) (evs : list journal_event) : Prop :=
  evs ≠ [] ∧ terminal_last evs ∧
  ∃ envs final, Forall2 (λ line env, from_slice line = inr env) (record_lines (S (length file)) file) envs ∧
    Forall2 states envs evs ∧ chained ZERO_DIGEST 0 envs final.

Lemma apply_record_inv env index first a a' pre :
  audited pre a → (first = true → au_segments a = 0 → pre = []) →
  apply_audit_record env index first a = (a', Ok ()) →
  ∃ e body, states env e ∧ audited (pre ++ [e]) a' ∧ au_segments a' = au_segments a ∧
    au_records a' = au_records a + 1 ∧ au_terminal_seen a = false ∧
    au_terminal_seen a' = is_terminal e ∧
    lb_previous_record_sha256 (le_body env) = au_previous a ∧ lb_record_index (le_body env) = index ∧
    to_vec (le_body env) = inr body ∧ le_record_sha256 env = hex (sha256 body) ∧
    au_previous a' = le_record_sha256 env.
Proof.
  intros Had Hfirst H. unfold apply_audit_record in H. cbv [mbind SE_bind get lift put] in H.
  destruct (to_vec (le_body env)) as [|body]; cbn [map_err] in H; [done|].
  destruct (_ || _ || _ || _ || _) eqn:Hg; cbn [reject] in H; [done|]. split_orb.
  repeat match goal with E : String.eqb _ _ = true |- _ => apply String.eqb_eq in E end.
  destruct (au_terminal_seen a) eqn:Ht; cbn [reject] in H; [done|].
  destruct (get_str _ "event") as [ev|] eqn:Hev; cbn [ok_or] in H; [|done].
  destruct (audit_event _ _ _ _) as [a1 [[]|e|]] eqn:He; [|done..].
  destruct (add_u64 (au_records a1) 1) as [n| |] eqn:Hn; [|done..]. apply add_u64_Ok in Hn as [_ ->].
  injection H as <-. pose proof (audit_event_frame _ _ _ _ _ He) as (F1 & F2 & F3).
  destruct (audit_event_inv _ _ _ _ _ _ Had Hfirst Hev He) as (e & Hof & Had1 & Hterm).
  exists e, body. split_and!; try done; cbn.
  - by apply (audited_view _ a1).
  - lia.
  - by rewrite F3, Ht, orb_false_r, Hterm.
  - lia.
Qed.

Lemma terminal_last_cons e evs :
  (is_terminal e = true → evs = []) → terminal_last evs → terminal_last (e :: evs).
Proof.
  intros He Hl l x m Heq Hx. destruct l as [|y l]; injection Heq as -> ->; [by apply He|by eapply Hl].
Qed.

Lemma audit_lines_inv fuel tol input index a a' index' tail pre :
  audited pre a → (index = 0 → au_segments a = 0 → pre = []) → 0 ≤ index →
  (index = 0 → au_terminal_seen a = false) →
  audit_lines fuel tol input index a = (a', Ok (index', tail)) →
  ∃ envs evs, Forall2 (λ line env, from_slice line = inr env) (record_lines fuel input) envs ∧
    Forall2 states envs evs ∧ audited (pre ++ evs) a' ∧ index' = index + len evs ∧
    au_records a' = au_records a + len evs ∧ au_segments a' = au_segments a ∧
    chained (au_previous a) index envs (au_previous a') ∧ terminal_last evs ∧
    (au_terminal_seen a = true → evs = []) ∧
    au_terminal_seen a' = match last evs with Some e => is_terminal e | None => au_terminal_seen a end.
Proof.
  revert input index a pre. induction fuel as [|fuel IH];
    intros input index a pre Had Hfirst Hidx Hterm H; [done|].
  cbn [audit_lines] in H. unfold record_lines. cbn [complete_lines].
  assert (∀ x, (a, Ok (index, x)) = (a', Ok (index', tail)) →
    ∃ envs evs, Forall2 (λ line env, from_slice line = inr env) (filter (λ line, line ≠ []) []) envs ∧
    Forall2 states envs evs ∧ audited (pre ++ evs) a' ∧ index' = index + len evs ∧
    au_records a' = au_records a + len evs ∧ au_segments a' = au_segments a ∧
    chained (au_previous a) index envs (au_previous a') ∧ terminal_last evs ∧
    (au_terminal_seen a = true → evs = []) ∧
    au_terminal_seen a' = match last evs with Some e => is_terminal e | None => au_terminal_seen a end) as Hend.
  { intros x [= <- <- <-]. exists [], []. rewrite app_nil_r. change (len (@nil journal_event)) with 0.
    rewrite !Z.add_0_r. split_and!; try done. intros l e m Heq. by destruct l. }
  destruct input as [|b input]; [by eapply Hend|].
  destruct (split_line (b :: input)) as [[line rest]|] eqn:Hs.
  2: { destruct tol; [by eapply Hend|done]. }
  clear Hend. destruct line as [|b0 line].
  { rewrite filter_cons_False by (by intros []). by eapply IH. }
  cbv [mbind SE_bind lift] in H.
  destruct (_ <? _); cbn [reject] in H; [done|].
  destruct (from_slice (b0 :: line)) as [|env] eqn:Hfs; cbn [map_err] in H; [done|].
  destruct (apply_audit_record _ _ _ _) as [a1 [[]|e|]] eqn:Happ; [|done..].
  destruct (add_u64 index 1) as [n| |] eqn:Hn; [|done..]. apply add_u64_Ok in Hn as [_ ->].
  apply (apply_record_inv _ _ _ _ _ pre Had) in Happ as
    (e & body & Hst & Had1 & Hseg & Hrec & Hnt & Ht & Hpr & Hi & Hv & Hd & Hprev);
    [|intros E; apply Z.eqb_eq in E; auto].
  destruct (IH rest (index + 1) a1 (pre ++ [e])) as
    (envs & evs & H1 & H2 & H3 & H4 & H5 & H6 & H7 & H8 & H9 & H10); [done|lia|lia|lia|done|].
  rewrite filter_cons_True by done. exists (env :: envs), (e :: evs).
  rewrite <-app_assoc in H3. rewrite len_cons. split_and!.
  - by constructor.
  - by constructor.
  - done.
  - lia.
  - lia.
  - congruence.
  - cbn. rewrite Hprev in H7. split_and!; try done. by exists body.
  - apply terminal_last_cons; [|done]. intros Hx. apply H9. by rewrite Ht.
  - by rewrite Hnt.
  - rewrite H10, last_cons. by destruct (last evs).
Qed.

Lemma walk_audit_inv file inc tol a a' r pre :
  audited pre a → (au_segments a = 0 → pre = []) → 0 ≤ au_segments a → au_records a = len pre →
  walk_audit_file_with_context file inc tol false a = (a', Ok r) →
  ∃ evs, file_holds file evs ∧ audited (pre ++ evs) a' ∧ 0 < au_segments a' ∧
    au_records a' = len (pre ++ evs) ∧
    au_terminal_seen a' = match last evs with Some e => is_terminal e | None => false end.
Proof.
  intros Had Hseg Hpos Hrec H. unfold walk_audit_file_with_context in H.
  cbv [mbind SE_bind modify lift get put mret SE_ret] in H.
  set (a0 := au_set_terminal false _) in H.
  assert (audited pre a0 ∧ au_segments a0 = au_segments a ∧ au_terminal_seen a0 = false ∧
    au_previous a0 = ZERO_DIGEST ∧ au_records a0 = au_records a) as (Had0 & S0 & T0 & P0 & R0).
  { unfold a0. destruct (_ && _); split_and!; try done; by apply (audited_view _ a). }
  destruct (audit_lines _ _ _ _ _) as [a1 [[idx tail]|e|]] eqn:Hl; [|done..].
  apply (audit_lines_inv _ _ _ _ _ _ _ _ pre) in Hl as
    (envs & evs & H1 & H2 & H3 & H4 & H5 & H6 & H7 & H8 & _ & H10); [|done|by rewrite S0|done|done].
  destruct (Z.eqb_spec idx 0) as [->|Hne]; cbn [reject] in H; [done|].
  destruct (add_u64 _ _) as [n| |] eqn:Hn; [|done..]. apply add_u64_Ok in Hn as [_ ->].
  injection H as <- <-. exists evs. split_and!.
  - split; [by intros ->|]. split; [done|]. rewrite P0 in H7. by exists envs, (au_previous a1).
  - by apply (audited_view _ a1).
  - cbn. rewrite H6, S0. lia.
  - cbn. rewrite H5, R0, Hrec, len_app. done.
  - cbn. by rewrite H10, T0.
Qed.

Lemma audited_default : audited [] audit_default.
Proof.
  split; try done; try (intros; cbn; rewrite lookup_empty; set_solver). intros pre e post. by destruct pre.
Qed.

Lemma audit_set_inv files a a' pre :
  audited pre a → (au_segments a = 0 → pre = []) → 0 ≤ au_segments a → au_records a = len pre →
  audit_set files a = (a', Ok ()) →
  ∃ evss, Forall2 file_holds files evss ∧ audited (pre ++ concat evss) a' ∧
    au_records a' = len (pre ++ concat evss) ∧
    (files ≠ [] → au_terminal_seen a' = match last (concat evss) with Some e => is_terminal e | None => false end).
Proof.
  revert a pre. induction files as [|file files IH]; intros a pre Had Hseg Hpos Hrec H; cbn [audit_set] in H.
  { injection H as <-. exists []. rewrite app_nil_r. by split_and!. }
  cbv [mbind SE_bind lift] in H.
  destruct (walk_audit_file _ _ _ _) as [a1 [[clean tail]|e|]] eqn:Hw; [|done..].
  destruct (_ && _); cbn [reject] in H; [done|].
  apply (walk_audit_inv _ _ _ _ _ _ pre) in Hw as (evs & Hf & Had1 & Hs1 & Hr1 & Ht1); [|done..].
  destruct (IH a1 (pre ++ evs) Had1) as (evss & H1 & H2 & H3 & H4); [lia|lia|done|done|].
  exists (evs :: evss). cbn [concat]. rewrite app_assoc. split_and!; [by constructor|done|done|].
  intros _. destruct files as [|f2 files].
  - injection H as <-. apply Forall2_nil_inv_l in H1 as ->. cbn [concat]. by rewrite app_nil_r.
  - rewrite H4 by done. apply Forall2_cons_inv_l in H1 as (evs2 & evss2 & (Hne & _) & _ & ->).
    cbn [concat]. rewrite !last_app. destruct evs2 as [|x l _] using rev_ind; [done|].
    rewrite last_snoc. by destruct (last (concat evss2)).
Qed.

(** The trades of a journal increase. *)
Lemma trades_sorted l : journal_fits l → StronglySorted Z.lt (trades l).*1.
Proof.
  induction l as [|e l IH] using rev_ind; intros Hf; [constructor|].
  assert (journal_fits l) as Hl.
  { intros pre x post ->. apply (Hf pre x (post ++ [e])). by rewrite <-app_assoc. }
  specialize (IH Hl). specialize (Hf l e [] eq_refl). unfold trades in *. rewrite omap_app, fmap_app.
  destruct e; cbn; rewrite ?app_nil_r; try done.
  apply StronglySorted_app_2; [|done|repeat constructor].
  intros x y Hx ->%list_elem_of_singleton. destruct Hf as [Hf _]. rewrite Forall_forall in Hf.
  apply list_elem_of_fmap in Hx as (z & -> & Hz). by apply Hf.
Qed.

Lemma size_published pre a : audited pre a → Z.of_nat (size (au_published a)) = len (trades pre).
Proof.
  intros []. assert (NoDup (trades pre).*1) as Hnd.
  { pose proof (trades_sorted _ ad_fits0) as Hs. induction Hs as [|x l _ IH Hx]; constructor; [|done].
    rewrite Forall_forall in Hx. intros Hin. specialize (Hx x Hin). lia. }
  assert (au_published a = list_to_map (trades pre)) as ->.
  { apply map_eq. intros id. apply option_eq. intros d. rewrite ad_published0.
    by rewrite elem_of_list_to_map. }
  by rewrite map_size_list_to_map.
Qed.

(** C7: a journal that passes the closed audit is what it must be. If the audit of a
    set of segments succeeds, every segment is one hash chain of records, and the
    events of all segments together begin with the start and end with the terminal;
    each fits those before it: trades increase strictly and lie above the declared
    floor, depth ranges continue each other exactly unless a gap was declared at the
    cursor, a correction agrees with what was published, and the terminal counts
    exactly. The report counts the events exactly. *)
Theorem closed_audit_exact files sc :
  scan_live_arbitration_journal_set files = Ok sc →
  ∃ evss, Forall2 file_holds files evss ∧
    let evs := concat evss in
    journal_fits evs ∧ begins_started evs = true ∧
    (∃ t d g c, last evs = Some (JTerminal t d g c)) ∧
    StronglySorted Z.lt (trades evs).*1 ∧
    lv_records sc = len evs ∧ lv_trades sc = len (trades evs) ∧
    lv_published_trades sc = len (trades evs) ∧ lv_depth_frames sc = len (depths evs) ∧
    lv_gaps sc = len (gaps evs) ∧ lv_late_corrections sc = len (lates evs) ∧
    lv_last_trade_id sc = fst <$> last (trades evs).
Proof.
  unfold scan_live_arbitration_journal_set. intros H.
  apply res_bind_Ok in H as ([] & Hne%reject_Ok%bool_decide_eq_false & H).
  destruct (audit_set files audit_default) as [a r] eqn:Ha.
  apply res_bind_Ok in H as ([] & -> & H).
  destruct (audit_set_inv files audit_default a [] audited_default) as (evss & Hf & Had & Hrec & Hterm);
    [done..|].
  cbn [app] in Had, Hrec. unfold finish_audit in H.
  apply res_bind_Ok in H as ([] & Hs%reject_Ok%negb_false_iff & H).
  apply res_bind_Ok in H as ([] & Ht%reject_Ok & H). cbn in Ht. apply negb_false_iff in Ht.
  injection H as <-. exists evss. split; [done|]. pose proof Had as [].
  cbn [lv_records lv_trades lv_published_trades lv_depth_frames lv_gaps lv_late_corrections
    lv_last_trade_id].
  split_and!; try done.
  - by rewrite <-ad_started0.
  - rewrite (Hterm Hne) in Ht. destruct (last (concat evss)) as [[]|]; try done. by do 4 eexists.
  - by apply trades_sorted.
  - by apply size_published.
Qed.

(** *** The identity log of an audited journal *)

(** What [rebuild_trade_identity_from_journal] reads from a record that states an
    event. *)
Lemma states_identity env e :
  states env e →
  trade_identity env = Ok (match e with JTrade id d => Some (id, d) | _ => None end).
Proof.
  unfold states, event_of, trade_identity. destruct (get_str _ "event") as [ev|]; cbn [mbind option_bind]; [|done].
  cbn [ok_or mbind res_bind].
  destruct (String.eqb ev "ARBITRATION_STARTED") eqn:E1; [apply String.eqb_eq in E1 as ->; by intros [= <-]|].
  destruct (String.eqb ev "ARBITRATION_RESUMED") eqn:E2.
  { apply String.eqb_eq in E2 as ->. by destruct (get_u64 _ _); intros [= <-]. }
  destruct (String.eqb ev "ARBITRATION_TERMINAL") eqn:E3.
  { apply String.eqb_eq in E3 as ->. destruct (get_u64 _ "trades"), (get_u64 _ "depth_frames"),
      (get_u64 _ "gaps"), (get_u64 _ "late_corrections"); by intros [= <-]. }
  destruct (String.eqb ev "TRADE_OBSERVATION").
  { destruct (get_u64 _ "trade_id"), (get_str _ "observation_sha256"); by intros [= <-]. }
  destruct (String.eqb ev "TRADE_LATE_CORRECTION").
  { destruct (get_u64 _ "trade_id"), (get_str _ "kind"), (get_str _ "observation_sha256"); by intros [= <-]. }
  destruct (String.eqb ev "DEPTH_OBSERVATION").
  { destruct (get_u64 _ "first_sequence"), (get_u64 _ "final_sequence"); by intros [= <-]. }
  destruct (String.eqb ev "GAP"); [by destruct (get_u64 _ _); intros [= <-]|].
  destruct (String.eqb ev "DEPTH_REBOOTSTRAP"); by intros [= <-].
Qed.

Lemma lines_identities lines envs evs :
  Forall2 (λ line env, from_slice line = inr env) (filter (λ line, line ≠ []) lines) envs →
  Forall2 states envs evs →
  ∃ l, try_map line_identity lines = Ok l ∧ somes l = trades evs.
Proof.
  revert envs evs. induction lines as [|line lines IH]; intros envs evs H1 H2.
  { apply Forall2_nil_inv_l in H1 as ->. apply Forall2_nil_inv_l in H2 as ->. by exists []. }
  destruct (decide (line = [])) as [->|Hne].
  { rewrite filter_cons_False in H1 by (by intros []). destruct (IH _ _ H1 H2) as (l & Hl & Hs).
    exists (None :: l). cbn [try_map line_identity mbind res_bind]. by rewrite Hl. }
  rewrite filter_cons_True in H1 by done.
  apply Forall2_cons_inv_l in H1 as (env & envs' & Hp & H1 & ->).
  apply Forall2_cons_inv_l in H2 as (e & evs' & He & H2 & ->).
  destruct (IH _ _ H1 H2) as (l & Hl & Hs). apply states_identity in He.
  exists (match e with JTrade id d => Some (id, d) | _ => None end :: l). cbn [try_map].
  assert (line_identity line = Ok (match e with JTrade id d => Some (id, d) | _ => None end)) as ->.
  { destruct line; [done|]. unfold line_identity. rewrite Hp. exact He. }
  cbn [mbind res_bind]. rewrite Hl. cbn [mbind res_bind]. split; [done|].
  change (trades (e :: evs')) with (omap (λ e, match e with JTrade id d => Some (id, d) | _ => None end) ([e] ++ evs')).
  rewrite omap_app. by destruct e; cbn; rewrite Hs.
Qed.

(** Rebuilding from the segments one after another. *)
Fixpoint rebuild_all (files : list bytes) : SE TradeIdentityLog unit :=
  match files with
  | [] => mret ()
  | file :: files => rebuild_trade_identity_from_journal file;; rebuild_all files
  end.

Lemma rebuild_segment file evs log acc :
  file_holds file evs → log_accepts log acc → StronglySorted Z.lt (acc ++ trades evs).*1 →
  Forall (λ x, in_u64 x.1 ∧ is_digest x.2 = true) (trades evs) →
  32 + 40 * (len acc + len (trades evs)) ≤ u64_max →
  ∃ log' n, rebuild_trade_identity_from_journal file log = (log', Ok n) ∧ log_accepts log' (acc ++ trades evs).
Proof.
  intros (_ & _ & envs & final & H1 & H2 & _) Hacc Hs Hok Hsize. unfold record_lines in H1.
  destruct (lines_identities _ _ _ H1 H2) as (l & Hl & Hsm).
  pose proof (len_nonneg acc). pose proof (len_nonneg (trades evs)).
  pose proof Hs as Hs2. rewrite fmap_app in Hs2. apply StronglySorted_app_1_r in Hs2.
  destruct (rebuild_loop_exact _ _ l log acc 0 Hl ltac:(lia) Hacc) as (log1 & Hrun & Hacc1);
    rewrite ?Hsm; try done; [lia|].
  pose proof Hacc as (_ & c & Hh). rewrite Hsm in Hrun, Hacc1.
  pose proof (newer_split _ _ _ _ Hh Hs) as Hsplit.
  assert (filter (newer (il_last_id log)) (trades evs) = trades evs) as Hall.
  { assert (Forall (newer (il_last_id log)) (trades evs)) as Hf.
    { rewrite <-Hsplit. apply Forall_forall. intros x Hx. by apply list_elem_of_filter in Hx as [? _]. }
    clear -Hf. induction Hf as [|x l Hx _ IH]; [done|]. rewrite filter_cons_True by done. by f_equal. }
  rewrite Hall in Hrun, Hacc1. destruct (log_accepts_sync _ _ Hacc1) as (log' & Hsync & Hacc').
  exists log', (0 + len (trades evs)). split; [|done].
  unfold rebuild_trade_identity_from_journal, mbind, SE_bind. by rewrite Hrun, Hsync.
Qed.

Lemma trades_app l k : trades (l ++ k) = trades l ++ trades k.
Proof. unfold trades. by rewrite omap_app. Qed.

Lemma rebuild_all_Ok files evss log acc :
  Forall2 file_holds files evss → log_accepts log acc →
  StronglySorted Z.lt (acc ++ trades (concat evss)).*1 →
  Forall (λ x, in_u64 x.1 ∧ is_digest x.2 = true) (trades (concat evss)) →
  32 + 40 * (len acc + len (trades (concat evss))) ≤ u64_max →
  ∃ log', rebuild_all files log = (log', Ok ()) ∧ log_accepts log' (acc ++ trades (concat evss)).
Proof.
  intros Hf. revert log acc. induction Hf as [|file evs files evss Hfile _ IH]; intros log acc Hacc Hs Hok Hsize.
  { exists log. cbn. by rewrite app_nil_r. }
  cbn [concat] in *. rewrite trades_app in *. rewrite len_app in Hsize.
  apply Forall_app in Hok as [Hok1 Hok2]. pose proof (len_nonneg (trades (concat evss))).
  rewrite app_assoc in Hs |- *.
  destruct (rebuild_segment file evs log acc Hfile Hacc) as (log1 & n & Hr1 & Hacc1); [|done|lia|].
  { rewrite fmap_app in Hs. by eapply StronglySorted_app_1_l. }
  destruct (IH log1 _ Hacc1 Hs Hok2) as (log2 & Hr2 & Hacc2); [rewrite len_app; lia|].
  exists log2. split; [|done]. cbn [rebuild_all]. unfold mbind, SE_bind. by rewrite Hr1.
Qed.

Lemma event_of_range `{!SerdeValueLaws Hval} payload id d :
  event_of payload = Some (JTrade id d) → in_u64 id.
Proof.
  unfold event_of. destruct (get_str payload "event") as [ev|]; cbn [mbind option_bind]; [|done].
  repeat match goal with |- context [if String.eqb ev ?c then _ else _] => destruct (String.eqb ev c) end;
    try done; try (by destruct (get_u64 _ _)).
  - by destruct (get_u64 _ "trades"), (get_u64 _ "depth_frames"), (get_u64 _ "gaps"),
      (get_u64 _ "late_corrections").
  - unfold get_u64. destruct (value_get payload "trade_id") as [v|]; cbn [mbind option_bind]; [|done].
    destruct (as_u64 v) as [n|] eqn:Hn; cbn [mbind option_bind]; [|done].
    destruct (get_str _ _); cbn [mbind option_bind]; [|done]. intros [= <- <-]. by eapply as_u64_range.
  - by destruct (get_u64 _ "trade_id"), (get_str _ "kind"), (get_str _ "observation_sha256").
  - by destruct (get_u64 _ "first_sequence"), (get_u64 _ "final_sequence").
Qed.

(** The events of a file, read line by line. *)
Definition file_events (file : bytes) : option (list journal_event) :=
  mapM (λ line, match from_slice line with
                | inr env => event_of (lb_payload (le_body env))
                | inl _ => None
                end) (record_lines (S (length file)) file).

Lemma file_holds_events file evs : file_holds file evs → file_events file = Some evs.
Proof.
  intros (_ & _ & envs & f & H1 & H2 & _). apply mapM_Some. clear f.
  revert evs H2. induction H1 as [|line env lines envs Hl _ IH]; intros evs H2.
  - by apply Forall2_nil_inv_l in H2 as ->.
  - apply Forall2_cons_inv_l in H2 as (e & evs' & He & H2 & ->). constructor; [by rewrite Hl|auto].
Qed.
Lemma files_hold_events files evss :
  Forall2 file_holds files evss → mapM file_events files = Some evss.
Proof. intros H. apply mapM_Some. eapply Forall2_impl; [exact H|]. apply file_holds_events. Qed.

Lemma trades_in_u64 `{!SerdeValueLaws Hval} files evss :
  Forall2 file_holds files evss → Forall (λ x, in_u64 x.1) (trades (concat evss)).
Proof.
  intros H. apply Forall_forall. intros [id d] Hin. unfold trades in Hin.
  apply list_elem_of_omap in Hin as (e & He & Hid). destruct e; try done. injection Hid as -> ->.
  apply list_elem_of_In, in_concat in He as (evs & Hevs & He).
  apply list_elem_of_In, list_elem_of_lookup in Hevs as (i & Hi).
  destruct (Forall2_lookup_r _ _ _ _ _ H Hi) as (file & _ & _ & _ & envs & fin & _ & Hst & _).
  apply list_elem_of_In, list_elem_of_lookup in He as (j & Hj).
  destruct (Forall2_lookup_r _ _ _ _ _ Hst Hj) as (env & _ & Hev). by eapply event_of_range.
Qed.

(** An audited journal is enough to restore the identity log. If the closed audit
    of the segments succeeds, rebuilding an empty identity log from them succeeds when
    its file does not fail,
    and afterwards a lookup answers exactly as the published trades of the journal. *)
Theorem audited_journal_restores_log `{!SerdeValueLaws Hval} files sc evss :
  scan_live_arbitration_journal_set files = Ok sc → mapM file_events files = Some evss →
  Forall (λ x, is_digest x.2 = true) (trades (concat evss)) →
  32 + 40 * len (trades (concat evss)) ≤ u64_max →
  ∃ log, rebuild_all files new_identity_log = (log, Ok ()) ∧
    ∀ id, (identity_lookup id log).2 = Ok ((list_to_map (trades (concat evss)) : gmap Z string) !! id).
Proof.
  unfold scan_live_arbitration_journal_set. intros H Hf Hd Hsize.
  apply res_bind_Ok in H as ([] & _ & H).
  destruct (audit_set files audit_default) as [a r] eqn:Ha. apply res_bind_Ok in H as ([] & -> & _).
  destruct (audit_set_inv files audit_default a [] audited_default) as (evss' & Hf' & [] & _ & _);
    [done..|].
  assert (evss' = evss) as -> by (apply files_hold_events in Hf'; congruence).
  destruct (rebuild_all_Ok files evss new_identity_log []) as (log & Hrun & Hacc); try done.
  - exact created_accepts.
  - by apply trades_sorted.
  - pose proof (trades_in_u64 _ _ Hf') as Hr. rewrite Forall_forall in *. by split; auto.
  - exists log. split; [done|]. intros id. by destruct (log_accepts_lookup log _ id Hacc Hd) as (? & -> & _).
Qed.
End audit_theory.

(** ** Demonstrations *)

(** A journal of two segments. The first is torn; the second resumes it, bridges a
    gap and ends with the terminal. *)
Module AuditDemo.
Local Open Scope string_scope.
#[export] Instance demo_value : SerdeValue := Wire.serde [].
#[export] Instance demo_value_laws : SerdeValueLaws demo_value.
Proof.
  intros [| |] n; try done. cbn. unfold Wire.read_number. destruct (_ && _ && _) eqn:E; [|done].
  intros [= <-]. split_orb. unfold in_u64. split; [|lia]. by apply dec_value_nonneg.
Qed.
#[export] Instance demo_get : SerdeGet := λ v f,
  match value_index v f with Wire.WNull => None | w => Some w end.
#[export] Instance wire_eq_dec : EqDecision Wire.wire.
Proof. solve_decision. Defined.
#[export] Instance body_eq_dec : EqDecision LiveArbitrationJournalBodyV1.
Proof. intros [?????? ?] [?????? ?]. solve_decision. Defined.
#[export] Instance envelope_eq_dec : EqDecision LiveArbitrationJournalEnvelopeV1.
Proof. solve_decision. Defined.
#[export] Instance demo_sha : Sha256 := toy_sha256.

Definition obj (fields : list (string * string)) : Wire.wire :=
  Wire.WObject fields.*1 fields.*2.
Definition digest_at (k : nat) : string := hex (sha256 (x2a :: replicate k x2a)).
Definition d7 : string := digest_at 107.
Definition d9 : string := digest_at 109.
Definition body_at (index : Z) (previous : string) (payload : list (string * string))
    : LiveArbitrationJournalBodyV1 :=
  mkArbitrationBody JOURNAL_SCHEMA index 0 0 "LIVE" (obj payload) previous.
Definition trade (id d : string) : list (string * string) :=
  [("event", "TRADE_OBSERVATION"); ("trade_id", id); ("observation_sha256", d); ("record_sha256", d)].
Definition depth (first final : string) : list (string * string) :=
  [("event", "DEPTH_OBSERVATION"); ("first_sequence", first); ("final_sequence", final); ("lane", "a");
   ("observation_sha256", d7); ("record_sha256", d7)].
Definition bodies : list LiveArbitrationJournalBodyV1 :=
  [body_at 0 ZERO_DIGEST [("event", "ARBITRATION_STARTED"); ("symbol", "BTCUSDT"); ("trade_floor", "5")];
   body_at 1 (digest_at 0) (trade "7" d7);
   body_at 2 (digest_at 1) (depth "10" "12");
   body_at 3 (digest_at 2) (depth "13" "13");
   body_at 0 ZERO_DIGEST
     [("event", "ARBITRATION_RESUMED"); ("symbol", "BTCUSDT"); ("previous_journal_sha256", digest_at 3);
      ("trade_floor", "7"); ("mode", "RESUME"); ("previous_tail_bytes", "2")];
   body_at 1 (digest_at 4) [("event", "GAP"); ("canonical_last_sequence", "13")];
   body_at 2 (digest_at 5)
     [("event", "DEPTH_REBOOTSTRAP"); ("generation", "2"); ("snapshot_record_sha256", d9);
      ("snapshot_last_update_id", "20")];
   body_at 3 (digest_at 6) (depth "21" "22");
   body_at 4 (digest_at 7) (trade "9" d9);
   body_at 5 (digest_at 8)
     [("event", "TRADE_LATE_CORRECTION"); ("trade_id", "7"); ("kind", "duplicate"); ("observation_sha256", d7)];
   body_at 6 (digest_at 9)
     [("event", "ARBITRATION_TERMINAL"); ("status", "COMPLETE"); ("trades", "2"); ("depth_frames", "3");
      ("gaps", "1"); ("late_corrections", "1")];
   body_at 0 ZERO_DIGEST
     [("event", "ARBITRATION_TERMINAL"); ("status", "COMPLETE"); ("trades", "1"); ("depth_frames", "2");
      ("gaps", "0"); ("late_corrections", "0")]].
#[export] Instance demo_body : Serde LiveArbitrationJournalBodyV1 := text_serde bodies.
Definition envelopes : list LiveArbitrationJournalEnvelopeV1 :=
  imap (λ k body, mkArbitrationEnvelope body (digest_at k)) bodies.
#[export] Instance demo_envelope : Serde LiveArbitrationJournalEnvelopeV1 := text_serde envelopes.

Definition line (k : nat) : bytes := x2a :: replicate k x2a ++ [x0a].
Definition files : list bytes :=
  [concat (line <$> [0; 1; 2; 3]%nat) ++ [x2a; x2a]; concat (line <$> [4; 5; 6; 7; 8; 9; 10]%nat)]%list.
Definition demo_events : list (list journal_event) :=
  [[JStarted (Some 5); JTrade 7 d7; JDepth 10 12; JDepth 13 13];
   [JResumed 7; JGap 13; JRebootstrap; JDepth 21 22; JTrade 9 d9; JLate 7 true d7; JTerminal 2 3 1 1]]%Z.
Definition demo_report : LiveArbitrationScanV1 :=
  mkArbitrationScan 11 5 2 3 1 1 1 1 (digest_at 10) (Some 9%Z) (Some 22%Z) 2 (Some 5%Z) (Some "BTCUSDT") 2 true.
Lemma demo_scan : scan_live_arbitration_journal_set files = Ok demo_report.
Proof. vm_compute. reflexivity. Qed.

Lemma demo_events_of_files : mapM file_events files = Some demo_events.
Proof. vm_compute. reflexivity. Qed.
End AuditDemo.
Import AuditDemo.

Lemma closed_audit_exact_witness :
  ∃ evss, Forall2 file_holds files evss ∧
    let evs := concat evss in
    journal_fits evs ∧ begins_started evs = true ∧
    (∃ t d g c, last evs = Some (JTerminal t d g c)) ∧ StronglySorted Z.lt (trades evs).*1 ∧
    11 = len evs ∧ 2 = len (trades evs) ∧ 2 = len (trades evs) ∧ 3 = len (depths evs) ∧
    1 = len (gaps evs) ∧ 1 = len (lates evs) ∧ Some 9 = fst <$> last (trades evs).
Proof. apply (closed_audit_exact files demo_report demo_scan). Defined.

Lemma audited_journal_restores_log_witness :
  ∃ log, rebuild_all files new_identity_log = (log, Ok ()) ∧
    ∀ id, (identity_lookup id log).2 = Ok ((list_to_map [(7, d7); (9, d9)] : gmap Z string) !! id).
Proof.
  apply (audited_journal_restores_log files demo_report demo_events demo_scan demo_events_of_files).
  - apply (bool_decide_unpack _). vm_compute. exact I.
  - vm_compute. discriminate.
Defined.

(** A later segment need not open with ARBITRATION_RESUMED: the closed audit accepts a
    torn segment followed by one that neither chains it nor declares its torn bytes. *)
Lemma unchained_segment_passes_audit :
  file_events (line 11) = Some [JTerminal 1 2 0 0] ∧
  ∃ sc, scan_live_arbitration_journal_set [files !!! 0%nat; line 11] = Ok sc ∧ lv_segments sc = 2.
Proof. split; [vm_compute; reflexivity|]. eexists. split; vm_compute; reflexivity. Qed.
