(* ===== verification/CanonicalOutput.v ===== *)
(** * The canonical output journal (canonical_output.rs)

    What downstream consumers read: one journal per symbol and stream kind that
    holds the published observations and the changes of ownership between them.
    A record is length-prefixed, hash-chained and synced before it is acknowledged;
    the writer fences observations of other epochs and refuses gaps, the scanner
    checks the same again. A file is its bytes; creating and naming files is left
    out, resuming takes the sink of the opened file and its size. *)

From stdpp Require Import base list strings option numbers sets gmap.
From Stdlib Require Import ZArith Lia Strings.Byte.
From S2P Require Import Prelude External OrderBook RawLog RawLogSafety Boundary.
Local Open Scope Z_scope.

Definition OUTPUT_MAGIC : bytes := [x42; x4e; x50; x55; x42; x00; x01; x0a].
Definition OUTPUT_MAX_RECORD_BYTES : Z := 256 * 1024.

(** ** Data *)

Inductive CanonicalOutputAction := OutInitialized | OutObservation | OutOwnershipChanged.
#[global] Instance output_action_eq_decision : EqDecision CanonicalOutputAction.
Proof. solve_decision. Defined.

Record CanonicalOutputOwnerV1 := mkOutputOwner {
  oo_generation_id : string; oo_connection_epoch : string; oo_fencing_token : Z; oo_last_sequence : Z
}.
#[global] Instance output_owner_eq_decision : EqDecision CanonicalOutputOwnerV1.
Proof. solve_decision. Defined.

Record CanonicalOutputRecordV1 := mkOutputRecord {
  cr_schema : string; cr_record_index : Z; cr_action : CanonicalOutputAction; cr_symbol : string;
  cr_stream_kind : BoundaryStreamKind; cr_owner : CanonicalOutputOwnerV1;
  cr_observation : option CanonicalObservationV1;
  cr_ownership_activation_record_sha256 : option string; cr_previous_record_sha256 : string
}.
#[global] Instance output_record_eq_decision : EqDecision CanonicalOutputRecordV1.
Proof. solve_decision. Defined.

Record CanonicalOutputAckV1 := mkOutputAck {
  oa_action : CanonicalOutputAction; oa_durable_record_count : Z; oa_durable_through_offset : Z;
  oa_last_record_sha256 : string; oa_owner : CanonicalOutputOwnerV1
}.

Record CanonicalOutputScanV1 := mkOutputScan {
  cs_records : Z; cs_observations : Z; cs_ownership_changes : Z; cs_last_good_offset : Z;
  cs_clean_eof : bool; cs_reason : option string; cs_symbol : option string;
  cs_stream_kind : option BoundaryStreamKind; cs_owner : option CanonicalOutputOwnerV1;
  cs_last_observation : option CanonicalObservationV1; cs_last_record_sha256 : string
}.

Record CanonicalOutputWriter (S : Type) := mkOutputWriter {
  cw_sink : S; cw_symbol : string; cw_stream_kind : BoundaryStreamKind;
  cw_owner : CanonicalOutputOwnerV1; cw_record_count : Z; cw_end_offset : Z;
  cw_previous_digest : string; cw_poisoned : bool
}.
Arguments mkOutputWriter {S}.
Arguments cw_sink {S}. Arguments cw_symbol {S}. Arguments cw_stream_kind {S}.
Arguments cw_owner {S}. Arguments cw_record_count {S}. Arguments cw_end_offset {S}.
Arguments cw_previous_digest {S}. Arguments cw_poisoned {S}.

(** ** Checks *)

Definition validate_output_identity (symbol : string) (owner : CanonicalOutputOwnerV1) : res unit :=
  reject (negb (String.eqb symbol "BTCUSDT" || String.eqb symbol "ETHUSDT")
      || is_blank (oo_generation_id owner) || is_blank (oo_connection_epoch owner)
      || (oo_fencing_token owner =? 0)) "invalid canonical output identity".

(** The observation continues a stream that expects [expected] next. *)
Definition output_continuous (kind : BoundaryStreamKind) (expected : Z) (o : CanonicalObservationV1)
    : bool :=
  match kind with
  | Depth => (co_first_sequence o <=? expected) && (expected <=? co_final_sequence o)
  | Trade => (co_first_sequence o =? expected) && (co_final_sequence o =? expected)
  end.

Definition with_last (n : Z) (owner : CanonicalOutputOwnerV1) : CanonicalOutputOwnerV1 :=
  mkOutputOwner (oo_generation_id owner) (oo_connection_epoch owner) (oo_fencing_token owner) n.

Definition validate_output_record (record : CanonicalOutputRecordV1) (index : Z)
    (symbol : option string) (kind : option BoundaryStreamKind)
    (previous_owner : option CanonicalOutputOwnerV1) (previous_digest : string) : res unit :=
  _ ← reject (negb (String.eqb (cr_schema record) "CanonicalOutputRecordV1")
        || negb (cr_record_index record =? index)
        || negb (String.eqb (cr_previous_record_sha256 record) previous_digest)
        || match symbol with Some value => negb (String.eqb value (cr_symbol record)) | None => false end
        || match kind with
           | Some value => negb (bool_decide (value = cr_stream_kind record)) | None => false
           end) "canonical output record identity mismatch";
  _ ← validate_output_identity (cr_symbol record) (cr_owner record);
  let owner := cr_owner record in
  match cr_action record with
  | OutInitialized =>
      reject (negb (index =? 0) || bool_decide (is_Some previous_owner)
              || bool_decide (is_Some (cr_observation record))
              || bool_decide (is_Some (cr_ownership_activation_record_sha256 record)))
        "illegal canonical output initialization"
  | OutObservation =>
      old ← ok_or previous_owner "observation before initialization";
      observation ← ok_or (cr_observation record) "observation record lacks observation";
      expected ← ok_or (checked_add (oo_last_sequence old) 1) "sequence overflow";
      reject (negb (output_continuous (cr_stream_kind record) expected observation)
              || negb (String.eqb (co_symbol observation) (cr_symbol record))
              || negb (bool_decide (co_stream_kind observation = cr_stream_kind record))
              || negb (String.eqb (co_connection_epoch observation) (oo_connection_epoch old))
              || negb (String.eqb (oo_generation_id owner) (oo_generation_id old))
              || negb (String.eqb (oo_connection_epoch owner) (oo_connection_epoch old))
              || negb (oo_fencing_token owner =? oo_fencing_token old)
              || negb (oo_last_sequence owner =? co_final_sequence observation)
              || bool_decide (is_Some (cr_ownership_activation_record_sha256 record)))
        "invalid canonical output observation"
  | OutOwnershipChanged =>
      old ← ok_or previous_owner "ownership change before initialization";
      digest ← ok_or (cr_ownership_activation_record_sha256 record)
                 "ownership change lacks activation proof";
      reject (negb (is_digest digest) || bool_decide (is_Some (cr_observation record))
              || String.eqb (oo_generation_id owner) (oo_generation_id old)
              || String.eqb (oo_connection_epoch owner) (oo_connection_epoch old)
              || negb (oo_fencing_token owner =? default 0 (checked_add (oo_fencing_token old) 1))
              || negb (oo_last_sequence owner =? oo_last_sequence old))
        "invalid canonical output ownership change"
  end.

Section output.
Context `{Hsha : Sha256} `{Hser : Serde CanonicalOutputRecordV1}.

(** ** The writer *)
Section output_writer.
Context {S : Type} `{Hsink : DurableSink S}.

Definition output_append_record (action : CanonicalOutputAction) (owner : CanonicalOutputOwnerV1)
    (observation : option CanonicalObservationV1) (activation_sha256 : option string)
    : SE (CanonicalOutputWriter S) CanonicalOutputAckV1 :=
  w ← get;
  lift (reject (cw_poisoned w) "canonical output writer is poisoned");;
  let record := mkOutputRecord "CanonicalOutputRecordV1" (cw_record_count w) action (cw_symbol w)
                  (cw_stream_kind w) owner observation activation_sha256 (cw_previous_digest w) in
  body ← lift (map_err "serialize canonical output: " (to_vec record));
  lift (reject (OUTPUT_MAX_RECORD_BYTES <? len body) "canonical output record exceeds maximum size");;
  let digest := sha256 body in
  let encoded := encode_record body digest in
  let '(s, r) := write_flush_sync encoded (cw_sink w) in
  match r with
  | inl error =>
      put (mkOutputWriter s (cw_symbol w) (cw_stream_kind w) (cw_owner w) (cw_record_count w)
             (cw_end_offset w) (cw_previous_digest w) true);;
      throw ("sync canonical output; writer poisoned: " ++ error)
  | inr _ =>
      put (mkOutputWriter s (cw_symbol w) (cw_stream_kind w) (cw_owner w) (cw_record_count w)
             (cw_end_offset w) (cw_previous_digest w) false);;
      record_count ← lift (add_u64 (cw_record_count w) 1);
      end_offset ← lift (add_u64 (cw_end_offset w) (len encoded));
      put (mkOutputWriter s (cw_symbol w) (cw_stream_kind w) (cw_owner w) record_count end_offset
             (hex digest) false);;
      mret (mkOutputAck action record_count end_offset (hex digest) owner)
  end.

Definition set_output_owner (owner : CanonicalOutputOwnerV1) (w : CanonicalOutputWriter S)
    : CanonicalOutputWriter S :=
  mkOutputWriter (cw_sink w) (cw_symbol w) (cw_stream_kind w) owner (cw_record_count w)
    (cw_end_offset w) (cw_previous_digest w) (cw_poisoned w).

Definition output_from_sink (sink : S) (symbol : string) (stream_kind : BoundaryStreamKind)
    (owner : CanonicalOutputOwnerV1) : res (CanonicalOutputWriter S) :=
  _ ← validate_output_identity symbol owner;
  let '(sink, r) := write_flush_sync OUTPUT_MAGIC sink in
  _ ← map_err "sync canonical output magic: " r;
  let '(writer, r) := output_append_record OutInitialized owner None None
    (mkOutputWriter sink symbol stream_kind owner 0 (len OUTPUT_MAGIC) ZERO_DIGEST false) in
  _ ← r;
  Ok writer.

Definition output_publish (o : CanonicalObservationV1)
    : SE (CanonicalOutputWriter S) CanonicalOutputAckV1 :=
  w ← get;
  lift (reject (negb (String.eqb (co_symbol o) (cw_symbol w))
                || negb (bool_decide (co_stream_kind o = cw_stream_kind w))
                || negb (String.eqb (co_connection_epoch o) (oo_connection_epoch (cw_owner w))))
          "canonical observation rejected by output ownership fence");;
  expected ← lift (ok_or (checked_add (oo_last_sequence (cw_owner w)) 1)
                     "canonical output sequence overflow");
  lift (reject (negb (output_continuous (cw_stream_kind w) expected o)) "canonical output gap");;
  let next := with_last (co_final_sequence o) (cw_owner w) in
  ack ← output_append_record OutObservation next (Some o) None;
  modify (set_output_owner next);;
  mret ack.

Definition change_owner (generation_id connection_epoch : string)
    (fencing_token boundary_sequence : Z) (activation_record_sha256 : string)
    : SE (CanonicalOutputWriter S) CanonicalOutputAckV1 :=
  w ← get;
  let owner := cw_owner w in
  lift (reject (is_blank generation_id || is_blank connection_epoch
                || String.eqb generation_id (oo_generation_id owner)
                || String.eqb connection_epoch (oo_connection_epoch owner)
                || negb (fencing_token =? default 0 (checked_add (oo_fencing_token owner) 1))
                || negb (boundary_sequence =? oo_last_sequence owner)
                || negb (is_digest activation_record_sha256))
          "invalid canonical output ownership transition");;
  let next := mkOutputOwner generation_id connection_epoch fencing_token boundary_sequence in
  ack ← output_append_record OutOwnershipChanged next None (Some activation_record_sha256);
  modify (set_output_owner next);;
  mret ack.
End output_writer.

(** ** The scan *)

Record output_state := mkOutputState {
  os_records : Z; os_observations : Z; os_ownership_changes : Z; os_offset : Z;
  os_previous : string; os_symbol : option string; os_kind : option BoundaryStreamKind;
  os_owner : option CanonicalOutputOwnerV1; os_last_observation : option CanonicalObservationV1;
  os_reason : option string
}.
Definition output_start : output_state :=
  mkOutputState 0 0 0 (len OUTPUT_MAGIC) ZERO_DIGEST None None None None None.
Definition stop_output (reason : string) (st : output_state) : output_state :=
  mkOutputState (os_records st) (os_observations st) (os_ownership_changes st) (os_offset st)
    (os_previous st) (os_symbol st) (os_kind st) (os_owner st) (os_last_observation st) (Some reason).

(** One turn of the loop: it ends, or it took a record and goes on. *)
Inductive output_turn_result :=
  | TurnEnd (st : output_state)
  | TurnNext (record : CanonicalOutputRecordV1) (rest : bytes) (st : output_state).

Definition output_turn (input : bytes) (st : output_state) : res output_turn_result :=
  if (4 <=? length input)%nat && (from_be_bytes (take 4 input) =? 0)
  then Ok (TurnEnd (stop_output "invalid canonical output record length" st)) else
  match read_frame OUTPUT_MAX_RECORD_BYTES input with
  | FrameEof => Ok (TurnEnd st)
  | FramePartialPrefix => Ok (TurnEnd (stop_output "partial canonical output length" st))
  | FrameTooLong => Ok (TurnEnd (stop_output "invalid canonical output record length" st))
  | FramePartialBody | FramePartialDigest =>
      Ok (TurnEnd (stop_output "partial canonical output record" st))
  | FrameRead body digest rest =>
      if negb (bool_decide (sha256 body = digest))
      then Ok (TurnEnd (stop_output "canonical output digest mismatch" st)) else
      match from_slice body with
      | inl error => Ok (TurnEnd (stop_output ("invalid canonical output JSON: " ++ error) st))
      | inr record =>
          match validate_output_record record (os_records st) (os_symbol st) (os_kind st)
                  (os_owner st) (os_previous st) with
          | Panic => Panic
          | Err _ => Ok (TurnEnd (stop_output "invalid canonical output transition/continuity" st))
          | Ok _ =>
              let observed := bool_decide (cr_action record = OutObservation) in
              observations ← (if observed then add_u64 (os_observations st) 1
                              else Ok (os_observations st));
              changes ← (if negb observed && bool_decide (cr_action record = OutOwnershipChanged)
                         then add_u64 (os_ownership_changes st) 1
                         else Ok (os_ownership_changes st));
              records ← add_u64 (os_records st) 1;
              offset ← add_u64 (os_offset st) (4 + len body + 32);
              Ok (TurnNext record rest
                    (mkOutputState records observations changes offset (hex digest)
                       (Some (default (cr_symbol record) (os_symbol st)))
                       (Some (default (cr_stream_kind record) (os_kind st)))
                       (Some (cr_owner record))
                       (if observed then cr_observation record else os_last_observation st)
                       (os_reason st)))
          end
      end
  end.

(** The loop of [scan_canonical_output]; a turn consumes a record. *)
Fixpoint output_loop (fuel : nat) (input : bytes) (st : output_state) : res output_state :=
  match fuel with
  | O => Panic
  | Datatypes.S fuel =>
      turn ← output_turn input st;
      match turn with
      | TurnEnd st => Ok st
      | TurnNext _ rest st => output_loop fuel rest st
      end
  end.

Definition scan_canonical_output (file : bytes) : res CanonicalOutputScanV1 :=
  _ ← reject (negb (bool_decide (take 8 file = OUTPUT_MAGIC))) "bad canonical output magic";
  st ← output_loop (Datatypes.S (length (drop 8 file))) (drop 8 file) output_start;
  Ok (mkOutputScan (os_records st) (os_observations st) (os_ownership_changes st) (os_offset st)
        (negb (bool_decide (is_Some (os_reason st))) && (os_offset st =? len file))
        (os_reason st) (os_symbol st) (os_kind st) (os_owner st) (os_last_observation st)
        (os_previous st)).

(** [resume]: [sink] is the file opened for appending, [opened_size] its size. *)
Definition output_resume {S} (file : bytes) (sink : S) (opened_size : Z)
    : res (CanonicalOutputWriter S) :=
  scan ← scan_canonical_output file;
  _ ← reject (negb (cs_clean_eof scan) || (cs_records scan =? 0))
        "canonical output cannot resume from an unclean journal";
  symbol ← ok_or (cs_symbol scan) "canonical output scan lacks symbol";
  stream_kind ← ok_or (cs_stream_kind scan) "canonical output scan lacks stream kind";
  owner ← ok_or (cs_owner scan) "canonical output scan lacks owner";
  _ ← reject (negb (opened_size =? cs_last_good_offset scan)) "canonical output changed during resume";
  Ok (mkOutputWriter sink symbol stream_kind owner (cs_records scan) (cs_last_good_offset scan)
        (cs_last_record_sha256 scan) false).

(** [recover_canonical_output_prefix]: the destination file and its scan. *)
Definition recover_canonical_output_prefix (source : bytes) : res (bytes * CanonicalOutputScanV1) :=
  source_scan ← scan_canonical_output source;
  _ ← reject (cs_records source_scan =? 0) "canonical output has no complete record to recover";
  _ ← reject (len source <? cs_last_good_offset source_scan)
        "canonical recovery source shrank after scan";
  let destination := take (Z.to_nat (cs_last_good_offset source_scan)) source in
  _ ← reject (negb (len destination =? cs_last_good_offset source_scan))
        "short copy while recovering canonical output";
  recovered ← scan_canonical_output destination;
  _ ← reject (negb (cs_clean_eof recovered)
              || negb (cs_records recovered =? cs_records source_scan)
              || negb (String.eqb (cs_last_record_sha256 recovered) (cs_last_record_sha256 source_scan))
              || negb (bool_decide (cs_owner recovered = cs_owner source_scan)))
        "recovered canonical prefix failed exact rescan";
  Ok (destination, recovered).
End output.

(** ** What a journal says *)

Inductive output_event :=
  | OeObserve (o : CanonicalObservationV1)
  | OeOwner (next : CanonicalOutputOwnerV1) (activation_sha256 : string).

Definition output_event_of (r : CanonicalOutputRecordV1) : option output_event :=
  match cr_action r with
  | OutInitialized => None
  | OutObservation => OeObserve <$> cr_observation r
  | OutOwnershipChanged => OeOwner (cr_owner r) <$> cr_ownership_activation_record_sha256 r
  end.
Definition observations_of (evs : list output_event) : list CanonicalObservationV1 :=
  omap (λ e, match e with OeObserve o => Some o | _ => None end) evs.
Definition changes_of (evs : list output_event) : list CanonicalOutputOwnerV1 :=
  omap (λ e, match e with OeOwner next _ => Some next | _ => None end) evs.

(** The published stream of one symbol and kind: every observation is of the epoch
    that owns the stream and continues it, every change of owner raises the fencing
    token by one and leaves the position. *)
Inductive out_history (symbol : string) (kind : BoundaryStreamKind) (first : CanonicalOutputOwnerV1)
    : list output_event → CanonicalOutputOwnerV1 → Prop :=
  | history_start : out_history symbol kind first [] first
  | history_observe evs owner o :
      out_history symbol kind first evs owner →
      co_symbol o = symbol → co_stream_kind o = kind →
      co_connection_epoch o = oo_connection_epoch owner →
      output_continuous kind (oo_last_sequence owner + 1) o = true →
      out_history symbol kind first (evs ++ [OeObserve o]) (with_last (co_final_sequence o) owner)
  | history_owner evs owner next d :
      out_history symbol kind first evs owner →
      oo_generation_id next ≠ oo_generation_id owner →
      oo_connection_epoch next ≠ oo_connection_epoch owner →
      oo_fencing_token next = oo_fencing_token owner + 1 →
      oo_last_sequence next = oo_last_sequence owner → is_digest d = true →
      out_history symbol kind first (evs ++ [OeOwner next d]) next.

Lemma observations_snoc evs e :
  observations_of (evs ++ [e]) = observations_of evs ++ match e with OeObserve o => [o] | _ => [] end.
Proof. unfold observations_of. rewrite omap_app. by destruct e. Qed.
Lemma changes_snoc evs e :
  changes_of (evs ++ [e]) = changes_of evs ++ match e with OeOwner n _ => [n] | _ => [] end.
Proof. unfold changes_of. rewrite omap_app. by destruct e. Qed.

Lemma history_token symbol kind first evs owner :
  out_history symbol kind first evs owner →
  oo_fencing_token owner = oo_fencing_token first + len (changes_of evs).
Proof.
  induction 1 as [|evs owner o _ IH|evs owner next d _ IH _ _ Ht _ _].
  - change (len (changes_of [])) with 0. lia.
  - rewrite changes_snoc, app_nil_r. done.
  - rewrite changes_snoc, len_app. change (len [next]) with 1. lia.
Qed.

(** Every position between the start and the end lies in a published range. *)
Lemma history_covers symbol kind first evs owner :
  out_history symbol kind first evs owner →
  oo_last_sequence first ≤ oo_last_sequence owner ∧
  ∀ n, oo_last_sequence first < n ≤ oo_last_sequence owner →
    ∃ o, o ∈ observations_of evs ∧ co_first_sequence o ≤ n ≤ co_final_sequence o.
Proof.
  induction 1 as [|evs owner o _ [IH1 IH2] _ _ _ Hc|evs owner next d _ [IH1 IH2] _ _ _ Hl _].
  - split; [done|lia].
  - rewrite observations_snoc. cbn [with_last oo_last_sequence].
    assert (co_first_sequence o ≤ oo_last_sequence owner + 1 ≤ co_final_sequence o) as Ho.
    { destruct kind; cbn in Hc; split_orb; lia. }
    split; [lia|]. intros n Hn. destruct (Z_le_gt_dec n (oo_last_sequence owner)).
    + destruct (IH2 n) as (x & Hx & ?); [lia|]. exists x. split; [set_solver|done].
    + exists o. split; [set_solver|lia].
  - rewrite observations_snoc, app_nil_r, Hl. done.
Qed.

(** Trades are published one by one. *)
Lemma history_trades symbol first evs owner :
  out_history symbol Trade first evs owner →
  co_final_sequence <$> observations_of evs
  = seqZ (oo_last_sequence first + 1) (oo_last_sequence owner - oo_last_sequence first).
Proof.
  induction 1 as [|evs owner o Hh IH _ _ _ Hc|evs owner next d _ IH _ _ _ Hl _].
  - by rewrite Z.sub_diag.
  - rewrite observations_snoc, fmap_app, IH. cbn [with_last oo_last_sequence]. cbn in Hc. split_orb.
    destruct (history_covers _ _ _ _ _ Hh) as [Hle _].
    replace (co_final_sequence o - oo_last_sequence first)
      with (oo_last_sequence owner - oo_last_sequence first + 1) by lia.
    rewrite seqZ_app by lia. f_equal. cbn [fmap list_fmap]. unfold seqZ. cbn. by replace (co_final_sequence o)
      with (0 + (oo_last_sequence first + 1 + (oo_last_sequence owner - oo_last_sequence first))) by lia.
  - rewrite observations_snoc, app_nil_r, Hl. done.
Qed.

(** *** The scan *)

Section output_theory.
Context `{Hsha : Sha256} `{Hser : Serde CanonicalOutputRecordV1}.

(** The records a scan accepts. *)
Fixpoint output_records (fuel : nat) (input : bytes) (st : output_state)
    : list CanonicalOutputRecordV1 :=
  match fuel with
  | O => []
  | Datatypes.S fuel =>
      match output_turn input st with
      | Ok (TurnNext record rest st) => record :: output_records fuel rest st
      | _ => []
      end
  end.
Definition journal_records (file : bytes) : list CanonicalOutputRecordV1 :=
  output_records (S (length (drop 8 file))) (drop 8 file) output_start.

(** The state after an accepted record. *)
Definition output_advance (record : CanonicalOutputRecordV1) (body : bytes) (st : output_state)
    : output_state :=
  mkOutputState (os_records st + 1)
    (match cr_action record with OutObservation => os_observations st + 1 | _ => os_observations st end)
    (match cr_action record with
     | OutOwnershipChanged => os_ownership_changes st + 1 | _ => os_ownership_changes st
     end)
    (os_offset st + (36 + len body)) (hex (sha256 body))
    (Some (default (cr_symbol record) (os_symbol st)))
    (Some (default (cr_stream_kind record) (os_kind st))) (Some (cr_owner record))
    (match cr_action record with OutObservation => cr_observation record | _ => os_last_observation st end)
    (os_reason st).

Definition output_bounds (st : output_state) : Prop :=
  0 ≤ os_observations st ≤ os_records st ∧ 0 ≤ os_ownership_changes st ≤ os_records st ∧
  os_records st ≤ os_offset st.

Definition record_fits (record : CanonicalOutputRecordV1) (st : output_state) : Prop :=
  validate_output_record record (os_records st) (os_symbol st) (os_kind st) (os_owner st)
    (os_previous st) = Ok ().

Lemma validate_output_nopanic r i s k o d : validate_output_record r i s k o d ≠ Panic.
Proof.
  unfold validate_output_record, validate_output_identity. destruct (cr_action r); nopanic.
Qed.

Lemma len_framed body : length (sha256 body) = 32%nat → len (encode_record body (sha256 body)) = 36 + len body.
Proof. intros Hd. rewrite length_encode_record. unfold len at 2. rewrite Hd. lia. Qed.

Lemma output_turn_record record body rest st :
  0 < len body ≤ OUTPUT_MAX_RECORD_BYTES → length (sha256 body) = 32%nat →
  from_slice body = inr record → record_fits record st → output_bounds st →
  os_offset st + (36 + len body) ≤ u64_max →
  output_turn (encode_record body (sha256 body) ++ rest) st
  = Ok (TurnNext record rest (output_advance record body st)).
Proof.
  intros Hl Hd Hf Hv (Ho & Hc & Hr) Hmax. unfold output_turn.
  assert ((4 <=? length (encode_record body (sha256 body) ++ rest))%nat
    && (from_be_bytes (take 4 (encode_record body (sha256 body) ++ rest)) =? 0) = false) as ->.
  { apply andb_false_iff. right. unfold encode_record. rewrite <-!app_assoc.
    rewrite take_app_length' by (by rewrite length_to_be_bytes).
    unfold OUTPUT_MAX_RECORD_BYTES in Hl. rewrite from_to_be_bytes by (cbn; lia). lia. }
  rewrite read_frame_encode by (done || lia). rewrite bool_decide_eq_true_2 by done. cbn [negb].
  rewrite Hf. unfold record_fits in Hv. rewrite Hv.
  destruct (add_u64_cases (os_observations st) 1) as [[Ea _]|[_ ?]]; [|lia].
  destruct (add_u64_cases (os_ownership_changes st) 1) as [[Eb _]|[_ ?]]; [|lia].
  destruct (add_u64_cases (os_records st) 1) as [[Ec _]|[_ ?]]; [|lia].
  destruct (add_u64_cases (os_offset st) (4 + len body + 32)) as [[Ed _]|[_ ?]]; [|lia].
  unfold output_advance.
  destruct (cr_action record); repeat (rewrite ?bool_decide_eq_true_2, ?bool_decide_eq_false_2 by done);
    cbn [negb andb mbind res_bind]; rewrite ?Ea, ?Eb; cbn [mbind res_bind]; rewrite Ec;
    cbn [mbind res_bind]; rewrite Ed; cbn [mbind res_bind]; do 4 f_equal; lia.
Qed.

Lemma output_turn_cases input st :
  output_bounds st → os_offset st + len input ≤ u64_max →
  (input = [] ∧ output_turn input st = Ok (TurnEnd st)) ∨
  (∃ reason, output_turn input st = Ok (TurnEnd (stop_output reason st))) ∨
  (∃ record body rest, input = encode_record body (sha256 body) ++ rest ∧
     0 < len body ≤ OUTPUT_MAX_RECORD_BYTES ∧ length (sha256 body) = 32%nat ∧
     from_slice body = inr record ∧ record_fits record st ∧ os_offset st + (36 + len body) ≤ u64_max).
Proof.
  intros (Ho & Hc & Hr) Hmax. unfold output_turn.
  destruct ((4 <=? length input)%nat && _) eqn:Hz; [right; left; by eexists|].
  destruct (read_frame _ input) as [| | | | |body digest rest] eqn:Er.
  1: { left. split; [|done]. unfold read_frame in Er. case_bool_decide; [done|]. by repeat case_match. }
  1-4: right; left; by eexists.
  apply read_frame_inv in Er as (-> & Hl & Hd); [|done].
  case_bool_decide as Hdig; cbn [negb]; [|right; left; by eexists]. subst digest.
  destruct (from_slice body) as [|record] eqn:Hf; [right; left; by eexists|].
  destruct (validate_output_record _ _ _ _ _ _) as [[]|e|] eqn:Hv;
    [|right; left; by eexists|by apply validate_output_nopanic in Hv].
  right. right. exists record, body, rest.
  rewrite len_app, length_encode_record in Hmax. unfold len in Hmax at 2. rewrite Hd in Hmax.
  pose proof (len_nonneg body). pose proof (len_nonneg rest).
  split_and!; try done; [|lia].
  destruct (decide (len body = 0)) as [E|?]; [|lia]. exfalso. unfold encode_record in Hz.
  rewrite !length_app, length_to_be_bytes in Hz. rewrite <-!app_assoc in Hz.
  rewrite take_app_length' in Hz by (by rewrite length_to_be_bytes). rewrite E in Hz. done.
Qed.

(** The journal read so far. *)
Record out_inv (recs : list CanonicalOutputRecordV1) (st : output_state) : Prop := {
  oi_records : os_records st = len recs;
  oi_head : match recs with
            | [] => os_owner st = None ∧ os_symbol st = None ∧ os_kind st = None
            | r0 :: _ => cr_action r0 = OutInitialized ∧ os_symbol st = Some (cr_symbol r0) ∧
                os_kind st = Some (cr_stream_kind r0) ∧
                ∃ owner, os_owner st = Some owner ∧
                  validate_output_identity (cr_symbol r0) owner = Ok () ∧
                  out_history (cr_symbol r0) (cr_stream_kind r0) (cr_owner r0)
                    (omap output_event_of recs) owner
            end;
  oi_events : len recs = 0 ∨ len recs = 1 + len (omap output_event_of recs);
  oi_observations : os_observations st = len (observations_of (omap output_event_of recs));
  oi_changes : os_ownership_changes st = len (changes_of (omap output_event_of recs));
  oi_last : os_last_observation st = last (observations_of (omap output_event_of recs));
  oi_bounds : output_bounds st
}.

Lemma output_start_inv : out_inv [] output_start.
Proof. split; try done. by left. Qed.

(** A record that fits after others is an event of their history. *)
Lemma record_event record st r0 owner :
  record_fits record st → os_symbol st = Some (cr_symbol r0) → os_kind st = Some (cr_stream_kind r0) →
  os_owner st = Some owner → 
  validate_output_identity (cr_symbol r0) (cr_owner record) = Ok () ∧
  ((∃ o, cr_action record = OutObservation ∧ cr_observation record = Some o ∧
      output_event_of record = Some (OeObserve o) ∧ co_symbol o = cr_symbol r0 ∧
      co_stream_kind o = cr_stream_kind r0 ∧ co_connection_epoch o = oo_connection_epoch owner ∧
      output_continuous (cr_stream_kind r0) (oo_last_sequence owner + 1) o = true ∧
      cr_owner record = with_last (co_final_sequence o) owner) ∨
   (∃ d, cr_action record = OutOwnershipChanged ∧ output_event_of record = Some (OeOwner (cr_owner record) d) ∧
      oo_generation_id (cr_owner record) ≠ oo_generation_id owner ∧
      oo_connection_epoch (cr_owner record) ≠ oo_connection_epoch owner ∧
      oo_fencing_token (cr_owner record) = oo_fencing_token owner + 1 ∧
      oo_last_sequence (cr_owner record) = oo_last_sequence owner ∧ is_digest d = true)).
Proof.
  unfold record_fits, validate_output_record. intros H Hs Hk Ho. rewrite Hs, Hk, Ho in H.
  apply res_bind_Ok in H as ([] & Hid%reject_Ok & H). split_orb.
  apply res_bind_Ok in H as ([] & Hv & H).
  repeat match goal with
  | E : String.eqb _ _ = true |- _ => apply String.eqb_eq in E
  | E : bool_decide _ = true |- _ => apply bool_decide_eq_true in E
  end.
  split; [congruence|]. unfold output_event_of. destruct (cr_action record); cbn [ok_or mbind res_bind] in H.
  - apply reject_Ok in H. split_orb. by destruct (bool_decide_eq_false (is_Some (Some owner))) as [[] _];
      [done|exists owner].
  - left. apply res_bind_Ok in H as (o & Hobs%ok_or_Ok & H).
    apply res_bind_Ok in H as (expected & He%ok_or_Ok & H). apply checked_add_Some in He as [_ ->].
    apply reject_Ok in H. split_orb.
    repeat match goal with
    | E : String.eqb _ _ = true |- _ => apply String.eqb_eq in E
    | E : bool_decide _ = true |- _ => apply bool_decide_eq_true in E
    end.
    exists o. rewrite Hobs. split_and!; try done; try congruence.
    destruct (cr_owner record), owner. unfold with_last. cbn in *. f_equal; (done || lia).
  - right. apply res_bind_Ok in H as (d & Hd%ok_or_Ok & H). apply reject_Ok in H. split_orb.
    exists d. rewrite Hd.
    repeat match goal with E : String.eqb _ _ = false |- _ => apply String.eqb_neq in E end.
    split_and!; try done; [|lia].
    unfold validate_output_identity in Hv. apply reject_Ok in Hv. split_orb.
    destruct (checked_add _ _) as [n|] eqn:Hc; cbn in *; [|lia].
    apply checked_add_Some in Hc as [_ ->]. lia.
Qed.

(** The first record of a journal. *)
Lemma record_first record st :
  record_fits record st → os_owner st = None →
  cr_action record = OutInitialized ∧ output_event_of record = None ∧
  validate_output_identity (cr_symbol record) (cr_owner record) = Ok ().
Proof.
  unfold record_fits, validate_output_record, output_event_of. intros H Ho. rewrite Ho in H.
  apply res_bind_Ok in H as ([] & _ & H). apply res_bind_Ok in H as ([] & Hv & H).
  by destruct (cr_action record).
Qed.

Lemma out_inv_advance recs st record body :
  out_inv recs st → record_fits record st → out_inv (recs ++ [record]) (output_advance record body st).
Proof.
  intros [] Hfit. pose proof (len_nonneg body). destruct oi_bounds0 as (Hb1 & Hb2 & Hb3).
  assert (len (recs ++ [record]) = len recs + 1) as El by (rewrite len_app; done).
  destruct recs as [|r0 recs].
  - destruct oi_head0 as (Ho & Hs & Hk). destruct (record_first _ _ Hfit Ho) as (Ha & He & Hv).
    assert (omap output_event_of [record] = []) as E by (cbn; by rewrite He).
    split; cbn [app]; rewrite ?E; unfold output_advance; rewrite ?Ha, ?Hs, ?Hk; cbn; try done.
    + by rewrite oi_records0.
    + split_and!; try done. eexists. split_and!; [done..|]. constructor.
    + by right.
    + unfold output_bounds. cbn. lia.
  - destruct oi_head0 as (Ha0 & Hs & Hk & owner & Ho & _ & Hh).
    destruct (record_event _ _ _ _ Hfit Hs Hk Ho) as (Hv & Hev).
    assert (∃ e, output_event_of record = Some e ∧ out_history (cr_symbol r0) (cr_stream_kind r0)
      (cr_owner r0) (omap output_event_of (r0 :: recs) ++ [e]) (cr_owner record)) as (e & He & Hh').
    { destruct Hev as [(o & _ & _ & He & ? & ? & ? & ? & ->)|(d & _ & He & ? & ? & ? & ? & ?)];
        eexists; (split; [exact He|]); by econstructor. }
    assert (omap output_event_of ((r0 :: recs) ++ [record]) = omap output_event_of (r0 :: recs) ++ [e]) as E
      by (rewrite omap_app; cbn; by rewrite He).
    split; rewrite ?E.
    + cbn. rewrite oi_records0. by rewrite <-El.
    + cbn [app]. split_and!; [done|cbn; by rewrite Hs|cbn; by rewrite Hk|].
      exists (cr_owner record). split_and!; [done..|]. done.
    + right. rewrite El, len_app. change (len [e]) with 1. destruct oi_events0 as [?|?]; [|lia].
      rewrite len_cons in *. pose proof (len_nonneg recs). lia.
    + rewrite observations_snoc, len_app, <-oi_observations0. unfold output_advance. cbn.
      destruct Hev as [(o & -> & _ & He' & _)|(d & -> & He' & _)]; rewrite He in He'; injection He' as ->; unfold len; cbn [length]; lia.
    + rewrite changes_snoc, len_app, <-oi_changes0. unfold output_advance. cbn.
      destruct Hev as [(o & -> & _ & He' & _)|(d & -> & He' & _)]; rewrite He in He'; injection He' as ->; unfold len; cbn [length]; lia.
    + rewrite observations_snoc. unfold output_advance. cbn [os_last_observation].
      destruct Hev as [(o & -> & -> & He' & _)|(d & -> & He' & _)]; rewrite He in He'; injection He' as ->.
      * by rewrite last_snoc.
      * by rewrite app_nil_r.
    + unfold output_bounds, output_advance. cbn. destruct (cr_action record); lia.
Qed.

(** Reading [bs] takes the scan from [st] to [st'] past the records [recs],
    whatever follows. *)
Definition output_runs (bs : bytes) (recs : list CanonicalOutputRecordV1) (st st' : output_state) : Prop :=
  ∀ rest fuel, (length (bs ++ rest) < fuel)%nat →
  ∃ fuel', (length rest < fuel')%nat ∧ output_loop fuel (bs ++ rest) st = output_loop fuel' rest st' ∧
    output_records fuel (bs ++ rest) st = recs ++ output_records fuel' rest st'.

Lemma output_runs_nil st : output_runs [] [] st st.
Proof. intros rest fuel H. by exists fuel. Qed.
Lemma output_runs_app bs cs rs1 rs2 st1 st2 st3 :
  output_runs bs rs1 st1 st2 → output_runs cs rs2 st2 st3 → output_runs (bs ++ cs) (rs1 ++ rs2) st1 st3.
Proof.
  intros H1 H2 rest fuel Hf. rewrite <-!app_assoc in *.
  destruct (H1 (cs ++ rest) fuel Hf) as (f1 & Hf1 & -> & ->).
  destruct (H2 rest f1 Hf1) as (f2 & Hf2 & -> & ->). exists f2. by rewrite <-app_assoc.
Qed.
Lemma output_runs_record record body st :
  0 < len body ≤ OUTPUT_MAX_RECORD_BYTES → length (sha256 body) = 32%nat →
  from_slice body = inr record → record_fits record st → output_bounds st →
  os_offset st + (36 + len body) ≤ u64_max →
  output_runs (encode_record body (sha256 body)) [record] st (output_advance record body st).
Proof.
  intros Hl Hd Hf Hv Hb Hmax rest [|fuel] Hfuel; [lia|]. exists fuel.
  rewrite length_app in Hfuel. pose proof (length_encode_record body (sha256 body)) as He.
  unfold len in He at 1. pose proof (len_nonneg (sha256 body)). split; [lia|].
  cbn [output_loop output_records]. by rewrite (output_turn_record record).
Qed.

(** The scan stops at the end of the input or behind its longest acceptable prefix. *)
Lemma output_loop_sound fuel input recs st :
  (length input < fuel)%nat → out_inv recs st → os_offset st + len input ≤ u64_max →
  ∃ good bad rs st1 st', input = good ++ bad ∧ output_runs good rs st st1 ∧
    output_loop fuel input st = Ok st' ∧ output_records fuel input st = rs ∧
    out_inv (recs ++ rs) st1 ∧ os_offset st1 = os_offset st + len good ∧
    os_reason st1 = os_reason st ∧ (bad = [] ∧ st' = st1 ∨ ∃ reason, st' = stop_output reason st1).
Proof.
  revert input recs st. induction fuel as [|fuel IH]; intros input recs st Hf Hinv Hmax; [lia|].
  cbn [output_loop output_records]. pose proof Hinv as [_ _ _ _ _ _ Hb].
  destruct (output_turn_cases input st Hb Hmax)
    as [[-> ->]|[(reason & ->)|(record & body & rest & -> & Hl & Hd & Hfs & Hv & Ho)]].
  - exists [], [], [], st, st. rewrite !app_nil_r. change (len []) with 0. rewrite Z.add_0_r.
    split_and!; try done; [apply output_runs_nil|by left].
  - exists [], input, [], st, (stop_output reason st). rewrite !app_nil_r.
    change (len []) with 0. rewrite Z.add_0_r. split_and!; try done; [apply output_runs_nil|].
    right. by eexists.
  - rewrite (output_turn_record record) by done. cbn [mbind res_bind].
    rewrite len_app, len_framed in Hmax by done. rewrite length_app in Hf.
    pose proof (length_encode_record body (sha256 body)) as He. unfold len in He at 1.
    pose proof (len_nonneg (sha256 body)).
    destruct (IH rest (recs ++ [record]) (output_advance record body st))
      as (good & bad & rs & st1 & st' & -> & H1 & H2 & H3 & H4 & H5 & H6 & H7);
      [lia|by apply out_inv_advance|cbn; lia|].
    exists (encode_record body (sha256 body) ++ good), bad, (record :: rs), st1, st'.
    rewrite <-!app_assoc in *. split_and!; try done.
    + apply (output_runs_app _ _ [record] rs _ (output_advance record body st)); [|done].
      by apply output_runs_record.
    + by rewrite H3.
    + rewrite H5, len_app, len_framed by done. cbn [output_advance os_offset]. lia.
Qed.

(** What the report of a scan says of the accepted records. *)
Definition scan_reports (recs : list CanonicalOutputRecordV1) (sc : CanonicalOutputScanV1) : Prop :=
  let evs := omap output_event_of recs in
  cs_records sc = len recs ∧ cs_observations sc = len (observations_of evs) ∧
  cs_ownership_changes sc = len (changes_of evs) ∧ cs_last_observation sc = last (observations_of evs) ∧
  match recs with
  | [] => cs_owner sc = None
  | r0 :: _ => ∃ owner, cs_owner sc = Some owner ∧ cs_symbol sc = Some (cr_symbol r0) ∧
      cs_stream_kind sc = Some (cr_stream_kind r0) ∧ len recs = 1 + len evs ∧
      out_history (cr_symbol r0) (cr_stream_kind r0) (cr_owner r0) evs owner
  end.

Definition report_of (file : bytes) (st : output_state) : CanonicalOutputScanV1 :=
  mkOutputScan (os_records st) (os_observations st) (os_ownership_changes st) (os_offset st)
    (negb (bool_decide (is_Some (os_reason st))) && (os_offset st =? len file))
    (os_reason st) (os_symbol st) (os_kind st) (os_owner st) (os_last_observation st)
    (os_previous st).

Lemma report_reports recs file st reason :
  out_inv recs st → scan_reports recs (report_of file st) ∧ scan_reports recs (report_of file (stop_output reason st)).
Proof.
  intros [H1 H2 H3 H4 H5 H6 _]. unfold scan_reports. cbn. split; split_and!; try done; destruct recs as [|r0 recs];
    try tauto; destruct H2 as (_ & ? & ? & owner & ? & _ & ?); exists owner; split_and!; try done;
    destruct H3 as [E|E]; try done; rewrite len_cons in E; pose proof (len_nonneg recs); lia.
Qed.

(** The scan of any file with the magic, cut at its longest acceptable prefix. *)
Lemma scan_output_cases file :
  take 8 file = OUTPUT_MAGIC → len file ≤ u64_max →
  ∃ good bad st st', drop 8 file = good ++ bad ∧ output_runs good (journal_records file) output_start st ∧
    scan_canonical_output file = Ok (report_of file st') ∧ out_inv (journal_records file) st ∧
    os_offset st = 8 + len good ∧ os_reason st = None ∧
    (bad = [] ∧ st' = st ∨ ∃ reason, st' = stop_output reason st).
Proof.
  intros Hm Hmax. assert (len file = 8 + len (drop 8 file)) as El.
  { rewrite <-(take_drop 8 file), len_app, Hm at 1. done. }
  destruct (output_loop_sound (S (length (drop 8 file))) (drop 8 file) [] output_start)
    as (good & bad & rs & st1 & st' & H1 & H2 & H3 & H4 & H5 & H6 & H7 & H8);
    [lia|apply output_start_inv|change (os_offset output_start) with 8; lia|].
  exists good, bad, st1, st'. unfold journal_records. rewrite H4. split_and!; try done.
  unfold scan_canonical_output. rewrite bool_decide_eq_true_2 by done. cbn [negb reject mbind res_bind].
  by rewrite H3.
Qed.

Lemma output_loop_end fuel st : (0 < fuel)%nat → output_loop fuel [] st = Ok st ∧ output_records fuel [] st = [].
Proof. by destruct fuel; [lia|]. Qed.

(** A file that is exactly the magic and what a scan runs through. *)
Lemma scan_exact bs recs st :
  output_runs bs recs output_start st →
  scan_canonical_output (OUTPUT_MAGIC ++ bs) = Ok (report_of (OUTPUT_MAGIC ++ bs) st) ∧
  journal_records (OUTPUT_MAGIC ++ bs) = recs.
Proof.
  intros Hrun. unfold scan_canonical_output, journal_records.
  rewrite take_app_length', drop_app_length' by done. rewrite bool_decide_eq_true_2 by done.
  cbn [negb reject mbind res_bind].
  destruct (Hrun [] (S (length bs))) as (fuel & Hf & H1 & H2); [rewrite app_nil_r; lia|].
  rewrite app_nil_r in H1, H2. rewrite H1, H2.
  destruct (output_loop_end fuel st) as [-> ->]; [cbn in Hf; lia|]. by rewrite app_nil_r.
Qed.

(** The canonical output has no gap. The scanner returns a report on every file
    with the magic; the records it accepted are an initialisation and the events of
    one published stream. The report counts them exactly, the owner's fencing token
    counts the changes of ownership, every position from the first owner's to the
    last lies in a published range, and trades are published one by one. *)
Theorem canonical_output_gapless file :
  take 8 file = OUTPUT_MAGIC → len file ≤ u64_max →
  ∃ sc, scan_canonical_output file = Ok sc ∧ scan_reports (journal_records file) sc ∧
  ∀ r0 rs owner, journal_records file = r0 :: rs → cs_owner sc = Some owner →
    let obs := observations_of (omap output_event_of (r0 :: rs)) in
    oo_fencing_token owner = oo_fencing_token (cr_owner r0) + cs_ownership_changes sc ∧
    (∀ n, oo_last_sequence (cr_owner r0) < n ≤ oo_last_sequence owner →
       ∃ o, o ∈ obs ∧ co_first_sequence o ≤ n ≤ co_final_sequence o) ∧
    (cr_stream_kind r0 = Trade →
       co_final_sequence <$> obs = seqZ (oo_last_sequence (cr_owner r0) + 1)
         (oo_last_sequence owner - oo_last_sequence (cr_owner r0))).
Proof.
  intros Hm Hmax.
  destruct (scan_output_cases file Hm Hmax) as (good & bad & st & st' & _ & _ & Hsc & Hinv & _ & _ & Hst).
  exists (report_of file st'). split; [done|].
  assert (scan_reports (journal_records file) (report_of file st')) as Hrep.
  { destruct Hst as [[_ ->]|[reason ->]].
    - by apply (report_reports _ file _ "" Hinv).
    - by apply (report_reports _ file _ reason Hinv). }
  split; [done|]. intros r0 rs owner Hj Ho. destruct Hrep as (_ & _ & Hc & _ & Hh).
  rewrite Hj in Hh, Hc. destruct Hh as (owner' & Ho' & _ & _ & _ & Hh). rewrite Ho in Ho'. injection Ho' as <-.
  split_and!.
  - rewrite Hc. by eapply history_token.
  - by eapply history_covers.
  - intros Hk. rewrite Hk in Hh. by eapply history_trades.
Qed.

(** Recovery keeps every readable record. A damaged journal with at least one
    complete record is recovered: the new file is a prefix of the old one, its scan is
    clean, and it holds exactly the records the damaged file was read to. *)
Theorem output_recovery_exact file :
  take 8 file = OUTPUT_MAGIC → len file ≤ u64_max → journal_records file ≠ [] →
  ∃ good sc, recover_canonical_output_prefix file = Ok (good, sc) ∧ good `prefix_of` file ∧
    cs_clean_eof sc = true ∧ journal_records good = journal_records file ∧
    scan_reports (journal_records file) sc.
Proof.
  intros Hm Hmax Hne.
  destruct (scan_output_cases file Hm Hmax)
    as (good & bad & st & st' & Hfile & Hrun & Hsc & Hinv & Ho & Hr & Hst).
  assert (file = (OUTPUT_MAGIC ++ good) ++ bad) as Ef.
  { by rewrite <-(take_drop 8 file), Hm, Hfile, app_assoc. }
  destruct (scan_exact _ _ _ Hrun) as [Hscan Hrecs].
  exists (OUTPUT_MAGIC ++ good), (report_of (OUTPUT_MAGIC ++ good) st).
  assert (len (OUTPUT_MAGIC ++ good) = os_offset st) as El by (rewrite len_app, Ho; done).
  assert (cs_clean_eof (report_of (OUTPUT_MAGIC ++ good) st) = true) as Hclean.
  { cbn [report_of cs_clean_eof]. rewrite Hr, El, Z.eqb_refl. done. }
  assert (os_records st' = os_records st ∧ os_offset st' = os_offset st ∧ os_previous st' = os_previous st ∧
    os_owner st' = os_owner st) as (E1 & E2 & E3 & E4) by (by destruct Hst as [[_ ->]|[reason ->]]).
  assert (os_records st ≠ 0) as Hpos.
  { destruct Hinv as [-> _ _ _ _ _ _]. destruct (journal_records file); [done|]. rewrite len_cons.
    pose proof (len_nonneg l). lia. }
  split_and!; try done.
  - unfold recover_canonical_output_prefix. rewrite Hsc.
    cbn [mbind res_bind report_of cs_records cs_last_good_offset cs_last_record_sha256 cs_owner].
    rewrite E1, E2, E3, E4, (proj2 (Z.eqb_neq _ _) Hpos). cbn [reject mbind res_bind].
    assert (take (Z.to_nat (os_offset st)) file = OUTPUT_MAGIC ++ good) as ->.
    { rewrite Ef. apply take_app_length'. rewrite <-El. unfold len. lia. }
    assert (len file <? os_offset st = false) as ->.
    { apply Z.ltb_ge. rewrite Ef, len_app, El. pose proof (len_nonneg bad). lia. }
    rewrite El, Z.eqb_refl. cbn [negb reject mbind res_bind]. rewrite Hscan. cbn [mbind res_bind].
    rewrite Hclean. cbn [report_of cs_records cs_last_record_sha256 cs_owner].
    rewrite Z.eqb_refl, String.eqb_refl, bool_decide_eq_true_2 by done. done.
  - exists bad. done.
  - by apply (report_reports _ (OUTPUT_MAGIC ++ good) _ "" Hinv).
Qed.

(** *** The writer *)
Context `{!Sha256Laws Hsha} `{!SerdeLaws CanonicalOutputRecordV1 Hser}
  `{!SerdeNonempty CanonicalOutputRecordV1 Hser}.
Section with_sink.
Context {S : Type} `{Hsink : DurableSink S} `{Hlaws : !SinkLaws S Hsink}.

(** What the file of a writer holds: the bytes [bs] with the records [recs], which take
    the scan to [st]. *)
Definition output_holds (w : CanonicalOutputWriter S) (bs : bytes)
    (recs : list CanonicalOutputRecordV1) (st : output_state) : Prop :=
  output_runs bs recs output_start st ∧ out_inv recs st ∧ os_records st = cw_record_count w ∧
  os_offset st = cw_end_offset w ∧ os_previous st = cw_previous_digest w ∧ os_reason st = None ∧
  cw_end_offset w = 8 + len bs.
Definition output_disk (w : CanonicalOutputWriter S) (bs : bytes) : Prop :=
  OUTPUT_MAGIC ++ bs `prefix_of` synced (cw_sink w) ∧
  (cw_poisoned w = false →
   contents (cw_sink w) = OUTPUT_MAGIC ++ bs ∧ synced (cw_sink w) = contents (cw_sink w)).
Definition same_stream (w w' : CanonicalOutputWriter S) : Prop :=
  cw_symbol w' = cw_symbol w ∧ cw_stream_kind w' = cw_stream_kind w ∧ cw_owner w' = cw_owner w.

Lemma output_append_cases action owner observation activation w w' r bs recs st :
  let record := mkOutputRecord "CanonicalOutputRecordV1" (cw_record_count w) action (cw_symbol w)
                  (cw_stream_kind w) owner observation activation (cw_previous_digest w) in
  output_holds w bs recs st → output_disk w bs → record_fits record st →
  output_append_record action owner observation activation w = (w', r) →
  same_stream w w' ∧
  ((∃ e, r = Err e ∧ output_holds w' bs recs st ∧ output_disk w' bs) ∨
   (∃ ack body cs, r = Ok ack ∧ output_holds w' (bs ++ cs) (recs ++ [record]) (output_advance record body st) ∧
      output_disk w' (bs ++ cs))).
Proof.
  intros record Hh Hd Hfit H. unfold output_append_record in H.
  cbv [mbind SE_bind get lift reject put mret SE_ret throw] in H. fold record in H.
  destruct (cw_poisoned w) eqn:Hp; [injection H as <- <-; split; [done|]; left; by eexists|].
  destruct (to_vec record) as [|body] eqn:Hv; cbn [map_err] in H;
    [injection H as <- <-; split; [done|]; left; by eexists|].
  destruct (OUTPUT_MAX_RECORD_BYTES <? len body) eqn:Hm;
    [injection H as <- <-; split; [done|]; left; by eexists|]. apply Z.ltb_ge in Hm.
  destruct Hd as [Hd1 Hd2]. destruct (Hd2 Hp) as [Hc Hs].
  pose proof (write_flush_sync_synced (encode_record body (sha256 body)) (cw_sink w)) as Hmono.
  destruct (write_flush_sync _ _) as [s [e|[]]] eqn:Hw; cbn [fst] in Hmono.
  { injection H as <- <-. split; [done|]. left. eexists. split_and!; [done|exact Hh|].
    split; [|done]. cbn. by trans (synced (cw_sink w)). }
  apply write_flush_sync_Ok in Hw as [Hw1 Hw2].
  pose proof Hh as (Hrun & Hinv & Hrec & Hoff & Hprev & Hrea & Hend).
  pose proof Hinv as [_ _ _ _ _ _ (Hb1 & Hb2 & Hb3)].
  assert (len body ≠ 0) as Hne.
  { intros E. destruct body; [|rewrite len_cons in E; pose proof (len_nonneg body); lia].
    apply from_to_vec in Hv. by apply from_slice_nil in Hv. }
  pose proof (len_nonneg body). pose proof (contents_u64 s) as Hu.
  rewrite Hw1, Hc, !len_app, len_written in Hu. change (len OUTPUT_MAGIC) with 8 in Hu.
  rewrite len_written in H.
  destruct (add_u64_cases (cw_record_count w) 1) as [[E1 _]|[_ ?]]; [|lia].
  destruct (add_u64_cases (cw_end_offset w) (36 + len body)) as [[E2 _]|[_ ?]]; [|lia].
  rewrite E1, E2 in H. injection H as <- <-. split; [done|]. right.
  exists (mkOutputAck action (cw_record_count w + 1) (cw_end_offset w + (36 + len body))
            (hex (sha256 body)) owner), body, (encode_record body (sha256 body)).
  split; [done|]. split.
  - split_and!; cbn [cw_record_count cw_end_offset cw_previous_digest output_advance os_records os_offset
      os_previous os_reason]; try done; [|by apply out_inv_advance|lia|lia|rewrite len_app, len_written; lia].
    eapply output_runs_app; [exact Hrun|].
    apply output_runs_record; [lia|apply length_sha256|by apply from_to_vec|done|by unfold output_bounds|lia].
  - unfold output_disk. cbn. rewrite Hw2, Hw1, Hc, <-app_assoc. done.
Qed.

(** The writer, and the events it has acknowledged. *)
Definition output_inv (symbol : string) (kind : BoundaryStreamKind) (first : CanonicalOutputOwnerV1)
    (w : CanonicalOutputWriter S) (evs : list output_event) : Prop :=
  cw_symbol w = symbol ∧ cw_stream_kind w = kind ∧ validate_output_identity symbol (cw_owner w) = Ok () ∧
  out_history symbol kind first evs (cw_owner w) ∧
  ∃ bs recs st, output_holds w bs recs st ∧ output_disk w bs ∧ omap output_event_of recs = evs ∧
    os_owner st = Some (cw_owner w) ∧ os_symbol st = Some symbol ∧ os_kind st = Some kind.

(** An append of a record that fits, seen from the invariant. *)
Lemma output_append_inv symbol kind first w evs action next observation activation e w' r :
  let record := mkOutputRecord "CanonicalOutputRecordV1" (cw_record_count w) action symbol kind next
                  observation activation (cw_previous_digest w) in
  output_inv symbol kind first w evs → output_event_of record = Some e →
  validate_output_identity symbol next = Ok () → out_history symbol kind first (evs ++ [e]) next →
  validate_output_record record (cw_record_count w) (Some symbol) (Some kind) (Some (cw_owner w))
    (cw_previous_digest w) = Ok () →
  (ack ← output_append_record action next observation activation; modify (set_output_owner next);; mret ack) w
    = (w', r) →
  r ≠ Panic ∧ output_inv symbol kind first w' (if is_ok r then evs ++ [e] else evs).
Proof.
  intros record (Hs & Hk & Hv & Hh & bs & recs & st & Hholds & Hdisk & Hevs & Ho & Hos & Hok) He Hn Hh' Hfit H.
  destruct (output_append_record action next observation activation w) as [w1 r1] eqn:Ha.
  cbv [mbind SE_bind] in H. rewrite Ha in H.
  pose proof Hholds as (_ & _ & Hrec & _ & Hprev & _).
  pose proof (output_append_cases action next observation activation w w1 r1 bs recs st) as Hcases.
  rewrite Hs, Hk in Hcases. fold record in Hcases.
  destruct Hcases as [(S1 & S2 & S3) [(x & -> & Hholds' & Hdisk')|(ack & body & cs & -> & Hholds' & Hdisk')]];
    [done|done|unfold record_fits; by rewrite Hrec, Hos, Hok, Ho, Hprev|done|..].
  - injection H as <- <-. split; [done|]. cbn [is_ok]. rewrite <-S3 in *.
    split_and!; try congruence. exists bs, recs, st. by split_and!.
  - cbv [modify mret SE_ret] in H. injection H as <- <-. split; [done|]. cbn [is_ok].
    split_and!; cbn; try congruence. exists (bs ++ cs), (recs ++ [record]), (output_advance record body st).
    split_and!; try done; cbn; rewrite ?Hos, ?Hok; try done.
    rewrite omap_app, Hevs. cbn. by rewrite He.
Qed.

Lemma output_publish_inv symbol kind first w evs o w' r :
  output_inv symbol kind first w evs → output_publish o w = (w', r) →
  r ≠ Panic ∧ output_inv symbol kind first w' (if is_ok r then evs ++ [OeObserve o] else evs).
Proof.
  intros Hinv H. pose proof Hinv as (Hs & Hk & Hv & Hh & _). unfold output_publish in H.
  cbv [mbind SE_bind get lift] in H. rewrite Hs, Hk in H.
  destruct (_ || _ || _) eqn:Hg; cbn [reject] in H; [by injection H as <- <-|]. split_orb.
  destruct (checked_add _ _) as [expected|] eqn:He; cbn [ok_or] in H; [|by injection H as <- <-].
  pose proof He as [_ Eexp]%checked_add_Some.
  destruct (output_continuous _ _ _) eqn:Hc; cbn [negb reject] in H; [|by injection H as <- <-].
  repeat match goal with
  | E : String.eqb _ _ = true |- _ => apply String.eqb_eq in E
  | E : bool_decide _ = true |- _ => apply bool_decide_eq_true in E
  end.
  set (next := with_last (co_final_sequence o) (cw_owner w)) in H.
  assert (validate_output_identity symbol next = Ok ()) as Hn by exact Hv.
  apply (output_append_inv symbol kind first w evs OutObservation next (Some o) None (OeObserve o) w' r Hinv);
    try done.
  - subst expected. by econstructor.
  - unfold validate_output_record.
    cbn [cr_schema cr_record_index cr_previous_record_sha256 cr_symbol cr_stream_kind cr_owner cr_action
         cr_observation cr_ownership_activation_record_sha256].
    rewrite Z.eqb_refl, !String.eqb_refl, (bool_decide_eq_true_2 (kind = kind)) by done.
    cbn [negb orb reject mbind res_bind].
    rewrite Hn. cbn [ok_or mbind res_bind]. rewrite He. cbn [ok_or mbind res_bind]. rewrite Hc.
    cbn [next with_last oo_generation_id oo_connection_epoch oo_fencing_token oo_last_sequence].
    rewrite !Z.eqb_refl, !String.eqb_refl, (proj2 (String.eqb_eq (co_symbol o) _)),
      (proj2 (String.eqb_eq (co_connection_epoch o) _)), (bool_decide_eq_true_2 (co_stream_kind o = kind))
      by done. done.
Qed.

Lemma change_owner_inv symbol kind first w evs next d w' r :
  output_inv symbol kind first w evs → 0 ≤ oo_fencing_token (cw_owner w) < u64_max →
  change_owner (oo_generation_id next) (oo_connection_epoch next) (oo_fencing_token next)
    (oo_last_sequence next) d w = (w', r) →
  r ≠ Panic ∧ output_inv symbol kind first w' (if is_ok r then evs ++ [OeOwner next d] else evs).
Proof.
  intros Hinv Ht H. pose proof Hinv as (Hs & Hk & Hv & Hh & _). unfold change_owner in H.
  cbv [mbind SE_bind get lift] in H.
  rewrite checked_add_fits in H by lia. cbn [from_option id] in H.
  destruct (_ || _) eqn:Hg; cbn [reject] in H; [by injection H as <- <-|]. split_orb.
  repeat match goal with E : String.eqb _ _ = false |- _ => apply String.eqb_neq in E end.
  assert (mkOutputOwner (oo_generation_id next) (oo_connection_epoch next) (oo_fencing_token next)
            (oo_last_sequence next) = next) as Enext by (by destruct next).
  rewrite Enext in H.
  assert (validate_output_identity symbol next = Ok ()) as Hn.
  { unfold validate_output_identity in *. apply reject_Ok in Hv. apply reject_Ok. split_orb.
    rewrite !orb_false_iff, negb_false_iff. split_and!; try done. lia. }
  apply (output_append_inv symbol kind first w evs OutOwnershipChanged next None (Some d) (OeOwner next d)
           w' r Hinv); try done.
  - econstructor; try done; lia.
  - unfold validate_output_record.
    cbn [cr_schema cr_record_index cr_previous_record_sha256 cr_symbol cr_stream_kind cr_owner cr_action
         cr_observation cr_ownership_activation_record_sha256].
    rewrite Z.eqb_refl, !String.eqb_refl, (bool_decide_eq_true_2 (kind = kind)) by done.
    cbn [negb orb reject mbind res_bind]. rewrite Hn. cbn [ok_or mbind res_bind].
    rewrite checked_add_fits by lia. cbn [from_option id].
    apply reject_Ok. rewrite !orb_false_iff, !negb_false_iff.
    rewrite !String.eqb_neq, !Z.eqb_eq. split_and!; try done; lia.
Qed.

Lemma output_from_sink_inv (s : S) symbol kind first w :
  contents s = [] → output_from_sink s symbol kind first = Ok w → output_inv symbol kind first w [].
Proof.
  intros Hs H. unfold output_from_sink in H. apply res_bind_Ok in H as ([] & Hv & H).
  destruct (write_flush_sync OUTPUT_MAGIC s) as [s1 [|[]]] eqn:Ew; [done|].
  cbn [map_err mbind res_bind] in H. apply write_flush_sync_Ok in Ew as [Ec Es]. rewrite Hs in Ec.
  destruct (output_append_record _ _ _ _ _) as [w1 r1] eqn:Ha.
  set (w0 := mkOutputWriter s1 _ _ _ _ _ _ _) in Ha.
  assert (output_holds w0 [] [] output_start) as Hh0
    by (split_and!; try done; [apply output_runs_nil|apply output_start_inv]).
  assert (output_disk w0 []) as Hd0 by (unfold output_disk; cbn [w0 cw_sink cw_poisoned]; by rewrite app_nil_r, Es, Ec).
  assert (record_fits (mkOutputRecord "CanonicalOutputRecordV1" 0 OutInitialized symbol kind first None None
    ZERO_DIGEST) output_start) as Hfit.
  { unfold record_fits, validate_output_record.
    cbn [cr_schema cr_record_index cr_previous_record_sha256 cr_symbol cr_owner cr_action os_records os_symbol
      os_kind os_owner os_previous output_start cr_observation cr_ownership_activation_record_sha256].
    rewrite Hv. reflexivity. }
  destruct (output_append_cases _ _ _ _ _ _ _ _ _ _ Hh0 Hd0 Hfit Ha)
    as [(E1 & E2 & E3) [(e & -> & _)|(ack & body & cs & -> & Hh & Hd)]]; [done|].
  injection H as <-. split_and!; try done.
  - by rewrite E3.
  - rewrite E3. constructor.
  - do 3 eexists. split_and!; [exact Hh|exact Hd|..]; cbn; by rewrite ?E1, ?E2, ?E3.
Qed.

Inductive output_op := OpPublish (o : CanonicalObservationV1) | OpChangeOwner (next : CanonicalOutputOwnerV1) (d : string).
Definition output_exec (op : output_op) : SE (CanonicalOutputWriter S) CanonicalOutputAckV1 :=
  match op with
  | OpPublish o => output_publish o
  | OpChangeOwner next d => change_owner (oo_generation_id next) (oo_connection_epoch next)
                              (oo_fencing_token next) (oo_last_sequence next) d
  end.
Definition op_event (op : output_op) : output_event :=
  match op with OpPublish o => OeObserve o | OpChangeOwner next d => OeOwner next d end.
(** Any sequence of calls, failed ones included, and the events acknowledged. *)
Fixpoint run_output (ops : list output_op) (w : CanonicalOutputWriter S) (evs : list output_event)
    : CanonicalOutputWriter S * list output_event :=
  match ops with
  | [] => (w, evs)
  | op :: ops =>
      let '(w, r) := output_exec op w in
      run_output ops w (if is_ok r then evs ++ [op_event op] else evs)
  end.

Lemma run_output_inv symbol kind first ops w evs w' evs' :
  output_inv symbol kind first w evs → 0 ≤ oo_fencing_token first →
  oo_fencing_token first + len (changes_of evs) + len ops ≤ u64_max →
  run_output ops w evs = (w', evs') → output_inv symbol kind first w' evs'.
Proof.
  revert w evs. induction ops as [|op ops IH]; intros w evs Hinv H0 Hmax H; [by injection H as <- <-|].
  rewrite len_cons in Hmax. pose proof (len_nonneg ops). pose proof (len_nonneg (changes_of evs)).
  cbn [run_output] in H. destruct (output_exec op w) as [w1 r] eqn:He.
  assert (0 ≤ oo_fencing_token (cw_owner w) < u64_max) as Ht.
  { pose proof Hinv as (_ & _ & _ & Hh & _). rewrite (history_token _ _ _ _ _ Hh). lia. }
  assert (output_inv symbol kind first w1 (if is_ok r then evs ++ [op_event op] else evs)) as Hinv1.
  { destruct op as [o|next d]; [by eapply output_publish_inv|by eapply change_owner_inv]. }
  apply (IH _ _ Hinv1); [done| |done]. destruct (is_ok r); [|lia]. rewrite changes_snoc, len_app.
  destruct op; cbn [op_event]; unfold len at 2; cbn [length]; lia.
Qed.

(** C12: the published stream survives a crash. After any sequence of [publish] and
    [change_owner] calls, failed ones included, on a new journal, the acknowledged
    events form one stream without a gap up to the writer's owner. Any file that
    begins with the bytes on stable storage scans to a journal whose events begin
    with exactly the acknowledged ones. When the writer is healthy and nothing
    follows, there are no others, and [resume] returns exactly that writer. The
    first fencing token plus the number of calls fits [u64]. *)
Theorem output_survives_crash (s : S) symbol kind first w0 ops w evs disk :
  contents s = [] → output_from_sink s symbol kind first = Ok w0 →
  0 ≤ oo_fencing_token first → oo_fencing_token first + len ops ≤ u64_max →
  run_output ops w0 [] = (w, evs) →
  synced (cw_sink w) `prefix_of` disk → len disk ≤ u64_max →
  out_history symbol kind first evs (cw_owner w) ∧
  ∃ later sc, omap output_event_of (journal_records disk) = evs ++ later ∧
    scan_canonical_output disk = Ok sc ∧ cw_record_count w ≤ cs_records sc ∧
    (cw_poisoned w = false → disk = synced (cw_sink w) →
     later = [] ∧ cs_clean_eof sc = true ∧ output_resume disk (cw_sink w) (len disk) = Ok w).
Proof.
  intros Hs Hw0 H0 Hmax Hrun Hpre Hlen.
  pose proof (run_output_inv _ _ _ ops w0 [] w evs (output_from_sink_inv _ _ _ _ _ Hs Hw0) H0
    ltac:(change (len (changes_of [])) with 0; lia) Hrun)
    as (Hsy & Hki & _ & Hh & bs & recs & st & Hholds & [Hd Hd'] & Hevs & Ho & Hos & Hok).
  split; [done|]. pose proof Hholds as (Hr & Hinv & Hrec & Hoff & Hprev & Hrea & Hend).
  destruct Hd as [x1 Hx1], Hpre as [x2 Hx2]. rewrite Hx1, <-!app_assoc in Hx2.
  assert (take 8 disk = OUTPUT_MAGIC) as Hmagic by (by rewrite Hx2, take_app_length').
  assert (drop 8 disk = bs ++ x1 ++ x2) as Hdrop by (by rewrite Hx2, drop_app_length').
  destruct (scan_output_cases disk Hmagic Hlen) as (good & bad & st1 & st' & _ & _ & Hsc & Hinv1 & _ & _ & Hst).
  assert (∃ rs, journal_records disk = recs ++ rs ∧ (x1 ++ x2 = [] → rs = [])) as (rs & Hj & Hnil).
  { unfold journal_records. rewrite Hdrop.
    destruct (Hr (x1 ++ x2) (Datatypes.S (length (bs ++ x1 ++ x2)))) as (fuel & Hf & _ & ->); [lia|].
    eexists. split; [done|]. intros E. rewrite E. by destruct fuel. }
  assert (cs_records (report_of disk st') = os_records st1) as Er by (by destruct Hst as [[_ ->]|[? ->]]).
  exists (omap output_event_of rs), (report_of disk st'). rewrite Hj, omap_app, Hevs.
  split_and!; [done|done| |].
  - rewrite Er. destruct Hinv1 as [-> _ _ _ _ _ _]. rewrite Hj, len_app, <-Hrec.
    destruct Hinv as [-> _ _ _ _ _ _]. pose proof (len_nonneg rs). lia.
  - intros Hp Hdisk. destruct (Hd' Hp) as [Hcont Hsync].
    assert (disk = OUTPUT_MAGIC ++ bs) as Edisk by congruence.
    assert (x1 ++ x2 = []) as E.
    { rewrite Edisk in Hx2. apply app_inv_head in Hx2. by apply (app_inv_head bs); rewrite app_nil_r. }
    rewrite (Hnil E). destruct (scan_exact _ _ _ Hr) as [Hscan _].
    rewrite <-Edisk, Hsc in Hscan.
    assert (report_of disk st' = report_of disk st) as Ereport by congruence. clear Hscan.
    assert (cs_clean_eof (report_of disk st) = true) as Hclean.
    { cbn [report_of cs_clean_eof]. rewrite Hrea, Edisk, len_app, Hoff, Hend. by rewrite Z.eqb_refl. }
    split_and!; [done|congruence|]. unfold output_resume. rewrite Hsc, Ereport. cbn [mbind res_bind].
    rewrite Hclean. cbn [report_of cs_records cs_symbol cs_stream_kind cs_owner cs_last_good_offset
      cs_last_record_sha256].
    assert (os_records st ≠ 0) as Hpos.
    { pose proof Hinv as [E1 E2 _ _ _ _ _]. rewrite E1. destruct recs; [destruct E2 as (E2 & _); congruence|].
      rewrite len_cons. pose proof (len_nonneg recs). lia. }
    rewrite (proj2 (Z.eqb_neq _ _) Hpos), Hos, Hok, Ho. cbn [negb orb reject ok_or mbind res_bind].
    rewrite Edisk, len_app, Hoff, Hend. change (len OUTPUT_MAGIC) with 8. rewrite Z.eqb_refl.
    cbn [negb reject mbind res_bind]. rewrite Hrec, Hprev, <-Hend. destruct w. cbn in *. by subst.
Qed.
End with_sink.
End output_theory.

(** ** Demonstrations *)

Module OutputDemo.
#[export] Existing Instance toy_sha256.
#[export] Existing Instance toy_sha256_laws.
#[export] Existing Instance RawDemo.file_durable_sink.
#[export] Existing Instance RawDemo.file_sink_laws.

Definition trade (epoch : string) (n : Z) : CanonicalObservationV1 :=
  mkObservation "BTCUSDT" Trade "btcusdt@trade" epoch n n n (hex (sha256 (to_be_bytes 8 n))) ZERO_DIGEST.
Definition owner_a : CanonicalOutputOwnerV1 := mkOutputOwner "gen-A" "A" 1 40.
Definition owner_b : CanonicalOutputOwnerV1 := mkOutputOwner "gen-B" "B" 2 41.
Definition digest_of (n : nat) : string := hex (sha256 (x2a :: replicate n x2a)).
Definition record (n : nat) (action : CanonicalOutputAction) (owner : CanonicalOutputOwnerV1)
    (o : option CanonicalObservationV1) (d : option string) : CanonicalOutputRecordV1 :=
  mkOutputRecord "CanonicalOutputRecordV1" (Z.of_nat n) action "BTCUSDT" Trade owner o d
    (match n with O => ZERO_DIGEST | Datatypes.S n => digest_of n end).
#[export] Instance output_serde : Serde CanonicalOutputRecordV1 :=
  text_serde
    [record 0 OutInitialized owner_a None None;
     record 1 OutObservation (with_last 41 owner_a) (Some (trade "A" 41)) None;
     record 2 OutOwnershipChanged owner_b None (Some ZERO_DIGEST);
     record 3 OutObservation (with_last 42 owner_b) (Some (trade "B" 42)) None].
#[export] Instance output_serde_laws : SerdeLaws CanonicalOutputRecordV1 output_serde.
Proof. apply text_serde_laws. Qed.
#[export] Instance output_serde_nonempty : SerdeNonempty CanonicalOutputRecordV1 output_serde.
Proof. apply text_serde_nonempty. Qed.

Definition fallback : CanonicalOutputWriter RawDemo.file_sink :=
  mkOutputWriter ([], []) "" Trade owner_a 0 0 "" true.
Definition opened : CanonicalOutputWriter RawDemo.file_sink :=
  Eval vm_compute in match output_from_sink ([], []) "BTCUSDT" Trade owner_a with Ok w => w | _ => fallback end.
(** A gap, an observation of the old epoch and a change that skips a token are refused. *)
Definition calls : list output_op :=
  [OpPublish (trade "A" 41); OpPublish (trade "A" 43);
   OpChangeOwner (mkOutputOwner "gen-B" "B" 3 41) ZERO_DIGEST; OpChangeOwner owner_b ZERO_DIGEST;
   OpPublish (trade "A" 42); OpPublish (trade "B" 42)].
Definition published : list output_event :=
  [OeObserve (trade "A" 41); OeOwner owner_b ZERO_DIGEST; OeObserve (trade "B" 42)].
Definition finished : CanonicalOutputWriter RawDemo.file_sink :=
  Eval vm_compute in (run_output calls opened []).1.
Lemma calls_run : run_output calls opened [] = (finished, published).
Proof. vm_compute. reflexivity. Qed.
(** The file of a crash that tore the last record. *)
Definition damaged : bytes := Eval vm_compute in synced (cw_sink finished) ++ [x00; x00].

(** A second codec, for a journal whose owner holds the last fencing token. *)
Definition owner_max : CanonicalOutputOwnerV1 := mkOutputOwner "gen-A" "A" u64_max 40.
Definition exhausted_serde : Serde CanonicalOutputRecordV1 :=
  text_serde [record 0 OutInitialized owner_max None None;
              record 1 OutOwnershipChanged (mkOutputOwner "gen-B" "B" 0 40) None (Some ZERO_DIGEST)].
End OutputDemo.

Section output_witnesses.
Import OutputDemo.

Lemma canonical_output_gapless_witness :
  ∃ sc, scan_canonical_output damaged = Ok sc ∧ scan_reports (journal_records damaged) sc ∧
  ∀ r0 rs owner, journal_records damaged = r0 :: rs → cs_owner sc = Some owner →
    let obs := observations_of (omap output_event_of (r0 :: rs)) in
    oo_fencing_token owner = oo_fencing_token (cr_owner r0) + cs_ownership_changes sc ∧
    (∀ n, oo_last_sequence (cr_owner r0) < n ≤ oo_last_sequence owner →
       ∃ o, o ∈ obs ∧ co_first_sequence o ≤ n ≤ co_final_sequence o) ∧
    (cr_stream_kind r0 = Trade →
       co_final_sequence <$> obs = seqZ (oo_last_sequence (cr_owner r0) + 1)
         (oo_last_sequence owner - oo_last_sequence (cr_owner r0))).
Proof. apply (canonical_output_gapless damaged); [reflexivity|vm_compute; congruence]. Defined.

Lemma output_recovery_exact_witness :
  length (journal_records damaged) = 4%nat ∧
  ∃ good sc, recover_canonical_output_prefix damaged = Ok (good, sc) ∧ good `prefix_of` damaged ∧
    cs_clean_eof sc = true ∧ journal_records good = journal_records damaged ∧
    scan_reports (journal_records damaged) sc.
Proof.
  split; [vm_compute; reflexivity|].
  apply (output_recovery_exact damaged); [reflexivity|vm_compute; congruence|vm_compute; discriminate].
Defined.

Lemma output_survives_crash_witness :
  out_history "BTCUSDT" Trade owner_a published (cw_owner finished) ∧
  ∃ later sc, omap output_event_of (journal_records (synced (cw_sink finished))) = published ++ later ∧
    scan_canonical_output (synced (cw_sink finished)) = Ok sc ∧ cw_record_count finished ≤ cs_records sc ∧
    (cw_poisoned finished = false → synced (cw_sink finished) = synced (cw_sink finished) →
     later = [] ∧ cs_clean_eof sc = true ∧
     output_resume (synced (cw_sink finished)) (cw_sink finished) (len (synced (cw_sink finished))) = Ok finished).
Proof.
  apply (output_survives_crash ([], []) "BTCUSDT" Trade owner_a opened calls finished published);
    [reflexivity|vm_compute; reflexivity|vm_compute; congruence|vm_compute; congruence|exact calls_run|done
    |vm_compute; congruence].
Defined.

(** Behind the last fencing token the writer accepts the token 0 and acknowledges a
    record its own scanner refuses. *)
Lemma exhausted_token_breaks_journal :
  ∃ w w' ack sc,
    output_from_sink (Hser := exhausted_serde) (([], []) : RawDemo.file_sink) "BTCUSDT" Trade owner_max = Ok w ∧
    change_owner (Hser := exhausted_serde) "gen-B" "B" 0 40 ZERO_DIGEST w = (w', Ok ack) ∧
    scan_canonical_output (Hser := exhausted_serde) (synced (cw_sink w')) = Ok sc ∧
    cs_clean_eof sc = false ∧ cs_records sc = 1 ∧ oa_durable_record_count ack = 2.
Proof.
  eexists _, _, _, _. split; [vm_compute; reflexivity|]. split; [vm_compute; reflexivity|].
  split; [vm_compute; reflexivity|]. vm_compute. done.
Qed.
End output_witnesses.
