(* ===== verification/Observations.v ===== *)
(** * Observations from raw records (observations.rs)

    Raw records become the neutral observations the rest of the system works on: a
    depth record is an observation when it advances the local order book, identified
    by the digest of the whole book; a trade record is identified by the digest of the
    trade without its dispatch time. The search for a handover boundary compares two
    connections by their books. A raw log is its bytes, a path its text. *)

From stdpp Require Import base list strings option numbers sets gmap sorting.
From Stdlib Require Import ZArith Lia Ascii Strings.Byte Sorting.Sorted.
From S2P Require Import Prelude Decimal External OrderBook RawLog Replay Boundary.
Local Open Scope Z_scope.

(** [str::contains] and [str::ends_with] *)
Definition str_contains (s sub : string) : bool :=
  match String.index 0 sub s with Some _ => true | None => false end.
Definition str_ends_with (s suffix : string) : bool :=
  (String.length suffix <=? String.length s)%nat
  && String.eqb (String.substring (String.length s - String.length suffix) (String.length suffix) s)
       suffix.

(** ** Data *)

Record ObservationMaterializationV1 := mkMaterialization {
  om_symbol : string; om_stream_kind : BoundaryStreamKind; om_stream : string;
  om_connection_epoch : string; om_raw_path : string; om_raw_last_record_sha256 : string;
  om_snapshot_path : option string; om_snapshot_record_sha256 : option string;
  om_snapshot_last_update_id : option Z; om_raw_records : Z; om_skipped_initial_old_records : Z;
  om_observations : list CanonicalObservationV1; om_first_sequence : Z; om_final_sequence : Z;
  om_materialization_sha256 : string
}.

Record ObservationDigestItem := mkDigestItem {
  di_connection_epoch : string; di_final_sequence : Z; di_first_sequence : Z; di_frame_index : Z;
  di_observation_sha256 : string; di_record_sha256 : string; di_stream : string;
  di_stream_kind : BoundaryStreamKind; di_symbol : string
}.
Record MaterializationDigest := mkMaterialDigest {
  md_observations : list ObservationDigestItem; md_raw_last_record_sha256 : string;
  md_schema : string; md_skipped_initial_old_records : Z; md_snapshot_last_update_id : option Z;
  md_snapshot_record_sha256 : option string; md_stream_kind : BoundaryStreamKind
}.
Record CanonicalTradeEvent := mkTradeEvent {
  ce_best_match : bool; ce_buyer_is_maker : bool; ce_price : string; ce_quantity : string;
  ce_schema : string; ce_symbol : string; ce_trade_id : Z; ce_trade_time : Z
}.
#[global] Instance trade_event_eq_decision : EqDecision CanonicalTradeEvent.
Proof. solve_decision. Defined.

Record DepthObservationCursor := mkDepthCursor {
  dc_symbol : string; dc_stream : string; dc_connection_epoch : string;
  dc_book : LocalOrderBook; dc_live_started : bool
}.
Record DepthWindowEvent := mkWindowEvent {
  we_record_index : nat; we_first_sequence : Z; we_final_sequence : Z
}.
Record AppliedDepthWindowEvent := mkAppliedEvent {
  ae_event_index : nat; ae_first_sequence : Z; ae_final_sequence : Z
}.
Record DepthConvergenceCandidate := mkCandidate {
  dg_predecessor : AppliedDepthWindowEvent; dg_successor : AppliedDepthWindowEvent;
  dg_continuation : DepthWindowEvent
}.
Record LatestDepthWindowConvergenceV1 := mkConvergence {
  lc_predecessor_boundary : CanonicalObservationV1; lc_successor_boundary : CanonicalObservationV1;
  lc_successor_continuation : CanonicalObservationV1
}.

(** [(symbol, stream, connection_epoch)] *)
Definition raw_identity : Type := string * string * string.
Definition frame_identity (f : RawFrame) : raw_identity :=
  (rf_symbol f, rf_stream f, rf_connection_epoch f).

Definition identity (records : list RawRecordEnvelopeV1) : res raw_identity :=
  first ← ok_or (head records) "raw source has no records";
  let id := frame_identity (re_frame first) in
  _ ← reject (existsb (λ r, negb (bool_decide (frame_identity (re_frame r) = id))) records)
        "raw source mixes symbol/stream/epoch identity";
  Ok id.

(** The loop over [records.windows(2)]. *)
Fixpoint require_contiguous_frames (records : list RawRecordEnvelopeV1) : res unit :=
  match records with
  | a :: (b :: _) as rest =>
      next ← ok_or (checked_add (rf_frame_index (re_frame a)) 1) "raw frame index overflow";
      _ ← reject (negb (rf_frame_index (re_frame b) =? next))
            "raw observation window has a frame gap or duplicate";
      require_contiguous_frames rest
  | _ => Ok ()
  end.

Definition depth_observation (id : raw_identity) (record : RawRecordEnvelopeV1)
    (first_sequence final_sequence : Z) (observation_sha256 : string) : CanonicalObservationV1 :=
  mkObservation id.1.1 Depth id.1.2 id.2 (rf_frame_index (re_frame record)) first_sequence
    final_sequence (re_record_sha256 record) observation_sha256.
Definition trade_observation (id : raw_identity) (record : RawRecordEnvelopeV1) (trade_id : Z)
    (event_digest : string) : CanonicalObservationV1 :=
  mkObservation id.1.1 Trade id.1.2 id.2 (rf_frame_index (re_frame record)) trade_id trade_id
    (re_record_sha256 record) event_digest.

Definition digest_item (o : CanonicalObservationV1) : ObservationDigestItem :=
  mkDigestItem (co_connection_epoch o) (co_final_sequence o) (co_first_sequence o) (co_frame_index o)
    (co_observation_sha256 o) (co_record_sha256 o) (co_stream o) (co_stream_kind o) (co_symbol o).

Section observations.
Context `{Hsha : Sha256} `{Hval : SerdeValue} `{Hobj : !SerdeObject} `{Hb64 : Base64}.
Context `{Htrade : Serde CanonicalTradeEvent} `{Hmat : Serde MaterializationDigest}.

(** ** Payloads *)

Definition strict_object (payload : bytes) (label : string) : res Value :=
  value ← map_err (label ++ " payload is not valid JSON: ") (value_from_slice payload);
  _ ← reject (negb (is_object value)) (label ++ " payload root must be object");
  Ok value.
Definition field_u64 (value : Value) (field : string) : res Z :=
  ok_or (as_u64 (value_index value field)) ("invalid non-negative integer field " ++ field).
Definition field_bool (value : Value) (field : string) : res bool :=
  ok_or (as_bool (value_index value field)) ("invalid boolean field " ++ field).

Definition depth_ids (payload : bytes) : res (Z * Z) :=
  value ← strict_object payload "depth";
  _ ← reject (negb (bool_decide (as_str (value_index value "e") = Some "depthUpdate")))
        "unexpected depth event type";
  first ← field_u64 value "U";
  final ← field_u64 value "u";
  Ok (first, final).

Definition server_shutdown_payload (payload : bytes) : res bool :=
  value ← strict_object payload "serverShutdown/control";
  if negb (bool_decide (as_str (value_index value "e") = Some "serverShutdown")) then Ok false
  else _ ← field_u64 value "E"; Ok true.

Definition trade_observation_digest_value (value : Value) (symbol : string) : res (Z * string) :=
  _ ← reject (negb (bool_decide (as_str (value_index value "e") = Some "trade"))
              || negb (bool_decide (as_str (value_index value "s") = Some symbol)))
        "unexpected trade event type or symbol";
  trade_id ← field_u64 value "t";
  _ ← field_u64 value "E";
  trade_time ← field_u64 value "T";
  raw_price ← ok_or (as_str (value_index value "p")) "trade price must be a string";
  raw_quantity ← ok_or (as_str (value_index value "q")) "trade quantity must be a string";
  price ← decimal_parse raw_price;
  quantity ← decimal_parse raw_quantity;
  _ ← reject (decimal_is_zero price || decimal_is_negative price
              || decimal_is_zero quantity || decimal_is_negative quantity)
        "trade price/quantity must be positive";
  best_match ← field_bool value "M";
  buyer_is_maker ← field_bool value "m";
  encoded ← map_err "serialize canonical trade event: "
    (to_vec (mkTradeEvent best_match buyer_is_maker (decimal_to_string price)
       (decimal_to_string quantity) "CanonicalTradeEventV1" symbol trade_id trade_time));
  Ok (trade_id, hex (sha256 encoded)).
Definition trade_observation_digest (payload : bytes) (symbol : string) : res (Z * string) :=
  value ← strict_object payload "trade";
  trade_observation_digest_value value symbol.
Definition validated_trade_id (value : Value) (symbol : string) : res Z :=
  '(trade_id, _) ← trade_observation_digest_value value symbol;
  Ok trade_id.

(** ** Trades *)

Definition materialize_trade_record (record : RawRecordEnvelopeV1) : res CanonicalObservationV1 :=
  let symbol := rf_symbol (re_frame record) in
  _ ← reject (negb (in_scope symbol) || negb (str_ends_with (rf_stream (re_frame record)) "@trade"))
        "trade record identity outside canonical scope";
  '(trade_id, event_digest) ← trade_observation_digest (rf_payload (re_frame record)) symbol;
  Ok (trade_observation (frame_identity (re_frame record)) record trade_id event_digest).

(** One trade of a loop over records: its ID must be above the previous one. *)
Definition trade_turn (id : raw_identity) (acc : list CanonicalObservationV1 * option Z)
    (record : RawRecordEnvelopeV1) : res (list CanonicalObservationV1 * option Z) :=
  '(trade_id, event_digest) ← trade_observation_digest (rf_payload (re_frame record)) id.1.1;
  _ ← reject (match acc.2 with Some previous => trade_id <=? previous | None => false end)
        "trade ID duplicated or regressed";
  Ok (acc.1 ++ [trade_observation id record trade_id event_digest], Some trade_id).
Definition trade_window_turn (id : raw_identity) (acc : list CanonicalObservationV1 * option Z)
    (record : RawRecordEnvelopeV1) : res (list CanonicalObservationV1 * option Z) :=
  shutdown ← server_shutdown_payload (rf_payload (re_frame record));
  if shutdown : bool then Ok acc else trade_turn id acc record.

Definition materialize_trade_record_window (records : list RawRecordEnvelopeV1)
    : res (list CanonicalObservationV1) :=
  id ← identity records;
  _ ← require_contiguous_frames records;
  _ ← reject (negb (in_scope id.1.1) || negb (str_ends_with id.1.2 "@trade"))
        "trade window identity outside canonical scope";
  '(observations, _) ← try_fold (trade_window_turn id) ([], None) records;
  Ok observations.

(** ** Depth: one record at a time *)

Definition cursor_from_snapshot (snapshot first : RawRecordEnvelopeV1) : res DepthObservationCursor :=
  let f := re_frame first in
  _ ← reject (negb (str_contains (rf_stream f) "@depth")
              || negb (String.eqb (rf_symbol (re_frame snapshot)) (rf_symbol f)))
        "depth cursor snapshot/stream identity mismatch";
  book ← book_new (rf_symbol f);
  let '(book, r) := load_snapshot (rf_payload (re_frame snapshot)) book in
  _ ← r;
  Ok (mkDepthCursor (rf_symbol f) (rf_stream f) (rf_connection_epoch f) book false).

Definition set_cursor_book (book : LocalOrderBook) (c : DepthObservationCursor) : DepthObservationCursor :=
  mkDepthCursor (dc_symbol c) (dc_stream c) (dc_connection_epoch c) book (dc_live_started c).
Definition set_cursor_live (c : DepthObservationCursor) : DepthObservationCursor :=
  mkDepthCursor (dc_symbol c) (dc_stream c) (dc_connection_epoch c) (dc_book c) true.

(** [self.book.apply_depth(..)?] *)
Definition cursor_apply_depth (payload : bytes) : SE DepthObservationCursor ApplyOutcome := λ c,
  let '(book, r) := apply_depth payload (dc_book c) in (set_cursor_book book c, r).

Definition cursor_apply_record (record : RawRecordEnvelopeV1)
    : SE DepthObservationCursor (option CanonicalObservationV1) :=
  c ← get;
  let f := re_frame record in
  lift (reject (negb (String.eqb (rf_symbol f) (dc_symbol c))
                || negb (String.eqb (rf_stream f) (dc_stream c))
                || negb (String.eqb (rf_connection_epoch f) (dc_connection_epoch c)))
          "depth cursor record identity mismatch");;
  shutdown ← lift (server_shutdown_payload (rf_payload f));
  if shutdown : bool then mret None else
  '(first_sequence, final_sequence) ← lift (depth_ids (rf_payload f));
  outcome ← cursor_apply_depth (rf_payload f);
  match outcome with
  | Old =>
      lift (reject (dc_live_started c) "stale depth record appeared after cursor became LIVE");;
      mret None
  | Applied =>
      modify set_cursor_live;;
      c ← get;
      mret (Some (depth_observation (dc_symbol c, dc_stream c, dc_connection_epoch c) record
                    first_sequence final_sequence (state_digest (dc_book c))))
  end.

(** The loop that feeds the records of a prefix to the cursor. *)
Fixpoint cursor_feed (records : list RawRecordEnvelopeV1) : SE DepthObservationCursor unit :=
  match records with
  | [] => mret ()
  | record :: records => cursor_apply_record record;; cursor_feed records
  end.

Definition cursor_from_durable_prefix (snapshot_file depth_file : bytes) (durable_through_offset : Z)
    : res DepthObservationCursor :=
  snapshots ← read_raw_records snapshot_file;
  _ ← reject (negb (length snapshots =? 1)%nat) "depth cursor requires one snapshot";
  records ← read_raw_records_through_offset depth_file durable_through_offset;
  id ← identity records;
  snapshot ← expect (snapshots !! 0%nat);
  _ ← reject (negb (str_contains id.1.2 "@depth")
              || negb (String.eqb (rf_symbol (re_frame snapshot)) id.1.1))
        "depth cursor snapshot/stream identity mismatch";
  first ← expect (records !! 0%nat);
  cursor ← cursor_from_snapshot snapshot first;
  let '(cursor, r) := cursor_feed records cursor in
  _ ← r;
  _ ← reject (negb (dc_live_started cursor)) "depth cursor prefix never reached LIVE observations";
  Ok cursor.

(** ** Depth: a window at once *)

(** The book behind the observations collected so far takes one depth record; an old
    record is refused once there is an observation. The flag tells whether the record
    was old. *)
Definition depth_turn (stale : string) (id : raw_identity)
    (acc : LocalOrderBook * list CanonicalObservationV1) (record : RawRecordEnvelopeV1)
    : res (LocalOrderBook * list CanonicalObservationV1 * bool) :=
  let '(book, observations) := acc in
  '(first_sequence, final_sequence) ← depth_ids (rf_payload (re_frame record));
  let '(book, r) := apply_depth (rf_payload (re_frame record)) book in
  outcome ← r;
  match outcome with
  | Old => _ ← reject (negb (bool_decide (observations = []))) stale;
           Ok (book, observations, true)
  | Applied =>
      Ok (book, observations ++ [depth_observation id record first_sequence final_sequence
                                   (state_digest book)], false)
  end.
Definition depth_window_turn (id : raw_identity) (acc : LocalOrderBook * list CanonicalObservationV1)
    (record : RawRecordEnvelopeV1) : res (LocalOrderBook * list CanonicalObservationV1) :=
  shutdown ← server_shutdown_payload (rf_payload (re_frame record));
  if shutdown : bool then Ok acc else
  '(acc, _) ← depth_turn "stale depth record appeared after window became LIVE" id acc record;
  Ok acc.
Definition depth_log_turn (id : raw_identity) (acc : LocalOrderBook * list CanonicalObservationV1 * Z)
    (record : RawRecordEnvelopeV1) : res (LocalOrderBook * list CanonicalObservationV1 * Z) :=
  let '(acc, skipped) := acc in
  '(acc, old) ← depth_turn "stale depth record appeared after canonical LIVE observations" id acc record;
  skipped ← (if old : bool then add_u64 skipped 1 else Ok skipped);
  Ok (acc, skipped).

Definition materialize_depth_record_window (snapshot : RawRecordEnvelopeV1)
    (records : list RawRecordEnvelopeV1) : res (list CanonicalObservationV1) :=
  id ← identity records;
  _ ← require_contiguous_frames records;
  _ ← reject (negb (str_contains id.1.2 "@depth")
              || negb (String.eqb (rf_symbol (re_frame snapshot)) id.1.1))
        "depth window snapshot/stream identity mismatch";
  book ← book_new id.1.1;
  let '(book, r) := load_snapshot (rf_payload (re_frame snapshot)) book in
  _ ← r;
  '(_, observations) ← try_fold (depth_window_turn id) (book, []) records;
  _ ← reject (bool_decide (observations = [])) "depth window never reached LIVE";
  Ok observations.

(** ** The latest convergence of two windows *)

Definition window_event_turn (acc : list DepthWindowEvent * nat) (record : RawRecordEnvelopeV1)
    : res (list DepthWindowEvent * nat) :=
  let '(events, record_index) := acc in
  shutdown ← server_shutdown_payload (rf_payload (re_frame record));
  if shutdown : bool then Ok (events, S record_index) else
  '(first_sequence, final_sequence) ← depth_ids (rf_payload (re_frame record));
  Ok (events ++ [mkWindowEvent record_index first_sequence final_sequence], S record_index).

Definition prepare_depth_window (snapshot : RawRecordEnvelopeV1) (records : list RawRecordEnvelopeV1)
    : res (raw_identity * list DepthWindowEvent) :=
  id ← identity records;
  _ ← require_contiguous_frames records;
  _ ← reject (negb (str_contains id.1.2 "@depth")
              || negb (String.eqb (rf_symbol (re_frame snapshot)) id.1.1))
        "depth window snapshot/stream identity mismatch";
  '(events, _) ← try_fold window_event_turn ([], 0%nat) records;
  Ok (id, events).

(** [book], [next_event] and [live_started] of one side of the search. *)
Record window_side := mkSide { ws_book : LocalOrderBook; ws_next : nat; ws_live : bool }.

(** The loop of [advance_depth_window] on the events from [next_event] on. *)
Fixpoint advance_loop (records : list RawRecordEnvelopeV1) (events : list DepthWindowEvent)
    : SE window_side (option AppliedDepthWindowEvent) :=
  match events with
  | [] => mret None
  | event :: events =>
      side ← get;
      let event_index := ws_next side in
      record ← lift (expect (records !! we_record_index event));
      let '(book, r) := apply_depth (rf_payload (re_frame record)) (ws_book side) in
      put (mkSide book (S event_index) (ws_live side));;
      outcome ← lift r;
      match outcome with
      | Old =>
          lift (reject (ws_live side) "stale depth record appeared after window became LIVE");;
          advance_loop records events
      | Applied =>
          put (mkSide book (S event_index) true);;
          mret (Some (mkAppliedEvent event_index (we_first_sequence event) (we_final_sequence event)))
      end
  end.
Definition advance_depth_window (records : list RawRecordEnvelopeV1) (events : list DepthWindowEvent)
    : SE window_side (option AppliedDepthWindowEvent) :=
  side ← get; advance_loop records (drop (ws_next side) events).

Definition replay_turn (records : list RawRecordEnvelopeV1) (acc : LocalOrderBook * bool)
    (event : DepthWindowEvent) : res (LocalOrderBook * bool) :=
  let '(book, live_started) := acc in
  record ← expect (records !! we_record_index event);
  let '(book, r) := apply_depth (rf_payload (re_frame record)) book in
  outcome ← r;
  match outcome with
  | Old => _ ← reject live_started "stale depth record appeared after window became LIVE";
           Ok (book, live_started)
  | Applied => Ok (book, true)
  end.
Definition replay_depth_window_through (snapshot : RawRecordEnvelopeV1)
    (records : list RawRecordEnvelopeV1) (events : list DepthWindowEvent) (through_event : nat)
    : res LocalOrderBook :=
  book ← book_new (rf_symbol (re_frame snapshot));
  let '(book, r) := load_snapshot (rf_payload (re_frame snapshot)) book in
  _ ← r;
  '(book, live_started) ← try_fold (replay_turn records) (book, false) (take (S through_event) events);
  _ ← reject (negb live_started) "depth window never reached LIVE";
  Ok book.

(** The first loop of [latest_depth_window_convergence]. A turn advances a side, which
    consumes one of its events. *)
Fixpoint converge_loop (fuel : nat) (records_a records_b : list RawRecordEnvelopeV1)
    (events_a events_b : list DepthWindowEvent) (a b : window_side)
    (current_a current_b : option AppliedDepthWindowEvent) (candidates : list DepthConvergenceCandidate)
    : res (window_side * window_side * option AppliedDepthWindowEvent * option AppliedDepthWindowEvent
           * list DepthConvergenceCandidate) :=
  match fuel with
  | O => Panic
  | S fuel =>
      match current_a, current_b with
      | Some predecessor, Some successor =>
          match ae_final_sequence predecessor ?= ae_final_sequence successor with
          | Lt =>
              let '(a, r) := advance_depth_window records_a events_a a in
              current_a ← r;
              converge_loop fuel records_a records_b events_a events_b a b current_a current_b candidates
          | Gt =>
              let '(b, r) := advance_depth_window records_b events_b b in
              current_b ← r;
              converge_loop fuel records_a records_b events_a events_b a b current_a current_b candidates
          | Eq =>
              candidates ←
                match events_b !! S (ae_event_index successor) with
                | Some continuation =>
                    if same_state_fingerprint (ws_book a) (ws_book b) then
                      next ← ok_or (checked_add (ae_final_sequence successor) 1)
                               "depth boundary sequence overflow";
                      Ok (if (we_first_sequence continuation <=? next)
                             && (next <=? we_final_sequence continuation)
                          then candidates ++ [mkCandidate predecessor successor continuation]
                          else candidates)
                    else Ok candidates
                | None => Ok candidates
                end;
              let '(a, r) := advance_depth_window records_a events_a a in
              current_a ← r;
              let '(b, r) := advance_depth_window records_b events_b b in
              current_b ← r;
              converge_loop fuel records_a records_b events_a events_b a b current_a current_b candidates
          end
      | _, _ => Ok (a, b, current_a, current_b, candidates)
      end
  end.

(** The loops that run one side to its end. *)
Fixpoint drain_side (fuel : nat) (records : list RawRecordEnvelopeV1) (events : list DepthWindowEvent)
    (side : window_side) (current : option AppliedDepthWindowEvent) : res unit :=
  match fuel with
  | O => Panic
  | S fuel =>
      match current with
      | None => Ok ()
      | Some _ =>
          let '(side, r) := advance_depth_window records events side in
          current ← r;
          drain_side fuel records events side current
      end
  end.

(** The last loop: candidates from the latest on. *)
Fixpoint confirm_candidates (snapshot : RawRecordEnvelopeV1)
    (records_a records_b : list RawRecordEnvelopeV1) (events_a events_b : list DepthWindowEvent)
    (id_a id_b : raw_identity) (candidates : list DepthConvergenceCandidate)
    : res LatestDepthWindowConvergenceV1 :=
  match candidates with
  | [] => Err "no exact depth convergence with documented B continuation"
  | c :: candidates =>
      let a := dg_predecessor c in
      let b := dg_successor c in
      book_a ← replay_depth_window_through snapshot records_a events_a (ae_event_index a);
      book_b ← replay_depth_window_through snapshot records_b events_b (ae_event_index b);
      if negb (same_state book_a book_b) then
        confirm_candidates snapshot records_a records_b events_a events_b id_a id_b candidates
      else
      let state_sha256 := state_digest book_a in
      event_a ← expect (events_a !! ae_event_index a);
      record_a ← expect (records_a !! we_record_index event_a);
      event_b ← expect (events_b !! ae_event_index b);
      record_b ← expect (records_b !! we_record_index event_b);
      continuation ← expect (records_b !! we_record_index (dg_continuation c));
      Ok (mkConvergence
            (depth_observation id_a record_a (ae_first_sequence a) (ae_final_sequence a) state_sha256)
            (depth_observation id_b record_b (ae_first_sequence b) (ae_final_sequence b) state_sha256)
            (depth_observation id_b continuation (we_first_sequence (dg_continuation c))
               (we_final_sequence (dg_continuation c)) ""))
  end.

Definition window_book (snapshot : RawRecordEnvelopeV1) (symbol : string) : res LocalOrderBook :=
  book ← book_new symbol;
  let '(book, r) := load_snapshot (rf_payload (re_frame snapshot)) book in
  _ ← r;
  Ok book.

Definition latest_depth_window_convergence (snapshot : RawRecordEnvelopeV1)
    (predecessor_records successor_records : list RawRecordEnvelopeV1)
    : res LatestDepthWindowConvergenceV1 :=
  '(id_a, events_a) ← prepare_depth_window snapshot predecessor_records;
  '(id_b, events_b) ← prepare_depth_window snapshot successor_records;
  _ ← reject (negb (String.eqb id_a.1.1 id_b.1.1)) "depth overlap symbols differ";
  book_a ← window_book snapshot id_a.1.1;
  book_b ← window_book snapshot id_b.1.1;
  let '(a, r) := advance_depth_window predecessor_records events_a (mkSide book_a 0 false) in
  current_a ← r;
  let '(b, r) := advance_depth_window successor_records events_b (mkSide book_b 0 false) in
  current_b ← r;
  '(a, b, current_a, current_b, candidates) ←
    converge_loop (S (length events_a + length events_b)) predecessor_records successor_records
      events_a events_b a b current_a current_b [];
  _ ← drain_side (S (length events_a)) predecessor_records events_a a current_a;
  _ ← drain_side (S (length events_b)) successor_records events_b b current_b;
  confirm_candidates snapshot predecessor_records successor_records events_a events_b id_a id_b
    (rev candidates).

(** ** Whole raw logs *)

Definition finalize (raw_path : string) (raw_file : bytes) (stream_kind : BoundaryStreamKind)
    (records : list RawRecordEnvelopeV1) (observations : list CanonicalObservationV1) (skipped : Z)
    (snapshot_path snapshot_record_sha256 : option string) (snapshot_last_update_id : option Z)
    : res ObservationMaterializationV1 :=
  first ← ok_or (head observations) "materialization produced no observations";
  final ← expect (last observations);
  id ← identity records;
  scan ← scan_raw_log raw_file;
  _ ← reject (negb (sc_clean_eof scan)) "raw source is corrupt/incomplete";
  encoded ← map_err "serialize observation materialization digest: "
    (to_vec (mkMaterialDigest (digest_item <$> observations) (sc_last_record_sha256 scan)
       "ObservationMaterializationDigestV1" skipped snapshot_last_update_id snapshot_record_sha256
       stream_kind));
  Ok (mkMaterialization id.1.1 stream_kind id.1.2 id.2 raw_path (sc_last_record_sha256 scan)
        snapshot_path snapshot_record_sha256 snapshot_last_update_id (len records) skipped observations
        (co_first_sequence first) (co_final_sequence final) (hex (sha256 encoded))).

Definition materialize_depth_observations (snapshot_path depth_path : string)
    (snapshot_file depth_file : bytes) : res ObservationMaterializationV1 :=
  snapshots ← read_raw_records snapshot_file;
  _ ← reject (negb (length snapshots =? 1)%nat) "depth materialization requires one snapshot";
  records ← read_raw_records depth_file;
  id ← identity records;
  _ ← reject (negb (str_contains id.1.2 "@depth")) "depth source stream is not a depth stream";
  snapshot ← expect (snapshots !! 0%nat);
  _ ← reject (negb (String.eqb (rf_symbol (re_frame snapshot)) id.1.1)) "snapshot/depth symbol mismatch";
  book ← book_new id.1.1;
  let '(book, r) := load_snapshot (rf_payload (re_frame snapshot)) book in
  snapshot_last_update_id ← r;
  '(_, observations, skipped) ←
    try_fold (depth_log_turn id) (book, [], 0) records;
  finalize depth_path depth_file Depth records observations skipped (Some snapshot_path)
    (Some (re_record_sha256 snapshot)) (Some snapshot_last_update_id).

Definition materialize_trade_observations (trade_path : string) (trade_file : bytes)
    : res ObservationMaterializationV1 :=
  records ← read_raw_records trade_file;
  id ← identity records;
  _ ← reject (negb (in_scope id.1.1)) ("symbol outside scope: " ++ id.1.1);
  _ ← reject (negb (str_ends_with id.1.2 "@trade"))
        "trade source stream is not an individual trade stream";
  '(observations, _) ← try_fold (trade_turn id) ([], None) records;
  finalize trade_path trade_file Trade records observations 0 None None None.
End observations.

(** ** Theory *)

Section observation_theory.
Context `{Hsha : Sha256} `{Hval : SerdeValue} `{Hobj : !SerdeObject} `{Hb64 : Base64}.
Context `{Htrade : Serde CanonicalTradeEvent} `{Hmat : Serde MaterializationDigest}.
Context `{!SerdeValueLaws Hval}.

Lemma strict_object_Ok payload label value :
  strict_object payload label = Ok value → value_from_slice payload = inr value.
Proof.
  unfold strict_object. intros H. apply res_bind_Ok in H as (v & Hv%map_err_Ok & H).
  apply res_bind_Ok in H as ([] & _ & [= <-]). done.
Qed.

Lemma depth_ids_Ok payload first final :
  depth_ids payload = Ok (first, final) →
  ∃ value, value_from_slice payload = inr value ∧ required_u64 value "U" = Ok first ∧
    required_u64 value "u" = Ok final.
Proof.
  unfold depth_ids. intros H. apply res_bind_Ok in H as (v & Hv%strict_object_Ok & H).
  apply res_bind_Ok in H as ([] & _ & H). apply res_bind_Ok in H as (f & Hf%ok_or_Ok & H).
  apply res_bind_Ok in H as (l & Hl%ok_or_Ok & [= <- <-]).
  exists v. unfold required_u64. by rewrite Hf, Hl.
Qed.

(** A depth record seen by the book. *)
Lemma apply_depth_cases payload b b' r first final :
  book_ok b → depth_ids payload = Ok (first, final) → apply_depth payload b = (b', r) →
  match r with
  | Ok Applied => book_ok b' ∧ bk_state b' = BookLive ∧ bk_symbol b' = bk_symbol b ∧
      bk_last_update_id b' = Some final ∧
      ∃ last, bk_last_update_id b = Some last ∧ first ≤ last + 1 ≤ final ∧ last + 1 ≤ u64_max
  | Ok Old => b' = b ∧ ∃ last, bk_last_update_id b = Some last ∧ final ≤ last
  | Err _ => True
  | Panic => False
  end.
Proof.
  intros Hb (value & Hv & HU & Hu)%depth_ids_Ok H.
  destruct (apply_depth_ok _ _ _ _ Hb H) as [Hb' Hnp].
  unfold apply_depth, apply_depth_value in H. cbv [mbind SE_bind lift] in H. rewrite Hv in H.
  cbn [map_err] in H. destruct (prepare_depth_value value b) as [b1 r1] eqn:Hp.
  apply prepare_spec in Hp. destruct r1 as [u|e|]; [|by injection H as <- <-|done].
  destruct Hp as (-> & _ & Hok & Hfrom & last & Hlast & Hmax & Hat).
  pose proof (apply_prepared_spec u b b' r Hb Hok H) as [_ Hspec].
  destruct r as [[|]|e|]; [| |done|done].
  - destruct Hspec as (_ & f & l & bids & asks & last' & -> & Hlast' & Hbr & Hupd & _).
    rewrite Hlast in Hlast'. injection Hlast' as <-.
    destruct Hfrom as (HU' & Hu' & _). rewrite HU in HU'. rewrite Hu in Hu'.
    injection HU' as <-. injection Hu' as <-. destruct Hupd as (? & ? & ? & _). split_and!; try done.
    by exists last.
  - subst b'. split; [done|]. exists last. split; [done|].
    unfold apply_prepared_depth in H. cbv [mbind SE_bind get lift] in H.
    destruct (negb _); cbn [reject] in H; [done|]. rewrite Hlast in H. cbn [ok_or] in H.
    rewrite checked_add_fits in H by lia. cbn [ok_or] in H.
    destruct u as [f l|f l bids asks].
    + destruct Hfrom as [HU' Hu']. rewrite Hu in Hu'. injection Hu' as <-.
      destruct ((final <? f) || _) eqn:Hg; [done|]. split_orb. lia.
    + exfalso. destruct (_ || _ || _); [done|]. destruct (apply_side x62 _ _ _) as [nb fp].
      destruct (apply_side x61 _ _ _) as [na fp']. cbv [put mret SE_ret] in H.
      by destruct (check_invariants _) as [? [|?|]].
Qed.

(** *** The run of a window *)

(** An applied event: its index, the event, the book behind it. *)
Record traced := mkTraced { tr_index : nat; tr_event : DepthWindowEvent; tr_book : LocalOrderBook }.

(** The events applied to a book in order; an old one is refused once the book is live. *)
Fixpoint side_trace (records : list RawRecordEnvelopeV1) (events : list DepthWindowEvent) (i : nat)
    (book : LocalOrderBook) (live : bool) : res (list traced) :=
  match events with
  | [] => Ok []
  | event :: events =>
      record ← expect (records !! we_record_index event);
      match apply_depth (rf_payload (re_frame record)) book with
      | (book, Ok Applied) =>
          rest ← side_trace records events (S i) book true;
          Ok (mkTraced i event book :: rest)
      | (book, Ok Old) => if live then Err "stale" else side_trace records events (S i) book live
      | (_, Err e) => Err e
      | (_, Panic) => Panic
      end
  end.

Lemma advance_loop_trace records l i book live t :
  side_trace records l i book live = Ok t →
  match t with
  | [] => ∃ s, advance_loop records l (mkSide book i live) = (s, Ok None)
  | x :: t =>
      advance_loop records l (mkSide book i live)
      = (mkSide (tr_book x) (S (tr_index x)) true,
         Ok (Some (mkAppliedEvent (tr_index x) (we_first_sequence (tr_event x))
                     (we_final_sequence (tr_event x))))) ∧
      (i ≤ tr_index x)%nat ∧ l !! (tr_index x - i)%nat = Some (tr_event x) ∧
      side_trace records (drop (S (tr_index x) - i) l) (S (tr_index x)) (tr_book x) true = Ok t
  end.
Proof.
  revert i book. induction l as [|event l IH]; intros i book H.
  { injection H as <-. by eexists. }
  cbn [side_trace] in H. apply res_bind_Ok in H as (record & Hr & H).
  cbn [advance_loop]. cbv [mbind SE_bind get lift put mret SE_ret]. rewrite Hr. cbn [ws_book ws_next ws_live].
  destruct (apply_depth _ book) as [book' [[|]|e|]] eqn:Ha; [| |done|done].
  - apply res_bind_Ok in H as (rest & Hrest & [= <-]). cbn [tr_index tr_event tr_book].
    rewrite Nat.sub_diag. split_and!; [done|lia|done|].
    replace (S i - i)%nat with 1%nat by lia. done.
  - destruct live; [done|]. cbn [reject]. specialize (IH (S i) book' H).
    destruct t as [|x t]; [done|]. destruct IH as (H1 & H2 & H3 & H4). split_and!; [done|lia| |].
    + replace (tr_index x - i)%nat with (S (tr_index x - S i))%nat by lia. done.
    + replace (S (tr_index x) - i)%nat with (S (S (tr_index x) - S i))%nat by lia. done.
Qed.

Definition applied_of (x : traced) : AppliedDepthWindowEvent :=
  mkAppliedEvent (tr_index x) (we_first_sequence (tr_event x)) (we_final_sequence (tr_event x)).

(** A side of the search that stands on the first of the applied events [t]. *)
Definition stands_on (records : list RawRecordEnvelopeV1) (events : list DepthWindowEvent)
    (side : window_side) (current : option AppliedDepthWindowEvent) (t : list traced) : Prop :=
  match t with
  | [] => current = None
  | x :: t => current = Some (applied_of x) ∧ side = mkSide (tr_book x) (S (tr_index x)) true ∧
      events !! tr_index x = Some (tr_event x) ∧
      side_trace records (drop (S (tr_index x)) events) (S (tr_index x)) (tr_book x) true = Ok t
  end.

Lemma advance_trace records events i book live t :
  side_trace records (drop i events) i book live = Ok t →
  ∃ side current, advance_depth_window records events (mkSide book i live) = (side, Ok current) ∧
    stands_on records events side current t.
Proof.
  intros H. unfold advance_depth_window. cbv [mbind SE_bind get]. cbn [ws_next].
  pose proof (advance_loop_trace _ _ _ _ _ _ H) as Ha. destruct t as [|x t].
  - destruct Ha as [s ->]. by eexists _, _.
  - destruct Ha as (-> & Hi & Hl & Ht). eexists _, _. split; [done|]. split_and!; try done.
    + rewrite lookup_drop in Hl. by replace (i + (tr_index x - i))%nat with (tr_index x) in Hl by lia.
    + rewrite drop_drop in Ht. by replace (i + (S (tr_index x) - i))%nat with (S (tr_index x)) in Ht by lia.
Qed.

Lemma stands_advance records events side current x t :
  stands_on records events side current (x :: t) →
  ∃ side' current', advance_depth_window records events side = (side', Ok current') ∧
    stands_on records events side' current' t.
Proof. intros (_ & -> & _ & Ht). by apply advance_trace. Qed.

Lemma drain_side_Ok fuel records events side current t :
  stands_on records events side current t → (length t < fuel)%nat →
  drain_side fuel records events side current = Ok ().
Proof.
  revert side current t. induction fuel as [|fuel IH]; intros side current t Hs Hf; [lia|].
  cbn [drain_side]. destruct t as [|x t]; [by rewrite Hs|].
  pose proof (stands_advance _ _ _ _ _ _ Hs) as (side' & current' & Ha & Hs').
  destruct Hs as [-> _]. rewrite Ha. cbn [mbind res_bind]. apply (IH _ _ t); [done|cbn in Hf; lia].
Qed.

(** The events carry the IDs of the payloads they point to. *)
Definition events_match (records : list RawRecordEnvelopeV1) (events : list DepthWindowEvent) : Prop :=
  Forall (λ e, ∃ r, records !! we_record_index e = Some r ∧
    depth_ids (rf_payload (re_frame r)) = Ok (we_first_sequence e, we_final_sequence e)) events.

Definition first_of (x : traced) : Z := we_first_sequence (tr_event x).
Definition final_of (x : traced) : Z := we_final_sequence (tr_event x).

(** Applied events continue each other from [last] on. *)
Fixpoint trace_ok (symbol : string) (last : Z) (t : list traced) : Prop :=
  match t with
  | [] => True
  | x :: t => first_of x ≤ last + 1 ≤ final_of x ∧ last + 1 ≤ u64_max ∧ book_ok (tr_book x) ∧
      bk_state (tr_book x) = BookLive ∧ bk_symbol (tr_book x) = symbol ∧
      bk_last_update_id (tr_book x) = Some (final_of x) ∧ trace_ok symbol (final_of x) t
  end.

Lemma side_trace_ok records events i book live t last :
  book_ok book → bk_last_update_id book = Some last → events_match records events →
  side_trace records events i book live = Ok t → trace_ok (bk_symbol book) last t.
Proof.
  revert i book live t last. induction events as [|event events IH];
    intros i book live t last Hb Hlast Hm H; [by injection H as <-|].
  apply Forall_cons in Hm as [(record & Hr & Hids) Hm]. cbn [side_trace] in H.
  rewrite Hr in H. cbn [expect mbind res_bind] in H.
  destruct (apply_depth _ book) as [book' r] eqn:Ha.
  pose proof (apply_depth_cases _ _ _ _ _ _ Hb Hids Ha) as Hc.
  destruct r as [[|]|e|]; [| |done|done].
  - apply res_bind_Ok in H as (rest & Hrest & [= <-]).
    destruct Hc as (Hb' & Hst & Hsy & Hl' & last' & E & Hbr & Hmax). rewrite Hlast in E. injection E as <-.
    cbn [trace_ok tr_book]. unfold first_of, final_of. cbn [tr_event]. split_and!; try done; [lia..|].
    rewrite <-Hsy. by apply (IH _ _ _ _ _ Hb' Hl' Hm Hrest).
  - destruct live; [done|]. destruct Hc as [-> _]. by eapply IH.
Qed.

Lemma trace_finals symbol last t :
  trace_ok symbol last t → Forall (λ x, last < final_of x) t ∧ StronglySorted Z.lt (final_of <$> t).
Proof.
  revert last. induction t as [|x t IH]; intros last H; [split; constructor|].
  destruct H as (H1 & _ & _ & _ & _ & _ & H). destruct (IH _ H) as [Hf Hs]. split.
  - constructor; [lia|]. eapply Forall_impl; [exact Hf|]. cbn. lia.
  - rewrite fmap_cons. constructor; [done|]. by apply Forall_fmap.
Qed.

Lemma trace_elem symbol last t x :
  trace_ok symbol last t → x ∈ t → book_ok (tr_book x) ∧ bk_state (tr_book x) = BookLive.
Proof.
  revert last. induction t as [|y t IH]; intros last H Hx; [set_solver|].
  destruct H as (_ & _ & ? & ? & _ & _ & H). apply elem_of_cons in Hx as [->|Hx]; [done|by eapply IH].
Qed.

(** Behind a live book every event is applied. *)
Lemma trace_live records events i book t :
  side_trace records events i book true = Ok t →
  length t = length events ∧
  ∀ j x, t !! j = Some x → tr_index x = (i + j)%nat ∧ events !! j = Some (tr_event x).
Proof.
  revert i book t. induction events as [|event events IH]; intros i book t H; cbn [side_trace] in H.
  { injection H as <-. split; [done|]. by intros []. }
  apply res_bind_Ok in H as (record & _ & H).
  destruct (apply_depth _ book) as [book' [[|]|e|]]; [|done..].
  apply res_bind_Ok in H as (rest & Hrest & [= <-]). destruct (IH _ _ _ Hrest) as [Hl Hx].
  split; [cbn; by rewrite Hl|]. intros [|j] x Hj; cbn in Hj.
  - injection Hj as <-. split; [cbn; lia|done].
  - destruct (Hx j x Hj) as [-> Hev]. split; [lia|done].
Qed.

Lemma side_trace_length records events i book live t :
  side_trace records events i book live = Ok t → (length t ≤ length events)%nat.
Proof.
  revert i book live t. induction events as [|event events IH]; intros i book live t H; cbn [side_trace] in H.
  { by injection H as <-. }
  apply res_bind_Ok in H as (record & _ & H).
  destruct (apply_depth _ book) as [book' [[|]|e|]]; [|destruct live; [done|]|done|done].
  - apply res_bind_Ok in H as (rest & Hrest & [= <-]). apply IH in Hrest. cbn. lia.
  - apply IH in H. cbn. lia.
Qed.

(** *** The search *)

(** All pairs of events of the two windows that end at the same update ID. *)
Definition pairs (ta tb : list traced) : list (traced * traced) :=
  concat ((λ x, (x,.) <$> filter (λ y, final_of x = final_of y) tb) <$> ta).

Lemma filter_none {A} (P : A → Prop) `{∀ x, Decision (P x)} l : Forall (λ x, ¬ P x) l → filter P l = [].
Proof. induction 1 as [|x l Hx _ IH]; [done|]. by rewrite filter_cons_False. Qed.

Lemma pairs_left x ta tb : Forall (λ y, final_of x < final_of y) tb → pairs (x :: ta) tb = pairs ta tb.
Proof.
  intros H. unfold pairs. cbn. rewrite filter_none; [done|]. eapply Forall_impl; [exact H|]. cbn. lia.
Qed.
Lemma pairs_right y ta tb : Forall (λ x, final_of y < final_of x) ta → pairs ta (y :: tb) = pairs ta tb.
Proof.
  induction 1 as [|x ta Hx _ IH]; [done|]. unfold pairs in *. cbn [fmap list_fmap concat].
  rewrite filter_cons_False by lia. by f_equal.
Qed.
Lemma pairs_both x y ta tb :
  final_of x = final_of y → Forall (λ z, final_of x < final_of z) tb →
  Forall (λ z, final_of y < final_of z) ta → pairs (x :: ta) (y :: tb) = (x, y) :: pairs ta tb.
Proof.
  intros E Hb Ha. unfold pairs. cbn [fmap list_fmap concat]. rewrite filter_cons_True by done.
  rewrite filter_none by (eapply Forall_impl; [exact Hb|]; cbn; lia). cbn.
  f_equal. by apply pairs_right.
Qed.
Lemma elem_of_pairs ta tb x y : (x, y) ∈ pairs ta tb ↔ x ∈ ta ∧ y ∈ tb ∧ final_of x = final_of y.
Proof.
  unfold pairs. rewrite list_elem_of_In, in_concat. setoid_rewrite <-list_elem_of_In.
  setoid_rewrite list_elem_of_fmap. split.
  - intros (l & (z & -> & Hz) & (w & [= <- <-] & Hw)%list_elem_of_fmap).
    apply list_elem_of_filter in Hw as [? ?]. done.
  - intros (Hx & Hy & E). exists ((x,.) <$> filter (λ y, final_of x = final_of y) tb).
    split; [by exists x|]. apply list_elem_of_fmap. exists y. split; [done|]. by apply list_elem_of_filter.
Qed.

(** The candidate a pair makes. *)
Definition candidate_of (events_b : list DepthWindowEvent) (p : traced * traced)
    : option DepthConvergenceCandidate :=
  continuation ← events_b !! S (tr_index p.2);
  if same_state_fingerprint (tr_book p.1) (tr_book p.2)
  then Some (mkCandidate (applied_of p.1) (applied_of p.2) continuation) else None.

Lemma converge_loop_exact fuel ra rb ea eb a b ca cb ta tb cands symbol symbol' last last' :
  stands_on ra ea a ca ta → stands_on rb eb b cb tb → trace_ok symbol last ta → trace_ok symbol' last' tb →
  (length ta + length tb < fuel)%nat →
  ∃ a' b' ca' cb' ta' tb', converge_loop fuel ra rb ea eb a b ca cb cands
    = Ok (a', b', ca', cb', cands ++ omap (candidate_of eb) (pairs ta tb)) ∧
    stands_on ra ea a' ca' ta' ∧ stands_on rb eb b' cb' tb' ∧
    (length ta' ≤ length ta)%nat ∧ (length tb' ≤ length tb)%nat.
Proof.
  revert a b ca cb ta tb cands last last'. induction fuel as [|fuel IH];
    intros a b ca cb ta tb cands last last' Ha Hb Hta Htb Hf; [lia|]. cbn [converge_loop].
  destruct ta as [|x ta].
  { rewrite Ha. exists a, b, None, cb, [], tb. by rewrite app_nil_r. }
  destruct tb as [|y tb].
  { pose proof Hb as Hb0. cbn in Hb0. subst cb. pose proof Ha as (-> & _).
    exists a, b, (Some (applied_of x)), None, (x :: ta), [].
    assert (pairs (x :: ta) [] = []) as -> by (clear; by induction (x :: ta)).
    by rewrite app_nil_r. }
  pose proof Ha as (-> & Ea & _ & _). pose proof Hb as (-> & Eb & _ & Htrb).
  pose proof (stands_advance _ _ _ _ _ _ Ha) as (a1 & ca1 & Hadv & Ha1).
  pose proof (stands_advance _ _ _ _ _ _ Hb) as (b1 & cb1 & Hadvb & Hb1).
  pose proof Hta as (_ & _ & _ & _ & _ & _ & Hta'). pose proof Htb as (_ & _ & _ & _ & _ & _ & Htb').
  destruct (trace_finals _ _ _ Hta') as [Hfa _]. destruct (trace_finals _ _ _ Htb') as [Hfb _].
  cbn [length] in Hf. cbn [ae_final_sequence applied_of]. fold (final_of x). fold (final_of y).
  destruct (Z.compare_spec (final_of x) (final_of y)) as [E|E|E].
  - assert (match eb !! S (ae_event_index (applied_of y)) with
      | Some continuation => if same_state_fingerprint (ws_book a) (ws_book b) then
          next ← ok_or (checked_add (final_of y) 1) "depth boundary sequence overflow";
          Ok (if (we_first_sequence continuation <=? next) && (next <=? we_final_sequence continuation)
              then cands ++ [mkCandidate (applied_of x) (applied_of y) continuation] else cands)
          else Ok cands
      | None => Ok cands end = Ok (cands ++ omap (candidate_of eb) [(x, y)])) as ->.
    { subst a b. cbn [ws_book ae_event_index applied_of]. unfold candidate_of.
      cbn [omap list_omap]. cbn [fst snd].
      destruct (eb !! S (tr_index y)) as [cont|] eqn:Hcont; cbn [mbind option_bind]; [|by rewrite app_nil_r].
      destruct (same_state_fingerprint _ _); [|by rewrite app_nil_r].
      destruct (trace_live _ _ _ _ _ Htrb) as [Hlen Hlk].
      assert (drop (S (tr_index y)) eb !! 0%nat = Some cont) as Hd0
        by (by rewrite lookup_drop, Nat.add_0_r).
      destruct tb as [|z tb]; [apply lookup_lt_Some in Hd0; cbn in Hlen; lia|].
      destruct (Hlk 0%nat z eq_refl) as [_ Hz]. rewrite Hd0 in Hz. injection Hz as ->.
      destruct Htb' as (Hbr & Hmax & _). unfold first_of, final_of in Hbr, Hmax.
      rewrite checked_add_fits by (unfold final_of; lia). cbn [ok_or mbind res_bind].
      unfold final_of at 1 2. rewrite !(proj2 (Z.leb_le _ _)) by lia. done. }
    cbn [mbind res_bind]. rewrite Hadv. cbn [mbind res_bind]. rewrite Hadvb. cbn [mbind res_bind].
    destruct (IH a1 b1 ca1 cb1 ta tb (cands ++ omap (candidate_of eb) [(x, y)]) _ _ Ha1 Hb1 Hta' Htb')
      as (a' & b' & ca' & cb' & ta' & tb' & Hrun & H1 & H2 & H3 & H4); [lia|].
    exists a', b', ca', cb', ta', tb'. split_and!; try done; [|cbn; lia|cbn; lia].
    rewrite Hrun. rewrite pairs_both; [|done| |].
    + change ((x, y) :: pairs ta tb) with ([(x, y)] ++ pairs ta tb). rewrite omap_app, app_assoc. done.
    + eapply Forall_impl; [exact Hfb|]. cbn. lia.
    + eapply Forall_impl; [exact Hfa|]. cbn. lia.
  - rewrite Hadv. cbn [mbind res_bind].
    destruct (IH a1 b ca1 _ ta (y :: tb) cands _ _ Ha1 Hb Hta' Htb)
      as (a' & b' & ca' & cb' & ta' & tb' & Hrun & H1 & H2 & H3 & H4); [cbn; lia|].
    exists a', b', ca', cb', ta', tb'. split_and!; try done; [|cbn; lia].
    rewrite Hrun, pairs_left; [done|]. constructor; [done|]. eapply Forall_impl; [exact Hfb|]. cbn. lia.
  - rewrite Hadvb. cbn [mbind res_bind].
    destruct (IH a b1 _ cb1 (x :: ta) tb cands _ _ Ha Hb1 Hta Htb')
      as (a' & b' & ca' & cb' & ta' & tb' & Hrun & H1 & H2 & H3 & H4); [cbn; lia|].
    exists a', b', ca', cb', ta', tb'. split_and!; try done; [|cbn; lia].
    rewrite Hrun, pairs_right; [done|]. constructor; [done|]. eapply Forall_impl; [exact Hfa|]. cbn. lia.
Qed.

(** Replaying through an applied event gives the book behind it. *)
Lemma replay_fold_trace records events i book live t x :
  side_trace records events i book live = Ok t → x ∈ t →
  (i ≤ tr_index x)%nat ∧ events !! (tr_index x - i)%nat = Some (tr_event x) ∧
  try_fold (replay_turn records) (book, live) (take (S (tr_index x) - i) events) = Ok (tr_book x, true).
Proof.
  revert i book live t. induction events as [|event events IH]; intros i book live t H Hx; cbn [side_trace] in H.
  { injection H as <-. set_solver. }
  apply res_bind_Ok in H as (record & Hr & H).
  assert (∀ book' live' t', side_trace records events (S i) book' live' = Ok t' → x ∈ t' →
    (i ≤ tr_index x)%nat ∧ (event :: events) !! (tr_index x - i)%nat = Some (tr_event x) ∧
    take (S (tr_index x) - i) (event :: events) = event :: take (S (tr_index x) - S i) events ∧
    try_fold (replay_turn records) (book', live') (take (S (tr_index x) - S i) events) = Ok (tr_book x, true)) as Hnext.
  { intros book' live' t' Ht Hx'. destruct (IH _ _ _ _ Ht Hx') as (H1 & H2 & H3).
    split_and!; [lia| | |done].
    - by replace (tr_index x - i)%nat with (S (tr_index x - S i))%nat by lia.
    - by replace (S (tr_index x) - i)%nat with (S (S (tr_index x) - S i))%nat by lia. }
  assert (replay_turn records (book, live) event = match apply_depth (rf_payload (re_frame record)) book with
    | (b, Ok Applied) => Ok (b, true) | (b, Ok Old) => if live then Err "stale depth record appeared after window became LIVE" else Ok (b, live)
    | (_, Err e) => Err e | (_, Panic) => Panic end) as Hturn.
  { unfold replay_turn. rewrite Hr. cbn [mbind res_bind]. destruct (apply_depth _ book) as [b [[|]|e|]]; try done.
    by destruct live. }
  destruct (apply_depth _ book) as [book' [[|]|e|]]; [| |done|done].
  - apply res_bind_Ok in H as (rest & Hrest & [= <-]). apply elem_of_cons in Hx as [->|Hx].
    + cbn [tr_index tr_event tr_book]. rewrite Nat.sub_diag. split_and!; [lia|done|].
      replace (S i - i)%nat with 1%nat by lia. cbn [take try_fold]. rewrite Hturn. done.
    + destruct (Hnext _ _ _ Hrest Hx) as (H1 & H2 & -> & H4). split_and!; [done|done|].
      cbn [try_fold]. by rewrite Hturn.
  - destruct live; [done|]. destruct (Hnext _ _ _ H Hx) as (H1 & H2 & -> & H4). split_and!; [done|done|].
    cbn [try_fold]. by rewrite Hturn.
Qed.

(** *** The reference run of a window *)

(** The observations of a window, each with the book behind it. *)
Fixpoint window_run (id : raw_identity) (book : LocalOrderBook) (live : bool)
    (records : list RawRecordEnvelopeV1) : res (list (CanonicalObservationV1 * LocalOrderBook)) :=
  match records with
  | [] => Ok []
  | record :: records =>
      let payload := rf_payload (re_frame record) in
      shutdown ← server_shutdown_payload payload;
      if shutdown : bool then window_run id book live records else
      '(first, final) ← depth_ids payload;
      match apply_depth payload book with
      | (book, Ok Applied) =>
          rest ← window_run id book true records;
          Ok ((depth_observation id record first final (state_digest book), book) :: rest)
      | (book, Ok Old) => if live then Err "stale" else window_run id book live records
      | (_, Err e) => Err e
      | (_, Panic) => Panic
      end
  end.

(** The checks in front of a window, then its run. *)
Definition window_states (snapshot : RawRecordEnvelopeV1) (records : list RawRecordEnvelopeV1)
    : res (list (CanonicalObservationV1 * LocalOrderBook)) :=
  id ← identity records;
  _ ← require_contiguous_frames records;
  _ ← reject (negb (str_contains id.1.2 "@depth")
              || negb (String.eqb (rf_symbol (re_frame snapshot)) id.1.1)) "mismatch";
  book ← window_book snapshot id.1.1;
  window_run id book false records.

Lemma fold_run_iff id book obs l obs' :
  (∃ book', try_fold (depth_window_turn id) (book, obs) l = Ok (book', obs')) ↔
  ∃ s, window_run id book (negb (bool_decide (obs = []))) l = Ok s ∧ obs' = obs ++ s.*1.
Proof.
  revert book obs. induction l as [|record l IH]; intros book obs; cbn [try_fold window_run].
  { split; [intros [b [= <- <-]]; exists []; by rewrite app_nil_r|].
    intros (s & [= <-] & ->). exists book. by rewrite app_nil_r. }
  set (F := try_fold (depth_window_turn id)) in *. unfold depth_window_turn.
  destruct (server_shutdown_payload _) as [[|]| |]; cbn [mbind res_bind];
    [apply IH| |by split; [intros [? ?]|intros (? & ? & ?)]..].
  unfold depth_turn. destruct (depth_ids _) as [[first final]| |]; cbn [mbind res_bind];
    [|by split; [intros [? ?]|intros (? & ? & ?)]..].
  destruct (apply_depth _ book) as [book1 [[|]|e|]]; cbn [mbind res_bind];
    [| |by split; [intros [? ?]|intros (? & ? & ?)]..].
  - set (o := depth_observation _ _ _ _ _). rewrite IH.
    rewrite (bool_decide_eq_false_2 (obs ++ [o] = [])) by (by destruct obs). cbn [negb]. split.
    + intros (s & -> & ->). cbn [mbind res_bind]. eexists. split; [reflexivity|]. by rewrite <-app_assoc.
    + intros (s & (rest & -> & [= <-])%res_bind_Ok & ->). exists rest. split; [done|].
      by rewrite <-app_assoc.
  - destruct (negb (bool_decide (obs = []))) eqn:Hl; cbn [reject mbind res_bind].
    + by split; [intros [? ?]|intros (? & ? & ?)].
    + by rewrite IH, Hl.
Qed.

Lemma window_book_Ok snapshot symbol book :
  window_book snapshot symbol = Ok book ↔
  ∃ b u, book_new symbol = Ok b ∧ load_snapshot (rf_payload (re_frame snapshot)) b = (book, Ok u).
Proof.
  unfold window_book. destruct (book_new symbol) as [b| |]; cbn [mbind res_bind];
    [|split; [done|by intros (? & ? & ? & ?)]..].
  destruct (load_snapshot _ b) as [b' r] eqn:El. split.
  - intros (u & -> & [= <-])%res_bind_Ok. by exists b, u.
  - intros (? & u & [= <-] & E). rewrite El in E. injection E as <- ->. done.
Qed.

Lemma window_book_ok snapshot symbol book :
  window_book snapshot symbol = Ok book →
  book_ok book ∧ bk_symbol book = symbol ∧ ∃ last, bk_last_update_id book = Some last.
Proof.
  intros (b & u & Hn & Hl)%window_book_Ok. pose proof (book_new_ok _ _ Hn) as Hb.
  pose proof (load_snapshot_ok _ _ _ _ Hb Hl) as Hok. split; [done|].
  unfold book_new in Hn. apply res_bind_Ok in Hn as ([] & _ & [= <-]).
  unfold load_snapshot in Hl. cbv [mbind SE_bind get lift modify mret SE_ret] in Hl.
  cbn [bk_state] in Hl. rewrite bool_decide_eq_true_2 in Hl by done. cbn [negb reject] in Hl.
  destruct (map_err _ _) as [v| |]; [|done..]. destruct (required_u64 _ _) as [n| |]; [|done..].
  destruct (load_side _ "bid") as [bids| |]; [|done..]. destruct (load_side _ "ask") as [asks| |]; [|done..].
  unfold check_invariants in Hl. cbv [mbind SE_bind get lift modify mret SE_ret throw] in Hl.
  destruct (best_bid _); [|done..]. destruct (best_ask _); [|done..].
  destruct (decimal_geb _ _); [done|]. injection Hl as <- <-. cbn. split; [done|]. by eexists.
Qed.

(** Each observation of a run continues the one before it. *)
Lemma window_run_chain id book live l s last :
  book_ok book → bk_last_update_id book = Some last → window_run id book live l = Ok s →
  (∀ j x, s !! j = Some x →
     book_ok x.2 ∧ bk_last_update_id x.2 = Some (co_final_sequence x.1) ∧ bk_symbol x.2 = bk_symbol book ∧
     co_observation_sha256 x.1 = state_digest x.2 ∧
     co_first_sequence x.1
       ≤ match j with O => last | S j => default last ((co_final_sequence ∘ fst) <$> s !! j) end + 1
       ≤ co_final_sequence x.1).
Proof.
  revert book live s last. induction l as [|record l IH]; intros book live s last Hb Hl H; cbn [window_run] in H.
  { by injection H as <-. }
  apply res_bind_Ok in H as (shutdown & _ & H). destruct shutdown; [by eapply IH|].
  apply res_bind_Ok in H as ([first final] & Hids & H).
  destruct (apply_depth _ book) as [book1 r] eqn:Ha.
  pose proof (apply_depth_cases _ _ _ _ _ _ Hb Hids Ha) as Hc. destruct r as [[|]|e|]; [| |done|done].
  - apply res_bind_Ok in H as (rest & Hrest & [= <-]).
    destruct Hc as (Hb1 & _ & Hsy & Hl1 & last' & E & Hbr & Hmax). rewrite Hl in E. injection E as <-.
    intros [|j] x Hx; cbn in Hx.
    + injection Hx as <-. cbn. split_and!; try done; lia.
    + destruct (IH _ _ _ _ Hb1 Hl1 Hrest j x Hx) as (H1 & H2 & H3 & H4 & H5).
      split_and!; try done; [congruence|..].
      all: destruct j as [|j]; cbn [lookup list_lookup fmap option_fmap option_map] in *; cbn in H5 |- *; [lia|].
      all: destruct (rest !! j) eqn:Hj; [cbn in *; lia|].
      all: apply lookup_ge_None in Hj; apply lookup_lt_Some in Hx; lia.
  - destruct live; [done|]. destruct Hc as [-> _]. by eapply IH.
Qed.

(** *** Windows as events *)

Fixpoint window_events (n : nat) (l : list RawRecordEnvelopeV1) : res (list DepthWindowEvent) :=
  match l with
  | [] => Ok []
  | record :: l =>
      shutdown ← server_shutdown_payload (rf_payload (re_frame record));
      if shutdown : bool then window_events (S n) l else
      '(first, final) ← depth_ids (rf_payload (re_frame record));
      rest ← window_events (S n) l;
      Ok (mkWindowEvent n first final :: rest)
  end.

Lemma window_events_fold evs n l :
  try_fold window_event_turn (evs, n) l
  = (rest ← window_events n l; Ok (evs ++ rest, (n + length l)%nat)).
Proof.
  revert evs n. induction l as [|record l IH]; intros evs n; cbn [try_fold window_events].
  { cbn. by rewrite app_nil_r, Nat.add_0_r. }
  set (F := try_fold window_event_turn) in *. unfold window_event_turn.
  destruct (server_shutdown_payload _) as [[|]| |]; cbn [mbind res_bind]; [| |done..].
  { rewrite IH. cbn [length]. by rewrite Nat.add_succ_r. }
  destruct (depth_ids _) as [[first final]| |]; cbn [mbind res_bind]; [|done..].
  rewrite IH. destruct (window_events (S n) l); cbn [mbind res_bind]; [|done..].
  cbn [length]. by rewrite Nat.add_succ_r, <-app_assoc.
Qed.

(** The state of the reference run an applied event stands for. *)
Definition state_of (id : raw_identity) (records : list RawRecordEnvelopeV1) (x : traced)
    (st : CanonicalObservationV1 * LocalOrderBook) : Prop :=
  st.2 = tr_book x ∧ ∃ record, records !! we_record_index (tr_event x) = Some record ∧
    st.1 = depth_observation id record (first_of x) (final_of x) (state_digest (tr_book x)).

Lemma run_trace id pre l i book live s :
  window_run id book live l = Ok s →
  ∃ events t, window_events (length pre) l = Ok events ∧ events_match (pre ++ l) events ∧
    side_trace (pre ++ l) events i book live = Ok t ∧ Forall2 (state_of id (pre ++ l)) t s.
Proof.
  revert pre i book live s. induction l as [|record l IH]; intros pre i book live s H;
    cbn [window_run window_events] in *.
  { injection H as <-. exists [], []. by repeat constructor. }
  replace (pre ++ record :: l) with ((pre ++ [record]) ++ l) by (by rewrite <-app_assoc).
  assert (S (length pre) = length (pre ++ [record])) as Elen by (rewrite length_app; cbn; lia).
  assert (((pre ++ [record]) ++ l) !! length pre = Some record) as Hlk.
  { rewrite <-app_assoc. by apply list_lookup_middle. }
  apply res_bind_Ok in H as (shutdown & -> & H). cbn [mbind res_bind].
  destruct shutdown; [rewrite Elen; by apply IH|].
  apply res_bind_Ok in H as ([first final] & Hids & H). rewrite Hids. cbn [mbind res_bind].
  destruct (apply_depth _ book) as [book1 [[|]|e|]] eqn:Ha; [| |done|done].
  - apply res_bind_Ok in H as (rest & Hrest & [= <-]).
    destruct (IH (pre ++ [record]) (S i) _ _ _ Hrest) as (events & t & H1 & H2 & H3 & H4).
    rewrite Elen, H1. cbn [mbind res_bind].
    exists (mkWindowEvent (length pre) first final :: events),
      (mkTraced i (mkWindowEvent (length pre) first final) book1 :: t).
    split_and!; [done| | |].
    + constructor; [|done]. by exists record.
    + cbn [side_trace we_record_index]. rewrite Hlk. cbn [expect mbind res_bind]. rewrite Ha, H3. done.
    + constructor; [|done]. split; [done|]. by exists record.
  - destruct live; [done|].
    destruct (IH (pre ++ [record]) (S i) _ _ _ H) as (events & t & H1 & H2 & H3 & H4).
    rewrite Elen, H1. cbn [mbind res_bind].
    exists (mkWindowEvent (length pre) first final :: events), t. split_and!; [done| | |done].
    + constructor; [|done]. by exists record.
    + cbn [side_trace we_record_index]. rewrite Hlk. cbn [expect mbind res_bind]. rewrite Ha, H3. done.
Qed.

(** A window that runs, as the search sees it. *)
Lemma window_states_inv snapshot records s :
  window_states snapshot records = Ok s →
  ∃ id events book t last, prepare_depth_window snapshot records = Ok (id, events) ∧
    rf_symbol (re_frame snapshot) = id.1.1 ∧ window_book snapshot id.1.1 = Ok book ∧
    side_trace records events 0 book false = Ok t ∧ Forall2 (state_of id records) t s ∧
    events_match records events ∧ trace_ok id.1.1 last t.
Proof.
  unfold window_states, prepare_depth_window. intros H.
  apply res_bind_Ok in H as (id & -> & H). apply res_bind_Ok in H as ([] & -> & H).
  apply res_bind_Ok in H as ([] & Hg%reject_Ok & H). cbn [mbind res_bind]. rewrite Hg. cbn [reject mbind res_bind].
  apply res_bind_Ok in H as (book & Hbook & H).
  destruct (run_trace id [] records 0 _ _ _ H) as (events & t & H1 & H2 & H3 & H4).
  cbn [app length] in H1, H2, H3, H4. destruct (window_book_ok _ _ _ Hbook) as (Hok & Hsy & last & Hlast). split_orb. apply String.eqb_eq in H5.
  exists id, events, book, t, last. rewrite window_events_fold, H1. cbn [mbind res_bind app].
  split_and!; try done. rewrite <-Hsy. by eapply side_trace_ok.
Qed.

(** *** The confirmation of candidates *)

Definition good (events_b : list DepthWindowEvent) (p : traced * traced) : Prop :=
  is_Some (events_b !! S (tr_index p.2)) ∧ same_state (tr_book p.1) (tr_book p.2) = true.

Lemma omap_rev {A B} (f : A → option B) l : omap f (rev l) = rev (omap f l).
Proof.
  induction l as [|x l IH]; [done|]. cbn [rev]. rewrite omap_app, IH. cbn. by destruct (f x); cbn; rewrite ?app_nil_r.
Qed.

Lemma replay_through_trace snapshot records events symbol book t x :
  symbol = rf_symbol (re_frame snapshot) → window_book snapshot symbol = Ok book →
  side_trace records events 0 book false = Ok t → x ∈ t →
  replay_depth_window_through snapshot records events (tr_index x) = Ok (tr_book x).
Proof.
  intros -> (b & u & Hn & Hl)%window_book_Ok Ht Hx. unfold replay_depth_window_through.
  rewrite Hn. cbn [mbind res_bind]. rewrite Hl. cbn [mbind res_bind].
  destruct (replay_fold_trace _ _ _ _ _ _ _ Ht Hx) as (_ & _ & Hf). rewrite Nat.sub_0_r in Hf. by rewrite Hf.
Qed.

Lemma same_state_digest a b : same_state a b = true → state_digest a = state_digest b.
Proof.
  unfold same_state, state_digest, state_text. intros H. split_orb.
  repeat match goal with
  | E : bool_decide _ = true |- _ => apply bool_decide_eq_true in E
  | E : String.eqb _ _ = true |- _ => apply String.eqb_eq in E
  end. by repeat match goal with E : _ a = _ b |- _ => rewrite E; clear E end.
Qed.

Section confirm.
Context (snapshot : RawRecordEnvelopeV1) (ra rb : list RawRecordEnvelopeV1)
  (ea eb : list DepthWindowEvent) (ida idb : raw_identity) (ta tb : list traced)
  (sa sb : list (CanonicalObservationV1 * LocalOrderBook)).
Hypothesis Hra : ∀ x, x ∈ ta → replay_depth_window_through snapshot ra ea (tr_index x) = Ok (tr_book x).
Hypothesis Hrb : ∀ x, x ∈ tb → replay_depth_window_through snapshot rb eb (tr_index x) = Ok (tr_book x).
Hypothesis Hea : ∀ x, x ∈ ta → ea !! tr_index x = Some (tr_event x).
Hypothesis Heb : ∀ x, x ∈ tb → eb !! tr_index x = Some (tr_event x).
Hypothesis Hsa : ∀ x, x ∈ ta → ∃ st, st ∈ sa ∧ state_of ida ra x st.
Hypothesis Hsb : ∀ x, x ∈ tb → ∃ st, st ∈ sb ∧ state_of idb rb x st.
Hypothesis Hcont : events_match rb eb.
Hypothesis Hfp : ∀ x y, x ∈ ta → y ∈ tb → same_state (tr_book x) (tr_book y) = true →
  same_state_fingerprint (tr_book x) (tr_book y) = true.

(** What a confirmed pair returns. *)
Definition confirmed (c : LatestDepthWindowConvergenceV1) (p : traced * traced) : Prop :=
  ∃ cont r, state_of ida ra p.1 (lc_predecessor_boundary c, tr_book p.1) ∧
    state_of idb rb p.2 (lc_successor_boundary c, tr_book p.2) ∧
    eb !! S (tr_index p.2) = Some cont ∧ rb !! we_record_index cont = Some r ∧
    lc_successor_continuation c
    = depth_observation idb r (we_first_sequence cont) (we_final_sequence cont) "".

Lemma confirm_exact l :
  Forall (λ p, p.1 ∈ ta ∧ p.2 ∈ tb) l →
  (∃ p l1 l2 c, l = l1 ++ p :: l2 ∧ good eb p ∧ Forall (λ q, ¬ good eb q) l1 ∧ confirmed c p ∧
     confirm_candidates snapshot ra rb ea eb ida idb (omap (candidate_of eb) l) = Ok c) ∨
  (Forall (λ q, ¬ good eb q) l ∧
   ∃ e, confirm_candidates snapshot ra rb ea eb ida idb (omap (candidate_of eb) l) = Err e).
Proof.
  induction 1 as [|[x y] l [Hx Hy] _ IH]; [right; split; [constructor|by eexists]|].
  cbn [fst snd] in Hx, Hy.
  assert (¬ good eb (x, y) →
    confirm_candidates snapshot ra rb ea eb ida idb (omap (candidate_of eb) ((x, y) :: l))
    = confirm_candidates snapshot ra rb ea eb ida idb (omap (candidate_of eb) l)) as Hskip.
  { intros Hbad. cbn. unfold candidate_of at 1. cbn [fst snd].
    destruct (eb !! S (tr_index y)) as [cont|] eqn:Ec; cbn [mbind option_bind]; [|done].
    destruct (same_state_fingerprint _ _); [|done]. cbn [confirm_candidates dg_predecessor dg_successor
      ae_event_index applied_of]. rewrite (Hra x Hx), (Hrb y Hy). cbn [mbind res_bind].
    destruct (same_state _ _) eqn:Es; [|done]. exfalso. apply Hbad. split; [by exists cont|done]. }
  destruct (decide (is_Some (eb !! S (tr_index y)))) as [[cont Ec]|Hn].
  2: { assert (¬ good eb (x, y)) as Hbad by (by intros []). rewrite (Hskip Hbad).
       destruct IH as [(p & l1 & l2 & c & -> & H1 & H2 & H3 & H4)|[H1 H2]].
       - left. exists p, ((x, y) :: l1), l2, c. split_and!; try done. by constructor.
       - right. split; [by constructor|done]. }
  destruct (same_state (tr_book x) (tr_book y)) eqn:Es.
  2: { assert (¬ good eb (x, y)) as Hbad by (intros [_ H]; cbn in H; congruence). rewrite (Hskip Hbad).
       destruct IH as [(p & l1 & l2 & c & -> & H1 & H2 & H3 & H4)|[H1 H2]].
       - left. exists p, ((x, y) :: l1), l2, c. split_and!; try done. by constructor.
       - right. split; [by constructor|done]. }
  left. destruct (Hsa x Hx) as ([oa ba] & _ & Eba & reca & Hreca & Eoa).
  destruct (Hsb y Hy) as ([ob bb] & _ & Ebb & recb & Hrecb & Eob). cbn [fst snd] in *.
  pose proof (proj1 (Forall_lookup _ _) Hcont _ _ Ec) as (rc & Hrc & _).
  exists (x, y), [], l, (mkConvergence oa ob
    (depth_observation idb rc (we_first_sequence cont) (we_final_sequence cont) "")).
  split_and!; [done|split; [by exists cont|done]|constructor| |].
  - exists cont, rc. cbn [lc_predecessor_boundary lc_successor_boundary lc_successor_continuation fst snd].
    split_and!; try done; (split; [done|]); cbn [fst]; [by exists reca|by exists recb].
  - cbn. unfold candidate_of at 1. cbn [fst snd]. rewrite Ec. cbn [mbind option_bind].
    rewrite (Hfp x y Hx Hy Es).
    cbn [confirm_candidates dg_predecessor dg_successor ae_event_index applied_of dg_continuation
         ae_first_sequence ae_final_sequence].
    rewrite (Hra x Hx), (Hrb y Hy). cbn [mbind res_bind]. rewrite Es. cbn [negb].
    rewrite (Hea x Hx), (Heb y Hy). cbn [expect mbind res_bind]. rewrite Hreca, Hrecb. cbn [expect mbind res_bind].
    rewrite Hrc. cbn [expect mbind res_bind].
    do 2 f_equal; [by rewrite Eoa|]. rewrite Eob. by rewrite (same_state_digest _ _ Es).
Qed.
End confirm.

(** *** The search is exact *)

Lemma trace_next records events i book live t j x :
  side_trace records events i book live = Ok t → t !! j = Some x →
  match t !! S j with
  | Some z => tr_index z = S (tr_index x)
  | None => (i + length events)%nat = S (tr_index x)
  end.
Proof.
  revert i book live t j. induction events as [|event events IH]; intros i book live t j H Hj; cbn [side_trace] in H.
  { by injection H as <-. }
  apply res_bind_Ok in H as (record & _ & H). cbn [length]. rewrite <-plus_n_Sm.
  destruct (apply_depth _ book) as [book' [[|]|e|]]; [| |done|done].
  - apply res_bind_Ok in H as (rest & Hrest & [= <-]). destruct j as [|j]; [|by apply (IH _ _ _ _ _ Hrest)].
    cbn in Hj. injection Hj as <-. destruct (trace_live _ _ _ _ _ Hrest) as [Hlen Hlk]. cbn [tr_index].
    change ((mkTraced i event book' :: rest) !! 1%nat) with (rest !! 0%nat).
    destruct rest as [|z rest]; cbn in Hlen |- *; [lia|]. by rewrite (proj1 (Hlk 0%nat z eq_refl)), Nat.add_0_r.
  - destruct live; [done|]. by apply (IH _ _ _ _ _ H).
Qed.

Lemma trace_continuation records events book live t j x cont :
  side_trace records events 0 book live = Ok t → t !! j = Some x → events !! S (tr_index x) = Some cont →
  ∃ z, t !! S j = Some z ∧ tr_event z = cont.
Proof.
  intros Ht Hj Hc. pose proof (trace_next _ _ _ _ _ _ _ _ Ht Hj) as Hn.
  destruct (t !! S j) as [z|] eqn:Hz; [|apply lookup_lt_Some in Hc; lia]. exists z. split; [done|].
  destruct (replay_fold_trace _ _ _ _ _ _ z Ht (list_elem_of_lookup_2 _ _ _ Hz)) as (_ & Hev & _).
  rewrite Nat.sub_0_r, Hn in Hev. congruence.
Qed.

Lemma continuation_trace records events book live t j x z :
  side_trace records events 0 book live = Ok t → t !! j = Some x → t !! S j = Some z →
  events !! S (tr_index x) = Some (tr_event z).
Proof.
  intros Ht Hj Hz. pose proof (trace_next _ _ _ _ _ _ _ _ Ht Hj) as Hn. rewrite Hz in Hn.
  destruct (replay_fold_trace _ _ _ _ _ _ z Ht (list_elem_of_lookup_2 _ _ _ Hz)) as (_ & Hev & _).
  by rewrite Nat.sub_0_r, Hn in Hev.
Qed.

Lemma state_of_fun id records x st st' :
  state_of id records x st → state_of id records x st' → st = st'.
Proof.
  destruct st as [o b], st' as [o' b']. intros (Hb & r & Hr & Ho) (Hb' & r' & Hr' & Ho'). cbn in *. congruence.
Qed.
Lemma state_of_final id records x st : state_of id records x st → co_final_sequence st.1 = final_of x.
Proof. intros (_ & r & _ & ->). done. Qed.

Lemma pairs_sorted symbol last ta tb :
  trace_ok symbol last ta → StronglySorted (λ p q, final_of p.1 ≤ final_of q.1) (pairs ta tb).
Proof.
  intros [_ Hs]%trace_finals. induction ta as [|x ta IH]; [constructor|]. rewrite fmap_cons in Hs.
  apply StronglySorted_inv in Hs as [Hs Hx]. unfold pairs. cbn [fmap list_fmap concat]. fold (pairs ta tb).
  apply StronglySorted_app_2; [| |by apply IH]; cycle 1.
  - induction (filter _ tb) as [|y l IHl]; [constructor|]. cbn. constructor; [done|].
    apply Forall_fmap, Forall_true. intros z. cbn. lia.
  - intros [u v] [w z] (y & [= -> ->] & _)%list_elem_of_fmap (Hw & _ & _)%elem_of_pairs. cbn.
    rewrite Forall_fmap, Forall_forall in Hx. specialize (Hx w Hw). cbn in Hx. lia.
Qed.

(** An observation without its digest: the successor's continuation is named, not
    replayed. *)
Definition without_digest (o : CanonicalObservationV1) : CanonicalObservationV1 :=
  mkObservation (co_symbol o) (co_stream_kind o) (co_stream o) (co_connection_epoch o) (co_frame_index o)
    (co_first_sequence o) (co_final_sequence o) (co_record_sha256 o) "".

(** Two runs converge at observations that end at the same update ID with the same
    book, the second of which has a successor [next]. *)
Definition converges (sa sb : list (CanonicalObservationV1 * LocalOrderBook))
    (oa ob next : CanonicalObservationV1) : Prop :=
  ∃ ba bb bn j, (oa, ba) ∈ sa ∧ sb !! j = Some (ob, bb) ∧ sb !! S j = Some (next, bn) ∧
    co_final_sequence oa = co_final_sequence ob ∧ same_state ba bb = true.

Section exact.
Context (ra rb : list RawRecordEnvelopeV1) (eb : list DepthWindowEvent) (ida idb : raw_identity)
  (ta tb : list traced) (sa sb : list (CanonicalObservationV1 * LocalOrderBook)) (book : LocalOrderBook).
Hypothesis Ha : Forall2 (state_of ida ra) ta sa.
Hypothesis Hb : Forall2 (state_of idb rb) tb sb.
Hypothesis Htb : side_trace rb eb 0 book false = Ok tb.

Lemma confirmed_converges c p :
  p ∈ pairs ta tb → good eb p → confirmed ra rb eb ida idb c p →
  co_final_sequence (lc_successor_boundary c) = final_of p.1 ∧
  ∃ next, converges sa sb (lc_predecessor_boundary c) (lc_successor_boundary c) next ∧
    lc_successor_continuation c = without_digest next.
Proof.
  destruct p as [x y]. intros (Hx & Hy & E)%elem_of_pairs [_ Hsame] (cont & r & Hsx & Hsy & Hcont & Hr & Ec).
  cbn [fst snd] in *. apply list_elem_of_lookup in Hx as [i Hi]. apply list_elem_of_lookup in Hy as [j Hj].
  destruct (Forall2_lookup_l _ _ _ _ _ Ha Hi) as (st & Hst & Hs). rewrite (state_of_fun _ _ _ _ _ Hs Hsx) in Hst.
  destruct (Forall2_lookup_l _ _ _ _ _ Hb Hj) as (st' & Hst' & Hs'). rewrite (state_of_fun _ _ _ _ _ Hs' Hsy) in Hst'.
  destruct (trace_continuation _ _ _ _ _ _ _ _ Htb Hj Hcont) as (z & Hz & <-).
  destruct (Forall2_lookup_l _ _ _ _ _ Hb Hz) as ([on bn] & Hn & Hbn & rz & Hrz & Eon). cbn [fst snd] in *.
  pose proof (state_of_final _ _ _ _ Hsx) as Fx. pose proof (state_of_final _ _ _ _ Hsy) as Fy. cbn [fst] in Fx, Fy.
  split; [congruence|]. exists on. split.
  - exists (tr_book x), (tr_book y), bn, j. split_and!; try done; [by eapply list_elem_of_lookup_2|congruence].
  - rewrite Ec, Eon. rewrite Hr in Hrz. injection Hrz as <-. done.
Qed.

Lemma converges_good oa ob next :
  converges sa sb oa ob next →
  ∃ p, p ∈ pairs ta tb ∧ good eb p ∧ final_of p.1 = co_final_sequence ob.
Proof.
  intros (ba & bb & bn & j & [i Hi]%list_elem_of_lookup & Hj & Hn & E & Hsame).
  destruct (Forall2_lookup_r _ _ _ _ _ Ha Hi) as (x & Hx & Hsx).
  destruct (Forall2_lookup_r _ _ _ _ _ Hb Hj) as (y & Hy & Hsy).
  destruct (Forall2_lookup_r _ _ _ _ _ Hb Hn) as (z & Hz & _).
  pose proof (state_of_final _ _ _ _ Hsx) as Fx. pose proof (state_of_final _ _ _ _ Hsy) as Fy. cbn [fst] in Fx, Fy.
  exists (x, y). split_and!; [| |cbn; congruence].
  - apply elem_of_pairs. split_and!; [by eapply list_elem_of_lookup_2..|congruence].
  - split; cbn [fst snd]; [exists (tr_event z); by eapply continuation_trace|].
    destruct Hsx as [<- _], Hsy as [<- _]. done.
Qed.
End exact.

Lemma convergence_search snapshot ra rb sa sb :
  window_states snapshot ra = Ok sa → window_states snapshot rb = Ok sb →
  ∃ ea eb ida idb ta tb book,
    latest_depth_window_convergence snapshot ra rb
    = confirm_candidates snapshot ra rb ea eb ida idb (omap (candidate_of eb) (rev (pairs ta tb))) ∧
    side_trace ra ea 0 book false = Ok ta ∧ side_trace rb eb 0 book false = Ok tb ∧
    window_book snapshot (rf_symbol (re_frame snapshot)) = Ok book ∧
    Forall2 (state_of ida ra) ta sa ∧ Forall2 (state_of idb rb) tb sb ∧ events_match rb eb ∧
    (∃ last, trace_ok ida.1.1 last ta) ∧ ∃ last, trace_ok idb.1.1 last tb.
Proof.
  intros Ha Hb.
  destruct (window_states_inv _ _ _ Ha) as (ida & ea & booka & ta & lasta & Pa & Ia & Ba & Ta & Fa & Ma & Ka).
  destruct (window_states_inv _ _ _ Hb) as (idb & eb & bookb & tb & lastb & Pb & Ib & Bb & Tb & Fb & Mb & Kb).
  rewrite <-Ia in Ba. rewrite <-Ib in Bb. pose proof Bb as E. rewrite Ba in E. injection E as <-.
  exists ea, eb, ida, idb, ta, tb, booka. split_and!; try done; [|by eexists..].
  unfold latest_depth_window_convergence. rewrite Pa. cbn [mbind res_bind]. rewrite Pb. cbn [mbind res_bind].
  rewrite <-Ia, <-Ib, String.eqb_refl. cbn [negb reject mbind res_bind]. rewrite Ba. cbn [mbind res_bind].
  destruct (advance_trace ra ea 0 booka false ta Ta) as (a & ca & -> & Sa). cbn [mbind res_bind].
  destruct (advance_trace rb eb 0 booka false tb Tb) as (b & cb & -> & Sb). cbn [mbind res_bind].
  pose proof (side_trace_length _ _ _ _ _ _ Ta). pose proof (side_trace_length _ _ _ _ _ _ Tb).
  destruct (converge_loop_exact (S (length ea + length eb)) ra rb ea eb a b ca cb ta tb [] _ _ _ _ Sa Sb Ka Kb)
    as (a' & b' & ca' & cb' & ta' & tb' & -> & Sa' & Sb' & La & Lb); [lia|]. cbn [mbind res_bind].
  rewrite (drain_side_Ok _ _ _ _ _ _ Sa') by lia. cbn [mbind res_bind].
  rewrite (drain_side_Ok _ _ _ _ _ _ Sb') by lia. cbn [mbind res_bind app]. by rewrite omap_rev.
Qed.

(** C11: The search for a handover boundary is exact. On two windows of raw depth records
    that replay from one snapshot, it returns the observations of the predecessor and
    the successor at the LATEST update ID at which the two replays hold the same order
    book and the successor has a further record, with that further record named; when
    it fails, no such point exists. The fingerprint prefilter loses none, and the
    search always ends. *)
Theorem latest_convergence_exact snapshot ra rb sa sb :
  window_states snapshot ra = Ok sa → window_states snapshot rb = Ok sb →
  match latest_depth_window_convergence snapshot ra rb with
  | Ok c =>
      (∃ next, converges sa sb (lc_predecessor_boundary c) (lc_successor_boundary c) next ∧
         lc_successor_continuation c = without_digest next) ∧
      (∀ oa ob next, converges sa sb oa ob next →
         co_final_sequence ob ≤ co_final_sequence (lc_successor_boundary c))
  | Err _ => ∀ oa ob next, ¬ converges sa sb oa ob next
  | Panic => False
  end.
Proof.
  intros Ha Hb. destruct (convergence_search _ _ _ _ _ Ha Hb)
    as (ea & eb & ida & idb & ta & tb & book & -> & Ta & Tb & Bk & Fa & Fb & Mb & [lasta Ka] & [lastb Kb]).
  assert (∀ t s id r x, Forall2 (state_of id r) t s → x ∈ t → ∃ st, st ∈ s ∧ state_of id r x st) as Hst.
  { intros t s id r x HF [i Hi]%list_elem_of_lookup. destruct (Forall2_lookup_l _ _ _ _ _ HF Hi) as (st & Hs & ?).
    exists st. split; [by eapply list_elem_of_lookup_2|done]. }
  assert (∀ r e t, side_trace r e 0 book false = Ok t → ∀ x, x ∈ t → e !! tr_index x = Some (tr_event x)) as Hev.
  { intros r e t Ht x Hx. destruct (replay_fold_trace _ _ _ _ _ _ x Ht Hx) as (_ & H & _). by rewrite Nat.sub_0_r in H. }
  destruct (confirm_exact snapshot ra rb ea eb ida idb ta tb sa sb) with (l := rev (pairs ta tb))
    as [(p & l1 & l2 & c & El & Hgood & Hl1 & Hconf & ->)|[Hnone [e ->]]].
  1: { intros x Hx. exact (replay_through_trace _ _ _ _ _ _ x eq_refl Bk Ta Hx). }
  1: { intros x Hx. exact (replay_through_trace _ _ _ _ _ _ x eq_refl Bk Tb Hx). }
  all: eauto.
  - intros x y Hx Hy Hsame. destruct (trace_elem _ _ _ _ Ka Hx) as [? Hlive].
    apply same_state_fingerprint_ok; [done| |by rewrite Hlive|done]. apply (trace_elem _ _ _ _ Kb Hy).
  - apply Forall_rev, Forall_forall. intros [x y] (? & ? & _)%elem_of_pairs. done.
  - assert (pairs ta tb = rev l2 ++ p :: rev l1) as Ep.
    { rewrite <-(rev_involutive (pairs ta tb)), El, rev_app_distr. cbn. by rewrite <-app_assoc. }
    assert (p ∈ pairs ta tb) as Hp by (rewrite Ep; set_solver).
    destruct (confirmed_converges _ _ _ _ _ _ _ _ _ _ Fa Fb Tb c p Hp Hgood Hconf) as [Hfin Hnext].
    split; [done|]. intros oa ob next Hc.
    destruct (converges_good _ _ _ _ _ _ _ _ _ _ Fa Fb Tb _ _ _ Hc) as (q & Hq & Hgq & <-). rewrite Hfin.
    pose proof (pairs_sorted _ _ _ tb Ka) as Hs. rewrite Ep in Hs, Hq.
    apply elem_of_app in Hq as [Hq|[->|Hq]%elem_of_cons]; [|lia|].
    + refine (StronglySorted_app_1_elem_of _ _ _ _ _ Hs Hq _). set_solver.
    + rewrite Forall_forall in Hl1. exfalso. apply (Hl1 q); [|done].
      apply list_elem_of_In, in_rev, list_elem_of_In. done.
  - intros oa ob next Hc.
    destruct (converges_good _ _ _ _ _ _ _ _ _ _ Fa Fb Tb _ _ _ Hc) as (q & Hq & Hgq & _).
    rewrite Forall_forall in Hnone. apply (Hnone q); [|done]. apply list_elem_of_In. rewrite <-in_rev. by apply list_elem_of_In.
Qed.

(** *** Windows and cursors *)

Lemma identity_Ok records id :
  identity records = Ok id → Forall (λ r, frame_identity (re_frame r) = id) records ∧
    ∃ first rest, records = first :: rest ∧ id = frame_identity (re_frame first).
Proof.
  unfold identity. intros H. apply res_bind_Ok in H as (first & Hh%ok_or_Ok & H).
  apply res_bind_Ok in H as ([] & Hg%reject_Ok & [= <-]). destruct records as [|r rest]; [done|].
  cbn in Hh. injection Hh as <-. split; [|by exists r, rest].
  apply Forall_forall. intros x Hx%list_elem_of_In. destruct (decide (frame_identity (re_frame x) = frame_identity (re_frame r))) as [|Hne]; [done|].
  exfalso. enough (existsb (λ r0, negb (bool_decide (frame_identity (re_frame r0) = frame_identity (re_frame r)))) (r :: rest) = true) by congruence.
  apply existsb_exists. exists x. split; [done|]. by rewrite bool_decide_eq_false_2.
Qed.

Lemma window_materialize_iff snapshot records obs :
  materialize_depth_record_window snapshot records = Ok obs ↔
  ∃ s, window_states snapshot records = Ok s ∧ obs = s.*1 ∧ obs ≠ [].
Proof.
  unfold materialize_depth_record_window, window_states.
  destruct (identity records) as [id| |]; cbn [mbind res_bind]; [|split; [done|by intros (? & ? & ?)]..].
  destruct (require_contiguous_frames records); cbn [mbind res_bind]; [|split; [done|by intros (? & ? & ?)]..].
  destruct (_ || _); cbn [reject mbind res_bind]; [split; [done|by intros (? & ? & ?)]|].
  unfold window_book. destruct (book_new id.1.1) as [b| |]; cbn [mbind res_bind]; [|split; [done|by intros (? & ? & ?)]..].
  destruct (load_snapshot _ b) as [book [u| |]]; cbn [mbind res_bind]; [|split; [done|by intros (? & ? & ?)]..].
  pose proof (fold_run_iff id book [] records) as Hiff. split.
  - intros ([book' obs'] & Hf & H)%res_bind_Ok. apply res_bind_Ok in H as ([] & Hne%reject_Ok & [= <-]).
    destruct (proj1 (Hiff obs') (ex_intro _ book' Hf)) as (s & Hs & ->). exists s.
    split_and!; [done|done|]. by apply bool_decide_eq_false in Hne.
  - intros (s & Hs & -> & Hne). destruct (proj2 (Hiff s.*1)) as [book' ->]; [by exists s|].
    cbn [mbind res_bind]. by rewrite bool_decide_eq_false_2.
Qed.

(** A depth window that materialises has no gap. Its first observation covers the ID
    after the snapshot's and each other one the ID after its predecessor's; each carries
    the digest of the whole book behind it, a well-formed book of the symbol that stands
    at the observation's final ID. *)
Theorem depth_window_gapless snapshot records obs :
  materialize_depth_record_window snapshot records = Ok obs →
  ∃ book last books, window_book snapshot (rf_symbol (re_frame snapshot)) = Ok book ∧
    bk_last_update_id book = Some last ∧ length books = length obs ∧ obs ≠ [] ∧
    ∀ j o b previous, obs !! j = Some o → books !! j = Some b →
      (last :: (co_final_sequence <$> obs)) !! j = Some previous →
      co_first_sequence o ≤ previous + 1 ≤ co_final_sequence o ∧
      co_observation_sha256 o = state_digest b ∧ book_ok b ∧
      bk_last_update_id b = Some (co_final_sequence o) ∧ bk_symbol b = rf_symbol (re_frame snapshot).
Proof.
  intros (s & H & -> & Hne)%window_materialize_iff. unfold window_states in H.
  apply res_bind_Ok in H as (id & _ & H). apply res_bind_Ok in H as ([] & _ & H).
  apply res_bind_Ok in H as ([] & Hg%reject_Ok & H). apply res_bind_Ok in H as (book & Hbook & H).
  split_orb. match goal with E : String.eqb _ _ = true |- _ => apply String.eqb_eq in E end.
  destruct (window_book_ok _ _ _ Hbook) as (Hok & Hsy & last & Hlast).
  exists book, last, s.*2. split_and!; [congruence|done|by rewrite !length_fmap|done|].
  intros j o b previous Ho Hb Hp. rewrite list_lookup_fmap in Ho. rewrite list_lookup_fmap in Hb.
  destruct (s !! j) as [[o' b']|] eqn:Hj; [|done]. injection Ho as <-. injection Hb as <-.
  destruct (window_run_chain _ _ _ _ _ _ Hok Hlast H j _ Hj) as (K1 & K2 & K3 & K4 & K5). cbn [fst snd] in *.
  split_and!; try done; [| |congruence].
  all: destruct j as [|j]; [cbn in Hp; injection Hp as <-; lia|].
  all: change ((co_final_sequence <$> s.*1) !! j = Some previous) in Hp.
  all: do 2 rewrite list_lookup_fmap in Hp; destruct (s !! j) as [z|]; [|done]; cbn in Hp, K5; injection Hp as <-; lia.
Qed.

(** The observations a cursor emits on a list of records. *)
Fixpoint cursor_outputs (records : list RawRecordEnvelopeV1)
    : SE DepthObservationCursor (list CanonicalObservationV1) :=
  match records with
  | [] => mret []
  | record :: records =>
      o ← cursor_apply_record record;
      rest ← cursor_outputs records;
      mret (option_list o ++ rest)
  end.

Lemma cursor_run id c l obs :
  (dc_symbol c, dc_stream c, dc_connection_epoch c) = id →
  Forall (λ r, frame_identity (re_frame r) = id) l →
  (∃ c', cursor_outputs l c = (c', Ok obs)) ↔
  ∃ s, window_run id (dc_book c) (dc_live_started c) l = Ok s ∧ obs = s.*1.
Proof.
  intros Hid Hl. revert c obs Hid. induction Hl as [|record l Hr Hl IH]; intros c obs Hid;
    cbn [cursor_outputs window_run].
  { split; [intros [c' [= <- <-]]; by exists []|]. intros (s & [= <-] & ->). by exists c. }
  rewrite <-Hid in Hr. injection Hr as Es Et Ee.
  cbv [mbind SE_bind]. unfold cursor_apply_record. cbv [mbind SE_bind get lift mret SE_ret].
  rewrite Es, Et, Ee, !String.eqb_refl. cbn [negb orb reject].
  destruct (server_shutdown_payload _) as [[|]| |]; cbn [res_bind];
    [|destruct (depth_ids _) as [[first final]| |]; cbn [res_bind]|..];
    try (by split; [intros [? ?]|intros (? & ? & ?)]).
  - rewrite <-IH by done. destruct (cursor_outputs l c) as [c1 [o| |]]; cbn; naive_solver.
  - unfold cursor_apply_depth. destruct (apply_depth _ (dc_book c)) as [book [[|]|e|]];
      [| |by split; [intros [? ?]|intros (? & ? & ?)]..].
    + unfold modify. set (c1 := set_cursor_live _).
      specialize (IH c1). cbn [dc_book dc_live_started c1 set_cursor_live set_cursor_book] in IH.
      change (dc_book c1) with book.
      change (dc_symbol c1, dc_stream c1, dc_connection_epoch c1) with (dc_symbol c, dc_stream c, dc_connection_epoch c).
      rewrite Hid. destruct (cursor_outputs l c1) as [c2 r2] eqn:Eo. split.
      * destruct r2 as [rest| |]; [|by intros [? ?]..]. intros [c' [= <- <-]].
        destruct (proj1 (IH rest Hid) (ex_intro _ c2 eq_refl)) as (s & -> & ->). cbn [res_bind]. by eexists.
      * intros (s & (rest & Hrest & [= <-])%res_bind_Ok & ->).
        destruct (proj2 (IH rest.*1 Hid)) as [c' [= <- ->]]; [by exists rest|]. by eexists.
    + cbn [dc_live_started set_cursor_book]. destruct (dc_live_started c) eqn:El; cbn [reject];
        [by split; [intros [? ?]|intros (? & ? & ?)]|].
      rewrite <-El, <-(IH (set_cursor_book book c)) by done.
      destruct (cursor_outputs l _) as [c1 [o| |]]; cbn; naive_solver.
Qed.

Lemma cursor_window snapshot first rest id obs :
  identity (first :: rest) = Ok id → require_contiguous_frames (first :: rest) = Ok () → obs ≠ [] →
  materialize_depth_record_window snapshot (first :: rest) = Ok obs ↔
  ∃ c c', cursor_from_snapshot snapshot first = Ok c ∧ cursor_outputs (first :: rest) c = (c', Ok obs).
Proof.
  intros Hid Hc Hne. rewrite window_materialize_iff. unfold window_states, cursor_from_snapshot.
  rewrite Hid, Hc. cbn [mbind res_bind].
  destruct (identity_Ok _ _ Hid) as (Hall & f & r & [= <- <-] & ->). cbn [frame_identity fst snd].
  destruct (_ || _); cbn [reject mbind res_bind]; [split; [by intros (? & ? & ?)|by intros (? & ? & ? & ?)]|].
  unfold window_book. destruct (book_new _) as [b| |]; cbn [mbind res_bind];
    [|split; [by intros (? & ? & ?)|by intros (? & ? & ? & ?)]..].
  destruct (load_snapshot _ b) as [book [u| |]]; cbn [mbind res_bind];
    [|split; [by intros (? & ? & ?)|by intros (? & ? & ? & ?)]..].
  set (c0 := mkDepthCursor _ _ _ book false).
  pose proof (cursor_run (frame_identity (re_frame first)) c0 (first :: rest) obs eq_refl Hall) as Hiff. split.
  - intros (s & Hs & Eobs & _). destruct (proj2 Hiff) as [c' Hc']; [by exists s|]. by exists c0, c'.
  - intros (c & c' & [= <-] & Ho). destruct (proj1 Hiff) as (s & Hs & Eobs); [by exists c'|]. by exists s.
Qed.

Lemma cursor_outputs_app l1 l2 c c' obs :
  cursor_outputs (l1 ++ l2) c = (c', Ok obs) ↔
  ∃ c1 o1 o2, cursor_outputs l1 c = (c1, Ok o1) ∧ cursor_outputs l2 c1 = (c', Ok o2) ∧ obs = o1 ++ o2.
Proof.
  revert c obs. induction l1 as [|record l1 IH]; intros c obs; cbn [cursor_outputs app].
  { split; [intros H; by exists c, [], obs|]. intros (c1 & o1 & o2 & [= <- <-] & H & ->). done. }
  cbv [mbind SE_bind mret SE_ret]. destruct (cursor_apply_record record c) as [c0 [o| |]];
    [|by split; [|intros (? & ? & ? & ? & ?)]..].
  split.
  - destruct (cursor_outputs (l1 ++ l2) c0) as [c1 [rest| |]] eqn:E; [|done..]. intros [= -> <-].
    destruct (proj1 (IH c0 rest) E) as (c2 & o1 & o2 & -> & H & ->). exists c2, (option_list o ++ o1), o2.
    by rewrite app_assoc.
  - intros (c1 & o1 & o2 & H1 & H2 & ->). destruct (cursor_outputs l1 c0) as [c2 [o3| |]] eqn:E; [|done..].
    injection H1 as -> <-. rewrite (proj2 (IH c0 (o3 ++ o2))) by (by exists c1, o3, o2). by rewrite app_assoc.
Qed.

Lemma cursor_feed_outputs l c c' :
  cursor_feed l c = (c', Ok ()) → ∃ obs, cursor_outputs l c = (c', Ok obs).
Proof.
  revert c. induction l as [|record l IH]; intros c; cbn [cursor_feed cursor_outputs].
  { intros [= ->]. by exists []. }
  cbv [mbind SE_bind mret SE_ret]. destruct (cursor_apply_record record c) as [c0 [o| |]]; [|done..].
  intros [obs ->]%IH. by eexists.
Qed.

Lemma cursor_apply_live record c c' o :
  cursor_apply_record record c = (c', Ok o) →
  dc_live_started c' = dc_live_started c || bool_decide (is_Some o).
Proof.
  unfold cursor_apply_record. cbv [mbind SE_bind get lift mret SE_ret modify cursor_apply_depth].
  destruct (_ || _ || _); cbn [reject]; [done|]. destruct (server_shutdown_payload _) as [[|]| |]; [|..|done|done].
  { intros [= <- <-]. by rewrite orb_false_r. }
  destruct (depth_ids _) as [[first final]| |]; [|done..].
  destruct (apply_depth _ _) as [book [[|]|e|]]; [| |done|done].
  - intros [= <- <-]. by rewrite orb_true_r.
  - cbn [dc_live_started set_cursor_book]. destruct (dc_live_started c) eqn:E; cbn [reject]; [done|].
    by intros [= <- <-].
Qed.

Lemma cursor_outputs_live l c c' obs :
  cursor_outputs l c = (c', Ok obs) → dc_live_started c = false → dc_live_started c' = true → obs ≠ [].
Proof.
  revert c obs. induction l as [|record l IH]; intros c obs; cbn [cursor_outputs]; [intros [= -> <-]; congruence|].
  cbv [mbind SE_bind mret SE_ret]. destruct (cursor_apply_record record c) as [c0 [o| |]] eqn:Ea; [|done..].
  destruct (cursor_outputs l c0) as [c1 [rest| |]] eqn:Eo; [|done..]. intros [= -> <-] H0 H1.
  apply cursor_apply_live in Ea. destruct o as [o|]; [done|]. rewrite H0 in Ea. by apply (IH _ _ Eo Ea H1).
Qed.

Lemma contiguous_prefix l1 l2 :
  require_contiguous_frames (l1 ++ l2) = Ok () → require_contiguous_frames l1 = Ok ().
Proof.
  induction l1 as [|a [|b l1] IH]; [done|done|]. cbn [app require_contiguous_frames].
  intros (n & -> & H)%res_bind_Ok. apply res_bind_Ok in H as ([] & Hg & H). cbn [mbind res_bind].
  rewrite Hg. cbn [mbind res_bind]. by apply IH.
Qed.

Lemma identity_prefix first l1 l2 id :
  identity ((first :: l1) ++ l2) = Ok id → identity (first :: l1) = Ok id.
Proof.
  unfold identity. cbn [app head ok_or mbind res_bind]. rewrite app_comm_cons, existsb_app.
  destruct (existsb _ (first :: l1)); [done|]. by destruct (existsb _ l2).
Qed.

(** C13: A cursor recovered from a durable prefix of the raw log goes on exactly where
    the window left off: on further records [l] it emits [obs] if and only if the
    window of the whole log materialises as the prefix's observations followed by
    [obs]. Nothing is lost or repeated across the restart, and a prefix without an
    observation is never taken. *)
Theorem cursor_resumes_window snapshot_file depth_file offset c snapshot prefix l id obs :
  read_raw_records snapshot_file = Ok [snapshot] →
  read_raw_records_through_offset depth_file offset = Ok prefix →
  cursor_from_durable_prefix snapshot_file depth_file offset = Ok c →
  identity (prefix ++ l) = Ok id → require_contiguous_frames (prefix ++ l) = Ok () →
  (∃ c', cursor_outputs l c = (c', Ok obs)) ↔
  ∃ before, materialize_depth_record_window snapshot prefix = Ok before ∧
    materialize_depth_record_window snapshot (prefix ++ l) = Ok (before ++ obs).
Proof.
  intros Hs Hp H Hid Hc. unfold cursor_from_durable_prefix in H. rewrite Hs in H. cbn [mbind res_bind] in H.
  cbn [length Nat.eqb negb reject mbind res_bind] in H. rewrite Hp in H. cbn [mbind res_bind] in H.
  apply res_bind_Ok in H as (id' & Hid' & H). cbn [lookup list_lookup expect mbind res_bind] in H.
  apply res_bind_Ok in H as ([] & _ & H). apply res_bind_Ok in H as (first & Hf & H).
  apply res_bind_Ok in H as (c0 & Hc0 & H). destruct (cursor_feed prefix c0) as [c1 r] eqn:Hfeed.
  apply res_bind_Ok in H as ([] & -> & H). apply res_bind_Ok in H as ([] & Hlive%reject_Ok & [= <-]).
  apply negb_false_iff in Hlive. destruct prefix as [|first' rest]; [done|]. injection Hf as ->.
  destruct (cursor_feed_outputs _ _ _ Hfeed) as [before Hb].
  assert (before ≠ []) as Hne.
  { apply (cursor_outputs_live _ _ _ _ Hb); [|done]. unfold cursor_from_snapshot in Hc0.
    apply res_bind_Ok in Hc0 as ([] & _ & Hc0). apply res_bind_Ok in Hc0 as (bk & _ & Hc0).
    destruct (load_snapshot _ bk). apply res_bind_Ok in Hc0 as (? & _ & [= <-]). done. }
  pose proof (identity_prefix _ _ _ _ Hid) as Hid1. pose proof (contiguous_prefix _ _ Hc) as Hc1.
  assert (materialize_depth_record_window snapshot (first :: rest) = Ok before) as Hm.
  { apply (cursor_window _ _ _ _ _ Hid1 Hc1 Hne). by exists c0, c1. }
  assert (before ++ obs ≠ []) as Hne2 by (by destruct before).
  pose proof (cursor_window snapshot first (rest ++ l) _ _ Hid Hc Hne2) as Hiff. split.
  - intros [c' Ho]. exists before. split; [done|]. apply Hiff. exists c0, c'. split; [done|].
    change (first :: rest ++ l) with ((first :: rest) ++ l). apply cursor_outputs_app. by exists c1, before, obs.
  - intros (before' & Hm' & Hw). rewrite Hm in Hm'. injection Hm' as <-.
    destruct (proj1 Hiff Hw) as (c0' & c' & Hc0' & Ho). rewrite Hc0 in Hc0'. injection Hc0' as <-.
    change (first :: rest ++ l) with ((first :: rest) ++ l) in Ho.
    apply cursor_outputs_app in Ho as (c2 & o1 & o2 & H1 & H2 & E). rewrite Hb in H1. injection H1 as <- <-.
    apply app_inv_head in E as ->. by exists c'.
Qed.

(** *** Trades *)

(** The records of a window that are not a server's notice of shutdown. *)
Fixpoint trade_records (records : list RawRecordEnvelopeV1) : res (list RawRecordEnvelopeV1) :=
  match records with
  | [] => Ok []
  | record :: records =>
      shutdown ← server_shutdown_payload (rf_payload (re_frame record));
      rest ← trade_records records;
      Ok (if shutdown : bool then rest else record :: rest)
  end.

Lemma trade_fold id acc p l obs :
  Forall (λ r, frame_identity (re_frame r) = id) l →
  in_scope id.1.1 = true → str_ends_with id.1.2 "@trade" = true →
  (∃ p', try_fold (trade_window_turn id) (acc, p) l = Ok (obs, p')) ↔
  ∃ trades rest, trade_records l = Ok trades ∧ Forall2 (λ r o, materialize_trade_record r = Ok o) trades rest ∧
    obs = acc ++ rest ∧ StronglySorted Z.lt (option_list p ++ (co_final_sequence <$> rest)).
Proof.
  intros Hl Hsc Hend. revert acc p. induction Hl as [|record l Hr Hl IH]; intros acc p; cbn [try_fold trade_records].
  { split.
    - intros [p' [= <- <-]]. exists [], []. rewrite !app_nil_r. split_and!; [done|constructor|done|].
      destruct p; repeat constructor.
    - intros (trades & rest & [= <-] & ->%Forall2_nil_inv_l & -> & _). exists p. by rewrite app_nil_r. }
  set (F := try_fold (trade_window_turn id)) in *. unfold trade_window_turn.
  destruct (server_shutdown_payload _) as [[|]| |]; cbn [mbind res_bind];
    [| |by split; [intros [? ?]|intros (? & ? & ? & ?)]..].
  { rewrite IH. split; intros (trades & rest & H & H'); exists trades, rest.
    - by rewrite H. - by apply res_bind_Ok in H as (? & ? & [= <-]). }
  assert (materialize_trade_record record = ('(trade_id, digest) ← trade_observation_digest (rf_payload (re_frame record)) id.1.1;
    Ok (trade_observation id record trade_id digest))) as Hm.
  { unfold materialize_trade_record. subst id. cbn [frame_identity fst snd] in Hsc, Hend |- *. by rewrite Hsc, Hend. }
  unfold trade_turn. destruct (trade_observation_digest _ _) as [[trade_id digest]| |]; cbn [mbind res_bind] in *;
    [|split; [by intros [? ?]|intros (? & ? & (? & ? & [= <-])%res_bind_Ok & HF & _);
      apply Forall2_cons_inv_l in HF as (? & ? & ? & _); congruence]..].
  set (o := trade_observation id record trade_id digest) in *. cbn [snd fst].
  assert (∀ rest, StronglySorted Z.lt (option_list p ++ (co_final_sequence <$> o :: rest)) ↔
    (match p with Some previous => trade_id <=? previous | None => false end) = false ∧
    StronglySorted Z.lt (option_list (Some trade_id) ++ (co_final_sequence <$> rest))) as Hsort.
  { intros rest. rewrite fmap_cons. change (co_final_sequence o) with trade_id. cbn [option_list app].
    destruct p as [q|]; cbn [option_list app]; [|naive_solver]. split.
    - intros [Hs Hq]%StronglySorted_inv. split; [|done]. inversion Hq; subst. lia.
    - intros [Hq Hs]. constructor; [done|]. apply StronglySorted_inv in Hs as [_ Hs].
      constructor; [lia|]. eapply Forall_impl; [exact Hs|]. cbn. lia. }
  destruct (match p with Some previous => trade_id <=? previous | None => false end) eqn:Hg;
    cbn [reject mbind res_bind].
  { split; [by intros [? ?]|]. intros (? & rest & (? & ? & [= <-])%res_bind_Ok & HF & -> & Hs).
    apply Forall2_cons_inv_l in HF as (o' & rest' & Ho & _ & ->). rewrite Hm in Ho. injection Ho as <-.
    by apply Hsort in Hs as [? _]. }
  rewrite IH. split.
  - intros (trades & rest & -> & HF & -> & Hs). cbn [mbind res_bind]. exists (record :: trades), (o :: rest).
    split_and!; [done|by constructor|by rewrite <-app_assoc|]. by apply Hsort.
  - intros (? & rest & (trades & Ht & [= <-])%res_bind_Ok & HF & -> & Hs).
    apply Forall2_cons_inv_l in HF as (o' & rest' & Ho & HF & ->). rewrite Hm in Ho. injection Ho as <-.
    apply Hsort in Hs as [_ Hs]. exists trades, rest'. by rewrite <-app_assoc.
Qed.

(** A trade window materialises exactly when its records are one gapless stream of
    one in-scope symbol, every record but the shutdown notices materialises by itself,
    and the trade IDs strictly increase; the window's observations are then those of
    the single records, in order. *)
Theorem trade_window_exact records obs :
  materialize_trade_record_window records = Ok obs ↔
  ∃ id trades, identity records = Ok id ∧ require_contiguous_frames records = Ok () ∧
    in_scope id.1.1 = true ∧ str_ends_with id.1.2 "@trade" = true ∧
    trade_records records = Ok trades ∧ Forall2 (λ r o, materialize_trade_record r = Ok o) trades obs ∧
    StronglySorted Z.lt (co_final_sequence <$> obs).
Proof.
  unfold materialize_trade_record_window.
  destruct (identity records) as [id| |] eqn:Hid; cbn [mbind res_bind]; [|split; [done|by intros (? & ? & ? & _)]..].
  destruct (identity_Ok _ _ Hid) as [Hall _].
  destruct (require_contiguous_frames records) as [[]| |] eqn:Hc; cbn [mbind res_bind];
    [|split; [done|by intros (? & ? & _ & ? & _)]..].
  destruct (in_scope id.1.1) eqn:Hsc; cbn [negb orb]; [|split; [done|intros (? & ? & [= <-] & _ & ? & _); congruence]].
  destruct (str_ends_with id.1.2 "@trade") eqn:Hend; cbn [negb reject mbind res_bind];
    [|split; [done|intros (? & ? & [= <-] & _ & _ & ? & _); congruence]].
  pose proof (trade_fold id [] None records obs Hall Hsc Hend) as Hiff. cbn [option_list app] in Hiff. split.
  - intros ([obs' p'] & Hf & [= ->])%res_bind_Ok.
    destruct (proj1 Hiff (ex_intro _ p' Hf)) as (trades & rest & Ht & HF & -> & Hs). by exists id, trades.
  - intros (? & trades & [= <-] & _ & _ & _ & Ht & HF & Hs). destruct (proj2 Hiff) as [p' ->]; [|done].
    by exists trades, obs.
Qed.
End observation_theory.

(** ** A concrete pair of windows *)

Module ObservationDemo.
Export SessionDemo.
#[export] Existing Instance Json.serde_object.
#[export] Instance trade_serde : Serde CanonicalTradeEvent := {|
  to_vec e := inr (str_bytes (ce_symbol e ++ ce_price e ++ "@" ++ ce_quantity e ++ "#" ++ u_to_string (ce_trade_id e)));
  from_slice _ := inl "unused"
|}.

Definition records_in (log : bytes) : list RawRecordEnvelopeV1 :=
  match read_raw_records log with Ok l => l | _ => [] end.
Definition snapshot_log : bytes := Eval vm_compute in log_of "snapshot"
  ["{`lastUpdateId`:9,`bids`:[[`30`,`1`]],`asks`:[[`40`,`1`]]}"].
Definition depth_log : bytes := Eval vm_compute in log_of "btcusdt@depth"
  ["{`e`:`depthUpdate`,`s`:`BTCUSDT`,`U`:7,`u`:9,`b`:[],`a`:[]}";
   "{`e`:`depthUpdate`,`s`:`BTCUSDT`,`U`:10,`u`:12,`b`:[[`31`,`2`]],`a`:[]}";
   "{`e`:`depthUpdate`,`s`:`BTCUSDT`,`U`:13,`u`:13,`b`:[],`a`:[[`39`,`1`]]}"].
Definition successor_log : bytes := Eval vm_compute in log_of "btcusdt@depth"
  ["{`e`:`depthUpdate`,`s`:`BTCUSDT`,`U`:10,`u`:11,`b`:[[`31`,`1`]],`a`:[]}";
   "{`e`:`serverShutdown`,`E`:1}";
   "{`e`:`depthUpdate`,`s`:`BTCUSDT`,`U`:12,`u`:12,`b`:[[`31`,`2`]],`a`:[]}";
   "{`e`:`depthUpdate`,`s`:`BTCUSDT`,`U`:13,`u`:14,`b`:[],`a`:[]}"].
Definition trade_log : bytes := Eval vm_compute in log_of "btcusdt@trade"
  ["{`e`:`trade`,`s`:`BTCUSDT`,`E`:5,`T`:4,`t`:7,`p`:`30.5`,`q`:`1`,`M`:true,`m`:false}";
   "{`e`:`serverShutdown`,`E`:6}";
   "{`e`:`trade`,`s`:`BTCUSDT`,`E`:8,`T`:7,`t`:9,`p`:`30.6`,`q`:`2`,`M`:true,`m`:true}"].
Definition snapshot_record : RawRecordEnvelopeV1 :=
  Eval vm_compute in match records_in snapshot_log with r :: _ => r | [] => mkEnvelope 0 0 0 "" (mkRawFrame "" "" "" "" "" "" 0 0 0 [] "" "" None None "" "") end.
Definition predecessor_window : list RawRecordEnvelopeV1 := Eval vm_compute in records_in depth_log.
Definition successor_window : list RawRecordEnvelopeV1 := Eval vm_compute in records_in successor_log.
Definition trade_window : list RawRecordEnvelopeV1 := Eval vm_compute in records_in trade_log.
End ObservationDemo.

Section observation_witnesses.
Import ObservationDemo.

(** The replays part at update 14 and agree last at 12. *)
Lemma latest_convergence_exact_witness :
  match latest_depth_window_convergence snapshot_record predecessor_window successor_window with
  | Ok c => co_final_sequence (lc_predecessor_boundary c) = 12 ∧
            co_final_sequence (lc_successor_continuation c) = 14
  | _ => False
  end ∧
  ∃ sa sb, window_states snapshot_record predecessor_window = Ok sa ∧
    window_states snapshot_record successor_window = Ok sb ∧
    match latest_depth_window_convergence snapshot_record predecessor_window successor_window with
    | Ok c =>
        (∃ next, converges sa sb (lc_predecessor_boundary c) (lc_successor_boundary c) next ∧
           lc_successor_continuation c = without_digest next) ∧
        (∀ oa ob next, converges sa sb oa ob next →
           co_final_sequence ob ≤ co_final_sequence (lc_successor_boundary c))
    | Err _ => ∀ oa ob next, ¬ converges sa sb oa ob next
    | Panic => False
    end.
Proof.
  split; [vm_compute; done|].
  destruct (window_states snapshot_record predecessor_window) as [sa| |] eqn:Ea;
    [|vm_compute in Ea; discriminate..].
  destruct (window_states snapshot_record successor_window) as [sb| |] eqn:Eb;
    [|vm_compute in Eb; discriminate..].
  exists sa, sb. split_and!; [done|done|]. by apply latest_convergence_exact.
Defined.

Lemma depth_window_gapless_witness :
  ∃ obs, materialize_depth_record_window snapshot_record predecessor_window = Ok obs ∧
    co_final_sequence <$> obs = [12; 13] ∧
  ∃ book last books, window_book snapshot_record (rf_symbol (re_frame snapshot_record)) = Ok book ∧
    bk_last_update_id book = Some last ∧ length books = length obs ∧ obs ≠ [] ∧
    ∀ j o b previous, obs !! j = Some o → books !! j = Some b →
      (last :: (co_final_sequence <$> obs)) !! j = Some previous →
      co_first_sequence o ≤ previous + 1 ≤ co_final_sequence o ∧
      co_observation_sha256 o = state_digest b ∧ book_ok b ∧
      bk_last_update_id b = Some (co_final_sequence o) ∧ bk_symbol b = rf_symbol (re_frame snapshot_record).
Proof.
  destruct (materialize_depth_record_window snapshot_record predecessor_window) as [obs| |] eqn:E;
    [|vm_compute in E; discriminate..].
  exists obs. split_and!; [done| |by apply (depth_window_gapless _ predecessor_window)].
  vm_compute in E. injection E as <-. reflexivity.
Defined.

Lemma cursor_resumes_window_witness :
  ∃ c obs, cursor_from_durable_prefix snapshot_log depth_log
      (default 0 (re_end_offset <$> predecessor_window !! 1%nat)) = Ok c ∧
    co_final_sequence <$> obs = [13] ∧
    (∃ c', cursor_outputs (drop 2 predecessor_window) c = (c', Ok obs)) ∧
    ∃ before, materialize_depth_record_window snapshot_record (take 2 predecessor_window) = Ok before ∧
      materialize_depth_record_window snapshot_record (take 2 predecessor_window ++ drop 2 predecessor_window)
      = Ok (before ++ obs).
Proof.
  destruct (cursor_from_durable_prefix snapshot_log depth_log
    (default 0 (re_end_offset <$> predecessor_window !! 1%nat))) as [c| |] eqn:Ec;
    [|vm_compute in Ec; discriminate..].
  destruct (cursor_outputs (drop 2 predecessor_window) c) as [c' [obs| |]] eqn:Eo;
    [|vm_compute in Ec; injection Ec as <-; vm_compute in Eo; discriminate..].
  exists c, obs. split_and!; [done| |by exists c'|].
  - vm_compute in Ec. injection Ec as <-. vm_compute in Eo. injection Eo as <- <-. reflexivity.
  - apply (cursor_resumes_window snapshot_log depth_log
      (default 0 (re_end_offset <$> predecessor_window !! 1%nat)) c snapshot_record
      (take 2 predecessor_window) (drop 2 predecessor_window) ("BTCUSDT", "btcusdt@depth", "c1") obs);
      [vm_compute; reflexivity|vm_compute; reflexivity|done|vm_compute; reflexivity|vm_compute; reflexivity|].
    by exists c'.
Defined.

Lemma trade_window_exact_witness :
  ∃ obs, materialize_trade_record_window trade_window = Ok obs ∧ co_final_sequence <$> obs = [7; 9] ∧
  ∃ id trades, identity trade_window = Ok id ∧ require_contiguous_frames trade_window = Ok () ∧
    in_scope id.1.1 = true ∧ str_ends_with id.1.2 "@trade" = true ∧
    trade_records trade_window = Ok trades ∧ Forall2 (λ r o, materialize_trade_record r = Ok o) trades obs ∧
    StronglySorted Z.lt (co_final_sequence <$> obs).
Proof.
  destruct (materialize_trade_record_window trade_window) as [obs| |] eqn:E; [|vm_compute in E; discriminate..].
  exists obs. split_and!; [done| |by apply (proj1 (trade_window_exact trade_window obs))].
  vm_compute in E. injection E as <-. reflexivity.
Defined.
End observation_witnesses.
