(* ===== verification/MarketReplay.v ===== *)
(** * Replay of a sealed segment prefix (market_replay.rs)

    A failed capture run leaves a directory of sealed segments. The replay selects the
    segments up to an index, verifies them against their manifests, rebuilds the order
    book from the snapshot and the depth segments, validates the trade segments, and
    reports what it found with a digest over the report.

    The file system is a value: what opening a path reads, which paths are regular
    files that are not links, which are directories, and what [canonicalize] returns.
    A path is its text. *)

From stdpp Require Import base list strings option numbers sets gmap sorting.
From Stdlib Require Import ZArith Lia Ascii Strings.Byte Sorting.Sorted.
From S2P Require Import Prelude Decimal External OrderBook RawLog RawLogSafety Replay Boundary DurabilityProgress SegmentChain.
Local Open Scope Z_scope.

(** ** The file system and paths *)

Record world := mkWorld {
  w_files : files; w_regular : gset string; w_dirs : gset string; w_canonical : gmap string string
}.

Definition canonicalize (w : world) (path : string) : res string :=
  ok_or (w_canonical w !! path) ("resolve " ++ path).

(** The text behind the last [/] and the text in front of it. *)
Fixpoint split_last (l : chars) : chars * option chars :=
  match l with
  | [] => ([], None)
  | c :: l =>
      match split_last l with
      | (leaf, Some front) => (leaf, Some (c :: front))
      | (leaf, None) => if code c =? 47 then (leaf, Some []) else (c :: leaf, None)
      end
  end.
(** [Path::parent] and [Path::file_name] of an absolute path without dots or a trailing
    slash, as [canonicalize] returns it. *)
Definition path_parent (path : string) : option string :=
  match split_last (str_chars path) with
  | ([], _) => None
  | (_, Some []) => Some "/"
  | (_, Some front) => Some (str_of front)
  | (_, None) => Some ""
  end.
Definition path_file_name (path : string) : option string :=
  match split_last (str_chars path) with ([], _) => None | (leaf, _) => Some (str_of leaf) end.

Definition to_ascii_lowercase (s : string) : string :=
  str_of ((λ c, if (65 <=? code c) && (code c <=? 90) then ascii_of_Z (code c + 32) else c)
          <$> str_chars s).

(** ** Data *)

Definition DEVELOPMENT_USAGE : string := "DEVELOPMENT_ONLY_FAILED_PREFIX_NOT_PROMOTABLE".
Definition SPEC_REVISION : string := "976cc580553890e92031b77306147c0ed1de5a46".

Record ReplayPrefixSelectionV1 := mkPrefixSelection {
  ps_schema : string; ps_usage : string; ps_generation_directory : string;
  ps_through_segment_index : Z; ps_exclusion_reason : string
}.
Record ReplaySourceBindingV1 := mkSourceBinding {
  rb_source_run_id : string; rb_source_run_status : string; rb_source_campaign_id : string;
  rb_session_id : string; rb_symbol : string; rb_spec_revision : string;
  rb_launcher_terminal_sha256 : string; rb_campaign_bindings_sha256 : string; rb_startup_sha256 : string;
  rb_snapshot_raw_sha256 : string; rb_snapshot_record_sha256 : string; rb_snapshot_last_update_id : Z;
  rb_depth_manifest_sha256 : string; rb_depth_selected_manifest_record_sha256 : string;
  rb_trade_manifest_sha256 : string; rb_trade_selected_manifest_record_sha256 : string
}.
Record DepthReplayCheckpointV1 := mkDepthCheckpoint {
  dk_segment_index : Z; dk_terminal_record_sha256 : string; dk_last_frame_index : Z;
  dk_last_update_id : Z; dk_state_sha256 : string
}.
Record TradeReplayCheckpointV1 := mkTradeCheckpoint {
  tk_segment_index : Z; tk_terminal_record_sha256 : string; tk_last_frame_index : Z; tk_last_trade_id : Z
}.
Record DepthReplayV1 := mkDepthReplay {
  dr_connection_epoch : string; dr_stream : string; dr_selected_segments : Z;
  dr_excluded_manifest_segments : Z; dr_raw_records : Z; dr_control_records : Z; dr_old_records : Z;
  dr_applied_records : Z; dr_first_frame_index : Z; dr_last_frame_index : Z;
  dr_first_applied_frame_index : Z; dr_final_update_id : Z; dr_bid_levels : Z; dr_ask_levels : Z;
  dr_state_sha256 : string; dr_checkpoints : list DepthReplayCheckpointV1
}.
Record TradeReplayV1 := mkTradeReplay {
  tp_connection_epoch : string; tp_stream : string; tp_selected_segments : Z;
  tp_excluded_manifest_segments : Z; tp_raw_records : Z; tp_control_records : Z;
  tp_first_frame_index : Z; tp_last_frame_index : Z; tp_first_trade_id : Z; tp_last_trade_id : Z;
  tp_trade_ids_strictly_increasing : bool; tp_checkpoints : list TradeReplayCheckpointV1
}.
Record MarketReplayReportV1 := mkMarketReport {
  mr_schema : string; mr_usage : string; mr_qualification_claim : bool; mr_exclusion_reason : string;
  mr_selected_through_segment_index : Z; mr_source : ReplaySourceBindingV1; mr_depth : DepthReplayV1;
  mr_trades : TradeReplayV1; mr_cross_stream_total_order_available : bool;
  mr_economic_features : list string; mr_report_sha256 : string
}.
Record TransportIdentity := mkTransportIdentity {
  tr_symbol : string; tr_stream : string; tr_connection_epoch : string; tr_endpoint : string;
  tr_spec_revision : string
}.
Record FailedSourceIdentity := mkFailedSource {
  fi_run_id : string; fi_campaign_id : string; fi_launcher_terminal_sha256 : string;
  fi_campaign_bindings_sha256 : string
}.

Definition with_report_digest (digest : string) (r : MarketReplayReportV1) : MarketReplayReportV1 :=
  mkMarketReport (mr_schema r) (mr_usage r) (mr_qualification_claim r) (mr_exclusion_reason r)
    (mr_selected_through_segment_index r) (mr_source r) (mr_depth r) (mr_trades r)
    (mr_cross_stream_total_order_available r) (mr_economic_features r) digest.

Section market.
Context `{Hsha : Sha256} `{Hval : SerdeValue} `{Hb64 : Base64} `{Hmb : Serde ManifestBodyV1}.
Context `{Hreport : Serde MarketReplayReportV1}.

(** ** Files and fields *)

Definition require_regular_file (w : world) (path label : string) : res unit :=
  reject (negb (bool_decide (path ∈ w_regular w))) (label ++ " is not a regular non-link file").
Definition sha256_file (w : world) (path : string) : res string :=
  _ ← require_regular_file w path "hashed source";
  file ← open_file (w_files w) path;
  Ok (hex (sha256 file)).
Definition load_json (w : world) (path label : string) : res Value :=
  _ ← require_regular_file w path label;
  file ← open_file (w_files w) path;
  map_err ("invalid " ++ label ++ " JSON: ") (value_from_slice file).

Definition text (value : Value) (field label : string) : res string :=
  ok_or (s ← as_str (value_index value field); if String.eqb s "" then None else Some s)
    (label ++ "." ++ field ++ " must be non-empty text").
Definition u64_field (value : Value) (field label : string) : res Z :=
  ok_or (as_u64 (value_index value field)) (label ++ "." ++ field ++ " must be a non-negative integer").

(** [text(value, field, label)? != expected], which refuses with [msg] *)
Definition require_text (value : Value) (field label expected msg : string) : res unit :=
  t ← text value field label; reject (negb (String.eqb t expected)) msg.
Definition require_u64 (value : Value) (field label : string) (expected : Z) (msg : string) : res unit :=
  n ← u64_field value field label; reject (negb (n =? expected)) msg.

(** One row of the campaign bindings. *)
Definition binding_turn (w : world) (campaign_id symbol campaign : string) (matched : Z) (row : Value)
    : res Z :=
  row_campaign ← text row "campaign_id" "campaign binding";
  row_symbol ← text row "symbol" "campaign binding";
  directory ← text row "campaign_directory" "campaign binding";
  row_path ← canonicalize w directory;
  if String.eqb row_campaign campaign_id && String.eqb row_symbol symbol && String.eqb row_path campaign
  then add_u64 matched 1 else Ok matched.

Definition validate_failed_source (w : world) (generation symbol : string) : res FailedSourceIdentity :=
  generations ← ok_or (path_parent generation) "generation has no parent directory";
  _ ← reject (negb (bool_decide (path_file_name generations = Some "generations")))
        "generation is not below an exact generations directory";
  campaign ← ok_or (path_parent generations) "generation has no campaign directory";
  run ← ok_or (path_parent campaign) "generation has no qualification run directory";
  let terminal_path := path_join run "launcher-terminal.json" in
  terminal ← load_json w terminal_path "launcher terminal";
  run_id ← text terminal "run_id" "launcher terminal";
  campaign_id ← ok_or (path_file_name campaign) "campaign directory name is not UTF-8";
  let msg := "source qualification is not an exact failed production run" in
  _ ← require_text terminal "schema" "launcher terminal" "RawQualificationLauncherTerminalV2" msg;
  _ ← require_text terminal "status" "launcher terminal" "FAILED" msg;
  _ ← require_text terminal "mode" "launcher terminal" "Production" msg;
  _ ← require_text terminal "credentials" "launcher terminal" "NONE" msg;
  _ ← require_text terminal "order_entry" "launcher terminal" "ABSENT" msg;
  _ ← reject (negb (bool_decide (path_file_name run = Some run_id))) msg;
  run_root ← text terminal "run_root" "launcher terminal";
  terminal_run_root ← canonicalize w run_root;
  _ ← reject (negb (String.eqb terminal_run_root run))
        "launcher terminal run_root differs from selected source";
  let bindings_path := path_join run "campaign-bindings.json" in
  bindings_sha256 ← sha256_file w bindings_path;
  _ ← require_text terminal "campaign_bindings_sha256" "launcher terminal" bindings_sha256
        "launcher terminal does not bind campaign-bindings.json";
  bindings ← load_json w bindings_path "campaign bindings";
  let msg := "campaign bindings identity differs from failed run" in
  _ ← require_text bindings "schema" "campaign bindings" "RawQualificationCampaignBindingsV1" msg;
  _ ← require_text bindings "run_id" "campaign bindings" run_id msg;
  rows ← ok_or (as_array (value_index bindings "campaigns")) "campaign bindings.campaigns must be an array";
  matched ← try_fold (binding_turn w campaign_id symbol campaign) 0 rows;
  _ ← reject (negb (matched =? 1)) "selected generation is not bound exactly once by the failed run";
  launcher_terminal_sha256 ← sha256_file w terminal_path;
  Ok (mkFailedSource run_id campaign_id launcher_terminal_sha256 bindings_sha256).

Definition load_transport (w : world) (path expected_kind : string) (startup : Value)
    : res TransportIdentity :=
  value ← load_json w path "transport metadata";
  let msg := "transport metadata differs from startup identity" in
  _ ← require_text value "schema" "transport" "TransportMetadataV1" msg;
  session ← text value "session_id" "transport";
  _ ← require_text startup "session_id" "startup" session msg;
  index ← u64_field value "generation_index" "transport";
  _ ← require_u64 startup "generation_index" "startup" index msg;
  symbol ← text value "symbol" "transport";
  _ ← require_text startup "symbol" "startup" symbol msg;
  revision ← text value "spec_revision" "transport";
  _ ← require_text startup "spec_revision" "startup" revision msg;
  let connection := value_index value "connection" in
  let msg := "transport metadata does not describe the expected WebSocket" in
  _ ← require_text connection "stream" "transport.connection" expected_kind msg;
  _ ← require_u64 connection "websocket_http_status" "transport.connection" 101 msg;
  let stream := if String.eqb expected_kind "depth" then (to_ascii_lowercase symbol ++ "@depth@100ms")%string
                else (to_ascii_lowercase symbol ++ "@trade")%string in
  epoch ← text connection "connection_epoch" "transport.connection";
  uri ← text connection "uri" "transport.connection";
  Ok (mkTransportIdentity symbol stream epoch uri revision).

Definition validate_frame (frame : RawFrame) (expected : TransportIdentity) : res unit :=
  reject (negb (String.eqb (rf_venue frame) "binance-spot")
          || negb (String.eqb (rf_environment frame) "production-public-market-data")
          || negb (String.eqb (rf_symbol frame) (tr_symbol expected))
          || negb (String.eqb (rf_stream frame) (tr_stream expected))
          || negb (String.eqb (rf_connection_epoch frame) (tr_connection_epoch expected))
          || negb (String.eqb (rf_endpoint frame) (tr_endpoint expected))
          || negb (String.eqb (rf_spec_revision frame) (tr_spec_revision expected)))
    "raw frame identity differs from the selected transport".

Definition is_server_shutdown (value : Value) : res bool :=
  if negb (bool_decide (as_str (value_index value "e") = Some "serverShutdown")) then Ok false
  else _ ← u64_field value "E" "serverShutdown"; Ok true.

Definition selected_entries (entries : list RawSegmentManifestEntryV1) (through : Z) (label : string)
    : res (list RawSegmentManifestEntryV1) :=
  count ← ok_or (checked_add through 1) "selected segment index overflow";
  _ ← reject (len entries <? count) (label ++ " manifest cannot select through the segment");
  Ok (take (Z.to_nat count) entries).

(** ** Depth *)

(** What the loops over records keep: the counters of all records and the time of the
    last one. *)
Record stream_acc := mkStreamAcc { sa_raw : Z; sa_control : Z; sa_previous_mono : option Z }.

(** The checks in front of every record; the payload's value is returned. *)
Definition record_front (label : string) (expected : TransportIdentity) (sa : stream_acc)
    (record : RawRecordEnvelopeV1) : res (stream_acc * Value) :=
  let f := re_frame record in
  _ ← validate_frame f expected;
  _ ← reject (match sa_previous_mono sa with Some old => rf_receive_mono_ns f <? old | None => false end)
        (label ++ " receive monotonic time regressed");
  raw_records ← ok_or (checked_add (sa_raw sa) 1) (label ++ " record count overflow");
  value ← map_err ("invalid " ++ label ++ " payload JSON: ") (value_from_slice (rf_payload f));
  Ok (mkStreamAcc raw_records (sa_control sa) (Some (rf_receive_mono_ns f)), value).

Definition count_control (sa : stream_acc) : res stream_acc :=
  n ← add_u64 (sa_control sa) 1; Ok (mkStreamAcc (sa_raw sa) n (sa_previous_mono sa)).

Definition depth_record_turn (expected : TransportIdentity) (acc : stream_acc * depth_acc)
    (record : RawRecordEnvelopeV1) : res (stream_acc * depth_acc) :=
  '(sa, value) ← record_front "depth" expected acc.1 record;
  shutdown ← is_server_shutdown value;
  if shutdown : bool then sa ← count_control sa; Ok (sa, acc.2) else
  da ← depth_step acc.2 (re_frame record);
  Ok (sa, da).

(** The records of a verified segment, read again. *)
Definition reread_segment (w : world) (label : string) (artifact : VerifiedRawSegmentV1)
    : res (list RawRecordEnvelopeV1) :=
  _ ← require_regular_file w (vr_raw_path artifact) ("selected " ++ label ++ " segment");
  raw ← open_file (w_files w) (vr_raw_path artifact);
  records ← read_raw_segment_records raw (vr_genesis artifact);
  let seal := vr_seal artifact in
  _ ← reject (negb (len records =? sl_records seal)
              || negb (bool_decide (re_end_offset <$> last records = Some (sl_durable_through_offset seal)))
              || negb (bool_decide (re_record_sha256 <$> last records
                                    = Some (sl_terminal_record_sha256 seal))))
        (label ++ " segment changed after seal verification");
  Ok records.

Definition depth_segment_turn (w : world) (expected : TransportIdentity)
    (acc : stream_acc * depth_acc * list DepthReplayCheckpointV1) (artifact : VerifiedRawSegmentV1)
    : res (stream_acc * depth_acc * list DepthReplayCheckpointV1) :=
  records ← reread_segment w "depth" artifact;
  '(sa, da) ← try_fold (depth_record_turn expected) acc.1 records;
  let seal := vr_seal artifact in
  last_update_id ← ok_or (bk_last_update_id (da_book da)) "depth replay lost its update ID";
  Ok (sa, da, acc.2 ++ [mkDepthCheckpoint (sl_segment_index seal) (sl_terminal_record_sha256 seal)
                          (sl_last_frame_index seal) last_update_id (state_digest (da_book da))]).

Definition replay_depth (w : world) (generation : string) (through : Z) (snapshot_payload : bytes)
    (expected : TransportIdentity) : res (DepthReplayV1 * string * string) :=
  let directory := path_join generation "depth" in
  let manifest_path := path_join directory "segments.bnseg" in
  _ ← require_regular_file w manifest_path "depth segment manifest";
  scan ← scan_segment_manifest (w_files w) manifest_path;
  _ ← reject (negb (ms_clean_eof scan)) "depth manifest is incomplete";
  entries ← selected_entries (ms_entries scan) through "depth";
  verified ← verify_segment_manifest_prefix_files (w_files w) scan directory through;
  book ← book_new (tr_symbol expected);
  let '(book, r) := load_snapshot snapshot_payload book in
  _ ← r;
  '(sa, da, checkpoints) ←
    try_fold (depth_segment_turn w expected) (mkStreamAcc 0 0 None, mkDepthAcc book 0 0 None, []) verified;
  let book := da_book da in
  _ ← reject (negb (is_live book)) "selected depth prefix never reached LIVE";
  let '(bid_levels, ask_levels) := level_counts book in
  first ← expect (head entries);
  last ← expect (last entries);
  excluded ← sub_u64 (ms_records scan) (len entries);
  first_applied ← ok_or (da_first_applied da) "selected depth prefix applied no record";
  final_update_id ← ok_or (bk_last_update_id book) "depth replay has no final update ID";
  manifest_sha256 ← sha256_file w manifest_path;
  Ok (mkDepthReplay (tr_connection_epoch expected) (tr_stream expected) (len entries) excluded
        (sa_raw sa) (sa_control sa) (da_old da) (da_applied da) (sl_first_frame_index (me_seal first))
        (sl_last_frame_index (me_seal last)) first_applied final_update_id (Z.of_nat bid_levels)
        (Z.of_nat ask_levels)
        (state_digest book) checkpoints,
      manifest_sha256, me_manifest_record_sha256 last).

(** ** Trades *)

Definition trade_decimal (value : Value) (field : string) : res unit :=
  t ← text value field "trade";
  decimal ← decimal_parse t;
  reject (decimal_is_zero decimal || decimal_is_negative decimal) ("trade." ++ field ++ " must be positive").
Definition trade_boolean (value : Value) (field : string) : res unit :=
  reject (negb (bool_decide (is_Some (as_bool (value_index value field)))))
    ("trade." ++ field ++ " must be boolean").

(** The fields of a trade event; its ID is returned. *)
Definition trade_event (symbol : string) (value : Value) : res Z :=
  _ ← reject (negb (bool_decide (as_str (value_index value "e") = Some "trade"))
              || negb (bool_decide (as_str (value_index value "s") = Some symbol)))
        "unexpected trade event type or symbol";
  _ ← u64_field value "E" "trade";
  _ ← u64_field value "T" "trade";
  trade_id ← u64_field value "t" "trade";
  _ ← trade_decimal value "p";
  _ ← trade_decimal value "q";
  _ ← trade_boolean value "m";
  _ ← trade_boolean value "M";
  Ok trade_id.

(** [(first_trade_id, previous_trade_id)] beside the counters. *)
Definition trade_record_turn (expected : TransportIdentity) (acc : stream_acc * (option Z * option Z))
    (record : RawRecordEnvelopeV1) : res (stream_acc * (option Z * option Z)) :=
  '(sa, value) ← record_front "trade" expected acc.1 record;
  shutdown ← is_server_shutdown value;
  if shutdown : bool then sa ← count_control sa; Ok (sa, acc.2) else
  trade_id ← trade_event (tr_symbol expected) value;
  _ ← reject (match acc.2.2 with Some old => trade_id <=? old | None => false end)
        "trade ID duplicated or regressed";
  Ok (sa, (get_or_insert acc.2.1 trade_id, Some trade_id)).

Definition trade_segment_turn (w : world) (expected : TransportIdentity)
    (acc : stream_acc * (option Z * option Z) * list TradeReplayCheckpointV1)
    (artifact : VerifiedRawSegmentV1)
    : res (stream_acc * (option Z * option Z) * list TradeReplayCheckpointV1) :=
  records ← reread_segment w "trade" artifact;
  '(sa, ids) ← try_fold (trade_record_turn expected) acc.1 records;
  let seal := vr_seal artifact in
  last_trade_id ← ok_or ids.2 "selected trade prefix contains no trade event";
  Ok (sa, ids, acc.2 ++ [mkTradeCheckpoint (sl_segment_index seal) (sl_terminal_record_sha256 seal)
                           (sl_last_frame_index seal) last_trade_id]).

Definition replay_trades (w : world) (generation : string) (through : Z) (expected : TransportIdentity)
    : res (TradeReplayV1 * string * string) :=
  let directory := path_join generation "trade" in
  let manifest_path := path_join directory "segments.bnseg" in
  _ ← require_regular_file w manifest_path "trade segment manifest";
  scan ← scan_segment_manifest (w_files w) manifest_path;
  _ ← reject (negb (ms_clean_eof scan)) "trade manifest is incomplete";
  entries ← selected_entries (ms_entries scan) through "trade";
  verified ← verify_segment_manifest_prefix_files (w_files w) scan directory through;
  '(sa, ids, checkpoints) ←
    try_fold (trade_segment_turn w expected) (mkStreamAcc 0 0 None, (None, None), []) verified;
  first ← expect (head entries);
  last ← expect (last entries);
  excluded ← sub_u64 (ms_records scan) (len entries);
  first_trade_id ← ok_or ids.1 "selected trade prefix contains no trade event";
  last_trade_id ← ok_or ids.2 "selected trade prefix contains no trade event";
  manifest_sha256 ← sha256_file w manifest_path;
  Ok (mkTradeReplay (tr_connection_epoch expected) (tr_stream expected) (len entries) excluded
        (sa_raw sa) (sa_control sa) (sl_first_frame_index (me_seal first))
        (sl_last_frame_index (me_seal last)) first_trade_id last_trade_id true checkpoints,
      manifest_sha256, me_manifest_record_sha256 last).

(** ** The whole prefix *)

Definition replay_failed_generation_prefix (w : world) (selection : ReplayPrefixSelectionV1)
    : res MarketReplayReportV1 :=
  _ ← reject (negb (String.eqb (ps_schema selection) "ReplayPrefixSelectionV1")
              || negb (String.eqb (ps_usage selection) DEVELOPMENT_USAGE)
              || is_blank (ps_exclusion_reason selection))
        "invalid development-only replay prefix selection";
  generation ← canonicalize w (ps_generation_directory selection);
  _ ← reject (negb (bool_decide (generation ∈ w_dirs w))) "generation path is not a directory";
  let startup_path := path_join generation "startup.json" in
  startup ← load_json w startup_path "generation startup";
  let msg := "generation startup is outside replay scope" in
  _ ← require_text startup "schema" "startup" "RawGenerationStartupV1" msg;
  _ ← require_text startup "implementation" "startup" "rust-segmented" msg;
  _ ← require_text startup "spec_revision" "startup" SPEC_REVISION msg;
  _ ← require_text startup "credentials" "startup" "NONE" msg;
  _ ← require_text startup "order_entry" "startup" "ABSENT" msg;
  symbol ← text startup "symbol" "startup";
  _ ← reject (negb (in_scope symbol)) "generation symbol is outside replay scope";
  failed_source ← validate_failed_source w generation symbol;
  depth_identity ← load_transport w (path_join generation "transport-depth.json") "depth" startup;
  trade_identity ← load_transport w (path_join generation "transport-trade.json") "trade" startup;
  let snapshot_path := path_join generation "snapshot.bnraw" in
  snapshot_file ← open_file (w_files w) snapshot_path;
  snapshots ← read_raw_records snapshot_file;
  _ ← reject (negb (length snapshots =? 1)%nat) "replay requires exactly one durable snapshot record";
  snapshot ← expect (snapshots !! 0%nat);
  let f := re_frame snapshot in
  meta ← load_json w (path_join generation "snapshot-http.json") "snapshot HTTP metadata";
  endpoint ← text meta "endpoint" "snapshot metadata";
  let msg := "snapshot evidence is not bound to the selected generation" in
  _ ← require_text meta "schema" "snapshot metadata" "SnapshotHttpMetadataV1" msg;
  _ ← require_u64 meta "http_status" "snapshot metadata" 200 msg;
  _ ← reject (negb (bool_decide (as_bool (value_index meta "body_complete") = Some true))) msg;
  _ ← require_text meta "raw_file" "snapshot metadata" "snapshot.bnraw" msg;
  _ ← require_text meta "raw_record_sha256" "snapshot metadata" (re_record_sha256 snapshot) msg;
  _ ← reject (negb (String.eqb (rf_symbol f) symbol)
              || negb (String.eqb (rf_stream f) (to_ascii_lowercase symbol ++ "@rest-depth-snapshot"))
              || negb (String.eqb (rf_endpoint f) endpoint)
              || negb (String.eqb (rf_spec_revision f) SPEC_REVISION)) msg;
  _ ← require_u64 meta "body_length" "snapshot metadata" (len (rf_payload f)) msg;
  _ ← require_text meta "body_sha256" "snapshot metadata" (hex (sha256 (rf_payload f))) msg;
  snapshot_value ← map_err "invalid snapshot payload JSON: " (value_from_slice (rf_payload f));
  snapshot_last_update_id ← u64_field snapshot_value "lastUpdateId" "snapshot";
  '(depth, depth_manifest_sha256, depth_record_sha256) ←
    replay_depth w generation (ps_through_segment_index selection) (rf_payload f) depth_identity;
  '(trades, trade_manifest_sha256, trade_record_sha256) ←
    replay_trades w generation (ps_through_segment_index selection) trade_identity;
  session_id ← text startup "session_id" "startup";
  startup_sha256 ← sha256_file w startup_path;
  snapshot_raw_sha256 ← sha256_file w snapshot_path;
  let source := mkSourceBinding (fi_run_id failed_source) "FAILED" (fi_campaign_id failed_source)
    session_id symbol SPEC_REVISION (fi_launcher_terminal_sha256 failed_source)
    (fi_campaign_bindings_sha256 failed_source) startup_sha256 snapshot_raw_sha256
    (re_record_sha256 snapshot) snapshot_last_update_id depth_manifest_sha256 depth_record_sha256
    trade_manifest_sha256 trade_record_sha256 in
  let report := mkMarketReport "MarketReplayReportV1" DEVELOPMENT_USAGE false
    (ps_exclusion_reason selection) (ps_through_segment_index selection) source depth trades false [] "" in
  encoded ← map_err "serialize replay report digest material: " (to_vec report);
  Ok (with_report_digest (hex (sha256 encoded)) report).
End market.

(** ** Theory *)

Section market_theory.
Context `{Hsha : Sha256} `{Hval : SerdeValue} `{Hb64 : Base64} `{Hmb : Serde ManifestBodyV1}.
Context `{Hreport : Serde MarketReplayReportV1} `{!SerdeValueLaws Hval} `{!Sha256Laws Hsha}.

(** A frame that is not a server's notice of shutdown. *)
Definition is_data (f : RawFrame) : bool :=
  match value_from_slice (rf_payload f) with
  | inr v => negb (bool_decide (as_str (value_index v "e") = Some "serverShutdown"))
  | inl _ => false
  end.
Definition data_frames (l : list RawRecordEnvelopeV1) : list RawFrame :=
  List.filter is_data (re_frame <$> l).

(** Records of the expected transport whose times never go back behind [previous]. *)
Definition stream_ok (expected : TransportIdentity) (previous : option Z) (l : list RawRecordEnvelopeV1)
    : Prop :=
  Forall (λ r, validate_frame (re_frame r) expected = Ok ()) l ∧
  StronglySorted Z.le (option_list previous ++ ((λ r, rf_receive_mono_ns (re_frame r)) <$> l)).

Lemma stream_ok_nil expected previous : stream_ok expected previous [].
Proof. split; [constructor|]. destruct previous; repeat constructor. Qed.

Lemma record_front_Ok label expected sa r sa' v :
  record_front label expected sa r = Ok (sa', v) →
  value_from_slice (rf_payload (re_frame r)) = inr v ∧ sa_raw sa' = sa_raw sa + 1 ∧
  sa_control sa' = sa_control sa ∧
  ∀ l, stream_ok expected (sa_previous_mono sa') l → stream_ok expected (sa_previous_mono sa) (r :: l).
Proof.
  unfold record_front. intros ([] & Hv & H)%res_bind_Ok. apply res_bind_Ok in H as ([] & Hm%reject_Ok & H).
  apply res_bind_Ok in H as (n & Hn%ok_or_Ok & H). apply checked_add_Some in Hn as [_ ->].
  apply res_bind_Ok in H as (v' & Hv'%map_err_Ok & [= <- <-]). cbn [sa_raw sa_control sa_previous_mono].
  split_and!; try done. intros l [Hf Hs]. split; [by constructor|]. rewrite fmap_cons.
  destruct (sa_previous_mono sa) as [old|]; cbn [option_list app] in *; [|done].
  constructor; [done|]. apply StronglySorted_inv in Hs as [_ Hs]. constructor; [lia|].
  eapply Forall_impl; [exact Hs|]. cbn. lia.
Qed.

Lemma is_server_shutdown_Ok r v b :
  value_from_slice (rf_payload (re_frame r)) = inr v → is_server_shutdown v = Ok b → is_data (re_frame r) = negb b.
Proof.
  unfold is_server_shutdown, is_data. intros ->. destruct (negb _) eqn:E; [by intros [= <-]|].
  by intros (? & _ & [= <-])%res_bind_Ok.
Qed.

Lemma count_control_Ok sa sa' :
  count_control sa = Ok sa' → sa_raw sa' = sa_raw sa ∧ sa_control sa' = sa_control sa + 1 ∧
    sa_previous_mono sa' = sa_previous_mono sa.
Proof. unfold count_control. intros (n & [_ ->]%add_u64_Ok & [= <-])%res_bind_Ok. done. Qed.

(** Both loops over records: what they count and which frames reach the stream's own
    state, of type [A], through [step]. *)
Lemma records_inv {A} (label : string) expected (turn : stream_acc * A → RawRecordEnvelopeV1 → res (stream_acc * A))
    (step : A → RawFrame → res A) :
  (∀ sa a r, turn (sa, a) r = ('(sa, value) ← record_front label expected sa r;
     shutdown ← is_server_shutdown value;
     if shutdown : bool then sa ← count_control sa; Ok (sa, a) else a ← step a (re_frame r); Ok (sa, a))) →
  ∀ l sa a sa' a', try_fold turn (sa, a) l = Ok (sa', a') →
    try_fold step a (data_frames l) = Ok a' ∧ stream_ok expected (sa_previous_mono sa) l ∧
    sa_raw sa' = sa_raw sa + len l ∧
    sa_control sa' - sa_control sa + len (data_frames l) = len l.
Proof.
  intros Hturn l. induction l as [|r l IH]; intros sa a sa' a'; cbn [try_fold].
  { intros [= <- <-]. split_and!; [done|apply stream_ok_nil|..]; change (len (@nil RawRecordEnvelopeV1)) with 0;
      change (len (data_frames [])) with 0; lia. }
  set (F := try_fold turn) in *. rewrite Hturn. intros ([sa1 a1] & H & Hrest)%res_bind_Ok.
  apply res_bind_Ok in H as ([sa2 v] & Hf & H).
  destruct (record_front_Ok _ _ _ _ _ _ Hf) as (Hv & Hraw & Hc & Hok).
  apply res_bind_Ok in H as (b & Hb & H). pose proof (is_server_shutdown_Ok _ _ _ Hv Hb) as Hd.
  rewrite len_cons. unfold data_frames in *. rewrite fmap_cons. cbn [List.filter]. rewrite Hd.
  destruct b; cbn [negb] in *.
  - apply res_bind_Ok in H as (sa3 & (Er & Ec & Em)%count_control_Ok & [= -> ->]).
    destruct (IH _ _ _ _ Hrest) as (H1 & H2 & H3 & H4). rewrite Em in H2. split_and!; [done|by apply Hok|lia|lia].
  - apply res_bind_Ok in H as (a2 & Ha & [= -> ->]).
    destruct (IH _ _ _ _ Hrest) as (H1 & H2 & H3 & H4). rewrite len_cons.
    split_and!; [by cbn [try_fold]; rewrite Ha|by apply Hok|lia|lia].
Qed.

Lemma depth_records_inv expected l sa da sa' da' :
  try_fold (depth_record_turn expected) (sa, da) l = Ok (sa', da') →
  try_fold depth_step da (data_frames l) = Ok da' ∧ stream_ok expected (sa_previous_mono sa) l ∧
  sa_raw sa' = sa_raw sa + len l ∧ sa_control sa' - sa_control sa + len (data_frames l) = len l.
Proof. apply (records_inv "depth"). done. Qed.

(** The trade of a frame, and the pair of IDs it updates. *)
Definition trade_of_frame (symbol : string) (f : RawFrame) : res Z :=
  value ← map_err "" (value_from_slice (rf_payload f)); trade_event symbol value.
Definition id_step (id_of : RawFrame → res Z) (ids : option Z * option Z) (f : RawFrame) : res (option Z * option Z) :=
  trade_id ← id_of f;
  _ ← reject (match ids.2 with Some old => trade_id <=? old | None => false end) "trade ID duplicated or regressed";
  Ok (get_or_insert ids.1 trade_id, Some trade_id).
Definition trade_id_step (symbol : string) : option Z * option Z → RawFrame → res (option Z * option Z) :=
  id_step (trade_of_frame symbol).

Lemma trade_records_inv expected l sa ids sa' ids' :
  try_fold (trade_record_turn expected) (sa, ids) l = Ok (sa', ids') →
  try_fold (trade_id_step (tr_symbol expected)) ids (data_frames l) = Ok ids' ∧
  stream_ok expected (sa_previous_mono sa) l ∧
  sa_raw sa' = sa_raw sa + len l ∧ sa_control sa' - sa_control sa + len (data_frames l) = len l.
Proof.
  apply (records_inv "trade"). intros sa0 a r. unfold trade_record_turn. cbn [fst snd].
  destruct (record_front _ _ _ _) as [[sa1 v]| |] eqn:Hf; cbn [mbind res_bind]; [|done..].
  destruct (record_front_Ok _ _ _ _ _ _ Hf) as (Hv & _). destruct (is_server_shutdown v) as [[|]| |];
    cbn [mbind res_bind]; [done| |done..].
  unfold trade_id_step, id_step, trade_of_frame. rewrite Hv. cbn [map_err mbind res_bind].
  destruct (trade_event _ v); cbn [mbind res_bind]; [|done..].
  destruct (reject _ _); done.
Qed.

Lemma ids_inv (id_of : RawFrame → res Z) l ids ids' :
  try_fold (id_step id_of) ids l = Ok ids' →
  ∃ ts, Forall2 (λ f t, id_of f = Ok t) l ts ∧
    StronglySorted Z.lt (option_list ids.2 ++ ts) ∧
    ids' = (match ids.1 with Some i => Some i | None => head ts end, match last ts with Some i => Some i | None => ids.2 end).
Proof.
  revert ids. induction l as [|f l IH]; intros [i p]; cbn [try_fold fst snd].
  { intros [= <-]. exists []. split_and!; [constructor| |by destruct i]. destruct p; repeat constructor. }
  set (F := try_fold (id_step id_of)) in *. unfold id_step at 1. cbn [fst snd].
  intros (ids1 & (t & Ht & H)%res_bind_Ok & Hrest)%res_bind_Ok.
  apply res_bind_Ok in H as ([] & Hg%reject_Ok & [= <-]).
  destruct (IH _ Hrest) as (ts & HF & Hs & ->). cbn [fst snd option_list app] in *.
  exists (t :: ts). split_and!; [by constructor| |].
  - destruct p as [q|]; cbn [option_list app]; [|done]. constructor; [done|].
    apply StronglySorted_inv in Hs as [_ Hs]. constructor; [lia|]. eapply Forall_impl; [exact Hs|]. cbn. lia.
  - destruct i; cbn [get_or_insert head]; f_equal; rewrite last_cons; by destruct (last ts).
Qed.

(** *** Segments *)

(** Both loops over segments: the records of the segments in order, and the
    checkpoints, each behind the segments up to its own. *)
Lemma segments_inv {A K} (label : string) w (step : A → RawRecordEnvelopeV1 → res A)
    (check : VerifiedRawSegmentV1 → A → option K) (turn : A * list K → VerifiedRawSegmentV1 → res (A * list K)) :
  (∀ a ks v a' ks', turn (a, ks) v = Ok (a', ks') →
     ∃ rs k, reread_segment w label v = Ok rs ∧ try_fold step a rs = Ok a' ∧ check v a' = Some k ∧ ks' = ks ++ [k]) →
  ∀ vs a ks a' ks', try_fold turn (a, ks) vs = Ok (a', ks') →
  ∃ rss new, Forall2 (λ v rs, reread_segment w label v = Ok rs) vs rss ∧
    try_fold step a (concat rss) = Ok a' ∧ ks' = ks ++ new ∧ length new = length vs ∧
    ∀ j k, new !! j = Some k → ∃ v a1, vs !! j = Some v ∧
      try_fold step a (concat (take (S j) rss)) = Ok a1 ∧ check v a1 = Some k.
Proof.
  intros Hturn vs. induction vs as [|v vs IH]; intros a ks a' ks'; cbn [try_fold].
  { intros [= <- <-]. exists [], []. rewrite app_nil_r. split_and!; try done; constructor. }
  intros ([a1 ks1] & Ht & Hrest)%res_bind_Ok. destruct (Hturn _ _ _ _ _ Ht) as (rs & k & Hr & Hs & Hk & ->).
  destruct (IH _ _ _ _ Hrest) as (rss & new & HF & Hf & -> & Hl & Hn). exists (rs :: rss), (k :: new).
  split_and!; [by constructor| |by rewrite <-app_assoc|cbn; by rewrite Hl|].
  - cbn [concat]. rewrite try_fold_app, Hs. done.
  - intros [|j] k' Hj; cbn in Hj.
    + injection Hj as <-. exists v, a1. split_and!; try done. cbn [take concat]. by rewrite app_nil_r.
    + destruct (Hn j k' Hj) as (v' & a2 & Hv & Hf' & Hk'). exists v', a2. split_and!; try done.
      cbn [take concat]. by rewrite try_fold_app, Hs.
Qed.

Definition depth_check (v : VerifiedRawSegmentV1) (a : stream_acc * depth_acc) : option DepthReplayCheckpointV1 :=
  u ← bk_last_update_id (da_book a.2);
  Some (mkDepthCheckpoint (sl_segment_index (vr_seal v)) (sl_terminal_record_sha256 (vr_seal v))
          (sl_last_frame_index (vr_seal v)) u (state_digest (da_book a.2))).
Definition trade_check (v : VerifiedRawSegmentV1) (a : stream_acc * (option Z * option Z))
    : option TradeReplayCheckpointV1 :=
  t ← a.2.2;
  Some (mkTradeCheckpoint (sl_segment_index (vr_seal v)) (sl_terminal_record_sha256 (vr_seal v))
          (sl_last_frame_index (vr_seal v)) t).

Lemma depth_segments_inv w expected vs a ks a' ks' :
  try_fold (depth_segment_turn w expected) (a, ks) vs = Ok (a', ks') →
  ∃ rss new, Forall2 (λ v rs, reread_segment w "depth" v = Ok rs) vs rss ∧
    try_fold (depth_record_turn expected) a (concat rss) = Ok a' ∧ ks' = ks ++ new ∧ length new = length vs ∧
    ∀ j k, new !! j = Some k → ∃ v a1, vs !! j = Some v ∧
      try_fold (depth_record_turn expected) a (concat (take (S j) rss)) = Ok a1 ∧ depth_check v a1 = Some k.
Proof.
  apply segments_inv. intros a0 ks0 v a1 ks1. unfold depth_segment_turn. cbn [fst snd].
  intros (rs & Hr & ([sa da] & Hf & H)%res_bind_Ok)%res_bind_Ok.
  apply res_bind_Ok in H as (u & Hu%ok_or_Ok & [= <- <-]). eexists rs, _. split_and!; [done|done| |done].
  unfold depth_check. cbn [snd]. rewrite Hu. done.
Qed.
Lemma trade_segments_inv w expected vs a ks a' ks' :
  try_fold (trade_segment_turn w expected) (a, ks) vs = Ok (a', ks') →
  ∃ rss new, Forall2 (λ v rs, reread_segment w "trade" v = Ok rs) vs rss ∧
    try_fold (trade_record_turn expected) a (concat rss) = Ok a' ∧ ks' = ks ++ new ∧ length new = length vs ∧
    ∀ j k, new !! j = Some k → ∃ v a1, vs !! j = Some v ∧
      try_fold (trade_record_turn expected) a (concat (take (S j) rss)) = Ok a1 ∧ trade_check v a1 = Some k.
Proof.
  apply segments_inv. intros a0 ks0 v a1 ks1. unfold trade_segment_turn. cbn [fst snd].
  intros (rs & Hr & ([sa ids] & Hf & H)%res_bind_Ok)%res_bind_Ok.
  apply res_bind_Ok in H as (t & Ht%ok_or_Ok & [= <- <-]). eexists rs, _. split_and!; [done|done| |done].
  unfold trade_check. cbn [snd]. rewrite Ht. done.
Qed.

(** *** The selected segments *)

(** The records of the selected segments: the first [through + 1] segments of the
    manifest, whose files hold exactly these records. *)
Definition selection_holds (w : world) (directory : string) (through : Z)
    (rss : list (list RawRecordEnvelopeV1)) : Prop :=
  ∃ scan vs, scan_segment_manifest (w_files w) (path_join directory "segments.bnseg") = Ok scan ∧
    vr_seal <$> vs = take (Z.to_nat (through + 1)) (me_seal <$> ms_entries scan) ∧
    len rss = through + 1 ∧ Forall2 (segment_holds (w_files w)) vs rss ∧
    frame_indexes (concat rss) = seqZ 0 (len (concat rss)).

Lemma reread_holds w label vs rss rss' :
  Forall2 (λ v rs, reread_segment w label v = Ok rs) vs rss →
  Forall2 (segment_holds (w_files w)) vs rss' → rss = rss'.
Proof.
  intros H. revert rss'. induction H as [|v rs vs rss Hr _ IH]; intros rss' H'.
  { by apply Forall2_nil_inv_l in H' as ->. }
  apply Forall2_cons_inv_l in H' as (rs' & rss'' & Hh & H' & ->). f_equal; [|by apply IH].
  destruct Hh as ((raw & Hraw & Hread & _) & _). unfold reread_segment, open_file in Hr.
  apply res_bind_Ok in Hr as ([] & _ & Hr). rewrite Hraw in Hr. cbn [ok_or mbind res_bind] in Hr.
  rewrite Hread in Hr. cbn [mbind res_bind] in Hr. apply res_bind_Ok in Hr as ([] & _ & Hr). by injection Hr.
Qed.

Lemma verify_prefix_inv fs scan directory through vs :
  0 ≤ through → verify_segment_manifest_prefix_files fs scan directory through = Ok vs →
  Forall2 (λ e v, verify_manifest_entry fs directory e = Ok v)
    (take (Z.to_nat (through + 1)) (ms_entries scan)) vs ∧
  len vs = through + 1.
Proof.
  intros H0 H. unfold verify_segment_manifest_prefix_files in H.
  apply res_bind_Ok in H as ([] & _ & H). apply res_bind_Ok in H as (cur & _ & H).
  apply res_bind_Ok in H as ([] & _ & H). apply res_bind_Ok in H as (n & Hn%ok_or_Ok & H).
  apply checked_add_Some in Hn as [_ ->]. apply res_bind_Ok in H as ([] & Hle%reject_Ok & H).
  apply try_map_Ok_Forall2 in H. split; [done|].
  apply Forall2_length in H. rewrite length_take in H. unfold len in *. lia.
Qed.

Lemma verified_selection w label scan directory through vs rss :
  map_Forall (λ _ f, len f ≤ u64_max) (w_files w) → 0 ≤ through →
  scan_segment_manifest (w_files w) (path_join directory "segments.bnseg") = Ok scan →
  verify_segment_manifest_prefix_files (w_files w) scan directory through = Ok vs →
  Forall2 (λ v rs, reread_segment w label v = Ok rs) vs rss → selection_holds w directory through rss.
Proof.
  intros Hsz H0 Hsc Hv Hr. destruct (verify_prefix_inv _ _ _ _ _ H0 Hv) as [HF Hl].
  destruct (segments_contiguous (w_files w) scan directory vs Hsz (or_intror (ex_intro _ through Hv)))
    as (rss' & Hh & Hidx & _ & _).
  pose proof (reread_holds _ _ _ _ _ Hr Hh) as <-.
  exists scan, vs. split_and!; try done.
  - rewrite <-fmap_take. clear -HF. induction HF as [|e v l k H _ IH]; [done|]. rewrite !fmap_cons, IH. f_equal.
    unfold verify_manifest_entry in H. apply res_bind_Ok in H as (a & _ & H).
    apply res_bind_Ok in H as ([] & Hg%reject_Ok & [= <-]). apply negb_false_iff, bool_decide_eq_true in Hg. done.
  - unfold len in *. by rewrite <-(Forall2_length _ _ _ Hr).
Qed.

(** *** What a replay reports *)

Definition depth_prefix_exact (w : world) (generation : string) (through : Z) (payload : bytes)
    (expected : TransportIdentity) (d : DepthReplayV1) : Prop :=
  ∃ b b0 last rss ids st book, selection_holds w (path_join generation "depth") through rss ∧
    book_new (tr_symbol expected) = Ok b ∧ load_snapshot payload b = (b0, Ok last) ∧
    stream_ok expected None (concat rss) ∧ dr_selected_segments d = through + 1 ∧
    dr_raw_records d = len (concat rss) ∧
    dr_raw_records d = dr_control_records d + dr_old_records d + dr_applied_records d ∧
    Forall2 (λ f i, update_ids f = Some i) (data_frames (concat rss)) ids ∧
    follow last ids = Some (dr_final_update_id d, dr_applied_records d, dr_old_records d) ∧
    (∀ n, last < n ≤ dr_final_update_id d → ∃ i, i ∈ ids ∧ i.1 ≤ n ≤ i.2) ∧
    spec_replay (mkSpec last (side_map (bk_bids b0)) (side_map (bk_asks b0))) (data_frames (concat rss))
    = Some st ∧ represents book st ∧ dr_state_sha256 d = state_digest book.

Definition trade_prefix_exact (w : world) (generation : string) (through : Z)
    (expected : TransportIdentity) (t : TradeReplayV1) : Prop :=
  ∃ rss ids, selection_holds w (path_join generation "trade") through rss ∧
    stream_ok expected None (concat rss) ∧ tp_selected_segments t = through + 1 ∧
    tp_raw_records t = len (concat rss) ∧ tp_raw_records t = tp_control_records t + len ids ∧
    Forall2 (λ f i, trade_of_frame (tr_symbol expected) f = Ok i) (data_frames (concat rss)) ids ∧
    StronglySorted Z.lt ids ∧ head ids = Some (tp_first_trade_id t) ∧ last ids = Some (tp_last_trade_id t).

Lemma selected_entries_Ok entries through label l :
  0 ≤ through → selected_entries entries through label = Ok l →
  len l = through + 1.
Proof.
  intros H0 H. unfold selected_entries in H. apply res_bind_Ok in H as (n & Hn%ok_or_Ok & H).
  apply checked_add_Some in Hn as [_ ->]. apply res_bind_Ok in H as ([] & Hle%reject_Ok & [= <-]).
  unfold len in *. rewrite length_take. lia.
Qed.

Lemma replay_depth_inv w generation through payload expected d m r :
  replay_depth w generation through payload expected = Ok (d, m, r) →
  ∃ scan entries vs b b0 last sa da,
    scan_segment_manifest (w_files w) (path_join (path_join generation "depth") "segments.bnseg") = Ok scan ∧
    selected_entries (ms_entries scan) through "depth" = Ok entries ∧
    verify_segment_manifest_prefix_files (w_files w) scan (path_join generation "depth") through = Ok vs ∧
    book_new (tr_symbol expected) = Ok b ∧ load_snapshot payload b = (b0, Ok last) ∧
    try_fold (depth_segment_turn w expected) (mkStreamAcc 0 0 None, mkDepthAcc b0 0 0 None, []) vs
    = Ok (sa, da, dr_checkpoints d) ∧
    dr_selected_segments d = len entries ∧ dr_raw_records d = sa_raw sa ∧ dr_control_records d = sa_control sa ∧
    dr_old_records d = da_old da ∧ dr_applied_records d = da_applied da ∧
    bk_last_update_id (da_book da) = Some (dr_final_update_id d) ∧ dr_state_sha256 d = state_digest (da_book da).
Proof.
  unfold replay_depth. intros H. apply res_bind_Ok in H as ([] & _ & H).
  apply res_bind_Ok in H as (scan & Hscan & H). apply res_bind_Ok in H as ([] & _ & H).
  apply res_bind_Ok in H as (entries & He & H). apply res_bind_Ok in H as (vs & Hvs & H).
  apply res_bind_Ok in H as (b & Hb & H). destruct (load_snapshot payload b) as [b0 rr] eqn:Hl.
  apply res_bind_Ok in H as (last & -> & H). apply res_bind_Ok in H as ([[sa da] ks] & Hf & H).
  apply res_bind_Ok in H as ([] & _ & H). destruct (level_counts (da_book da)) as [nb na].
  apply res_bind_Ok in H as (fe & _ & H). apply res_bind_Ok in H as (le & _ & H).
  apply res_bind_Ok in H as (ex & _ & H). apply res_bind_Ok in H as (fa & _ & H).
  apply res_bind_Ok in H as (fin & Hfin%ok_or_Ok & H). apply res_bind_Ok in H as (ms & _ & [= <- <- <-]).
  exists scan, entries, vs, b, b0, last, sa, da. done.
Qed.

Lemma replay_depth_exact w generation through payload expected d m r :
  map_Forall (λ _ f, len f ≤ u64_max) (w_files w) → 0 ≤ through →
  replay_depth w generation through payload expected = Ok (d, m, r) →
  depth_prefix_exact w generation through payload expected d.
Proof.
  intros Hsz H0 H. destruct (replay_depth_inv _ _ _ _ _ _ _ _ H)
    as (scan & entries & vs & b & b0 & last & sa & da & Hscan & He & Hvs & Hb & Hl & Hf & E1 & E2 & E3 & E4 & E5 & E6 & E7).
  destruct (depth_segments_inv _ _ _ _ _ _ _ Hf) as (rss & new & Hr & Hfold & _).
  destruct (depth_records_inv _ _ _ _ _ _ Hfold) as (Hd & Hs & Hraw & Hctl). cbn [sa_raw sa_control sa_previous_mono] in *.
  destruct (load_snapshot_start _ _ _ _ _ Hb Hl) as (Hok & _ & Hrep).
  destruct (depth_loop_inv _ (mkDepthAcc b0 0 0 None) _ _ Hok Hrep Hd) as (ids & st & a & o & HF & Hsp & Hfol & _ & Hrep' & _ & Ha & Ho & _ & _ & Hn).
  cbn [da_applied da_old sp_last] in *. pose proof Hrep' as (Hlast & _). rewrite E6 in Hlast. injection Hlast as Elast.
  exists b, b0, last, rss, ids, st, (da_book da).
  split_and!; try done.
  - by apply (verified_selection w "depth" scan _ _ vs).
  - rewrite E1. by apply (selected_entries_Ok _ _ _ _ H0 He).
  - lia.
  - lia.
  - rewrite Hfol, E4, E5, Elast. repeat f_equal; lia.
  - rewrite Elast. by apply (follow_covers _ _ _ _ _ Hfol).
Qed.

Lemma replay_trades_exact w generation through expected t m r :
  map_Forall (λ _ f, len f ≤ u64_max) (w_files w) → 0 ≤ through →
  replay_trades w generation through expected = Ok (t, m, r) →
  trade_prefix_exact w generation through expected t.
Proof.
  unfold replay_trades. intros Hsz H0 H. apply res_bind_Ok in H as ([] & _ & H).
  apply res_bind_Ok in H as (scan & Hscan & H). apply res_bind_Ok in H as ([] & _ & H).
  apply res_bind_Ok in H as (entries & He & H). apply res_bind_Ok in H as (vs & Hvs & H).
  apply res_bind_Ok in H as ([[sa [i p]] ks] & Hf & H).
  apply res_bind_Ok in H as (fe & _ & H). apply res_bind_Ok in H as (le & _ & H).
  apply res_bind_Ok in H as (ex & _ & H). apply res_bind_Ok in H as (ft & Hft%ok_or_Ok & H).
  apply res_bind_Ok in H as (lt & Hlt%ok_or_Ok & H). apply res_bind_Ok in H as (ms & _ & [= <- <- <-]).
  cbn [fst snd] in *. subst i p.
  destruct (trade_segments_inv _ _ _ _ _ _ _ Hf) as (rss & new & Hr & Hfold & _).
  destruct (trade_records_inv _ _ _ _ _ _ Hfold) as (Hd & Hs & Hraw & Hctl). cbn [sa_raw sa_control sa_previous_mono] in *.
  destruct (ids_inv _ _ _ _ Hd) as (ids & HF & Hsort & E). cbn [fst snd option_list app] in *.
  injection E as Ei El. exists rss, ids.
  cbn [tp_selected_segments tp_raw_records tp_control_records tp_first_trade_id tp_last_trade_id].
  split_and!; try done.
  - by apply (verified_selection w "trade" scan _ _ vs).
  - by apply (selected_entries_Ok _ _ _ _ H0 He).
  - pose proof (Forall2_length _ _ _ HF) as Hlen. unfold len in Hraw, Hctl |- *. lia.
  - by destruct (last ids).
Qed.

Lemma require_text_Ok value field label expected msg :
  require_text value field label expected msg = Ok () → text value field label = Ok expected.
Proof.
  unfold require_text. intros (t & Ht & H%reject_Ok)%res_bind_Ok. apply negb_false_iff, String.eqb_eq in H.
  by rewrite Ht, H.
Qed.

Lemma load_transport_symbol w path kind startup i symbol :
  load_transport w path kind startup = Ok i → text startup "symbol" "startup" = Ok symbol → tr_symbol i = symbol.
Proof.
  unfold load_transport. intros H Hs. apply res_bind_Ok in H as (v & _ & H). do 5 apply res_bind_Ok in H as (? & _ & H).
  apply res_bind_Ok in H as (s & _ & H). apply res_bind_Ok in H as ([] & Hq%require_text_Ok & H).
  do 6 apply res_bind_Ok in H as (? & _ & H). injection H as <-. cbn. congruence.
Qed.

(** A replay report is exact. The depth section is the run of the first
    [through + 1] sealed segments of the manifest behind the snapshot, whose frames are
    numbered from 0 without a gap and belong to the transport: no update ID between the
    snapshot and the reported position is skipped, the counters add up, and the state
    digest is the one of the book that the reference replay computes. The trade section
    covers the same number of segments, its IDs strictly increase from the first to the
    last reported. The report never claims qualification and carries the digest of
    itself with the digest left empty. *)
Theorem market_report_exact w selection report :
  map_Forall (λ _ f, len f ≤ u64_max) (w_files w) → 0 ≤ ps_through_segment_index selection →
  replay_failed_generation_prefix w selection = Ok report →
  mr_qualification_claim report = false ∧ mr_usage report = DEVELOPMENT_USAGE ∧
  (∃ encoded, to_vec (with_report_digest "" report) = inr encoded ∧
     mr_report_sha256 report = hex (sha256 encoded)) ∧
  ∃ generation file snapshot depth_identity trade_identity,
    canonicalize w (ps_generation_directory selection) = Ok generation ∧
    w_files w !! path_join generation "snapshot.bnraw" = Some file ∧ read_raw_records file = Ok [snapshot] ∧
    tr_symbol depth_identity = rb_symbol (mr_source report) ∧
    tr_symbol trade_identity = rb_symbol (mr_source report) ∧
    depth_prefix_exact w generation (ps_through_segment_index selection) (rf_payload (re_frame snapshot))
      depth_identity (mr_depth report) ∧
    trade_prefix_exact w generation (ps_through_segment_index selection) trade_identity (mr_trades report).
Proof.
  intros Hsz H0 H. unfold replay_failed_generation_prefix in H.
  apply res_bind_Ok in H as ([] & _ & H). apply res_bind_Ok in H as (generation & Hgen & H).
  apply res_bind_Ok in H as ([] & _ & H). apply res_bind_Ok in H as (startup & _ & H).
  do 5 apply res_bind_Ok in H as ([] & _ & H).
  apply res_bind_Ok in H as (symbol & Hsym & H). apply res_bind_Ok in H as ([] & _ & H).
  apply res_bind_Ok in H as (src & _ & H). apply res_bind_Ok in H as (di & Hdi & H).
  apply res_bind_Ok in H as (ti & Hti & H). apply res_bind_Ok in H as (file & Hfile%ok_or_Ok & H).
  apply res_bind_Ok in H as (snaps & Hsnaps & H). apply res_bind_Ok in H as ([] & Hone%reject_Ok & H).
  apply res_bind_Ok in H as (snapshot & Hsn & H). do 12 apply res_bind_Ok in H as (? & _ & H).
  apply res_bind_Ok in H as ([[d dm] dr] & Hd & H). apply res_bind_Ok in H as ([[t tm] tr] & Ht & H).
  do 3 apply res_bind_Ok in H as (? & _ & H). apply res_bind_Ok in H as (encoded & Henc%map_err_Ok & [= <-]).
  split_and!; [done|done|by exists encoded|].
  destruct snaps as [|s [|]]; [done| |done]. injection Hsn as ->.
  exists generation, file, snapshot, di, ti. cbn [with_report_digest mr_source rb_symbol mr_depth mr_trades].
  split_and!; try done.
  - by apply (load_transport_symbol _ _ _ _ _ _ Hdi).
  - by apply (load_transport_symbol _ _ _ _ _ _ Hti).
  - by apply (replay_depth_exact _ _ _ _ _ _ _ _ Hsz H0 Hd).
  - by apply (replay_trades_exact _ _ _ _ _ _ _ Hsz H0 Ht).
Qed.

Lemma verify_prefix_take fs scan directory j through vs vs' :
  0 ≤ j ≤ through → verify_segment_manifest_prefix_files fs scan directory through = Ok vs →
  verify_segment_manifest_prefix_files fs scan directory j = Ok vs' →
  vs' = take (Z.to_nat (j + 1)) vs.
Proof.
  intros Hj H H'. assert (0 ≤ through) as H0 by lia.
  destruct (verify_prefix_inv _ _ _ _ _ H0 H) as [HF _].
  destruct (verify_prefix_inv _ _ _ _ _ (proj1 Hj) H') as [HF' _].
  apply (Forall2_take _ _ _ (Z.to_nat (j + 1))) in HF. rewrite take_take, Nat.min_l in HF by lia.
  clear -HF HF'. revert vs' HF'. induction HF as [|e v l k Hv _ IH]; intros vs' HF'.
  { by apply Forall2_nil_inv_l in HF' as ->. }
  apply Forall2_cons_inv_l in HF' as (v' & k' & Hv' & HF' & ->). f_equal; [congruence|by apply IH].
Qed.

(** Checkpoints are shorter replays. When a generation is replayed through a
    segment and through an earlier one, the checkpoints of the shorter replay are the
    first ones of the longer, and the longer replay's checkpoint at the earlier segment
    holds exactly the position and the state digest the shorter replay ends with. *)
Theorem checkpoints_are_prefix_replays w generation j through payload expected d m r d' m' r' :
  0 ≤ j ≤ through →
  replay_depth w generation through payload expected = Ok (d, m, r) →
  replay_depth w generation j payload expected = Ok (d', m', r') →
  dr_checkpoints d' = take (Z.to_nat (j + 1)) (dr_checkpoints d) ∧
  ∃ k, dr_checkpoints d !! Z.to_nat j = Some k ∧ dk_last_update_id k = dr_final_update_id d' ∧
    dk_state_sha256 k = dr_state_sha256 d'.
Proof.
  intros Hj H H'. destruct (replay_depth_inv _ _ _ _ _ _ _ _ H)
    as (scan & entries & vs & b & b0 & last & sa & da & Hscan & He & Hvs & Hb & Hl & Hf & _).
  destruct (replay_depth_inv _ _ _ _ _ _ _ _ H')
    as (scan' & entries' & vs' & b' & b0' & last' & sa' & da' & Hscan' & He' & Hvs' & Hb' & Hl' & Hf' & _ & _ & _ & _ & _ & Hfin & Hdig).
  rewrite Hscan in Hscan'. injection Hscan' as <-. rewrite Hb in Hb'. injection Hb' as <-.
  rewrite Hl in Hl'. injection Hl' as <- <-.
  pose proof (verify_prefix_take _ _ _ _ _ _ _ Hj Hvs Hvs') as ->.
  assert (0 ≤ through) as H0 by lia. destruct (verify_prefix_inv _ _ _ _ _ H0 Hvs) as [_ Hlen].
  rewrite <-(take_drop (Z.to_nat (j + 1)) vs), try_fold_app, Hf' in Hf. cbn [mbind res_bind] in Hf.
  destruct (depth_segments_inv _ _ _ _ _ _ _ Hf) as (_ & new & _ & _ & E & _).
  destruct (depth_segments_inv _ _ _ _ _ _ _ Hf') as (rss & new' & HF & Hfold & E' & Hln & Hk). cbn [app] in E'. subst new'.
  rewrite length_take in Hln. unfold len in Hlen. rewrite E, take_app_length' by lia.
  split; [done|]. destruct (lookup_lt_is_Some_2 (dr_checkpoints d') (Z.to_nat j)) as [k Hkj]; [lia|].
  exists k. rewrite lookup_app_l by lia. split; [done|].
  destruct (Hk _ _ Hkj) as (v & a1 & _ & Hfj & Hchk).
  rewrite take_ge in Hfj by (rewrite <-(Forall2_length _ _ _ HF), length_take; lia).
  rewrite Hfold in Hfj. injection Hfj as <-. unfold depth_check in Hchk. cbn [snd] in Hchk.
  rewrite Hfin in Hchk. injection Hchk as <-. by rewrite Hdig.
Qed.
End market_theory.

(** ** A concrete run directory: two segments per stream *)

Module MarketDemo.
#[export] Existing Instance toy_sha256.
#[export] Existing Instance toy_sha256_laws.
#[export] Existing Instance Json.serde.
#[export] Existing Instance Json.serde_laws.
#[export] Existing Instance SessionDemo.text_base64.

Definition record_body (stream epoch endpoint : string) (index mono : Z) (previous text : string) : bytes :=
  let payload := SessionDemo.payload_of text in
  Json.text ("{'schema':'RawFrameV1','venue':'binance-spot','environment':'production-public-market-data','endpoint':'"
    ++ endpoint ++ "','stream':'" ++ stream ++ "','symbol':'BTCUSDT','connection_epoch':'" ++ epoch
    ++ "','frame_index':" ++ u_to_string index
    ++ ",'receive_wall_ns':1,'receive_mono_ns':" ++ u_to_string mono
    ++ ",'clock_quality':'UNKNOWN','clock_source':'h','payload_length':" ++ u_to_string (len payload)
    ++ ",'payload_sha256':'" ++ hex (sha256 payload) ++ "','payload_base64':'" ++ text
    ++ "','recorder_state':'PENDING','spec_revision':'" ++ SPEC_REVISION ++ "','previous_record_sha256':'"
    ++ previous ++ "'}").
Fixpoint segment_bytes (stream epoch endpoint : string) (index mono : Z) (previous : string) (texts : list string)
    : bytes * string :=
  match texts with
  | [] => ([], previous)
  | text :: texts =>
      let body := record_body stream epoch endpoint index mono previous text in
      let '(rest, digest) := segment_bytes stream epoch endpoint (index + 1) (mono + 5) (hex (sha256 body)) texts in
      (encode_record body (sha256 body) ++ rest, digest)
  end.
(** A segment file, its seal and the digest of its last record. *)
Definition segment_of (stream epoch endpoint raw_file : string) (n first mono : Z) (previous : string)
    (texts : list string) : bytes * RawSegmentSealV1 :=
  let '(records, digest) := segment_bytes stream epoch endpoint first mono previous texts in
  let file := MAGIC ++ records in
  (file, mkSeal "RawSegmentSealV1" n raw_file epoch stream first (first + len texts - 1) (len texts) (len file)
           previous digest).

Definition depth0 := Eval vm_compute in
  segment_of "btcusdt@depth@100ms" "d1" "wss/d" "s0.bnraw" 0 0 10 ZERO_DIGEST
    ["{`e`:`depthUpdate`,`s`:`BTCUSDT`,`U`:7,`u`:9,`b`:[],`a`:[]}";
     "{`e`:`depthUpdate`,`s`:`BTCUSDT`,`U`:10,`u`:12,`b`:[[`31`,`2`]],`a`:[]}"].
Definition depth1 := Eval vm_compute in
  segment_of "btcusdt@depth@100ms" "d1" "wss/d" "s1.bnraw" 1 2 30 (sl_terminal_record_sha256 depth0.2)
    ["{`e`:`serverShutdown`,`E`:1}";
     "{`e`:`depthUpdate`,`s`:`BTCUSDT`,`U`:13,`u`:14,`b`:[],`a`:[[`39`,`1`]]}"].
Definition trade0 := Eval vm_compute in
  segment_of "btcusdt@trade" "t1" "wss/t" "s0.bnraw" 0 0 10 ZERO_DIGEST
    ["{`e`:`trade`,`s`:`BTCUSDT`,`E`:5,`T`:4,`t`:7,`p`:`30.5`,`q`:`1`,`M`:true,`m`:false}"].
Definition trade1 := Eval vm_compute in
  segment_of "btcusdt@trade" "t1" "wss/t" "s1.bnraw" 1 1 30 (sl_terminal_record_sha256 trade0.2)
    ["{`e`:`trade`,`s`:`BTCUSDT`,`E`:8,`T`:7,`t`:9,`p`:`30.6`,`q`:`2`,`M`:true,`m`:true}"].

Definition manifest_body (n : Z) (previous : string) (seal : RawSegmentSealV1) : ManifestBodyV1 :=
  mkManifestBody "RawSegmentManifestRecordV1" n previous seal.
#[export] Instance market_manifest_serde : Serde ManifestBodyV1 := text_serde
  [manifest_body 0 ZERO_DIGEST depth0.2; manifest_body 1 (hex (sha256 [x2a])) depth1.2;
   manifest_body 0 ZERO_DIGEST trade0.2; manifest_body 1 (hex (sha256 [x2a; x2a; x2a])) trade1.2].
#[export] Instance report_serde : Serde MarketReplayReportV1 := {|
  to_vec r := inr (str_bytes (mr_schema r ++ dr_state_sha256 (mr_depth r) ++ mr_report_sha256 r));
  from_slice _ := inl "unused"
|}.
Definition manifest_of (n : nat) : bytes :=
  MANIFEST_MAGIC ++ encode_record (replicate n x2a) (sha256 (replicate n x2a))
    ++ encode_record (replicate (S n) x2a) (sha256 (replicate (S n) x2a)).

Definition snapshot_segment := Eval vm_compute in
  segment_of "btcusdt@rest-depth-snapshot" "r1" "https/s" "snapshot.bnraw" 0 0 5 ZERO_DIGEST
    ["{`lastUpdateId`:9,`bids`:[[`30`,`1`]],`asks`:[[`40`,`1`]]}"].
Definition snapshot_payload : bytes := Eval vm_compute in
  SessionDemo.payload_of "{`lastUpdateId`:9,`bids`:[[`30`,`1`]],`asks`:[[`40`,`1`]]}".

Definition startup : bytes := Json.text
  ("{'schema':'RawGenerationStartupV1','implementation':'rust-segmented','spec_revision':'" ++ SPEC_REVISION
   ++ "','credentials':'NONE','order_entry':'ABSENT','symbol':'BTCUSDT','session_id':'s1','generation_index':0}").
Definition transport (stream epoch uri : string) : bytes := Json.text
  ("{'schema':'TransportMetadataV1','session_id':'s1','generation_index':0,'symbol':'BTCUSDT','spec_revision':'"
   ++ SPEC_REVISION ++ "','connection':{'stream':'" ++ stream ++ "','websocket_http_status':101,'connection_epoch':'"
   ++ epoch ++ "','uri':'" ++ uri ++ "'}}").
Definition snapshot_http : bytes := Json.text
  ("{'schema':'SnapshotHttpMetadataV1','endpoint':'https/s','http_status':200,'body_complete':true,"
   ++ "'raw_file':'snapshot.bnraw','raw_record_sha256':'" ++ sl_terminal_record_sha256 snapshot_segment.2
   ++ "','body_length':" ++ u_to_string (len snapshot_payload) ++ ",'body_sha256':'" ++ hex (sha256 snapshot_payload)
   ++ "'}").
Definition bindings : bytes := Json.text
  ("{'schema':'RawQualificationCampaignBindingsV1','run_id':'run1','campaigns':["
   ++ "{'campaign_id':'c1','symbol':'BTCUSDT','campaign_directory':'/q/run1/c1'},"
   ++ "{'campaign_id':'c2','symbol':'ETHUSDT','campaign_directory':'/q/run1/c1'}]}").
Definition terminal : bytes := Json.text
  ("{'schema':'RawQualificationLauncherTerminalV2','status':'FAILED','mode':'Production','credentials':'NONE',"
   ++ "'order_entry':'ABSENT','run_id':'run1','run_root':'/q/run1','campaign_bindings_sha256':'"
   ++ hex (sha256 bindings) ++ "'}").

Definition tree : list (string * bytes) := Eval vm_compute in
  [("/q/run1/launcher-terminal.json", terminal); ("/q/run1/campaign-bindings.json", bindings);
   ("/q/run1/c1/generations/g0/startup.json", startup);
   ("/q/run1/c1/generations/g0/transport-depth.json", transport "depth" "d1" "wss/d");
   ("/q/run1/c1/generations/g0/transport-trade.json", transport "trade" "t1" "wss/t");
   ("/q/run1/c1/generations/g0/snapshot-http.json", snapshot_http);
   ("/q/run1/c1/generations/g0/snapshot.bnraw", snapshot_segment.1);
   ("/q/run1/c1/generations/g0/depth/segments.bnseg", manifest_of 1);
   ("/q/run1/c1/generations/g0/depth/s0.bnraw", depth0.1);
   ("/q/run1/c1/generations/g0/depth/s1.bnraw", depth1.1);
   ("/q/run1/c1/generations/g0/trade/segments.bnseg", manifest_of 3);
   ("/q/run1/c1/generations/g0/trade/s0.bnraw", trade0.1);
   ("/q/run1/c1/generations/g0/trade/s1.bnraw", trade1.1)].
Definition disk : world := mkWorld (list_to_map tree) (list_to_set tree.*1)
  {["/q/run1/c1/generations/g0"]}
  (list_to_map [("g0", "/q/run1/c1/generations/g0"); ("/q/run1", "/q/run1"); ("/q/run1/c1", "/q/run1/c1")]).
Definition selection : ReplayPrefixSelectionV1 :=
  mkPrefixSelection "ReplayPrefixSelectionV1" DEVELOPMENT_USAGE "g0" 1 "network outage".
Definition depth_transport : TransportIdentity :=
  mkTransportIdentity "BTCUSDT" "btcusdt@depth@100ms" "d1" "wss/d" SPEC_REVISION.

Lemma replay_disk_sizes : map_Forall (λ _ f, len f ≤ u64_max) (w_files disk).
Proof. apply (bool_decide_unpack _). vm_compute. exact I. Qed.
End MarketDemo.

Section market_witnesses.
Import MarketDemo.

Lemma market_report_exact_witness :
  ∃ report, replay_failed_generation_prefix disk selection = Ok report ∧
    dr_final_update_id (mr_depth report) = 14 ∧ tp_last_trade_id (mr_trades report) = 9 ∧
    mr_qualification_claim report = false ∧ mr_usage report = DEVELOPMENT_USAGE ∧
    (∃ encoded, to_vec (with_report_digest "" report) = inr encoded ∧
       mr_report_sha256 report = hex (sha256 encoded)) ∧
    ∃ generation file snapshot depth_identity trade_identity,
      canonicalize disk (ps_generation_directory selection) = Ok generation ∧
      w_files disk !! path_join generation "snapshot.bnraw" = Some file ∧ read_raw_records file = Ok [snapshot] ∧
      tr_symbol depth_identity = rb_symbol (mr_source report) ∧
      tr_symbol trade_identity = rb_symbol (mr_source report) ∧
      depth_prefix_exact disk generation (ps_through_segment_index selection) (rf_payload (re_frame snapshot))
        depth_identity (mr_depth report) ∧
      trade_prefix_exact disk generation (ps_through_segment_index selection) trade_identity (mr_trades report).
Proof.
  destruct (replay_failed_generation_prefix disk selection) as [report| |] eqn:E;
    [|vm_compute in E; discriminate..].
  exists report. split; [done|]. split_and!.
  1, 2: vm_compute in E; injection E as <-; reflexivity.
  all: apply (market_report_exact disk selection report replay_disk_sizes); [vm_compute; congruence|done].
Defined.

Lemma checkpoints_are_prefix_replays_witness :
  ∃ d m r d' m' r',
    replay_depth disk "/q/run1/c1/generations/g0" 1 snapshot_payload depth_transport = Ok (d, m, r) ∧
    replay_depth disk "/q/run1/c1/generations/g0" 0 snapshot_payload depth_transport = Ok (d', m', r') ∧
    dr_final_update_id d' = 12 ∧
    dr_checkpoints d' = take (Z.to_nat (0 + 1)) (dr_checkpoints d) ∧
    ∃ k, dr_checkpoints d !! Z.to_nat 0 = Some k ∧ dk_last_update_id k = dr_final_update_id d' ∧
      dk_state_sha256 k = dr_state_sha256 d'.
Proof.
  destruct (replay_depth disk "/q/run1/c1/generations/g0" 1 snapshot_payload depth_transport)
    as [[[d m] r]| |] eqn:E; [|vm_compute in E; discriminate..].
  destruct (replay_depth disk "/q/run1/c1/generations/g0" 0 snapshot_payload depth_transport)
    as [[[d' m'] r']| |] eqn:E'; [|vm_compute in E'; discriminate..].
  exists d, m, r, d', m', r'. split; [done|]. split; [done|]. split.
  - vm_compute in E'. injection E' as <- <- <-. reflexivity.
  - apply (checkpoints_are_prefix_replays disk "/q/run1/c1/generations/g0" 0 1 snapshot_payload depth_transport
      d m r d' m' r'); [lia|done|done].
Defined.
End market_witnesses.
