(* ===== verification/TransportJournal.v ===== *)
(** * Transport journal (transport_journal.rs)

    Every connection keeps a journal of what its socket and its WebSocket did: one JSON
    line per event, chained by digests. The scanner accepts a journal only when its
    events are one complete life of a connection, the writer seals a journal only when
    an independent scan agrees, and the diagnosis classifies a sealed one. A path is
    its file name, a file its bytes. *)

From stdpp Require Import base list strings option numbers sets gmap.
From Stdlib Require Import ZArith Lia Ascii Strings.Byte.
From S2P Require Import Prelude External RawLog RawLogSafety Boundary.
Local Open Scope Z_scope.

Definition MAX_JOURNAL_RECORD_BYTES : Z := 1024 * 1024.
Definition MAX_JOURNAL_BYTES : Z := 64 * 1024 * 1024.

(** [matches!(s, "a" | "b" | ...)] *)
Definition one_of (s : string) (l : list string) : bool := existsb (String.eqb s) l.
(** [str::starts_with] *)
Definition str_starts_with (s prefix : string) : bool := String.prefix prefix s.

(** ** [SocketAddr::from_str]

    The parser of the standard library: a function from the text in front of it to what
    it read and the text behind. *)
Module SocketText.
Definition parser (A : Type) : Type := chars → option (A * chars).
Definition given_char (c : Z) : parser unit := λ l,
  match l with a :: l => if code a =? c then Some ((), l) else None | [] => None end.

Definition digit_of (radix : Z) (c : ascii) : option Z :=
  let d := if (48 <=? code c) && (code c <=? 57) then code c - 48
           else if (97 <=? code c) && (code c <=? 122) then code c - 87
           else if (65 <=? code c) && (code c <=? 90) then code c - 55 else 99 in
  if d <? radix then Some d else None.
(** The digits in front, with their number and their value, none above [limit]. *)
Fixpoint digits (radix limit : Z) (max_digits : option nat) (count : nat) (value : Z) (l : chars)
    : option (nat * Z * chars) :=
  match l with
  | c :: rest =>
      match digit_of radix c with
      | Some d =>
          let value := value * radix + d in
          if limit <? value then None
          else if match max_digits with Some m => (m <? S count)%nat | None => false end then None
          else digits radix limit max_digits (S count) value rest
      | None => Some (count, value, l)
      end
  | [] => Some (count, value, [])
  end.
Definition read_number (radix limit : Z) (max_digits : option nat) (allow_zero_prefix : bool) : parser Z :=
  λ l,
  let leading_zero := match l with c :: _ => code c =? 48 | [] => false end in
  '(count, value, rest) ← digits radix limit max_digits 0 0 l;
  if (count =? 0)%nat || (negb allow_zero_prefix && leading_zero && (1 <? count)%nat) then None
  else Some (value, rest).

(** [read_separator(sep, index, inner)] *)
Definition separated {A} (sep : Z) (index : nat) (inner : parser A) : parser A := λ l,
  if (index =? 0)%nat then inner l else '(_, l) ← given_char sep l; inner l.

Definition octet (index : nat) : parser Z := separated 46 index (read_number 10 255 (Some 3%nat) false).
Definition read_ipv4_addr : parser (list Z) := λ l,
  '(a, l) ← octet 0 l; '(b, l) ← octet 1 l; '(c, l) ← octet 2 l; '(d, l) ← octet 3 l;
  Some ([a; b; c; d], l).

(** [read_groups]: at most [room] groups of sixteen bits, the last two of which may be
    written as an IPv4 address. *)
Fixpoint read_groups (room index : nat) (l : chars) : list Z * bool * chars :=
  match room with
  | O => ([], false, l)
  | S room =>
      let group :=
        match separated 58 index (read_number 16 65535 (Some 4%nat) true) l with
        | Some (g, l) => let '(gs, v4, l) := read_groups room (S index) l in (g :: gs, v4, l)
        | None => ([], false, l)
        end in
      match room with
      | O => group
      | S _ => match separated 58 index read_ipv4_addr l with
               | Some ([a; b; c; d], l) => ([a * 256 + b; c * 256 + d], true, l)
               | _ => group
               end
      end
  end.
Definition read_ipv6_addr : parser (list Z) := λ l,
  let '(head, head_ipv4, l) := read_groups 8 0 l in
  if (length head =? 8)%nat then Some (head, l)
  else if head_ipv4 : bool then None
  else
    '(_, l) ← given_char 58 l; '(_, l) ← given_char 58 l;
    let '(tail, _, l) := read_groups (8 - (length head + 1)) 0 l in
    Some (head ++ replicate (8 - length head - length tail) 0 ++ tail, l).

Definition read_port : parser Z := λ l, '(_, l) ← given_char 58 l; read_number 10 65535 None true l.
Definition read_scope_id : parser Z := λ l, '(_, l) ← given_char 37 l; read_number 10 u32_max None true l.
Definition read_socket_addr_v4 : parser (list Z * Z) := λ l,
  '(ip, l) ← read_ipv4_addr l; '(port, l) ← read_port l; Some (ip, port, l).
Definition read_socket_addr_v6 : parser (list Z * Z) := λ l,
  '(_, l) ← given_char 91 l;
  '(ip, l) ← read_ipv6_addr l;
  let l := match read_scope_id l with Some (_, l) => l | None => l end in
  '(_, l) ← given_char 93 l;
  '(port, l) ← read_port l;
  Some (ip, port, l).
(** The numbers of the address and the port. *)
Definition parse_socket_addr (s : string) : option (list Z * Z) :=
  let whole (r : option (list Z * Z * chars)) :=
    match r with Some (a, []) => Some a | _ => None end in
  match read_socket_addr_v4 (str_chars s) with
  | Some r => whole (Some r)
  | None => whole (read_socket_addr_v6 (str_chars s))
  end.
Definition is_unspecified (ip : list Z) : bool := forallb (λ n, n =? 0) ip.
End SocketText.

Record TransportJournalSealV1 := mkTransportSeal {
  te_schema : string; te_file : string; te_records : Z; te_terminal_record_sha256 : string;
  te_file_bytes : Z; te_file_sha256 : string
}.
#[global] Instance transport_seal_eq_decision : EqDecision TransportJournalSealV1.
Proof. solve_decision. Defined.

Section transport_journal.
Context `{Hsha : Sha256} `{Hval : SerdeValue} `{Hobj : !SerdeObject} `{Hnull : !SerdeNull} `{Hget : !SerdeGet}.

(** ** Data *)

Record TransportJournalBodyV1 := mkTransportBody {
  tb_schema : string; tb_record_index : Z; tb_wall_ns : Z; tb_mono_ns : Z; tb_stream : string;
  tb_connection_epoch : string; tb_event : string; tb_payload : Value; tb_previous_record_sha256 : string
}.
Record TransportJournalEnvelopeV1 := mkTransportEnvelope {
  tn_body : TransportJournalBodyV1; tn_record_sha256 : string
}.
Record TransportJournalDiagnosisV1 := mkDiagnosis {
  tg_stream : string; tg_connection_epoch : string; tg_records : Z; tg_terminal_record_sha256 : string;
  tg_terminal_status : string; tg_terminal_error : option string; tg_terminal_received : Z;
  tg_websocket_remote_endpoint : option string; tg_read_timeouts : Z; tg_last_tcp_info : option Value;
  tg_event_counts : gmap string Z; tg_classification : string
}.

Context `{Hbody : Serde TransportJournalBodyV1} `{Henv : Serde TransportJournalEnvelopeV1}.

(** ** Payloads *)

(** [serde_json::Map]: its entries in the order of their keys *)
Notation object := (list (string * Value)).
Notation obj_get := (map_get (A := Value)).
Definition obj_str (o : object) (field : string) : option string := obj_get o field ≫= as_str.
Definition obj_u64 (o : object) (field : string) : option Z := obj_get o field ≫= as_u64.
Definition exact_keys (o : object) (expected : list string) : bool := bool_decide (o.*1 = expected).

(** [option.is_some_and(p)] *)
Definition is_some_and {A} (o : option A) (p : A → bool) : bool :=
  match o with Some a => p a | None => false end.
Definition is_none_or {A} (o : option A) (p : A → bool) : bool :=
  match o with Some a => p a | None => true end.
Definition has_text (o : object) (field : string) : bool :=
  is_some_and (obj_str o field) (λ s, negb (is_blank s)).
Definition has_nonempty (o : object) (field : string) : bool :=
  is_some_and (obj_str o field) (λ s, negb (String.eqb s "")).
Definition has_u64 (o : object) (field : string) : bool := bool_decide (is_Some (obj_u64 o field)).
Definition str_is (o : object) (field expected : string) : bool :=
  bool_decide (obj_str o field = Some expected).

Definition tcp_state_name (state : Z) : string :=
  match state with
  | 0 => "CLOSED" | 1 => "LISTEN" | 2 => "SYN_SENT" | 3 => "SYN_RECEIVED" | 4 => "ESTABLISHED"
  | 5 => "FIN_WAIT_1" | 6 => "FIN_WAIT_2" | 7 => "CLOSE_WAIT" | 8 => "CLOSING" | 9 => "LAST_ACK"
  | 10 => "TIME_WAIT" | _ => "UNKNOWN"
  end.
Definition sample_keys : list string :=
  ["api"; "api_version"; "bytes_in"; "bytes_in_flight"; "bytes_out"; "bytes_reordered";
   "bytes_retransmitted"; "congestion_window_bytes"; "connection_time_ms"; "duplicate_acks_in";
   "fast_retransmits"; "min_rtt_us"; "mss"; "receive_buffer_bytes"; "receive_window_bytes"; "rtt_us";
   "schema"; "send_window_bytes"; "state"; "state_name"; "syn_retransmits"; "timeout_episodes";
   "timestamps_enabled"].
Definition sample_u32_fields : list string :=
  ["bytes_in_flight"; "bytes_reordered"; "bytes_retransmitted"; "congestion_window_bytes";
   "connection_time_ms"; "duplicate_acks_in"; "fast_retransmits"; "min_rtt_us"; "mss";
   "receive_buffer_bytes"; "receive_window_bytes"; "rtt_us"; "send_window_bytes"; "timeout_episodes"].

Definition valid_windows_tcp_sample (value : Value) : bool :=
  match as_object value with
  | None => false
  | Some sample =>
      let state := obj_get sample "state" ≫= as_i64 in
      exact_keys sample sample_keys
      && str_is sample "schema" "WindowsTcpInfoV0"
      && str_is sample "api" "SIO_TCP_INFO"
      && bool_decide (obj_u64 sample "api_version" = Some 0)
      && forallb (λ f, is_some_and (obj_u64 sample f) (λ n, n <=? u32_max)) sample_u32_fields
      && forallb (has_u64 sample) ["bytes_in"; "bytes_out"; "connection_time_ms"]
      && is_some_and (obj_u64 sample "syn_retransmits") (λ n, n <=? 255)
      && is_some_and state (λ n, (-2147483648 <=? n) && (n <=? 2147483647))
      && bool_decide (obj_str sample "state_name" = tcp_state_name <$> state)
      && is_some_and (obj_get sample "timestamps_enabled") (λ v, bool_decide (is_Some (as_bool v)))
  end.

Definition valid_tcp_observation (value : Value) : bool :=
  match as_object value with
  | None => false
  | Some o =>
      match obj_str o "status" with
      | Some status =>
          if String.eqb status "AVAILABLE" then
            exact_keys o ["sample"; "status"] && is_some_and (obj_get o "sample") valid_windows_tcp_sample
          else if String.eqb status "UNAVAILABLE" then
            exact_keys o ["error"; "status"] && has_text o "error"
          else if String.eqb status "UNSUPPORTED_PLATFORM" then exact_keys o ["status"]
          else false
      | None => false
      end
  end.

Definition valid_socket_endpoint (value : Value) (expected_port : option Z) : bool :=
  is_some_and (as_str value ≫= SocketText.parse_socket_addr) (λ a,
    negb (SocketText.is_unspecified a.1) && negb (a.2 =? 0) && is_none_or expected_port (λ p, a.2 =? p)).

Definition null_or_i64 (v : Value) : bool := is_null v || bool_decide (is_Some (as_i64 v)).

Definition valid_websocket_error (value : Value) : bool :=
  match as_object value with
  | None => false
  | Some error =>
      match obj_str error "category" with
      | Some category =>
          if String.eqb category "IO" then
            exact_keys error ["category"; "io_kind"; "message"; "native_os_error"]
            && has_nonempty error "io_kind" && has_nonempty error "message"
            && is_some_and (obj_get error "native_os_error") null_or_i64
          else if String.eqb category "" then false
          else exact_keys error ["category"; "message"] && has_nonempty error "message"
      | None => false
      end
  end.

Definition has_tcp_info (o : object) : bool := is_some_and (obj_get o "tcp_info") valid_tcp_observation.
Definition diagnostic_dns (o : object) : bool :=
  str_is o "host" "data-stream.binance.vision" && bool_decide (obj_u64 o "port" = Some 443)
  && str_is o "role" "DIAGNOSTIC_OBSERVATION_NOT_CONNECT_SELECTION".
Definition has_digest (o : object) (field : string) : bool := is_some_and (obj_str o field) is_digest.

Definition valid_transport_payload (event : string) (payload : Value) : bool :=
  match as_object payload with
  | None => false
  | Some o =>
    if String.eqb event "CONNECT_ATTEMPT" then
      exact_keys o ["uri"]
      && is_some_and (obj_str o "uri") (λ s, str_starts_with s "wss://data-stream.binance.vision:443/ws/")
    else if String.eqb event "DNS_OBSERVED" then
      exact_keys o ["addresses"; "host"; "port"; "role"] && diagnostic_dns o
      && is_some_and (obj_get o "addresses" ≫= as_array) (λ l,
           negb (length l =? 0)%nat && forallb (λ a, valid_socket_endpoint a (Some 443)) l)
    else if String.eqb event "DNS_FAILED" then
      exact_keys o ["error"; "host"; "port"; "role"] && has_text o "error" && diagnostic_dns o
    else if String.eqb event "CONNECT_FAILED" then
      exact_keys o ["error"] && is_some_and (obj_get o "error") valid_websocket_error
    else if String.eqb event "WEBSOCKET_UPGRADE_REJECTED" then
      exact_keys o ["http_status"]
      && is_some_and (obj_u64 o "http_status") (λ n, (100 <=? n) && (n <=? 599) && negb (n =? 101))
    else if String.eqb event "WEBSOCKET_CONNECTED" then
      exact_keys o ["local_endpoint"; "remote_endpoint"; "tcp_info"; "websocket_http_status"]
      && is_some_and (obj_get o "local_endpoint") (λ v, valid_socket_endpoint v None)
      && is_some_and (obj_get o "remote_endpoint") (λ v, valid_socket_endpoint v (Some 443))
      && bool_decide (obj_u64 o "websocket_http_status" = Some 101) && has_tcp_info o
    else if String.eqb event "FAULT_INJECTED_SILENT_STALL" then
      exact_keys o ["after_mono_ns"; "stream"] && has_u64 o "after_mono_ns"
      && is_some_and (obj_str o "stream") (λ s, one_of s ["depth"; "trade"])
    else if String.eqb event "READ_TIMEOUT" then
      exact_keys o ["inactive_ms"; "io_kind"; "native_os_error"; "tcp_info"] && has_u64 o "inactive_ms"
      && has_text o "io_kind" && is_some_and (obj_get o "native_os_error") null_or_i64 && has_tcp_info o
    else if one_of event ["TRANSPORT_DEADLINE"; "WATCHDOG_PONG_DEADLINE"] then
      exact_keys o ["deadline_ms"; "inactive_ms"; "tcp_info"] && has_u64 o "deadline_ms"
      && has_u64 o "inactive_ms" && has_tcp_info o
    else if String.eqb event "SOCKET_READ_ERROR" then
      exact_keys o ["error"; "tcp_info"] && is_some_and (obj_get o "error") valid_websocket_error
      && has_tcp_info o
    else if String.eqb event "WEBSOCKET_CLOSE" then
      exact_keys o ["close"; "tcp_info"]
      && is_some_and (obj_get o "close") (λ v, is_null v || is_some_and (as_object v) (λ close,
           exact_keys close ["code"; "reason"] && bool_decide (is_Some (obj_str close "code"))
           && bool_decide (is_Some (obj_str close "reason"))))
      && has_tcp_info o
    else if String.eqb event "WS_PING_PONG_FLUSHED" then
      exact_keys o ["payload_bytes"; "payload_sha256"] && has_u64 o "payload_bytes"
      && has_digest o "payload_sha256"
    else if String.eqb event "WS_PONG_RECEIVED" then
      (exact_keys o ["payload_bytes"; "payload_sha256"]
       || exact_keys o ["payload_bytes"; "payload_sha256"; "watchdog_rtt_ms"])
      && has_u64 o "payload_bytes" && has_digest o "payload_sha256"
      && is_none_or (obj_get o "watchdog_rtt_ms") (λ v, is_null v || bool_decide (is_Some (as_u64 v)))
    else if String.eqb event "WATCHDOG_PING_SENT" then
      exact_keys o ["deadline_ms"; "interval_ms"] && has_u64 o "deadline_ms" && has_u64 o "interval_ms"
    else if String.eqb event "UNEXPECTED_RAW_FRAME" then (length o =? 0)%nat
    else if String.eqb event "CLIENT_STOP_OBSERVED" then exact_keys o ["tcp_info"] && has_tcp_info o
    else if String.eqb event "SUPERVISOR_FAILURE_STOP" then
      exact_keys o ["campaign_failure_record_sha256"; "reason"; "source"; "tcp_info"]
      && is_some_and (obj_get o "campaign_failure_record_sha256") (λ v,
           is_null v || is_some_and (as_str v) is_digest)
      && has_text o "reason"
      && is_some_and (obj_str o "source") (λ s, one_of s ["CAMPAIGN_STOP_REQUEST"; "LOCAL_GENERATION_SUPERVISOR"])
      && has_tcp_info o
      && match obj_str o "source" with
         | Some s =>
             if String.eqb s "CAMPAIGN_STOP_REQUEST" then has_digest o "campaign_failure_record_sha256"
             else if String.eqb s "LOCAL_GENERATION_SUPERVISOR"
             then is_some_and (obj_get o "campaign_failure_record_sha256") is_null
             else false
         | None => false
         end
    else if String.eqb event "PRODUCER_FAILURE" then
      exact_keys o ["error"; "stage"] && has_text o "error" && str_is o "stage" "PRODUCER_LOOP"
    else if String.eqb event "TRANSPORT_TERMINAL" then
      exact_keys o ["error"; "received"; "status"] && has_u64 o "received"
      && match obj_str o "status" with
         | Some s => if String.eqb s "STOPPED" then is_some_and (obj_get o "error") is_null
                     else if String.eqb s "FAILED" then has_text o "error" else false
         | None => false
         end
    else false
  end.

(** ** The scan *)

Record transport_state := mkTransportState {
  ts_expected_index : Z; ts_previous : string; ts_expected_stream : option string;
  ts_expected_epoch : option string; ts_first_event : option string; ts_last_event : option string;
  ts_last_payload : option Value; ts_websocket_connected : bool; ts_client_stop_observed : bool;
  ts_failure_reason : option string; ts_terminal_seen : bool
}.
Definition transport_start : transport_state :=
  mkTransportState 0 ZERO_DIGEST None None None None None false false None false.

(** The variables of the connection's life: connected, stop observed, failure reason,
    terminal seen. *)
Definition life : Type := bool * bool * option string * bool.
Definition life_of (st : transport_state) : life :=
  (ts_websocket_connected st, ts_client_stop_observed st, ts_failure_reason st, ts_terminal_seen st).

Definition socket_events : list string :=
  ["READ_TIMEOUT"; "TRANSPORT_DEADLINE"; "SOCKET_READ_ERROR"; "WEBSOCKET_CLOSE"; "WS_PING_PONG_FLUSHED";
   "WS_PONG_RECEIVED"; "WATCHDOG_PING_SENT"; "WATCHDOG_PONG_DEADLINE"; "UNEXPECTED_RAW_FRAME";
   "FAULT_INJECTED_SILENT_STALL"; "CLIENT_STOP_OBSERVED"].

(** The checks of the lifecycle on one event, and what the event changes. *)
Definition lifecycle_check (index : Z) (l : life) (event : string) (payload : Value) : res life :=
  let '(connected, stopped, failure, terminal) := l in
  _ ← reject (terminal
       || ((index =? 0) && negb (String.eqb event "CONNECT_ATTEMPT"))
       || ((index =? 1) && negb (one_of event ["DNS_OBSERVED"; "DNS_FAILED"]))
       || ((index =? 2) && negb (one_of event ["CONNECT_FAILED"; "WEBSOCKET_UPGRADE_REJECTED";
             "WEBSOCKET_CONNECTED"; "SUPERVISOR_FAILURE_STOP"; "PRODUCER_FAILURE"])))
        "transport journal lifecycle sequence is invalid";
  _ ← reject ((2 <? index) && negb connected && negb (String.eqb event "PRODUCER_FAILURE")
              && negb (String.eqb event "TRANSPORT_TERMINAL" && bool_decide (is_Some failure)))
        "transport journal advanced without a WebSocket connection";
  _ ← reject (stopped && negb (String.eqb event "TRANSPORT_TERMINAL"))
        "transport journal continued after client stop";
  _ ← reject (bool_decide (is_Some failure) && negb (String.eqb event "TRANSPORT_TERMINAL"))
        "transport journal continued after producer failure";
  if String.eqb event "WEBSOCKET_CONNECTED" then
    _ ← reject connected "transport journal contains duplicate WebSocket connection";
    Ok (true, stopped, failure, terminal)
  else if one_of event socket_events then
    _ ← reject (negb connected) "transport event precedes WebSocket connection";
    Ok (connected, stopped || String.eqb event "CLIENT_STOP_OBSERVED", failure, terminal)
  else if String.eqb event "SUPERVISOR_FAILURE_STOP" then
    _ ← reject ((2 <? index) && negb connected) "supervisor failure stop has no observable socket boundary";
    Ok l
  else if String.eqb event "PRODUCER_FAILURE" then
    Ok (connected, stopped, as_str (value_index payload "error"), terminal)
  else if String.eqb event "TRANSPORT_TERMINAL" then
    let status := as_str (value_index payload "status") in
    let error := as_str (value_index payload "error") in
    _ ← reject ((bool_decide (status = Some "STOPPED") && (negb stopped || bool_decide (is_Some failure)))
                || (bool_decide (status = Some "FAILED")
                    && (bool_decide (failure = None) || negb (bool_decide (error = failure)))))
          "transport terminal contradicts its observed lifecycle";
    Ok (connected, stopped, failure, true)
  else Ok l.

(** [option.get_or_insert(value)] *)
Definition opt_or {A} (o : option A) (a : A) : option A := match o with Some _ => o | None => Some a end.

(** One line of the journal. *)
Definition transport_line (expected_identity : option (string * string * string)) (st : transport_state)
    (line : bytes) : res transport_state :=
  envelope ← map_err "invalid transport journal JSON: " (from_slice (A := TransportJournalEnvelopeV1) line);
  let body := tn_body envelope in
  body_bytes ← map_err "serialize scanned transport journal body: " (to_vec body);
  let digest := hex (sha256 body_bytes) in
  _ ← reject (negb (String.eqb (tb_schema body) "TransportJournalRecordV1")
              || negb (tb_record_index body =? ts_expected_index st)
              || (tb_wall_ns body =? 0)
              || negb (one_of (tb_stream body) ["depth"; "trade"])
              || is_blank (tb_connection_epoch body)
              || is_blank (tb_event body)
              || negb (valid_transport_payload (tb_event body) (tb_payload body))
              || negb (String.eqb (tb_previous_record_sha256 body) (ts_previous st))
              || negb (String.eqb (tn_record_sha256 envelope) digest)
              || negb (is_digest (tn_record_sha256 envelope)))
        "transport journal identity/hash chain is invalid";
  _ ← reject (is_some_and (ts_expected_stream st) (λ s, negb (String.eqb s (tb_stream body)))
              || is_some_and (ts_expected_epoch st) (λ s, negb (String.eqb s (tb_connection_epoch body))))
        "transport journal changed stream or connection epoch";
  let event := tb_event body in
  _ ← reject ((ts_expected_index st =? 0)
              && match expected_identity with
                 | Some (_, _, expected_uri) =>
                     negb (bool_decide (as_str (value_index (tb_payload body) "uri") = Some expected_uri))
                 | None => false
                 end)
        "transport journal connect URI differs from its stream binding";
  '(connected, stopped, failure, terminal) ←
    lifecycle_check (ts_expected_index st) (life_of st) event (tb_payload body);
  next ← ok_or (checked_add (ts_expected_index st) 1) "transport journal index overflow";
  Ok (mkTransportState next digest (opt_or (ts_expected_stream st) (tb_stream body))
        (opt_or (ts_expected_epoch st) (tb_connection_epoch body)) (opt_or (ts_first_event st) event)
        (Some event) (Some (tb_payload body)) connected stopped failure terminal).

(** The loop: a turn reads one line, so as many turns as bytes are enough. *)
Fixpoint transport_loop (fuel : nat) (expected_identity : option (string * string * string))
    (input : bytes) (st : transport_state) : res transport_state :=
  match fuel with
  | O => Panic
  | S fuel =>
      match input with
      | [] => Ok st
      | _ =>
          match split_line input with
          | Some (line, rest) =>
              _ ← reject (MAX_JOURNAL_RECORD_BYTES <? len line + 1)
                    "transport journal contains an oversized or partial record";
              st ← transport_line expected_identity st line;
              transport_loop fuel expected_identity rest st
          | None => Err "transport journal contains an oversized or partial record"
          end
      end
  end.

Definition scan_transport_journal_internal (file_name : string) (file : bytes)
    (expected_identity : option (string * string * string)) (expected_terminal_received : option Z)
    : res TransportJournalSealV1 :=
  let file_bytes := len file in
  _ ← reject ((file_bytes =? 0) || (MAX_JOURNAL_BYTES <? file_bytes))
        "transport journal is empty or exceeds its total size bound";
  st ← transport_loop (S (length file)) expected_identity file transport_start;
  _ ← reject (ts_expected_index st =? 0) "transport journal is empty";
  _ ← reject (match expected_identity with
              | Some (stream, epoch, _) =>
                  negb (bool_decide (ts_expected_stream st = Some stream))
                  || negb (bool_decide (ts_expected_epoch st = Some epoch))
              | None => false
              end) "transport journal differs from its bound stream/epoch";
  _ ← reject (negb (bool_decide (ts_first_event st = Some "CONNECT_ATTEMPT"))
              || negb (bool_decide (ts_last_event st = Some "TRANSPORT_TERMINAL"))
              || negb (ts_terminal_seen st))
        "transport journal lifecycle boundary is invalid";
  _ ← match expected_terminal_received with
      | Some expected_received =>
          payload ← ok_or (ts_last_payload st ≫= as_object) "transport terminal payload is not an object";
          reject (negb (bool_decide (ts_last_event st = Some "TRANSPORT_TERMINAL"))
                  || negb (exact_keys payload ["error"; "received"; "status"])
                  || negb (is_some_and (obj_get payload "error") is_null)
                  || negb (bool_decide (obj_u64 payload "received" = Some expected_received))
                  || negb (bool_decide (obj_str payload "status" = Some "STOPPED")))
            "sealed transport journal terminal status/count is invalid"
      | None => Ok ()
      end;
  Ok (mkTransportSeal "TransportJournalSealV1" file_name (ts_expected_index st) (ts_previous st) file_bytes
        (hex (sha256 file))).
Definition scan_transport_journal (file_name : string) (file : bytes) : res TransportJournalSealV1 :=
  scan_transport_journal_internal file_name file None None.
Definition verify_sealed_transport_journal (file_name : string) (file : bytes)
    (stream connection_epoch expected_uri : string) (expected_received : Z) : res TransportJournalSealV1 :=
  _ ← reject (is_blank expected_uri) "transport journal expected URI is empty";
  scan_transport_journal_internal file_name file (Some (stream, connection_epoch, expected_uri))
    (Some expected_received).

(** ** The writer *)
Section transport_writer.
Context {S : Type} `{Hsink : DurableSink S}.

Record TransportJournalWriter := mkTransportWriter {
  tw_file_name : string; tw_file : S; tw_stream : string; tw_connection_epoch : string;
  tw_next_index : Z; tw_previous_record_sha256 : string
}.

(** [create], with the file it opened *)
Definition transport_create (file_name : string) (file : S) (stream connection_epoch : string)
    : res TransportJournalWriter :=
  _ ← reject (negb (one_of stream ["depth"; "trade"]) || is_blank connection_epoch)
        "transport journal stream/connection epoch is invalid";
  Ok (mkTransportWriter file_name file stream connection_epoch 0 ZERO_DIGEST).

Definition set_file (file : S) (w : TransportJournalWriter) : TransportJournalWriter :=
  mkTransportWriter (tw_file_name w) file (tw_stream w) (tw_connection_epoch w) (tw_next_index w)
    (tw_previous_record_sha256 w).

Definition transport_body (w : TransportJournalWriter) (wall_ns mono_ns : Z) (event : string) (payload : Value)
    : TransportJournalBodyV1 :=
  mkTransportBody "TransportJournalRecordV1" (tw_next_index w) wall_ns mono_ns (tw_stream w)
    (tw_connection_epoch w) event payload (tw_previous_record_sha256 w).

Definition transport_append (wall_ns mono_ns : Z) (event : string) (payload : Value)
    : SE TransportJournalWriter string :=
  w ← get;
  lift (reject ((wall_ns =? 0) || is_blank event) "transport journal timestamp/event is invalid");;
  lift (reject (negb (valid_transport_payload event payload)) ("transport journal " ++ event ++ " payload is invalid"));;
  let body := transport_body w wall_ns mono_ns event payload in
  body_bytes ← lift (map_err "serialize transport journal body: " (to_vec body));
  let digest := hex (sha256 body_bytes) in
  bytes ← lift (map_err "serialize transport journal envelope: " (to_vec (mkTransportEnvelope body digest)));
  let bytes := bytes ++ [x0a] in
  lift (reject (MAX_JOURNAL_RECORD_BYTES <? len bytes) "transport journal record exceeds its bounded size");;
  let '(file, r) := write_flush_sync bytes (tw_file w) in
  put (set_file file w);;
  lift (map_err "sync transport journal: " r);;
  next ← lift (ok_or (checked_add (tw_next_index w) 1) "transport journal index overflow");
  put (mkTransportWriter (tw_file_name w) file (tw_stream w) (tw_connection_epoch w) next digest);;
  mret digest.

(** [seal]; [disk] is what reading the journal's path returns behind the last sync. *)
Definition transport_seal (w : TransportJournalWriter) (disk : bytes) : res TransportJournalSealV1 :=
  _ ← reject (tw_next_index w =? 0) "cannot seal an empty transport journal";
  let '(file, r) := flush (tw_file w) in
  _ ← map_err "seal transport journal: " r;
  let '(_, r) := sync_all file in
  _ ← map_err "seal transport journal: " r;
  let seal := mkTransportSeal "TransportJournalSealV1" (tw_file_name w) (tw_next_index w)
    (tw_previous_record_sha256 w) (len disk) (hex (sha256 disk)) in
  scanned ← scan_transport_journal (tw_file_name w) disk;
  _ ← reject (negb (bool_decide (scanned = seal))) "transport journal seal differs from independent rescan";
  Ok seal.
End transport_writer.

(** ** The diagnosis *)

(** [bytes.split(|byte| *byte == b'\n')] *)
Fixpoint split_newlines (b : bytes) : list bytes :=
  match b with
  | [] => [[]]
  | c :: b =>
      match split_newlines b with
      | l :: ls => if bool_decide (c = x0a) then [] :: l :: ls else (c :: l) :: ls
      | [] => [[]]
      end
  end.

Record diagnosis_acc := mkDiagnosisAcc {
  dx_event_counts : gmap string Z; dx_remote_endpoint : option string; dx_read_timeouts : Z;
  dx_last_tcp_info : option Value; dx_status : option string; dx_error : option string;
  dx_received : option Z
}.
Definition diagnosis_turn (acc : diagnosis_acc) (line : bytes) : res diagnosis_acc :=
  envelope ← map_err "parse validated diagnostic journal: " (from_slice (A := TransportJournalEnvelopeV1) line);
  let event := tb_event (tn_body envelope) in
  let payload := tb_payload (tn_body envelope) in
  count ← ok_or (checked_add (default 0 (dx_event_counts acc !! event)) 1)
            "transport diagnostic event count overflow";
  timeouts ← (if String.eqb event "READ_TIMEOUT"
              then ok_or (checked_add (dx_read_timeouts acc) 1) "transport diagnostic timeout count overflow"
              else Ok (dx_read_timeouts acc));
  let terminal := String.eqb event "TRANSPORT_TERMINAL" in
  Ok (mkDiagnosisAcc (<[event := count]> (dx_event_counts acc))
        (if String.eqb event "WEBSOCKET_CONNECTED" then as_str (value_index payload "remote_endpoint")
         else dx_remote_endpoint acc)
        timeouts
        (match value_get payload "tcp_info" with Some v => Some v | None => dx_last_tcp_info acc end)
        (if terminal then as_str (value_index payload "status") else dx_status acc)
        (if terminal then as_str (value_index payload "error") else dx_error acc)
        (if terminal then as_u64 (value_index payload "received") else dx_received acc)).

Definition classify (acc : diagnosis_acc) (status : string) : string :=
  let contains event := negb (default 0 (dx_event_counts acc !! event) =? 0) in
  if String.eqb status "STOPPED" then "CLEAN_CLIENT_STOP"
  else if contains "SUPERVISOR_FAILURE_STOP" then "SUPERVISOR_FAILURE_STOP_OBSERVED"
  else if contains "CONNECT_FAILED" then "CONNECT_FAILURE_OBSERVED"
  else if contains "WEBSOCKET_UPGRADE_REJECTED" then "WEBSOCKET_UPGRADE_REJECTION_OBSERVED"
  else if contains "WEBSOCKET_CLOSE" then "WEBSOCKET_CLOSE_FRAME_OBSERVED"
  else if contains "SOCKET_READ_ERROR" then "SOCKET_READ_ERROR_OBSERVED"
  else if contains "TRANSPORT_DEADLINE" then
    let state := (info ← dx_last_tcp_info acc; sample ← value_get info "sample";
                  name ← value_get sample "state_name"; as_str name) in
    if bool_decide (state = Some "ESTABLISHED") then "TRANSPORT_SILENCE_WITH_LOCAL_TCP_ESTABLISHED"
    else "TRANSPORT_SILENCE_WITHOUT_LOCAL_ESTABLISHED_PROOF"
  else "LOCAL_PRODUCER_FAILURE_WITHOUT_TRANSPORT_SUBTYPE".

(** [disk] is what the second reading of the file returns. *)
Definition diagnose_sealed_transport_journal (file_name : string) (file disk : bytes)
    (stream connection_epoch expected_uri : string) (expected_received : Z)
    (expected_seal : TransportJournalSealV1) : res TransportJournalDiagnosisV1 :=
  _ ← reject (is_blank expected_uri) "transport journal expected URI is empty";
  scanned ← scan_transport_journal_internal file_name file (Some (stream, connection_epoch, expected_uri)) None;
  _ ← reject (negb (bool_decide (scanned = expected_seal))) "transport journal differs from its expected seal";
  _ ← reject (negb (len disk =? te_file_bytes scanned)
              || negb (String.eqb (hex (sha256 disk)) (te_file_sha256 scanned)))
        "transport journal changed between validation and diagnosis";
  acc ← try_fold diagnosis_turn (mkDiagnosisAcc ∅ None 0 None None None None)
          (List.filter (λ l, negb (length l =? 0)%nat) (split_newlines disk));
  status ← ok_or (dx_status acc) "transport diagnosis lacks terminal status";
  received ← ok_or (dx_received acc) "transport diagnosis lacks terminal received count";
  _ ← reject (negb (received =? expected_received))
        "transport diagnosis received count differs from stream manifest";
  Ok (mkDiagnosis stream connection_epoch (te_records scanned) (te_terminal_record_sha256 scanned) status
        (dx_error acc) received (dx_remote_endpoint acc) (dx_read_timeouts acc) (dx_last_tcp_info acc)
        (dx_event_counts acc) (classify acc status)).
End transport_journal.

(** ** Theory *)

Section transport_theory.
Context `{Hsha : Sha256} `{Hval : SerdeValue} `{Hobj : !SerdeObject} `{Hnull : !SerdeNull} `{Hget : !SerdeGet}.
Context `{Hbody : Serde TransportJournalBodyV1} `{Henv : Serde TransportJournalEnvelopeV1}.
Context `{!Sha256Laws Hsha} `{!SerdeObjectLaws Hobj}.

(** *** The life of a connection *)

(** The specification: a connection is attempted, its name resolved, and it is refused
    or open; an open one stops on the client's request or fails; the terminal record
    closes it with the matching status. *)
Inductive phase :=
  Idle | Attempted | Resolved | Refused | Open | Stopping | Failing (reason : string) | Closed.
#[local] Instance phase_eq_decision : EqDecision phase.
Proof. solve_decision. Defined.

Definition fail_with (payload : Value) : option phase :=
  match as_str (value_index payload "error") with Some reason => Some (Failing reason) | None => None end.
Definition phase_step (p : phase) (event : string) (payload : Value) : option phase :=
  match p with
  | Idle => if String.eqb event "CONNECT_ATTEMPT" then Some Attempted else None
  | Attempted => if one_of event ["DNS_OBSERVED"; "DNS_FAILED"] then Some Resolved else None
  | Resolved =>
      if String.eqb event "WEBSOCKET_CONNECTED" then Some Open
      else if one_of event ["CONNECT_FAILED"; "WEBSOCKET_UPGRADE_REJECTED"; "SUPERVISOR_FAILURE_STOP"]
      then Some Refused
      else if String.eqb event "PRODUCER_FAILURE" then fail_with payload else None
  | Refused => if String.eqb event "PRODUCER_FAILURE" then fail_with payload else None
  | Open =>
      if one_of event ["WEBSOCKET_CONNECTED"; "TRANSPORT_TERMINAL"] then None
      else if String.eqb event "PRODUCER_FAILURE" then fail_with payload
      else if String.eqb event "CLIENT_STOP_OBSERVED" then Some Stopping else Some Open
  | Stopping =>
      if String.eqb event "TRANSPORT_TERMINAL"
         && bool_decide (as_str (value_index payload "status") = Some "STOPPED")
      then Some Closed else None
  | Failing reason =>
      if String.eqb event "TRANSPORT_TERMINAL"
         && bool_decide (as_str (value_index payload "status") = Some "FAILED")
         && bool_decide (as_str (value_index payload "error") = Some reason)
      then Some Closed else None
  | Closed => None
  end.

(** The variables of the scanner in each phase. *)
Definition in_phase (p : phase) (index : Z) (l : life) : Prop :=
  match p with
  | Idle => index = 0 ∧ l = (false, false, None, false)
  | Attempted => index = 1 ∧ l = (false, false, None, false)
  | Resolved => index = 2 ∧ l = (false, false, None, false)
  | Refused => 2 < index ∧ l = (false, false, None, false)
  | Open => 2 < index ∧ l = (true, false, None, false)
  | Stopping => 2 < index ∧ l = (true, true, None, false)
  | Failing reason => 2 < index ∧ ∃ c, l = (c, false, Some reason, false)
  | Closed => 2 < index ∧ ∃ c s f, l = (c, s, f, true)
  end.

Definition known_events : list string :=
  ["CONNECT_ATTEMPT"; "DNS_OBSERVED"; "DNS_FAILED"; "CONNECT_FAILED"; "WEBSOCKET_UPGRADE_REJECTED";
   "WEBSOCKET_CONNECTED"; "SUPERVISOR_FAILURE_STOP"; "PRODUCER_FAILURE"; "TRANSPORT_TERMINAL"] ++ socket_events.

Lemma valid_payload_known event payload :
  valid_transport_payload event payload = true → event ∈ known_events.
Proof.
  unfold valid_transport_payload. destruct (as_object payload); [|done].
  intros H. repeat match type of H with
  | (if ?b then _ else _) = true => destruct b eqn:E; [clear H|clear E]
  end; [..|done].
  all: try (unfold one_of in E; apply existsb_exists in E as (x & Hx & E); apply String.eqb_eq in E as ->;
    apply list_elem_of_In in Hx; clear -Hx; set_solver).
  all: apply String.eqb_eq in E as ->; clear; set_solver.
Qed.

Lemma valid_failure payload :
  valid_transport_payload "PRODUCER_FAILURE" payload = true →
  ∃ reason, as_str (value_index payload "error") = Some reason.
Proof.
  unfold valid_transport_payload. destruct (as_object payload) as [o|] eqn:Ho; [|done]. cbn.
  unfold has_text, obj_str. destruct (map_get o "error") as [v|] eqn:Hv; [|by rewrite andb_false_r].
  rewrite (index_object _ _ _ _ Ho Hv). cbn. destruct (as_str v) as [s|]; [by exists s|].
  by rewrite andb_false_r.
Qed.

Lemma valid_terminal payload :
  valid_transport_payload "TRANSPORT_TERMINAL" payload = true →
  as_str (value_index payload "status") = Some "STOPPED" ∨
  as_str (value_index payload "status") = Some "FAILED" ∧
    ∃ reason, as_str (value_index payload "error") = Some reason.
Proof.
  unfold valid_transport_payload. destruct (as_object payload) as [o|] eqn:Ho; [|done]. cbn.
  intros [_ H]%andb_true_iff. unfold has_text, obj_str in H.
  destruct (map_get o "status") as [v|] eqn:Hv; [|done]. rewrite (index_object _ _ _ _ Ho Hv). cbn in H.
  destruct (as_str v) as [s|]; [|done].
  destruct (String.eqb s "STOPPED") eqn:E1; [apply String.eqb_eq in E1; subst s; by left|].
  destruct (String.eqb s "FAILED") eqn:E2; [apply String.eqb_eq in E2; subst s; right|done]. split; [done|].
  destruct (map_get o "error") as [w|] eqn:Hw; [|done]. rewrite (index_object _ _ _ _ Ho Hw). cbn in H.
  destruct (as_str w) as [r|]; [by exists r|done].
Qed.

(** The scanner's checks are the steps of the specification. *)
Lemma lifecycle_phase p index l event payload :
  in_phase p index l → valid_transport_payload event payload = true →
  match phase_step p event payload with
  | Some p' => ∃ l', lifecycle_check index l event payload = Ok l' ∧ in_phase p' (index + 1) l'
  | None => ∃ e, lifecycle_check index l event payload = Err e
  end.
Proof.
  intros Hp Hv. pose proof (valid_payload_known _ _ Hv) as Hk. unfold lifecycle_check.
  assert (∃ i0 i1 i2 i3, (index =? 0) = i0 ∧ (index =? 1) = i1 ∧ (index =? 2) = i2 ∧ (2 <? index) = i3 ∧
    match p with
    | Idle => i0 = true ∧ i1 = false ∧ i2 = false ∧ i3 = false
    | Attempted => i0 = false ∧ i1 = true ∧ i2 = false ∧ i3 = false
    | Resolved => i0 = false ∧ i1 = false ∧ i2 = true ∧ i3 = false
    | _ => i0 = false ∧ i1 = false ∧ i2 = false ∧ i3 = true end) as (i0 & i1 & i2 & i3 & -> & -> & -> & -> & Hi).
  { do 4 eexists. split_and!; [reflexivity..|]. destruct p; cbn in Hp; destruct Hp as [Hx _]; try subst index; split_and!; lia || done. }
  assert (event = "PRODUCER_FAILURE" → ∃ r, as_str (value_index payload "error") = Some r) as Hfail
    by (intros ->; by apply valid_failure).
  assert (event = "TRANSPORT_TERMINAL" → as_str (value_index payload "status") = Some "STOPPED" ∨
    as_str (value_index payload "status") = Some "FAILED" ∧
    ∃ reason, as_str (value_index payload "error") = Some reason) as Hterm
    by (intros ->; by apply valid_terminal).
  clear Hv. unfold known_events, socket_events in Hk. cbn [app] in Hk.
  destruct p as [| | | | | |reason|]; cbn in Hp; destruct Hi as (-> & -> & -> & ->).
  7: destruct Hp as (Hx & c & ->); destruct c.
  9: destruct Hp as (Hx & c & stop & failure & ->).
  1-6: destruct Hp as [Hx ->].
  all: repeat (apply elem_of_cons in Hk as [->|Hk]); [..|by apply not_elem_of_nil in Hk].
  all: try (destruct (Hfail eq_refl) as [r Hr]); clear Hfail.
  all: try (by cbn; eexists; split; [reflexivity|cbn; split; [lia|done]]).
  all: try (by cbn; eexists).
  all: try (by cbn; unfold fail_with; rewrite Hr; cbn; eexists; split; [reflexivity|cbn; split; [lia|by eexists]]).
  all: destruct (Hterm eq_refl) as [Hs|(Hs & r & Hr)]; cbn; rewrite Hs.
  all: repeat case_bool_decide; try done.
  all: cbn; first [by eexists | eexists; split; [reflexivity|cbn; split; [lia|by do 3 eexists]]].
Qed.

(** *** The records of a journal *)

(** A file as lines, each at most as long as the limit, and the envelopes they hold. *)
Definition holds_records (file : bytes) (envs : list TransportJournalEnvelopeV1) : Prop :=
  ∃ lines, file = concat ((λ l, l ++ [x0a]) <$> lines) ∧
    Forall (λ l, x0a ∉ l ∧ len l + 1 ≤ MAX_JOURNAL_RECORD_BYTES) lines ∧
    Forall2 (λ l e, from_slice l = inr e) lines envs.

Definition body_digest (b : TransportJournalBodyV1) : string :=
  match to_vec b with inr x => hex (sha256 x) | inl _ => "" end.
Definition encodes (b : TransportJournalBodyV1) : Prop := ∃ x, to_vec b = inr x.

(** One record at its place: index, chain, connection, and a valid payload. *)
Definition record_fits (i : Z) (previous stream epoch : string) (e : TransportJournalEnvelopeV1) : Prop :=
  let b := tn_body e in
  encodes b ∧ tn_record_sha256 e = body_digest b ∧ tb_schema b = "TransportJournalRecordV1" ∧
  tb_record_index b = i ∧ tb_wall_ns b ≠ 0 ∧ one_of (tb_stream b) ["depth"; "trade"] = true ∧
  is_blank (tb_connection_epoch b) = false ∧ is_blank (tb_event b) = false ∧
  valid_transport_payload (tb_event b) (tb_payload b) = true ∧ tb_previous_record_sha256 b = previous ∧
  tb_stream b = stream ∧ tb_connection_epoch b = epoch.
Fixpoint records_fit (i : Z) (previous stream epoch : string) (envs : list TransportJournalEnvelopeV1) : Prop :=
  match envs with
  | [] => True
  | e :: envs => record_fits i previous stream epoch e ∧
      records_fit (i + 1) (body_digest (tn_body e)) stream epoch envs
  end.

(** The run of the specification over the events. *)
Fixpoint phase_run (p : phase) (envs : list TransportJournalEnvelopeV1) : option phase :=
  match envs with
  | [] => Some p
  | e :: envs => p ← phase_step p (tb_event (tn_body e)) (tb_payload (tn_body e)); phase_run p envs
  end.
Definition last_digest (previous : string) (envs : list TransportJournalEnvelopeV1) : string :=
  match last envs with Some e => body_digest (tn_body e) | None => previous end.

(** What the scanner knows in a phase. *)
Definition tracks (st : transport_state) (p : phase) : Prop :=
  in_phase p (ts_expected_index st) (life_of st) ∧ 0 ≤ ts_expected_index st ∧
  (p = Idle → ts_first_event st = None) ∧ (p ≠ Idle → ts_first_event st = Some "CONNECT_ATTEMPT") ∧
  (p = Closed → ts_last_event st = Some "TRANSPORT_TERMINAL").
Definition bound_to (st : transport_state) (stream epoch : string) : Prop :=
  (ts_expected_stream st = None ∨ ts_expected_stream st = Some stream) ∧
  (ts_expected_epoch st = None ∨ ts_expected_epoch st = Some epoch).

Lemma reject_bool b msg : (b = false ∧ reject b msg = Ok ()) ∨ (b = true ∧ reject b msg = Err msg).
Proof. destruct b; [by right|by left]. Qed.

(** The state behind a record. *)
Definition took (st st' : transport_state) (e : TransportJournalEnvelopeV1) (p' : phase) : Prop :=
  tracks st' p' ∧ ts_expected_index st' = ts_expected_index st + 1 ∧
  ts_previous st' = body_digest (tn_body e) ∧ ts_expected_stream st' = Some (tb_stream (tn_body e)) ∧
  ts_expected_epoch st' = Some (tb_connection_epoch (tn_body e)) ∧
  ts_last_payload st' = Some (tb_payload (tn_body e)).

Lemma phase_step_first p event payload p' :
  phase_step p event payload = Some p' →
  p' ≠ Idle ∧ (p = Idle → event = "CONNECT_ATTEMPT") ∧ (p' = Closed → event = "TRANSPORT_TERMINAL").
Proof.
  assert (∀ x, fail_with payload = Some x → ∃ r, x = Failing r) as Hf.
  { unfold fail_with. intros x. destruct (as_str _); [|done]. intros [= <-]. by eexists. }
  destruct p; cbn [phase_step]; intros H; repeat match type of H with
  | (if ?b then _ else _) = _ => destruct b eqn:?
  end; try done; try (injection H as <-; split_and!; try done); try (apply Hf in H as [r ->]; split_and!; done).
  all: try (intros _; by apply String.eqb_eq).
  all: rewrite !andb_true_iff in *; intros _; apply String.eqb_eq; naive_solver.
Qed.

Lemma took_intro st e p p' connected stopped failure terminal :
  tracks st p → bound_to st (tb_stream (tn_body e)) (tb_connection_epoch (tn_body e)) →
  phase_step p (tb_event (tn_body e)) (tb_payload (tn_body e)) = Some p' →
  in_phase p' (ts_expected_index st + 1) (connected, stopped, failure, terminal) →
  took st (mkTransportState (ts_expected_index st + 1) (body_digest (tn_body e))
        (opt_or (ts_expected_stream st) (tb_stream (tn_body e)))
        (opt_or (ts_expected_epoch st) (tb_connection_epoch (tn_body e)))
        (opt_or (ts_first_event st) (tb_event (tn_body e)))
        (Some (tb_event (tn_body e))) (Some (tb_payload (tn_body e))) connected stopped failure terminal) e p'.
Proof.
  intros (Hp & H0 & HI & HF & _) [Hs Hc] Hstep Hin. destruct (phase_step_first _ _ _ _ Hstep) as (Hne & Hidle & Hcl).
  unfold took, tracks, life_of. cbn. split_and!; try done; try lia.
  - intros _. destruct (decide (p = Idle)) as [->|Hp']; [by rewrite HI, Hidle|by rewrite HF].
  - intros ->. by rewrite Hcl.
  - by destruct Hs as [->| ->].
  - by destruct Hc as [->| ->].
Qed.

(** One line is read exactly when it holds a record that fits and that the
    specification allows. *)
Lemma transport_line_Ok st p line st' :
  tracks st p → transport_line None st line = Ok st' →
  ∃ e p', from_slice line = inr e ∧
    record_fits (ts_expected_index st) (ts_previous st) (tb_stream (tn_body e)) (tb_connection_epoch (tn_body e)) e ∧
    bound_to st (tb_stream (tn_body e)) (tb_connection_epoch (tn_body e)) ∧
    phase_step p (tb_event (tn_body e)) (tb_payload (tn_body e)) = Some p' ∧ took st st' e p'.
Proof.
  intros Ht H. unfold transport_line in H. apply res_bind_Ok in H as (e & He%map_err_Ok & H).
  apply res_bind_Ok in H as (x & Hx%map_err_Ok & H). apply res_bind_Ok in H as ([] & Hg%reject_Ok & H).
  apply res_bind_Ok in H as ([] & Hb%reject_Ok & H). rewrite andb_false_r in H. cbn [reject mbind res_bind] in H.
  apply res_bind_Ok in H as ([[[c s] f] t] & Hl & H). apply res_bind_Ok in H as (n & Hn%ok_or_Ok & [= <-]).
  apply checked_add_Some in Hn as [_ ->]. split_orb.
  repeat match goal with
  | E : String.eqb _ _ = true |- _ => apply String.eqb_eq in E
  | E : (_ =? _) = true |- _ => apply Z.eqb_eq in E
  | E : (_ =? _) = false |- _ => apply Z.eqb_neq in E
  end.
  assert (body_digest (tn_body e) = hex (sha256 x)) as Hd by (unfold body_digest; by rewrite Hx).
  pose proof Ht as (Hin & _). pose proof (lifecycle_phase _ _ _ (tb_event (tn_body e)) (tb_payload (tn_body e)) Hin) as Hph.
  assert (valid_transport_payload (tb_event (tn_body e)) (tb_payload (tn_body e)) = true) as Hv by done.
  specialize (Hph Hv). destruct (phase_step p _ _) as [p'|] eqn:Hstep.
  2: { destruct Hph as [msg Hph]. congruence. }
  destruct Hph as (l' & Hl' & Hin'). rewrite Hl in Hl'. injection Hl' as <-.
  assert (bound_to st (tb_stream (tn_body e)) (tb_connection_epoch (tn_body e))) as Hbd.
  { split; [destruct (ts_expected_stream st)|destruct (ts_expected_epoch st)]; [right|by left|right|by left];
      cbn [is_some_and] in *; rewrite negb_false_iff in *; f_equal; by apply String.eqb_eq. }
  exists e, p'. split_and!; try done.
  - unfold record_fits. rewrite Hd. split_and!; try done. by exists x.
  - rewrite <-Hd. by apply (took_intro st e p p').
Qed.

Lemma transport_line_intro st p line e p' :
  tracks st p → ts_expected_index st + 1 ≤ u64_max → from_slice line = inr e →
  record_fits (ts_expected_index st) (ts_previous st) (tb_stream (tn_body e)) (tb_connection_epoch (tn_body e)) e →
  bound_to st (tb_stream (tn_body e)) (tb_connection_epoch (tn_body e)) →
  phase_step p (tb_event (tn_body e)) (tb_payload (tn_body e)) = Some p' →
  ∃ st', transport_line None st line = Ok st' ∧ took st st' e p'.
Proof.
  intros Ht Hmax He ([x Hx] & Hd & H1 & H2 & H3 & H4 & H5 & H6 & H7 & H8 & _) Hb Hstep.
  pose proof Ht as (Hin & _). pose proof (lifecycle_phase _ _ _ (tb_event (tn_body e)) (tb_payload (tn_body e)) Hin H7) as Hph.
  rewrite Hstep in Hph. destruct Hph as ([[[c s] f] t] & Hl & Hin').
  assert (body_digest (tn_body e) = hex (sha256 x)) as Hdx by (unfold body_digest; by rewrite Hx).
  eexists. split; [|by apply (took_intro st e p p' c s f t)].
  unfold transport_line. rewrite He. cbn [map_err mbind res_bind]. rewrite Hx. cbn [map_err mbind res_bind].
  rewrite H1, H2, H4, H5, H6, H7, H8, Hd, <-Hdx, !String.eqb_refl, Z.eqb_refl, (proj2 (Z.eqb_neq _ 0) H3).
  rewrite Hdx, is_digest_hex by apply length_sha256. cbn [negb orb reject mbind res_bind].
  assert (is_some_and (ts_expected_stream st) (λ s, negb (String.eqb s (tb_stream (tn_body e))))
    || is_some_and (ts_expected_epoch st) (λ s, negb (String.eqb s (tb_connection_epoch (tn_body e)))) = false) as ->.
  { destruct Hb as [[-> | ->] [-> | ->]]; cbn [is_some_and]; rewrite ?String.eqb_refl; done. }
  cbn [reject mbind res_bind]. rewrite andb_false_r. cbn [reject mbind res_bind].
  rewrite Hl. cbn [mbind res_bind]. rewrite checked_add_fits by done. done.
Qed.


(** *** The whole journal *)

Lemma holds_cons line file e envs :
  x0a ∉ line → len line + 1 ≤ MAX_JOURNAL_RECORD_BYTES → from_slice line = inr e →
  holds_records file envs → holds_records (line ++ x0a :: file) (e :: envs).
Proof.
  intros Hn Hl He (lines & -> & HF & H2). exists (line :: lines). split_and!; [|by constructor|by constructor].
  rewrite fmap_cons. cbn [concat]. by rewrite <-app_assoc.
Qed.

Lemma split_line_notin b line rest : split_line b = Some (line, rest) → x0a ∉ line.
Proof.
  revert line rest. induction b as [|c b IH]; intros line rest; cbn [split_line]; [done|].
  destruct (bool_decide (c = x0a)) eqn:Ec.
  - intros [= <- <-]. apply not_elem_of_nil.
  - apply bool_decide_eq_false in Ec. destruct (split_line b) as [[l r]|]; [|done]. intros [= <- <-].
    apply not_elem_of_cons. split; [done|by eapply IH].
Qed.

Lemma bound_after st st' e p' stream epoch :
  took st st' e p' → bound_to st' stream epoch → stream = tb_stream (tn_body e) ∧ epoch = tb_connection_epoch (tn_body e).
Proof.
  intros (_ & _ & _ & Es & Ee & _) [[H|H] [H'|H']]; rewrite ?Es, ?Ee in *; try done. by injection H; injection H'.
Qed.

Lemma last_digest_cons previous e envs :
  last_digest previous (e :: envs) = last_digest (body_digest (tn_body e)) envs.
Proof. unfold last_digest. rewrite last_cons. by destruct (last envs). Qed.

Lemma transport_loop_Ok fuel input st st' p :
  tracks st p → transport_loop fuel None input st = Ok st' →
  ∃ envs p' stream epoch, holds_records input envs ∧ bound_to st stream epoch ∧
    records_fit (ts_expected_index st) (ts_previous st) stream epoch envs ∧ phase_run p envs = Some p' ∧
    tracks st' p' ∧ ts_expected_index st' = ts_expected_index st + len envs ∧
    ts_previous st' = last_digest (ts_previous st) envs.
Proof.
  revert input st p. induction fuel as [|fuel IH]; intros input st p Ht H; [done|]. cbn [transport_loop] in H.
  destruct input as [|c input].
  { injection H as <-. exists [], p, (default "" (ts_expected_stream st)), (default "" (ts_expected_epoch st)).
    split_and!; try done; [|split|change (len []) with 0; lia].
    - exists []. repeat constructor.
    - destruct (ts_expected_stream st); [by right|by left].
    - destruct (ts_expected_epoch st); [by right|by left]. }
  destruct (split_line (c :: input)) as [[line rest]|] eqn:Hs; [|done].
  apply res_bind_Ok in H as ([] & Hl%reject_Ok & H). apply res_bind_Ok in H as (st1 & H1 & H).
  destruct (transport_line_Ok _ _ _ _ Ht H1) as (e & p1 & He & Hfit & Hb & Hstep & Htook).
  pose proof Htook as (Ht1 & Hi & Hp & _).
  destruct (IH _ _ _ Ht1 H) as (envs & p' & stream & epoch & Hh & Hb' & Hf & Hr & Ht' & Hn & Hd).
  destruct (bound_after _ _ _ _ _ _ Htook Hb') as [-> ->].
  exists (e :: envs), p', (tb_stream (tn_body e)), (tb_connection_epoch (tn_body e)).
  rewrite len_cons, last_digest_cons. split_and!; try done; [| | |lia|congruence].
  - rewrite (split_line_inv _ _ _ Hs). apply holds_cons; try done; [by eapply split_line_notin|lia].
  - cbn [records_fit]. by rewrite <-Hi, <-Hp.
  - cbn [phase_run]. by rewrite Hstep.
Qed.

Lemma transport_loop_intro fuel input st p envs p' stream epoch :
  tracks st p → holds_records input envs → bound_to st stream epoch →
  records_fit (ts_expected_index st) (ts_previous st) stream epoch envs → phase_run p envs = Some p' →
  (length input < fuel)%nat → ts_expected_index st + len envs ≤ u64_max →
  ∃ st', transport_loop fuel None input st = Ok st' ∧ tracks st' p' ∧
    ts_expected_index st' = ts_expected_index st + len envs ∧
    ts_previous st' = last_digest (ts_previous st) envs.
Proof.
  intros Ht (lines & -> & HF & H2). revert st p envs Ht H2. revert fuel. induction HF as [|line lines [Hn Hl] _ IH];
    intros fuel st p envs Ht H2 Hb Hf Hr Hfuel Hmax.
  { apply Forall2_nil_inv_l in H2 as ->. destruct fuel as [|fuel]; [cbn in Hfuel; lia|].
    injection Hr as <-. exists st. split_and!; try done. change (len []) with 0. lia. }
  apply Forall2_cons_inv_l in H2 as (e & envs' & He & H2 & ->). rewrite fmap_cons in *. cbn [concat] in *.
  rewrite <-app_assoc in *. cbn [app] in *. set (rest := concat _) in *.
  destruct Hf as [Hfit Hf]. rewrite len_cons in *. rewrite last_digest_cons.
  assert (stream = tb_stream (tn_body e) ∧ epoch = tb_connection_epoch (tn_body e)) as [-> ->].
  { destruct Hfit as (_ & _ & _ & _ & _ & _ & _ & _ & _ & _ & -> & ->). done. }
  cbn [phase_run] in Hr. destruct (phase_step p _ _) as [p1|] eqn:Hstep; [|done]. cbn [mbind option_bind] in Hr.
  pose proof (len_nonneg envs').
  assert (ts_expected_index st + 1 ≤ u64_max) as Hmax1 by lia.
  destruct (transport_line_intro st p line e p1 Ht Hmax1 He Hfit Hb Hstep) as (st1 & H1 & Htook).
  pose proof Htook as (Ht1 & Hi & Hp & Es & Ee & _).
  destruct fuel as [|fuel]; [lia|]. cbn [transport_loop].
  destruct (line ++ x0a :: rest) as [|c l] eqn:El; [by destruct line|]. rewrite <-El.
  rewrite split_line_encoded by done. rewrite (proj2 (Z.ltb_ge _ _)) by lia. cbn [reject mbind res_bind].
  rewrite H1. cbn [mbind res_bind].
  destruct (IH fuel st1 p1 envs' Ht1 H2) as (st' & Hrun & Ht' & Hn' & Hd'); try done.
  - split; by right.
  - by rewrite Hi, Hp.
  - rewrite <-El, length_app in Hfuel. cbn in Hfuel. lia.
  - rewrite Hi. lia.
  - exists st'. rewrite Hn', Hd', Hi, Hp. split_and!; try done. lia.
Qed.

Lemma start_tracks : tracks transport_start Idle.
Proof. unfold tracks, transport_start, in_phase, life_of. cbn. split_and!; try done; lia. Qed.

Lemma closed_phase st p : tracks st p → ts_terminal_seen st = true → p = Closed.
Proof.
  intros (Hin & _) Hseen. destruct p; cbn in Hin; [..|done]; destruct Hin as [_ Hl];
    [..|destruct Hl as [c Hl]]; unfold life_of in Hl; congruence.
Qed.

Lemma fits_bound envs : ∀ file, holds_records file envs → (length envs ≤ length file)%nat.
Proof.
  intros file (lines & -> & _ & H2). induction H2 as [|l e lines envs _ _ IH]; [cbn; lia|].
  rewrite fmap_cons. cbn [concat length]. rewrite !length_app. cbn. lia.
Qed.

Lemma transport_scan_iff file_name file seal :
  scan_transport_journal file_name file = Ok seal ↔
  ∃ envs stream epoch, 0 < len file ≤ MAX_JOURNAL_BYTES ∧ holds_records file envs ∧
    records_fit 0 ZERO_DIGEST stream epoch envs ∧ phase_run Idle envs = Some Closed ∧
    seal = mkTransportSeal "TransportJournalSealV1" file_name (len envs) (last_digest ZERO_DIGEST envs)
             (len file) (hex (sha256 file)).
Proof.
  unfold scan_transport_journal, scan_transport_journal_internal. pose proof (len_nonneg file) as H0. split.
  - intros H. apply res_bind_Ok in H as ([] & Hsz%reject_Ok & H). apply res_bind_Ok in H as (st & Hst & H).
    apply res_bind_Ok in H as ([] & _ & H). cbn [reject mbind res_bind] in H.
    apply res_bind_Ok in H as ([] & Hend%reject_Ok & H). injection H as <-. split_orb.
    destruct (transport_loop_Ok _ _ _ _ _ start_tracks Hst) as (envs & p' & stream & epoch & Hh & _ & Hf & Hr & Ht & Hn & Hd).
    assert (ts_terminal_seen st = true) as Hseen by done.
    rewrite (closed_phase _ _ Ht Hseen) in Hr. exists envs, stream, epoch. cbn [ts_expected_index ts_previous transport_start] in *.
    split_and!; try done; try lia. by rewrite Hn, Hd.
  - intros (envs & stream & epoch & Hsz & Hh & Hf & Hr & ->).
    rewrite (proj2 (Z.eqb_neq _ 0)), (proj2 (Z.ltb_ge _ _)) by lia. cbn [orb reject mbind res_bind].
    pose proof (fits_bound _ _ Hh) as Hb.
    destruct (transport_loop_intro (S (length file)) file transport_start Idle envs Closed stream epoch)
      as (st & Hst & Ht & Hn & Hd); try done; try lia; try exact start_tracks.
    { split; by left. }
    { cbn [ts_expected_index transport_start]. unfold len, MAX_JOURNAL_BYTES, u64_max in *. lia. }
    rewrite Hst. cbn [mbind res_bind]. cbn [ts_expected_index ts_previous transport_start] in Hn, Hd.
    pose proof Ht as ((H2 & c & s & f & Hl) & _ & _ & H1 & H3). unfold life_of in Hl. injection Hl as _ _ _ Hseen.
    rewrite (proj2 (Z.eqb_neq _ 0)) by lia. cbn [reject mbind res_bind]. rewrite H1, H3, Hseen by done. cbn.
    rewrite Hn, Hd. done.
Qed.

(** C14: The scan of a transport journal accepts exactly the complete lives of a
    connection. It returns a seal if and only if the file, of admissible size, is a
    sequence of whole lines that hold chained records of one stream and one connection
    with valid payloads, whose events are a run of the specification from the first
    attempt to the closing record: name resolution, a refusal or an open socket, one
    stop or one failure, and a terminal record with the matching status and reason.
    The seal counts the records and names the last digest. *)
Theorem transport_scan_exact file_name file seal :
  scan_transport_journal file_name file = Ok seal ↔
  ∃ envs stream epoch, 0 < len file ≤ MAX_JOURNAL_BYTES ∧ holds_records file envs ∧
    records_fit 0 ZERO_DIGEST stream epoch envs ∧ phase_run Idle envs = Some Closed ∧
    seal = mkTransportSeal "TransportJournalSealV1" file_name (len envs) (last_digest ZERO_DIGEST envs)
             (len file) (hex (sha256 file)).
Proof. apply transport_scan_iff. Qed.


(** *** Sealing *)

Fixpoint links (previous : string) (l : list TransportJournalBodyV1) : Prop :=
  match l with
  | [] => True
  | b :: l => tb_previous_record_sha256 b = previous ∧ encodes b ∧ links (body_digest b) l
  end.
Definition tail_of (previous : string) (l : list TransportJournalBodyV1) : string :=
  match last l with Some b => body_digest b | None => previous end.

Lemma links_snoc previous l b :
  links previous (l ++ [b]) ↔ links previous l ∧ tb_previous_record_sha256 b = tail_of previous l ∧ encodes b.
Proof.
  revert previous. induction l as [|c l IH]; intros previous; [cbn; naive_solver|]. cbn [app links]. rewrite IH.
  assert (tail_of (body_digest c) l = tail_of previous (c :: l)) as ->
    by (unfold tail_of; rewrite last_cons; by destruct (last l)). naive_solver.
Qed.
Lemma tail_of_snoc previous l b : tail_of previous (l ++ [b]) = body_digest b.
Proof. unfold tail_of. by rewrite last_snoc. Qed.

(** Two different encodings with one digest. *)
Definition collision (l k : list TransportJournalBodyV1) : Prop :=
  ∃ a b x y, a ∈ l ∧ b ∈ k ∧ to_vec a = inr x ∧ to_vec b = inr y ∧ x ≠ y ∧ sha256 x = sha256 y.

Lemma links_unique `{!SerdeLaws TransportJournalBodyV1 Hbody} previous l k :
  length l = length k → links previous l → links previous k → tail_of previous l = tail_of previous k →
  l = k ∨ collision l k.
Proof.
  revert k. induction l as [|a l IH] using rev_ind; intros k Hlen.
  { destruct k; [by left|done]. }
  destruct k as [|b k _] using rev_ind; [rewrite length_app in Hlen; cbn in Hlen; lia|].
  rewrite !links_snoc, !tail_of_snoc. intros (Hl & Pa & [x Hx]) (Hk & Pb & [y Hy]) Hd.
  unfold body_digest in Hd. rewrite Hx, Hy in Hd. apply hex_inj in Hd.
  destruct (decide (x = y)) as [<-|Hne]; [|right; exists a, b, x, y; split_and!; set_solver].
  assert (a = b) as <- by (pose proof (from_to_vec _ _ Hx); pose proof (from_to_vec _ _ Hy); congruence).
  destruct (IH k) as [->|(c & d & u & v & ? & ? & ? & ? & ? & ?)]; try done.
  - rewrite !length_app in Hlen. cbn in Hlen. lia.
  - congruence.
  - by left.
  - right. exists c, d, u, v. split_and!; set_solver.
Qed.

Lemma fit_links i previous stream epoch envs :
  records_fit i previous stream epoch envs → links previous (tn_body <$> envs).
Proof.
  revert i previous. induction envs as [|e envs IH]; intros i previous; [done|]. cbn [records_fit]. intros [Hf H].
  rewrite fmap_cons. cbn [links]. destruct Hf as (He & _ & _ & _ & _ & _ & _ & _ & _ & Hp & _).
  split_and!; [done|done|by eapply IH].
Qed.
Lemma last_tail previous envs : last_digest previous envs = tail_of previous (tn_body <$> envs).
Proof. unfold last_digest, tail_of. rewrite fmap_last. by destruct (last envs). Qed.

Section sealing.
Context {S : Type} `{Hsink : DurableSink S}.

(** The appends of a session; the bodies of the acknowledged ones are kept. *)
Fixpoint run_transport (calls : list (Z * Z * string * Value)) (w : TransportJournalWriter)
    (acked : list TransportJournalBodyV1) : TransportJournalWriter * list TransportJournalBodyV1 :=
  match calls with
  | [] => (w, acked)
  | (wall, mono, event, payload) :: calls =>
      match transport_append (S := S) wall mono event payload w with
      | (w', Ok _) => run_transport calls w' (acked ++ [transport_body w wall mono event payload])
      | (w', _) => run_transport calls w' acked
      end
  end.

Definition writer_at (w : TransportJournalWriter (S := S)) (acked : list TransportJournalBodyV1) : Prop :=
  tw_next_index w = len acked ∧ tw_previous_record_sha256 w = tail_of ZERO_DIGEST acked ∧ links ZERO_DIGEST acked.

Lemma transport_append_at wall mono event payload w w' r acked :
  writer_at w acked → transport_append wall mono event payload w = (w', r) →
  match r with
  | Ok _ => writer_at w' (acked ++ [transport_body w wall mono event payload])
  | _ => writer_at w' acked
  end.
Proof.
  intros Hw H. pose proof Hw as (Hn & Hp & Hl). unfold transport_append in H.
  cbv [mbind SE_bind get lift put mret SE_ret] in H.
  destruct (reject _ _) as [[]| |] in H; [|by injection H as <- <-..].
  destruct (reject _ _) as [[]| |] in H; [|by injection H as <- <-..].
  destruct (map_err _ (to_vec (transport_body _ _ _ _ _))) as [x| |] eqn:Hx in H; [|by injection H as <- <-..].
  destruct (map_err _ (to_vec (mkTransportEnvelope _ _))) as [y| |] in H; [|by injection H as <- <-..].
  destruct (reject _ _) as [[]| |] in H; [|by injection H as <- <-..].
  destruct (write_flush_sync _ _) as [f rr] in H.
  destruct (map_err _ rr) as [[]| |] in H; [|by injection H as <- <-..].
  destruct (ok_or _ _) as [n| |] eqn:Hnx in H; [|by injection H as <- <-..]. injection H as <- <-.
  apply ok_or_Ok, checked_add_Some in Hnx as [_ ->]. apply map_err_Ok in Hx.
  unfold writer_at. cbn [tw_next_index tw_previous_record_sha256]. rewrite len_app, tail_of_snoc, links_snoc.
  change (len [_]) with 1. split_and!; try done; [lia| |by exists x].
  unfold body_digest. by rewrite Hx.
Qed.

Lemma run_transport_at calls w acked w' acked' :
  writer_at w acked → run_transport calls w acked = (w', acked') → writer_at w' acked'.
Proof.
  revert w acked. induction calls as [|[[[wall mono] event] payload] calls IH]; intros w acked Hw; cbn [run_transport].
  { by intros [= <- <-]. }
  destruct (transport_append wall mono event payload w) as [w1 r] eqn:Ha.
  pose proof (transport_append_at _ _ _ _ _ _ _ _ Hw Ha) as H1. destruct r; by apply IH.
Qed.

(** A seal vouches for exactly what was acknowledged. Whatever calls were made,
    failed ones included, and whatever the file holds when it is read back: when the
    seal is given, the file holds one complete life of the connection, and its records
    are the acknowledged ones, in order, unless two of the encodings collide under
    SHA-256. *)
Theorem sealed_journal_is_acknowledged `{!SerdeLaws TransportJournalBodyV1 Hbody}
    file_name (f : S) stream epoch w0 calls w acked disk seal :
  transport_create file_name f stream epoch = Ok w0 → run_transport calls w0 [] = (w, acked) →
  transport_seal w disk = Ok seal →
  te_records seal = len acked ∧
  ∃ envs, holds_records disk envs ∧ phase_run Idle envs = Some Closed ∧
    (tn_body <$> envs = acked ∨ collision (tn_body <$> envs) acked).
Proof.
  intros Hc Hr Hs. unfold transport_create in Hc. apply res_bind_Ok in Hc as ([] & _ & [= <-]).
  assert (writer_at (mkTransportWriter (S := S) file_name f stream epoch 0 ZERO_DIGEST) []) as H0 by done.
  destruct (run_transport_at _ _ _ _ _ H0 Hr) as (Hn & Hp & Hl).
  unfold transport_seal in Hs. apply res_bind_Ok in Hs as ([] & _ & Hs). destruct (flush (tw_file w)) as [f1 r1].
  apply res_bind_Ok in Hs as ([] & _ & Hs). destruct (sync_all f1) as [f2 r2].
  apply res_bind_Ok in Hs as ([] & _ & Hs). apply res_bind_Ok in Hs as (scanned & Hsc & Hs).
  apply res_bind_Ok in Hs as ([] & Heq%reject_Ok & [= <-]). apply negb_false_iff, bool_decide_eq_true in Heq. subst scanned.
  split; [done|]. apply transport_scan_iff in Hsc as (envs & st & ep & _ & Hh & Hf & Hrun & Eq). injection Eq as El Et.
  exists envs. split_and!; try done. rewrite last_tail in Et.
  apply (links_unique ZERO_DIGEST); [|by eapply fit_links|done|congruence].
  rewrite length_fmap. unfold len in *. lia.
Qed.
End sealing.


(** *** The diagnosis *)

Lemma transport_line_bound id st line st' :
  transport_line (Some id) st line = Ok st' → transport_line None st line = Ok st'.
Proof.
  unfold transport_line. intros (e & -> & H)%res_bind_Ok. cbn [mbind res_bind].
  apply res_bind_Ok in H as (x & -> & H). cbn [mbind res_bind].
  apply res_bind_Ok in H as ([] & -> & H). cbn [mbind res_bind].
  apply res_bind_Ok in H as ([] & -> & H). cbn [mbind res_bind]. rewrite andb_false_r. cbn [reject mbind res_bind].
  by apply res_bind_Ok in H as ([] & _ & H).
Qed.
Lemma transport_loop_bound id fuel input st st' :
  transport_loop fuel (Some id) input st = Ok st' → transport_loop fuel None input st = Ok st'.
Proof.
  revert input st. induction fuel as [|fuel IH]; intros input st; [done|]. cbn [transport_loop].
  destruct input; [done|]. destruct (split_line _) as [[line rest]|]; [|done].
  intros ([] & -> & H)%res_bind_Ok. cbn [mbind res_bind]. apply res_bind_Ok in H as (st1 & H1 & H).
  rewrite (transport_line_bound _ _ _ _ H1). cbn [mbind res_bind]. by apply IH.
Qed.
Lemma transport_scan_bound file_name file id received seal :
  scan_transport_journal_internal file_name file (Some id) received = Ok seal →
  scan_transport_journal file_name file = Ok seal.
Proof.
  unfold scan_transport_journal, scan_transport_journal_internal. intros ([] & -> & H)%res_bind_Ok.
  cbn [mbind res_bind]. apply res_bind_Ok in H as (st & Hst & H). rewrite (transport_loop_bound _ _ _ _ _ Hst).
  cbn [mbind res_bind]. apply res_bind_Ok in H as ([] & -> & H). cbn [reject mbind res_bind].
  apply res_bind_Ok in H as ([] & _ & H). apply res_bind_Ok in H as ([] & -> & H). cbn [mbind res_bind].
  by apply res_bind_Ok in H as ([] & _ & H).
Qed.

Definition event_of (e : TransportJournalEnvelopeV1) : string := tb_event (tn_body e).
Definition field_of (e : TransportJournalEnvelopeV1) (field : string) : Value := value_index (tb_payload (tn_body e)) field.
Definition counted (event : string) (envs : list TransportJournalEnvelopeV1) : Z :=
  len (List.filter (λ e, String.eqb (event_of e) event) envs).

Lemma counted_cons event e envs :
  counted event (e :: envs) = (if String.eqb (event_of e) event then 1 else 0) + counted event envs.
Proof. unfold counted. cbn [List.filter]. destruct (String.eqb _ _); [by rewrite len_cons|done]. Qed.

(** What the fold over the lines has counted, and what it kept of the last record. *)
Lemma diagnosis_fold lines envs acc acc' :
  Forall2 (λ l e, from_slice l = inr e) lines envs → try_fold diagnosis_turn acc lines = Ok acc' →
  (∀ event, default 0 (dx_event_counts acc' !! event) = default 0 (dx_event_counts acc !! event) + counted event envs) ∧
  dx_read_timeouts acc' = dx_read_timeouts acc + counted "READ_TIMEOUT" envs ∧
  ∀ z, last envs = Some z → event_of z = "TRANSPORT_TERMINAL" →
    dx_status acc' = as_str (field_of z "status") ∧ dx_error acc' = as_str (field_of z "error") ∧
    dx_received acc' = as_u64 (field_of z "received").
Proof.
  intros HF. revert acc. induction HF as [|l e lines envs He HF IH]; intros acc; cbn [try_fold].
  { intros [= <-]. split_and!; [intros event|..]; try done; change (counted _ []) with 0; lia. }
  set (F := try_fold diagnosis_turn) in *. unfold diagnosis_turn. rewrite He. cbn [map_err mbind res_bind].
  intros (acc1 & (n & Hn%ok_or_Ok & H)%res_bind_Ok & Hrest)%res_bind_Ok.
  apply checked_add_Some in Hn as [_ ->]. apply res_bind_Ok in H as (t & Ht & [= <-]).
  destruct (IH _ Hrest) as (Hc & Hr & Hlast). cbn [dx_event_counts dx_read_timeouts] in Hc, Hr.
  fold (event_of e) in *. split_and!.
  - intros event. rewrite Hc, counted_cons. destruct (String.eqb_spec (event_of e) event) as [<-|Hne].
    + rewrite lookup_insert_eq. cbn [default from_option id]. lia.
    + rewrite lookup_insert_ne by done. lia.
  - rewrite Hr, counted_cons. destruct (String.eqb (event_of e) "READ_TIMEOUT").
    + apply ok_or_Ok, checked_add_Some in Ht as [_ ->]. lia.
    + injection Ht as <-. lia.
  - intros z Hz Hev. rewrite last_cons in Hz. destruct (last envs) as [y|] eqn:Hy.
    + injection Hz as ->. by apply Hlast.
    + injection Hz as ->. apply last_None in Hy as ->. apply Forall2_nil_inv_r in HF as ->. injection Hrest as <-.
      cbn [dx_status dx_error dx_received]. rewrite Hev, String.eqb_refl. done.
Qed.

Lemma phase_run_snoc p envs e :
  phase_run p (envs ++ [e]) = (p ← phase_run p envs; phase_step p (event_of e) (tb_payload (tn_body e))).
Proof.
  revert p. induction envs as [|x envs IH]; intros p; cbn [phase_run app].
  { cbn. unfold event_of. by destruct (phase_step _ _ _). }
  destruct (phase_step p _ _); cbn [mbind option_bind]; [apply IH|done].
Qed.

(** How a phase is reached. *)
Lemma phase_run_inv envs p :
  phase_run Idle envs = Some p →
  match p with
  | Stopping => ∃ front a, envs = front ++ [a] ∧ event_of a = "CLIENT_STOP_OBSERVED" ∧
      Forall (λ e, event_of e ≠ "PRODUCER_FAILURE") envs
  | Failing reason => ∃ front a, envs = front ++ [a] ∧ event_of a = "PRODUCER_FAILURE" ∧
      as_str (field_of a "error") = Some reason
  | Closed => ∃ front a z, envs = front ++ [a; z] ∧ event_of z = "TRANSPORT_TERMINAL" ∧
      (event_of a = "CLIENT_STOP_OBSERVED" ∧ as_str (field_of z "status") = Some "STOPPED" ∧
         Forall (λ e, event_of e ≠ "PRODUCER_FAILURE") (front ++ [a]) ∨
       event_of a = "PRODUCER_FAILURE" ∧ as_str (field_of z "status") = Some "FAILED" ∧
         as_str (field_of z "error") = as_str (field_of a "error"))
  | _ => Forall (λ e, event_of e ≠ "PRODUCER_FAILURE") envs
  end.
Proof.
  revert p. induction envs as [|e envs IH] using rev_ind; intros p.
  { cbn. intros [= <-]. constructor. }
  rewrite phase_run_snoc. destruct (phase_run Idle envs) as [q|]; [|done]. cbn [mbind option_bind].
  specialize (IH q eq_refl). intros H.
  assert (fail_with (tb_payload (tn_body e)) = Some p → event_of e = "PRODUCER_FAILURE" →
    match p with Failing reason => ∃ front a, envs ++ [e] = front ++ [a] ∧ event_of a = "PRODUCER_FAILURE" ∧
      as_str (field_of a "error") = Some reason | _ => False end) as Hfail.
  { unfold fail_with. destruct (as_str _) as [r|] eqn:Hr; [|done]. intros [= <-] Hev. by exists envs, e. }
  assert (∀ s, String.eqb (event_of e) s = true → s ≠ "PRODUCER_FAILURE" →
    Forall (λ e, event_of e ≠ "PRODUCER_FAILURE") envs → Forall (λ e, event_of e ≠ "PRODUCER_FAILURE") (envs ++ [e])) as Hsnoc.
  { intros s Hs Hne HF. apply Forall_app. split; [done|]. constructor; [|constructor]. apply String.eqb_eq in Hs. congruence. }
  destruct q as [| | | | | |reason|]; cbn [phase_step one_of existsb] in H; rewrite ?orb_false_r in H.
  - destruct (String.eqb (event_of e) _) eqn:E; [|done]. injection H as <-. by apply (Hsnoc _ E).
  - destruct (String.eqb (event_of e) "DNS_OBSERVED") eqn:E1; [injection H as <-; by apply (Hsnoc _ E1)|].
    destruct (String.eqb (event_of e) "DNS_FAILED") eqn:E2; [|done]. injection H as <-. by apply (Hsnoc _ E2).
  - destruct (String.eqb (event_of e) "WEBSOCKET_CONNECTED") eqn:E1; [injection H as <-; by apply (Hsnoc _ E1)|].
    destruct (String.eqb (event_of e) "CONNECT_FAILED") eqn:E2; [injection H as <-; by apply (Hsnoc _ E2)|].
    destruct (String.eqb (event_of e) "WEBSOCKET_UPGRADE_REJECTED") eqn:E3; [injection H as <-; by apply (Hsnoc _ E3)|].
    destruct (String.eqb (event_of e) "SUPERVISOR_FAILURE_STOP") eqn:E4; [injection H as <-; by apply (Hsnoc _ E4)|].
    cbn [orb] in H. destruct (String.eqb (event_of e) "PRODUCER_FAILURE") eqn:E5; [|done].
    apply String.eqb_eq in E5. specialize (Hfail H E5). by destruct p.
  - destruct (String.eqb (event_of e) "PRODUCER_FAILURE") eqn:E5; [|done].
    apply String.eqb_eq in E5. specialize (Hfail H E5). by destruct p.
  - destruct (_ || _); [done|]. destruct (String.eqb (event_of e) "PRODUCER_FAILURE") eqn:E5.
    { apply String.eqb_eq in E5. specialize (Hfail H E5). by destruct p. }
    assert (Forall (λ e, event_of e ≠ "PRODUCER_FAILURE") (envs ++ [e])) as HF.
    { apply Forall_app. split; [done|]. constructor; [|constructor]. by apply String.eqb_neq. }
    destruct (String.eqb (event_of e) "CLIENT_STOP_OBSERVED") eqn:E6; injection H as <-; [|done].
    exists envs, e. split_and!; [done|by apply String.eqb_eq|done].
  - destruct (_ && _) eqn:E; [|done]. injection H as <-. destruct IH as (front & a & -> & Ha & HF).
    apply andb_true_iff in E as [E1 E2]. apply bool_decide_eq_true in E2. exists front, a, e.
    rewrite <-app_assoc. split_and!; [done|by apply String.eqb_eq|]. by left.
  - destruct (_ && _) eqn:E; [|done]. injection H as <-. destruct IH as (front & a & -> & Ha & Hr).
    apply andb_true_iff in E as [E1 E2]. apply andb_true_iff in E1 as [E1 E3].
    apply bool_decide_eq_true in E2, E3. exists front, a, e.
    rewrite <-app_assoc. split_and!; [done|by apply String.eqb_eq|]. right. unfold field_of in *. split_and!; try done. congruence.
  - done.
Qed.

Lemma split_newlines_lines lines :
  Forall (λ l, x0a ∉ l) lines → split_newlines (concat ((λ l, l ++ [x0a]) <$> lines)) = lines ++ [[]].
Proof.
  assert (∀ l rest, x0a ∉ l → split_newlines (l ++ x0a :: rest) = l :: split_newlines rest) as Hone.
  { intros l rest. induction l as [|c l IH]; intros Hn; cbn [split_newlines app].
    - assert (∃ a b, split_newlines rest = a :: b) as (a & b & ->); [|by rewrite bool_decide_eq_true_2].
      induction rest as [|c rest (a & b & E)]; cbn; [by eexists _, _|]. rewrite E. destruct (bool_decide _); by eexists _, _.
    - rewrite IH by set_solver. rewrite bool_decide_eq_false_2; [done|set_solver]. }
  induction 1 as [|l lines Hl _ IH]; [done|]. rewrite fmap_cons. cbn [concat app]. rewrite <-app_assoc. cbn [app].
  by rewrite Hone, IH.
Qed.

(** A diagnosis reports what the journal holds. On a sealed journal the event
    counts are exact; the status, error and count of received frames are those of the
    closing record. A stopped connection has the client's stop directly in front of it
    and no producer failure, and is classified as a clean stop, which no other is; a
    failed one repeats the reason of the producer failure directly in front of it. *)
Theorem diagnosis_exact `{!SerdeNonempty TransportJournalEnvelopeV1 Henv}
    file_name file stream epoch uri received seal d :
  diagnose_sealed_transport_journal file_name file file stream epoch uri received seal = Ok d →
  ∃ envs front a z, holds_records file envs ∧ envs = front ++ [a; z] ∧ tg_records d = len envs ∧
    (∀ event, default 0 (tg_event_counts d !! event) = counted event envs) ∧
    tg_read_timeouts d = counted "READ_TIMEOUT" envs ∧ event_of z = "TRANSPORT_TERMINAL" ∧
    as_str (field_of z "status") = Some (tg_terminal_status d) ∧
    as_str (field_of z "error") = tg_terminal_error d ∧
    as_u64 (field_of z "received") = Some received ∧ tg_terminal_received d = received ∧
    (tg_terminal_status d = "STOPPED" ∧ tg_classification d = "CLEAN_CLIENT_STOP" ∧
       event_of a = "CLIENT_STOP_OBSERVED" ∧ Forall (λ e, event_of e ≠ "PRODUCER_FAILURE") envs ∨
     tg_terminal_status d = "FAILED" ∧ tg_classification d ≠ "CLEAN_CLIENT_STOP" ∧
       event_of a = "PRODUCER_FAILURE" ∧ tg_terminal_error d = as_str (field_of a "error")).
Proof.
  unfold diagnose_sealed_transport_journal. intros ([] & _ & H)%res_bind_Ok.
  apply res_bind_Ok in H as (sc & Hsc%transport_scan_bound & H). apply res_bind_Ok in H as ([] & _ & H).
  apply res_bind_Ok in H as ([] & _ & H). apply res_bind_Ok in H as (acc & Hacc & H).
  apply res_bind_Ok in H as (status & Hst%ok_or_Ok & H). apply res_bind_Ok in H as (rcv & Hrc%ok_or_Ok & H).
  apply res_bind_Ok in H as ([] & Hre%reject_Ok & [= <-]). apply negb_false_iff, Z.eqb_eq in Hre. subst rcv.
  apply transport_scan_iff in Hsc as (envs & s & ep & _ & Hh & Hf & Hrun & ->).
  destruct (phase_run_inv _ _ Hrun) as (front & a & z & -> & Hz & Hcase).
  pose proof Hh as (lines & Hfile & HF & H2).
  assert (List.filter (λ l, negb (length l =? 0)%nat) (split_newlines file) = lines) as El.
  { rewrite Hfile, split_newlines_lines by (eapply Forall_impl; [exact HF|]; by intros l []).
    rewrite List.filter_app. cbn. rewrite app_nil_r. clear -H2 SerdeNonempty0.
    induction H2 as [|l e lines envs He _ IH]; [done|]. cbn. destruct l as [|c l].
    - exfalso. by apply (from_slice_nil e).
    - cbn. by rewrite IH. }
  rewrite El in Hacc. destruct (diagnosis_fold _ _ _ _ H2 Hacc) as (Hc & Ht & Hl).
  cbn [dx_event_counts dx_read_timeouts] in Hc, Ht.
  assert (last (front ++ [a; z]) = Some z) as Hlast.
  { replace (front ++ [a; z]) with ((front ++ [a]) ++ [z]) by (by rewrite <-app_assoc). apply last_snoc. }
  destruct (Hl z Hlast Hz) as (E1 & E2 & E3). rewrite Hst in E1. rewrite Hrc in E3.
  exists (front ++ [a; z]), front, a, z. cbn. split_and!; try done; try congruence.
  destruct Hcase as [(Ha & Hs & HFa)|(Ha & Hs & He)].
  - left. rewrite Hs in E1. injection E1 as ->. split_and!; try done.
    replace (front ++ [a; z]) with ((front ++ [a]) ++ [z]) by (by rewrite <-app_assoc).
    apply Forall_app. split; [done|]. constructor; [|constructor]. by rewrite Hz.
  - right. rewrite Hs in E1. injection E1 as ->. split_and!; try done; [|congruence].
    unfold classify. change (String.eqb "FAILED" "STOPPED") with false. cbv zeta. cbv iota.
    repeat match goal with |- (if ?b then _ else _) ≠ _ => destruct b end; discriminate.
Qed.
End transport_theory.

(** ** A connection that is opened, stopped by the client and diagnosed *)

Module TransportDemo.
#[export] Existing Instance toy_sha256.
#[export] Existing Instance toy_sha256_laws.
#[export] Existing Instance Json.serde.
#[export] Existing Instance Json.serde_object.
#[export] Existing Instance Json.serde_object_laws.
#[export] Existing Instance Json.serde_null.
#[export] Existing Instance RawDemo.file_durable_sink.
#[export] Instance json_get : SerdeGet := λ v f, as_object v ≫= λ o, map_get o f.

#[export] Instance body_eq_decision : EqDecision TransportJournalBodyV1.
Proof. intros a b. unfold Decision. decide equality; (apply Json.json_eq_dec || apply String.eq_dec || apply Z.eq_dec). Defined.
#[export] Instance envelope_eq_decision : EqDecision TransportJournalEnvelopeV1.
Proof. solve_decision. Defined.

Definition json (s : string) : Value :=
  match value_from_slice (Json.text s) with inr v => v | inl _ => Json.JNull end.
Definition tcp : string := "'tcp_info':{'status':'UNSUPPORTED_PLATFORM'}".
Definition events : list (string * Value) :=
  [("CONNECT_ATTEMPT", json "{'uri':'wss://data-stream.binance.vision:443/ws/btcusdt@depth'}");
   ("DNS_OBSERVED", json ("{'addresses':['18.65.3.9:443','[2600::1:a]:443'],'host':'data-stream.binance.vision',"
      ++ "'port':443,'role':'DIAGNOSTIC_OBSERVATION_NOT_CONNECT_SELECTION'}"));
   ("WEBSOCKET_CONNECTED", json ("{'local_endpoint':'10.0.0.2:51000','remote_endpoint':'18.65.3.9:443',"
      ++ tcp ++ ",'websocket_http_status':101}"));
   ("READ_TIMEOUT", json ("{'inactive_ms':900,'io_kind':'WouldBlock','native_os_error':null," ++ tcp ++ "}"));
   ("CLIENT_STOP_OBSERVED", json ("{" ++ tcp ++ "}"));
   ("TRANSPORT_TERMINAL", json "{'error':null,'received':12,'status':'STOPPED'}")].

(** The record [i] of the table is encoded as [i] stars. *)
Definition digest_at (i : nat) : string := hex (sha256 (replicate i x2a)).
Definition body_at (i : nat) (event : string) (payload : Value) : TransportJournalBodyV1 :=
  mkTransportBody "TransportJournalRecordV1" (Z.of_nat i) 5 6 "depth" "d1" event payload
    (match i with O => ZERO_DIGEST | S i => digest_at i end).
Definition bodies : list TransportJournalBodyV1 := imap (λ i e, body_at i e.1 e.2) events.
#[export] Instance demo_body_serde : Serde TransportJournalBodyV1 := table_serde bodies.
#[export] Instance demo_body_laws : SerdeLaws TransportJournalBodyV1 demo_body_serde.
Proof. apply table_serde_laws. Qed.
#[export] Instance demo_envelope_serde : Serde TransportJournalEnvelopeV1 :=
  text_serde (imap (λ i b, mkTransportEnvelope b (digest_at i)) bodies).
#[export] Instance demo_envelope_nonempty : SerdeNonempty TransportJournalEnvelopeV1 demo_envelope_serde.
Proof. apply text_serde_nonempty. Qed.

Definition opened : TransportJournalWriter (S := RawDemo.file_sink) :=
  mkTransportWriter "depth.jsonl" ([], []) "depth" "d1" 0 ZERO_DIGEST.
(** A stop with a payload that does not belong to it is refused on the way. *)
Definition calls : list (Z * Z * string * Value) :=
  (5, 6, "CLIENT_STOP_OBSERVED", Json.JNull) :: ((λ e, (5, 6, e.1, e.2)) <$> events).
Definition finished := run_transport calls opened [].
Definition disk : bytes := Eval vm_compute in (tw_file finished.1).1.
Definition seal : TransportJournalSealV1 := Eval vm_compute in
  match transport_seal finished.1 disk with Ok s => s | _ => mkTransportSeal "" "" 0 "" 0 "" end.
End TransportDemo.

Section transport_witnesses.
Import TransportDemo.

Lemma sealed_journal_is_acknowledged_witness :
  te_records seal = 6 ∧ te_records seal = len finished.2 ∧
  ∃ envs, holds_records disk envs ∧ phase_run Idle envs = Some Closed ∧
    (tn_body <$> envs = finished.2 ∨ collision (tn_body <$> envs) finished.2).
Proof.
  split; [vm_compute; reflexivity|].
  apply (sealed_journal_is_acknowledged "depth.jsonl" (([], []) : RawDemo.file_sink) "depth" "d1" opened calls
    finished.1 finished.2 disk seal).
  - reflexivity.
  - apply surjective_pairing.
  - vm_compute. reflexivity.
Defined.

Lemma transport_scan_exact_witness :
  scan_transport_journal "depth.jsonl" disk = Ok seal ∧
  ∃ envs stream epoch, 0 < len disk ≤ MAX_JOURNAL_BYTES ∧ holds_records disk envs ∧
    records_fit 0 ZERO_DIGEST stream epoch envs ∧ phase_run Idle envs = Some Closed ∧
    seal = mkTransportSeal "TransportJournalSealV1" "depth.jsonl" (len envs) (last_digest ZERO_DIGEST envs)
             (len disk) (hex (sha256 disk)).
Proof.
  split; [vm_compute; reflexivity|]. apply (proj1 (transport_scan_exact "depth.jsonl" disk seal)).
  vm_compute. reflexivity.
Defined.

Lemma diagnosis_exact_witness :
  ∃ d, diagnose_sealed_transport_journal "depth.jsonl" disk disk "depth" "d1"
      "wss://data-stream.binance.vision:443/ws/btcusdt@depth" 12 seal = Ok d ∧
    tg_websocket_remote_endpoint d = Some "18.65.3.9:443" ∧
  ∃ envs front a z, holds_records disk envs ∧ envs = front ++ [a; z] ∧ tg_records d = len envs ∧
    (∀ event, default 0 (tg_event_counts d !! event) = counted event envs) ∧
    tg_read_timeouts d = counted "READ_TIMEOUT" envs ∧ event_of z = "TRANSPORT_TERMINAL" ∧
    as_str (field_of z "status") = Some (tg_terminal_status d) ∧
    as_str (field_of z "error") = tg_terminal_error d ∧
    as_u64 (field_of z "received") = Some 12 ∧ tg_terminal_received d = 12 ∧
    (tg_terminal_status d = "STOPPED" ∧ tg_classification d = "CLEAN_CLIENT_STOP" ∧
       event_of a = "CLIENT_STOP_OBSERVED" ∧ Forall (λ e, event_of e ≠ "PRODUCER_FAILURE") envs ∨
     tg_terminal_status d = "FAILED" ∧ tg_classification d ≠ "CLEAN_CLIENT_STOP" ∧
       event_of a = "PRODUCER_FAILURE" ∧ tg_terminal_error d = as_str (field_of a "error")).
Proof.
  assert (match diagnose_sealed_transport_journal "depth.jsonl" disk disk "depth" "d1"
      "wss://data-stream.binance.vision:443/ws/btcusdt@depth" 12 seal with
    | Ok d => bool_decide (tg_websocket_remote_endpoint d = Some "18.65.3.9:443") | _ => false end = true) as H
    by (vm_compute; reflexivity).
  destruct (diagnose_sealed_transport_journal "depth.jsonl" disk disk "depth" "d1"
      "wss://data-stream.binance.vision:443/ws/btcusdt@depth" 12 seal) as [d| |] eqn:E; [|done..].
  exists d. split; [done|]. split; [by apply bool_decide_eq_true in H|].
  by apply (diagnosis_exact "depth.jsonl" disk "depth" "d1"
    "wss://data-stream.binance.vision:443/ws/btcusdt@depth" 12 seal d).
Defined.
End transport_witnesses.
