(* ===== verification/GenerationArtifact.v ===== *)
(** * Verification of one capture generation (generation_artifact.rs)

    A generation is a directory: a manifest, the startup record, a snapshot, the segments
    of two streams with their progress journals, two transport journals and telemetry.
    The verifier reads all of it again and accepts only when every part agrees with every
    other: digests, durability, sequence continuity, freshness and the directory itself.

    The file system is a value: what each path names and holds, the kind of each entry,
    the names in each directory and what [canonicalize] returns. A path is its text. *)

From stdpp Require Import base list strings option numbers sets gmap sorting.
From Stdlib Require Import ZArith Lia Ascii Strings.Byte Sorting.Sorted.
From S2P Require Import Prelude External RawLog RawLogSafety Replay Boundary DurabilityProgress SegmentChain Follower MarketReplay TransportJournal.
Local Open Scope Z_scope.

(** ** The file system *)

Inductive entry_kind := RegularFile | Directory | Symlink | OtherEntry.
#[global] Instance entry_kind_eq_decision : EqDecision entry_kind.
Proof. solve_decision. Defined.

Record tree := mkTree {
  t_disk : Follower.world; t_kind : gmap string entry_kind; t_entries : gmap string (list string);
  t_canonical : gmap string string
}.
(** What opening each path reads. *)
Definition t_files (t : tree) : files :=
  omap (λ identity, wd_data (t_disk t) !! identity) (wd_paths (t_disk t)).
Definition t_canonicalize (t : tree) (path : string) : res string :=
  ok_or (t_canonical t !! path) ("resolve " ++ path).

(** [String::from_utf8] of a file name: the encodings the standard library accepts. *)
Fixpoint utf8 (l : chars) : bool :=
  let continuation (c : ascii) := (128 <=? code c) && (code c <=? 191) in
  match l with
  | [] => true
  | a :: l1 =>
      if code a <=? 127 then utf8 l1 else
      match l1 with
      | [] => false
      | b :: l2 =>
          if (194 <=? code a) && (code a <=? 223) then continuation b && utf8 l2 else
          match l2 with
          | [] => false
          | c :: l3 =>
              if (224 <=? code a) && (code a <=? 239)
              then continuation b && continuation c
                   && (if code a =? 224 then 160 <=? code b else true)
                   && (if code a =? 237 then code b <=? 159 else true) && utf8 l3
              else
              match l3 with
              | [] => false
              | d :: l4 =>
                  (240 <=? code a) && (code a <=? 244)
                  && continuation b && continuation c && continuation d
                  && (if code a =? 240 then 144 <=? code b else true)
                  && (if code a =? 244 then code b <=? 143 else true) && utf8 l4
              end
          end
      end
  end.
Definition into_string (name msg : string) : res string :=
  _ ← reject (negb (utf8 (str_chars name))) msg; Ok name.

Definition reject_symlink (t : tree) (path : string) : res unit :=
  kind ← ok_or (t_kind t !! path) ("metadata " ++ path);
  reject (bool_decide (kind = Symlink)) ("artifact path must not be a symlink: " ++ path).

Definition exact_directory_entries (t : tree) (path : string) (expected : list string) : res unit :=
  _ ← reject_symlink t path;
  entries ← ok_or (t_entries t !! path) ("read directory " ++ path);
  actual ← try_map (λ name, _ ← reject_symlink t (path_join path name);
                            into_string name "artifact filename is not UTF-8") entries;
  reject (negb (bool_decide ((list_to_set actual : gset string) = list_to_set expected)))
    ("artifact inventory mismatch at " ++ path).

Definition safe_relative (value : string) : res string :=
  _ ← reject (String.eqb value "" || negb (forallb is_normal (path_components value)))
        ("artifact path is not a safe relative path: " ++ value);
  Ok value.

(** [format!("{n:06}")] *)
Definition pad6 (n : Z) : string :=
  let digits := dec_chars n in
  str_of (replicate (6 - length digits) (ascii_of_Z 48) ++ digits).

(** [slice.split_inclusive(|byte| byte == b'\n')] *)
Fixpoint split_inclusive (b : bytes) : list bytes :=
  match b with
  | [] => []
  | x :: b =>
      if bool_decide (x = x0a) then [x] :: split_inclusive b
      else match split_inclusive b with [] => [[x]] | line :: lines => (x :: line) :: lines end
  end.

(** ** Data *)

Definition SEGMENTED_SPEC_REVISION : string := "976cc580553890e92031b77306147c0ed1de5a46".
Definition MARKET_FRESHNESS_STARTUP_GRACE_S : Z := 30.
Definition MARKET_FRESHNESS_DEADLINE_S : Z := 30.
Definition RAW_BOUNDARY : string :=
  "WebSocket application messages after TLS/framing and before JSON interpretation".

Record SnapshotManifestV1 := mkSnapshotManifest {
  sm_endpoint : string; sm_http_status : Z; sm_last_update_id : Z; sm_bid_levels : Z;
  sm_ask_levels : Z; sm_raw_file : string; sm_durability_ack : DurabilityAckV1;
  sm_http_metadata_file : string; sm_http_metadata_sha256 : string
}.
Record StreamManifestV1 := mkStreamManifest {
  st_name : string; st_uri : string; st_connection_epoch : string;
  st_transport_metadata_file : option string; st_transport_metadata_sha256 : option string;
  st_transport_journal : option TransportJournalSealV1; st_received : Z; st_written : Z;
  st_durable_records : Z; st_segments : Z; st_last_socket_activity_mono_ns : Z;
  st_last_market_message_mono_ns : Z; st_server_shutdown_events : Z; st_segment_manifest : string;
  st_segment_manifest_sha256 : string; st_terminal_raw_sha256 : string; st_error : option string
}.
Record TelemetryManifestV1 := mkTelemetryManifest {
  tm_schema : string; tm_file : string; tm_records : Z; tm_durable_through_offset : Z;
  tm_terminal_record_sha256 : string; tm_terminal_mono_ns : Z; tm_file_sha256 : string
}.
Record ConnectedInfoV1 := mkConnectedInfo {
  ci_stream : string; ci_connection_epoch : string; ci_uri : string; ci_websocket_http_status : Z;
  ci_local_endpoint : string; ci_remote_endpoint : string;
  ci_response_headers : list (string * list string)
}.
Record TransportMetadataV1 := mkTransportMetadata {
  tx_schema : string; tx_session_id : string; tx_generation_index : Z; tx_symbol : string;
  tx_spec_revision : string; tx_connection : ConnectedInfoV1
}.
Record GenerationManifestV1 := mkGenerationManifest {
  gm_schema : string; gm_implementation : string; gm_session_id : string; gm_generation_index : Z;
  gm_status : string; gm_symbol : string; gm_duration_requested_s : Z; gm_segment_duration_s : Z;
  gm_started_wall_ns : Z; gm_finished_wall_ns : Z; gm_collector_executable_sha256 : string;
  gm_public_config_sha256 : string; gm_market_freshness_startup_grace_s : Z;
  gm_market_freshness_deadline_s : Z; gm_credentials : string; gm_order_entry : string;
  gm_raw_boundary : string; gm_spec_revision : string; gm_startup_file : string;
  gm_startup_sha256 : string; gm_failure : option string; gm_snapshot : option SnapshotManifestV1;
  gm_telemetry : TelemetryManifestV1; gm_streams : list StreamManifestV1
}.
Record TelemetryClockV1 := mkTelemetryClock {
  tc_quality : string; tc_source : string; tc_leap_indicator : option Z; tc_stratum : option Z;
  tc_last_successful_sync : option string
}.
(** The fields of a telemetry record that it has once with the prefix [depth_] and once
    with the prefix [trade_]. *)
Record StreamTelemetry := mkStreamTelemetry {
  tl_received : Z; tl_written : Z; tl_durable : Z; tl_segment : Z;
  tl_last_socket_activity_mono_ns : Z; tl_last_market_message_mono_ns : Z;
  tl_last_durable_mono_ns : Z; tl_queue_records : Z; tl_queue_bytes : Z; tl_max_queue_records : Z;
  tl_max_queue_bytes : Z; tl_max_queue_age_ns : Z; tl_last_sync_duration_ns : Z;
  tl_max_sync_duration_ns : Z
}.
Record TelemetryRecordV1 := mkTelemetryRecord {
  tt_schema : string; tt_record_index : Z; tt_wall_ns : Z; tt_mono_ns : Z; tt_clock : TelemetryClockV1;
  tt_depth : StreamTelemetry; tt_trade : StreamTelemetry
}.
Record StartupManifestV1 := mkStartup {
  su_schema : string; su_implementation : string; su_session_id : string; su_generation_index : Z;
  su_symbol : string; su_duration_requested_s : Z; su_segment_duration_s : Z; su_started_wall_ns : Z;
  su_collector_executable_sha256 : string; su_public_config_sha256 : string;
  su_market_freshness_startup_grace_s : Z; su_market_freshness_deadline_s : Z;
  su_credentials : string; su_order_entry : string; su_raw_boundary : string; su_spec_revision : string
}.
Record SnapshotHttpMetadataV1 := mkSnapshotHttp {
  sh_schema : string; sh_endpoint : string; sh_http_status : Z; sh_headers : list (string * list string);
  sh_receive_wall_ns : Z; sh_receive_mono_ns : Z; sh_body_complete : bool; sh_body_length : Z;
  sh_body_sha256 : string; sh_raw_file : string; sh_raw_record_sha256 : string
}.
Record VerifiedServerShutdownV1 := mkVerifiedShutdown {
  vd_stream : string; vd_connection_epoch : string; vd_segment_index : Z; vd_raw_file : string;
  vd_frame_index : Z; vd_receive_mono_ns : Z; vd_durable_record_count : Z;
  vd_durable_through_offset : Z; vd_last_record_sha256 : string
}.
Record VerifiedGenerationStreamV1 := mkVerifiedStream {
  vs_name : string; vs_connection_epoch : string; vs_records : Z; vs_segments : Z;
  vs_first_frame_index : Z; vs_last_frame_index : Z; vs_first_sequence : Z; vs_final_sequence : Z;
  vs_last_socket_activity_mono_ns : Z; vs_last_market_message_mono_ns : Z;
  vs_server_shutdown_events : Z; vs_server_shutdowns : list VerifiedServerShutdownV1;
  vs_manifest_sha256 : string; vs_terminal_raw_sha256 : string;
  vs_entries : list RawSegmentManifestEntryV1
}.
Record VerifiedGenerationV1 := mkVerifiedGeneration {
  vg_session_id : string; vg_session_dir : string; vg_generation_index : Z; vg_symbol : string;
  vg_duration_requested_s : Z; vg_segment_duration_s : Z; vg_started_wall_ns : Z;
  vg_finished_wall_ns : Z; vg_collector_executable_sha256 : string; vg_public_config_sha256 : string;
  vg_generation_manifest_sha256 : string; vg_snapshot_sha256 : string;
  vg_snapshot_record_sha256 : string; vg_snapshot_last_update_id : Z; vg_telemetry_sha256 : string;
  vg_telemetry_records : Z; vg_streams : list VerifiedGenerationStreamV1;
  vg_verification_sha256 : string
}.
Record VerificationDigestMaterial := mkVerificationMaterial {
  vm_session_id : string; vm_generation_index : Z; vm_symbol : string; vm_duration_requested_s : Z;
  vm_segment_duration_s : Z; vm_collector_executable_sha256 : string; vm_public_config_sha256 : string;
  vm_generation_manifest_sha256 : string; vm_snapshot_sha256 : string; vm_snapshot_record_sha256 : string;
  vm_snapshot_last_update_id : Z; vm_telemetry_sha256 : string; vm_telemetry_records : Z;
  vm_streams : list VerifiedGenerationStreamV1
}.
Record SequenceState := mkSequence {
  sq_started : bool; sq_first : option Z; sq_previous_final : option Z; sq_last_market_mono_ns : Z;
  sq_server_shutdown_events : Z
}.
Record RawMarketFreshness := mkFreshness {
  fr_first_active_mono_ns : option Z; fr_previous_active_mono_ns : option Z
}.

(** ** Freshness *)

Definition freshness_observe (f : RawMarketFreshness) (stream : string) (mono_ns active_end_ns : Z)
    : res RawMarketFreshness :=
  if active_end_ns <? mono_ns then Ok f else
  _ ← reject (match fr_previous_active_mono_ns f with
              | Some previous => saturating_mul MARKET_FRESHNESS_DEADLINE_S 1000000000
                                 <? saturating_sub mono_ns previous
              | None => false
              end) (stream ++ " BNRAW market-message gap exceeds the freshness deadline");
  Ok (mkFreshness (match fr_first_active_mono_ns f with Some first => Some first | None => Some mono_ns end)
        (Some mono_ns)).

Definition freshness_finish (f : RawMarketFreshness) (stream : string) (active_end_ns : Z) : res unit :=
  startup_grace_ns ← ok_or (checked_mul MARKET_FRESHNESS_STARTUP_GRACE_S 1000000000)
    "market freshness startup grace overflow";
  deadline_ns ← ok_or (checked_mul MARKET_FRESHNESS_DEADLINE_S 1000000000)
    "market freshness deadline overflow";
  let first_deadline_ns := Z.min active_end_ns startup_grace_ns in
  _ ← reject (match fr_first_active_mono_ns f with
              | Some first => first_deadline_ns <? first | None => true end)
        (stream ++ " BNRAW lacks a market message inside its active startup window");
  reject (match fr_previous_active_mono_ns f with
          | Some last => deadline_ns <? saturating_sub active_end_ns last
          | None => false
          end) (stream ++ " BNRAW market-message tail exceeds the freshness deadline").

Section generation.
Context `{Hsha : Sha256} `{Hval : SerdeValue} `{Hobj : !SerdeObject} `{Hnull : !SerdeNull} `{Hget : !SerdeGet}.
Context `{Hb64 : Base64} `{Hmb : Serde ManifestBodyV1}.
Context `{Hpb : Serde ProgressBodyV1} `{Hpe : Serde ProgressEnvelopeV1}.
Context `{Htjb : Serde (TransportJournalBodyV1 (Hval := Hval))}.
Context `{Htje : Serde (TransportJournalEnvelopeV1 (Hval := Hval))}.
Context `{Hgm : Serde GenerationManifestV1} `{Hsu : Serde StartupManifestV1}.
Context `{Hsh : Serde SnapshotHttpMetadataV1} `{Htx : Serde TransportMetadataV1}.
Context `{Htt : Serde TelemetryRecordV1} `{Hvm : Serde VerificationDigestMaterial}.

Definition sha256_bytes (b : bytes) : string := hex (sha256 b).
Definition tree_sha256_file (t : tree) (path : string) : res string :=
  file ← open_file (t_files t) path; Ok (sha256_bytes file).

Definition artifact_u64 (value : Value) (field label : string) : res Z :=
  ok_or (as_u64 (value_index value field)) (label ++ " field " ++ field ++ " is not an unsigned integer").
Definition artifact_array (value : Value) (field label : string) : res (list Value) :=
  ok_or (as_array (value_index value field)) (label ++ " field " ++ field ++ " is not an array").

Definition validate_level (label : string) (level : Value) : res unit :=
  fields ← ok_or (as_array level) (label ++ " level is not an array");
  reject (match fields with
          | [a; b] => bool_decide (as_str a = None) || bool_decide (as_str b = None)
          | _ => true
          end) (label ++ " level is not an exact price/quantity pair").
Definition validate_levels (levels : list Value) (label : string) : res unit :=
  _ ← try_map (validate_level label) levels; Ok ().

(** ** The snapshot *)

Definition validate_snapshot (t : tree) (session symbol : string) (snapshot : SnapshotManifestV1)
    : res (string * string) :=
  _ ← reject (negb (sm_http_status snapshot =? 200)
              || negb (String.eqb (sm_raw_file snapshot) "snapshot.bnraw")
              || negb (String.eqb (sm_http_metadata_file snapshot) "snapshot-http.json")
              || negb (String.eqb (sm_endpoint snapshot)
                         ("https://data-api.binance.vision/api/v3/depth?symbol=" ++ symbol ++ "&limit=5000")))
        "snapshot manifest identity/status is invalid";
  let path := path_join session (sm_raw_file snapshot) in
  file ← open_file (t_files t) path;
  scan ← scan_raw_log file;
  records ← read_raw_records file;
  let ack := sm_durability_ack snapshot in
  let msg := "snapshot durability ACK does not match exact BNRAW" in
  _ ← reject (negb (sc_clean_eof scan) || negb (sc_records scan =? 1) || negb (len records =? 1)
              || negb (String.eqb (ack_schema ack) "DurabilityAckV1")
              || negb (ack_durable_record_count ack =? 1)
              || negb (ack_durable_through_offset ack =? sc_last_good_offset scan)
              || negb (String.eqb (ack_last_record_sha256 ack) (sc_last_record_sha256 scan))
              || negb (len (ack_streams ack) =? 1)) msg;
  record ← expect (head records);
  watermark ← expect (head (ack_streams ack));
  let f := re_frame record in
  _ ← reject (negb (String.eqb (rf_symbol f) symbol) || negb (String.eqb (rf_venue f) "binance-spot")
              || negb (String.eqb (rf_environment f) "production-public-market-data")
              || negb (String.eqb (rf_stream f) (to_ascii_lowercase symbol ++ "@rest-depth-snapshot"))
              || negb (String.eqb (rf_endpoint f) (sm_endpoint snapshot))
              || negb (String.eqb (rf_spec_revision f) SEGMENTED_SPEC_REVISION)
              || negb (String.eqb (rf_recorder_state f) "PENDING")
              || negb (String.eqb (wm_connection_epoch watermark) (rf_connection_epoch f))
              || negb (String.eqb (wm_stream watermark) (rf_stream f))
              || negb (wm_durable_through_frame_index watermark =? 0))
        "snapshot raw identity differs from manifest/contract";
  payload ← map_err "snapshot payload is invalid JSON: " (value_from_slice (rf_payload f));
  bids ← artifact_array payload "bids" "snapshot";
  asks ← artifact_array payload "asks" "snapshot";
  _ ← validate_levels bids "snapshot bid";
  _ ← validate_levels asks "snapshot ask";
  last_update_id ← artifact_u64 payload "lastUpdateId" "snapshot";
  _ ← reject (negb (last_update_id =? sm_last_update_id snapshot)
              || negb (len bids =? sm_bid_levels snapshot) || negb (len asks =? sm_ask_levels snapshot))
        "snapshot payload summary differs from manifest";
  metadata_bytes ← open_file (t_files t) (path_join session (sm_http_metadata_file snapshot));
  _ ← reject (negb (String.eqb (sha256_bytes metadata_bytes) (sm_http_metadata_sha256 snapshot)))
        "snapshot HTTP metadata digest differs from manifest";
  metadata ← map_err "invalid snapshot HTTP metadata: " (from_slice (A := SnapshotHttpMetadataV1) metadata_bytes);
  _ ← reject (negb (String.eqb (sh_schema metadata) "SnapshotHttpMetadataV1")
              || negb (String.eqb (sh_endpoint metadata) (sm_endpoint snapshot))
              || negb (sh_http_status metadata =? sm_http_status snapshot)
              || bool_decide (sh_headers metadata = []) || negb (sh_body_complete metadata)
              || negb (sh_body_length metadata =? len (rf_payload f))
              || negb (String.eqb (sh_body_sha256 metadata) (sha256_bytes (rf_payload f)))
              || negb (String.eqb (sh_raw_file metadata) (sm_raw_file snapshot))
              || negb (String.eqb (sh_raw_record_sha256 metadata) (re_record_sha256 record))
              || negb (sh_receive_wall_ns metadata =? rf_receive_wall_ns f)
              || negb (sh_receive_mono_ns metadata =? rf_receive_mono_ns f))
        "snapshot HTTP metadata is not bound to exact raw body";
  digest ← tree_sha256_file t path;
  Ok (digest, re_record_sha256 record).

(** ** Records *)

Definition stream_of (symbol name : string) : string :=
  if String.eqb name "depth" then (to_ascii_lowercase symbol ++ "@depth@100ms")%string
  else (to_ascii_lowercase symbol ++ "@trade")%string.

Definition validate_frame_identity (record : RawRecordEnvelopeV1) (symbol name epoch uri : string)
    : res Value :=
  let f := re_frame record in
  _ ← reject (negb (String.eqb (rf_symbol f) symbol) || negb (String.eqb (rf_venue f) "binance-spot")
              || negb (String.eqb (rf_environment f) "production-public-market-data")
              || negb (String.eqb (rf_stream f) (stream_of symbol name))
              || negb (String.eqb (rf_connection_epoch f) epoch) || negb (String.eqb (rf_endpoint f) uri)
              || negb (String.eqb (rf_spec_revision f) SEGMENTED_SPEC_REVISION)
              || negb (String.eqb (rf_recorder_state f) "PENDING")
              || is_blank (rf_clock_quality f) || is_blank (rf_clock_source f))
        (name ++ " raw frame identity/metadata drift");
  value ← map_err (name ++ " payload is invalid JSON: ") (value_from_slice (rf_payload f));
  _ ← reject (negb (is_object value)) (name ++ " payload root is not an object");
  Ok value.

(** The fields of a depth event. *)
Definition depth_fields (value : Value) (symbol : string) : res (Z * Z) :=
  _ ← reject (negb (bool_decide (as_str (value_index value "e") = Some "depthUpdate"))
              || negb (bool_decide (as_str (value_index value "s") = Some symbol)))
        "depth event identity is invalid";
  _ ← artifact_u64 value "E" "depth";
  first ← artifact_u64 value "U" "depth";
  final_id ← artifact_u64 value "u" "depth";
  _ ← reject (final_id <? first) "depth update range is inverted";
  bids ← artifact_array value "b" "depth";
  _ ← validate_levels bids "depth bid";
  asks ← artifact_array value "a" "depth";
  _ ← validate_levels asks "depth ask";
  Ok (first, final_id).

Definition validate_depth_payload (value : Value) (symbol : string) (snapshot_sequence : Z)
    (sequence : SequenceState) : res SequenceState :=
  '(first, final_id) ← depth_fields value symbol;
  if negb (sq_started sequence) then
    if final_id <=? snapshot_sequence then Ok sequence else
    bridge ← ok_or (checked_add snapshot_sequence 1) "snapshot sequence overflow";
    _ ← reject ((bridge <? first) || (final_id <? bridge)) "depth stream cannot bridge its durable snapshot";
    Ok (mkSequence true (Some first) (Some final_id) (sq_last_market_mono_ns sequence)
          (sq_server_shutdown_events sequence))
  else
    previous ← expect (sq_previous_final sequence);
    next ← ok_or (checked_add previous 1) "depth sequence overflow";
    _ ← reject ((next <? first) || (final_id <? next)) "depth update discontinuity";
    Ok (mkSequence (sq_started sequence) (sq_first sequence) (Some final_id)
          (sq_last_market_mono_ns sequence) (sq_server_shutdown_events sequence)).

(** The fields of a trade event; its ID is returned. *)
Definition trade_fields (value : Value) (symbol : string) : res Z :=
  _ ← reject (negb (bool_decide (as_str (value_index value "e") = Some "trade"))
              || negb (bool_decide (as_str (value_index value "s") = Some symbol)))
        "trade event identity is invalid";
  _ ← artifact_u64 value "E" "trade";
  trade_id ← artifact_u64 value "t" "trade";
  _ ← artifact_u64 value "T" "trade";
  _ ← try_map (λ field, reject (bool_decide (as_str (value_index value field) = None))
                          ("trade field " ++ field ++ " is not a decimal string")) ["p"; "q"]%string;
  _ ← try_map (λ field, reject (bool_decide (as_bool (value_index value field) = None))
                          ("trade field " ++ field ++ " is not boolean")) ["m"; "M"]%string;
  Ok trade_id.

Definition validate_trade_payload (value : Value) (symbol : string) (sequence : SequenceState)
    : res SequenceState :=
  trade_id ← trade_fields value symbol;
  match sq_previous_final sequence with
  | Some previous =>
      _ ← reject (trade_id <=? previous) "trade ID duplicated or regressed";
      Ok (mkSequence (sq_started sequence) (sq_first sequence) (Some trade_id)
            (sq_last_market_mono_ns sequence) (sq_server_shutdown_events sequence))
  | None => Ok (mkSequence true (Some trade_id) (Some trade_id) (sq_last_market_mono_ns sequence)
                  (sq_server_shutdown_events sequence))
  end.

Definition validate_server_shutdown_payload (value : Value) (sequence : SequenceState)
    : res (bool * SequenceState) :=
  if negb (bool_decide (as_str (value_index value "e") = Some "serverShutdown")) then Ok (false, sequence)
  else
    _ ← artifact_u64 value "E" "serverShutdown";
    events ← ok_or (checked_add (sq_server_shutdown_events sequence) 1) "serverShutdown event count overflow";
    Ok (true, mkSequence (sq_started sequence) (sq_first sequence) (sq_previous_final sequence)
                (sq_last_market_mono_ns sequence) events).

Definition seal_ack (entry : RawSegmentManifestEntryV1) : DurabilityAckV1 :=
  let seal := me_seal entry in
  mkAck "DurabilityAckV1" (sl_records seal) (sl_durable_through_offset seal) (sl_terminal_record_sha256 seal)
    [mkWatermark (sl_connection_epoch seal) (sl_stream seal) (sl_last_frame_index seal)].

(** ** Transport *)

Definition no_line_break (value : string) : bool :=
  forallb (λ c, negb ((code c =? 13) || (code c =? 10))) (str_chars value).

Definition validate_transport_metadata (t : tree) (session session_id : string) (generation_index : Z)
    (symbol : string) (stream : StreamManifestV1) (expected_uri : string) : res unit :=
  let name := st_name stream in
  file ← ok_or (st_transport_metadata_file stream) (name ++ " stream lacks transport metadata file");
  digest ← ok_or (st_transport_metadata_sha256 stream) (name ++ " stream lacks transport metadata digest");
  _ ← reject (negb (String.eqb file ("transport-" ++ name ++ ".json")) || negb (is_digest digest))
        (name ++ " transport metadata reference is invalid");
  relative ← safe_relative file;
  let path := path_join session relative in
  _ ← reject_symlink t path;
  content ← open_file (t_files t) path;
  _ ← reject (negb (String.eqb (sha256_bytes content) digest)) (name ++ " transport metadata digest drift");
  metadata ← map_err ("invalid " ++ name ++ " transport metadata: ") (from_slice (A := TransportMetadataV1) content);
  let connection := tx_connection metadata in
  '(local_ip, local_port) ← ok_or (SocketText.parse_socket_addr (ci_local_endpoint connection))
    ("invalid " ++ name ++ " local endpoint");
  '(remote_ip, remote_port) ← ok_or (SocketText.parse_socket_addr (ci_remote_endpoint connection))
    ("invalid " ++ name ++ " remote endpoint");
  let headers_valid :=
    negb (bool_decide (ci_response_headers connection = []))
    && forallb (λ '(name, values), negb (is_blank name) && negb (bool_decide (values = []))
                                   && forallb no_line_break values) (ci_response_headers connection) in
  reject (negb (String.eqb (tx_schema metadata) "TransportMetadataV1")
          || negb (String.eqb (tx_session_id metadata) session_id)
          || negb (tx_generation_index metadata =? generation_index)
          || negb (String.eqb (tx_symbol metadata) symbol)
          || negb (String.eqb (tx_spec_revision metadata) SEGMENTED_SPEC_REVISION)
          || negb (String.eqb (ci_stream connection) name)
          || negb (String.eqb (ci_connection_epoch connection) (st_connection_epoch stream))
          || negb (String.eqb (ci_uri connection) expected_uri)
          || negb (String.eqb (ci_uri connection) (st_uri stream))
          || negb (ci_websocket_http_status connection =? 101)
          || (local_port =? 0) || SocketText.is_unspecified local_ip
          || negb (remote_port =? 443) || SocketText.is_unspecified remote_ip || negb headers_valid)
    (name ++ " transport metadata identity/handshake drift").

Definition validate_transport_journal (t : tree) (session : string) (stream : StreamManifestV1) : res unit :=
  let name := st_name stream in
  seal ← ok_or (st_transport_journal stream) (name ++ " stream lacks a sealed transport journal");
  _ ← reject (negb (String.eqb (te_schema seal) "TransportJournalSealV1")
              || negb (String.eqb (te_file seal) ("transport-" ++ name ++ "-events.jsonl"))
              || (te_records seal =? 0) || negb (is_digest (te_terminal_record_sha256 seal))
              || (te_file_bytes seal =? 0) || negb (is_digest (te_file_sha256 seal)))
        (name ++ " transport journal seal is invalid");
  relative ← safe_relative (te_file seal);
  let path := path_join session relative in
  _ ← reject_symlink t path;
  file ← open_file (t_files t) path;
  scanned ← verify_sealed_transport_journal (te_file seal) file name (st_connection_epoch stream)
              (st_uri stream) (st_received stream);
  reject (negb (bool_decide (scanned = seal))) (name ++ " transport journal seal drift").


(** ** Streams *)

Definition verify_portable_raw_reference (t : tree) (progress_path raw_path raw_reference : string) : res unit :=
  _ ← validate_portable_raw_reference raw_reference;
  let progress_parent :=
    match path_parent progress_path with
    | Some parent => if String.eqb parent "" then "."%string else parent
    | None => "."%string
    end in
  referenced ← t_canonicalize t (path_join progress_parent raw_reference);
  supplied ← t_canonicalize t raw_path;
  reject (negb (String.eqb referenced supplied)) "raw reference does not identify supplied raw path".

Definition open_with_reference (t : tree) (progress_path raw_path : string) (genesis : RawSegmentGenesisV1)
    (expected_reference : string) : res SegmentDurabilityFollower :=
  _ ← verify_portable_raw_reference t progress_path raw_path expected_reference;
  open_with_raw_identity (t_disk t) progress_path raw_path genesis expected_reference.

(** The progress journal of a segment, followed to its clean end. *)
Definition follow_to_end (t : tree) (progress_path raw_path : string) (genesis : RawSegmentGenesisV1)
    (expected_reference : string) : res DurabilityFollowerCursorV1 :=
  follower ← open_with_reference t progress_path raw_path genesis expected_reference;
  (require_clean_eof (t_disk t) follower).2.

Definition div_u64 (a b : Z) : res Z := if b =? 0 then Panic else Ok (a / b).

(** What the loop over the records of a stream keeps. *)
Record stream_state := mkStreamState {
  ss_previous_mono : option Z; ss_sequence : SequenceState; ss_freshness : RawMarketFreshness;
  ss_server_shutdowns : list VerifiedServerShutdownV1
}.
Definition stream_start : stream_state :=
  mkStreamState None (mkSequence false None None 0 0) (mkFreshness None None) [].

Definition set_last_market (mono_ns : Z) (s : SequenceState) : SequenceState :=
  mkSequence (sq_started s) (sq_first s) (sq_previous_final s) mono_ns (sq_server_shutdown_events s).

Definition stream_record_turn (symbol : string) (snapshot_sequence segment_ns active_end_ns : Z)
    (stream : StreamManifestV1) (seal : RawSegmentSealV1) (acknowledgements : list DurabilityAckV1)
    (ss : stream_state) (record : RawRecordEnvelopeV1) : res stream_state :=
  let f := re_frame record in
  let name := st_name stream in
  segment ← div_u64 (rf_receive_mono_ns f) segment_ns;
  _ ← reject (negb (segment =? sl_segment_index seal)) (name ++ " record is outside its declared monotonic segment");
  _ ← reject (match ss_previous_mono ss with Some old => rf_receive_mono_ns f <? old | None => false end)
        (name ++ " receive monotonic time regressed");
  value ← validate_frame_identity record symbol name (st_connection_epoch stream) (st_uri stream);
  '(shutdown, sequence) ← validate_server_shutdown_payload value (ss_sequence ss);
  if shutdown : bool then
    durable ← ok_or (checked_add (re_record_index record) 1) "serverShutdown durable count overflow";
    let exact_ack := mkAck "DurabilityAckV1" durable (re_end_offset record) (re_record_sha256 record)
                       [mkWatermark (st_connection_epoch stream) (sl_stream seal) (rf_frame_index f)] in
    _ ← reject (negb (bool_decide (exact_ack ∈ acknowledgements)))
          (name ++ " serverShutdown record lacks its exact durable BNACK");
    Ok (mkStreamState (Some (rf_receive_mono_ns f)) sequence (ss_freshness ss)
          (ss_server_shutdowns ss
           ++ [mkVerifiedShutdown name (st_connection_epoch stream) (sl_segment_index seal) (sl_raw_file seal)
                 (rf_frame_index f) (rf_receive_mono_ns f) durable (re_end_offset record)
                 (re_record_sha256 record)]))
  else
    sequence ← (if String.eqb name "depth" then validate_depth_payload value symbol snapshot_sequence sequence
                else validate_trade_payload value symbol sequence);
    freshness ← freshness_observe (ss_freshness ss) name (rf_receive_mono_ns f) active_end_ns;
    Ok (mkStreamState (Some (rf_receive_mono_ns f)) (set_last_market (rf_receive_mono_ns f) sequence) freshness
          (ss_server_shutdowns ss)).

Definition stream_segment_turn (t : tree) (stream_directory symbol : string)
    (snapshot_sequence segment_ns active_end_ns : Z) (stream : StreamManifestV1)
    (acc : Z * stream_state) (entry : RawSegmentManifestEntryV1) : res (Z * stream_state) :=
  let name := st_name stream in
  let seal := me_seal entry in
  let genesis := genesis_from_seal seal in
  let raw_path := path_join stream_directory (sl_raw_file seal) in
  let progress_path := path_join stream_directory ("segment-" ++ pad6 (sl_segment_index seal) ++ ".bnack") in
  progress_file ← open_file (t_files t) progress_path;
  progress_scan ← scan_durability_progress progress_file;
  cursor ← follow_to_end t progress_path raw_path genesis (sl_raw_file seal);
  let msg := (name ++ " BNACK differs from exact sealed BNRAW")%string in
  _ ← reject (negb (bool_decide (fc_latest_ack cursor = Some (seal_ack entry)))
              || negb (fc_raw_record_count cursor =? sl_records seal)
              || negb (fc_raw_offset cursor =? sl_durable_through_offset seal)
              || negb (String.eqb (fc_raw_previous_record_sha256 cursor) (sl_terminal_record_sha256 seal))) msg;
  next_frame ← ok_or (checked_add (sl_last_frame_index seal) 1) "raw frame index overflow";
  _ ← reject (negb (fc_raw_next_frame_index cursor =? next_frame)) msg;
  raw ← open_file (t_files t) raw_path;
  records ← read_raw_segment_records raw genesis;
  _ ← reject (negb (len records =? sl_records seal)) (name ++ " segment record count drift");
  ss ← try_fold (stream_record_turn symbol snapshot_sequence segment_ns active_end_ns stream seal
                   (px_acknowledgements progress_scan)) acc.2 records;
  total ← ok_or (checked_add acc.1 (len records)) "generation record count overflow";
  Ok (total, ss).

Definition stream_uri (symbol name : string) : string :=
  ("wss://data-stream.binance.vision:443/ws/" ++ stream_of symbol name ++ "?timeUnit=MICROSECOND")%string.

Definition validate_stream (t : tree) (session session_id : string) (generation_index : Z) (symbol : string)
    (snapshot_sequence duration_requested_s segment_duration_s : Z) (stream : StreamManifestV1)
    : res VerifiedGenerationStreamV1 :=
  let name := st_name stream in
  _ ← reject (negb (String.eqb name "depth" || String.eqb name "trade")
              || bool_decide (is_Some (st_error stream)) || (st_received stream =? 0)
              || negb (st_received stream =? st_written stream)
              || negb (st_written stream =? st_durable_records stream) || (st_segments stream =? 0))
        "generation stream terminal status/count is invalid";
  let expected_uri := stream_uri symbol name in
  let expected_manifest := (name ++ "/segments.bnseg")%string in
  _ ← reject (negb (String.eqb (st_uri stream) expected_uri)
              || negb (String.eqb (st_segment_manifest stream) expected_manifest))
        (name ++ " stream endpoint/manifest drift");
  _ ← validate_transport_metadata t session session_id generation_index symbol stream expected_uri;
  _ ← validate_transport_journal t session stream;
  manifest_relative ← safe_relative (st_segment_manifest stream);
  scan ← scan_segment_manifest (t_files t) (path_join session manifest_relative);
  _ ← reject (negb (ms_clean_eof scan) || negb (ms_records scan =? st_segments stream)
              || negb (len (ms_entries scan) =? st_segments stream)
              || negb (String.eqb (ms_last_record_sha256 scan) (st_segment_manifest_sha256 stream)))
        (name ++ " BNSEG terminal state mismatch");
  let stream_directory := path_join session name in
  segment_ns ← ok_or (checked_mul segment_duration_s 1000000000) "segment duration nanoseconds overflow";
  active_end_ns ← ok_or (checked_mul duration_requested_s 1000000000)
    "generation duration nanoseconds overflow";
  _ ← exact_directory_entries t stream_directory
        ("segments.bnseg"%string
         :: (ms_entries scan ≫= λ entry,
             [sl_raw_file (me_seal entry);
              ("segment-" ++ pad6 (sl_segment_index (me_seal entry)) ++ ".bnack")%string]));
  _ ← verify_segment_manifest_files (t_files t) scan stream_directory;
  '(records_total, ss) ←
    try_fold (stream_segment_turn t stream_directory symbol snapshot_sequence segment_ns active_end_ns stream)
      (0, stream_start) (ms_entries scan);
  first ← ok_or (head (ms_entries scan)) "verified stream manifest is empty";
  last ← expect (last (ms_entries scan));
  _ ← freshness_finish (ss_freshness ss) name active_end_ns;
  let msg := (name ++ " terminal lineage/continuity mismatch")%string in
  _ ← reject (negb (records_total =? st_received stream) || negb (sl_first_frame_index (me_seal first) =? 0)) msg;
  last_frame ← ok_or (checked_sub (st_received stream) 1) "empty stream record count";
  let sequence := ss_sequence ss in
  _ ← reject (negb (sl_last_frame_index (me_seal last) =? last_frame)
              || negb (String.eqb (sl_terminal_record_sha256 (me_seal last)) (st_terminal_raw_sha256 stream))
              || negb (sq_last_market_mono_ns sequence =? st_last_market_message_mono_ns stream)
              || (st_last_socket_activity_mono_ns stream <? st_last_market_message_mono_ns stream)
              || negb (sq_server_shutdown_events sequence =? st_server_shutdown_events stream)
              || negb (sq_started sequence)) msg;
  first_sequence ← expect (sq_first sequence);
  final_sequence ← expect (sq_previous_final sequence);
  Ok (mkVerifiedStream name (st_connection_epoch stream) records_total (st_segments stream)
        (sl_first_frame_index (me_seal first)) (sl_last_frame_index (me_seal last)) first_sequence
        final_sequence (st_last_socket_activity_mono_ns stream) (st_last_market_message_mono_ns stream)
        (st_server_shutdown_events stream) (ss_server_shutdowns ss) (ms_last_record_sha256 scan)
        (sl_terminal_record_sha256 (me_seal last)) (ms_entries scan)).

(** ** Telemetry *)

Definition telemetry_shape_bad (mono_ns : Z) (s : StreamTelemetry) : bool :=
  (tl_received s <? tl_written s) || (tl_written s <? tl_durable s)
  || (mono_ns <? tl_last_socket_activity_mono_ns s) || (mono_ns <? tl_last_market_message_mono_ns s)
  || (mono_ns <? tl_last_durable_mono_ns s)
  || (tl_last_socket_activity_mono_ns s <? tl_last_market_message_mono_ns s)
  || (tl_max_queue_records s <? tl_queue_records s) || (tl_max_queue_bytes s <? tl_queue_bytes s)
  || (tl_max_sync_duration_ns s <? tl_last_sync_duration_ns s).
Definition telemetry_stale (mono_ns : Z) (s : StreamTelemetry) : bool :=
  (tl_last_market_message_mono_ns s =? 0)
  || (MARKET_FRESHNESS_DEADLINE_S * 1000000000 <? saturating_sub mono_ns (tl_last_market_message_mono_ns s)).
Definition telemetry_regressed (old s : StreamTelemetry) : bool :=
  (tl_received s <? tl_received old) || (tl_written s <? tl_written old) || (tl_durable s <? tl_durable old)
  || (tl_segment s <? tl_segment old)
  || (tl_last_socket_activity_mono_ns s <? tl_last_socket_activity_mono_ns old)
  || (tl_last_market_message_mono_ns s <? tl_last_market_message_mono_ns old)
  || (tl_max_queue_records s <? tl_max_queue_records old) || (tl_max_queue_bytes s <? tl_max_queue_bytes old)
  || (tl_max_queue_age_ns s <? tl_max_queue_age_ns old)
  || (tl_max_sync_duration_ns s <? tl_max_sync_duration_ns old).

Definition HOST_CLOCK : string := "HOST_CLOCK_SERVICE_LEAP0_NO_ONE_WAY_BOUND".
Definition clock_bad (c : TelemetryClockV1) : bool :=
  is_blank (tc_quality c) || is_blank (tc_source c)
  || negb (String.eqb (tc_quality c) HOST_CLOCK || String.eqb (tc_quality c) "UNKNOWN")
  || (String.eqb (tc_quality c) HOST_CLOCK
      && (negb (bool_decide (tc_leap_indicator c = Some 0))
          || negb (match tc_stratum c with Some n => (1 <=? n) && (n <=? 15) | None => false end)
          || bool_decide (tc_last_successful_sync c = None))).

Record telemetry_state := mkTelemetryState {
  tz_previous : option TelemetryRecordV1; tz_count : Z; tz_terminal_sha256 : option string; tz_offset : Z
}.
Definition telemetry_turn (duration_requested_s : Z) (tz : telemetry_state) (line_with_newline : bytes)
    : res telemetry_state :=
  _ ← reject ((len line_with_newline <=? 1) || negb (bool_decide (last line_with_newline = Some x0a)))
        "telemetry contains an empty or partial record";
  offset ← ok_or (checked_add (tz_offset tz) (len line_with_newline)) "telemetry offset overflow";
  let line := take (length line_with_newline - 1) line_with_newline in
  record ← map_err "invalid telemetry JSON: " (from_slice (A := TelemetryRecordV1) line);
  let mono_ns := tt_mono_ns record in
  _ ← reject (negb (String.eqb (tt_schema record) "CaptureTelemetryV1")
              || negb (tt_record_index record =? tz_count tz) || (tt_wall_ns record =? 0)
              || clock_bad (tt_clock record) || telemetry_shape_bad mono_ns (tt_depth record)
              || telemetry_shape_bad mono_ns (tt_trade record))
        "telemetry record shape/counters are invalid";
  let active_end_ns := saturating_mul duration_requested_s 1000000000 in
  _ ← reject ((MARKET_FRESHNESS_STARTUP_GRACE_S * 1000000000 <=? mono_ns) && (mono_ns <? active_end_ns)
              && (telemetry_stale mono_ns (tt_depth record) || telemetry_stale mono_ns (tt_trade record)))
        "telemetry records stale market data despite fresh socket/control activity";
  _ ← reject (match tz_previous tz with
              | Some old => (mono_ns <? tt_mono_ns old) || telemetry_regressed (tt_depth old) (tt_depth record)
                            || telemetry_regressed (tt_trade old) (tt_trade record)
              | None => false
              end) "telemetry monotonic lineage regressed";
  count ← ok_or (checked_add (tz_count tz) 1) "telemetry record count overflow";
  Ok (mkTelemetryState (Some record) count (Some (sha256_bytes line_with_newline)) offset).

(** The last record of the telemetry agrees with a sealed stream. *)
Definition telemetry_terminal (s : StreamTelemetry) (v : VerifiedGenerationStreamV1) (msg : string) : res unit :=
  _ ← reject (negb (tl_received s =? vs_records v) || negb (tl_written s =? vs_records v)
              || negb (tl_durable s =? vs_records v)) msg;
  last_segment ← sub_u64 (vs_segments v) 1;
  reject (negb (tl_segment s =? last_segment) || negb (tl_queue_records s =? 0) || negb (tl_queue_bytes s =? 0)
          || negb (tl_last_socket_activity_mono_ns s =? vs_last_socket_activity_mono_ns v)
          || negb (tl_last_market_message_mono_ns s =? vs_last_market_message_mono_ns v)) msg.

Definition validate_telemetry (t : tree) (path : string) (manifest : TelemetryManifestV1)
    (streams : list VerifiedGenerationStreamV1) (duration_requested_s : Z) : res (string * Z) :=
  content ← open_file (t_files t) path;
  let file_sha256 := sha256_bytes content in
  _ ← reject (negb (String.eqb (tm_schema manifest) "TelemetryArtifactV1")
              || negb (String.eqb (tm_file manifest) "telemetry.jsonl") || (tm_records manifest =? 0)
              || (tm_durable_through_offset manifest =? 0)
              || negb (is_digest (tm_terminal_record_sha256 manifest)) || (tm_terminal_mono_ns manifest =? 0)
              || negb (String.eqb (tm_file_sha256 manifest) file_sha256) || bool_decide (content = [])
              || negb (bool_decide (last content = Some x0a))
              || negb (len content =? tm_durable_through_offset manifest))
        "telemetry has an empty or partial terminal record";
  tz ← try_fold (telemetry_turn duration_requested_s) (mkTelemetryState None 0 None 0) (split_inclusive content);
  terminal ← ok_or (tz_previous tz) "telemetry has no records";
  depth ← ok_or (List.find (λ s, String.eqb (vs_name s) "depth") (rev streams))
    "verified generation lacks depth stream";
  trade ← ok_or (List.find (λ s, String.eqb (vs_name s) "trade") (rev streams))
    "verified generation lacks trade stream";
  let msg := "telemetry terminal counters differ from sealed raw streams"%string in
  _ ← telemetry_terminal (tt_depth terminal) depth msg;
  _ ← telemetry_terminal (tt_trade terminal) trade msg;
  _ ← reject ((tl_max_sync_duration_ns (tt_depth terminal) =? 0)
              || (tl_max_sync_duration_ns (tt_trade terminal) =? 0)
              || negb (tz_count tz =? tm_records manifest)
              || negb (tz_offset tz =? tm_durable_through_offset manifest)
              || negb (bool_decide (tz_terminal_sha256 tz = Some (tm_terminal_record_sha256 manifest)))
              || negb (tt_mono_ns terminal =? tm_terminal_mono_ns manifest)
              || (tt_mono_ns terminal <? saturating_mul duration_requested_s 1000000000)) msg;
  Ok (file_sha256, tz_count tz).

(** ** The generation *)

Definition validate_startup (startup : StartupManifestV1) (manifest : GenerationManifestV1) : res unit :=
  reject (negb (String.eqb (su_schema startup) "RawGenerationStartupV1")
          || negb (String.eqb (su_implementation startup) (gm_implementation manifest))
          || negb (String.eqb (su_session_id startup) (gm_session_id manifest))
          || negb (su_generation_index startup =? gm_generation_index manifest)
          || negb (String.eqb (su_symbol startup) (gm_symbol manifest))
          || negb (su_duration_requested_s startup =? gm_duration_requested_s manifest)
          || negb (su_segment_duration_s startup =? gm_segment_duration_s manifest)
          || negb (su_started_wall_ns startup =? gm_started_wall_ns manifest)
          || negb (String.eqb (su_collector_executable_sha256 startup) (gm_collector_executable_sha256 manifest))
          || negb (String.eqb (su_public_config_sha256 startup) (gm_public_config_sha256 manifest))
          || negb (su_market_freshness_startup_grace_s startup =? gm_market_freshness_startup_grace_s manifest)
          || negb (su_market_freshness_deadline_s startup =? gm_market_freshness_deadline_s manifest)
          || negb (String.eqb (su_credentials startup) (gm_credentials manifest))
          || negb (String.eqb (su_order_entry startup) (gm_order_entry manifest))
          || negb (String.eqb (su_raw_boundary startup) (gm_raw_boundary manifest))
          || negb (String.eqb (su_spec_revision startup) (gm_spec_revision manifest)))
    "startup manifest differs from terminal generation identity".

Definition known_symbol (symbol : string) : bool := String.eqb symbol "BTCUSDT" || String.eqb symbol "ETHUSDT".

Definition validate_generation_manifest (session : string) (m : GenerationManifestV1) : res unit :=
  reject (negb (String.eqb (gm_schema m) "RawGenerationManifestV1")
          || negb (String.eqb (gm_implementation m) "rust-segmented") || negb (String.eqb (gm_status m) "COMPLETE")
          || bool_decide (is_Some (gm_failure m)) || negb (known_symbol (gm_symbol m))
          || (gm_duration_requested_s m =? 0) || (gm_segment_duration_s m =? 0)
          || (gm_duration_requested_s m <? gm_segment_duration_s m) || (gm_started_wall_ns m =? 0)
          || (gm_finished_wall_ns m <? gm_started_wall_ns m)
          || negb (is_digest (gm_collector_executable_sha256 m)) || negb (is_digest (gm_public_config_sha256 m))
          || negb (gm_market_freshness_startup_grace_s m =? MARKET_FRESHNESS_STARTUP_GRACE_S)
          || negb (gm_market_freshness_deadline_s m =? MARKET_FRESHNESS_DEADLINE_S)
          || negb (String.eqb (gm_credentials m) "NONE") || negb (String.eqb (gm_order_entry m) "ABSENT")
          || negb (String.eqb (gm_raw_boundary m) RAW_BOUNDARY)
          || negb (String.eqb (gm_spec_revision m) SEGMENTED_SPEC_REVISION)
          || negb (String.eqb (gm_startup_file m) "startup.json")
          || negb (String.eqb (tm_file (gm_telemetry m)) "telemetry.jsonl")
          || negb (bool_decide (file_name session = Some (gm_session_id m))))
    "generation manifest contract/status is invalid".

(** The streams of the manifest; a name must not come twice. *)
Definition generation_stream_turn (t : tree) (session : string) (m : GenerationManifestV1)
    (snapshot : SnapshotManifestV1) (acc : list string * list VerifiedGenerationStreamV1)
    (stream : StreamManifestV1) : res (list string * list VerifiedGenerationStreamV1) :=
  _ ← reject (bool_decide (st_name stream ∈ acc.1)) "generation contains a duplicate stream";
  verified ← validate_stream t session (gm_session_id m) (gm_generation_index m) (gm_symbol m)
               (sm_last_update_id snapshot) (gm_duration_requested_s m) (gm_segment_duration_s m) stream;
  Ok (st_name stream :: acc.1, acc.2 ++ [verified]).

(** [streams.sort_by(name)] of two streams *)
Definition sort_streams (streams : list VerifiedGenerationStreamV1) : list VerifiedGenerationStreamV1 :=
  match streams with
  | [a; b] => if String.leb (vs_name a) (vs_name b) then [a; b] else [b; a]
  | l => l
  end.

Definition verify_segmented_generation (t : tree) (session : string) : res VerifiedGenerationV1 :=
  generation_bytes ← open_file (t_files t) (path_join session "generation.json");
  m ← map_err "invalid generation manifest JSON: " (from_slice (A := GenerationManifestV1) generation_bytes);
  _ ← validate_generation_manifest session m;
  startup_bytes ← open_file (t_files t) (path_join session (gm_startup_file m));
  _ ← reject (negb (String.eqb (sha256_bytes startup_bytes) (gm_startup_sha256 m)))
        "startup manifest digest differs from terminal generation";
  startup ← map_err "invalid generation startup JSON: " (from_slice (A := StartupManifestV1) startup_bytes);
  _ ← validate_startup startup m;
  snapshot ← ok_or (gm_snapshot m) "complete generation lacks durable snapshot";
  '(snapshot_sha256, snapshot_record_sha256) ← validate_snapshot t session (gm_symbol m) snapshot;
  _ ← reject (negb (len (gm_streams m) =? 2)) "generation must contain exactly depth and trade";
  '(_, streams) ← try_fold (generation_stream_turn t session m snapshot) ([], []) (gm_streams m);
  let streams := sort_streams streams in
  _ ← reject (negb (bool_decide (vs_name <$> streams = ["depth"; "trade"]%string)))
        "generation stream set differs from depth/trade";
  '(telemetry_sha256, telemetry_records) ←
    validate_telemetry t (path_join session "telemetry.jsonl") (gm_telemetry m) streams
      (gm_duration_requested_s m);
  _ ← exact_directory_entries t session
        ["depth"; "generation.json"; "snapshot-http.json"; "snapshot.bnraw"; "startup.json";
         "telemetry.jsonl"; "transport-depth-events.jsonl"; "transport-depth.json";
         "transport-trade-events.jsonl"; "transport-trade.json"; "trade"]%string;
  let generation_manifest_sha256 := sha256_bytes generation_bytes in
  material ← map_err "serialize generation verification digest: "
    (to_vec (mkVerificationMaterial (gm_session_id m) (gm_generation_index m) (gm_symbol m)
       (gm_duration_requested_s m) (gm_segment_duration_s m) (gm_collector_executable_sha256 m)
       (gm_public_config_sha256 m) generation_manifest_sha256 snapshot_sha256 snapshot_record_sha256
       (sm_last_update_id snapshot) telemetry_sha256 telemetry_records streams));
  Ok (mkVerifiedGeneration (gm_session_id m) session (gm_generation_index m) (gm_symbol m)
        (gm_duration_requested_s m) (gm_segment_duration_s m) (gm_started_wall_ns m) (gm_finished_wall_ns m)
        (gm_collector_executable_sha256 m) (gm_public_config_sha256 m) generation_manifest_sha256
        snapshot_sha256 snapshot_record_sha256 (sm_last_update_id snapshot) telemetry_sha256
        telemetry_records streams (sha256_bytes material)).
End generation.

(** ** What a verified generation holds *)
Section generation_spec.
Context `{Hval : SerdeValue}.

Definition payload_of (r : RawRecordEnvelopeV1) : option Value :=
  match value_from_slice (rf_payload (re_frame r)) with inr v => Some v | inl _ => None end.
Definition is_control (r : RawRecordEnvelopeV1) : Prop :=
  (payload_of r ≫= λ v, as_str (value_index v "e")) = Some "serverShutdown"%string.
#[global] Instance is_control_decision r : Decision (is_control r).
Proof. unfold is_control. apply _. Defined.

(** The records that carry market data, and what they carry. *)
Definition market_records (rs : list RawRecordEnvelopeV1) : list RawRecordEnvelopeV1 :=
  filter (λ r, ¬ is_control r) rs.
Definition payload_u64 (field : string) (r : RawRecordEnvelopeV1) : Z :=
  default 0 (payload_of r ≫= λ v, as_u64 (value_index v field)).
Definition update_of (r : RawRecordEnvelopeV1) : Z * Z := (payload_u64 "U" r, payload_u64 "u" r).
Definition mono_of (r : RawRecordEnvelopeV1) : Z := rf_receive_mono_ns (re_frame r).

(** Each range reaches from at most the next update ID to at least it. *)
Fixpoint covers (last : Z) (l : list (Z * Z)) : Prop :=
  match l with [] => True | p :: l => p.1 ≤ last + 1 ≤ p.2 ∧ covers p.2 l end.

(** The ranges of a depth stream: those the snapshot has already, then an unbroken run. *)
Definition depth_continuous (snapshot : Z) (l : list (Z * Z)) (first final : option Z) : Prop :=
  ∃ old live, l = old ++ live ∧ Forall (λ p, p.2 ≤ snapshot) old ∧ covers snapshot live ∧
    first = fst <$> head live ∧ final = snd <$> last live.
Definition trades_continuous (l : list Z) (first final : option Z) : Prop :=
  StronglySorted Z.lt l ∧ first = head l ∧ final = last l.

(** No gap of more than [bound] between neighbours. *)
Fixpoint gaps_within (bound : Z) (l : list Z) : Prop :=
  match l with
  | a :: (b :: _) as l => b - a ≤ bound ∧ gaps_within bound l
  | _ => True
  end.
Definition active (active_end_ns : Z) (times : list Z) : list Z := filter (λ n, n ≤ active_end_ns) times.
Definition fresh (active_end_ns : Z) (times : list Z) : Prop :=
  gaps_within 30000000000 (active active_end_ns times) ∧
  ∃ first last_time, head (active active_end_ns times) = Some first ∧
    last (active active_end_ns times) = Some last_time ∧
    first ≤ 30000000000 ∧ active_end_ns - last_time ≤ 30000000000.
End generation_spec.

Section generation_theory.
Context `{Hsha : Sha256} `{Hval : SerdeValue} `{Hobj : !SerdeObject} `{Hnull : !SerdeNull} `{Hget : !SerdeGet}.
Context `{Hb64 : Base64} `{Hmb : Serde ManifestBodyV1}.
Context `{Hpb : Serde ProgressBodyV1} `{Hpe : Serde ProgressEnvelopeV1}.
Context `{Htjb : Serde (TransportJournalBodyV1 (Hval := Hval))}.
Context `{Htje : Serde (TransportJournalEnvelopeV1 (Hval := Hval))}.
Context `{Hgm : Serde GenerationManifestV1} `{Hsu : Serde StartupManifestV1}.
Context `{Hsh : Serde SnapshotHttpMetadataV1} `{Htx : Serde TransportMetadataV1}.
Context `{Htt : Serde TelemetryRecordV1} `{Hvm : Serde VerificationDigestMaterial}.

Lemma gaps_within_snoc bound l x :
  gaps_within bound l → (∀ y, last l = Some y → x - y ≤ bound) → gaps_within bound (l ++ [x]).
Proof.
  intros Hl Hx. induction l as [|a [|b l] IH]; [done|split; [by apply Hx|done]|].
  destruct Hl as [Hab Hl]. split; [done|]. apply IH; [done|]. intros y Hy. by apply Hx.
Qed.

Lemma sorted_snoc_last (l : list Z) x y :
  StronglySorted Z.lt l → Some y = last l → y < x → StronglySorted Z.lt (l ++ [x]).
Proof.
  intros Hs Hy Hx. symmetry in Hy. apply last_Some in Hy as [l' ->]. apply StronglySorted_app_2; [|done|by repeat constructor].
  intros a b Ha ->%list_elem_of_singleton. apply elem_of_app in Ha as [Ha| ->%list_elem_of_singleton]; [|done].
  etrans; [|exact Hx]. by apply (StronglySorted_app_1_elem_of _ _ _ _ _ Hs Ha), list_elem_of_singleton.
Qed.

Lemma covers_snoc n l p :
  covers n l → p.1 ≤ default n (snd <$> last l) + 1 ≤ p.2 → covers n (l ++ [p]).
Proof.
  revert n. induction l as [|q [|r l] IH]; intros n Hl Hp; [by split|split; [apply Hl|by split]|].
  destruct Hl as [Hq Hl]. split; [done|]. apply (IH q.2 Hl). rewrite last_cons_cons in Hp.
  destruct (last (r :: l)) eqn:E; [done|by apply last_None in E].
Qed.

Lemma market_records_snoc rs r :
  market_records (rs ++ [r]) = market_records rs ++ (if decide (is_control r) then [] else [r]).
Proof.
  unfold market_records. rewrite filter_app. f_equal.
  destruct (decide (is_control r)); [rewrite filter_cons_False by tauto|rewrite filter_cons_True by done]; done.
Qed.
Lemma active_snoc e l x : active e (l ++ [x]) = active e l ++ (if decide (x ≤ e) then [x] else []).
Proof.
  unfold active. by rewrite filter_app.
Qed.

(** *** One record *)

Lemma freshness_step e name times x f f' :
  fr_first_active_mono_ns f = head (active e times) → fr_previous_active_mono_ns f = last (active e times) →
  gaps_within 30000000000 (active e times) → freshness_observe f name x e = Ok f' →
  fr_first_active_mono_ns f' = head (active e (times ++ [x])) ∧
  fr_previous_active_mono_ns f' = last (active e (times ++ [x])) ∧
  gaps_within 30000000000 (active e (times ++ [x])).
Proof.
  intros Hf Hp Hg H. unfold freshness_observe in H. rewrite active_snoc.
  destruct (e <? x) eqn:Ex.
  - injection H as <-. rewrite decide_False, app_nil_r by lia. done.
  - rewrite decide_True by lia. apply res_bind_Ok in H as ([] & Hr%reject_Ok & [= <-]). cbn.
    rewrite last_snoc. split_and!; [|done|].
    + rewrite Hf. by destruct (active e times).
    + apply gaps_within_snoc; [done|]. intros y Hy. rewrite Hp, Hy in Hr.
      unfold saturating_sub, saturating_mul, MARKET_FRESHNESS_DEADLINE_S, u64_max in Hr. lia.
Qed.

(** What the loop knows of the sequence numbers of the market records seen. *)
Definition sequence_inv (name : string) (snapshot : Z) (market : list RawRecordEnvelopeV1) (sq : SequenceState)
    : Prop :=
  sq_last_market_mono_ns sq = default 0 (mono_of <$> last market) ∧
  if String.eqb name "depth" then
    depth_continuous snapshot (update_of <$> market) (sq_first sq) (sq_previous_final sq) ∧
    sq_started sq = bool_decide (is_Some (sq_previous_final sq))
  else
    trades_continuous (payload_u64 "t" <$> market) (sq_first sq) (sq_previous_final sq) ∧
    sq_started sq = bool_decide (is_Some (sq_previous_final sq)).

Lemma depth_fields_Ok v symbol first final :
  depth_fields v symbol = Ok (first, final) →
  as_u64 (value_index v "U") = Some first ∧ as_u64 (value_index v "u") = Some final.
Proof.
  unfold depth_fields. intros H. apply res_bind_Ok in H as ([] & _ & H).
  apply res_bind_Ok in H as (_ & _ & H). apply res_bind_Ok in H as (f & Hf%ok_or_Ok & H).
  apply res_bind_Ok in H as (u & Hu%ok_or_Ok & H). do 5 apply res_bind_Ok in H as (? & _ & H).
  by injection H as <- <-.
Qed.

Lemma trade_fields_Ok v symbol id : trade_fields v symbol = Ok id → as_u64 (value_index v "t") = Some id.
Proof.
  unfold trade_fields. intros H. apply res_bind_Ok in H as ([] & _ & H).
  apply res_bind_Ok in H as (_ & _ & H). apply res_bind_Ok in H as (i & Hi%ok_or_Ok & H).
  do 3 apply res_bind_Ok in H as (? & _ & H). by injection H as <-.
Qed.

Lemma depth_step v symbol snapshot market r sq sq' :
  payload_of r = Some v → depth_continuous snapshot (update_of <$> market) (sq_first sq) (sq_previous_final sq) →
  sq_started sq = bool_decide (is_Some (sq_previous_final sq)) →
  validate_depth_payload v symbol snapshot sq = Ok sq' →
  depth_continuous snapshot (update_of <$> market ++ [r]) (sq_first sq') (sq_previous_final sq') ∧
  sq_started sq' = bool_decide (is_Some (sq_previous_final sq')).
Proof.
  intros Hv (old & live & Hl & Ho & Hc & Hf & Hp) Hs H. unfold validate_depth_payload in H.
  apply res_bind_Ok in H as ([first final] & [HU Hu]%depth_fields_Ok & H).
  assert (update_of r = (first, final)) as Hr
    by (unfold update_of, payload_u64; rewrite Hv; cbn; by rewrite HU, Hu).
  rewrite fmap_app. cbn [fmap list_fmap]. rewrite Hr, Hl. destruct (sq_started sq) eqn:Est; cbn in H.
  - symmetry in Hs. apply bool_decide_eq_true in Hs as [p Hp']. rewrite Hp' in Hp, H. cbn in H.
    apply res_bind_Ok in H as (next & Hn%ok_or_Ok & H). apply checked_add_Some in Hn as [_ ->].
    apply res_bind_Ok in H as ([] & Hr'%reject_Ok & [= <-]). cbn. split; [|done].
    exists old, (live ++ [(first, final)]). rewrite <-(assoc_L (++)), last_snoc.
    split_and!; [done|done| | |done].
    + apply covers_snoc; [done|]. rewrite <-Hp. cbn. split_orb. lia.
    + rewrite Hf. by destruct live.
  - symmetry in Hs. apply bool_decide_eq_false in Hs. apply eq_None_not_Some in Hs. rewrite Hs in Hp.
    assert (live = []) as ->.
    { destruct (last live) eqn:El; [done|]. by apply last_None in El. }
    rewrite app_nil_r. destruct (final <=? snapshot) eqn:E.
    + injection H as <-. rewrite Hs, Hf, Est. split; [|done].
      exists (old ++ [(first, final)]), []. rewrite app_nil_r.
      split_and!; try done. apply Forall_app. split; [done|]. constructor; [cbn; lia|done].
    + apply res_bind_Ok in H as (b & Hb%ok_or_Ok & H). apply checked_add_Some in Hb as [_ ->].
      apply res_bind_Ok in H as ([] & Hr'%reject_Ok & [= <-]). cbn. split; [|done].
      exists old, [(first, final)]. split_and!; try done. cbn. split_orb. lia.
Qed.

Lemma trade_step v symbol market r sq sq' :
  payload_of r = Some v → trades_continuous (payload_u64 "t" <$> market) (sq_first sq) (sq_previous_final sq) →
  sq_started sq = bool_decide (is_Some (sq_previous_final sq)) →
  validate_trade_payload v symbol sq = Ok sq' →
  trades_continuous (payload_u64 "t" <$> market ++ [r]) (sq_first sq') (sq_previous_final sq') ∧
  sq_started sq' = bool_decide (is_Some (sq_previous_final sq')).
Proof.
  intros Hv (Hsort & Hf & Hp) Hs H. unfold validate_trade_payload in H.
  apply res_bind_Ok in H as (id & Hid%trade_fields_Ok & H).
  assert (payload_u64 "t" r = id) as Hr by (unfold payload_u64; rewrite Hv; cbn; by rewrite Hid).
  unfold trades_continuous. rewrite fmap_app. cbn [fmap list_fmap]. rewrite Hr, last_snoc.
  destruct (sq_previous_final sq) as [p|] eqn:Ep.
  - apply res_bind_Ok in H as ([] & Hlt%reject_Ok & [= <-]). cbn. split_and!; try done.
    + apply (sorted_snoc_last _ _ p); [done|done|lia].
    + rewrite Hf. by destruct (payload_u64 "t" <$> market).
  - injection H as <-. symmetry in Hp. apply last_None in Hp. rewrite Hp. cbn. split_and!; try done.
    by repeat constructor.
Qed.

(** *** Segments *)

Lemma verified_entry_inv fs base e v :
  verify_manifest_entry fs base e = Ok v →
  vr_raw_path v = path_join base (sl_raw_file (me_seal e)) ∧ vr_genesis v = genesis_from_seal (me_seal e) ∧
  vr_seal v = me_seal e.
Proof.
  unfold verify_manifest_entry. intros (a & Ha & H)%res_bind_Ok.
  apply res_bind_Ok in H as ([] & Hs%reject_Ok & [= <-]).
  apply negb_false_iff, bool_decide_eq_true in Hs. split_and!; [..|done].
  all: unfold verify_and_seal_raw_segment in Ha; do 2 apply res_bind_Ok in Ha as (_ & _ & Ha).
  all: do 4 apply res_bind_Ok in Ha as (? & _ & Ha).
  all: do 2 apply res_bind_Ok in Ha as (? & _ & Ha); do 2 apply res_bind_Ok in Ha as (? & _ & Ha).
  all: by injection Ha as <-.
Qed.

(** What the file of a manifest entry holds. *)
Definition entry_holds (fs : files) (base : string) (e : RawSegmentManifestEntryV1)
    (rs : list RawRecordEnvelopeV1) : Prop :=
  (∃ raw, fs !! path_join base (sl_raw_file (me_seal e)) = Some raw ∧
     read_raw_segment_records raw (genesis_from_seal (me_seal e)) = Ok rs ∧
     len raw = sl_durable_through_offset (me_seal e)) ∧
  len rs = sl_records (me_seal e) ∧ frame_indexes rs = seqZ (sl_first_frame_index (me_seal e)) (len rs) ∧
  Forall (λ r, record_key (re_frame r)
               = (sl_connection_epoch (me_seal e), sl_stream (me_seal e))) rs.

Lemma entries_hold `{!Sha256Laws Hsha} fs base es vs rss :
  Forall2 (λ e v, verify_manifest_entry fs base e = Ok v) es vs → Forall2 (segment_holds fs) vs rss →
  Forall2 (entry_holds fs base) es rss.
Proof.
  intros H. revert rss. induction H as [|e v es vs H _ IH]; intros rss Hr.
  - apply Forall2_nil_inv_l in Hr as ->. constructor.
  - apply Forall2_cons_inv_l in Hr as (rs & rss' & Hh & Hr & ->). constructor; [|by apply IH].
    apply verified_entry_inv in H as (Hp & Hg & Hs). unfold segment_holds in Hh. rewrite Hp, Hg, Hs in Hh.
    exact Hh.
Qed.

Lemma manifest_files_hold `{!Sha256Laws Hsha} fs scan base vs :
  map_Forall (λ _ f, len f ≤ u64_max) fs → verify_segment_manifest_files fs scan base = Ok vs →
  ∃ rss, Forall2 (entry_holds fs base) (ms_entries scan) rss ∧
    frame_indexes (concat rss) = seqZ 0 (len (concat rss)).
Proof.
  intros Hfs H. destruct (segments_contiguous fs scan base vs Hfs (or_introl H)) as (rss & Hr & Hi & _).
  exists rss. split; [|done]. unfold verify_segment_manifest_files in H. do 3 apply res_bind_Ok in H as (? & _ & H).
  eapply entries_hold; [|exact Hr]. by apply try_map_Ok_Forall2.
Qed.

(** *** The loop over the records *)

Definition frame_ok (symbol : string) (stream : StreamManifestV1) (r : RawRecordEnvelopeV1) : Prop :=
  rf_symbol (re_frame r) = symbol ∧ rf_stream (re_frame r) = stream_of symbol (st_name stream) ∧
  rf_connection_epoch (re_frame r) = st_connection_epoch stream ∧ rf_endpoint (re_frame r) = st_uri stream ∧
  is_Some (payload_of r).

Lemma validate_frame_identity_Ok r symbol stream v :
  validate_frame_identity r symbol (st_name stream) (st_connection_epoch stream) (st_uri stream) = Ok v →
  payload_of r = Some v ∧ frame_ok symbol stream r.
Proof.
  unfold validate_frame_identity. intros ([] & Hc%reject_Ok & H)%res_bind_Ok.
  apply res_bind_Ok in H as (v' & Hv%map_err_Ok & H). apply res_bind_Ok in H as (_ & _ & [= <-]).
  assert (payload_of r = Some v') as Hp by (unfold payload_of; by rewrite Hv).
  split_orb. repeat match goal with H : String.eqb _ _ = true |- _ => apply String.eqb_eq in H end.
  split; [done|]. split_and!; try done.
Qed.

Lemma shutdown_Ok r v sq b sq' :
  payload_of r = Some v → validate_server_shutdown_payload v sq = Ok (b, sq') →
  b = bool_decide (is_control r) ∧ sq_started sq' = sq_started sq ∧ sq_first sq' = sq_first sq ∧
  sq_previous_final sq' = sq_previous_final sq ∧ sq_last_market_mono_ns sq' = sq_last_market_mono_ns sq ∧
  sq_server_shutdown_events sq' = sq_server_shutdown_events sq + (if b then 1 else 0).
Proof.
  intros Hv H. unfold validate_server_shutdown_payload in H.
  assert (is_control r ↔ as_str (value_index v "e") = Some "serverShutdown"%string) as Hi
    by (unfold is_control; by rewrite Hv).
  rewrite (bool_decide_ext _ _ Hi). destruct (bool_decide (as_str _ = _)) eqn:E; cbn in H.
  - apply res_bind_Ok in H as (_ & _ & H). apply res_bind_Ok in H as (n & Hn%ok_or_Ok & [= <- <-]).
    apply checked_add_Some in Hn as [_ ->]. done.
  - injection H as <- <-. split_and!; try done. lia.
Qed.

(** What the loop over the records of a stream knows. *)
Record stream_inv (symbol : string) (snapshot active_end : Z) (stream : StreamManifestV1)
    (rs : list RawRecordEnvelopeV1) (ss : stream_state) : Prop := mkStreamInv {
  si_frames : Forall (frame_ok symbol stream) rs;
  si_sorted : StronglySorted Z.le (mono_of <$> rs);
  si_mono : ss_previous_mono ss = mono_of <$> last rs;
  si_sequence : sequence_inv (st_name stream) snapshot (market_records rs) (ss_sequence ss);
  si_first : fr_first_active_mono_ns (ss_freshness ss) = head (active active_end (mono_of <$> market_records rs));
  si_last : fr_previous_active_mono_ns (ss_freshness ss) = last (active active_end (mono_of <$> market_records rs));
  si_gaps : gaps_within 30000000000 (active active_end (mono_of <$> market_records rs));
  si_events : sq_server_shutdown_events (ss_sequence ss) = len (filter is_control rs);
  si_shutdowns : vd_frame_index <$> ss_server_shutdowns ss = frame_indexes (filter is_control rs)
}.

Lemma stream_start_inv symbol snapshot e stream : stream_inv symbol snapshot e stream [] stream_start.
Proof.
  split; try done; try by constructor. split; [done|]. destruct (String.eqb _ _).
  - split; [|done]. by exists [], [].
  - split; [|done]. by split_and!; try constructor.
Qed.

Lemma sorted_le_snoc (l : list Z) x :
  StronglySorted Z.le l → (∀ y, last l = Some y → y ≤ x) → StronglySorted Z.le (l ++ [x]).
Proof.
  intros Hs Hx. apply StronglySorted_app_2; [|done|by repeat constructor].
  intros a b Ha ->%list_elem_of_singleton. destruct (last l) as [y|] eqn:El.
  - apply last_Some in El as [l' ->]. apply elem_of_app in Ha as [Ha| ->%list_elem_of_singleton]; [|auto].
    etrans; [|apply Hx; done]. by apply (StronglySorted_app_1_elem_of _ _ _ _ _ Hs Ha), list_elem_of_singleton.
  - apply last_None in El as ->. by apply not_elem_of_nil in Ha.
Qed.

Lemma filter_control_snoc rs r :
  filter is_control (rs ++ [r]) = filter is_control rs ++ (if bool_decide (is_control r) then [r] else []).
Proof.
  rewrite filter_app. f_equal. case_bool_decide.
  - by rewrite filter_cons_True.
  - by rewrite filter_cons_False.
Qed.


Lemma market_snoc_market rs r : ¬ is_control r → market_records (rs ++ [r]) = market_records rs ++ [r].
Proof. intros. rewrite market_records_snoc. by rewrite decide_False. Qed.
Lemma market_snoc_control rs r : is_control r → market_records (rs ++ [r]) = market_records rs.
Proof. intros. rewrite market_records_snoc, decide_True by done. apply app_nil_r. Qed.

(** The acknowledgement that makes one record durable. *)
Definition record_ack (stream : StreamManifestV1) (seal : RawSegmentSealV1) (r : RawRecordEnvelopeV1)
    : DurabilityAckV1 :=
  mkAck "DurabilityAckV1" (re_record_index r + 1) (re_end_offset r) (re_record_sha256 r)
    [mkWatermark (st_connection_epoch stream) (sl_stream seal) (rf_frame_index (re_frame r))].

(** What a turn of the loop is, apart from its counters. *)
Lemma stream_record_turn_inv symbol snapshot segment_ns e stream seal acks ss r ss' :
  stream_record_turn symbol snapshot segment_ns e stream seal acks ss r = Ok ss' →
  ∃ v sq, payload_of r = Some v ∧ frame_ok symbol stream r ∧
    (∀ old, ss_previous_mono ss = Some old → old ≤ mono_of r) ∧ ss_previous_mono ss' = Some (mono_of r) ∧
    validate_server_shutdown_payload v (ss_sequence ss) = Ok (bool_decide (is_control r), sq) ∧
    if bool_decide (is_control r) then
      record_ack stream seal r ∈ acks ∧ ss_sequence ss' = sq ∧ ss_freshness ss' = ss_freshness ss ∧
      vd_frame_index <$> ss_server_shutdowns ss'
      = (vd_frame_index <$> ss_server_shutdowns ss) ++ [rf_frame_index (re_frame r)]
    else
      ss_server_shutdowns ss' = ss_server_shutdowns ss ∧
      freshness_observe (ss_freshness ss) (st_name stream) (mono_of r) e = Ok (ss_freshness ss') ∧
      ∃ sq', ss_sequence ss' = set_last_market (mono_of r) sq' ∧
        (if String.eqb (st_name stream) "depth" then validate_depth_payload v symbol snapshot sq
         else validate_trade_payload v symbol sq) = Ok sq'.
Proof.
  unfold stream_record_turn. intros (seg & _ & H)%res_bind_Ok. apply res_bind_Ok in H as ([] & _ & H).
  apply res_bind_Ok in H as ([] & Hm%reject_Ok & H). apply res_bind_Ok in H as (v & Hv & H).
  apply validate_frame_identity_Ok in Hv as [Hp Hf]. apply res_bind_Ok in H as ([b sq] & Hs & H).
  pose proof (shutdown_Ok _ _ _ _ _ Hp Hs) as (-> & _). exists v, sq.
  assert (∀ old, ss_previous_mono ss = Some old → old ≤ mono_of r) as Hmono.
  { intros old Ho. rewrite Ho in Hm. unfold mono_of. lia. }
  destruct (bool_decide (is_control r)).
  - apply res_bind_Ok in H as (d & Hd%ok_or_Ok & H). apply checked_add_Some in Hd as [_ ->].
    apply res_bind_Ok in H as ([] & Ha%reject_Ok & [= <-]). apply negb_false_iff, bool_decide_eq_true in Ha.
    split_and!; try done. cbn [ss_server_shutdowns]. by rewrite fmap_app.
  - apply res_bind_Ok in H as (sq' & Hq & H). apply res_bind_Ok in H as (f & Hfr & [= <-]).
    split_and!; try done. by exists sq'.
Qed.

Lemma stream_turn_inv symbol snapshot segment_ns e stream seal acks rs ss r ss' :
  stream_inv symbol snapshot e stream rs ss →
  stream_record_turn symbol snapshot segment_ns e stream seal acks ss r = Ok ss' →
  stream_inv symbol snapshot e stream (rs ++ [r]) ss'.
Proof.
  intros [Hfr Hso Hmo [Hla Hse] H1 H2 H3 Hev Hsd] H.
  apply stream_record_turn_inv in H as (v & sq & Hp & Hf & Hge & Hpm & Hs & H).
  apply (shutdown_Ok r _ _ _ _ Hp) in Hs as (_ & Hst & Hfi & Hpf & Hlm & Hn).
  assert (Forall (frame_ok symbol stream) (rs ++ [r])) as Hfr' by (apply Forall_app; auto).
  assert (StronglySorted Z.le (mono_of <$> rs ++ [r])) as Hso'.
  { rewrite fmap_app. apply sorted_le_snoc; [done|]. intros y Hy. apply Hge.
    by rewrite Hmo, <-fmap_last. }
  assert (ss_previous_mono ss' = mono_of <$> last (rs ++ [r])) as Hmo' by (by rewrite last_snoc).
  case_bool_decide as Hc.
  - destruct H as (_ & Hsq & Hfs & Hvd). rewrite <-Hfs in H1, H2.
    split; try done; rewrite ?(market_snoc_control _ _ Hc); try done.
    + unfold sequence_inv. rewrite Hsq, Hst, Hfi, Hpf, Hlm. done.
    + rewrite Hsq, Hn, Hev, filter_control_snoc, bool_decide_eq_true_2, len_app by done. done.
    + unfold frame_indexes in *. by rewrite Hvd, Hsd, filter_control_snoc, bool_decide_eq_true_2, fmap_app.
  - destruct H as (Hvd & Hfs & sq' & Hsq & Hval'). pose proof (market_snoc_market rs r Hc) as Hmk.
    destruct (freshness_step _ _ _ _ _ _ H1 H2 H3 Hfs) as (F1 & F2 & F3).
    assert (sq_server_shutdown_events sq' = sq_server_shutdown_events sq) as Hev'.
    { destruct (String.eqb _ _); [unfold validate_depth_payload in Hval'|unfold validate_trade_payload in Hval'];
        apply res_bind_Ok in Hval' as (x & _ & Hval').
      - destruct x. destruct (sq_started sq); cbn in Hval'.
        + by do 3 apply res_bind_Ok in Hval' as (? & _ & Hval'); injection Hval' as <-.
        + destruct (_ <=? _); [by injection Hval' as <-|].
          by do 2 apply res_bind_Ok in Hval' as (? & _ & Hval'); injection Hval' as <-.
      - destruct (sq_previous_final sq); [apply res_bind_Ok in Hval' as (? & _ & Hval')|];
          by injection Hval' as <-. }
    split; try done; rewrite ?Hmk, ?fmap_app; try done.
    + split; [by rewrite Hsq, last_snoc|]. rewrite Hsq. cbn [set_last_market sq_first sq_previous_final sq_started].
      destruct (String.eqb _ _); destruct Hse as [Hse Hse']; rewrite <-Hst, <-Hpf in Hse'; rewrite <-Hfi, <-Hpf in Hse.
      * by apply (depth_step v symbol snapshot _ r sq).
      * by apply (trade_step v symbol _ r sq).
    + rewrite Hsq. cbn. rewrite Hev', Hn, Hev, filter_control_snoc, bool_decide_eq_false_2, len_app by done.
      change (len []) with 0. lia.
    + rewrite Hvd, Hsd, filter_control_snoc, bool_decide_eq_false_2 by done. by rewrite app_nil_r.
Qed.


(** *** The loop over the segments *)

Definition progress_path (directory : string) (e : RawSegmentManifestEntryV1) : string :=
  path_join directory ("segment-" ++ pad6 (sl_segment_index (me_seal e)) ++ ".bnack").

(** The progress journal of a segment ends on the acknowledgement of the whole segment,
    and has acknowledged every control record by itself. *)
Definition entry_durable (t : tree) (directory epoch : string) (e : RawSegmentManifestEntryV1)
    (rs : list RawRecordEnvelopeV1) : Prop :=
  (∃ cursor, follow_to_end t (progress_path directory e) (path_join directory (sl_raw_file (me_seal e)))
               (genesis_from_seal (me_seal e)) (sl_raw_file (me_seal e)) = Ok cursor ∧
     fc_latest_ack cursor = Some (seal_ack e)) ∧
  ∃ file scan, t_files t !! progress_path directory e = Some file ∧ scan_durability_progress file = Ok scan ∧
    ∀ r, r ∈ rs → is_control r →
      mkAck "DurabilityAckV1" (re_record_index r + 1) (re_end_offset r) (re_record_sha256 r)
        [mkWatermark epoch (sl_stream (me_seal e)) (rf_frame_index (re_frame r))] ∈ px_acknowledgements scan.

Lemma try_fold_each {A B} (f : B → A → res B) b l b' x :
  try_fold f b l = Ok b' → x ∈ l → ∃ b1 b2, f b1 x = Ok b2.
Proof.
  revert b. induction l as [|y l IH]; intros b; cbn; [by intros _ ?%not_elem_of_nil|].
  intros (b1 & H1 & H2)%res_bind_Ok [->|Hx]%elem_of_cons; [by exists b, b1|by apply (IH b1)].
Qed.

Lemma stream_segment_inv t directory symbol snapshot segment_ns e stream rs acc entry acc' rs1 :
  stream_inv symbol snapshot e stream rs acc.2 → acc.1 = len rs → entry_holds (t_files t) directory entry rs1 →
  stream_segment_turn t directory symbol snapshot segment_ns e stream acc entry = Ok acc' →
  stream_inv symbol snapshot e stream (rs ++ rs1) acc'.2 ∧ acc'.1 = len (rs ++ rs1) ∧
  entry_durable t directory (st_connection_epoch stream) entry rs1.
Proof.
  intros Hinv Hlen ((raw & Hraw & Hread & _) & _) H. unfold stream_segment_turn in H.
  apply res_bind_Ok in H as (pf & Hpf%ok_or_Ok & H). apply res_bind_Ok in H as (sc & Hsc & H).
  apply res_bind_Ok in H as (cursor & Hcur & H). apply res_bind_Ok in H as ([] & Hc%reject_Ok & H).
  apply res_bind_Ok in H as (? & _ & H). apply res_bind_Ok in H as (? & _ & H).
  apply res_bind_Ok in H as (raw' & Hraw'%ok_or_Ok & H). apply res_bind_Ok in H as (rs' & Hread' & H).
  apply res_bind_Ok in H as (? & _ & H). apply res_bind_Ok in H as (ss & Hss & H).
  apply res_bind_Ok in H as (n & Hn%ok_or_Ok & [= <-]). apply checked_add_Some in Hn as [_ ->].
  rewrite Hraw in Hraw'. injection Hraw' as <-. rewrite Hread in Hread'. injection Hread' as <-.
  cbn [fst snd]. rewrite len_app, Hlen. split_and!; [|done|].
  - eapply try_fold_prefix; [exact Hinv| |exact Hss]. intros. by eapply stream_turn_inv.
  - split_orb. split.
    + exists cursor. split; [done|]. by eapply bool_decide_eq_true.
    + exists pf, sc. split_and!; [done|done|]. intros r Hr Hctl.
      destruct (try_fold_each _ _ _ _ _ Hss Hr) as (b1 & b2 & Hb).
      apply stream_record_turn_inv in Hb as (v & sq & _ & _ & _ & _ & _ & Hb).
      rewrite bool_decide_eq_true_2 in Hb by done. by destruct Hb as [Hb _].
Qed.

Lemma stream_segments_inv t directory symbol snapshot segment_ns e stream es rss rs acc acc' :
  stream_inv symbol snapshot e stream rs acc.2 → acc.1 = len rs →
  Forall2 (entry_holds (t_files t) directory) es rss →
  try_fold (stream_segment_turn t directory symbol snapshot segment_ns e stream) acc es = Ok acc' →
  stream_inv symbol snapshot e stream (rs ++ concat rss) acc'.2 ∧ acc'.1 = len (rs ++ concat rss) ∧
  Forall2 (entry_durable t directory (st_connection_epoch stream)) es rss.
Proof.
  intros Hinv Hlen Hh. revert rs acc Hinv Hlen.
  induction Hh as [|entry rs1 es rss H1 _ IH]; intros rs acc Hinv Hlen H; cbn [concat].
  - injection H as <-. rewrite app_nil_r. auto.
  - cbn [try_fold] in H. apply res_bind_Ok in H as (acc1 & Ha & H).
    destruct (stream_segment_inv _ _ _ _ _ _ _ _ _ _ _ _ Hinv Hlen H1 Ha) as (Hi & Hl & Hd).
    destruct (IH _ _ Hi Hl H) as (Hi' & Hl' & Hd'). rewrite (assoc_L (++)). auto.
Qed.

(** *** The generation *)

(** What the verifier establishes of one stream of a generation. *)
Definition stream_verified (t : tree) (session symbol : string) (snapshot active_end : Z)
    (v : VerifiedGenerationStreamV1) : Prop :=
  ∃ rss, let rs := concat rss in let directory := path_join session (vs_name v) in
    Forall2 (entry_holds (t_files t) directory) (vs_entries v) rss ∧
    Forall2 (entry_durable t directory (vs_connection_epoch v)) (vs_entries v) rss ∧
    frame_indexes rs = seqZ 0 (vs_records v) ∧
    Forall (λ r, rf_symbol (re_frame r) = symbol ∧ rf_stream (re_frame r) = stream_of symbol (vs_name v) ∧
              rf_connection_epoch (re_frame r) = vs_connection_epoch v) rs ∧
    StronglySorted Z.le (mono_of <$> rs) ∧ fresh active_end (mono_of <$> market_records rs) ∧
    mono_of <$> last (market_records rs) = Some (vs_last_market_message_mono_ns v) ∧
    vs_server_shutdown_events v = len (filter is_control rs) ∧
    vd_frame_index <$> vs_server_shutdowns v = frame_indexes (filter is_control rs) ∧
    if String.eqb (vs_name v) "depth"
    then depth_continuous snapshot (update_of <$> market_records rs) (Some (vs_first_sequence v))
           (Some (vs_final_sequence v))
    else trades_continuous (payload_u64 "t" <$> market_records rs) (Some (vs_first_sequence v))
           (Some (vs_final_sequence v)).

Lemma fresh_finish e name times f :
  fr_first_active_mono_ns f = head (active e times) → fr_previous_active_mono_ns f = last (active e times) →
  gaps_within 30000000000 (active e times) → freshness_finish f name e = Ok () → fresh e times.
Proof.
  intros H1 H2 Hg H. unfold freshness_finish in H. apply res_bind_Ok in H as (g & Hgr & H).
  apply res_bind_Ok in H as (d & Hd & H). injection Hgr as <-. injection Hd as <-.
  apply res_bind_Ok in H as ([] & Hf%reject_Ok & Hl%reject_Ok). split; [done|].
  rewrite H1 in Hf. rewrite H2 in Hl. destruct (active e times) as [|x l] eqn:E; [done|].
  destruct (last (x :: l)) as [y|] eqn:El; [|by apply last_None in El].
  exists x, y. cbn in Hf. unfold saturating_sub, MARKET_FRESHNESS_STARTUP_GRACE_S, MARKET_FRESHNESS_DEADLINE_S in *. split_and!; [done|done|lia|lia].
Qed.

Lemma validate_stream_sound `{!Sha256Laws Hsha} t session sid gi symbol snapshot duration segment stream v :
  map_Forall (λ _ f, len f ≤ u64_max) (t_files t) →
  validate_stream t session sid gi symbol snapshot duration segment stream = Ok v →
  vs_name v = st_name stream ∧ stream_verified t session symbol snapshot (duration * 1000000000) v.
Proof.
  intros Hfs H. unfold validate_stream in H. do 4 apply res_bind_Ok in H as ([] & _ & H).
  apply res_bind_Ok in H as (mr & _ & H). apply res_bind_Ok in H as (scan & _ & H).
  apply res_bind_Ok in H as ([] & Hs%reject_Ok & H). apply res_bind_Ok in H as (sns & _ & H).
  apply res_bind_Ok in H as (ae & Hae%ok_or_Ok & H). apply res_bind_Ok in H as ([] & _ & H).
  apply res_bind_Ok in H as (vs & Hvs & H). apply res_bind_Ok in H as ([total ss] & Hfold & H).
  apply res_bind_Ok in H as (first & Hfirst & H). apply res_bind_Ok in H as (lst & Hlast & H).
  apply res_bind_Ok in H as ([] & Hfin & H). apply res_bind_Ok in H as ([] & Hc1%reject_Ok & H).
  apply res_bind_Ok in H as (lf & _ & H). apply res_bind_Ok in H as ([] & Hc2%reject_Ok & H).
  apply res_bind_Ok in H as (fs' & Hfseq & H). apply res_bind_Ok in H as (fin & Hfinseq & [= <-]).
  cbn [vs_name]. split; [done|].
  assert (ae = duration * 1000000000) as ->
    by (unfold checked_mul in Hae; destruct (_ <=? _); [by injection Hae|done]).
  destruct (manifest_files_hold _ _ _ _ Hfs Hvs) as (rss & Hh & Hidx).
  destruct (stream_segments_inv _ _ _ _ _ _ _ _ rss [] (0, stream_start) _
    (stream_start_inv _ _ _ _) eq_refl Hh Hfold) as (Hi & Hl & Hd).
  destruct Hi as [Hfr Hso _ [Hla Hse] H1 H2 H3 Hev Hsd]. cbn [app fst snd] in *.
  destruct (sq_first (ss_sequence ss)) as [x|] eqn:Ex; [|done]. injection Hfseq as ->.
  destruct (sq_previous_final (ss_sequence ss)) as [y|] eqn:Ey; [|done]. injection Hfinseq as ->.
  split_orb. exists rss. cbn zeta.
  cbn [vs_name vs_entries vs_connection_epoch vs_records vs_server_shutdown_events vs_server_shutdowns
       vs_last_market_message_mono_ns vs_first_sequence vs_final_sequence].
  split_and!; try done.
  - by rewrite Hl.
  - apply (Forall_impl _ _ _ Hfr). by intros r (? & ? & ? & _).
  - by apply (fresh_finish _ (st_name stream) _ (ss_freshness ss)).
  - assert (market_records (concat rss) ≠ []) as Hne.
    { intros E. rewrite E in Hse. destruct (String.eqb (st_name stream) "depth"); destruct Hse as [Hse _].
      - destruct Hse as (old & live & Hl' & _ & _ & _ & Hlast'). symmetry in Hl'. apply app_nil in Hl' as [_ ->].
        done.
      - by destruct Hse as (_ & _ & ?). }
    destruct (last (market_records (concat rss))) as [z|] eqn:Ez; [|by apply last_None in Ez].
    cbn in Hla |- *. f_equal. lia.
  - lia.
  - by destruct (String.eqb (st_name stream) "depth"); destruct Hse.
Qed.

(** C26: a verified generation is durable, unbroken and fresh. When the verifier accepts a
    session directory, its two streams are depth and trade. Of each, the segment files of
    the manifest read as one run of frames 0, 1, 2, ... of the stream's connection, as many
    as reported, in order of their receive times; every progress journal ends on the
    acknowledgement of its whole segment, and every shutdown notice was acknowledged by
    itself; the market records leave no gap of more than thirty seconds in the requested
    time, from its start to its end. The depth ranges reach from the snapshot to the
    reported final ID without a lost update, the trade IDs increase strictly. *)
Theorem verified_generation_sound `{!Sha256Laws Hsha} t session g :
  map_Forall (λ _ f, len f ≤ u64_max) (t_files t) → verify_segmented_generation t session = Ok g →
  ∃ depth trade, vg_streams g = [depth; trade] ∧ vs_name depth = "depth"%string ∧ vs_name trade = "trade"%string ∧
    Forall (stream_verified t session (vg_symbol g) (vg_snapshot_last_update_id g)
              (vg_duration_requested_s g * 1000000000)) [depth; trade].
Proof.
  intros Hfs H. unfold verify_segmented_generation in H.
  apply res_bind_Ok in H as (gb & _ & H). apply res_bind_Ok in H as (m & _ & H).
  apply res_bind_Ok in H as ([] & _ & H). apply res_bind_Ok in H as (sb & _ & H).
  apply res_bind_Ok in H as ([] & _ & H). apply res_bind_Ok in H as (su & _ & H).
  apply res_bind_Ok in H as ([] & _ & H). apply res_bind_Ok in H as (sn & _ & H).
  apply res_bind_Ok in H as ([ss sr] & _ & H). apply res_bind_Ok in H as ([] & Hlen%reject_Ok & H).
  apply res_bind_Ok in H as ([names streams] & Hst & H). apply res_bind_Ok in H as ([] & Hn%reject_Ok & H).
  apply res_bind_Ok in H as ([ts tr] & _ & H). apply res_bind_Ok in H as ([] & _ & H).
  apply res_bind_Ok in H as (mat & _ & [= <-]).
  cbn [vg_streams vg_symbol vg_snapshot_last_update_id vg_duration_requested_s].
  set (ok := stream_verified t session (gm_symbol m) (sm_last_update_id sn) (gm_duration_requested_s m * 1000000000)).
  assert (Forall ok streams) as Hok.
  { refine (try_fold_inv (λ acc, Forall ok acc.2) _ _ _ _ _ _ Hst); [done|].
    intros acc s acc' _ Hacc Ht. unfold generation_stream_turn in Ht. apply res_bind_Ok in Ht as ([] & _ & Ht).
    apply res_bind_Ok in Ht as (v & Hv & [= <-]). apply Forall_app. split; [done|]. constructor; [|done].
    by apply (validate_stream_sound _ _ _ _ _ _ _ _ _ _ Hfs Hv). }
  assert (Forall ok (sort_streams streams)) as Hok'.
  { unfold sort_streams. destruct streams as [|a [|b [|c l]]]; try done. destruct (String.leb _ _); [done|].
    apply Forall_cons in Hok as [? Hok]. apply Forall_cons in Hok as [? _]. by repeat constructor. }
  apply negb_false_iff, bool_decide_eq_true in Hn.
  destruct (sort_streams streams) as [|d [|r [|]]]; try done. injection Hn as Hd Hr.
  by exists d, r.
Qed.
End generation_theory.

(** ** Two generations of one campaign, which later components replay again *)
Module CampaignDemo.
#[export] Existing Instance toy_sha256.
#[export] Existing Instance toy_sha256_laws.
#[export] Existing Instance Json.serde.
#[export] Existing Instance Json.serde_laws.
#[export] Existing Instance Json.serde_object.
#[export] Existing Instance Json.serde_null.
#[export] Existing Instance TransportDemo.json_get.
#[export] Existing Instance TransportDemo.body_eq_decision.
#[export] Existing Instance TransportDemo.envelope_eq_decision.
#[export] Existing Instance SessionDemo.text_base64.

(** Reading a text that is one of the given ones. *)
Definition keyed_serde {A} (table : list (bytes * A)) : Serde A := {|
  to_vec _ := inl "unused"%string;
  from_slice b := match List.find (λ p, bool_decide (p.1 = b)) table with
                  | Some (_, a) => inr a | None => inl "unknown"%string end
|}.
Definition stars (n : nat) : bytes := replicate n x2a.
Definition star_digest (n : nat) : string := hex (sha256 (stars n)).

Definition symbol : string := "BTCUSDT".
Definition session_id (g : nat) : string := if (g =? 0)%nat then "s0" else "s1".
Definition root (g : nat) : string := ("/q/run1/c1/generations/" ++ session_id g)%string.
Definition depth_epoch (g : nat) : string := if (g =? 0)%nat then "d0" else "d1".
Definition trade_epoch (g : nat) : string := if (g =? 0)%nat then "t0" else "t1".
Definition epoch (g : nat) (name : string) : string :=
  if String.eqb name "depth" then depth_epoch g else trade_epoch g.

Definition update (first final : string) (bids : string) : string :=
  ("{`e`:`depthUpdate`,`E`:1,`s`:`BTCUSDT`,`U`:" ++ first ++ ",`u`:" ++ final ++ ",`b`:[" ++ bids ++ "],`a`:[]}")%string.
Definition trade (id : string) : string :=
  ("{`e`:`trade`,`s`:`BTCUSDT`,`E`:5,`T`:4,`t`:" ++ id ++ ",`p`:`30.5`,`q`:`1`,`M`:true,`m`:false}")%string.
Definition texts (g : nat) (name : string) : list string :=
  match g, String.eqb name "depth" with
  | O, true => [update "7" "9" ""; update "10" "12" "[`31`,`2`]"; "{`e`:`serverShutdown`,`E`:1}"%string;
                update "13" "14" "[`32`,`1`]"; update "15" "16" ""]
  | O, false => [trade "7"; trade "9"; trade "11"]
  | _, true => [update "11" "12" ""; update "13" "14" "[`32`,`1`]"; update "15" "16" ""; update "17" "18" "[`30`,`0`]"]
  | _, false => [trade "9"; trade "11"; trade "12"]
  end.
Definition segment (g : nat) (name : string) : bytes * RawSegmentSealV1 :=
  MarketDemo.segment_of (stream_of symbol name) (epoch g name) (stream_uri symbol name) "segment-000000.bnraw"
    0 0 10 ZERO_DIGEST (texts g name).
Definition ack_at (g : nat) (name : string) (n : nat) : DurabilityAckV1 :=
  let '(records, digest) := MarketDemo.segment_bytes (stream_of symbol name) (epoch g name)
    (stream_uri symbol name) 0 10 ZERO_DIGEST (take n (texts g name)) in
  mkAck "DurabilityAckV1" (Z.of_nat n) (8 + len records) digest
    [mkWatermark (epoch g name) (stream_of symbol name) (Z.of_nat n - 1)].

Definition progress_body (n : Z) (ack : DurabilityAckV1) (previous : string) : ProgressBodyV1 :=
  mkProgressBody "RawDurabilityProgressV1" n "segment-000000.bnraw" ack previous.
Definition progress_table : list ProgressBodyV1 := Eval vm_compute in
  [progress_body 0 (ack_at 0 "depth" 3) ZERO_DIGEST; progress_body 1 (ack_at 0 "depth" 5) (star_digest 1);
   progress_body 0 (ack_at 0 "trade" 3) ZERO_DIGEST; progress_body 0 (ack_at 1 "depth" 4) ZERO_DIGEST;
   progress_body 0 (ack_at 1 "trade" 3) ZERO_DIGEST].
#[export] Instance progress_body_serde : Serde ProgressBodyV1 := text_serde progress_table.
#[export] Instance progress_envelope_serde : Serde ProgressEnvelopeV1 :=
  text_serde (imap (λ i b, mkProgressEnvelope b (star_digest (S i))) progress_table).
Definition progress_file (g : nat) (name : string) : bytes :=
  match g, String.eqb name "depth" with
  | O, true => stars 1 ++ [x0a] ++ stars 2 ++ [x0a]
  | O, false => stars 3 ++ [x0a]
  | _, true => stars 4 ++ [x0a]
  | _, false => stars 5 ++ [x0a]
  end.

Definition manifest_table : list ManifestBodyV1 := Eval vm_compute in
  MarketDemo.manifest_body 0 ZERO_DIGEST
    <$> [(segment 0 "depth").2; (segment 0 "trade").2; (segment 1 "depth").2; (segment 1 "trade").2].
#[export] Instance manifest_serde : Serde ManifestBodyV1 := text_serde manifest_table.
Definition place (g : nat) (name : string) : nat :=
  (2 * g + (if String.eqb name "depth" then 0 else 1))%nat.
Definition manifest_stars (g : nat) (name : string) : bytes := stars (S (place g name)).
Definition manifest_file (g : nat) (name : string) : bytes :=
  MANIFEST_MAGIC ++ encode_record (manifest_stars g name) (sha256 (manifest_stars g name)).

(** The transport journals: the events of all four connections in one table. *)
Definition received (g : nat) (name : string) : Z := len (texts g name).
Definition events (g : nat) (name : string) : list (string * Value) :=
  ("CONNECT_ATTEMPT"%string, TransportDemo.json ("{'uri':'" ++ stream_uri symbol name ++ "'}"))
  :: (drop 1 (take 5 TransportDemo.events))
  ++ [("TRANSPORT_TERMINAL"%string,
       TransportDemo.json ("{'error':null,'received':" ++ u_to_string (received g name) ++ ",'status':'STOPPED'}"))].
Definition journal_body (g : nat) (name : string) (i : nat) (e : string * Value) : TransportJournalBodyV1 :=
  mkTransportBody "TransportJournalRecordV1" (Z.of_nat i) 5 6 name (epoch g name) e.1 e.2
    (match i with O => ZERO_DIGEST | S i => star_digest (6 * place g name + i) end).
Definition journal_table : list TransportJournalBodyV1 :=
  [0; 1]%nat ≫= λ g, ["depth"; "trade"]%string ≫= λ name, imap (journal_body g name) (events g name).
#[export] Instance journal_body_serde : Serde TransportJournalBodyV1 := table_serde journal_table.
#[export] Instance journal_envelope_serde : Serde TransportJournalEnvelopeV1 :=
  text_serde (imap (λ i b, mkTransportEnvelope b (star_digest i)) journal_table).
Definition journal_file (g : nat) (name : string) : bytes :=
  seq 0 6 ≫= λ i, stars (S (6 * place g name + i)) ++ [x0a].
Definition journal_seal (g : nat) (name : string) : TransportJournalSealV1 :=
  let file := journal_file g name in
  mkTransportSeal "TransportJournalSealV1" ("transport-" ++ name ++ "-events.jsonl") 6
    (star_digest (6 * place g name + 5)) (len file) (hex (sha256 file)).

Definition metadata_file (g : nat) (name : string) : bytes := Json.text
  ("{'schema':'TransportMetadataV1','session_id':'" ++ session_id g ++ "','generation_index':" ++ u_to_string (Z.of_nat g)
   ++ ",'symbol':'BTCUSDT','spec_revision':'" ++ SPEC_REVISION ++ "','connection':{'stream':'" ++ name
   ++ "','websocket_http_status':101,'connection_epoch':'" ++ epoch g name ++ "','uri':'" ++ stream_uri symbol name
   ++ "'}}").
Definition metadata (g : nat) (name : string) : TransportMetadataV1 :=
  mkTransportMetadata "TransportMetadataV1" (session_id g) (Z.of_nat g) symbol SEGMENTED_SPEC_REVISION
    (mkConnectedInfo name (epoch g name) (stream_uri symbol name) 101 "10.0.0.2:51000" "[2600::1:a]:443"
       [("server", ["nginx"])]%string).
#[export] Instance metadata_serde : Serde TransportMetadataV1 := keyed_serde
  ([0; 1]%nat ≫= λ g, (λ name, (metadata_file g name, metadata g name)) <$> ["depth"; "trade"]%string).

(** Snapshots. *)
Definition endpoint : string := "https://data-api.binance.vision/api/v3/depth?symbol=BTCUSDT&limit=5000".
Definition snapshot_text (g : nat) : string :=
  if (g =? 0)%nat then "{`lastUpdateId`:9,`bids`:[[`30`,`1`]],`asks`:[[`40`,`1`]]}"
  else "{`lastUpdateId`:12,`bids`:[[`30`,`1`],[`31`,`2`]],`asks`:[[`40`,`1`]]}".
Definition snapshot_epoch (g : nat) : string := if (g =? 0)%nat then "r0" else "r1".
Definition snapshot_segment (g : nat) : bytes * RawSegmentSealV1 :=
  MarketDemo.segment_of "btcusdt@rest-depth-snapshot" (snapshot_epoch g) endpoint "snapshot.bnraw" 0 0 5 ZERO_DIGEST
    [snapshot_text g].
Definition snapshot_payload (g : nat) : bytes := SessionDemo.payload_of (snapshot_text g).
Definition http_file (g : nat) : bytes := stars (S g).
Definition snapshot_http (g : nat) : SnapshotHttpMetadataV1 :=
  mkSnapshotHttp "SnapshotHttpMetadataV1" endpoint 200 [("server", ["nginx"])]%string 1 5 true
    (len (snapshot_payload g)) (hex (sha256 (snapshot_payload g))) "snapshot.bnraw"
    (sl_terminal_record_sha256 (snapshot_segment g).2).
#[export] Instance http_serde : Serde SnapshotHttpMetadataV1 :=
  keyed_serde [(http_file 0, snapshot_http 0); (http_file 1, snapshot_http 1)].
Definition snapshot_manifest (g : nat) : SnapshotManifestV1 :=
  let seal := (snapshot_segment g).2 in
  mkSnapshotManifest endpoint 200 (if (g =? 0)%nat then 9 else 12) (if (g =? 0)%nat then 1 else 2) 1 "snapshot.bnraw"
    (mkAck "DurabilityAckV1" 1 (sl_durable_through_offset seal) (sl_terminal_record_sha256 seal)
       [mkWatermark (snapshot_epoch g) "btcusdt@rest-depth-snapshot" 0])
    "snapshot-http.json" (hex (sha256 (http_file g))).

(** Startup, telemetry and the generation itself. *)
Definition startup_file (g : nat) : bytes := Json.text
  ("{'schema':'RawGenerationStartupV1','implementation':'rust-segmented','spec_revision':'" ++ SPEC_REVISION
   ++ "','credentials':'NONE','order_entry':'ABSENT','symbol':'BTCUSDT','session_id':'" ++ session_id g
   ++ "','generation_index':" ++ u_to_string (Z.of_nat g) ++ "}").
Definition startup (g : nat) : StartupManifestV1 :=
  mkStartup "RawGenerationStartupV1" "rust-segmented" (session_id g) (Z.of_nat g) symbol 10 10 7 ZERO_DIGEST
    ZERO_DIGEST 30 30 "NONE" "ABSENT" RAW_BOUNDARY SEGMENTED_SPEC_REVISION.
#[export] Instance startup_serde : Serde StartupManifestV1 :=
  keyed_serde [(startup_file 0, startup 0); (startup_file 1, startup 1)].

Definition last_mono (g : nat) (name : string) : Z := 10 + 5 * (received g name - 1).
Definition telemetry_lane (g : nat) (name : string) : StreamTelemetry :=
  let n := received g name in
  mkStreamTelemetry n n n 0 (last_mono g name) (last_mono g name) (last_mono g name) 0 0 4 400 9 3 3.
Definition telemetry (g : nat) : TelemetryRecordV1 :=
  mkTelemetryRecord "CaptureTelemetryV1" 0 1 10000000000 (mkTelemetryClock "UNKNOWN" "h" None None None)
    (telemetry_lane g "depth") (telemetry_lane g "trade").
#[export] Instance telemetry_serde : Serde TelemetryRecordV1 :=
  keyed_serde [(stars 1, telemetry 0); (stars 2, telemetry 1)].
Definition telemetry_file (g : nat) : bytes := stars (S g) ++ [x0a].

Definition stream_manifest (g : nat) (name : string) : StreamManifestV1 :=
  let n := received g name in
  mkStreamManifest name (stream_uri symbol name) (epoch g name) (Some ("transport-" ++ name ++ ".json")%string)
    (Some (hex (sha256 (metadata_file g name)))) (Some (journal_seal g name)) n n n 1 (last_mono g name)
    (last_mono g name) (if (place g name =? 0)%nat then 1 else 0) (name ++ "/segments.bnseg")
    (hex (sha256 (manifest_stars g name))) (sl_terminal_record_sha256 (segment g name).2) None.
Definition generation_manifest (g : nat) : GenerationManifestV1 :=
  mkGenerationManifest "RawGenerationManifestV1" "rust-segmented" (session_id g) (Z.of_nat g) "COMPLETE" symbol
    10 10 7 8 ZERO_DIGEST ZERO_DIGEST 30 30 "NONE" "ABSENT" RAW_BOUNDARY SEGMENTED_SPEC_REVISION "startup.json"
    (hex (sha256 (startup_file g))) None (Some (snapshot_manifest g))
    (mkTelemetryManifest "TelemetryArtifactV1" "telemetry.jsonl" 1 (len (telemetry_file g))
       (hex (sha256 (telemetry_file g))) 10000000000 (hex (sha256 (telemetry_file g))))
    [stream_manifest g "trade"; stream_manifest g "depth"].
#[export] Instance generation_serde : Serde GenerationManifestV1 :=
  keyed_serde [(stars 1, generation_manifest 0); (stars 2, generation_manifest 1)].
#[export] Instance material_serde : Serde VerificationDigestMaterial := {|
  to_vec m := inr (str_bytes (vm_session_id m ++ vm_telemetry_sha256 m)); from_slice _ := inl "unused"%string
|}.

Definition generation_files (g : nat) : list (string * bytes) :=
  (λ p, (path_join (root g) p.1, p.2)) <$>
  [("generation.json", stars (S g)); ("startup.json", startup_file g); ("snapshot.bnraw", (snapshot_segment g).1);
   ("snapshot-http.json", http_file g); ("telemetry.jsonl", telemetry_file g);
   ("transport-depth.json", metadata_file g "depth"); ("transport-trade.json", metadata_file g "trade");
   ("transport-depth-events.jsonl", journal_file g "depth"); ("transport-trade-events.jsonl", journal_file g "trade");
   ("depth/segments.bnseg", manifest_file g "depth"); ("depth/segment-000000.bnraw", (segment g "depth").1);
   ("depth/segment-000000.bnack", progress_file g "depth");
   ("trade/segments.bnseg", manifest_file g "trade"); ("trade/segment-000000.bnraw", (segment g "trade").1);
   ("trade/segment-000000.bnack", progress_file g "trade")]%string.
Definition files_of_campaign : list (string * bytes) := Eval vm_compute in generation_files 0 ++ generation_files 1.

(** A tree of regular files and the directories with the given names. *)
Definition tree_of (contents : list (string * bytes)) (directories : list (string * list string))
    (canonical : list (string * string)) : tree :=
  mkTree (Follower.mkWorld (list_to_map (imap (λ i p, (p.1, mkIdentity 1 (Z.of_nat i))) contents))
            (list_to_map (imap (λ i p, (mkIdentity 1 (Z.of_nat i), p.2)) contents)))
    (list_to_map (((λ p, (p.1, RegularFile)) <$> contents) ++ ((λ p, (p.1, Directory)) <$> directories)))
    (list_to_map directories) (list_to_map canonical).
Definition generation_directories (g : nat) : list (string * list string) :=
  [(root g, ["trade"; "depth"; "generation.json"; "snapshot-http.json"; "snapshot.bnraw"; "startup.json";
             "telemetry.jsonl"; "transport-depth-events.jsonl"; "transport-depth.json";
             "transport-trade-events.jsonl"; "transport-trade.json"]);
   (path_join (root g) "depth", ["segments.bnseg"; "segment-000000.bnraw"; "segment-000000.bnack"]);
   (path_join (root g) "trade", ["segment-000000.bnack"; "segments.bnseg"; "segment-000000.bnraw"])]%string.
Definition generation_canonical (g : nat) : list (string * string) :=
  (λ name, let p := path_join (path_join (root g) name) "segment-000000.bnraw" in (p, p)) <$> ["depth"; "trade"]%string.
Definition campaign : tree := tree_of files_of_campaign
  (generation_directories 0 ++ generation_directories 1) (generation_canonical 0 ++ generation_canonical 1).

Lemma campaign_sizes : map_Forall (λ _ f, len f ≤ u64_max) (t_files campaign).
Proof. apply (bool_decide_unpack _). vm_compute. exact I. Qed.
End CampaignDemo.

Section generation_witnesses.
Import CampaignDemo.

Lemma verified_generation_sound_witness :
  ∃ g, verify_segmented_generation campaign (root 0) = Ok g ∧ vg_session_id g = "s0"%string ∧
  ∃ depth trade, vg_streams g = [depth; trade] ∧ vs_name depth = "depth"%string ∧ vs_name trade = "trade"%string ∧
    Forall (stream_verified campaign (root 0) (vg_symbol g) (vg_snapshot_last_update_id g)
              (vg_duration_requested_s g * 1000000000)) [depth; trade].
Proof.
  assert (match verify_segmented_generation campaign (root 0) with
          | Ok g => bool_decide (vg_session_id g = "s0"%string) | _ => false end = true) as H
    by (vm_compute; reflexivity).
  destruct (verify_segmented_generation campaign (root 0)) as [g| |] eqn:E; [|done..].
  exists g. split; [done|]. split; [by apply bool_decide_eq_true in H|].
  by apply (verified_generation_sound campaign (root 0) g campaign_sizes).
Defined.
End generation_witnesses.
