(* ===== verification/GenerationHandover.v ===== *)
(** * Handover between two capture generations (generation_handover.rs)

    Two generations of a capture overlap: the predecessor is complete, the successor has
    started. The proof of a handover names, for depth, the last update at which both
    connections hold the same book and, for trades, the last two events both have; it
    binds them to the files with digests. A stored proof is checked by recomputing it. *)

From stdpp Require Import base list strings option numbers sets gmap sorting.
From Stdlib Require Import ZArith Lia Ascii Strings.Byte Sorting.Sorted.
From S2P Require Import Prelude External OrderBook RawLog RawLogSafety Replay Boundary DurabilityProgress SegmentChain Follower Observations MarketReplay TransportJournal GenerationArtifact.
Local Open Scope Z_scope.

(** ** Data *)

Record ExpectedSegmentPublicationV1 := mkSegmentPublication {
  ep_schema : string; ep_stream : string; ep_connection_epoch : string; ep_segment_index : Z;
  ep_raw_file : string; ep_first_frame_index : Z; ep_last_frame_index : Z; ep_records : Z;
  ep_durable_through_offset : Z; ep_previous_segment_terminal_sha256 : string;
  ep_terminal_record_sha256 : string; ep_manifest_record_index : Z;
  ep_manifest_durable_through_offset : Z; ep_manifest_record_sha256 : string
}.
Record ExpectedSnapshotPublicationV1 := mkSnapshotPublication {
  es_raw_file : string; es_durable_through_offset : Z; es_last_record_sha256 : string;
  es_http_metadata_file : string; es_http_metadata_sha256 : string
}.
Record RawSegmentReferenceV1 := mkSegmentReference {
  sx_stream : string; sx_connection_epoch : string; sx_segment_index : Z;
  sx_manifest_record_sha256 : string; sx_raw_file : string; sx_first_frame_index : Z;
  sx_last_frame_index : Z; sx_terminal_record_sha256 : string
}.
#[global] Instance segment_reference_eq_decision : EqDecision RawSegmentReferenceV1.
Proof. solve_decision. Defined.
Record DepthOverlapEvidenceV1 := mkDepthEvidence {
  de_schema : string;
  de_predecessor_segment : RawSegmentReferenceV1; de_successor_segment : RawSegmentReferenceV1;
  de_boundary_sequence : Z; de_boundary_state_sha256 : string; de_predecessor_boundary : RawPositionV1;
  de_successor_boundary : RawPositionV1; de_successor_continuation : RawPositionV1;
  de_successor_continuation_first_sequence : Z; de_successor_continuation_final_sequence : Z
}.
#[global] Instance depth_evidence_eq_decision : EqDecision DepthOverlapEvidenceV1.
Proof. solve_decision. Defined.
Record TradeOverlapEvidenceV1 := mkTradeEvidence {
  td_schema : string; td_predecessor_segment : RawSegmentReferenceV1;
  td_successor_segment : RawSegmentReferenceV1; td_common_lower_trade_id : Z;
  td_common_upper_trade_id : Z; td_common_events : Z; td_first_shared_trade_id : Z;
  td_first_shared_event_sha256 : string; td_predecessor_first_shared : RawPositionV1;
  td_successor_first_shared : RawPositionV1; td_next_shared_trade_id : Z;
  td_next_shared_event_sha256 : string; td_predecessor_next_shared : RawPositionV1;
  td_successor_next_shared : RawPositionV1; td_trade_id_contiguity_claim : string
}.
#[global] Instance trade_evidence_eq_decision : EqDecision TradeOverlapEvidenceV1.
Proof. solve_decision. Defined.
Record RawGenerationHandoverProofV1 := mkHandoverProof {
  hp_schema : string; hp_status : string; hp_predecessor_session_id : string;
  hp_successor_session_id : string; hp_predecessor_generation_index : Z;
  hp_successor_generation_index : Z; hp_symbol : string; hp_credentials : string;
  hp_order_entry : string; hp_predecessor_verification_sha256 : string;
  hp_successor_startup_sha256 : string; hp_successor_snapshot_record_sha256 : string;
  hp_successor_snapshot_http_sha256 : string; hp_depth : DepthOverlapEvidenceV1;
  hp_trade : TradeOverlapEvidenceV1; hp_proof_sha256 : string
}.
#[global] Instance handover_proof_eq_decision : EqDecision RawGenerationHandoverProofV1.
Proof. solve_decision. Defined.
Record ProofDigestMaterial := mkProofMaterial {
  pm_schema : string; pm_predecessor_session_id : string; pm_successor_session_id : string;
  pm_predecessor_generation_index : Z; pm_successor_generation_index : Z; pm_symbol : string;
  pm_predecessor_verification_sha256 : string; pm_successor_startup_sha256 : string;
  pm_successor_snapshot_record_sha256 : string; pm_successor_snapshot_http_sha256 : string;
  pm_depth : DepthOverlapEvidenceV1; pm_trade : TradeOverlapEvidenceV1
}.
Record SuccessorIdentity := mkSuccessor {
  sy_session_id : string; sy_generation_index : Z; sy_symbol : string; sy_snapshot : RawRecordEnvelopeV1
}.

Definition NO_CONTIGUITY : string := "NONE_OFFICIAL_CONTRACT_DOES_NOT_PROMISE_CONSECUTIVE_IDS".

(** ** Positions and references *)

Definition position (o : CanonicalObservationV1) : RawPositionV1 :=
  mkPosition (co_connection_epoch o) (co_stream o) (co_frame_index o) (co_record_sha256 o).

Definition segment_reference (entry : RawSegmentManifestEntryV1) : RawSegmentReferenceV1 :=
  let seal := me_seal entry in
  mkSegmentReference (sl_stream seal) (sl_connection_epoch seal) (sl_segment_index seal)
    (me_manifest_record_sha256 entry) (sl_raw_file seal) (sl_first_frame_index seal)
    (sl_last_frame_index seal) (sl_terminal_record_sha256 seal).

Definition first_manifest_record_end (fs : files) (path : string) : res Z :=
  file ← open_file fs path;
  _ ← reject (len file <? 12) "segment manifest lacks a complete first record header";
  _ ← reject (negb (bool_decide (take 8 file = MANIFEST_MAGIC))) "bad segment manifest magic";
  let body_length := from_be_bytes (take 4 (drop 8 file)) in
  ok_or (checked_add 12 body_length ≫= λ offset, checked_add offset 32)
    "segment manifest first-record offset overflow".

Definition publication_matches (entry : RawSegmentManifestEntryV1) (expected_stream : string)
    (publication : ExpectedSegmentPublicationV1) (exact_manifest_offset : Z) : bool :=
  let seal := me_seal entry in
  String.eqb (ep_schema publication) "DurableSegmentEventV1"
  && String.eqb (ep_stream publication) expected_stream
  && String.eqb (ep_connection_epoch publication) (sl_connection_epoch seal)
  && (ep_segment_index publication =? 0) && (ep_segment_index publication =? sl_segment_index seal)
  && String.eqb (ep_raw_file publication) (sl_raw_file seal)
  && (ep_first_frame_index publication =? sl_first_frame_index seal)
  && (ep_last_frame_index publication =? sl_last_frame_index seal)
  && (ep_records publication =? sl_records seal)
  && (ep_durable_through_offset publication =? sl_durable_through_offset seal)
  && String.eqb (ep_previous_segment_terminal_sha256 publication) (sl_previous_segment_terminal_sha256 seal)
  && String.eqb (ep_terminal_record_sha256 publication) (sl_terminal_record_sha256 seal)
  && (ep_manifest_record_index publication =? 0) && (ep_manifest_record_index publication =? me_record_index entry)
  && (ep_manifest_durable_through_offset publication =? exact_manifest_offset)
  && String.eqb (ep_manifest_record_sha256 publication) (me_manifest_record_sha256 entry).

(** ** Trades *)

Definition derive_trade_evidence (predecessor_entry successor_entry : RawSegmentManifestEntryV1)
    (predecessor successor : list CanonicalObservationV1) : res TradeOverlapEvidenceV1 :=
  first_a_id ← ok_or (co_final_sequence <$> head predecessor) "predecessor trade overlap is empty";
  last_a_id ← ok_or (co_final_sequence <$> last predecessor) "predecessor trade overlap is empty";
  first_b_id ← ok_or (co_final_sequence <$> head successor) "successor trade overlap is empty";
  last_b_id ← ok_or (co_final_sequence <$> last successor) "successor trade overlap is empty";
  _ ← reject (last_b_id <? last_a_id) "successor durable trade prefix does not cover predecessor terminal trade";
  let lower := Z.max first_a_id first_b_id in
  let upper := Z.min last_a_id last_b_id in
  let in_range (o : CanonicalObservationV1) := lower ≤ co_final_sequence o ∧ co_final_sequence o ≤ upper in
  let common_a := filter in_range predecessor in
  let common_b := filter in_range successor in
  _ ← reject ((length common_a <? 2)%nat || negb (length common_a =? length common_b)%nat
              || existsb (λ '(a, b), negb (co_final_sequence a =? co_final_sequence b)
                            || negb (String.eqb (co_observation_sha256 a) (co_observation_sha256 b)))
                   (zip common_a common_b))
        "complete ordered trade lists differ across their durable common ID range";
  let n := length common_a in
  first_a ← expect (common_a !! (n - 2)%nat);
  next_a ← expect (common_a !! (n - 1)%nat);
  first_b ← expect (common_b !! (n - 2)%nat);
  next_b ← expect (common_b !! (n - 1)%nat);
  Ok (mkTradeEvidence "TradeOverlapEvidenceV1" (segment_reference predecessor_entry)
        (segment_reference successor_entry) lower upper (Z.of_nat n) (co_final_sequence first_b)
        (co_observation_sha256 first_b) (position first_a) (position first_b) (co_final_sequence next_b)
        (co_observation_sha256 next_b) (position next_a) (position next_b) NO_CONTIGUITY).

Section handover.
Context `{Hsha : Sha256} `{Hval : SerdeValue} `{Hobj : !SerdeObject} `{Hnull : !SerdeNull} `{Hget : !SerdeGet}.
Context `{Hb64 : Base64} `{Hmb : Serde ManifestBodyV1}.
Context `{Hpb : Serde ProgressBodyV1} `{Hpe : Serde ProgressEnvelopeV1}.
Context `{Htjb : Serde (TransportJournalBodyV1 (Hval := Hval))}.
Context `{Htje : Serde (TransportJournalEnvelopeV1 (Hval := Hval))}.
Context `{Hgm : Serde GenerationManifestV1} `{Hsu : Serde StartupManifestV1}.
Context `{Hsh : Serde SnapshotHttpMetadataV1} `{Htx : Serde TransportMetadataV1}.
Context `{Htt : Serde TelemetryRecordV1} `{Hvm : Serde VerificationDigestMaterial}.
Context `{Hcte : Serde CanonicalTradeEvent} `{Hpm : Serde ProofDigestMaterial}.
Context `{Hpp : SerdePretty RawGenerationHandoverProofV1}.

Definition proof_material (proof : RawGenerationHandoverProofV1) : ProofDigestMaterial :=
  mkProofMaterial "RawGenerationHandoverProofDigestV1" (hp_predecessor_session_id proof)
    (hp_successor_session_id proof) (hp_predecessor_generation_index proof)
    (hp_successor_generation_index proof) (hp_symbol proof) (hp_predecessor_verification_sha256 proof)
    (hp_successor_startup_sha256 proof) (hp_successor_snapshot_record_sha256 proof)
    (hp_successor_snapshot_http_sha256 proof) (hp_depth proof) (hp_trade proof).

Definition validate_raw_handover_proof_digest (proof : RawGenerationHandoverProofV1) : res unit :=
  _ ← reject (negb (String.eqb (hp_schema proof) "RawGenerationHandoverProofV1")
              || negb (String.eqb (hp_status proof) "PROVEN") || negb (String.eqb (hp_credentials proof) "NONE")
              || negb (String.eqb (hp_order_entry proof) "ABSENT")
              || negb (bool_decide (checked_add (hp_predecessor_generation_index proof) 1
                                    = Some (hp_successor_generation_index proof)))
              || negb (known_symbol (hp_symbol proof))
              || negb (String.eqb (de_schema (hp_depth proof)) "DepthOverlapEvidenceV1")
              || negb (String.eqb (td_schema (hp_trade proof)) "TradeOverlapEvidenceV1")
              || negb (String.eqb (td_trade_id_contiguity_claim (hp_trade proof)) NO_CONTIGUITY)
              || (td_common_events (hp_trade proof) <? 2)
              || (td_common_upper_trade_id (hp_trade proof) <? td_common_lower_trade_id (hp_trade proof))
              || negb (is_digest (hp_predecessor_verification_sha256 proof))
              || negb (is_digest (hp_successor_startup_sha256 proof))
              || negb (is_digest (hp_successor_snapshot_record_sha256 proof))
              || negb (is_digest (hp_successor_snapshot_http_sha256 proof))
              || negb (is_digest (hp_proof_sha256 proof))) "raw handover proof contract is invalid";
  encoded ← map_err "serialize raw handover proof digest: " (to_vec (proof_material proof));
  reject (negb (String.eqb (sha256_bytes encoded) (hp_proof_sha256 proof)))
    "raw handover proof self-digest mismatch".

(** ** The successor *)

Definition validate_successor_frame_identity (records : list RawRecordEnvelopeV1) (identity : SuccessorIdentity)
    (stream_name epoch : string) : res unit :=
  let stream := stream_of (sy_symbol identity) stream_name in
  let endpoint := ("wss://data-stream.binance.vision:443/ws/" ++ stream ++ "?timeUnit=MICROSECOND")%string in
  reject (existsb (λ record, let f := re_frame record in
            negb (String.eqb (rf_venue f) "binance-spot")
            || negb (String.eqb (rf_environment f) "production-public-market-data")
            || negb (String.eqb (rf_symbol f) (sy_symbol identity)) || negb (String.eqb (rf_stream f) stream)
            || negb (String.eqb (rf_connection_epoch f) epoch) || negb (String.eqb (rf_endpoint f) endpoint)
            || negb (String.eqb (rf_spec_revision f) SEGMENTED_SPEC_REVISION)
            || negb (String.eqb (rf_recorder_state f) "PENDING")) records)
    ("successor " ++ stream_name ++ " root segment identity drift").

(** The segment of a manifest entry: its raw file is sealed as the entry says, its
    progress journal ends on the whole segment, its frames are of the successor. *)
Definition verified_segment_records (t : tree) (session : string) (identity : SuccessorIdentity)
    (stream_name : string) (entry : RawSegmentManifestEntryV1) : res (list RawRecordEnvelopeV1) :=
  let stream_directory := path_join session stream_name in
  let seal := me_seal entry in
  let genesis := genesis_from_seal seal in
  let ack := seal_ack entry in
  let raw_path := path_join stream_directory (sl_raw_file seal) in
  verified ← verify_and_seal_raw_segment (t_files t) raw_path (sl_raw_file seal) genesis ack;
  _ ← reject (negb (bool_decide (vr_seal verified = seal))) ("successor " ++ stream_name ++ " BNRAW differs from BNSEG");
  let progress_path := path_join stream_directory ("segment-" ++ pad6 (sl_segment_index seal) ++ ".bnack") in
  cursor ← follow_to_end t progress_path raw_path genesis (sl_raw_file seal);
  _ ← reject (negb (bool_decide (fc_latest_ack cursor = Some ack)))
        ("successor " ++ stream_name ++ " BNACK differs from BNRAW");
  raw ← open_file (t_files t) raw_path;
  records ← read_raw_segment_records raw genesis;
  _ ← validate_successor_frame_identity records identity stream_name (sl_connection_epoch seal);
  Ok records.

Definition verified_published_root (t : tree) (session : string) (identity : SuccessorIdentity)
    (stream_name : string) (publication : ExpectedSegmentPublicationV1)
    : res (RawSegmentManifestEntryV1 * list RawRecordEnvelopeV1) :=
  let manifest_path := path_join (path_join session stream_name) "segments.bnseg" in
  scan ← scan_segment_manifest (t_files t) manifest_path;
  entry ← ok_or (head (ms_entries scan)) ("successor " ++ stream_name ++ " root publication is absent");
  exact_end ← first_manifest_record_end (t_files t) manifest_path;
  _ ← reject (negb (publication_matches entry stream_name publication exact_end))
        ("successor " ++ stream_name ++ " typed publication differs from exact BNSEG root");
  records ← verified_segment_records t session identity stream_name entry;
  Ok (entry, records).

Definition verified_published_segment (t : tree) (session : string) (identity : SuccessorIdentity)
    (stream_name : string) (entry : RawSegmentManifestEntryV1)
    : res (RawSegmentManifestEntryV1 * list RawRecordEnvelopeV1) :=
  scan ← scan_segment_manifest (t_files t) (path_join (path_join session stream_name) "segments.bnseg");
  _ ← reject (negb (existsb (λ candidate, (me_record_index candidate =? me_record_index entry)
                                          && bool_decide (candidate = entry)) (ms_entries scan)))
        ("successor " ++ stream_name ++ " segment does not match manifest");
  records ← verified_segment_records t session identity stream_name entry;
  Ok (entry, records).

Definition choose_trade_overlap_root (t : tree) (predecessor_trade_entry : RawSegmentManifestEntryV1)
    (predecessor_trade_records : list CanonicalObservationV1) (successor_session : string)
    (identity : SuccessorIdentity) (entries : list RawSegmentManifestEntryV1)
    : res (RawSegmentManifestEntryV1 * list RawRecordEnvelopeV1 * TradeOverlapEvidenceV1) :=
  entry ← ok_or (head entries) "successor trade overlap is empty";
  _ ← reject (negb (sl_segment_index (me_seal entry) =? 0)
              || String.eqb (sl_connection_epoch (me_seal entry))
                   (sl_connection_epoch (me_seal predecessor_trade_entry)))
        "successor trade root identity is invalid";
  '(segment_entry, records) ← verified_published_segment t successor_session identity "trade" entry;
  successor_trade ← materialize_trade_record_window records;
  trade ← derive_trade_evidence predecessor_trade_entry segment_entry predecessor_trade_records successor_trade;
  Ok (segment_entry, records, trade).

Definition predecessor_terminal_segment (t : tree) (session : string) (stream : VerifiedGenerationStreamV1)
    : res (RawSegmentManifestEntryV1 * list RawRecordEnvelopeV1) :=
  entry ← ok_or (last (vs_entries stream)) "predecessor stream has no segment";
  raw ← open_file (t_files t) (path_join (path_join session (vs_name stream)) (sl_raw_file (me_seal entry)));
  records ← read_raw_segment_records raw (genesis_from_seal (me_seal entry));
  Ok (entry, records).


Definition validate_successor_startup (session : string) (startup : StartupManifestV1) : res unit :=
  reject (negb (String.eqb (su_schema startup) "RawGenerationStartupV1")
          || negb (String.eqb (su_implementation startup) "rust-segmented")
          || negb (bool_decide (file_name session = Some (su_session_id startup)))
          || negb (known_symbol (su_symbol startup)) || (su_duration_requested_s startup =? 0)
          || (su_segment_duration_s startup =? 0)
          || (su_duration_requested_s startup <? su_segment_duration_s startup)
          || (su_started_wall_ns startup =? 0) || negb (is_digest (su_collector_executable_sha256 startup))
          || negb (is_digest (su_public_config_sha256 startup))
          || negb (su_market_freshness_startup_grace_s startup =? 30)
          || negb (su_market_freshness_deadline_s startup =? 30)
          || negb (String.eqb (su_credentials startup) "NONE") || negb (String.eqb (su_order_entry startup) "ABSENT")
          || negb (String.eqb (su_raw_boundary startup) RAW_BOUNDARY)
          || negb (String.eqb (su_spec_revision startup) SEGMENTED_SPEC_REVISION))
    "successor startup contract is invalid".

Definition verify_successor_startup_and_snapshot (t : tree) (session expected_startup_sha256 : string)
    (expected : ExpectedSnapshotPublicationV1) : res SuccessorIdentity :=
  startup_bytes ← open_file (t_files t) (path_join session "startup.json");
  _ ← reject (negb (String.eqb (sha256_bytes startup_bytes) expected_startup_sha256))
        "successor typed startup digest differs from startup.json";
  startup ← map_err "invalid successor startup JSON: " (from_slice (A := StartupManifestV1) startup_bytes);
  _ ← validate_successor_startup session startup;
  _ ← reject (negb (String.eqb (es_raw_file expected) "snapshot.bnraw")
              || negb (String.eqb (es_http_metadata_file expected) "snapshot-http.json"))
        "successor snapshot typed publication path drift";
  let snapshot_path := path_join session (es_raw_file expected) in
  file ← open_file (t_files t) snapshot_path;
  scan ← scan_raw_log file;
  records ← read_raw_records file;
  _ ← reject (negb (sc_clean_eof scan) || negb (len records =? 1) || negb (sc_records scan =? 1)
              || negb (sc_last_good_offset scan =? es_durable_through_offset expected)
              || negb (String.eqb (sc_last_record_sha256 scan) (es_last_record_sha256 expected)))
        "successor typed snapshot publication differs from BNRAW";
  snapshot ← expect (head records);
  let f := re_frame snapshot in
  let endpoint := ("https://data-api.binance.vision/api/v3/depth?symbol=" ++ su_symbol startup ++ "&limit=5000")%string in
  _ ← reject (negb (String.eqb (rf_venue f) "binance-spot")
              || negb (String.eqb (rf_environment f) "production-public-market-data")
              || negb (String.eqb (rf_endpoint f) endpoint) || negb (String.eqb (rf_symbol f) (su_symbol startup))
              || negb (String.eqb (rf_stream f) (to_ascii_lowercase (su_symbol startup) ++ "@rest-depth-snapshot"))
              || negb (rf_frame_index f =? 0) || negb (String.eqb (rf_spec_revision f) SEGMENTED_SPEC_REVISION)
              || negb (String.eqb (rf_recorder_state f) "PENDING")) "successor snapshot raw identity drift";
  payload ← map_err "successor snapshot payload JSON: " (value_from_slice (rf_payload f));
  _ ← reject (bool_decide (as_u64 (value_index payload "lastUpdateId") = None)
              || negb (bool_decide (is_Some (as_array (value_index payload "bids"))))
              || negb (bool_decide (is_Some (as_array (value_index payload "asks")))))
        "successor snapshot payload shape is invalid";
  http_bytes ← open_file (t_files t) (path_join session (es_http_metadata_file expected));
  _ ← reject (negb (String.eqb (sha256_bytes http_bytes) (es_http_metadata_sha256 expected)))
        "successor typed HTTP metadata digest drift";
  http ← map_err "invalid successor snapshot HTTP metadata: " (from_slice (A := SnapshotHttpMetadataV1) http_bytes);
  _ ← reject (negb (String.eqb (sh_schema http) "SnapshotHttpMetadataV1")
              || negb (String.eqb (sh_endpoint http) endpoint) || negb (sh_http_status http =? 200)
              || bool_decide (sh_headers http = []) || negb (sh_body_complete http)
              || negb (sh_body_length http =? len (rf_payload f))
              || negb (String.eqb (sh_body_sha256 http) (sha256_bytes (rf_payload f)))
              || negb (String.eqb (sh_raw_file http) (es_raw_file expected))
              || negb (String.eqb (sh_raw_record_sha256 http) (re_record_sha256 snapshot))
              || negb (sh_receive_wall_ns http =? rf_receive_wall_ns f)
              || negb (sh_receive_mono_ns http =? rf_receive_mono_ns f))
        "successor HTTP metadata is not bound to snapshot raw body";
  Ok (mkSuccessor (su_session_id startup) (su_generation_index startup) (su_symbol startup) snapshot).

(** ** The proof *)

Definition derive_depth_evidence (predecessor_entry successor_entry : RawSegmentManifestEntryV1)
    (snapshot : RawRecordEnvelopeV1) (predecessor_records successor_records : list RawRecordEnvelopeV1)
    : res DepthOverlapEvidenceV1 :=
  convergence ← latest_depth_window_convergence snapshot predecessor_records successor_records;
  let a := lc_predecessor_boundary convergence in
  let continuation := lc_successor_continuation convergence in
  Ok (mkDepthEvidence "DepthOverlapEvidenceV1" (segment_reference predecessor_entry)
        (segment_reference successor_entry) (co_final_sequence a) (co_observation_sha256 a) (position a)
        (position (lc_successor_boundary convergence)) (position continuation)
        (co_first_sequence continuation) (co_final_sequence continuation)).

Definition find_stream (name : string) (g : VerifiedGenerationV1) (msg : string) : res VerifiedGenerationStreamV1 :=
  ok_or (List.find (λ s, String.eqb (vs_name s) name) (vg_streams g)) msg.

(** The proof with the digest of its material. *)
Definition seal_proof (predecessor : VerifiedGenerationV1) (successor : SuccessorIdentity)
    (startup_sha256 http_sha256 : string) (depth : DepthOverlapEvidenceV1) (trade : TradeOverlapEvidenceV1)
    : res RawGenerationHandoverProofV1 :=
  let proof := mkHandoverProof "RawGenerationHandoverProofV1" "PROVEN" (vg_session_id predecessor)
    (sy_session_id successor) (vg_generation_index predecessor) (sy_generation_index successor)
    (vg_symbol predecessor) "NONE" "ABSENT" (vg_verification_sha256 predecessor) startup_sha256
    (re_record_sha256 (sy_snapshot successor)) http_sha256 depth trade in
  encoded ← map_err "serialize raw handover digest: " (to_vec (proof_material (proof "")));
  Ok (proof (sha256_bytes encoded)).

(** The proof [prove_raw_generation_handover] computes from the files. *)
Definition derive_handover_proof (t : tree) (predecessor_session successor_session
    successor_startup_sha256 : string) (snapshot_publication : ExpectedSnapshotPublicationV1)
    (depth_publication : ExpectedSegmentPublicationV1) : res RawGenerationHandoverProofV1 :=
  predecessor ← verify_segmented_generation t predecessor_session;
  successor ← verify_successor_startup_and_snapshot t successor_session successor_startup_sha256
                snapshot_publication;
  _ ← reject (negb (String.eqb (vg_symbol predecessor) (sy_symbol successor))
              || (sy_generation_index successor <=? vg_generation_index predecessor))
        "A/B generation identity/order mismatch";
  depth_stream ← find_stream "depth" predecessor "predecessor lacks depth";
  trade_stream ← find_stream "trade" predecessor "predecessor lacks trade";
  '(predecessor_depth_entry, predecessor_depth_records) ←
    predecessor_terminal_segment t predecessor_session depth_stream;
  '(predecessor_trade_entry, predecessor_trade_records) ←
    predecessor_terminal_segment t predecessor_session trade_stream;
  predecessor_trade ← materialize_trade_record_window predecessor_trade_records;
  '(successor_depth_entry, successor_depth_records) ←
    verified_published_root t successor_session successor "depth" depth_publication;
  trade_scan ← scan_segment_manifest (t_files t) (path_join (path_join successor_session "trade") "segments.bnseg");
  '(successor_trade_entry, successor_trade_records, trade) ←
    choose_trade_overlap_root t predecessor_trade_entry predecessor_trade successor_session successor
      (ms_entries trade_scan);
  _ ← reject (String.eqb (sl_connection_epoch (me_seal predecessor_depth_entry))
                (sl_connection_epoch (me_seal successor_depth_entry))) "A/B connection epoch was reused";
  _ ← reject (String.eqb (sl_connection_epoch (me_seal predecessor_trade_entry))
                (sl_connection_epoch (me_seal successor_trade_entry))) "A/B connection epoch was reused";
  successor_trade ← materialize_trade_record_window successor_trade_records;
  first ← expect (head successor_trade);
  _ ← reject (negb (bool_decide (co_stream_kind first = Trade))) "overlap materialization kind drift";
  depth ← derive_depth_evidence predecessor_depth_entry successor_depth_entry (sy_snapshot successor)
            predecessor_depth_records successor_depth_records;
  seal_proof predecessor successor successor_startup_sha256 (es_http_metadata_sha256 snapshot_publication)
    depth trade.

(** The proof and the files of the directory created at [output]. *)
Definition prove_raw_generation_handover (t : tree) (predecessor_session successor_session
    successor_startup_sha256 : string) (snapshot_publication : ExpectedSnapshotPublicationV1)
    (depth_publication : ExpectedSegmentPublicationV1) (output : string)
    : res (RawGenerationHandoverProofV1 * list (string * bytes)) :=
  proof ← derive_handover_proof t predecessor_session successor_session successor_startup_sha256
            snapshot_publication depth_publication;
  _ ← reject (bool_decide (is_Some (t_kind t !! output))) "handover output already exists";
  encoded ← map_err "serialize raw handover proof: " (to_vec_pretty proof);
  Ok (proof, [("handover.json"%string, encoded ++ [x0a])]).

(** ** Verification *)

Definition manifest_entry_for_reference (t : tree) (session stream_name : string)
    (reference : RawSegmentReferenceV1) : res RawSegmentManifestEntryV1 :=
  _ ← reject (negb (String.eqb stream_name "depth" || String.eqb stream_name "trade"))
        "handover reference uses an unknown stream directory";
  scan ← scan_segment_manifest (t_files t) (path_join (path_join session stream_name) "segments.bnseg");
  ok_or (List.find (λ entry, bool_decide (segment_reference entry = reference)) (ms_entries scan))
    "successor stream segment does not match stored manifest reference".

Definition verify_terminal_raw_generation_handover_from_verified (t : tree)
    (predecessor_session successor_session : string) (predecessor successor_terminal : VerifiedGenerationV1)
    (expected : RawGenerationHandoverProofV1) : res unit :=
  _ ← validate_raw_handover_proof_digest expected;
  startup_bytes ← open_file (t_files t) (path_join successor_session "startup.json");
  let startup_sha256 := sha256_bytes startup_bytes in
  snapshot_file ← open_file (t_files t) (path_join successor_session "snapshot.bnraw");
  snapshot_scan ← scan_raw_log snapshot_file;
  _ ← reject (negb (sc_clean_eof snapshot_scan) || negb (sc_records snapshot_scan =? 1))
        "terminal successor snapshot raw log is invalid";
  http_bytes ← open_file (t_files t) (path_join successor_session "snapshot-http.json");
  let publication := mkSnapshotPublication "snapshot.bnraw" (sc_last_good_offset snapshot_scan)
    (sc_last_record_sha256 snapshot_scan) "snapshot-http.json" (sha256_bytes http_bytes) in
  successor ← verify_successor_startup_and_snapshot t successor_session startup_sha256 publication;
  _ ← reject (negb (String.eqb (vg_symbol predecessor) (sy_symbol successor))
              || negb (String.eqb (vg_session_id successor_terminal) (sy_session_id successor))
              || negb (vg_generation_index successor_terminal =? sy_generation_index successor)
              || negb (String.eqb (vg_symbol successor_terminal) (sy_symbol successor))
              || negb (bool_decide (checked_add (vg_generation_index predecessor) 1
                                    = Some (sy_generation_index successor))))
        "terminal A/B generation identity/order mismatch";
  depth_stream ← find_stream "depth" predecessor "terminal predecessor lacks depth";
  trade_stream ← find_stream "trade" predecessor "terminal predecessor lacks trade";
  '(predecessor_depth_entry, predecessor_depth_records) ←
    predecessor_terminal_segment t predecessor_session depth_stream;
  '(predecessor_trade_entry, predecessor_trade_records) ←
    predecessor_terminal_segment t predecessor_session trade_stream;
  successor_depth_entry ← manifest_entry_for_reference t successor_session "depth"
    (de_successor_segment (hp_depth expected));
  successor_trade_entry ← manifest_entry_for_reference t successor_session "trade"
    (td_successor_segment (hp_trade expected));
  '(successor_depth_entry, successor_depth_records) ←
    verified_published_segment t successor_session successor "depth" successor_depth_entry;
  '(successor_trade_entry, successor_trade_records) ←
    verified_published_segment t successor_session successor "trade" successor_trade_entry;
  _ ← reject (String.eqb (sl_connection_epoch (me_seal predecessor_depth_entry))
                (sl_connection_epoch (me_seal successor_depth_entry))
              || String.eqb (sl_connection_epoch (me_seal predecessor_trade_entry))
                   (sl_connection_epoch (me_seal successor_trade_entry)))
        "terminal A/B connection epoch was reused";
  predecessor_trade ← materialize_trade_record_window predecessor_trade_records;
  successor_trade ← materialize_trade_record_window successor_trade_records;
  depth ← derive_depth_evidence predecessor_depth_entry successor_depth_entry (sy_snapshot successor)
            predecessor_depth_records successor_depth_records;
  trade ← derive_trade_evidence predecessor_trade_entry successor_trade_entry predecessor_trade successor_trade;
  recomputed ← seal_proof predecessor successor startup_sha256 (es_http_metadata_sha256 publication) depth trade;
  reject (negb (bool_decide (recomputed = expected))) "stored handover differs from terminal raw recomputation".

Definition verify_terminal_raw_generation_handover (t : tree) (predecessor_session successor_session : string)
    (expected : RawGenerationHandoverProofV1) : res unit :=
  _ ← validate_raw_handover_proof_digest expected;
  predecessor ← verify_segmented_generation t predecessor_session;
  successor_terminal ← verify_segmented_generation t successor_session;
  verify_terminal_raw_generation_handover_from_verified t predecessor_session successor_session predecessor
    successor_terminal expected.
End handover.

(** ** Trades across the handover *)

(** What identifies a trade on both connections. *)
Definition trade_event (o : CanonicalObservationV1) : Z * string :=
  (co_final_sequence o, co_observation_sha256 o).

Lemma zip_events (l k : list CanonicalObservationV1) :
  length l = length k →
  existsb (λ '(a, b), negb (co_final_sequence a =? co_final_sequence b)
             || negb (String.eqb (co_observation_sha256 a) (co_observation_sha256 b))) (zip l k) = false →
  trade_event <$> l = trade_event <$> k.
Proof.
  revert k. induction l as [|a l IH]; intros [|b k]; try done. intros [= Hl] H. cbn in H.
  apply orb_false_iff in H as [H1 H2]. split_orb.
  repeat match goal with H : String.eqb _ _ = true |- _ => apply String.eqb_eq in H end.
  rewrite !fmap_cons. f_equal; [unfold trade_event; f_equal; [lia|done]|by apply IH].
Qed.

Lemma derive_trade_evidence_inv pe se a b e :
  derive_trade_evidence pe se a b = Ok e →
  ∃ next_a next_b, let lower := td_common_lower_trade_id e in let upper := td_common_upper_trade_id e in
    let common := filter (λ o, lower ≤ co_final_sequence o ∧ co_final_sequence o ≤ upper) in
    Some upper = co_final_sequence <$> last a ∧ trade_event <$> common a = trade_event <$> common b ∧
    td_common_events e = len (common a) ∧ 2 ≤ len (common a) ∧
    last (common a) = Some next_a ∧ last (common b) = Some next_b ∧
    td_predecessor_next_shared e = position next_a ∧ td_successor_next_shared e = position next_b ∧
    td_next_shared_trade_id e = co_final_sequence next_b.
Proof.
  unfold derive_trade_evidence. intros H. apply res_bind_Ok in H as (fa & Hfa%ok_or_Ok & H).
  apply res_bind_Ok in H as (la & Hla%ok_or_Ok & H). apply res_bind_Ok in H as (fb & _ & H).
  apply res_bind_Ok in H as (lb & _ & H). apply res_bind_Ok in H as ([] & Hle%reject_Ok & H).
  set (P := λ o : CanonicalObservationV1, (fa `max` fb) ≤ co_final_sequence o ∧ co_final_sequence o ≤ la `min` lb) in *.
  assert (la `min` lb = la) as Hup by lia.
  apply res_bind_Ok in H as ([] & Hc%reject_Ok & H). apply orb_false_iff in Hc as [Hc Hev].
  apply orb_false_iff in Hc as [H2%Nat.ltb_ge Hlen%negb_false_iff%Nat.eqb_eq].
  apply (zip_events _ _ Hlen) in Hev.
  apply res_bind_Ok in H as (f1 & _ & H). apply res_bind_Ok in H as (na & Hna & H).
  apply res_bind_Ok in H as (f2 & _ & H). apply res_bind_Ok in H as (nb & Hnb & [= <-]).
  exists na, nb. cbn [td_common_lower_trade_id td_common_upper_trade_id td_common_events
    td_predecessor_next_shared td_successor_next_shared td_next_shared_trade_id].
  change (filter _ a) with (filter P a). change (filter _ b) with (filter P b).
  unfold expect in Hna, Hnb. split_and!; try done; try (unfold len; lia).
  - by rewrite Hup, Hla.
  - rewrite last_lookup, <-Nat.sub_1_r. destruct (filter P a !! _); [by injection Hna as ->|done].
  - rewrite last_lookup, <-Hlen, <-Nat.sub_1_r. destruct (filter P b !! _); [by injection Hnb as ->|done].
Qed.

Lemma last_filter {A} (P : A → Prop) `{∀ x, Decision (P x)} l x :
  last l = Some x → P x → last (filter P l) = Some x.
Proof.
  intros [l' ->]%last_Some Hx. rewrite filter_app, filter_cons_True, filter_nil by done. by rewrite last_snoc.
Qed.

Lemma sorted_last_max (l : list CanonicalObservationV1) x o :
  StronglySorted Z.lt (co_final_sequence <$> l) → last l = Some x → o ∈ l → co_final_sequence o ≤ co_final_sequence x.
Proof.
  intros Hs [l' ->]%last_Some [Ho| ->%list_elem_of_singleton]%elem_of_app; [|done].
  rewrite fmap_app in Hs. apply (list_elem_of_fmap_2 co_final_sequence) in Ho.
  apply Z.lt_le_incl. by apply (StronglySorted_app_1_elem_of _ _ _ _ _ Hs Ho), list_elem_of_singleton.
Qed.

(** C27: the trade handover splices without loss or repetition. On two windows whose trade IDs
    increase, a derived evidence names the last trade of the predecessor and the same trade
    on the successor; the predecessor's trades followed by those behind that point on the
    successor have strictly increasing IDs, and from the start of the overlap every trade
    of either connection is among them with the same digest. *)
Theorem trade_splice_exact pe se a b e :
  StronglySorted Z.lt (co_final_sequence <$> a) → StronglySorted Z.lt (co_final_sequence <$> b) →
  derive_trade_evidence pe se a b = Ok e →
  ∃ next_a next_b before rest, last a = Some next_a ∧ b = before ++ next_b :: rest ∧
    trade_event next_a = trade_event next_b ∧ td_next_shared_trade_id e = co_final_sequence next_a ∧
    td_predecessor_next_shared e = position next_a ∧ td_successor_next_shared e = position next_b ∧
    StronglySorted Z.lt (co_final_sequence <$> a ++ rest) ∧
    (∀ o, o ∈ b → td_common_lower_trade_id e ≤ co_final_sequence o → trade_event o ∈ trade_event <$> a ++ rest) ∧
    (∀ o, o ∈ a → td_common_lower_trade_id e ≤ co_final_sequence o → trade_event o ∈ trade_event <$> b).
Proof.
  intros Ha Hb H.
  destruct (derive_trade_evidence_inv _ _ _ _ _ H) as (na & nb & Hup & Hev & _ & H2 & Hla & Hlb & Hpa & Hpb & Hid).
  cbn zeta in *. set (lower := td_common_lower_trade_id e) in *. set (upper := td_common_upper_trade_id e) in *.
  set (P := λ o, lower ≤ co_final_sequence o ∧ co_final_sequence o ≤ upper) in *.
  change (filter _ a) with (filter P a) in *. change (filter _ b) with (filter P b) in *.
  assert (na ∈ filter P a) as [[Hlo Hhi] Hna]%list_elem_of_filter by (by apply last_Some_elem_of).
  destruct (last a) as [x|] eqn:Ex; [|done]. injection Hup as Hup.
  pose proof (λ o, sorted_last_max a x o Ha Ex) as Hmax. rewrite <-Hup in Hmax.
  assert (last (filter P a) = Some x) as Hx.
  { apply last_filter; [done|]. split; [|lia]. specialize (Hmax _ Hna). lia. }
  rewrite Hla in Hx. injection Hx as ->.
  assert (trade_event x = trade_event nb) as Exn.
  { apply (f_equal last) in Hev. rewrite !fmap_last, Hla, Hlb in Hev. cbn in Hev. congruence. }
  assert (nb ∈ filter P b) as [_ Hnb]%list_elem_of_filter by (by apply last_Some_elem_of).
  apply list_elem_of_split in Hnb as (before & rest & ->).
  assert (co_final_sequence x = co_final_sequence nb) as Eid by (by injection Exn).
  rewrite fmap_app, fmap_cons in Hb.
  assert (∀ o, o ∈ rest → upper < co_final_sequence o) as Hrest.
  { intros o Ho. apply StronglySorted_app_1_r in Hb. apply StronglySorted_inv in Hb as [_ Hb].
    rewrite Forall_forall in Hb. rewrite Hup, Eid. apply Hb. by apply list_elem_of_fmap_2. }
  exists x, nb, before, rest. split_and!; try done; [congruence|..].
  - rewrite fmap_app. apply StronglySorted_app_2; [|done|].
    + intros y z [o [-> Ho]]%list_elem_of_fmap [o' [-> Ho']]%list_elem_of_fmap.
      specialize (Hrest _ Ho'). specialize (Hmax _ Ho). lia.
    + apply StronglySorted_app_1_r in Hb. by apply StronglySorted_inv in Hb as [Hb _].
  - intros o Ho Hlow. destruct (decide (co_final_sequence o ≤ upper)) as [Hle|Hgt].
    + assert (trade_event o ∈ trade_event <$> filter P a) as [o' [-> Ho']]%list_elem_of_fmap.
      { rewrite Hev. apply list_elem_of_fmap_2. apply list_elem_of_filter. done. }
      apply list_elem_of_filter in Ho' as [_ Ho']. apply list_elem_of_fmap_2. apply elem_of_app. by left.
    + apply list_elem_of_fmap_2, elem_of_app. right.
      apply elem_of_app in Ho as [Ho|[->|Ho]%elem_of_cons]; [exfalso|lia|done].
      apply (list_elem_of_fmap_2 co_final_sequence) in Ho.
      assert (co_final_sequence o < co_final_sequence nb); [|lia].
      apply (StronglySorted_app_1_elem_of _ _ _ _ _ Hb Ho). apply elem_of_cons. by left.
  - intros o Ho Hlow. pose proof (Hmax _ Ho) as Hle.
    assert (trade_event o ∈ trade_event <$> filter P (before ++ nb :: rest)) as [o' [-> Ho']]%list_elem_of_fmap.
    { rewrite <-Hev. apply list_elem_of_fmap_2. apply list_elem_of_filter. done. }
    apply list_elem_of_filter in Ho' as [_ Ho']. by apply list_elem_of_fmap_2.
Qed.

(** ** Proving and verifying *)
Section handover_theory.
Context `{Hsha : Sha256} `{Hval : SerdeValue} `{Hobj : !SerdeObject} `{Hnull : !SerdeNull} `{Hget : !SerdeGet}.
Context `{Hb64 : Base64} `{Hmb : Serde ManifestBodyV1}.
Context `{Hpb : Serde ProgressBodyV1} `{Hpe : Serde ProgressEnvelopeV1}.
Context `{Htjb : Serde (TransportJournalBodyV1 (Hval := Hval))}.
Context `{Htje : Serde (TransportJournalEnvelopeV1 (Hval := Hval))}.
Context `{Hgm : Serde GenerationManifestV1} `{Hsu : Serde StartupManifestV1}.
Context `{Hsh : Serde SnapshotHttpMetadataV1} `{Htx : Serde TransportMetadataV1}.
Context `{Htt : Serde TelemetryRecordV1} `{Hvm : Serde VerificationDigestMaterial}.
Context `{Hcte : Serde CanonicalTradeEvent} `{Hpm : Serde ProofDigestMaterial}.
Context `{Hproof : Serde RawGenerationHandoverProofV1} `{Hpp : SerdePretty RawGenerationHandoverProofV1}.
Context `{!Sha256Laws Hsha}.

Lemma is_digest_sha256 b : is_digest (sha256_bytes b) = true.
Proof. apply is_digest_hex, length_sha256. Qed.

Lemma read_raw_records_digests file rs :
  read_raw_records file = Ok rs → Forall (λ r, is_digest (re_record_sha256 r) = true) rs.
Proof.
  intros (rest & _ & H)%res_bind_Ok. unfold read_raw_records_after_magic in H.
  destruct (records_loop _ _ _ _ _ _) as [E' r] eqn:Hl. cbn in H. subst r.
  eapply records_loop_chained in Hl as (bodies & _ & _ & Hd); [|apply Nat.lt_succ_diag_r].
  change (Forall ((λ d, is_digest d = true) ∘ re_record_sha256) rs). apply Forall_fmap.
  change (re_record_sha256 <$> rs) with (map re_record_sha256 rs). rewrite Hd.
  apply Forall_fmap, Forall_true. intros b. apply is_digest_sha256.
Qed.

(** The startup record of a verified generation. *)
Lemma verified_generation_startup t session g :
  verify_segmented_generation t session = Ok g →
  known_symbol (vg_symbol g) = true ∧ (∃ b, vg_verification_sha256 g = sha256_bytes b) ∧
  ∃ b su, open_file (t_files t) (path_join session "startup.json") = Ok b ∧ from_slice b = inr su ∧
    su_session_id su = vg_session_id g ∧ su_generation_index su = vg_generation_index g ∧
    su_symbol su = vg_symbol g.
Proof.
  intros H. unfold verify_segmented_generation in H. apply res_bind_Ok in H as (gb & _ & H).
  apply res_bind_Ok in H as (m & _ & H). apply res_bind_Ok in H as ([] & Hm%reject_Ok & H).
  apply res_bind_Ok in H as (sb & Hsb & H). apply res_bind_Ok in H as ([] & _ & H).
  apply res_bind_Ok in H as (su & Hsu'%map_err_Ok & H). apply res_bind_Ok in H as ([] & Hst%reject_Ok & H).
  do 2 apply res_bind_Ok in H as (? & _ & H). destruct x0. apply res_bind_Ok in H as ([] & _ & H).
  apply res_bind_Ok in H as ([? streams] & _ & H). apply res_bind_Ok in H as ([] & _ & H).
  apply res_bind_Ok in H as ([] & _ & H). apply res_bind_Ok in H as ([] & _ & H).
  apply res_bind_Ok in H as (mat & _ & [= <-]).
  cbn [vg_symbol vg_verification_sha256 vg_session_id vg_generation_index]. split_orb.
  repeat match goal with H : String.eqb _ _ = true |- _ => apply String.eqb_eq in H end.
  replace (gm_startup_file m) with "startup.json"%string in Hsb. split_and!; [done|by eexists|].
  exists sb, su. split_and!; try done. lia.
Qed.

(** A successor that was accepted, and the publication that describes its files. *)
Lemma successor_inv t session startup_sha256 sp s :
  verify_successor_startup_and_snapshot t session startup_sha256 sp = Ok s →
  is_digest (re_record_sha256 (sy_snapshot s)) = true ∧
  ∃ b su file scan http,
    open_file (t_files t) (path_join session "startup.json") = Ok b ∧ startup_sha256 = sha256_bytes b ∧
    from_slice b = inr su ∧ sy_session_id s = su_session_id su ∧
    sy_generation_index s = su_generation_index su ∧ sy_symbol s = su_symbol su ∧
    open_file (t_files t) (path_join session "snapshot.bnraw") = Ok file ∧ scan_raw_log file = Ok scan ∧
    sc_clean_eof scan = true ∧ (sc_records scan =? 1) = true ∧
    open_file (t_files t) (path_join session "snapshot-http.json") = Ok http ∧
    sp = mkSnapshotPublication "snapshot.bnraw" (sc_last_good_offset scan) (sc_last_record_sha256 scan)
           "snapshot-http.json" (sha256_bytes http).
Proof.
  intros H. unfold verify_successor_startup_and_snapshot in H. apply res_bind_Ok in H as (b & Hb & H).
  apply res_bind_Ok in H as ([] & Hd%reject_Ok & H). apply res_bind_Ok in H as (su & Hsu'%map_err_Ok & H).
  apply res_bind_Ok in H as ([] & _ & H). apply res_bind_Ok in H as ([] & Hn%reject_Ok & H).
  apply res_bind_Ok in H as (file & Hf & H). apply res_bind_Ok in H as (scan & Hs & H).
  apply res_bind_Ok in H as (rs & Hr & H). apply res_bind_Ok in H as ([] & Hc%reject_Ok & H).
  apply res_bind_Ok in H as (sn & Hsn & H). apply res_bind_Ok in H as ([] & _ & H).
  apply res_bind_Ok in H as (v & _ & H). apply res_bind_Ok in H as ([] & _ & H).
  apply res_bind_Ok in H as (http & Hh & H). apply res_bind_Ok in H as ([] & Hhd%reject_Ok & H).
  apply res_bind_Ok in H as (hm & _ & H). apply res_bind_Ok in H as ([] & _ & [= <-]).
  split_orb. repeat match goal with H : String.eqb _ _ = true |- _ => apply String.eqb_eq in H end.
  destruct sp as [raw off last hf hs]. cbn in *. subst. split.
  - apply read_raw_records_digests in Hr. destruct rs as [|r rs]; [done|]. injection Hsn as ->.
    by apply Forall_cons in Hr as [? _].
  - exists b, su, file, scan, http. split_and!; try done. f_equal. lia.
Qed.

Lemma find_head {A} (p : A → bool) l x : head l = Some x → p x = true → List.find p l = Some x.
Proof. destruct l; [done|]. intros [= ->] H. cbn. by rewrite H. Qed.

(** The root entry is found again by its reference and verified again. *)
Lemma root_segment_again t session s name entry rs scan :
  String.eqb name "depth" || String.eqb name "trade" = true →
  scan_segment_manifest (t_files t) (path_join (path_join session name) "segments.bnseg") = Ok scan →
  head (ms_entries scan) = Some entry → verified_segment_records t session s name entry = Ok rs →
  manifest_entry_for_reference t session name (segment_reference entry) = Ok entry ∧
  verified_published_segment t session s name entry = Ok (entry, rs).
Proof.
  intros Hn Hs Hh Hr. unfold manifest_entry_for_reference, verified_published_segment.
  rewrite Hn, Hs. cbn [negb reject mbind res_bind]. split.
  - rewrite (find_head _ _ _ Hh); [done|]. by apply bool_decide_eq_true.
  - destruct (ms_entries scan) as [|x l]; [done|]. injection Hh as ->. cbn [existsb].
    rewrite Z.eqb_refl, bool_decide_eq_true_2 by done. cbn [andb orb negb reject mbind res_bind]. by rewrite Hr.
Qed.

Lemma seal_proof_inv predecessor s ss hs depth trade proof :
  seal_proof predecessor s ss hs depth trade = Ok proof →
  hp_depth proof = depth ∧ hp_trade proof = trade ∧
  hp_predecessor_generation_index proof = vg_generation_index predecessor ∧
  hp_successor_generation_index proof = sy_generation_index s ∧
  (known_symbol (vg_symbol predecessor) = true →
   (∃ b, vg_verification_sha256 predecessor = sha256_bytes b) → is_digest ss = true → is_digest hs = true →
   is_digest (re_record_sha256 (sy_snapshot s)) = true →
   checked_add (vg_generation_index predecessor) 1 = Some (sy_generation_index s) →
   de_schema depth = "DepthOverlapEvidenceV1"%string → td_schema trade = "TradeOverlapEvidenceV1"%string →
   td_trade_id_contiguity_claim trade = NO_CONTIGUITY → 2 ≤ td_common_events trade →
   td_common_lower_trade_id trade ≤ td_common_upper_trade_id trade →
   validate_raw_handover_proof_digest proof = Ok ()).
Proof.
  unfold seal_proof. intros (e & He%map_err_Ok & [= <-])%res_bind_Ok.
  split_and!; try done. intros Hk [b Hv] H1 H2 H3 Hc Hd Ht Hn Hev Hle.
  unfold validate_raw_handover_proof_digest. cbn in He |- *. rewrite Hv in He.
  rewrite Hk, Hv, H1, H2, H3, Hd, Ht, Hn, !is_digest_sha256, bool_decide_eq_true_2 by done.
  rewrite (proj2 (Z.ltb_ge _ _) Hev), (proj2 (Z.ltb_ge _ _) Hle). cbn [negb orb String.eqb].
  rewrite !String.eqb_refl. cbn [negb orb reject mbind res_bind].
  unfold proof_material in He |- *. cbn in He |- *. rewrite He. cbn [map_err mbind res_bind].
  by rewrite String.eqb_refl.
Qed.

Lemma trade_evidence_fields pe se a b e :
  derive_trade_evidence pe se a b = Ok e →
  td_schema e = "TradeOverlapEvidenceV1"%string ∧ td_trade_id_contiguity_claim e = NO_CONTIGUITY ∧
  td_successor_segment e = segment_reference se ∧ 2 ≤ td_common_events e ∧
  td_common_lower_trade_id e ≤ td_common_upper_trade_id e.
Proof.
  intros H. pose proof H as (na & nb & _ & _ & Hn & H2 & Hla & _)%derive_trade_evidence_inv. cbn zeta in *.
  assert (td_common_lower_trade_id e ≤ td_common_upper_trade_id e) as Hle.
  { apply last_Some_elem_of, list_elem_of_filter in Hla. lia. }
  unfold derive_trade_evidence in H. do 4 apply res_bind_Ok in H as (? & _ & H).
  do 2 apply res_bind_Ok in H as ([] & _ & H). do 4 apply res_bind_Ok in H as (? & _ & H).
  injection H as <-. cbn in *. split_and!; try done.
Qed.

(** A derived proof is accepted by the verifier. *)
Lemma derived_proof_verifies t predecessor successor startup_sha256 sp dp proof g :
  derive_handover_proof t predecessor successor startup_sha256 sp dp = Ok proof →
  verify_segmented_generation t successor = Ok g →
  hp_successor_generation_index proof = hp_predecessor_generation_index proof + 1 →
  hp_successor_generation_index proof ≤ u64_max →
  verify_terminal_raw_generation_handover t predecessor successor proof = Ok ().
Proof.
  intros H Hg Hnext Hmax. unfold derive_handover_proof in H.
  apply res_bind_Ok in H as (p & Hp & H). apply res_bind_Ok in H as (s & Hs & H).
  apply res_bind_Ok in H as ([] & Hsym%reject_Ok & H). apply orb_false_iff in Hsym as [Hsym _].
  apply res_bind_Ok in H as (ds & Hds & H). apply res_bind_Ok in H as (ts & Hts & H).
  apply res_bind_Ok in H as ([pde pdr] & Hpd & H). apply res_bind_Ok in H as ([pte ptr] & Hpt & H).
  apply res_bind_Ok in H as (ptw & Hptw & H). apply res_bind_Ok in H as ([sde sdr] & Hroot & H).
  apply res_bind_Ok in H as (tscan & Htscan & H). apply res_bind_Ok in H as ([[ste str] trade] & Hchoose & H).
  apply res_bind_Ok in H as ([] & He1%reject_Ok & H). apply res_bind_Ok in H as ([] & He2%reject_Ok & H).
  apply res_bind_Ok in H as (stw & Hstw & H). do 2 apply res_bind_Ok in H as (? & _ & H).
  apply res_bind_Ok in H as (depth & Hdepth & H).
  unfold verified_published_root in Hroot. apply res_bind_Ok in Hroot as (dscan & Hdscan & Hroot).
  apply res_bind_Ok in Hroot as (e & Hdh%ok_or_Ok & Hroot). do 2 apply res_bind_Ok in Hroot as (? & _ & Hroot).
  apply res_bind_Ok in Hroot as (rs & Hdrs & [= -> ->]).
  unfold choose_trade_overlap_root in Hchoose. apply res_bind_Ok in Hchoose as (e & Hth%ok_or_Ok & Hchoose).
  apply res_bind_Ok in Hchoose as ([] & _ & Hchoose). apply res_bind_Ok in Hchoose as ([e' rs] & Hpub & Hchoose).
  apply res_bind_Ok in Hchoose as (stw' & Hstw' & Hchoose). apply res_bind_Ok in Hchoose as (tr & Htr & [= -> -> ->]).
  rewrite Hstw in Hstw'. injection Hstw' as <-.
  unfold verified_published_segment in Hpub. apply res_bind_Ok in Hpub as (? & _ & Hpub).
  apply res_bind_Ok in Hpub as (? & _ & Hpub). apply res_bind_Ok in Hpub as (rs & Htrs & [= -> ->]).
  destruct (successor_inv _ _ _ _ _ Hs) as (Hsd & b & su & file & scan & http & Hb & Hssha & Hsu' & I1 & I2 & I3 &
    Hfile & Hscan & Hclean & Hone & Hhttp & ->).
  destruct (verified_generation_startup _ _ _ Hp) as (Hk & Hver & _).
  destruct (verified_generation_startup _ _ _ Hg) as (_ & _ & b' & su' & Hb' & Hsu'' & J1 & J2 & J3).
  rewrite Hb in Hb'. injection Hb' as <-. rewrite Hsu' in Hsu''. injection Hsu'' as <-.
  destruct (trade_evidence_fields _ _ _ _ _ Htr) as (T1 & T2 & T3 & T4 & T5).
  pose proof H as (Pd & Pt & P1 & P2 & Hvalid)%seal_proof_inv.
  assert (checked_add (vg_generation_index p) 1 = Some (sy_generation_index s)) as Hadd
    by (apply checked_add_Some; lia).
  assert (de_schema depth = "DepthOverlapEvidenceV1"%string ∧ de_successor_segment depth = segment_reference sde)
    as [D1 D2] by (by unfold derive_depth_evidence in Hdepth; apply res_bind_Ok in Hdepth as (? & _ & [= <-])).
  rewrite Hssha in *. cbn [es_http_metadata_sha256] in *.
  specialize (Hvalid Hk Hver (is_digest_sha256 _) (is_digest_sha256 _) Hsd Hadd D1 T1 T2 T4 T5).
  destruct (root_segment_again _ _ _ "depth" _ _ _ eq_refl Hdscan Hdh Hdrs) as [Rd1 Rd2].
  destruct (root_segment_again _ _ _ "trade" _ _ _ eq_refl Htscan Hth Htrs) as [Rt1 Rt2].
  unfold verify_terminal_raw_generation_handover. rewrite Hvalid, Hp, Hg. cbn [mbind res_bind].
  unfold verify_terminal_raw_generation_handover_from_verified. rewrite Hvalid, Hb, Hfile. cbn [mbind res_bind].
  rewrite Hscan. cbn [mbind res_bind]. rewrite Hclean, Hone. cbn [negb orb reject mbind res_bind].
  rewrite Hhttp. cbn [mbind res_bind]. rewrite Hs. cbn [mbind res_bind].
  rewrite Hsym, I1, I3, <-J1, <-J3, I2, <-J2, !String.eqb_refl, Z.eqb_refl.
  rewrite I2 in Hadd. rewrite bool_decide_eq_true_2 by done. cbn [negb orb reject mbind res_bind].
  unfold find_stream in *. apply ok_or_Ok in Hds, Hts. rewrite Hds, Hts. cbn [ok_or mbind res_bind].
  rewrite Hpd. cbn [mbind res_bind]. rewrite Hpt. cbn [mbind res_bind].
  rewrite Pd, Pt, D2, T3, Rd1. cbn [mbind res_bind]. rewrite Rt1. cbn [mbind res_bind].
  rewrite Rd2. cbn [mbind res_bind]. rewrite Rt2. cbn [mbind res_bind].
  rewrite He1, He2. cbn [orb reject mbind res_bind]. rewrite Hptw. cbn [mbind res_bind]. rewrite Hstw. cbn [mbind res_bind].
  rewrite Hdepth. cbn [mbind res_bind]. rewrite Htr. cbn [mbind res_bind es_http_metadata_sha256]. rewrite H.
  cbn [mbind res_bind]. by rewrite bool_decide_eq_true_2.
Qed.

(** C28: a handover that was proven is accepted again. When the successor of a proven handover
    has finished as a complete generation and its index is the next one, the verifier, which
    recomputes everything from the files, accepts the proof. The directory that was written
    holds the proof alone, in a file that parses to it. *)
Theorem proven_handover_verifies `{!SerdePrettyLaws _ Hproof Hpp}
    t predecessor successor startup_sha256 sp dp output proof files g :
  prove_raw_generation_handover t predecessor successor startup_sha256 sp dp output = Ok (proof, files) →
  verify_segmented_generation t successor = Ok g →
  hp_successor_generation_index proof = hp_predecessor_generation_index proof + 1 →
  hp_successor_generation_index proof ≤ u64_max →
  verify_terminal_raw_generation_handover t predecessor successor proof = Ok () ∧
  ∃ content, files = [("handover.json"%string, content)] ∧ from_slice content = inr proof.
Proof.
  intros (p & Hp & H)%res_bind_Ok Hg Hnext Hmax. apply res_bind_Ok in H as ([] & _ & H).
  apply res_bind_Ok in H as (encoded & Henc%map_err_Ok & [= -> <-]). split; [by eapply derived_proof_verifies|].
  eexists. split; [done|]. by apply from_pretty.
Qed.
End handover_theory.

(** ** The handover between the two generations of the campaign *)
Module HandoverDemo.
Export CampaignDemo.
#[export] Existing Instance ObservationDemo.trade_serde.
#[export] Instance proof_material_serde : Serde ProofDigestMaterial := {|
  to_vec m := inr (str_bytes (pm_predecessor_session_id m ++ pm_successor_session_id m
                              ++ de_boundary_state_sha256 (pm_depth m) ++ td_next_shared_event_sha256 (pm_trade m)));
  from_slice _ := inl "unused"%string
|}.
Definition snapshot_publication : ExpectedSnapshotPublicationV1 :=
  let seal := (snapshot_segment 1).2 in
  mkSnapshotPublication "snapshot.bnraw" (sl_durable_through_offset seal) (sl_terminal_record_sha256 seal)
    "snapshot-http.json" (hex (sha256 (http_file 1))).
Definition depth_publication : ExpectedSegmentPublicationV1 :=
  let seal := (segment 1 "depth").2 in
  mkSegmentPublication "DurableSegmentEventV1" "depth" "d1" 0 "segment-000000.bnraw" 0 3 4
    (sl_durable_through_offset seal) ZERO_DIGEST (sl_terminal_record_sha256 seal) 0
    (12 + len (manifest_stars 1 "depth") + 32) (hex (sha256 (manifest_stars 1 "depth"))).
Definition proven : res RawGenerationHandoverProofV1 :=
  derive_handover_proof campaign (root 0) (root 1) (hex (sha256 (startup_file 1))) snapshot_publication
    depth_publication.
(** The proof, its text and its file. *)
Definition handover : RawGenerationHandoverProofV1 := Eval vm_compute in
  match proven as r return (match r with Ok _ => RawGenerationHandoverProofV1 | _ => unit end) with
  | Ok p => p | _ => tt
  end.
Definition proof_text : bytes := stars 8.
Definition proof_file : bytes := proof_text ++ [x0a].
#[export] Instance handover_serde : Serde RawGenerationHandoverProofV1 := {|
  to_vec p := if bool_decide (p = handover) then inr proof_text else inl "unknown"%string;
  from_slice b := if bool_decide (b = proof_file) then inr handover else inl "unknown"%string
|}.
#[export] Instance handover_pretty : SerdePretty RawGenerationHandoverProofV1 := to_vec.
#[export] Instance handover_pretty_laws : SerdePrettyLaws RawGenerationHandoverProofV1 handover_serde handover_pretty.
Proof.
  intros a b. unfold to_vec_pretty, handover_pretty. cbn [to_vec handover_serde]. case_bool_decide as E; [|done].
  intros [= <-]. cbn [from_slice handover_serde]. by rewrite bool_decide_eq_true_2, E by done.
Qed.

Definition trades (epoch : string) (l : list (Z * Z * string)) : list CanonicalObservationV1 :=
  (λ '(frame, id, event), mkObservation "BTCUSDT" Trade "btcusdt@trade" epoch frame id id (epoch ++ event) event) <$> l.
Definition entry : RawSegmentManifestEntryV1 := mkManifestEntry 0 ZERO_DIGEST ZERO_DIGEST (segment 0 "trade").2.
Definition before : list CanonicalObservationV1 := trades "a" [(0, 7, "e7"); (1, 9, "e9"); (2, 11, "e11")]%string.
Definition after : list CanonicalObservationV1 := trades "b" [(0, 9, "e9"); (1, 11, "e11"); (2, 12, "e12")]%string.
End HandoverDemo.

Section handover_witnesses.
Import HandoverDemo.

Lemma trade_splice_exact_witness :
  ∃ e, derive_trade_evidence entry entry before after = Ok e ∧
  ∃ next_a next_b front rest, last before = Some next_a ∧ after = front ++ next_b :: rest ∧
    trade_event next_a = trade_event next_b ∧ td_next_shared_trade_id e = co_final_sequence next_a ∧
    td_predecessor_next_shared e = position next_a ∧ td_successor_next_shared e = position next_b ∧
    StronglySorted Z.lt (co_final_sequence <$> before ++ rest) ∧
    (∀ o, o ∈ after → td_common_lower_trade_id e ≤ co_final_sequence o → trade_event o ∈ trade_event <$> before ++ rest) ∧
    (∀ o, o ∈ before → td_common_lower_trade_id e ≤ co_final_sequence o → trade_event o ∈ trade_event <$> after).
Proof.
  destruct (derive_trade_evidence entry entry before after) as [e| |] eqn:E; [|vm_compute in E; discriminate..].
  exists e. split; [done|]. apply (trade_splice_exact entry entry before after e); [| |done].
  all: repeat constructor.
Defined.

Lemma proven_handover_verifies_witness :
  prove_raw_generation_handover campaign (root 0) (root 1) (hex (sha256 (startup_file 1))) snapshot_publication
    depth_publication "/handover" = Ok (handover, [("handover.json"%string, proof_file)]) ∧
  de_boundary_sequence (hp_depth handover) = 16 ∧ td_next_shared_trade_id (hp_trade handover) = 11 ∧
  verify_terminal_raw_generation_handover campaign (root 0) (root 1) handover = Ok ().
Proof.
  assert (prove_raw_generation_handover campaign (root 0) (root 1) (hex (sha256 (startup_file 1))) snapshot_publication
    depth_publication "/handover" = Ok (handover, [("handover.json"%string, proof_file)])) as E
    by (vm_compute; reflexivity).
  assert (is_ok (verify_segmented_generation campaign (root 1)) = true) as Hg by (vm_compute; reflexivity).
  destruct (verify_segmented_generation campaign (root 1)) as [g| |] eqn:Eg; [|discriminate Hg..].
  split; [exact E|]. do 2 (split; [reflexivity|]).
  apply (proven_handover_verifies campaign (root 0) (root 1) (hex (sha256 (startup_file 1))) snapshot_publication
    depth_publication "/handover" handover [("handover.json"%string, proof_file)] g E Eg); [reflexivity|].
  unfold u64_max. cbn. lia.
Defined.
End handover_witnesses.
