(* ===== verification/CompleteReplay.v ===== *)
(** * Neutral replay of a complete campaign (complete_replay.rs)

    A campaign is a chain of capture generations joined by handover proofs. The replay
    selects every market record exactly once: from each generation the frames between the
    boundary of the proof before it and the boundary of the proof behind it. It runs in two
    ways. The audited way verifies every segment against the manifest and reads it again;
    the qualified way trusts a receipt of an earlier audited run and reads each segment
    once. A receipt binds the report, the selection and an inventory of the source files.

    The file system is the tree of [GenerationArtifact]. The verifier of a whole campaign
    ([profile_raw_campaign] of campaign_artifact.rs) is a parameter. Durations are left
    out. *)

From stdpp Require Import base list strings option numbers sets gmap sorting.
From Stdlib Require Import ZArith Lia Ascii Strings.Byte Sorting.Sorted.
From S2P Require Import Prelude Decimal External OrderBook RawLog RawLogSafety Replay Boundary DurabilityProgress SegmentChain Follower Observations MarketReplay TransportJournal GenerationArtifact GenerationHandover.
Local Open Scope Z_scope.

(** ** Data *)

Definition COMPLETE_REPLAY_USAGE : string := "COMPLETE_RUN_NEUTRAL_REPLAY".
Definition QUALIFIED_REPLAY_RECEIPT_USAGE : string := "QUALIFIED_COMPLETE_RUN_NEUTRAL_REPLAY".

Record CompleteRunReplaySelectionV1 := mkRunSelection {
  rn_schema : string; rn_usage : string; rn_run_directory : string; rn_symbol : string
}.
Record CompleteReplaySourceV1 := mkReplaySource {
  ro_run_id : string; ro_run_mode : string; ro_run_status : string; ro_launcher_terminal_sha256 : string;
  ro_campaign_id : string; ro_campaign_manifest_sha256 : string; ro_campaign_verification_sha256 : string;
  ro_rust_verification_sha256 : string; ro_python_verification_sha256 : string; ro_symbol : string;
  ro_generations : Z; ro_handovers : Z
}.
Record DepthGenerationReplayV1 := mkDepthGeneration {
  dg_generation_index : Z; dg_session_id : string; dg_first_selected_frame_index : Z;
  dg_last_selected_frame_index : Z; dg_selected_raw_records : Z; dg_selected_market_records : Z;
  dg_selected_control_records : Z; dg_final_update_id : Z; dg_state_sha256 : string
}.
Record TradeGenerationReplayV1 := mkTradeGeneration {
  tg_generation_index : Z; tg_session_id : string; tg_first_selected_frame_index : option Z;
  tg_last_selected_frame_index : option Z; tg_selected_raw_records : Z; tg_selected_market_records : Z;
  tg_selected_control_records : Z; tg_last_trade_id : Z
}.
Record CompleteDepthReplayV1 := mkCompleteDepth {
  cd_total_raw_records : Z; cd_total_control_records : Z; cd_selected_raw_records : Z;
  cd_selected_market_records : Z; cd_selected_control_records : Z; cd_overlap_records_excluded : Z;
  cd_old_records : Z; cd_applied_records : Z; cd_final_update_id : Z; cd_bid_levels : Z;
  cd_ask_levels : Z; cd_state_sha256 : string; cd_generations : list DepthGenerationReplayV1
}.
Record CompleteTradeReplayV1 := mkCompleteTrade {
  ct_total_raw_records : Z; ct_total_control_records : Z; ct_selected_raw_records : Z;
  ct_selected_market_records : Z; ct_selected_control_records : Z; ct_overlap_records_excluded : Z;
  ct_first_trade_id : Z; ct_last_trade_id : Z; ct_trade_ids_strictly_increasing : bool;
  ct_generations : list TradeGenerationReplayV1
}.
Record CompleteReplayHandoverV1 := mkReplayHandover {
  rh_predecessor_generation_index : Z; rh_successor_generation_index : Z; rh_proof_sha256 : string;
  rh_depth_boundary_sequence : Z; rh_depth_boundary_state_sha256 : string;
  rh_depth_predecessor_last_frame_index : Z; rh_depth_successor_first_frame_index : Z;
  rh_trade_boundary_id : Z; rh_trade_predecessor_last_frame_index : Z;
  rh_trade_successor_skipped_through_frame_index : Z
}.
Record CompleteRunReplayReportV1 := mkRunReport {
  rr_schema : string; rr_usage : string; rr_qualification_claim : bool; rr_source : CompleteReplaySourceV1;
  rr_depth : CompleteDepthReplayV1; rr_trades : CompleteTradeReplayV1;
  rr_handovers : list CompleteReplayHandoverV1; rr_cross_stream_total_order_available : bool;
  rr_economic_features : list string; rr_report_sha256 : string
}.
Record QualifiedReplaySourceFileV1 := mkSourceFile {
  qf_relative_path : string; qf_bytes : Z; qf_sha256 : string
}.
Record QualifiedCompleteReplayReceiptV1 := mkReceipt {
  qr_schema : string; qr_usage : string; qr_qualification_claim : bool;
  qr_economic_features : list string; qr_selection : CompleteRunReplaySelectionV1;
  qr_source_files : list QualifiedReplaySourceFileV1; qr_source_tree_sha256 : string;
  qr_report : CompleteRunReplayReportV1; qr_receipt_sha256 : string
}.
Record CompleteSource := mkCompleteSource {
  ls_campaign : string; ls_run_id : string; ls_mode : string; ls_terminal_sha256 : string;
  ls_campaign_id : string; ls_campaign_manifest_sha256 : string; ls_rust_verification_sha256 : string;
  ls_python_verification_sha256 : string
}.
Record QualifiedReplayGenerationIdentity := mkGenerationIdentityQ {
  qi_generation_index : Z; qi_session_id : string; qi_depth_stream : string;
  qi_depth_connection_epoch : string; qi_trade_stream : string; qi_trade_connection_epoch : string
}.
(** What the replay reads of [VerifiedRawCampaignV1]. *)
Record VerifiedCampaign := mkVerifiedCampaign {
  vc_campaign_id : string; vc_symbol : string; vc_campaign_manifest_sha256 : string;
  vc_verification_sha256 : string; vc_handovers : Z
}.

#[global] Instance depth_generation_eq_decision : EqDecision DepthGenerationReplayV1.
Proof. solve_decision. Defined.
#[global] Instance trade_generation_eq_decision : EqDecision TradeGenerationReplayV1.
Proof. solve_decision. Defined.
#[global] Instance complete_depth_eq_decision : EqDecision CompleteDepthReplayV1.
Proof. solve_decision. Defined.
#[global] Instance complete_trade_eq_decision : EqDecision CompleteTradeReplayV1.
Proof. solve_decision. Defined.
#[global] Instance replay_handover_eq_decision : EqDecision CompleteReplayHandoverV1.
Proof. solve_decision. Defined.
#[global] Instance replay_source_eq_decision : EqDecision CompleteReplaySourceV1.
Proof. solve_decision. Defined.
#[global] Instance run_report_eq_decision : EqDecision CompleteRunReplayReportV1.
Proof. solve_decision. Defined.
#[global] Instance source_file_eq_decision : EqDecision QualifiedReplaySourceFileV1.
Proof. solve_decision. Defined.
#[global] Instance run_selection_eq_decision : EqDecision CompleteRunReplaySelectionV1.
Proof. solve_decision. Defined.
#[global] Instance receipt_eq_decision : EqDecision QualifiedCompleteReplayReceiptV1.
Proof. solve_decision. Defined.

Definition set_report_sha256 (digest : string) (r : CompleteRunReplayReportV1) : CompleteRunReplayReportV1 :=
  mkRunReport (rr_schema r) (rr_usage r) (rr_qualification_claim r) (rr_source r) (rr_depth r) (rr_trades r)
    (rr_handovers r) (rr_cross_stream_total_order_available r) (rr_economic_features r) digest.
Definition set_receipt_sha256 (digest : string) (r : QualifiedCompleteReplayReceiptV1)
    : QualifiedCompleteReplayReceiptV1 :=
  mkReceipt (qr_schema r) (qr_usage r) (qr_qualification_claim r) (qr_economic_features r) (qr_selection r)
    (qr_source_files r) (qr_source_tree_sha256 r) (qr_report r) digest.

(** The tree as the functions of [MarketReplay] see it. *)
Definition market_world (t : tree) : MarketReplay.world :=
  MarketReplay.mkWorld (t_files t) (dom (filter (λ p, p.2 = RegularFile) (t_kind t)))
    (dom (filter (λ p, p.2 = Directory) (t_kind t))) (t_canonical t).

Definition str_contains (needle s : string) : bool :=
  match String.index 0 needle s with Some _ => true | None => false end.

Definition is_segment_raw_path (relative_path : string) : bool :=
  str_ends_with relative_path ".bnraw"
  && (str_contains "/depth/" relative_path || str_contains "/trade/" relative_path).

Definition safe_leaf (value label : string) : res string :=
  let components := path_components value in
  _ ← reject (is_blank value || negb (length components =? 1)%nat || negb (forallb is_normal components))
        (label ++ " is not one safe filename");
  Ok value.

Definition by_relative_path (a b : QualifiedReplaySourceFileV1) : Prop :=
  String.leb (qf_relative_path a) (qf_relative_path b) = true.
#[global] Instance by_relative_path_dec a b : Decision (by_relative_path a b).
Proof. unfold by_relative_path. apply _. Defined.
Definition name_le (a b : string) : Prop := String.leb a b = true.
#[global] Instance name_le_dec a b : Decision (name_le a b).
Proof. unfold name_le. apply _. Defined.

Definition valid_selected_trade_range (start : Z) (end_ first last : option Z) : bool :=
  if negb (Bool.eqb (bool_decide (is_Some first)) (bool_decide (is_Some last)))
     || match first with Some value => negb (value =? start) | None => false end
  then false
  else match end_, last with
       | Some expected, Some value => value =? expected
       | Some expected, None => expected <? start
       | None, _ => true
       end.

Definition replay_handover (proof : RawGenerationHandoverProofV1) : CompleteReplayHandoverV1 :=
  mkReplayHandover (hp_predecessor_generation_index proof) (hp_successor_generation_index proof)
    (hp_proof_sha256 proof) (de_boundary_sequence (hp_depth proof))
    (de_boundary_state_sha256 (hp_depth proof))
    (ps_frame_index (de_predecessor_boundary (hp_depth proof)))
    (ps_frame_index (de_successor_continuation (hp_depth proof)))
    (td_next_shared_trade_id (hp_trade proof)) (ps_frame_index (td_predecessor_next_shared (hp_trade proof)))
    (ps_frame_index (td_successor_next_shared (hp_trade proof))).

Section complete.
Context `{Hsha : Sha256} `{Hval : SerdeValue} `{Hobj : !SerdeObject} `{Hb64 : Base64} `{Hmb : Serde ManifestBodyV1}.
Context `{Hcte : Serde CanonicalTradeEvent} `{Hpm : Serde ProofDigestMaterial} `{Hproof : Serde RawGenerationHandoverProofV1}.
Context `{Hrep : Serde CompleteRunReplayReportV1} `{Hrec : Serde QualifiedCompleteReplayReceiptV1}.
Context `{Hinv : Serde (list QualifiedReplaySourceFileV1)}.

Record GenerationSource := mkGenerationSource {
  gs_index : Z; gs_session_id : string; gs_root : string; gs_startup : Value
}.

(** ** Digests and the inventory of the source *)

Definition report_digest (report : CompleteRunReplayReportV1) : res string :=
  encoded ← map_err "serialize complete replay digest material: " (to_vec (set_report_sha256 "" report));
  Ok (hex (sha256 encoded)).
Definition receipt_digest (receipt : QualifiedCompleteReplayReceiptV1) : res string :=
  encoded ← map_err "serialize qualified replay receipt material: " (to_vec (set_receipt_sha256 "" receipt));
  Ok (hex (sha256 encoded)).
Definition source_tree_digest (source : list QualifiedReplaySourceFileV1) : res string :=
  encoded ← map_err "serialize qualified replay source inventory: " (to_vec source);
  Ok (hex (sha256 encoded)).

(** The regular file [path], listed under [relative]. *)
Definition source_file (t : tree) (path relative : string) (hash_segment_files : bool)
    : res QualifiedReplaySourceFileV1 :=
  _ ← reject (negb (forallb is_normal (path_components relative)))
        "qualified source file has an unsafe relative path";
  relative_path ← into_string relative "qualified source filename is not UTF-8";
  content ← open_file (t_files t) path;
  digest ← if hash_segment_files || negb (is_segment_raw_path relative_path)
           then sha256_file (market_world t) path else Ok "";
  Ok (mkSourceFile relative_path (len content) digest).

(** The files below [directory], whose path from the root is [prefix] (empty for the root
    itself). Every step down lengthens the path, so the number of directories of the tree
    bounds the depth. *)
Fixpoint collect_source_files (fuel : nat) (t : tree) (directory prefix : string) (hash_segment_files : bool)
    (collected : list QualifiedReplaySourceFileV1) : res (list QualifiedReplaySourceFileV1) :=
  match fuel with
  | O => Panic
  | S fuel =>
      names ← ok_or (t_entries t !! directory) "read qualified source directory";
      try_fold (λ collected name,
        let path := path_join directory name in
        let relative := if String.eqb prefix "" then name else path_join prefix name in
        kind ← ok_or (t_kind t !! path) "inspect qualified source entry";
        match kind with
        | Symlink => Err "qualified source tree cannot contain symbolic links"
        | Directory => collect_source_files fuel t path relative hash_segment_files collected
        | OtherEntry => Err "qualified source tree contains a non-regular entry"
        | RegularFile =>
            f ← source_file t path relative hash_segment_files;
            Ok (collected ++ [f])
        end) collected (merge_sort name_le names)
  end.
Definition tree_depth (t : tree) : nat := S (size (t_entries t)).

Definition source_inventory (t : tree) (campaign : string) : res (list QualifiedReplaySourceFileV1) :=
  campaign ← t_canonicalize t campaign;
  collected ← collect_source_files (tree_depth t) t campaign "" true [];
  _ ← reject (bool_decide (collected = [])) "qualified campaign source tree is empty";
  Ok (merge_sort by_relative_path collected).

Definition same_source_file (actual expected : QualifiedReplaySourceFileV1) : res unit :=
  reject (negb (String.eqb (qf_relative_path actual) (qf_relative_path expected))
          || negb (qf_bytes actual =? qf_bytes expected)
          || (negb (is_segment_raw_path (qf_relative_path actual))
              && negb (String.eqb (qf_sha256 actual) (qf_sha256 expected))))
    "qualified replay source tree differs from its receipt".
Definition validate_source_inventory_for_replay (t : tree) (campaign : string)
    (expected : list QualifiedReplaySourceFileV1) : res unit :=
  campaign ← t_canonicalize t campaign;
  collected ← collect_source_files (tree_depth t) t campaign "" false [];
  let actual := merge_sort by_relative_path collected in
  _ ← reject (negb (length actual =? length expected)%nat) "qualified replay source tree file set changed";
  _ ← try_map (λ '(a, e), same_source_file a e) (zip actual expected);
  Ok ().

(** ** The run *)

Definition validate_verifier_artifact (t : tree) (run : string) (row : Value) (symbol campaign_id : string)
    (campaign_manifest_sha256 expected_kind expected_verification_sha256 : string) : res unit :=
  let w := market_world t in
  let msg := "independent verifier process result is not clean" in
  _ ← require_text row "name" "independent verifier" (to_ascii_lowercase symbol ++ "-" ++ expected_kind) msg;
  _ ← require_u64 row "exit_code" "independent verifier" 0 msg;
  _ ← require_u64 row "stderr_bytes" "independent verifier" 0 msg;
  report_file ← text row "report_file" "independent verifier";
  report_name ← safe_leaf report_file "independent verifier report";
  let report_path := path_join (path_join run "independent-verification") report_name in
  expected_file_sha ← text row "report_sha256" "independent verifier";
  let msg := "independent verifier report bytes differ from terminal" in
  _ ← reject (negb (is_digest expected_file_sha)) msg;
  file_sha ← sha256_file w report_path;
  _ ← reject (negb (String.eqb file_sha expected_file_sha)) msg;
  content ← open_file (t_files t) report_path;
  _ ← require_u64 row "report_bytes" "independent verifier" (len content) msg;
  report ← load_json w report_path "independent verifier report";
  let msg := "independent verifier report does not bind the selected campaign" in
  _ ← require_text report "campaign_id" "independent verifier report" campaign_id msg;
  _ ← require_text report "symbol" "independent verifier report" symbol msg;
  _ ← require_text report "verification_sha256" "independent verifier report" expected_verification_sha256 msg;
  if String.eqb expected_kind "rust" then
    _ ← require_text report "schema" "Rust verifier report" "VerifiedRawCampaignV1" msg;
    _ ← require_text report "status" "Rust verifier report" "PASS" msg;
    require_text report "campaign_manifest_sha256" "Rust verifier report" campaign_manifest_sha256 msg
  else
    _ ← require_text report "schema" "Python verifier report" "RawCampaignVerificationV1" msg;
    _ ← require_text report "status" "Python verifier report" "VERIFIED" msg;
    require_text report "campaign_manifest_file_sha256" "Python verifier report" campaign_manifest_sha256 msg.

Definition field_is (value : Value) (field expected : string) : bool :=
  bool_decide (as_str (value_index value field) = Some expected).

(** A binding row names the selected campaign; an unresolvable directory does not match. *)
Definition binding_matches (t : tree) (symbol campaign_id campaign : string) (binding : Value) : bool :=
  field_is binding "symbol" symbol && field_is binding "campaign_id" campaign_id
  && bool_decide ((as_str (value_index binding "campaign_directory") ≫= λ d, t_canonical t !! d) = Some campaign).

Definition verifier_turn (t : tree) (run symbol campaign_id campaign_manifest_sha256 : string)
    (verifiers : list Value) (kind_expected : string * string) : res unit :=
  let '(kind, expected) := kind_expected in
  verifier ← ok_or (List.find (λ item, field_is item "name" (to_ascii_lowercase symbol ++ "-" ++ kind)) verifiers)
               ("selected campaign lacks " ++ kind ++ " verifier");
  validate_verifier_artifact t run verifier symbol campaign_id campaign_manifest_sha256 kind expected.

Definition validate_complete_source (t : tree) (run symbol : string) : res CompleteSource :=
  let w := market_world t in
  run ← t_canonicalize t run;
  let terminal_path := path_join run "launcher-terminal.json" in
  terminal ← load_json w terminal_path "launcher terminal";
  run_id ← text terminal "run_id" "launcher terminal";
  mode ← text terminal "mode" "launcher terminal";
  let msg := "source is not an exact COMPLETE qualification run" in
  _ ← require_text terminal "schema" "launcher terminal" "RawQualificationLauncherTerminalV2" msg;
  _ ← require_text terminal "status" "launcher terminal" "COMPLETE" msg;
  _ ← reject (negb (String.eqb mode "Production" || String.eqb mode "Smoke" || String.eqb mode "Test")) msg;
  _ ← require_text terminal "credentials" "launcher terminal" "NONE" msg;
  _ ← require_text terminal "order_entry" "launcher terminal" "ABSENT" msg;
  _ ← reject (negb (bool_decide (path_file_name run = Some run_id))) msg;
  run_root ← text terminal "run_root" "launcher terminal";
  terminal_run_root ← t_canonicalize t run_root;
  _ ← reject (negb (String.eqb terminal_run_root run)) msg;
  let bindings_path := path_join run "campaign-bindings.json" in
  bindings_sha ← sha256_file w bindings_path;
  _ ← require_text terminal "campaign_bindings_sha256" "launcher terminal" bindings_sha
        "COMPLETE terminal does not bind campaign-bindings.json";
  campaigns ← ok_or (as_array (value_index terminal "campaigns")) "launcher terminal campaigns must be an array";
  symbols ← try_map (λ row, text row "symbol" "launcher campaign") campaigns;
  _ ← reject (negb (length campaigns =? 2)%nat
              || negb (bool_decide ((list_to_set symbols : gset string) = {["BTCUSDT"; "ETHUSDT"]}%string)))
        "COMPLETE terminal does not contain exactly BTCUSDT and ETHUSDT";
  row ← ok_or (List.find (λ row, field_is row "symbol" symbol) campaigns)
          "selected symbol is absent from COMPLETE terminal";
  let msg := "selected campaign did not terminate cleanly" in
  _ ← require_u64 row "exit_code" "launcher campaign" 0 msg;
  _ ← require_u64 row "child_stderr_events" "launcher campaign" 0 msg;
  _ ← require_u64 row "stderr_file_bytes" "launcher campaign" 0 msg;
  directory ← text row "campaign_directory" "launcher campaign";
  campaign ← t_canonicalize t directory;
  _ ← reject (negb (bool_decide (path_parent campaign = Some run)))
        "selected campaign is not a direct child of its run";
  campaign_id ← text row "campaign_id" "launcher campaign";
  _ ← reject (negb (bool_decide (path_file_name campaign = Some campaign_id)))
        "selected campaign directory identity differs from terminal";
  campaign_manifest_sha256 ← text row "campaign_manifest_sha256" "launcher campaign";
  let msg := "selected campaign manifest differs from terminal" in
  _ ← reject (negb (is_digest campaign_manifest_sha256)) msg;
  manifest_sha ← sha256_file w (path_join campaign "campaign.json");
  _ ← reject (negb (String.eqb manifest_sha campaign_manifest_sha256)) msg;
  rust_verification_sha256 ← text row "rust_verification_sha256" "launcher campaign";
  python_verification_sha256 ← text row "python_verification_sha256" "launcher campaign";
  _ ← reject (negb (is_digest rust_verification_sha256) || negb (is_digest python_verification_sha256))
        "launcher campaign verifier digest is invalid";
  verifiers ← ok_or (as_array (value_index row "independent_verifiers")) "independent_verifiers must be an array";
  _ ← reject (negb (length verifiers =? 2)%nat) "selected campaign lacks exactly two independent verifiers";
  _ ← try_map (verifier_turn t run symbol campaign_id campaign_manifest_sha256 verifiers)
        [("rust"%string, rust_verification_sha256); ("python"%string, python_verification_sha256)];
  bindings ← load_json w bindings_path "campaign bindings";
  binding_rows ← ok_or (as_array (value_index bindings "campaigns"))
                   "campaign bindings campaigns must be an array";
  let msg := "campaign bindings do not identify the selected campaign exactly once" in
  _ ← require_text bindings "schema" "campaign bindings" "RawQualificationCampaignBindingsV1" msg;
  _ ← require_text bindings "run_id" "campaign bindings" run_id msg;
  _ ← reject (negb (length (List.filter (binding_matches t symbol campaign_id campaign) binding_rows) =? 1)%nat) msg;
  terminal_sha256 ← sha256_file w terminal_path;
  Ok (mkCompleteSource campaign run_id mode terminal_sha256 campaign_id campaign_manifest_sha256
        rust_verification_sha256 python_verification_sha256).

(** ** The chain of generations *)

Definition generation_source_turn (t : tree) (campaign symbol : string) (expected_row : nat * Value)
    : res GenerationSource :=
  let '(expected, row) := expected_row in
  index ← u64_field row "generation_index" "campaign generation";
  _ ← reject (negb (index =? Z.of_nat expected)) "campaign generation order changed after verification";
  session_id ← text row "session_id" "campaign generation";
  session_dir ← text row "session_dir" "campaign generation";
  root ← t_canonicalize t (path_join campaign session_dir);
  _ ← reject (negb (bool_decide ((path_parent root ≫= path_parent) = Some campaign)))
        "campaign generation escaped exact generations directory";
  startup ← load_json (market_world t) (path_join root "startup.json") "generation startup";
  let msg := "generation startup identity differs from campaign" in
  _ ← require_text startup "session_id" "generation startup" session_id msg;
  _ ← require_text startup "symbol" "generation startup" symbol msg;
  _ ← require_u64 startup "generation_index" "generation startup" index msg;
  Ok (mkGenerationSource index session_id root startup).
Definition generation_sources (t : tree) (campaign : string) (manifest : Value) (symbol : string)
    : res (list GenerationSource) :=
  rows ← ok_or (as_array (value_index manifest "generations")) "campaign generations must be an array";
  result ← try_map (generation_source_turn t campaign symbol) (imap pair rows);
  _ ← reject (match result with [] => true | _ => false end) "complete campaign contains no generation";
  Ok result.

Definition handover_proof_turn (t : tree) (campaign : string) (row : Value) : res RawGenerationHandoverProofV1 :=
  relative ← text row "proof_file" "campaign handover";
  let path := path_join campaign relative in
  _ ← require_regular_file (market_world t) path "handover proof";
  content ← open_file (t_files t) path;
  proof ← map_err "invalid handover proof JSON: " (from_slice content);
  _ ← validate_raw_handover_proof_digest proof;
  let msg := "handover proof differs after campaign verification" in
  _ ← require_text row "proof_sha256" "campaign handover" (hp_proof_sha256 proof) msg;
  file_sha ← sha256_file (market_world t) path;
  _ ← require_text row "proof_file_sha256" "campaign handover" file_sha msg;
  Ok proof.
Definition load_handover_proofs (t : tree) (campaign : string) (manifest : Value)
    : res (list RawGenerationHandoverProofV1) :=
  rows ← ok_or (as_array (value_index manifest "handovers")) "campaign handovers must be an array";
  try_map (handover_proof_turn t campaign) rows.

Definition topology_turn (symbol : string) (generations : list GenerationSource)
    (index_proof : nat * RawGenerationHandoverProofV1) : res unit :=
  let '(index, proof) := index_proof in
  predecessor ← expect (generations !! index);
  successor ← expect (generations !! S index);
  reject (negb (hp_predecessor_generation_index proof =? Z.of_nat index)
          || negb (hp_successor_generation_index proof =? Z.of_nat index + 1)
          || negb (String.eqb (hp_predecessor_session_id proof) (gs_session_id predecessor))
          || negb (String.eqb (hp_successor_session_id proof) (gs_session_id successor))
          || negb (String.eqb (hp_symbol proof) symbol))
    "handover proof order differs from campaign generations".
Definition validate_replay_topology (symbol : string) (generations : list GenerationSource)
    (proofs : list RawGenerationHandoverProofV1) : res unit :=
  _ ← reject (negb (S (length proofs) =? length generations)%nat)
        "replay topology does not form one generation chain";
  _ ← try_map (topology_turn symbol generations) (imap pair proofs);
  Ok ().


(** ** The records of a stream *)

(** The qualified way: one pass over a segment, checked against its seal. *)
Definition single_pass_records (t : tree) (directory : string) (seal : RawSegmentSealV1)
    : res (list RawRecordEnvelopeV1) :=
  raw ← open_file (t_files t) (path_join directory (sl_raw_file seal));
  records ← read_raw_segment_records raw (genesis_from_seal seal);
  first ← ok_or (head records) "qualified segment contains no record";
  last ← ok_or (last records) "qualified segment contains no record";
  _ ← reject (negb (len records =? sl_records seal)
              || negb (rf_frame_index (re_frame first) =? sl_first_frame_index seal)
              || negb (rf_frame_index (re_frame last) =? sl_last_frame_index seal)
              || negb (re_end_offset last =? sl_durable_through_offset seal)
              || negb (String.eqb (re_record_sha256 last) (sl_terminal_record_sha256 seal))
              || existsb (λ r, negb (String.eqb (rf_connection_epoch (re_frame r)) (sl_connection_epoch seal))
                               || negb (String.eqb (rf_stream (re_frame r)) (sl_stream seal))) records)
        "qualified segment differs from its exact manifest seal";
  Ok records.

(** The audited way: the segments were verified as a whole before. *)
Definition audited_records (t : tree) (artifact : VerifiedRawSegmentV1) : res (list RawRecordEnvelopeV1) :=
  raw ← open_file (t_files t) (vr_raw_path artifact);
  read_raw_segment_records raw (vr_genesis artifact).

Section visitor.
Context {A : Type} (visit : A → RawRecordEnvelopeV1 → Z → res A).

Definition visit_turn (identity : TransportIdentity) (segment_index : Z) (s : A) (record : RawRecordEnvelopeV1)
    : res A :=
  _ ← validate_frame (re_frame record) identity; visit s record segment_index.
Definition single_pass_turn (t : tree) (directory : string) (identity : TransportIdentity) (s : A)
    (entry : RawSegmentManifestEntryV1) : res A :=
  let seal := me_seal entry in
  records ← single_pass_records t directory seal;
  try_fold (visit_turn identity (sl_segment_index seal)) s records.
Definition audited_turn (t : tree) (identity : TransportIdentity) (s : A) (artifact : VerifiedRawSegmentV1)
    : res A :=
  records ← audited_records t artifact;
  try_fold (visit_turn identity (sl_segment_index (vr_seal artifact))) s records.

(** The state of the visitor is threaded through all records of the stream. *)
Definition stream_records (t : tree) (generation : GenerationSource) (kind : string)
    (qualified_single_pass : bool) (s : A) : res A :=
  identity ← load_transport (market_world t) (path_join (gs_root generation) ("transport-" ++ kind ++ ".json"))
               kind (gs_startup generation);
  let directory := path_join (gs_root generation) kind in
  scan ← scan_segment_manifest (t_files t) (path_join directory "segments.bnseg");
  _ ← reject (negb (ms_clean_eof scan) || match ms_entries scan with [] => true | _ => false end)
        (kind ++ " manifest is not complete");
  if qualified_single_pass then try_fold (single_pass_turn t directory identity) s (ms_entries scan)
  else
    through ← sub_u64 (ms_records scan) 1;
    artifacts ← verify_segment_manifest_prefix_files (t_files t) scan directory through;
    try_fold (audited_turn t identity) s artifacts.
End visitor.

(** ** Selection *)

(** The counters of the whole replay and those of one generation. *)
Record replay_totals := mkTotals {
  rt_total_raw : Z; rt_total_controls : Z; rt_selected_raw : Z; rt_selected_market : Z;
  rt_selected_controls : Z
}.
Record generation_totals := mkGenerationTotals {
  gt_first_selected : option Z; gt_last_selected : option Z; gt_last_selected_sha : option string;
  gt_raw : Z; gt_market : Z; gt_controls : Z
}.
Definition no_totals : replay_totals := mkTotals 0 0 0 0 0.
Definition no_generation_totals : generation_totals := mkGenerationTotals None None None 0 0 0.

Definition count_market (c : replay_totals * generation_totals) : res (replay_totals * generation_totals) :=
  let '(rt, gt) := c in
  n ← add_u64 (rt_selected_market rt) 1;
  g ← add_u64 (gt_market gt) 1;
  Ok (mkTotals (rt_total_raw rt) (rt_total_controls rt) (rt_selected_raw rt) n (rt_selected_controls rt),
      mkGenerationTotals (gt_first_selected gt) (gt_last_selected gt) (gt_last_selected_sha gt) (gt_raw gt) g
        (gt_controls gt)).
Definition count_selected_control (c : replay_totals * generation_totals)
    : res (replay_totals * generation_totals) :=
  let '(rt, gt) := c in
  n ← add_u64 (rt_selected_controls rt) 1;
  g ← add_u64 (gt_controls gt) 1;
  Ok (mkTotals (rt_total_raw rt) (rt_total_controls rt) (rt_selected_raw rt) (rt_selected_market rt) n,
      mkGenerationTotals (gt_first_selected gt) (gt_last_selected gt) (gt_last_selected_sha gt) (gt_raw gt)
        (gt_market gt) g).

Section selection.
(** [W] is the state of the sink that receives the selected records. *)
Context {W : Type} (sink : W → Z → Z → RawRecordEnvelopeV1 → res W).

(** What both streams do with a record of the generation whose selected frames are
    [start ..= end_]: the new counters, the sink and, for a selected market record, its
    value. *)
Definition select_record (label : string) (generation_index start : Z) (end_ : option Z)
    (c : replay_totals * generation_totals) (w : W) (record : RawRecordEnvelopeV1) (segment_index : Z)
    : res (replay_totals * generation_totals * W * option Value) :=
  let '(rt, gt) := c in
  total_raw ← add_u64 (rt_total_raw rt) 1;
  value ← map_err ("invalid " ++ label ++ " payload JSON: ") (value_from_slice (rf_payload (re_frame record)));
  control ← is_server_shutdown value;
  total_controls ← if control : bool then add_u64 (rt_total_controls rt) 1 else Ok (rt_total_controls rt);
  let rt := mkTotals total_raw total_controls (rt_selected_raw rt) (rt_selected_market rt) (rt_selected_controls rt) in
  let frame := rf_frame_index (re_frame record) in
  if (frame <? start) || match end_ with Some last => last <? frame | None => false end
  then Ok (rt, gt, w, None)
  else
    w ← sink w generation_index segment_index record;
    selected_raw ← add_u64 (rt_selected_raw rt) 1;
    generation_raw ← add_u64 (gt_raw gt) 1;
    let c := (mkTotals total_raw total_controls selected_raw (rt_selected_market rt) (rt_selected_controls rt),
              mkGenerationTotals (get_or_insert (gt_first_selected gt) frame) (Some frame)
                (Some (re_record_sha256 record)) generation_raw (gt_market gt) (gt_controls gt)) in
    if control : bool then c ← count_selected_control c; Ok (c, w, None) else Ok (c, w, Some value).

(** *** Depth *)

Definition depth_visit (generation_index start : Z) (end_ : option Z)
    (s : replay_totals * generation_totals * W * depth_acc) (record : RawRecordEnvelopeV1) (segment_index : Z)
    : res (replay_totals * generation_totals * W * depth_acc) :=
  let '(c, w, da) := s in
  '(c, w, selected) ← select_record "depth" generation_index start end_ c w record segment_index;
  match selected with
  | None => Ok (c, w, da)
  | Some value =>
      c ← count_market c;
      let '(book, r) := apply_depth_value value (da_book da) in
      outcome ← r;
      match outcome with
      | Old => n ← add_u64 (da_old da) 1; Ok (c, w, mkDepthAcc book (da_applied da) n (da_first_applied da))
      | Applied => n ← add_u64 (da_applied da) 1; Ok (c, w, mkDepthAcc book n (da_old da) (da_first_applied da))
      end
  end.

Definition depth_generation_turn (t : tree) (proofs : list RawGenerationHandoverProofV1)
    (qualified_single_pass : bool) (s : replay_totals * W * depth_acc * list DepthGenerationReplayV1)
    (position_generation : nat * GenerationSource)
    : res (replay_totals * W * depth_acc * list DepthGenerationReplayV1) :=
  let '(rt, w, da, checkpoints) := s in
  let '(position, generation) := position_generation in
  start ← match position with
          | O => Ok 0
          | S before => proof ← expect (proofs !! before);
                        Ok (ps_frame_index (de_successor_continuation (hp_depth proof)))
          end;
  let end_ := (λ proof, ps_frame_index (de_predecessor_boundary (hp_depth proof))) <$> proofs !! position in
  '(rt, gt, w, da) ←
    stream_records (depth_visit (gs_index generation) start end_) t generation "depth" qualified_single_pass
      (rt, no_generation_totals, w, da);
  let msg := ("generation " ++ u_to_string (gs_index generation) ++ " selected no depth record")%string in
  first_selected ← ok_or (gt_first_selected gt) msg;
  last_selected ← ok_or (gt_last_selected gt) msg;
  _ ← reject (negb (first_selected =? start)
              || match end_ with Some expected => negb (last_selected =? expected) | None => false end)
        "depth selection boundary frame is absent";
  _ ← match position with
      | O => Ok ()
      | S before =>
          proof ← expect (proofs !! before);
          reject (negb (first_selected =? ps_frame_index (de_successor_continuation (hp_depth proof))))
            "depth successor did not begin at proven continuation"
      end;
  _ ← match proofs !! position with
      | Some proof =>
          reject (negb (bool_decide (gt_last_selected_sha gt
                                     = Some (ps_record_sha256 (de_predecessor_boundary (hp_depth proof)))))
                  || negb (bool_decide (bk_last_update_id (da_book da) = Some (de_boundary_sequence (hp_depth proof)))))
            "depth replay did not arrive at the proven raw/sequence boundary"
      | None => Ok ()
      end;
  final_update_id ← ok_or (bk_last_update_id (da_book da)) "depth replay has no update ID";
  Ok (rt, w, da, checkpoints ++ [mkDepthGeneration (gs_index generation) (gs_session_id generation) first_selected
        last_selected (gt_raw gt) (gt_market gt) (gt_controls gt) final_update_id (state_digest (da_book da))]).

Definition complete_replay_depth (t : tree) (generations : list GenerationSource)
    (proofs : list RawGenerationHandoverProofV1) (qualified_single_pass : bool) (w : W)
    : res (CompleteDepthReplayV1 * W) :=
  first_generation ← expect (head generations);
  snapshot_file ← open_file (t_files t) (path_join (gs_root first_generation) "snapshot.bnraw");
  snapshots ← read_raw_records snapshot_file;
  _ ← reject (negb (length snapshots =? 1)%nat) "initial generation must contain one snapshot record";
  book ← book_new (default "" (as_str (value_index (gs_startup first_generation) "symbol")));
  snapshot ← expect (snapshots !! 0%nat);
  let '(book, r) := load_snapshot (rf_payload (re_frame snapshot)) book in
  _ ← r;
  '(rt, w, da, checkpoints) ←
    try_fold (depth_generation_turn t proofs qualified_single_pass) (no_totals, w, mkDepthAcc book 0 0 None, [])
      (imap pair generations);
  let book := da_book da in
  let '(bid_levels, ask_levels) := level_counts book in
  excluded ← ok_or (checked_sub (rt_total_raw rt) (rt_selected_raw rt)) "depth selected count exceeds total";
  final_update_id ← ok_or (bk_last_update_id book) "depth replay has no final update ID";
  Ok (mkCompleteDepth (rt_total_raw rt) (rt_total_controls rt) (rt_selected_raw rt) (rt_selected_market rt)
        (rt_selected_controls rt) excluded (da_old da) (da_applied da) final_update_id (Z.of_nat bid_levels)
        (Z.of_nat ask_levels) (state_digest book) checkpoints, w).

(** *** Trades *)

(** [(first_trade_id, previous_trade_id)] beside the counters. *)
Definition trade_visit (generation_index start : Z) (end_ : option Z)
    (s : replay_totals * generation_totals * W * (option Z * option Z)) (record : RawRecordEnvelopeV1)
    (segment_index : Z) : res (replay_totals * generation_totals * W * (option Z * option Z)) :=
  let '(c, w, ids) := s in
  '(c, w, selected) ← select_record "trade" generation_index start end_ c w record segment_index;
  match selected with
  | None => Ok (c, w, ids)
  | Some value =>
      trade_id ← validated_trade_id value (rf_symbol (re_frame record));
      _ ← reject (match ids.2 with Some old => trade_id <=? old | None => false end)
            "selected trade ID duplicated or regressed across handover";
      c ← count_market c;
      Ok (c, w, (get_or_insert ids.1 trade_id, Some trade_id))
  end.

Definition trade_generation_turn (t : tree) (proofs : list RawGenerationHandoverProofV1)
    (qualified_single_pass : bool)
    (s : replay_totals * W * (option Z * option Z) * list TradeGenerationReplayV1)
    (position_generation : nat * GenerationSource)
    : res (replay_totals * W * (option Z * option Z) * list TradeGenerationReplayV1) :=
  let '(rt, w, ids, checkpoints) := s in
  let '(position, generation) := position_generation in
  start ← match position with
          | O => Ok 0
          | S before => proof ← expect (proofs !! before);
                        ok_or (checked_add (ps_frame_index (td_successor_next_shared (hp_trade proof))) 1)
                          "trade successor boundary overflow"
          end;
  let end_ := (λ proof, ps_frame_index (td_predecessor_next_shared (hp_trade proof))) <$> proofs !! position in
  '(rt, gt, w, ids) ←
    stream_records (trade_visit (gs_index generation) start end_) t generation "trade" qualified_single_pass
      (rt, no_generation_totals, w, ids);
  _ ← reject (negb (valid_selected_trade_range start end_ (gt_first_selected gt) (gt_last_selected gt)))
        "trade selection boundary frame is absent";
  _ ← match proofs !! position with
      | Some proof =>
          let raw_boundary_matches :=
            bool_decide (gt_last_selected gt = None)
            || bool_decide (gt_last_selected_sha gt
                            = Some (ps_record_sha256 (td_predecessor_next_shared (hp_trade proof)))) in
          reject (negb raw_boundary_matches
                  || negb (bool_decide (ids.2 = Some (td_next_shared_trade_id (hp_trade proof)))))
            "trade replay did not arrive at the proven shared event"
      | None => Ok ()
      end;
  last_trade_id ← ok_or ids.2 "trade replay contains no market event";
  Ok (rt, w, ids, checkpoints ++ [mkTradeGeneration (gs_index generation) (gs_session_id generation)
        (gt_first_selected gt) (gt_last_selected gt) (gt_raw gt) (gt_market gt) (gt_controls gt) last_trade_id]).

Definition complete_replay_trades (t : tree) (generations : list GenerationSource)
    (proofs : list RawGenerationHandoverProofV1) (qualified_single_pass : bool) (w : W)
    : res (CompleteTradeReplayV1 * W) :=
  '(rt, w, ids, checkpoints) ←
    try_fold (trade_generation_turn t proofs qualified_single_pass) (no_totals, w, (None, None), [])
      (imap pair generations);
  excluded ← ok_or (checked_sub (rt_total_raw rt) (rt_selected_raw rt)) "trade selected count exceeds total";
  first_trade_id ← ok_or ids.1 "trade replay contains no market event";
  last_trade_id ← ok_or ids.2 "trade replay contains no market event";
  Ok (mkCompleteTrade (rt_total_raw rt) (rt_total_controls rt) (rt_selected_raw rt) (rt_selected_market rt)
        (rt_selected_controls rt) excluded first_trade_id last_trade_id true checkpoints, w).
End selection.

(** A replay without a sink. *)
Definition no_sink (w : unit) (generation_index segment_index : Z) (record : RawRecordEnvelopeV1) : res unit := Ok w.

(** ** The report and the receipt *)

Definition assemble_report (source : CompleteReplaySourceV1) (depth : CompleteDepthReplayV1)
    (trades : CompleteTradeReplayV1) (proofs : list RawGenerationHandoverProofV1) : res CompleteRunReplayReportV1 :=
  let report := mkRunReport "CompleteRunReplayReportV1" COMPLETE_REPLAY_USAGE false source depth trades
                  (replay_handover <$> proofs) false [] "" in
  digest ← report_digest report;
  Ok (set_report_sha256 digest report).

Section audited.
(** The verification of the campaign directory. *)
Context (profile_raw_campaign : tree → string → res VerifiedCampaign).

Definition replay_complete_run (t : tree) (selection : CompleteRunReplaySelectionV1)
    : res CompleteRunReplayReportV1 :=
  _ ← reject (negb (String.eqb (rn_schema selection) "CompleteRunReplaySelectionV1")
              || negb (String.eqb (rn_usage selection) COMPLETE_REPLAY_USAGE)
              || negb (known_symbol (rn_symbol selection)))
        "invalid complete-run replay selection";
  source ← validate_complete_source t (rn_run_directory selection) (rn_symbol selection);
  verified ← profile_raw_campaign t (ls_campaign source);
  _ ← reject (negb (String.eqb (vc_campaign_id verified) (ls_campaign_id source))
              || negb (String.eqb (vc_symbol verified) (rn_symbol selection))
              || negb (String.eqb (vc_campaign_manifest_sha256 verified) (ls_campaign_manifest_sha256 source))
              || negb (String.eqb (vc_verification_sha256 verified) (ls_rust_verification_sha256 source)))
        "terminal and independent campaign verification disagree";
  manifest ← load_json (market_world t) (path_join (ls_campaign source) "campaign.json") "campaign manifest";
  generations ← generation_sources t (ls_campaign source) manifest (rn_symbol selection);
  proofs ← load_handover_proofs t (ls_campaign source) manifest;
  _ ← reject (negb (S (length proofs) =? length generations)%nat || negb (vc_handovers verified =? len proofs))
        "verified campaign topology differs from replay topology";
  _ ← validate_replay_topology (rn_symbol selection) generations proofs;
  '(depth, _) ← complete_replay_depth no_sink t generations proofs false ();
  '(trades, _) ← complete_replay_trades no_sink t generations proofs false ();
  assemble_report
    (mkReplaySource (ls_run_id source) (ls_mode source) "COMPLETE" (ls_terminal_sha256 source)
       (ls_campaign_id source) (ls_campaign_manifest_sha256 source) (vc_verification_sha256 verified)
       (ls_rust_verification_sha256 source) (ls_python_verification_sha256 source) (rn_symbol selection)
       (len generations) (len proofs))
    depth trades proofs.

Definition qualify_complete_replay (t : tree) (selection : CompleteRunReplaySelectionV1)
    : res QualifiedCompleteReplayReceiptV1 :=
  report ← replay_complete_run t selection;
  source ← validate_complete_source t (rn_run_directory selection) (rn_symbol selection);
  let bound := rr_source report in
  _ ← reject (negb (String.eqb (ro_run_id bound) (ls_run_id source))
              || negb (String.eqb (ro_campaign_id bound) (ls_campaign_id source))
              || negb (String.eqb (ro_campaign_manifest_sha256 bound) (ls_campaign_manifest_sha256 source))
              || negb (String.eqb (ro_launcher_terminal_sha256 bound) (ls_terminal_sha256 source))
              || negb (String.eqb (ro_rust_verification_sha256 bound) (ls_rust_verification_sha256 source))
              || negb (String.eqb (ro_python_verification_sha256 bound) (ls_python_verification_sha256 source)))
        "qualified replay source changed after complete replay";
  source_files ← source_inventory t (ls_campaign source);
  source_tree_sha256 ← source_tree_digest source_files;
  let receipt := mkReceipt "QualifiedCompleteReplayReceiptV1" QUALIFIED_REPLAY_RECEIPT_USAGE false [] selection
                   source_files source_tree_sha256 report "" in
  digest ← receipt_digest receipt;
  Ok (set_receipt_sha256 digest receipt).
End audited.

Definition inventory_turn (previous : option string) (f : QualifiedReplaySourceFileV1) : res (option string) :=
  _ ← reject (String.eqb (qf_relative_path f) "" || negb (is_digest (qf_sha256 f))
              || match previous with Some old => String.leb (qf_relative_path f) old | None => false end)
        "qualified replay source inventory is invalid";
  _ ← reject (negb (forallb is_normal (path_components (qf_relative_path f))))
        "qualified replay source inventory path is unsafe";
  Ok (Some (qf_relative_path f)).

Definition validate_qualified_receipt (receipt : QualifiedCompleteReplayReceiptV1) : res unit :=
  let selection := qr_selection receipt in
  let report := qr_report receipt in
  _ ← reject (negb (String.eqb (qr_schema receipt) "QualifiedCompleteReplayReceiptV1")
              || negb (String.eqb (qr_usage receipt) QUALIFIED_REPLAY_RECEIPT_USAGE)
              || qr_qualification_claim receipt
              || negb (bool_decide (qr_economic_features receipt = []))
              || negb (String.eqb (rn_schema selection) "CompleteRunReplaySelectionV1")
              || negb (String.eqb (rn_usage selection) COMPLETE_REPLAY_USAGE)
              || negb (known_symbol (rn_symbol selection))
              || negb (String.eqb (rr_schema report) "CompleteRunReplayReportV1")
              || negb (String.eqb (rr_usage report) COMPLETE_REPLAY_USAGE)
              || rr_qualification_claim report
              || rr_cross_stream_total_order_available report
              || negb (bool_decide (rr_economic_features report = []))
              || negb (String.eqb (ro_symbol (rr_source report)) (rn_symbol selection))
              || negb (String.eqb (ro_run_status (rr_source report)) "COMPLETE")
              || bool_decide (qr_source_files receipt = [])
              || negb (is_digest (qr_source_tree_sha256 receipt))
              || negb (is_digest (qr_receipt_sha256 receipt))
              || negb (is_digest (rr_report_sha256 report)))
        "qualified replay receipt contract is invalid";
  let msg := "qualified replay receipt digest is invalid" in
  digest ← report_digest report;
  _ ← reject (negb (String.eqb digest (rr_report_sha256 report))) msg;
  digest ← source_tree_digest (qr_source_files receipt);
  _ ← reject (negb (String.eqb digest (qr_source_tree_sha256 receipt))) msg;
  digest ← receipt_digest receipt;
  _ ← reject (negb (String.eqb digest (qr_receipt_sha256 receipt))) msg;
  _ ← try_fold inventory_turn None (qr_source_files receipt);
  Ok ().

Definition qualified_replay_context (t : tree) (receipt : QualifiedCompleteReplayReceiptV1)
    : res (list GenerationSource * list RawGenerationHandoverProofV1) :=
  _ ← validate_qualified_receipt receipt;
  let selection := qr_selection receipt in
  source ← validate_complete_source t (rn_run_directory selection) (rn_symbol selection);
  let expected := rr_source (qr_report receipt) in
  _ ← reject (negb (String.eqb (ro_run_id expected) (ls_run_id source))
              || negb (String.eqb (ro_run_mode expected) (ls_mode source))
              || negb (String.eqb (ro_campaign_id expected) (ls_campaign_id source))
              || negb (String.eqb (ro_campaign_manifest_sha256 expected) (ls_campaign_manifest_sha256 source))
              || negb (String.eqb (ro_launcher_terminal_sha256 expected) (ls_terminal_sha256 source))
              || negb (String.eqb (ro_campaign_verification_sha256 expected) (ls_rust_verification_sha256 source))
              || negb (String.eqb (ro_rust_verification_sha256 expected) (ls_rust_verification_sha256 source))
              || negb (String.eqb (ro_python_verification_sha256 expected) (ls_python_verification_sha256 source)))
        "qualified replay receipt no longer identifies its exact source";
  _ ← validate_source_inventory_for_replay t (ls_campaign source) (qr_source_files receipt);
  manifest ← load_json (market_world t) (path_join (ls_campaign source) "campaign.json") "campaign manifest";
  generations ← generation_sources t (ls_campaign source) manifest (rn_symbol selection);
  proofs ← load_handover_proofs t (ls_campaign source) manifest;
  _ ← validate_replay_topology (rn_symbol selection) generations proofs;
  _ ← reject (negb (ro_generations expected =? len generations) || negb (ro_handovers expected =? len proofs))
        "qualified replay topology differs from its receipt";
  Ok (generations, proofs).

Definition replay_qualified_complete_run (t : tree) (receipt : QualifiedCompleteReplayReceiptV1)
    : res CompleteRunReplayReportV1 :=
  '(generations, proofs) ← qualified_replay_context t receipt;
  '(depth, _) ← complete_replay_depth no_sink t generations proofs true ();
  '(trades, _) ← complete_replay_trades no_sink t generations proofs true ();
  report ← assemble_report (rr_source (qr_report receipt)) depth trades proofs;
  _ ← reject (negb (bool_decide (report = qr_report receipt)))
        "qualified replay output differs from audit-grade replay";
  Ok report.

Definition generation_identity (t : tree) (generation : GenerationSource)
    : res QualifiedReplayGenerationIdentity :=
  let w := market_world t in
  depth ← load_transport w (path_join (gs_root generation) "transport-depth.json") "depth" (gs_startup generation);
  trade ← load_transport w (path_join (gs_root generation) "transport-trade.json") "trade" (gs_startup generation);
  Ok (mkGenerationIdentityQ (gs_index generation) (gs_session_id generation) (tr_stream depth)
        (tr_connection_epoch depth) (tr_stream trade) (tr_connection_epoch trade)).

(** The sinks receive the selected records of the two streams. *)
Definition materialize_qualified_replay_records {D T : Type} (t : tree)
    (receipt : QualifiedCompleteReplayReceiptV1)
    (depth_sink : D → Z → Z → RawRecordEnvelopeV1 → res D) (trade_sink : T → Z → Z → RawRecordEnvelopeV1 → res T)
    (d0 : D) (t0 : T) : res (RawRecordEnvelopeV1 * list QualifiedReplayGenerationIdentity * D * T) :=
  '(generations, proofs) ← qualified_replay_context t receipt;
  first_generation ← expect (head generations);
  snapshot_file ← open_file (t_files t) (path_join (gs_root first_generation) "snapshot.bnraw");
  snapshots ← read_raw_records snapshot_file;
  _ ← reject (negb (length snapshots =? 1)%nat) "qualified cache source must contain one initial snapshot";
  identities ← try_map (generation_identity t) generations;
  '(depth, d1) ← complete_replay_depth depth_sink t generations proofs true d0;
  '(trades, t1) ← complete_replay_trades trade_sink t generations proofs true t0;
  report ← assemble_report (rr_source (qr_report receipt)) depth trades proofs;
  _ ← reject (negb (bool_decide (report = qr_report receipt)))
        "qualified cache materialization differs from audit-grade replay";
  snapshot ← expect (snapshots !! 0%nat);
  Ok (snapshot, identities, d1, t1).
End complete.

(** ** Theory *)

Section complete_theory.
Context `{Hsha : Sha256} `{Hval : SerdeValue} `{Hobj : !SerdeObject} `{Hb64 : Base64} `{Hmb : Serde ManifestBodyV1}.
Context `{Hcte : Serde CanonicalTradeEvent} `{Hpm : Serde ProofDigestMaterial} `{Hproof : Serde RawGenerationHandoverProofV1}.
Context `{Hrep : Serde CompleteRunReplayReportV1} `{Hrec : Serde QualifiedCompleteReplayReceiptV1}.
Context `{Hinv : Serde (list QualifiedReplaySourceFileV1)} `{!Sha256Laws Hsha} `{!SerdeValueLaws Hval}.

(** *** Segments read once *)

Lemma read_segment_indexes raw g rs :
  read_raw_segment_records raw g = Ok rs →
  frame_indexes rs = seqZ (gn_next_frame_index g) (len rs) ∧
  Forall (λ r, record_key (re_frame r) = (gn_connection_epoch g, gn_stream g)) rs.
Proof.
  unfold read_raw_segment_records. intros H. apply res_bind_Ok in H as ([] & _ & H).
  apply res_bind_Ok in H as (rest & _ & H). apply res_bind_Ok in H as (rs' & Hl & H).
  apply res_bind_Ok in H as ([] & Hk%reject_Ok & [= ->]). apply existsb_none_inv in Hk.
  assert (Forall (λ r, record_key (re_frame r) = (gn_connection_epoch g, gn_stream g)) rs) as Hkey.
  { eapply Forall_impl; [exact Hk|]. intros r Hr. by apply negb_false_iff, bool_decide_eq_true in Hr. }
  split; [|done]. unfold read_raw_records_after_magic in Hl.
  destruct (records_loop _ _ _ _ _ _) as [E' r] eqn:E; cbn [snd] in Hl. subst r.
  rewrite (records_loop_indexes _ _ _ _ _ _ _ _ E Hkey), lookup_singleton_eq. done.
Qed.

Lemma single_pass_inv t directory seal rs :
  single_pass_records t directory seal = Ok rs →
  len rs = sl_records seal ∧ frame_indexes rs = seqZ (sl_first_frame_index seal) (len rs) ∧
  Forall (λ r, record_key (re_frame r) = (sl_connection_epoch seal, sl_stream seal)) rs.
Proof.
  unfold single_pass_records. intros H. apply res_bind_Ok in H as (raw & _ & H).
  apply res_bind_Ok in H as (rs' & Hr & H). do 2 apply res_bind_Ok in H as (? & _ & H).
  apply res_bind_Ok in H as ([] & Hg%reject_Ok & [= ->]). split_orb.
  destruct (read_segment_indexes _ _ _ Hr) as [Hi Hk]. split_and!; [lia|done|done].
Qed.

(** Both ways of reading see the same records in a segment that the audit accepts. *)
Lemma audited_single_pass t directory e v :
  verify_manifest_entry (t_files t) directory e = Ok v →
  vr_seal v = me_seal e ∧ ∃ rs, audited_records t v = Ok rs ∧ single_pass_records t directory (me_seal e) = Ok rs.
Proof.
  intros H. destruct (verified_entry_inv _ _ _ _ H) as (Hp & Hg & Hs). split; [done|].
  unfold verify_manifest_entry in H. apply res_bind_Ok in H as (a & Ha & H).
  apply res_bind_Ok in H as ([] & _ & [= ->]).
  pose proof Ha as Hshape. unfold verify_and_seal_raw_segment in Hshape.
  do 9 apply res_bind_Ok in Hshape as (? & _ & Hshape).
  apply res_bind_Ok in Hshape as ([] & Hshape & [= Hv]).
  apply (f_equal vr_seal) in Hv. cbn [vr_seal] in Hv. rewrite Hv, Hs in Hshape.
  apply validate_seal_shape_Ok in Hshape as [Hn Hpos].
  destruct (verified_segment_sealed _ _ _ _ _ _ Ha) as (rs & ((raw & Hraw & Hrs & _) & Hlen & Hidx & Hkey) & (l & Hl & Ho & Hd)).
  rewrite Hs in Hlen, Hidx, Hkey, Ho, Hd. rewrite Hp in Hraw. exists rs.
  unfold audited_records, single_pass_records, open_file. rewrite Hp, Hraw. cbn [ok_or mbind res_bind].
  rewrite Hrs. split; [done|]. rewrite Hg in Hrs. rewrite Hrs. cbn [mbind res_bind].
  destruct rs as [|r rs]; [done|]. cbn [head]. rewrite Hl. cbn [ok_or mbind res_bind].
  rewrite (proj2 (reject_Ok _ _ ())); [done|].
  unfold frame_indexes in Hidx.
  assert (rf_frame_index (re_frame r) = sl_first_frame_index (me_seal e)) as Hfirst.
  { rewrite seqZ_cons in Hidx by lia. by injection Hidx. }
  assert (rf_frame_index (re_frame l) = sl_last_frame_index (me_seal e)) as Hlastf.
  { apply (f_equal last) in Hidx. rewrite fmap_last, Hl in Hidx. cbn [fmap option_fmap option_map] in Hidx.
    replace (len (r :: rs)) with (len (r :: rs) - 1 + 1) in Hidx by lia.
    rewrite seqZ_app in Hidx by lia. rewrite (seqZ_cons _ 1), (seqZ_nil _ (Z.pred 1)), last_snoc in Hidx by lia. injection Hidx as ->. lia. }
  rewrite !orb_false_iff, !negb_false_iff. split_and!; try lia; [by apply String.eqb_eq|].
  apply existsb_none. eapply Forall_impl; [exact Hkey|]. intros r0 [= <- <-]. by rewrite !String.eqb_refl.
Qed.

(** *** Streams *)

(** The records of a stream in order, each with the index of its segment. *)
Definition tagged (entries : list RawSegmentManifestEntryV1) (rss : list (list RawRecordEnvelopeV1))
    : list (Z * RawRecordEnvelopeV1) :=
  concat (zip_with (λ e rs, (λ r, (sl_segment_index (me_seal e), r)) <$> rs) entries rss).

(** The manifest of a stream is complete, its transport is known, and [trs] are the records
    of all its segments. *)
Definition stream_read (t : tree) (generation : GenerationSource) (kind : string)
    (trs : list (Z * RawRecordEnvelopeV1)) : Prop :=
  ∃ identity scan rss,
    load_transport (market_world t) (path_join (gs_root generation) ("transport-" ++ kind ++ ".json")) kind
      (gs_startup generation) = Ok identity ∧
    scan_segment_manifest (t_files t) (path_join (path_join (gs_root generation) kind) "segments.bnseg") = Ok scan ∧
    ms_clean_eof scan = true ∧ ms_entries scan ≠ [] ∧
    Forall2 (λ e rs, single_pass_records t (path_join (gs_root generation) kind) (me_seal e) = Ok rs)
      (ms_entries scan) rss ∧
    trs = tagged (ms_entries scan) rss ∧
    Forall (λ tr, validate_frame (re_frame tr.2) identity = Ok ()) trs.

Lemma tagged_records entries rss :
  length entries = length rss → (tagged entries rss).*2 = concat rss.
Proof.
  unfold tagged. revert rss. induction entries as [|e entries IH]; intros [|rs rss]; try done.
  intros [= Hl]. cbn [zip_with concat]. rewrite fmap_app, (IH _ Hl). f_equal.
  rewrite <-list_fmap_compose. by apply list_fmap_id.
Qed.

(** The frames of a stream are numbered without a gap. *)
Lemma stream_read_indexes t generation kind trs :
  map_Forall (λ _ f, len f ≤ u64_max) (t_files t) → stream_read t generation kind trs →
  frame_indexes trs.*2 = seqZ 0 (len trs).
Proof.
  intros Hfs (identity & scan & rss & _ & Hscan & _ & _ & HF & -> & _).
  unfold scan_segment_manifest in Hscan. apply res_bind_Ok in Hscan as (file & Hf%ok_or_Ok & Hscan).
  apply Hfs in Hf. destruct (scan_manifest_spec (path_join (path_join (gs_root generation) kind) "segments.bnseg") file Hf)
    as (sc & Hsc & Hc & _). assert (sc = scan) as -> by congruence.
  destruct (chain_records (me_seal <$> ms_entries scan) rss Hc) as [Hi _].
  { apply Forall2_fmap_l. eapply Forall2_impl; [exact HF|]. intros e rs H. by apply (single_pass_inv _ _ _ _ H). }
  pose proof (tagged_records _ _ (Forall2_length _ _ _ HF)) as Ht. unfold len in *.
  rewrite Ht, Hi, <-Ht, length_fmap. done.
Qed.


Lemma stream_read_det t generation kind trs trs' :
  stream_read t generation kind trs → stream_read t generation kind trs' → trs = trs'.
Proof.
  intros (i & sc & rss & _ & Hs & _ & _ & HF & -> & _) (i' & sc' & rss' & _ & Hs' & _ & _ & HF' & -> & _).
  assert (sc = sc') as <- by congruence. f_equal. clear Hs Hs'. revert rss' HF'.
  induction HF as [|e rs es rss H _ IH]; intros rss' HF'.
  - by apply Forall2_nil_inv_l in HF' as ->.
  - apply Forall2_cons_inv_l in HF' as (rs' & rss1 & H' & HF' & ->). f_equal; [congruence|by apply IH].
Qed.

Section stream_visit.
Context {A : Type} (visit : A → RawRecordEnvelopeV1 → Z → res A).
Definition tagged_visit (s : A) (tr : Z * RawRecordEnvelopeV1) : res A := visit s tr.2 tr.1.

Lemma visit_turns_inv identity i rs s s' :
  try_fold (visit_turn visit identity i) s rs = Ok s' →
  try_fold tagged_visit s ((λ r, (i, r)) <$> rs) = Ok s' ∧
  Forall (λ tr, validate_frame (re_frame tr.2) identity = Ok ()) ((λ r, (i, r)) <$> rs).
Proof.
  revert s. induction rs as [|r rs IH]; intros s; [by intros [= <-]|].
  cbn [try_fold]. unfold visit_turn at 1. intros (s1 & ([] & Hv & H1)%res_bind_Ok & H)%res_bind_Ok.
  rewrite fmap_cons. cbn [try_fold]. change (tagged_visit s (i, r)) with (visit s r i). rewrite H1. cbn [mbind res_bind].
  destruct (IH _ H) as [H2 H3]. split; [done|by constructor].
Qed.

Lemma single_pass_inv_fold t directory identity es s s' :
  try_fold (single_pass_turn visit t directory identity) s es = Ok s' →
  ∃ rss, Forall2 (λ e rs, single_pass_records t directory (me_seal e) = Ok rs) es rss ∧
    try_fold tagged_visit s (tagged es rss) = Ok s' ∧
    Forall (λ tr, validate_frame (re_frame tr.2) identity = Ok ()) (tagged es rss).
Proof.
  revert s. induction es as [|e es IH]; intros s.
  { intros [= <-]. exists []. split; [constructor|]. split; [done|constructor]. }
  cbn [try_fold]. set (F := try_fold (single_pass_turn visit t directory identity)) in *. unfold single_pass_turn.
  intros (s1 & (rs & Hrs & H1)%res_bind_Ok & H)%res_bind_Ok. destruct (IH _ H) as (rss & HF & H2 & H3).
  apply visit_turns_inv in H1 as [H1 Hv]. exists (rs :: rss). split; [by constructor|].
  unfold tagged in *. cbn [zip_with concat]. rewrite try_fold_app, H1. cbn [mbind res_bind].
  split; [done|]. by apply Forall_app.
Qed.

Lemma stream_records_single t generation kind s s' :
  stream_records visit t generation kind true s = Ok s' →
  ∃ trs, stream_read t generation kind trs ∧ try_fold tagged_visit s trs = Ok s'.
Proof.
  unfold stream_records. intros (identity & Hi & H)%res_bind_Ok. apply res_bind_Ok in H as (scan & Hs & H).
  apply res_bind_Ok in H as ([] & Hg%reject_Ok & H). split_orb.
  apply single_pass_inv_fold in H as (rss & HF & Hfold & Hv). exists (tagged (ms_entries scan) rss).
  split; [|done]. exists identity, scan, rss. split_and!; try done. by intros E; rewrite E in *.
Qed.

Lemma audited_fold t directory identity es vs s s' :
  Forall2 (λ e v, verify_manifest_entry (t_files t) directory e = Ok v) es vs →
  try_fold (audited_turn visit t identity) s vs = Ok s' →
  try_fold (single_pass_turn visit t directory identity) s es = Ok s'.
Proof.
  intros HF. revert s. induction HF as [|e v es vs He _ IH]; intros s H; [done|].
  cbn [try_fold] in *. apply res_bind_Ok in H as (s1 & H1 & H). unfold audited_turn in H1.
  destruct (audited_single_pass _ _ _ _ He) as (Hseal & rs & Ha & Hsp).
  rewrite Ha in H1. cbn [mbind res_bind] in H1. rewrite Hseal in H1.
  set (F := try_fold (single_pass_turn visit t directory identity)) in *. unfold single_pass_turn.
  rewrite Hsp. cbn [mbind res_bind]. rewrite H1. cbn [mbind res_bind]. by apply IH.
Qed.

(** What the audited pass accepts, the single pass accepts with the same result. *)
Lemma stream_records_audited t generation kind s s' :
  map_Forall (λ _ f, len f ≤ u64_max) (t_files t) →
  stream_records visit t generation kind false s = Ok s' →
  stream_records visit t generation kind true s = Ok s'.
Proof.
  unfold stream_records. intros Hfs (identity & Hi & H)%res_bind_Ok. rewrite Hi. cbn [mbind res_bind].
  apply res_bind_Ok in H as (scan & Hs & H). rewrite Hs. cbn [mbind res_bind].
  apply res_bind_Ok in H as ([] & Hg & H). rewrite Hg. cbn [mbind res_bind]. apply reject_Ok in Hg. split_orb.
  apply res_bind_Ok in H as (through & Hth & H). unfold sub_u64 in Hth.
  destruct (checked_sub _ _) eqn:Ht; [|done]. injection Hth as ->. apply checked_sub_Some in Ht as [Hle ->].
  apply res_bind_Ok in H as (vs & Hvs & H).
  assert (ms_records scan = len (ms_entries scan)) as Hcount.
  { unfold scan_segment_manifest in Hs. apply res_bind_Ok in Hs as (file & Hf%ok_or_Ok & Hs). apply Hfs in Hf.
    destruct (decide (take 8 file = MANIFEST_MAGIC)) as [Hm|Hm].
    - by destruct (scan_manifest_split _ _ _ Hf Hm Hs) as (? & ? & _ & _ & _ & _ & _ & ? & _).
    - unfold scan_manifest_bytes in Hs. rewrite bool_decide_eq_false_2 in Hs by done. by injection Hs as <-. }
  destruct (verify_prefix_inv _ _ _ (ms_records scan - 1) vs ltac:(lia) Hvs) as [HF _].
  rewrite take_ge in HF by (unfold len in Hcount; lia).
  by apply (audited_fold _ _ _ _ _ _ _ HF H).
Qed.

Lemma stream_records_inv t generation kind mode s s' :
  map_Forall (λ _ f, len f ≤ u64_max) (t_files t) →
  stream_records visit t generation kind mode s = Ok s' →
  ∃ trs, stream_read t generation kind trs ∧ try_fold tagged_visit s trs = Ok s'.
Proof.
  intros Hfs H. apply stream_records_single. destruct mode; [done|by apply stream_records_audited].
Qed.
End stream_visit.


(** *** Selection *)

(** The frames [start ..= end_] of a generation. *)
Definition selected (start : Z) (end_ : option Z) (r : RawRecordEnvelopeV1) : bool :=
  negb ((rf_frame_index (re_frame r) <? start)
        || match end_ with Some last => last <? rf_frame_index (re_frame r) | None => false end).
Definition select (start : Z) (end_ : option Z) (trs : list (Z * RawRecordEnvelopeV1))
    : list (Z * RawRecordEnvelopeV1) :=
  List.filter (λ tr, selected start end_ tr.2) trs.

(** The counters behind the records [all] of which [sel] were selected. *)
Definition totals_of (rt : replay_totals) (all sel : list RawRecordEnvelopeV1) : replay_totals :=
  mkTotals (rt_total_raw rt + len all) (rt_total_controls rt + len all - len (data_frames all))
    (rt_selected_raw rt + len sel) (rt_selected_market rt + len (data_frames sel))
    (rt_selected_controls rt + len sel - len (data_frames sel)).
Definition generation_of (sel : list RawRecordEnvelopeV1) : generation_totals :=
  mkGenerationTotals (rf_frame_index ∘ re_frame <$> head sel) (rf_frame_index ∘ re_frame <$> last sel)
    (re_record_sha256 <$> last sel) (len sel) (len (data_frames sel)) (len sel - len (data_frames sel)).

Lemma len_one {A} (x : A) : len [x] = 1.
Proof. done. Qed.
Lemma len_none {A} : len (@nil A) = 0.
Proof. done. Qed.
Lemma data_frames_app l k : data_frames (l ++ k) = data_frames l ++ data_frames k.
Proof. unfold data_frames. by rewrite fmap_app, List.filter_app. Qed.
Lemma data_frames_one r : data_frames [r] = if is_data (re_frame r) then [re_frame r] else [].
Proof. unfold data_frames. cbn. by destruct (is_data _). Qed.
Lemma select_snoc start end_ trs tr :
  select start end_ (trs ++ [tr]) = select start end_ trs ++ (if selected start end_ tr.2 then [tr] else []).
Proof. unfold select. rewrite List.filter_app. cbn. by destruct (selected _ _ _). Qed.

Lemma totals_of_nil rt : totals_of rt [] [] = rt.
Proof.
  destruct rt. unfold totals_of. cbn [rt_total_raw rt_total_controls rt_selected_raw rt_selected_market
    rt_selected_controls]. change (data_frames []) with (@nil RawFrame). rewrite !(len_none (A := RawFrame)), !len_none. f_equal; lia.
Qed.

Lemma count_market_Ok rt gt c :
  count_market (rt, gt) = Ok c →
  c = (mkTotals (rt_total_raw rt) (rt_total_controls rt) (rt_selected_raw rt) (rt_selected_market rt + 1)
         (rt_selected_controls rt),
       mkGenerationTotals (gt_first_selected gt) (gt_last_selected gt) (gt_last_selected_sha gt) (gt_raw gt)
         (gt_market gt + 1) (gt_controls gt)).
Proof.
  unfold count_market. intros (n & [_ ->]%add_u64_Ok & H)%res_bind_Ok.
  by apply res_bind_Ok in H as (g & [_ ->]%add_u64_Ok & [= <-]).
Qed.
Lemma count_selected_control_Ok rt gt c :
  count_selected_control (rt, gt) = Ok c →
  c = (mkTotals (rt_total_raw rt) (rt_total_controls rt) (rt_selected_raw rt) (rt_selected_market rt)
         (rt_selected_controls rt + 1),
       mkGenerationTotals (gt_first_selected gt) (gt_last_selected gt) (gt_last_selected_sha gt) (gt_raw gt)
         (gt_market gt) (gt_controls gt + 1)).
Proof.
  unfold count_selected_control. intros (n & [_ ->]%add_u64_Ok & H)%res_bind_Ok.
  by apply res_bind_Ok in H as (g & [_ ->]%add_u64_Ok & [= <-]).
Qed.

(** A payload the replay could classify. *)
Definition readable (r : RawRecordEnvelopeV1) : Prop :=
  ∃ v b, value_from_slice (rf_payload (re_frame r)) = inr v ∧ is_server_shutdown v = Ok b.

Section selection_theory.
Context {W A : Type} (sink : W → Z → Z → RawRecordEnvelopeV1 → res W).
Context (label : string) (generation_index start : Z) (end_ : option Z).

(** The sink called with a record of the generation. *)
Definition sink_turn (w : W) (tr : Z * RawRecordEnvelopeV1) : res W := sink w generation_index tr.1 tr.2.

(** One record moves the counters from the prefix to the prefix with it; the market count
    of a selected market record is still to come. *)
Lemma select_record_counts rt0 all sel w r i c w' value :
  select_record sink label generation_index start end_ (totals_of rt0 all sel, generation_of sel) w r i
  = Ok (c, w', value) →
  let chosen := selected start end_ r in let sel' := sel ++ (if chosen then [r] else []) in
  readable r ∧ (if chosen then sink w generation_index i r = Ok w' else w' = w) ∧
  match value with
  | None => chosen && is_data (re_frame r) = false ∧ c = (totals_of rt0 (all ++ [r]) sel', generation_of sel')
  | Some v => chosen = true ∧ is_data (re_frame r) = true ∧ value_from_slice (rf_payload (re_frame r)) = inr v ∧
      ∀ c', count_market c = Ok c' → c' = (totals_of rt0 (all ++ [r]) sel', generation_of sel')
  end.
Proof.
  unfold select_record. intros (n & [_ ->]%add_u64_Ok & H)%res_bind_Ok.
  apply res_bind_Ok in H as (v & Hv%map_err_Ok & H). apply res_bind_Ok in H as (b & Hb & H).
  pose proof (is_server_shutdown_Ok _ _ _ Hv Hb) as Hd. split; [by exists v, b|].
  apply res_bind_Ok in H as (tc & Htc & H).
  assert (tc = rt_total_controls (totals_of rt0 all sel) + (if b then 1 else 0)) as ->.
  { destruct b; [by apply add_u64_Ok in Htc as [_ ->]|rewrite Z.add_0_r; congruence]. }
  cbn zeta. unfold selected. destruct (_ || _) eqn:Hsel; cbn [negb].
  - injection H as <- <- <-. rewrite app_nil_r. split_and!; [done..|]. f_equal. unfold totals_of.
    cbn [rt_total_raw rt_total_controls rt_selected_raw rt_selected_market rt_selected_controls].
    rewrite !data_frames_app, data_frames_one, Hd, !len_app, len_one. destruct b; cbn [negb]; rewrite ?len_one, ?len_none;
      f_equal; lia.
  - apply res_bind_Ok in H as (w1 & Hw & H). apply res_bind_Ok in H as (sr & [_ ->]%add_u64_Ok & H).
    apply res_bind_Ok in H as (gr & [_ ->]%add_u64_Ok & H).
    assert (gt_first_selected (generation_of (sel ++ [r]))
            = get_or_insert (gt_first_selected (generation_of sel)) (rf_frame_index (re_frame r))) as Hfirst
      by by destruct sel.
    unfold totals_of, generation_of in *. cbn [rt_total_raw rt_total_controls rt_selected_raw rt_selected_market
      rt_selected_controls gt_first_selected gt_last_selected gt_last_selected_sha gt_raw gt_market gt_controls] in *.
    destruct b.
    + apply res_bind_Ok in H as (c1 & ->%count_selected_control_Ok & [= <- <- <-]).
      split; [done|]. split; [by rewrite Hd|]. cbn [rt_total_raw rt_total_controls rt_selected_raw rt_selected_market
        rt_selected_controls gt_first_selected gt_last_selected gt_last_selected_sha gt_raw gt_market gt_controls].
      rewrite !data_frames_app, data_frames_one, Hd, !len_app, last_snoc, <-Hfirst. cbn [negb].
      rewrite !len_one, len_none. f_equal; [f_equal; lia|f_equal; (done || lia)].
    + injection H as <- <- <-. split; [done|]. split_and!; [done..|]. intros c' ->%count_market_Ok.
      cbn [rt_total_raw rt_total_controls rt_selected_raw rt_selected_market
        rt_selected_controls gt_first_selected gt_last_selected gt_last_selected_sha gt_raw gt_market gt_controls].
      rewrite !data_frames_app, data_frames_one, Hd, !len_app, last_snoc, <-Hfirst. cbn [negb].
      rewrite !len_one. f_equal; [f_equal; lia|f_equal; (done || lia)].
Qed.
(** A loop whose visitor selects a record and then, for a market record, takes a step. *)
Lemma visit_fold_inv (visit : replay_totals * generation_totals * W * A → RawRecordEnvelopeV1 → Z →
    res (replay_totals * generation_totals * W * A)) (step : A → RawFrame → res A) :
  (∀ c w a r i c' w' a', visit (c, w, a) r i = Ok (c', w', a') →
     ∃ c1 value, select_record sink label generation_index start end_ c w r i = Ok (c1, w', value) ∧
       match value with
       | None => c' = c1 ∧ a' = a
       | Some v => count_market c1 = Ok c' ∧
           (value_from_slice (rf_payload (re_frame r)) = inr v → step a (re_frame r) = Ok a')
       end) →
  ∀ rt w a trs s', try_fold (tagged_visit visit) (rt, no_generation_totals, w, a) trs = Ok s' →
    let sel := select start end_ trs in Forall readable trs.*2 ∧
    ∃ w' a', s' = (totals_of rt trs.*2 sel.*2, generation_of sel.*2, w', a') ∧
      try_fold sink_turn w sel = Ok w' ∧ try_fold step a (data_frames sel.*2) = Ok a'.
Proof.
  intros Hvisit rt w a trs s' H. cbn zeta.
  apply (try_fold_prefix (λ pre s, Forall readable pre.*2 ∧ ∃ w' a',
    s = (totals_of rt pre.*2 (select start end_ pre).*2, generation_of (select start end_ pre).*2, w', a') ∧
    try_fold sink_turn w (select start end_ pre) = Ok w' ∧
    try_fold step a (data_frames (select start end_ pre).*2) = Ok a') _ _ []) in H; [done| |].
  { split; [constructor|]. exists w, a. split_and!; try done. change (select start end_ []).*2 with (@nil RawRecordEnvelopeV1).
    change ([].*2) with (@nil RawRecordEnvelopeV1). by rewrite totals_of_nil. }
  clear H s'. intros pre [i r] s s' _ (Hread & w1 & a1 & -> & Hw & Ha) H. unfold tagged_visit in H. cbn [fst snd] in H.
  destruct s' as [[c' w'] a']. apply Hvisit in H as (c1 & value & Hs & Hv).
  apply select_record_counts in Hs as (Hr & Hsink & Hc). rewrite select_snoc, !fmap_app. cbn [fmap list_fmap snd].
  split; [apply Forall_app; split; [done|by constructor]|].
  destruct (selected start end_ r) eqn:Hsel; cbn [fmap list_fmap snd].
  - exists w', a'. assert (try_fold sink_turn w (select start end_ pre ++ [(i, r)]) = Ok w') as ->.
    { rewrite try_fold_app, Hw. cbn [mbind res_bind try_fold]. unfold sink_turn. cbn [fst snd]. by rewrite Hsink. }
    rewrite data_frames_app, data_frames_one, try_fold_app, Ha. cbn [mbind res_bind].
    destruct value as [v|].
    + destruct Hc as (_ & -> & Hp & Hm). destruct Hv as [->%Hm Hstep]. split_and!; [done..|].
      cbn [try_fold]. by rewrite Hstep.
    + destruct Hc as [Hd ->]. cbn [andb] in Hd. rewrite Hd. destruct Hv as [-> ->]. done.
  - subst w'. exists w1, a'. rewrite !app_nil_r in *. destruct value as [v|]; [by destruct Hc|].
    destruct Hc as [_ ->], Hv as [-> ->]. done.
Qed.
End selection_theory.


Lemma totals_of_app rt all sel all' sel' :
  totals_of (totals_of rt all sel) all' sel' = totals_of rt (all ++ all') (sel ++ sel').
Proof.
  unfold totals_of. cbn [rt_total_raw rt_total_controls rt_selected_raw rt_selected_market rt_selected_controls].
  rewrite !data_frames_app, !len_app. f_equal; lia.
Qed.

(** An interval of consecutive numbers. *)
Lemma filter_seqZ lo hi a n :
  List.filter (λ x, negb ((x <? lo) || (hi <? x))) (seqZ a n)
  = seqZ (Z.max a lo) (Z.min (a + n) (hi + 1) - Z.max a lo).
Proof.
  destruct (Z_le_gt_dec n 0) as [Hn|Hn]; [by rewrite !seqZ_nil by lia|].
  revert a. assert (0 ≤ n) as Hn0 by lia. clear Hn. pattern n. apply natlike_ind; [..|done].
  { intros a. by rewrite !seqZ_nil by lia. }
  clear n Hn0. intros n Hn IH a. rewrite seqZ_cons by lia. cbn [List.filter]. rewrite Z.pred_succ, IH.
  destruct ((a <? lo) || (hi <? a)) eqn:E; cbn [negb].
  - destruct (Z_le_gt_dec lo a); [|f_equal; lia]. rewrite !seqZ_nil by lia. done.
  - rewrite (seqZ_cons (Z.max a lo)) by lia. f_equal; [lia|]. f_equal; lia.
Qed.

Lemma select_contiguous start end_ trs :
  frame_indexes trs.*2 = seqZ 0 (len trs) →
  let sel := select start end_ trs in
  sel ≠ [] → rf_frame_index ∘ re_frame <$> head sel.*2 = Some start →
  frame_indexes sel.*2 = seqZ start (len sel).
Proof.
  intros Hi sel Hne Hhead.
  assert (frame_indexes sel.*2
    = List.filter (λ x, negb ((x <? start) || (default (len trs) end_ <? x))) (frame_indexes trs.*2)) as E.
  { subst sel. clear Hne Hhead. unfold select, selected, frame_indexes.
    assert (Forall (λ tr, rf_frame_index (re_frame tr.2) < len trs) trs) as Hlt.
    { apply Forall_forall. intros tr Htr. assert (rf_frame_index (re_frame tr.2) ∈ frame_indexes trs.*2) as Hin.
      { unfold frame_indexes. apply list_elem_of_fmap. exists tr.2. split; [done|]. apply list_elem_of_fmap. by exists tr. }
      rewrite Hi in Hin. apply elem_of_seqZ in Hin. lia. }
    clear Hi. set (n := len trs) in *. clearbody n. induction trs as [|tr trs IH]; [done|].
    apply Forall_cons in Hlt as [H1 H2]. rewrite !fmap_cons. cbn [List.filter].
    assert (match end_ with Some last => last <? rf_frame_index (re_frame tr.2) | None => false end
            = (default n end_ <? rf_frame_index (re_frame tr.2))) as ->.
    { destruct end_; [done|]. cbn. lia. }
    destruct (negb _); rewrite ?fmap_cons, <-IH by done; done. }
  rewrite Hi, filter_seqZ in E. rewrite E.
  assert (len sel = len (frame_indexes sel.*2)) as Hl by (unfold len, frame_indexes; by rewrite !length_fmap).
  rewrite Hl, E. destruct sel as [|x sel]; [done|]. cbn [fmap list_fmap head option_fmap option_map] in Hhead.
  injection Hhead as Hx. unfold frame_indexes in E. rewrite !fmap_cons in E. unfold compose in Hx.
  set (m := Z.min _ _ - _) in *. destruct (Z_le_gt_dec m 0); [by rewrite seqZ_nil in E by lia|].
  unfold len. rewrite length_seqZ, Z2Nat.id by lia. rewrite seqZ_cons in E by lia. injection E as E _. f_equal. lia.
Qed.

(** *** Depth *)

Definition depth_select_step (da : depth_acc) (f : RawFrame) : res depth_acc :=
  da' ← Replay.depth_step da f; Ok (mkDepthAcc (da_book da') (da_applied da') (da_old da') (da_first_applied da)).
Definition same_depth (a b : depth_acc) : Prop :=
  da_book a = da_book b ∧ da_applied a = da_applied b ∧ da_old a = da_old b.

Lemma depth_select_fold frames a b a' :
  same_depth a b → try_fold depth_select_step a frames = Ok a' →
  ∃ b', try_fold Replay.depth_step b frames = Ok b' ∧ same_depth a' b'.
Proof.
  revert a b. induction frames as [|f frames IH]; intros a b Hs H; [by injection H as <-; exists b|].
  cbn [try_fold] in H. set (F := try_fold depth_select_step) in *. unfold depth_select_step, Replay.depth_step in H.
  destruct Hs as (E1 & E2 & E3). rewrite E1, E2, E3 in H.
  cbn [try_fold]. set (G := try_fold Replay.depth_step) in *. unfold Replay.depth_step.
  destruct (apply_depth (rf_payload f) (da_book b)) as [bk [o| |]]; [|done..]. cbn [mbind res_bind] in *.
  destruct o; eapply IH; try exact H; done.
Qed.

Lemma depth_visit_inv {W} (sink : W → Z → Z → RawRecordEnvelopeV1 → res W) generation_index start end_ c w a r i c' w' a' :
  depth_visit sink generation_index start end_ (c, w, a) r i = Ok (c', w', a') →
  ∃ c1 value, select_record sink "depth" generation_index start end_ c w r i = Ok (c1, w', value) ∧
    match value with
    | None => c' = c1 ∧ a' = a
    | Some v => count_market c1 = Ok c' ∧
        (value_from_slice (rf_payload (re_frame r)) = inr v → depth_select_step a (re_frame r) = Ok a')
    end.
Proof.
  unfold depth_visit. intros ([[c1 w1] [v|]] & Hs & H)%res_bind_Ok.
  - apply res_bind_Ok in H as (c2 & Hc & H).
    destruct (apply_depth_value v (da_book a)) as [bk ro] eqn:Eb. apply res_bind_Ok in H as (o & -> & H).
    exists c1, (Some v).
    assert (c' = c2 ∧ w' = w1 ∧ a' = match o with
       | Old => mkDepthAcc bk (da_applied a) (da_old a + 1) (da_first_applied a)
       | Applied => mkDepthAcc bk (da_applied a + 1) (da_old a) (da_first_applied a) end) as (-> & -> & ->).
    { destruct o; by apply res_bind_Ok in H as (n & [_ ->]%add_u64_Ok & [= <- <- <-]). }
    split_and!; [done..|]. intros Hv. unfold depth_select_step, Replay.depth_step.
    assert (apply_depth (rf_payload (re_frame r)) (da_book a) = (bk, Ok o)) as ->
      by (rewrite <-Eb; unfold apply_depth; by rewrite Hv).
    by destruct o.
  - injection H as <- <- <-. by exists c1, None.
Qed.


(** *** The chain of generations *)

Section chain.
Context {W A K : Type} (sink : W → Z → Z → RawRecordEnvelopeV1 → res W).
Context (t : tree) (kind : string) (start_of : nat → Z) (end_of : nat → option Z) (step : A → RawFrame → res A).

(** What is selected of each generation, and the calls of the sink for it. *)
Definition chosen (trss : list (list (Z * RawRecordEnvelopeV1))) : list (list (Z * RawRecordEnvelopeV1)) :=
  imap (λ position trs, select (start_of position) (end_of position) trs) trss.
Definition sink_calls (generations : list GenerationSource) (sels : list (list (Z * RawRecordEnvelopeV1)))
    : list (Z * (Z * RawRecordEnvelopeV1)) :=
  concat (zip_with (λ g sel, (λ tr, (gs_index g, tr)) <$> sel) generations sels).
Definition sink_call (w : W) (call : Z * (Z * RawRecordEnvelopeV1)) : res W := sink_turn sink call.1 w call.2.

Lemma chosen_snoc trss trs :
  chosen (trss ++ [trs]) = chosen trss ++ [select (start_of (length trss)) (end_of (length trss)) trs].
Proof. unfold chosen. rewrite imap_app. cbn. by rewrite Nat.add_0_r. Qed.
Lemma length_chosen trss : length (chosen trss) = length trss.
Proof. apply length_imap. Qed.
Lemma sink_calls_snoc gs sels g sel :
  length gs = length sels → sink_calls (gs ++ [g]) (sels ++ [sel]) = sink_calls gs sels ++ ((λ tr, (gs_index g, tr)) <$> sel).
Proof. intros Hl. unfold sink_calls. rewrite zip_with_app by done. rewrite concat_app. cbn. by rewrite app_nil_r. Qed.
Lemma sink_calls_one g w sel :
  try_fold sink_call w ((λ tr, (g, tr)) <$> sel) = try_fold (sink_turn sink g) w sel.
Proof.
  revert w. induction sel as [|tr sel IH]; intros w; [done|]. rewrite fmap_cons. cbn [try_fold].
  change (sink_call w (g, tr)) with (sink_turn sink g w tr). destruct (sink_turn sink g w tr); [apply IH|done..].
Qed.

(** A run over generations: the records of every stream, the counters, the calls of the
    sink, the steps; and for every generation what [Q] says of the selection, of the state
    behind it and of its checkpoint. *)
Definition chain_run (Q : nat → GenerationSource → list (Z * RawRecordEnvelopeV1) → A → K → Prop)
    (generations : list GenerationSource) (w : W) (a : A) (rt : replay_totals) (w' : W) (a' : A) (checkpoints : list K)
    (trss : list (list (Z * RawRecordEnvelopeV1))) : Prop :=
  let sels := chosen trss in
  Forall2 (λ g trs, stream_read t g kind trs) generations trss ∧
  Forall readable (concat trss).*2 ∧ rt = totals_of no_totals (concat trss).*2 (concat sels).*2 ∧
  try_fold sink_call w (sink_calls generations sels) = Ok w' ∧
  try_fold step a (data_frames (concat sels).*2) = Ok a' ∧ length checkpoints = length generations ∧
  ∀ position g, generations !! position = Some g →
    ∃ sel a1 k, sels !! position = Some sel ∧ checkpoints !! position = Some k ∧
      try_fold step a (data_frames (concat (take (S position) sels)).*2) = Ok a1 ∧ Q position g sel a1 k.

Lemma chain_fold (Q : nat → GenerationSource → list (Z * RawRecordEnvelopeV1) → A → K → Prop)
    (turn : replay_totals * W * A * list K → nat * GenerationSource → res (replay_totals * W * A * list K)) :
  (∀ rt w a ks position g rt' w' a' ks',
     turn (rt, w, a, ks) (position, g) = Ok (rt', w', a', ks') →
     ∃ trs k, let sel := select (start_of position) (end_of position) trs in
       stream_read t g kind trs ∧ Forall readable trs.*2 ∧ rt' = totals_of rt trs.*2 sel.*2 ∧
       try_fold (sink_turn sink (gs_index g)) w sel = Ok w' ∧ try_fold step a (data_frames sel.*2) = Ok a' ∧
       ks' = ks ++ [k] ∧ Q position g sel a' k) →
  ∀ generations w a rt' w' a' ks',
    try_fold turn (no_totals, w, a, []) (imap pair generations) = Ok (rt', w', a', ks') →
    ∃ trss, chain_run Q generations w a rt' w' a' ks' trss.
Proof.
  intros Hturn gs. induction gs as [|g gs IH] using rev_ind; intros w a rt' w' a' ks' H.
  { injection H as <- <- <- <-. exists []. unfold chain_run. split_and!; try done. }
  rewrite imap_app, try_fold_app in H. apply res_bind_Ok in H as ([[[rt1 w1] a1] ks1] & H1 & H).
  cbn [imap try_fold] in H. rewrite Nat.add_0_r in H. apply res_bind_Ok in H as (s & H & [= ->]).
  apply Hturn in H as (trs & k & Hread & Hpay & -> & Hw & Ha & -> & HQ).
  destruct (IH _ _ _ _ _ _ H1) as (trss & HF & Hpay1 & -> & Hw1 & Ha1 & Hlen & Hpos).
  pose proof (Forall2_length _ _ _ HF) as Hl. exists (trss ++ [trs]). unfold chain_run. cbn zeta.
  rewrite chosen_snoc, <-Hl. set (sel := select _ _ trs) in *.
  rewrite !concat_app. cbn [concat]. rewrite !app_nil_r, !fmap_app, data_frames_app, !length_app.
  split_and!.
  - apply Forall2_app; [done|]. by constructor.
  - by apply Forall_app.
  - by rewrite totals_of_app.
  - rewrite sink_calls_snoc by (by rewrite length_chosen). rewrite try_fold_app, Hw1. cbn [mbind res_bind].
    by rewrite sink_calls_one.
  - rewrite try_fold_app, Ha1. done.
  - cbn. lia.
  - intros position g' Hg'. apply lookup_snoc_Some in Hg' as [[Hlt Hg']|[-> ->]].
    + destruct (Hpos _ _ Hg') as (sel1 & a2 & k1 & Hs & Hk & Hf & HQ1). exists sel1, a2, k1.
      rewrite !lookup_app_l by (rewrite ?length_chosen; lia). rewrite take_app_le by (rewrite length_chosen; lia). done.
    + exists sel, a', k. rewrite !lookup_app_r by (rewrite ?length_chosen; lia).
      rewrite length_chosen, Hlen, <-Hl, Nat.sub_diag. split_and!; [done..| |done].
      rewrite take_ge by (rewrite length_app, length_chosen; cbn; lia).
      rewrite concat_app. cbn [concat]. rewrite app_nil_r, fmap_app, data_frames_app, try_fold_app, Ha1. done.
Qed.
End chain.


(** *** The depth replay *)

Definition depth_start (proofs : list RawGenerationHandoverProofV1) (position : nat) : Z :=
  match position with
  | O => 0
  | S before => default 0 ((λ proof, ps_frame_index (de_successor_continuation (hp_depth proof))) <$> proofs !! before)
  end.
Definition depth_end (proofs : list RawGenerationHandoverProofV1) (position : nat) : option Z :=
  (λ proof, ps_frame_index (de_predecessor_boundary (hp_depth proof))) <$> proofs !! position.

(** What the replay checks of one generation and writes into its checkpoint. *)
Definition depth_generation_ok (proofs : list RawGenerationHandoverProofV1) (position : nat) (g : GenerationSource)
    (sel : list (Z * RawRecordEnvelopeV1)) (da : depth_acc) (k : DepthGenerationReplayV1) : Prop :=
  ∃ r, rf_frame_index ∘ re_frame <$> head sel.*2 = Some (depth_start proofs position) ∧ last sel.*2 = Some r ∧
    (∀ proof, proofs !! position = Some proof →
       rf_frame_index (re_frame r) = ps_frame_index (de_predecessor_boundary (hp_depth proof)) ∧
       re_record_sha256 r = ps_record_sha256 (de_predecessor_boundary (hp_depth proof)) ∧
       bk_last_update_id (da_book da) = Some (de_boundary_sequence (hp_depth proof))) ∧
    bk_last_update_id (da_book da) = Some (dg_final_update_id k) ∧
    k = mkDepthGeneration (gs_index g) (gs_session_id g) (depth_start proofs position) (rf_frame_index (re_frame r))
          (len sel) (len (data_frames sel.*2)) (len sel - len (data_frames sel.*2)) (dg_final_update_id k)
          (state_digest (da_book da)).

Lemma depth_turn_inv {W} (sink : W → Z → Z → RawRecordEnvelopeV1 → res W) t proofs mode
    rt w da ks position g rt' w' da' ks' :
  map_Forall (λ _ f, len f ≤ u64_max) (t_files t) →
  depth_generation_turn sink t proofs mode (rt, w, da, ks) (position, g) = Ok (rt', w', da', ks') →
  ∃ trs k, let sel := select (depth_start proofs position) (depth_end proofs position) trs in
    stream_read t g "depth" trs ∧ Forall readable trs.*2 ∧ rt' = totals_of rt trs.*2 sel.*2 ∧
    try_fold (sink_turn sink (gs_index g)) w sel = Ok w' ∧
    try_fold depth_select_step da (data_frames sel.*2) = Ok da' ∧
    ks' = ks ++ [k] ∧ depth_generation_ok proofs position g sel da' k.
Proof.
  intros Hfs H. unfold depth_generation_turn in H. apply res_bind_Ok in H as (start & Hstart & H).
  assert (start = depth_start proofs position) as ->.
  { unfold depth_start. destruct position as [|p]; [by injection Hstart|].
    destruct (proofs !! p) as [proof|]; [|done]. by injection Hstart. }
  clear Hstart. fold (depth_end proofs position) in H.
  apply res_bind_Ok in H as ([[[rt1 gt1] w1] da1] & Hstream & H).
  apply stream_records_inv in Hstream as (trs & Hread & Hfold); [|done].
  destruct (visit_fold_inv sink "depth" (gs_index g) _ _ _ depth_select_step
    (λ c w a r i c' w' a' Hv, depth_visit_inv sink _ _ _ c w a r i c' w' a' Hv) _ _ _ _ _ Hfold)
    as (Hpay & w2 & da2 & [= -> -> -> ->] & Hsink & Hsteps).
  set (sel := select _ _ trs) in *. cbn [gt_first_selected gt_last_selected gt_last_selected_sha gt_raw gt_market
    gt_controls generation_of] in H.
  apply res_bind_Ok in H as (first & Hfirst%ok_or_Ok & H). apply res_bind_Ok in H as (lst & Hlast%ok_or_Ok & H).
  apply res_bind_Ok in H as ([] & Hg%reject_Ok & H). split_orb. apply res_bind_Ok in H as ([] & _ & H).
  apply res_bind_Ok in H as ([] & Hb & H). apply res_bind_Ok in H as (fin & Hfin%ok_or_Ok & [= <- <- <- <-]).
  apply fmap_Some in Hlast as (r & Hr & ->).
  assert (first = depth_start proofs position) as -> by lia.
  eexists trs, _. split_and!; [done..|]. exists r. split_and!; [done|done| |done|]; cbn [dg_final_update_id].
  - intros proof Hpf. unfold depth_end in *. rewrite Hpf in *. cbn [fmap option_fmap option_map] in *.
    apply reject_Ok in Hb. rewrite Hr in Hb. cbn [fmap option_fmap option_map] in Hb. split_orb.
    unfold compose in *. split_and!; [lia| |].
    + match goal with H : bool_decide (Some (re_record_sha256 r) = _) = _ |- _ => apply bool_decide_eq_true in H; by injection H end.
    + match goal with H : bool_decide (bk_last_update_id _ = _) = _ |- _ => by apply bool_decide_eq_true in H end.
  - f_equal; unfold len; by rewrite length_fmap.
Qed.


(** The selection of every generation is one run of consecutive frames, from the
    continuation the proof before it names to the record the proof behind it names. *)
Definition depth_selection_spliced (proofs : list RawGenerationHandoverProofV1)
    (sels : list (list (Z * RawRecordEnvelopeV1))) : Prop :=
  ∀ position sel, sels !! position = Some sel →
    frame_indexes sel.*2 = seqZ (depth_start proofs position) (len sel) ∧
    ∃ r, last sel.*2 = Some r ∧ ∀ proof, proofs !! position = Some proof →
      rf_frame_index (re_frame r) = ps_frame_index (de_predecessor_boundary (hp_depth proof)) ∧
      re_record_sha256 r = ps_record_sha256 (de_predecessor_boundary (hp_depth proof)).

Definition depth_counts (d : CompleteDepthReplayV1) (all sel : list RawRecordEnvelopeV1) : Prop :=
  cd_total_raw_records d = len all ∧ cd_selected_raw_records d = len sel ∧
  cd_selected_market_records d = len (data_frames sel) ∧
  cd_selected_raw_records d = cd_selected_market_records d + cd_selected_control_records d ∧
  cd_overlap_records_excluded d = len all - len sel ∧
  cd_selected_market_records d = cd_applied_records d + cd_old_records d.

(** The book behind the selected market frames, from the snapshot in [b0] at [last]. *)
Definition depth_book_exact (proofs : list RawGenerationHandoverProofV1) (d : CompleteDepthReplayV1)
    (b0 : LocalOrderBook) (last : Z) (sels : list (list (Z * RawRecordEnvelopeV1))) : Prop :=
  let start := mkSpec last (side_map (bk_bids b0)) (side_map (bk_asks b0)) in
  ∃ ids st book,
    Forall2 (λ f i, update_ids f = Some i) (data_frames (concat sels).*2) ids ∧
    follow last ids = Some (cd_final_update_id d, cd_applied_records d, cd_old_records d) ∧
    (∀ n, last < n ≤ cd_final_update_id d → ∃ i, i ∈ ids ∧ i.1 ≤ n ≤ i.2) ∧
    spec_replay start (data_frames (concat sels).*2) = Some st ∧ represents book st ∧
    cd_state_sha256 d = state_digest book ∧
    ∀ position proof, proofs !! position = Some proof → (position < length sels)%nat →
      ∃ st1, spec_replay start (data_frames (concat (take (S position) sels)).*2) = Some st1 ∧
        sp_last st1 = de_boundary_sequence (hp_depth proof).

Lemma depth_replay_inv {W} (sink : W → Z → Z → RawRecordEnvelopeV1 → res W) t generations proofs mode w d w' :
  complete_replay_depth sink t generations proofs mode w = Ok (d, w') →
  ∃ first file snapshot b b0 last rt da,
    head generations = Some first ∧ t_files t !! path_join (gs_root first) "snapshot.bnraw" = Some file ∧
    read_raw_records file = Ok [snapshot] ∧
    book_new (default "" (as_str (value_index (gs_startup first) "symbol"))) = Ok b ∧
    load_snapshot (rf_payload (re_frame snapshot)) b = (b0, Ok last) ∧
    try_fold (depth_generation_turn sink t proofs mode) (no_totals, w, mkDepthAcc b0 0 0 None, []) (imap pair generations)
    = Ok (rt, w', da, cd_generations d) ∧
    rt_selected_raw rt ≤ rt_total_raw rt ∧
    bk_last_update_id (da_book da) = Some (cd_final_update_id d) ∧
    d = mkCompleteDepth (rt_total_raw rt) (rt_total_controls rt) (rt_selected_raw rt) (rt_selected_market rt)
          (rt_selected_controls rt) (rt_total_raw rt - rt_selected_raw rt) (da_old da) (da_applied da)
          (cd_final_update_id d) (Z.of_nat (level_counts (da_book da)).1) (Z.of_nat (level_counts (da_book da)).2)
          (state_digest (da_book da)) (cd_generations d).
Proof.
  unfold complete_replay_depth. intros (first & Hf & H)%res_bind_Ok.
  apply res_bind_Ok in H as (file & Hfile%ok_or_Ok & H). apply res_bind_Ok in H as (snaps & Hsnaps & H).
  apply res_bind_Ok in H as ([] & Hone%reject_Ok & H). apply res_bind_Ok in H as (b & Hb & H).
  apply res_bind_Ok in H as (snapshot & Hsn & H). destruct snaps as [|s [|]]; [done| |done]. injection Hsn as ->.
  destruct (load_snapshot _ b) as [b0 r] eqn:Hl. apply res_bind_Ok in H as (last & -> & H).
  apply res_bind_Ok in H as ([[[rt w1] da] ks] & Hfold & H). destruct (level_counts (da_book da)) as [nb na] eqn:Hlv.
  apply res_bind_Ok in H as (ex & Hex%ok_or_Ok & H). apply checked_sub_Some in Hex as [Hle ->].
  apply res_bind_Ok in H as (fin & Hfin%ok_or_Ok & [= <- <-]).
  destruct (head generations) as [g|]; [|done]. injection Hf as ->.
  exists first, file, snapshot, b, b0, last, rt, da. rewrite Hlv. split_and!; done.
Qed.

(** The replay of selected frames, against the reference. *)
Lemma depth_select_run frames b0 st a :
  book_ok b0 → represents b0 st → try_fold depth_select_step (mkDepthAcc b0 0 0 None) frames = Ok a →
  ∃ ids st', Forall2 (λ f i, update_ids f = Some i) frames ids ∧ spec_replay st frames = Some st' ∧
    follow (sp_last st) ids = Some (sp_last st', da_applied a, da_old a) ∧ represents (da_book a) st' ∧
    da_applied a + da_old a = len frames.
Proof.
  intros Hok Hr Ha. apply (depth_select_fold _ _ (mkDepthAcc b0 0 0 None)) in Ha as (a' & Ha & (E1 & E2 & E3)); [|done].
  destruct (depth_loop_inv _ (mkDepthAcc b0 0 0 None) _ _ Hok Hr Ha) as (ids & st' & x & y & HF & Hsp & Hfol & _ & Hrep' & _ & Hx & Hy & _ & _ & Hs).
  cbn [da_applied da_old] in Hx, Hy. exists ids, st'. rewrite E1, E2, E3, Hx, Hy. split_and!; (done || lia).
Qed.

(** C15: the replay of a complete campaign selects every depth record once and skips no
    update. Whatever way the segments are read, a successful replay has read the depth
    stream of every generation whole; the selection of each generation is a run of
    consecutive frames from the continuation the proof before it names to the boundary
    record the proof behind it names; the sink received exactly the selected records in
    order; the counters are exact. The market records of all selections together continue
    the first snapshot without a missing update ID, the reported book is the one of the
    reference replay, and behind every handover it stands at the proven sequence. *)
Theorem complete_depth_exact {W} (sink : W → Z → Z → RawRecordEnvelopeV1 → res W) t generations proofs mode w d w' :
  map_Forall (λ _ f, len f ≤ u64_max) (t_files t) →
  complete_replay_depth sink t generations proofs mode w = Ok (d, w') →
  ∃ trss first file snapshot b b0 last,
    let sels := chosen (depth_start proofs) (depth_end proofs) trss in
    Forall2 (λ g trs, stream_read t g "depth" trs) generations trss ∧
    head generations = Some first ∧ t_files t !! path_join (gs_root first) "snapshot.bnraw" = Some file ∧
    read_raw_records file = Ok [snapshot] ∧
    book_new (default "" (as_str (value_index (gs_startup first) "symbol"))) = Ok b ∧
    load_snapshot (rf_payload (re_frame snapshot)) b = (b0, Ok last) ∧
    depth_selection_spliced proofs sels ∧
    try_fold (sink_call sink) w (sink_calls generations sels) = Ok w' ∧
    depth_counts d (concat trss).*2 (concat sels).*2 ∧ depth_book_exact proofs d b0 last sels.
Proof.
  intros Hfs H. apply depth_replay_inv in H
    as (first & file & snapshot & b & b0 & last & rt & da & Hhead & Hfile & Hsnap & Hb & Hl & Hfold & Hle & Hfin & Ed).
  apply (chain_fold sink t "depth" (depth_start proofs) (depth_end proofs) depth_select_step
    (depth_generation_ok proofs)) in Hfold as (trss & HF & _ & -> & Hsink & Hsteps & Hlen & Hpos);
    [|intros; by eapply depth_turn_inv].
  exists trss, first, file, snapshot, b, b0, last. cbn zeta. set (sels := chosen _ _ trss) in *.
  destruct (load_snapshot_start _ _ _ _ _ Hb Hl) as (Hok & _ & Hrep0).
  destruct (depth_select_run _ _ _ _ Hok Hrep0 Hsteps) as (ids & st & HFi & Hsp & Hfol & Hrep' & Hsum).
  split_and!; try done.
  - intros position sel Hsel. assert (is_Some (generations !! position)) as [g Hg].
    { apply lookup_lt_is_Some. apply lookup_lt_Some in Hsel. subst sels. rewrite length_chosen in Hsel.
      by rewrite (Forall2_length _ _ _ HF). }
    destruct (Hpos _ _ Hg) as (sel' & a1 & k & Hs & _ & _ & (r & Hh & Hr & Hpf & _)).
    rewrite Hsel in Hs. injection Hs as <-. split; [|exists r; split; [done|]; intros proof Hp; destruct (Hpf _ Hp) as (? & ? & _); done].
    unfold sels, chosen in Hsel. rewrite list_lookup_imap in Hsel. apply fmap_Some in Hsel as (trs & Htrs & ->).
    destruct (Forall2_lookup_r _ _ _ _ _ HF Htrs) as (g' & Hg' & Hread).
    apply select_contiguous; [by eapply stream_read_indexes|by intros E; rewrite E in Hr|done].
  - rewrite Ed. unfold depth_counts, totals_of.
    cbn [cd_total_raw_records cd_selected_raw_records cd_selected_market_records cd_selected_control_records
      cd_overlap_records_excluded cd_applied_records cd_old_records rt_total_raw rt_selected_raw rt_selected_market
      rt_selected_controls no_totals]. lia.
  - cbn [sp_last] in Hfol. pose proof Hrep' as (Hlast & _). rewrite Hfin in Hlast. injection Hlast as Elast.
    assert (cd_applied_records d = da_applied da ∧ cd_old_records d = da_old da) as [E1 E2] by (by rewrite Ed).
    exists ids, st, (da_book da). rewrite E1, E2, Elast. split_and!; try done.
    + by apply (follow_covers _ _ _ _ _ Hfol).
    + by rewrite Ed.
    + intros position proof Hp Hlt. assert (is_Some (generations !! position)) as [g Hg].
      { apply lookup_lt_is_Some. subst sels. rewrite length_chosen in Hlt. by rewrite (Forall2_length _ _ _ HF). }
      destruct (Hpos _ _ Hg) as (sel & a1 & k & _ & _ & Ha1 & (r & _ & _ & Hpf & _)).
      destruct (Hpf _ Hp) as (_ & _ & Hid). destruct (depth_select_run _ _ _ _ Hok Hrep0 Ha1) as (ids1 & st1 & _ & Hsp1 & _ & (Hl1 & _) & _).
      exists st1. split; [done|]. rewrite Hid in Hl1. by injection Hl1.
Qed.


(** *** The trade replay *)

Definition trade_start (proofs : list RawGenerationHandoverProofV1) (position : nat) : Z :=
  match position with
  | O => 0
  | S before => default 0 ((λ proof, ps_frame_index (td_successor_next_shared (hp_trade proof)) + 1) <$> proofs !! before)
  end.
Definition trade_end (proofs : list RawGenerationHandoverProofV1) (position : nat) : option Z :=
  (λ proof, ps_frame_index (td_predecessor_next_shared (hp_trade proof))) <$> proofs !! position.

(** The validated ID of a frame's trade. *)
Definition selected_trade_id (f : RawFrame) : res Z :=
  value ← map_err "" (value_from_slice (rf_payload f)); validated_trade_id value (rf_symbol f).

Lemma trade_visit_inv {W} (sink : W → Z → Z → RawRecordEnvelopeV1 → res W) generation_index start end_ c w a r i c' w' a' :
  trade_visit sink generation_index start end_ (c, w, a) r i = Ok (c', w', a') →
  ∃ c1 value, select_record sink "trade" generation_index start end_ c w r i = Ok (c1, w', value) ∧
    match value with
    | None => c' = c1 ∧ a' = a
    | Some v => count_market c1 = Ok c' ∧
        (value_from_slice (rf_payload (re_frame r)) = inr v → id_step selected_trade_id a (re_frame r) = Ok a')
    end.
Proof.
  unfold trade_visit. intros ([[c1 w1] [v|]] & Hs & H)%res_bind_Ok.
  - apply res_bind_Ok in H as (id & Hid & H). apply res_bind_Ok in H as ([] & Hg%reject_Ok & H).
    apply res_bind_Ok in H as (c2 & Hc & [= <- <- <-]). exists c1, (Some v). split_and!; [done..|].
    intros Hv. unfold id_step, selected_trade_id. rewrite Hv. cbn [map_err mbind res_bind]. rewrite Hid.
    cbn [mbind res_bind]. by rewrite Hg.
  - injection H as <- <- <-. by exists c1, None.
Qed.

Definition trade_generation_ok (proofs : list RawGenerationHandoverProofV1) (position : nat) (g : GenerationSource)
    (sel : list (Z * RawRecordEnvelopeV1)) (ids : option Z * option Z) (k : TradeGenerationReplayV1) : Prop :=
  valid_selected_trade_range (trade_start proofs position) (trade_end proofs position)
    (rf_frame_index ∘ re_frame <$> head sel.*2) (rf_frame_index ∘ re_frame <$> last sel.*2) = true ∧
  (∀ proof, proofs !! position = Some proof →
     (∀ r, last sel.*2 = Some r → re_record_sha256 r = ps_record_sha256 (td_predecessor_next_shared (hp_trade proof))) ∧
     ids.2 = Some (td_next_shared_trade_id (hp_trade proof))) ∧
  ids.2 = Some (tg_last_trade_id k) ∧
  k = mkTradeGeneration (gs_index g) (gs_session_id g) (rf_frame_index ∘ re_frame <$> head sel.*2)
        (rf_frame_index ∘ re_frame <$> last sel.*2) (len sel) (len (data_frames sel.*2))
        (len sel - len (data_frames sel.*2)) (tg_last_trade_id k).

Lemma trade_turn_inv {W} (sink : W → Z → Z → RawRecordEnvelopeV1 → res W) t proofs mode
    rt w ids ks position g rt' w' ids' ks' :
  map_Forall (λ _ f, len f ≤ u64_max) (t_files t) →
  trade_generation_turn sink t proofs mode (rt, w, ids, ks) (position, g) = Ok (rt', w', ids', ks') →
  ∃ trs k, let sel := select (trade_start proofs position) (trade_end proofs position) trs in
    stream_read t g "trade" trs ∧ Forall readable trs.*2 ∧ rt' = totals_of rt trs.*2 sel.*2 ∧
    try_fold (sink_turn sink (gs_index g)) w sel = Ok w' ∧
    try_fold (id_step selected_trade_id) ids (data_frames sel.*2) = Ok ids' ∧
    ks' = ks ++ [k] ∧ trade_generation_ok proofs position g sel ids' k.
Proof.
  intros Hfs H. unfold trade_generation_turn in H. apply res_bind_Ok in H as (start & Hstart & H).
  assert (start = trade_start proofs position) as ->.
  { unfold trade_start. destruct position as [|p]; [by injection Hstart|].
    destruct (proofs !! p) as [proof|]; [|done]. cbn [expect mbind res_bind] in Hstart.
    apply ok_or_Ok, checked_add_Some in Hstart as [_ ->]. done. }
  clear Hstart. fold (trade_end proofs position) in H.
  apply res_bind_Ok in H as ([[[rt1 gt1] w1] ids1] & Hstream & H).
  apply stream_records_inv in Hstream as (trs & Hread & Hfold); [|done].
  destruct (visit_fold_inv sink "trade" (gs_index g) _ _ _ (id_step selected_trade_id)
    (λ c w a r i c' w' a' Hv, trade_visit_inv sink _ _ _ c w a r i c' w' a' Hv) _ _ _ _ _ Hfold)
    as (Hpay & w2 & ids2 & [= -> -> -> ->] & Hsink & Hsteps).
  set (sel := select _ _ trs) in *. cbn [gt_first_selected gt_last_selected gt_last_selected_sha gt_raw gt_market
    gt_controls generation_of] in H.
  apply res_bind_Ok in H as ([] & Hg%reject_Ok & H). apply negb_false_iff in Hg.
  apply res_bind_Ok in H as ([] & Hb & H). apply res_bind_Ok in H as (fin & Hfin%ok_or_Ok & [= <- <- <- <-]).
  eexists trs, _. split_and!; [done..|]. split_and!; [done| |done|].
  2:{ cbn [tg_last_trade_id]. f_equal; unfold len; by rewrite length_fmap. }
  intros proof Hpf. rewrite Hpf in Hb. apply reject_Ok in Hb. split_orb. split.
  - intros r Hr. fold sel in Hr.
    match goal with H : orb _ _ = true |- _ =>
      apply orb_true_iff in H as [H|H]; apply bool_decide_eq_true in H; rewrite Hr in H; [done|by injection H] end.
  - match goal with H : bool_decide (ids2.2 = _) = _ |- _ => by apply bool_decide_eq_true in H end.
Qed.

(** As for depth; a generation may have nothing new, when the shared trade is its last. *)
Definition trade_selection_spliced (proofs : list RawGenerationHandoverProofV1)
    (sels : list (list (Z * RawRecordEnvelopeV1))) : Prop :=
  ∀ position sel, sels !! position = Some sel →
    frame_indexes sel.*2 = seqZ (trade_start proofs position) (len sel) ∧
    ∀ proof, proofs !! position = Some proof →
      match last sel.*2 with
      | Some r => rf_frame_index (re_frame r) = ps_frame_index (td_predecessor_next_shared (hp_trade proof)) ∧
                  re_record_sha256 r = ps_record_sha256 (td_predecessor_next_shared (hp_trade proof))
      | None => ps_frame_index (td_predecessor_next_shared (hp_trade proof)) < trade_start proofs position
      end.
Definition trade_counts (c : CompleteTradeReplayV1) (all sel : list RawRecordEnvelopeV1) : Prop :=
  ct_total_raw_records c = len all ∧ ct_selected_raw_records c = len sel ∧
  ct_selected_market_records c = len (data_frames sel) ∧
  ct_selected_raw_records c = ct_selected_market_records c + ct_selected_control_records c ∧
  ct_overlap_records_excluded c = len all - len sel.
(** The IDs of the selected trades. *)
Definition trade_ids_exact (proofs : list RawGenerationHandoverProofV1) (c : CompleteTradeReplayV1)
    (sels : list (list (Z * RawRecordEnvelopeV1))) : Prop :=
  ∃ ids, Forall2 (λ f i, selected_trade_id f = Ok i) (data_frames (concat sels).*2) ids ∧
    StronglySorted Z.lt ids ∧ head ids = Some (ct_first_trade_id c) ∧ last ids = Some (ct_last_trade_id c) ∧
    ∀ position proof, proofs !! position = Some proof → (position < length sels)%nat →
      last (take (length (data_frames (concat (take (S position) sels)).*2)) ids)
      = Some (td_next_shared_trade_id (hp_trade proof)).

(** The selected range of a generation, empty or not, is a run of consecutive frames. *)
Lemma trade_range_contiguous start end_ trs :
  frame_indexes trs.*2 = seqZ 0 (len trs) → let sel := select start end_ trs in
  valid_selected_trade_range start end_ (rf_frame_index ∘ re_frame <$> head sel.*2)
    (rf_frame_index ∘ re_frame <$> last sel.*2) = true →
  frame_indexes sel.*2 = seqZ start (len sel) ∧
  ∀ e, end_ = Some e → match last sel.*2 with Some r => rf_frame_index (re_frame r) = e | None => e < start end.
Proof.
  intros Hi sel H. unfold valid_selected_trade_range in H.
  destruct (_ || _) eqn:Hg in H; [done|]. apply orb_false_iff in Hg as [_ Hg]. split.
  - destruct sel as [|x l] eqn:E; [done|]. rewrite <-E in *. apply select_contiguous; [done| |].
    + fold sel. by rewrite E.
    + fold sel. rewrite E in Hg |- *. cbn [fmap list_fmap head option_fmap option_map] in Hg |- *.
      apply negb_false_iff, Z.eqb_eq in Hg. by rewrite Hg.
  - intros e ->. destruct (last sel.*2); cbn [fmap option_fmap option_map] in H; unfold compose in H; lia.
Qed.

Lemma last_take_prefix {B} (l k : list B) x : last l = Some x → last (take (length l) (l ++ k)) = Some x.
Proof. by rewrite take_app_length. Qed.

(** C17: the replay of a complete campaign takes every trade once. Whatever way the segments
    are read, the trade stream of every generation was read whole; each selection is a run
    of consecutive frames behind the trade shared with the predecessor, up to the one shared
    with the successor; the sink received exactly the selected records in order; the counters
    are exact. The IDs of all selected trades increase strictly over the whole campaign, from
    the first to the last reported, and at every handover the last one is the shared trade
    of the proof. *)
Theorem complete_trades_exact {W} (sink : W → Z → Z → RawRecordEnvelopeV1 → res W) t generations proofs mode w c w' :
  map_Forall (λ _ f, len f ≤ u64_max) (t_files t) →
  complete_replay_trades sink t generations proofs mode w = Ok (c, w') →
  ∃ trss, let sels := chosen (trade_start proofs) (trade_end proofs) trss in
    Forall2 (λ g trs, stream_read t g "trade" trs) generations trss ∧
    trade_selection_spliced proofs sels ∧ try_fold (sink_call sink) w (sink_calls generations sels) = Ok w' ∧
    trade_counts c (concat trss).*2 (concat sels).*2 ∧ trade_ids_exact proofs c sels.
Proof.
  intros Hfs H. unfold complete_replay_trades in H. apply res_bind_Ok in H as ([[[rt w1] ids] ks] & Hfold & H).
  apply res_bind_Ok in H as (ex & Hex%ok_or_Ok & H). apply checked_sub_Some in Hex as [Hle ->].
  apply res_bind_Ok in H as (first & Hfirst%ok_or_Ok & H). apply res_bind_Ok in H as (lst & Hlast%ok_or_Ok & [= <- <-]).
  apply (chain_fold sink t "trade" (trade_start proofs) (trade_end proofs) (id_step selected_trade_id)
    (trade_generation_ok proofs)) in Hfold as (trss & HF & _ & -> & Hsink & Hsteps & Hlen & Hpos);
    [|intros; by eapply trade_turn_inv].
  exists trss. cbn zeta. set (sels := chosen _ _ trss) in *.
  assert (∀ position, (position < length sels)%nat → is_Some (generations !! position)) as Hdom.
  { intros position Hlt. apply lookup_lt_is_Some. subst sels. rewrite length_chosen in Hlt.
    by rewrite (Forall2_length _ _ _ HF). }
  split_and!; try done.
  - intros position sel Hsel. destruct (Hdom position) as [g Hg]; [by apply lookup_lt_Some in Hsel|].
    destruct (Hpos _ _ Hg) as (sel' & a1 & k & Hs & _ & _ & Hrange & Hpf & _).
    rewrite Hsel in Hs. injection Hs as <-.
    unfold sels, chosen in Hsel. rewrite list_lookup_imap in Hsel. apply fmap_Some in Hsel as (trs & Htrs & ->).
    destruct (Forall2_lookup_r _ _ _ _ _ HF Htrs) as (g' & Hg' & Hread).
    destruct (trade_range_contiguous _ _ trs (stream_read_indexes _ _ _ _ Hfs Hread) Hrange) as [H1 H2].
    split; [done|]. intros proof Hp. destruct (Hpf _ Hp) as [Hsha2 _].
    specialize (H2 (ps_frame_index (td_predecessor_next_shared (hp_trade proof)))).
    unfold trade_end in *. rewrite Hp in *. specialize (H2 eq_refl). cbn [fmap option_fmap option_map] in *.
    destruct (last _) as [r|]; [|done]. split; [done|by apply Hsha2].
  - unfold trade_counts, totals_of. cbn [ct_total_raw_records ct_selected_raw_records ct_selected_market_records
      ct_selected_control_records ct_overlap_records_excluded rt_total_raw rt_selected_raw rt_selected_market
      rt_selected_controls no_totals]. lia.
  - destruct (ids_inv _ _ _ _ Hsteps) as (ts & HFt & Hsort & Eids). cbn [fst snd option_list app] in *.
    subst ids. cbn [fst snd] in *. exists ts. cbn [ct_first_trade_id ct_last_trade_id].
    split_and!; try done; [by destruct (last ts)|].
    intros position proof Hp Hlt. destruct (Hdom _ Hlt) as [g Hg].
    destruct (Hpos _ _ Hg) as (sel & a1 & k & _ & _ & Ha1 & _ & Hpf & _). destruct (Hpf _ Hp) as [_ Hid].
    destruct (ids_inv _ _ _ _ Ha1) as (ts1 & HF1 & _ & ->). cbn [snd] in Hid.
    assert (∃ ts2, ts = ts1 ++ ts2) as [ts2 ->].
    { rewrite <-(take_drop (S position) sels), concat_app, fmap_app, data_frames_app in HFt.
      apply Forall2_app_inv_l in HFt as (u1 & u2 & HFu & _ & ->). exists u2. f_equal. clear -HF1 HFu.
      revert ts1 HF1. induction HFu as [|f i l u Hf _ IH]; intros ts1 HF1.
      - by apply Forall2_nil_inv_l in HF1 as ->.
      - apply Forall2_cons_inv_l in HF1 as (i' & u' & Hf' & HF1 & ->). f_equal; [congruence|by apply IH]. }
    rewrite (Forall2_length _ _ _ HF1). apply last_take_prefix. by destruct (last ts1).
Qed.


(** *** The two ways of reading agree *)

Lemma try_fold_weaken {B C} (f g : B → C → res B) l b b' :
  (∀ b c b', f b c = Ok b' → g b c = Ok b') → try_fold f b l = Ok b' → try_fold g b l = Ok b'.
Proof.
  intros Hfg. revert b. induction l as [|c l IH]; intros b; [done|]. cbn [try_fold].
  intros (b1 & H1 & H)%res_bind_Ok. rewrite (Hfg _ _ _ H1). by apply IH.
Qed.

Lemma depth_audited_single {W} (sink : W → Z → Z → RawRecordEnvelopeV1 → res W) t generations proofs w r :
  map_Forall (λ _ f, len f ≤ u64_max) (t_files t) →
  complete_replay_depth sink t generations proofs false w = Ok r →
  complete_replay_depth sink t generations proofs true w = Ok r.
Proof.
  intros Hfs. unfold complete_replay_depth. destruct (expect _) as [g| |]; cbn [mbind res_bind]; [|done..].
  destruct (open_file _ _); cbn [mbind res_bind]; [|done..]. destruct (read_raw_records _); cbn [mbind res_bind]; [|done..].
  destruct (reject _ _); cbn [mbind res_bind]; [|done..]. destruct (book_new _); cbn [mbind res_bind]; [|done..].
  destruct (expect _); cbn [mbind res_bind]; [|done..]. destruct (load_snapshot _ _) as [b0 [?| |]]; cbn [mbind res_bind]; [|done..].
  intros (s & Hs & H)%res_bind_Ok.
  apply (try_fold_weaken _ (depth_generation_turn sink t proofs true)) in Hs; [by rewrite Hs|].
  intros [[[rt w1] da] ks] [position gen] s'. unfold depth_generation_turn.
  destruct (match position with O => _ | _ => _ end); cbn [mbind res_bind]; [|done..].
  intros (s1 & Hs1 & H1)%res_bind_Ok. by rewrite (stream_records_audited _ _ _ _ _ _ Hfs Hs1).
Qed.
Lemma trades_audited_single {W} (sink : W → Z → Z → RawRecordEnvelopeV1 → res W) t generations proofs w r :
  map_Forall (λ _ f, len f ≤ u64_max) (t_files t) →
  complete_replay_trades sink t generations proofs false w = Ok r →
  complete_replay_trades sink t generations proofs true w = Ok r.
Proof.
  intros Hfs. unfold complete_replay_trades. intros (s & Hs & H)%res_bind_Ok.
  apply (try_fold_weaken _ (trade_generation_turn sink t proofs true)) in Hs; [by rewrite Hs|].
  intros [[[rt w1] da] ks] [position gen] s'. unfold trade_generation_turn.
  destruct (match position with O => _ | _ => _ end); cbn [mbind res_bind]; [|done..].
  intros (s1 & Hs1 & H1)%res_bind_Ok. by rewrite (stream_records_audited _ _ _ _ _ _ Hfs Hs1).
Qed.

(** *** The inventory *)

(** What an inventory without the digests of segment files lists. *)
Definition forget_segment (f : QualifiedReplaySourceFileV1) : QualifiedReplaySourceFileV1 :=
  if is_segment_raw_path (qf_relative_path f) then mkSourceFile (qf_relative_path f) (qf_bytes f) "" else f.

Lemma collect_forget n t directory prefix collected out :
  collect_source_files n t directory prefix true collected = Ok out →
  collect_source_files n t directory prefix false (forget_segment <$> collected) = Ok (forget_segment <$> out).
Proof.
  revert directory prefix collected out. induction n as [|n IH]; intros directory prefix collected out; [done|].
  cbn [collect_source_files]. intros (names & -> & H)%res_bind_Ok. cbn [mbind res_bind].
  revert collected H. induction (merge_sort name_le names) as [|name l IHl]; intros collected; [by intros [= <-]|].
  cbn [try_fold]. intros (mid & Hmid & H)%res_bind_Ok.
  destruct (ok_or (t_kind t !! path_join directory name) _) as [kind| |]; cbn [mbind res_bind] in *; [|done..].
  destruct kind; [|rewrite (IH _ _ _ _ Hmid)|done..]; cbn [mbind res_bind].
  - apply res_bind_Ok in Hmid as (f & Hf & [= <-]).
    set (relative := if String.eqb prefix "" then name else path_join prefix name) in *.
    assert (source_file t (path_join directory name) relative false = Ok (forget_segment f)) as ->.
    { unfold source_file in *. apply res_bind_Ok in Hf as ([] & -> & Hf). cbn [mbind res_bind].
      apply res_bind_Ok in Hf as (rel & -> & Hf). cbn [mbind res_bind]. apply res_bind_Ok in Hf as (c & -> & Hf).
      cbn [mbind res_bind orb] in *. apply res_bind_Ok in Hf as (d & Hd & [= <-]). unfold forget_segment.
      cbn [qf_relative_path qf_bytes]. destruct (is_segment_raw_path rel); cbn [negb]; [done|]. by rewrite Hd. }
    cbn [mbind res_bind]. specialize (IHl _ H). rewrite fmap_app in IHl. exact IHl.
  - by apply IHl.
Qed.

(** What every listed file satisfies. *)
Lemma collect_listed n t directory prefix collected out :
  let listed f := is_digest (qf_sha256 f) = true ∧ forallb is_normal (path_components (qf_relative_path f)) = true in
  Forall listed collected → collect_source_files n t directory prefix true collected = Ok out → Forall listed out.
Proof.
  cbn zeta. revert directory prefix collected out. induction n as [|n IH]; intros directory prefix collected out Hc; [done|].
  cbn [collect_source_files]. intros (names & _ & H)%res_bind_Ok. revert H. apply try_fold_inv; [done|].
  clear Hc collected out. intros collected name out _ Hc. intros (kind & _ & H)%res_bind_Ok.
  destruct kind; [|by eapply IH|done..]. apply res_bind_Ok in H as (f & Hf & [= <-]).
  apply Forall_app. split; [done|]. constructor; [|done]. unfold source_file in Hf.
  apply res_bind_Ok in Hf as ([] & Hn%reject_Ok & Hf). apply negb_false_iff in Hn.
  apply res_bind_Ok in Hf as (rel & Hrel & Hf). unfold into_string in Hrel. apply res_bind_Ok in Hrel as ([] & _ & [= <-]).
  apply res_bind_Ok in Hf as (c & _ & Hf). cbn [orb] in Hf. apply res_bind_Ok in Hf as (d & Hd & [= <-]).
  cbn [qf_sha256 qf_relative_path]. split; [|done]. unfold sha256_file in Hd.
  apply res_bind_Ok in Hd as ([] & _ & Hd). apply res_bind_Ok in Hd as (file & _ & [= <-]).
  apply is_digest_hex, length_sha256.
Qed.

(** Sorting looks only at the paths. *)
Section sort_fmap.
Context {B : Type} (R : relation B) `{∀ x y, Decision (R x y)} (g : B → B) (Hg : ∀ x y, R (g x) (g y) ↔ R x y).

Lemma list_merge_fmap l k : list_merge R (g <$> l) (g <$> k) = g <$> list_merge R l k.
Proof using Hg.
  revert k. induction l as [|x l IHl]; intros k; [by destruct k|]. induction k as [|y k IHk]; [done|].
  rewrite !fmap_cons in *. cbn [list_merge] in *.
  destruct (decide (R x y)) as [Hxy|Hxy].
  - rewrite decide_True by (by apply Hg). rewrite fmap_cons. f_equal. specialize (IHl (y :: k)).
    by rewrite fmap_cons in IHl.
  - rewrite decide_False by (by rewrite Hg). rewrite fmap_cons. by f_equal.
Qed.
Lemma merge_sort_aux_fmap st l :
  merge_sort_aux R ((fmap (M := option) (fmap (M := list) g)) <$> st) (g <$> l) = g <$> merge_sort_aux R st l.
Proof using Hg.
  assert (∀ st l, merge_list_to_stack R ((fmap (M := option) (fmap (M := list) g)) <$> st) (g <$> l)
    = (fmap (M := option) (fmap (M := list) g)) <$> merge_list_to_stack R st l) as Hstack.
  { clear st l. intros st. induction st as [|[l'|] st IH]; intros l; [done| |done].
    cbn [merge_list_to_stack fmap list_fmap option_fmap option_map]. rewrite list_merge_fmap. f_equal. apply IH. }
  revert st. induction l as [|x l IH]; intros st.
  - cbn [merge_sort_aux fmap list_fmap]. induction st as [|[l'|] st IHs]; [done| |done].
    cbn [merge_stack fmap list_fmap option_fmap option_map] in *. by rewrite IHs, list_merge_fmap.
  - rewrite fmap_cons. cbn [merge_sort_aux]. rewrite <-IH, <-Hstack. done.
Qed.
End sort_fmap.


Lemma sort_forget l :
  merge_sort by_relative_path (forget_segment <$> l) = forget_segment <$> merge_sort by_relative_path l.
Proof.
  apply (merge_sort_aux_fmap by_relative_path forget_segment) with (st := []).
  intros x y. unfold by_relative_path, forget_segment.
  destruct (is_segment_raw_path (qf_relative_path x)), (is_segment_raw_path (qf_relative_path y)); done.
Qed.

#[local] Instance by_relative_path_total : Total by_relative_path.
Proof. intros x y. apply String.leb_total. Qed.

(** Every file of the list once. *)
Definition inventory_distinct (l : list QualifiedReplaySourceFileV1) : Prop :=
  NoDup (qf_relative_path <$> l) ∧ Forall (λ f, qf_relative_path f ≠ ""%string) l.

Lemma inventory_accepted l previous :
  Sorted by_relative_path l → inventory_distinct l →
  Forall (λ f, is_digest (qf_sha256 f) = true ∧ forallb is_normal (path_components (qf_relative_path f)) = true) l →
  (∀ old f, previous = Some old → head l = Some f → String.leb old (qf_relative_path f) = true ∧ old ≠ qf_relative_path f) →
  ∃ o, try_fold inventory_turn previous l = Ok o.
Proof.
  revert previous. induction l as [|f l IH]; intros previous Hs [Hn He] Hf Hp; [by exists previous|].
  rewrite fmap_cons in Hn. apply NoDup_cons in Hn as [Hni Hn]. apply Forall_cons in He as [He1 He].
  apply Forall_cons in Hf as [[Hd Hc] Hf]. apply Sorted_inv in Hs as [Hs Hr].
  destruct (IH (Some (qf_relative_path f)) Hs (conj Hn He) Hf) as [o Ho].
  { intros old f' [= <-] Hh. destruct l as [|f1 l]; [done|]. injection Hh as ->. inversion Hr as [|? ? Hle]; subst.
    split; [done|]. intros E. apply Hni. rewrite E, fmap_cons. constructor. }
  exists o. cbn [try_fold]. set (F := try_fold inventory_turn) in *. unfold inventory_turn. rewrite Hd, Hc. cbn [negb].
  rewrite (proj2 (String.eqb_neq _ _) He1). cbn [orb].
  destruct previous as [old|]; cbn [reject mbind res_bind]; [|done].
  destruct (Hp _ _ eq_refl eq_refl) as [Hle Hne].
  destruct (String.leb (qf_relative_path f) old) eqn:E; cbn [reject mbind res_bind]; [|done].
  by rewrite (String.leb_antisym _ _ Hle E) in Hne.
Qed.

Lemma source_inventory_inv t campaign l :
  source_inventory t campaign = Ok l →
  l ≠ [] ∧ Sorted by_relative_path l ∧
  Forall (λ f, is_digest (qf_sha256 f) = true ∧ forallb is_normal (path_components (qf_relative_path f)) = true) l ∧
  validate_source_inventory_for_replay t campaign l = Ok ().
Proof.
  unfold source_inventory, validate_source_inventory_for_replay. intros (c & -> & H)%res_bind_Ok. cbn [mbind res_bind].
  apply res_bind_Ok in H as (collected & Hc & H). apply res_bind_Ok in H as ([] & Hne%reject_Ok & [= <-]).
  apply bool_decide_eq_false in Hne. apply (collect_forget _ _ _ _ []) in Hc as Hc'. change (forget_segment <$> []) with (@nil QualifiedReplaySourceFileV1) in Hc'. rewrite Hc'. cbn [mbind res_bind].
  rewrite sort_forget, length_fmap, Nat.eqb_refl. cbn [negb reject mbind res_bind]. split_and!.
  - intros E. apply Hne. apply Permutation_nil_r. rewrite <-E. symmetry. apply merge_sort_Permutation.
  - apply Sorted_merge_sort, _.
  - rewrite merge_sort_Permutation. by apply (collect_listed _ _ _ _ [] _ (Forall_nil_2 _)) in Hc.
  - set (l := merge_sort by_relative_path collected). clearbody l. induction l as [|f l IH]; [done|].
    rewrite fmap_cons. change (zip (forget_segment f :: (forget_segment <$> l)) (f :: l))
      with ((forget_segment f, f) :: zip (forget_segment <$> l) l). cbn [try_map].
    assert (same_source_file (forget_segment f) f = Ok ()) as ->.
    { unfold same_source_file, forget_segment. destruct (is_segment_raw_path (qf_relative_path f)) eqn:E;
        cbn [qf_relative_path qf_bytes qf_sha256]; rewrite E, !String.eqb_refl, Z.eqb_refl; done. }
    cbn [mbind res_bind]. apply res_bind_Ok in IH as (us & -> & _). done.
Qed.

(** What an audited replay has established. *)
Lemma replay_complete_run_inv profile t selection report :
  replay_complete_run profile t selection = Ok report →
  ∃ source manifest generations proofs depth trades,
    rn_schema selection = "CompleteRunReplaySelectionV1"%string ∧ rn_usage selection = COMPLETE_REPLAY_USAGE ∧
    known_symbol (rn_symbol selection) = true ∧
    validate_complete_source t (rn_run_directory selection) (rn_symbol selection) = Ok source ∧
    load_json (market_world t) (path_join (ls_campaign source) "campaign.json") "campaign manifest" = Ok manifest ∧
    generation_sources t (ls_campaign source) manifest (rn_symbol selection) = Ok generations ∧
    load_handover_proofs t (ls_campaign source) manifest = Ok proofs ∧
    validate_replay_topology (rn_symbol selection) generations proofs = Ok () ∧
    complete_replay_depth no_sink t generations proofs false () = Ok (depth, ()) ∧
    complete_replay_trades no_sink t generations proofs false () = Ok (trades, ()) ∧
    rr_source report = mkReplaySource (ls_run_id source) (ls_mode source) "COMPLETE" (ls_terminal_sha256 source)
       (ls_campaign_id source) (ls_campaign_manifest_sha256 source) (ls_rust_verification_sha256 source)
       (ls_rust_verification_sha256 source) (ls_python_verification_sha256 source) (rn_symbol selection)
       (len generations) (len proofs) ∧
    assemble_report (rr_source report) depth trades proofs = Ok report.
Proof.
  unfold replay_complete_run. intros ([] & Hsel%reject_Ok & H)%res_bind_Ok. split_orb.
  apply res_bind_Ok in H as (source & Hsource & H). apply res_bind_Ok in H as (v & _ & H).
  apply res_bind_Ok in H as ([] & Hv%reject_Ok & H). apply res_bind_Ok in H as (manifest & Hm & H).
  apply res_bind_Ok in H as (gs & Hgs & H). apply res_bind_Ok in H as (ps & Hps & H).
  apply res_bind_Ok in H as ([] & _ & H). apply res_bind_Ok in H as ([] & Ht & H).
  apply res_bind_Ok in H as ([d []] & Hd & H). apply res_bind_Ok in H as ([c []] & Hc & H). split_orb.
  repeat match goal with E : String.eqb _ _ = true |- _ => apply String.eqb_eq in E end.
  assert (∀ src, assemble_report src d c ps = Ok report → rr_source report = src) as Hsrc.
  { intros src Ha. unfold assemble_report in Ha. by apply res_bind_Ok in Ha as (dg & _ & [= <-]). }
  pose proof (Hsrc _ H) as Es. rewrite <-Es in H.
  exists source, manifest, gs, ps, d, c. split_and!; try done. rewrite Es. f_equal. congruence.
Qed.

Lemma report_digest_form r x : report_digest r = Ok x → is_digest x = true.
Proof. intros (e & _ & [= <-])%res_bind_Ok. apply is_digest_hex, length_sha256. Qed.
Lemma receipt_digest_form r x : receipt_digest r = Ok x → is_digest x = true.
Proof. intros (e & _ & [= <-])%res_bind_Ok. apply is_digest_hex, length_sha256. Qed.
Lemma source_tree_digest_form l x : source_tree_digest l = Ok x → is_digest x = true.
Proof. intros (e & _ & [= <-])%res_bind_Ok. apply is_digest_hex, length_sha256. Qed.

(** A receipt of an assembled report passes the validation. *)
Lemma issued_receipt_valid selection inventory tree_sha report digest d c ps source :
  rn_schema selection = "CompleteRunReplaySelectionV1"%string → rn_usage selection = COMPLETE_REPLAY_USAGE →
  known_symbol (rn_symbol selection) = true → ro_symbol source = rn_symbol selection →
  ro_run_status source = "COMPLETE"%string → assemble_report source d c ps = Ok report →
  inventory ≠ [] → (∃ o, try_fold inventory_turn None inventory = Ok o) →
  source_tree_digest inventory = Ok tree_sha →
  let receipt := mkReceipt "QualifiedCompleteReplayReceiptV1" QUALIFIED_REPLAY_RECEIPT_USAGE false [] selection
                   inventory tree_sha report "" in
  receipt_digest receipt = Ok digest → validate_qualified_receipt (set_receipt_sha256 digest receipt) = Ok ().
Proof.
  intros E1 E2 E3 E4 E5 Ha Hne [o Ho] Htree receipt Hdigest.
  unfold assemble_report in Ha. apply res_bind_Ok in Ha as (rdigest & Hrd & [= <-]).
  unfold validate_qualified_receipt.
  rewrite (proj2 (reject_Ok _ _ ())).
  - cbn [mbind res_bind]. change (report_digest (qr_report (set_receipt_sha256 digest receipt))) with (report_digest
      (mkRunReport "CompleteRunReplayReportV1" COMPLETE_REPLAY_USAGE false source d c (replay_handover <$> ps) false [] "")).
    rewrite Hrd. cbn [mbind res_bind qr_report qr_source_files set_receipt_sha256 set_report_sha256 rr_report_sha256 receipt
      qr_source_tree_sha256 qr_receipt_sha256]. rewrite String.eqb_refl. cbn [negb reject mbind res_bind].
    rewrite Htree. cbn [mbind res_bind]. rewrite String.eqb_refl. cbn [negb reject mbind res_bind].
    pose proof (Hdigest : receipt_digest (set_receipt_sha256 digest receipt) = Ok digest) as Hd2.
    cbn [set_receipt_sha256 receipt] in Hd2. rewrite Hd2. cbn [mbind res_bind]. rewrite String.eqb_refl. cbn [negb reject mbind res_bind]. by rewrite Ho.
  - cbn [qr_schema qr_usage qr_qualification_claim qr_economic_features qr_selection qr_source_files
      qr_source_tree_sha256 qr_report qr_receipt_sha256 rr_schema rr_usage rr_qualification_claim rr_source
      rr_cross_stream_total_order_available rr_economic_features rr_report_sha256 set_receipt_sha256 set_report_sha256 receipt].
    rewrite E1, E2, E3, E4, E5, !String.eqb_refl, (report_digest_form _ _ Hrd), (receipt_digest_form _ _ Hdigest),
      (source_tree_digest_form _ _ Htree), (bool_decide_eq_false_2 (inventory = [])) by done.
    by rewrite !bool_decide_eq_true_2 by done.
Qed.

(** C16: a qualified replay reproduces the audited one. When an audited replay of a run
    issued a receipt and its inventory lists every file once, the qualified replay of the
    same files, which reads each segment once and hashes no segment file, accepts the
    receipt and computes the same report, digest included. *)
Theorem qualified_replay_reproduces profile t selection receipt :
  map_Forall (λ _ f, len f ≤ u64_max) (t_files t) →
  qualify_complete_replay profile t selection = Ok receipt → inventory_distinct (qr_source_files receipt) →
  replay_qualified_complete_run t receipt = Ok (qr_report receipt).
Proof.
  intros Hfs H Hdist. unfold qualify_complete_replay in H. apply res_bind_Ok in H as (report & Hrun & H).
  apply res_bind_Ok in H as (source & Hsource & H). apply res_bind_Ok in H as ([] & _ & H).
  apply res_bind_Ok in H as (inventory & Hinventory & H). apply res_bind_Ok in H as (tree_sha & Htree & H).
  apply res_bind_Ok in H as (digest & Hdigest & [= <-]). cbn [qr_source_files qr_report set_receipt_sha256] in *.
  destruct (replay_complete_run_inv _ _ _ _ Hrun) as (source' & manifest & gs & ps & d & c & E1 & E2 & E3 & Hsource' &
    Hm & Hgs & Hps & Ht & Hd & Hc & Esrc & Ha).
  assert (source' = source) as -> by congruence.
  destruct (source_inventory_inv _ _ _ Hinventory) as (Hne & Hsorted & Hlisted & Hvalid).
  apply depth_audited_single in Hd; [|done]. apply trades_audited_single in Hc; [|done].
  destruct (inventory_accepted inventory None Hsorted Hdist Hlisted ltac:(done)) as [o Ho].
  assert (ro_symbol (rr_source report) = rn_symbol selection ∧ ro_run_status (rr_source report) = "COMPLETE"%string)
    as [E4 E5] by (by rewrite Esrc).
  pose proof (issued_receipt_valid selection inventory tree_sha report digest d c ps _ E1 E2 E3 E4 E5 Ha Hne
    (ex_intro _ o Ho) Htree Hdigest) as Hvr.
  unfold replay_qualified_complete_run, qualified_replay_context. rewrite Hvr. cbn [mbind res_bind].
  cbn [qr_selection qr_report qr_source_files set_receipt_sha256]. rewrite Hsource. cbn [mbind res_bind].
  rewrite Esrc. cbn [ro_run_id ro_run_mode ro_campaign_id ro_campaign_manifest_sha256 ro_launcher_terminal_sha256
    ro_campaign_verification_sha256 ro_rust_verification_sha256 ro_python_verification_sha256 ro_generations ro_handovers].
  rewrite !String.eqb_refl. cbn [negb orb reject mbind res_bind]. rewrite Hvalid. cbn [mbind res_bind].
  rewrite Hm. cbn [mbind res_bind]. rewrite Hgs. cbn [mbind res_bind]. rewrite Hps. cbn [mbind res_bind].
  rewrite Ht. cbn [mbind res_bind]. rewrite !Z.eqb_refl. cbn [negb orb reject mbind res_bind].
  rewrite Hd. cbn [mbind res_bind]. rewrite Hc. cbn [mbind res_bind]. rewrite <-Esrc, Ha. cbn [mbind res_bind].
  by rewrite bool_decide_eq_true_2.
Qed.
(** *** The walk has fuel enough *)

(** Names as a directory lists them: not empty and without a leading slash. *)
Definition leaf_names (t : tree) : Prop :=
  map_Forall (λ _ names, Forall (λ name, match str_chars name with c :: _ => code c ≠ 47 | [] => False end) names)
    (t_entries t).
(** The directories whose path is at least as long. *)
Definition below (t : tree) (directory : string) : nat :=
  size (filter (λ p, (String.length directory ≤ String.length p)%nat) (dom (t_entries t))).

Lemma string_length_app (a b : string) : String.length (String.append a b) = (String.length a + String.length b)%nat.
Proof.
  induction a as [|c a IH]; [done|].
  change (S (String.length (String.append a b)) = S (String.length a + String.length b))%nat. by rewrite IH.
Qed.

Lemma path_join_longer directory name :
  match str_chars name with c :: _ => code c ≠ 47 | [] => False end →
  (String.length directory < String.length (path_join directory name))%nat.
Proof.
  unfold path_join. destruct (str_chars name) as [|c l] eqn:E; [done|]. intros Hc.
  assert (String.length name = S (length l)) as Hl.
  { change (S (length l)) with (length (c :: l)). rewrite <-E. clear. induction name as [|x s IH]; [done|].
    cbn. f_equal. exact IH. }
  rewrite (proj2 (Z.eqb_neq _ _) Hc).
  destruct (match rev (str_chars directory) with _ :: _ => _ | [] => _ end); rewrite ?string_length_app;
    cbn [String.length]; rewrite ?string_length_app, Hl; lia.
Qed.

Lemma below_decreases t directory name names :
  leaf_names t → t_entries t !! directory = Some names → name ∈ names →
  (below t (path_join directory name) < below t directory)%nat.
Proof.
  intros Hl Hd Hn. pose proof (proj1 (Forall_forall _ _) (Hl _ _ Hd) _ Hn) as Hlen%(path_join_longer directory).
  assert (directory ∈ dom (t_entries t)) as Hin by (by apply elem_of_dom_2 in Hd).
  unfold below. apply subset_size. split.
  - intros k [Hle Hk]%elem_of_filter. apply elem_of_filter. split; [lia|done].
  - intros Hsub. assert (directory ∈ filter (λ p, (String.length directory ≤ String.length p)%nat) (dom (t_entries t))) as Hf
      by (by apply elem_of_filter).
    apply Hsub, elem_of_filter in Hf as [Hle _]. lia.
Qed.

(** More fuel than [tree_depth] changes nothing, so the walk never stops for lack of it. *)
Lemma collect_fuel_enough t hash_segment_files n m directory prefix collected :
  leaf_names t → (below t directory < n)%nat → (below t directory < m)%nat →
  collect_source_files n t directory prefix hash_segment_files collected
  = collect_source_files m t directory prefix hash_segment_files collected.
Proof.
  intros Hl. revert m directory prefix collected. induction n as [|n IH]; intros m directory prefix collected Hn Hm; [lia|].
  destruct m as [|m]; [lia|]. cbn [collect_source_files].
  destruct (t_entries t !! directory) as [names|] eqn:Hd; cbn [ok_or mbind res_bind]; [|done].
  assert (∀ name, name ∈ merge_sort name_le names → name ∈ names) as Hin
    by (intros name; by rewrite merge_sort_Permutation).
  revert collected. induction (merge_sort name_le names) as [|name l IHl]; intros collected; [done|].
  cbn [try_fold]. destruct (ok_or _ _) as [kind| |]; cbn [mbind res_bind]; [|done..].
  pose proof (below_decreases _ _ _ _ Hl Hd (Hin name (list_elem_of_here _ _))).
  specialize (IHl (λ name' H', Hin name' (list_elem_of_further _ _ _ H'))).
  destruct kind; [| |done..].
  - destruct (source_file _ _ _ _); cbn [mbind res_bind]; [apply IHl|done..].
  - rewrite (IH m) by lia. destruct (collect_source_files m _ _ _ _ _); cbn [mbind res_bind]; [apply IHl|done..].
Qed.

Lemma below_tree_depth t directory : (below t directory < tree_depth t)%nat.
Proof.
  unfold below, tree_depth. rewrite <-(size_dom (D := gset string)). apply Nat.lt_succ_r, subseteq_size.
  intros k. by intros [_ Hk]%elem_of_filter.
Qed.

End complete_theory.

(** ** A complete run with two generations *)

Module RunDemo.
Export HandoverDemo.

#[export] Instance report_serde : Serde CompleteRunReplayReportV1 := {|
  to_vec r := inr (str_bytes (cd_state_sha256 (rr_depth r) ++ u_to_string (ct_last_trade_id (rr_trades r))));
  from_slice _ := inl "unused"%string
|}.
#[export] Instance receipt_serde : Serde QualifiedCompleteReplayReceiptV1 := {|
  to_vec r := inr (str_bytes (qr_source_tree_sha256 r ++ rr_report_sha256 (qr_report r)));
  from_slice _ := inl "unused"%string
|}.
#[export] Instance inventory_serde : Serde (list QualifiedReplaySourceFileV1) := {|
  to_vec l := inr (l ≫= λ f, str_bytes (qf_relative_path f ++ u_to_string (qf_bytes f) ++ qf_sha256 f));
  from_slice _ := inl "unused"%string
|}.

Definition digest_of (b : bytes) : string := hex (sha256 b).
Definition run : string := "/q/run1".
Definition campaign_root : string := "/q/run1/c1".
Definition campaign_file : bytes := Json.text
  ("{'generations':[{'generation_index':0,'session_id':'s0','session_dir':'generations/s0'},"
   ++ "{'generation_index':1,'session_id':'s1','session_dir':'generations/s1'}],"
   ++ "'handovers':[{'proof_file':'handovers/h0.json','proof_sha256':'" ++ hp_proof_sha256 handover
   ++ "','proof_file_sha256':'" ++ digest_of proof_file ++ "'}]}").
Definition bindings_file : bytes := Json.text
  ("{'schema':'RawQualificationCampaignBindingsV1','run_id':'run1','campaigns':"
   ++ "[{'symbol':'BTCUSDT','campaign_id':'c1','campaign_directory':'/q/run1/c1'}]}").
Definition rust_file : bytes := Json.text
  ("{'schema':'VerifiedRawCampaignV1','status':'PASS','campaign_id':'c1','symbol':'BTCUSDT','verification_sha256':'"
   ++ star_digest 7 ++ "','campaign_manifest_sha256':'" ++ digest_of campaign_file ++ "'}").
Definition python_file : bytes := Json.text
  ("{'schema':'RawCampaignVerificationV1','status':'VERIFIED','campaign_id':'c1','symbol':'BTCUSDT',"
   ++ "'verification_sha256':'" ++ star_digest 8 ++ "','campaign_manifest_file_sha256':'" ++ digest_of campaign_file ++ "'}").
Definition verifier_row (kind : string) (b : bytes) : string :=
  ("{'name':'btcusdt-" ++ kind ++ "','exit_code':0,'stderr_bytes':0,'report_file':'" ++ kind
   ++ ".json','report_sha256':'" ++ digest_of b ++ "','report_bytes':" ++ u_to_string (len b) ++ "}")%string.
Definition terminal_file : bytes := Json.text
  ("{'schema':'RawQualificationLauncherTerminalV2','status':'COMPLETE','run_id':'run1','mode':'Test',"
   ++ "'credentials':'NONE','order_entry':'ABSENT','run_root':'/q/run1','campaign_bindings_sha256':'"
   ++ digest_of bindings_file ++ "','campaigns':[{'symbol':'ETHUSDT'},{'symbol':'BTCUSDT','exit_code':0,"
   ++ "'child_stderr_events':0,'stderr_file_bytes':0,'campaign_directory':'/q/run1/c1','campaign_id':'c1',"
   ++ "'campaign_manifest_sha256':'" ++ digest_of campaign_file ++ "','rust_verification_sha256':'" ++ star_digest 7
   ++ "','python_verification_sha256':'" ++ star_digest 8 ++ "','independent_verifiers':["
   ++ verifier_row "rust" rust_file ++ "," ++ verifier_row "python" python_file ++ "]}]}").

Definition run_files : list (string * bytes) := Eval vm_compute in
  [("/q/run1/launcher-terminal.json", terminal_file); ("/q/run1/campaign-bindings.json", bindings_file);
   ("/q/run1/independent-verification/rust.json", rust_file);
   ("/q/run1/independent-verification/python.json", python_file);
   ("/q/run1/c1/campaign.json", campaign_file); ("/q/run1/c1/handovers/h0.json", proof_file)]%string
  ++ files_of_campaign.
Definition run_tree : tree := tree_of run_files
  ([(campaign_root, ["generations"; "campaign.json"; "handovers"]);
    (path_join campaign_root "generations", ["s1"; "s0"]); (path_join campaign_root "handovers", ["h0.json"])]%string
   ++ generation_directories 0 ++ generation_directories 1)
  ((λ p, (p, p)) <$> [run; campaign_root; root 0; root 1]).
Definition run_selection : CompleteRunReplaySelectionV1 :=
  mkRunSelection "CompleteRunReplaySelectionV1" COMPLETE_REPLAY_USAGE run "BTCUSDT".
Definition verified_campaign (t : tree) (c : string) : res VerifiedCampaign :=
  Ok (mkVerifiedCampaign "c1" "BTCUSDT" (digest_of campaign_file) (star_digest 7) 1).
Definition generation (g : nat) : GenerationSource :=
  mkGenerationSource (Z.of_nat g) (session_id g) (root g)
    (match value_from_slice (startup_file g) with inr v => v | inl _ => Json.JNull end).

Lemma run_sizes : map_Forall (λ _ f, len f ≤ u64_max) (t_files run_tree).
Proof. apply (bool_decide_unpack _). vm_compute. exact I. Qed.
End RunDemo.

Section complete_witnesses.
Import RunDemo.

Lemma complete_depth_exact_witness :
  ∃ d, complete_replay_depth no_sink run_tree [generation 0; generation 1] [handover] false () = Ok (d, ()) ∧
    cd_overlap_records_excluded d = 3 ∧ cd_final_update_id d = 18 ∧
    ∃ trss first file snapshot b b0 last,
    let sels := chosen (depth_start [handover]) (depth_end [handover]) trss in
    Forall2 (λ g trs, stream_read run_tree g "depth" trs) [generation 0; generation 1] trss ∧
    head [generation 0; generation 1] = Some first ∧
    t_files run_tree !! path_join (gs_root first) "snapshot.bnraw" = Some file ∧
    read_raw_records file = Ok [snapshot] ∧
    book_new (default "" (as_str (value_index (gs_startup first) "symbol"))) = Ok b ∧
    load_snapshot (rf_payload (re_frame snapshot)) b = (b0, Ok last) ∧
    depth_selection_spliced [handover] sels ∧
    try_fold (sink_call no_sink) () (sink_calls [generation 0; generation 1] sels) = Ok () ∧
    depth_counts d (concat trss).*2 (concat sels).*2 ∧ depth_book_exact [handover] d b0 last sels.
Proof.
  assert (match complete_replay_depth no_sink run_tree [generation 0; generation 1] [handover] false () with
          | Ok (d, ()) => bool_decide (cd_overlap_records_excluded d = 3 ∧ cd_final_update_id d = 18)
          | _ => false end = true) as H by (vm_compute; reflexivity).
  destruct (complete_replay_depth no_sink run_tree [generation 0; generation 1] [handover] false ())
    as [[d []]| |] eqn:E; [|discriminate H..].
  apply bool_decide_eq_true in H as [H1 H2]. exists d. split; [reflexivity|]. split; [exact H1|]. split; [exact H2|].
  exact (complete_depth_exact no_sink run_tree [generation 0; generation 1] [handover] false () d () run_sizes E).
Defined.

Lemma complete_trades_exact_witness :
  ∃ c, complete_replay_trades no_sink run_tree [generation 0; generation 1] [handover] true () = Ok (c, ()) ∧
    ct_selected_market_records c = 4 ∧ ct_last_trade_id c = 12 ∧
    ∃ trss, let sels := chosen (trade_start [handover]) (trade_end [handover]) trss in
    Forall2 (λ g trs, stream_read run_tree g "trade" trs) [generation 0; generation 1] trss ∧
    trade_selection_spliced [handover] sels ∧
    try_fold (sink_call no_sink) () (sink_calls [generation 0; generation 1] sels) = Ok () ∧
    trade_counts c (concat trss).*2 (concat sels).*2 ∧ trade_ids_exact [handover] c sels.
Proof.
  assert (match complete_replay_trades no_sink run_tree [generation 0; generation 1] [handover] true () with
          | Ok (c, ()) => bool_decide (ct_selected_market_records c = 4 ∧ ct_last_trade_id c = 12)
          | _ => false end = true) as H by (vm_compute; reflexivity).
  destruct (complete_replay_trades no_sink run_tree [generation 0; generation 1] [handover] true ())
    as [[c []]| |] eqn:E; [|discriminate H..].
  apply bool_decide_eq_true in H as [H1 H2]. exists c. split; [reflexivity|]. split; [exact H1|]. split; [exact H2|].
  exact (complete_trades_exact no_sink run_tree [generation 0; generation 1] [handover] true () c () run_sizes E).
Defined.

Lemma qualified_replay_reproduces_witness :
  ∃ receipt, qualify_complete_replay verified_campaign run_tree run_selection = Ok receipt ∧
    length (qr_source_files receipt) = 32%nat ∧
    replay_qualified_complete_run run_tree receipt = Ok (qr_report receipt).
Proof.
  assert (match qualify_complete_replay verified_campaign run_tree run_selection with
          | Ok r => bool_decide (length (qr_source_files r) = 32%nat ∧ NoDup (qf_relative_path <$> qr_source_files r)
                      ∧ Forall (λ f, qf_relative_path f ≠ ""%string) (qr_source_files r))
          | _ => false end = true) as H by (vm_compute; reflexivity).
  destruct (qualify_complete_replay verified_campaign run_tree run_selection) as [r| |] eqn:E; [|discriminate H..].
  apply bool_decide_eq_true in H as (H1 & H2 & H3). exists r. split; [reflexivity|]. split; [exact H1|].
  exact (qualified_replay_reproduces verified_campaign run_tree run_selection r run_sizes E (conj H2 H3)).
Defined.
End complete_witnesses.
