(* ===== verification/QualifiedCache.v ===== *)
(** * The binary cache of a qualified replay (qualified_cache.rs, first half)

    The records a qualified replay selects are written once into a binary cache: per stream
    a data file of length-prefixed records with their digests and an index of fixed-width
    entries, described by a manifest that is written last. Replaying the cache must give the
    report of the qualified replay without decoding the raw logs again.

    The writers append to byte strings, which become files of the new directory; writing
    does not fail in the model (in the code a failed write ends the build before the
    manifest is written). Reading uses the tree of [GenerationArtifact]. *)

From stdpp Require Import base list strings option numbers sets gmap sorting.
From Stdlib Require Import ZArith Lia Ascii Strings.Byte Sorting.Sorted.
From S2P Require Import Prelude Decimal External OrderBook RawLog RawLogSafety Replay Boundary DurabilityProgress SegmentChain Follower Observations MarketReplay TransportJournal GenerationArtifact GenerationHandover CompleteReplay.
Local Open Scope Z_scope.

(** ** Constants and data *)

Definition CACHE_MAGIC : bytes := [x42; x4e; x45; x56; x54; x00; x02; x0a].
Definition INDEX_MAGIC : bytes := [x42; x4e; x49; x44; x58; x00; x02; x0a].
Definition INDEX_ENTRY_BYTES : Z := 48.
Definition MAX_CACHE_RECORD_BYTES : Z := 4 * 1024 * 1024 + 128.
Definition QUALIFIED_CACHE_USAGE : string := "QUALIFIED_NEUTRAL_REPLAY_CACHE".

Record QualifiedReplayCacheArtifactV2 := mkCacheArtifact {
  ca_stream_kind : string; ca_data_file : string; ca_data_bytes : Z; ca_data_sha256 : string;
  ca_index_file : string; ca_index_bytes : Z; ca_index_sha256 : string; ca_records : Z
}.
(** [QualifiedReplayCacheIdentityV2] has the fields of [QualifiedReplayGenerationIdentity],
    from which it is copied. *)
Record QualifiedReplayCacheIdentityV2 := mkCacheIdentity {
  cq_generation_index : Z; cq_session_id : string; cq_depth_stream : string;
  cq_depth_connection_epoch : string; cq_trade_stream : string; cq_trade_connection_epoch : string
}.
Record QualifiedReplayCacheManifestV2 := mkCacheManifest {
  cm_schema : string; cm_usage : string; cm_status : string; cm_qualification_claim : bool;
  cm_cross_stream_total_order_available : bool; cm_economic_features : list string;
  cm_receipt_sha256 : string; cm_source_tree_sha256 : string; cm_replay_report_sha256 : string;
  cm_symbol : string; cm_identities : list QualifiedReplayCacheIdentityV2;
  cm_snapshot : QualifiedReplayCacheArtifactV2; cm_depth : QualifiedReplayCacheArtifactV2;
  cm_trades : QualifiedReplayCacheArtifactV2; cm_manifest_sha256 : string
}.
Record CachedEvent := mkCachedEvent {
  ce_record_ordinal : Z; ce_start_offset : Z; ce_end_offset : Z; ce_generation_index : Z;
  ce_segment_index : Z; ce_frame_index : Z; ce_receive_wall_ns : Z; ce_receive_mono_ns : Z;
  ce_record_sha256 : string; ce_payload : bytes
}.
Record GenerationCounts := mkCounts {
  gc_first : option Z; gc_last : option Z; gc_raw : Z; gc_market : Z; gc_controls : Z
}.
Definition no_counts : GenerationCounts := mkCounts None None 0 0 0.

Definition set_manifest_sha256 (digest : string) (m : QualifiedReplayCacheManifestV2) : QualifiedReplayCacheManifestV2 :=
  mkCacheManifest (cm_schema m) (cm_usage m) (cm_status m) (cm_qualification_claim m)
    (cm_cross_stream_total_order_available m) (cm_economic_features m) (cm_receipt_sha256 m)
    (cm_source_tree_sha256 m) (cm_replay_report_sha256 m) (cm_symbol m) (cm_identities m) (cm_snapshot m)
    (cm_depth m) (cm_trades m) digest.

Definition be64 (n : Z) : bytes := to_be_bytes 8 n.
Definition be32 (n : Z) : bytes := to_be_bytes 4 n.

(** [reader.read_exact(&mut [0; n])]: the bytes read and what is left. *)
Definition read_exact (n : Z) (input : bytes) (msg : string) : res (bytes * bytes) :=
  _ ← reject (len input <? n) msg;
  Ok (take (Z.to_nat n) input, drop (Z.to_nat n) input).

(** The body of a record behind the cursor. *)
Definition take_u64 (body : bytes) : res (Z * bytes) :=
  '(b, rest) ← read_exact 8 body "cache record is truncated";
  Ok (from_be_bytes b, rest).

(** [root.join(value)] for one safe filename *)
Definition cache_leaf (root value : string) : res string :=
  let components := path_components value in
  _ ← reject (String.eqb value "" || negb (length components =? 1)%nat || negb (forallb is_normal components))
        "cache artifact path is not one safe filename";
  Ok (path_join root value).

(** [magic.len() + records * entry] *)
Definition index_size (records entry : Z) (msg : string) : res Z :=
  entries ← ok_or (checked_mul records entry) msg;
  ok_or (checked_add 8 entries) msg.

(** The indexes of an entry, eight bytes each. *)
Fixpoint be_chunks (n : nat) (b : bytes) : list Z :=
  match n with O => [] | S n => from_be_bytes (take 8 b) :: be_chunks n (drop 8 b) end.

Section cache.
Context `{Hsha : Sha256} `{Hval : SerdeValue} `{Hobj : !SerdeObject} `{Hb64 : Base64} `{Hmb : Serde ManifestBodyV1}.
Context `{Hcte : Serde CanonicalTradeEvent} `{Hpm : Serde ProofDigestMaterial} `{Hproof : Serde RawGenerationHandoverProofV1}.
Context `{Hrep : Serde CompleteRunReplayReportV1} `{Hrec : Serde QualifiedCompleteReplayReceiptV1}.
Context `{Hinv : Serde (list QualifiedReplaySourceFileV1)}.
Context `{Hcm : Serde QualifiedReplayCacheManifestV2} `{Hcp : SerdePretty QualifiedReplayCacheManifestV2}.

Definition manifest_digest (m : QualifiedReplayCacheManifestV2) : res string :=
  encoded ← map_err "serialize cache manifest material: " (to_vec (set_manifest_sha256 "" m));
  Ok (hex (sha256 encoded)).

(** ** The writer *)

Record CacheWriter := mkCacheWriter {
  kw_stream_kind : string; kw_data : bytes; kw_index : bytes; kw_data_offset : Z; kw_records : Z
}.

Definition cache_create (stream_kind : string) : CacheWriter :=
  mkCacheWriter stream_kind CACHE_MAGIC INDEX_MAGIC (len CACHE_MAGIC) 0.

Definition cache_body (generation_index segment_index : Z) (record : RawRecordEnvelopeV1) : bytes :=
  let f := re_frame record in
  be64 generation_index ++ be64 segment_index ++ be64 (rf_frame_index f) ++ be64 (rf_receive_wall_ns f)
  ++ be64 (rf_receive_mono_ns f) ++ str_bytes (re_record_sha256 record) ++ be32 (len (rf_payload f))
  ++ rf_payload f.
Definition cache_index_entry (start generation_index segment_index : Z) (record : RawRecordEnvelopeV1) : bytes :=
  let f := re_frame record in
  be64 start ++ be64 generation_index ++ be64 segment_index ++ be64 (rf_frame_index f)
  ++ be64 (rf_receive_wall_ns f) ++ be64 (rf_receive_mono_ns f).

Definition cache_append (w : CacheWriter) (generation_index segment_index : Z) (record : RawRecordEnvelopeV1)
    : res CacheWriter :=
  _ ← reject (negb (is_digest (re_record_sha256 record))) "cache source record digest is invalid";
  _ ← reject (u32_max <? len (rf_payload (re_frame record))) "cache payload length overflow";
  let body := cache_body generation_index segment_index record in
  _ ← reject (u32_max <? len body) "cache record body length overflow";
  let start := kw_data_offset w in
  encoded ← ok_or (checked_add 4 (len body) ≫= λ n, checked_add n 32) "cache data offset overflow";
  data_offset ← ok_or (checked_add (kw_data_offset w) encoded) "cache data offset overflow";
  records ← ok_or (checked_add (kw_records w) 1) "cache record count overflow";
  Ok (mkCacheWriter (kw_stream_kind w) (kw_data w ++ be32 (len body) ++ body ++ sha256 body)
        (kw_index w ++ cache_index_entry start generation_index segment_index record) data_offset records).

Definition data_name (stream_kind : string) : string := stream_kind ++ ".bnevt".
Definition index_name (stream_kind : string) : string := stream_kind ++ ".bnidx".

Definition cache_finish (w : CacheWriter) : res QualifiedReplayCacheArtifactV2 :=
  let data_bytes := len (kw_data w) in
  let index_bytes := len (kw_index w) in
  expected_index_bytes ← index_size (kw_records w) INDEX_ENTRY_BYTES "cache index length overflow";
  _ ← reject (negb (data_bytes =? kw_data_offset w) || negb (index_bytes =? expected_index_bytes))
        "cache writer length accounting diverged";
  Ok (mkCacheArtifact (kw_stream_kind w) (data_name (kw_stream_kind w)) data_bytes (hex (sha256 (kw_data w)))
        (index_name (kw_stream_kind w)) index_bytes (hex (sha256 (kw_index w))) (kw_records w)).

(** The files of a finished writer. *)
Definition cache_files (w : CacheWriter) : list (string * bytes) :=
  [(data_name (kw_stream_kind w), kw_data w); (index_name (kw_stream_kind w), kw_index w)].

(** [Path::starts_with], by components *)
Definition path_starts_with (path base : string) : bool :=
  let fix go (p b : list path_component) : bool :=
    match b, p with
    | [], _ => true
    | RootDir :: b, RootDir :: p | CurDir :: b, CurDir :: p | ParentDir :: b, ParentDir :: p => go p b
    | Normal x :: b, Normal y :: p => String.eqb x y && go p b
    | _, _ => false
    end in
  go (path_components path) (path_components base).

(** The new directory [parent/name]; the parent of a bare name is the current directory. *)
Definition destination_of (t : tree) (destination : string) : res string :=
  let parent := match path_parent destination with
                | Some p => if String.eqb p "" then "."%string else p
                | None => "."%string
                end in
  parent ← t_canonicalize t parent;
  name ← ok_or (path_file_name destination) "destination has no directory name";
  Ok (path_join parent name).

(** The manifest and the files of the directory created at [destination]. *)
Definition build_qualified_replay_cache (t : tree) (receipt : QualifiedCompleteReplayReceiptV1)
    (destination : string) : res (QualifiedReplayCacheManifestV2 * list (string * bytes)) :=
  source ← t_canonicalize t (rn_run_directory (qr_selection receipt));
  destination ← destination_of t destination;
  _ ← reject (path_starts_with destination source) "qualified cache must remain outside immutable source run";
  _ ← reject (bool_decide (is_Some (t_kind t !! destination))) "create cache directory";
  '(snapshot, identities, depth_writer, trade_writer) ←
    materialize_qualified_replay_records t receipt cache_append cache_append (cache_create "depth")
      (cache_create "trade");
  snapshot_writer ← cache_append (cache_create "snapshot") 0 0 snapshot;
  snapshot ← cache_finish snapshot_writer;
  depth ← cache_finish depth_writer;
  trades ← cache_finish trade_writer;
  _ ← reject (negb (ca_records snapshot =? 1)
              || negb (ca_records depth =? cd_selected_raw_records (rr_depth (qr_report receipt)))
              || negb (ca_records trades =? ct_selected_raw_records (rr_trades (qr_report receipt))))
        "cache record counts differ from qualified replay";
  let identities := (λ i, mkCacheIdentity (qi_generation_index i) (qi_session_id i) (qi_depth_stream i)
                           (qi_depth_connection_epoch i) (qi_trade_stream i) (qi_trade_connection_epoch i))
                    <$> identities in
  let manifest := mkCacheManifest "QualifiedReplayCacheManifestV2" QUALIFIED_CACHE_USAGE "COMPLETE" false false []
    (qr_receipt_sha256 receipt) (qr_source_tree_sha256 receipt) (rr_report_sha256 (qr_report receipt))
    (rn_symbol (qr_selection receipt)) identities snapshot depth trades "" in
  digest ← manifest_digest manifest;
  let manifest := set_manifest_sha256 digest manifest in
  encoded ← map_err "serialize cache manifest: " (to_vec_pretty manifest);
  Ok (manifest, cache_files snapshot_writer ++ cache_files depth_writer ++ cache_files trade_writer
                ++ [("qualified-cache.json"%string, encoded ++ [x0a])]).

(** ** Loading a cache *)

Definition validate_artifact_file (t : tree) (verify_file_sha256 : bool) (path_bytes_sha : string * Z * string)
    : res unit :=
  let '(path, size, sha) := path_bytes_sha in
  _ ← require_regular_file (market_world t) path "cache artifact";
  content ← open_file (t_files t) path;
  _ ← reject (negb (len content =? size)) "cache artifact differs from manifest";
  if verify_file_sha256 then
    digest ← sha256_file (market_world t) path;
    reject (negb (String.eqb digest sha)) "cache artifact differs from manifest"
  else Ok ().

Definition validate_artifact (t : tree) (root : string) (artifact : QualifiedReplayCacheArtifactV2)
    (verify_file_sha256 : bool) : res unit :=
  let kind := ca_stream_kind artifact in
  _ ← reject (negb (String.eqb kind "snapshot" || String.eqb kind "depth" || String.eqb kind "trade")
              || negb (String.eqb (ca_data_file artifact) (data_name kind))
              || negb (String.eqb (ca_index_file artifact) (index_name kind))
              || negb (is_digest (ca_data_sha256 artifact)) || negb (is_digest (ca_index_sha256 artifact)))
        "cache artifact contract is invalid";
  data ← cache_leaf root (ca_data_file artifact);
  index ← cache_leaf root (ca_index_file artifact);
  _ ← try_map (validate_artifact_file t verify_file_sha256)
        [(data, ca_data_bytes artifact, ca_data_sha256 artifact); (index, ca_index_bytes artifact, ca_index_sha256 artifact)];
  expected_index ← index_size (ca_records artifact) INDEX_ENTRY_BYTES "cache index size overflow";
  reject (negb (ca_index_bytes artifact =? expected_index)) "cache index size differs from record count".

(** The directory holds regular files with exactly the expected names. *)
Definition exact_file_set (t : tree) (root : string) (expected : list string) (msg : string) : res unit :=
  names ← ok_or (t_entries t !! root) "read directory";
  actual ← try_map (λ name,
    kind ← ok_or (t_kind t !! path_join root name) "inspect directory entry";
    _ ← reject (negb (bool_decide (kind = RegularFile))) "directory contains a non-file entry";
    into_string name "filename is not UTF-8") names;
  reject (negb (bool_decide ((list_to_set actual : gset string) = list_to_set expected))) msg.

Definition load_cache_manifest (t : tree) (root : string) (verify_file_sha256 : bool)
    : res QualifiedReplayCacheManifestV2 :=
  root ← t_canonicalize t root;
  let path := path_join root "qualified-cache.json" in
  _ ← require_regular_file (market_world t) path "cache manifest";
  content ← open_file (t_files t) path;
  m ← map_err "invalid cache manifest JSON: " (from_slice content);
  let msg := "cache manifest contract or digest is invalid" in
  _ ← reject (negb (String.eqb (cm_schema m) "QualifiedReplayCacheManifestV2")
              || negb (String.eqb (cm_usage m) QUALIFIED_CACHE_USAGE)
              || negb (String.eqb (cm_status m) "COMPLETE")
              || cm_qualification_claim m || cm_cross_stream_total_order_available m
              || negb (bool_decide (cm_economic_features m = []))
              || negb (is_digest (cm_receipt_sha256 m)) || negb (is_digest (cm_source_tree_sha256 m))
              || negb (is_digest (cm_replay_report_sha256 m))) msg;
  digest ← manifest_digest m;
  _ ← reject (negb (String.eqb digest (cm_manifest_sha256 m))
              || match cm_identities m with [] => true | _ => false end) msg;
  _ ← exact_file_set t root
        ["qualified-cache.json"%string; ca_data_file (cm_snapshot m); ca_index_file (cm_snapshot m);
         ca_data_file (cm_depth m); ca_index_file (cm_depth m); ca_data_file (cm_trades m);
         ca_index_file (cm_trades m)] "cache directory file set differs from manifest";
  _ ← validate_artifact t root (cm_snapshot m) verify_file_sha256;
  _ ← validate_artifact t root (cm_depth m) verify_file_sha256;
  _ ← validate_artifact t root (cm_trades m) verify_file_sha256;
  Ok m.

(** ** Reading events *)

(** The fields of a record body: indexes, times, the digest of the raw record and the
    payload. *)
Definition decode_body (body : bytes) : res (Z * Z * Z * Z * Z * string * bytes) :=
  '(generation_index, rest) ← take_u64 body;
  '(segment_index, rest) ← take_u64 rest;
  '(frame_index, rest) ← take_u64 rest;
  '(receive_wall_ns, rest) ← take_u64 rest;
  '(receive_mono_ns, rest) ← take_u64 rest;
  '(digest, rest) ← read_exact 64 rest "cache raw digest is truncated";
  let record_sha256 := String.string_of_list_byte digest in
  _ ← reject (negb (is_digest record_sha256)) "cache raw digest is invalid";
  '(prefix, payload) ← read_exact 4 rest "cache payload length is truncated";
  _ ← reject (negb (len payload =? from_be_bytes prefix)) "cache payload length differs from body";
  Ok (generation_index, segment_index, frame_index, receive_wall_ns, receive_mono_ns, record_sha256, payload).

(** One record of the data file: its body, the stored digest and the rest. *)
Definition read_cache_record (data : bytes) : res (bytes * bytes * bytes) :=
  '(prefix, data) ← read_exact 4 data "cache record length is truncated";
  let length := from_be_bytes prefix in
  _ ← reject (negb ((108 <=? length) && (length <=? MAX_CACHE_RECORD_BYTES))) "cache record length is invalid";
  '(body, data) ← read_exact length data "cache record body is truncated";
  '(record_digest, data) ← read_exact 32 data "cache record digest is truncated";
  Ok (body, record_digest, data).

Section visit_events.
Context {A : Type} (visit : A → CachedEvent → res A).

(** The loop over the records that are left: [n] of them, the first with the given ordinal
    and offset. *)
Fixpoint visit_loop (n : nat) (record_ordinal offset : Z) (data index : bytes) (s : A)
    : res (A * Z * bytes * bytes) :=
  match n with
  | O => Ok (s, offset, data, index)
  | S n =>
      '(body, _, data) ← read_cache_record data;
      '(generation_index, segment_index, frame_index, receive_wall_ns, receive_mono_ns, record_sha256, payload) ←
        decode_body body;
      '(entry, index) ← read_exact INDEX_ENTRY_BYTES index "cache index entry is truncated";
      _ ← reject (negb (bool_decide (be_chunks 6 entry
                         = [offset; generation_index; segment_index; frame_index; receive_wall_ns; receive_mono_ns])))
            "cache index entry differs from data record";
      end_offset ← ok_or (checked_add offset (4 + len body + 32)) "cache reader offset overflow";
      s ← visit s (mkCachedEvent record_ordinal offset end_offset generation_index segment_index frame_index
                     receive_wall_ns receive_mono_ns record_sha256 payload);
      visit_loop n (record_ordinal + 1) end_offset data index s
  end.

Definition visit_cache_events (t : tree) (root : string) (artifact : QualifiedReplayCacheArtifactV2) (s : A)
    : res A :=
  data_path ← cache_leaf root (ca_data_file artifact);
  data_file ← open_file (t_files t) data_path;
  index_path ← cache_leaf root (ca_index_file artifact);
  index_file ← open_file (t_files t) index_path;
  '(magic, data) ← read_exact 8 data_file "cache data magic is truncated";
  _ ← reject (negb (bool_decide (magic = CACHE_MAGIC))) "cache data magic is invalid";
  '(magic, index) ← read_exact 8 index_file "cache index magic is truncated";
  _ ← reject (negb (bool_decide (magic = INDEX_MAGIC))) "cache index magic is invalid";
  '(s, offset, data, index) ← visit_loop (Z.to_nat (ca_records artifact)) 0 (len CACHE_MAGIC) data index s;
  _ ← reject (negb (bool_decide (data = [])) || negb (bool_decide (index = []))
              || negb (offset =? ca_data_bytes artifact)) "cache artifact has an unmanifested tail";
  (** the readers hashed every byte of both files *)
  _ ← reject (negb (String.eqb (hex (sha256 data_file)) (ca_data_sha256 artifact))
              || negb (String.eqb (hex (sha256 index_file)) (ca_index_sha256 artifact)))
        "cache artifact digest differs from manifest";
  Ok s.
End visit_events.

(** ** Replaying a cache *)

Definition observe_frame (counts : GenerationCounts) (frame : Z) (control : bool) : res GenerationCounts :=
  raw ← add_u64 (gc_raw counts) 1;
  controls ← if control then add_u64 (gc_controls counts) 1 else Ok (gc_controls counts);
  market ← if control then Ok (gc_market counts) else add_u64 (gc_market counts) 1;
  Ok (mkCounts (get_or_insert (gc_first counts) frame) (Some frame) raw market controls).

(** What both loops over events carry: the generation reached, its counts, the counts of
    all events, the state of the stream and the finished generations. *)
Record cached_state (B K : Type) := mkCached {
  cz_generation : Z; cz_counts : GenerationCounts; cz_controls : Z; cz_market : Z; cz_stream : B;
  cz_output : list K
}.
#[global] Arguments mkCached {B K}.
#[global] Arguments cz_generation {B K}.
#[global] Arguments cz_counts {B K}.
#[global] Arguments cz_controls {B K}.
#[global] Arguments cz_market {B K}.
#[global] Arguments cz_stream {B K}.
#[global] Arguments cz_output {B K}.

Section cached_loop.
Context {B K : Type} (finish_generation : Z → GenerationCounts → B → res K).

(** [while generation < current]: [n] rounds *)
Fixpoint finish_rounds (n : nat) (s : cached_state B K) : res (cached_state B K) :=
  match n with
  | O => Ok s
  | S n =>
      k ← finish_generation (cz_generation s) (cz_counts s) (cz_stream s);
      finish_rounds n (mkCached (cz_generation s + 1) no_counts (cz_controls s) (cz_market s) (cz_stream s)
                         (cz_output s ++ [k]))
  end.
Definition advance_generation (current : Z) (s : cached_state B K) : res (cached_state B K) :=
  finish_rounds (Z.to_nat (current - cz_generation s)) s.

(** The part of a visit in front of the stream's own work: the value and whether it is a
    control message. *)
Definition cached_front (label : string) (identities : Z) (s : cached_state B K) (event : CachedEvent)
    : res (cached_state B K * Value * bool) :=
  let current := ce_generation_index event in
  _ ← reject ((identities <=? current) || (current <? cz_generation s))
        ("cached " ++ label ++ " generation order is invalid");
  s ← advance_generation current s;
  value ← map_err ("invalid cached " ++ label ++ " payload: ") (value_from_slice (ce_payload event));
  control ← is_server_shutdown value;
  counts ← observe_frame (cz_counts s) (ce_frame_index event) control;
  Ok (mkCached (cz_generation s) counts (cz_controls s) (cz_market s) (cz_stream s) (cz_output s), value, control).

Definition count_cached_control (s : cached_state B K) : res (cached_state B K) :=
  n ← add_u64 (cz_controls s) 1;
  Ok (mkCached (cz_generation s) (cz_counts s) n (cz_market s) (cz_stream s) (cz_output s)).
Definition count_cached_market (s : cached_state B K) (b : B) : res (cached_state B K) :=
  n ← add_u64 (cz_market s) 1;
  Ok (mkCached (cz_generation s) (cz_counts s) (cz_controls s) n b (cz_output s)).
End cached_loop.

Definition finish_depth_generation (identities : list QualifiedReplayCacheIdentityV2) (index : Z)
    (counts : GenerationCounts) (da : depth_acc) : res DepthGenerationReplayV1 :=
  identity ← expect (identities !! Z.to_nat index);
  first ← ok_or (gc_first counts) "cached depth generation contains no record";
  last ← ok_or (gc_last counts) "cached depth generation contains no record";
  final_update_id ← ok_or (bk_last_update_id (da_book da)) "cached depth replay has no update ID";
  Ok (mkDepthGeneration index (cq_session_id identity) first last (gc_raw counts) (gc_market counts)
        (gc_controls counts) final_update_id (state_digest (da_book da))).

Definition cached_depth_visit (identities : list QualifiedReplayCacheIdentityV2)
    (s : cached_state depth_acc DepthGenerationReplayV1) (event : CachedEvent)
    : res (cached_state depth_acc DepthGenerationReplayV1) :=
  '(s, value, control) ← cached_front (finish_depth_generation identities) "depth" (len identities) s event;
  if control : bool then count_cached_control s else
  s ← count_cached_market s (cz_stream s);
  let da := cz_stream s in
  let '(book, r) := apply_depth_value value (da_book da) in
  outcome ← r;
  da ← match outcome with
       | Old => n ← add_u64 (da_old da) 1; Ok (mkDepthAcc book (da_applied da) n (da_first_applied da))
       | Applied => n ← add_u64 (da_applied da) 1; Ok (mkDepthAcc book n (da_old da) (da_first_applied da))
       end;
  Ok (mkCached (cz_generation s) (cz_counts s) (cz_controls s) (cz_market s) da (cz_output s)).

Definition replay_cached_depth (t : tree) (receipt : QualifiedCompleteReplayReceiptV1) (root : string)
    (m : QualifiedReplayCacheManifestV2) (snapshot_payload : bytes) : res CompleteDepthReplayV1 :=
  book ← book_new (cm_symbol m);
  let '(book, r) := load_snapshot snapshot_payload book in
  _ ← r;
  s ← visit_cache_events (cached_depth_visit (cm_identities m)) t root (cm_depth m)
        (mkCached 0 no_counts 0 0 (mkDepthAcc book 0 0 None) []);
  s ← advance_generation (finish_depth_generation (cm_identities m)) (len (cm_identities m)) s;
  let expected := rr_depth (qr_report receipt) in
  let book := da_book (cz_stream s) in
  let '(bid_levels, ask_levels) := level_counts book in
  final_update_id ← ok_or (bk_last_update_id book) "cached depth replay has no final update ID";
  let replay := mkCompleteDepth (cd_total_raw_records expected) (cd_total_control_records expected)
    (ca_records (cm_depth m)) (cz_market s) (cz_controls s) (cd_overlap_records_excluded expected)
    (da_old (cz_stream s)) (da_applied (cz_stream s)) final_update_id (Z.of_nat bid_levels) (Z.of_nat ask_levels)
    (state_digest book) (cz_output s) in
  _ ← reject (negb (bool_decide (replay = expected))) "cached depth replay differs from qualified replay";
  Ok replay.

Definition finish_trade_generation (identities : list QualifiedReplayCacheIdentityV2) (index : Z)
    (counts : GenerationCounts) (ids : option Z * option Z) : res TradeGenerationReplayV1 :=
  identity ← expect (identities !! Z.to_nat index);
  last_trade_id ← ok_or ids.2 "cached trade replay contains no market event";
  Ok (mkTradeGeneration index (cq_session_id identity) (gc_first counts) (gc_last counts) (gc_raw counts)
        (gc_market counts) (gc_controls counts) last_trade_id).

Definition cached_trade_visit (symbol : string) (identities : list QualifiedReplayCacheIdentityV2)
    (s : cached_state (option Z * option Z) TradeGenerationReplayV1) (event : CachedEvent)
    : res (cached_state (option Z * option Z) TradeGenerationReplayV1) :=
  '(s, value, control) ← cached_front (finish_trade_generation identities) "trade" (len identities) s event;
  if control : bool then count_cached_control s else
  trade_id ← validated_trade_id value symbol;
  let ids := cz_stream s in
  _ ← reject (match ids.2 with Some old => trade_id <=? old | None => false end)
        "cached trade ID duplicated or regressed";
  count_cached_market s (get_or_insert ids.1 trade_id, Some trade_id).

Definition replay_cached_trades (t : tree) (receipt : QualifiedCompleteReplayReceiptV1) (root : string)
    (m : QualifiedReplayCacheManifestV2) : res CompleteTradeReplayV1 :=
  s ← visit_cache_events (cached_trade_visit (cm_symbol m) (cm_identities m)) t root (cm_trades m)
        (mkCached 0 no_counts 0 0 (None, None) []);
  s ← advance_generation (finish_trade_generation (cm_identities m)) (len (cm_identities m)) s;
  let expected := rr_trades (qr_report receipt) in
  first_trade_id ← ok_or (cz_stream s).1 "cached trade replay contains no market event";
  last_trade_id ← ok_or (cz_stream s).2 "cached trade replay contains no market event";
  let replay := mkCompleteTrade (ct_total_raw_records expected) (ct_total_control_records expected)
    (ca_records (cm_trades m)) (cz_market s) (cz_controls s) (ct_overlap_records_excluded expected)
    first_trade_id last_trade_id true (cz_output s) in
  _ ← reject (negb (bool_decide (replay = expected))) "cached trade replay differs from qualified replay";
  Ok replay.

Definition binding_identity_turn (receipt : QualifiedCompleteReplayReceiptV1)
    (expected_identity : nat * QualifiedReplayCacheIdentityV2) : res unit :=
  let '(expected, identity) := expected_identity in
  let report := qr_report receipt in
  let msg := "cache generation identity differs from replay report" in
  _ ← reject (negb (cq_generation_index identity =? Z.of_nat expected)) msg;
  depth ← expect (cd_generations (rr_depth report) !! expected);
  _ ← reject (negb (String.eqb (cq_session_id identity) (dg_session_id depth))) msg;
  trade ← expect (ct_generations (rr_trades report) !! expected);
  reject (negb (String.eqb (cq_session_id identity) (tg_session_id trade))) msg.
Definition validate_cache_binding (receipt : QualifiedCompleteReplayReceiptV1)
    (m : QualifiedReplayCacheManifestV2) : res unit :=
  _ ← reject (negb (String.eqb (cm_receipt_sha256 m) (qr_receipt_sha256 receipt))
              || negb (String.eqb (cm_source_tree_sha256 m) (qr_source_tree_sha256 receipt))
              || negb (String.eqb (cm_replay_report_sha256 m) (rr_report_sha256 (qr_report receipt)))
              || negb (String.eqb (cm_symbol m) (rn_symbol (qr_selection receipt)))
              || negb (len (cm_identities m) =? ro_generations (rr_source (qr_report receipt))))
        "cache manifest is not bound to the selected receipt";
  _ ← try_map (binding_identity_turn receipt) (imap pair (cm_identities m));
  Ok ().

(** The one snapshot of the cache; [check] is the test of the caller on its event. *)
Definition snapshot_visit (check : CachedEvent → bool) (payload : option bytes) (event : CachedEvent)
    : res (option bytes) :=
  _ ← reject (negb (check event) || bool_decide (is_Some payload)) "cache snapshot cardinality is invalid";
  Ok (Some (ce_payload event)).
Definition cached_snapshot (t : tree) (root : string) (m : QualifiedReplayCacheManifestV2)
    (check : CachedEvent → bool) : res bytes :=
  payload ← visit_cache_events (snapshot_visit check) t root (cm_snapshot m) None;
  ok_or payload "cache contains no snapshot".

Definition replay_qualified_cache (t : tree) (receipt : QualifiedCompleteReplayReceiptV1) (root : string)
    : res CompleteRunReplayReportV1 :=
  _ ← validate_qualified_receipt receipt;
  root ← t_canonicalize t root;
  m ← load_cache_manifest t root false;
  _ ← validate_cache_binding receipt m;
  snapshot_payload ← cached_snapshot t root m (λ e, ce_generation_index e =? 0);
  _ ← replay_cached_depth t receipt root m snapshot_payload;
  _ ← replay_cached_trades t receipt root m;
  Ok (qr_report receipt).
End cache.

(** ** Theory *)

(** A record as it is appended: the generation, the segment and the raw record. *)
Notation cache_call := (Z * (Z * RawRecordEnvelopeV1))%type.

(** The fields fit the widths they are written with, and the record fits the reader. *)
Definition call_fits (call : cache_call) : Prop :=
  let f := re_frame call.2.2 in
  in_u64 call.1 ∧ in_u64 call.2.1 ∧ in_u64 (rf_frame_index f) ∧ in_u64 (rf_receive_wall_ns f) ∧
  in_u64 (rf_receive_mono_ns f) ∧ len (rf_payload f) + 108 ≤ MAX_CACHE_RECORD_BYTES.
#[global] Instance call_fits_dec call : Decision (call_fits call).
Proof. unfold call_fits, in_u64. apply _. Defined.

(** The bytes a record takes in the data file. *)
Definition call_bytes (call : cache_call) : Z := 144 + len (rf_payload (re_frame call.2.2)).

(** The event a reader makes of a record. *)
Definition event_of_call (record_ordinal offset : Z) (call : cache_call) : CachedEvent :=
  let f := re_frame call.2.2 in
  mkCachedEvent record_ordinal offset (offset + call_bytes call) call.1 call.2.1 (rf_frame_index f)
    (rf_receive_wall_ns f) (rf_receive_mono_ns f) (re_record_sha256 call.2.2) (rf_payload f).
Fixpoint events_from (record_ordinal offset : Z) (calls : list cache_call) : list CachedEvent :=
  match calls with
  | [] => []
  | call :: calls => event_of_call record_ordinal offset call
                       :: events_from (record_ordinal + 1) (offset + call_bytes call) calls
  end.
Definition cache_events (calls : list cache_call) : list CachedEvent := events_from 0 (len CACHE_MAGIC) calls.

Lemma read_exact_app n a b msg : len a = n → read_exact n (a ++ b) msg = Ok (a, b).
Proof.
  intros <-. unfold read_exact. rewrite len_app. pose proof (len_nonneg b).
  rewrite (proj2 (Z.ltb_ge _ _)) by lia. cbn [reject mbind res_bind]. unfold len. rewrite Nat2Z.id.
  by rewrite take_app_length, drop_app_length.
Qed.
Lemma len_be64 n : len (be64 n) = 8.
Proof. unfold len, be64. by rewrite length_to_be_bytes. Qed.
Lemma len_be32 n : len (be32 n) = 4.
Proof. unfold len, be32. by rewrite length_to_be_bytes. Qed.
Lemma from_be64 n : in_u64 n → from_be_bytes (be64 n) = n.
Proof. intros H. apply from_to_be_bytes. unfold in_u64, u64_max in H. lia. Qed.
Lemma from_be32 n : 0 ≤ n ≤ u32_max → from_be_bytes (be32 n) = n.
Proof. intros H. apply from_to_be_bytes. unfold u32_max in H. lia. Qed.
Lemma take_u64_be64 n rest : in_u64 n → take_u64 (be64 n ++ rest) = Ok (n, rest).
Proof.
  intros H. unfold take_u64. rewrite read_exact_app by apply len_be64. cbn [mbind res_bind]. by rewrite from_be64.
Qed.
Lemma digest_bytes s : is_digest s = true → len (str_bytes s) = 64 ∧ String.string_of_list_byte (str_bytes s) = s.
Proof.
  unfold is_digest, str_bytes. intros [H _]%andb_true_iff. apply Nat.eqb_eq in H.
  rewrite String.string_of_list_byte_of_string. split; [|done]. unfold len.
  assert (length (String.list_byte_of_string s) = String.length s) as ->; [|by rewrite H].
  clear. unfold String.list_byte_of_string. rewrite List.length_map.
  induction s as [|c s IH]; [done|]. cbn. by rewrite IH.
Qed.

Section cache_theory.
Context `{Hsha : Sha256} `{!Sha256Laws Hsha} `{Hval : SerdeValue} `{!SerdeValueLaws Hval}.
Context `{Hobj : !SerdeObject} `{Hb64 : Base64} `{Hmb : Serde ManifestBodyV1}.
Context `{Hcte : Serde CanonicalTradeEvent} `{Hpm : Serde ProofDigestMaterial} `{Hproof : Serde RawGenerationHandoverProofV1}.
Context `{Hrep : Serde CompleteRunReplayReportV1} `{Hrec : Serde QualifiedCompleteReplayReceiptV1}.
Context `{Hinv : Serde (list QualifiedReplaySourceFileV1)}.
Context `{Hcm : Serde QualifiedReplayCacheManifestV2} `{Hcp : SerdePretty QualifiedReplayCacheManifestV2}.
Context `{!SerdePrettyLaws _ Hcm Hcp}.

(** *** What is written *)

(** A record in the data file, and the entries of the index for the records from
    [offset]. *)
Definition call_body (call : cache_call) : bytes := cache_body call.1 call.2.1 call.2.2.
Definition call_data (call : cache_call) : bytes := encode_record (call_body call) (sha256 (call_body call)).
Fixpoint index_from (offset : Z) (calls : list cache_call) : bytes :=
  match calls with
  | [] => []
  | call :: calls => cache_index_entry offset call.1 call.2.1 call.2.2 ++ index_from (offset + call_bytes call) calls
  end.
Definition calls_bytes (calls : list cache_call) : Z := foldr (λ call n, call_bytes call + n) 0 calls.

Lemma len_call_body call :
  is_digest (re_record_sha256 call.2.2) = true → len (call_body call) = 108 + len (rf_payload (re_frame call.2.2)).
Proof.
  intros H. unfold call_body, cache_body. rewrite !len_app, !len_be64, len_be32, (proj1 (digest_bytes _ H)). lia.
Qed.
Lemma call_data_parts call :
  call_data call = be32 (len (call_body call)) ++ call_body call ++ sha256 (call_body call).
Proof. done. Qed.

#[local] Opaque be64 be32.

Lemma cache_append_Ok w g i r w' :
  cache_append w g i r = Ok w' → let call := (g, (i, r)) in
  is_digest (re_record_sha256 r) = true ∧ kw_records w + 1 ≤ u64_max ∧
  kw_data_offset w + call_bytes call ≤ u64_max ∧
  w' = mkCacheWriter (kw_stream_kind w) (kw_data w ++ call_data call)
         (kw_index w ++ index_from (kw_data_offset w) [call]) (kw_data_offset w + call_bytes call) (kw_records w + 1).
Proof.
  unfold cache_append. intros ([] & Hd%reject_Ok & H)%res_bind_Ok. apply negb_false_iff in Hd.
  do 2 apply res_bind_Ok in H as ([] & _ & H).
  apply res_bind_Ok in H as (n & Hn%ok_or_Ok & H). apply bind_Some in Hn as (m & [_ ->]%checked_add_Some & [_ ->]%checked_add_Some).
  apply res_bind_Ok in H as (o & [Ho ->]%ok_or_Ok%checked_add_Some & H).
  apply res_bind_Ok in H as (k & [Hk ->]%ok_or_Ok%checked_add_Some & [= <-]).
  pose proof (len_call_body (g, (i, r)) Hd) as Hl. unfold call_body in Hl. cbn [fst snd] in Hl.
  unfold call_bytes. cbn zeta. cbn [fst snd]. rewrite Hl in Ho. split_and!; [done..|lia|].
  cbn [index_from fst snd]. rewrite app_nil_r. f_equal. rewrite Hl. lia.
Qed.

(** A writer behind [calls]. *)
Definition written (w : CacheWriter) (calls : list cache_call) (w' : CacheWriter) : Prop :=
  Forall (λ call, is_digest (re_record_sha256 call.2.2) = true) calls ∧
  kw_records w + len calls ≤ Z.max (kw_records w) u64_max ∧
  kw_data_offset w + calls_bytes calls ≤ Z.max (kw_data_offset w) u64_max ∧
  w' = mkCacheWriter (kw_stream_kind w) (kw_data w ++ (calls ≫= call_data))
         (kw_index w ++ index_from (kw_data_offset w) calls) (kw_data_offset w + calls_bytes calls)
         (kw_records w + len calls).

Lemma calls_bytes_nonneg calls : 0 ≤ calls_bytes calls.
Proof.
  induction calls as [|c calls IH]; [done|]. cbn [calls_bytes foldr]. fold (calls_bytes calls). unfold call_bytes.
  pose proof (len_nonneg (rf_payload (re_frame c.2.2))). lia.
Qed.

Lemma cache_appends calls w w' :
  try_fold (sink_call cache_append) w calls = Ok w' → written w calls w'.
Proof.
  revert w. induction calls as [|[g [i r]] calls IH]; intros w H.
  { injection H as <-. unfold written. cbn [mbind list_bind index_from calls_bytes foldr].
    rewrite !app_nil_r, len_none, !Z.add_0_r. split_and!; [constructor|lia..|by destruct w]. }
  cbn [try_fold] in H. apply res_bind_Ok in H as (w1 & H1 & H).
  change (sink_call cache_append w (g, (i, r))) with (cache_append w g i r) in H1.
  apply cache_append_Ok in H1 as (Hd & Hr & Ho & ->). apply IH in H as (HF & Hr' & Ho' & ->).
  cbn [kw_records kw_data_offset kw_stream_kind kw_data kw_index] in *. unfold written. rewrite len_cons.
  cbn [calls_bytes foldr]. fold (calls_bytes calls). pose proof (calls_bytes_nonneg calls).
  split_and!; [by constructor|lia..|]. cbn [mbind list_bind index_from fst snd]. rewrite app_nil_r, <-!app_assoc.
  f_equal; lia.
Qed.

(** *** What is read back *)

Lemma decode_cache_body call :
  is_digest (re_record_sha256 call.2.2) = true → call_fits call → let f := re_frame call.2.2 in
  decode_body (call_body call) = Ok (call.1, call.2.1, rf_frame_index f, rf_receive_wall_ns f,
    rf_receive_mono_ns f, re_record_sha256 call.2.2, rf_payload f).
Proof.
  intros Hd (Hg & Hi & Hf & Hw & Hm & Hp). cbn zeta. unfold decode_body, call_body, cache_body.
  do 5 (rewrite take_u64_be64 by done; cbn [mbind res_bind]).
  destruct (digest_bytes _ Hd) as [Hl E]. rewrite read_exact_app by done. cbn [mbind res_bind].
  rewrite E, Hd. cbn [negb reject mbind res_bind]. rewrite read_exact_app by apply len_be32. cbn [mbind res_bind].
  pose proof (len_nonneg (rf_payload (re_frame call.2.2))).
  rewrite from_be32 by (unfold MAX_CACHE_RECORD_BYTES in Hp; unfold u32_max; lia). by rewrite Z.eqb_refl.
Qed.

Lemma index_entry_chunks offset call rest :
  in_u64 offset → call_fits call → let f := re_frame call.2.2 in
  ∃ entry, read_exact INDEX_ENTRY_BYTES (cache_index_entry offset call.1 call.2.1 call.2.2 ++ rest)
             "cache index entry is truncated" = Ok (entry, rest) ∧
    be_chunks 6 entry = [offset; call.1; call.2.1; rf_frame_index f; rf_receive_wall_ns f; rf_receive_mono_ns f].
Proof.
  intros Ho (Hg & Hi & Hf & Hw & Hm & _). cbn zeta. eexists. split.
  { apply read_exact_app. unfold cache_index_entry. rewrite !len_app, !len_be64. done. }
  assert (∀ x b, take 8 (be64 x ++ b) = be64 x ∧ drop 8 (be64 x ++ b) = b) as Hc.
  { intros x b. assert (length (be64 x) = 8%nat) as <- by (pose proof (len_be64 x) as Hx; unfold len in Hx; lia).
    by rewrite take_app_length, drop_app_length. }
  unfold cache_index_entry. cbn [be_chunks].
  do 5 (rewrite (proj1 (Hc _ _)), (proj2 (Hc _ _))). rewrite <-(app_nil_r (be64 (rf_receive_mono_ns _))), (proj1 (Hc _ _)).
  by rewrite !from_be64.
Qed.

Lemma read_call_data call rest :
  is_digest (re_record_sha256 call.2.2) = true → call_fits call →
  read_cache_record (call_data call ++ rest) = Ok (call_body call, sha256 (call_body call), rest).
Proof.
  intros Hd (_ & _ & _ & _ & _ & Hp). unfold read_cache_record. rewrite call_data_parts.
  pose proof (len_call_body call Hd) as Hl. pose proof (len_nonneg (rf_payload (re_frame call.2.2))).
  rewrite <-!app_assoc, read_exact_app by apply len_be32. cbn [mbind res_bind].
  rewrite from_be32 by (rewrite Hl; unfold MAX_CACHE_RECORD_BYTES in Hp; unfold u32_max; lia).
  rewrite (proj2 (Z.leb_le 108 _)), (proj2 (Z.leb_le _ MAX_CACHE_RECORD_BYTES)) by lia. cbn [andb negb reject mbind res_bind].
  rewrite read_exact_app by done. cbn [mbind res_bind]. rewrite read_exact_app; [done|].
  unfold len. by rewrite length_sha256.
Qed.

Section visit_theory.
Context {A : Type} (visit : A → CachedEvent → res A).

Lemma visit_loop_calls calls ordinal offset rest rest' s :
  Forall (λ call, is_digest (re_record_sha256 call.2.2) = true) calls → Forall call_fits calls →
  0 ≤ offset → offset + calls_bytes calls ≤ u64_max →
  visit_loop visit (length calls) ordinal offset ((calls ≫= call_data) ++ rest) (index_from offset calls ++ rest') s
  = (s' ← try_fold visit s (events_from ordinal offset calls); Ok (s', offset + calls_bytes calls, rest, rest')).
Proof.
  intros Hds Hfs. revert ordinal offset s. induction calls as [|call calls IH]; intros ordinal offset s H0 Hmax.
  { cbn [length visit_loop mbind list_bind app index_from events_from try_fold res_bind calls_bytes foldr].
    by rewrite Z.add_0_r. }
  apply Forall_cons in Hds as [Hd Hds], Hfs as [Hf Hfs]. cbn [calls_bytes foldr] in Hmax |- *.
  fold (calls_bytes calls) in Hmax |- *. pose proof (calls_bytes_nonneg calls).
  assert (0 < call_bytes call) as Hpos by (unfold call_bytes; pose proof (len_nonneg (rf_payload (re_frame call.2.2))); lia).
  cbn [length visit_loop]. change ((call :: calls) ≫= call_data) with (call_data call ++ (calls ≫= call_data)). rewrite <-app_assoc, read_call_data by done. cbn [mbind res_bind].
  rewrite decode_cache_body by done. cbn [mbind res_bind index_from]. rewrite <-app_assoc.
  destruct (index_entry_chunks offset call (index_from (offset + call_bytes call) calls ++ rest')) as (entry & E1 & E2);
    [unfold in_u64; lia|done|]. rewrite E1. cbn [mbind res_bind]. rewrite E2, bool_decide_eq_true_2 by done. cbn [negb reject mbind res_bind].
  rewrite len_call_body by done.
  replace (4 + (108 + len (rf_payload (re_frame call.2.2))) + 32) with (call_bytes call) by (unfold call_bytes; lia).
  rewrite checked_add_fits by lia. cbn [ok_or mbind res_bind events_from try_fold].
  fold (event_of_call ordinal offset call).
  destruct (visit s (event_of_call ordinal offset call)) as [s1| |]; cbn [mbind res_bind]; [|done..].
  rewrite (IH Hds Hfs) by lia. by rewrite Z.add_assoc.
Qed.
End visit_theory.

Lemma len_index offset calls : len (index_from offset calls) = INDEX_ENTRY_BYTES * len calls.
Proof.
  revert offset. induction calls as [|c calls IH]; intros offset; [done|]. cbn [index_from].
  rewrite len_cons, len_app, IH. unfold cache_index_entry. rewrite !len_app, !len_be64. unfold INDEX_ENTRY_BYTES. lia.
Qed.

(** The files of a cache stream in a tree, as a writer left them. *)
Definition stream_files (t : tree) (root : string) (w : CacheWriter) : Prop :=
  t_files t !! path_join root (data_name (kw_stream_kind w)) = Some (kw_data w) ∧
  t_files t !! path_join root (index_name (kw_stream_kind w)) = Some (kw_index w).
Definition cache_kind (kind : string) : Prop := kind = "snapshot"%string ∨ kind = "depth"%string ∨ kind = "trade"%string.

Lemma cache_leafs root kind :
  cache_kind kind → cache_leaf root (data_name kind) = Ok (path_join root (data_name kind)) ∧
  cache_leaf root (index_name kind) = Ok (path_join root (index_name kind)).
Proof. by intros [->|[->| ->]]. Qed.

Lemma cache_finish_Ok w artifact :
  cache_finish w = Ok artifact →
  artifact = mkCacheArtifact (kw_stream_kind w) (data_name (kw_stream_kind w)) (len (kw_data w))
    (hex (sha256 (kw_data w))) (index_name (kw_stream_kind w)) (len (kw_index w)) (hex (sha256 (kw_index w)))
    (kw_records w) ∧
  len (kw_data w) = kw_data_offset w ∧
  index_size (kw_records w) INDEX_ENTRY_BYTES "cache index size overflow" = Ok (len (kw_index w)).
Proof.
  unfold cache_finish, index_size. intros (n & Hn & H)%res_bind_Ok.
  apply res_bind_Ok in Hn as (e & He%ok_or_Ok & Hs%ok_or_Ok). apply res_bind_Ok in H as ([] & Hg%reject_Ok & [= <-]).
  split_orb. rewrite He. cbn [ok_or mbind res_bind]. rewrite Hs. cbn [ok_or]. split_and!; [done|lia|f_equal; lia].
Qed.

Lemma visit_written {A} (visit : A → CachedEvent → res A) kind calls w artifact t root s :
  cache_kind kind → try_fold (sink_call cache_append) (cache_create kind) calls = Ok w →
  cache_finish w = Ok artifact → Forall call_fits calls → stream_files t root w →
  visit_cache_events visit t root artifact s = try_fold visit s (cache_events calls).
Proof.
  intros Hkind Hw Hfin Hfits [Hdata Hindex]. apply cache_appends in Hw as (Hds & Hr & Ho & ->).
  cbn [cache_create kw_stream_kind kw_data kw_index kw_data_offset kw_records] in *.
  apply cache_finish_Ok in Hfin as (-> & Hlen & _).
  cbn [kw_stream_kind kw_data kw_index kw_data_offset kw_records] in *.
  destruct (cache_leafs root _ Hkind) as [El1 El2].
  unfold visit_cache_events. cbn [ca_data_file ca_index_file ca_records ca_data_bytes ca_data_sha256 ca_index_sha256].
  unfold open_file. rewrite El1, El2. cbn [mbind res_bind]. rewrite Hdata, Hindex. cbn [ok_or mbind res_bind].
  do 2 (rewrite read_exact_app by done; cbn [mbind res_bind]; rewrite bool_decide_eq_true_2 by done; cbn [negb reject mbind res_bind]).
  replace (Z.to_nat (0 + len calls)) with (length calls) by (unfold len; lia).
  change (len CACHE_MAGIC) with 8 in *. pose proof (visit_loop_calls visit calls 0 8 [] [] s Hds Hfits) as Hloop.
  rewrite !app_nil_r in Hloop. rewrite Hloop by (unfold u64_max in *; lia).
  fold (cache_events calls). unfold cache_events. change (len CACHE_MAGIC) with 8.
  destruct (try_fold visit s (events_from 0 8 calls)) as [s'| |]; cbn [mbind res_bind]; [|done..].
  rewrite !bool_decide_eq_true_2 by done. rewrite Hlen, Z.eqb_refl, !String.eqb_refl. done.
Qed.

(** C21: what is appended to a cache stream is what a reader of the stream sees. When a
    writer accepted [calls] and finished, then in every tree that holds its two files the
    reader accepts both files, visits exactly the appended records in order, each with its
    ordinal, its byte range in the data file and all fields of the raw record that the cache
    keeps, and its result is that of the visitor. Every record is within the size limit of
    the reader ([call_fits]), which the writer does not test. *)
Theorem cache_stream_round_trip {A} (visit : A → CachedEvent → res A) kind calls w artifact t root s :
  cache_kind kind → try_fold (sink_call cache_append) (cache_create kind) calls = Ok w →
  cache_finish w = Ok artifact → Forall call_fits calls → stream_files t root w →
  visit_cache_events visit t root artifact s = try_fold visit s (cache_events calls).
Proof. apply visit_written. Qed.

(** *** The loop over the events of a chain of generations *)

(** An event that carries a record of a generation. *)
Definition carries (e : CachedEvent) (call : cache_call) : Prop :=
  ce_generation_index e = call.1 ∧ ce_frame_index e = rf_frame_index (re_frame call.2.2) ∧
  ce_payload e = rf_payload (re_frame call.2.2).
Lemma events_carry ordinal offset calls : Forall2 carries (events_from ordinal offset calls) calls.
Proof. revert ordinal offset. induction calls as [|c calls IH]; intros ordinal offset; constructor; [done|apply IH]. Qed.

Definition counts_of (sel : list RawRecordEnvelopeV1) : GenerationCounts :=
  mkCounts (rf_frame_index ∘ re_frame <$> head sel) (rf_frame_index ∘ re_frame <$> last sel) (len sel)
    (len (data_frames sel)) (len sel - len (data_frames sel)).

Lemma len_data_frames l : 0 ≤ len (data_frames l) ≤ len l.
Proof.
  unfold data_frames. split; [apply len_nonneg|]. rewrite <-(len_fmap re_frame l). unfold len.
  pose proof (List.filter_length_le is_data (re_frame <$> l)). lia.
Qed.

Lemma data_frames_snoc l r :
  data_frames (l ++ [r]) = data_frames l ++ (if is_data (re_frame r) then [re_frame r] else []).
Proof. by rewrite data_frames_app, data_frames_one. Qed.

Lemma observe_frame_counts sel r :
  len sel + 1 ≤ u64_max →
  observe_frame (counts_of sel) (rf_frame_index (re_frame r)) (negb (is_data (re_frame r)))
  = Ok (counts_of (sel ++ [r])).
Proof.
  intros Hmax. unfold observe_frame, counts_of. cbn [gc_raw gc_controls gc_market gc_first gc_last].
  pose proof (len_data_frames sel). rewrite (add_u64_fits (len sel)) by done. cbn [mbind res_bind].
  rewrite data_frames_snoc, last_snoc, !len_app, len_one.
  assert (rf_frame_index ∘ re_frame <$> head (sel ++ [r])
          = get_or_insert (rf_frame_index ∘ re_frame <$> head sel) (rf_frame_index (re_frame r))) as -> by by destruct sel.
  destruct (is_data (re_frame r)); cbn [negb]; rewrite add_u64_fits by lia; cbn [mbind res_bind];
    rewrite ?len_one, ?len_none; f_equal; f_equal; lia.
Qed.

Section cached_theory.
Context {B K : Type} (finish : Z → GenerationCounts → B → res K).
Context (visit : cached_state B K → CachedEvent → res (cached_state B K)).
Context (step : B → RawFrame → res B) (a0 : B) (limit : Z) (good : RawRecordEnvelopeV1 → Prop).

(** The state at a generation of which [sel] was visited, behind [all] in total. *)
Definition cached_at (generation : Z) (sel all : list RawRecordEnvelopeV1) (a : B) (out : list K) : cached_state B K :=
  mkCached generation (counts_of sel) (len all - len (data_frames all)) (len (data_frames all)) a out.

(** What a visit does with a record, once the generations before it are finished. *)
Definition visits : Prop :=
  ∀ s e call sel all a a' out,
    let r := call.2.2 in
    carries e call → 0 ≤ call.1 < limit → cz_generation s ≤ call.1 →
    advance_generation finish call.1 s = Ok (cached_at call.1 sel all a out) →
    good r → len all + 1 ≤ u64_max → len sel ≤ len all → try_fold step a0 (data_frames all) = Ok a →
    (if is_data (re_frame r) then step a (re_frame r) = Ok a' else a' = a) →
    visit s e = Ok (cached_at call.1 (sel ++ [r]) (all ++ [r]) a' out).

Lemma finish_rounds_add n m s :
  finish_rounds finish (n + m) s = (s1 ← finish_rounds finish n s; finish_rounds finish m s1).
Proof.
  revert s. induction n as [|n IH]; intros s; [done|]. cbn [Nat.add finish_rounds].
  destruct (finish _ _ _); cbn [mbind res_bind]; [apply IH|done..].
Qed.
Lemma finish_rounds_generation n s s' :
  finish_rounds finish n s = Ok s' → cz_generation s' = cz_generation s + Z.of_nat n.
Proof.
  revert s. induction n as [|n IH]; intros s; [intros [= <-]; lia|]. cbn [finish_rounds].
  intros (k & _ & H)%res_bind_Ok. apply IH in H. cbn [cz_generation] in H. lia.
Qed.
Lemma advance_next g s :
  cz_generation s ≤ g →
  advance_generation finish (g + 1) s = (s1 ← advance_generation finish g s; finish_rounds finish 1 s1).
Proof.
  intros H. unfold advance_generation. rewrite <-finish_rounds_add. f_equal. lia.
Qed.
Lemma advance_here s : advance_generation finish (cz_generation s) s = Ok s.
Proof. unfold advance_generation. by rewrite Z.sub_diag. Qed.

Hypothesis Hvisit : visits.

(** The events of one generation. *)
Lemma cached_group g s trs es sel all a a' out :
  Forall2 carries es ((λ tr, (g, tr)) <$> trs) → 0 ≤ g < limit → cz_generation s ≤ g →
  advance_generation finish g s = Ok (cached_at g sel all a out) →
  Forall good trs.*2 → len all + len trs ≤ u64_max → len sel ≤ len all →
  try_fold step a0 (data_frames all) = Ok a → try_fold step a (data_frames trs.*2) = Ok a' →
  ∃ s', try_fold visit s es = Ok s' ∧ cz_generation s' ≤ g ∧
    advance_generation finish g s' = Ok (cached_at g (sel ++ trs.*2) (all ++ trs.*2) a' out).
Proof.
  revert s es sel all a. induction trs as [|tr trs IH]; intros s es sel all a HF Hg Hs Hadv Hrd Hmax Hle Hall Hst.
  { apply Forall2_nil_inv_r in HF as ->. injection Hst as <-. exists s. rewrite !app_nil_r. done. }
  rewrite fmap_cons in HF. apply Forall2_cons_inv_r in HF as (e & es' & He & HF & ->).
  rewrite fmap_cons in Hrd, Hst |- *. apply Forall_cons in Hrd as [Hr Hrd]. rewrite len_cons in Hmax. pose proof (len_nonneg trs).
  rewrite <-(app_nil_l (tr.2 :: trs.*2)) in Hst. change (tr.2 :: trs.*2) with ([tr.2] ++ trs.*2) in Hst |- *.
  rewrite app_nil_l, data_frames_app, data_frames_one, try_fold_app in Hst. apply res_bind_Ok in Hst as (a1 & H1 & Hst).
  assert (if is_data (re_frame tr.2) then step a (re_frame tr.2) = Ok a1 else a1 = a) as Hstep.
  { destruct (is_data (re_frame tr.2)); [by apply res_bind_Ok in H1 as (? & ? & [= <-])|by injection H1]. }
  pose proof (Hvisit s e (g, tr) sel all a a1 out He Hg Hs Hadv Hr ltac:(lia) Hle Hall Hstep) as Hv.
  cbn [fst snd] in Hv. cbn [try_fold]. rewrite Hv. cbn [mbind res_bind]. rewrite !(assoc_L (++)).
  apply (IH _ _ _ _ a1); try done.
  - apply (advance_here (cached_at g (sel ++ [tr.2]) (all ++ [tr.2]) a1 out)).
  - rewrite len_app, len_one. lia.
  - rewrite !len_app, len_one. lia.
  - rewrite data_frames_snoc, try_fold_app, Hall. done.
Qed.

(** The events of all generations: behind the last one every generation is finished with
    its checkpoint. *)
Lemma cached_chain generations sels ks a' es :
  (∀ n g, generations !! n = Some g → gs_index g = Z.of_nat n) → length generations = length sels →
  Forall2 carries es (sink_calls generations sels) → Forall good (concat sels).*2 →
  len (concat sels) ≤ u64_max → len sels ≤ limit →
  try_fold step a0 (data_frames (concat sels).*2) = Ok a' → length ks = length sels →
  (∀ n sel k a1, sels !! n = Some sel → ks !! n = Some k →
     try_fold step a0 (data_frames (concat (take (S n) sels)).*2) = Ok a1 →
     finish (Z.of_nat n) (counts_of sel.*2) a1 = Ok k) →
  ∃ s, try_fold visit (cached_at 0 [] [] a0 []) es = Ok s ∧ cz_generation s ≤ len sels ∧
    advance_generation finish (len sels) s = Ok (cached_at (len sels) [] (concat sels).*2 a' ks).
Proof.
  revert generations ks a' es. induction sels as [|sel sels IH] using rev_ind;
    intros generations ks a' es Hidx Hlg HF Hrd Hmax Hlim Hst Hlk Hfin.
  { destruct generations; [|done]. apply Forall2_nil_inv_r in HF as ->. destruct ks; [|done]. injection Hst as <-.
    eexists. split_and!; [done|done|]. apply (advance_here (cached_at 0 [] [] a0 [])). }
  rewrite length_app in Hlg, Hlk. cbn [length] in Hlg, Hlk.
  destruct generations as [|g generations _] using rev_ind; [cbn in Hlg; lia|].
  destruct ks as [|k ks _] using rev_ind; [cbn in Hlk; lia|].
  rewrite length_app in Hlg, Hlk. cbn [length] in Hlg, Hlk.
  assert (length generations = length sels) as Hlg' by lia. assert (length ks = length sels) as Hlk' by lia.
  rewrite sink_calls_snoc in HF by done. apply Forall2_app_inv_r in HF as (es1 & es2 & HF1 & HF2 & ->).
  rewrite concat_app, fmap_app in Hrd, Hst |- *. cbn [concat] in Hrd, Hst |- *. rewrite app_nil_r in Hrd, Hst |- *.
  apply Forall_app in Hrd as [Hrd1 Hrd2]. rewrite concat_app, len_app in Hmax. cbn [concat] in Hmax. rewrite app_nil_r in Hmax.
  rewrite len_app, len_one in Hlim |- *. pose proof (len_nonneg sel). pose proof (len_nonneg sels).
  rewrite data_frames_app, try_fold_app in Hst. apply res_bind_Ok in Hst as (a1 & Hst1 & Hst2).
  destruct (IH generations ks a1 es1) as (s & Hs & Hgen & Hadv); try done; try lia.
  { intros n g' Hn. apply Hidx. by apply lookup_app_l_Some. }
  { intros n sel' k' a2 Hsel Hk Ha2. apply Hfin; [by apply lookup_app_l_Some..|].
    rewrite take_app_le; [done|]. apply lookup_lt_Some in Hsel. lia. }
  assert (gs_index g = len sels) as Hg.
  { rewrite (Hidx (length generations)); [unfold len; lia|]. by rewrite lookup_app_r, Nat.sub_diag by done. }
  rewrite Hg in HF2.
  destruct (cached_group (len sels) s sel es2 [] (concat sels).*2 a1 a' ks) as (s' & Hs' & Hgen' & Hadv'); try done.
  { lia. } { by rewrite len_fmap. } { apply len_nonneg. }
  exists s'. rewrite try_fold_app, Hs. cbn [mbind res_bind]. split_and!; [done|lia|].
  rewrite advance_next, Hadv' by lia. cbn [mbind res_bind finish_rounds cached_at cz_generation cz_counts cz_stream].
  pose proof (Hfin (length sels) sel k a') as Hk. fold (len sels) in Hk. rewrite app_nil_l, Hk.
  - done.
  - by rewrite lookup_app_r, Nat.sub_diag by done.
  - by rewrite lookup_app_r, Hlk', Nat.sub_diag by lia.
  - rewrite take_ge by (rewrite length_app; cbn; lia). rewrite concat_app. cbn [concat].
    rewrite app_nil_r, fmap_app, data_frames_app, try_fold_app, Hst1. done.
Qed.
End cached_theory.

(** *** Visits *)

Lemma depth_steps_count frames b0 a :
  try_fold depth_select_step (mkDepthAcc b0 0 0 None) frames = Ok a → da_applied a + da_old a = len frames ∧
  0 ≤ da_applied a ∧ 0 ≤ da_old a.
Proof.
  intros H. apply (try_fold_prefix (λ pre s, da_applied s + da_old s = len pre ∧ 0 ≤ da_applied s ∧ 0 ≤ da_old s)
    _ _ []) in H; [done|done|].
  clear H a. intros pre f a a' _ (H & Ha & Ho). unfold depth_select_step, Replay.depth_step.
  intros (da & Hda & [= <-])%res_bind_Ok. destruct (apply_depth _ _) as [bk [o| |]]; [|done..].
  cbn [mbind res_bind] in Hda. rewrite len_app, len_one.
  destruct o; injection Hda as <-; cbn [da_applied da_old]; lia.
Qed.

Lemma cached_front_visit {B K} (finish : Z → GenerationCounts → B → res K) label identities s e call sel all a out :
  let r := call.2.2 in
  carries e call → 0 ≤ call.1 < identities → cz_generation s ≤ call.1 →
  advance_generation finish call.1 s = Ok (cached_at call.1 sel all a out) →
  readable r → len all + 1 ≤ u64_max → len sel ≤ len all →
  ∃ v, value_from_slice (rf_payload (re_frame r)) = inr v ∧
    cached_front finish label identities s e
    = Ok (mkCached call.1 (counts_of (sel ++ [r])) (len all - len (data_frames all)) (len (data_frames all)) a out,
          v, negb (is_data (re_frame r))).
Proof.
  intros r (Eg & Ef & Ep) Hg Hs Hadv (v & b & Hv & Hb) Hmax Hle. exists v. split; [done|].
  pose proof (is_server_shutdown_Ok _ _ _ Hv Hb) as Hd. unfold cached_front. rewrite Eg, Ep.
  rewrite (proj2 (Z.leb_gt _ _)), (proj2 (Z.ltb_ge _ _)) by lia. cbn [orb reject mbind res_bind]. rewrite Hadv.
  cbn [mbind res_bind]. fold r. rewrite Hv. cbn [map_err mbind res_bind]. rewrite Hb. cbn [mbind res_bind].
  replace b with (negb (is_data (re_frame r))) by (rewrite Hd; by destruct b).
  cbn [cached_at cz_counts cz_generation cz_controls cz_market cz_stream cz_output]. rewrite Ef. fold r.
  rewrite observe_frame_counts by lia. done.
Qed.

Lemma depth_visits identities b0 :
  visits (finish_depth_generation identities) (cached_depth_visit identities) depth_select_step
    (mkDepthAcc b0 0 0 None) (len identities) readable.
Proof.
  intros s e call sel all a a' out r He Hg Hs Hadv Hr Hmax Hle Hall Hstep.
  destruct (cached_front_visit _ "depth" (len identities) s e call sel all a out He Hg Hs Hadv Hr Hmax Hle)
    as (v & Hv & Hfront). fold r in Hv, Hfront.
  unfold cached_depth_visit. rewrite Hfront. cbn [mbind res_bind]. pose proof (len_data_frames all).
  unfold cached_at. rewrite data_frames_snoc, !len_app, len_one.
  destruct (is_data (re_frame r)) eqn:Hd; cbn [negb].
  - unfold count_cached_market. cbn [cz_market cz_generation cz_counts cz_controls cz_stream cz_output].
    rewrite (add_u64_fits (len (data_frames all))) by lia. cbn [mbind res_bind cz_market cz_generation cz_counts cz_controls cz_stream cz_output].
    unfold depth_select_step, Replay.depth_step in Hstep.
    assert (apply_depth (rf_payload (re_frame r)) (da_book a) = apply_depth_value v (da_book a)) as E
      by (unfold apply_depth; by rewrite Hv). rewrite E in Hstep.
    destruct (apply_depth_value v (da_book a)) as [bk [o| |]]; [|done..]. cbn [mbind res_bind] in Hstep |- *.
    destruct (depth_steps_count _ _ _ Hall) as (Hsum & Hpa & Hpo).
    rewrite len_one. destruct o; cbn [mbind res_bind] in Hstep; injection Hstep as <-; rewrite add_u64_fits by lia;
      cbn [mbind res_bind]; f_equal; f_equal; lia.
  - subst a'. unfold count_cached_control. cbn [cz_market cz_generation cz_counts cz_controls cz_stream cz_output].
    rewrite add_u64_fits by lia. cbn [mbind res_bind]. rewrite len_none. f_equal. f_equal; lia.
Qed.

Lemma trade_visits symbol identities :
  visits (finish_trade_generation identities) (cached_trade_visit symbol identities) (id_step selected_trade_id)
    (None, None) (len identities) (λ r, readable r ∧ rf_symbol (re_frame r) = symbol).
Proof.
  intros s e call sel all a a' out r He Hg Hs Hadv [Hr Hsym] Hmax Hle Hall Hstep.
  destruct (cached_front_visit _ "trade" (len identities) s e call sel all a out He Hg Hs Hadv Hr Hmax Hle)
    as (v & Hv & Hfront). fold r in Hv, Hfront.
  unfold cached_trade_visit. rewrite Hfront. cbn [mbind res_bind]. pose proof (len_data_frames all).
  unfold cached_at. rewrite data_frames_snoc, !len_app, len_one.
  destruct (is_data (re_frame r)) eqn:Hd; cbn [negb].
  - unfold id_step, selected_trade_id in Hstep. rewrite Hv in Hstep. cbn [map_err mbind res_bind] in Hstep.
    rewrite Hsym in Hstep. apply res_bind_Ok in Hstep as (id & Hid & Hstep). rewrite Hid.
    apply res_bind_Ok in Hstep as ([] & Hord & [= <-]). cbn [mbind res_bind cz_stream].
    apply reject_Ok in Hord. rewrite Hord. cbn [reject mbind res_bind].
    unfold count_cached_market. cbn [cz_market cz_generation cz_counts cz_controls cz_stream cz_output].
    rewrite add_u64_fits by lia. cbn [mbind res_bind]. rewrite len_one. f_equal. f_equal; lia.
  - subst a'. unfold count_cached_control. cbn [cz_market cz_generation cz_counts cz_controls cz_stream cz_output].
    rewrite add_u64_fits by lia. cbn [mbind res_bind]. rewrite len_none. f_equal. f_equal; lia.
Qed.

(** *** The records of the source *)

Definition frame_fields (f : RawFrame) : Prop :=
  in_u64 (rf_frame_index f) ∧ in_u64 (rf_receive_wall_ns f) ∧ in_u64 (rf_receive_mono_ns f).

Lemma read_next_fields input p E E' f d n rest :
  read_next_raw_record input p E = (E', Ok (Some (f, d, n, rest))) → frame_fields f.
Proof.
  unfold read_next_raw_record. destruct (read_frame _ input) as [| | | | |body digest rest1]; try done.
  intros ([] & E1 & _ & H)%SE_bind_Ok. apply SE_bind_Ok in H as (v & E2 & _ & H).
  apply SE_bind_Ok in H as ([[fr d'] n'] & E3 & Hb & H). unfold mret, SE_ret in H. injection H as <- <- <- <- <-.
  unfold read_body in Hb. repeat (apply SE_bind_Ok in Hb as (? & ? & ? & Hb)).
  unfold mret, SE_ret in Hb. injection Hb as <- <- <- <-.
  repeat match goal with H : lift (required_u64 _ _) _ = _ |- _ =>
    unfold lift in H; injection H as ? H; apply required_u64_range in H end.
  unfold frame_fields. cbn [rf_frame_index rf_receive_wall_ns rf_receive_mono_ns]. done.
Qed.

Lemma records_loop_fields fuel input i o p E E' rs :
  records_loop fuel input i o p E = (E', Ok rs) → Forall (λ r, frame_fields (re_frame r)) rs.
Proof.
  revert input i o p E rs. induction fuel as [|fuel IH]; intros input i o p E rs; [done|].
  cbn [records_loop]. intros ([[[[f d] n] rest]|] & E1 & Hn & H)%SE_bind_Ok.
  - apply read_next_fields in Hn. apply SE_bind_Ok in H as (e & E2 & _ & H).
    apply SE_bind_Ok in H as (rs' & E3 & Hr & H). unfold mret, SE_ret in H. injection H as <- <-.
    constructor; [done|by eapply IH].
  - unfold mret, SE_ret in H. by injection H as <- <-.
Qed.
Lemma read_records_fields file rs : read_raw_records file = Ok rs → Forall (λ r, frame_fields (re_frame r)) rs.
Proof.
  unfold read_raw_records, read_raw_records_after_magic. intros (rest & _ & H)%res_bind_Ok.
  destruct (records_loop _ _ _ _ _ _) as [E r] eqn:El. cbn [snd] in H. subst r. by eapply records_loop_fields.
Qed.
Lemma read_segment_fields file g rs :
  read_raw_segment_records file g = Ok rs → Forall (λ r, frame_fields (re_frame r)) rs.
Proof.
  unfold read_raw_segment_records, read_raw_records_after_magic. intros ([] & _ & H)%res_bind_Ok.
  apply res_bind_Ok in H as (rest & _ & H). apply res_bind_Ok in H as (rs' & Hl & H).
  apply res_bind_Ok in H as ([] & _ & [= ->]). destruct (records_loop _ _ _ _ _ _) as [E r] eqn:El.
  cbn [snd] in Hl. subst r. by eapply records_loop_fields.
Qed.

Lemma chain_segment_u64 seals : manifest_chain seals → Forall (λ s, in_u64 (sl_segment_index s)) seals.
Proof.
  induction 1 as [|seals s Hc IH H]; [constructor|]. apply Forall_app. split; [done|]. constructor; [|constructor].
  pose proof (proj1 (transition_Ok _ _ _ _ H)) as Hn. pose proof (len_nonneg seals).
  split; [lia|]. unfold validate_manifest_transition in H. do 2 apply res_bind_Ok in H as ([] & ? & H).
  destruct (last seals) as [old|].
  - apply res_bind_Ok in H as (a & [Ha ->]%ok_or_Ok%checked_add_Some & H).
    apply res_bind_Ok in H as (b & _ & H%reject_Ok). split_orb. lia.
  - apply reject_Ok in H. split_orb. unfold u64_max. lia.
Qed.

(** A stream that was read: every record has fields of their width, comes from a segment with
    an index of that width and names the symbol of the generation. *)
Lemma stream_read_fields t g kind trs symbol :
  map_Forall (λ _ f, len f ≤ u64_max) (t_files t) → stream_read t g kind trs →
  text (gs_startup g) "symbol" "startup" = Ok symbol →
  Forall (λ tr, in_u64 tr.1 ∧ frame_fields (re_frame tr.2) ∧ rf_symbol (re_frame tr.2) = symbol) trs.
Proof.
  intros Hfs (identity & scan & rss & Hid & Hscan & _ & _ & HF & -> & Hval') Hsym.
  unfold scan_segment_manifest in Hscan. apply res_bind_Ok in Hscan as (file & Hf%ok_or_Ok & Hscan).
  apply Hfs in Hf. destruct (scan_manifest_spec (path_join (path_join (gs_root g) kind) "segments.bnseg") file Hf)
    as (sc & Hsc & Hc & _). assert (sc = scan) as -> by congruence.
  apply chain_segment_u64 in Hc. rewrite Forall_fmap in Hc.
  assert (Forall (λ tr, in_u64 tr.1 ∧ frame_fields (re_frame tr.2)) (tagged (ms_entries scan) rss)) as Hfields.
  { clear -HF Hc SerdeValueLaws0. unfold tagged. induction HF as [|e rs es rss H _ IH]; [constructor|].
    apply Forall_cons in Hc as [He Hc]. cbn [zip_with concat]. apply Forall_app. split; [|by apply IH].
    unfold single_pass_records in H. apply res_bind_Ok in H as (raw & _ & H). apply res_bind_Ok in H as (rs' & Hr & H).
    do 3 apply res_bind_Ok in H as (? & _ & H). injection H as ->. apply read_segment_fields in Hr.
    rewrite Forall_fmap. eapply Forall_impl; [exact Hr|]. done. }
  rewrite Forall_forall in Hfields, Hval' |- *. intros tr Htr. destruct (Hfields _ Htr) as [H1 H2].
  split_and!; [done..|]. specialize (Hval' _ Htr). unfold validate_frame in Hval'. apply reject_Ok in Hval'. split_orb.
  repeat match goal with H : String.eqb _ _ = true |- _ => apply String.eqb_eq in H end.
  rewrite <-(load_transport_symbol _ _ _ _ _ _ Hid Hsym). done.
Qed.

(** *** The build *)

Lemma context_facts t receipt gs ps :
  qualified_replay_context t receipt = Ok (gs, ps) →
  validate_qualified_receipt receipt = Ok () ∧ gs ≠ [] ∧
  ro_generations (rr_source (qr_report receipt)) = len gs ∧
  ∀ n g, gs !! n = Some g → gs_index g = Z.of_nat n ∧ in_u64 (gs_index g) ∧
    text (gs_startup g) "symbol" "startup" = Ok (rn_symbol (qr_selection receipt)).
Proof.
  unfold qualified_replay_context. intros ([] & Hv & H)%res_bind_Ok. split; [done|]. clear Hv.
  apply res_bind_Ok in H as (source & _ & H). do 2 apply res_bind_Ok in H as ([] & _ & H).
  apply res_bind_Ok in H as (manifest & _ & H). apply res_bind_Ok in H as (gs' & Hgs & H).
  apply res_bind_Ok in H as (ps' & _ & H). apply res_bind_Ok in H as ([] & _ & H).
  apply res_bind_Ok in H as ([] & Hn%reject_Ok & [= -> ->]). split_orb.
  unfold generation_sources in Hgs. apply res_bind_Ok in Hgs as (rows & _ & Hgs).
  apply res_bind_Ok in Hgs as (gs' & Hgs & Hne). apply res_bind_Ok in Hne as ([] & He%reject_Ok & [= ->]).
  split; [by destruct gs|]. split; [lia|]. intros n g Hg. apply try_map_Ok_Forall2 in Hgs.
  destruct (Forall2_lookup_r _ _ _ _ _ Hgs Hg) as ([n' row] & Hrow & Hturn).
  rewrite list_lookup_imap in Hrow. apply fmap_Some in Hrow as (row' & _ & [= -> ->]).
  unfold generation_source_turn in Hturn. clear H; apply res_bind_Ok in Hturn as (i & Hi & H).
  apply res_bind_Ok in H as ([] & Hn%reject_Ok & H). apply negb_false_iff, Z.eqb_eq in Hn.
  apply res_bind_Ok in H as (sid & _ & H). apply res_bind_Ok in H as (sd & _ & H).
  apply res_bind_Ok in H as (root & _ & H). apply res_bind_Ok in H as ([] & _ & H).
  apply res_bind_Ok in H as (startup & _ & H). apply res_bind_Ok in H as ([] & _ & H).
  apply res_bind_Ok in H as ([] & Hs%require_text_Ok & H). apply res_bind_Ok in H as ([] & _ & [= <-]).
  cbn [gs_index gs_startup]. split; [done|]. split.
  - unfold u64_field in Hi. apply ok_or_Ok in Hi. by apply as_u64_range in Hi.
  - unfold text in Hs |- *. by apply ok_or_Ok in Hs as ->.
Qed.

(** The payloads of the source are no longer than the raw records that carry them may be. *)
Definition small_visit (u : unit) (r : RawRecordEnvelopeV1) (segment_index : Z) : res unit :=
  reject (MAX_RECORD_BYTES <? len (rf_payload (re_frame r))) "payload".
Definition source_fits (t : tree) (receipt : QualifiedCompleteReplayReceiptV1) : bool :=
  match qualified_replay_context t receipt with
  | Ok (gs, _) =>
      forallb (λ g, is_ok (stream_records small_visit t g "depth" true ())
                    && is_ok (stream_records small_visit t g "trade" true ())
                    && match t_files t !! path_join (gs_root g) "snapshot.bnraw" with
                       | Some file => match read_raw_records file with
                                      | Ok rs => is_ok (try_fold (λ u r, small_visit u r 0) () rs)
                                      | _ => true
                                      end
                       | None => true
                       end) gs
  | _ => true
  end.

Lemma small_stream t g kind trs :
  is_ok (stream_records small_visit t g kind true ()) = true → stream_read t g kind trs →
  Forall (λ tr, len (rf_payload (re_frame tr.2)) ≤ MAX_RECORD_BYTES) trs.
Proof.
  intros H Hread. destruct (stream_records small_visit t g kind true ()) as [[]| |] eqn:E; [|done..].
  apply stream_records_single in E as (trs' & Hread' & Hfold). rewrite (stream_read_det _ _ _ _ _ Hread Hread').
  clear -Hfold. induction trs' as [|tr trs IH]; [constructor|]. cbn [try_fold] in Hfold.
  apply res_bind_Ok in Hfold as ([] & H1%reject_Ok & H2). constructor; [lia|by apply IH].
Qed.

Definition trade_or_depth (kind : string) : Prop := kind = "depth"%string ∨ kind = "trade"%string.

(** What the sinks of the build receive fits the cache. *)
Lemma source_calls_fit t receipt gs ps kind trss start_of end_of :
  map_Forall (λ _ f, len f ≤ u64_max) (t_files t) → source_fits t receipt = true →
  qualified_replay_context t receipt = Ok (gs, ps) → trade_or_depth kind →
  Forall2 (λ g trs, stream_read t g kind trs) gs trss →
  let sels := chosen start_of end_of trss in
  Forall call_fits (sink_calls gs sels) ∧
  Forall (λ r, rf_symbol (re_frame r) = rn_symbol (qr_selection receipt)) (concat sels).*2.
Proof.
  intros Hfs Hfit Hctx Hkind HF sels. unfold source_fits in Hfit. rewrite Hctx in Hfit.
  rewrite forallb_forall in Hfit.
  destruct (context_facts _ _ _ _ Hctx) as (_ & _ & _ & Hg).
  assert (∀ n g sel, gs !! n = Some g → sels !! n = Some sel → Forall (λ tr, call_fits (gs_index g, tr) ∧
            rf_symbol (re_frame tr.2) = rn_symbol (qr_selection receipt)) sel) as Hall.
  { intros n g sel Hgn Hsel. unfold sels, chosen in Hsel. rewrite list_lookup_imap in Hsel.
    apply fmap_Some in Hsel as (trs & Htrs & ->). pose proof (Forall2_lookup_lr _ _ _ _ _ _ HF Hgn Htrs) as Hread.
    destruct (Hg _ _ Hgn) as (_ & Hi & Hs). pose proof (stream_read_fields _ _ _ _ _ Hfs Hread Hs) as Hfields.
    assert (Forall (λ tr, len (rf_payload (re_frame tr.2)) ≤ MAX_RECORD_BYTES) trs) as Hsmall.
    { apply small_stream in Hread; [done|]. apply list_elem_of_lookup_2, list_elem_of_In in Hgn.
      apply Hfit in Hgn. rewrite !andb_true_iff in Hgn. destruct Hgn as [[Hd Ht] _]. by destruct Hkind as [->| ->]. }
    unfold select. apply Forall_forall. intros tr Htr. apply list_elem_of_In, filter_In in Htr as [Htr _].
    apply list_elem_of_In in Htr. rewrite Forall_forall in Hfields, Hsmall.
    destruct (Hfields _ Htr) as (H1 & (H2 & H3 & H4) & H5). specialize (Hsmall _ Htr).
    split; [|done]. unfold call_fits. cbn [fst snd]. unfold MAX_CACHE_RECORD_BYTES, MAX_RECORD_BYTES in *. split_and!; (done || lia). }
  assert (length gs = length sels) as Hlen by (unfold sels; rewrite length_chosen; by eapply Forall2_length).
  clearbody sels. clear -Hall Hlen. unfold sink_calls. revert sels Hall Hlen.
  induction gs as [|g gs IH]; intros [|sel sels] Hall Hlen; [by split; constructor|done..|].
  cbn [zip_with concat]. rewrite fmap_app. destruct (IH sels) as [H1 H2]; [intros n; apply (Hall (S n))|by injection Hlen|].
  pose proof (Hall 0%nat g sel eq_refl eq_refl) as H0.
  split; apply Forall_app; (split; [rewrite Forall_fmap|done]); (eapply Forall_impl; [exact H0|]); intros tr [? ?]; done.
Qed.

(** The identities of a manifest name the generations in order. *)
Definition identities_of (gs : list GenerationSource) (identities : list QualifiedReplayCacheIdentityV2) : Prop :=
  Forall2 (λ g i, cq_generation_index i = gs_index g ∧ cq_session_id i = gs_session_id g) gs identities.

Lemma length_sink_calls gs sels : length gs = length sels → len (sink_calls gs sels) = len (concat sels).
Proof.
  unfold sink_calls. revert sels. induction gs as [|g gs IH]; intros [|sel sels] H; try done.
  cbn [zip_with concat]. rewrite !len_app, len_fmap, IH by (by injection H). done.
Qed.

Lemma identity_at gs identities n g :
  identities_of gs identities → gs !! n = Some g →
  ∃ i, identities !! Z.to_nat (Z.of_nat n) = Some i ∧ cq_session_id i = gs_session_id g.
Proof.
  intros HF Hg. rewrite Nat2Z.id. destruct (Forall2_lookup_l _ _ _ _ _ HF Hg) as (i & Hi & _ & Hs). by exists i.
Qed.

Lemma chosen_readable start_of end_of trss :
  Forall readable (concat trss).*2 → Forall readable (concat (chosen start_of end_of trss)).*2.
Proof.
  rewrite !Forall_fmap. unfold chosen. revert start_of end_of. induction trss as [|trs trss IH]; intros start_of end_of; [done|].
  cbn [imap concat]. rewrite !Forall_app. intros [H1 H2]. split; [|by apply (IH (start_of ∘ S) (end_of ∘ S))].
  unfold select. rewrite Forall_forall in *. intros tr Htr. apply H1. apply list_elem_of_In in Htr.
  apply filter_In in Htr as [Htr _]. by apply list_elem_of_In.
Qed.

(** The state of a stream behind a finished writer. *)
Lemma writer_counts kind calls w artifact :
  try_fold (sink_call cache_append) (cache_create kind) calls = Ok w → cache_finish w = Ok artifact →
  ca_records artifact = len calls ∧ len calls ≤ u64_max.
Proof.
  intros (_ & Hr & _ & ->)%cache_appends (-> & _ & _)%cache_finish_Ok. cbn [ca_records kw_records cache_create] in *.
  unfold u64_max in *. lia.
Qed.

Section reproduced.
Context (t t' : tree) (receipt : QualifiedCompleteReplayReceiptV1) (gs : list GenerationSource).
Context (ps : list RawGenerationHandoverProofV1) (root : string) (m : QualifiedReplayCacheManifestV2).
Context (Hsizes : map_Forall (λ _ f, len f ≤ u64_max) (t_files t)) (Hfits : source_fits t receipt = true).
Context (Hctx : qualified_replay_context t receipt = Ok (gs, ps)).
Context (Hids : identities_of gs (cm_identities m)) (Hsymbol : cm_symbol m = rn_symbol (qr_selection receipt)).

Lemma cached_depth_reproduced dw first file snapshot :
  complete_replay_depth cache_append t gs ps true (cache_create "depth") = Ok (rr_depth (qr_report receipt), dw) →
  head gs = Some first → t_files t !! path_join (gs_root first) "snapshot.bnraw" = Some file →
  read_raw_records file = Ok [snapshot] →
  cache_finish dw = Ok (cm_depth m) → stream_files t' root dw →
  replay_cached_depth t' receipt root m (rf_payload (re_frame snapshot)) = Ok (rr_depth (qr_report receipt)).
Proof.
  intros H Hfirst Hfile Hsnap Hfin Hfiles.
  apply depth_replay_inv in H as (first' & file' & snapshot' & b & b0 & last & rt & da & Hf' & Hfile' & Hsnap' & Hb & Hl & Hfold & _ & Hlast & Ed).
  rewrite Hfirst in Hf'. injection Hf' as <-. rewrite Hfile in Hfile'. injection Hfile' as <-.
  rewrite Hsnap in Hsnap'. injection Hsnap' as <-.
  apply (chain_fold cache_append t "depth" (depth_start ps) (depth_end ps) depth_select_step
    (depth_generation_ok ps)) in Hfold as (trss & HF & Hrd & -> & Hsink & Hsteps & Hlen & Hpos);
    [|intros; by eapply depth_turn_inv].
  set (sels := chosen _ _ trss) in *.
  destruct (source_calls_fit _ _ _ _ "depth" trss (depth_start ps) (depth_end ps) Hsizes Hfits Hctx ltac:(by left) HF) as [Hcf _].
  fold sels in Hcf. destruct (context_facts _ _ _ _ Hctx) as (_ & _ & _ & Hgs).
  assert (length gs = length sels) as Hls by (unfold sels; rewrite length_chosen; by eapply Forall2_length).
  assert (len (cm_identities m) = len sels) as Hli by (unfold len; rewrite <-(Forall2_length _ _ _ Hids); lia).
  destruct (writer_counts _ _ _ _ Hsink Hfin) as [Hcnt Hmax]. rewrite length_sink_calls in Hcnt, Hmax by done.
  destruct (cached_chain (finish_depth_generation (cm_identities m)) (cached_depth_visit (cm_identities m))
    depth_select_step (mkDepthAcc b0 0 0 None) (len (cm_identities m)) readable (depth_visits (cm_identities m) b0)
    gs sels (cd_generations (rr_depth (qr_report receipt))) da (cache_events (sink_calls gs sels)))
    as (s & Hs & _ & Hadv).
  { intros n g Hg. by apply Hgs. } { done. } { apply events_carry. } { by apply chosen_readable. } { done. } { lia. } { done. } { lia. }
  { intros n sel k a1 Hsel Hk Ha1. assert (is_Some (gs !! n)) as [g Hg].
    { apply lookup_lt_is_Some. apply lookup_lt_Some in Hsel. lia. }
    destruct (Hpos _ _ Hg) as (sel' & a1' & k' & Hsel' & Hk' & Ha1' & (r & Hh & Hr & _ & Hid & Ek)).
    assert (sel' = sel) as -> by congruence. assert (k' = k) as -> by congruence. assert (a1' = a1) as -> by congruence.
    destruct (identity_at _ _ _ _ Hids Hg) as (i & Hi & Hsid).
    unfold finish_depth_generation. rewrite Hi. cbn [expect mbind res_bind counts_of gc_first gc_last gc_raw gc_market gc_controls].
    rewrite Hh, Hr. cbn [fmap option_fmap option_map ok_or mbind res_bind]. rewrite Hid. cbn [ok_or mbind res_bind].
    rewrite Ek at 2. rewrite Hsid, (proj1 (Hgs _ _ Hg)), len_fmap. done. }
  unfold replay_cached_depth. rewrite Hsymbol.
  assert (as_str (value_index (gs_startup first) "symbol") = Some (rn_symbol (qr_selection receipt))) as Hsym.
  { assert (gs !! 0%nat = Some first) as H0 by by destruct gs. destruct (Hgs _ _ H0) as (_ & _ & Ht).
    unfold text in Ht. apply ok_or_Ok, bind_Some in Ht as (x & Hx & Ht). rewrite Hx.
    destruct (String.eqb x ""); [done|]. by injection Ht as ->. }
  rewrite Hsym in Hb. cbn [default] in Hb. unfold id in Hb. rewrite Hb. cbn [mbind res_bind]. rewrite Hl. cbn [mbind res_bind].
  rewrite (visit_written _ "depth" _ _ _ _ _ _ ltac:(by right; left) Hsink Hfin Hcf Hfiles).
  change (mkCached 0 no_counts 0 0 (mkDepthAcc b0 0 0 None) []) with
    (cached_at (K := DepthGenerationReplayV1) 0 [] [] (mkDepthAcc b0 0 0 None) []). rewrite Hs. cbn [mbind res_bind].
  rewrite Hli, Hadv. cbn [mbind res_bind cached_at cz_stream cz_market cz_controls cz_output].
  destruct (level_counts (da_book da)) as [nb na] eqn:Hlv. rewrite Hlast. cbn [ok_or mbind res_bind].
  match goal with |- context [bool_decide (?x = ?y)] => assert (x = y) as -> end;
    [|by rewrite bool_decide_eq_true_2].
  rewrite Hcnt. destruct (rr_depth (qr_report receipt)) as [x1 x2 x3 x4 x5 x6 x7 x8 x9 x10 x11 x12 x13].
  cbn [cd_total_raw_records cd_total_control_records cd_overlap_records_excluded cd_final_update_id cd_generations] in *.
  unfold totals_of in Ed. cbn [rt_total_raw rt_total_controls rt_selected_raw rt_selected_market
    rt_selected_controls no_totals fst snd] in Ed. rewrite !len_fmap, !Z.add_0_l in Ed. rewrite len_fmap.
  injection Ed as -> -> -> -> -> -> -> -> -> -> ->. f_equal; lia.
Qed.


Lemma cached_trades_reproduced tw :
  complete_replay_trades cache_append t gs ps true (cache_create "trade") = Ok (rr_trades (qr_report receipt), tw) →
  cache_finish tw = Ok (cm_trades m) → stream_files t' root tw →
  replay_cached_trades t' receipt root m = Ok (rr_trades (qr_report receipt)).
Proof.
  intros H Hfin Hfiles. unfold complete_replay_trades in H. apply res_bind_Ok in H as ([[[rt w1] ids] ks] & Hfold & H).
  apply res_bind_Ok in H as (ex & Hex%ok_or_Ok & H). apply checked_sub_Some in Hex as [Hle ->].
  apply res_bind_Ok in H as (first & Hfirst%ok_or_Ok & H). apply res_bind_Ok in H as (lst & Hlast%ok_or_Ok & [= Ed ->]).
  apply (chain_fold cache_append t "trade" (trade_start ps) (trade_end ps) (id_step selected_trade_id)
    (trade_generation_ok ps)) in Hfold as (trss & HF & Hrd & -> & Hsink & Hsteps & Hlen & Hpos);
    [|intros; by eapply trade_turn_inv].
  set (sels := chosen _ _ trss) in *.
  destruct (source_calls_fit _ _ _ _ "trade" trss (trade_start ps) (trade_end ps) Hsizes Hfits Hctx ltac:(by right) HF) as [Hcf Hsy].
  fold sels in Hcf, Hsy. destruct (context_facts _ _ _ _ Hctx) as (_ & _ & _ & Hgs).
  assert (length gs = length sels) as Hls by (unfold sels; rewrite length_chosen; by eapply Forall2_length).
  assert (len (cm_identities m) = len sels) as Hli by (unfold len; rewrite <-(Forall2_length _ _ _ Hids); lia).
  destruct (writer_counts _ _ _ _ Hsink Hfin) as [Hcnt Hmax]. rewrite length_sink_calls in Hcnt, Hmax by done.
  destruct (cached_chain (finish_trade_generation (cm_identities m)) (cached_trade_visit (cm_symbol m) (cm_identities m))
    (id_step selected_trade_id) (None, None) (len (cm_identities m)) _ (trade_visits (cm_symbol m) (cm_identities m))
    gs sels ks ids (cache_events (sink_calls gs sels))) as (s & Hs & _ & Hadv).
  { intros n g Hg. by apply Hgs. } { done. } { apply events_carry. }
  { apply Forall_and. split; [by apply chosen_readable|by rewrite Hsymbol]. } { done. } { lia. } { done. } { lia. }
  { intros n sel k a1 Hsel Hk Ha1. assert (is_Some (gs !! n)) as [g Hg].
    { apply lookup_lt_is_Some. apply lookup_lt_Some in Hsel. lia. }
    destruct (Hpos _ _ Hg) as (sel' & a1' & k' & Hsel' & Hk' & Ha1' & (_ & _ & Hid & Ek)).
    assert (sel' = sel) as -> by congruence. assert (k' = k) as -> by congruence. assert (a1' = a1) as -> by congruence.
    destruct (identity_at _ _ _ _ Hids Hg) as (i & Hi & Hsid).
    unfold finish_trade_generation. rewrite Hi. cbn [expect mbind res_bind counts_of gc_first gc_last gc_raw gc_market gc_controls].
    rewrite Hid. cbn [ok_or mbind res_bind]. rewrite Ek at 2. rewrite Hsid, (proj1 (Hgs _ _ Hg)), len_fmap. done. }
  unfold replay_cached_trades.
  rewrite (visit_written _ "trade" _ _ _ _ _ _ ltac:(by right; right) Hsink Hfin Hcf Hfiles).
  change (mkCached 0 no_counts 0 0 (None, None) []) with
    (cached_at (K := TradeGenerationReplayV1) 0 [] [] (@None Z, @None Z) []). rewrite Hs. cbn [mbind res_bind].
  rewrite Hli, Hadv. cbn [mbind res_bind cached_at cz_stream cz_market cz_controls cz_output].
  rewrite Hfirst, Hlast. cbn [ok_or mbind res_bind].
  match goal with |- context [bool_decide (?x = ?y)] => assert (x = y) as -> end;
    [|by rewrite bool_decide_eq_true_2].
  rewrite Hcnt, <-Ed. cbn [ct_total_raw_records ct_total_control_records ct_overlap_records_excluded].
  unfold totals_of. cbn [rt_total_raw rt_total_controls rt_selected_raw rt_selected_market
    rt_selected_controls no_totals]. rewrite !len_fmap, !Z.add_0_l. f_equal; lia.
Qed.
End reproduced.

(** *** Loading *)

(** A directory at [path], canonically [root], that holds exactly [files]. *)
Definition directory_holds (t : tree) (path root : string) (files : list (string * bytes)) : Prop :=
  t_canonicalize t path = Ok root ∧ t_canonicalize t root = Ok root ∧
  (∃ names, t_entries t !! root = Some names ∧ names ≡ₚ files.*1) ∧
  Forall (λ f, t_kind t !! path_join root f.1 = Some RegularFile ∧ t_files t !! path_join root f.1 = Some f.2) files.

Lemma regular_file t path label :
  t_kind t !! path = Some RegularFile → require_regular_file (market_world t) path label = Ok ().
Proof.
  intros H. unfold require_regular_file. rewrite (proj2 (reject_Ok _ _ ())); [done|].
  apply negb_false_iff, bool_decide_eq_true. cbn [market_world MarketReplay.w_regular].
  apply elem_of_dom. exists RegularFile. by apply map_lookup_filter_Some.
Qed.

Lemma exact_file_set_holds t path root files msg :
  directory_holds t path root files → Forall (λ f, utf8 (str_chars f.1) = true) files →
  exact_file_set t root files.*1 msg = Ok ().
Proof.
  intros (_ & _ & (names & Hn & Hperm) & Hfiles) Hutf. unfold exact_file_set. rewrite Hn. cbn [ok_or mbind res_bind].
  assert (Forall (λ name, t_kind t !! path_join root name = Some RegularFile ∧ utf8 (str_chars name) = true) names) as Hk.
  { rewrite Hperm, Forall_fmap. rewrite Forall_forall in *. intros f Hf. split; [by apply Hfiles|by apply Hutf]. }
  match goal with |- context [try_map ?f names] => assert (try_map f names = Ok names) as -> end.
  { apply try_map_id. eapply Forall_impl; [exact Hk|]. intros name [H1 H2]. rewrite H1. cbn [ok_or mbind res_bind].
    rewrite bool_decide_eq_true_2 by done. cbn [negb reject mbind res_bind]. unfold into_string. by rewrite H2. }
  cbn [mbind res_bind]. rewrite bool_decide_eq_true_2; [done|]. by apply list_to_set_perm_L.
Qed.

Lemma validate_artifact_written t root w artifact (b : bool) :
  cache_kind (kw_stream_kind w) → cache_finish w = Ok artifact → stream_files t root w →
  t_kind t !! path_join root (data_name (kw_stream_kind w)) = Some RegularFile →
  t_kind t !! path_join root (index_name (kw_stream_kind w)) = Some RegularFile →
  validate_artifact t root artifact b = Ok ().
Proof.
  intros Hkind (-> & _ & Hsize)%cache_finish_Ok [Hd Hi] Hkd Hki. unfold validate_artifact.
  cbn [ca_stream_kind ca_data_file ca_index_file ca_data_sha256 ca_index_sha256 ca_data_bytes ca_index_bytes ca_records].
  rewrite (proj2 (reject_Ok _ _ ())).
  2:{ rewrite !String.eqb_refl, !is_digest_hex by apply length_sha256.
      by destruct Hkind as [->|[->| ->]]. }
  cbn [mbind res_bind]. destruct (cache_leafs root _ Hkind) as [-> ->]. cbn [mbind res_bind try_map validate_artifact_file].
  rewrite !regular_file by done. cbn [mbind res_bind]. unfold open_file. rewrite Hd, Hi. cbn [ok_or mbind res_bind].
  rewrite !Z.eqb_refl. cbn [negb reject mbind res_bind]. unfold sha256_file.
  rewrite !regular_file by done. cbn [mbind res_bind market_world MarketReplay.w_files]. unfold open_file.
  rewrite Hd, Hi. cbn [ok_or mbind res_bind]. rewrite !String.eqb_refl. cbn [negb reject].
  rewrite Hsize. destruct b; cbn [mbind res_bind]; by rewrite Z.eqb_refl.
Qed.

(** *** The cache a build leaves *)

(** What a successful build has done. *)
Record cache_built (t : tree) (receipt : QualifiedCompleteReplayReceiptV1) (m : QualifiedReplayCacheManifestV2)
    (files : list (string * bytes)) (gs : list GenerationSource) (ps : list RawGenerationHandoverProofV1)
    (snapshot : RawRecordEnvelopeV1) (sw dw tw : CacheWriter) : Prop := {
  cb_context : qualified_replay_context t receipt = Ok (gs, ps);
  cb_snapshot : ∃ first file, head gs = Some first ∧
    t_files t !! path_join (gs_root first) "snapshot.bnraw" = Some file ∧ read_raw_records file = Ok [snapshot];
  cb_identities : identities_of gs (cm_identities m);
  cb_depth : complete_replay_depth cache_append t gs ps true (cache_create "depth")
             = Ok (rr_depth (qr_report receipt), dw);
  cb_trades : complete_replay_trades cache_append t gs ps true (cache_create "trade")
              = Ok (rr_trades (qr_report receipt), tw);
  cb_append : cache_append (cache_create "snapshot") 0 0 snapshot = Ok sw;
  cb_finished : cache_finish sw = Ok (cm_snapshot m) ∧ cache_finish dw = Ok (cm_depth m) ∧
                cache_finish tw = Ok (cm_trades m);
  cb_bound : cm_receipt_sha256 m = qr_receipt_sha256 receipt ∧ cm_source_tree_sha256 m = qr_source_tree_sha256 receipt ∧
    cm_replay_report_sha256 m = rr_report_sha256 (qr_report receipt) ∧ cm_symbol m = rn_symbol (qr_selection receipt);
  cb_contract : cm_schema m = "QualifiedReplayCacheManifestV2"%string ∧ cm_usage m = QUALIFIED_CACHE_USAGE ∧
    cm_status m = "COMPLETE"%string ∧ cm_qualification_claim m = false ∧
    cm_cross_stream_total_order_available m = false ∧ cm_economic_features m = [];
  cb_digest : manifest_digest m = Ok (cm_manifest_sha256 m);
  cb_files : ∃ encoded, to_vec_pretty m = inr encoded ∧
    files = cache_files sw ++ cache_files dw ++ cache_files tw ++ [("qualified-cache.json"%string, encoded ++ [x0a])]
}.

Lemma generation_identities t gs ids :
  try_map (generation_identity t) gs = Ok ids →
  identities_of gs ((λ i, mkCacheIdentity (qi_generation_index i) (qi_session_id i) (qi_depth_stream i)
    (qi_depth_connection_epoch i) (qi_trade_stream i) (qi_trade_connection_epoch i)) <$> ids).
Proof.
  intros H%try_map_Ok_Forall2. unfold identities_of. rewrite Forall2_fmap_r. eapply Forall2_impl; [exact H|].
  intros g i Hi. unfold generation_identity in Hi. do 2 apply res_bind_Ok in Hi as (? & _ & Hi). by injection Hi as <-.
Qed.

Lemma build_inv t receipt destination m files :
  build_qualified_replay_cache t receipt destination = Ok (m, files) →
  ∃ gs ps snapshot sw dw tw, cache_built t receipt m files gs ps snapshot sw dw tw.
Proof.
  unfold build_qualified_replay_cache. intros (source & _ & H)%res_bind_Ok. apply res_bind_Ok in H as (dest & _ & H).
  do 2 apply res_bind_Ok in H as ([] & _ & H). apply res_bind_Ok in H as ([[[snapshot ids] dw] tw] & Hm & H).
  apply res_bind_Ok in H as (sw & Hsw & H). apply res_bind_Ok in H as (sa & Hsa & H).
  apply res_bind_Ok in H as (da & Hda & H). apply res_bind_Ok in H as (ta & Hta & H).
  apply res_bind_Ok in H as ([] & _ & H). apply res_bind_Ok in H as (digest & Hdig & H).
  apply res_bind_Ok in H as (encoded & Henc%map_err_Ok & [= <- <-]).
  unfold materialize_qualified_replay_records in Hm. apply res_bind_Ok in Hm as ([gs ps] & Hctx & Hm).
  apply res_bind_Ok in Hm as (first & Hfirst & Hm). apply res_bind_Ok in Hm as (file & Hfile%ok_or_Ok & Hm).
  apply res_bind_Ok in Hm as (snaps & Hsnaps & Hm). apply res_bind_Ok in Hm as ([] & Hone%reject_Ok & Hm).
  apply res_bind_Ok in Hm as (ids' & Hids & Hm). apply res_bind_Ok in Hm as ([d dw'] & Hd & Hm).
  apply res_bind_Ok in Hm as ([tr tw'] & Htr & Hm). apply res_bind_Ok in Hm as (report & Hr & Hm).
  apply res_bind_Ok in Hm as ([] & Heq%reject_Ok & Hm). apply negb_false_iff, bool_decide_eq_true in Heq.
  apply res_bind_Ok in Hm as (snap & Hsnap & [= <- <- <- <-]).
  destruct snaps as [|s [|]]; [done| |done]. injection Hsnap as ->.
  unfold assemble_report in Hr. apply res_bind_Ok in Hr as (rd & _ & [= Hr]).
  assert (rr_depth (qr_report receipt) = d ∧ rr_trades (qr_report receipt) = tr) as [Ed Et] by by rewrite <-Heq, <-Hr.
  exists gs, ps, snap, sw, dw', tw'. constructor; cbn [set_manifest_sha256 cm_identities cm_snapshot cm_depth cm_trades
    cm_receipt_sha256 cm_source_tree_sha256 cm_replay_report_sha256 cm_symbol cm_manifest_sha256 cm_schema cm_usage
    cm_status cm_qualification_claim cm_cross_stream_total_order_available cm_economic_features]; try done.
  - exists first, file. split_and!; [|done..]. destruct (head gs); [by injection Hfirst as ->|done].
  - by apply (generation_identities t).
  - by rewrite Ed.
  - by rewrite Et.
  - by exists encoded.
Qed.

(** The sinks are only ever called. *)
Lemma depth_writer_kind t gs ps d dw :
  map_Forall (λ _ f, len f ≤ u64_max) (t_files t) →
  complete_replay_depth cache_append t gs ps true (cache_create "depth") = Ok (d, dw) → kw_stream_kind dw = "depth"%string.
Proof.
  intros Hsz H. apply depth_replay_inv in H as (? & ? & ? & ? & ? & ? & ? & ? & _ & _ & _ & _ & _ & Hfold & _).
  apply (chain_fold cache_append t "depth" (depth_start ps) (depth_end ps) depth_select_step
    (depth_generation_ok ps)) in Hfold as (trss & _ & _ & _ & Hsink & _); [|intros; by eapply depth_turn_inv].
  apply cache_appends in Hsink as (_ & _ & _ & ->). done.
Qed.
Lemma trade_writer_kind t gs ps c tw :
  map_Forall (λ _ f, len f ≤ u64_max) (t_files t) →
  complete_replay_trades cache_append t gs ps true (cache_create "trade") = Ok (c, tw) → kw_stream_kind tw = "trade"%string.
Proof.
  intros Hsz H. unfold complete_replay_trades in H. apply res_bind_Ok in H as ([[[rt w1] ids] ks] & Hfold & H).
  do 3 apply res_bind_Ok in H as (? & _ & H). injection H as _ <-.
  apply (chain_fold cache_append t "trade" (trade_start ps) (trade_end ps) (id_step selected_trade_id)
    (trade_generation_ok ps)) in Hfold as (trss & _ & _ & _ & Hsink & _); [|intros; by eapply trade_turn_inv].
  apply cache_appends in Hsink as (_ & _ & _ & ->). done.
Qed.

Lemma receipt_digests receipt :
  validate_qualified_receipt receipt = Ok () → is_digest (qr_receipt_sha256 receipt) = true ∧
  is_digest (qr_source_tree_sha256 receipt) = true ∧ is_digest (rr_report_sha256 (qr_report receipt)) = true.
Proof. unfold validate_qualified_receipt. intros ([] & H%reject_Ok & _)%res_bind_Ok. split_orb. done. Qed.

Section built.
Context (t t' : tree) (receipt : QualifiedCompleteReplayReceiptV1) (m : QualifiedReplayCacheManifestV2).
Context (files : list (string * bytes)) (gs : list GenerationSource) (ps : list RawGenerationHandoverProofV1).
Context (snapshot : RawRecordEnvelopeV1) (sw dw tw : CacheWriter) (path root : string).
Context (Hsizes : map_Forall (λ _ f, len f ≤ u64_max) (t_files t)).
Context (Hbuilt : cache_built t receipt m files gs ps snapshot sw dw tw) (Hdir : directory_holds t' path root files).

Lemma built_kinds :
  kw_stream_kind sw = "snapshot"%string ∧ kw_stream_kind dw = "depth"%string ∧ kw_stream_kind tw = "trade"%string.
Proof.
  destruct Hbuilt. split_and!.
  - by apply cache_append_Ok in cb_append0 as (_ & _ & _ & ->).
  - by eapply depth_writer_kind.
  - by eapply trade_writer_kind.
Qed.

Lemma built_streams : Forall (λ w, stream_files t' root w ∧
  t_kind t' !! path_join root (data_name (kw_stream_kind w)) = Some RegularFile ∧
  t_kind t' !! path_join root (index_name (kw_stream_kind w)) = Some RegularFile) [sw; dw; tw].
Proof.
  destruct (cb_files _ _ _ _ _ _ _ _ _ _ Hbuilt) as (encoded & _ & ->). destruct Hdir as (_ & _ & _ & HF).
  unfold cache_files in HF. rewrite !Forall_app, !Forall_cons in HF. cbn [fst snd] in HF.
  destruct HF as (([? ?] & [? ?] & _) & ([? ?] & [? ?] & _) & ([? ?] & [? ?] & _) & _).
  by repeat constructor.
Qed.

Lemma built_loads (b : bool) : load_cache_manifest t' path b = Ok m.
Proof.
  destruct built_kinds as (Ks & Kd & Kt). destruct Hbuilt.
  destruct (context_facts _ _ _ _ cb_context0) as (Hreceipt & Hne & _). apply receipt_digests in Hreceipt as (D1 & D2 & D3).
  destruct cb_bound0 as (E1 & E2 & E3 & E4), cb_contract0 as (S1 & S2 & S3 & S4 & S5 & S6), cb_finished0 as (F1 & F2 & F3).
  destruct cb_files0 as (encoded & Henc & Ef). pose proof Hdir as (Hc & _ & _ & HF).
  unfold load_cache_manifest. rewrite Hc. cbn [mbind res_bind].
  assert (("qualified-cache.json"%string, encoded ++ [x0a]) ∈ files) as Hin by (rewrite Ef, !elem_of_app; set_solver).
  rewrite Forall_forall in HF. destruct (HF _ Hin) as [Hk Hf]. cbn [fst snd] in Hk, Hf.
  rewrite regular_file by done. cbn [mbind res_bind]. unfold open_file. rewrite Hf. cbn [ok_or mbind res_bind].
  rewrite (from_pretty _ _ Henc). cbn [map_err mbind res_bind].
  rewrite (proj2 (reject_Ok _ _ ())).
  2:{ rewrite E1, E2, E3, S1, S2, S3, S4, S5, S6, D1, D2, D3. done. }
  cbn [mbind res_bind]. rewrite cb_digest0. cbn [mbind res_bind]. rewrite String.eqb_refl.
  assert (cm_identities m ≠ []) as Hi. { intros E. rewrite E in cb_identities0. by apply Forall2_nil_inv_r in cb_identities0. }
  rewrite (proj2 (reject_Ok _ _ ())) by (by destruct (cm_identities m)). cbn [mbind res_bind].
  pose proof F1 as (A1 & _)%cache_finish_Ok. pose proof F2 as (A2 & _)%cache_finish_Ok. pose proof F3 as (A3 & _)%cache_finish_Ok.
  assert (exact_file_set t' root files.*1 "cache directory file set differs from manifest" = Ok ()) as Hset.
  { eapply exact_file_set_holds; [done|]. rewrite Ef. unfold cache_files. rewrite Ks, Kd, Kt. by repeat constructor. }
  assert (∀ l, (list_to_set l : gset string) = list_to_set files.*1 →
    exact_file_set t' root l "cache directory file set differs from manifest" = Ok ()) as Hset'.
  { intros l El. unfold exact_file_set in *. by rewrite El. }
  rewrite Hset'.
  2:{ rewrite A1, A2, A3, Ef. cbn [ca_data_file ca_index_file]. unfold cache_files. rewrite Ks, Kd, Kt.
      cbn [app fmap list_fmap fst]. apply list_to_set_perm_L, (Permutation_cons_append [_; _; _; _; _; _]). }
  cbn [mbind res_bind]. pose proof built_streams as HS. rewrite !Forall_cons in HS.
  destruct HS as ((X1 & X2 & X3) & (Y1 & Y2 & Y3) & (Z1 & Z2 & Z3) & _).
  rewrite (validate_artifact_written _ _ sw (cm_snapshot m)), (validate_artifact_written _ _ dw (cm_depth m)),
    (validate_artifact_written _ _ tw (cm_trades m));
    try done; unfold cache_kind; rewrite ?Ks, ?Kd, ?Kt; auto.
Qed.


Lemma built_bound : validate_cache_binding receipt m = Ok ().
Proof.
  destruct Hbuilt. destruct (context_facts _ _ _ _ cb_context0) as (_ & _ & Hn & Hgs).
  destruct cb_bound0 as (E1 & E2 & E3 & E4). pose proof (Forall2_length _ _ _ cb_identities0) as Hl.
  unfold validate_cache_binding. rewrite E1, E2, E3, E4, !String.eqb_refl. rewrite (proj2 (reject_Ok _ _ ())).
  2:{ rewrite Hn. unfold len. rewrite Hl, Z.eqb_refl. done. }
  cbn [mbind res_bind].
  assert (∀ n i, cm_identities m !! n = Some i → binding_identity_turn receipt (n, i) = Ok ()) as Hturn.
  { intros n i Hi. destruct (Forall2_lookup_r _ _ _ _ _ cb_identities0 Hi) as (g & Hg & Ei & Es).
    destruct (Hgs _ _ Hg) as (Eg & _). unfold binding_identity_turn. rewrite Ei, Eg, Z.eqb_refl. cbn [negb reject mbind res_bind].
    apply depth_replay_inv in cb_depth0 as (? & ? & ? & ? & ? & ? & ? & ? & _ & _ & _ & _ & _ & Hfold & _).
    apply (chain_fold cache_append t "depth" (depth_start ps) (depth_end ps) depth_select_step
      (depth_generation_ok ps)) in Hfold as (trss & _ & _ & _ & _ & _ & _ & Hpos); [|intros; by eapply depth_turn_inv].
    destruct (Hpos _ _ Hg) as (? & ? & k & _ & Hk & _ & (? & _ & _ & _ & _ & Ek)). rewrite Hk.
    cbn [expect mbind res_bind]. rewrite Ek. cbn [dg_session_id]. rewrite Es, String.eqb_refl. cbn [negb reject mbind res_bind].
    unfold complete_replay_trades in cb_trades0. apply res_bind_Ok in cb_trades0 as ([[[rt w1] ids] ks] & Hfold & H).
    do 3 apply res_bind_Ok in H as (? & _ & H). injection H as Etr _.
    apply (chain_fold cache_append t "trade" (trade_start ps) (trade_end ps) (id_step selected_trade_id)
      (trade_generation_ok ps)) in Hfold as (trss' & _ & _ & _ & _ & _ & _ & Hpos'); [|intros; by eapply trade_turn_inv].
    destruct (Hpos' _ _ Hg) as (? & ? & k' & _ & Hk' & _ & (_ & _ & _ & Ek')). rewrite <-Etr. cbn [ct_generations].
    rewrite Hk'. cbn [expect mbind res_bind]. rewrite Ek'. cbn [tg_session_id]. by rewrite String.eqb_refl. }
  assert (∀ k l, (∀ n i, l !! n = Some i → binding_identity_turn receipt ((k + n)%nat, i) = Ok ()) →
    is_ok (try_map (binding_identity_turn receipt) (imap (λ n i, ((k + n)%nat, i)) l)) = true) as Hall.
  { clear. intros k l. revert k. induction l as [|i l IH]; intros k Hl; [done|]. cbn [imap try_map].
    rewrite (Hl 0%nat i) by done. cbn [mbind res_bind]. specialize (IH (S k)).
    assert (imap (λ n i, ((S k + n)%nat, i)) l = imap ((λ n i, ((k + n)%nat, i)) ∘ S) l) as E
      by (apply imap_ext; intros n x _; unfold compose; f_equal; lia).
    rewrite <-E. destruct (try_map _ _); [done|..]; (exfalso; apply (@eq_true_false_abs false); [apply IH|done]);
      intros n x Hx; replace (S k + n)%nat with (k + S n)%nat by lia; by apply Hl. }
  specialize (Hall 0%nat (cm_identities m) Hturn).
  change (imap pair (cm_identities m)) with (imap (λ n i, ((0 + n)%nat, i)) (cm_identities m)).
  by destruct (try_map _ _).
Qed.

Lemma built_snapshot (check : CachedEvent → bool) :
  source_fits t receipt = true →
  (∀ e, ce_generation_index e = 0 → ce_segment_index e = 0 → check e = true) →
  cached_snapshot t' root m check = Ok (rf_payload (re_frame snapshot)).
Proof.
  intros Hfits Hcheck. destruct built_kinds as (Ks & _). pose proof built_streams as HS. rewrite !Forall_cons in HS.
  destruct HS as ((X1 & _) & _). destruct Hbuilt. destruct cb_finished0 as (F1 & _).
  destruct cb_snapshot0 as (first & file & Hfirst & Hfile & Hread).
  assert (call_fits (0, (0, snapshot))) as Hfit.
  { pose proof (read_records_fields _ _ Hread) as [(? & ? & ?) _]%Forall_cons.
    unfold source_fits in Hfits. rewrite cb_context0, forallb_forall in Hfits.
    assert (In first gs) as Hin by (destruct gs; [done|injection Hfirst as ->; by left]).
    apply Hfits in Hin. rewrite Hfile, Hread, !andb_true_iff in Hin. destruct Hin as [_ Hin]. cbn [try_fold] in Hin.
    unfold small_visit at 1 in Hin. destruct (reject _ _) eqn:Er; [|done..]. apply reject_Ok in Er.
    unfold call_fits, in_u64, u64_max in *. cbn [fst snd]. unfold MAX_CACHE_RECORD_BYTES, MAX_RECORD_BYTES in *.
    split_and!; lia. }
  assert (try_fold (sink_call cache_append) (cache_create "snapshot") [(0, (0, snapshot))] = Ok sw) as Hw.
  { cbn [try_fold]. change (sink_call cache_append (cache_create "snapshot") (0, (0, snapshot)))
      with (cache_append (cache_create "snapshot") 0 0 snapshot). by rewrite cb_append0. }
  assert (Forall call_fits [(0, (0, snapshot))]) as Hall by (constructor; [done|constructor]).
  unfold cached_snapshot. rewrite (visit_written _ "snapshot" _ _ _ _ _ _ ltac:(by left) Hw F1 Hall X1).
  cbn [cache_events events_from try_fold]. unfold snapshot_visit at 1. rewrite Hcheck by done. done.
Qed.

Lemma built_replays :
  source_fits t receipt = true → replay_qualified_cache t' receipt path = Ok (qr_report receipt).
Proof.
  intros Hfits. pose proof Hdir as (Hc & Hc' & _).
  pose proof (cb_context _ _ _ _ _ _ _ _ _ _ Hbuilt) as Hctx. pose proof built_streams as HS. rewrite !Forall_cons in HS.
  destruct HS as (_ & (Y1 & _) & (Z1 & _) & _). unfold replay_qualified_cache.
  rewrite (proj1 (context_facts _ _ _ _ Hctx)). cbn [mbind res_bind]. rewrite Hc. cbn [mbind res_bind].
  pose proof (built_loads false) as Hload. unfold load_cache_manifest in Hload |- *. rewrite Hc in Hload. rewrite Hc'.
  cbn [mbind res_bind] in Hload |- *. rewrite Hload. cbn [mbind res_bind]. rewrite built_bound. cbn [mbind res_bind].
  rewrite built_snapshot by (done || intros e -> _; done). cbn [mbind res_bind].
  destruct Hbuilt. destruct cb_snapshot0 as (first & file & Hfirst & Hfile & Hread), cb_finished0 as (_ & F2 & F3).
  destruct cb_bound0 as (_ & _ & _ & E4).
  rewrite (cached_depth_reproduced t t' receipt gs ps root m Hsizes Hfits Hctx cb_identities0 E4 dw first file snapshot) by done.
  cbn [mbind res_bind].
  rewrite (cached_trades_reproduced t t' receipt gs ps root m Hsizes Hfits Hctx cb_identities0 E4 tw) by done. done.
Qed.
End built.

(** C18: replaying a cache gives the report of the qualified replay it was built from. In
    every tree that holds the directory a successful build wrote, the replay of the cache
    accepts the manifest, its binding to the receipt and all six files, decodes the cached
    records alone, arrives at every generation checkpoint, at the book and at the trade IDs
    of the report, and returns the report; the raw logs need not be there any more. *)
Theorem cached_replay_reproduces t receipt destination m files t' path root :
  map_Forall (λ _ f, len f ≤ u64_max) (t_files t) → source_fits t receipt = true →
  build_qualified_replay_cache t receipt destination = Ok (m, files) →
  directory_holds t' path root files →
  replay_qualified_cache t' receipt path = Ok (qr_report receipt).
Proof.
  intros Hsz Hfits (gs & ps & snapshot & sw & dw & tw & Hb)%build_inv Hdir. by eapply built_replays.
Qed.
#[local] Transparent be64 be32.
End cache_theory.

(** ** A cache of the two generations of [RunDemo] *)

#[global] Instance cache_identity_eq_decision : EqDecision QualifiedReplayCacheIdentityV2.
Proof. solve_decision. Defined.
#[global] Instance cache_artifact_eq_decision : EqDecision QualifiedReplayCacheArtifactV2.
Proof. solve_decision. Defined.
#[global] Instance cache_manifest_eq_decision : EqDecision QualifiedReplayCacheManifestV2.
Proof. solve_decision. Defined.

Module CacheDemo.
Export RunDemo.

(** The run, in a tree where the directory above it is known. *)
Definition source_tree : tree :=
  mkTree (t_disk run_tree) (t_kind run_tree) (t_entries run_tree) (<["/q"%string := "/q"%string]> (t_canonical run_tree)).
Lemma source_sizes : map_Forall (λ _ f, len f ≤ u64_max) (t_files source_tree).
Proof. exact run_sizes. Qed.
Definition qualified : res QualifiedCompleteReplayReceiptV1 := Eval vm_compute in
  qualify_complete_replay verified_campaign source_tree run_selection.
Definition receipt : QualifiedCompleteReplayReceiptV1 := Eval vm_compute in
  match qualified as r
    return (match r with Ok _ => QualifiedCompleteReplayReceiptV1 | _ => unit end) with
  | Ok p => p | _ => tt
  end.

(** Only the manifest of this cache has a text. *)
Definition manifest_to_vec (m : QualifiedReplayCacheManifestV2) : bytes :=
  str_bytes (cm_receipt_sha256 m ++ cm_replay_report_sha256 m ++ ca_data_sha256 (cm_depth m)
             ++ ca_data_sha256 (cm_trades m)).
Definition first_build : res (QualifiedReplayCacheManifestV2 * list (string * bytes)) := Eval vm_compute in
  build_qualified_replay_cache (Hcm := {| to_vec m := inr (manifest_to_vec m); from_slice _ := inl "unknown"%string |})
    (Hcp := λ _, inr []) source_tree receipt "/q/cache1".
Definition manifest : QualifiedReplayCacheManifestV2 := Eval vm_compute in
  match first_build as r return (match r with Ok _ => QualifiedReplayCacheManifestV2 | _ => unit end) with
  | Ok (m, _) => m | _ => tt
  end.
Definition manifest_text : bytes := stars 11.
#[export] Instance manifest_serde : Serde QualifiedReplayCacheManifestV2 := {|
  to_vec m := inr (manifest_to_vec m);
  from_slice b := if bool_decide (b = manifest_text ++ [x0a]) then inr manifest else inl "unknown"%string
|}.
#[export] Instance manifest_pretty : SerdePretty QualifiedReplayCacheManifestV2 := λ m,
  if bool_decide (m = manifest) then inr manifest_text else inl "unknown"%string.
#[export] Instance manifest_pretty_laws : SerdePrettyLaws QualifiedReplayCacheManifestV2 manifest_serde manifest_pretty.
Proof.
  intros a b. unfold to_vec_pretty, manifest_pretty. case_bool_decide as E; [|done]. intros [= <-].
  cbn [from_slice manifest_serde]. by rewrite bool_decide_eq_true_2, E by done.
Qed.

(** The directory alone, in a tree without the run. *)
Definition cache_contents : list (string * bytes) := Eval vm_compute in
  match build_qualified_replay_cache source_tree receipt "/q/cache1" with Ok (_, files) => files | _ => [] end.
Definition cache_names : list string := Eval vm_compute in rev cache_contents.*1.
Definition cache_tree : tree := tree_of ((λ f, (path_join "/q/cache1" f.1, f.2)) <$> cache_contents)
  [("/q/cache1"%string, cache_names)] [("/q/cache1"%string, "/q/cache1"%string); ("cache1"%string, "/q/cache1"%string)].

Lemma cache_built_here : build_qualified_replay_cache source_tree receipt "/q/cache1" = Ok (manifest, cache_contents).
Proof. vm_compute. reflexivity. Qed.
Lemma cache_directory : directory_holds cache_tree "cache1" "/q/cache1" cache_contents.
Proof.
  split; [reflexivity|]. split; [reflexivity|]. split.
  - exists cache_names. split; [reflexivity|]. apply (bool_decide_unpack _). vm_compute. exact I.
  - apply (bool_decide_unpack _). vm_compute. exact I.
Qed.

(** Two records and the tree a writer leaves them in. *)
Definition demo_record (frame : Z) (payload : bytes) : RawRecordEnvelopeV1 :=
  mkEnvelope 0 8 100 (star_digest 1) (mkRawFrame "binance" "production" "wss://example.invalid" "BTCUSDT" "btcusdt@trade"
    "epoch-1" frame 10 9 payload "healthy" "test" (Some 0) (Some 1) "DURABLE" "test").
Definition demo_calls : list cache_call := [(3, (4, demo_record 7 (stars 3))); (3, (5, demo_record 8 []))].
Definition demo_writer : CacheWriter := Eval vm_compute in
  match try_fold (sink_call cache_append) (cache_create "trade") demo_calls with Ok w => w | _ => cache_create "" end.
Definition demo_tree : tree := tree_of ((λ f, (path_join "/d" f.1, f.2)) <$> cache_files demo_writer) [] [].
End CacheDemo.

Section cache_witnesses.
Import CacheDemo.

Lemma cache_stream_round_trip_witness :
  ∃ artifact, cache_finish demo_writer = Ok artifact ∧ ca_records artifact = 2 ∧
    visit_cache_events (λ l e, Ok (l ++ [(ce_start_offset e, ce_frame_index e, ce_payload e)])) demo_tree "/d" artifact []
    = Ok [(8, 7, stars 3); (155, 8, [])].
Proof.
  destruct (cache_finish demo_writer) as [artifact| |] eqn:E; [|vm_compute in E; discriminate E..].
  exists artifact. split; [reflexivity|]. split; [vm_compute in E; injection E as <-; reflexivity|].
  rewrite (cache_stream_round_trip _ "trade" demo_calls demo_writer artifact demo_tree "/d" []).
  - reflexivity.
  - right; right; reflexivity.
  - vm_compute; reflexivity.
  - exact E.
  - apply (bool_decide_unpack _). vm_compute. exact I.
  - split; vm_compute; reflexivity.
Defined.

Lemma cached_replay_reproduces_witness :
  cd_selected_market_records (rr_depth (qr_report receipt)) = 5 ∧
  t_files cache_tree !! "/q/run1/c1/campaign.json"%string = None ∧
  replay_qualified_cache cache_tree receipt "cache1" = Ok (qr_report receipt).
Proof.
  split; [vm_compute; reflexivity|]. split; [vm_compute; reflexivity|].
  refine (cached_replay_reproduces source_tree receipt "/q/cache1" manifest cache_contents cache_tree "cache1" "/q/cache1"
    source_sizes _ cache_built_here cache_directory).
  vm_compute. reflexivity.
Defined.
End cache_witnesses.
