(* ===== verification/CacheCheckpoints.v ===== *)
(** * Book checkpoints of a cached replay (qualified_cache.rs, second half)

    Beside a cache a checkpoint store keeps the book at the end of every depth segment. A
    session that verified cache and store replays any window between two checkpoints from
    memory: from the book of the first one, over depth updates that were decoded when the
    session was opened, and compares the result with the book of the second one.

    As for the cache, writers append to byte strings that become the files of a new
    directory. *)

From stdpp Require Import base list strings option numbers sets gmap sorting.
From Stdlib Require Import ZArith Lia Ascii Strings.Byte Sorting.Sorted.
From S2P Require Import Prelude Decimal External OrderBook RawLog RawLogSafety Replay Boundary DurabilityProgress SegmentChain Follower Observations MarketReplay TransportJournal GenerationArtifact GenerationHandover CompleteReplay QualifiedCache.
Local Open Scope Z_scope.

(** ** Constants and data *)

Definition CHECKPOINT_MAGIC : bytes := [x42; x4e; x43; x4b; x50; x00; x01; x0a].
Definition CHECKPOINT_INDEX_MAGIC : bytes := [x42; x4e; x43; x4b; x49; x00; x01; x0a].
Definition CHECKPOINT_INDEX_ENTRY_BYTES : Z := 64.
Definition MAX_CHECKPOINT_RECORD_BYTES : Z := 64 * 1024 * 1024.
Definition QUALIFIED_CHECKPOINT_USAGE : string := "QUALIFIED_NEUTRAL_BOOK_CHECKPOINTS".

Record QualifiedDepthCheckpointV1 := mkDepthCheckpoint {
  qk_schema : string; qk_generation_index : Z; qk_segment_index : Z; qk_last_record_ordinal : Z;
  qk_next_record_ordinal : Z; qk_next_data_offset : Z; qk_last_frame_index : Z; qk_last_receive_wall_ns : Z;
  qk_last_receive_mono_ns : Z; qk_last_raw_record_sha256 : string; qk_book : OrderBookCheckpointV1;
  qk_checkpoint_sha256 : string
}.
Record QualifiedReplayCheckpointArtifactV1 := mkCheckpointArtifact {
  ka_data_file : string; ka_data_bytes : Z; ka_data_sha256 : string; ka_index_file : string;
  ka_index_bytes : Z; ka_index_sha256 : string; ka_checkpoints : Z
}.
Record QualifiedReplayCheckpointManifestV1 := mkCheckpointManifest {
  km_schema : string; km_usage : string; km_status : string; km_qualification_claim : bool;
  km_economic_features : list string; km_receipt_sha256 : string; km_source_tree_sha256 : string;
  km_replay_report_sha256 : string; km_cache_manifest_sha256 : string; km_cache_manifest_file_sha256 : string;
  km_cache_depth_data_sha256 : string; km_cache_depth_index_sha256 : string; km_symbol : string;
  km_artifact : QualifiedReplayCheckpointArtifactV1; km_final_state_sha256 : string; km_manifest_sha256 : string
}.
Record PendingDepthBoundary := mkBoundaryP {
  pb_generation_index : Z; pb_segment_index : Z; pb_record_ordinal : Z; pb_next_data_offset : Z;
  pb_frame_index : Z; pb_receive_wall_ns : Z; pb_receive_mono_ns : Z; pb_record_sha256 : string
}.
Record NeutralDepthWindowReplayV1 := mkWindow {
  nw_schema : string; nw_status : string; nw_symbol : string; nw_cross_stream_total_order_available : bool;
  nw_economic_features : list string; nw_start_checkpoint_sha256 : string; nw_end_checkpoint_sha256 : string;
  nw_start_generation_index : Z; nw_start_segment_index : Z; nw_end_generation_index : Z;
  nw_end_segment_index : Z; nw_first_record_ordinal : Z; nw_last_record_ordinal : Z; nw_raw_records : Z;
  nw_market_records : Z; nw_control_records : Z; nw_old_records : Z; nw_applied_records : Z;
  nw_final_update_id : Z; nw_bid_levels : Z; nw_ask_levels : Z; nw_state_sha256 : string;
  nw_report_sha256 : string
}.
Inductive PreparedCachedDepthEvent :=
  | Control
  | Market (update : PreparedDepthUpdate).
Record QualifiedDepthReplaySession := mkDepthSession {
  ss_symbol : string; ss_checkpoints : list QualifiedDepthCheckpointV1; ss_checkpoint_books : list LocalOrderBook;
  ss_depth_events : list PreparedCachedDepthEvent
}.

Definition set_checkpoint_sha256 (digest : string) (k : QualifiedDepthCheckpointV1) : QualifiedDepthCheckpointV1 :=
  mkDepthCheckpoint (qk_schema k) (qk_generation_index k) (qk_segment_index k) (qk_last_record_ordinal k)
    (qk_next_record_ordinal k) (qk_next_data_offset k) (qk_last_frame_index k) (qk_last_receive_wall_ns k)
    (qk_last_receive_mono_ns k) (qk_last_raw_record_sha256 k) (qk_book k) digest.
Definition set_checkpoint_manifest_sha256 (digest : string) (m : QualifiedReplayCheckpointManifestV1)
    : QualifiedReplayCheckpointManifestV1 :=
  mkCheckpointManifest (km_schema m) (km_usage m) (km_status m) (km_qualification_claim m) (km_economic_features m)
    (km_receipt_sha256 m) (km_source_tree_sha256 m) (km_replay_report_sha256 m) (km_cache_manifest_sha256 m)
    (km_cache_manifest_file_sha256 m) (km_cache_depth_data_sha256 m) (km_cache_depth_index_sha256 m) (km_symbol m)
    (km_artifact m) (km_final_state_sha256 m) digest.
Definition set_window_sha256 (digest : string) (w : NeutralDepthWindowReplayV1) : NeutralDepthWindowReplayV1 :=
  mkWindow (nw_schema w) (nw_status w) (nw_symbol w) (nw_cross_stream_total_order_available w)
    (nw_economic_features w) (nw_start_checkpoint_sha256 w) (nw_end_checkpoint_sha256 w)
    (nw_start_generation_index w) (nw_start_segment_index w) (nw_end_generation_index w) (nw_end_segment_index w)
    (nw_first_record_ordinal w) (nw_last_record_ordinal w) (nw_raw_records w) (nw_market_records w)
    (nw_control_records w) (nw_old_records w) (nw_applied_records w) (nw_final_update_id w) (nw_bid_levels w)
    (nw_ask_levels w) (nw_state_sha256 w) digest.

(** [data.get(start..end)] *)
Definition slice (data : bytes) (start end_ : Z) : option bytes :=
  if (start <=? end_) && (end_ <=? len data)
  then Some (take (Z.to_nat (end_ - start)) (drop (Z.to_nat start) data)) else None.

(** Not behind [old]: a segment that regressed or was seen before. *)
Definition key_regressed (key old : Z * Z) : bool :=
  (key.1 <? old.1) || ((key.1 =? old.1) && (key.2 <=? old.2)).

(** The position of an event at the end of its segment. *)
Definition boundary_of (event : CachedEvent) : PendingDepthBoundary :=
  mkBoundaryP (ce_generation_index event) (ce_segment_index event) (ce_record_ordinal event) (ce_end_offset event)
    (ce_frame_index event) (ce_receive_wall_ns event) (ce_receive_mono_ns event) (ce_record_sha256 event).
Definition segment_key (event : CachedEvent) : Z * Z := (ce_generation_index event, ce_segment_index event).

Section checkpoints.
Context `{Hsha : Sha256} `{Hval : SerdeValue} `{Hobj : !SerdeObject} `{Hb64 : Base64} `{Hmb : Serde ManifestBodyV1}.
Context `{Hcte : Serde CanonicalTradeEvent} `{Hpm : Serde ProofDigestMaterial} `{Hproof : Serde RawGenerationHandoverProofV1}.
Context `{Hrep : Serde CompleteRunReplayReportV1} `{Hrec : Serde QualifiedCompleteReplayReceiptV1}.
Context `{Hinv : Serde (list QualifiedReplaySourceFileV1)}.
Context `{Hcm : Serde QualifiedReplayCacheManifestV2} `{Hcp : SerdePretty QualifiedReplayCacheManifestV2}.
Context `{Hqk : Serde QualifiedDepthCheckpointV1}.
Context `{Hkm : Serde QualifiedReplayCheckpointManifestV1} `{Hkp : SerdePretty QualifiedReplayCheckpointManifestV1}.
Context `{Hnw : Serde NeutralDepthWindowReplayV1}.

Definition checkpoint_digest (k : QualifiedDepthCheckpointV1) : res string :=
  encoded ← map_err "serialize checkpoint material: " (to_vec (set_checkpoint_sha256 "" k));
  Ok (hex (sha256 encoded)).
Definition checkpoint_manifest_digest (m : QualifiedReplayCheckpointManifestV1) : res string :=
  encoded ← map_err "serialize checkpoint manifest material: " (to_vec (set_checkpoint_manifest_sha256 "" m));
  Ok (hex (sha256 encoded)).

(** ** The writer *)

Record CheckpointWriter := mkCheckpointWriter {
  pw_data : bytes; pw_index : bytes; pw_data_offset : Z; pw_checkpoints : Z
}.

Definition checkpoint_create : CheckpointWriter :=
  mkCheckpointWriter CHECKPOINT_MAGIC CHECKPOINT_INDEX_MAGIC (len CHECKPOINT_MAGIC) 0.

(** The numbers of an index entry. *)
Definition checkpoint_entry (start : Z) (k : QualifiedDepthCheckpointV1) : list Z :=
  [start; qk_last_record_ordinal k; qk_next_record_ordinal k; qk_next_data_offset k; qk_generation_index k;
   qk_segment_index k; qk_last_frame_index k; ck_last_update_id (qk_book k)].

Definition checkpoint_append (w : CheckpointWriter) (k : QualifiedDepthCheckpointV1) : res CheckpointWriter :=
  digest ← checkpoint_digest k;
  let k := set_checkpoint_sha256 digest k in
  body ← map_err "serialize book checkpoint: " (to_vec k);
  _ ← reject (MAX_CHECKPOINT_RECORD_BYTES <? len body) "book checkpoint exceeds maximum record size";
  _ ← reject (u32_max <? len body) "book checkpoint record length overflow";
  let start := pw_data_offset w in
  data_offset ← ok_or (checked_add (pw_data_offset w) (4 + len body + 32)) "book checkpoint data offset overflow";
  checkpoints ← ok_or (checked_add (pw_checkpoints w) 1) "book checkpoint count overflow";
  Ok (mkCheckpointWriter (pw_data w ++ be32 (len body) ++ body ++ sha256 body)
        (pw_index w ++ (checkpoint_entry start k ≫= be64)) data_offset checkpoints).

Definition checkpoint_data_name : string := "depth-checkpoints.bncp".
Definition checkpoint_index_name : string := "depth-checkpoints.bncpi".

Definition checkpoint_finish (w : CheckpointWriter) : res QualifiedReplayCheckpointArtifactV1 :=
  let data_bytes := len (pw_data w) in
  let index_bytes := len (pw_index w) in
  expected_index_bytes ← index_size (pw_checkpoints w) CHECKPOINT_INDEX_ENTRY_BYTES "checkpoint index length overflow";
  _ ← reject (negb (data_bytes =? pw_data_offset w) || negb (index_bytes =? expected_index_bytes))
        "checkpoint writer length accounting diverged";
  Ok (mkCheckpointArtifact checkpoint_data_name data_bytes (hex (sha256 (pw_data w))) checkpoint_index_name
        index_bytes (hex (sha256 (pw_index w))) (pw_checkpoints w)).
Definition checkpoint_files (w : CheckpointWriter) : list (string * bytes) :=
  [(checkpoint_data_name, pw_data w); (checkpoint_index_name, pw_index w)].

(** ** Building a store *)

Definition write_depth_boundary (w : CheckpointWriter) (book : LocalOrderBook) (boundary : PendingDepthBoundary)
    : res CheckpointWriter :=
  next_record_ordinal ← ok_or (checked_add (pb_record_ordinal boundary) 1) "checkpoint record ordinal overflow";
  saved ← checkpoint book;
  checkpoint_append w (mkDepthCheckpoint "QualifiedDepthCheckpointV1" (pb_generation_index boundary)
    (pb_segment_index boundary) (pb_record_ordinal boundary) next_record_ordinal (pb_next_data_offset boundary)
    (pb_frame_index boundary) (pb_receive_wall_ns boundary) (pb_receive_mono_ns boundary) (pb_record_sha256 boundary)
    saved "").

Definition verify_depth_boundary (k : QualifiedDepthCheckpointV1) (book : LocalOrderBook)
    (boundary : PendingDepthBoundary) : res unit :=
  _ ← reject (negb (qk_generation_index k =? pb_generation_index boundary)
              || negb (qk_segment_index k =? pb_segment_index boundary)
              || negb (qk_last_record_ordinal k =? pb_record_ordinal boundary)
              || negb (qk_next_data_offset k =? pb_next_data_offset boundary)
              || negb (qk_last_frame_index k =? pb_frame_index boundary)
              || negb (qk_last_receive_wall_ns k =? pb_receive_wall_ns boundary)
              || negb (qk_last_receive_mono_ns k =? pb_receive_mono_ns boundary)
              || negb (String.eqb (qk_last_raw_record_sha256 k) (pb_record_sha256 boundary)))
        "checkpoint source position differs from natural segment boundary";
  restored ← from_checkpoint (qk_book k);
  reject (negb (same_state book restored) || negb (String.eqb (state_digest book) (ck_state_sha256 (qk_book k))))
    "checkpoint book differs from replayed segment prefix".

(** A cached payload applied to the book; controls leave it alone. *)
Definition apply_cached (book : LocalOrderBook) (event : CachedEvent) : res LocalOrderBook :=
  value ← map_err "invalid cached depth payload: " (value_from_slice (ce_payload event));
  control ← is_server_shutdown value;
  if control : bool then Ok book else
  let '(book, r) := apply_depth_value value book in _ ← r; Ok book.

(** The book behind the cached snapshot. *)
Definition cached_book (t : tree) (root : string) (m : QualifiedReplayCacheManifestV2) (check : CachedEvent → bool)
    : res LocalOrderBook :=
  payload ← visit_cache_events (snapshot_visit check) t root (cm_snapshot m) None;
  book ← book_new (cm_symbol m);
  payload ← ok_or payload "cache contains no snapshot";
  let '(book, r) := load_snapshot payload book in _ ← r; Ok book.

Record build_state := mkBuild {
  bs_writer : CheckpointWriter; bs_book : LocalOrderBook; bs_pending : option PendingDepthBoundary;
  bs_previous_key : option (Z * Z); bs_expected_ordinal : Z; bs_expected_offset : Z
}.

Definition build_visit (s : build_state) (event : CachedEvent) : res build_state :=
  _ ← reject (negb (ce_record_ordinal event =? bs_expected_ordinal s)
              || negb (ce_start_offset event =? bs_expected_offset s))
        "checkpoint source cache position is not continuous";
  let key := segment_key event in
  writer ← match bs_previous_key s with
           | Some old =>
               if bool_decide (key = old) then Ok (bs_writer s) else
               _ ← reject (key_regressed key old) "checkpoint source segment order regressed or repeated";
               pending ← ok_or (bs_pending s) "missing prior segment boundary";
               write_depth_boundary (bs_writer s) (bs_book s) pending
           | None => Ok (bs_writer s)
           end;
  book ← apply_cached (bs_book s) event;
  expected_ordinal ← ok_or (checked_add (bs_expected_ordinal s) 1) "checkpoint source ordinal overflow";
  Ok (mkBuild writer book (Some (boundary_of event)) (Some key) expected_ordinal (ce_end_offset event)).

(** The manifest and the files of the directory created at [destination]. *)
Definition build_qualified_replay_checkpoints (t : tree) (receipt : QualifiedCompleteReplayReceiptV1)
    (cache_root destination : string) : res (QualifiedReplayCheckpointManifestV1 * list (string * bytes)) :=
  _ ← validate_qualified_receipt receipt;
  cache_root ← t_canonicalize t cache_root;
  cache ← load_cache_manifest t cache_root true;
  _ ← validate_cache_binding receipt cache;
  destination ← destination_of t destination;
  _ ← reject (path_starts_with destination cache_root || path_starts_with cache_root destination)
        "checkpoint store and replay cache must be separate directories";
  _ ← reject (bool_decide (is_Some (t_kind t !! destination))) "create checkpoint directory";
  book ← cached_book t cache_root cache (λ e, (ce_generation_index e =? 0) && (ce_segment_index e =? 0));
  s ← visit_cache_events build_visit t cache_root (cm_depth cache)
        (mkBuild checkpoint_create book None None 0 (len CACHE_MAGIC));
  _ ← reject (negb (bs_expected_ordinal s =? ca_records (cm_depth cache))
              || negb (bs_expected_offset s =? ca_data_bytes (cm_depth cache)))
        "checkpoint source did not consume the exact depth cache";
  pending ← ok_or (bs_pending s) "depth cache contains no checkpoint boundary";
  writer ← write_depth_boundary (bs_writer s) (bs_book s) pending;
  let final_state_sha256 := state_digest (bs_book s) in
  let depth := rr_depth (qr_report receipt) in
  _ ← reject (negb (String.eqb final_state_sha256 (cd_state_sha256 depth))
              || negb (bool_decide (bk_last_update_id (bs_book s) = Some (cd_final_update_id depth))))
        "checkpoint build final book differs from qualified replay";
  artifact ← checkpoint_finish writer;
  _ ← reject (ka_checkpoints artifact =? 0) "checkpoint build produced no checkpoint";
  cache_file ← sha256_file (market_world t) (path_join cache_root "qualified-cache.json");
  let manifest := mkCheckpointManifest "QualifiedReplayCheckpointManifestV1" QUALIFIED_CHECKPOINT_USAGE "COMPLETE"
    false [] (qr_receipt_sha256 receipt) (qr_source_tree_sha256 receipt) (rr_report_sha256 (qr_report receipt))
    (cm_manifest_sha256 cache) cache_file (ca_data_sha256 (cm_depth cache)) (ca_index_sha256 (cm_depth cache))
    (cm_symbol cache) artifact final_state_sha256 "" in
  digest ← checkpoint_manifest_digest manifest;
  let manifest := set_checkpoint_manifest_sha256 digest manifest in
  encoded ← map_err "serialize checkpoint manifest: " (to_vec_pretty manifest);
  Ok (manifest, checkpoint_files writer ++ [("qualified-checkpoints.json"%string, encoded ++ [x0a])]).

(** ** Loading a store *)

Record read_state := mkReadState {
  rd_data : bytes; rd_index : bytes; rd_offset : Z; rd_previous_key : option (Z * Z);
  rd_previous_ordinal : option Z; rd_result : list QualifiedDepthCheckpointV1
}.

Definition read_checkpoint (s : read_state) : res read_state :=
  let start := rd_offset s in
  '(prefix, data) ← read_exact 4 (rd_data s) "checkpoint record length is truncated";
  let length := from_be_bytes prefix in
  _ ← reject (negb ((1 <=? length) && (length <=? MAX_CHECKPOINT_RECORD_BYTES))) "checkpoint record length is invalid";
  '(body, data) ← read_exact length data "checkpoint record body is truncated";
  '(stored_digest, data) ← read_exact 32 data "checkpoint record digest is truncated";
  _ ← reject (negb (bool_decide (stored_digest = sha256 body))) "checkpoint record digest is invalid";
  k ← map_err "invalid checkpoint record JSON: " (from_slice body);
  let msg := "checkpoint record contract or digest is invalid" in
  _ ← reject (negb (String.eqb (qk_schema k) "QualifiedDepthCheckpointV1")) msg;
  digest ← checkpoint_digest k;
  _ ← reject (negb (String.eqb (qk_checkpoint_sha256 k) digest) || negb (is_digest (qk_last_raw_record_sha256 k))) msg;
  next ← ok_or (checked_add (qk_last_record_ordinal k) 1) "checkpoint ordinal overflow";
  _ ← reject (negb (qk_next_record_ordinal k =? next)) msg;
  _ ← from_checkpoint (qk_book k);
  '(entry, index) ← read_exact CHECKPOINT_INDEX_ENTRY_BYTES (rd_index s) "checkpoint index entry is truncated";
  _ ← reject (negb (bool_decide (be_chunks 8 entry = checkpoint_entry start k)))
        "checkpoint index entry differs from checkpoint record";
  let key := (qk_generation_index k, qk_segment_index k) in
  _ ← reject (match rd_previous_key s with Some old => key_regressed key old | None => false end
              || match rd_previous_ordinal s with Some old => qk_last_record_ordinal k <=? old | None => false end)
        "checkpoint ordering regressed or repeated";
  offset ← ok_or (checked_add (rd_offset s) (4 + len body + 32)) "checkpoint reader offset overflow";
  Ok (mkReadState data index offset (Some key) (Some (qk_last_record_ordinal k)) (rd_result s ++ [k])).

Fixpoint read_checkpoints (n : nat) (s : read_state) : res read_state :=
  match n with
  | O => Ok s
  | S n => s ← read_checkpoint s; read_checkpoints n s
  end.

Definition read_checkpoint_records (t : tree) (root : string) (artifact : QualifiedReplayCheckpointArtifactV1)
    : res (list QualifiedDepthCheckpointV1) :=
  _ ← reject (negb (String.eqb (ka_data_file artifact) checkpoint_data_name)
              || negb (String.eqb (ka_index_file artifact) checkpoint_index_name)
              || negb (is_digest (ka_data_sha256 artifact)) || negb (is_digest (ka_index_sha256 artifact))
              || (ka_checkpoints artifact =? 0)) "checkpoint artifact contract is invalid";
  data_path ← cache_leaf root (ka_data_file artifact);
  index_path ← cache_leaf root (ka_index_file artifact);
  _ ← require_regular_file (market_world t) data_path "checkpoint data";
  _ ← require_regular_file (market_world t) index_path "checkpoint index";
  data_file ← open_file (t_files t) data_path;
  index_file ← open_file (t_files t) index_path;
  _ ← reject (negb (len data_file =? ka_data_bytes artifact) || negb (len index_file =? ka_index_bytes artifact))
        "checkpoint artifact length differs from manifest";
  expected_index_bytes ← index_size (ka_checkpoints artifact) CHECKPOINT_INDEX_ENTRY_BYTES
                           "checkpoint index size overflow";
  _ ← reject (negb (ka_index_bytes artifact =? expected_index_bytes))
        "checkpoint index size differs from checkpoint count";
  '(magic, data) ← read_exact 8 data_file "checkpoint data magic is truncated";
  _ ← reject (negb (bool_decide (magic = CHECKPOINT_MAGIC))) "checkpoint data magic is invalid";
  '(magic, index) ← read_exact 8 index_file "checkpoint index magic is truncated";
  _ ← reject (negb (bool_decide (magic = CHECKPOINT_INDEX_MAGIC))) "checkpoint index magic is invalid";
  s ← read_checkpoints (Z.to_nat (ka_checkpoints artifact))
        (mkReadState data index (len CHECKPOINT_MAGIC) None None []);
  _ ← reject (negb (bool_decide (rd_data s = [])) || negb (bool_decide (rd_index s = []))
              || negb (rd_offset s =? ka_data_bytes artifact)) "checkpoint artifact has an unmanifested tail";
  _ ← reject (negb (String.eqb (hex (sha256 data_file)) (ka_data_sha256 artifact))
              || negb (String.eqb (hex (sha256 index_file)) (ka_index_sha256 artifact)))
        "checkpoint artifact digest differs from manifest";
  Ok (rd_result s).

Definition load_checkpoint_manifest (t : tree) (root : string) : res (string * QualifiedReplayCheckpointManifestV1) :=
  root ← t_canonicalize t root;
  let path := path_join root "qualified-checkpoints.json" in
  _ ← require_regular_file (market_world t) path "checkpoint manifest";
  content ← open_file (t_files t) path;
  m ← map_err "invalid checkpoint manifest JSON: " (from_slice content);
  let msg := "checkpoint manifest contract or digest is invalid" in
  _ ← reject (negb (String.eqb (km_schema m) "QualifiedReplayCheckpointManifestV1")
              || negb (String.eqb (km_usage m) QUALIFIED_CHECKPOINT_USAGE)
              || negb (String.eqb (km_status m) "COMPLETE")
              || km_qualification_claim m || negb (bool_decide (km_economic_features m = []))
              || negb (is_digest (km_receipt_sha256 m)) || negb (is_digest (km_source_tree_sha256 m))
              || negb (is_digest (km_replay_report_sha256 m)) || negb (is_digest (km_cache_manifest_sha256 m))
              || negb (is_digest (km_cache_manifest_file_sha256 m))
              || negb (is_digest (km_cache_depth_data_sha256 m))
              || negb (is_digest (km_cache_depth_index_sha256 m))
              || negb (is_digest (km_final_state_sha256 m))) msg;
  digest ← checkpoint_manifest_digest m;
  _ ← reject (negb (String.eqb digest (km_manifest_sha256 m))) msg;
  _ ← exact_file_set t root
        ["qualified-checkpoints.json"%string; ka_data_file (km_artifact m); ka_index_file (km_artifact m)]
        "checkpoint directory file set differs from manifest";
  Ok (root, m).

(** ** Validating a store against its cache *)

Record validate_state := mkValidate {
  vs_book : LocalOrderBook; vs_checkpoint_index : nat; vs_previous_key : option (Z * Z);
  vs_boundary : option PendingDepthBoundary
}.

Definition validate_visit (checkpoints : list QualifiedDepthCheckpointV1) (s : validate_state) (event : CachedEvent)
    : res validate_state :=
  let key := segment_key event in
  checkpoint_index ←
    if match vs_previous_key s with Some old => negb (bool_decide (old = key)) | None => false end then
      k ← ok_or (checkpoints !! vs_checkpoint_index s) "checkpoint missing at segment boundary";
      boundary ← ok_or (vs_boundary s) "depth cache lost prior segment position";
      _ ← verify_depth_boundary k (vs_book s) boundary;
      Ok (S (vs_checkpoint_index s))
    else Ok (vs_checkpoint_index s);
  book ← apply_cached (vs_book s) event;
  Ok (mkValidate book checkpoint_index (Some key) (Some (boundary_of event))).

Definition validate_qualified_replay_checkpoints (t : tree) (receipt : QualifiedCompleteReplayReceiptV1)
    (cache_root checkpoint_root : string) : res QualifiedReplayCheckpointManifestV1 :=
  _ ← validate_qualified_receipt receipt;
  cache_root ← t_canonicalize t cache_root;
  cache ← load_cache_manifest t cache_root true;
  _ ← validate_cache_binding receipt cache;
  '(checkpoint_root, manifest) ← load_checkpoint_manifest t checkpoint_root;
  let msg := "checkpoint manifest is not bound to the selected cache and receipt" in
  _ ← reject (negb (String.eqb (km_receipt_sha256 manifest) (qr_receipt_sha256 receipt))
              || negb (String.eqb (km_source_tree_sha256 manifest) (qr_source_tree_sha256 receipt))
              || negb (String.eqb (km_replay_report_sha256 manifest) (rr_report_sha256 (qr_report receipt)))
              || negb (String.eqb (km_cache_manifest_sha256 manifest) (cm_manifest_sha256 cache))) msg;
  cache_file ← sha256_file (market_world t) (path_join cache_root "qualified-cache.json");
  _ ← reject (negb (String.eqb (km_cache_manifest_file_sha256 manifest) cache_file)
              || negb (String.eqb (km_cache_depth_data_sha256 manifest) (ca_data_sha256 (cm_depth cache)))
              || negb (String.eqb (km_cache_depth_index_sha256 manifest) (ca_index_sha256 (cm_depth cache)))
              || negb (String.eqb (km_symbol manifest) (cm_symbol cache))) msg;
  checkpoints ← read_checkpoint_records t checkpoint_root (km_artifact manifest);
  book ← cached_book t cache_root cache (λ _, true);
  s ← visit_cache_events (validate_visit checkpoints) t cache_root (cm_depth cache) (mkValidate book 0 None None);
  k ← ok_or (checkpoints !! vs_checkpoint_index s) "checkpoint missing at final segment boundary";
  boundary ← ok_or (vs_boundary s) "depth cache contains no final segment position";
  _ ← verify_depth_boundary k (vs_book s) boundary;
  _ ← reject (negb (S (vs_checkpoint_index s) =? length checkpoints)%nat
              || negb (String.eqb (state_digest (vs_book s)) (km_final_state_sha256 manifest))
              || negb (String.eqb (km_final_state_sha256 manifest) (cd_state_sha256 (rr_depth (qr_report receipt)))))
        "checkpoint coverage or final state differs from qualified replay";
  Ok manifest.

(** ** Windows *)

Definition decode_cached_event_at (data : bytes) (start_offset record_ordinal : Z) : res CachedEvent :=
  prefix_end ← ok_or (checked_add start_offset 4) "cache record prefix offset overflow";
  prefix ← ok_or (slice data start_offset prefix_end) "cache record length is truncated";
  let length := from_be_bytes prefix in
  _ ← reject (negb ((108 <=? length) && (length <=? MAX_CACHE_RECORD_BYTES))) "cache record length is invalid";
  body_end ← ok_or (checked_add prefix_end length) "cache record body offset overflow";
  digest_end ← ok_or (checked_add body_end 32) "cache record digest offset overflow";
  body ← ok_or (slice data prefix_end body_end) "cache record body is truncated";
  stored_digest ← ok_or (slice data body_end digest_end) "cache record digest is truncated";
  _ ← reject (negb (bool_decide (stored_digest = sha256 body))) "cache record digest is invalid";
  '(generation_index, segment_index, frame_index, receive_wall_ns, receive_mono_ns, record_sha256, payload) ←
    decode_body body;
  Ok (mkCachedEvent record_ordinal start_offset digest_end generation_index segment_index frame_index
        receive_wall_ns receive_mono_ns record_sha256 payload).

(** The loop of [open_verified] over the records in memory. *)
Fixpoint decode_all (data : bytes) (n : nat) (ordinal decoded_offset : Z) : res Z :=
  match n with
  | O => Ok decoded_offset
  | S n => event ← decode_cached_event_at data decoded_offset ordinal;
           decode_all data n (ordinal + 1) (ce_end_offset event)
  end.

Definition prepare_visit (s : LocalOrderBook * list PreparedCachedDepthEvent) (event : CachedEvent)
    : res (LocalOrderBook * list PreparedCachedDepthEvent) :=
  let '(book, depth_events) := s in
  value ← map_err "invalid cached depth payload: " (value_from_slice (ce_payload event));
  control ← is_server_shutdown value;
  if control : bool then Ok (book, depth_events ++ [Control]) else
  let '(book, r) := prepare_depth_value value book in
  prepared ← r;
  let '(book, r) := apply_prepared_depth prepared book in
  _ ← r;
  Ok (book, depth_events ++ [Market prepared]).

Definition open_verified (t : tree) (receipt : QualifiedCompleteReplayReceiptV1) (cache_root checkpoint_root : string)
    : res QualifiedDepthReplaySession :=
  _ ← validate_qualified_replay_checkpoints t receipt cache_root checkpoint_root;
  cache_root ← t_canonicalize t cache_root;
  cache ← load_cache_manifest t cache_root false;
  '(checkpoint_root, checkpoint_manifest) ← load_checkpoint_manifest t checkpoint_root;
  checkpoints ← read_checkpoint_records t checkpoint_root (km_artifact checkpoint_manifest);
  checkpoint_books ← try_map (λ k, from_checkpoint (qk_book k)) checkpoints;
  data_path ← cache_leaf cache_root (ca_data_file (cm_depth cache));
  depth_data ← open_file (t_files t) data_path;
  _ ← reject (negb (bool_decide (slice depth_data 0 8 = Some CACHE_MAGIC))
              || negb (len depth_data =? ca_data_bytes (cm_depth cache))
              || negb (String.eqb (hex (sha256 depth_data)) (ca_data_sha256 (cm_depth cache))))
        "depth cache changed after checkpoint validation";
  decoded_offset ← decode_all depth_data (Z.to_nat (ca_records (cm_depth cache))) 0 (len CACHE_MAGIC);
  _ ← reject (negb (decoded_offset =? ca_data_bytes (cm_depth cache)))
        "in-memory depth decoder did not consume exact cache bytes";
  decoder_book ← cached_book t cache_root cache (λ _, true);
  '(decoder_book, depth_events) ← visit_cache_events prepare_visit t cache_root (cm_depth cache) (decoder_book, []);
  _ ← reject (negb (len depth_events =? ca_records (cm_depth cache))
              || negb (String.eqb (state_digest decoder_book) (cd_state_sha256 (rr_depth (qr_report receipt)))))
        "prepared in-memory depth events differ from qualified replay";
  Ok (mkDepthSession (cm_symbol cache) checkpoints checkpoint_books depth_events).

Definition checkpoint_count (s : QualifiedDepthReplaySession) : nat := length (ss_checkpoints s).

Record window_state := mkWindowState {
  ws_ordinal : Z; ws_book : LocalOrderBook; ws_raw : Z; ws_market : Z; ws_control : Z; ws_old : Z; ws_applied : Z
}.
Definition window_turn (depth_events : list PreparedCachedDepthEvent) (s : window_state) : res window_state :=
  event ← ok_or (depth_events !! Z.to_nat (ws_ordinal s)) "window record ordinal is outside prepared events";
  s ← match event with
      | Control =>
          n ← add_u64 (ws_control s) 1;
          Ok (mkWindowState (ws_ordinal s) (ws_book s) (ws_raw s) (ws_market s) n (ws_old s) (ws_applied s))
      | Market update =>
          market ← add_u64 (ws_market s) 1;
          let '(book, r) := apply_prepared_depth update (ws_book s) in
          outcome ← r;
          match outcome with
          | Old => n ← add_u64 (ws_old s) 1;
                   Ok (mkWindowState (ws_ordinal s) book (ws_raw s) market (ws_control s) n (ws_applied s))
          | Applied => n ← add_u64 (ws_applied s) 1;
                       Ok (mkWindowState (ws_ordinal s) book (ws_raw s) market (ws_control s) (ws_old s) n)
          end
      end;
  raw ← add_u64 (ws_raw s) 1;
  ordinal ← ok_or (checked_add (ws_ordinal s) 1) "window record ordinal overflow";
  Ok (mkWindowState ordinal (ws_book s) raw (ws_market s) (ws_control s) (ws_old s) (ws_applied s)).
(** [while ordinal < end]: [n] rounds *)
Fixpoint window_rounds (depth_events : list PreparedCachedDepthEvent) (n : nat) (s : window_state) : res window_state :=
  match n with
  | O => Ok s
  | S n => s ← window_turn depth_events s; window_rounds depth_events n s
  end.

Definition replay_window (session : QualifiedDepthReplaySession) (start_checkpoint_index end_checkpoint_index : nat)
    : res NeutralDepthWindowReplayV1 :=
  _ ← reject (end_checkpoint_index <=? start_checkpoint_index)%nat "window requires start checkpoint before end checkpoint";
  start ← ok_or (ss_checkpoints session !! start_checkpoint_index) "start checkpoint index is outside the store";
  end_ ← ok_or (ss_checkpoints session !! end_checkpoint_index) "end checkpoint index is outside the store";
  book ← ok_or (ss_checkpoint_books session !! start_checkpoint_index) "start checkpoint book is outside the store";
  let first_record_ordinal := qk_next_record_ordinal start in
  s ← window_rounds (ss_depth_events session) (Z.to_nat (qk_next_record_ordinal end_ - first_record_ordinal))
        (mkWindowState first_record_ordinal book 0 0 0 0 0);
  _ ← reject (negb (ws_ordinal s =? qk_next_record_ordinal end_)) "window did not end at the selected checkpoint";
  expected ← ok_or (ss_checkpoint_books session !! end_checkpoint_index) "end checkpoint book is outside the store";
  let book := ws_book s in
  _ ← reject (negb (same_state book expected)) "checkpoint window replay differs from its end checkpoint";
  let '(bid_levels, ask_levels) := level_counts book in
  last_record_ordinal ← ok_or (checked_sub (ws_ordinal s) 1) "window selected no cache record";
  final_update_id ← ok_or (bk_last_update_id book) "window replay has no final update ID";
  let report := mkWindow "NeutralDepthWindowReplayV1" "EXACT" (ss_symbol session) false []
    (qk_checkpoint_sha256 start) (qk_checkpoint_sha256 end_) (qk_generation_index start) (qk_segment_index start)
    (qk_generation_index end_) (qk_segment_index end_) first_record_ordinal last_record_ordinal (ws_raw s)
    (ws_market s) (ws_control s) (ws_old s) (ws_applied s) final_update_id (Z.of_nat bid_levels)
    (Z.of_nat ask_levels) (state_digest book) "" in
  encoded ← map_err "serialize window report material: " (to_vec report);
  Ok (set_window_sha256 (hex (sha256 encoded)) report).
End checkpoints.

(** ** Theory *)

Section checkpoint_theory.
Context `{Hsha : Sha256} `{!Sha256Laws Hsha} `{Hval : SerdeValue} `{!SerdeValueLaws Hval}.
Context `{Hobj : !SerdeObject} `{Hb64 : Base64} `{Hmb : Serde ManifestBodyV1}.
Context `{Hcte : Serde CanonicalTradeEvent} `{Hpm : Serde ProofDigestMaterial} `{Hproof : Serde RawGenerationHandoverProofV1}.
Context `{Hrep : Serde CompleteRunReplayReportV1} `{Hrec : Serde QualifiedCompleteReplayReceiptV1}.
Context `{Hinv : Serde (list QualifiedReplaySourceFileV1)}.
Context `{Hcm : Serde QualifiedReplayCacheManifestV2} `{Hcp : SerdePretty QualifiedReplayCacheManifestV2}.
Context `{Hqk : Serde QualifiedDepthCheckpointV1}.
Context `{Hkm : Serde QualifiedReplayCheckpointManifestV1} `{Hkp : SerdePretty QualifiedReplayCheckpointManifestV1}.
Context `{Hnw : Serde NeutralDepthWindowReplayV1}.

(** *** The events of a stream that was read once *)

(** The fields of an event have their width, and it names a raw record. *)
Definition event_ok (e : CachedEvent) : Prop :=
  in_u64 (ce_generation_index e) ∧ in_u64 (ce_segment_index e) ∧ in_u64 (ce_frame_index e) ∧
  in_u64 (ce_end_offset e) ∧ is_digest (ce_record_sha256 e) = true.

Lemma take_u64_range body n rest : take_u64 body = Ok (n, rest) → in_u64 n.
Proof.
  unfold take_u64, read_exact. intros ([b r] & H & [= <- <-])%res_bind_Ok.
  apply res_bind_Ok in H as ([] & Hl%reject_Ok & [= <- <-]). unfold from_be_bytes.
  pose proof (from_le_bytes_range (rev (take (Z.to_nat 8) body))) as Hr. unfold len in *.
  rewrite length_rev, length_take in Hr. replace (Z.of_nat (Z.to_nat 8 `min` length body)) with 8 in Hr by lia.
  unfold in_u64, u64_max. lia.
Qed.
Lemma decode_body_ok body g i f w mo sh p :
  decode_body body = Ok (g, i, f, w, mo, sh, p) → in_u64 g ∧ in_u64 i ∧ in_u64 f ∧ is_digest sh = true.
Proof.
  unfold decode_body. intros ([x r1] & H1 & H)%res_bind_Ok. apply res_bind_Ok in H as ([y r2] & H2 & H).
  apply res_bind_Ok in H as ([z r3] & H3 & H). do 2 apply res_bind_Ok in H as ([? ?] & _ & H).
  apply res_bind_Ok in H as ([? ?] & _ & H). apply res_bind_Ok in H as ([] & Hd%reject_Ok & H).
  apply res_bind_Ok in H as ([? ?] & _ & H). apply res_bind_Ok in H as ([] & _ & [= <- <- <- <- <- <- <-]).
  apply take_u64_range in H1, H2, H3. apply negb_false_iff in Hd. done.
Qed.

(** [es] are the events of the stream: every visitor is folded over them. *)
Definition stream_events (t : tree) (root : string) (a : QualifiedReplayCacheArtifactV2) (es : list CachedEvent) : Prop :=
  (∀ A (visit : A → CachedEvent → res A) s, visit_cache_events visit t root a s = try_fold visit s es) ∧
  length es = Z.to_nat (ca_records a) ∧ ∀ n e, es !! n = Some e → ce_record_ordinal e = Z.of_nat n ∧ event_ok e.

Lemma visit_loop_events {A} (visit : A → CachedEvent → res A) n ordinal offset data index s s' offset' data' index' :
  0 ≤ offset → visit_loop visit n ordinal offset data index s = Ok (s', offset', data', index') →
  ∃ es, try_fold visit s es = Ok s' ∧ length es = n ∧
    (∀ k e, es !! k = Some e → ce_record_ordinal e = ordinal + Z.of_nat k ∧ event_ok e) ∧
    ∀ B (visit' : B → CachedEvent → res B) s0,
      visit_loop visit' n ordinal offset data index s0 = (s1 ← try_fold visit' s0 es; Ok (s1, offset', data', index')).
Proof.
  revert ordinal offset data index s. induction n as [|n IH]; intros ordinal offset data index s.
  { cbn [visit_loop]. intros _ [= -> -> -> ->]. exists []. split_and!; done. }
  cbn [visit_loop]. intros H0 ([[body d] data1] & Hr & H)%res_bind_Ok.
  apply res_bind_Ok in H as ([[[[[[g i] f] w] mo] sh] p] & Hb & H).
  apply res_bind_Ok in H as ([entry index1] & He & H). apply res_bind_Ok in H as ([] & Hc & H).
  apply res_bind_Ok in H as (o1 & Ho & H). apply res_bind_Ok in H as (s1 & Hs & H).
  pose proof Ho as [Hmax ->]%ok_or_Ok%checked_add_Some. pose proof (len_nonneg body).
  destruct (decode_body_ok _ _ _ _ _ _ _ _ Hb) as (Hg & Hi & Hfr & Hsh).
  apply IH in H as (es & Hf & Hl & Hord & Hall); [|lia]. eexists (_ :: es). split_and!.
  - cbn [try_fold]. rewrite Hs. done.
  - cbn [length]. by rewrite Hl.
  - intros [|k] e; cbn [lookup list_lookup]; [intros [= <-]; split; [cbn; lia|]; unfold event_ok, in_u64 in *; cbn; split_and!; (done || lia)|].
    intros Hk. apply Hord in Hk as [Hk ?]. split; [lia|done].
  - intros B visit' s0. rewrite Hr. cbn [mbind res_bind]. rewrite Hb. cbn [mbind res_bind]. rewrite He.
    cbn [mbind res_bind]. rewrite Hc. cbn [mbind res_bind]. rewrite Ho. cbn [mbind res_bind try_fold].
    destruct (visit' s0 _); cbn [mbind res_bind]; [apply Hall|done..].
Qed.

Lemma visit_events_inv {A} (visit : A → CachedEvent → res A) t root a s s' :
  visit_cache_events visit t root a s = Ok s' → ∃ es, stream_events t root a es ∧ try_fold visit s es = Ok s'.
Proof.
  unfold visit_cache_events at 1. intros (dp & Hdp & H)%res_bind_Ok. apply res_bind_Ok in H as (df & Hdf & H).
  apply res_bind_Ok in H as (ip & Hip & H). apply res_bind_Ok in H as (xf & Hxf & H).
  apply res_bind_Ok in H as ([m1 data] & Hm1 & H). apply res_bind_Ok in H as ([] & Hc1 & H).
  apply res_bind_Ok in H as ([m2 index] & Hm2 & H). apply res_bind_Ok in H as ([] & Hc2 & H).
  apply res_bind_Ok in H as ([[[s1 o] d] i] & Hl & H). apply res_bind_Ok in H as ([] & Ht & H).
  apply res_bind_Ok in H as ([] & Hd & [= ->]).
  apply visit_loop_events in Hl as (es & Hf & Hn & Hord & Hall); [|done]. exists es. split; [|done]. split_and!; [|done|].
  - intros B visit' s0. unfold visit_cache_events. rewrite Hdp. cbn [mbind res_bind]. rewrite Hdf. cbn [mbind res_bind].
    rewrite Hip. cbn [mbind res_bind]. rewrite Hxf. cbn [mbind res_bind]. rewrite Hm1. cbn [mbind res_bind].
    rewrite Hc1. cbn [mbind res_bind]. rewrite Hm2. cbn [mbind res_bind]. rewrite Hc2. cbn [mbind res_bind].
    rewrite Hall. destruct (try_fold visit' s0 es); cbn [mbind res_bind]; [|done..]. rewrite Ht. cbn [mbind res_bind].
    by rewrite Hd.
  - intros n e He. apply Hord in He as [He ?]. split; [lia|done].
Qed.

(** *** Books *)

Lemma apply_cached_ok b e b' : book_ok b → apply_cached b e = Ok b' → book_ok b'.
Proof.
  unfold apply_cached. intros Hb (v & _ & H)%res_bind_Ok. apply res_bind_Ok in H as ([] & _ & H); [by injection H as <-|].
  destruct (apply_depth_value v b) as [b1 r] eqn:E. apply res_bind_Ok in H as (o & -> & [= <-]).
  by apply apply_depth_value_ok in E as [? _].
Qed.
Lemma apply_all_ok b es b' : book_ok b → try_fold apply_cached b es = Ok b' → book_ok b'.
Proof. intros Hb H. apply (try_fold_inv book_ok) in H; [done|done|]. intros s e s' _ Hs Hstep. by eapply apply_cached_ok. Qed.

Lemma cached_book_ok t root m check b : cached_book t root m check = Ok b → book_ok b.
Proof.
  unfold cached_book. intros (p & _ & H)%res_bind_Ok. apply res_bind_Ok in H as (b1 & Hb1 & H).
  apply res_bind_Ok in H as (p' & _ & H). destruct (load_snapshot p' b1) as [b2 r] eqn:El.
  apply res_bind_Ok in H as (id & -> & [= <-]). by apply (load_snapshot_start _ _ _ _ _ Hb1 El).
Qed.

Lemma check_invariants_same b b' u : check_invariants b = (b', Ok u) → b' = b.
Proof.
  unfold check_invariants. intros (bk & E1 & Hg & H)%SE_bind_Ok. unfold get in Hg. injection Hg as <- <-.
  apply SE_bind_Ok in H as (bid & E2 & Hb & H). unfold lift in Hb. injection Hb as <- _.
  apply SE_bind_Ok in H as (ask & E3 & Ha & H). unfold lift in Ha. injection Ha as <- _.
  destruct (decimal_geb bid ask); [|by injection H as <-]. by apply SE_bind_Ok in H as (? & ? & _ & H).
Qed.

Lemma from_checkpoint_Ok ck b :
  from_checkpoint ck = Ok b →
  bk_state b = BookLive ∧ bk_last_update_id b = Some (ck_last_update_id ck) ∧ bk_fingerprint b = book_fp b.
Proof.
  unfold from_checkpoint. intros ([] & _ & H)%res_bind_Ok.
  apply res_bind_Ok in H as (b0 & Hb0 & H). apply res_bind_Ok in H as (bids & _ & H).
  apply res_bind_Ok in H as (asks & _ & H). set (b1 := mkBook _ _ _ _ _ _) in H.
  destruct (check_invariants b1) as [b2 [[]| |]] eqn:Hci; [|done..]. apply res_bind_Ok in H as ([] & _ & [= <-]).
  apply check_invariants_same in Hci as ->.
  unfold book_new in Hb0. apply res_bind_Ok in Hb0 as ([] & _ & [= <-]).
  subst b1. cbn [bk_state bk_last_update_id bk_fingerprint]. split_and!; [done..|].
  unfold book_fp. cbn [bk_bids bk_asks]. by rewrite !xor_side_fp, xor_fp_zero_l.
Qed.

(** A book with the state of a restored one is the restored one. *)
Lemma restored_same ck b restored :
  book_ok b → from_checkpoint ck = Ok restored → same_state b restored = true → b = restored.
Proof.
  intros (_ & _ & Hf & _) (Hst & _ & Hfp)%from_checkpoint_Ok Hs. unfold same_state in Hs. split_orb.
  repeat match goal with H : bool_decide _ = true |- _ => apply bool_decide_eq_true in H
                       | H : String.eqb _ _ = true |- _ => apply String.eqb_eq in H end.
  assert (bk_fingerprint b = bk_fingerprint restored) as E.
  { destruct Hf as [-> _]; [congruence|]. rewrite Hfp. unfold book_fp. congruence. }
  destruct b, restored. cbn in *. congruence.
Qed.

(** *** Prepared events *)

(** What a prepared event does to a book. *)
Definition prepared_book (b : LocalOrderBook) (ev : PreparedCachedDepthEvent) : res LocalOrderBook :=
  match ev with
  | Control => Ok b
  | Market u => let '(b, r) := apply_prepared_depth u b in _ ← r; Ok b
  end.

Lemma prepare_visit_inv b evs e b' evs' :
  prepare_visit (b, evs) e = Ok (b', evs') →
  ∃ ev, evs' = evs ++ [ev] ∧ apply_cached b e = Ok b' ∧ prepared_book b ev = Ok b'.
Proof.
  unfold prepare_visit. intros (v & Hv & H)%res_bind_Ok. apply res_bind_Ok in H as (c & Hc & H).
  unfold apply_cached. rewrite Hv. cbn [mbind res_bind]. rewrite Hc. cbn [mbind res_bind]. destruct c.
  - injection H as <- <-. by exists Control.
  - destruct (prepare_depth_value v b) as [b1 r] eqn:Ep. apply res_bind_Ok in H as (u & -> & H).
    destruct (apply_prepared_depth u b1) as [b2 r] eqn:Ea. apply res_bind_Ok in H as (o & -> & [= <- <-]).
    exists (Market u). split; [done|]. pose proof Ep as Ep'. apply prepare_spec in Ep' as (-> & _).
    unfold apply_depth_value, mbind, SE_bind. rewrite Ep. cbn [prepared_book]. by rewrite Ea.
Qed.

(** Every prefix of the prepared events leads to the book of the replayed prefix. *)
Lemma prepared_run es b evs b' evs' :
  try_fold prepare_visit (b, evs) es = Ok (b', evs') →
  ∃ new, evs' = evs ++ new ∧ length new = length es ∧
    ∀ n, ∃ bn, try_fold apply_cached b (take n es) = Ok bn ∧ try_fold prepared_book b (take n new) = Ok bn.
Proof.
  revert b evs. induction es as [|e es IH]; intros b evs.
  { intros [= <- <-]. exists []. rewrite app_nil_r. split_and!; [done..|]. intros n. exists b. by rewrite !take_nil. }
  cbn [try_fold]. intros ([b1 evs1] & H1 & H)%res_bind_Ok. apply prepare_visit_inv in H1 as (ev & -> & Ha & Hw).
  destruct (IH _ _ H) as (new & -> & Hl & Hn). exists (ev :: new). rewrite <-app_assoc. split_and!; [done|by cbn; rewrite Hl|].
  intros [|n]; [by exists b|]. destruct (Hn n) as (bn & H2 & H3). exists bn. cbn [take try_fold].
  rewrite Ha, Hw. cbn [mbind res_bind]. done.
Qed.

(** *** Windows *)

Definition counters_fit (s : window_state) (n : Z) : Prop :=
  ws_ordinal s + n ≤ u64_max ∧ ws_raw s ≤ ws_ordinal s ∧ 0 ≤ ws_raw s ∧
  ws_raw s = ws_market s + ws_control s ∧ ws_market s = ws_old s + ws_applied s ∧
  0 ≤ ws_control s ∧ 0 ≤ ws_old s ∧ 0 ≤ ws_applied s.

Lemma window_rounds_run evs n s b' :
  counters_fit s (Z.of_nat n) → (Z.to_nat (ws_ordinal s) + n ≤ length evs)%nat →
  try_fold prepared_book (ws_book s) (take n (drop (Z.to_nat (ws_ordinal s)) evs)) = Ok b' →
  ∃ s', window_rounds evs n s = Ok s' ∧ ws_book s' = b' ∧ ws_ordinal s' = ws_ordinal s + Z.of_nat n ∧
    ws_raw s' = ws_raw s + Z.of_nat n ∧ counters_fit s' 0.
Proof.
  revert s. induction n as [|n IH]; intros s Hfit Hlen H.
  { injection H as <-. exists s. split_and!; [done|done|lia|lia|]. exact Hfit. }
  assert (is_Some (evs !! Z.to_nat (ws_ordinal s))) as [ev Hev] by (apply lookup_lt_is_Some; lia).
  rewrite (drop_S _ _ _ Hev) in H. cbn [take try_fold] in H. apply res_bind_Ok in H as (b1 & H1 & H).
  cbn [window_rounds]. destruct Hfit as (F1 & F2 & F3 & F4 & F5 & F6 & F7 & F8).
  assert (∃ s1, window_turn evs s = Ok s1 ∧ ws_book s1 = b1 ∧ ws_ordinal s1 = ws_ordinal s + 1 ∧ ws_raw s1 = ws_raw s + 1 ∧
            counters_fit s1 (Z.of_nat n)) as (s1 & Hs1 & Eb & Eo & Er & Hfit1).
  { unfold window_turn. rewrite Hev. cbn [ok_or mbind res_bind]. destruct ev as [|u].
    - injection H1 as <-. rewrite add_u64_fits by lia. cbn [mbind res_bind ws_raw ws_ordinal].
      rewrite add_u64_fits by lia. cbn [mbind res_bind]. rewrite checked_add_fits by lia. cbn [ok_or mbind res_bind].
      eexists. split; [done|]. unfold counters_fit. cbn. split_and!; (done || lia).
    - cbn [prepared_book] in H1. rewrite (add_u64_fits (ws_market s)) by lia. cbn [mbind res_bind].
      destruct (apply_prepared_depth u (ws_book s)) as [b2 r]. apply res_bind_Ok in H1 as (o & -> & [= <-]).
      cbn [mbind res_bind]. destruct o; rewrite add_u64_fits by lia; cbn [mbind res_bind ws_raw ws_ordinal];
        rewrite add_u64_fits by lia; cbn [mbind res_bind ws_ordinal]; rewrite checked_add_fits by lia; cbn [ok_or mbind res_bind];
        (eexists; split; [done|]; unfold counters_fit; cbn; split_and!; (done || lia)). }
  rewrite Hs1. cbn [mbind res_bind].
  destruct (IH s1 Hfit1) as (s' & Hs' & E1 & E2 & E3 & E4).
  - rewrite Eo. lia.
  - rewrite Eb, Eo. replace (Z.to_nat (ws_ordinal s + 1)) with (S (Z.to_nat (ws_ordinal s))) by lia. done.
  - exists s'. split_and!; [done|done|lia|lia|done].
Qed.

(** *** What validation establishes *)

(** A checkpoint that was verified behind the first [n + 1] events, and the book there. *)
Definition checkpoint_at (es : list CachedEvent) (b0 : LocalOrderBook) (k : QualifiedDepthCheckpointV1) (n : nat)
    (b : LocalOrderBook) : Prop :=
  ∃ e, es !! n = Some e ∧ try_fold apply_cached b0 (take (S n) es) = Ok b ∧ verify_depth_boundary k b (boundary_of e) = Ok ().

Lemma validate_fold cps b0 es s :
  try_fold (validate_visit cps) (mkValidate b0 0 None None) es = Ok s →
  try_fold apply_cached b0 es = Ok (vs_book s) ∧ vs_boundary s = boundary_of <$> last es ∧
  ∀ i, (i < vs_checkpoint_index s)%nat → ∃ k n b, cps !! i = Some k ∧ checkpoint_at es b0 k n b.
Proof.
  intros H. apply (try_fold_prefix (λ pre s,
    try_fold apply_cached b0 pre = Ok (vs_book s) ∧ vs_boundary s = boundary_of <$> last pre ∧
    ∀ i, (i < vs_checkpoint_index s)%nat → ∃ k n b, cps !! i = Some k ∧ checkpoint_at pre b0 k n b) _ _ []) in H; [done| |].
  { split_and!; [done..|]. cbn. lia. }
  clear H s. intros pre e s s' _ (Hb & Hbd & Hv) H. unfold validate_visit in H.
  apply res_bind_Ok in H as (ci & Hci & H). apply res_bind_Ok in H as (b & Hab & [= <-]). cbn [vs_book vs_boundary vs_checkpoint_index].
  rewrite try_fold_app, Hb, last_snoc. cbn [mbind res_bind try_fold]. rewrite Hab. split_and!; [done..|].
  assert (∀ k n b, checkpoint_at pre b0 k n b → checkpoint_at (pre ++ [e]) b0 k n b) as Hmono.
  { intros k n b' (e' & He' & Hf & Hvf). exists e'. split_and!; [by apply lookup_app_l_Some| |done].
    apply lookup_lt_Some in He'. by rewrite take_app_le by lia. }
  destruct (match vs_previous_key s with Some old => _ | None => _ end).
  - apply res_bind_Ok in Hci as (k & Hk%ok_or_Ok & H). apply res_bind_Ok in H as (bd & Hbd'%ok_or_Ok & H).
    apply res_bind_Ok in H as ([] & Hvf & [= <-]). intros i Hi.
    destruct (decide (i = vs_checkpoint_index s)) as [->|Hne].
    + rewrite Hbd in Hbd'. apply fmap_Some in Hbd' as (e' & He' & ->).
      exists k, (pred (length pre)), (vs_book s). split; [done|]. apply Hmono. exists e'.
      rewrite last_lookup in He'. split_and!; [done| |done].
      rewrite take_ge; [done|]. destruct pre; [done|]. cbn. lia.
    + destruct (Hv i) as (k' & n & b' & ? & ?); [lia|]. exists k', n, b'. auto.
  - injection Hci as <-. intros i Hi. destruct (Hv i Hi) as (k & n & b' & ? & ?). exists k, n, b'. auto.
Qed.

(** The ordinals of the checkpoints that were read. *)
Definition ordinals_ok (ks : list QualifiedDepthCheckpointV1) : Prop :=
  Forall (λ k, qk_next_record_ordinal k = qk_last_record_ordinal k + 1 ∧ qk_next_record_ordinal k ≤ u64_max) ks ∧
  StronglySorted Z.lt (qk_last_record_ordinal <$> ks).

Lemma StronglySorted_snoc (l : list Z) x : StronglySorted Z.lt l → (∀ y, last l = Some y → y < x) → StronglySorted Z.lt (l ++ [x]).
Proof.
  induction l as [|a l IH]; intros Hs Hl; [by repeat constructor|]. apply StronglySorted_inv in Hs as [Hs Ha].
  cbn [app]. constructor.
  - apply IH; [done|]. intros y Hy. apply Hl. destruct l; [done|]. done.
  - apply Forall_app. split; [done|]. constructor; [|constructor]. destruct (last l) as [y|] eqn:Ey.
    + assert (y < x) by (apply Hl; destruct l; done). rewrite Forall_forall in Ha.
      assert (y ∈ l) as Hin by (rewrite last_lookup in Ey; by eapply list_elem_of_lookup_2). specialize (Ha _ Hin). lia.
    + apply last_None in Ey as ->. by apply Hl.
Qed.

Lemma read_checkpoints_ordinals n s s' :
  rd_previous_ordinal s = qk_last_record_ordinal <$> last (rd_result s) → ordinals_ok (rd_result s) →
  read_checkpoints n s = Ok s' → ordinals_ok (rd_result s').
Proof.
  revert s. induction n as [|n IH]; intros s Hp Hok; [by intros [= <-]|]. cbn [read_checkpoints].
  intros (s1 & H & Hrest)%res_bind_Ok. eapply IH; [..|exact Hrest]; clear Hrest IH; unfold read_checkpoint in H;
    do 1 apply res_bind_Ok in H as ([? ?] & _ & H); apply res_bind_Ok in H as ([] & _ & H);
    do 2 apply res_bind_Ok in H as ([? ?] & _ & H); apply res_bind_Ok in H as ([] & _ & H);
    apply res_bind_Ok in H as (k & _ & H); apply res_bind_Ok in H as ([] & _ & H);
    apply res_bind_Ok in H as (d & _ & H); apply res_bind_Ok in H as ([] & _ & H);
    apply res_bind_Ok in H as (nx & Hnx%ok_or_Ok%checked_add_Some & H); apply res_bind_Ok in H as ([] & Hn%reject_Ok & H);
    apply res_bind_Ok in H as (? & _ & H); apply res_bind_Ok in H as ([? ?] & _ & H);
    apply res_bind_Ok in H as ([] & _ & H); apply res_bind_Ok in H as ([] & Ho%reject_Ok & H);
    apply res_bind_Ok in H as (? & _ & [= <-]); cbn [rd_previous_ordinal rd_result].
  - by rewrite last_snoc.
  - apply negb_false_iff, Z.eqb_eq in Hn. destruct Hnx as [Hmax ->]. destruct Hok as [H1 H2]. split.
    + apply Forall_app. split; [done|]. constructor; [|constructor]. lia.
    + rewrite fmap_app. apply StronglySorted_snoc; [done|]. intros y Hy. rewrite fmap_last, <-Hp in Hy. rewrite Hy in Ho.
      apply orb_false_iff in Ho as [_ Ho]. lia.
Qed.

Lemma read_records_ordinals t root a ks : read_checkpoint_records t root a = Ok ks → ordinals_ok ks.
Proof.
  unfold read_checkpoint_records. intros ([] & _ & H)%res_bind_Ok. do 2 apply res_bind_Ok in H as (? & _ & H).
  do 2 apply res_bind_Ok in H as ([] & _ & H). do 2 apply res_bind_Ok in H as (? & _ & H).
  apply res_bind_Ok in H as ([] & _ & H). apply res_bind_Ok in H as (? & _ & H). apply res_bind_Ok in H as ([] & _ & H).
  apply res_bind_Ok in H as ([? ?] & _ & H). apply res_bind_Ok in H as ([] & _ & H).
  apply res_bind_Ok in H as ([? ?] & _ & H). apply res_bind_Ok in H as ([] & _ & H).
  apply res_bind_Ok in H as (s & Hs & H). do 2 apply res_bind_Ok in H as ([] & _ & H). injection H as <-.
  eapply read_checkpoints_ordinals; [..|exact Hs]; [done|]. split; constructor.
Qed.

Lemma verify_boundary_inv k b bd :
  verify_depth_boundary k b bd = Ok () →
  qk_last_record_ordinal k = pb_record_ordinal bd ∧ state_digest b = ck_state_sha256 (qk_book k) ∧
  ∃ restored, from_checkpoint (qk_book k) = Ok restored ∧ same_state b restored = true.
Proof.
  unfold verify_depth_boundary. intros ([] & H1%reject_Ok & H)%res_bind_Ok. split_orb.
  apply res_bind_Ok in H as (restored & Hr & H%reject_Ok). split_orb.
  split_and!; [lia|by apply String.eqb_eq|by exists restored].
Qed.

Lemma load_cache_unique t root b b' m m' :
  load_cache_manifest t root b = Ok m → load_cache_manifest t root b' = Ok m' → m = m'.
Proof.
  unfold load_cache_manifest. intros (r & Hr & H)%res_bind_Ok (r' & Hr' & H')%res_bind_Ok.
  rewrite Hr in Hr'. injection Hr' as <-.
  apply res_bind_Ok in H as ([] & _ & H), H' as ([] & _ & H').
  apply res_bind_Ok in H as (f & Hf & H), H' as (f' & Hf' & H'). rewrite Hf in Hf'. injection Hf' as <-.
  apply res_bind_Ok in H as (x & Hx & H), H' as (x' & Hx' & H'). rewrite Hx in Hx'. injection Hx' as <-.
  apply res_bind_Ok in H as ([] & _ & H), H' as ([] & _ & H').
  apply res_bind_Ok in H as (? & _ & H), H' as (? & _ & H').
  do 5 apply res_bind_Ok in H as ([] & _ & H). do 5 apply res_bind_Ok in H' as ([] & _ & H'). congruence.
Qed.

(** A store that validation accepted: every checkpoint was verified at an event of the
    cached depth stream. *)
Record store_validated (t : tree) (receipt : QualifiedCompleteReplayReceiptV1) (cache_root checkpoint_root : string)
    (cr : string) (cache : QualifiedReplayCacheManifestV2) (kr : string) (m : QualifiedReplayCheckpointManifestV1)
    (es : list CachedEvent) (b0 : LocalOrderBook) (ks : list QualifiedDepthCheckpointV1) : Prop := {
  sv_root : t_canonicalize t cache_root = Ok cr;
  sv_cache : load_cache_manifest t cr true = Ok cache;
  sv_manifest : load_checkpoint_manifest t checkpoint_root = Ok (kr, m);
  sv_records : read_checkpoint_records t kr (km_artifact m) = Ok ks;
  sv_book : cached_book t cr cache (λ _, true) = Ok b0;
  sv_events : stream_events t cr (cm_depth cache) es;
  sv_checkpoints : ∀ i k, ks !! i = Some k → ∃ n b, checkpoint_at es b0 k n b
}.

Lemma validate_inv t receipt cache_root checkpoint_root m :
  validate_qualified_replay_checkpoints t receipt cache_root checkpoint_root = Ok m →
  ∃ cr cache kr es b0 ks, store_validated t receipt cache_root checkpoint_root cr cache kr m es b0 ks.
Proof.
  unfold validate_qualified_replay_checkpoints. intros ([] & _ & H)%res_bind_Ok. apply res_bind_Ok in H as (cr & Hcr & H).
  apply res_bind_Ok in H as (cache & Hcache & H). apply res_bind_Ok in H as ([] & _ & H).
  apply res_bind_Ok in H as ([kr m'] & Hm & H). apply res_bind_Ok in H as ([] & _ & H).
  apply res_bind_Ok in H as (cf & _ & H). apply res_bind_Ok in H as ([] & _ & H).
  apply res_bind_Ok in H as (ks & Hks & H). apply res_bind_Ok in H as (b0 & Hb0 & H).
  apply res_bind_Ok in H as (s & Hs & H). apply res_bind_Ok in H as (k & Hk%ok_or_Ok & H).
  apply res_bind_Ok in H as (bd & Hbd%ok_or_Ok & H). apply res_bind_Ok in H as ([] & Hv & H).
  apply res_bind_Ok in H as ([] & Hfin%reject_Ok & [= ->]). split_orb.
  apply visit_events_inv in Hs as (es & Hes & Hfold). apply validate_fold in Hfold as (Hb & Hlast & Hat).
  exists cr, cache, kr, es, b0, ks. constructor; try done. intros i k' Hk'.
  destruct (decide (i < vs_checkpoint_index s)%nat) as [Hi|Hi].
  - destruct (Hat i Hi) as (k1 & n & b & Hk1 & Hc). exists n, b. congruence.
  - assert (i = vs_checkpoint_index s) as ->.
    { apply lookup_lt_Some in Hk'. match goal with H : (_ =? _)%nat = true |- _ => apply Nat.eqb_eq in H end. lia. }
    assert (k' = k) as -> by congruence. rewrite Hlast in Hbd. apply fmap_Some in Hbd as (e & He & ->).
    rewrite last_lookup in He. exists (pred (length es)), (vs_book s), e. split_and!; [done| |done].
    rewrite take_ge; [done|]. destruct es; [done|]. cbn. lia.
Qed.

(** The ordinal a checkpoint was verified at is the one it names, and its book is the one of
    the replayed prefix. *)
Lemma validated_checkpoint t receipt cache_root checkpoint_root cr cache kr m es b0 ks i k :
  store_validated t receipt cache_root checkpoint_root cr cache kr m es b0 ks → ks !! i = Some k →
  0 ≤ qk_last_record_ordinal k ∧ (Z.to_nat (qk_last_record_ordinal k) < length es)%nat ∧
  ∃ b, try_fold apply_cached b0 (take (S (Z.to_nat (qk_last_record_ordinal k))) es) = Ok b ∧
    from_checkpoint (qk_book k) = Ok b ∧ state_digest b = ck_state_sha256 (qk_book k).
Proof.
  intros Hsv Hk. destruct (sv_checkpoints _ _ _ _ _ _ _ _ _ _ _ Hsv i k Hk) as (n & b & e & He & Hf & Hv).
  apply verify_boundary_inv in Hv as (Hord & Hd & restored & Hr & Hs). cbn [pb_record_ordinal boundary_of] in Hord.
  destruct (sv_events _ _ _ _ _ _ _ _ _ _ _ Hsv) as (_ & _ & Hords). rewrite (proj1 (Hords _ _ He)) in Hord.
  rewrite Hord, Nat2Z.id. split; [lia|]. split; [by eapply lookup_lt_Some|]. exists b.
  assert (book_ok b) as Hb by (eapply apply_all_ok; [eapply cached_book_ok, (sv_book _ _ _ _ _ _ _ _ _ _ _ Hsv)|done]).
  rewrite Hr. by rewrite <-(restored_same _ _ _ Hb Hr Hs).
Qed.

Lemma sorted_lookup_lt (l : list Z) i j x y :
  StronglySorted Z.lt l → (i < j)%nat → l !! i = Some x → l !! j = Some y → x < y.
Proof.
  intros Hs. revert i j. induction Hs as [|a l _ IH Ha]; intros [|i] [|j] Hij Hx Hy; try done; try lia.
  - injection Hx as <-. rewrite Forall_lookup in Ha. by eapply Ha.
  - apply (IH i j); [lia|done..].
Qed.

(** *** Sessions *)

Lemma session_open_inv t receipt cache_root checkpoint_root session :
  open_verified t receipt cache_root checkpoint_root = Ok session →
  ∃ cr cache kr m es b0,
    store_validated t receipt cache_root checkpoint_root cr cache kr m es b0 (ss_checkpoints session) ∧
    try_map (λ k, from_checkpoint (qk_book k)) (ss_checkpoints session) = Ok (ss_checkpoint_books session) ∧
    ss_symbol session = cm_symbol cache ∧ length (ss_depth_events session) = length es ∧
    ∀ n, ∃ bn, try_fold apply_cached b0 (take n es) = Ok bn ∧
      try_fold prepared_book b0 (take n (ss_depth_events session)) = Ok bn.
Proof.
  unfold open_verified. intros (m & Hval' & H)%res_bind_Ok.
  apply validate_inv in Hval' as (cr & cache & kr & es & b0 & ks & Hsv). pose proof Hsv as [E1 E2 E3 E4 E5 E6 _].
  rewrite E1 in H. cbn [mbind res_bind] in H. apply res_bind_Ok in H as (cache' & Hc & H).
  rewrite <-(load_cache_unique _ _ _ _ _ _ E2 Hc) in *. rewrite E3 in H. cbn [mbind res_bind] in H.
  rewrite E4 in H. cbn [mbind res_bind] in H. apply res_bind_Ok in H as (books & Hbooks & H).
  apply res_bind_Ok in H as (dp & _ & H). apply res_bind_Ok in H as (dd & _ & H). apply res_bind_Ok in H as ([] & _ & H).
  apply res_bind_Ok in H as (off & _ & H). apply res_bind_Ok in H as ([] & _ & H).
  rewrite E5 in H. cbn [mbind res_bind] in H. apply res_bind_Ok in H as ([db evs] & Hp & H).
  apply res_bind_Ok in H as ([] & _ & [= <-]). rewrite (proj1 E6) in Hp. apply prepared_run in Hp as (new & -> & Hl & Hn).
  exists cr, cache, kr, m, es, b0. cbn [ss_checkpoints ss_checkpoint_books ss_symbol ss_depth_events]. by split_and!.
Qed.

(** What the report of a window says: the records between the two checkpoints, and the
    position and state of [b]. *)
Definition window_report (session : QualifiedDepthReplaySession) (start end_ : QualifiedDepthCheckpointV1)
    (b : LocalOrderBook) (w : NeutralDepthWindowReplayV1) : Prop :=
  nw_symbol w = ss_symbol session ∧ nw_cross_stream_total_order_available w = false ∧ nw_economic_features w = [] ∧
  nw_start_checkpoint_sha256 w = qk_checkpoint_sha256 start ∧ nw_end_checkpoint_sha256 w = qk_checkpoint_sha256 end_ ∧
  nw_first_record_ordinal w = qk_last_record_ordinal start + 1 ∧ nw_last_record_ordinal w = qk_last_record_ordinal end_ ∧
  nw_raw_records w = qk_last_record_ordinal end_ - qk_last_record_ordinal start ∧
  nw_raw_records w = nw_market_records w + nw_control_records w ∧
  nw_market_records w = nw_old_records w + nw_applied_records w ∧
  bk_last_update_id b = Some (nw_final_update_id w) ∧ nw_bid_levels w = len (bk_bids b) ∧ nw_ask_levels w = len (bk_asks b) ∧
  nw_state_sha256 w = state_digest b ∧ nw_state_sha256 w = ck_state_sha256 (qk_book end_).

(** C19: in a session that was opened, every window between two checkpoints replays. The
    replay from the stored book over the prepared events never fails, counts exactly the
    records between the two checkpoints, and ends in the book that a replay of the whole
    cached depth stream from the snapshot has at the last record of the window, which is
    the book of the end checkpoint. *)
Theorem windows_replay_exactly t receipt cache_root checkpoint_root session i j start end_ :
  SerdeTotal NeutralDepthWindowReplayV1 Hnw →
  open_verified t receipt cache_root checkpoint_root = Ok session → (i < j)%nat →
  ss_checkpoints session !! i = Some start → ss_checkpoints session !! j = Some end_ →
  ∃ root cache es b0 b w,
    t_canonicalize t cache_root = Ok root ∧ load_cache_manifest t root true = Ok cache ∧
    stream_events t root (cm_depth cache) es ∧ cached_book t root cache (λ _, true) = Ok b0 ∧
    try_fold apply_cached b0 (take (Z.to_nat (qk_next_record_ordinal end_)) es) = Ok b ∧
    replay_window session i j = Ok w ∧ window_report session start end_ b w.
Proof.
  intros Hser (cr & cache & kr & m & es & b0 & Hsv & Hbooks & _ & Hlen & Hrun)%session_open_inv Hij Hi Hj.
  destruct (validated_checkpoint _ _ _ _ _ _ _ _ _ _ _ _ _ Hsv Hi) as (Pi & Li & bi & Fi & Ri & Di).
  destruct (validated_checkpoint _ _ _ _ _ _ _ _ _ _ _ _ _ Hsv Hj) as (Pj & Lj & bj & Fj & Rj & Dj).
  destruct (read_records_ordinals _ _ _ _ (sv_records _ _ _ _ _ _ _ _ _ _ _ Hsv)) as [Hnext Hsort].
  rewrite Forall_lookup in Hnext. destruct (Hnext _ _ Hi) as [Ni _]. destruct (Hnext _ _ Hj) as [Nj Mj].
  assert (qk_last_record_ordinal start < qk_last_record_ordinal end_) as Hlt.
  { apply (sorted_lookup_lt _ i j _ _ Hsort Hij); by rewrite list_lookup_fmap, ?Hi, ?Hj. }
  set (p := qk_last_record_ordinal start) in *. set (q := qk_last_record_ordinal end_) in *.
  assert (∀ k c, ss_checkpoints session !! k = Some c → ∀ b, from_checkpoint (qk_book c) = Ok b →
            ss_checkpoint_books session !! k = Some b) as Hbk.
  { intros k c Hc b Hb. apply try_map_Ok_Forall2 in Hbooks. destruct (Forall2_lookup_l _ _ _ _ _ Hbooks Hc) as (b' & Hb' & E).
    congruence. }
  assert (try_fold prepared_book bi (take (Z.to_nat (q - p)) (drop (Z.to_nat (p + 1)) (ss_depth_events session))) = Ok bj) as Hw.
  { destruct (Hrun (S (Z.to_nat p))) as (b1 & G1 & W1). destruct (Hrun (S (Z.to_nat q))) as (b2 & G2 & W2).
    assert (b1 = bi) as -> by congruence. assert (b2 = bj) as -> by congruence.
    replace (S (Z.to_nat q)) with (S (Z.to_nat p) + Z.to_nat (q - p))%nat in W2 by lia.
    rewrite <-take_take_drop, try_fold_app, W1 in W2. cbn [mbind res_bind] in W2.
    replace (Z.to_nat (p + 1)) with (S (Z.to_nat p)) by lia. done. }
  exists cr, cache, es, b0, bj. destruct (window_rounds_run (ss_depth_events session) (Z.to_nat (q - p))
    (mkWindowState (p + 1) bi 0 0 0 0 0) bj) as (s & Hs & Eb & Eo & Er & Hfit).
  { unfold counters_fit. cbn. split_and!; lia. } { cbn [ws_ordinal]. lia. } { done. }
  cbn [ws_ordinal ws_raw] in Eo, Er. destruct Hfit as (_ & _ & _ & C1 & C2 & _).
  destruct (from_checkpoint_Ok _ _ Rj) as (_ & Hid & _).
  assert (same_state bj bj = true) as Hsame.
  { unfold same_state. by rewrite String.eqb_refl, !bool_decide_eq_true_2. }
  assert (replay_window session i j
    = (let report := mkWindow "NeutralDepthWindowReplayV1" "EXACT" (ss_symbol session) false []
         (qk_checkpoint_sha256 start) (qk_checkpoint_sha256 end_) (qk_generation_index start) (qk_segment_index start)
         (qk_generation_index end_) (qk_segment_index end_) (p + 1) q (ws_raw s) (ws_market s) (ws_control s) (ws_old s)
         (ws_applied s) (ck_last_update_id (qk_book end_)) (len (bk_bids bj)) (len (bk_asks bj)) (state_digest bj) "" in
       encoded ← map_err "serialize window report material: " (to_vec report);
       Ok (set_window_sha256 (hex (sha256 encoded)) report))) as Hrw.
  { unfold replay_window. rewrite (proj2 (Nat.leb_gt _ _) Hij). cbn [reject mbind res_bind]. rewrite Hi, Hj.
    cbn [ok_or mbind res_bind]. rewrite (Hbk _ _ Hi _ Ri). cbn [ok_or mbind res_bind]. rewrite Ni, Nj.
    replace (q + 1 - (p + 1)) with (q - p) by lia. rewrite Hs. cbn [mbind res_bind].
    rewrite Eo, Z2Nat.id by lia. replace (p + 1 + (q - p)) with (q + 1) by lia. rewrite Z.eqb_refl.
    cbn [negb reject mbind res_bind]. rewrite (Hbk _ _ Hj _ Rj). cbn [ok_or mbind res_bind]. rewrite Eb, Hsame.
    cbn [negb reject mbind res_bind level_counts]. rewrite checked_sub_fits by lia. cbn [ok_or mbind res_bind].
    rewrite Hid. cbn [ok_or mbind res_bind]. replace (q + 1 - 1) with q by lia. done. }
  match type of Hrw with _ = (let report := ?r in _) => destruct (Hser r) as [encoded Henc]; set (report := r) in * end.
  cbn zeta in Hrw. rewrite Henc in Hrw. cbn [map_err mbind res_bind] in Hrw. eexists.
  split_and!; [apply Hsv..| |exact Hrw|].
  - rewrite Nj. replace (Z.to_nat (q + 1)) with (S (Z.to_nat q)) by lia. done.
  - unfold window_report. subst report. cbn. rewrite Er, Z2Nat.id by lia. split_and!; (done || lia).
Qed.

(** *** What a build writes *)

(** A book whose checkpoint restores it. *)
Definition saved_ok (b : LocalOrderBook) : Prop :=
  (∃ symbol, book_reachable symbol b) ∧ in_scope (bk_symbol b) = true ∧
  (bk_state b = BookLive → bk_bids b ≠ [] ∧ bk_asks b ≠ []).

Lemma apply_cached_saved b e b' : saved_ok b → apply_cached b e = Ok b' → saved_ok b'.
Proof.
  intros ([symbol Hr] & Hs & Hn) H. pose proof (book_reachable_inv _ _ Hr) as Hb. unfold apply_cached in H.
  apply res_bind_Ok in H as (v & Hv%map_err_Ok & H). apply res_bind_Ok in H as (c & _ & H).
  destruct c; [injection H as <-; split_and!; eauto|].
  destruct (apply_depth_value v b) as [b1 r] eqn:E. apply res_bind_Ok in H as (o & -> & [= <-]).
  assert (apply_depth (ce_payload e) b = (b1, Ok o)) as Ha by (unfold apply_depth, mbind, SE_bind, lift; by rewrite Hv).
  split. { exists symbol. eapply reach_step; [exact Hr|]. by eapply step_depth. }
  unfold apply_depth_value in E. apply SE_bind_Ok in E as (u & b2 & Hp & E). apply prepare_spec in Hp as (-> & _ & Hu & _).
  apply apply_prepared_spec in E as [_ E]; [|done..]. destruct o.
  - destruct E as (_ & f & l & bs & asks & last & _ & _ & _ & (-> & _) & H1 & H2 & _). done.
  - by subst b1.
Qed.
Lemma apply_all_saved b es b' : saved_ok b → try_fold apply_cached b es = Ok b' → saved_ok b'.
Proof. intros Hb H. apply (try_fold_inv saved_ok) in H; [done|done|]. intros s e s' _ Hs Hstep. by eapply apply_cached_saved. Qed.

Lemma load_snapshot_syncing p b b' id : load_snapshot p b = (b', Ok id) → bk_state b' = BookSyncing.
Proof.
  unfold load_snapshot. intros H. repeat (apply SE_bind_Ok in H as (? & ? & ? & H)).
  unfold mret, SE_ret in H. injection H as <- _.
  match goal with H : check_invariants _ = _ |- _ => apply check_invariants_same in H as -> end.
  match goal with H : modify (set_state BookSyncing) _ = _ |- _ => unfold modify in H; by injection H as <- end.
Qed.

Lemma cached_book_saved t root m check b : cached_book t root m check = Ok b → saved_ok b.
Proof.
  unfold cached_book. intros (p & _ & H)%res_bind_Ok. apply res_bind_Ok in H as (b1 & Hb1 & H).
  apply res_bind_Ok in H as (p' & _ & H). destruct (load_snapshot p' b1) as [b2 r] eqn:El.
  apply res_bind_Ok in H as (id & -> & [= <-]). destruct (load_snapshot_start _ _ _ _ _ Hb1 El) as (_ & Esym & Hrep').
  assert (in_scope (cm_symbol m) = true) as Hscope.
  { unfold book_new in Hb1. apply res_bind_Ok in Hb1 as ([] & Hg%reject_Ok & _). by apply negb_false_iff in Hg. }
  split. { exists (cm_symbol m). eapply reach_step; [by apply reach_new|]. by eapply step_snapshot. }
  split; [by rewrite Esym|]. intros Hlive.
  rewrite (load_snapshot_syncing _ _ _ _ El) in Hlive. done.
Qed.

(** *** Writing and reading checkpoints *)

(** A checkpoint and its text. *)
Notation sealed := (QualifiedDepthCheckpointV1 * bytes)%type.
Definition sealed_bytes (kb : sealed) : Z := 36 + len kb.2.
Definition sealed_data (kbs : list sealed) : bytes := kbs ≫= λ kb, be32 (len kb.2) ++ kb.2 ++ sha256 kb.2.
Fixpoint sealed_index (offset : Z) (kbs : list sealed) : bytes :=
  match kbs with
  | [] => []
  | kb :: kbs => (checkpoint_entry offset kb.1 ≫= be64) ++ sealed_index (offset + sealed_bytes kb) kbs
  end.
Definition sealed_total (kbs : list sealed) : Z := foldr (λ kb n, sealed_bytes kb + n) 0 kbs.

(** What the reader asks of one checkpoint. *)
Definition sealed_ok (kb : sealed) : Prop :=
  let k := kb.1 in
  to_vec k = inr kb.2 ∧ len kb.2 ≤ MAX_CHECKPOINT_RECORD_BYTES ∧ qk_schema k = "QualifiedDepthCheckpointV1"%string ∧
  checkpoint_digest k = Ok (qk_checkpoint_sha256 k) ∧ is_digest (qk_last_raw_record_sha256 k) = true ∧
  qk_next_record_ordinal k = qk_last_record_ordinal k + 1 ∧ qk_next_record_ordinal k ≤ u64_max ∧
  is_ok (from_checkpoint (qk_book k)) = true ∧ Forall in_u64 (tail (checkpoint_entry 0 k)).

Definition checkpoint_key (k : QualifiedDepthCheckpointV1) : Z * Z := (qk_generation_index k, qk_segment_index k).
(** Each in a later segment, at a later record. *)
Definition follows_key (previous : option (Z * Z * Z)) (key : Z * Z) (ordinal : Z) : Prop :=
  ∀ old, previous = Some old → key_regressed key old.1 = false ∧ old.2 < ordinal.
Fixpoint ordered_from (previous : option (Z * Z * Z)) (ks : list QualifiedDepthCheckpointV1) : Prop :=
  match ks with
  | [] => True
  | k :: ks => follows_key previous (checkpoint_key k) (qk_last_record_ordinal k) ∧
               ordered_from (Some (checkpoint_key k, qk_last_record_ordinal k)) ks
  end.
Definition position_behind (previous : option (Z * Z * Z)) (ks : list QualifiedDepthCheckpointV1) : option (Z * Z * Z) :=
  match last ks with Some k => Some (checkpoint_key k, qk_last_record_ordinal k) | None => previous end.

Lemma be_chunks_bind l : Forall in_u64 l → be_chunks (length l) (l ≫= be64) = l.
Proof.
  induction 1 as [|x l Hx _ IH]; [done|]. cbn [length be_chunks]. change ((x :: l) ≫= be64) with (be64 x ++ (l ≫= be64)).
  assert (length (be64 x) = 8%nat) as <- by (pose proof (len_be64 x) as E; unfold len in E; lia).
  by rewrite take_app_length, drop_app_length, from_be64, IH.
Qed.
Lemma len_bind_be64 l : len (l ≫= be64) = 8 * len l.
Proof.
  induction l as [|x l IH]; [done|]. change ((x :: l) ≫= be64) with (be64 x ++ (l ≫= be64)).
  rewrite len_app, len_be64, len_cons, IH. lia.
Qed.
Lemma sealed_total_nonneg kbs : 0 ≤ sealed_total kbs.
Proof.
  induction kbs as [|kb kbs IH]; [done|]. cbn [sealed_total foldr]. fold (sealed_total kbs). unfold sealed_bytes.
  pose proof (len_nonneg kb.2). lia.
Qed.

#[local] Opaque be64 be32.

Section read_back.
Context `{!SerdeLaws _ Hqk} `{!SerdeNonempty _ Hqk}.

Lemma read_checkpoint_back kb rest rest' offset previous acc :
  sealed_ok kb → follows_key previous (checkpoint_key kb.1) (qk_last_record_ordinal kb.1) →
  0 ≤ offset → offset + sealed_bytes kb ≤ u64_max →
  read_checkpoint (mkReadState (sealed_data [kb] ++ rest) (sealed_index offset [kb] ++ rest') offset
    (fst <$> previous) (snd <$> previous) acc)
  = Ok (mkReadState rest rest' (offset + sealed_bytes kb) (Some (checkpoint_key kb.1))
          (Some (qk_last_record_ordinal kb.1)) (acc ++ [kb.1])).
Proof.
  intros (Hv & Hmax & Hsch & Hdig & Hraw & Hnext & Hn & Hck & Hent) Hfol H0 Hoff. unfold read_checkpoint.
  cbn [rd_data rd_index rd_offset rd_previous_key rd_previous_ordinal rd_result].
  unfold sealed_data. cbn [mbind list_bind]. rewrite app_nil_r, <-!app_assoc.
  assert (1 ≤ len kb.2) as Hpos.
  { destruct kb.2 as [|x l] eqn:E; [|rewrite len_cons; pose proof (len_nonneg l); lia].
    apply from_to_vec in Hv. by apply from_slice_nil in Hv. }
  rewrite (read_exact_app 4) by apply len_be32. cbn [mbind res_bind].
  rewrite from_be32 by (unfold MAX_CHECKPOINT_RECORD_BYTES in Hmax; unfold u32_max; lia).
  rewrite (proj2 (Z.leb_le 1 _)), (proj2 (Z.leb_le _ MAX_CHECKPOINT_RECORD_BYTES)) by lia. cbn [andb negb reject mbind res_bind].
  rewrite (read_exact_app (len kb.2)) by done. cbn [mbind res_bind].
  rewrite (read_exact_app 32) by (unfold len; by rewrite length_sha256). cbn [mbind res_bind].
  rewrite bool_decide_eq_true_2 by done. cbn [negb reject mbind res_bind]. rewrite (from_to_vec _ _ Hv).
  cbn [map_err mbind res_bind]. rewrite Hsch, String.eqb_refl.
  cbn [negb reject mbind res_bind]. rewrite Hdig. cbn [mbind res_bind]. rewrite String.eqb_refl, Hraw.
  cbn [negb orb reject mbind res_bind]. rewrite (checked_add_fits (qk_last_record_ordinal kb.1)) by lia. cbn [ok_or mbind res_bind].
  rewrite Hnext, Z.eqb_refl. cbn [negb reject mbind res_bind].
  destruct (from_checkpoint (qk_book kb.1)) as [b| |]; [|done..]. cbn [mbind res_bind sealed_index]. rewrite app_nil_r.
  assert (Forall in_u64 (checkpoint_entry offset kb.1)) as Hent'.
  { constructor; [|exact Hent]. unfold sealed_bytes in Hoff. pose proof (len_nonneg kb.2). unfold in_u64. lia. }
  rewrite read_exact_app by (rewrite len_bind_be64; done). cbn [mbind res_bind].
  change 8%nat with (length (checkpoint_entry offset kb.1)). rewrite be_chunks_bind by done.
  rewrite bool_decide_eq_true_2 by done. cbn [negb reject mbind res_bind].
  rewrite (proj2 (reject_Ok _ _ ())).
  2:{ destruct previous as [old|]; [|done]. destruct (Hfol old eq_refl) as [Hkey Hlt].
      cbn [fmap option_fmap option_map]. unfold checkpoint_key in Hkey. rewrite Hkey. cbn [orb]. lia. }
  cbn [mbind res_bind]. rewrite checked_add_fits by (unfold sealed_bytes in Hoff; lia). cbn [ok_or mbind res_bind].
  f_equal. f_equal; unfold sealed_bytes; lia.
Qed.

Lemma read_checkpoints_back kbs rest rest' offset previous acc :
  Forall sealed_ok kbs → ordered_from previous kbs.*1 → 0 ≤ offset → offset + sealed_total kbs ≤ u64_max →
  read_checkpoints (length kbs) (mkReadState (sealed_data kbs ++ rest) (sealed_index offset kbs ++ rest') offset
    (fst <$> previous) (snd <$> previous) acc)
  = Ok (mkReadState rest rest' (offset + sealed_total kbs) (fst <$> position_behind previous kbs.*1)
          (snd <$> position_behind previous kbs.*1) (acc ++ kbs.*1)).
Proof.
  intros Hok. revert offset previous acc. induction Hok as [|kb kbs Hkb _ IH]; intros offset previous acc Hord H0 Hmax.
  { cbn [length read_checkpoints sealed_data mbind list_bind app sealed_index sealed_total foldr fmap list_fmap].
    by rewrite Z.add_0_r, app_nil_r. }
  rewrite fmap_cons in Hord |- *. destruct Hord as [Hfol Hord]. cbn [sealed_total foldr] in Hmax |- *.
  fold (sealed_total kbs) in Hmax |- *. pose proof (sealed_total_nonneg kbs). pose proof (len_nonneg kb.2).
  cbn [length read_checkpoints].
  assert (sealed_data (kb :: kbs) ++ rest = sealed_data [kb] ++ (sealed_data kbs ++ rest)) as ->.
  { unfold sealed_data. cbn [mbind list_bind]. by rewrite app_nil_r, <-!app_assoc. }
  assert (sealed_index offset (kb :: kbs) ++ rest'
          = sealed_index offset [kb] ++ (sealed_index (offset + sealed_bytes kb) kbs ++ rest')) as ->.
  { cbn [sealed_index]. by rewrite app_nil_r, <-app_assoc. }
  rewrite (read_checkpoint_back kb _ _ offset previous acc) by (done || lia). cbn [mbind res_bind].
  etransitivity.
  { apply (IH (offset + sealed_bytes kb) (Some (checkpoint_key kb.1, qk_last_record_ordinal kb.1)) (acc ++ [kb.1]));
      (done || unfold sealed_bytes in *; lia). }
  rewrite <-app_assoc, Z.add_assoc. unfold position_behind. rewrite last_cons. by destruct (last kbs.*1).
Qed.
End read_back.

(** A writer behind the checkpoints [kbs]. *)
Definition written_checkpoints (w : CheckpointWriter) (kbs : list sealed) (w' : CheckpointWriter) : Prop :=
  pw_data_offset w + sealed_total kbs ≤ Z.max (pw_data_offset w) u64_max ∧
  w' = mkCheckpointWriter (pw_data w ++ sealed_data kbs) (pw_index w ++ sealed_index (pw_data_offset w) kbs)
         (pw_data_offset w + sealed_total kbs) (pw_checkpoints w + len kbs).

Lemma written_none w : written_checkpoints w [] w.
Proof.
  split; [cbn [sealed_total foldr]; lia|]. destruct w as [d i o c]. cbn [pw_data pw_index pw_data_offset pw_checkpoints].
  f_equal; [by rewrite app_nil_r..|cbn [sealed_total foldr]; lia|rewrite len_none; lia].
Qed.
Lemma sealed_index_app offset l k :
  sealed_index offset (l ++ k) = sealed_index offset l ++ sealed_index (offset + sealed_total l) k.
Proof.
  revert offset. induction l as [|x l IH]; intros offset; [cbn; by rewrite Z.add_0_r|].
  cbn [app sealed_index sealed_total foldr]. fold (sealed_total l). by rewrite IH, <-app_assoc, Z.add_assoc.
Qed.
Lemma written_app w l w1 k w2 :
  written_checkpoints w l w1 → written_checkpoints w1 k w2 → written_checkpoints w (l ++ k) w2.
Proof.
  intros [H1 ->] [H2 ->]. cbn [pw_data_offset pw_data pw_index pw_checkpoints] in *.
  assert (sealed_total (l ++ k) = sealed_total l + sealed_total k) as E.
  { clear. induction l as [|x l IH]; [done|]. cbn [app sealed_total foldr]. fold (sealed_total (l ++ k)) (sealed_total l). lia. }
  pose proof (sealed_total_nonneg l). pose proof (sealed_total_nonneg k).
  split; [lia|]. unfold sealed_data. rewrite bind_app, sealed_index_app, E, !len_app, <-!app_assoc, !Z.add_assoc. done.
Qed.

(** *** The build against the validation *)

(** A boundary with fields of their width. *)
Definition boundary_ok (bd : PendingDepthBoundary) : Prop :=
  in_u64 (pb_generation_index bd) ∧ in_u64 (pb_segment_index bd) ∧ in_u64 (pb_frame_index bd) ∧
  in_u64 (pb_next_data_offset bd) ∧ 0 ≤ pb_record_ordinal bd ∧ is_digest (pb_record_sha256 bd) = true.
Definition boundary_key (bd : PendingDepthBoundary) : Z * Z := (pb_generation_index bd, pb_segment_index bd).

Lemma same_state_refl b : same_state b b = true.
Proof. unfold same_state. by rewrite String.eqb_refl, !bool_decide_eq_true_2. Qed.

Lemma write_boundary_Ok w b bd w' :
  saved_ok b → boundary_ok bd → write_depth_boundary w b bd = Ok w' →
  ∃ kb, written_checkpoints w [kb] w' ∧ sealed_ok kb ∧ verify_depth_boundary kb.1 b bd = Ok () ∧
    checkpoint_key kb.1 = boundary_key bd ∧ qk_last_record_ordinal kb.1 = pb_record_ordinal bd.
Proof.
  intros ([symbol Hr] & Hscope & Hne) (U1 & U2 & U3 & U4 & U5 & Hd) H. unfold write_depth_boundary in H.
  apply res_bind_Ok in H as (next & [Hn ->]%ok_or_Ok%checked_add_Some & H). apply res_bind_Ok in H as (saved & Hs & H).
  set (k0 := mkDepthCheckpoint _ _ _ _ _ _ _ _ _ _ _ _) in H. unfold checkpoint_append in H.
  apply res_bind_Ok in H as (digest & Hdig & H). apply res_bind_Ok in H as (body & Hbody%map_err_Ok & H).
  apply res_bind_Ok in H as ([] & Hmax%reject_Ok & H). apply res_bind_Ok in H as ([] & _ & H).
  apply res_bind_Ok in H as (o & [Ho ->]%ok_or_Ok%checked_add_Some & H).
  apply res_bind_Ok in H as (c & [Hc ->]%ok_or_Ok%checked_add_Some & [= <-]).
  set (k := set_checkpoint_sha256 digest k0) in *.
  assert (checkpoint_digest k = Ok digest) as Hdk by exact Hdig.
  pose proof Hs as Hck. unfold checkpoint in Hck. apply res_bind_Ok in Hck as ([] & Hlive%reject_Ok & Hck).
  apply negb_false_iff, bool_decide_eq_true in Hlive. destruct (Hne Hlive) as [Nb Na].
  apply res_bind_Ok in Hck as (id & Hid%ok_or_Ok & [= Esaved]).
  assert (from_checkpoint saved = Ok b) as Hback by (by eapply checkpoint_roundtrip).
  assert (in_u64 id) as Hidr.
  { destruct (book_reachable_inv _ _ Hr) as (_ & _ & Hf & _). destruct Hf as (_ & id' & E & ?); [by rewrite Hlive|].
    assert (id' = id) as -> by congruence. done. }
  exists (k, body). cbn [fst snd]. split_and!.
  - split; [cbn [sealed_total foldr]; unfold sealed_bytes; cbn [snd]; lia|].
    unfold sealed_data. cbn [mbind list_bind sealed_index sealed_total foldr fst snd]. rewrite !app_nil_r.
    rewrite len_one. unfold sealed_bytes. cbn [snd]. f_equal. lia.
  - unfold sealed_ok. cbn [fst snd]. split_and!; try done; [lia|change (qk_book k) with saved; by rewrite Hback|].
    subst k k0. cbn [checkpoint_entry tail set_checkpoint_sha256 qk_last_record_ordinal qk_next_record_ordinal
      qk_next_data_offset qk_generation_index qk_segment_index qk_last_frame_index qk_book].
    rewrite <-Esaved. cbn [ck_last_update_id]. unfold in_u64 in *. repeat (constructor; [lia|]). constructor.
  - unfold verify_depth_boundary. subst k k0. cbn [set_checkpoint_sha256 qk_generation_index qk_segment_index
      qk_last_record_ordinal qk_next_data_offset qk_last_frame_index qk_last_receive_wall_ns qk_last_receive_mono_ns
      qk_last_raw_record_sha256 qk_book]. rewrite !Z.eqb_refl, String.eqb_refl. cbn [negb orb reject mbind res_bind].
    rewrite Hback. cbn [mbind res_bind]. rewrite same_state_refl, <-Esaved. cbn [ck_state_sha256]. by rewrite String.eqb_refl.
  - done.
  - done.
Qed.

(** Where the build stands: the pending boundary is the last event, behind everything
    written. *)
Definition build_ok (previous : option (Z * Z * Z)) (s : build_state) : Prop :=
  saved_ok (bs_book s) ∧
  match bs_pending s with
  | Some bd => bs_previous_key s = Some (boundary_key bd) ∧ boundary_ok bd ∧
               pb_record_ordinal bd < bs_expected_ordinal s ∧ follows_key previous (boundary_key bd) (pb_record_ordinal bd)
  | None => bs_previous_key s = None ∧ previous = None ∧ 0 ≤ bs_expected_ordinal s
  end.

Lemma build_visit_Ok previous s e s' :
  build_ok previous s → event_ok e → build_visit s e = Ok s' →
  ∃ kbs, written_checkpoints (bs_writer s) kbs (bs_writer s') ∧ Forall sealed_ok kbs ∧ ordered_from previous kbs.*1 ∧
    build_ok (position_behind previous kbs.*1) s' ∧
    ∀ cps idx, kbs.*1 `prefix_of` drop idx cps →
      validate_visit cps (mkValidate (bs_book s) idx (bs_previous_key s) (bs_pending s)) e
      = Ok (mkValidate (bs_book s') (idx + length kbs) (bs_previous_key s') (bs_pending s')).
Proof.
  intros [Hsv Hpend] (V1 & V2 & V3 & V4 & V5) H. unfold build_visit in H.
  apply res_bind_Ok in H as ([] & Hpos%reject_Ok & H). apply orb_false_iff in Hpos as [Hord _].
  apply negb_false_iff, Z.eqb_eq in Hord. apply res_bind_Ok in H as (w & Hw & H).
  apply res_bind_Ok in H as (b & Hb & H). apply res_bind_Ok in H as (o & [Ho ->]%ok_or_Ok%checked_add_Some & [= <-]).
  cbn [bs_writer bs_book bs_pending bs_previous_key bs_expected_ordinal].
  pose proof (apply_cached_saved _ _ _ Hsv Hb) as Hsv'.
  assert (0 ≤ ce_record_ordinal e → boundary_ok (boundary_of e)) as Hbo by (intros; unfold boundary_ok; cbn; split_and!; done || lia).
  destruct (bs_pending s) as [bd|] eqn:Epend.
  - destruct Hpend as (Ekey & Hbd & Hlt & Hfol). rewrite Ekey in Hw. pose proof Hbd as (_ & _ & _ & _ & P0 & _).
    destruct (decide (segment_key e = boundary_key bd)) as [E|E].
    + rewrite bool_decide_eq_true_2 in Hw by done. injection Hw as <-. exists []. split_and!; [apply written_none|constructor|done| |].
      * split; [done|]. cbn [bs_pending bs_previous_key bs_expected_ordinal]. split_and!; [done|apply Hbo; lia|cbn; lia|].
        intros old Hold. destruct (Hfol old Hold) as [Hk Hl]. cbn [pb_record_ordinal boundary_of].
        change (boundary_key (boundary_of e)) with (segment_key e). rewrite E. split; [done|lia].
      * intros cps idx _. unfold validate_visit. cbn [vs_previous_key vs_book vs_checkpoint_index]. rewrite Ekey.
        rewrite bool_decide_eq_true_2 by done. cbn [negb mbind res_bind]. rewrite Hb. cbn [mbind res_bind length].
        by rewrite Nat.add_0_r.
    + rewrite bool_decide_eq_false_2 in Hw by done. apply res_bind_Ok in Hw as ([] & Hreg%reject_Ok & Hw).
      cbn [ok_or mbind res_bind] in Hw. apply write_boundary_Ok in Hw as (kb & Hwr & Hok & Hver & Hkey & Hlast); [|done..].
      exists [kb]. split_and!; [done|by constructor; [|constructor]| | |].
      * cbn [fmap list_fmap ordered_from]. rewrite Hkey, Hlast. done.
      * split; [done|]. cbn [bs_pending bs_previous_key bs_expected_ordinal]. split_and!; [done|apply Hbo; lia|cbn; lia|].
        cbn [fmap list_fmap position_behind last]. intros old [= <-]. cbn [fst snd]. rewrite Hkey, Hlast.
        cbn [pb_record_ordinal boundary_of]. split; [exact Hreg|lia].
      * intros cps idx Hpre. unfold validate_visit. cbn [vs_previous_key vs_book vs_checkpoint_index vs_boundary]. rewrite Ekey.
        rewrite bool_decide_eq_false_2 by congruence. cbn [negb mbind res_bind].
        assert (cps !! idx = Some kb.1) as ->.
        { destruct Hpre as [rest Hrest]. rewrite <-(Nat.add_0_r idx), <-lookup_drop, Hrest. done. }
        cbn [ok_or mbind res_bind]. rewrite Hver. cbn [mbind res_bind]. rewrite Hb. cbn [mbind res_bind length].
        by rewrite Nat.add_1_r.
  - destruct Hpend as (Ekey & -> & H0). rewrite Ekey in Hw. injection Hw as <-. exists [].
    split_and!; [apply written_none|constructor|done| |].
    + split; [done|]. cbn [bs_pending bs_previous_key bs_expected_ordinal]. split_and!; [done|apply Hbo; lia|cbn; lia|done].
    + intros cps idx _. unfold validate_visit. cbn [vs_previous_key vs_book vs_checkpoint_index]. rewrite Ekey.
      cbn [mbind res_bind]. rewrite Hb. cbn [mbind res_bind length]. by rewrite Nat.add_0_r.
Qed.

Lemma ordered_from_app previous l k :
  ordered_from previous l → ordered_from (position_behind previous l) k → ordered_from previous (l ++ k).
Proof.
  revert previous. induction l as [|x l IH]; intros previous; [done|]. intros [H1 H2] H3. cbn [app ordered_from].
  split; [done|]. apply IH; [done|]. unfold position_behind in *. rewrite last_cons in H3. by destruct (last l).
Qed.
Lemma position_behind_app previous l k : position_behind previous (l ++ k) = position_behind (position_behind previous l) k.
Proof. unfold position_behind. rewrite last_app. by destruct (last k). Qed.

Lemma build_fold previous es s s' :
  build_ok previous s → Forall event_ok es → try_fold build_visit s es = Ok s' →
  ∃ kbs, written_checkpoints (bs_writer s) kbs (bs_writer s') ∧ Forall sealed_ok kbs ∧ ordered_from previous kbs.*1 ∧
    build_ok (position_behind previous kbs.*1) s' ∧
    ∀ cps idx, kbs.*1 `prefix_of` drop idx cps →
      try_fold (validate_visit cps) (mkValidate (bs_book s) idx (bs_previous_key s) (bs_pending s)) es
      = Ok (mkValidate (bs_book s') (idx + length kbs) (bs_previous_key s') (bs_pending s')).
Proof.
  revert previous s. induction es as [|e es IH]; intros previous s Hok Hes H.
  { injection H as <-. exists []. split_and!; [apply written_none|constructor|done|done|].
    intros cps idx _. cbn [try_fold length]. by rewrite Nat.add_0_r. }
  apply Forall_cons in Hes as [He Hes]. cbn [try_fold] in H. apply res_bind_Ok in H as (s1 & H1 & H).
  apply (build_visit_Ok previous) in H1 as (kbs1 & W1 & S1 & O1 & B1 & V1); [|done..].
  destruct (IH _ _ B1 Hes H) as (kbs2 & W2 & S2 & O2 & B2 & V2). exists (kbs1 ++ kbs2). rewrite fmap_app.
  split_and!; [by eapply written_app|by apply Forall_app|by apply ordered_from_app|by rewrite position_behind_app|].
  intros cps idx Hpre. cbn [try_fold]. rewrite V1 by (etransitivity; [by apply prefix_app_r|exact Hpre] || by eapply prefix_app_l).
  cbn [mbind res_bind]. rewrite length_app, Nat.add_assoc. apply V2.
  destruct Hpre as [rest Hrest]. exists rest. rewrite <-drop_drop, Hrest, <-app_assoc. rewrite <-(length_fmap fst kbs1).
  by rewrite drop_app_length.
Qed.

(** *** A store next to its cache *)

(** Both trees have the same directory at [root], a canonical path. *)
Definition same_directory (t t' : tree) (root : string) : Prop :=
  t_canonicalize t root = Ok root ∧ t_canonicalize t' root = Ok root ∧ t_entries t' !! root = t_entries t !! root ∧
  Forall (λ name, t_kind t' !! path_join root name = t_kind t !! path_join root name ∧
                  t_files t' !! path_join root name = t_files t !! path_join root name) (default [] (t_entries t !! root)).

(** The files of a cache stream are entries of the directory. *)
Definition listed (t : tree) (root name : string) : Prop := name ∈ default [] (t_entries t !! root).
Definition stream_listed (t : tree) (root : string) (a : QualifiedReplayCacheArtifactV2) : Prop :=
  listed t root (ca_data_file a) ∧ listed t root (ca_index_file a).

Lemma exact_file_set_listed t root l msg :
  exact_file_set t root l msg = Ok () → Forall (listed t root) l.
Proof.
  unfold exact_file_set, listed. intros (names & Hn%ok_or_Ok & H)%res_bind_Ok. apply res_bind_Ok in H as (actual & Ha & H%reject_Ok).
  apply negb_false_iff, bool_decide_eq_true in H. rewrite Hn. cbn [default].
  assert (actual = names) as ->.
  { clear -Ha. apply try_map_Ok_Forall2 in Ha. induction Ha as [|x y l k Hxy _ IH]; [done|]. f_equal; [|done].
    apply res_bind_Ok in Hxy as (kd & _ & Hxy). apply res_bind_Ok in Hxy as ([] & _ & Hxy).
    unfold into_string in Hxy. by apply res_bind_Ok in Hxy as ([] & _ & [= ->]). }
  apply Forall_forall. intros x Hx. apply (elem_of_list_to_set (C := gset string)) in Hx.
  rewrite <-H in Hx. by apply elem_of_list_to_set in Hx.
Qed.

Lemma load_listed t root b m :
  t_canonicalize t root = Ok root → load_cache_manifest t root b = Ok m →
  listed t root "qualified-cache.json" ∧ stream_listed t root (cm_snapshot m) ∧ stream_listed t root (cm_depth m) ∧
  stream_listed t root (cm_trades m).
Proof.
  intros Hc H. unfold load_cache_manifest in H. rewrite Hc in H. cbn [mbind res_bind] in H.
  apply res_bind_Ok in H as ([] & _ & H). apply res_bind_Ok in H as (f & _ & H). apply res_bind_Ok in H as (x & _ & H).
  apply res_bind_Ok in H as ([] & _ & H). apply res_bind_Ok in H as (d & _ & H). apply res_bind_Ok in H as ([] & _ & H).
  apply res_bind_Ok in H as ([] & Hset%exact_file_set_listed & H). do 3 apply res_bind_Ok in H as ([] & _ & H). injection H as <-.
  rewrite !Forall_cons in Hset. unfold stream_listed. naive_solver.
Qed.

Section same.
Context (t t' : tree) (root : string) (Hsame : same_directory t t' root).

Lemma lookups_same name :
  listed t root name → t_kind t' !! path_join root name = t_kind t !! path_join root name ∧
  t_files t' !! path_join root name = t_files t !! path_join root name.
Proof. destruct Hsame as (_ & _ & _ & HF). rewrite Forall_forall in HF. apply HF. Qed.
Lemma regular_same name label :
  listed t root name → require_regular_file (market_world t') (path_join root name) label
  = require_regular_file (market_world t) (path_join root name) label.
Proof.
  intros [E _]%lookups_same. unfold require_regular_file. cbn [market_world MarketReplay.w_regular]. do 2 f_equal.
  apply bool_decide_ext. rewrite !elem_of_dom.
  split; intros [k Hk]; exists k; apply map_lookup_filter_Some in Hk as [Hk ?]; apply map_lookup_filter_Some; by rewrite E in *.
Qed.
Lemma open_same name :
  listed t root name → open_file (t_files t') (path_join root name) = open_file (t_files t) (path_join root name).
Proof. intros [_ E]%lookups_same. unfold open_file. by rewrite E. Qed.
Lemma sha256_same name :
  listed t root name → sha256_file (market_world t') (path_join root name) = sha256_file (market_world t) (path_join root name).
Proof. intros H. unfold sha256_file. rewrite regular_same by done. cbn [market_world MarketReplay.w_files]. by rewrite open_same. Qed.
Lemma cache_leaf_cases value : cache_leaf root value = Ok (path_join root value) ∨ ∃ e, cache_leaf root value = Err e.
Proof. unfold cache_leaf, reject. destruct (_ || _); [right|left]; cbn [mbind res_bind]; eauto. Qed.

Lemma visit_same {A} (visit : A → CachedEvent → res A) a s :
  stream_listed t root a → visit_cache_events visit t' root a s = visit_cache_events visit t root a s.
Proof.
  intros [H1 H2]. unfold visit_cache_events. destruct (cache_leaf_cases (ca_data_file a)) as [->|[e ->]]; [|done]. cbn [mbind res_bind].
  rewrite open_same by done. destruct (open_file _ _); cbn [mbind res_bind]; [|done..].
  destruct (cache_leaf_cases (ca_index_file a)) as [->|[e ->]]; [|done]. cbn [mbind res_bind]. by rewrite open_same.
Qed.

Lemma validate_artifact_same a b : stream_listed t root a → validate_artifact t' root a b = validate_artifact t root a b.
Proof.
  intros [H1 H2]. unfold validate_artifact. destruct (reject _ _); cbn [mbind res_bind]; [|done..].
  destruct (cache_leaf_cases (ca_data_file a)) as [->|[e ->]]; [|done]. cbn [mbind res_bind].
  destruct (cache_leaf_cases (ca_index_file a)) as [->|[e ->]]; [|done]. cbn [mbind res_bind try_map validate_artifact_file].
  by rewrite !regular_same, !open_same, !sha256_same by done.
Qed.
Lemma exact_file_set_same l msg : exact_file_set t' root l msg = exact_file_set t root l msg.
Proof.
  destruct Hsame as (_ & _ & E & HF). unfold exact_file_set. rewrite E. destruct (t_entries t !! root) as [names|]; [|done].
  cbn [ok_or mbind res_bind]. erewrite try_map_ext; [reflexivity|]. eapply Forall_impl; [exact HF|].
  intros name [-> _]. reflexivity.
Qed.

Lemma load_same b m : load_cache_manifest t root b = Ok m → load_cache_manifest t' root b = Ok m.
Proof.
  intros H. destruct (load_listed t root b m) as (L & L1 & L2 & L3); [by apply Hsame|done|].
  revert H. unfold load_cache_manifest. rewrite (proj1 Hsame), (proj1 (proj2 Hsame)). cbn [mbind res_bind].
  rewrite regular_same by done. destruct (require_regular_file _ _ _); cbn [mbind res_bind]; [|done..].
  rewrite open_same by done. destruct (open_file _ _); cbn [mbind res_bind]; [|done..].
  destruct (map_err _ _) as [x| |]; cbn [mbind res_bind]; [|done..]. intros H.
  apply res_bind_Ok in H as ([] & -> & H). cbn [mbind res_bind]. apply res_bind_Ok in H as (d & -> & H). cbn [mbind res_bind].
  apply res_bind_Ok in H as ([] & -> & H). cbn [mbind res_bind]. apply res_bind_Ok in H as ([] & H0 & H).
  rewrite exact_file_set_same, H0. cbn [mbind res_bind].
  apply res_bind_Ok in H as ([] & H1 & H). apply res_bind_Ok in H as ([] & H2 & H). apply res_bind_Ok in H as ([] & H3 & [= ->]).
  rewrite !validate_artifact_same by done. rewrite H1. cbn [mbind res_bind]. rewrite H2. cbn [mbind res_bind]. by rewrite H3.
Qed.
End same.

(** A snapshot accepted under a stricter test is accepted. *)
Lemma cached_book_any t root m check b : cached_book t root m check = Ok b → cached_book t root m (λ _, true) = Ok b.
Proof.
  unfold cached_book. intros (p & Hp & H)%res_bind_Ok. apply visit_events_inv in Hp as (es & (Hes & _) & Hp).
  rewrite Hes. apply (try_fold_weaken _ (snapshot_visit (λ _, true))) in Hp; [by rewrite Hp|].
  intros o e o'. unfold snapshot_visit. intros ([] & Hg%reject_Ok & [= <-])%res_bind_Ok.
  apply orb_false_iff in Hg as [_ ->]. done.
Qed.

Lemma load_cache_digests t root b m :
  load_cache_manifest t root b = Ok m →
  is_digest (cm_manifest_sha256 m) = true ∧ is_digest (ca_data_sha256 (cm_depth m)) = true ∧
  is_digest (ca_index_sha256 (cm_depth m)) = true.
Proof.
  unfold load_cache_manifest. intros (r & _ & H)%res_bind_Ok. apply res_bind_Ok in H as ([] & _ & H).
  apply res_bind_Ok in H as (f & _ & H). apply res_bind_Ok in H as (x & _ & H). apply res_bind_Ok in H as ([] & _ & H).
  apply res_bind_Ok in H as (d & Hd & H). apply res_bind_Ok in H as ([] & Hg%reject_Ok & H).
  apply res_bind_Ok in H as ([] & _ & H). apply res_bind_Ok in H as ([] & _ & H).
  apply res_bind_Ok in H as ([] & Ha & H). apply res_bind_Ok in H as ([] & _ & [= <-]).
  apply orb_false_iff in Hg as [Hg _]. apply negb_false_iff, String.eqb_eq in Hg. rewrite <-Hg.
  unfold manifest_digest in Hd. apply res_bind_Ok in Hd as (e & _ & [= <-]).
  unfold validate_artifact in Ha. apply res_bind_Ok in Ha as ([] & Ha%reject_Ok & _). split_orb.
  split; [by apply is_digest_hex, length_sha256|done].
Qed.

Section built_store.
Context `{!SerdeLaws _ Hqk} `{!SerdeNonempty _ Hqk} `{!SerdePrettyLaws _ Hkm Hkp}.

Lemma checkpoint_finish_Ok w a :
  checkpoint_finish w = Ok a →
  a = mkCheckpointArtifact checkpoint_data_name (len (pw_data w)) (hex (sha256 (pw_data w))) checkpoint_index_name
        (len (pw_index w)) (hex (sha256 (pw_index w))) (pw_checkpoints w) ∧
  len (pw_data w) = pw_data_offset w ∧
  index_size (pw_checkpoints w) CHECKPOINT_INDEX_ENTRY_BYTES "checkpoint index size overflow" = Ok (len (pw_index w)).
Proof.
  unfold checkpoint_finish, index_size. intros (n & Hn & H)%res_bind_Ok.
  apply res_bind_Ok in Hn as (e & He%ok_or_Ok & Hs%ok_or_Ok). apply res_bind_Ok in H as ([] & Hg%reject_Ok & [= <-]).
  split_orb. rewrite He. cbn [ok_or mbind res_bind]. rewrite Hs. cbn [ok_or]. split_and!; [done|lia|f_equal; lia].
Qed.

(** The checkpoints of a finished writer read back. *)
Lemma checkpoints_read_back t root kbs w a :
  written_checkpoints checkpoint_create kbs w → checkpoint_finish w = Ok a → Forall sealed_ok kbs → kbs ≠ [] →
  ordered_from None kbs.*1 →
  Forall (λ f, t_kind t !! path_join root f.1 = Some RegularFile ∧ t_files t !! path_join root f.1 = Some f.2)
    (checkpoint_files w) →
  read_checkpoint_records t root a = Ok kbs.*1.
Proof.
  intros [Hmax ->] (-> & Hlen & Hsize)%checkpoint_finish_Ok Hok Hne Hord HF.
  unfold checkpoint_files in HF. rewrite !Forall_cons in HF. destruct HF as ([K1 F1] & [K2 F2] & _).
  cbn [fst snd pw_data pw_index pw_data_offset pw_checkpoints checkpoint_create] in *.
  unfold read_checkpoint_records. cbn [ka_data_file ka_index_file ka_data_sha256 ka_index_sha256 ka_checkpoints
    ka_data_bytes ka_index_bytes]. rewrite (proj2 (reject_Ok _ _ ())).
  2:{ rewrite !String.eqb_refl, !is_digest_hex by apply length_sha256. cbn [negb orb]. destruct kbs; [done|].
      rewrite len_cons. pose proof (len_nonneg kbs). lia. }
  cbn [mbind res_bind]. change (cache_leaf root checkpoint_data_name) with (Ok (path_join root checkpoint_data_name)).
  change (cache_leaf root checkpoint_index_name) with (Ok (path_join root checkpoint_index_name)). cbn [mbind res_bind].
  rewrite !regular_file by done. cbn [mbind res_bind]. unfold open_file. rewrite F1, F2. cbn [ok_or mbind res_bind].
  rewrite !Z.eqb_refl. cbn [negb orb reject mbind res_bind]. rewrite Hsize. cbn [mbind res_bind]. rewrite Z.eqb_refl.
  cbn [negb orb reject mbind res_bind].
  rewrite (read_exact_app 8 CHECKPOINT_MAGIC) by done. cbn [mbind res_bind]. rewrite bool_decide_eq_true_2 by done.
  cbn [negb reject mbind res_bind]. rewrite (read_exact_app 8 CHECKPOINT_INDEX_MAGIC) by done. cbn [mbind res_bind].
  rewrite bool_decide_eq_true_2 by done. cbn [negb reject mbind res_bind].
  replace (Z.to_nat (0 + len kbs)) with (length kbs) by (unfold len; lia).
  change (len CHECKPOINT_MAGIC) with 8 in *.
  pose proof (read_checkpoints_back kbs [] [] 8 None [] Hok Hord ltac:(lia) ltac:(unfold u64_max in *; lia)) as Hr.
  rewrite !app_nil_r in Hr. change (fst <$> @None (Z * Z * Z)) with (@None (Z * Z)) in Hr.
  change (snd <$> @None (Z * Z * Z)) with (@None Z) in Hr. rewrite Hr. cbn [mbind res_bind rd_data rd_index rd_offset rd_result].
  rewrite !bool_decide_eq_true_2 by done. rewrite Hlen, Z.eqb_refl. cbn [negb orb reject mbind res_bind].
  rewrite !String.eqb_refl. done.
Qed.

(** The manifest of a build loads. *)
Lemma store_manifest_loads t checkpoint_root store m encoded w :
  to_vec_pretty m = inr encoded →
  directory_holds t checkpoint_root store (checkpoint_files w ++ [("qualified-checkpoints.json"%string, encoded ++ [x0a])]) →
  km_schema m = "QualifiedReplayCheckpointManifestV1"%string → km_usage m = QUALIFIED_CHECKPOINT_USAGE →
  km_status m = "COMPLETE"%string → km_qualification_claim m = false → km_economic_features m = [] →
  Forall (λ d, is_digest d = true) [km_receipt_sha256 m; km_source_tree_sha256 m; km_replay_report_sha256 m;
    km_cache_manifest_sha256 m; km_cache_manifest_file_sha256 m; km_cache_depth_data_sha256 m;
    km_cache_depth_index_sha256 m; km_final_state_sha256 m] →
  checkpoint_manifest_digest m = Ok (km_manifest_sha256 m) →
  ka_data_file (km_artifact m) = checkpoint_data_name → ka_index_file (km_artifact m) = checkpoint_index_name →
  load_checkpoint_manifest t checkpoint_root = Ok (store, m).
Proof.
  intros Henc Hdir E1 E2 E3 E4 E5 Hds Hdig E6 E7. pose proof Hdir as (Hc & _ & _ & HF).
  rewrite !Forall_cons in Hds. destruct Hds as (D1 & D2 & D3 & D4 & D5 & D6 & D7 & D8 & _).
  unfold load_checkpoint_manifest. rewrite Hc. cbn [mbind res_bind].
  rewrite Forall_app, !Forall_cons in HF. destruct HF as [_ [[Hk Hf] _]]. cbn [fst snd] in Hk, Hf.
  rewrite regular_file by done. cbn [mbind res_bind]. unfold open_file. rewrite Hf. cbn [ok_or mbind res_bind].
  rewrite (from_pretty _ _ Henc). cbn [map_err mbind res_bind].
  rewrite E1, E2, E3, E4, E5, D1, D2, D3, D4, D5, D6, D7, D8, !String.eqb_refl, bool_decide_eq_true_2 by done.
  cbn [negb orb reject mbind res_bind]. rewrite Hdig. cbn [mbind res_bind]. rewrite String.eqb_refl.
  cbn [negb orb reject mbind res_bind]. rewrite E6, E7.
  assert (∀ l msg, (list_to_set l : gset string) = list_to_set
    (checkpoint_files w ++ [("qualified-checkpoints.json"%string, encoded ++ [x0a])]).*1 →
    exact_file_set t store l msg = Ok ()) as Hset.
  { intros l msg El. pose proof (exact_file_set_holds _ _ _ _ msg Hdir ltac:(by repeat constructor)) as Hs.
    unfold exact_file_set in *. by rewrite El. }
  rewrite Hset; [done|]. apply list_to_set_perm_L, (Permutation_cons_append [_; _]).
Qed.

Lemma cached_book_same t t' root m check :
  same_directory t t' root → stream_listed t root (cm_snapshot m) →
  cached_book t' root m check = cached_book t root m check.
Proof. intros Hs Hl. unfold cached_book. by rewrite (visit_same _ _ _ Hs). Qed.

(** C20: a checkpoint store that was built is accepted. Wherever the directory of a
    successful build stands beside the unchanged cache, validation reads back every
    checkpoint, finds each at the natural end of its segment with the book that the
    replay of the cached depth stream has there, finds no other, and returns the manifest
    of the build. *)
Theorem built_store_validates t receipt cache_root destination m files t' checkpoint_root store root :
  build_qualified_replay_checkpoints t receipt cache_root destination = Ok (m, files) →
  t_canonicalize t cache_root = Ok root → t_canonicalize t' cache_root = Ok root → same_directory t t' root →
  directory_holds t' checkpoint_root store files →
  validate_qualified_replay_checkpoints t' receipt cache_root checkpoint_root = Ok m.
Proof.
  intros H Hroot Hroot' Hsame Hdir. unfold build_qualified_replay_checkpoints in H.
  apply res_bind_Ok in H as ([] & Hreceipt & H). rewrite Hroot in H. cbn [mbind res_bind] in H.
  apply res_bind_Ok in H as (cache & Hcache & H). apply res_bind_Ok in H as ([] & Hbind & H).
  apply res_bind_Ok in H as (dest & _ & H). do 2 apply res_bind_Ok in H as ([] & _ & H).
  apply res_bind_Ok in H as (b0 & Hb0 & H). apply res_bind_Ok in H as (s & Hs & H).
  apply res_bind_Ok in H as ([] & _ & H). apply res_bind_Ok in H as (bd & Hbd%ok_or_Ok & H).
  apply res_bind_Ok in H as (w & Hw & H). apply res_bind_Ok in H as ([] & Hfinal%reject_Ok & H).
  apply res_bind_Ok in H as (a & Ha & H). apply res_bind_Ok in H as ([] & _ & H).
  apply res_bind_Ok in H as (cf & Hcf & H). apply res_bind_Ok in H as (digest & Hdigest & H).
  apply res_bind_Ok in H as (encoded & Henc%map_err_Ok & [= <- <-]).
  set (m0 := mkCheckpointManifest _ _ _ _ _ _ _ _ _ _ _ _ _ _ _ _) in *. set (m := set_checkpoint_manifest_sha256 digest m0) in *.
  (* the checkpoints *)
  apply visit_events_inv in Hs as (es & Hes & Hfold). pose proof Hes as (_ & _ & Hev).
  assert (Forall event_ok es) as Heok.
  { apply Forall_lookup. intros n e He. by apply (Hev n e). }
  assert (build_ok None (mkBuild checkpoint_create b0 None None 0 (len CACHE_MAGIC))) as Hstart.
  { split; [by eapply cached_book_saved|]. cbn. split_and!; done || lia. }
  destruct (build_fold _ _ _ _ Hstart Heok Hfold) as (kbs & W1 & S1 & O1 & [B1 B2] & V1). cbn [bs_writer] in W1.
  rewrite Hbd in B2. destruct B2 as (_ & Hbdok & _ & Hfol).
  apply write_boundary_Ok in Hw as (kb & W2 & S2 & Hver & Hkey & Hlast); [|done..].
  assert (read_checkpoint_records t' store a = Ok (kbs ++ [kb]).*1) as Hread.
  { eapply checkpoints_read_back.
    - by eapply written_app.
    - done.
    - apply Forall_app. split; [done|]. by constructor; [|constructor].
    - by destruct kbs.
    - rewrite fmap_app. apply ordered_from_app; [done|]. cbn [fmap list_fmap ordered_from]. rewrite Hkey, Hlast. done.
    - destruct Hdir as (_ & _ & _ & HF). rewrite !Forall_cons in HF. destruct HF as (? & ? & _). by repeat (constructor; [done|]). }
  assert (load_checkpoint_manifest t' checkpoint_root = Ok (store, m)) as Hload.
  { apply receipt_digests in Hreceipt as (D1 & D2 & D3). destruct (load_cache_digests _ _ _ _ Hcache) as (D4 & D5 & D6).
    assert (is_digest cf = true) as D7.
    { unfold sha256_file in Hcf. apply res_bind_Ok in Hcf as ([] & _ & H). apply res_bind_Ok in H as (f & _ & [= <-]).
      apply is_digest_hex, length_sha256. }
    apply checkpoint_finish_Ok in Ha as (-> & _).
    apply (store_manifest_loads _ _ _ m encoded w); try done.
    repeat (constructor; [done|]). constructor; [|constructor]. apply is_digest_hex, length_sha256. }
  unfold validate_qualified_replay_checkpoints. rewrite Hreceipt. cbn [mbind res_bind]. rewrite Hroot'. cbn [mbind res_bind].
  destruct (load_listed _ _ _ _ (proj1 Hsame) Hcache) as (L & L1 & L2 & _).
  rewrite (load_same _ _ _ Hsame _ _ Hcache). cbn [mbind res_bind]. rewrite Hbind. cbn [mbind res_bind]. rewrite Hload.
  cbn [mbind res_bind]. subst m m0. cbn [set_checkpoint_manifest_sha256 km_receipt_sha256 km_source_tree_sha256
    km_replay_report_sha256 km_cache_manifest_sha256 km_cache_manifest_file_sha256 km_cache_depth_data_sha256
    km_cache_depth_index_sha256 km_symbol km_artifact km_final_state_sha256] in *.
  rewrite !String.eqb_refl. cbn [negb orb reject mbind res_bind]. rewrite (sha256_same _ _ _ Hsame _ L), Hcf. cbn [mbind res_bind].
  rewrite !String.eqb_refl. cbn [negb orb reject mbind res_bind]. rewrite Hread. cbn [mbind res_bind].
  rewrite (cached_book_same _ _ _ _ _ Hsame L1), (cached_book_any _ _ _ _ _ Hb0). cbn [mbind res_bind].
  rewrite (visit_same _ _ _ Hsame _ _ _ L2), (proj1 Hes).
  rewrite (V1 _ 0%nat) by (rewrite drop_0, fmap_app; by apply prefix_app_r). cbn [mbind res_bind vs_checkpoint_index vs_boundary vs_book].
  rewrite fmap_app, <-(length_fmap fst kbs). cbn [Nat.add]. rewrite lookup_app_r, Nat.sub_diag by done.
  cbn [fmap list_fmap lookup list_lookup ok_or mbind res_bind]. rewrite Hbd. cbn [ok_or mbind res_bind]. rewrite Hver.
  cbn [mbind res_bind]. rewrite length_app. cbn [length]. rewrite Nat.add_1_r, Nat.eqb_refl, String.eqb_refl.
  apply orb_false_iff in Hfinal as [Hfinal _]. rewrite Hfinal. done.
Qed.
End built_store.
#[local] Transparent be64 be32.
End checkpoint_theory.

(** ** The store of [CacheDemo] *)

#[global] Instance book_checkpoint_eq_decision : EqDecision OrderBookCheckpointV1.
Proof. solve_decision. Defined.
#[global] Instance depth_checkpoint_eq_decision : EqDecision QualifiedDepthCheckpointV1.
Proof. solve_decision. Defined.
#[global] Instance checkpoint_artifact_eq_decision : EqDecision QualifiedReplayCheckpointArtifactV1.
Proof. solve_decision. Defined.
#[global] Instance checkpoint_manifest_eq_decision : EqDecision QualifiedReplayCheckpointManifestV1.
Proof. solve_decision. Defined.

Module StoreDemo.
Export CacheDemo.

(** The depth events of the cache, and the checkpoints at the ends of the two segments,
    without and with their digest. *)
Definition demo_events : list CachedEvent := Eval vm_compute in
  match visit_cache_events (λ l e, Ok (l ++ [e])) cache_tree "/q/cache1" (cm_depth manifest) [] with
  | Ok l => l | _ => [] end.
Definition demo_unsigned : list QualifiedDepthCheckpointV1 := Eval vm_compute in
  [4; 5]%nat ≫= λ n,
    match demo_events !! n, cached_book cache_tree "/q/cache1" manifest (λ _, true) with
    | Some e, Ok b0 =>
        match try_fold apply_cached b0 (take (S n) demo_events) with
        | Ok b => match checkpoint b with
                  | Ok saved => [mkDepthCheckpoint "QualifiedDepthCheckpointV1" (ce_generation_index e)
                      (ce_segment_index e) (ce_record_ordinal e) (ce_record_ordinal e + 1) (ce_end_offset e)
                      (ce_frame_index e) (ce_receive_wall_ns e) (ce_receive_mono_ns e) (ce_record_sha256 e) saved ""]
                  | _ => []
                  end
        | _ => []
        end
    | _, _ => []
    end.
Definition demo_table : list QualifiedDepthCheckpointV1 := Eval vm_compute in
  demo_unsigned ++ imap (λ i k, set_checkpoint_sha256 (star_digest (S i)) k) demo_unsigned.
#[export] Instance checkpoint_serde : Serde QualifiedDepthCheckpointV1 := text_serde demo_table.
#[export] Instance checkpoint_serde_laws : SerdeLaws QualifiedDepthCheckpointV1 checkpoint_serde := text_serde_laws _.
#[export] Instance checkpoint_serde_nonempty : SerdeNonempty QualifiedDepthCheckpointV1 checkpoint_serde := text_serde_nonempty _.
#[export] Instance window_serde : Serde NeutralDepthWindowReplayV1 := {|
  to_vec w := inr (str_bytes (nw_state_sha256 w)); from_slice _ := inl "unused"%string |}.

Lemma window_serde_total : SerdeTotal NeutralDepthWindowReplayV1 window_serde.
Proof. intros w. by eexists. Qed.

(** The cache, in a tree where the directory above it is known. *)
Definition store_source : tree :=
  mkTree (t_disk cache_tree) (t_kind cache_tree) (t_entries cache_tree) (<["/q"%string := "/q"%string]> (t_canonical cache_tree)).
Definition store_to_vec (m : QualifiedReplayCheckpointManifestV1) : bytes :=
  str_bytes (km_cache_manifest_sha256 m ++ ka_data_sha256 (km_artifact m)).
Definition first_store : res (QualifiedReplayCheckpointManifestV1 * list (string * bytes)) := Eval vm_compute in
  build_qualified_replay_checkpoints (Hkm := {| to_vec m := inr (store_to_vec m); from_slice _ := inl "unknown"%string |})
    (Hkp := λ _, inr []) store_source receipt "cache1" "/q/store1".
Definition store_manifest : QualifiedReplayCheckpointManifestV1 := Eval vm_compute in
  match first_store as r return (match r with Ok _ => QualifiedReplayCheckpointManifestV1 | _ => unit end) with
  | Ok (m, _) => m | _ => tt
  end.
#[export] Instance store_serde : Serde QualifiedReplayCheckpointManifestV1 := {|
  to_vec m := inr (store_to_vec m);
  from_slice b := if bool_decide (b = manifest_text ++ [x0a]) then inr store_manifest else inl "unknown"%string
|}.
#[export] Instance store_pretty : SerdePretty QualifiedReplayCheckpointManifestV1 := λ m,
  if bool_decide (m = store_manifest) then inr manifest_text else inl "unknown"%string.
#[export] Instance store_pretty_laws : SerdePrettyLaws QualifiedReplayCheckpointManifestV1 store_serde store_pretty.
Proof.
  intros a b. unfold to_vec_pretty, store_pretty. case_bool_decide as E; [|done]. intros [= <-].
  cbn [from_slice store_serde]. by rewrite bool_decide_eq_true_2, E by done.
Qed.

(** Cache and store side by side. *)
Definition store_contents : list (string * bytes) := Eval vm_compute in
  match build_qualified_replay_checkpoints store_source receipt "cache1" "/q/store1" with Ok (_, files) => files | _ => [] end.
Definition store_tree : tree := tree_of
  (((λ f, (path_join "/q/store1" f.1, f.2)) <$> store_contents)
   ++ ((λ f, (path_join "/q/cache1" f.1, f.2)) <$> cache_contents))
  [("/q/cache1"%string, cache_names); ("/q/store1"%string, store_contents.*1)]
  [("/q/cache1", "/q/cache1"); ("/q/store1", "/q/store1"); ("cache1", "/q/cache1"); ("store1", "/q/store1")]%string.

Lemma store_built_here :
  build_qualified_replay_checkpoints store_source receipt "cache1" "/q/store1" = Ok (store_manifest, store_contents).
Proof. vm_compute. reflexivity. Qed.
Lemma store_directory : directory_holds store_tree "store1" "/q/store1" store_contents.
Proof.
  split; [reflexivity|]. split; [reflexivity|]. split; [by eexists|]. apply (bool_decide_unpack _). vm_compute. exact I.
Qed.
Lemma cache_beside_store : same_directory store_source store_tree "/q/cache1".
Proof.
  split; [reflexivity|]. split; [reflexivity|]. split; [reflexivity|]. apply (bool_decide_unpack _). vm_compute. exact I.
Qed.
End StoreDemo.

Section store_witnesses.
Import StoreDemo.

Lemma built_store_validates_witness :
  ka_checkpoints (km_artifact store_manifest) = 2 ∧
  validate_qualified_replay_checkpoints store_tree receipt "cache1" "store1" = Ok store_manifest.
Proof.
  split; [vm_compute; reflexivity|].
  exact (built_store_validates store_source receipt "cache1" "/q/store1" store_manifest store_contents store_tree "store1"
    "/q/store1" "/q/cache1" store_built_here eq_refl eq_refl cache_beside_store store_directory).
Defined.

Lemma windows_replay_exactly_witness :
  ∃ session start end_ w, open_verified store_tree receipt "cache1" "store1" = Ok session ∧
    ss_checkpoints session = [start; end_] ∧ replay_window session 0 1 = Ok w ∧ nw_raw_records w = 1 ∧
    nw_final_update_id w = 18 ∧ ∃ b, window_report session start end_ b w.
Proof.
  assert (match open_verified store_tree receipt "cache1" "store1" with
          | Ok s => match ss_checkpoints s, replay_window s 0 1 with
                    | [_; _], Ok w => (nw_raw_records w =? 1) && (nw_final_update_id w =? 18)
                    | _, _ => false end
          | _ => false end = true) as H by (vm_compute; reflexivity).
  destruct (open_verified store_tree receipt "cache1" "store1") as [session| |] eqn:E; [|discriminate H..].
  destruct (ss_checkpoints session) as [|start [|end_ [|]]] eqn:Ek; try discriminate H.
  destruct (replay_window session 0 1) as [w| |] eqn:Ew; [|discriminate H..]. apply andb_true_iff in H as [H1 H2].
  destruct (windows_replay_exactly store_tree receipt "cache1" "store1" session 0 1 start end_
    window_serde_total E Nat.lt_0_1) as (root & cache & es & b0 & b & w' & _ & _ & _ & _ & _ & Hw & Hr).
  - rewrite Ek. reflexivity.
  - rewrite Ek. reflexivity.
  - rewrite Ew in Hw. injection Hw as <-. exists session, start, end_, w. split; [reflexivity|]. split; [exact Ek|].
    split; [exact Ew|]. split; [apply Z.eqb_eq; exact H1|]. split; [apply Z.eqb_eq; exact H2|]. exists b. exact Hr.
Defined.
End store_witnesses.
