(* ===== verification/CampaignArtifact.v ===== *)
(** * Verification of a finished campaign (campaign_artifact.rs)

    A campaign is a directory of generations, the proofs of the handovers between them, a
    report on each generation, and a journal of what the supervisor and its child processes
    did. The verifier trusts none of it: generations and handovers are verified again from
    their files, the reports must be the ones it computes, and the journal must be a chain
    of records that tells one complete life of the campaign. The largest part is the last
    one: a state machine over the journal that follows the processes of every generation,
    the generation with authority, its candidate and a warm successor, and every shutdown
    the venue announced.

    The file system is the tree of [GenerationArtifact]; durations are left out. A [BTreeMap]
    or [BTreeSet] that is only looked up is a finite map or set. *)

From stdpp Require Import base list strings option numbers sets gmap sorting.
From Stdlib Require Import ZArith Lia Ascii Strings.Byte Sorting.Sorted.
From S2P Require Import Prelude Decimal External OrderBook RawLog RawLogSafety Replay Boundary DurabilityProgress SegmentChain Follower Observations MarketReplay TransportJournal GenerationArtifact GenerationHandover CompleteReplay.
Local Open Scope Z_scope.

(** ** Data *)

Definition CAMPAIGN_STARTUP_GRACE_NS : Z := 30000000000.

Record CampaignStartupV1 := mkCampaignStartup {
  cs_schema : string; cs_campaign_id : string; cs_symbol : string; cs_total_duration_s : Z;
  cs_rotation_s : Z; cs_overlap_s : Z; cs_segment_s : Z; cs_started_wall_ns : Z; cs_process_id : Z;
  cs_executable_sha256 : string; cs_capture_executable_sha256 : string; cs_public_config_sha256 : string;
  cs_spec_revision : string; cs_credentials : string; cs_order_entry : string
}.
Record CampaignGenerationResultV1 := mkGenerationResult {
  cg_generation_index : Z; cg_session_id : string; cg_session_dir : string; cg_verification_sha256 : string;
  cg_evaluation_file : string; cg_evaluation_file_sha256 : string; cg_generation_manifest_sha256 : string;
  cg_depth_records : Z; cg_trade_records : Z
}.
Record CampaignHandoverResultV1 := mkHandoverResult {
  ch_predecessor_generation_index : Z; ch_successor_generation_index : Z; ch_proof_sha256 : string;
  ch_proof_file : string; ch_proof_file_sha256 : string
}.
Record CampaignManifestV1 := mkCampaignManifest {
  cf_schema : string; cf_status : string; cf_campaign_id : string; cf_symbol : string;
  cf_total_duration_s : Z; cf_rotation_s : Z; cf_overlap_s : Z; cf_segment_s : Z; cf_started_wall_ns : Z;
  cf_finished_wall_ns : Z; cf_spec_revision : string; cf_credentials : string; cf_order_entry : string;
  cf_executable_sha256 : string; cf_capture_executable_sha256 : string; cf_public_config_sha256 : string;
  cf_startup_file : string; cf_startup_sha256 : string; cf_journal_file : string; cf_journal_boundary : string;
  cf_journal_precommit_records : Z; cf_journal_precommit_sha256 : string; cf_supervisor_gap_count : Z;
  cf_generations : list CampaignGenerationResultV1; cf_handovers : list CampaignHandoverResultV1
}.
Record GenerationLifecycleExpectation := mkGenerationExpectation {
  ge_generation_index : Z; ge_session_id : string; ge_symbol : string; ge_duration_requested_s : Z;
  ge_startup_sha256 : string; ge_stream_epochs : gmap string string;
  ge_server_shutdown_events : gmap string Z; ge_server_shutdowns : list VerifiedServerShutdownV1
}.
Record HandoverLifecycleExpectation := mkHandoverExpectation {
  he_predecessor_generation_index : Z; he_successor_generation_index : Z; he_proof_sha256 : string
}.
Record GenerationLifecycleState := mkGenerationState {
  gs_launch_record : option Z; gs_process_started_record : option Z; gs_process_started_mono_ns : option Z;
  gs_process_terminal_record : option Z; gs_process_terminal_mono_ns : option Z;
  gs_generation_exited_record : option Z; gs_generation_exited_mono_ns : option Z
}.
Definition no_generation_state : GenerationLifecycleState := mkGenerationState None None None None None None None.
Record VerifiedRawCampaignGenerationV1 := mkVerifiedCampaignGeneration {
  vq_generation_index : Z; vq_session_id : string; vq_verification_sha256 : string; vq_depth_records : Z;
  vq_trade_records : Z
}.
Record VerifiedRawCampaignV1 := mkVerifiedRawCampaign {
  vk_schema : string; vk_status : string; vk_campaign_id : string; vk_symbol : string; vk_total_duration_s : Z;
  vk_rotation_s : Z; vk_overlap_s : Z; vk_segment_s : Z; vk_campaign_manifest_sha256 : string;
  vk_journal_records : Z; vk_journal_terminal_sha256 : string;
  vk_generations : list VerifiedRawCampaignGenerationV1; vk_handovers : Z; vk_verification_sha256 : string
}.
Record VerificationMaterial := mkCampaignMaterial {
  vl_schema : string; vl_campaign_id : string; vl_symbol : string; vl_total_duration_s : Z;
  vl_rotation_s : Z; vl_overlap_s : Z; vl_segment_s : Z; vl_campaign_manifest_sha256 : string;
  vl_journal_records : Z; vl_journal_terminal_sha256 : string;
  vl_generations : list VerifiedRawCampaignGenerationV1; vl_handovers : Z
}.

#[global] Instance shutdown_eq_decision : EqDecision VerifiedServerShutdownV1.
Proof. solve_decision. Defined.

Definition set_launch (record : Z) (s : GenerationLifecycleState) : GenerationLifecycleState :=
  mkGenerationState (Some record) (gs_process_started_record s) (gs_process_started_mono_ns s)
    (gs_process_terminal_record s) (gs_process_terminal_mono_ns s) (gs_generation_exited_record s)
    (gs_generation_exited_mono_ns s).
Definition set_started (record mono : Z) (s : GenerationLifecycleState) : GenerationLifecycleState :=
  mkGenerationState (gs_launch_record s) (Some record) (Some mono)
    (gs_process_terminal_record s) (gs_process_terminal_mono_ns s) (gs_generation_exited_record s)
    (gs_generation_exited_mono_ns s).
Definition set_terminal (record mono : Z) (s : GenerationLifecycleState) : GenerationLifecycleState :=
  mkGenerationState (gs_launch_record s) (gs_process_started_record s) (gs_process_started_mono_ns s)
    (Some record) (Some mono) (gs_generation_exited_record s) (gs_generation_exited_mono_ns s).
Definition set_exited (record mono : Z) (s : GenerationLifecycleState) : GenerationLifecycleState :=
  mkGenerationState (gs_launch_record s) (gs_process_started_record s) (gs_process_started_mono_ns s)
    (gs_process_terminal_record s) (gs_process_terminal_mono_ns s) (Some record) (Some mono).

(** ** Paths *)

(** [format!("{n:03}")] *)
Definition pad3 (n : Z) : string :=
  let digits := dec_chars n in
  str_of (replicate (3 - length digits) (ascii_of_Z 48) ++ digits).

(** [safe_relative] of this file: no component leads out of the directory. *)
Definition campaign_relative (value : string) : res string :=
  _ ← reject (is_blank value
              || existsb (λ c, match c with ParentDir | RootDir => true | _ => false end) (path_components value))
        ("unsafe campaign-relative path: " ++ value);
  Ok value.

(** [OsStr::to_string_lossy]: every maximal ill-formed sequence becomes U+FFFD. *)
Definition replacement : chars := [ascii_of_Z 239; ascii_of_Z 191; ascii_of_Z 189].
Fixpoint lossy (l : chars) : chars :=
  let between (low high : Z) (c : ascii) := (low <=? code c) && (code c <=? high) in
  match l with
  | [] => []
  | a :: l1 =>
      if code a <=? 127 then a :: lossy l1 else
      let low := if code a =? 224 then 160 else if code a =? 240 then 144 else 128 in
      let high := if code a =? 237 then 159 else if code a =? 244 then 143 else 191 in
      let width := if between 194 223 a then 2 else if between 224 239 a then 3
                   else if between 240 244 a then 4 else 1 in
      if width =? 1 then replacement ++ lossy l1 else
      match l1 with
      | [] => replacement
      | b :: l2 =>
          if negb (between low high b) then replacement ++ lossy l1
          else if width =? 2 then a :: b :: lossy l2 else
          match l2 with
          | [] => replacement
          | c :: l3 =>
              if negb (between 128 191 c) then replacement ++ lossy l2
              else if width =? 3 then a :: b :: c :: lossy l3 else
              match l3 with
              | [] => replacement
              | d :: l4 => if negb (between 128 191 d) then replacement ++ lossy l3
                           else a :: b :: c :: d :: lossy l4
              end
          end
      end
  end.
Definition to_string_lossy (name : string) : string := str_of (lossy (str_chars name)).

Definition exact_entries (t : tree) (path : string) (expected : list string) : res unit :=
  kind ← ok_or (t_kind t !! path) ("stat " ++ path);
  _ ← reject (negb (bool_decide (kind = Directory))) (path ++ " is not a real directory");
  entries ← ok_or (t_entries t !! path) ("read " ++ path);
  actual ← try_map (λ name,
    kind ← ok_or (t_kind t !! path_join path name) "stat entry";
    _ ← reject (bool_decide (kind = Symlink)) "symlink/reparse entry rejected";
    Ok (to_string_lossy name)) entries;
  reject (negb (bool_decide ((list_to_set actual : gset string) = list_to_set expected)))
    ("exact campaign inventory mismatch at " ++ path).

Definition campaign_generation_timing (generation_segment_s generation_duration_s campaign_segment_s
    campaign_rotation_s campaign_overlap_s : Z) : res unit :=
  maximum_duration_s ← ok_or (checked_add campaign_rotation_s campaign_overlap_s)
                         "campaign generation duration policy overflow";
  reject (negb (generation_segment_s =? campaign_segment_s) || (generation_duration_s =? 0)
          || (maximum_duration_s <? generation_duration_s)) "generation timing differs from campaign policy".

Definition validate_process_session_path (value expected_session_id : string) : res unit :=
  let components := path_components value in
  reject (existsb (λ c, match c with ParentDir => true | _ => false end) components
          || negb (match rev components with
                   | Normal name :: Normal parent :: _ =>
                       String.eqb name expected_session_id && String.eqb parent "generations"
                   | _ => false
                   end)) "PROCESS_STARTED session path is not a generation path".

(** [slice.split(|byte| byte == b'\n')] *)
Fixpoint split_newline (b : bytes) : list bytes :=
  match b with
  | [] => [[]]
  | x :: b =>
      if bool_decide (x = x0a) then [] :: split_newline b
      else match split_newline b with [] => [[x]] | line :: lines => (x :: line) :: lines end
  end.

Section lifecycle.
Context `{Hval : SerdeValue} `{Hobj : !SerdeObject} `{Hget : !SerdeGet}.

Record CampaignJournalBodyV1 := mkCampaignBody {
  cj_schema : string; cj_record_index : Z; cj_wall_ns : Z; cj_campaign_mono_ns : Z;
  cj_generation_index : option Z; cj_channel : string; cj_payload : Value; cj_previous_record_sha256 : string
}.
Record CampaignJournalEnvelopeV1 := mkCampaignEnvelope {
  cl_body : CampaignJournalBodyV1; cl_record_sha256 : string
}.
Record VerifiedJournal := mkVerifiedJournal {
  vj_records : list CampaignJournalEnvelopeV1; vj_terminal_sha256 : string
}.

(** [value == json!({..})] for an object of strings and unsigned integers *)
Inductive json_field := JText (s : string) | JUnsigned (n : Z).
Definition is_json (value : Value) (fields : list (string * json_field)) : bool :=
  match as_object value with
  | Some o =>
      (length o =? length fields)%nat
      && forallb (λ '(key, field),
           match field with
           | JText s => bool_decide (map_get o key ≫= as_str = Some s)
           | JUnsigned n => bool_decide (map_get o key ≫= as_u64 = Some n)
           end) fields
  | None => false
  end.
(** [payload[field].as_str() == Some(text)] *)
Definition index_is (value : Value) (field text : string) : bool :=
  bool_decide (as_str (value_index value field) = Some text).

Definition payload_u64 (payload : Value) (field event : string) : res Z :=
  ok_or (as_u64 (value_index payload field)) (event ++ " lacks unsigned integer " ++ field).
Definition payload_text (payload : Value) (field event : string) : res string :=
  text ← ok_or (as_str (value_index payload field)) (event ++ " lacks nonempty string " ++ field);
  _ ← reject (String.eqb text "") (event ++ " lacks nonempty string " ++ field);
  Ok text.

Definition lifecycle_generation (generations : list GenerationLifecycleExpectation) (generation_index : option Z)
    (event : string) : res GenerationLifecycleExpectation :=
  index ← ok_or generation_index (event ++ " is not generation-scoped");
  generation ← ok_or (generations !! Z.to_nat index) (event ++ " references a generation outside the campaign");
  _ ← reject (negb (ge_generation_index generation =? index))
        (event ++ " references a generation outside the campaign");
  Ok generation.

(** ** The state of the campaign *)

(** Who has authority, who follows, and the handovers so far. *)
Record authority := mkAuthority {
  ay_initial_active_registered : bool; ay_active_generation : option Z; ay_pending_candidate : option Z;
  ay_warmed_generation : option Z; ay_candidate_registered : gset Z; ay_proof_started : gset (Z * Z);
  ay_promoted : gmap (Z * Z) string
}.
(** The shutdowns the venue announced: durable ones by stream, those without a consequence
    yet by connection, and the exact publications. *)
Record shutdowns := mkShutdowns {
  sw_observed : gmap (Z * string) Z; sw_available : gmap (Z * string) Z;
  sw_publications : list (Z * VerifiedServerShutdownV1)
}.
Record boundaries := mkBoundaries {
  bd_campaign_started : Z; bd_campaign_prepared : Z; bd_campaign_committed : Z;
  bd_prepared_boundary : option (Z * Z)
}.
Record lifecycle := mkLifecycle {
  lc_states : gmap Z GenerationLifecycleState; lc_authority : authority; lc_shutdowns : shutdowns;
  lc_boundaries : boundaries
}.

Definition set_states (states : gmap Z GenerationLifecycleState) (s : lifecycle) : lifecycle :=
  mkLifecycle states (lc_authority s) (lc_shutdowns s) (lc_boundaries s).
Definition set_authority (a : authority) (s : lifecycle) : lifecycle :=
  mkLifecycle (lc_states s) a (lc_shutdowns s) (lc_boundaries s).
Definition set_shutdowns (w : shutdowns) (s : lifecycle) : lifecycle :=
  mkLifecycle (lc_states s) (lc_authority s) w (lc_boundaries s).
Definition set_boundaries (b : boundaries) (s : lifecycle) : lifecycle :=
  mkLifecycle (lc_states s) (lc_authority s) (lc_shutdowns s) b.

Definition lifecycle_start (generations : list GenerationLifecycleExpectation) : lifecycle :=
  mkLifecycle (list_to_map (imap (λ i _, (Z.of_nat i, no_generation_state)) generations))
    (mkAuthority false None None None ∅ ∅ ∅) (mkShutdowns ∅ ∅ []) (mkBoundaries 0 0 0 None).

(** One shutdown of a connection gets its consequence. *)
Definition use_shutdown (key : Z * string) (missing reused : string) (w : shutdowns) : res shutdowns :=
  available ← ok_or (sw_available w !! key) missing;
  _ ← reject (available =? 0) reused;
  Ok (mkShutdowns (sw_observed w) (<[key := available - 1]> (sw_available w)) (sw_publications w)).

(** [entry(key).or_default()] followed by [checked_add(1)] *)
Definition count_entry (key : Z * string) (msg : string) (m : gmap (Z * string) Z) : res (gmap (Z * string) Z) :=
  n ← ok_or (checked_add (default 0 (m !! key)) 1) msg;
  Ok (<[key := n]> m).

(** [option.is_none_or(|started| started >= record_index)] *)
Definition not_before (o : option Z) (record_index : Z) : bool := is_none_or o (λ n, record_index <=? n).

Section events.
Context (campaign_id startup_sha256 campaign_manifest_sha256 : string).
Context (generations : list GenerationLifecycleExpectation) (expected_handovers : gmap (Z * Z) string).

Definition campaign_scope (body : CampaignJournalBodyV1) : bool :=
  String.eqb (cj_channel body) "CAMPAIGN" && bool_decide (cj_generation_index body = None).

Definition on_campaign_started (body : CampaignJournalBodyV1) (b : boundaries) : res boundaries :=
  n ← ok_or (checked_add (bd_campaign_started b) 1) "CAMPAIGN_STARTED count overflow";
  _ ← reject (negb (campaign_scope body)
              || negb (is_json (cj_payload body) [("event", JText "CAMPAIGN_STARTED");
                   ("campaign_id", JText campaign_id); ("startup_sha256", JText startup_sha256)]%string))
        "CAMPAIGN_STARTED identity is invalid";
  Ok (mkBoundaries n (bd_campaign_prepared b) (bd_campaign_committed b) (bd_prepared_boundary b)).
Definition on_campaign_prepared (body : CampaignJournalBodyV1) (b : boundaries) : res boundaries :=
  n ← ok_or (checked_add (bd_campaign_prepared b) 1) "campaign prepared count overflow";
  _ ← reject (negb (campaign_scope body)
              || negb (is_json (cj_payload body) [("event", JText "CAMPAIGN_EVALUATION_PREPARED")]%string))
        "CAMPAIGN_EVALUATION_PREPARED scope is invalid";
  Ok (mkBoundaries (bd_campaign_started b) n (bd_campaign_committed b)
        (Some (cj_record_index body, cj_campaign_mono_ns body))).
Definition on_campaign_committed (body : CampaignJournalBodyV1) (b : boundaries) : res boundaries :=
  n ← ok_or (checked_add (bd_campaign_committed b) 1) "campaign commit count overflow";
  _ ← reject (negb (campaign_scope body)
              || negb (is_json (cj_payload body) [("event", JText "CAMPAIGN_COMMITTED");
                   ("manifest_file", JText "campaign.json");
                   ("manifest_sha256", JText campaign_manifest_sha256)]%string))
        "CAMPAIGN_COMMITTED identity is invalid";
  Ok (mkBoundaries (bd_campaign_started b) (bd_campaign_prepared b) n (bd_prepared_boundary b)).

Definition on_server_shutdown_durable (body : CampaignJournalBodyV1) (event : string) (s : lifecycle) : res lifecycle :=
  let payload := cj_payload body in
  generation ← lifecycle_generation generations (cj_generation_index body) event;
  state ← expect (lc_states s !! ge_generation_index generation);
  shutdown ← ok_or (as_object (value_index payload "shutdown")) "SERVER_SHUTDOWN_DURABLE lacks shutdown object";
  let shutdown_value := value_index payload "shutdown" in
  stream ← payload_text shutdown_value "stream" event;
  epoch ← payload_text shutdown_value "connection_epoch" event;
  segment_index ← payload_u64 shutdown_value "segment_index" event;
  frame_index ← payload_u64 shutdown_value "frame_index" event;
  let expected_raw_file := ("segment-" ++ pad6 segment_index ++ ".bnraw")%string in
  let msg := "SERVER_SHUTDOWN_DURABLE identity is invalid" in
  _ ← reject (negb (String.eqb (cj_channel body) "CHILD_STDOUT")
              || not_before (gs_process_started_record state) (cj_record_index body)
              || bool_decide (is_Some (gs_process_terminal_record state))
              || negb (index_is payload "schema" "ServerShutdownDurableProcessEventV1")
              || negb (index_is payload "session_id" (ge_session_id generation))
              || negb (index_is shutdown_value "schema" "DurableServerShutdownEventV1")
              || negb (String.eqb stream "depth" || String.eqb stream "trade")
              || negb (bool_decide (ge_stream_epochs generation !! stream = Some epoch))
              || negb (index_is shutdown_value "raw_file" expected_raw_file)) msg;
  receive_mono_ns ← payload_u64 shutdown_value "receive_mono_ns" event;
  _ ← reject (receive_mono_ns =? 0) msg;
  durable_record_count ← payload_u64 shutdown_value "durable_record_count" event;
  _ ← reject (durable_record_count =? 0) msg;
  durable_through_offset ← payload_u64 shutdown_value "durable_through_offset" event;
  _ ← reject (durable_through_offset =? 0) msg;
  last_record_sha256 ← payload_text shutdown_value "last_record_sha256" event;
  _ ← reject (negb (is_digest last_record_sha256)
              || negb (bool_decide (length <$> as_object payload = Some 4%nat))
              || negb (length shutdown =? 10)%nat) msg;
  let exact_shutdown := mkVerifiedShutdown stream epoch segment_index expected_raw_file frame_index receive_mono_ns
                          durable_record_count durable_through_offset last_record_sha256 in
  let publication := (ge_generation_index generation, exact_shutdown) in
  let w := lc_shutdowns s in
  _ ← reject (negb (bool_decide (exact_shutdown ∈ ge_server_shutdowns generation))
              || bool_decide (publication ∈ sw_publications w))
        "SERVER_SHUTDOWN_DURABLE does not bind one exact BNRAW record";
  observed ← count_entry (ge_generation_index generation, stream) "serverShutdown journal count overflow"
               (sw_observed w);
  available ← count_entry (ge_generation_index generation, epoch) "available serverShutdown count overflow"
                (sw_available w);
  Ok (set_shutdowns (mkShutdowns observed available (sw_publications w ++ [publication])) s).

(** A generation may be launched when it is the next one behind the active generation and
    nothing else is on the way, or as a warm successor of the pending candidate. *)
Definition immediate_candidate (index : Z) (a : authority) : bool :=
  negb (index =? 0) && bool_decide (ay_active_generation a = checked_sub index 1)
  && bool_decide (ay_pending_candidate a = None) && bool_decide (ay_warmed_generation a = None).
Definition warm_ahead (event : string) (index : Z) (a : authority) : bool :=
  String.eqb event "GENERATION_LAUNCHED" && (2 <=? index)
  && bool_decide (ay_active_generation a = checked_sub index 2)
  && bool_decide (ay_pending_candidate a = checked_sub index 1) && bool_decide (ay_warmed_generation a = None).

(** A launch that a shutdown of the active generation caused. *)
Definition launch_source (body : CampaignJournalBodyV1) (event : string) (generation : GenerationLifecycleExpectation)
    (s : lifecycle) : res shutdowns :=
  let payload := cj_payload body in
  let index := ge_generation_index generation in
  source_generation ← payload_u64 payload "source_generation" event;
  source_epoch ← payload_text payload "source_epoch" event;
  _ ← reject ((index =? 0) || negb (bool_decide (checked_add source_generation 1 = Some index))
              || negb (is_json payload [("event", JText "GENERATION_LAUNCHED_SERVER_SHUTDOWN");
                   ("duration_s", JUnsigned (ge_duration_requested_s generation));
                   ("source_generation", JUnsigned source_generation);
                   ("source_epoch", JText source_epoch)]%string))
        "serverShutdown launch source generation is invalid";
  source ← ok_or (generations !! Z.to_nat source_generation) "serverShutdown launch source is absent";
  _ ← reject (negb (ge_generation_index source =? source_generation)) "serverShutdown launch source is absent";
  _ ← reject (is_none_or (lc_states s !! source_generation) (λ state,
                bool_decide (is_Some (gs_process_terminal_record state))
                || bool_decide (is_Some (gs_generation_exited_record state))))
        "serverShutdown launch source is no longer active";
  _ ← reject (negb (bool_decide (ay_active_generation (lc_authority s) = Some source_generation)))
        "serverShutdown launch source is not the active generation";
  _ ← reject (negb (existsb (String.eqb source_epoch) ((map_to_list (ge_stream_epochs source)).*2)))
        "serverShutdown launch source epoch is not authoritative";
  use_shutdown (source_generation, source_epoch) "serverShutdown launch lacks a prior durable source event"
    "serverShutdown durable source event was reused" (lc_shutdowns s).

Definition on_generation_launched (body : CampaignJournalBodyV1) (event : string) (s : lifecycle) : res lifecycle :=
  let payload := cj_payload body in
  generation ← lifecycle_generation generations (cj_generation_index body) event;
  let index := ge_generation_index generation in
  state ← expect (lc_states s !! index);
  let a := lc_authority s in
  let msg := "generation launch is invalid" in
  _ ← reject (negb (String.eqb (cj_channel body) "CAMPAIGN") || bool_decide (is_Some (gs_launch_record state))) msg;
  duration_s ← payload_u64 payload "duration_s" event;
  _ ← reject (negb (duration_s =? ge_duration_requested_s generation)
              || (if index =? 0
                  then negb (String.eqb event "GENERATION_LAUNCHED")
                       || bool_decide (is_Some (ay_active_generation a))
                       || bool_decide (is_Some (ay_pending_candidate a))
                       || bool_decide (is_Some (ay_warmed_generation a))
                  else negb (immediate_candidate index a) && negb (warm_ahead event index a))
              || (String.eqb event "GENERATION_LAUNCHED"
                  && negb (is_json payload [("event", JText "GENERATION_LAUNCHED");
                       ("duration_s", JUnsigned (ge_duration_requested_s generation))]%string))) msg;
  w ← if String.eqb event "GENERATION_LAUNCHED_SERVER_SHUTDOWN"
      then launch_source body event generation s else Ok (lc_shutdowns s);
  let a' := if index =? 0 then a
            else if warm_ahead event index a
            then mkAuthority (ay_initial_active_registered a) (ay_active_generation a) (ay_pending_candidate a)
                   (Some index) (ay_candidate_registered a) (ay_proof_started a) (ay_promoted a)
            else mkAuthority (ay_initial_active_registered a) (ay_active_generation a) (Some index)
                   (ay_warmed_generation a) (ay_candidate_registered a) (ay_proof_started a) (ay_promoted a) in
  Ok (mkLifecycle (<[index := set_launch (cj_record_index body) state]> (lc_states s)) a' w (lc_boundaries s)).

Definition on_process_started (body : CampaignJournalBodyV1) (event : string) (s : lifecycle) : res lifecycle :=
  let payload := cj_payload body in
  generation ← lifecycle_generation generations (cj_generation_index body) event;
  let index := ge_generation_index generation in
  state ← expect (lc_states s !! index);
  let msg := "generation PROCESS_STARTED is invalid" in
  _ ← reject (negb (String.eqb (cj_channel body) "CHILD_STDOUT")
              || bool_decide (is_Some (gs_process_started_record state))
              || not_before (gs_launch_record state) (cj_record_index body)
              || negb (index_is payload "schema" "CaptureProcessEventV1")) msg;
  generation_index ← payload_u64 payload "generation_index" event;
  _ ← reject (negb (generation_index =? index) || negb (index_is payload "session_id" (ge_session_id generation))
              || negb (index_is payload "symbol" (ge_symbol generation))
              || negb (index_is payload "spec_revision" SPEC_REVISION)
              || negb (index_is payload "startup_manifest_sha256" (ge_startup_sha256 generation))) msg;
  process_id ← payload_u64 payload "process_id" event;
  _ ← reject (process_id =? 0) msg;
  session_dir ← payload_text payload "session_dir" event;
  _ ← validate_process_session_path session_dir (ge_session_id generation);
  Ok (set_states (<[index := set_started (cj_record_index body) (cj_campaign_mono_ns body) state]> (lc_states s)) s).

(** The generation behind [index], where there is one, runs already. *)
Definition successor_started (index : Z) (body : CampaignJournalBodyV1) (s : lifecycle) : bool :=
  match checked_add index 1 with
  | Some successor =>
      if successor <? len generations
      then is_some_and (lc_states s !! successor) (λ state,
             is_some_and (gs_process_started_record state) (λ started, started <? cj_record_index body)
             && is_some_and (gs_process_started_mono_ns state) (λ started, started <=? cj_campaign_mono_ns body))
      else true
  | None => true
  end.
Definition on_process_terminal (body : CampaignJournalBodyV1) (event : string) (s : lifecycle) : res lifecycle :=
  let payload := cj_payload body in
  generation ← lifecycle_generation generations (cj_generation_index body) event;
  let index := ge_generation_index generation in
  let prior_handover_is_promoted :=
    (index =? 0) || is_some_and (checked_sub index 1) (λ predecessor,
      bool_decide (is_Some (ay_promoted (lc_authority s) !! (predecessor, index)))) in
  state ← expect (lc_states s !! index);
  _ ← reject (negb (String.eqb (cj_channel body) "CHILD_STDOUT")
              || bool_decide (is_Some (gs_process_terminal_record state))
              || not_before (gs_process_started_record state) (cj_record_index body)
              || negb (index_is payload "schema" "CaptureTerminalProcessEventV1")
              || negb (index_is payload "session_id" (ge_session_id generation))
              || negb (index_is payload "status" "COMPLETE")
              || negb (index_is payload "generation_manifest" "generation.json")
              || negb prior_handover_is_promoted || negb (successor_started index body s))
        "generation PROCESS_TERMINAL is invalid";
  Ok (set_states (<[index := set_terminal (cj_record_index body) (cj_campaign_mono_ns body) state]> (lc_states s)) s).

Definition on_generation_exited (body : CampaignJournalBodyV1) (event : string) (s : lifecycle) : res lifecycle :=
  let payload := cj_payload body in
  generation ← lifecycle_generation generations (cj_generation_index body) event;
  let index := ge_generation_index generation in
  state ← expect (lc_states s !! index);
  let msg := "generation GENERATION_EXITED is invalid" in
  _ ← reject (negb (String.eqb (cj_channel body) "CAMPAIGN")
              || bool_decide (is_Some (gs_generation_exited_record state))
              || not_before (gs_process_terminal_record state) (cj_record_index body)
              || negb (bool_decide (as_bool (value_index payload "success") = Some true))) msg;
  exit_code ← payload_u64 payload "code" event;
  _ ← reject (negb (exit_code =? 0)) msg;
  Ok (set_states (<[index := set_exited (cj_record_index body) (cj_campaign_mono_ns body) state]> (lc_states s)) s).

Definition on_proof_started (body : CampaignJournalBodyV1) (event : string) (s : lifecycle) : res lifecycle :=
  let payload := cj_payload body in
  successor ← lifecycle_generation generations (cj_generation_index body) event;
  let index := ge_generation_index successor in
  predecessor ← payload_u64 payload "predecessor" event;
  let pair := (predecessor, index) in
  predecessor_state ← ok_or (lc_states s !! predecessor) "handover proof predecessor is absent";
  successor_state ← expect (lc_states s !! index);
  let a := lc_authority s in
  _ ← reject (negb (String.eqb (cj_channel body) "CAMPAIGN")
              || negb (bool_decide (checked_add predecessor 1 = Some index))
              || negb (is_json payload [("event", JText "HANDOVER_PROOF_STARTED");
                   ("predecessor", JUnsigned predecessor)]%string)
              || negb (bool_decide (is_Some (expected_handovers !! pair)))
              || bool_decide (pair ∈ ay_proof_started a)
              || negb (bool_decide (ay_active_generation a = Some predecessor))
              || negb (bool_decide (ay_pending_candidate a = Some index))
              || negb (bool_decide (index ∈ ay_candidate_registered a))
              || not_before (gs_generation_exited_record predecessor_state) (cj_record_index body)
              || not_before (gs_process_started_record successor_state) (cj_record_index body)
              || bool_decide (is_Some (gs_process_terminal_record successor_state)))
        "HANDOVER_PROOF_STARTED lifecycle/order is invalid";
  Ok (set_authority (mkAuthority (ay_initial_active_registered a) (ay_active_generation a) (ay_pending_candidate a)
        (ay_warmed_generation a) (ay_candidate_registered a) ({[pair]} ∪ ay_proof_started a) (ay_promoted a)) s).

Definition on_promoted (body : CampaignJournalBodyV1) (event : string) (s : lifecycle) : res lifecycle :=
  let payload := cj_payload body in
  successor ← lifecycle_generation generations (cj_generation_index body) event;
  let index := ge_generation_index successor in
  predecessor ← payload_u64 payload "predecessor" event;
  let pair := (predecessor, index) in
  proof_sha256 ← payload_text payload "proof_sha256" event;
  successor_state ← expect (lc_states s !! index);
  let a := lc_authority s in
  _ ← reject (negb (String.eqb (cj_channel body) "SUPERVISOR")
              || negb (bool_decide (checked_add predecessor 1 = Some index))
              || negb (is_json payload [("event", JText "HANDOVER_PROVEN_AND_PROMOTED");
                   ("predecessor", JUnsigned predecessor); ("proof_sha256", JText proof_sha256)]%string)
              || negb (bool_decide (pair ∈ ay_proof_started a))
              || negb (bool_decide (index ∈ ay_candidate_registered a))
              || negb (bool_decide (ay_active_generation a = Some predecessor))
              || negb (bool_decide (ay_pending_candidate a = Some index))
              || bool_decide (is_Some (ay_promoted a !! pair))
              || negb (bool_decide (expected_handovers !! pair = Some proof_sha256))
              || bool_decide (is_Some (gs_process_terminal_record successor_state)))
        "HANDOVER_PROVEN_AND_PROMOTED digest/lifecycle is invalid";
  Ok (set_authority (mkAuthority (ay_initial_active_registered a) (Some index) None (ay_warmed_generation a)
        (ay_candidate_registered a) (ay_proof_started a) (<[pair := proof_sha256]> (ay_promoted a))) s).

Definition on_initial_active (body : CampaignJournalBodyV1) (event : string) (s : lifecycle) : res lifecycle :=
  generation ← lifecycle_generation generations (cj_generation_index body) event;
  let a := lc_authority s in
  let msg := "INITIAL_ACTIVE_REGISTERED lifecycle is invalid" in
  _ ← reject (negb (ge_generation_index generation =? 0) || ay_initial_active_registered a) msg;
  state ← expect (lc_states s !! 0);
  _ ← reject (not_before (gs_process_started_record state) (cj_record_index body)
              || negb (is_json (cj_payload body) [("event", JText "INITIAL_ACTIVE_REGISTERED")]%string)) msg;
  Ok (set_authority (mkAuthority true (Some 0) (ay_pending_candidate a) (ay_warmed_generation a)
        (ay_candidate_registered a) (ay_proof_started a) (ay_promoted a)) s).

(** The warm successor takes the place of the candidate. *)
Definition admit_warmed (index : Z) (a : authority) : authority :=
  if bool_decide (ay_warmed_generation a = Some index) && bool_decide (ay_pending_candidate a = None)
     && bool_decide (ay_active_generation a = checked_sub index 1)
  then mkAuthority (ay_initial_active_registered a) (ay_active_generation a) (Some index) None
         (ay_candidate_registered a) (ay_proof_started a) (ay_promoted a)
  else a.
Definition on_candidate_registered (body : CampaignJournalBodyV1) (event : string) (s : lifecycle) : res lifecycle :=
  generation ← lifecycle_generation generations (cj_generation_index body) event;
  let index := ge_generation_index generation in
  let a := admit_warmed index (lc_authority s) in
  let msg := "CANDIDATE_REGISTERED lifecycle is invalid" in
  _ ← reject (index =? 0) msg;
  state ← expect (lc_states s !! index);
  _ ← reject (not_before (gs_process_started_record state) (cj_record_index body)
              || negb (bool_decide (ay_active_generation a = checked_sub index 1))
              || negb (bool_decide (ay_pending_candidate a = Some index))
              || bool_decide (index ∈ ay_candidate_registered a)
              || negb (is_json (cj_payload body) [("event", JText "CANDIDATE_REGISTERED")]%string)) msg;
  Ok (set_authority (mkAuthority (ay_initial_active_registered a) (ay_active_generation a) (ay_pending_candidate a)
        (ay_warmed_generation a) ({[index]} ∪ ay_candidate_registered a) (ay_proof_started a) (ay_promoted a)) s).

(** A shutdown that needs no launch: of a generation without authority, or while a
    candidate is on the way. *)
Definition on_shutdown_disposed (body : CampaignJournalBodyV1) (event : string) (s : lifecycle) : res lifecycle :=
  let payload := cj_payload body in
  generation ← lifecycle_generation generations (cj_generation_index body) event;
  let index := ge_generation_index generation in
  source_epoch ← payload_text payload "source_epoch" event;
  let a := lc_authority s in
  _ ← reject (negb (existsb (String.eqb source_epoch) ((map_to_list (ge_stream_epochs generation)).*2))
              || negb (is_json payload [("event", JText event); ("source_epoch", JText source_epoch)]%string)
              || (String.eqb event "SERVER_SHUTDOWN_IGNORED_NON_ACTIVE"
                  && bool_decide (ay_active_generation a = Some index))
              || (String.eqb event "SERVER_SHUTDOWN_CANDIDATE_ALREADY_PENDING"
                  && (negb (bool_decide (ay_active_generation a = Some index))
                      || bool_decide (ay_pending_candidate a = None))))
        (event ++ " source/lifecycle is invalid");
  w ← use_shutdown (index, source_epoch) (event ++ " lacks a prior durable source event")
        (event ++ " reused a durable source event") (lc_shutdowns s);
  Ok (set_shutdowns w s).

Definition child_events : list string :=
  ["PROCESS_STARTED"; "TRANSPORT_CONNECTED"; "SNAPSHOT_DURABLE"; "SEGMENT_DURABLE"; "SERVER_SHUTDOWN_DURABLE";
   "HEARTBEAT_DURABLE"; "PROCESS_TERMINAL"]%string.
Definition campaign_events : list string :=
  ["CAMPAIGN_STARTED"; "GENERATION_LAUNCHED"; "GENERATION_LAUNCHED_SERVER_SHUTDOWN"; "GENERATION_EXITED";
   "HANDOVER_PROOF_STARTED"; "CAMPAIGN_EVALUATION_PREPARED"; "CAMPAIGN_COMMITTED"; "CAMPAIGN_FAILED"]%string.
Definition supervisor_events : list string :=
  ["INITIAL_ACTIVE_REGISTERED"; "CANDIDATE_REGISTERED"; "HANDOVER_PROVEN_AND_PROMOTED";
   "SERVER_SHUTDOWN_IGNORED_NON_ACTIVE"; "SERVER_SHUTDOWN_CANDIDATE_ALREADY_PENDING";
   "GENERATION_DISCONNECT_FAIL_CLOSED"]%string.
Definition channel_events (channel : string) : list string :=
  if String.eqb channel "CHILD_STDOUT" then child_events
  else if String.eqb channel "CAMPAIGN" then campaign_events
  else if String.eqb channel "SUPERVISOR" then supervisor_events else [].

Definition child_schema (event : string) : string :=
  if String.eqb event "PROCESS_STARTED" then "CaptureProcessEventV1"
  else if String.eqb event "TRANSPORT_CONNECTED" then "TransportConnectedProcessEventV1"
  else if String.eqb event "SNAPSHOT_DURABLE" then "SnapshotDurableProcessEventV1"
  else if String.eqb event "SEGMENT_DURABLE" then "SegmentDurableProcessEventV1"
  else if String.eqb event "SERVER_SHUTDOWN_DURABLE" then "ServerShutdownDurableProcessEventV1"
  else if String.eqb event "HEARTBEAT_DURABLE" then "HeartbeatProcessEventV1"
  else "CaptureTerminalProcessEventV1".

(** What a child process may say of its own session. *)
Definition child_check (body : CampaignJournalBodyV1) (event : string) (s : lifecycle) : res unit :=
  let payload := cj_payload body in
  _ ← reject (negb (index_is payload "schema" (child_schema event))) (event ++ " uses the wrong child event schema");
  generation ← lifecycle_generation generations (cj_generation_index body) event;
  state ← expect (lc_states s !! ge_generation_index generation);
  reject (negb (index_is payload "session_id" (ge_session_id generation))
          || (negb (String.eqb event "PROCESS_STARTED")
              && (not_before (gs_process_started_record state) (cj_record_index body)
                  || bool_decide (is_Some (gs_process_terminal_record state)))))
    (event ++ " child session/lifecycle is invalid").

Definition lifecycle_event (body : CampaignJournalBodyV1) (event : string) (s : lifecycle) : res lifecycle :=
  let named := String.eqb event in
  if named "CAMPAIGN_STARTED" then b ← on_campaign_started body (lc_boundaries s); Ok (set_boundaries b s)
  else if named "CAMPAIGN_EVALUATION_PREPARED" then
    b ← on_campaign_prepared body (lc_boundaries s); Ok (set_boundaries b s)
  else if named "CAMPAIGN_COMMITTED" then b ← on_campaign_committed body (lc_boundaries s); Ok (set_boundaries b s)
  else if named "CAMPAIGN_FAILED" then Err "successful campaign journal contains CAMPAIGN_FAILED"
  else if named "GENERATION_DISCONNECT_FAIL_CLOSED" then
    Err "successful campaign journal contains a fail-closed disconnect"
  else if named "SERVER_SHUTDOWN_DURABLE" then on_server_shutdown_durable body event s
  else if named "GENERATION_LAUNCHED" || named "GENERATION_LAUNCHED_SERVER_SHUTDOWN" then on_generation_launched body event s
  else if named "PROCESS_STARTED" then on_process_started body event s
  else if named "PROCESS_TERMINAL" then on_process_terminal body event s
  else if named "GENERATION_EXITED" then on_generation_exited body event s
  else if named "HANDOVER_PROOF_STARTED" then on_proof_started body event s
  else if named "HANDOVER_PROVEN_AND_PROMOTED" then on_promoted body event s
  else if named "INITIAL_ACTIVE_REGISTERED" then on_initial_active body event s
  else if named "CANDIDATE_REGISTERED" then on_candidate_registered body event s
  else if named "SERVER_SHUTDOWN_IGNORED_NON_ACTIVE" || named "SERVER_SHUTDOWN_CANDIDATE_ALREADY_PENDING" then
    on_shutdown_disposed body event s
  else if named "TRANSPORT_CONNECTED" || named "SNAPSHOT_DURABLE" || named "SEGMENT_DURABLE" || named "HEARTBEAT_DURABLE" then Ok s
  else Panic.

Definition lifecycle_record (s : lifecycle) (record : CampaignJournalEnvelopeV1) : res lifecycle :=
  let body := cl_body record in
  let channel := cj_channel body in
  _ ← reject (negb (String.eqb channel "CAMPAIGN" || String.eqb channel "CHILD_STDOUT"
                    || String.eqb channel "CHILD_STDERR" || String.eqb channel "SUPERVISOR")
              || (cj_wall_ns body =? 0)) "campaign journal channel/wall timestamp is invalid";
  _ ← reject (String.eqb channel "CHILD_STDERR") "complete campaign journal contains child stderr";
  _ ← reject (is_some_and (cj_generation_index body) (λ index,
                is_none_or (generations !! Z.to_nat index) (λ g, negb (ge_generation_index g =? index))))
        "campaign journal references a generation outside the manifest";
  value ← ok_or (value_get (cj_payload body) "event") "campaign journal payload lacks event";
  event ← ok_or (as_str value) "campaign journal event is not a string";
  _ ← reject (negb (existsb (String.eqb event) (channel_events channel)))
        "campaign journal event is unknown or invalid for channel";
  _ ← if String.eqb channel "CHILD_STDOUT" then child_check body event s else Ok ();
  lifecycle_event body event s.
End events.

(** ** The whole journal *)

(** Session and connection names are used once in a campaign. *)
Fixpoint insert_tokens (tokens : gset string) (names : list string) : res (gset string) :=
  match names with
  | [] => Ok tokens
  | name :: names =>
      _ ← reject (bool_decide (name ∈ tokens)) "campaign generation/session epoch identity was reused";
      insert_tokens ({[name]} ∪ tokens) names
  end.
Definition identity_turn (tokens : gset string) (generation : GenerationLifecycleExpectation) : res (gset string) :=
  let epochs := (map_to_list (ge_stream_epochs generation)).*2 in
  _ ← reject (negb (size (ge_stream_epochs generation) =? 2)%nat
              || bool_decide (ge_stream_epochs generation !! "depth"%string = None)
              || bool_decide (ge_stream_epochs generation !! "trade"%string = None)
              || existsb (String.eqb "") epochs)
        "campaign generation/session epoch identity was reused";
  insert_tokens tokens (ge_session_id generation :: epochs).

(** The life of a generation is complete, and its shutdowns are those of its raw files. *)
Definition generation_complete (s : lifecycle) (generation : GenerationLifecycleExpectation) : res unit :=
  let index := ge_generation_index generation in
  state ← expect (lc_states s !! index);
  _ ← reject (bool_decide (gs_launch_record state = None) || bool_decide (gs_process_started_record state = None)
              || bool_decide (gs_process_terminal_record state = None)
              || bool_decide (gs_generation_exited_record state = None)) "generation lifecycle is incomplete";
  _ ← reject (negb (length (filter (λ p, p.1 = index) (sw_publications (lc_shutdowns s)))
                    =? length (ge_server_shutdowns generation))%nat)
        "generation journal/raw serverShutdown identities differ";
  _ ← try_map (λ '(stream, expected),
        reject (negb (default 0 (sw_observed (lc_shutdowns s) !! (index, stream)) =? expected))
          "generation serverShutdown journal/raw count differs") (map_to_list (ge_server_shutdown_events generation));
  Ok ().

(** A generation starts before its predecessor ends. *)
Definition overlap_turn (s : lifecycle) (successor_index : nat) : res unit :=
  predecessor ← expect (lc_states s !! (Z.of_nat successor_index - 1));
  successor ← expect (lc_states s !! Z.of_nat successor_index);
  successor_started ← expect (gs_process_started_mono_ns successor);
  reject (is_none_or (gs_process_terminal_mono_ns predecessor) (λ terminal, terminal <=? successor_started)
          || is_none_or (gs_generation_exited_mono_ns predecessor) (λ exited, exited <=? successor_started))
    "generation did not start before its predecessor terminated".

(** The time a generation covers: from its start for the duration it was asked for. *)
Definition window_end (generation : GenerationLifecycleExpectation) (started : Z) : option Z :=
  duration ← checked_mul (ge_duration_requested_s generation) 1000000000;
  checked_add started duration.
Definition coverage_turn (generations : list GenerationLifecycleExpectation) (s : lifecycle)
    (acc : Z * Z) (index : nat) : res (Z * Z) :=
  let '(covered_through_ns, previous_start_ns) := acc in
  state ← expect (lc_states s !! Z.of_nat index);
  started ← expect (gs_process_started_mono_ns state);
  _ ← reject ((started <=? previous_start_ns) || (covered_through_ns <? started))
        "generation declared coverage leaves a campaign gap or regresses";
  generation ← expect (generations !! index);
  end_ ← ok_or (window_end generation started) "generation coverage interval overflow";
  Ok (Z.max covered_through_ns end_, started).

(** With no generation the first check on the authority already fails, so the subtraction
    of the length does not underflow. *)
Definition lifecycle_finish (total_duration_s : Z) (generations : list GenerationLifecycleExpectation)
    (expected_handovers : gmap (Z * Z) string) (s : lifecycle) : res unit :=
  let b := lc_boundaries s in
  let a := lc_authority s in
  let last_index := len generations - 1 in
  _ ← reject (negb (bd_campaign_started b =? 1) || negb (bd_campaign_prepared b =? 1)
              || negb (bd_campaign_committed b =? 1)) "campaign lifecycle boundary cardinality is invalid";
  _ ← reject (negb (ay_initial_active_registered a) || negb (bool_decide (ay_active_generation a = Some last_index))
              || bool_decide (is_Some (ay_pending_candidate a)) || bool_decide (is_Some (ay_warmed_generation a)))
        "campaign active-generation lifecycle is incomplete";
  _ ← reject (existsb (λ p, negb (p.2 =? 0)) (map_to_list (sw_available (lc_shutdowns s))))
        "durable serverShutdown event lacks one terminal disposition";
  _ ← try_map (generation_complete s) generations;
  required_mono_ns ← ok_or (checked_mul total_duration_s 1000000000) "campaign duration nanoseconds overflow";
  first ← ok_or (lc_states s !! 0) "campaign lifecycle has no first generation";
  _ ← reject (is_none_or (gs_process_started_mono_ns first) (λ started, CAMPAIGN_STARTUP_GRACE_NS <? started))
        "first generation PROCESS_STARTED exceeded startup grace";
  _ ← try_map (overlap_turn s) (seq 1 (length generations - 1));
  first_start_ns ← expect (gs_process_started_mono_ns first);
  first_generation ← expect (generations !! 0%nat);
  covered_through_ns ← ok_or (window_end first_generation first_start_ns) "first generation coverage interval overflow";
  '(covered_through_ns, _) ← try_fold (coverage_turn generations s) (covered_through_ns, first_start_ns)
                               (seq 1 (length generations - 1));
  _ ← reject (covered_through_ns <? required_mono_ns) "declared generation windows do not cover the requested campaign";
  last_state ← expect (lc_states s !! last_index);
  last_terminal_record ← expect (gs_process_terminal_record last_state);
  last_exit_record ← expect (gs_generation_exited_record last_state);
  last_terminal_mono_ns ← expect (gs_process_terminal_mono_ns last_state);
  last_exit_mono_ns ← expect (gs_generation_exited_mono_ns last_state);
  _ ← reject ((last_terminal_mono_ns <? required_mono_ns) || (last_exit_mono_ns <? required_mono_ns))
        "last generation ended before the requested campaign duration";
  '(prepared_record, prepared_mono_ns) ← ok_or (bd_prepared_boundary b) "campaign prepared boundary is absent";
  _ ← reject ((prepared_record <=? last_terminal_record) || (prepared_record <=? last_exit_record)
              || (prepared_mono_ns <? last_terminal_mono_ns) || (prepared_mono_ns <? last_exit_mono_ns))
        "campaign prepared boundary predates the last generation end";
  reject (negb (bool_decide (ay_proof_started a = dom expected_handovers))
          || negb (bool_decide (dom (ay_promoted a) = dom expected_handovers)))
    "campaign handover lifecycle cardinality is incomplete".

Definition handover_pairs (handovers : list HandoverLifecycleExpectation) : gmap (Z * Z) string :=
  list_to_map (rev ((λ h, ((he_predecessor_generation_index h, he_successor_generation_index h), he_proof_sha256 h))
                    <$> handovers)).

Definition validate_campaign_lifecycle (journal : VerifiedJournal) (campaign_id startup_sha256
    campaign_manifest_sha256 : string) (total_duration_s : Z) (generations : list GenerationLifecycleExpectation)
    (handovers : list HandoverLifecycleExpectation) : res unit :=
  _ ← try_fold identity_turn ∅ generations;
  let expected_handovers := handover_pairs handovers in
  s ← try_fold (lifecycle_record campaign_id startup_sha256 campaign_manifest_sha256 generations expected_handovers)
        (lifecycle_start generations) (vj_records journal);
  lifecycle_finish total_duration_s generations expected_handovers s.

Definition validate_precommit_elapsed (journal : VerifiedJournal) (precommit : nat) (total_duration_s : Z) : res unit :=
  required_mono_ns ← ok_or (checked_mul total_duration_s 1000000000) "campaign duration nanoseconds overflow";
  _ ← reject (precommit =? 0)%nat "campaign precommit boundary is empty";
  prepared ← ok_or (vj_records journal !! pred precommit) "campaign precommit boundary is empty";
  reject (cj_campaign_mono_ns (cl_body prepared) <? required_mono_ns)
    "campaign precommit predates the requested duration".
End lifecycle.

(** ** The campaign directory *)

Definition set_session_dir (dir : string) (g : VerifiedGenerationV1) : VerifiedGenerationV1 :=
  mkVerifiedGeneration (vg_session_id g) dir (vg_generation_index g) (vg_symbol g) (vg_duration_requested_s g)
    (vg_segment_duration_s g) (vg_started_wall_ns g) (vg_finished_wall_ns g) (vg_collector_executable_sha256 g)
    (vg_public_config_sha256 g) (vg_generation_manifest_sha256 g) (vg_snapshot_sha256 g)
    (vg_snapshot_record_sha256 g) (vg_snapshot_last_update_id g) (vg_telemetry_sha256 g) (vg_telemetry_records g)
    (vg_streams g) (vg_verification_sha256 g).

Definition stream_count (verification : VerifiedGenerationV1) (name : string) : res Z :=
  stream ← ok_or (List.find (λ s, String.eqb (vs_name s) name) (vg_streams verification))
             ("verified generation lacks " ++ name);
  Ok (vs_records stream).

(** [collect] into a map: a later entry replaces an earlier one. *)
Definition stream_map {A} (f : VerifiedGenerationStreamV1 → A) (streams : list VerifiedGenerationStreamV1)
    : gmap string A := list_to_map (rev ((λ s, (vs_name s, f s)) <$> streams)).
Definition generation_expectation (verification : VerifiedGenerationV1) (startup_sha256 : string)
    : GenerationLifecycleExpectation :=
  let streams := vg_streams verification in
  mkGenerationExpectation (vg_generation_index verification) (vg_session_id verification) (vg_symbol verification)
    (vg_duration_requested_s verification) startup_sha256 (stream_map vs_connection_epoch streams)
    (stream_map vs_server_shutdown_events streams) (remove_dups (streams ≫= vs_server_shutdowns)).

Section campaign.
Context `{Hsha : Sha256} `{Hval : SerdeValue} `{Hobj : !SerdeObject} `{Hnull : !SerdeNull} `{Hget : !SerdeGet}.
Context `{Hb64 : Base64} `{Hmb : Serde ManifestBodyV1}.
Context `{Hpb : Serde ProgressBodyV1} `{Hpe : Serde ProgressEnvelopeV1}.
Context `{Htjb : Serde (TransportJournalBodyV1 (Hval := Hval))}.
Context `{Htje : Serde (TransportJournalEnvelopeV1 (Hval := Hval))}.
Context `{Hgm : Serde GenerationManifestV1} `{Hsu : Serde StartupManifestV1}.
Context `{Hsh : Serde SnapshotHttpMetadataV1} `{Htx : Serde TransportMetadataV1}.
Context `{Htt : Serde TelemetryRecordV1} `{Hvm : Serde VerificationDigestMaterial}.
Context `{Hcte : Serde CanonicalTradeEvent} `{Hpm : Serde ProofDigestMaterial}.
Context `{Hproof : Serde RawGenerationHandoverProofV1} `{Hvp : SerdePretty VerifiedGenerationV1}.
Context `{Hcf : Serde CampaignManifestV1} `{Hcs : Serde CampaignStartupV1} `{Hcv : Serde VerificationMaterial}.
Context `{Hcj : Serde (CampaignJournalBodyV1 (Hval := Hval))} `{Hcl : Serde (CampaignJournalEnvelopeV1 (Hval := Hval))}.

Definition journal_turn (s : list CampaignJournalEnvelopeV1 * string * option Z) (line : bytes)
    : res (list CampaignJournalEnvelopeV1 * string * option Z) :=
  let '(records, previous, previous_mono) := s in
  _ ← reject (bool_decide (line = [])) "campaign journal contains an empty internal record";
  envelope ← map_err "invalid campaign journal record: " (from_slice line);
  let body := cl_body envelope in
  body_bytes ← map_err "serialize campaign journal body: " (to_vec body);
  let digest := sha256_bytes body_bytes in
  _ ← reject (negb (String.eqb (cj_schema body) "RawCampaignJournalRecordV1")
              || negb (cj_record_index body =? len records)
              || negb (String.eqb (cj_previous_record_sha256 body) previous)
              || negb (String.eqb (cl_record_sha256 envelope) digest)
              || is_some_and previous_mono (λ old, cj_campaign_mono_ns body <? old))
        "campaign journal hash/index/time chain is invalid";
  Ok (records ++ [envelope], digest, Some (cj_campaign_mono_ns body)).

Definition scan_journal (t : tree) (path : string) : res VerifiedJournal :=
  content ← open_file (t_files t) path;
  _ ← reject (negb (bool_decide (last content = Some x0a))) "campaign journal is empty or has a partial tail";
  '(records, previous, _) ← try_fold journal_turn ([], ZERO_DIGEST, None)
                              (split_newline (take (pred (length content)) content));
  _ ← reject (bool_decide (length records = 0%nat)) "campaign journal has no records";
  Ok (mkVerifiedJournal records previous).

(** [payload["event"] == text] *)
Definition record_event_is (r : CampaignJournalEnvelopeV1) (text : string) : bool :=
  index_is (cj_payload (cl_body r)) "event" text.

Definition manifest_contract (campaign : string) (m : CampaignManifestV1) : bool :=
  String.eqb (cf_schema m) "RawCampaignManifestV1" && String.eqb (cf_status m) "COMPLETE"
  && bool_decide (path_file_name campaign = Some (cf_campaign_id m)) && known_symbol (cf_symbol m)
  && negb (cf_total_duration_s m =? 0) && negb (cf_rotation_s m =? 0) && negb (cf_overlap_s m =? 0)
  && negb (cf_segment_s m =? 0) && (cf_overlap_s m =? cf_segment_s m)
  && (cf_rotation_s m mod cf_segment_s m =? 0)
  && (saturating_add (cf_rotation_s m) (cf_overlap_s m) <=? 86300)
  && (cf_overlap_s m <=? cf_total_duration_s m) && negb (cf_started_wall_ns m =? 0)
  && (cf_started_wall_ns m <=? cf_finished_wall_ns m) && String.eqb (cf_spec_revision m) SPEC_REVISION
  && String.eqb (cf_credentials m) "NONE" && String.eqb (cf_order_entry m) "ABSENT"
  && String.eqb (cf_startup_file m) "campaign-startup.json"
  && String.eqb (cf_journal_file m) "campaign-events.jsonl"
  && String.eqb (cf_journal_boundary m) "PRECOMMIT_PREFIX" && negb (cf_journal_precommit_records m =? 0)
  && (cf_supervisor_gap_count m =? 0)
  && forallb is_digest [cf_executable_sha256 m; cf_capture_executable_sha256 m; cf_public_config_sha256 m;
                        cf_startup_sha256 m; cf_journal_precommit_sha256 m].

Definition startup_matches (startup : CampaignStartupV1) (m : CampaignManifestV1) : bool :=
  String.eqb (cs_schema startup) "RawCampaignStartupV1" && String.eqb (cs_campaign_id startup) (cf_campaign_id m)
  && String.eqb (cs_symbol startup) (cf_symbol m) && (cs_total_duration_s startup =? cf_total_duration_s m)
  && (cs_rotation_s startup =? cf_rotation_s m) && (cs_overlap_s startup =? cf_overlap_s m)
  && (cs_segment_s startup =? cf_segment_s m) && (cs_started_wall_ns startup =? cf_started_wall_ns m)
  && negb (cs_process_id startup =? 0) && String.eqb (cs_executable_sha256 startup) (cf_executable_sha256 m)
  && String.eqb (cs_capture_executable_sha256 startup) (cf_capture_executable_sha256 m)
  && String.eqb (cs_public_config_sha256 startup) (cf_public_config_sha256 m)
  && String.eqb (cs_spec_revision startup) (cf_spec_revision m)
  && String.eqb (cs_credentials startup) "NONE" && String.eqb (cs_order_entry startup) "ABSENT".

(** The journal ends with the record that prepared the evaluation and the one that
    committed this manifest. *)
Definition journal_committed (journal : VerifiedJournal) (m : CampaignManifestV1) (campaign_manifest_sha256 : string)
    : res unit :=
  let records := vj_records journal in
  let precommit := Z.to_nat (cf_journal_precommit_records m) in
  committed_records ← ok_or (checked_add (cf_journal_precommit_records m) 1)
                        "campaign committed journal record count overflow";
  let msg := "campaign journal precommit/lifecycle is invalid" in
  _ ← reject (negb (len records =? committed_records)) msg;
  prepared ← expect (records !! pred precommit);
  first ← expect (head records);
  _ ← reject (negb (String.eqb (cl_record_sha256 prepared) (cf_journal_precommit_sha256 m))
              || negb (record_event_is prepared "CAMPAIGN_EVALUATION_PREPARED")
              || negb (record_event_is first "CAMPAIGN_STARTED")
              || negb (index_is (cj_payload (cl_body first)) "campaign_id" (cf_campaign_id m))
              || negb (index_is (cj_payload (cl_body first)) "startup_sha256" (cf_startup_sha256 m))
              || existsb (λ r, record_event_is r "CAMPAIGN_FAILED") records) msg;
  _ ← validate_precommit_elapsed journal precommit (cf_total_duration_s m);
  commit ← expect (records !! precommit);
  reject (negb (record_event_is commit "CAMPAIGN_COMMITTED")
          || negb (index_is (cj_payload (cl_body commit)) "manifest_file" "campaign.json")
          || negb (index_is (cj_payload (cl_body commit)) "manifest_sha256" campaign_manifest_sha256)
          || negb (String.eqb (cj_previous_record_sha256 (cl_body commit)) (cf_journal_precommit_sha256 m)))
    "campaign terminal commit does not bind campaign.json".

(** One generation: verified again, compared with the manifest and with its report. *)
Definition campaign_generation_turn (t : tree) (campaign : string) (m : CampaignManifestV1)
    (indexed : nat * CampaignGenerationResultV1)
    : res (VerifiedGenerationV1 * VerifiedRawCampaignGenerationV1 * GenerationLifecycleExpectation * string) :=
  let '(expected_index, generation) := indexed in
  _ ← reject (negb (cg_generation_index generation =? Z.of_nat expected_index)
              || negb (is_digest (cg_verification_sha256 generation))
              || negb (is_digest (cg_evaluation_file_sha256 generation))
              || negb (is_digest (cg_generation_manifest_sha256 generation)))
        "campaign generation result identity/digest is invalid";
  _ ← reject (negb (String.eqb (cg_session_dir generation) ("generations/" ++ cg_session_id generation)))
        "campaign generation path is not portable/exact";
  relative ← campaign_relative (cg_session_dir generation);
  let session_path := path_join campaign relative in
  verification ← verify_segmented_generation t session_path;
  _ ← campaign_generation_timing (vg_segment_duration_s verification) (vg_duration_requested_s verification)
        (cf_segment_s m) (cf_rotation_s m) (cf_overlap_s m);
  let msg := "reverified generation differs from campaign manifest" in
  _ ← reject (negb (vg_generation_index verification =? cg_generation_index generation)
              || negb (String.eqb (vg_session_id verification) (cg_session_id generation))
              || negb (String.eqb (vg_symbol verification) (cf_symbol m))
              || negb (String.eqb (vg_collector_executable_sha256 verification) (cf_capture_executable_sha256 m))
              || negb (String.eqb (vg_public_config_sha256 verification) (cf_public_config_sha256 m))
              || negb (String.eqb (vg_verification_sha256 verification) (cg_verification_sha256 generation))
              || negb (String.eqb (vg_generation_manifest_sha256 verification)
                         (cg_generation_manifest_sha256 generation))) msg;
  depth_records ← stream_count verification "depth";
  _ ← reject (negb (depth_records =? cg_depth_records generation)) msg;
  trade_records ← stream_count verification "trade";
  _ ← reject (negb (trade_records =? cg_trade_records generation)) msg;
  _ ← reject (negb (String.eqb (cg_evaluation_file generation)
                ("evaluations/generation-" ++ pad3 (cg_generation_index generation) ++ "-rust.json")))
        "campaign evaluation path is not exact";
  evaluation_file ← campaign_relative (cg_evaluation_file generation);
  evaluation_bytes ← open_file (t_files t) (path_join campaign evaluation_file);
  expected_bytes ← map_err "serialize generation report: "
                     (to_vec_pretty (set_session_dir (cg_session_dir generation) verification));
  _ ← reject (negb (bool_decide (evaluation_bytes = expected_bytes ++ [x0a]))
              || negb (String.eqb (sha256_bytes evaluation_bytes) (cg_evaluation_file_sha256 generation)))
        "stored generation evaluation differs from independent replay";
  evaluation_name ← ok_or (path_file_name (cg_evaluation_file generation)) "evaluation filename is invalid";
  startup_bytes ← open_file (t_files t) (path_join session_path "startup.json");
  Ok (verification,
      mkVerifiedCampaignGeneration (cg_generation_index generation) (cg_session_id generation)
        (vg_verification_sha256 verification) (cg_depth_records generation) (cg_trade_records generation),
      generation_expectation verification (sha256_bytes startup_bytes), evaluation_name).

Definition handover_dir (predecessor successor : Z) : string :=
  "handover-" ++ pad3 predecessor ++ "-to-" ++ pad3 successor.

(** One handover: its proof is verified again from the two generations. *)
Definition campaign_handover_turn (t : tree) (campaign : string) (m : CampaignManifestV1)
    (verifications : list VerifiedGenerationV1) (indexed : nat * CampaignHandoverResultV1)
    : res (HandoverLifecycleExpectation * RawGenerationHandoverProofV1) :=
  let '(expected_predecessor, handover) := indexed in
  let predecessor := Z.of_nat expected_predecessor in
  let successor := predecessor + 1 in
  _ ← reject (negb (ch_predecessor_generation_index handover =? predecessor)
              || negb (ch_successor_generation_index handover =? successor)
              || negb (String.eqb (ch_proof_file handover)
                         ("handovers/" ++ handover_dir predecessor successor ++ "/handover.json"))
              || negb (is_digest (ch_proof_sha256 handover)) || negb (is_digest (ch_proof_file_sha256 handover)))
        "campaign handover result identity/path is invalid";
  relative ← campaign_relative (ch_proof_file handover);
  let proof_path := path_join campaign relative in
  proof_bytes ← open_file (t_files t) proof_path;
  _ ← reject (negb (String.eqb (sha256_bytes proof_bytes) (ch_proof_file_sha256 handover)))
        "campaign handover file digest mismatch";
  proof ← map_err "invalid handover proof JSON: " (from_slice proof_bytes);
  _ ← validate_raw_handover_proof_digest proof;
  predecessor_verification ← expect (verifications !! expected_predecessor);
  successor_verification ← expect (verifications !! S expected_predecessor);
  predecessor_generation ← expect (cf_generations m !! expected_predecessor);
  successor_generation ← expect (cf_generations m !! S expected_predecessor);
  let successor_path := path_join campaign (cg_session_dir successor_generation) in
  successor_startup_bytes ← open_file (t_files t) (path_join successor_path "startup.json");
  _ ← reject (negb (String.eqb (hp_proof_sha256 proof) (ch_proof_sha256 handover))
              || negb (hp_predecessor_generation_index proof =? predecessor)
              || negb (hp_successor_generation_index proof =? successor)
              || negb (String.eqb (hp_predecessor_session_id proof) (vg_session_id predecessor_verification))
              || negb (String.eqb (hp_successor_session_id proof) (vg_session_id successor_verification))
              || negb (String.eqb (hp_symbol proof) (cf_symbol m))
              || negb (String.eqb (hp_predecessor_verification_sha256 proof)
                         (vg_verification_sha256 predecessor_verification))
              || negb (String.eqb (hp_successor_startup_sha256 proof) (sha256_bytes successor_startup_bytes))
              || negb (String.eqb (hp_successor_snapshot_record_sha256 proof)
                         (vg_snapshot_record_sha256 successor_verification)))
        "campaign handover proof differs from its exact generations";
  _ ← verify_terminal_raw_generation_handover_from_verified t
        (path_join campaign (cg_session_dir predecessor_generation)) successor_path predecessor_verification
        successor_verification proof;
  parent ← ok_or (path_parent proof_path) "handover proof lacks parent directory";
  _ ← exact_entries t parent ["handover.json"%string];
  Ok (mkHandoverExpectation predecessor successor (hp_proof_sha256 proof), proof).

Definition verify_raw_campaign (t : tree) (campaign : string) : res VerifiedRawCampaignV1 :=
  manifest_bytes ← open_file (t_files t) (path_join campaign "campaign.json");
  m ← map_err "invalid campaign manifest: " (from_slice (A := CampaignManifestV1) manifest_bytes);
  _ ← reject (negb (manifest_contract campaign m)) "campaign manifest contract/status is invalid";
  startup_file ← campaign_relative (cf_startup_file m);
  startup_bytes ← open_file (t_files t) (path_join campaign startup_file);
  _ ← reject (negb (String.eqb (sha256_bytes startup_bytes) (cf_startup_sha256 m))) "campaign startup digest mismatch";
  startup ← map_err "invalid campaign startup: " (from_slice (A := CampaignStartupV1) startup_bytes);
  _ ← reject (negb (startup_matches startup m)) "campaign startup differs from terminal manifest";
  journal_file ← campaign_relative (cf_journal_file m);
  journal ← scan_journal t (path_join campaign journal_file);
  let campaign_manifest_sha256 := sha256_bytes manifest_bytes in
  _ ← journal_committed journal m campaign_manifest_sha256;
  _ ← reject (bool_decide (length (cf_generations m) = 0%nat)
              || negb (length (cf_handovers m) =? pred (length (cf_generations m)))%nat)
        "campaign generation/handover cardinality is invalid";
  verified ← try_map (campaign_generation_turn t campaign m) (imap pair (cf_generations m));
  let verifications := (λ '(v, _, _, _), v) <$> verified in
  let verified_generations := (λ '(_, g, _, _), g) <$> verified in
  let lifecycle_generations := (λ '(_, _, e, _), e) <$> verified in
  let evaluations := (λ '(_, _, _, name), name) <$> verified in
  handovers ← try_map (campaign_handover_turn t campaign m verifications) (imap pair (cf_handovers m));
  _ ← validate_campaign_lifecycle journal (cf_campaign_id m) (cf_startup_sha256 m) campaign_manifest_sha256
        (cf_total_duration_s m) lifecycle_generations handovers.*1;
  _ ← exact_entries t (path_join campaign "generations") (cg_session_id <$> cf_generations m);
  _ ← exact_entries t (path_join campaign "evaluations") evaluations;
  _ ← exact_entries t (path_join campaign "handovers")
        ((λ h, handover_dir (he_predecessor_generation_index h) (he_successor_generation_index h)) <$> handovers.*1);
  _ ← exact_entries t (path_join campaign "control") [];
  _ ← exact_entries t campaign
        ["campaign-events.jsonl"; "campaign-startup.json"; "campaign.json"; "control"; "evaluations"; "generations";
         "handovers"]%string;
  let journal_records := len (vj_records journal) in
  let count := len (cf_handovers m) in
  material ← map_err "serialize campaign verification digest: "
    (to_vec (mkCampaignMaterial "VerifiedRawCampaignDigestV1" (cf_campaign_id m) (cf_symbol m)
       (cf_total_duration_s m) (cf_rotation_s m) (cf_overlap_s m) (cf_segment_s m) campaign_manifest_sha256
       journal_records (vj_terminal_sha256 journal) verified_generations count));
  Ok (mkVerifiedRawCampaign "VerifiedRawCampaignV1" "PASS" (cf_campaign_id m) (cf_symbol m) (cf_total_duration_s m)
        (cf_rotation_s m) (cf_overlap_s m) (cf_segment_s m) campaign_manifest_sha256 journal_records
        (vj_terminal_sha256 journal) verified_generations count (sha256_bytes material)).

(** The part of the report that the replay of a run compares. *)
Definition profile_raw_campaign (t : tree) (campaign : string) : res VerifiedCampaign :=
  v ← verify_raw_campaign t campaign;
  Ok (mkVerifiedCampaign (vk_campaign_id v) (vk_symbol v) (vk_campaign_manifest_sha256 v) (vk_verification_sha256 v)
        (vk_handovers v)).
End campaign.

(** ** Theory *)

(** *** What an accepted journal says *)

Section lifecycle_theory.
Context `{Hval : SerdeValue} `{Hobj : !SerdeObject} `{Hget : !SerdeGet}.

Definition event_of (r : CampaignJournalEnvelopeV1) : option string :=
  value_get (cj_payload (cl_body r)) "event" ≫= as_str.
Definition mono_of (r : CampaignJournalEnvelopeV1) : Z := cj_campaign_mono_ns (cl_body r).

(** The steps in the life of a generation. *)
Inductive step := Launched | Started | Terminal | Exited | ProofStarted | Promoted.
#[global] Instance step_eq_decision : EqDecision step.
Proof. solve_decision. Defined.

Definition step_of (event : string) : option step :=
  if String.eqb event "GENERATION_LAUNCHED" || String.eqb event "GENERATION_LAUNCHED_SERVER_SHUTDOWN" then Some Launched
  else if String.eqb event "PROCESS_STARTED" then Some Started
  else if String.eqb event "PROCESS_TERMINAL" then Some Terminal
  else if String.eqb event "GENERATION_EXITED" then Some Exited
  else if String.eqb event "HANDOVER_PROOF_STARTED" then Some ProofStarted
  else if String.eqb event "HANDOVER_PROVEN_AND_PROMOTED" then Some Promoted
  else None.
(** The step a record of the journal is, and of which generation. *)
Definition mark (r : CampaignJournalEnvelopeV1) : option (step * Z) :=
  event ← event_of r; k ← step_of event; g ← cj_generation_index (cl_body r); Some (k, g).

(** What must have happened before a step, in a campaign of [n] generations: a generation
    ends only when its successor runs and it was promoted itself, and a handover is proven
    only when the predecessor has ended and the successor runs. *)
Inductive requires (n : Z) : step * Z → step * Z → Prop :=
  | started_launched g : requires n (Started, g) (Launched, g)
  | terminal_started g : requires n (Terminal, g) (Started, g)
  | terminal_promoted g : 0 < g → requires n (Terminal, g) (Promoted, g)
  | terminal_successor g : g + 1 < n → requires n (Terminal, g) (Started, g + 1)
  | exited_terminal g : requires n (Exited, g) (Terminal, g)
  | proof_exited g : requires n (ProofStarted, g) (Exited, g - 1)
  | proof_successor g : requires n (ProofStarted, g) (Started, g)
  | promoted_proof g : requires n (Promoted, g) (ProofStarted, g).

Context (campaign_id startup_sha256 campaign_manifest_sha256 : string).
Context (generations : list GenerationLifecycleExpectation) (expected : gmap (Z * Z) string).
Local Notation turn := (lifecycle_record campaign_id startup_sha256 campaign_manifest_sha256 generations expected).
Local Notation n := (len generations).
Hypothesis Hfits : n ≤ u64_max.
Hypothesis Hindex : ∀ i g, generations !! i = Some g → ge_generation_index g = Z.of_nat i.

(** *** One record *)

Lemma lifecycle_generation_Ok gi event g :
  lifecycle_generation generations gi event = Ok g →
  gi = Some (ge_generation_index g) ∧ generations !! Z.to_nat (ge_generation_index g) = Some g ∧
  0 ≤ ge_generation_index g < n.
Proof.
  unfold lifecycle_generation. intros (i & ->%ok_or_Ok & H)%res_bind_Ok.
  apply res_bind_Ok in H as (g' & Hg%ok_or_Ok & H). apply res_bind_Ok in H as ([] & E%reject_Ok & [= <-]).
  apply negb_false_iff, Z.eqb_eq in E as <-. split_and!; [done..| |].
  - rewrite (Hindex _ _ Hg). lia.
  - rewrite (Hindex _ _ Hg) at 1. apply lookup_lt_Some in Hg. unfold len. lia.
Qed.
Lemma payload_text_Ok v f event s : payload_text v f event = Ok s → as_str (value_index v f) = Some s ∧ s ≠ ""%string.
Proof.
  unfold payload_text. intros (x & Hx%ok_or_Ok & H)%res_bind_Ok. apply res_bind_Ok in H as ([] & E%reject_Ok & [= ->]).
  split; [done|]. by apply String.eqb_neq.
Qed.
Lemma not_before_false o k : not_before o k = false → ∃ x, o = Some x ∧ x < k.
Proof. unfold not_before. destruct o as [x|]; cbn; [|done]. intros H%Z.leb_gt. by exists x. Qed.

(** What the state knows of a step. *)
Definition noted (s : lifecycle) (x : step * Z) : Prop :=
  let field (f : GenerationLifecycleState → option Z) := is_Some (lc_states s !! x.2 ≫= f) in
  match x.1 with
  | Launched => field gs_launch_record
  | Started => field gs_process_started_record
  | Terminal => field gs_process_terminal_record
  | Exited => field gs_generation_exited_record
  | ProofStarted => (x.2 - 1, x.2) ∈ ay_proof_started (lc_authority s)
  | Promoted => is_Some (ay_promoted (lc_authority s) !! (x.2 - 1, x.2))
  end.
(** The times the state keeps. *)
Definition timed (s : lifecycle) (x : step * Z) : option Z :=
  match x.1 with
  | Started => lc_states s !! x.2 ≫= gs_process_started_mono_ns
  | Terminal => lc_states s !! x.2 ≫= gs_process_terminal_mono_ns
  | Exited => lc_states s !! x.2 ≫= gs_generation_exited_mono_ns
  | _ => None
  end.
Definition has_time (k : step) : bool := match k with Started | Terminal | Exited => true | _ => false end.

(** The effect of a record on what is known. *)
Record marked (s : lifecycle) (r : CampaignJournalEnvelopeV1) (s' : lifecycle) : Prop := {
  marked_noted : ∀ x, noted s' x ↔ noted s x ∨ mark r = Some x;
  marked_once : ∀ x, mark r = Some x → ¬ noted s x;
  marked_order : ∀ x y, mark r = Some x → requires n x y → noted s y;
  marked_timed : ∀ x, timed s' x = if bool_decide (mark r = Some x) && has_time x.1 then Some (mono_of r) else timed s x
}.

Lemma unmarked s r s' :
  mark r = None → lc_states s' = lc_states s → ay_proof_started (lc_authority s') = ay_proof_started (lc_authority s) →
  ay_promoted (lc_authority s') = ay_promoted (lc_authority s) → marked s r s'.
Proof.
  intros Hm Hs Hp Hq. split; [|intros x; by rewrite Hm..|].
  - intros x. rewrite Hm. unfold noted. rewrite Hs, Hp, Hq. naive_solver.
  - intros x. rewrite Hm. unfold timed. rewrite Hs. by rewrite bool_decide_eq_false_2.
Qed.

(** A step that the state of its generation records. *)
Definition records_step (k : step) (index mono : Z) (st st' : GenerationLifecycleState) : Prop :=
  match k with
  | Launched => gs_launch_record st = None ∧ st' = set_launch index st
  | Started => gs_process_started_record st = None ∧ st' = set_started index mono st
  | Terminal => gs_process_terminal_record st = None ∧ st' = set_terminal index mono st
  | Exited => gs_generation_exited_record st = None ∧ st' = set_exited index mono st
  | _ => False
  end.

Lemma marked_state s r s' k g st st' :
  mark r = Some (k, g) → lc_states s !! g = Some st → lc_states s' = <[g := st']> (lc_states s) →
  ay_proof_started (lc_authority s') = ay_proof_started (lc_authority s) →
  ay_promoted (lc_authority s') = ay_promoted (lc_authority s) →
  records_step k (cj_record_index (cl_body r)) (mono_of r) st st' →
  (∀ y, requires n (k, g) y → noted s y) → marked s r s'.
Proof.
  intros Hm Hst Hs Hp Hq Hk Hreq. split.
  - intros [k' h]. rewrite Hm. unfold noted. rewrite Hs, Hp, Hq. cbn [fst snd].
    destruct (decide (h = g)) as [->|Hne].
    + rewrite lookup_insert_eq, Hst. destruct k; try done; destruct Hk as [Hk ->]; destruct k'; cbn; rewrite ?Hk;
        split; try (intros; naive_solver).
    + rewrite lookup_insert_ne by done. destruct k'; naive_solver.
  - intros x. rewrite Hm. intros [= <-]. unfold noted. cbn [fst snd]. rewrite Hst.
    destruct k; try done; destruct Hk as [Hk _]; cbn; rewrite Hk; by intros [? ?].
  - intros x y. rewrite Hm. intros [= <-]. apply Hreq.
  - intros [k' h]. rewrite Hm. unfold timed. rewrite Hs. cbn [fst snd]. destruct (decide (h = g)) as [->|Hne].
    + rewrite lookup_insert_eq, Hst. destruct k; try done; destruct Hk as [_ ->]; destruct k'; cbn;
        first [rewrite bool_decide_eq_true_2 by done | rewrite bool_decide_eq_false_2 by done]; done.
    + rewrite lookup_insert_ne by done. rewrite (bool_decide_eq_false_2 (Some (k, g) = _)) by naive_solver. done.
Qed.

Lemma expect_Ok {A} (o : option A) a : expect o = Ok a → o = Some a.
Proof. destruct o; [by intros [= ->]|done]. Qed.
Lemma noted_state s g st (f : GenerationLifecycleState → option Z) x :
  lc_states s !! g = Some st → f st = Some x → is_Some (lc_states s !! g ≫= f).
Proof. intros Hst Hf. rewrite Hst. cbn. by rewrite Hf. Qed.

Local Ltac known := match goal with
  | H : _ || _ = false |- _ => apply orb_false_iff in H as [? ?]
  | H : negb _ = false |- _ => apply negb_false_iff in H
  | H : bool_decide _ = true |- _ => apply bool_decide_eq_true in H
  | H : bool_decide _ = false |- _ => apply bool_decide_eq_false in H
  | H : not_before _ _ = false |- _ => apply not_before_false in H as (? & ? & ?)
  | H : String.eqb _ _ = true |- _ => apply String.eqb_eq in H
  | H : (_ =? _) = true |- _ => apply Z.eqb_eq in H
  | H : (_ =? _) = false |- _ => apply Z.eqb_neq in H
  | H : ¬ is_Some _ |- _ => apply eq_None_not_Some in H
  end.

Lemma mark_step r event k g :
  event_of r = Some event → step_of event = Some k → cj_generation_index (cl_body r) = Some g → mark r = Some (k, g).
Proof. intros He Hk Hg. unfold mark. rewrite He. cbn. rewrite Hk. cbn. by rewrite Hg. Qed.

Lemma launched_marked r event s s' :
  event_of r = Some event → step_of event = Some Launched →
  on_generation_launched generations (cl_body r) event s = Ok s' → marked s r s'.
Proof.
  intros He Hk. unfold on_generation_launched. intros (g & (Hgi & Hg & Hrange)%lifecycle_generation_Ok & H)%res_bind_Ok.
  apply res_bind_Ok in H as (st & Hst & H). apply res_bind_Ok in H as ([] & E%reject_Ok & H).
  apply res_bind_Ok in H as (d & _ & H). apply res_bind_Ok in H as ([] & _ & H).
  apply res_bind_Ok in H as (w & _ & [= <-]). repeat known.
  eapply marked_state; [by eapply mark_step| |reflexivity|..].
  - by apply expect_Ok.
  - cbn. repeat case_match; done.
  - cbn. repeat case_match; done.
  - done.
  - inversion 1.
Qed.

Lemma started_marked r event s s' :
  event_of r = Some event → step_of event = Some Started →
  on_process_started generations (cl_body r) event s = Ok s' → marked s r s'.
Proof.
  intros He Hk. unfold on_process_started. intros (g & (Hgi & Hg & Hrange)%lifecycle_generation_Ok & H)%res_bind_Ok.
  apply res_bind_Ok in H as (st & Hst%expect_Ok & H). apply res_bind_Ok in H as ([] & E%reject_Ok & H).
  apply res_bind_Ok in H as (d & _ & H). apply res_bind_Ok in H as ([] & _ & H).
  apply res_bind_Ok in H as (p & _ & H). apply res_bind_Ok in H as ([] & _ & H).
  apply res_bind_Ok in H as (dir & _ & H). apply res_bind_Ok in H as ([] & _ & [= <-]). repeat known.
  eapply marked_state; [by eapply mark_step|exact Hst|reflexivity|done..|].
  inversion 1; subst. by eapply noted_state.
Qed.

Lemma terminal_marked r event s s' :
  event_of r = Some event → step_of event = Some Terminal →
  on_process_terminal generations (cl_body r) event s = Ok s' → marked s r s'.
Proof.
  intros He Hk. unfold on_process_terminal. intros (g & (Hgi & Hg & Hrange)%lifecycle_generation_Ok & H)%res_bind_Ok.
  apply res_bind_Ok in H as (st & Hst%expect_Ok & H). apply res_bind_Ok in H as ([] & E%reject_Ok & [= <-]).
  repeat known. eapply marked_state; [by eapply mark_step|exact Hst|reflexivity|done..|].
  inversion 1; subst; cbn [fst snd].
  - by eapply noted_state.
  - match goal with H : (_ =? 0) || _ = true |- _ => apply orb_true_iff in H as [H%Z.eqb_eq|H]; [lia|] end.
    rewrite checked_sub_fits in * by lia. cbn in *. by repeat known.
  - match goal with H : successor_started _ _ _ _ = true |- _ => unfold successor_started in H;
      rewrite checked_add_fits, (proj2 (Z.ltb_lt _ _)) in H by lia; rename H into Hs end.
    unfold noted. cbn [fst snd]. destruct (lc_states s !! (ge_generation_index g + 1)) as [st'|]; [|done]. cbn in Hs |- *.
    apply andb_true_iff in Hs as [Hs _]. by destruct (gs_process_started_record st').
Qed.

Lemma exited_marked r event s s' :
  event_of r = Some event → step_of event = Some Exited →
  on_generation_exited generations (cl_body r) event s = Ok s' → marked s r s'.
Proof.
  intros He Hk. unfold on_generation_exited. intros (g & (Hgi & Hg & Hrange)%lifecycle_generation_Ok & H)%res_bind_Ok.
  apply res_bind_Ok in H as (st & Hst%expect_Ok & H). apply res_bind_Ok in H as ([] & E%reject_Ok & H).
  apply res_bind_Ok in H as (d & _ & H). apply res_bind_Ok in H as ([] & _ & [= <-]). repeat known.
  eapply marked_state; [by eapply mark_step|exact Hst|reflexivity|done..|].
  inversion 1; subst. by eapply noted_state.
Qed.

(** A step of a handover, which the authority records. *)
Lemma marked_authority s r s' k g :
  mark r = Some (k, g) → lc_states s' = lc_states s →
  match k with
  | ProofStarted => ay_proof_started (lc_authority s') = {[(g - 1, g)]} ∪ ay_proof_started (lc_authority s) ∧
      ay_promoted (lc_authority s') = ay_promoted (lc_authority s)
  | Promoted => ay_proof_started (lc_authority s') = ay_proof_started (lc_authority s) ∧
      ∃ d, ay_promoted (lc_authority s') = <[(g - 1, g) := d]> (ay_promoted (lc_authority s))
  | _ => False
  end → ¬ noted s (k, g) → (∀ y, requires n (k, g) y → noted s y) → marked s r s'.
Proof.
  intros Hm Hs Hk Hnew Hreq. split.
  - intros [k' h]. rewrite Hm. unfold noted. cbn [fst snd]. rewrite Hs.
    destruct k; try done; [destruct Hk as [-> ->]|destruct Hk as (-> & d & ->)]; destruct k'; try (intros; naive_solver).
    + rewrite elem_of_union, elem_of_singleton. naive_solver.
    + destruct (decide (h = g)) as [->|Hne]; [rewrite lookup_insert_eq; naive_solver|].
      rewrite lookup_insert_ne by congruence. naive_solver.
  - intros x. rewrite Hm. by intros [= <-].
  - intros x y. rewrite Hm. intros [= <-]. apply Hreq.
  - intros [k' h]. rewrite Hm. unfold timed. cbn [fst snd]. rewrite Hs.
    case_bool_decide as E; [|done]. injection E as -> ->. by destruct k'.
Qed.

Lemma proof_marked r event s s' :
  event_of r = Some event → step_of event = Some ProofStarted →
  on_proof_started generations expected (cl_body r) event s = Ok s' → marked s r s'.
Proof.
  intros He Hk. unfold on_proof_started. intros (g & (Hgi & Hg & Hrange)%lifecycle_generation_Ok & H)%res_bind_Ok.
  apply res_bind_Ok in H as (p & _ & H). apply res_bind_Ok in H as (ps & Hps%ok_or_Ok & H).
  apply res_bind_Ok in H as (ss & Hss%expect_Ok & H). apply res_bind_Ok in H as ([] & E%reject_Ok & [= <-]).
  repeat known. match goal with H : checked_add p 1 = _ |- _ => apply checked_add_Some in H as [_ Hp] end.
  assert (p = ge_generation_index g - 1) as -> by lia.
  eapply marked_authority; [by eapply mark_step|done|done|done|].
  inversion 1; subst; by eapply noted_state.
Qed.

Lemma promoted_marked r event s s' :
  event_of r = Some event → step_of event = Some Promoted →
  on_promoted generations expected (cl_body r) event s = Ok s' → marked s r s'.
Proof.
  intros He Hk. unfold on_promoted. intros (g & (Hgi & Hg & Hrange)%lifecycle_generation_Ok & H)%res_bind_Ok.
  apply res_bind_Ok in H as (p & _ & H). apply res_bind_Ok in H as (d & _ & H).
  apply res_bind_Ok in H as (ss & Hss%expect_Ok & H). apply res_bind_Ok in H as ([] & E%reject_Ok & [= <-]).
  repeat known. match goal with H : checked_add p 1 = _ |- _ => apply checked_add_Some in H as [_ Hp] end.
  assert (p = ge_generation_index g - 1) as -> by lia.
  eapply marked_authority; [by eapply mark_step|done|split; [done|by eexists]| |].
  - unfold noted. cbn [fst snd]. by apply eq_None_not_Some.
  - inversion 1; subst. done.
Qed.

(** To the state a handler returns. *)
Local Ltac run H := repeat (apply res_bind_Ok in H as (? & _ & H)); injection H as <-.

(** An event that is no step and no shutdown. *)
Definition silent (event : string) : Prop :=
  step_of event = None ∧ event ≠ "SERVER_SHUTDOWN_DURABLE"%string ∧
  ¬ (event = "SERVER_SHUTDOWN_IGNORED_NON_ACTIVE"%string ∨ event = "SERVER_SHUTDOWN_CANDIDATE_ALREADY_PENDING"%string).

(** The handler a record goes to. *)
Inductive handled (b : CampaignJournalBodyV1) (event : string) (s s' : lifecycle) : Prop :=
  | to_boundary bd : silent event → s' = set_boundaries bd s → handled b event s s'
  | to_nothing : silent event → s' = s → handled b event s s'
  | to_shutdown : event = "SERVER_SHUTDOWN_DURABLE"%string →
      on_server_shutdown_durable generations b event s = Ok s' → handled b event s s'
  | to_launched : step_of event = Some Launched → on_generation_launched generations b event s = Ok s' → handled b event s s'
  | to_started : event = "PROCESS_STARTED"%string → on_process_started generations b event s = Ok s' → handled b event s s'
  | to_terminal : event = "PROCESS_TERMINAL"%string → on_process_terminal generations b event s = Ok s' → handled b event s s'
  | to_exited : event = "GENERATION_EXITED"%string → on_generation_exited generations b event s = Ok s' → handled b event s s'
  | to_proof : event = "HANDOVER_PROOF_STARTED"%string →
      on_proof_started generations expected b event s = Ok s' → handled b event s s'
  | to_promoted : event = "HANDOVER_PROVEN_AND_PROMOTED"%string →
      on_promoted generations expected b event s = Ok s' → handled b event s s'
  | to_initial : event = "INITIAL_ACTIVE_REGISTERED"%string → on_initial_active generations b event s = Ok s' → handled b event s s'
  | to_candidate : event = "CANDIDATE_REGISTERED"%string →
      on_candidate_registered generations b event s = Ok s' → handled b event s s'
  | to_disposed : event = "SERVER_SHUTDOWN_IGNORED_NON_ACTIVE"%string ∨
        event = "SERVER_SHUTDOWN_CANDIDATE_ALREADY_PENDING"%string →
      on_shutdown_disposed generations b event s = Ok s' → handled b event s s'.

Lemma turn_handled s r s' :
  turn s r = Ok s' → ∃ event, event_of r = Some event ∧ handled (cl_body r) event s s'.
Proof.
  unfold lifecycle_record. intros ([] & _ & H)%res_bind_Ok. do 2 apply res_bind_Ok in H as ([] & _ & H).
  apply res_bind_Ok in H as (v & Hv%ok_or_Ok & H). apply res_bind_Ok in H as (event & He%ok_or_Ok & H).
  do 2 apply res_bind_Ok in H as ([] & _ & H). exists event. split; [unfold event_of; by rewrite Hv|].
  unfold lifecycle_event in H.
  repeat match type of H with
    | (if ?b then _ else _) = _ => let E := fresh "E" in destruct b eqn:E
    end; try done;
  repeat match goal with
    | E : _ || _ = true |- _ => apply orb_true_iff in E as [E|E]
    | E : String.eqb _ _ = true |- _ => apply String.eqb_eq in E
    end; subst event;
  try (apply res_bind_Ok in H as (bd & _ & [= <-])).
  all: first [ by eapply to_boundary; [split_and!; [done|done|naive_solver]|done]
             | by injection H as <-; apply to_nothing; [split_and!; [done|done|naive_solver]|done] | by apply to_shutdown | by apply to_launched
             | by apply to_started | by apply to_terminal | by apply to_exited | by apply to_proof | by apply to_promoted
             | by apply to_initial | by apply to_candidate | by apply to_disposed; eauto ].
Qed.

Lemma turn_marked s r s' : turn s r = Ok s' → marked s r s'.
Proof.
  intros (event & He & H)%turn_handled.
  assert (step_of event = None → mark r = None) as Hnone by (intros Hk; unfold mark; rewrite He; cbn; by rewrite Hk).
  destruct H as [bd (Hk & _) -> | (Hk & _) -> | -> H | Hk H | -> H | -> H | -> H | -> H | -> H | -> H | -> H | Hk H].
  - apply unmarked; auto.
  - apply unmarked; auto.
  - unfold on_server_shutdown_durable in H. run H. apply unmarked; auto.
  - by eapply launched_marked.
  - by eapply started_marked.
  - by eapply terminal_marked.
  - by eapply exited_marked.
  - by eapply proof_marked.
  - by eapply promoted_marked.
  - unfold on_initial_active in H. run H. apply unmarked; auto.
  - unfold on_candidate_registered in H. run H.
    apply unmarked; [auto|done|..]; cbn; unfold admit_warmed; by case_match.
  - unfold on_shutdown_disposed in H. run H.
    apply unmarked; [apply Hnone; by destruct Hk as [-> | ->]|done..].
Qed.

(** *** Authority *)

(** The generations that were promoted, in the order of the journal. *)
Definition promotions (l : list CampaignJournalEnvelopeV1) : list Z :=
  omap (λ r, match mark r with Some (Promoted, g) => Some g | _ => None end) l.

Definition authority_ok (pre : list CampaignJournalEnvelopeV1) (s : lifecycle) : Prop :=
  let a := lc_authority s in
  match ay_active_generation a with
  | Some g => ay_initial_active_registered a = true ∧ 0 ≤ g ∧ promotions pre = seqZ 1 g
  | None => ay_initial_active_registered a = false ∧ promotions pre = []
  end.

Lemma promotions_snoc pre r :
  promotions (pre ++ [r]) = promotions pre ++ match mark r with Some (Promoted, g) => [g] | _ => [] end.
Proof. unfold promotions. rewrite omap_app. cbn. f_equal. by destruct (mark r) as [[[] ?]|]. Qed.

Lemma turn_authority pre s r s' : turn s r = Ok s' → authority_ok pre s → authority_ok (pre ++ [r]) s'.
Proof.
  intros (event & He & H)%turn_handled Hok. unfold authority_ok in *. rewrite promotions_snoc.
  assert (step_of event ≠ Some Promoted → match mark r with Some (Promoted, g) => [g] | _ => [] end = []) as Hno.
  { intros Hk. unfold mark. rewrite He. cbn. destruct (step_of event) as [[]|]; try done; cbn; by destruct (cj_generation_index _). }
  assert (step_of event ≠ Some Promoted → ay_active_generation (lc_authority s') = ay_active_generation (lc_authority s) →
    ay_initial_active_registered (lc_authority s') = ay_initial_active_registered (lc_authority s) →
    match ay_active_generation (lc_authority s') with
    | Some g => ay_initial_active_registered (lc_authority s') = true ∧ 0 ≤ g ∧ promotions pre ++
        match mark r with Some (Promoted, g) => [g] | _ => [] end = seqZ 1 g
    | None => ay_initial_active_registered (lc_authority s') = false ∧ promotions pre ++
        match mark r with Some (Promoted, g) => [g] | _ => [] end = []
    end) as Hsame.
  { intros Hk -> ->. rewrite (Hno Hk), app_nil_r. done. }
  destruct H as [bd (Hk & _) -> | (Hk & _) -> | -> H | Hk H | -> H | -> H | -> H | -> H | -> H | -> H | -> H | Hk H].
  - apply Hsame; [by rewrite Hk|done..].
  - apply Hsame; [by rewrite Hk|done..].
  - unfold on_server_shutdown_durable in H. run H. by apply Hsame.
  - unfold on_generation_launched in H. run H.
    apply Hsame; [by rewrite Hk|cbn; by repeat case_match..].
  - unfold on_process_started in H. run H. by apply Hsame.
  - unfold on_process_terminal in H. run H. by apply Hsame.
  - unfold on_generation_exited in H. run H. by apply Hsame.
  - unfold on_proof_started in H. run H. by apply Hsame.
  - unfold on_promoted in H. apply res_bind_Ok in H as (g & (Hgi & Hg & Hrange)%lifecycle_generation_Ok & H).
    apply res_bind_Ok in H as (p & _ & H). apply res_bind_Ok in H as (d & _ & H).
    apply res_bind_Ok in H as (ss & _ & H). apply res_bind_Ok in H as ([] & E%reject_Ok & [= <-]). repeat known.
    match goal with H : checked_add p 1 = _ |- _ => apply checked_add_Some in H as [_ Hp] end.
    match goal with H : ay_active_generation _ = Some p |- _ => rewrite H in Hok end.
    destruct Hok as (Hi & Hp0 & ->). cbn. rewrite (mark_step _ _ Promoted _ He eq_refl Hgi).
    split_and!; [done|lia|]. replace (ge_generation_index g) with (p + 1) by lia. rewrite seqZ_app by lia.
    by replace (1 + p) with (p + 1) by lia.
  - unfold on_initial_active in H. apply res_bind_Ok in H as (g & _ & H).
    apply res_bind_Ok in H as ([] & E%reject_Ok & H). run H.
    repeat known. cbn. rewrite (Hno ltac:(done)), app_nil_r.
    destruct (ay_active_generation (lc_authority s)); [destruct Hok; congruence|]. destruct Hok as [_ ->]. done.
  - unfold on_candidate_registered in H. run H.
    apply Hsame; [done|..]; cbn; unfold admit_warmed; repeat case_match; done.
  - unfold on_shutdown_disposed in H. run H.
    apply Hsame; [by destruct Hk as [-> | ->]|done..].
Qed.

(** *** The whole journal *)

(** A step happened. *)
Definition happened (l : list CampaignJournalEnvelopeV1) (x : step * Z) : Prop := ∃ r, r ∈ l ∧ mark r = Some x.
(** Every step happens once and behind the steps it requires. *)
Definition in_order (l : list CampaignJournalEnvelopeV1) : Prop :=
  ∀ i r x, l !! i = Some r → mark r = Some x →
    (∀ j r', l !! j = Some r' → mark r' = Some x → j = i) ∧ (∀ y, requires n x y → happened (take i l) y).

Record history (pre : list CampaignJournalEnvelopeV1) (s : lifecycle) : Prop := {
  history_noted : ∀ x, noted s x ↔ happened pre x;
  history_timed : ∀ x r, r ∈ pre → mark r = Some x → has_time x.1 = true → timed s x = Some (mono_of r);
  history_order : in_order pre;
  history_authority : authority_ok pre s
}.

Lemma happened_snoc l r x : happened (l ++ [r]) x ↔ happened l x ∨ mark r = Some x.
Proof.
  unfold happened. setoid_rewrite elem_of_app. setoid_rewrite list_elem_of_singleton. naive_solver.
Qed.

Lemma in_order_snoc l r :
  in_order l → (∀ x, mark r = Some x → ¬ happened l x) → (∀ x y, mark r = Some x → requires n x y → happened l y) →
  in_order (l ++ [r]).
Proof.
  intros Hl Hnew Hreq i r1 x Hi Hm. apply lookup_snoc_Some in Hi as [[Hlt Hi]|[-> ->]].
  - destruct (Hl _ _ _ Hi Hm) as [H1 H2]. rewrite take_app_le by lia. split; [|done].
    intros j r2 Hj Hm2. apply lookup_snoc_Some in Hj as [[_ Hj]|[-> ->]]; [by eapply H1|].
    destruct (Hnew _ Hm2). exists r1. split; [by eapply list_elem_of_lookup_2|done].
  - rewrite take_app_length. split; [|intros y Hy; by apply (Hreq x)].
    intros j r2 Hj Hm2. apply lookup_snoc_Some in Hj as [[_ Hj]|[-> _]]; [|done].
    destruct (Hnew _ Hm). exists r2. split; [by eapply list_elem_of_lookup_2|done].
Qed.

Lemma history_step pre s r s' : history pre s → turn s r = Ok s' → history (pre ++ [r]) s'.
Proof.
  intros [H1 H2 H3 H4] H. pose proof (turn_marked _ _ _ H) as [M1 M2 M3 M4]. split.
  - intros x. by rewrite M1, happened_snoc, H1.
  - intros x r1 [Hr| ->%list_elem_of_singleton]%elem_of_app Hm Ht; rewrite M4.
    + rewrite bool_decide_eq_false_2; [by apply H2|]. intros Hx. apply M2 in Hx. rewrite H1 in Hx. destruct Hx. by exists r1.
    + by rewrite bool_decide_eq_true_2, Ht by done.
  - apply in_order_snoc; [done|..].
    + intros x Hm. rewrite <-H1. by apply M2.
    + intros x y Hm Hreq. rewrite <-H1. by eapply M3.
  - by eapply turn_authority.
Qed.

Lemma start_state x : lc_states (lifecycle_start generations) !! x = Some no_generation_state ∨
  lc_states (lifecycle_start generations) !! x = None.
Proof.
  cbn. set (l := imap _ _). destruct (list_to_map l !! x) as [st|] eqn:E; [|by right].
  apply elem_of_list_to_map_2 in E. apply elem_of_lookup_imap in E as (i & g & [= -> ->] & _). by left.
Qed.
Lemma history_start : history [] (lifecycle_start generations).
Proof.
  split; [|by intros x r ?%elem_of_nil..|by intros i|done].
  intros x. split; [|by intros (r & ?%elem_of_nil & _)]. unfold noted.
  destruct (start_state x.2) as [-> | ->], x.1; cbn; intros H; try (by destruct H); by apply elem_of_empty in H.
Qed.

Lemma run_history l s : try_fold turn (lifecycle_start generations) l = Ok s → history l s.
Proof.
  assert (∀ pre s0, history pre s0 → try_fold turn s0 l = Ok s → history (pre ++ l) s) as Hgen.
  { induction l as [|r l IH]; intros pre s0 Hs H; [injection H as <-; by rewrite app_nil_r|].
    cbn [try_fold] in H. apply res_bind_Ok in H as (s1 & H1 & H). rewrite cons_middle, app_assoc.
    eapply IH; [|done]. by eapply history_step. }
  by apply (Hgen []), history_start.
Qed.

(** *** Shutdowns *)

(** The connection whose shutdown a record makes durable, and the one a record disposes of. *)
Definition durable_key (r : CampaignJournalEnvelopeV1) : option (Z * string) :=
  let payload := cj_payload (cl_body r) in
  if bool_decide (event_of r = Some "SERVER_SHUTDOWN_DURABLE"%string)
  then g ← cj_generation_index (cl_body r);
       epoch ← as_str (value_index (value_index payload "shutdown") "connection_epoch"); Some (g, epoch)
  else None.
Definition disposed_key (r : CampaignJournalEnvelopeV1) : option (Z * string) :=
  let payload := cj_payload (cl_body r) in
  if bool_decide (event_of r = Some "GENERATION_LAUNCHED_SERVER_SHUTDOWN"%string)
  then g ← as_u64 (value_index payload "source_generation"); epoch ← as_str (value_index payload "source_epoch"); Some (g, epoch)
  else if bool_decide (event_of r = Some "SERVER_SHUTDOWN_IGNORED_NON_ACTIVE"%string
                       ∨ event_of r = Some "SERVER_SHUTDOWN_CANDIDATE_ALREADY_PENDING"%string)
  then g ← cj_generation_index (cl_body r); epoch ← as_str (value_index payload "source_epoch"); Some (g, epoch)
  else None.
(** The shutdown of a raw record that a record of the journal publishes. *)
Definition published (r : CampaignJournalEnvelopeV1) : option (Z * VerifiedServerShutdownV1) :=
  let v := value_index (cj_payload (cl_body r)) "shutdown" in
  if bool_decide (event_of r = Some "SERVER_SHUTDOWN_DURABLE"%string)
  then g ← cj_generation_index (cl_body r);
       stream ← as_str (value_index v "stream"); epoch ← as_str (value_index v "connection_epoch");
       segment ← as_u64 (value_index v "segment_index"); frame ← as_u64 (value_index v "frame_index");
       mono ← as_u64 (value_index v "receive_mono_ns"); count ← as_u64 (value_index v "durable_record_count");
       offset ← as_u64 (value_index v "durable_through_offset"); digest ← as_str (value_index v "last_record_sha256");
       Some (g, mkVerifiedShutdown stream epoch segment ("segment-" ++ pad6 segment ++ ".bnraw") frame mono count offset digest)
  else None.
Definition count_key (f : CampaignJournalEnvelopeV1 → option (Z * string)) (l : list CampaignJournalEnvelopeV1)
    (key : Z * string) : Z := len (filter (λ r, f r = Some key) l).

Lemma count_key_snoc f l r key :
  count_key f (l ++ [r]) key = count_key f l key + (if bool_decide (f r = Some key) then 1 else 0).
Proof.
  unfold count_key. rewrite filter_app, len_app. f_equal. rewrite filter_cons, filter_nil. by do 2 case_decide || case_bool_decide.
Qed.

(** What is left of the durable shutdowns, and the exact publications. *)
Definition shutdowns_ok (pre : list CampaignJournalEnvelopeV1) (s : lifecycle) : Prop :=
  let w := lc_shutdowns s in
  (∀ key, default 0 (sw_available w !! key) = count_key durable_key pre key - count_key disposed_key pre key ∧
          0 ≤ default 0 (sw_available w !! key)) ∧
  sw_publications w = omap published pre ∧ NoDup (sw_publications w) ∧
  ∀ g x, (g, x) ∈ sw_publications w → ∃ e, generations !! Z.to_nat g = Some e ∧ x ∈ ge_server_shutdowns e.

Lemma omap_snoc {A B} (f : A → option B) l x : omap f (l ++ [x]) = omap f l ++ option_list (f x).
Proof. rewrite omap_app. cbn. by destruct (f x). Qed.
Lemma shutdowns_same pre s r s' :
  durable_key r = None → published r = None → disposed_key r = None → lc_shutdowns s' = lc_shutdowns s →
  shutdowns_ok pre s → shutdowns_ok (pre ++ [r]) s'.
Proof.
  intros H1 H3 H2 Hs (Ha & He & Hp). unfold shutdowns_ok. rewrite Hs, omap_snoc, H3, app_nil_r. split; [|done]. intros key.
  rewrite !count_key_snoc, H1, H2. rewrite !bool_decide_eq_false_2 by done. destruct (Ha key). lia.
Qed.

Lemma default_insert (m : gmap (Z * string) Z) key v k :
  default 0 (<[key := v]> m !! k) = if bool_decide (Some key = Some k) then v else default 0 (m !! k).
Proof.
  case_bool_decide as E; [injection E as ->; by rewrite lookup_insert_eq|]. rewrite lookup_insert_ne; [done|congruence].
Qed.

(** A disposition takes one durable shutdown of its connection. *)
Lemma use_shutdown_ok pre s r s' key missing reused w :
  durable_key r = None → published r = None → disposed_key r = Some key → use_shutdown key missing reused (lc_shutdowns s) = Ok w →
  lc_shutdowns s' = w → shutdowns_ok pre s → shutdowns_ok (pre ++ [r]) s'.
Proof.
  intros H1 H3 H2 (av & Hav%ok_or_Ok & H)%res_bind_Ok Hs (Ha & Hp). apply res_bind_Ok in H as ([] & E%reject_Ok & [= <-]).
  apply Z.eqb_neq in E. unfold shutdowns_ok. rewrite Hs, omap_snoc, H3, app_nil_r. cbn [sw_available sw_publications].
  split; [|done]. intros k.
  rewrite !count_key_snoc, H1, H2, default_insert. rewrite (bool_decide_eq_false_2 (None = _)) by done.
  destruct (Ha k) as [A1 A2]. case_bool_decide as Ek; [|lia]. injection Ek as ->. rewrite Hav in *. cbn in *. lia.
Qed.

Lemma keys_None r event :
  event_of r = Some event → event ≠ "SERVER_SHUTDOWN_DURABLE"%string →
  event ≠ "GENERATION_LAUNCHED_SERVER_SHUTDOWN"%string → event ≠ "SERVER_SHUTDOWN_IGNORED_NON_ACTIVE"%string →
  event ≠ "SERVER_SHUTDOWN_CANDIDATE_ALREADY_PENDING"%string →
  durable_key r = None ∧ published r = None ∧ disposed_key r = None.
Proof.
  intros He N1 N2 N3 N4. unfold durable_key, published, disposed_key. rewrite He.
  rewrite !bool_decide_eq_false_2 by naive_solver. done.
Qed.

Lemma durable_ok pre s r s' event :
  event_of r = Some event → event = "SERVER_SHUTDOWN_DURABLE"%string →
  on_server_shutdown_durable generations (cl_body r) event s = Ok s' → shutdowns_ok pre s → shutdowns_ok (pre ++ [r]) s'.
Proof.
  intros He Hev H (Ha & Heq & Hnd & Hp). unfold on_server_shutdown_durable in H.
  apply res_bind_Ok in H as (g & (Hgi & Hg & Hrange)%lifecycle_generation_Ok & H).
  apply res_bind_Ok in H as (st & _ & H). apply res_bind_Ok in H as (o & _ & H).
  apply res_bind_Ok in H as (stream & [Hst _]%payload_text_Ok & H). apply res_bind_Ok in H as (epoch & [Hep _]%payload_text_Ok & H).
  apply res_bind_Ok in H as (seg & Hseg%ok_or_Ok & H). apply res_bind_Ok in H as (frame & Hframe%ok_or_Ok & H).
  apply res_bind_Ok in H as ([] & _ & H). apply res_bind_Ok in H as (mono & Hmono%ok_or_Ok & H).
  apply res_bind_Ok in H as ([] & _ & H). apply res_bind_Ok in H as (cnt & Hcnt%ok_or_Ok & H).
  apply res_bind_Ok in H as ([] & _ & H). apply res_bind_Ok in H as (off & Hoff%ok_or_Ok & H).
  apply res_bind_Ok in H as ([] & _ & H). apply res_bind_Ok in H as (dig & [Hdig _]%payload_text_Ok & H).
  apply res_bind_Ok in H as ([] & _ & H).
  apply res_bind_Ok in H as ([] & E%reject_Ok & H). apply res_bind_Ok in H as (ob & _ & H).
  apply res_bind_Ok in H as (av & Hav & [= <-]). repeat known.
  assert (durable_key r = Some (ge_generation_index g, epoch)) as Hd
    by (unfold durable_key; rewrite He, Hev, bool_decide_eq_true_2 by done; rewrite Hgi; cbn; by rewrite Hep).
  assert (disposed_key r = None) as Hn
    by (unfold disposed_key; rewrite He, Hev, !bool_decide_eq_false_2 by naive_solver; done).
  set (x := mkVerifiedShutdown _ _ _ _ _ _ _ _ _) in *.
  assert (published r = Some (ge_generation_index g, x)) as Hpub.
  { unfold published. rewrite He, Hev, bool_decide_eq_true_2 by done. rewrite Hgi, Hst, Hep, Hseg, Hframe, Hmono, Hcnt, Hoff, Hdig. done. }
  unfold count_entry in Hav. apply res_bind_Ok in Hav as (k & [Hmax ->]%ok_or_Ok%checked_add_Some & [= <-]).
  unfold shutdowns_ok. cbn [lc_shutdowns set_shutdowns sw_available sw_publications]. split_and!.
  - intros key. rewrite !count_key_snoc, Hd, Hn, default_insert. rewrite (bool_decide_eq_false_2 (None = _)) by done.
    destruct (Ha key) as [A1 A2]. case_bool_decide as Ek; [|lia]. injection Ek as <-. lia.
  - rewrite omap_snoc, Hpub, Heq. done.
  - rewrite NoDup_app. split_and!; [done| |apply NoDup_singleton]. intros y Hy ->%list_elem_of_singleton. done.
  - intros h y [Hy|[= -> ->]%list_elem_of_singleton]%elem_of_app; [by apply Hp|]. by exists g.
Qed.

Lemma turn_shutdowns pre s r s' : turn s r = Ok s' → shutdowns_ok pre s → shutdowns_ok (pre ++ [r]) s'.
Proof.
  intros (event & He & H)%turn_handled Hok.
  assert (step_of event ≠ Some Launched → event ≠ "SERVER_SHUTDOWN_DURABLE"%string →
    ¬ (event = "SERVER_SHUTDOWN_IGNORED_NON_ACTIVE"%string ∨ event = "SERVER_SHUTDOWN_CANDIDATE_ALREADY_PENDING"%string) →
    lc_shutdowns s' = lc_shutdowns s → shutdowns_ok (pre ++ [r]) s') as Hsame.
  { intros N1 N2 N3 Hs. destruct (keys_None r event) as (K1 & K2 & K3); [done|done|intros ->; by apply N1|naive_solver..|].
    by eapply shutdowns_same. }
  destruct H as [bd (K1 & K2 & K3) -> | (K1 & K2 & K3) -> | Hev H | Hk H | -> H | -> H | -> H | -> H | -> H | -> H | -> H | Hk H].
  - apply Hsame; [by rewrite K1|done..].
  - apply Hsame; [by rewrite K1|done..].
  - by eapply durable_ok.
  - unfold on_generation_launched in H. apply res_bind_Ok in H as (g & _ & H). apply res_bind_Ok in H as (st & _ & H).
    apply res_bind_Ok in H as ([] & _ & H). apply res_bind_Ok in H as (d & _ & H). apply res_bind_Ok in H as ([] & _ & H).
    apply res_bind_Ok in H as (w & Hw & [= <-]).
    assert (durable_key r = None ∧ published r = None) as [Hd Hd']
      by (unfold durable_key, published; rewrite He, bool_decide_eq_false_2; [done|]; intros [= ->]; done).
    destruct (String.eqb event "GENERATION_LAUNCHED_SERVER_SHUTDOWN") eqn:Es.
    + apply String.eqb_eq in Es as ->. unfold launch_source in Hw.
      apply res_bind_Ok in Hw as (sg & Hsg%ok_or_Ok & Hw). apply res_bind_Ok in Hw as (se & [Hse _]%payload_text_Ok & Hw).
      apply res_bind_Ok in Hw as ([] & _ & Hw). apply res_bind_Ok in Hw as (src & _ & Hw).
      do 4 apply res_bind_Ok in Hw as ([] & _ & Hw).
      eapply (use_shutdown_ok _ _ _ _ (sg, se)); [done|done| |exact Hw|done|done].
      unfold disposed_key. rewrite He, bool_decide_eq_true_2 by done. rewrite Hsg. cbn. by rewrite Hse.
    + injection Hw as <-. apply String.eqb_neq in Es. eapply shutdowns_same; [done|done| |done|done].
      apply (keys_None r event); [done|intros ->; done..].
  - unfold on_process_started in H. run H. apply Hsame; naive_solver.
  - unfold on_process_terminal in H. run H. apply Hsame; naive_solver.
  - unfold on_generation_exited in H. run H. apply Hsame; naive_solver.
  - unfold on_proof_started in H. run H. apply Hsame; naive_solver.
  - unfold on_promoted in H. run H. apply Hsame; naive_solver.
  - unfold on_initial_active in H. run H. apply Hsame; naive_solver.
  - unfold on_candidate_registered in H. run H. apply Hsame; naive_solver.
  - unfold on_shutdown_disposed in H. apply res_bind_Ok in H as (g & (Hgi & _ & _)%lifecycle_generation_Ok & H).
    apply res_bind_Ok in H as (se & [Hse _]%payload_text_Ok & H). apply res_bind_Ok in H as ([] & _ & H).
    apply res_bind_Ok in H as (w & Hw & [= <-]).
    eapply (use_shutdown_ok _ _ _ _ (ge_generation_index g, se)); [| | |exact Hw|done|done].
    + unfold durable_key. rewrite He, bool_decide_eq_false_2; [done|]. intros [= ->]. naive_solver.
    + unfold published. rewrite He, bool_decide_eq_false_2; [done|]. intros [= ->]. naive_solver.
    + unfold disposed_key. rewrite He, bool_decide_eq_false_2, bool_decide_eq_true_2; [|naive_solver|].
      * rewrite Hgi. cbn. by rewrite Hse.
      * intros [= ->]. naive_solver.
Qed.

Lemma shutdowns_start : shutdowns_ok [] (lifecycle_start generations).
Proof. split_and!; [done|done|constructor|by intros g x ?%elem_of_nil]. Qed.

(** On every prefix of an accepted journal the accounts are exact. *)
Lemma run_shutdowns l s : try_fold turn (lifecycle_start generations) l = Ok s →
  shutdowns_ok l s ∧ ∀ pre, pre `prefix_of` l → ∃ s1, shutdowns_ok pre s1.
Proof.
  assert (∀ l pre s0 s', shutdowns_ok pre s0 → try_fold turn s0 l = Ok s' → shutdowns_ok (pre ++ l) s') as Hgen.
  { clear l s. induction l as [|r l IH]; intros pre s0 s' Hs H; [injection H as <-; by rewrite app_nil_r|].
    cbn [try_fold] in H. apply res_bind_Ok in H as (s1 & H1 & H). rewrite cons_middle, app_assoc.
    eapply IH; [|done]. by eapply turn_shutdowns. }
  intros H. split; [by apply (Hgen l []) in H; [|apply shutdowns_start]|].
  intros pre [k ->]. rewrite try_fold_app in H. apply res_bind_Ok in H as (s1 & H1 & _). exists s1.
  by apply (Hgen pre []) in H1; [|apply shutdowns_start].
Qed.

(** A promotion names the digest of the proof the manifest lists. *)
Lemma turn_digest s r s' g :
  turn s r = Ok s' → mark r = Some (Promoted, g) →
  ∃ d, as_str (value_index (cj_payload (cl_body r)) "proof_sha256") = Some d ∧ expected !! (g - 1, g) = Some d.
Proof.
  intros (event & He & H)%turn_handled Hm. unfold mark in Hm. rewrite He in Hm. cbn in Hm.
  apply bind_Some in Hm as (k & Hk & Hm). apply bind_Some in Hm as (gi & Hgi & [= -> ->]).
  assert (event = "HANDOVER_PROVEN_AND_PROMOTED"%string) as Hev.
  { unfold step_of in Hk. repeat case_match; try done. by apply String.eqb_eq. }
  destruct H as [bd (K & _) _ | (K & _) _ | -> _ | K _ | -> _ | -> _ | -> _ | -> _ | _ H | -> _ | -> _ | [-> | ->] _];
    try (discriminate Hev); try congruence.
  unfold on_promoted in H. apply res_bind_Ok in H as (g' & (Hgi' & Hg & Hrange)%lifecycle_generation_Ok & H).
  apply res_bind_Ok in H as (p & _ & H). apply res_bind_Ok in H as (d & [Hd _]%payload_text_Ok & H).
  apply res_bind_Ok in H as (ss & _ & H). apply res_bind_Ok in H as ([] & E%reject_Ok & _). repeat known.
  match goal with H : checked_add p 1 = _ |- _ => apply checked_add_Some in H as [_ Hp] end.
  rewrite Hgi in Hgi'. injection Hgi' as ->. exists d. split; [done|].
  replace (ge_generation_index g' - 1) with p by lia. done.
Qed.
Lemma run_digests l s r g : try_fold turn (lifecycle_start generations) l = Ok s → r ∈ l → mark r = Some (Promoted, g) →
  ∃ d, as_str (value_index (cj_payload (cl_body r)) "proof_sha256") = Some d ∧ expected !! (g - 1, g) = Some d.
Proof.
  generalize (lifecycle_start generations). induction l as [|r' l IH]; intros s0 H Hr Hm; [by apply elem_of_nil in Hr|].
  cbn [try_fold] in H. apply res_bind_Ok in H as (s1 & H1 & H). apply elem_of_cons in Hr as [<-|Hr]; [by eapply turn_digest|by eapply IH].
Qed.

(** *** The time the generations cover *)

Definition at_time (l : list CampaignJournalEnvelopeV1) (x : step * Z) (mono : Z) : Prop :=
  ∃ r, r ∈ l ∧ mark r = Some x ∧ mono_of r = mono.

Lemma at_time_timed l s x m : history l s → has_time x.1 = true → at_time l x m → timed s x = Some m.
Proof. intros Hs Ht (r & Hr & Hm & <-). by eapply history_timed. Qed.
Lemma timed_at_time l s g m : history l s → is_Some (lc_states s !! g ≫= gs_process_started_record) →
  lc_states s !! g ≫= gs_process_started_mono_ns = Some m → at_time l (Started, g) m.
Proof.
  intros Hs Hn Ht. destruct (proj1 (history_noted _ _ Hs (Started, g)) Hn) as (r & Hr & Hm).
  exists r. split_and!; [done..|]. pose proof (history_timed _ _ Hs _ _ Hr Hm eq_refl) as E. cbn in E. congruence.
Qed.

(** The declared window of a generation holds a time. *)
Definition in_window (s : lifecycle) (g : nat) (time : Z) : Prop :=
  ∃ e start, generations !! g = Some e ∧ lc_states s !! Z.of_nat g ≫= gs_process_started_mono_ns = Some start ∧
    start ≤ time ≤ start + ge_duration_requested_s e * 1000000000.

Lemma window_end_Some e start n0 : window_end e start = Some n0 → n0 = start + ge_duration_requested_s e * 1000000000.
Proof.
  unfold window_end. intros (d & Hd & [_ ->]%checked_add_Some)%bind_Some. unfold checked_mul in Hd.
  destruct (_ <=? _); [|done]. by injection Hd as <-.
Qed.

Lemma coverage_fold s k a acc acc' first :
  try_fold (coverage_turn generations s) acc (seq a k) = Ok acc' →
  (∀ time, first ≤ time ≤ acc.1 → ∃ g, in_window s g time) →
  (0 < a)%nat → lc_states s !! Z.of_nat (pred a) ≫= gs_process_started_mono_ns = Some acc.2 →
  (∀ time, first ≤ time ≤ acc'.1 → ∃ g, in_window s g time) ∧
  ∀ g x y, (a ≤ S g < a + k)%nat → lc_states s !! Z.of_nat g ≫= gs_process_started_mono_ns = Some x →
    lc_states s !! Z.of_nat (S g) ≫= gs_process_started_mono_ns = Some y → x < y.
Proof.
  revert a acc. induction k as [|k IH]; intros a acc H Hc Ha Hp.
  { injection H as <-. split; [done|]. lia. }
  cbn [seq try_fold] in H. apply res_bind_Ok in H as (acc1 & H1 & H). unfold coverage_turn in H1.
  destruct acc as [covered previous]. cbn [fst snd] in *. apply res_bind_Ok in H1 as (st & Hst%expect_Ok & H1).
  apply res_bind_Ok in H1 as (start & Hstart%expect_Ok & H1). apply res_bind_Ok in H1 as ([] & E%reject_Ok & H1).
  apply orb_false_iff in E as [E1%Z.leb_gt E2%Z.ltb_ge]. apply res_bind_Ok in H1 as (e & He%expect_Ok & H1).
  apply res_bind_Ok in H1 as (n0 & Hn%ok_or_Ok%window_end_Some & [= <-]).
  assert (lc_states s !! Z.of_nat a ≫= gs_process_started_mono_ns = Some start) as Hs by (rewrite Hst; cbn; done).
  destruct (IH (S a) _ H) as [HA HB].
  - cbn [fst]. intros time Ht. destruct (decide (time ≤ covered)) as [Hle|Hgt]; [apply Hc; lia|].
    exists a, e, start. split_and!; [done..| |]; lia.
  - lia.
  - done.
  - split; [done|]. intros g x y Hg Hx Hy. destruct (decide (S g = a)) as [<-|Hne]; [|apply (HB g); [lia|done..]].
    cbn [pred] in Hp. rewrite Hp in Hx. rewrite Hs in Hy. congruence.
Qed.

End lifecycle_theory.

Section lifecycle_claims.
Context `{Hval : SerdeValue} `{Hobj : !SerdeObject} `{Hget : !SerdeGet}.

(** The end of an accepted journal. *)
Record finished (total_duration_s : Z) (generations : list GenerationLifecycleExpectation) (s : lifecycle) : Prop := {
  finished_active : ay_active_generation (lc_authority s) = Some (len generations - 1);
  finished_available : ∀ key, default 0 (sw_available (lc_shutdowns s) !! key) = 0;
  finished_complete : ∀ e, e ∈ generations → generation_complete s e = Ok ();
  finished_overlap : ∀ g, (1 ≤ g < length generations)%nat → overlap_turn s g = Ok ();
  finished_coverage : ∃ first e covered acc,
    lc_states s !! 0 ≫= gs_process_started_mono_ns = Some first ∧ first ≤ CAMPAIGN_STARTUP_GRACE_NS ∧
    generations !! 0%nat = Some e ∧ window_end e first = Some covered ∧
    try_fold (coverage_turn generations s) (covered, first) (seq 1 (length generations - 1)) = Ok acc ∧
    total_duration_s * 1000000000 ≤ acc.1;
  finished_last : ∃ terminal exited,
    lc_states s !! (len generations - 1) ≫= gs_process_terminal_mono_ns = Some terminal ∧
    lc_states s !! (len generations - 1) ≫= gs_generation_exited_mono_ns = Some exited ∧
    total_duration_s * 1000000000 ≤ terminal ∧ total_duration_s * 1000000000 ≤ exited
}.

Lemma lifecycle_finish_Ok total generations expected s :
  lifecycle_finish total generations expected s = Ok () → finished total generations s.
Proof.
  unfold lifecycle_finish. intros ([] & _ & H)%res_bind_Ok. apply res_bind_Ok in H as ([] & Ha%reject_Ok & H).
  apply res_bind_Ok in H as ([] & Hz%reject_Ok & H). apply res_bind_Ok in H as (us & Hc & H).
  apply res_bind_Ok in H as (req & Hreq%ok_or_Ok & H). apply res_bind_Ok in H as (st & Hst%ok_or_Ok & H).
  apply res_bind_Ok in H as ([] & Hgr%reject_Ok & H). apply res_bind_Ok in H as (vs & Hv & H).
  apply res_bind_Ok in H as (first & Hfirst%expect_Ok & H). apply res_bind_Ok in H as (e & He%expect_Ok & H).
  apply res_bind_Ok in H as (cov & Hcov%ok_or_Ok & H). apply res_bind_Ok in H as ([acc prev] & Hacc & H).
  apply res_bind_Ok in H as ([] & Henough%reject_Ok & H). apply res_bind_Ok in H as (ls & Hls%expect_Ok & H).
  do 2 apply res_bind_Ok in H as (? & _ & H). apply res_bind_Ok in H as (tm & Htm%expect_Ok & H).
  apply res_bind_Ok in H as (xm & Hxm%expect_Ok & H). apply res_bind_Ok in H as ([] & Hlast%reject_Ok & _).
  unfold checked_mul in Hreq. destruct (_ <=? _); [|done]. injection Hreq as <-.
  rewrite Hfirst in Hgr. apply Z.ltb_ge in Hgr. apply Z.ltb_ge in Henough.
  repeat (apply orb_false_iff in Ha as [Ha ?]). apply orb_false_iff in Hlast as [?%Z.ltb_ge ?%Z.ltb_ge].
  split.
  - by match goal with H : negb (bool_decide (ay_active_generation _ = _)) = false |- _ =>
      apply negb_false_iff, bool_decide_eq_true in H end.
  - intros key. destruct (sw_available (lc_shutdowns s) !! key) as [v|] eqn:E; [|done]. cbn.
    apply elem_of_map_to_list in E. destruct (decide (v = 0)) as [|Hne]; [done|]. apply not_true_iff_false in Hz.
    destruct Hz. apply existsb_exists. exists (key, v). split; [by apply list_elem_of_In|].
    cbn. by apply negb_true_iff, Z.eqb_neq.
  - intros e' He'. apply try_map_Ok_Forall2 in Hc. apply list_elem_of_lookup in He' as [i Hi].
    destruct (Forall2_lookup_l _ _ _ _ _ Hc Hi) as ([] & _ & Hr). done.
  - intros g Hg. apply try_map_Ok_Forall2 in Hv.
    destruct (Forall2_lookup_l _ _ _ (pred g) g Hv) as ([] & _ & Hr); [|done]. rewrite lookup_seq. lia.
  - exists first, e, cov, (acc, prev). rewrite Hst. cbn. split_and!; done.
  - exists tm, xm. rewrite Hls. cbn. done.
Qed.

(** The generations stand in the order of their indexes, as in a verified campaign. *)
Definition indexed (generations : list GenerationLifecycleExpectation) : Prop :=
  len generations ≤ u64_max ∧ ∀ i e, generations !! i = Some e → ge_generation_index e = Z.of_nat i.

Lemma accepted_run journal cid ssha msha total generations handovers :
  indexed generations → validate_campaign_lifecycle journal cid ssha msha total generations handovers = Ok () →
  ∃ s, try_fold (lifecycle_record cid ssha msha generations (handover_pairs handovers)) (lifecycle_start generations)
         (vj_records journal) = Ok s ∧
    history generations (vj_records journal) s ∧ finished total generations s.
Proof.
  intros [Hn Hi] (tk & _ & H)%res_bind_Ok. apply res_bind_Ok in H as (s & Hs & H). exists s. split_and!; [done| |].
  - by eapply run_history.
  - by eapply lifecycle_finish_Ok.
Qed.

Lemma complete_fields s e : generation_complete s e = Ok () → ∃ st,
  lc_states s !! ge_generation_index e = Some st ∧ is_Some (gs_launch_record st) ∧
  is_Some (gs_process_started_record st) ∧ is_Some (gs_process_terminal_record st) ∧
  is_Some (gs_generation_exited_record st) ∧
  length (filter (λ p, p.1 = ge_generation_index e) (sw_publications (lc_shutdowns s))) = length (ge_server_shutdowns e).
Proof.
  unfold generation_complete. intros (st & Hst & H)%res_bind_Ok. apply res_bind_Ok in H as ([] & E%reject_Ok & H).
  apply res_bind_Ok in H as ([] & El%reject_Ok & _). apply negb_false_iff, Nat.eqb_eq in El.
  repeat (apply orb_false_iff in E as [E ?]).
  repeat match goal with H : bool_decide (_ = None) = false |- _ => apply bool_decide_eq_false in H; apply not_eq_None_Some in H end.
  exists st. split; [by apply expect_Ok|done].
Qed.

Lemma generation_steps l s generations total k i e :
  indexed generations → history generations l s → finished total generations s → generations !! i = Some e →
  k ∈ [Launched; Started; Terminal; Exited] → happened l (k, Z.of_nat i).
Proof.
  intros [_ Hi] Hh Hf He Hk. apply (history_noted _ _ _ Hh).
  destruct (complete_fields s e) as (st & Hst & H1 & H2 & H3 & H4 & _).
  { apply (finished_complete _ _ _ Hf). by eapply list_elem_of_lookup_2. }
  rewrite (Hi _ _ He) in Hst. unfold noted. cbn [fst snd]. rewrite Hst.
  repeat (apply elem_of_cons in Hk as [->|Hk]; [done|]). by apply elem_of_nil in Hk.
Qed.

(** C22: an accepted campaign journal tells one complete life of every generation, in an
    order that never leaves the campaign without a running successor. Every generation is
    launched, started, ended and exited exactly once and in this order. A generation ends
    only when its successor runs and it had been promoted itself; a handover is proven only
    when the predecessor has exited and the successor runs; and a promotion follows its
    proof and names the digest of the proof that the manifest lists. Authority goes from
    generation to generation: the promotions are 1, 2, and so on to the last one. *)
Theorem campaign_life_in_order journal cid ssha msha total generations handovers :
  indexed generations → validate_campaign_lifecycle journal cid ssha msha total generations handovers = Ok () →
  let l := vj_records journal in
  in_order generations l ∧ promotions l = seqZ 1 (len generations - 1) ∧
  (∀ g k, 0 ≤ g < len generations → k ∈ [Launched; Started; Terminal; Exited] → happened l (k, g)) ∧
  (∀ g r, r ∈ l → mark r = Some (Promoted, g) →
     ∃ d, as_str (value_index (cj_payload (cl_body r)) "proof_sha256") = Some d ∧
          handover_pairs handovers !! (g - 1, g) = Some d).
Proof.
  intros Hix (s & Hs & Hh & Hf)%accepted_run; [|done]. split_and!.
  - apply Hh.
  - pose proof (history_authority _ _ _ Hh) as Ha. unfold authority_ok in Ha.
    rewrite (finished_active _ _ _ Hf) in Ha. by destruct Ha as (_ & _ & Ha).
  - intros g k Hg Hk. destruct (generations !! Z.to_nat g) as [e|] eqn:He.
    + replace g with (Z.of_nat (Z.to_nat g)) by lia. by eapply generation_steps.
    + apply lookup_ge_None in He. unfold len in Hg. lia.
  - intros g r Hr Hm. destruct Hix as [_ Hi]. by eapply run_digests.
Qed.

(** C23: the generations of an accepted journal cover the time that was asked for. The first
    one starts within the startup grace; every moment from then to the requested duration
    lies in the window of some generation, from its start for the duration it was launched
    with; the starts increase strictly; a generation starts before its predecessor ends and
    exits; and the last one does not end before the requested duration. *)
Theorem campaign_time_covered journal cid ssha msha total generations handovers :
  indexed generations → validate_campaign_lifecycle journal cid ssha msha total generations handovers = Ok () →
  let l := vj_records journal in
  ∃ first, at_time l (Started, 0) first ∧ first ≤ CAMPAIGN_STARTUP_GRACE_NS ∧
  (∀ time, first ≤ time ≤ total * 1000000000 → ∃ g e start, generations !! g = Some e ∧
     at_time l (Started, Z.of_nat g) start ∧ start ≤ time ≤ start + ge_duration_requested_s e * 1000000000) ∧
  (∀ g a b, (S g < length generations)%nat → at_time l (Started, Z.of_nat g) a → at_time l (Started, Z.of_nat (S g)) b → a < b) ∧
  (∀ g b c d, (S g < length generations)%nat → at_time l (Started, Z.of_nat (S g)) b → at_time l (Terminal, Z.of_nat g) c →
     at_time l (Exited, Z.of_nat g) d → b < c ∧ b < d) ∧
  (∀ c d, at_time l (Terminal, len generations - 1) c → at_time l (Exited, len generations - 1) d →
     total * 1000000000 ≤ c ∧ total * 1000000000 ≤ d).
Proof.
  intros Hix (s & _ & Hh & Hf)%accepted_run; [|done].
  destruct (finished_coverage _ _ _ Hf) as (first & e & cov & acc & F1 & F2 & F3 & F4 & F5 & F6).
  apply window_end_Some in F4.
  assert (∀ x m, at_time (vj_records journal) x m → has_time x.1 = true → timed s x = Some m) as timed_of
    by (intros x m Hx Ht; by eapply at_time_timed).
  assert (∀ i m, lc_states s !! Z.of_nat i ≫= gs_process_started_mono_ns = Some m → (i < length generations)%nat →
            at_time (vj_records journal) (Started, Z.of_nat i) m) as Hat.
  { intros i m Hm Hlt. apply lookup_lt_is_Some in Hlt as [e' He']. eapply timed_at_time; [done| |done].
    apply (history_noted _ _ _ Hh (Started, Z.of_nat i)). eapply generation_steps; [done..|set_solver]. }
  destruct (coverage_fold generations s _ 1 _ _ first F5) as [Hcov Hinc].
  { cbn [fst]. intros time Ht. exists 0%nat, e, first. split_and!; [done|done|lia|lia]. }
  { lia. }
  { done. }
  exists first. split_and!; [|done|..].
  - apply (Hat 0%nat); [done|]. by eapply lookup_lt_Some.
  - intros time Ht. destruct (Hcov time) as (g & e' & start & He' & Hst & Hw); [lia|].
    exists g, e', start. split_and!; [done| |lia..]. apply Hat; [done|]. by eapply lookup_lt_Some.
  - intros g a b Hg Ha Hb. apply (Hinc g); [lia|..].
    + by apply (timed_of _ _ Ha eq_refl).
    + by apply (timed_of _ _ Hb eq_refl).
  - intros g b c d Hg Hb Hc Hd. pose proof (finished_overlap _ _ _ Hf (S g) ltac:(lia)) as H. unfold overlap_turn in H.
    apply res_bind_Ok in H as (p & Hp%expect_Ok & H). apply res_bind_Ok in H as (q & Hq%expect_Ok & H).
    apply res_bind_Ok in H as (m & Hm%expect_Ok & [H1 H2]%reject_Ok%orb_false_iff).
    replace (Z.of_nat (S g) - 1) with (Z.of_nat g) in Hp by lia.
    pose proof (timed_of _ _ Hb eq_refl) as Eb. pose proof (timed_of _ _ Hc eq_refl) as Ec.
    pose proof (timed_of _ _ Hd eq_refl) as Ed. unfold timed in Eb, Ec, Ed. cbn [fst snd] in Eb, Ec, Ed.
    rewrite Hq in Eb. rewrite Hp in Ec, Ed. cbn in Eb, Ec, Ed. rewrite Ec in H1. rewrite Ed in H2. cbn in H1, H2.
    apply Z.leb_gt in H1, H2. assert (m = b) by congruence. lia.
  - intros c d Hc Hd. destruct (finished_last _ _ _ Hf) as (tm & xm & Ht & Hx & ? & ?).
    pose proof (timed_of _ _ Hc eq_refl) as Ec. pose proof (timed_of _ _ Hd eq_refl) as Ed.
    unfold timed in Ec, Ed. cbn [fst snd] in Ec, Ed. assert (tm = c) by congruence. assert (xm = d) by congruence. lia.
Qed.

(** C24: every shutdown the venue announced has exactly one consequence. In an accepted
    journal the published shutdowns are exactly those of the raw files, each published
    once; at every moment the shutdowns of a connection that caused a launch or were set
    aside are at most those made durable before, and in the end they are all of them. *)
Theorem shutdowns_disposed_once journal cid ssha msha total generations handovers :
  indexed generations → validate_campaign_lifecycle journal cid ssha msha total generations handovers = Ok () →
  let l := vj_records journal in
  (∀ i e x, generations !! i = Some e →
     (x ∈ ge_server_shutdowns e ↔ ∃ r, r ∈ l ∧ published r = Some (Z.of_nat i, x))) ∧
  NoDup (omap published l) ∧
  (∀ pre key, pre `prefix_of` l → count_key disposed_key pre key ≤ count_key durable_key pre key) ∧
  (∀ key, count_key disposed_key l key = count_key durable_key l key).
Proof.
  intros Hix (s & Hs & Hh & Hf)%accepted_run; [|done]. destruct Hix as [_ Hi].
  destruct (run_shutdowns _ _ _ _ _ Hi _ _ Hs) as [(Ha & Hp & Hnd & Hin) Hpre]. rewrite Hp in *.
  assert (∀ p, p ∈ omap published (vj_records journal) ↔ ∃ r, r ∈ vj_records journal ∧ published r = Some p) as Hpub
    by (intros p; by rewrite list_elem_of_omap).
  split_and!; [|done|..].
  - intros i e x He. destruct (complete_fields s e) as (st & _ & _ & _ & _ & _ & Hlen).
    { apply (finished_complete _ _ _ Hf). by eapply list_elem_of_lookup_2. }
    rewrite Hp, (Hi _ _ He) in Hlen. rewrite <-Hpub.
    set (mine := filter _ _) in Hlen. assert (NoDup mine) as Hm by (by apply NoDup_filter).
    assert (∀ y, y ∈ mine.*2 → y ∈ ge_server_shutdowns e) as Hsub.
    { intros y ([g z] & -> & [Hg Hz]%list_elem_of_filter)%list_elem_of_fmap. cbn in Hg |- *. subst g.
      destruct (Hin _ _ Hz) as (e' & He' & Hy). rewrite Nat2Z.id, He in He'. by injection He' as <-. }
    assert (NoDup mine.*2) as Hm2.
    { apply NoDup_fmap_2_strong; [|done]. intros [a b] [c d] [Ha' _]%list_elem_of_filter [Hc' _]%list_elem_of_filter.
      cbn in *. congruence. }
    split.
    + intros Hx. assert (x ∈ mine.*2) as ([g z] & -> & [Hg Hz]%list_elem_of_filter)%list_elem_of_fmap.
      { apply list_elem_of_In. eapply (List.NoDup_length_incl (l := mine.*2)); [by apply NoDup_ListNoDup| | |by apply list_elem_of_In].
        - rewrite length_fmap. lia.
        - intros y Hy. apply list_elem_of_In, Hsub, list_elem_of_In. done. }
      cbn in Hg |- *. by subst g.
    + intros Hx. apply Hsub. apply list_elem_of_fmap. exists (Z.of_nat i, x). split; [done|]. by apply list_elem_of_filter.
  - intros pre key Hk. destruct (Hpre _ Hk) as (s1 & Ha1 & _). destruct (Ha1 key). lia.
  - intros key. destruct (Ha key) as [E _]. rewrite (finished_available _ _ _ Hf) in E. lia.
Qed.
End lifecycle_claims.

(** *** The directory *)

(** The text of a journal with the given lines. *)
Definition journal_text (lines : list bytes) : bytes := concat ((λ line, line ++ [x0a]) <$> lines).

Lemma split_newline_join b :
  split_newline b ≠ [] ∧ b ++ [x0a] = journal_text (split_newline b) ∧ Forall (λ line, x0a ∉ line) (split_newline b).
Proof.
  induction b as [|x b (IH1 & IH2 & IH3)].
  { split_and!; [done|done|]. apply Forall_singleton. apply not_elem_of_nil. }
  cbn [split_newline]. case_bool_decide as E.
  - subst x. split_and!; [done| |by constructor; [apply not_elem_of_nil|]]. cbn. f_equal. exact IH2.
  - destruct (split_newline b) as [|line lines]; [done|]. apply Forall_cons in IH3 as [H1 H2]. split_and!; [done| |].
    + cbn in *. by rewrite IH2.
    + constructor; [|done]. apply not_elem_of_cons. split; [congruence|done].
Qed.
Lemma split_newline_text lines :
  lines ≠ [] → Forall (λ line, x0a ∉ line) lines → ∃ b, journal_text lines = b ++ [x0a] ∧ split_newline b = lines.
Proof.
  assert (∀ line, x0a ∉ line → split_newline line = [line]) as H1.
  { induction line as [|x line IH]; [done|]. intros [Hx Hl]%not_elem_of_cons. cbn [split_newline].
    rewrite bool_decide_eq_false_2 by congruence. by rewrite IH. }
  assert (∀ line b, x0a ∉ line → split_newline (line ++ x0a :: b) = line :: split_newline b) as H2.
  { induction line as [|x line IH]; intros b; [done|]. intros [Hx Hl]%not_elem_of_cons. cbn [app split_newline].
    rewrite bool_decide_eq_false_2 by congruence. by rewrite IH. }
  induction lines as [|line lines IH]; [done|]. intros _ [Hl Hls]%Forall_cons.
  destruct lines as [|line' lines]; [exists line; split; [by cbn; rewrite app_nil_r|by apply H1]|].
  destruct IH as (b & Hb & Hsp); [done..|]. exists (line ++ x0a :: b). split; [|by rewrite H2, Hsp].
  unfold journal_text in *. rewrite fmap_cons. cbn [concat]. rewrite Hb. by rewrite <-!app_assoc.
Qed.

Section campaign_theory.
Context `{Hsha : Sha256} `{Hval : SerdeValue} `{Hobj : !SerdeObject} `{Hnull : !SerdeNull} `{Hget : !SerdeGet}.
Context `{Hb64 : Base64} `{Hmb : Serde ManifestBodyV1}.
Context `{Hpb : Serde ProgressBodyV1} `{Hpe : Serde ProgressEnvelopeV1}.
Context `{Htjb : Serde (TransportJournalBodyV1 (Hval := Hval))}.
Context `{Htje : Serde (TransportJournalEnvelopeV1 (Hval := Hval))}.
Context `{Hgm : Serde GenerationManifestV1} `{Hsu : Serde StartupManifestV1}.
Context `{Hsh : Serde SnapshotHttpMetadataV1} `{Htx : Serde TransportMetadataV1}.
Context `{Htt : Serde TelemetryRecordV1} `{Hvm : Serde VerificationDigestMaterial}.
Context `{Hcte : Serde CanonicalTradeEvent} `{Hpm : Serde ProofDigestMaterial}.
Context `{Hproof : Serde RawGenerationHandoverProofV1} `{Hvp : SerdePretty VerifiedGenerationV1}.
Context `{Hcf : Serde CampaignManifestV1} `{Hcs : Serde CampaignStartupV1} `{Hcv : Serde VerificationMaterial}.
Context `{Hcj : Serde (CampaignJournalBodyV1 (Hval := Hval))} `{Hcl : Serde (CampaignJournalEnvelopeV1 (Hval := Hval))}.

(** Records with consecutive indexes, each holding the digest of the one before, in the
    order of their times. *)
Fixpoint chained (index : Z) (previous : string) (mono : option Z) (l : list CampaignJournalEnvelopeV1) : Prop :=
  match l with
  | [] => True
  | r :: l =>
      let body := cl_body r in
      cj_schema body = "RawCampaignJournalRecordV1"%string ∧ cj_record_index body = index ∧
      cj_previous_record_sha256 body = previous ∧
      (∃ encoded, to_vec body = inr encoded ∧ cl_record_sha256 r = sha256_bytes encoded) ∧
      (∀ old, mono = Some old → old ≤ cj_campaign_mono_ns body) ∧
      chained (index + 1) (cl_record_sha256 r) (Some (cj_campaign_mono_ns body)) l
  end.
Definition terminal_digest (previous : string) (l : list CampaignJournalEnvelopeV1) : string :=
  match last l with Some r => cl_record_sha256 r | None => previous end.
Definition line_holds (line : bytes) (r : CampaignJournalEnvelopeV1) : Prop := line ≠ [] ∧ from_slice line = inr r.

Lemma terminal_digest_cons previous r l : terminal_digest previous (r :: l) = terminal_digest (cl_record_sha256 r) l.
Proof. unfold terminal_digest. rewrite last_cons. by destruct (last l). Qed.

Lemma journal_turn_iff records previous mono line records' digest mono' :
  journal_turn (records, previous, mono) line = Ok (records', digest, mono') ↔
  ∃ r, line_holds line r ∧ chained (len records) previous mono [r] ∧ records' = records ++ [r] ∧
    digest = cl_record_sha256 r ∧ mono' = Some (cj_campaign_mono_ns (cl_body r)).
Proof.
  unfold journal_turn, line_holds. split.
  - intros ([] & Hl%reject_Ok%bool_decide_eq_false & H)%res_bind_Ok. apply res_bind_Ok in H as (r & Hr%map_err_Ok & H).
    apply res_bind_Ok in H as (b & Hb%map_err_Ok & H). apply res_bind_Ok in H as ([] & E%reject_Ok & [= <- <- <-]).
    repeat (apply orb_false_iff in E as [E ?]). rewrite !negb_false_iff, !String.eqb_eq, ?Z.eqb_eq in *.
    exists r. cbn [chained]. split_and!; try done.
    + by exists b.
    + intros old ->. match goal with H : is_some_and _ _ = false |- _ => by apply Z.ltb_ge in H end.
  - intros (r & [Hl Hr] & (Hs & Hi & Hp & (b & Hb & Hd) & Hm & _) & -> & -> & ->).
    rewrite bool_decide_eq_false_2 by done. cbn [reject mbind res_bind]. rewrite Hr. cbn [map_err mbind res_bind].
    rewrite Hb. cbn [map_err mbind res_bind]. rewrite Hs, Hi, Hp, Hd, !String.eqb_refl, Z.eqb_refl. cbn [negb orb].
    destruct mono as [old|]; cbn [is_some_and]; [|done]. rewrite (proj2 (Z.ltb_ge _ _)); [done|by apply Hm].
Qed.

Lemma journal_fold_iff lines records previous mono records' digest :
  (∃ mono', try_fold journal_turn (records, previous, mono) lines = Ok (records', digest, mono')) ↔
  ∃ l, Forall2 line_holds lines l ∧ chained (len records) previous mono l ∧ records' = records ++ l ∧
    digest = terminal_digest previous l.
Proof.
  revert records previous mono. induction lines as [|line lines IH]; intros records previous mono.
  { split.
    - intros (m & [= <- <- <-]). exists []. rewrite app_nil_r. split_and!; [constructor|done..].
    - intros (l & ->%Forall2_nil_inv_l & _ & -> & ->). rewrite app_nil_r. by eexists. }
  cbn [try_fold]. split.
  - intros (m & H). apply res_bind_Ok in H as ([[rs d] m1] & (r & Hr & Hc & -> & -> & ->)%journal_turn_iff & H).
    destruct (proj1 (IH _ _ _) (ex_intro _ _ H)) as (l & HF & Hl & -> & ->). exists (r :: l).
    rewrite terminal_digest_cons, <-app_assoc. split_and!; [by constructor| |done|done].
    cbn [chained] in Hc |- *. rewrite len_app in Hl. destruct Hc as (? & ? & ? & ? & ? & _). split_and!; done.
  - intros (l & HF & Hc & -> & ->). apply Forall2_cons_inv_l in HF as (r & l' & Hr & HF & ->).
    cbn [chained] in Hc. destruct Hc as (C1 & C2 & C3 & C4 & C5 & C6).
    assert (journal_turn (records, previous, mono) line
            = Ok (records ++ [r], cl_record_sha256 r, Some (cj_campaign_mono_ns (cl_body r)))) as ->
      by (apply journal_turn_iff; exists r; split_and!; try done; by cbn).
    cbn [mbind res_bind]. apply IH. exists l'. rewrite len_app, terminal_digest_cons, <-app_assoc. done.
Qed.

(** The scan of a journal accepts exactly the files of whole lines that hold a chain of
    records. *)
Lemma scan_journal_iff t path j :
  scan_journal t path = Ok j ↔
  ∃ lines, open_file (t_files t) path = Ok (journal_text lines) ∧ lines ≠ [] ∧ Forall (λ line, x0a ∉ line) lines ∧
    Forall2 line_holds lines (vj_records j) ∧ chained 0 ZERO_DIGEST None (vj_records j) ∧
    vj_terminal_sha256 j = terminal_digest ZERO_DIGEST (vj_records j).
Proof.
  unfold scan_journal. split.
  - intros (content & Hc & H)%res_bind_Ok. apply res_bind_Ok in H as ([] & Hl%reject_Ok%negb_false_iff%bool_decide_eq_true & H).
    apply res_bind_Ok in H as ([[rs d] m] & Hf & H). apply res_bind_Ok in H as ([] & _ & [= <-]).
    apply last_Some in Hl as [b ->]. rewrite length_app in Hf. cbn [length] in Hf.
    replace (pred (length b + 1)) with (length b) in Hf by lia. rewrite take_app_length in Hf.
    destruct (split_newline_join b) as (S1 & S2 & S3). rewrite S2 in Hc. exists (split_newline b).
    destruct (proj1 (journal_fold_iff _ _ _ _ _ _) (ex_intro _ _ Hf)) as (l & HF & Hch & -> & ->).
    split_and!; done.
  - intros (lines & Ho & Hne & Hnl & HF & Hch & Ht). rewrite Ho. cbn [mbind res_bind].
    destruct (split_newline_text _ Hne Hnl) as (b & -> & Hsp).
    rewrite last_snoc, bool_decide_eq_true_2 by done. cbn [negb reject mbind res_bind]. rewrite length_app. cbn [length].
    replace (pred (length b + 1)) with (length b) by lia. rewrite take_app_length, Hsp.
    destruct (proj2 (journal_fold_iff lines [] ZERO_DIGEST None (vj_records j) (vj_terminal_sha256 j))) as (m & ->);
      [by exists (vj_records j)|].
    cbn [mbind res_bind]. rewrite bool_decide_eq_false_2; [by destruct j|].
    intros E. apply Forall2_length in HF. destruct lines; [done|cbn in HF; lia].
Qed.

(** What the verifier found out about generation [i]: it passes the verifier of generations
    at the place the manifest lists, with the identity, the digests and the counts of
    records that the manifest lists, and its report file is byte for byte the recomputed
    report. *)
Definition generation_verified (t : tree) (campaign : string) (m : CampaignManifestV1) (i : nat)
    (listed : CampaignGenerationResultV1) (g : VerifiedGenerationV1) : Prop :=
  verify_segmented_generation t (path_join campaign (cg_session_dir listed)) = Ok g ∧
  cg_session_dir listed = ("generations/" ++ cg_session_id listed)%string ∧
  vg_generation_index g = Z.of_nat i ∧ vg_session_id g = cg_session_id listed ∧ vg_symbol g = cf_symbol m ∧
  vg_verification_sha256 g = cg_verification_sha256 listed ∧
  vg_generation_manifest_sha256 g = cg_generation_manifest_sha256 listed ∧
  vg_collector_executable_sha256 g = cf_capture_executable_sha256 m ∧
  vg_public_config_sha256 g = cf_public_config_sha256 m ∧
  stream_count g "depth" = Ok (cg_depth_records listed) ∧ stream_count g "trade" = Ok (cg_trade_records listed) ∧
  vg_segment_duration_s g = cf_segment_s m ∧ vg_duration_requested_s g ≤ cf_rotation_s m + cf_overlap_s m ∧
  ∃ report, to_vec_pretty (set_session_dir (cg_session_dir listed) g) = inr report ∧
    open_file (t_files t) (path_join campaign ("evaluations/generation-" ++ pad3 (Z.of_nat i) ++ "-rust.json"))
    = Ok (report ++ [x0a]) ∧ sha256_bytes (report ++ [x0a]) = cg_evaluation_file_sha256 listed.

(** What it found out about the handover from generation [i]: the proof file has the
    digests the manifest lists and the verifier of handovers accepts it. *)
Definition handover_verified (t : tree) (campaign : string) (m : CampaignManifestV1) (i : nat)
    (proof : RawGenerationHandoverProofV1) : Prop :=
  ∃ a b listed content, cf_generations m !! i = Some a ∧ cf_generations m !! S i = Some b ∧
    cf_handovers m !! i = Some listed ∧ ch_proof_sha256 listed = hp_proof_sha256 proof ∧
    ch_proof_file_sha256 listed = sha256_bytes content ∧
    open_file (t_files t) (path_join campaign
      ("handovers/" ++ handover_dir (Z.of_nat i) (Z.of_nat i + 1) ++ "/handover.json")) = Ok content ∧
    from_slice content = inr proof ∧ hp_predecessor_generation_index proof = Z.of_nat i ∧
    hp_successor_generation_index proof = Z.of_nat i + 1 ∧ hp_symbol proof = cf_symbol m ∧
    verify_terminal_raw_generation_handover t (path_join campaign (cg_session_dir a))
      (path_join campaign (cg_session_dir b)) proof = Ok ().

Local Ltac parts := match goal with
  | H : _ || _ = false |- _ => apply orb_false_iff in H as [? ?]
  | H : negb _ = false |- _ => apply negb_false_iff in H
  | H : String.eqb _ _ = true |- _ => apply String.eqb_eq in H
  | H : (_ =? _) = true |- _ => apply Z.eqb_eq in H
  | H : (_ <? _) = false |- _ => apply Z.ltb_ge in H
  | H : bool_decide _ = true |- _ => apply bool_decide_eq_true in H
  end.

(** What the lifecycle is told about a generation: its verified report and the digest of its
    own startup file. *)
Definition launched_by (t : tree) (campaign : string) (listed : CampaignGenerationResultV1)
    (g : VerifiedGenerationV1) (e : GenerationLifecycleExpectation) : Prop :=
  ∃ startup, open_file (t_files t) (path_join (path_join campaign (cg_session_dir listed)) "startup.json") = Ok startup ∧
    e = generation_expectation g (sha256_bytes startup).

Lemma generation_turn_Ok t campaign m i listed g vg e name :
  campaign_generation_turn t campaign m (i, listed) = Ok (g, vg, e, name) →
  generation_verified t campaign m i listed g ∧ ge_generation_index e = Z.of_nat i ∧
  launched_by t campaign listed g e ∧
  vg = mkVerifiedCampaignGeneration (Z.of_nat i) (vg_session_id g) (vg_verification_sha256 g)
         (cg_depth_records listed) (cg_trade_records listed).
Proof.
  unfold campaign_generation_turn. intros ([] & E1%reject_Ok & H)%res_bind_Ok.
  apply res_bind_Ok in H as ([] & E2%reject_Ok & H). apply res_bind_Ok in H as (rel & Hrel & H).
  apply res_bind_Ok in H as (v & Hv & H). apply res_bind_Ok in H as ([] & Htime & H).
  apply res_bind_Ok in H as ([] & E3%reject_Ok & H).
  do 2 (apply res_bind_Ok in H as (? & ? & H); apply res_bind_Ok in H as ([] & ?%reject_Ok & H)).
  apply res_bind_Ok in H as ([] & E4%reject_Ok & H). apply res_bind_Ok in H as (ef & Hef & H).
  apply res_bind_Ok in H as (ev & Hev & H). apply res_bind_Ok in H as (rep & Hrep%map_err_Ok & H).
  apply res_bind_Ok in H as ([] & E5%reject_Ok & H). apply res_bind_Ok in H as (nm & _ & H).
  apply res_bind_Ok in H as (sb & Hsb & [= <- <- <- <-]).
  unfold campaign_relative in Hrel, Hef. apply res_bind_Ok in Hrel as ([] & _ & [= <-]), Hef as ([] & _ & [= <-]).
  unfold campaign_generation_timing in Htime. apply res_bind_Ok in Htime as (mx & Hmx & Htime%reject_Ok).
  apply ok_or_Ok, checked_add_Some in Hmx as [_ ->]. repeat parts. subst ev.
  assert (cg_generation_index listed = Z.of_nat i) as Hix by done. rewrite Hix in *.
  match goal with H : cg_evaluation_file listed = _ |- _ => rewrite H in Hev end.
  split; [|split; [done|split; [by exists sb|congruence]]]. split_and!; try done; try congruence.
  exists rep. by split_and!.
Qed.

Lemma handover_turn_Ok t campaign m verifications i listed h proof :
  Forall2 (λ il g, generation_verified t campaign m il.1 il.2 g) (imap pair (cf_generations m)) verifications →
  campaign_handover_turn t campaign m verifications (i, listed) = Ok (h, proof) → cf_handovers m !! i = Some listed →
  handover_verified t campaign m i proof.
Proof.
  intros HF H Hlist. unfold campaign_handover_turn in H. apply res_bind_Ok in H as ([] & E1%reject_Ok & H).
  apply res_bind_Ok in H as (rel & Hrel & H). apply res_bind_Ok in H as (pb & Hpb' & H).
  apply res_bind_Ok in H as ([] & E0%reject_Ok & H). apply res_bind_Ok in H as (p & Hp%map_err_Ok & H).
  apply res_bind_Ok in H as ([] & Hd & H). apply res_bind_Ok in H as (pv & Hpv%expect_Ok & H).
  apply res_bind_Ok in H as (sv & Hsv%expect_Ok & H). apply res_bind_Ok in H as (pg & Hpg%expect_Ok & H).
  apply res_bind_Ok in H as (sg & Hsg%expect_Ok & H). apply res_bind_Ok in H as (sb & _ & H).
  apply res_bind_Ok in H as ([] & E2%reject_Ok & H). apply res_bind_Ok in H as ([] & Hver & H).
  apply res_bind_Ok in H as (par & _ & H). apply res_bind_Ok in H as ([] & _ & [= <- <-]).
  unfold campaign_relative in Hrel. apply res_bind_Ok in Hrel as ([] & _ & [= <-]). repeat parts.
  assert (∀ k l g, cf_generations m !! k = Some l → verifications !! k = Some g →
            verify_segmented_generation t (path_join campaign (cg_session_dir l)) = Ok g) as Hgen.
  { intros k l g Hl Hg. destruct (Forall2_lookup_r _ _ _ _ _ HF Hg) as (il & Hil & Hv & _).
    rewrite list_lookup_imap, Hl in Hil. injection Hil as <-. exact Hv. }
  exists pg, sg, listed, pb. match goal with H : ch_proof_file listed = _ |- _ => rewrite H in Hpb' end.
  split_and!; try done. unfold verify_terminal_raw_generation_handover. rewrite Hd. cbn [mbind res_bind].
  rewrite (Hgen _ _ _ Hpg Hpv), (Hgen _ _ _ Hsg Hsv). exact Hver.
Qed.

Lemma handover_turn_expectation t campaign m verifications i listed h proof :
  campaign_handover_turn t campaign m verifications (i, listed) = Ok (h, proof) →
  h = mkHandoverExpectation (Z.of_nat i) (Z.of_nat i + 1) (hp_proof_sha256 proof).
Proof. unfold campaign_handover_turn. intros H. repeat (apply res_bind_Ok in H as (? & _ & H)). by injection H as <- <-. Qed.

Lemma handover_expectations t campaign m verifications (l : list CampaignHandoverResultV1) hs :
  Forall2 (λ x y, campaign_handover_turn t campaign m verifications x = Ok y) (imap pair l) hs →
  hs.*1 = imap (λ i p, mkHandoverExpectation (Z.of_nat i) (Z.of_nat i + 1) (hp_proof_sha256 p)) hs.*2.
Proof.
  intros HF. apply list_eq. intros i. rewrite list_lookup_imap, !list_lookup_fmap. destruct (hs !! i) as [[h p]|] eqn:E; [|done].
  cbn. f_equal. destruct (Forall2_lookup_r _ _ _ _ _ HF E) as ([i' l'] & Hl & Ht).
  apply list_lookup_imap_Some in Hl as (? & _ & [= -> ->]). by eapply handover_turn_expectation.
Qed.

Lemma manifest_journal campaign m : manifest_contract campaign m = true → cf_journal_file m = "campaign-events.jsonl"%string.
Proof. unfold manifest_contract. rewrite !andb_true_iff. intros H. by apply String.eqb_eq, H. Qed.

Lemma journal_committed_Ok journal m digest :
  journal_committed journal m digest = Ok () → ∃ commit, last (vj_records journal) = Some commit ∧
    as_str (value_index (cj_payload (cl_body commit)) "manifest_sha256") = Some digest.
Proof.
  unfold journal_committed. intros (n & Hn%ok_or_Ok & H)%res_bind_Ok. apply checked_add_Some in Hn as [_ ->].
  apply res_bind_Ok in H as ([] & Hl%reject_Ok%negb_false_iff%Z.eqb_eq & H). apply res_bind_Ok in H as (p & _ & H).
  apply res_bind_Ok in H as (f & _ & H). apply res_bind_Ok in H as ([] & _ & H). apply res_bind_Ok in H as ([] & _ & H).
  apply res_bind_Ok in H as (c & Hc%expect_Ok & H%reject_Ok). repeat parts. exists c. split.
  - rewrite last_lookup, <-Hc. f_equal. pose proof (lookup_lt_Some _ _ _ Hc). unfold len in Hl. lia.
  - unfold index_is in *. by repeat parts.
Qed.

Lemma generations_verified t campaign m verified :
  try_map (campaign_generation_turn t campaign m) (imap pair (cf_generations m)) = Ok verified →
  let verifications := (λ '(v, _, _, _), v) <$> verified in
  let expectations := (λ '(_, _, e, _), e) <$> verified in
  Forall2 (λ il g, generation_verified t campaign m il.1 il.2 g) (imap pair (cf_generations m)) verifications ∧
  (∀ i e, expectations !! i = Some e → ge_generation_index e = Z.of_nat i) ∧
  (∀ i l g e, cf_generations m !! i = Some l → verifications !! i = Some g → expectations !! i = Some e →
     launched_by t campaign l g e) ∧
  Forall2 (λ il vg, vg = mkVerifiedCampaignGeneration (Z.of_nat il.1) (cg_session_id il.2)
                           (cg_verification_sha256 il.2) (cg_depth_records il.2) (cg_trade_records il.2))
    (imap pair (cf_generations m)) ((λ '(_, vg, _, _), vg) <$> verified).
Proof.
  intros HF%try_map_Ok_Forall2. split_and!.
  - apply Forall2_fmap_r. eapply Forall2_impl; [exact HF|]. intros [i l] [[[g vg] e] nm] Ht. by eapply generation_turn_Ok.
  - intros i e He. rewrite list_lookup_fmap in He. destruct (verified !! i) as [[[[g vg] e'] nm]|] eqn:E; [|done].
    injection He as ->. destruct (Forall2_lookup_r _ _ _ _ _ HF E) as ([i' l] & Hl & Ht).
    apply list_lookup_imap_Some in Hl as (? & _ & [= -> ->]). by eapply generation_turn_Ok.
  - intros i l g e Hl Hg He. rewrite list_lookup_fmap in Hg. rewrite list_lookup_fmap in He. destruct (verified !! i) as [[[[g' vg] e'] nm]|] eqn:E; [|done].
    injection Hg as ->. injection He as ->. destruct (Forall2_lookup_r _ _ _ _ _ HF E) as ([i' l'] & Hl' & Ht).
    rewrite list_lookup_imap, Hl in Hl'. injection Hl' as <- <-. apply generation_turn_Ok in Ht as (_ & _ & Hs & _). exact Hs.
  - apply Forall2_fmap_r. eapply Forall2_impl; [exact HF|]. intros [i l] [[[g vg] e] nm] Ht.
    apply generation_turn_Ok in Ht as ((_ & _ & _ & Hid & _ & Hver & _) & _ & _ & ->). cbn. by rewrite Hid, Hver.
Qed.

(** C25: an accepted campaign is what its manifest says. Every listed generation passes the
    verifier of generations at its place in the directory, with the index, the campaign's
    symbol, executable and configuration, the listed verification and manifest digests and
    the listed numbers of depth and trade records; its report file is byte for byte the
    recomputed report and has the listed digest. Every two consecutive generations are
    joined by a proof file with the listed digests that passes the verifier of handovers.
    The generations directory holds exactly the listed sessions, and the report lists them
    with their counts. The journal is a file of whole lines that hold one chain of records,
    the last of which commits the digest of this manifest, and its records tell an accepted
    life of exactly these generations, each launched from its own startup file, and of these
    handovers. *)
Theorem verified_campaign_sound t campaign v :
  verify_raw_campaign t campaign = Ok v →
  ∃ content m lines journal verifications expectations proofs commit,
    open_file (t_files t) (path_join campaign "campaign.json") = Ok content ∧ from_slice content = inr m ∧
    vk_campaign_manifest_sha256 v = sha256_bytes content ∧ vk_status v = "PASS"%string ∧
    vk_handovers v = len (cf_generations m) - 1 ∧
    Forall2 (λ il g, generation_verified t campaign m il.1 il.2 g) (imap pair (cf_generations m)) verifications ∧
    length proofs = pred (length (cf_generations m)) ∧
    (∀ i proof, proofs !! i = Some proof → handover_verified t campaign m i proof) ∧
    open_file (t_files t) (path_join campaign "campaign-events.jsonl") = Ok (journal_text lines) ∧
    Forall2 line_holds lines (vj_records journal) ∧ chained 0 ZERO_DIGEST None (vj_records journal) ∧
    vj_terminal_sha256 journal = vk_journal_terminal_sha256 v ∧
    last (vj_records journal) = Some commit ∧
    as_str (value_index (cj_payload (cl_body commit)) "manifest_sha256") = Some (sha256_bytes content) ∧
    (∀ i e, expectations !! i = Some e → ge_generation_index e = Z.of_nat i) ∧
    length expectations = length (cf_generations m) ∧
    (∀ i l g e, cf_generations m !! i = Some l → verifications !! i = Some g → expectations !! i = Some e →
       launched_by t campaign l g e) ∧
    Forall2 (λ il vg, vg = mkVerifiedCampaignGeneration (Z.of_nat il.1) (cg_session_id il.2)
                             (cg_verification_sha256 il.2) (cg_depth_records il.2) (cg_trade_records il.2))
      (imap pair (cf_generations m)) (vk_generations v) ∧
    exact_entries t (path_join campaign "generations") (cg_session_id <$> cf_generations m) = Ok () ∧
    validate_campaign_lifecycle journal (cf_campaign_id m) (cf_startup_sha256 m) (sha256_bytes content)
      (cf_total_duration_s m) expectations
      (imap (λ i p, mkHandoverExpectation (Z.of_nat i) (Z.of_nat i + 1) (hp_proof_sha256 p)) proofs) = Ok ().
Proof.
  unfold verify_raw_campaign. intros (content & Hc & H)%res_bind_Ok. apply res_bind_Ok in H as (m & Hm%map_err_Ok & H).
  apply res_bind_Ok in H as ([] & Hman%reject_Ok%negb_false_iff & H). apply res_bind_Ok in H as (sf & _ & H).
  apply res_bind_Ok in H as (sb & _ & H). apply res_bind_Ok in H as ([] & _ & H). apply res_bind_Ok in H as (su & _ & H).
  apply res_bind_Ok in H as ([] & _ & H). apply res_bind_Ok in H as (jf & Hjf & H).
  apply res_bind_Ok in H as (journal & Hj & H). apply res_bind_Ok in H as ([] & Hcommit & H).
  apply res_bind_Ok in H as ([] & Hcard%reject_Ok & H). apply res_bind_Ok in H as (verified & Hv & H).
  apply res_bind_Ok in H as (hs & Hh & H). apply res_bind_Ok in H as ([] & Hlife & H).
  apply res_bind_Ok in H as ([] & Hentries & H).
  do 4 apply res_bind_Ok in H as ([] & _ & H). apply res_bind_Ok in H as (mat & _ & [= <-]).
  apply manifest_journal in Hman. unfold campaign_relative in Hjf. apply res_bind_Ok in Hjf as ([] & _ & [= <-]).
  rewrite Hman in Hj. apply scan_journal_iff in Hj as (lines & Ho & Hne & _ & HF & Hch & Hterm).
  apply journal_committed_Ok in Hcommit as (commit & Hlast & Hsha256).
  apply orb_false_iff in Hcard as [Hn0%bool_decide_eq_false Hn%negb_false_iff%Nat.eqb_eq].
  destruct (generations_verified _ _ _ _ Hv) as (V1 & V2 & V3 & V4).
  pose proof (Forall2_length _ _ _ V4) as Hlv. rewrite length_fmap, length_imap in Hlv.
  apply try_map_Ok_Forall2 in Hh. pose proof (Forall2_length _ _ _ Hh) as Hlen. rewrite length_imap in Hlen.
  eexists content, m, lines, journal, _, _, hs.*2, commit. cbn.
  split_and!; [exact Hc|exact Hm|done|done| |exact V1| | |exact Ho|exact HF|exact Hch|done|done|done|exact V2| |exact V3|exact V4|exact Hentries|].
  - unfold len in *. lia.
  - rewrite length_fmap. lia.
  - intros i p Hp. rewrite list_lookup_fmap in Hp. destruct (hs !! i) as [[h p']|] eqn:Eh; [|done]. injection Hp as ->.
    destruct (Forall2_lookup_r _ _ _ _ _ Hh Eh) as ([i' l] & Hl & Ht). apply list_lookup_imap_Some in Hl as (l' & Hl' & [= -> ->]).
    by eapply handover_turn_Ok.
  - by rewrite length_fmap.
  - rewrite <-(handover_expectations _ _ _ _ _ _ Hh). exact Hlife.
Qed.
End campaign_theory.

(** ** The two generations as a campaign *)
Module CampaignRunDemo.
Export RunDemo.
#[export] Instance campaign_body_eq_decision : EqDecision CampaignJournalBodyV1.
Proof.
  intros a b. unfold Decision. decide equality;
    first [apply Json.json_eq_dec | apply String.eq_dec | apply Z.eq_dec | apply (decide (_ = _))].
Defined.
#[export] Instance campaign_envelope_eq_decision : EqDecision CampaignJournalEnvelopeV1.
Proof. solve_decision. Defined.

Definition verified (g : nat) : list VerifiedGenerationV1 :=
  match verify_segmented_generation CampaignDemo.campaign (root g) with Ok v => [v] | _ => [] end.
Definition verifications : list VerifiedGenerationV1 := Eval vm_compute in verified 0 ++ verified 1.
Definition announced : list VerifiedServerShutdownV1 := Eval vm_compute in
  verifications ≫= λ v, vg_streams v ≫= vs_server_shutdowns.

(** The journal. The first generation is asked to disconnect and the second one takes over. *)
Definition child (g : nat) (event schema fields : string) : Value := TransportDemo.json
  ("{'event':'" ++ event ++ "','schema':'" ++ schema ++ "','session_id':'" ++ session_id g ++ "'" ++ fields ++ "}").
Definition process_started (g : nat) : Value := child g "PROCESS_STARTED" "CaptureProcessEventV1"
  (",'generation_index':" ++ u_to_string (Z.of_nat g) ++ ",'symbol':'BTCUSDT','spec_revision':'" ++ SPEC_REVISION
   ++ "','startup_manifest_sha256':'" ++ digest_of (startup_file g) ++ "','process_id':7,'session_dir':'/q/generations/"
   ++ session_id g ++ "'").
Definition process_terminal (g : nat) : Value := child g "PROCESS_TERMINAL" "CaptureTerminalProcessEventV1"
  ",'status':'COMPLETE','generation_manifest':'generation.json'".
Definition exited : Value := TransportDemo.json "{'event':'GENERATION_EXITED','success':true,'code':0}".
Definition shutdown_durable (x : VerifiedServerShutdownV1) : Value := child 0 "SERVER_SHUTDOWN_DURABLE"
  "ServerShutdownDurableProcessEventV1"
  (",'shutdown':{'schema':'DurableServerShutdownEventV1','stream':'" ++ vd_stream x ++ "','connection_epoch':'"
   ++ vd_connection_epoch x ++ "','segment_index':" ++ u_to_string (vd_segment_index x) ++ ",'raw_file':'" ++ vd_raw_file x
   ++ "','frame_index':" ++ u_to_string (vd_frame_index x) ++ ",'receive_mono_ns':" ++ u_to_string (vd_receive_mono_ns x)
   ++ ",'durable_record_count':" ++ u_to_string (vd_durable_record_count x) ++ ",'durable_through_offset':"
   ++ u_to_string (vd_durable_through_offset x) ++ ",'last_record_sha256':'" ++ vd_last_record_sha256 x ++ "'}").
Definition startup_text : bytes := stars 13.
Definition manifest_text : bytes := stars 12.
Definition entries : list (Z * option Z * string * Value) :=
  let json := TransportDemo.json in
  [(0, None, "CAMPAIGN", json ("{'event':'CAMPAIGN_STARTED','campaign_id':'c1','startup_sha256':'"
      ++ digest_of startup_text ++ "'}"));
   (0, Some 0, "CAMPAIGN", json "{'event':'GENERATION_LAUNCHED','duration_s':10}");
   (1, Some 0, "CHILD_STDOUT", process_started 0);
   (1, Some 0, "SUPERVISOR", json "{'event':'INITIAL_ACTIVE_REGISTERED'}")]%string
  ++ ((λ x, (4, Some 0, "CHILD_STDOUT"%string, shutdown_durable x)) <$> announced)
  ++ [(4, Some 1, "CAMPAIGN", json "{'event':'GENERATION_LAUNCHED_SERVER_SHUTDOWN','duration_s':10,'source_generation':0,'source_epoch':'d0'}");
   (5, Some 1, "CHILD_STDOUT", process_started 1);
   (5, Some 1, "SUPERVISOR", json "{'event':'CANDIDATE_REGISTERED'}");
   (11, Some 0, "CHILD_STDOUT", process_terminal 0); (11, Some 0, "CAMPAIGN", exited);
   (11, Some 1, "CAMPAIGN", json "{'event':'HANDOVER_PROOF_STARTED','predecessor':0}");
   (12, Some 1, "SUPERVISOR", json ("{'event':'HANDOVER_PROVEN_AND_PROMOTED','predecessor':0,'proof_sha256':'"
      ++ hp_proof_sha256 handover ++ "'}"));
   (15, Some 1, "CHILD_STDOUT", process_terminal 1); (15, Some 1, "CAMPAIGN", exited);
   (16, None, "CAMPAIGN", json "{'event':'CAMPAIGN_EVALUATION_PREPARED'}");
   (17, None, "CAMPAIGN", json ("{'event':'CAMPAIGN_COMMITTED','manifest_file':'campaign.json','manifest_sha256':'"
      ++ digest_of manifest_text ++ "'}"))]%string.
Definition bodies : list CampaignJournalBodyV1 := Eval vm_compute in
  imap (λ i '(second, generation, channel, payload),
    mkCampaignBody "RawCampaignJournalRecordV1" (Z.of_nat i) 1 (second * 1000000000) generation channel payload
      (match i with O => ZERO_DIGEST | S i => star_digest i end)) entries.
#[export] Instance campaign_body_serde : Serde CampaignJournalBodyV1 := table_serde bodies.
Definition envelopes : list CampaignJournalEnvelopeV1 := Eval vm_compute in
  imap (λ i b, mkCampaignEnvelope b (star_digest i)) bodies.
#[export] Instance campaign_envelope_serde : Serde CampaignJournalEnvelopeV1 := text_serde envelopes.
Definition events_file : bytes := imap (λ i _, stars (S i) ++ [x0a]) bodies ≫= id.

#[export] Instance report_pretty : SerdePretty VerifiedGenerationV1 := λ g,
  inr (str_bytes (vg_session_id g ++ vg_verification_sha256 g ++ vg_session_dir g)).
Definition evaluation (g : VerifiedGenerationV1) : bytes :=
  str_bytes (vg_session_id g ++ vg_verification_sha256 g ++ ("generations/" ++ vg_session_id g)) ++ [x0a].
Definition results : list CampaignGenerationResultV1 := Eval vm_compute in
  (λ g, mkGenerationResult (vg_generation_index g) (vg_session_id g) ("generations/" ++ vg_session_id g)
    (vg_verification_sha256 g) ("evaluations/generation-" ++ pad3 (vg_generation_index g) ++ "-rust.json")
    (digest_of (evaluation g)) (vg_generation_manifest_sha256 g) (default 0 (vs_records <$> head (vg_streams g)))
    (default 0 (vs_records <$> last (vg_streams g)))) <$> verifications.
Definition campaign_manifest : CampaignManifestV1 := Eval vm_compute in
  mkCampaignManifest "RawCampaignManifestV1" "COMPLETE" "c1" "BTCUSDT" 12 10 10 10 5 9 SPEC_REVISION "NONE" "ABSENT"
    ZERO_DIGEST ZERO_DIGEST ZERO_DIGEST "campaign-startup.json" (digest_of startup_text) "campaign-events.jsonl"
    "PRECOMMIT_PREFIX" (len bodies - 1) (star_digest (length bodies - 2)) 0 results
    [mkHandoverResult 0 1 (hp_proof_sha256 handover) "handovers/handover-000-to-001/handover.json" (digest_of proof_file)].
#[export] Instance campaign_manifest_serde : Serde CampaignManifestV1 := keyed_serde [(manifest_text, campaign_manifest)].
#[export] Instance campaign_startup_serde : Serde CampaignStartupV1 := keyed_serde
  [(startup_text, mkCampaignStartup "RawCampaignStartupV1" "c1" "BTCUSDT" 12 10 10 10 5 77 ZERO_DIGEST ZERO_DIGEST
     ZERO_DIGEST SPEC_REVISION "NONE" "ABSENT")].
#[export] Instance campaign_material_serde : Serde VerificationMaterial := {|
  to_vec m := inr (str_bytes (vl_campaign_id m ++ vl_journal_terminal_sha256 m)); from_slice _ := inl "unused"%string |}.

Definition campaign_tree : tree := tree_of
  ([("/q/run1/c1/campaign.json", manifest_text); ("/q/run1/c1/campaign-startup.json", startup_text);
    ("/q/run1/c1/campaign-events.jsonl", events_file);
    ("/q/run1/c1/handovers/handover-000-to-001/handover.json", proof_file)]%string
   ++ imap (λ i g, ("/q/run1/c1/evaluations/generation-" ++ pad3 (Z.of_nat i) ++ "-rust.json", evaluation g)%string) verifications
   ++ files_of_campaign)
  ([(campaign_root, ["generations"; "evaluations"; "handovers"; "control"; "campaign.json"; "campaign-startup.json";
       "campaign-events.jsonl"]); ("/q/run1/c1/generations", ["s1"; "s0"]); ("/q/run1/c1/control", []);
    ("/q/run1/c1/evaluations", ["generation-001-rust.json"; "generation-000-rust.json"]);
    ("/q/run1/c1/handovers", ["handover-000-to-001"]); ("/q/run1/c1/handovers/handover-000-to-001", ["handover.json"])]%string
   ++ generation_directories 0 ++ generation_directories 1)
  (generation_canonical 0 ++ generation_canonical 1).

(** What the journal is compared with. *)
Definition expectations : list GenerationLifecycleExpectation :=
  imap (λ i g, generation_expectation g (digest_of (startup_file i))) verifications.
Definition demo_journal : VerifiedJournal := mkVerifiedJournal envelopes (star_digest (pred (length bodies))).
Definition demo_handovers : list HandoverLifecycleExpectation := [mkHandoverExpectation 0 1 (hp_proof_sha256 handover)].
Lemma demo_indexed : indexed expectations.
Proof.
  split; [done|]. intros i e. unfold expectations. rewrite list_lookup_imap. do 2 (destruct i as [|i]; [by intros [= <-]|]).
  by rewrite lookup_ge_None_2 by (cbn; lia).
Qed.
Lemma demo_accepted :
  validate_campaign_lifecycle demo_journal "c1" (digest_of startup_text) (digest_of manifest_text) 12 expectations
    demo_handovers = Ok ().
Proof. vm_compute. reflexivity. Qed.
End CampaignRunDemo.

Section campaign_witnesses.
Import CampaignRunDemo.

Lemma verified_campaign_sound_witness :
  ∃ v, verify_raw_campaign campaign_tree campaign_root = Ok v ∧ vk_handovers v = 1 ∧
  ∃ content m proofs, open_file (t_files campaign_tree) (path_join campaign_root "campaign.json") = Ok content ∧
    from_slice content = inr m ∧ vk_campaign_manifest_sha256 v = sha256_bytes content ∧
    length proofs = pred (length (cf_generations m)) ∧
    (∀ i proof, proofs !! i = Some proof → handover_verified campaign_tree campaign_root m i proof).
Proof.
  assert (match verify_raw_campaign campaign_tree campaign_root with
          | Ok v => bool_decide (vk_handovers v = 1) | _ => false end = true) as H by (vm_compute; reflexivity).
  destruct (verify_raw_campaign campaign_tree campaign_root) as [v| |] eqn:E; [|discriminate H..].
  exists v. split; [reflexivity|]. split; [by apply bool_decide_eq_true in H|].
  destruct (verified_campaign_sound campaign_tree campaign_root v E) as
    (content & m & lines & journal & vs & es & ps & commit & H1 & H2 & H3 & _ & _ & _ & H4 & H5 & _).
  exists content, m, ps. split; [exact H1|]. split; [exact H2|]. split; [exact H3|]. split; [exact H4|exact H5].
Defined.

Lemma campaign_life_in_order_witness :
  validate_campaign_lifecycle demo_journal "c1" (digest_of startup_text) (digest_of manifest_text) 12 expectations
    demo_handovers = Ok () ∧
  in_order expectations envelopes ∧ promotions envelopes = [1] ∧
  mark <$> envelopes = [None; Some (Launched, 0); Some (Started, 0); None; None; Some (Launched, 1); Some (Started, 1);
    None; Some (Terminal, 0); Some (Exited, 0); Some (ProofStarted, 1); Some (Promoted, 1); Some (Terminal, 1);
    Some (Exited, 1); None; None].
Proof.
  split; [exact demo_accepted|].
  destruct (campaign_life_in_order demo_journal "c1" (digest_of startup_text) (digest_of manifest_text) 12 expectations
    demo_handovers demo_indexed demo_accepted) as (H1 & H2 & _).
  split; [exact H1|]. split; [exact H2|]. vm_compute. reflexivity.
Defined.

Lemma campaign_time_covered_witness :
  ∃ first, at_time envelopes (Started, 0) first ∧ first ≤ CAMPAIGN_STARTUP_GRACE_NS ∧
  (∀ time, first ≤ time ≤ 12 * 1000000000 → ∃ g e start, expectations !! g = Some e ∧
     at_time envelopes (Started, Z.of_nat g) start ∧ start ≤ time ≤ start + ge_duration_requested_s e * 1000000000).
Proof.
  destruct (campaign_time_covered demo_journal "c1" (digest_of startup_text) (digest_of manifest_text) 12 expectations
    demo_handovers demo_indexed demo_accepted) as (first & H1 & H2 & H3 & _).
  exists first. split; [exact H1|]. split; [exact H2|exact H3].
Defined.

Lemma shutdowns_disposed_once_witness :
  length announced = 1%nat ∧
  (∀ x, x ∈ announced ↔ ∃ r, r ∈ envelopes ∧ published r = Some (0, x)) ∧
  count_key durable_key envelopes (0, "d0"%string) = 1 ∧ count_key disposed_key envelopes (0, "d0"%string) = 1.
Proof.
  destruct (shutdowns_disposed_once demo_journal "c1" (digest_of startup_text) (digest_of manifest_text) 12 expectations
    demo_handovers demo_indexed demo_accepted) as (H1 & _ & _ & H4).
  split; [reflexivity|]. split; [|split; [vm_compute; reflexivity|]].
  - intros x. destruct (expectations !! 0%nat) as [e|] eqn:E; [|discriminate E].
    assert (ge_server_shutdowns e = announced) as <- by (injection E as <-; vm_compute; reflexivity).
    exact (H1 0%nat e x E).
  - transitivity (count_key durable_key envelopes (0, "d0"%string)); [exact (H4 (0, "d0"%string))|vm_compute; reflexivity].
Defined.
End campaign_witnesses.
